(* ===== verification/_CoqProject ===== *)
-Q . S2P
Prelude.v
Bytes.v
GoIO.v
UsbIp.v
Hid.v
Descriptor.v
Urb.v
Control.v
MicBuffer.v
Feedback.v
FeedbackRuntime.v
InputPresentation.v
InputHistory.v
InputClaims.v
InputProtocol.v
VirtualBus.v
EndpointWorker.v
ResponseWriter.v
Schedulers.v
Transactions.v
UrbStream.v
Connection.v
EndpointService.v
RetainedUsb.v
RetainedTopology.v
RetainedLane.v
Retained.v
RetainedQueues.v
RetainedProtocol.v
RetainedRuns.v
RetainedService.v
Codec.v
UdeCx.v
XboxGip.v
XboxProfile.v
XboxSession.v
XboxMetadata.v
XboxLifecycle.v
InputChannel.v
Keyboard.v
Mouse.v
Xbox360.v
Ns2Report.v
Ns2Status.v
Ns2Device.v
Ns2Pro.v
