(* ===== verification/Prelude.v ===== *)
(** * VIIPER: a verification of the virtual USB device server

    VIIPER emulates USB input devices and exports them over USB/IP.  A client
    adds virtual devices to buses; a USB/IP host imports a device and sends it
    URBs; the server answers from the device's descriptors, its state and its
    scheduled reports; controller feedback flows back to the client.  This
    library models the parts of the Go program that carry that work and proves
    what makes each of them correct.

    ** Parts, files and sources

    - Go itself.  [Prelude] holds results of fallible functions, fixed-width
      integers with their wrap-around, instants, ring arrays and the
      development's tactics; [Bytes] byte slices, encoding/binary and decimal
      text; [GoIO] io.Writer and io.Reader as type classes with their
      documented laws, proved for buffers and for connections that fail.
    - Wire formats.  [UsbIp] is src/usbip (messages, ISO descriptors,
      ReadExactly, export identities); [Hid] is src/usb/hid (report
      descriptors); [Descriptor] is src/usb/usbdesc.go and the descriptor
      builders of src/internal/server/usb/server.go.
    - The URB path, src/internal/server/usb.  [Urb] has the header parse, the
      response serializers and the submission checks; [Control] endpoint zero
      of server.go with the routing state (selected configuration and
      alternate settings) and the active-endpoint resolution;
      [EndpointWorker] one worker's queue of endpoint_scheduler.go with every
      section under its mutex; [Schedulers] the worker table of a connection;
      [ResponseWriter] the conditional and late writers of response_writer.go;
      [Transactions] the two transactional ownership protocols of
      src/usb/device.go and urb_stream.go; [UrbStream] the command loop of
      handleUrbStream; [Connection] the loop interleaved with its workers;
      [EndpointService] how a worker serves a claimed URB (the process functions
      of endpoint_scheduler.go).
    - Retained devices, src/internal/retainedusb and the retained files of
      src/internal/server/usb.  [RetainedUsb] is the contract with a device's
      owner; [RetainedTopology] the descriptor and route checks and the service
      intervals; [RetainedLane] the ring of one lane; [Retained] the scheduler
      of retained_submission.go with its cadence and retirement files;
      [RetainedQueues] what the lanes guarantee together; [RetainedProtocol]
      the interleavings of its sections with their invariant, [RetainedRuns]
      the guarantees of whole runs, [RetainedService] the service goroutine.
    - Input.  [InputPresentation] is
      src/internal/inputpresentation/scheduler.go and contract.go: the
      scheduler of fixed-size reports (journal of transitions, latest state,
      retry, claims, faults); [InputHistory] its runs and their invariant,
      [InputClaims] selection and resolution, [InputProtocol] the guarantees.
    - Feedback and audio.  [Feedback] is src/controllerfeedback/frame.go and
      mailbox.go, [FeedbackRuntime] runtime.go; [MicBuffer] is src/device/internal/microphonebuffer/buffer.go.
    - Native driver.  [UdeCx] is src/internal/transport/udecx/protocol.go: the
      messages exchanged with the Windows driver.
    - Xbox One controller, src/device/xboxone.  [Codec] is the class of strict
      codecs its messages are instances of; [XboxGip] the GIP header, message
      bodies, host commands and downstream packets; [XboxProfile] the identity,
      descriptors and Hello; [XboxSession] the sequence pools of session.go;
      [XboxMetadata] the reliable metadata transfer of metadata.go;
      [XboxLifecycle] the controller state machine of lifecycle.go.
    - Simple devices.  [InputChannel] is the one-place channel between a
      client's stream and the host's polls with its two goroutines; [Keyboard]
      and [Mouse] are src/device/keyboard and src/device/mouse.  [Xbox360] is
      src/device/xbox360, which joins its client and the host through the
      scheduler of [InputPresentation].
    - Switch 2 Pro controller, src/device/ns2pro.  [Ns2Report] has the wire
      state, the two report layouts, the sequencer of report counters, flash
      data and serials; [Ns2Status] the strict decoder of the power status;
      [Ns2Device] the device with its commands; [Ns2Pro] its runs.
    - Topology.  [VirtualBus] is src/virtualbus/virtualbus.go: addresses,
      registrations, operation leases, removal and closing.

    ** How code becomes definitions

    A pure function is a function.  A method under a mutex is a function on the
    state the mutex protects; what a method does between two critical sections
    is split there, and a step relation interleaves the sections of all
    goroutines ([VirtualBus.step], [EndpointWorker.wstep], [Connection.cstep],
    [RetainedProtocol.rstep]).
    Errors are values of [result] or of an error type per component.  Bytes are
    integers below 256, counters wrap at their width, and instants are
    nanoseconds.  Clock readings, the iteration order of Go maps, the results of
    device callbacks and the entropy of identities are arguments, so a theorem
    holds for all of them.  Device implementations are records of functions
    over an arbitrary state.  Every definition computes, and the witnesses
    evaluate them.

    ** What the theorems show

    - Exactly one answer: every URB a worker accepts is answered once or
      unlinked, never both ([EndpointWorker]); a command of the stream is
      answered, enqueued or ends the connection ([UrbStream]); both hold
      together for a whole connection in every interleaving ([Connection]).
      The host's fresh sequence numbers are a guard of the enqueue step, as
      USB/IP requires of it.
    - Transactional requests: every claim the server takes is completed exactly
      once, with the outcome of the response that was sent; the response is the
      bytes the owner admitted and the routing state changes by the request that
      was parsed ([Transactions]).  A late response is sent, whole, exactly when
      its selection is terminal and in range ([ResponseWriter]).
    - Retained submissions: in every interleaving a staged ticket is ended once,
      by a completion or a retirement, and never forgotten; an accepted
      submission has one fate and is staged as the host sent it, oldest first;
      an admitted response is written and completed; retiring is exact and
      fits its fixed array; a service round ends; between resets of its cadence
      an endpoint is served more than k - 1 intervals after its k-th service
      before ([RetainedService]).
    - Serving an endpoint: every input claim is committed or deferred as its
      response went, a job unlinked before it is marked sends no byte, and an
      isochronous answer describes what it carries ([EndpointService]).
    - Refinement: the worker's ring of slots is a first-in first-out queue; the
      microphone ring is a byte queue.
    - Input: transitions are never lost, reordered or presented twice, and the
      continuous state before one is kept with it until its first deferral; an
      entry has one image; after a fault only the neutral is shown until the producer
      resynchronizes ([InputProtocol]).
    - Feedback: deliveries happen in publication order, and an expired frame
      yields a release until one is delivered ([Feedback]); the motors are never
      handed to a successor without the stop of what drove them, and an owed
      stop can always be delivered, whatever publishers and other writers do
      between the writer's calls ([FeedbackRuntime]).
    - Xbox One: every message has one encoding and its decoder accepts nothing
      else; Hello and descriptors announce the same identity; a sequence pool
      hands out each value once and in order; metadata reaches the host whole
      whatever is lost or repeated, and in a bounded number of packets when
      nothing is, at any pace that meets the acknowledgement deadlines; the lifecycle's effects follow the state diagram in every run,
      a delivered action is never executed again, a late metadata completion is
      refused, and a claimed plan can always be finished.
    - Keyboard and mouse: the states a client sends are published as sent;
      movement is reported at most once and the buttons stay current in every
      interleaving; the descriptors announce the reports that are built.
    - Xbox 360: every interleaving of its methods is a run of the scheduler, so
      the guarantees of [InputProtocol] hold for the device; after a fault the
      host reads the neutral report and then the freshest staged state.
    - Switch 2 Pro: a report is presented, admitted and shown on EP0 only in
      the layout and with the features in force; every interleaving is a run of
      the scheduler and of sequencer updates; a host reads back buttons, sticks
      and motion from both layouts; a power status is accepted exactly when it
      is complete and in range.
    - Topology: addresses are unique, a removed registration is fenced behind
      the operations that use it, stale snapshots have no effect.
    - Control: configuration and alternate settings change only by the request
      that names them; replies and lengths agree; responses are bounded.
    - Formats: round trips and canonical decoding for descriptors, headers,
      frames and report descriptors with their values, and equality of the hand-written
      serializers with the message records.  A driver operation has one encoding
      and the parser accepts nothing else; a completion overwrites every byte of
      its buffer; the build identity binds revision, version and capabilities
      ([UdeCx]).

    ** Bounds and fuel

    Reads and partial writes loop with a fuel the theorems prove sufficient
    from the progress law of the reader or writer ([GoIO.ReaderProgress]).
    Numeric texts are bounded by their 32-bit range.  Theorems about runs of the
    input scheduler ask for fewer than 2^63 operations (2^60 calls of a device), so its 64-bit ordinals
    do not wrap; [Feedback] and [MicBuffer] need no such bound.  The loop of a
    retained service round has fuel, and four iterations are proved enough.

    ** Not modelled

    The sessions of retained imports (retained_import_session.go and the stream
    of retained_import_transport.go), the composition of the Xbox One machines
    (persona, adapters, transport coordinator) and the other devices (DualSense,
    DualShock 4) are not modelled.  JSON text is not parsed: a decoder is given
    the tokens, and metadata its decoded fields.  The goroutine wiring, timers and sockets, the HTTP/JSON API with its
    cryptography, the client library, the code generators and the operating
    system integration are input/output around the parts above. *)

From Stdlib Require Export ZArith Lia.
From stdpp Require Export base list gmap numbers.
From Stdlib Require String Ascii.

#[export] Set Default Proof Using "Type".
#[global] Open Scope Z_scope.

(** ** Results of fallible Go functions

    A Go function returning [(T, error)] is a function into [result E T]:
    [Ok v] stands for [(v, nil)] and [Err e] for a non-nil error (the value
    beside it is never read by a caller of the modelled code). *)
Inductive result (E A : Type) : Type :=
| Ok (a : A)
| Err (e : E).
Arguments Ok {E A} _.
Arguments Err {E A} _.

Declare Scope go_scope.
Delimit Scope go_scope with go.
#[global] Open Scope go_scope.

Notation "'let?' x := c 'in' k" :=
  (match c with Ok x => k | Err e => Err e end)
  (at level 10, x name, c at level 100, k at level 200) : go_scope.

Definition is_ok {E A} (r : result E A) : bool :=
  match r with Ok _ => true | Err _ => false end.

Lemma Ok_inj {E A} (a b : A) : Ok (E := E) a = Ok b -> a = b.
Proof. congruence. Qed.

#[export] Instance result_eq_dec {E A} `{EqDecision E, EqDecision A} :
  EqDecision (result E A).
Proof. solve_decision. Defined.

Lemma is_ok_true {E A} (r : result E A) : is_ok r = true <-> exists a, r = Ok a.
Proof. destruct r; simpl; split; naive_solver. Qed.

(** ** Machine integers

    A Go unsigned integer of width [w] is a [Z] in [[0, 2^w)].  The ranges are
    written with literal bounds so that [lia] can use them. *)
Abbreviation U8 v := (0 <= v < 256).
Abbreviation U16 v := (0 <= v < 65536).
Abbreviation U32 v := (0 <= v < 4294967296).
Abbreviation U64 v := (0 <= v < 18446744073709551616).
Abbreviation I32 v := (-2147483648 <= v < 2147483648).
Abbreviation I64 v := (-9223372036854775808 <= v < 9223372036854775808).

(** Conversions [uint8(x)], [uint16(x)], [uint32(x)], [uint64(x)]. *)
Definition u8 (v : Z) : Z := v mod 256.
Definition u16 (v : Z) : Z := v mod 65536.
Definition u32 (v : Z) : Z := v mod 4294967296.
Definition u64 (v : Z) : Z := v mod 18446744073709551616.

(** Conversions [int32(x)] and [int64(x)] (two's complement). *)
Definition i32 (v : Z) : Z :=
  let r := v mod 4294967296 in
  if r <? 2147483648 then r else r - 4294967296.
Definition i64 (v : Z) : Z :=
  let r := v mod 18446744073709551616 in
  if r <? 9223372036854775808 then r else r - 18446744073709551616.

(** The development's arithmetic closer: [lia] with division and remainder by
    literals turned into equations. *)
Ltac zsolve := intros; Z.div_mod_to_equations; lia.

Lemma u8_range v : U8 (u8 v).
Proof. unfold u8. zsolve. Qed.
Lemma u16_range v : U16 (u16 v).
Proof. unfold u16. zsolve. Qed.
Lemma u32_range v : U32 (u32 v).
Proof. unfold u32. zsolve. Qed.
Lemma u64_range v : U64 (u64 v).
Proof. unfold u64. zsolve. Qed.

Lemma u8_id v : U8 v -> u8 v = v.
Proof. intros. apply Z.mod_small. lia. Qed.
Lemma u16_id v : U16 v -> u16 v = v.
Proof. intros. apply Z.mod_small. lia. Qed.
Lemma u32_id v : U32 v -> u32 v = v.
Proof. intros. apply Z.mod_small. lia. Qed.
Lemma u64_id v : U64 v -> u64 v = v.
Proof. intros. apply Z.mod_small. lia. Qed.

Lemma i32_range v : I32 (i32 v).
Proof. unfold i32. destruct (Z.ltb_spec (v mod 4294967296) 2147483648); zsolve. Qed.

Lemma i32_id v : I32 v -> i32 v = v.
Proof. unfold i32. destruct (Z.ltb_spec (v mod 4294967296) 2147483648); zsolve. Qed.

Lemma i64_id v : I64 v -> i64 v = v.
Proof.
  unfold i64. destruct (Z.ltb_spec (v mod 18446744073709551616) 9223372036854775808); zsolve.
Qed.

(** [int32(uint32(s)) = s]: a status survives its unsigned wire form. *)
Lemma i32_u32 v : I32 v -> i32 (u32 v) = v.
Proof.
  intros. unfold i32, u32. rewrite Zmod_mod.
  destruct (Z.ltb_spec (v mod 4294967296) 2147483648); zsolve.
Qed.

Create HintDb viiper.
#[export] Hint Resolve u8_range u16_range u32_range u64_range i32_range : viiper.

(** [t.Sub(u)] on nanosecond instants, saturating at the range of
    [time.Duration]. *)
Definition time_sub (t u : Z) : Z :=
  Z.max (-9223372036854775808) (Z.min 9223372036854775807 (t - u)).

(** [time.Time{}], the first instant of year one, and the clock reading that
    replaces it where a caller passes none. *)
Definition zero_time : Z := -62135596800000000000.
Definition or_now (at_ now : Z) : Z := if at_ =? zero_time then now else at_.

(** ** Case analysis helpers *)

(** Destruct the boolean tests of an [if] chain, turning every comparison of
    integers into the proposition it decides. *)
Ltac bdestr b :=
  let H := fresh "Hb" in
  lazymatch b with
  | (?x =? ?y)%Z => destruct (Z.eqb_spec x y) as [H | H]
  | (?x <? ?y)%Z => destruct (Z.ltb_spec x y) as [H | H]
  | (?x <=? ?y)%Z => destruct (Z.leb_spec x y) as [H | H]
  | (?x =? ?y)%nat => destruct (Nat.eqb_spec x y) as [H | H]
  | (?x <? ?y)%nat => destruct (Nat.ltb_spec x y) as [H | H]
  | (?x <=? ?y)%nat => destruct (Nat.leb_spec x y) as [H | H]
  | _ => destruct b eqn:H
  end.

Ltac case_if :=
  match goal with
  | |- context [if ?b then _ else _] =>
      lazymatch type of b with bool => bdestr b end
  end.

Ltac case_if_in H :=
  match type of H with
  | context [if ?b then _ else _] =>
      lazymatch type of b with bool => bdestr b end
  end.

(** Boolean facts to propositions. *)
Ltac bool_prop :=
  repeat match goal with
  | H : (_ && _)%bool = true |- _ => apply andb_prop in H; destruct H
  | H : (_ || _)%bool = false |- _ => apply orb_false_iff in H; destruct H
  | H : negb _ = true |- _ => apply negb_true_iff in H
  | H : negb _ = false |- _ => apply negb_false_iff in H
  | H : (_ =? _)%Z = true |- _ => apply Z.eqb_eq in H
  | H : (_ =? _)%Z = false |- _ => apply Z.eqb_neq in H
  | H : (_ <? _)%Z = true |- _ => apply Z.ltb_lt in H
  | H : (_ <? _)%Z = false |- _ => apply Z.ltb_ge in H
  | H : (_ <=? _)%Z = true |- _ => apply Z.leb_le in H
  | H : (_ <=? _)%Z = false |- _ => apply Z.leb_gt in H
  | H : (_ =? _)%nat = true |- _ => apply Nat.eqb_eq in H
  | H : (_ =? _)%nat = false |- _ => apply Nat.eqb_neq in H
  | H : (_ <? _)%nat = true |- _ => apply Nat.ltb_lt in H
  | H : (_ <? _)%nat = false |- _ => apply Nat.ltb_ge in H
  | H : (_ <=? _)%nat = true |- _ => apply Nat.leb_le in H
  | H : (_ <=? _)%nat = false |- _ => apply Nat.leb_gt in H
  end.

(** Decided propositions to propositions. *)
Ltac bdec :=
  repeat match goal with
  | H : bool_decide _ = true |- _ => apply bool_decide_eq_true in H
  | H : bool_decide _ = false |- _ => apply bool_decide_eq_false in H
  end.

(** The same, with a case per way a conjunction or disjunction can go. *)
Ltac bool_split :=
  repeat (bool_prop; match goal with
  | H : (_ && _)%bool = false |- _ => apply andb_false_iff in H; destruct H
  | H : (_ || _)%bool = true |- _ => apply orb_prop in H; destruct H
  end); bool_prop.

(** Close a decidable goal on concrete data by evaluating its decision. *)
Ltac by_decide := apply (proj1 (bool_decide_eq_true _)); vm_compute; reflexivity.

(** ** Lists *)

(** [l[i:j]] of a Go slice, for [i <= j <= len(l)]. *)
Definition slice {A} (i j : nat) (l : list A) : list A := take (j - i) (drop i l).

#[global] Arguments slice : simpl never.

(** [for _, x := range l] with an early return: the first hit of [f]. *)
Fixpoint first_some {A B} (f : A -> option B) (l : list A) : option B :=
  match l with
  | [] => None
  | x :: l => match f x with Some b => Some b | None => first_some f l end
  end.

Lemma first_some_Some {A B} (f : A -> option B) l b :
  first_some f l = Some b ->
  exists l1 x l2, l = l1 ++ x :: l2 /\ f x = Some b /\ Forall (fun y => f y = None) l1.
Proof.
  induction l as [|x l IH]; simpl; [done|].
  destruct (f x) as [b'|] eqn:E.
  - intros [= ->]. exists [], x, l. auto.
  - intros (l1 & y & l2 & -> & Hy & Hl1)%IH. exists (x :: l1), y, l2. auto.
Qed.

Lemma first_some_None {A B} (f : A -> option B) l :
  first_some f l = None <-> Forall (fun x => f x = None) l.
Proof.
  induction l as [|x l IH]; simpl; [by split|].
  rewrite Forall_cons_iff. destruct (f x); naive_solver.
Qed.

Lemma Forall_elem {A} (P : A -> Prop) l x : Forall P l -> x ∈ l -> P x.
Proof. intros H. by apply (proj1 (list.Forall_forall _ _) H). Qed.

Lemma length_slice {A} i j (l : list A) :
  (i <= j <= length l)%nat -> length (slice i j l) = (j - i)%nat.
Proof. intros. unfold slice. rewrite length_take, length_drop. lia. Qed.

(** A Go string constant as the bytes of its UTF-8 text. *)
Fixpoint bytes_of_string (s : String.string) : list Z :=
  match s with
  | String.EmptyString => []
  | String.String c s => Z.of_nat (Ascii.nat_of_ascii c) :: bytes_of_string s
  end.
Export String.StringSyntax.
#[global] Open Scope string_scope.
#[global] Open Scope list_scope.
#[global] Open Scope Z_scope.
Arguments bytes_of_string s%_string_scope.

(** ** Rings

    A Go array used as a ring: [count] elements from position [head] on,
    wrapping at the array's length. *)
Section Ring.
Context {A : Type} (d : A).

Definition ring_at (l : list A) (head i : nat) : A :=
  default d (l !! ((head + i) mod length l)%nat).
Definition ring_view (l : list A) (head count : nat) : list A :=
  map (ring_at l head) (seq 0 count).

Lemma length_ring_view l head count : length (ring_view l head count) = count.
Proof. unfold ring_view. by rewrite length_map, length_seq. Qed.

Lemma ring_index_ne len head i j :
  (i < len)%nat -> (j < len)%nat -> i <> j -> ((head + i) mod len)%nat <> ((head + j) mod len)%nat.
Proof.
  intros Hi Hj Hne E. apply Hne.
  pose proof (Nat.div_mod_eq (head + i) len). pose proof (Nat.div_mod_eq (head + j) len).
  assert (((head + i) / len)%nat = ((head + j) / len)%nat \/
          ((head + i) / len < (head + j) / len)%nat \/
          ((head + j) / len < (head + i) / len)%nat) as [?|[?|?]] by lia; nia.
Qed.

Lemma ring_view_push l head count x :
  (count < length l)%nat ->
  ring_view (<[((head + count) mod length l)%nat := x]> l) head (S count) =
  ring_view l head count ++ [x].
Proof.
  intros Hc. unfold ring_view. rewrite seq_S, map_app. simpl. f_equal.
  - apply map_ext_in. intros i [_ Hi]%in_seq. unfold ring_at. rewrite length_insert.
    rewrite list_lookup_insert_ne; [done|]. apply ring_index_ne; lia.
  - unfold ring_at. rewrite length_insert, list_lookup_insert_eq; [done|].
    apply Nat.mod_upper_bound. lia.
Qed.

Lemma ring_at_succ l head i : ring_at l (S head mod length l)%nat i = ring_at l head (S i).
Proof.
  unfold ring_at. do 2 f_equal.
  destruct (length l) as [|n] eqn:E; [cbn; lia|].
  rewrite Nat.Div0.add_mod_idemp_l. f_equal. lia.
Qed.

Lemma ring_view_pop l head n x :
  (n < length l)%nat -> (head < length l)%nat ->
  ring_view l head (S n) =
  ring_at l head 0 :: ring_view (<[head := x]> l) ((head + 1) mod length l)%nat n.
Proof.
  intros Hn Hh. unfold ring_view. cbn [seq map]. f_equal.
  rewrite <- seq_shift, map_map. apply map_ext_in. intros i [_ Hi]%in_seq.
  replace (head + 1)%nat with (S head) by lia.
  rewrite <- (length_insert l head x) at 1.
  rewrite ring_at_succ. unfold ring_at. rewrite length_insert.
  rewrite list_lookup_insert_ne; [done|].
  replace head with ((head + 0) mod length l)%nat at 1
    by (rewrite Nat.add_0_r; apply Nat.mod_small; lia).
  apply ring_index_ne; lia.
Qed.

Lemma ring_view_unpop l head count x :
  (count < length l)%nat -> (head < length l)%nat ->
  let head' := ((head + length l - 1) mod length l)%nat in
  ring_view (<[head' := x]> l) head' (S count) = x :: ring_view l head count.
Proof.
  intros Hc Hh head'.
  assert (Hh' : (head' < length l)%nat) by (apply Nat.mod_upper_bound; lia).
  assert (Hs : (S head' mod length l)%nat = head).
  { unfold head'. destruct head as [|k].
    - replace (0 + length l - 1)%nat with (length l - 1)%nat by lia.
      rewrite (Nat.mod_small (length l - 1)) by lia.
      replace (S (length l - 1)) with (length l) by lia. apply Nat.Div0.mod_same.
    - replace (S k + length l - 1)%nat with (k + 1 * length l)%nat by lia.
      rewrite Nat.Div0.mod_add, !Nat.mod_small by (rewrite ?Nat.mod_small; lia). lia. }
  unfold ring_view. cbn [seq map]. f_equal.
  - unfold ring_at. rewrite length_insert, Nat.add_0_r, Nat.mod_small by lia.
    by rewrite list_lookup_insert_eq.
  - rewrite <- seq_shift, map_map. apply map_ext_in. intros i [_ Hi]%in_seq.
    unfold ring_at. rewrite length_insert, list_lookup_insert_ne.
    + rewrite <- Hs. rewrite Nat.Div0.add_mod_idemp_l. do 3 f_equal. lia.
    + replace head' with ((head' + 0) mod length l)%nat at 1
        by (rewrite Nat.add_0_r; apply Nat.mod_small; lia).
      apply ring_index_ne; lia.
Qed.
End Ring.
