(* ===== verification/Bytes.v ===== *)
(** * Byte sequences and fixed-width integer encodings

    [[]byte] is [list Z] with every element in [[0,256)].  This file models
    the parts of Go's [encoding/binary] the program uses ([PutUint16], [Uint32]
    and their companions, in both byte orders), writes through a slice
    ([put_at]) and the decimal formatting of [fmt.Sprintf("%d")] with the
    matching [strconv.ParseUint], with the round-trip laws the wire formats
    of the other files rest on. *)

From S2P Require Import Prelude.

Abbreviation byte_ok b := (U8 b).
Definition bytes_ok (l : list Z) : Prop := Forall (fun b => byte_ok b) l.

#[export] Instance bytes_ok_dec l : Decision (bytes_ok l).
Proof. unfold bytes_ok. apply _. Defined.

(** ** Little and big endian *)

Fixpoint le_bytes (n : nat) (v : Z) : list Z :=
  match n with
  | O => []
  | S n => v mod 256 :: le_bytes n (v / 256)
  end.

Fixpoint le_val (l : list Z) : Z :=
  match l with
  | [] => 0
  | b :: l => b + 256 * le_val l
  end.

Definition be_bytes (n : nat) (v : Z) : list Z := reverse (le_bytes n v).
Definition be_val (l : list Z) : Z := le_val (reverse l).

Lemma length_le_bytes n v : length (le_bytes n v) = n.
Proof. revert v; induction n; simpl; auto. Qed.

Lemma length_be_bytes n v : length (be_bytes n v) = n.
Proof. unfold be_bytes. by rewrite length_reverse, length_le_bytes. Qed.

Lemma le_bytes_ok n v : bytes_ok (le_bytes n v).
Proof.
  revert v; induction n; intros; constructor; auto; [zsolve | apply IHn].
Qed.

Lemma be_bytes_ok n v : bytes_ok (be_bytes n v).
Proof. apply Forall_reverse, le_bytes_ok. Qed.

Lemma le_val_bytes n v : le_val (le_bytes n v) = v mod 256 ^ Z.of_nat n.
Proof.
  revert v; induction n as [|n IH]; intros v.
  - cbn. by rewrite Z.mod_1_r.
  - cbn [le_bytes le_val]. rewrite IH, Nat2Z.inj_succ, Z.pow_succ_r by lia.
    rewrite (Z.rem_mul_r v 256 (256 ^ Z.of_nat n)); lia.
Qed.

Lemma le_val_small n v : 0 <= v < 256 ^ Z.of_nat n -> le_val (le_bytes n v) = v.
Proof. intros. rewrite le_val_bytes. by apply Z.mod_small. Qed.

Lemma be_val_bytes n v : be_val (be_bytes n v) = v mod 256 ^ Z.of_nat n.
Proof. unfold be_val, be_bytes. by rewrite reverse_involutive, le_val_bytes. Qed.

Lemma be_val_small n v : 0 <= v < 256 ^ Z.of_nat n -> be_val (be_bytes n v) = v.
Proof. intros. rewrite be_val_bytes. by apply Z.mod_small. Qed.

Lemma le_val_range l : bytes_ok l -> 0 <= le_val l < 256 ^ Z.of_nat (length l).
Proof.
  induction 1 as [|b l Hb Hl IH]; cbn [le_val length]; [lia|].
  rewrite Nat2Z.inj_succ, Z.pow_succ_r by lia. lia.
Qed.

Lemma le_bytes_val l : bytes_ok l -> le_bytes (length l) (le_val l) = l.
Proof.
  induction 1 as [|b l Hb Hl IH]; cbn [le_val length le_bytes]; [done|].
  f_equal; [zsolve|]. etransitivity; [|exact IH]. f_equal. zsolve.
Qed.

Lemma be_val_range l : bytes_ok l -> 0 <= be_val l < 256 ^ Z.of_nat (length l).
Proof.
  intros. rewrite <- (length_reverse l). by apply le_val_range, Forall_reverse.
Qed.

Lemma be_bytes_val l : bytes_ok l -> be_bytes (length l) (be_val l) = l.
Proof.
  intros H. unfold be_bytes, be_val. rewrite <- (length_reverse l).
  rewrite le_bytes_val by by apply Forall_reverse. apply reverse_involutive.
Qed.

Lemma le_bytes_inj n v1 v2 :
  0 <= v1 < 256 ^ Z.of_nat n -> 0 <= v2 < 256 ^ Z.of_nat n ->
  le_bytes n v1 = le_bytes n v2 -> v1 = v2.
Proof. intros H1 H2 E%(f_equal le_val). by rewrite !le_val_small in E. Qed.

Create Rewrite HintDb len.
#[export] Hint Rewrite length_le_bytes length_be_bytes @length_app @length_replicate
  @length_take @length_drop @length_reverse @length_cons @length_nil : len.
#[export] Hint Resolve le_bytes_ok be_bytes_ok : viiper.

(** ** Writing through a slice

    [copy(buf[i:], src)] and [PutUint..(buf[i:j], v)] overwrite a range that
    lies inside the buffer. *)
Definition put_at (i : nat) (src buf : list Z) : list Z :=
  take i buf ++ src ++ drop (i + length src) buf.

Definition zeros (n : nat) : list Z := replicate n 0.

Lemma length_put_at i src buf :
  (i + length src <= length buf)%nat -> length (put_at i src buf) = length buf.
Proof. intros. unfold put_at. autorewrite with len. lia. Qed.

Lemma slice_put_at i src buf :
  (i + length src <= length buf)%nat ->
  slice i (i + length src) (put_at i src buf) = src.
Proof.
  intros. unfold slice, put_at.
  rewrite drop_app_length' by (autorewrite with len; lia).
  rewrite take_app_length' by lia. done.
Qed.

Lemma bytes_ok_app l1 l2 : bytes_ok (l1 ++ l2) <-> bytes_ok l1 /\ bytes_ok l2.
Proof. apply Forall_app. Qed.

Lemma zeros_ok n : bytes_ok (zeros n).
Proof. apply Forall_replicate. lia. Qed.

Lemma put_at_ok i src buf : bytes_ok src -> bytes_ok buf -> bytes_ok (put_at i src buf).
Proof.
  intros. unfold put_at. rewrite !bytes_ok_app.
  split_and!; [by apply Forall_take | done | by apply Forall_drop].
Qed.

#[export] Hint Resolve zeros_ok put_at_ok : viiper.

(** Sequential filling of a zeroed buffer. *)
Lemma put_at_next i src pre n :
  i = length pre -> (length src <= n)%nat ->
  put_at i src (pre ++ zeros n) = (pre ++ src) ++ zeros (n - length src).
Proof.
  intros -> Hn. unfold put_at, zeros. rewrite take_app_length, <- app_assoc.
  do 2 f_equal. rewrite drop_app_ge by lia.
  rewrite drop_replicate. f_equal. lia.
Qed.

Lemma put_at_app i src a b : 
  (i + length src <= length a)%nat -> put_at i src (a ++ b) = put_at i src a ++ b.
Proof.
  intros. unfold put_at. rewrite take_app_le, drop_app_le by lia. by rewrite !app_assoc.
Qed.

(** ** Reading fields back out of a concatenation *)

Lemma slice_app_skip {A} i j (l1 l2 : list A) :
  (length l1 <= i)%nat -> slice i j (l1 ++ l2) = slice (i - length l1) (j - length l1) l2.
Proof. intros. unfold slice. rewrite drop_app_ge by done. f_equal. lia. Qed.

Lemma slice_app_head {A} j (l1 l2 : list A) : length l1 = j -> slice 0 j (l1 ++ l2) = l1.
Proof.
  intros <-. unfold slice. rewrite drop_0, Nat.sub_0_r. by rewrite take_app_length.
Qed.

Lemma slice_join {A} i j k (l : list A) :
  (i <= j <= k)%nat -> slice i j l ++ slice j k l = slice i k l.
Proof.
  intros. unfold slice.
  replace (k - i)%nat with ((j - i) + (k - j))%nat by lia.
  rewrite <- take_take_drop, drop_drop. by replace (i + (j - i))%nat with j by lia.
Qed.

Lemma slice_all {A} (l : list A) n : length l = n -> slice 0 n l = l.
Proof. intros <-. unfold slice. by rewrite drop_0, Nat.sub_0_r, firstn_all. Qed.

Lemma slice_bytes_ok i j l : bytes_ok l -> bytes_ok (slice i j l).
Proof. intros. by apply Forall_take, Forall_drop. Qed.

Ltac wire_slices :=
  rewrite <- ?app_assoc, ?app_nil_l;
  repeat first
    [ rewrite slice_app_head by (by autorewrite with len)
    | rewrite slice_app_skip by (autorewrite with len; lia);
      autorewrite with len; cbn [Nat.sub] ].

(** [b[i]] of a slice; every use in the modelled code is in range. *)
Definition byte_at (l : list Z) (i : nat) : Z := nth i l 0.

(** ** Exploding fixed-width encodings

    Replace every [le_bytes n v]/[be_bytes n v] of literal width by a list of
    fresh bytes, keeping the equation, so that a buffer of known size computes
    to a literal list. *)
Lemma list_len1 {A} (l : list A) : length l = 1%nat -> exists a, l = [a].
Proof. destruct l as [|a [|]]; naive_solver. Qed.
Lemma list_len2 {A} (l : list A) : length l = 2%nat -> exists a b, l = [a; b].
Proof. destruct l as [|a [|b [|]]]; naive_solver. Qed.
Lemma list_len4 {A} (l : list A) :
  length l = 4%nat -> exists a b c d, l = [a; b; c; d].
Proof. destruct l as [|a [|b [|c [|d [|]]]]]; naive_solver. Qed.
Lemma list_len8 {A} (l : list A) :
  length l = 8%nat -> exists a b c d e f g h, l = [a; b; c; d; e; f; g; h].
Proof.
  destruct l as [|a [|b [|c [|d [|e [|f [|g [|h [|]]]]]]]]]; naive_solver.
Qed.

Ltac explode_one t len_lemma :=
  let l := fresh "l" in let E := fresh "El" in let L := fresh "Ll" in
  remember t as l eqn:E;
  assert (L : length l = length l) by reflexivity;
  rewrite E in L at 2;
  rewrite ?length_le_bytes, ?length_be_bytes in L;
  first [ apply list_len1 in L; destruct L as (?a & L)
        | apply list_len2 in L; destruct L as (?a & ?b & L)
        | apply list_len4 in L; destruct L as (?a & ?b & ?c & ?d & L)
        | apply list_len8 in L;
          destruct L as (?a & ?b & ?c & ?d & ?e & ?f & ?g & ?h & L) ];
  rewrite L in E |- *; clear L l.

Ltac explode_bytes :=
  repeat match goal with
  | |- context [le_bytes ?n ?v] => explode_one (le_bytes n v) tt
  | |- context [be_bytes ?n ?v] => explode_one (be_bytes n v) tt
  end.

(** Fold the exploded encodings back, once the slices have been computed. *)
Ltac implode_bytes :=
  repeat match goal with
  | H : _ :: _ = le_bytes _ _ |- _ => rewrite ?H; clear H
  | H : _ :: _ = be_bytes _ _ |- _ => rewrite ?H; clear H
  end.

(** ** Taking a buffer apart into its fields *)

Lemma slice_byte l i : (i < length l)%nat -> slice i (S i) l = [byte_at l i].
Proof.
  intros Hi. unfold slice, byte_at. replace (S i - i)%nat with 1%nat by lia.
  rewrite (drop_S l (nth i l 0) i); [done|].
  destruct (lookup_lt_is_Some_2 l i Hi) as [x Hx]. rewrite Hx. f_equal.
  symmetry. by apply nth_lookup_Some.
Qed.

Lemma byte_at_ok l i : bytes_ok l -> U8 (byte_at l i).
Proof.
  intros Hl. unfold byte_at. revert i. induction Hl; intros [|i]; simpl; try lia; auto.
Qed.

Lemma le_bytes_slice i j n l :
  bytes_ok l -> (i <= j <= length l)%nat -> n = (j - i)%nat ->
  le_bytes n (le_val (slice i j l)) = slice i j l.
Proof.
  intros Hl Hij ->. rewrite <- (length_slice i j l) by done.
  by apply le_bytes_val, slice_bytes_ok.
Qed.

Lemma le_val_slice_range i j l :
  bytes_ok l -> (i <= j <= length l)%nat ->
  0 <= le_val (slice i j l) < 256 ^ Z.of_nat (j - i).
Proof.
  intros Hl Hij. rewrite <- (length_slice i j l) by done. by apply le_val_range, slice_bytes_ok.
Qed.

(** ** Decimal text *)

Definition digit (d : Z) : Z := 48 + d.

(** [strconv.Itoa] by repeated division; [fuel] bounds the digit count. *)
Fixpoint dec_digits (fuel : nat) (v : Z) (acc : list Z) : list Z :=
  match fuel with
  | O => acc
  | S fuel =>
      let acc := digit (v mod 10) :: acc in
      if v / 10 =? 0 then acc else dec_digits fuel (v / 10) acc
  end.

(** [fmt.Sprintf("%d", v)] for a [uint32] or [uint64]: at most 20 digits. *)
Definition sprint_d (v : Z) : list Z := dec_digits 20 v [].

(** [strconv.ParseUint(s, 10, 32)]. *)
Inductive parse_err := ErrSyntax | ErrRange.

Fixpoint parse_digits (limit acc : Z) (s : list Z) : result parse_err Z :=
  match s with
  | [] => Ok acc
  | c :: s =>
      if (c <? 48) || (57 <? c) then Err ErrSyntax
      else
        let acc := acc * 10 + (c - 48) in
        if limit <? acc then Err ErrRange
        else parse_digits limit acc s
  end.

Definition parse_uint (limit : Z) (s : list Z) : result parse_err Z :=
  match s with
  | [] => Err ErrSyntax
  | _ => parse_digits limit 0 s
  end.

Definition dec_val (a : Z) (s : list Z) : Z := fold_left (fun a c => a * 10 + (c - 48)) s a.

Lemma dec_digits_acc fuel v acc : dec_digits fuel v acc = dec_digits fuel v [] ++ acc.
Proof.
  revert v acc; induction fuel as [|fuel IH]; intros v acc; cbn [dec_digits]; [done|].
  case_if; [done|]. rewrite IH, (IH _ [_]), <- app_assoc. done.
Qed.

Lemma dec_digits_ok fuel v :
  0 <= v -> Forall (fun c => 48 <= c <= 57) (dec_digits fuel v []).
Proof.
  revert v; induction fuel as [|fuel IH]; intros v Hv; cbn [dec_digits]; [done|].
  case_if.
  - constructor; [unfold digit; zsolve | done].
  - rewrite dec_digits_acc. apply Forall_app. split.
    + apply IH. zsolve.
    + constructor; [unfold digit; zsolve | done].
Qed.

Lemma dec_val_app a s1 s2 : dec_val a (s1 ++ s2) = dec_val (dec_val a s1) s2.
Proof. apply fold_left_app. Qed.

Lemma dec_val_digits fuel v :
  0 <= v < 10 ^ Z.of_nat fuel -> dec_val 0 (dec_digits fuel v []) = v.
Proof.
  revert v; induction fuel as [|fuel IH]; intros v Hv; cbn [dec_digits].
  { cbn in *. lia. }
  rewrite Nat2Z.inj_succ, Z.pow_succ_r in Hv by lia.
  case_if.
  - cbn. unfold digit. zsolve.
  - rewrite dec_digits_acc, dec_val_app, IH by zsolve. cbn. unfold digit. zsolve.
Qed.

Lemma dec_val_mono a s :
  0 <= a -> Forall (fun c => 48 <= c <= 57) s -> a <= dec_val a s.
Proof.
  intros Ha Hs. revert a Ha. induction Hs as [|c s Hc Hs IH]; intros a Ha; cbn; [lia|].
  etransitivity; [|apply IH]; lia.
Qed.

Lemma parse_digits_ok limit a s :
  0 <= a -> Forall (fun c => 48 <= c <= 57) s -> dec_val a s <= limit ->
  parse_digits limit a s = Ok (dec_val a s).
Proof.
  intros Ha Hs. revert a Ha. induction Hs as [|c s Hc Hs IH]; intros a Ha Hl; [done|].
  cbn in *. rewrite (proj2 (Z.ltb_ge c 48)), (proj2 (Z.ltb_ge 57 c)) by lia. cbn.
  pose proof (dec_val_mono (a * 10 + (c - 48)) s ltac:(lia) Hs) as Hm.
  unfold dec_val in *. rewrite (proj2 (Z.ltb_ge _ _)) by lia. apply IH; lia.
Qed.

Lemma parse_digits_range limit a s v :
  0 <= a <= limit -> parse_digits limit a s = Ok v -> 0 <= v <= limit.
Proof.
  revert a; induction s as [|c s IH]; intros a Ha H; cbn in H.
  { by simplify_eq. }
  destruct ((c <? 48) || (57 <? c))%bool eqn:E; [done|]. bool_prop.
  case_if_in H; [done|]. apply IH in H; lia.
Qed.

Lemma dec_digits_nonempty fuel v : dec_digits (S fuel) v [] <> [].
Proof.
  cbn [dec_digits]. case_if; [done|]. rewrite dec_digits_acc.
  by destruct (dec_digits fuel (v / 10) []).
Qed.

Lemma sprint_d_nonempty v : sprint_d v <> [].
Proof. apply (dec_digits_nonempty 19). Qed.

Lemma sprint_d_digits v : 0 <= v -> Forall (fun c => 48 <= c <= 57) (sprint_d v).
Proof. apply dec_digits_ok. Qed.

Lemma dec_digits_length fuel k v :
  (1 <= k)%nat -> 0 <= v < 10 ^ Z.of_nat k -> (length (dec_digits fuel v []) <= k)%nat.
Proof.
  revert k v. induction fuel as [|fuel IH]; intros k v Hk Hv; cbn [dec_digits]; [cbn; lia|].
  case_if; [cbn; lia|]. rewrite dec_digits_acc, length_app. cbn [length].
  destruct k as [|[|k]]; [lia|cbn in Hv; exfalso; zsolve|].
  rewrite Nat2Z.inj_succ, Z.pow_succ_r in Hv by lia.
  specialize (IH (S k) (v / 10) ltac:(lia) ltac:(zsolve)). lia.
Qed.

Lemma sprint_d_length32 v : U32 v -> (length (sprint_d v) <= 10)%nat.
Proof. intros. apply dec_digits_length; [lia|cbn; lia]. Qed.

(** [ParseUint] inverts [Sprintf("%d")] on every value under its limit. *)
Lemma parse_uint_sprint limit v :
  U64 v -> v <= limit -> parse_uint limit (sprint_d v) = Ok v.
Proof.
  intros Hv Hl. unfold parse_uint.
  pose proof (sprint_d_nonempty v) as Hne. pose proof (sprint_d_digits v ltac:(lia)) as Hd.
  assert (Hval : dec_val 0 (sprint_d v) = v) by (apply dec_val_digits; cbn; lia).
  destruct (sprint_d v) as [|c s]; [done|].
  rewrite parse_digits_ok, Hval; [done | lia | done | lia].
Qed.

Lemma sprint_d_inj v1 v2 : U64 v1 -> U64 v2 -> sprint_d v1 = sprint_d v2 -> v1 = v2.
Proof.
  intros H1 H2 E%(f_equal (dec_val 0)). unfold sprint_d in E.
  rewrite !dec_val_digits in E; cbn; lia.
Qed.

#[global] Arguments le_bytes : simpl never.
#[global] Arguments be_bytes : simpl never.
#[global] Arguments le_val : simpl never.
#[global] Arguments be_val : simpl never.
#[global] Arguments put_at : simpl never.
#[global] Arguments sprint_d : simpl never.
