(* ===== verification/GoIO.v ===== *)
(** * io.Writer and io.Reader

    The program writes its wire formats through [io.Writer] and reads them
    through [io.Reader].  The two interfaces are type classes: a class of the
    operation and a class of the laws Go documents for every implementation.
    The wire formats are proved against the laws; [bytes.Buffer] and a
    connection which fails after a number of bytes are the instances. *)

From S2P Require Import Prelude Bytes.

Inductive io_err := ErrEOF | ErrUnexpectedEOF | ErrNoProgress | ErrOther (code : Z).

#[export] Instance io_err_eq_dec : EqDecision io_err.
Proof. solve_decision. Defined.

(** ** Writers *)

(** [n, err := w.Write(p)]. *)
Class Writer (W : Type) := w_write : W -> list Z -> W * (nat * option io_err).

(** What Go documents for [io.Writer]: [0 <= n <= len(p)], the bytes accepted
    are the first [n] of [p], and a short write has a non-nil error. *)
Class WriterLaws (W : Type) `{Writer W} := {
  w_sent : W -> list Z;
  w_write_prefix w p w' n e : w_write w p = (w', (n, e)) ->
    (n <= length p)%nat /\ w_sent w' = w_sent w ++ take n p /\
    ((n < length p)%nat -> e <> None);
}.

Section WriteAll.
Context {W : Type} `{Writer W}.

(** The chain [if err := write(c1); err != nil { return err }; ...] *)
Fixpoint write_all (chunks : list (list Z)) (w : W) : W * option io_err :=
  match chunks with
  | [] => (w, None)
  | c :: chunks =>
      match w_write w c with
      | (w, (_, Some e)) => (w, Some e)
      | (w, (_, None)) => write_all chunks w
      end
  end.

(** A chain of writes either delivers the concatenation of its chunks, or
    stops with the error of the write that failed after delivering a prefix
    of that concatenation: no byte is reordered, dropped or repeated. *)
Lemma write_all_spec `{!WriterLaws W} chunks w w' r :
  write_all chunks w = (w', r) ->
  match r with
  | None => w_sent w' = w_sent w ++ concat chunks
  | Some _ => exists p, w_sent w' = w_sent w ++ p /\ p `prefix_of` concat chunks
  end.
Proof.
  revert w; induction chunks as [|c chunks IH]; intros w E; cbn in E.
  { simplify_eq. by rewrite app_nil_r. }
  destruct (w_write w c) as [w1 [n e]] eqn:Ew.
  destruct (w_write_prefix _ _ _ _ _ Ew) as (Hn & Hs & Hshort).
  destruct e as [e|].
  - simplify_eq. exists (take n c). split; [done|].
    cbn. apply prefix_app_r. exists (drop n c). symmetry. apply take_drop.
  - assert (n = length c) as -> by (destruct (decide (n < length c)%nat); [naive_solver|lia]).
    rewrite firstn_all in Hs. apply IH in E. destruct r as [e|].
    + destruct E as (p & Hp & Hpre). exists (c ++ p).
      rewrite Hp, Hs, app_assoc. split; [done|]. by apply prefix_app.
    + by rewrite E, Hs, <- app_assoc.
Qed.
End WriteAll.

(** [bytes.Buffer]: accepts everything. *)
#[export] Instance buffer_writer : Writer (list Z) :=
  fun b p => (b ++ p, (length p, None)).

#[export] Instance buffer_writer_laws : WriterLaws (list Z).
Proof.
  refine {| w_sent := id |}. intros w p w' n e. cbn. intros [= <- <- <-].
  rewrite firstn_all. split_and!; [lia | done | lia].
Defined.

Lemma write_all_buffer chunks (b : list Z) :
  write_all chunks b = (b ++ concat chunks, None).
Proof.
  revert b; induction chunks as [|c chunks IH]; intros b; cbn.
  - by rewrite app_nil_r.
  - by rewrite IH, app_assoc.
Qed.

(** A connection that accepts [cw_room] more bytes and then fails. *)
Record capped := Capped { cw_room : nat; cw_sent : list Z; cw_err : io_err }.

#[export] Instance capped_writer : Writer capped := fun w p =>
  if (length p <=? cw_room w)%nat
  then (Capped (cw_room w - length p) (cw_sent w ++ p) (cw_err w), (length p, None))
  else (Capped 0 (cw_sent w ++ take (cw_room w) p) (cw_err w), (cw_room w, Some (cw_err w))).

#[export] Instance capped_writer_laws : WriterLaws capped.
Proof.
  refine {| w_sent := cw_sent |}. intros w p w' n e. unfold w_write, capped_writer.
  case_if; intros [= <- <- <-]; cbn.
  - rewrite firstn_all. split_and!; [lia | done | lia].
  - split_and!; [lia | done | done].
Defined.

(** ** Readers *)

(** [m, err := r.Read(buf)] with [len(buf) = k]; the result is [buf[:m]]. *)
Class Reader (R : Type) := r_read : R -> nat -> R * (list Z * option io_err).

(** What Go documents for [io.Reader], with the bytes still to be delivered as
    a ghost: a read delivers at most [k] of them, in order. *)
Class ReaderLaws (R : Type) `{Reader R} := {
  r_rest : R -> list Z;
  r_read_prefix r k r' bs e : r_read r k = (r', (bs, e)) ->
    (length bs <= k)%nat /\ r_rest r = bs ++ r_rest r';
}.

(** A reader that never returns [(0, nil)] for a non-empty buffer, which Go
    asks implementations to avoid. *)
Class ReaderProgress (R : Type) `{Reader R} :=
  r_progress r k r' bs : (0 < k)%nat -> r_read r k = (r', (bs, None)) -> bs <> [].

(** The outcome of a read loop: [out_of_fuel] is not a Go outcome, it marks a
    loop cut off by the model. *)
Inductive read_outcome (R : Type) :=
| Done (r : R) (buf : list Z)
| Failed (r : R) (e : io_err)
| OutOfFuel.
Arguments Done {R} _ _.
Arguments Failed {R} _ _.
Arguments OutOfFuel {R}.

Section ReadLoops.
Context {R : Type} `{Reader R}.

(** The loop of usbip.ReadExactly: [n] bytes still wanted, [acc] read. *)
Fixpoint read_loop (fuel : nat) (r : R) (n : nat) (acc : list Z) : read_outcome R :=
  if (n =? 0)%nat then Done r acc else
  match fuel with
  | O => OutOfFuel
  | S fuel =>
      match r_read r n with
      | (r, (_, Some e)) => Failed r e
      | (r, (bs, None)) => read_loop fuel r (n - length bs) (acc ++ bs)
      end
  end.

(** io.ReadFull: a full buffer wins over the error of the last read, and an
    EOF after a partial read is ErrUnexpectedEOF. *)
Fixpoint read_full_loop (fuel : nat) (r : R) (n : nat) (acc : list Z) : read_outcome R :=
  if (n =? 0)%nat then Done r acc else
  match fuel with
  | O => OutOfFuel
  | S fuel =>
      match r_read r n with
      | (r, (bs, e)) =>
          let n := (n - length bs)%nat in
          let acc := acc ++ bs in
          if (n =? 0)%nat then Done r acc else
          match e with
          | None => read_full_loop fuel r n acc
          | Some ErrEOF =>
              Failed r (match acc with [] => ErrEOF | _ => ErrUnexpectedEOF end)
          | Some e => Failed r e
          end
      end
  end.

Definition read_full (r : R) (n : nat) : read_outcome R := read_full_loop n r n [].

Lemma read_loop_done `{!ReaderLaws R} fuel r n acc r' buf :
  read_loop fuel r n acc = Done r' buf ->
  exists bs, buf = acc ++ bs /\ length bs = n /\ r_rest r = bs ++ r_rest r'.
Proof.
  revert r n acc; induction fuel as [|fuel IH]; intros r n acc; cbn;
    (case_if; [intros [= <- <-]; exists []; rewrite app_nil_r; auto|]); [done|].
  destruct (r_read r n) as [r1 [bs e]] eqn:Er.
  destruct (r_read_prefix _ _ _ _ _ Er) as [Hlen Hrest].
  destruct e as [e|]; [done|]. intros (bs' & -> & Hl & Hr)%IH.
  exists (bs ++ bs'). rewrite Hrest, Hr, app_assoc, <- app_assoc, length_app.
  split_and!; [done | lia | by rewrite app_assoc].
Qed.

Lemma read_loop_total `{!ReaderProgress R} fuel r n acc :
  (n <= fuel)%nat -> read_loop fuel r n acc <> OutOfFuel.
Proof.
  revert r n acc; induction fuel as [|fuel IH]; intros r n acc Hn; cbn;
    (case_if; [done|]); [lia|].
  destruct (r_read r n) as [r1 [bs e]] eqn:Er.
  destruct e as [e|]; [done|]. apply IH.
  apply r_progress in Er; [|lia]. destruct bs; [done|cbn; lia].
Qed.
End ReadLoops.

(** A scripted connection: each read returns the next chunk (cut to the
    buffer), and the script's end is EOF. *)
Definition script := list (list Z).

#[export] Instance script_reader : Reader script := fun s k =>
  match s with
  | [] => ([], ([], Some ErrEOF))
  | c :: s => if (length c <=? k)%nat then (s, (c, None))
              else (drop k c :: s, (take k c, None))
  end.

#[export] Instance script_reader_laws : ReaderLaws script.
Proof.
  refine {| r_rest := fun s => concat s |}.
  intros r k r' bs e. unfold r_read, script_reader.
  destruct r as [|c s]; [intros [= <- <- <-]; cbn; split; [lia|done]|].
  case_if; intros [= <- <- <-]; cbn.
  - split; [lia|done].
  - rewrite length_take, app_assoc, take_drop. split; [lia|done].
Defined.

(** A connection that delivers one byte per read. *)
Record trickle := Trickle { t_rest : list Z }.

#[export] Instance trickle_reader : Reader trickle := fun t k =>
  match k, t_rest t with
  | O, _ => (t, ([], None))
  | S _, [] => (t, ([], Some ErrEOF))
  | S _, b :: l => (Trickle l, ([b], None))
  end.

#[export] Instance trickle_reader_laws : ReaderLaws trickle.
Proof.
  refine {| r_rest := t_rest |}. intros [l] k r' bs e. unfold r_read, trickle_reader.
  destruct k, l; cbn; intros [= <- <- <-]; cbn; split; done || lia.
Defined.

#[export] Instance trickle_progress : ReaderProgress trickle.
Proof.
  intros [l] k r' bs Hk. unfold r_read, trickle_reader. destruct k, l; cbn; try lia; naive_solver.
Qed.
