(* ===== verification/UsbIp.v ===== *)
(** * USB/IP wire formats (src/usbip)

    The message records of usbip.go with their writers, the ISO packet
    descriptor codec, ReadExactly, and the export identities of
    export_identity.go.  Every writer is the list of byte chunks the Go method
    hands to [w.Write], in order; [Wire] is the class of such messages. *)

From S2P Require Import Prelude Bytes GoIO.

(** ** Constants *)

Definition Version : Z := 0x0111.
Definition OpReqDevlist : Z := 0x8005.
Definition OpRepDevlist : Z := 0x0005.
Definition OpReqImport : Z := 0x8003.
Definition OpRepImport : Z := 0x0003.
Definition CmdSubmitCode : Z := 1.
Definition CmdUnlinkCode : Z := 2.
Definition RetSubmitCode : Z := 3.
Definition RetUnlinkCode : Z := 4.
Definition DirOut : Z := 0.
Definition DirIn : Z := 1.

(** ** Messages *)

Class Wire (A : Type) := wire_chunks : A -> list (list Z).

Definition wire_bytes `{Wire A} (m : A) : list Z := concat (wire_chunks m).

(** [m.Write(w)]. *)
Definition wire_write `{Wire A, Writer W} (m : A) (w : W) : W * option io_err :=
  write_all (wire_chunks m) w.

Record MgmtHeader := { mh_Version : Z; mh_Command : Z; mh_Status : Z }.

#[export] Instance MgmtHeader_Write : Wire MgmtHeader := fun h =>
  let buf := zeros 8 in
  let buf := put_at 0 (be_bytes 2 (mh_Version h)) buf in
  let buf := put_at 2 (be_bytes 2 (mh_Command h)) buf in
  let buf := put_at 4 (be_bytes 4 (mh_Status h)) buf in
  [buf].

Record DevListReplyHeader := { dl_NDevices : Z }.

#[export] Instance DevListReplyHeader_Write : Wire DevListReplyHeader := fun d =>
  [put_at 0 (be_bytes 4 (dl_NDevices d)) (zeros 4)].

Record ExportMeta := {
  Path : list Z;
  USBBusID : list Z;
  BusID : Z;
  DevID : Z;
}.

#[export] Instance ExportMeta_eq_dec : EqDecision ExportMeta.
Proof. solve_decision. Defined.

(** The zero value [ExportMeta{}]. *)
Definition ExportMeta_zero : ExportMeta :=
  {| Path := zeros 256; USBBusID := zeros 32; BusID := 0; DevID := 0 |}.

Record InterfaceDesc := { id_Class : Z; id_SubClass : Z; id_Protocol : Z }.

Record ExportedDevice := {
  ed_ExportMeta : ExportMeta;
  ed_Speed : Z;
  ed_IDVendor : Z;
  ed_IDProduct : Z;
  ed_BcdDevice : Z;
  ed_BDeviceClass : Z;
  ed_BDeviceSubClass : Z;
  ed_BDeviceProtocol : Z;
  ed_BConfigurationValue : Z;
  ed_BNumConfigurations : Z;
  ed_BNumInterfaces : Z;
  ed_Interfaces : list InterfaceDesc;
}.

(** WriteImport: the device entry of OP_REP_IMPORT. *)
Definition WriteImport (d : ExportedDevice) : list (list Z) :=
  [ Path (ed_ExportMeta d);
    USBBusID (ed_ExportMeta d);
    be_bytes 4 (BusID (ed_ExportMeta d));
    be_bytes 4 (DevID (ed_ExportMeta d));
    be_bytes 4 (ed_Speed d);
    be_bytes 2 (ed_IDVendor d);
    be_bytes 2 (ed_IDProduct d);
    be_bytes 2 (ed_BcdDevice d);
    [ ed_BDeviceClass d; ed_BDeviceSubClass d; ed_BDeviceProtocol d;
      ed_BConfigurationValue d; ed_BNumConfigurations d; ed_BNumInterfaces d ] ].

(** WriteDevlist: the device entry of OP_REP_DEVLIST. *)
Definition WriteDevlist (d : ExportedDevice) : list (list Z) :=
  [ Path (ed_ExportMeta d);
    USBBusID (ed_ExportMeta d);
    be_bytes 4 (BusID (ed_ExportMeta d));
    be_bytes 4 (DevID (ed_ExportMeta d));
    be_bytes 4 (ed_Speed d);
    be_bytes 2 (ed_IDVendor d);
    be_bytes 2 (ed_IDProduct d);
    be_bytes 2 (ed_BcdDevice d);
    [ ed_BDeviceClass d; ed_BDeviceSubClass d; ed_BDeviceProtocol d;
      ed_BConfigurationValue d; ed_BNumConfigurations d; ed_BNumInterfaces d ] ] ++
  map (fun i => [id_Class i; id_SubClass i; id_Protocol i; 0]) (ed_Interfaces d).

Record HeaderBasic := {
  hb_Command : Z; hb_Seqnum : Z; hb_Devid : Z; hb_Dir : Z; hb_Ep : Z;
}.

Record CmdSubmit := {
  cs_Basic : HeaderBasic;
  cs_TransferFlags : Z;
  cs_TransferBufferLen : Z;
  cs_StartFrame : Z;
  cs_NumberOfPackets : Z;   (* int32 *)
  cs_Interval : Z;
  cs_Setup : list Z;        (* [8]byte *)
}.

#[export] Instance CmdSubmit_Write : Wire CmdSubmit := fun c =>
  [ be_bytes 4 (hb_Command (cs_Basic c));
    be_bytes 4 (hb_Seqnum (cs_Basic c));
    be_bytes 4 (hb_Devid (cs_Basic c));
    be_bytes 4 (hb_Dir (cs_Basic c));
    be_bytes 4 (hb_Ep (cs_Basic c));
    be_bytes 4 (cs_TransferFlags c);
    be_bytes 4 (cs_TransferBufferLen c);
    be_bytes 4 (cs_StartFrame c);
    be_bytes 4 (u32 (cs_NumberOfPackets c));
    be_bytes 4 (cs_Interval c);
    cs_Setup c ].

Record RetSubmit := {
  rs_Basic : HeaderBasic;
  rs_Status : Z;            (* int32 *)
  rs_ActualLength : Z;
  rs_StartFrame : Z;
  rs_NumberOfPackets : Z;   (* int32 *)
  rs_ErrorCount : Z;
  rs_Padding : list Z;      (* [8]byte *)
}.

#[export] Instance RetSubmit_Write : Wire RetSubmit := fun r =>
  [ be_bytes 4 (hb_Command (rs_Basic r));
    be_bytes 4 (hb_Seqnum (rs_Basic r));
    be_bytes 4 (hb_Devid (rs_Basic r));
    be_bytes 4 (hb_Dir (rs_Basic r));
    be_bytes 4 (hb_Ep (rs_Basic r));
    be_bytes 4 (u32 (rs_Status r));
    be_bytes 4 (rs_ActualLength r);
    be_bytes 4 (rs_StartFrame r);
    be_bytes 4 (u32 (rs_NumberOfPackets r));
    be_bytes 4 (rs_ErrorCount r);
    rs_Padding r ].

Record CmdUnlink := {
  cu_Basic : HeaderBasic; cu_UnlinkSeqnum : Z; cu_Padding : list Z (* [24]byte *)
}.

#[export] Instance CmdUnlink_Write : Wire CmdUnlink := fun c =>
  [ be_bytes 4 (hb_Command (cu_Basic c));
    be_bytes 4 (hb_Seqnum (cu_Basic c));
    be_bytes 4 (hb_Devid (cu_Basic c));
    be_bytes 4 (hb_Dir (cu_Basic c));
    be_bytes 4 (hb_Ep (cu_Basic c));
    be_bytes 4 (cu_UnlinkSeqnum c);
    cu_Padding c ].

Record RetUnlink := {
  ru_Basic : HeaderBasic; ru_Status : Z (* int32 *); ru_Padding : list Z (* [24]byte *)
}.

#[export] Instance RetUnlink_Write : Wire RetUnlink := fun r =>
  [ be_bytes 4 (hb_Command (ru_Basic r));
    be_bytes 4 (hb_Seqnum (ru_Basic r));
    be_bytes 4 (hb_Devid (ru_Basic r));
    be_bytes 4 (hb_Dir (ru_Basic r));
    be_bytes 4 (hb_Ep (ru_Basic r));
    be_bytes 4 (u32 (ru_Status r));
    ru_Padding r ].

Record IsoPacketDescriptor := IsoPacket {
  iso_Offset : Z;
  iso_Length : Z;
  iso_ActualLength : Z;
  iso_Status : Z;           (* int32 *)
}.

Definition IsoPacketDescriptorSize : nat := 16.

#[export] Instance IsoPacketDescriptor_Write : Wire IsoPacketDescriptor := fun d =>
  [ be_bytes 4 (iso_Offset d);
    be_bytes 4 (iso_Length d);
    be_bytes 4 (iso_ActualLength d);
    be_bytes 4 (u32 (iso_Status d)) ].

Definition IsoPacketDescriptor_Decode (wire : list Z) : result io_err IsoPacketDescriptor :=
  if (length wire <? IsoPacketDescriptorSize)%nat then Err ErrUnexpectedEOF
  else Ok {|
    iso_Offset := be_val (slice 0 4 wire);
    iso_Length := be_val (slice 4 8 wire);
    iso_ActualLength := be_val (slice 8 12 wire);
    iso_Status := i32 (be_val (slice 12 16 wire)) |}.

Definition IsoPacketDescriptor_Read {R} `{Reader R} (r : R) :
    option (R * result io_err IsoPacketDescriptor) :=
  match read_full r IsoPacketDescriptorSize with
  | Done r wire => Some (r, IsoPacketDescriptor_Decode wire)
  | Failed r e => Some (r, Err e)
  | OutOfFuel => None
  end.

(** ReadExactly reads until the buffer of [n] bytes is full. *)
Definition ReadExactly {R} `{Reader R} (fuel : nat) (r : R) (n : nat) : read_outcome R :=
  read_loop fuel r n [].

(** ** Well-formed messages: the widths of the Go fields *)

Definition HeaderBasic_wf (h : HeaderBasic) : Prop :=
  U32 (hb_Command h) /\ U32 (hb_Seqnum h) /\ U32 (hb_Devid h) /\
  U32 (hb_Dir h) /\ U32 (hb_Ep h).

Definition CmdSubmit_wf (c : CmdSubmit) : Prop :=
  HeaderBasic_wf (cs_Basic c) /\ U32 (cs_TransferFlags c) /\
  U32 (cs_TransferBufferLen c) /\ U32 (cs_StartFrame c) /\
  I32 (cs_NumberOfPackets c) /\ U32 (cs_Interval c) /\
  length (cs_Setup c) = 8%nat /\ bytes_ok (cs_Setup c).

Definition IsoPacketDescriptor_wf (d : IsoPacketDescriptor) : Prop :=
  U32 (iso_Offset d) /\ U32 (iso_Length d) /\ U32 (iso_ActualLength d) /\
  I32 (iso_Status d).

Definition ExportMeta_wf (m : ExportMeta) : Prop :=
  length (Path m) = 256%nat /\ length (USBBusID m) = 32%nat /\
  bytes_ok (Path m) /\ bytes_ok (USBBusID m) /\ U32 (BusID m) /\ U32 (DevID m).

(** ** Export identities (export_identity.go) *)

Definition ProductionXboxOneBusIDLength : nat := 29.

(** RFC 4648 base32 (the alphabet of base32.StdEncoding, no padding): groups
    of five bytes are eight 5-bit digits, most significant first, and the last
    partial group is padded with zero bits to a whole digit. *)
Fixpoint le_digits32 (n : nat) (v : Z) : list Z :=
  match n with
  | O => []
  | S n => v mod 32 :: le_digits32 n (v / 32)
  end.

Definition base32_tail (l : list Z) : list Z :=
  let n := ((length l * 8 + 4) / 5)%nat in
  reverse (le_digits32 n (Z.shiftl (be_val l) (Z.of_nat (n * 5 - length l * 8)))).

Fixpoint base32_digits (fuel : nat) (l : list Z) : list Z :=
  match fuel with
  | O => []
  | S fuel =>
      if (length l <? 5)%nat then base32_tail l
      else reverse (le_digits32 8 (be_val (take 5 l))) ++ base32_digits fuel (drop 5 l)
  end.

Definition base32_char (d : Z) : Z := if d <? 26 then 65 + d else 50 + (d - 26).
Definition to_lower (c : Z) : Z := if (65 <=? c) && (c <=? 90) then c + 32 else c.

Definition productionXboxOneBusIDFromEntropy (entropy : list Z) : list Z :=
  bytes_of_string "x1-" ++
  map to_lower (map base32_char (base32_digits (S (length entropy)) entropy)).

(** The byte loop is the rune loop of the Go code: a byte of a multi-byte or
    invalid rune is at least 0x80, which both loops reject. *)
Definition ValidProductionXboxOneBusID (value : list Z) : bool :=
  if negb (length value =? ProductionXboxOneBusIDLength)%nat ||
     negb (bool_decide (take 3 value = bytes_of_string "x1-")) then false
  else if existsb (fun c => ((c <? 97) || (122 <? c)) && ((c <? 50) || (55 <? c)))
                  (drop 3 value) then false
  else bool_decide (byte_at value (length value - 1) ∈ bytes_of_string "aeimquy4").

(** [bytes.IndexByte(l, 0)], [None] for -1. *)
Fixpoint index_zero (l : list Z) : option nat :=
  match l with
  | [] => None
  | b :: l => if b =? 0 then Some O else option_map S (index_zero l)
  end.

(** [fmt.Sprintf("%d-%d", bus, dev)]. *)
Definition numeric_busid (bus dev : Z) : list Z :=
  sprint_d bus ++ bytes_of_string "-" ++ sprint_d dev.

Inductive export_err := errInvalidExportBusID.

#[export] Instance export_err_eq_dec : EqDecision export_err.
Proof. solve_decision. Defined.

Definition ExportBusID (meta : ExportMeta) : result export_err (list Z) :=
  match index_zero (USBBusID meta) with
  | None | Some O => Err errInvalidExportBusID
  | Some e =>
      if existsb (fun b => negb (b =? 0)) (drop e (USBBusID meta))
      then Err errInvalidExportBusID
      else
        let value := take e (USBBusID meta) in
        if ValidProductionXboxOneBusID value ||
           bool_decide (value = numeric_busid (BusID meta) (DevID meta))
        then Ok value
        else Err errInvalidExportBusID
  end.

(** [copy(dst[:], src)] into a zeroed array of [n] bytes. *)
Definition fixed_array (n : nat) (src : list Z) : list Z :=
  put_at 0 (take n src) (zeros n).

(** * Properties *)

(** ** Delivery and sizes *)

Section Delivery.
Context {A W : Type} `{Wire A} `{WriterLaws W}.

Lemma wire_write_spec (m : A) (w w' : W) r :
  wire_write m w = (w', r) ->
  match r with
  | None => w_sent w' = w_sent w ++ wire_bytes m
  | Some _ => exists p, w_sent w' = w_sent w ++ p /\ p `prefix_of` wire_bytes m
  end.
Proof. apply write_all_spec. Qed.
End Delivery.

Lemma length_CmdSubmit c : length (cs_Setup c) = 8%nat -> length (wire_bytes c) = 48%nat.
Proof. intros E. unfold wire_bytes. cbn. autorewrite with len. rewrite E. done. Qed.

Lemma length_IsoPacketDescriptor (d : IsoPacketDescriptor) :
  length (wire_bytes d) = IsoPacketDescriptorSize.
Proof. unfold wire_bytes. cbn. by autorewrite with len. Qed.

Lemma length_WriteImport d :
  ExportMeta_wf (ed_ExportMeta d) -> length (concat (WriteImport d)) = 312%nat.
Proof.
  intros (HP & HU & _). unfold WriteImport. cbn. autorewrite with len.
  rewrite HP, HU. done.
Qed.

Lemma length_WriteDevlist d :
  ExportMeta_wf (ed_ExportMeta d) ->
  length (concat (WriteDevlist d)) = (312 + 4 * length (ed_Interfaces d))%nat.
Proof.
  intros Hm. change (WriteDevlist d) with (WriteImport d ++
    map (fun i => [id_Class i; id_SubClass i; id_Protocol i; 0]) (ed_Interfaces d)).
  rewrite concat_app, length_app, length_WriteImport by done. f_equal.
  induction (ed_Interfaces d) as [|i l IH]; cbn; [done|]. rewrite IH. lia.
Qed.

(** ** ISO packet descriptors *)

(** Decoding an encoded descriptor, with any bytes after it, returns it. *)
Lemma IsoPacketDescriptor_decode_encode d rest :
  IsoPacketDescriptor_wf d ->
  IsoPacketDescriptor_Decode (wire_bytes d ++ rest) = Ok d.
Proof.
  intros (H1 & H2 & H3 & H4). unfold IsoPacketDescriptor_Decode.
  rewrite length_app, length_IsoPacketDescriptor. cbn [Nat.ltb Nat.leb Nat.add].
  unfold wire_bytes. cbn [wire_chunks IsoPacketDescriptor_Write concat].
  wire_slices.
  rewrite !be_val_small by (cbn; first [lia | apply u32_range]).
  rewrite i32_u32 by done. by destruct d.
Qed.

(** Encoding what was decoded returns the sixteen bytes read. *)
Lemma IsoPacketDescriptor_encode_decode wire d :
  bytes_ok wire -> length wire = IsoPacketDescriptorSize ->
  IsoPacketDescriptor_Decode wire = Ok d ->
  wire_bytes d = wire /\ IsoPacketDescriptor_wf d.
Proof.
  intros Hok Hlen. unfold IsoPacketDescriptor_Decode. rewrite Hlen. cbn. intros [= <-].
  assert (Hs : forall i j, (i + 4 = j)%nat -> (j <= 16)%nat ->
    be_bytes 4 (be_val (slice i j wire)) = slice i j wire /\ U32 (be_val (slice i j wire))).
  { intros i j <- Hj. pose proof (slice_bytes_ok i (i + 4) wire Hok) as Hb.
    assert (El : length (slice i (i + 4) wire) = 4%nat)
      by (rewrite length_slice; unfold IsoPacketDescriptorSize in Hlen; lia).
    split.
    - rewrite <- El at 1. by apply be_bytes_val.
    - pose proof (be_val_range _ Hb) as Hr. rewrite El in Hr. exact Hr. }
  destruct (Hs 0 4)%nat as [E0 R0]; [lia..|]. destruct (Hs 4 8)%nat as [E1 R1]; [lia..|].
  destruct (Hs 8 12)%nat as [E2 R2]; [lia..|]. destruct (Hs 12 16)%nat as [E3 R3]; [lia..|].
  assert (Hu : u32 (i32 (be_val (slice 12 16 wire))) = be_val (slice 12 16 wire)).
  { unfold u32, i32. rewrite (Z.mod_small (be_val _)) by lia. case_if; zsolve. }
  split.
  - unfold wire_bytes. cbn [wire_chunks IsoPacketDescriptor_Write concat
      iso_Offset iso_Length iso_ActualLength iso_Status].
    rewrite Hu, E0, E1, E2, E3, app_nil_r, !app_assoc.
    rewrite !slice_join by lia. by apply slice_all.
  - split_and!; cbn; try lia; apply i32_range.
Qed.

(** ** ReadExactly *)

(** On a reader that makes progress the loop ends within [n] reads, and it
    either reports the reader's error or fills the buffer with exactly the
    next [n] bytes of the stream. *)
Lemma ReadExactly_spec {R} `{ReaderLaws R, !ReaderProgress R} (r : R) (n : nat) :
  (exists r' e, ReadExactly n r n = Failed r' e) \/
  (exists r' buf, ReadExactly n r n = Done r' buf /\
     length buf = n /\ r_rest r = buf ++ r_rest r').
Proof.
  unfold ReadExactly. pose proof (read_loop_total n r n [] ltac:(lia)) as Ht.
  destruct (read_loop n r n []) as [r' buf|r' e|] eqn:E; [right|left|done].
  - apply read_loop_done in E as (bs & -> & Hl & Hr). exists r', bs. auto.
  - eauto.
Qed.

(** ** Export identities *)

Lemma length_digits32 n v : length (le_digits32 n v) = n.
Proof. revert v; induction n; cbn; auto. Qed.

Lemma digits32_ok n v : Forall (fun d => 0 <= d < 32) (le_digits32 n v).
Proof. revert v; induction n; intros; constructor; [zsolve | auto]. Qed.

Lemma digits32_inj n v1 v2 :
  0 <= v1 < 32 ^ Z.of_nat n -> 0 <= v2 < 32 ^ Z.of_nat n ->
  le_digits32 n v1 = le_digits32 n v2 -> v1 = v2.
Proof.
  revert v1 v2; induction n as [|n IH]; intros v1 v2 H1 H2 E; cbn [le_digits32] in E.
  { cbn in *. lia. }
  rewrite Nat2Z.inj_succ, Z.pow_succ_r in H1, H2 by lia.
  injection E as Em Ed%IH; zsolve.
Qed.

Lemma be_val_inj l1 l2 :
  bytes_ok l1 -> bytes_ok l2 -> length l1 = length l2 -> be_val l1 = be_val l2 -> l1 = l2.
Proof.
  intros H1 H2 Hl E. rewrite <- (be_bytes_val l1), <- (be_bytes_val l2) by done.
  by rewrite Hl, E.
Qed.

Lemma be_val_single b : be_val [b] = b.
Proof. unfold be_val. cbv [reverse rev_append le_val]. lia. Qed.

(** The 26 base32 digits of a 16-byte entropy: three groups of five bytes and
    a tail of one byte, padded with two zero bits. *)
Lemma base32_digits_16 l :
  length l = 16%nat ->
  base32_digits 17 l =
    reverse (le_digits32 8 (be_val (slice 0 5 l))) ++
    reverse (le_digits32 8 (be_val (slice 5 10 l))) ++
    reverse (le_digits32 8 (be_val (slice 10 15 l))) ++
    reverse (le_digits32 2 (byte_at l 15 * 4)).
Proof.
  intros Hl. do 16 (destruct l as [|?b l]; [discriminate|]). destruct l; [|discriminate].
  cbn [base32_digits length Nat.ltb Nat.leb drop].
  unfold slice. cbn [take drop Nat.sub byte_at nth].
  repeat f_equal. unfold base32_tail. cbn -[Z.shiftl Z.mul le_digits32].
  by rewrite be_val_single, Z.shiftl_mul_pow2 by lia.
Qed.

Lemma base32_char_valid d :
  0 <= d < 32 ->
  let c := to_lower (base32_char d) in 97 <= c <= 122 \/ 50 <= c <= 55.
Proof.
  intros Hd c. subst c. unfold base32_char, to_lower.
  destruct (Z.ltb_spec d 26); repeat case_if; bool_prop; lia.
Qed.

Lemma base32_char_inj d1 d2 :
  0 <= d1 < 32 -> 0 <= d2 < 32 ->
  to_lower (base32_char d1) = to_lower (base32_char d2) -> d1 = d2.
Proof.
  intros H1 H2. unfold base32_char, to_lower.
  destruct (Z.ltb_spec d1 26), (Z.ltb_spec d2 26); repeat case_if; bool_prop;
    repeat match goal with H : (_ && _)%bool = false |- _ =>
      apply andb_false_iff in H; destruct H; bool_prop end; lia.
Qed.

Lemma length_from_entropy l :
  length l = 16%nat -> length (productionXboxOneBusIDFromEntropy l) = 29%nat.
Proof.
  intros Hl. unfold productionXboxOneBusIDFromEntropy. rewrite Hl.
  rewrite base32_digits_16 by done.
  rewrite length_app, !length_map, !length_app, !length_reverse, !length_digits32. done.
Qed.

Lemma last_from_entropy l :
  length l = 16%nat ->
  byte_at (productionXboxOneBusIDFromEntropy l) 28 =
    to_lower (base32_char ((byte_at l 15 * 4) mod 32)).
Proof.
  intros Hl. unfold productionXboxOneBusIDFromEntropy. rewrite Hl, base32_digits_16 by done.
  rewrite !map_app. unfold byte_at.
  do 4 rewrite app_nth2 by
    (rewrite ?length_map, ?length_reverse, ?length_digits32; cbn; lia).
  rewrite !length_map, !length_reverse, !length_digits32. done.
Qed.

Lemma existsb_false_Forall {A} (f : A -> bool) l :
  existsb f l = false <-> Forall (fun x => f x = false) l.
Proof.
  induction l as [|x l IH]; cbn; [by split|].
  rewrite orb_false_iff, Forall_cons_iff, IH. done.
Qed.

(** Every identity minted from entropy passes the validator. *)
Lemma from_entropy_valid l :
  length l = 16%nat -> bytes_ok l ->
  ValidProductionXboxOneBusID (productionXboxOneBusIDFromEntropy l) = true.
Proof.
  intros Hl Hok. unfold ValidProductionXboxOneBusID.
  rewrite length_from_entropy by done.
  rewrite (bool_decide_true (take 3 _ = _)) by done. cbn [negb orb Nat.eqb
    ProductionXboxOneBusIDLength].
  assert (existsb (fun c => ((c <? 97) || (122 <? c)) && ((c <? 50) || (55 <? c)))%bool
            (drop 3 (productionXboxOneBusIDFromEntropy l)) = false) as ->.
  { apply existsb_false_Forall. cbn [productionXboxOneBusIDFromEntropy].
    unfold productionXboxOneBusIDFromEntropy. rewrite drop_app_ge by (cbn; lia).
    cbn [length bytes_of_string Nat.sub]. rewrite drop_0, Hl, base32_digits_16 by done.
    rewrite map_map. apply Forall_map.
    eapply Forall_impl with (P := fun d => 0 <= d < 32).
    - intros d Hd. apply andb_false_iff. rewrite !orb_false_iff, !Z.ltb_ge.
      destruct (base32_char_valid d Hd); lia.
    - rewrite !Forall_app, !Forall_reverse. split_and!; apply digits32_ok. }
  apply bool_decide_eq_true_2. cbn [Nat.sub]. rewrite last_from_entropy by done.
  assert (U8 (byte_at l 15)) as Hb.
  { unfold byte_at. apply Forall_nth; [done | lia]. }
  assert (byte_at l 15 * 4 mod 32 ∈ [0; 4; 8; 12; 16; 20; 24; 28]) as Hin.
  { rewrite !elem_of_cons. zsolve. }
  rewrite !elem_of_cons, elem_of_nil in Hin.
  destruct_or! Hin; try done; rewrite Hin; vm_compute; set_solver.
Qed.

Lemma lower_chars_inj d1 d2 :
  Forall (fun d => 0 <= d < 32) d1 -> Forall (fun d => 0 <= d < 32) d2 ->
  map (fun x => to_lower (base32_char x)) d1 = map (fun x => to_lower (base32_char x)) d2 ->
  d1 = d2.
Proof.
  intros H1. revert d2. induction H1 as [|x d1 Hx H1 IH]; intros [|y d2] H2 E; try done.
  inversion H2; subst. injection E as Ex Ed. f_equal; [by apply base32_char_inj | by apply IH].
Qed.

(** Five bytes are determined by their eight base32 digits. *)
Lemma group_inj l1 l2 i j :
  length l1 = 16%nat -> length l2 = 16%nat -> bytes_ok l1 -> bytes_ok l2 ->
  (i <= j <= 16)%nat -> (j - i = 5)%nat ->
  le_digits32 8 (be_val (slice i j l1)) = le_digits32 8 (be_val (slice i j l2)) ->
  slice i j l1 = slice i j l2.
Proof.
  intros Hl1 Hl2 Hok1 Hok2 Hij H5 Ed. apply be_val_inj; [by apply slice_bytes_ok..| |].
  - rewrite !length_slice; lia.
  - assert (Hr : forall l, length l = 16%nat -> bytes_ok l ->
      0 <= be_val (slice i j l) < 32 ^ Z.of_nat 8).
    { intros l Hl Hok. pose proof (be_val_range (slice i j l) (slice_bytes_ok i j l Hok)) as Hr.
      rewrite length_slice, H5 in Hr by lia. cbn in Hr |- *. lia. }
    by eapply (digits32_inj 8); [apply Hr..|exact Ed].
Qed.

(** Distinct entropies mint distinct identities. *)
Lemma from_entropy_inj l1 l2 :
  length l1 = 16%nat -> length l2 = 16%nat -> bytes_ok l1 -> bytes_ok l2 ->
  productionXboxOneBusIDFromEntropy l1 = productionXboxOneBusIDFromEntropy l2 -> l1 = l2.
Proof.
  intros Hl1 Hl2 Hok1 Hok2 E. unfold productionXboxOneBusIDFromEntropy in E.
  apply app_inv_head in E. rewrite Hl1, Hl2, !map_map in E.
  rewrite !base32_digits_16 in E by done.
  apply lower_chars_inj in E;
    [|rewrite !Forall_app, !Forall_reverse; split_and!; apply digits32_ok..].
  repeat (apply app_inj_1 in E as [E0%(inj reverse) E];
    [|by rewrite !length_reverse, !length_digits32]; revert E0).
  apply (inj reverse) in E. intros E3%group_inj E2%group_inj E1%group_inj; try done; try lia.
  assert (E4 : byte_at l1 15 = byte_at l2 15).
  { pose proof (byte_at_ok l1 15 Hok1). pose proof (byte_at_ok l2 15 Hok2).
    apply (digits32_inj 2) in E; cbn; lia. }
  rewrite <- (slice_all l1 16), <- (slice_all l2 16) by done.
  rewrite <- (slice_join 0 15 16 l1), <- (slice_join 0 15 16 l2) by lia.
  rewrite <- (slice_join 0 10 15 l1), <- (slice_join 0 10 15 l2) by lia.
  rewrite <- (slice_join 0 5 10 l1), <- (slice_join 0 5 10 l2) by lia.
  by rewrite E1, E2, E3, !slice_byte, E4 by lia.
Qed.

Lemma fixed_array_eq n src :
  (length src <= n)%nat -> fixed_array n src = src ++ zeros (n - length src).
Proof.
  intros. unfold fixed_array, put_at, zeros. rewrite take_0, take_ge by done.
  by rewrite drop_replicate.
Qed.

Lemma length_fixed_array n src : length (fixed_array n src) = n.
Proof.
  unfold fixed_array. rewrite length_put_at; unfold zeros; autorewrite with len; lia.
Qed.

Lemma fixed_array_ok n src : bytes_ok src -> bytes_ok (fixed_array n src).
Proof. intros. apply put_at_ok; [by apply Forall_take | apply zeros_ok]. Qed.

Lemma index_zero_padded v k :
  Forall (fun b => b <> 0) v -> (0 < k)%nat -> index_zero (v ++ zeros k) = Some (length v).
Proof.
  intros Hv Hk. induction Hv as [|b v Hb Hv IH]; cbn.
  - destruct k; [lia|done].
  - destruct (Z.eqb_spec b 0); [done|]. by rewrite IH.
Qed.

(** An identity stored in the zero-padded 32-byte field is read back whole. *)
Lemma ExportBusID_stored meta v :
  USBBusID meta = fixed_array 32 v ->
  v <> [] -> (length v < 32)%nat -> Forall (fun b => b <> 0) v ->
  ValidProductionXboxOneBusID v = true \/ v = numeric_busid (BusID meta) (DevID meta) ->
  ExportBusID meta = Ok v.
Proof.
  intros HU Hne Hlen Hnz Hv. unfold ExportBusID. rewrite HU, fixed_array_eq by lia.
  rewrite index_zero_padded by (done || lia).
  destruct (length v) as [|k] eqn:El; [by destruct v|]. rewrite <- El in *. clear El k.
  rewrite drop_app_length, take_app_length.
  assert (existsb (fun b => negb (b =? 0)) (zeros (32 - length v)) = false) as ->.
  { apply existsb_false_Forall, Forall_replicate. done. }
  destruct Hv as [->|Hv]; [done|]. rewrite (bool_decide_true (v = _)) by done.
  by rewrite orb_true_r.
Qed.

(** ** Numeric export names *)

Lemma numeric_busid_length b d : U32 b -> U32 d -> (length (numeric_busid b d) <= 21)%nat.
Proof.
  intros Hb Hd. unfold numeric_busid. rewrite !length_app.
  pose proof (sprint_d_length32 b Hb). pose proof (sprint_d_length32 d Hd). cbn. lia.
Qed.

Lemma numeric_busid_nonzero b d :
  U32 b -> U32 d -> Forall (fun c => c <> 0) (numeric_busid b d).
Proof.
  intros Hb Hd. unfold numeric_busid.
  assert (Hx : forall v, U32 v -> Forall (fun c => c <> 0) (sprint_d v)).
  { intros v Hv. eapply List.Forall_impl; [|apply sprint_d_digits; lia]. cbn. lia. }
  rewrite !list.Forall_app. split_and!; [by apply Hx| |by apply Hx]. by repeat constructor.
Qed.

Lemma numeric_busid_nonempty b d : numeric_busid b d <> [].
Proof.
  unfold numeric_busid. pose proof (sprint_d_nonempty b). by destruct (sprint_d b).
Qed.

(** Digits up to the first dash determine the rest. *)
Lemma dash_split a1 a2 b1 b2 :
  Forall (fun c => 48 <= c <= 57) a1 -> Forall (fun c => 48 <= c <= 57) a2 ->
  a1 ++ 45 :: b1 = a2 ++ 45 :: b2 -> a1 = a2 /\ b1 = b2.
Proof.
  intros H1. revert a2. induction H1 as [|x a1 Hx H1 IH]; intros [|y a2] H2 E; simplify_eq/=.
  - done.
  - inversion H2; lia.
  - lia.
  - inversion H2; subst. destruct (IH a2) as [-> ->]; done.
Qed.

Lemma numeric_busid_inj b1 d1 b2 d2 :
  U32 b1 -> U32 d1 -> U32 b2 -> U32 d2 ->
  numeric_busid b1 d1 = numeric_busid b2 d2 -> b1 = b2 /\ d1 = d2.
Proof.
  intros H1 H2 H3 H4 E. unfold numeric_busid in E.
  apply dash_split in E as [Eb Ed]; [|apply sprint_d_digits; lia..].
  split; [apply sprint_d_inj in Eb | apply sprint_d_inj in Ed]; lia.
Qed.

Lemma valid_alias_shape v :
  ValidProductionXboxOneBusID v = true ->
  length v = 29%nat /\ take 3 v = bytes_of_string "x1-" /\ Forall (fun c => c <> 0) v.
Proof.
  unfold ValidProductionXboxOneBusID.
  destruct (Nat.eqb_spec (length v) ProductionXboxOneBusIDLength) as [Hl|]; [|done].
  case_bool_decide as Ht; [|done]. cbn [negb orb].
  destruct (existsb _ _) eqn:He; [done|]. intros _. split_and!; [done..|].
  rewrite <- (take_drop 3 v), list.Forall_app, Ht. split; [by repeat constructor|].
  apply existsb_false_Forall in He. eapply List.Forall_impl; [|exact He].
  intros c Hc ->. done.
Qed.

(** An alias starts with [x], a numeric name with a digit. *)
Lemma numeric_not_alias b d : 0 <= b -> ValidProductionXboxOneBusID (numeric_busid b d) = false.
Proof.
  intros Hb. destruct (ValidProductionXboxOneBusID _) eqn:E; [|done].
  apply valid_alias_shape in E as (_ & E & _). unfold numeric_busid in E.
  pose proof (sprint_d_nonempty b). pose proof (sprint_d_digits b Hb) as Hd.
  destruct (sprint_d b) as [|c l]; [done|]. apply (f_equal (hd 0)) in E. vm_compute in E.
  subst c. inversion Hd. lia.
Qed.

Lemma fixed_array_inj n a b :
  Forall (fun c => c <> 0) a -> Forall (fun c => c <> 0) b ->
  (length a < n)%nat -> (length b < n)%nat -> fixed_array n a = fixed_array n b -> a = b.
Proof.
  intros Ha Hb La Lb E. rewrite !fixed_array_eq in E by lia.
  pose proof (index_zero_padded a (n - length a) Ha ltac:(lia)) as Ia.
  pose proof (index_zero_padded b (n - length b) Hb ltac:(lia)) as Ib.
  rewrite E, Ib in Ia. injection Ia as El.
  by apply app_inj_1 in E as [? _].
Qed.

(** ** The properties *)

(** Every USB/IP message writer delivers its message exactly on every
    lawful [io.Writer]: a nil error means all of its bytes were sent after what
    was sent before, an error means a prefix of them. *)
Theorem wire_write_exact {A W} `{Wire A} `{WriterLaws W} (m : A) (w w' : W) r :
  wire_write m w = (w', r) ->
  match r with
  | None => w_sent w' = w_sent w ++ wire_bytes m
  | Some _ => exists p, w_sent w' = w_sent w ++ p /\ p `prefix_of` wire_bytes m
  end.
Proof. apply wire_write_spec. Qed.

Lemma wire_write_exact_witness :
  let m := {| iso_Offset := 0; iso_Length := 64; iso_ActualLength := 3; iso_Status := -32 |} in
  wire_write m [1; 2] = ([1; 2] ++ wire_bytes m, None) /\
  w_sent ([1; 2] ++ wire_bytes m) = [1; 2] ++ wire_bytes m.
Proof.
  intros m. assert (E : wire_write m [1; 2] = ([1; 2] ++ wire_bytes m, None))
    by (vm_compute; reflexivity).
  split; [exact E|]. exact (wire_write_exact m [1; 2] _ _ E).
Defined.

(** An isochronous packet descriptor survives the wire in both
    directions: decoding what was written gives it back, and every sixteen bytes
    decode to a well-formed descriptor whose encoding is those bytes. *)
Theorem iso_descriptor_roundtrip :
  (forall d rest, IsoPacketDescriptor_wf d ->
     IsoPacketDescriptor_Decode (wire_bytes d ++ rest) = Ok d) /\
  (forall wire, bytes_ok wire -> length wire = IsoPacketDescriptorSize ->
     exists d, IsoPacketDescriptor_Decode wire = Ok d /\ wire_bytes d = wire /\
       IsoPacketDescriptor_wf d).
Proof.
  split; [apply IsoPacketDescriptor_decode_encode|]. intros wire Hok Hlen.
  destruct (IsoPacketDescriptor_Decode wire) as [d|e] eqn:E.
  - exists d. split; [done|]. by apply IsoPacketDescriptor_encode_decode.
  - revert E. unfold IsoPacketDescriptor_Decode. by rewrite Hlen.
Qed.

Lemma iso_descriptor_roundtrip_witness :
  exists d, IsoPacketDescriptor_Decode (zeros 12 ++ [255; 255; 255; 224]) = Ok d /\
    wire_bytes d = zeros 12 ++ [255; 255; 255; 224].
Proof.
  destruct (proj2 iso_descriptor_roundtrip (zeros 12 ++ [255; 255; 255; 224])
    ltac:(by_decide) eq_refl) as (d & Hd & Hw & _).
  exists d. split; [exact Hd | exact Hw].
Defined.

(** On a reader that makes progress ReadExactly ends within as many reads
    as bytes asked for, and either reports the reader's error or returns exactly
    the next bytes of the stream, however the reader fragments them. *)
Theorem ReadExactly_exact {R} `{ReaderLaws R, !ReaderProgress R} (r : R) (n : nat) :
  (exists r' e, ReadExactly n r n = Failed r' e) \/
  (exists r' buf, ReadExactly n r n = Done r' buf /\
     length buf = n /\ r_rest r = buf ++ r_rest r').
Proof. apply ReadExactly_spec. Qed.

Lemma ReadExactly_exact_witness :
  ReadExactly 3 (Trickle [7; 8; 9; 10]) 3 = Done (Trickle [10]) [7; 8; 9].
Proof.
  destruct (ReadExactly_exact (Trickle [7; 8; 9; 10]) 3) as [(r' & e & H) | (r' & buf & H & _ & Hr)].
  - vm_compute in H. discriminate H.
  - vm_compute. reflexivity.
Defined.

(** Export identities are unambiguous: sixteen bytes of entropy mint a
    valid alias, different entropies different ones, and no alias is the numeric
    name of any bus and device; numeric names differ for different addresses;
    and an alias or the numeric name stored in the 32-byte field is what
    ExportBusID reads back. *)
Theorem export_identity_unambiguous e1 e2 b1 d1 b2 d2 meta :
  length e1 = 16%nat -> length e2 = 16%nat -> bytes_ok e1 -> bytes_ok e2 ->
  U32 b1 -> U32 d1 -> U32 b2 -> U32 d2 ->
  let alias := productionXboxOneBusIDFromEntropy in
  ValidProductionXboxOneBusID (alias e1) = true /\
  (alias e1 = alias e2 -> e1 = e2) /\
  (numeric_busid b1 d1 = numeric_busid b2 d2 -> b1 = b2 /\ d1 = d2) /\
  alias e1 <> numeric_busid b1 d1 /\
  (BusID meta = b1 -> DevID meta = d1 ->
   USBBusID meta = fixed_array 32 (alias e1) -> ExportBusID meta = Ok (alias e1)) /\
  (BusID meta = b1 -> DevID meta = d1 ->
   USBBusID meta = fixed_array 32 (numeric_busid b1 d1) ->
   ExportBusID meta = Ok (numeric_busid b1 d1)).
Proof.
  intros L1 L2 O1 O2 B1 D1 B2 D2 alias. pose proof (from_entropy_valid e1 L1 O1) as Hv.
  pose proof (valid_alias_shape _ Hv) as (Hlen & Hpre & Hnz).
  split_and!.
  - done.
  - by apply from_entropy_inj.
  - by apply numeric_busid_inj.
  - intros E. unfold alias in E. rewrite E, numeric_not_alias in Hv by lia. done.
  - intros _ _ HU. apply ExportBusID_stored; [done| |unfold alias; lia|done|by left].
    unfold alias. intros E. by rewrite E in Hlen.
  - intros HB HD HU. apply ExportBusID_stored; auto using numeric_busid_nonempty,
      numeric_busid_nonzero.
    + pose proof (numeric_busid_length b1 d1 B1 D1). lia.
    + right. by rewrite HB, HD.
Qed.

Lemma export_identity_unambiguous_witness :
  let meta := {| Path := []; USBBusID := fixed_array 32 (numeric_busid 3 12);
                 BusID := 3; DevID := 12 |} in
  ExportBusID meta = Ok (numeric_busid 3 12).
Proof.
  intros meta.
  destruct (export_identity_unambiguous (zeros 16) (zeros 16) 3 12 3 12 meta eq_refl eq_refl
    ltac:(by_decide) ltac:(by_decide) ltac:(lia) ltac:(lia) ltac:(lia) ltac:(lia))
    as (_ & _ & _ & _ & _ & H).
  exact (H eq_refl eq_refl eq_refl).
Defined.
