(* ===== verification/Hid.v ===== *)
(** * HID report descriptors (src/usb/hid)

    The item tree of hid.go and items.go with its encoder, and the reader's
    side of HID 1.11 section 6.2.2: a parser from descriptor bytes to short
    and long items.  The encoder of a well-formed tree is proved to be
    inverted by that parser, so a host sees exactly the items of the tree,
    with its collections balanced. *)

From S2P Require Import Prelude Bytes.

(** ** The item tree *)

#[warnings="-register-all"]
Inductive item :=
| NilItem
| AnyItem (ty tag : Z) (data : list Z)
| LongItem (tag : Z) (data : list Z)
| UsagePage (page : Z)
| Usage (usage : Z)
| Collection (kind : Z) (items : list item)
| UsageMinimum (min : Z)
| UsageMaximum (max : Z)
| LogicalMinimum (min : Z)
| LogicalMaximum (max : Z)
| ReportSize (bits : Z)
| ReportCount (count : Z)
| Input (flags : Z)
| Output (flags : Z)
| Feature (flags : Z)
| ReportID (id : Z)
| PhysicalMinimum (min : Z)
| PhysicalMaximum (max : Z)
| Unit (value : Z).

Definition ItemTypeMain : Z := 0.
Definition ItemTypeGlobal : Z := 1.
Definition ItemTypeLocal : Z := 2.

Inductive hid_err :=
| ErrNilItem            (* ReportDescriptor.Bytes: nil item *)
| PanicNilItem          (* Collection.encode: method call on a nil interface *)
| ErrShortData (n : nat)
| ErrLongTooLarge (n : nat).

(** The size code of a short item. *)
Definition size_code (n : nat) : option Z :=
  match n with
  | 0%nat => Some 0
  | 1%nat => Some 1
  | 2%nat => Some 2
  | 4%nat => Some 3
  | _ => None
  end.

(** [(tag << 4) | (typ << 2) | sizeCode] in uint8. *)
Definition short_header (tag typ code : Z) : Z :=
  Z.lor (Z.lor (u8 (Z.shiftl tag 4)) (u8 (Z.shiftl typ 2))) code.

(** encoder.short *)
Definition short (tag typ : Z) (data buf : list Z) : result hid_err (list Z) :=
  match size_code (length data) with
  | None => Err (ErrShortData (length data))
  | Some code => Ok (buf ++ [short_header tag typ code] ++ data)
  end.

Definition dataU32 (v : Z) : list Z :=
  if v <=? 0xFF then [u8 v]
  else if v <=? 0xFFFF then [u8 v; u8 (Z.shiftr v 8)]
  else [u8 v; u8 (Z.shiftr v 8); u8 (Z.shiftr v 16); u8 (Z.shiftr v 24)].

Definition dataI32 (v : Z) : list Z :=
  if (-128 <=? v) && (v <=? 127) then [u8 v]
  else if (-32768 <=? v) && (v <=? 32767) then
    let uv := u16 v in [u8 uv; u8 (Z.shiftr uv 8)]
  else
    let uv := u32 v in
    [u8 uv; u8 (Z.shiftr uv 8); u8 (Z.shiftr uv 16); u8 (Z.shiftr uv 24)].

(** AnyItem.encode *)
Definition AnyItem_encode (ty tag : Z) (data buf : list Z) : result hid_err (list Z) :=
  match size_code (length data) with
  | None => Err (ErrShortData (length data))
  | Some code => Ok (buf ++ [short_header tag ty code] ++ data)
  end.

(** LongItem.encode *)
Definition LongItem_encode (tag : Z) (data buf : list Z) : result hid_err (list Z) :=
  if (255 <? length data)%nat then Err (ErrLongTooLarge (length data))
  else Ok (buf ++ [0xFE; u8 (Z.of_nat (length data)); tag] ++ data).

Fixpoint encode (it : item) (buf : list Z) : result hid_err (list Z) :=
  match it with
  | NilItem => Err PanicNilItem
  | AnyItem ty tag data => AnyItem_encode ty tag data buf
  | LongItem tag data => LongItem_encode tag data buf
  | UsagePage page => short 0x0 ItemTypeGlobal (dataU32 page) buf
  | Usage usage => short 0x0 ItemTypeLocal (dataU32 usage) buf
  | Collection kind items =>
      let? buf := short 0xA ItemTypeMain [kind] buf in
      let? buf := (fix go (items : list item) (buf : list Z) :=
        match items with
        | [] => Ok buf
        | it :: items => let? buf := encode it buf in go items buf
        end) items buf in
      short 0xC ItemTypeMain [] buf
  | UsageMinimum min => short 0x1 ItemTypeLocal (dataU32 min) buf
  | UsageMaximum max => short 0x2 ItemTypeLocal (dataU32 max) buf
  | LogicalMinimum min => short 0x1 ItemTypeGlobal (dataI32 min) buf
  | LogicalMaximum max => short 0x2 ItemTypeGlobal (dataI32 max) buf
  | ReportSize bits => short 0x7 ItemTypeGlobal [bits] buf
  | ReportCount count => short 0x9 ItemTypeGlobal (dataU32 count) buf
  | Input flags => short 0x8 ItemTypeMain [flags] buf
  | Output flags => short 0x9 ItemTypeMain [flags] buf
  | Feature flags => short 0xB ItemTypeMain [flags] buf
  | ReportID id => short 0x8 ItemTypeGlobal [id] buf
  | PhysicalMinimum min => short 0x3 ItemTypeGlobal (dataI32 min) buf
  | PhysicalMaximum max => short 0x4 ItemTypeGlobal (dataI32 max) buf
  | Unit value => short 0x6 ItemTypeGlobal (dataU32 value) buf
  end.

(** ReportDescriptor.Bytes *)
Fixpoint Bytes_loop (items : list item) (buf : list Z) : result hid_err (list Z) :=
  match items with
  | [] => Ok buf
  | NilItem :: _ => Err ErrNilItem
  | it :: items => let? buf := encode it buf in Bytes_loop items buf
  end.

Definition ReportDescriptor_Bytes (items : list item) : result hid_err (list Z) :=
  Bytes_loop items [].

(** ** The reader's side *)

Inductive token :=
| Short (ty tag : Z) (data : list Z)
| Long (tag : Z) (data : list Z).

Definition data_len (code : Z) : nat := if code =? 3 then 4 else Z.to_nat code.

(** One item from the front of a descriptor (HID 1.11, 6.2.2.2 and 6.2.2.3). *)
Definition parse_item (bs : list Z) : option (token * list Z) :=
  match bs with
  | [] => None
  | h :: bs =>
      if h =? 0xFE then
        match bs with
        | n :: tag :: bs =>
            if (Z.to_nat n <=? length bs)%nat
            then Some (Long tag (take (Z.to_nat n) bs), drop (Z.to_nat n) bs)
            else None
        | _ => None
        end
      else
        let n := data_len (h mod 4) in
        if (n <=? length bs)%nat
        then Some (Short (h / 4 mod 4) (h / 16) (take n bs), drop n bs)
        else None
  end.

Fixpoint parse_tokens (fuel : nat) (bs : list Z) : option (list token) :=
  match bs, fuel with
  | [], _ => Some []
  | _, O => None
  | _, S fuel =>
      match parse_item bs with
      | None => None
      | Some (t, bs) => option_map (cons t) (parse_tokens fuel bs)
      end
  end.

(** What the tree means as a flat item sequence. *)
Fixpoint tokens (it : item) : list token :=
  match it with
  | NilItem => []
  | AnyItem ty tag data => [Short ty tag data]
  | LongItem tag data => [Long tag data]
  | UsagePage page => [Short 1 0 (dataU32 page)]
  | Usage usage => [Short 2 0 (dataU32 usage)]
  | Collection kind items => Short 0 10 [kind] :: flat_map tokens items ++ [Short 0 12 []]
  | UsageMinimum min => [Short 2 1 (dataU32 min)]
  | UsageMaximum max => [Short 2 2 (dataU32 max)]
  | LogicalMinimum min => [Short 1 1 (dataI32 min)]
  | LogicalMaximum max => [Short 1 2 (dataI32 max)]
  | ReportSize bits => [Short 1 7 [bits]]
  | ReportCount count => [Short 1 9 (dataU32 count)]
  | Input flags => [Short 0 8 [flags]]
  | Output flags => [Short 0 9 [flags]]
  | Feature flags => [Short 0 11 [flags]]
  | ReportID id => [Short 1 8 [id]]
  | PhysicalMinimum min => [Short 1 3 (dataI32 min)]
  | PhysicalMaximum max => [Short 1 4 (dataI32 max)]
  | Unit value => [Short 1 6 (dataU32 value)]
  end.

(** Trees the encoder represents: no nil item, the tag and type of an AnyItem
    fit their 4 and 2 bits, and its header is not the long-item prefix 0xFE. *)
Fixpoint item_ok (it : item) : bool :=
  match it with
  | NilItem => false
  | AnyItem ty tag data =>
      (0 <=? ty) && (ty <? 4) && (0 <=? tag) && (tag <? 16) &&
      negb ((tag =? 15) && (ty =? 3) && (length data =? 2)%nat) &&
      match size_code (length data) with Some _ => true | None => false end
  | LongItem tag data => (length data <=? 255)%nat
  | Collection kind items => forallb item_ok items
  | _ => true
  end.

(** Induction over the tree with a hypothesis for every member of a
    collection. *)
Section ItemInd.
Variable P : item -> Prop.
Hypothesis Hcoll : forall kind items, Forall P items -> P (Collection kind items).
Hypothesis Hleaf : forall it, (forall kind items, it <> Collection kind items) -> P it.

Fixpoint item_tree_ind (it : item) : P it :=
  match it as i return P i with
  | Collection kind items => Hcoll kind items
      ((fix go items := match items return Forall P items with
        | [] => Forall_nil P
        | it :: items => @Forall_cons _ P it items (item_tree_ind it) (go items)
        end) items)
  | i => Hleaf i ltac:(done)
  end.
End ItemInd.

(** ** Items and their bytes *)

Definition token_bytes (t : token) : list Z :=
  match t with
  | Short ty tag data =>
      (tag * 16 + ty * 4 + match size_code (length data) with Some c => c | None => 0 end) :: data
  | Long tag data => [0xFE; Z.of_nat (length data); tag] ++ data
  end.

Definition token_ok (t : token) : Prop :=
  match t with
  | Short ty tag data =>
      0 <= ty < 4 /\ 0 <= tag < 16 /\ is_Some (size_code (length data)) /\
      ~ (tag = 15 /\ ty = 3 /\ length data = 2%nat)
  | Long tag data => (length data <= 255)%nat
  end.

Lemma short_header_value tag ty code :
  0 <= ty < 4 -> 0 <= tag < 16 -> 0 <= code < 4 ->
  short_header tag ty code = tag * 16 + ty * 4 + code.
Proof.
  assert (H : forallb (fun tag => forallb (fun ty => forallb (fun code =>
    short_header tag ty code =? tag * 16 + ty * 4 + code) (seqZ 0 4)) (seqZ 0 4))
    (seqZ 0 16) = true) by (vm_compute; done).
  intros Hty Htag Hcode. rewrite forallb_forall in H.
  specialize (H tag ltac:(apply list_elem_of_In, elem_of_seqZ; lia)). cbv beta in H.
  rewrite forallb_forall in H.
  specialize (H ty ltac:(apply list_elem_of_In, elem_of_seqZ; lia)). cbv beta in H.
  rewrite forallb_forall in H.
  specialize (H code ltac:(apply list_elem_of_In, elem_of_seqZ; lia)).
  by apply Z.eqb_eq.
Qed.

Lemma size_code_Some n code :
  size_code n = Some code -> 0 <= code < 4 /\ data_len code = n /\ (code = 2 <-> n = 2%nat).
Proof. destruct n as [|[|[|[|[|]]]]]; intros [= <-]; (split; [lia | split; [done | split; (done || lia)]]). Qed.

Lemma parse_item_token t rest :
  token_ok t -> parse_item (token_bytes t ++ rest) = Some (t, rest).
Proof.
  destruct t as [ty tag data|tag data]; cbn -[Z.mul data_len].
  - intros (Hty & Htag & [code Hc] & Hn). rewrite Hc.
    apply size_code_Some in Hc as (Hcode & Hlen & H2).
    replace (tag * 16 + ty * 4 + code =? 254) with false by (symmetry; apply Z.eqb_neq; lia).
    replace ((tag * 16 + ty * 4 + code) mod 4) with code by zsolve.
    replace ((tag * 16 + ty * 4 + code) / 4 mod 4) with ty by zsolve.
    replace ((tag * 16 + ty * 4 + code) / 16) with tag by zsolve.
    rewrite Hlen, length_app, take_app_length, drop_app_length.
    by rewrite (proj2 (Nat.leb_le _ _)) by lia.
  - intros Hlen. rewrite Nat2Z.id, length_app, take_app_length, drop_app_length.
    by rewrite (proj2 (Nat.leb_le _ _)) by lia.
Qed.

Lemma parse_tokens_concat ts fuel :
  Forall token_ok ts -> (length ts <= fuel)%nat ->
  parse_tokens fuel (concat (map token_bytes ts)) = Some ts.
Proof.
  intros Hts. revert fuel. induction Hts as [|t ts Ht Hts IH]; intros [|fuel] Hf; cbn in Hf;
    try lia; cbn [map concat parse_tokens]; [done..|].
  destruct (token_bytes t ++ concat (map token_bytes ts)) eqn:E;
    [by destruct t|]. rewrite <- E, parse_item_token, IH by (done || lia). done.
Qed.

(** ** The encoder *)

Lemma short_bytes tag ty data buf :
  0 <= ty < 4 -> 0 <= tag < 16 -> is_Some (size_code (length data)) ->
  short tag ty data buf = Ok (buf ++ token_bytes (Short ty tag data)).
Proof.
  intros Hty Htag [code Hc]. unfold short. cbn [token_bytes]. rewrite Hc.
  apply size_code_Some in Hc as [Hcode _]. by rewrite short_header_value.
Qed.

Lemma length_dataU32 v : is_Some (size_code (length (dataU32 v))).
Proof. unfold dataU32. repeat case_if; cbn; eauto. Qed.

Lemma length_dataI32 v : is_Some (size_code (length (dataI32 v))).
Proof. unfold dataI32. repeat case_if; cbn; eauto. Qed.

#[local] Hint Resolve length_dataU32 length_dataI32 : viiper.

Ltac token_side :=
  unfold ItemTypeMain, ItemTypeGlobal, ItemTypeLocal;
  cbn [token_ok length size_code]; split_and?;
  first [lia | by eexists | auto with viiper; fail | intros (? & ? & ?); lia].

Lemma tokens_encode it : item_ok it = true ->
  Forall token_ok (tokens it) /\
  forall buf, encode it buf = Ok (buf ++ concat (map token_bytes (tokens it))).
Proof.
  induction it as [kind items IH|it Hleaf] using item_tree_ind; intros Hok.
  - cbn [item_ok] in Hok.
    assert (Hitems : Forall token_ok (flat_map tokens items) /\ forall buf,
      (fix go (items : list item) (buf : list Z) :=
        match items with
        | [] => Ok buf
        | it :: items => let? buf := encode it buf in go items buf
        end) items buf = Ok (buf ++ concat (map token_bytes (flat_map tokens items)))).
    { induction IH as [|it items Hit Hrest IH]; cbn [forallb] in Hok.
      - split; [done|]. intros buf. by rewrite app_nil_r.
      - apply andb_prop in Hok as [Hok1 Hok2]. specialize (Hit Hok1) as [Ht He].
        destruct (IH Hok2) as [Hts Hes]. cbn [flat_map]. split; [by apply Forall_app|].
        intros buf. rewrite He, Hes, map_app, concat_app, app_assoc. done. }
    destruct Hitems as [Hts Hes]. cbn [tokens encode]. split.
    + constructor; [token_side|]. apply Forall_app. split; [done|].
      constructor; [token_side | done].
    + intros buf. rewrite short_bytes by token_side. rewrite Hes.
      rewrite short_bytes by token_side.
      cbn [map concat]. rewrite map_app, concat_app. cbn [map concat].
      by rewrite app_nil_r, !app_assoc.
  - destruct it; try (by destruct (Hleaf _ _ eq_refl)); try discriminate Hok;
      cbn [tokens encode map concat] in *;
      try (split; [constructor; [token_side|done]|];
           intros buf; rewrite app_nil_r; apply short_bytes; token_side).
    + cbn [item_ok] in Hok. bool_prop.
      destruct (size_code (length data)) as [code|] eqn:Ec; [|done].
      assert (Hn : ~ (tag = 15 /\ ty = 3 /\ length data = 2%nat)).
      { intros (-> & -> & E2). rewrite E2 in *. done. }
      split; [constructor; [cbn; rewrite Ec; split_and!; eauto; lia | done]|].
      intros buf. rewrite app_nil_r. change (AnyItem_encode ty tag data buf) with
        (short tag ty data buf). apply short_bytes; eauto.
    + cbn [item_ok] in Hok. apply Nat.leb_le in Hok. split; [by constructor|].
      intros buf. unfold LongItem_encode. rewrite (proj2 (Nat.ltb_ge _ _)) by lia.
      rewrite app_nil_r, u8_id by lia. done.
Qed.

Lemma Bytes_loop_ok items buf : forallb item_ok items = true ->
  Forall token_ok (flat_map tokens items) /\
  Bytes_loop items buf = Ok (buf ++ concat (map token_bytes (flat_map tokens items))).
Proof.
  revert buf; induction items as [|it items IH]; intros buf Hok; cbn [forallb] in Hok.
  - split; [done|]. cbn. by rewrite app_nil_r.
  - apply andb_prop in Hok as [Hit Hok]. destruct (tokens_encode it Hit) as [Ht He].
    specialize (IH (buf ++ concat (map token_bytes (tokens it))) Hok) as [Hts IH].
    cbn [flat_map]. split; [by apply Forall_app|].
    rewrite map_app, concat_app, app_assoc, <- IH.
    cbn [Bytes_loop]. destruct it; try discriminate Hit; by rewrite He.
Qed.

Lemma length_concat_tokens ts : (length ts <= length (concat (map token_bytes ts)))%nat.
Proof.
  induction ts as [|t ts IH]; cbn; [lia|]. rewrite length_app. destruct t; cbn; lia.
Qed.

(** ** Values *)

(** The signed reading of item data (HID 1.11, 6.2.2.2). *)
Definition sign_extend (bs : list Z) : Z :=
  let n := 8 * Z.of_nat (length bs) in
  if le_val bs <? 2 ^ (n - 1) then le_val bs else le_val bs - 2 ^ n.

(** The variable-length data of an item carries its value. *)
Lemma item_data_value v :
  (U32 v -> le_val (dataU32 v) = v) /\ (I32 v -> sign_extend (dataI32 v) = v).
Proof.
  split; intros Hv.
  - unfold dataU32. rewrite !Z.shiftr_div_pow2 by lia. unfold u8.
    repeat case_if; unfold le_val; cbn -[Z.mul Z.div Z.modulo Z.add]; zsolve.
  - unfold dataI32, sign_extend. rewrite !Z.shiftr_div_pow2 by lia. unfold u8, u16, u32.
    destruct ((-128 <=? v) && (v <=? 127))%bool eqn:E1; [|
      destruct ((-32768 <=? v) && (v <=? 32767))%bool eqn:E2]; bool_prop;
      unfold le_val; cbn -[Z.mul Z.div Z.modulo Z.add Z.sub Z.ltb Z.leb];
      case_if; zsolve.
Qed.

Lemma item_data_value_witness :
  le_val (dataU32 70000) = 70000 /\ sign_extend (dataI32 (-129)) = -129.
Proof.
  split; [apply (item_data_value 70000) | apply (item_data_value (-129))]; lia.
Defined.

(** What a reader makes of an item: its type, its tag and its value, which is
    signed for the logical and physical limits (HID 1.11, 6.2.2.7). *)
Inductive reading :=
| Field (ty tag value : Z)
| Opaque_ (tag : Z) (data : list Z).

Definition signed_item (ty tag : Z) : bool := (ty =? 1) && (1 <=? tag) && (tag <=? 4).

Definition read (t : token) : reading :=
  match t with
  | Short ty tag data => Field ty tag (if signed_item ty tag then sign_extend data else le_val data)
  | Long tag data => Opaque_ tag data
  end.

(** What the tree says, item by item. *)
Fixpoint readings (it : item) : list reading :=
  match it with
  | NilItem => []
  | AnyItem ty tag data => [read (Short ty tag data)]
  | LongItem tag data => [Opaque_ tag data]
  | UsagePage page => [Field 1 0 page]
  | Usage usage => [Field 2 0 usage]
  | Collection kind items => Field 0 10 kind :: flat_map readings items ++ [Field 0 12 0]
  | UsageMinimum min => [Field 2 1 min]
  | UsageMaximum max => [Field 2 2 max]
  | LogicalMinimum min => [Field 1 1 min]
  | LogicalMaximum max => [Field 1 2 max]
  | ReportSize bits => [Field 1 7 bits]
  | ReportCount count => [Field 1 9 count]
  | Input flags => [Field 0 8 flags]
  | Output flags => [Field 0 9 flags]
  | Feature flags => [Field 0 11 flags]
  | ReportID id => [Field 1 8 id]
  | PhysicalMinimum min => [Field 1 3 min]
  | PhysicalMaximum max => [Field 1 4 max]
  | Unit value => [Field 1 6 value]
  end.

(** The Go types of the fields. *)
Fixpoint item_typed (it : item) : bool :=
  let u8 v := (0 <=? v) && (v <=? 255) in
  let u32 v := (0 <=? v) && (v <=? 4294967295) in
  let i32 v := (-2147483648 <=? v) && (v <=? 2147483647) in
  match it with
  | NilItem | AnyItem _ _ _ | LongItem _ _ => true
  | Collection kind items => u8 kind && forallb item_typed items
  | UsagePage v | Usage v | UsageMinimum v | UsageMaximum v | ReportCount v | Unit v => u32 v
  | LogicalMinimum v | LogicalMaximum v | PhysicalMinimum v | PhysicalMaximum v => i32 v
  | ReportSize v | Input v | Output v | Feature v | ReportID v => u8 v
  end.

Lemma read_tokens it : item_typed it = true -> map read (tokens it) = readings it.
Proof.
  induction it as [kind items IH|it Hleaf] using item_tree_ind; intros Ht.
  - cbn [item_typed] in Ht. apply andb_prop in Ht as [_ Ht]. cbn [tokens readings map].
    rewrite map_app. cbn [map]. f_equal; [unfold read, le_val; cbn; f_equal; lia|]. f_equal.
    induction IH as [|it items Hit Hrest IH]; [done|]. cbn [forallb] in Ht. apply andb_prop in Ht as [H1 H2].
    cbn [flat_map]. rewrite map_app, Hit, IH by done. done.
  - destruct it; try (by destruct (Hleaf _ _ eq_refl)); try done; cbn [item_typed] in Ht; bool_prop;
      cbn [tokens readings map read signed_item andb Z.eqb Z.leb Z.compare Pos.compare Pos.compare_cont Pos.eqb];
      do 2 f_equal;
      first [apply item_data_value; lia | unfold le_val; cbn; lia].
Qed.

Lemma read_all items : forallb item_typed items = true ->
  map read (flat_map tokens items) = flat_map readings items.
Proof.
  induction items as [|it items IH]; cbn [forallb flat_map]; intros H; [done|].
  apply andb_prop in H as [H1 H2]. by rewrite map_app, read_tokens, IH.
Qed.

(** ** The properties *)

(** C40: a well-formed tree always encodes, and the descriptor parses back to the tree's
    item sequence, collections opened and closed in order; when the fields are in the ranges of their Go
    types, a reader of the parsed items (unsigned values, signed ones for the logical and physical
    limits) finds the values the tree was given, whatever number of bytes carries them. *)
Theorem report_descriptor_roundtrip items :
  forallb item_ok items = true ->
  exists bs, ReportDescriptor_Bytes items = Ok bs /\
    parse_tokens (length bs) bs = Some (flat_map tokens items) /\
    (forallb item_typed items = true ->
     option_map (map read) (parse_tokens (length bs) bs) = Some (flat_map readings items)).
Proof.
  intros Hok. destruct (Bytes_loop_ok items [] Hok) as [Hts He].
  exists (concat (map token_bytes (flat_map tokens items))). split; [exact He|].
  rewrite parse_tokens_concat by (done || apply length_concat_tokens). split; [done|].
  intros Ht. cbn [option_map]. by rewrite read_all.
Qed.

Lemma report_descriptor_roundtrip_witness :
  exists bs, ReportDescriptor_Bytes
      [UsagePage 1; Usage 6; Collection 1 [LogicalMinimum (-127); LogicalMaximum 255; ReportCount 300; Input 2]]
    = Ok bs /\
    parse_tokens (length bs) bs =
      Some [Short 1 0 [1]; Short 2 0 [6]; Short 0 10 [1]; Short 1 1 [129]; Short 1 2 [255; 0];
            Short 1 9 [44; 1]; Short 0 8 [2]; Short 0 12 []] /\
    option_map (map read) (parse_tokens (length bs) bs) =
      Some [Field 1 0 1; Field 2 0 6; Field 0 10 1; Field 1 1 (-127); Field 1 2 255; Field 1 9 300;
            Field 0 8 2; Field 0 12 0].
Proof.
  destruct (report_descriptor_roundtrip [UsagePage 1; Usage 6;
    Collection 1 [LogicalMinimum (-127); LogicalMaximum 255; ReportCount 300; Input 2]] eq_refl) as (bs & H1 & H2 & H3).
  exists bs. split; [exact H1|]. split; [exact H2|]. exact (H3 eq_refl).
Defined.
