(* ===== verification/Descriptor.v ===== *)
(** * USB descriptors (src/usb/usbdesc.go, the descriptor builders of
    src/internal/server/usb/server.go)

    The descriptor records with their serializers, the Microsoft OS 1.0
    descriptors, Go's string to UTF-16 conversions, the configuration
    descriptor the server sends and the interface selections it derives. *)

From S2P Require Import Prelude Bytes Hid.

(** ** Go strings as runes

    [[]rune(s)]: UTF-8 decoding, with U+FFFD and width one for every byte that
    does not start a valid sequence (utf8.DecodeRune). *)

Definition RuneError : Z := 0xFFFD.

Definition in_range (lo hi b : Z) : bool := (lo <=? b) && (b <=? hi).
Definition cont_byte (b : Z) : bool := in_range 0x80 0xBF b.

(** The bounds of the second byte of a sequence that starts with [b0]. *)
Definition second_ok (b0 b1 : Z) : bool :=
  if b0 =? 0xE0 then in_range 0xA0 0xBF b1
  else if b0 =? 0xED then in_range 0x80 0x9F b1
  else if b0 =? 0xF0 then in_range 0x90 0xBF b1
  else if b0 =? 0xF4 then in_range 0x80 0x8F b1
  else cont_byte b1.

Definition decode_rune (s : list Z) : Z * nat :=
  match s with
  | [] => (RuneError, 0%nat)
  | b0 :: s =>
      if b0 <? 0x80 then (b0, 1%nat)
      else if in_range 0xC2 0xDF b0 then
        match s with
        | b1 :: _ => if second_ok b0 b1
                     then ((b0 - 0xC0) * 64 + (b1 - 0x80), 2%nat) else (RuneError, 1%nat)
        | _ => (RuneError, 1%nat)
        end
      else if in_range 0xE0 0xEF b0 then
        match s with
        | b1 :: b2 :: _ =>
            if second_ok b0 b1 && cont_byte b2
            then ((b0 - 0xE0) * 4096 + (b1 - 0x80) * 64 + (b2 - 0x80), 3%nat)
            else (RuneError, 1%nat)
        | _ => (RuneError, 1%nat)
        end
      else if in_range 0xF0 0xF4 b0 then
        match s with
        | b1 :: b2 :: b3 :: _ =>
            if second_ok b0 b1 && cont_byte b2 && cont_byte b3
            then ((b0 - 0xF0) * 262144 + (b1 - 0x80) * 4096 + (b2 - 0x80) * 64 +
                  (b3 - 0x80), 4%nat)
            else (RuneError, 1%nat)
        | _ => (RuneError, 1%nat)
        end
      else (RuneError, 1%nat)
  end.

Fixpoint runes_loop (fuel : nat) (s : list Z) : list Z :=
  match fuel, s with
  | O, _ | _, [] => []
  | S fuel, _ => let '(r, w) := decode_rune s in r :: runes_loop fuel (drop w s)
  end.

Definition runes (s : list Z) : list Z := runes_loop (length s) s.

(** utf16.Encode *)
Definition utf16_units (r : Z) : list Z :=
  if in_range 0 0xD7FF r || in_range 0xE000 0xFFFF r then [r]
  else if in_range 0x10000 0x10FFFF r then
    let v := r - 0x10000 in
    [0xD800 + Z.land (Z.shiftr v 10) 0x3FF; 0xDC00 + Z.land v 0x3FF]
  else [RuneError].

Definition utf16_encode (rs : list Z) : list Z := flat_map utf16_units rs.

(** ** Descriptor types *)

Definition DeviceDescType : Z := 0x01.
Definition ConfigDescType : Z := 0x02.
Definition InterfaceDescType : Z := 0x04.
Definition EndpointDescType : Z := 0x05.
Definition IADDescType : Z := 0x0B.
Definition HIDDescType : Z := 0x21.
Definition ReportDescType : Z := 0x22.
Definition DeviceDescLen : Z := 18.
Definition ConfigDescLen : Z := 9.
Definition IADDescLen : Z := 8.
Definition InterfaceDescLen : Z := 9.
Definition EndpointDescLen : Z := 7.

Record ClassSpecificDescriptor := { cd_DescriptorType : Z; cd_Payload : list Z }.

Record EndpointDescriptor := {
  BEndpointAddress : Z;
  ep_BMAttributes : Z;
  WMaxPacketSize : Z;
  BInterval : Z;
  ep_Trailing : list Z;
  ep_ClassDescriptors : list ClassSpecificDescriptor;
}.

Record HIDSubDescriptor := { sd_Type : Z; sd_Length : Z }.

Record HIDDescriptor := {
  BcdHID : Z;
  BCountryCode : Z;
  hd_Descriptors : list HIDSubDescriptor;
}.

Record HIDFunction := {
  hf_Descriptor : HIDDescriptor;
  hf_ReportDescriptor : list item;
  hf_ReportDescriptorBytes : list Z;
}.

Record InterfaceDescriptor := {
  BInterfaceNumber : Z;
  BAlternateSetting : Z;
  BNumEndpoints : Z;
  BInterfaceClass : Z;
  BInterfaceSubClass : Z;
  BInterfaceProtocol : Z;
  IInterface : Z;
}.

Record InterfaceConfig := {
  if_Descriptor : InterfaceDescriptor;
  if_Endpoints : list EndpointDescriptor;
  if_HID : option HIDFunction;
  if_ClassDescriptors : list ClassSpecificDescriptor;
}.

Record InterfaceAssociationDescriptor := {
  BFirstInterface : Z;
  BInterfaceCount : Z;
  BFunctionClass : Z;
  BFunctionSubClass : Z;
  BFunctionProtocol : Z;
  IFunction : Z;
}.

Record DeviceDescriptor := {
  BcdUSB : Z;
  BDeviceClass : Z;
  BDeviceSubClass : Z;
  BDeviceProtocol : Z;
  BMaxPacketSize0 : Z;
  IDVendor : Z;
  IDProduct : Z;
  BcdDevice : Z;
  IManufacturer : Z;
  IProduct : Z;
  ISerialNumber : Z;
  BNumConfigurations : Z;
  Speed : Z;
}.

Record ConfigurationDescriptor := {
  cfg_BConfigurationValue : Z;
  cfg_IConfiguration : Z;
  cfg_BMAttributes : Z;
  cfg_BMaxPower : Z;
}.

Record ConfigHeader := {
  WTotalLength : Z;
  ch_BNumInterfaces : Z;
  ch_BConfigurationValue : Z;
  ch_IConfiguration : Z;
  ch_BMAttributes : Z;
  ch_BMaxPower : Z;
}.

Record MicrosoftOS10Descriptor := {
  ms_VendorCode : Z;
  ms_InterfaceNumber : Z;
  ms_CompatibleID : list Z;
  ms_SubCompatibleID : list Z;
  ms_DeviceInterfaceGUID : list Z;
}.

Record Descriptor := {
  d_Device : DeviceDescriptor;
  d_Configuration : ConfigurationDescriptor;
  d_MicrosoftOS10 : option MicrosoftOS10Descriptor;
  d_Associations : list InterfaceAssociationDescriptor;
  d_Interfaces : list InterfaceConfig;
  d_Strings : gmap Z (list Z);
}.

(** ** Microsoft OS 1.0 *)

Definition EffectiveVendorCode (d : MicrosoftOS10Descriptor) : Z :=
  if ms_VendorCode d =? 0 then 0x20 else ms_VendorCode d.

Definition StringDescriptor (d : MicrosoftOS10Descriptor) : list Z :=
  [ 0x12; 0x03; 77; 0; 83; 0; 70; 0; 84; 0; 49; 0; 48; 0; 48; 0;
    EffectiveVendorCode d; 0 ].

(** copyFixedASCII(dst, s): the whole destination is cleared first. *)
Definition copyFixedASCII (n : nat) (s : list Z) : list Z :=
  put_at 0 (take n s) (zeros n).

Definition CompatibleIDDescriptor (d : MicrosoftOS10Descriptor) : list Z :=
  let out := zeros 40 in
  let out := put_at 0 (le_bytes 4 (Z.of_nat (length out))) out in
  let out := put_at 4 (le_bytes 2 0x0100) out in
  let out := put_at 6 (le_bytes 2 0x0004) out in
  let out := put_at 8 [0x01] out in
  let out := put_at 16 [ms_InterfaceNumber d] out in
  let out := put_at 18 (copyFixedASCII 8 (ms_CompatibleID d)) out in
  put_at 26 (copyFixedASCII 8 (ms_SubCompatibleID d)) out.

(** utf16leString(s): the UTF-16LE text of [s] with a terminating NUL. *)
Definition utf16leString (s : list Z) : list Z :=
  flat_map (le_bytes 2) (utf16_encode (runes (s ++ [0]))).

Definition ExtendedPropertiesDescriptor (d : MicrosoftOS10Descriptor) : list Z :=
  match ms_DeviceInterfaceGUID d with
  | [] =>
      let out := zeros 10 in
      let out := put_at 0 (le_bytes 4 (Z.of_nat (length out))) out in
      let out := put_at 4 (le_bytes 2 0x0100) out in
      put_at 6 (le_bytes 2 0x0005) out
  | _ =>
      let name := utf16leString (bytes_of_string "DeviceInterfaceGUID") in
      let data := utf16leString (ms_DeviceInterfaceGUID d) in
      let sectionLen := (4 + 4 + 2 + length name + 4 + length data)%nat in
      let out := zeros (10 + sectionLen) in
      let out := put_at 0 (le_bytes 4 (Z.of_nat (length out))) out in
      let out := put_at 4 (le_bytes 2 0x0100) out in
      let out := put_at 6 (le_bytes 2 0x0005) out in
      let out := put_at 8 (le_bytes 2 0x0001) out in
      let off := 10%nat in
      let out := put_at off (le_bytes 4 (Z.of_nat sectionLen)) out in
      let off := (off + 4)%nat in
      let out := put_at off (le_bytes 4 0x00000001) out in
      let off := (off + 4)%nat in
      let out := put_at off (le_bytes 2 (Z.of_nat (length name))) out in
      let off := (off + 2)%nat in
      let out := put_at off name out in
      let off := (off + length name)%nat in
      let out := put_at off (le_bytes 4 (Z.of_nat (length data))) out in
      let off := (off + 4)%nat in
      put_at off data out
  end.

Definition ControlResponse (d : MicrosoftOS10Descriptor) (wValue wIndex : Z) :
    option (list Z) :=
  if wIndex =? 0x0004 then Some (CompatibleIDDescriptor d)
  else if (wIndex =? 0x0005) || (wValue =? 0x0005) then Some (ExtendedPropertiesDescriptor d)
  else None.

(** ** Interface selection *)

(** The map [seen] of interface numbers, as the set of its keys. *)
Definition seen_interfaces (ifs : list InterfaceConfig) : gset Z :=
  fold_left (fun seen i => {[BInterfaceNumber (if_Descriptor i)]} ∪ seen) ifs ∅.

Definition NumInterfaces (d : Descriptor) : Z :=
  u8 (Z.of_nat (size (seen_interfaces (d_Interfaces d)))).

(** The loop of Descriptor.Interface: [found] is the first alternate seen. *)
Fixpoint interface_loop (number : Z) (found : option InterfaceConfig)
    (ifs : list InterfaceConfig) : option InterfaceConfig :=
  match ifs with
  | [] => found
  | i :: ifs =>
      if negb (BInterfaceNumber (if_Descriptor i) =? number) then
        interface_loop number found ifs
      else if BAlternateSetting (if_Descriptor i) =? 0 then Some i
      else interface_loop number
             (match found with Some f => Some f | None => Some i end) ifs
  end.

Definition Interface (d : Descriptor) (number : Z) : option InterfaceConfig :=
  interface_loop number None (d_Interfaces d).

(** ** Serializers *)

(** EncodeStringDescriptor *)
Definition EncodeStringDescriptor (s : list Z) : list Z :=
  let rs := runes s in
  u8 (Z.of_nat (2 + length rs * 2)) :: 0x03 ::
  flat_map (fun r => [u8 r; u8 (Z.shiftr r 8)]) rs.

(** Descriptor.Bytes: the standard device descriptor. *)
Definition Descriptor_Bytes (d : Descriptor) : list Z :=
  let v := d_Device d in
  [DeviceDescLen; DeviceDescType] ++ le_bytes 2 (BcdUSB v) ++
  [BDeviceClass v; BDeviceSubClass v; BDeviceProtocol v; BMaxPacketSize0 v] ++
  le_bytes 2 (IDVendor v) ++ le_bytes 2 (IDProduct v) ++ le_bytes 2 (BcdDevice v) ++
  [IManufacturer v; IProduct v; ISerialNumber v; BNumConfigurations v].

Definition InterfaceAssociationDescriptor_Write (i : InterfaceAssociationDescriptor) : list Z :=
  [ IADDescLen; IADDescType; BFirstInterface i; BInterfaceCount i; BFunctionClass i;
    BFunctionSubClass i; BFunctionProtocol i; IFunction i ].

Definition ConfigHeader_Write (h : ConfigHeader) : list Z :=
  [ConfigDescLen; ConfigDescType] ++ le_bytes 2 (WTotalLength h) ++
  [ ch_BNumInterfaces h; ch_BConfigurationValue h; ch_IConfiguration h;
    ch_BMAttributes h; ch_BMaxPower h ].

Definition InterfaceDescriptor_Write (i : InterfaceDescriptor) : list Z :=
  [ InterfaceDescLen; InterfaceDescType; BInterfaceNumber i; BAlternateSetting i;
    BNumEndpoints i; BInterfaceClass i; BInterfaceSubClass i; BInterfaceProtocol i;
    IInterface i ].

Definition EndpointDescriptor_Write (e : EndpointDescriptor) : list Z :=
  [ u8 (EndpointDescLen + Z.of_nat (length (ep_Trailing e))); EndpointDescType;
    BEndpointAddress e; ep_BMAttributes e ] ++ le_bytes 2 (WMaxPacketSize e) ++
  [BInterval e] ++ ep_Trailing e.

Inductive desc_err :=
| ErrNoSubDescriptors
| ErrReportTooLarge (n : nat)
| ErrHid (e : hid_err).

Definition HIDDescriptor_Write (h : HIDDescriptor) (reportLen : Z) :
    result desc_err (list Z) :=
  match hd_Descriptors h with
  | [] => Err ErrNoSubDescriptors
  | _ =>
      Ok ([u8 (6 + 3 * Z.of_nat (length (hd_Descriptors h))); HIDDescType] ++
          le_bytes 2 (BcdHID h) ++
          [BCountryCode h; u8 (Z.of_nat (length (hd_Descriptors h)))] ++
          flat_map (fun sd =>
            let l := if (sd_Type sd =? ReportDescType) && (sd_Length sd =? 0)
                     then reportLen else sd_Length sd in
            sd_Type sd :: le_bytes 2 l) (hd_Descriptors h))
  end.

Definition ClassSpecificDescriptor_Bytes (d : ClassSpecificDescriptor) : list Z :=
  [u8 (2 + Z.of_nat (length (cd_Payload d)))] ++ [cd_DescriptorType d] ++ cd_Payload d.

Definition reportLen (f : HIDFunction) : result desc_err Z :=
  match hf_ReportDescriptorBytes f with
  | [] =>
      match ReportDescriptor_Bytes (hf_ReportDescriptor f) with
      | Err e => Err (ErrHid e)
      | Ok rb => if (0xFFFF <? Z.of_nat (length rb)) then Err (ErrReportTooLarge (length rb))
                 else Ok (u16 (Z.of_nat (length rb)))
      end
  | raw => if (0xFFFF <? Z.of_nat (length raw)) then Err (ErrReportTooLarge (length raw))
           else Ok (u16 (Z.of_nat (length raw)))
  end.

(** HIDFunction.DescriptorBytes *)
Definition DescriptorBytes (f : HIDFunction) : result desc_err (list Z) :=
  let? rl := reportLen f in HIDDescriptor_Write (hf_Descriptor f) rl.

(** HIDFunction.ReportBytes *)
Definition ReportBytes (f : HIDFunction) : result desc_err (list Z) :=
  match hf_ReportDescriptorBytes f with
  | [] => match ReportDescriptor_Bytes (hf_ReportDescriptor f) with
          | Err e => Err (ErrHid e)
          | Ok rb => Ok rb
          end
  | raw => Ok raw
  end.

(** ** The server's builders (server.go) *)

Definition usbConfigValueDefault : Z := 1.
Definition usbConfigAttrBusPowered : Z := 0x80.
Definition usbConfigMaxPower100mA : Z := 50.

Definition descriptorConfigurationValue (desc : option Descriptor) : Z :=
  match desc with
  | None => usbConfigValueDefault
  | Some d => if cfg_BConfigurationValue (d_Configuration d) =? 0
              then usbConfigValueDefault
              else cfg_BConfigurationValue (d_Configuration d)
  end.

(** The bytes one entry of [desc.Interfaces] appends: its associations, the
    interface descriptor, the HID descriptor, class descriptors, endpoints. *)
Definition interface_bytes (assocs : list InterfaceAssociationDescriptor)
    (i : InterfaceConfig) : result desc_err (list Z) :=
  let iads := flat_map (fun iad =>
    if (BFirstInterface iad =? BInterfaceNumber (if_Descriptor i)) &&
       (BAlternateSetting (if_Descriptor i) =? 0)
    then InterfaceAssociationDescriptor_Write iad else []) assocs in
  let? hid := match if_HID i with None => Ok [] | Some f => DescriptorBytes f end in
  Ok (iads ++ InterfaceDescriptor_Write (if_Descriptor i) ++ hid ++
      flat_map ClassSpecificDescriptor_Bytes (if_ClassDescriptors i) ++
      flat_map (fun ep => EndpointDescriptor_Write ep ++
        flat_map ClassSpecificDescriptor_Bytes (ep_ClassDescriptors ep)) (if_Endpoints i)).

Fixpoint interfaces_bytes (assocs : list InterfaceAssociationDescriptor)
    (ifs : list InterfaceConfig) (buf : list Z) : result desc_err (list Z) :=
  match ifs with
  | [] => Ok buf
  | i :: ifs =>
      let? bs := interface_bytes assocs i in
      interfaces_bytes assocs ifs (buf ++ bs)
  end.

(** buildConfigDescriptor; [[]] for the nil it returns when a HID descriptor
    cannot be built. *)
Definition buildConfigDescriptor (desc : Descriptor) : list Z :=
  let attrs := cfg_BMAttributes (d_Configuration desc) in
  let attrs := if attrs =? 0 then usbConfigAttrBusPowered else attrs in
  let maxPower := cfg_BMaxPower (d_Configuration desc) in
  let maxPower := if maxPower =? 0 then usbConfigMaxPower100mA else maxPower in
  let h := {|
    WTotalLength := 0;
    ch_BNumInterfaces := NumInterfaces desc;
    ch_BConfigurationValue := descriptorConfigurationValue (Some desc);
    ch_IConfiguration := cfg_IConfiguration (d_Configuration desc);
    ch_BMAttributes := attrs;
    ch_BMaxPower := maxPower |} in
  match interfaces_bytes (d_Associations desc) (d_Interfaces desc) (ConfigHeader_Write h) with
  | Err _ => []
  | Ok data => put_at 2 (le_bytes 2 (u16 (Z.of_nat (length data)))) data
  end.

(** One pass of descriptorListInterfaces over the interfaces: [skip] says which
    are passed over besides the numbers already seen. *)
Fixpoint list_pass (skip : InterfaceConfig -> bool) (ifs : list InterfaceConfig)
    (seen : gset Z) (out : list InterfaceConfig) : gset Z * list InterfaceConfig :=
  match ifs with
  | [] => (seen, out)
  | i :: ifs =>
      let n := BInterfaceNumber (if_Descriptor i) in
      if bool_decide (n ∈ seen) || skip i then list_pass skip ifs seen out
      else list_pass skip ifs ({[n]} ∪ seen) (out ++ [i])
  end.

Definition descriptorListInterfaces (desc : Descriptor) : list InterfaceConfig :=
  let '(seen, out) :=
    list_pass (fun i => negb (BAlternateSetting (if_Descriptor i) =? 0))
      (d_Interfaces desc) ∅ [] in
  snd (list_pass (fun _ => false) (d_Interfaces desc) seen out).

Definition descriptorHasInterfaceAlt (desc : option Descriptor)
    (ifaceNumber altSetting : Z) : bool :=
  match desc with
  | None => false
  | Some d => existsb (fun i =>
      (BInterfaceNumber (if_Descriptor i) =? ifaceNumber) &&
      (BAlternateSetting (if_Descriptor i) =? altSetting)) (d_Interfaces d)
  end.

Fixpoint interface_numbers_loop (ifs : list InterfaceConfig) (seen : gset Z)
    (out : list Z) : list Z :=
  match ifs with
  | [] => out
  | i :: ifs =>
      let n := BInterfaceNumber (if_Descriptor i) in
      if bool_decide (n ∈ seen) then interface_numbers_loop ifs seen out
      else interface_numbers_loop ifs ({[n]} ∪ seen) (out ++ [n])
  end.

Definition descriptorInterfaceNumbers (desc : Descriptor) : list Z :=
  interface_numbers_loop (d_Interfaces desc) ∅ [].

(** HIDDescriptor.IsZero *)
Definition IsZero (h : HIDDescriptor) : bool :=
  (BcdHID h =? 0) && (BCountryCode h =? 0) && (length (hd_Descriptors h) =? 0)%nat.

(** * Properties *)

(** ** Interface selection *)

Abbreviation ifnum i := (BInterfaceNumber (if_Descriptor i)).
Abbreviation ifalt i := (BAlternateSetting (if_Descriptor i)).

Definition find_if (p : InterfaceConfig -> bool) (n : Z) (ifs : list InterfaceConfig) :=
  List.find (fun i => (ifnum i =? n) && p i) ifs.

Lemma find_if_Some p n ifs i :
  find_if p n ifs = Some i -> i ∈ ifs /\ ifnum i = n /\ p i = true.
Proof.
  intros [Hin Hp]%find_some. apply list_elem_of_In in Hin. bool_prop. auto.
Qed.

Lemma find_if_None p n ifs i :
  find_if p n ifs = None -> i ∈ ifs -> ifnum i = n -> p i = false.
Proof.
  intros Hn Hin%list_elem_of_In Hi.
  pose proof (find_none _ _ Hn i Hin) as H. cbv beta in H.
  rewrite Hi, Z.eqb_refl in H. done.
Qed.

Lemma find_if_ext p q n ifs :
  (forall i, p i = q i) -> find_if p n ifs = find_if q n ifs.
Proof.
  intros H. unfold find_if. induction ifs as [|i ifs IH]; cbn; [done|]. by rewrite H, IH.
Qed.

Lemma interface_loop_spec n found ifs :
  interface_loop n found ifs =
    match find_if (fun i => ifalt i =? 0) n ifs with
    | Some i => Some i
    | None => match found with
              | Some f => Some f
              | None => find_if (fun _ => true) n ifs
              end
    end.
Proof.
  revert found; induction ifs as [|i ifs IH]; intros found; cbn; [by destruct found|].
  rewrite !IH. unfold find_if. cbn [List.find].
  destruct (ifnum i =? n); cbn; [|done]. destruct (ifalt i =? 0); cbn; [done|].
  destruct (List.find _ ifs); [done|]. by destruct found.
Qed.

(** What one pass of descriptorListInterfaces appends: for every number not
    yet seen that has an acceptable entry, the first such entry. *)
Lemma list_pass_spec skip ifs seen out :
  exists extra, list_pass skip ifs seen out =
      (list_to_set (map (fun i => ifnum i) extra) ∪ seen, out ++ extra) /\
    NoDup (map (fun i => ifnum i) extra) /\
    (forall i, i ∈ extra -> (ifnum i ∉ seen) /\
       find_if (fun j => negb (skip j)) (ifnum i) ifs = Some i) /\
    (forall j, j ∈ ifs -> skip j = false ->
       (ifnum j ∈ seen) \/ ifnum j ∈ map (fun i => ifnum i) extra).
Proof.
  revert seen out; induction ifs as [|i ifs IH]; intros seen out; cbn [list_pass].
  { exists []. cbn. rewrite app_nil_r, (left_id_L ∅ (∪)).
    split_and!; [done | by constructor | set_solver.. ]. }
  destruct (bool_decide (ifnum i ∈ seen) || skip i)%bool eqn:E.
  - destruct (IH seen out) as (extra & -> & Hnd & Hex & Hcov). exists extra.
    apply orb_true_iff in E. rewrite bool_decide_eq_true in E.
    split_and!; [done | done | | ].
    + intros j Hj. destruct (Hex j Hj) as [Hns Hf]. split; [done|].
      unfold find_if in *. cbn [List.find].
      destruct (Z.eqb_spec (ifnum i) (ifnum j)) as [Hij|]; [|done].
      destruct E as [E|E]; [by rewrite Hij in E|]. by rewrite E.
    + intros j [->|Hj]%elem_of_cons Hs; [|by apply Hcov].
      left. destruct E; [done|congruence].
  - apply orb_false_iff in E as [Ens%bool_decide_eq_false Esk].
    destruct (IH ({[ifnum i]} ∪ seen) (out ++ [i])) as (extra & -> & Hnd & Hex & Hcov).
    exists (i :: extra). cbn [map]. split_and!.
    + rewrite <- app_assoc. f_equal. cbn [list_to_set]. set_solver.
    + constructor; [|done]. intros (j & Hj & Hin)%list_elem_of_fmap.
      destruct (Hex j Hin) as [Hns _]. set_solver.
    + intros j [->|Hj]%elem_of_cons.
      * split; [done|]. unfold find_if. cbn [List.find]. by rewrite Z.eqb_refl, Esk.
      * destruct (Hex j Hj) as [Hns Hf]. split; [set_solver|].
        unfold find_if in *. cbn [List.find].
        destruct (Z.eqb_spec (ifnum i) (ifnum j)) as [Hij|]; [set_solver|done].
    + intros j [->|Hj]%elem_of_cons Hs; [set_solver|].
      destruct (Hcov j Hj Hs); set_solver.
Qed.

Lemma seen_interfaces_spec ifs :
  seen_interfaces ifs = list_to_set (map (fun i => ifnum i) ifs).
Proof.
  unfold seen_interfaces.
  assert (H : forall s : gset Z, fold_left (fun seen i => {[ifnum i]} ∪ seen) ifs s =
    list_to_set (map (fun i => ifnum i) ifs) ∪ s).
  { induction ifs as [|i ifs IH]; intros s; cbn; [set_solver|]. rewrite IH. set_solver. }
  rewrite H. set_solver.
Qed.

(** Everything the list holds and how it was chosen. *)
Lemma list_interfaces_spec desc :
  let l := descriptorListInterfaces desc in
  NoDup (map (fun i => ifnum i) l) /\
  (forall i, i ∈ l -> Interface desc (ifnum i) = Some i) /\
  (list_to_set (map (fun i => ifnum i) l) : gset Z) = seen_interfaces (d_Interfaces desc).
Proof.
  cbv zeta. unfold descriptorListInterfaces.
  destruct (list_pass_spec (fun i => negb (ifalt i =? 0)) (d_Interfaces desc) ∅ [])
    as (l1 & -> & Hnd1 & Hex1 & Hcov1).
  destruct (list_pass_spec (fun _ => false) (d_Interfaces desc)
    (list_to_set (map (fun i => ifnum i) l1) ∪ ∅) ([] ++ l1)) as (l2 & -> & Hnd2 & Hex2 & Hcov2).
  cbn [snd app]. rewrite map_app. unfold Interface. split_and!.
  - apply list.NoDup_app. split_and!; [done| |done].
    intros n Hn (i & -> & Hi)%list_elem_of_fmap. destruct (Hex2 i Hi) as [Hns _].
    apply Hns, elem_of_union, or_introl, elem_of_list_to_set, Hn.
  - intros i [Hi|Hi]%elem_of_app; rewrite interface_loop_spec.
    + destruct (Hex1 i Hi) as [_ Hf].
      rewrite (find_if_ext _ (fun j => negb (negb (ifalt j =? 0))))
        by (intros; by rewrite negb_involutive). by rewrite Hf.
    + destruct (Hex2 i Hi) as [Hns Hf]. cbn [negb] in Hf. rewrite Hf.
      destruct (find_if (fun i => ifalt i =? 0) (ifnum i) (d_Interfaces desc)) as [j|] eqn:Ej;
        [|done].
      apply find_if_Some in Ej as (Hj & Hnum & Halt).
      exfalso. apply Hns. rewrite <- Hnum, elem_of_union, elem_of_list_to_set. left.
      destruct (Hcov1 j Hj) as [[]%not_elem_of_empty|?]; [by rewrite Halt | done].
  - rewrite seen_interfaces_spec, list_to_set_app_L. apply set_eq. intros n.
    rewrite elem_of_union, !elem_of_list_to_set. split.
    + intros [(i & -> & Hi)%list_elem_of_fmap|(i & -> & Hi)%list_elem_of_fmap];
        apply list_elem_of_fmap; exists i; (split; [done|]).
      * destruct (Hex1 i Hi) as [_ Hf]. apply find_if_Some in Hf. tauto.
      * destruct (Hex2 i Hi) as [_ Hf]. apply find_if_Some in Hf. tauto.
    + intros (i & -> & Hi)%list_elem_of_fmap. destruct (Hcov2 i Hi eq_refl) as [H|H]; [|auto].
      rewrite elem_of_union, elem_of_list_to_set in H.
      destruct H as [H|[]%not_elem_of_empty]. auto.
Qed.

(** ** Walking a configuration descriptor

    A host splits the configuration descriptor by the bLength byte that starts
    every descriptor. *)
Fixpoint walk (fuel : nat) (bs : list Z) : option (list (list Z)) :=
  match bs, fuel with
  | [], _ => Some []
  | _, O => None
  | l :: _, S fuel =>
      let n := Z.to_nat l in
      if (2 <=? n)%nat && (n <=? length bs)%nat
      then option_map (cons (take n bs)) (walk fuel (drop n bs))
      else None
  end.

Definition piece_ok (p : list Z) : Prop :=
  (2 <= length p)%nat /\ head p = Some (Z.of_nat (length p)).

Lemma walk_concat ps fuel :
  Forall piece_ok ps -> (length ps <= fuel)%nat -> walk fuel (concat ps) = Some ps.
Proof.
  intros Hps. revert fuel. induction Hps as [|p ps [H2 Hh] Hps IH]; intros [|fuel] Hf;
    cbn in Hf; try lia; [done..|].
  cbn [concat]. destruct p as [|l p]; [done|]. cbn in Hh. injection Hh as ->.
  cbn [app walk]. rewrite Nat2Z.id.
  change (Z.of_nat (S (length p)) :: p ++ concat ps) with
    ((Z.of_nat (S (length p)) :: p) ++ concat ps).
  rewrite length_app, take_app_length', drop_app_length', IH by (cbn in *; lia).
  cbn in H2. rewrite !(proj2 (Nat.leb_le _ _)) by (cbn; lia). done.
Qed.

Lemma length_concat_pieces ps : Forall piece_ok ps -> (length ps <= length (concat ps))%nat.
Proof.
  induction 1 as [|p ps [H2 _] _ IH]; cbn; [lia|]. rewrite length_app. lia.
Qed.

(** The descriptors of one interface entry, in transmission order. *)
Definition interface_pieces (assocs : list InterfaceAssociationDescriptor)
    (i : InterfaceConfig) : list (list Z) :=
  map InterfaceAssociationDescriptor_Write
    (List.filter (fun iad => (BFirstInterface iad =? ifnum i) && (ifalt i =? 0)) assocs) ++
  [InterfaceDescriptor_Write (if_Descriptor i)] ++
  match if_HID i with
  | Some f => match DescriptorBytes f with Ok h => [h] | Err _ => [] end
  | None => []
  end ++
  map ClassSpecificDescriptor_Bytes (if_ClassDescriptors i) ++
  flat_map (fun ep => EndpointDescriptor_Write ep ::
    map ClassSpecificDescriptor_Bytes (ep_ClassDescriptors ep)) (if_Endpoints i).

(** Sizes a single bLength byte can express. *)
Definition class_fits (d : ClassSpecificDescriptor) : bool := (length (cd_Payload d) <=? 253)%nat.
Definition endpoint_fits (e : EndpointDescriptor) : bool :=
  (length (ep_Trailing e) <=? 248)%nat && forallb class_fits (ep_ClassDescriptors e).
Definition interface_fits (i : InterfaceConfig) : bool :=
  forallb class_fits (if_ClassDescriptors i) && forallb endpoint_fits (if_Endpoints i) &&
  match if_HID i with
  | Some f => (length (hd_Descriptors (hf_Descriptor f)) <=? 83)%nat
  | None => true
  end.

Lemma class_piece_ok d : class_fits d = true -> piece_ok (ClassSpecificDescriptor_Bytes d).
Proof.
  unfold class_fits, piece_ok, ClassSpecificDescriptor_Bytes. intros H%Nat.leb_le. cbn.
  rewrite u8_id by lia. split; [lia|]. f_equal. lia.
Qed.

Lemma endpoint_piece_ok e : endpoint_fits e = true ->
  Forall piece_ok (EndpointDescriptor_Write e ::
    map ClassSpecificDescriptor_Bytes (ep_ClassDescriptors e)).
Proof.
  unfold endpoint_fits. intros [H1%Nat.leb_le H2]%andb_prop. constructor.
  - unfold piece_ok, EndpointDescriptor_Write, EndpointDescLen. cbn. autorewrite with len.
    rewrite u8_id by lia. split; [lia|]. f_equal. lia.
  - apply Forall_map, Forall_forall. rewrite forallb_forall in H2.
    intros d Hd. apply class_piece_ok, H2, Hd.
Qed.

Lemma length_subdescriptors g (l : list HIDSubDescriptor) :
  length (flat_map (fun sd => sd_Type sd :: le_bytes 2 (g sd)) l) = (3 * length l)%nat.
Proof.
  induction l as [|sd l IH]; cbn; [done|]. rewrite length_app, length_le_bytes, IH. lia.
Qed.

Lemma hid_piece_ok f h :
  DescriptorBytes f = Ok h -> (length (hd_Descriptors (hf_Descriptor f)) <= 83)%nat ->
  piece_ok h.
Proof.
  unfold DescriptorBytes, HIDDescriptor_Write. intros H Hl.
  destruct (reportLen f) as [rl|]; [|done].
  destruct (hd_Descriptors (hf_Descriptor f)) as [|sd l] eqn:E; [done|].
  rewrite <- E in *. injection H as <-. unfold piece_ok. cbn.
  rewrite length_subdescriptors.
  rewrite u8_id by lia. split; [lia|]. f_equal. lia.
Qed.

Lemma flat_map_if {A B} (p : A -> bool) (f : A -> list B) l :
  flat_map (fun x => if p x then f x else []) l = concat (map f (List.filter p l)).
Proof. induction l as [|x l IH]; cbn; [done|]. rewrite IH. by destruct (p x). Qed.

Lemma flat_map_concat_map_concat {A B} (f : A -> list (list B)) l :
  concat (flat_map f l) = flat_map (fun x => concat (f x)) l.
Proof. induction l as [|x l IH]; cbn; [done|]. by rewrite concat_app, IH. Qed.

Lemma interface_bytes_pieces assocs i bs :
  interface_bytes assocs i = Ok bs -> interface_fits i = true ->
  bs = concat (interface_pieces assocs i) /\ Forall piece_ok (interface_pieces assocs i).
Proof.
  unfold interface_bytes, interface_fits, interface_pieces. intros H Hf. bool_prop.
  assert (Hhid : match if_HID i with None => Ok [] | Some f => DescriptorBytes f end =
    Ok (concat match if_HID i with
        | Some f => match DescriptorBytes f with Ok h => [h] | Err _ => [] end
        | None => [] end) /\
    Forall piece_ok match if_HID i with
        | Some f => match DescriptorBytes f with Ok h => [h] | Err _ => [] end
        | None => [] end).
  { destruct (if_HID i) as [f|]; [|done]. destruct (DescriptorBytes f) as [h|] eqn:Eh; [|done].
    cbn. rewrite app_nil_r. split; [done|]. constructor; [|done].
    eapply hid_piece_ok; [done|]. by apply Nat.leb_le. }
  destruct Hhid as [E Hp]. rewrite E in H. apply Ok_inj in H as <-. split.
  - rewrite !concat_app. cbn [concat]. rewrite app_nil_r, flat_map_if, !flat_map_concat_map.
    do 4 f_equal. rewrite <- !flat_map_concat_map, flat_map_concat_map_concat.
    apply flat_map_ext. intros ep. cbn. by rewrite flat_map_concat_map.
  - rewrite !list.Forall_app. split_and!.
    + apply Forall_map, Forall_forall. intros iad _. split; [cbn; lia | done].
    + constructor; [split; [cbn; lia | done] | done].
    + done.
    + apply Forall_map, Forall_forall. rewrite forallb_forall in H0.
      intros d Hd. apply class_piece_ok; auto.
    + apply Forall_flat_map, Forall_forall. rewrite forallb_forall in H2.
      intros ep Hep. apply endpoint_piece_ok; auto.
Qed.

Lemma interfaces_bytes_pieces assocs ifs buf bs :
  interfaces_bytes assocs ifs buf = Ok bs -> forallb interface_fits ifs = true ->
  bs = buf ++ concat (flat_map (interface_pieces assocs) ifs) /\
  Forall piece_ok (flat_map (interface_pieces assocs) ifs).
Proof.
  revert buf; induction ifs as [|i ifs IH]; intros buf H Hf; cbn in H.
  - simplify_eq. cbn. by rewrite app_nil_r.
  - cbn in Hf. apply andb_prop in Hf as [Hi Hf].
    destruct (interface_bytes assocs i) as [b|] eqn:E; [|done].
    apply interface_bytes_pieces in E as [-> Hp]; [|done].
    apply IH in H as [-> Hps]; [|done]. cbn [flat_map]. split.
    + by rewrite concat_app, app_assoc.
    + by apply list.Forall_app.
Qed.

(** Whether every HID function of the descriptor serializes. *)
Definition hid_builds (i : InterfaceConfig) : bool :=
  match if_HID i with None => true | Some f => is_ok (DescriptorBytes f) end.

Lemma interfaces_bytes_total assocs ifs buf :
  is_ok (interfaces_bytes assocs ifs buf) = forallb hid_builds ifs.
Proof.
  revert buf; induction ifs as [|i ifs IH]; intros buf; cbn; [done|].
  unfold interface_bytes, hid_builds. destruct (if_HID i) as [f|]; cbn; [|apply IH].
  destruct (DescriptorBytes f); cbn; [apply IH|done].
Qed.

Lemma put_total_length h n :
  put_at 2 (le_bytes 2 n) (ConfigHeader_Write h) =
  ConfigHeader_Write {|
    WTotalLength := n; ch_BNumInterfaces := ch_BNumInterfaces h;
    ch_BConfigurationValue := ch_BConfigurationValue h;
    ch_IConfiguration := ch_IConfiguration h;
    ch_BMAttributes := ch_BMAttributes h; ch_BMaxPower := ch_BMaxPower h |}.
Proof. reflexivity. Qed.

(** ** The properties *)

(** When every HID function serializes and every descriptor fits its
    bLength byte, the configuration descriptor the server sends is a chain a
    host can walk: a 9-byte header carrying the interface count, then for each
    interface entry its associations, interface descriptor, HID descriptor,
    class descriptors and endpoints, and nothing else; wTotalLength is the
    length of the whole.  When some HID function does not serialize, nothing
    is sent. *)
Theorem config_descriptor_walk desc :
  forallb interface_fits (d_Interfaces desc) = true ->
  if forallb hid_builds (d_Interfaces desc) then
    let data := buildConfigDescriptor desc in
    exists hdr,
      walk (length data) data =
        Some (hdr :: flat_map (interface_pieces (d_Associations desc)) (d_Interfaces desc)) /\
      length hdr = 9%nat /\ byte_at hdr 1 = ConfigDescType /\
      byte_at hdr 4 = NumInterfaces desc /\
      le_val (slice 2 4 data) = u16 (Z.of_nat (length data))
  else buildConfigDescriptor desc = [].
Proof.
  intros Hf. unfold buildConfigDescriptor.
  set (h := ConfigHeader_Write _).
  pose proof (interfaces_bytes_total (d_Associations desc) (d_Interfaces desc) h) as Ht.
  destruct (interfaces_bytes (d_Associations desc) (d_Interfaces desc) h) as [bs|] eqn:E;
    cbn [is_ok] in Ht; rewrite <- Ht; [|done]. cbv zeta.
  apply interfaces_bytes_pieces in E as [-> Hp]; [|done].
  remember (u16 _) as n eqn:En. subst h.
  rewrite put_at_app, put_total_length
    by (rewrite length_le_bytes; change (length (ConfigHeader_Write _)) with 9%nat; lia).
  set (hdr := ConfigHeader_Write _). exists hdr.
  assert (Hh : piece_ok hdr) by (split; [change (length hdr) with 9%nat; lia | done]).
  change (hdr ++ concat (flat_map (interface_pieces (d_Associations desc)) (d_Interfaces desc)))
    with (concat (hdr :: flat_map (interface_pieces (d_Associations desc)) (d_Interfaces desc))).
  split_and!; [|done..|].
  - apply walk_concat; [by constructor|]. apply length_concat_pieces. by constructor.
  - change (slice 2 4 _) with (le_bytes 2 n).
    rewrite le_val_small by (subst n; apply u16_range). subst n.
    f_equal.
Qed.

(** A composite device used by the witnesses: an audio association over
    interfaces 0 and 1, interface 1 with two alternates, a HID interface 2. *)
Definition demo_hid : HIDFunction := {|
  hf_Descriptor := {| BcdHID := 0x111; BCountryCode := 0;
    hd_Descriptors := [{| sd_Type := ReportDescType; sd_Length := 0 |}] |};
  hf_ReportDescriptor := [UsagePage 1; Usage 5; Collection 1 [ReportSize 8; Input 2]];
  hf_ReportDescriptorBytes := [] |}.

Definition demo_if (n alt cls : Z) (hid : option HIDFunction) (eps : list EndpointDescriptor) :=
  {| if_Descriptor := {| BInterfaceNumber := n; BAlternateSetting := alt;
       BNumEndpoints := Z.of_nat (length eps); BInterfaceClass := cls;
       BInterfaceSubClass := 0; BInterfaceProtocol := 0; IInterface := 0 |};
     if_Endpoints := eps; if_HID := hid;
     if_ClassDescriptors := [{| cd_DescriptorType := 0x24; cd_Payload := [1; 2; 3] |}] |}.

Definition demo_ep (addr attrs : Z) : EndpointDescriptor := {|
  BEndpointAddress := addr; ep_BMAttributes := attrs; WMaxPacketSize := 64;
  BInterval := 4; ep_Trailing := []; ep_ClassDescriptors := [] |}.

Definition demo_desc : Descriptor := {|
  d_Device := {| BcdUSB := 0x200; BDeviceClass := 0; BDeviceSubClass := 0;
    BDeviceProtocol := 0; BMaxPacketSize0 := 64; IDVendor := 0x54C; IDProduct := 0xCE6;
    BcdDevice := 0x100; IManufacturer := 1; IProduct := 2; ISerialNumber := 0;
    BNumConfigurations := 1; Speed := 3 |};
  d_Configuration := {| cfg_BConfigurationValue := 0; cfg_IConfiguration := 0;
    cfg_BMAttributes := 0; cfg_BMaxPower := 0 |};
  d_MicrosoftOS10 := None;
  d_Associations := [{| BFirstInterface := 0; BInterfaceCount := 2; BFunctionClass := 1;
    BFunctionSubClass := 0; BFunctionProtocol := 0; IFunction := 0 |}];
  d_Interfaces := [demo_if 0 0 1 None []; demo_if 1 1 1 None [demo_ep 0x01 0x09];
    demo_if 1 0 1 None []; demo_if 2 0 3 (Some demo_hid) [demo_ep 0x84 3; demo_ep 0x03 3]];
  d_Strings := {[ 1 := bytes_of_string "VIIPER" ]} |}.

Lemma config_descriptor_walk_witness :
  exists hdr, walk (length (buildConfigDescriptor demo_desc)) (buildConfigDescriptor demo_desc) =
      Some (hdr :: flat_map (interface_pieces (d_Associations demo_desc)) (d_Interfaces demo_desc)) /\
    length hdr = 9%nat /\ byte_at hdr 1 = ConfigDescType /\ byte_at hdr 4 = 3 /\
    le_val (slice 2 4 (buildConfigDescriptor demo_desc)) = 103.
Proof. exact (config_descriptor_walk demo_desc eq_refl). Defined.

(** The interface list of the export replies names every interface
    number of the configuration exactly once, in an entry which is the one
    Descriptor.Interface selects (alternate setting zero when there is one);
    so its length is the bNumInterfaces the replies announce. *)
Theorem list_interfaces_complete desc :
  (size (seen_interfaces (d_Interfaces desc)) < 256)%nat ->
  let l := descriptorListInterfaces desc in
  Z.of_nat (length l) = NumInterfaces desc /\
  NoDup (map (fun i => ifnum i) l) /\
  (forall n, n ∈ map (fun i => ifnum i) l <-> n ∈ map (fun i => ifnum i) (d_Interfaces desc)) /\
  (forall i, i ∈ l -> Interface desc (ifnum i) = Some i).
Proof.
  cbv zeta. intros Hs. destruct (list_interfaces_spec desc) as (Hnd & Hsel & Hset).
  assert (Hlen : length (descriptorListInterfaces desc) =
    size (seen_interfaces (d_Interfaces desc))).
  { rewrite <- Hset, size_list_to_set by done. by rewrite length_map. }
  split_and!; [|done| |done].
  - unfold NumInterfaces. rewrite u8_id, Hlen by lia. done.
  - intros n. rewrite <- !(elem_of_list_to_set (C := gset Z)), Hset.
    by rewrite seen_interfaces_spec.
Qed.

Lemma list_interfaces_complete_witness :
  Z.of_nat (length (descriptorListInterfaces demo_desc)) = 3 /\
  NoDup (map (fun i => ifnum i) (descriptorListInterfaces demo_desc)).
Proof.
  destruct (list_interfaces_complete demo_desc ltac:(vm_compute; lia)) as (H1 & H2 & _).
  split; [exact H1 | exact H2].
Defined.

(** ** Strings *)

Definition scalar_value (r : Z) : Prop := 0 <= r < 0xD800 \/ 0xE000 <= r < 0x110000.

Lemma in_range_spec lo hi b : in_range lo hi b = true <-> lo <= b <= hi.
Proof. unfold in_range. rewrite andb_true_iff, !Z.leb_le. done. Qed.

Lemma second_ok_bounds b0 b1 : second_ok b0 b1 = true ->
  0x80 <= b1 <= 0xBF /\ (b0 = 0xE0 -> 0xA0 <= b1) /\ (b0 = 0xED -> b1 <= 0x9F) /\
  (b0 = 0xF0 -> 0x90 <= b1) /\ (b0 = 0xF4 -> b1 <= 0x8F).
Proof. unfold second_ok, cont_byte. repeat case_if; rewrite in_range_spec; lia. Qed.

Lemma decode_rune_scalar s : bytes_ok s -> scalar_value (decode_rune s).1.
Proof.
  assert (He : scalar_value RuneError) by (unfold scalar_value, RuneError; lia).
  intros Hs. destruct s as [|b0 s]; [done|]. inversion Hs as [|? ? Hb0 Hs']; subst.
  cbn [decode_rune]. case_if; [unfold scalar_value; cbn; lia|].
  destruct (in_range 0xC2 0xDF b0) eqn:E2; [|
    destruct (in_range 0xE0 0xEF b0) eqn:E3; [|
      destruct (in_range 0xF0 0xF4 b0) eqn:E4; [|done]]];
    destruct s as [|b1 [|b2 [|b3 s]]]; try done; case_if; try done; bool_prop;
    repeat match goal with
    | H : second_ok _ _ = true |- _ => apply second_ok_bounds in H
    | H : cont_byte _ = true |- _ => apply in_range_spec in H
    | H : in_range _ _ _ = true |- _ => apply in_range_spec in H
    end; unfold scalar_value; cbn; lia.
Qed.

Lemma runes_scalar s : bytes_ok s -> Forall scalar_value (runes s).
Proof.
  unfold runes. generalize (length s) as fuel. intros fuel Hs.
  revert s Hs; induction fuel as [|fuel IH]; intros s Hs; [done|].
  destruct s as [|b s]; [done|]. cbn [runes_loop].
  pose proof (decode_rune_scalar (b :: s) Hs) as Hr.
  destruct (decode_rune (b :: s)) as [r w]. constructor; [done|]. apply IH.
  by apply Forall_drop.
Qed.

(** For a string of at most 126 characters of the Basic Multilingual
    Plane, the string descriptor is its own length, the STRING type and the
    UTF-16LE text, as the comment of EncodeStringDescriptor says. *)
Theorem string_descriptor_utf16le s :
  bytes_ok s -> Forall (fun r => r <= 0xFFFF) (runes s) -> (length (runes s) <= 126)%nat ->
  EncodeStringDescriptor s =
    Z.of_nat (length (EncodeStringDescriptor s)) :: 0x03 ::
    flat_map (le_bytes 2) (utf16_encode (runes s)).
Proof.
  intros Hok Hbmp Hlen. apply runes_scalar in Hok.
  assert (Htext : flat_map (fun r => [u8 r; u8 (Z.shiftr r 8)]) (runes s) =
    flat_map (le_bytes 2) (utf16_encode (runes s))).
  { clear Hlen. induction Hok as [|r rs Hr Hrs IH]; [done|].
    inversion Hbmp as [|? ? Hr16 Hrs16]; subst. cbn [flat_map utf16_encode].
    unfold utf16_encode in *. cbn [flat_map]. rewrite flat_map_app, IH by done. f_equal.
    unfold utf16_units, in_range.
    replace (((0 <=? r) && (r <=? 0xD7FF) || (0xE000 <=? r) && (r <=? 0xFFFF))%bool) with true.
    - cbn [flat_map]. rewrite app_nil_r. unfold u8. by rewrite Z.shiftr_div_pow2 by lia.
    - symmetry. apply orb_true_iff. rewrite !andb_true_iff, !Z.leb_le.
      unfold scalar_value in Hr. lia. }
  assert (Hl : length (flat_map (fun r => [u8 r; u8 (Z.shiftr r 8)]) (runes s)) =
    (length (runes s) * 2)%nat).
  { clear. induction (runes s) as [|r rs IH]; cbn; [done|]. rewrite IH. lia. }
  unfold EncodeStringDescriptor at 1. rewrite u8_id by lia.
  unfold EncodeStringDescriptor. cbn [length]. rewrite Hl, <- Htext. done.
Qed.

Lemma string_descriptor_utf16le_witness :
  EncodeStringDescriptor (bytes_of_string "Pad") = [8; 3; 80; 0; 97; 0; 100; 0].
Proof.
  apply (string_descriptor_utf16le (bytes_of_string "Pad"));
    [by_decide | by_decide | by_decide].
Defined.

(** Outside the Basic Multilingual Plane the text of the descriptor
    is not UTF-16: the character U+1F3AE keeps its low sixteen bits instead of
    becoming a surrogate pair. *)
Theorem string_descriptor_truncates_astral :
  let s := [0xF0; 0x9F; 0x8E; 0xAE] in
  runes s = [0x1F3AE] /\ EncodeStringDescriptor s = [4; 3; 0xAE; 0xF3] /\
  flat_map (le_bytes 2) (utf16_encode (runes s)) = [0x3C; 0xD8; 0xAE; 0xDF].
Proof. vm_compute. auto. Qed.

(** ** Microsoft OS 1.0 properties *)

Lemma zeros_nil n : (n = 0)%nat -> zeros n = [].
Proof. by intros ->. Qed.

(** The extended-properties section announces the lengths it has. *)
Theorem extended_properties_layout d :
  ms_DeviceInterfaceGUID d <> [] ->
  let name := utf16leString (bytes_of_string "DeviceInterfaceGUID") in
  let data := utf16leString (ms_DeviceInterfaceGUID d) in
  let section := le_bytes 4 1 ++ le_bytes 2 (Z.of_nat (length name)) ++ name ++
                 le_bytes 4 (Z.of_nat (length data)) ++ data in
  ExtendedPropertiesDescriptor d =
    le_bytes 4 (Z.of_nat (length (ExtendedPropertiesDescriptor d))) ++
    le_bytes 2 0x0100 ++ le_bytes 2 5 ++ le_bytes 2 1 ++
    le_bytes 4 (Z.of_nat (4 + length section)) ++ section.
Proof.
  intros Hg name data section.
  assert (E : ExtendedPropertiesDescriptor d =
    le_bytes 4 (Z.of_nat (14 + length section)) ++
    le_bytes 2 0x0100 ++ le_bytes 2 5 ++ le_bytes 2 1 ++
    le_bytes 4 (Z.of_nat (4 + length section)) ++ section).
  { unfold ExtendedPropertiesDescriptor.
    destruct (ms_DeviceInterfaceGUID d) as [|c g]; [done|].
    fold name. change (utf16leString (c :: g)) with data. cbv zeta.
    assert (Hsec : length section = (10 + length name + length data)%nat)
      by (subst section; autorewrite with len; lia).
    change (zeros (10 + (4 + 4 + 2 + length name + 4 + length data))) with
      ([] ++ zeros (10 + (4 + 4 + 2 + length name + 4 + length data))).
    do 10 (rewrite put_at_next by (autorewrite with len; lia)).
    rewrite (zeros_nil (_ - _)) by (autorewrite with len; lia).
    rewrite app_nil_r, app_nil_l, <- !app_assoc. subst section.
    unfold zeros. rewrite length_app, length_replicate. cbn [length].
    repeat f_equal; autorewrite with len; lia. }
  rewrite E. f_equal.
Qed.

Lemma extended_properties_layout_witness :
  let d := {| ms_VendorCode := 0; ms_InterfaceNumber := 1;
              ms_CompatibleID := bytes_of_string "WINUSB"; ms_SubCompatibleID := [];
              ms_DeviceInterfaceGUID := bytes_of_string "{A}" |} in
  le_val (slice 0 4 (ExtendedPropertiesDescriptor d)) = 72 /\
  length (ExtendedPropertiesDescriptor d) = 72%nat.
Proof.
  cbv zeta. rewrite (extended_properties_layout
    {| ms_VendorCode := 0; ms_InterfaceNumber := 1;
       ms_CompatibleID := bytes_of_string "WINUSB"; ms_SubCompatibleID := [];
       ms_DeviceInterfaceGUID := bytes_of_string "{A}" |} ltac:(discriminate)).
  vm_compute. auto.
Defined.
