(* ===== verification/Urb.v ===== *)
(** * URB messages of one USB/IP stream
      (src/internal/server/usb: urb_stream.go, response_writer.go and the
      submission checks of endpoint_scheduler.go)

    The header parse and checks of handleUrbStream, the hand-written response
    serializers, the ISO descriptor reader, and the validation of isochronous
    and interrupt submissions against the endpoint descriptor. *)

From S2P Require Import Prelude Bytes GoIO UsbIp Hid Descriptor.

Definition retSubmitHeaderSize : nat := 48.
Definition urbHdrSize : nat := 48.
Definition maximumTransferSize : Z := 16 * 1024 * 1024.
Definition maxIsoPackets : Z := 1024.
Definition errConnReset : Z := -104.
Definition errPipe : Z := -32.
Definition errNoSpace : Z := -28.

(** ** Response packets

    [dst] only lends its capacity: every byte of the result is cleared or
    written, so the packets are functions of the other arguments. *)

Fixpoint put_iso (offset : nat) (ps : list IsoPacketDescriptor) (dst : list Z) : list Z :=
  match ps with
  | [] => dst
  | p :: ps =>
      let dst := put_at offset (be_bytes 4 (iso_Offset p)) dst in
      let dst := put_at (offset + 4) (be_bytes 4 (iso_Length p)) dst in
      let dst := put_at (offset + 8) (be_bytes 4 (iso_ActualLength p)) dst in
      let dst := put_at (offset + 12) (be_bytes 4 (u32 (iso_Status p))) dst in
      put_iso (offset + 16) ps dst
  end.

Definition buildRetSubmitPacket (seq status actualLen : Z) (respData : list Z)
    (isoPackets : list IsoPacketDescriptor) (isIso : bool) : list Z :=
  let total := (retSubmitHeaderSize + length respData +
                if isIso then length isoPackets * IsoPacketDescriptorSize else 0)%nat in
  let dst := zeros total in
  let dst := put_at 0 (be_bytes 4 RetSubmitCode) dst in
  let dst := put_at 4 (be_bytes 4 seq) dst in
  let dst := put_at 20 (be_bytes 4 (u32 status)) dst in
  let dst := put_at 24 (be_bytes 4 actualLen) dst in
  let packetCount := if isIso then i32 (Z.of_nat (length isoPackets)) else -1 in
  let dst := put_at 32 (be_bytes 4 (u32 packetCount)) dst in
  let dst := put_at retSubmitHeaderSize respData dst in
  if isIso then put_iso (retSubmitHeaderSize + length respData) isoPackets dst else dst.

(** The grown copy keeps the header; the payload window is zero either way. *)
Definition buildPreparedRetSubmitPacket (seq payloadSize : Z) : list Z :=
  let payloadSize := if payloadSize <? 0 then 0 else payloadSize in
  let dst := buildRetSubmitPacket seq 0 (u32 payloadSize) [] [] false in
  dst ++ zeros (Z.to_nat payloadSize).

Definition buildRetUnlinkPacket (seq status : Z) : list Z :=
  let dst := zeros retSubmitHeaderSize in
  let dst := put_at 0 (be_bytes 4 RetUnlinkCode) dst in
  let dst := put_at 4 (be_bytes 4 seq) dst in
  put_at 20 (be_bytes 4 (u32 status)) dst.

Definition buildTransactionalControlResponse (seq status actualLength responseLength : Z) :
    list Z :=
  let dst := zeros (retSubmitHeaderSize + Z.to_nat responseLength) in
  let dst := put_at 0 (be_bytes 4 RetSubmitCode) dst in
  let dst := put_at 4 (be_bytes 4 seq) dst in
  let dst := put_at 20 (be_bytes 4 (u32 status)) dst in
  let dst := put_at 24 (be_bytes 4 actualLength) dst in
  put_at 32 (be_bytes 4 (u32 (-1))) dst.

(** writeFull: [None] is a loop cut off by the fuel. *)
Fixpoint writeFull {W} `{Writer W} (fuel : nat) (w : W) (packet : list Z) :
    option (W * option io_err) :=
  match packet with
  | [] => Some (w, None)
  | _ =>
      match fuel with
      | O => None
      | S fuel =>
          let '(w, (n, err)) := w_write w packet in
          let packet := if (0 <? n)%nat then drop n packet else packet in
          match err with
          | Some e => Some (w, Some e)
          | None => if (n =? 0)%nat then Some (w, Some ErrNoProgress)
                    else writeFull fuel w packet
          end
      end
  end.

(** ** ISO descriptor arrays *)

Inductive iso_err := ErrDescriptorLength | ErrIsoIO (e : io_err).

(** [for index := range packets { packets[index].Decode(wire[16*index:...]) }] *)
Fixpoint decode_iso_loop (count index : nat) (wire : list Z) :
    result iso_err (list IsoPacketDescriptor) :=
  match count with
  | O => Ok []
  | S count =>
      let offset := (index * IsoPacketDescriptorSize)%nat in
      match IsoPacketDescriptor_Decode (slice offset (offset + IsoPacketDescriptorSize) wire) with
      | Err e => Err (ErrIsoIO e)
      | Ok p => let? ps := decode_iso_loop count (S index) wire in Ok (p :: ps)
      end
  end.

Definition decodeIsoPacketDescriptors (wire : list Z) (count : nat) :
    result iso_err (list IsoPacketDescriptor) :=
  if (length wire / IsoPacketDescriptorSize <? count)%nat ||
     negb (length wire =? count * IsoPacketDescriptorSize)%nat
  then Err ErrDescriptorLength
  else decode_iso_loop count 0 wire.

(** readIsoPacketDescriptors over a scratch buffer of [scratch] bytes. *)
Definition readIsoPacketDescriptors {R} `{Reader R} (r : R) (scratch count : nat) :
    option (R * result iso_err (list IsoPacketDescriptor)) :=
  if (scratch / IsoPacketDescriptorSize <? count)%nat then Some (r, Err ErrDescriptorLength)
  else
    match read_full r (count * IsoPacketDescriptorSize) with
    | Done r wire => Some (r, decodeIsoPacketDescriptors wire count)
    | Failed r e => Some (r, Err (ErrIsoIO e))
    | OutOfFuel => None
    end.

(** ** The URB header *)

Inductive urb_err :=
| ErrDirection (dir seq : Z)
| ErrEndpoint (ep seq : Z)
| ErrCommand (command seq devid : Z)
| ErrTransferLength (len : Z)
| ErrPacketCount (n : Z).

Inductive urb_cmd :=
| UrbUnlink (seq unlinkSeq : Z)
| UrbSubmit (seq dir ep xferLen packetCount : Z) (setup : list Z).

(** The checks of one loop iteration of handleUrbStream, from the 48 header
    bytes to the point where the submission's payload is read. *)
Definition parse_urb_header (header : list Z) : result urb_err urb_cmd :=
  let command := be_val (slice 0x00 0x04 header) in
  let seq := be_val (slice 0x04 0x08 header) in
  let dir := be_val (slice 0x0c 0x10 header) in
  let ep := be_val (slice 0x10 0x14 header) in
  if negb (dir =? DirOut) && negb (dir =? DirIn) then Err (ErrDirection dir seq)
  else if 15 <? ep then Err (ErrEndpoint ep seq)
  else if command =? CmdUnlinkCode then
    Ok (UrbUnlink seq (be_val (slice 0x14 0x18 header)))
  else if negb (command =? CmdSubmitCode) then
    Err (ErrCommand command seq (be_val (slice 0x08 0x0c header)))
  else
    let xferLen := be_val (slice 0x18 0x1c header) in
    if maximumTransferSize <? xferLen then Err (ErrTransferLength xferLen)
    else
      let packetCountWire := i32 (be_val (slice 0x20 0x24 header)) in
      if (packetCountWire <? -1) || (maxIsoPackets <? packetCountWire)
      then Err (ErrPacketCount packetCountWire)
      else Ok (UrbSubmit seq dir ep xferLen packetCountWire (slice 0x28 0x30 header)).

(** ** Endpoint lookup and submission checks *)

Record endpointDescriptorBinding := {
  b_interfaceNumber : Z;
  b_alternateSetting : Z;
  b_descriptor : EndpointDescriptor;
}.

(** [uint8(ep & 0x0f)], with the direction bit for DirIn. *)
Definition endpoint_address (ep dir : Z) : Z :=
  let address := u8 (Z.land ep 0x0f) in
  if dir =? DirIn then Z.lor address 0x80 else address.

Definition findEndpointBinding (desc : option Descriptor) (ep dir : Z) :
    option endpointDescriptorBinding :=
  match desc with
  | None => None
  | Some d =>
      if ep =? 0 then None else
      let address := endpoint_address ep dir in
      first_some (fun i => first_some (fun e =>
        if BEndpointAddress e =? address
        then Some {| b_interfaceNumber := BInterfaceNumber (if_Descriptor i);
                     b_alternateSetting := BAlternateSetting (if_Descriptor i);
                     b_descriptor := e |}
        else None) (if_Endpoints i)) (d_Interfaces d)
  end.

Definition endpointIsIsochronous (desc : option Descriptor) (ep dir : Z) : bool :=
  match desc with
  | None => false
  | Some d =>
      if ep =? 0 then false else
      let epAddr := endpoint_address ep dir in
      existsb (fun i => existsb (fun e =>
        (BEndpointAddress e =? epAddr) && (Z.land (ep_BMAttributes e) 0x03 =? 0x01))
        (if_Endpoints i)) (d_Interfaces d)
  end.

Inductive submission_err :=
| ErrNotIsochronous
| ErrNotInterrupt
| ErrIsoTransferLength (len : Z)
| ErrZeroMaxPacket
| ErrReservedTransactions
| ErrPacketZero (index : nat)
| ErrPacketCapacity (index : nat)
| ErrPacketRange (index : nat)
| ErrPacketOverlap (index : nat)
| ErrCompactLength
| ErrInterruptLength (len : Z).

Definition endpointServiceCapacity (e : EndpointDescriptor) : result submission_err Z :=
  let packetBytes := u32 (Z.land (WMaxPacketSize e) 0x07ff) in
  let additionalTransactions := u32 (Z.land (Z.shiftr (WMaxPacketSize e) 11) 0x03) in
  if packetBytes =? 0 then Err ErrZeroMaxPacket
  else if additionalTransactions =? 3 then Err ErrReservedTransactions
  else Ok (u32 (packetBytes * (additionalTransactions + 1))).

(** The packet loop: [compact] and [prevEnd] are the uint64 accumulators. *)
Fixpoint iso_packets_loop (capacity xferLen : Z) (index : nat) (compact prevEnd : Z)
    (packets : list IsoPacketDescriptor) : option submission_err :=
  match packets with
  | [] => None
  | p :: packets =>
      if iso_Length p =? 0 then Some (ErrPacketZero index)
      else if capacity <? iso_Length p then Some (ErrPacketCapacity index)
      else
        let end_ := u64 (iso_Offset p + iso_Length p) in
        if xferLen <? end_ then Some (ErrPacketRange index)
        else if iso_Offset p <? prevEnd then Some (ErrPacketOverlap index)
        else
          let compact := u64 (compact + iso_Length p) in
          if xferLen <? compact then Some ErrCompactLength
          else iso_packets_loop capacity xferLen (S index) compact end_ packets
  end.

(** The error, if any, of validateIsoEndpointSubmission. *)
Definition validateIsoEndpointSubmission (endpoint : option EndpointDescriptor)
    (xferLen : Z) (packets : list IsoPacketDescriptor) : option submission_err :=
  match endpoint with
  | None => Some ErrNotIsochronous
  | Some e =>
      if negb (Z.land (ep_BMAttributes e) 0x03 =? 0x01) then Some ErrNotIsochronous
      else if maximumTransferSize <? xferLen then Some (ErrIsoTransferLength xferLen)
      else match endpointServiceCapacity e with
           | Err err => Some err
           | Ok capacity => iso_packets_loop capacity xferLen 0 0 0 packets
           end
  end.

Definition validateIsoSubmission (desc : option Descriptor) (ep dir xferLen : Z)
    (packets : list IsoPacketDescriptor) : option submission_err :=
  match findEndpointBinding desc ep dir with
  | None => Some ErrNotIsochronous
  | Some b => validateIsoEndpointSubmission (Some (b_descriptor b)) xferLen packets
  end.

Definition validateInterruptEndpointSubmission (endpoint : option EndpointDescriptor)
    (xferLen : Z) : option submission_err :=
  match endpoint with
  | None => Some ErrNotInterrupt
  | Some e =>
      if negb (Z.land (ep_BMAttributes e) 0x03 =? 0x03) then Some ErrNotInterrupt
      else match endpointServiceCapacity e with
           | Err err => Some err
           | Ok _ =>
               if (xferLen =? 0) || (maximumTransferSize <? xferLen)
               then Some (ErrInterruptLength xferLen) else None
           end
  end.

Definition validateInterruptSubmission (desc : option Descriptor) (ep dir xferLen : Z) :
    option submission_err :=
  match findEndpointBinding desc ep dir with
  | None => Some ErrNotInterrupt
  | Some b => validateInterruptEndpointSubmission (Some (b_descriptor b)) xferLen
  end.

(** [1 << n] of an int64: zero once the shift reaches the width. *)
Definition shl1_i64 (n : Z) : Z := i64 (Z.shiftl 1 n).

(** usbServiceInterval, in nanoseconds (time.Duration is an int64). *)
Definition usbServiceInterval (speed bInterval : Z) : Z :=
  if bInterval =? 0 then 0
  else if 3 <=? speed then i64 (i64 (shl1_i64 (u8 (bInterval - 1)) * 125) * 1000)
  else i64 (bInterval * 1000000).

(** * Properties *)

(** ** Responses *)

(** The fields a server response leaves zero. *)
Definition ret_header (command seq status actualLen packets : Z) : RetSubmit := {|
  rs_Basic := {| hb_Command := command; hb_Seqnum := seq; hb_Devid := 0;
                 hb_Dir := 0; hb_Ep := 0 |};
  rs_Status := status; rs_ActualLength := actualLen; rs_StartFrame := 0;
  rs_NumberOfPackets := packets; rs_ErrorCount := 0; rs_Padding := zeros 8 |}.

Lemma header_fill x0 x1 x2 x3 x4 n :
  length x0 = 4%nat -> length x1 = 4%nat -> length x2 = 4%nat -> length x3 = 4%nat ->
  length x4 = 4%nat ->
  put_at 32 x4 (put_at 24 x3 (put_at 20 x2 (put_at 4 x1 (put_at 0 x0 (zeros (48 + n)))))) =
  (x0 ++ x1 ++ zeros 12 ++ x2 ++ x3 ++ zeros 4 ++ x4 ++ zeros 12) ++ zeros n.
Proof.
  intros (?&?&?&?&->)%list_len4 (?&?&?&?&->)%list_len4 (?&?&?&?&->)%list_len4
    (?&?&?&?&->)%list_len4 (?&?&?&?&->)%list_len4. reflexivity.
Qed.

Lemma ret_header_bytes seq status actualLen packets :
  wire_bytes (ret_header RetSubmitCode seq status actualLen packets) =
  be_bytes 4 RetSubmitCode ++ be_bytes 4 seq ++ zeros 12 ++ be_bytes 4 (u32 status) ++
  be_bytes 4 actualLen ++ zeros 4 ++ be_bytes 4 (u32 packets) ++ zeros 12.
Proof. reflexivity. Qed.

(** The five header writes into a zeroed packet of any size. *)
Lemma header_fill_packet seq status actualLen packets n :
  put_at 32 (be_bytes 4 (u32 packets)) (put_at 24 (be_bytes 4 actualLen)
    (put_at 20 (be_bytes 4 (u32 status)) (put_at 4 (be_bytes 4 seq)
      (put_at 0 (be_bytes 4 RetSubmitCode) (zeros (48 + n)))))) =
  wire_bytes (ret_header RetSubmitCode seq status actualLen packets) ++ zeros n.
Proof.
  rewrite ret_header_bytes. by rewrite header_fill by apply length_be_bytes.
Qed.

Lemma length_ret_header command seq status actualLen packets :
  length (wire_bytes (ret_header command seq status actualLen packets)) = 48%nat.
Proof. unfold wire_bytes. cbn. by autorewrite with len. Qed.

Lemma put_iso_fill ps pre :
  put_iso (length pre) ps (pre ++ zeros (length ps * 16)) = pre ++ concat (map wire_bytes ps).
Proof.
  revert pre; induction ps as [|p ps IH]; intros pre; cbn [put_iso map concat length].
  { done. }
  do 4 (rewrite put_at_next by (autorewrite with len; lia)).
  replace (S (length ps) * 16 - length (be_bytes 4 (iso_Offset p)) -
    length (be_bytes 4 (iso_Length p)) - length (be_bytes 4 (iso_ActualLength p)) -
    length (be_bytes 4 (u32 (iso_Status p))))%nat with (length ps * 16)%nat
    by (rewrite !length_be_bytes; lia).
  set (pre' := ((((pre ++ _) ++ _) ++ _) ++ _)).
  replace (length pre + 16)%nat with (length pre')
    by (subst pre'; autorewrite with len; lia).
  rewrite IH. subst pre'. unfold wire_bytes at 2.
  cbn [wire_chunks IsoPacketDescriptor_Write concat]. rewrite <- !app_assoc. done.
Qed.

Lemma buildRetSubmitPacket_bytes seq status actualLen data ps iso :
  buildRetSubmitPacket seq status actualLen data ps iso =
  wire_bytes (ret_header RetSubmitCode seq status actualLen
    (if iso then i32 (Z.of_nat (length ps)) else -1)) ++ data ++
  (if iso then concat (map wire_bytes ps) else []).
Proof.
  unfold buildRetSubmitPacket. cbv zeta.
  rewrite <- Nat.add_assoc. unfold retSubmitHeaderSize. rewrite header_fill_packet.
  rewrite put_at_next by (rewrite ?length_ret_header; destruct iso; lia).
  destruct iso.
  - replace (length data + length ps * IsoPacketDescriptorSize - length data)%nat
      with (length ps * 16)%nat by (unfold IsoPacketDescriptorSize; lia).
    rewrite app_assoc, <- put_iso_fill. f_equal.
  - replace (length data + 0 - length data)%nat with 0%nat by lia.
    by rewrite <- !app_assoc.
Qed.

(** ** ISO descriptor arrays *)

Lemma decode_iso_loop_encode ps pre :
  Forall IsoPacketDescriptor_wf ps -> (length pre = 16 * (length pre / 16))%nat ->
  decode_iso_loop (length ps) (length pre / 16) (pre ++ concat (map wire_bytes ps)) = Ok ps.
Proof.
  intros Hwf. revert pre; induction Hwf as [|p ps Hp Hps IH]; intros pre Hpre; [done|].
  cbn [decode_iso_loop length map concat]. unfold IsoPacketDescriptorSize.
  replace (length pre / 16 * 16)%nat with (length pre) by lia.
  rewrite slice_app_skip by lia.
  replace (length pre + 16 - length pre)%nat with 16%nat by lia.
  rewrite Nat.sub_diag, slice_app_head by apply length_IsoPacketDescriptor.
  rewrite <- (app_nil_r (wire_bytes p)) at 1.
  rewrite IsoPacketDescriptor_decode_encode by done.
  assert (Hl : length (pre ++ wire_bytes p) = (16 * (length pre / 16 + 1))%nat).
  { rewrite length_app, length_IsoPacketDescriptor. unfold IsoPacketDescriptorSize. lia. }
  specialize (IH (pre ++ wire_bytes p)). rewrite Hl in IH.
  rewrite Nat.mul_comm, Nat.div_mul in IH by lia.
  rewrite <- app_assoc in IH. rewrite Nat.add_1_r in IH. rewrite IH by lia. done.
Qed.

Lemma length_concat_iso (ps : list IsoPacketDescriptor) :
  length (concat (map wire_bytes ps)) = (length ps * 16)%nat.
Proof.
  induction ps as [|p ps IH]; cbn [map concat length]; [done|].
  rewrite length_app, IH, length_IsoPacketDescriptor. unfold IsoPacketDescriptorSize. lia.
Qed.

Lemma decodeIsoPacketDescriptors_encode ps :
  Forall IsoPacketDescriptor_wf ps ->
  decodeIsoPacketDescriptors (concat (map wire_bytes ps)) (length ps) = Ok ps.
Proof.
  intros Hwf. unfold decodeIsoPacketDescriptors. rewrite length_concat_iso.
  unfold IsoPacketDescriptorSize. rewrite Nat.div_mul, Nat.ltb_irrefl, Nat.eqb_refl by lia.
  apply (decode_iso_loop_encode ps []); [done | cbn; lia].
Qed.

(** ** Validation *)

(** What an isochronous packet array must look like: every packet non-empty,
    within the endpoint's capacity and the transfer, and after its
    predecessor. *)
Fixpoint iso_layout (capacity xferLen prevEnd : Z) (ps : list IsoPacketDescriptor) : Prop :=
  match ps with
  | [] => True
  | p :: ps =>
      0 < iso_Length p <= capacity /\ prevEnd <= iso_Offset p /\
      iso_Offset p + iso_Length p <= xferLen /\
      iso_layout capacity xferLen (iso_Offset p + iso_Length p) ps
  end.

Lemma iso_packets_loop_spec capacity xferLen index compact prevEnd ps :
  U32 xferLen -> Forall IsoPacketDescriptor_wf ps -> 0 <= compact <= prevEnd ->
  prevEnd <= xferLen ->
  (iso_packets_loop capacity xferLen index compact prevEnd ps = None <->
     iso_layout capacity xferLen prevEnd ps) /\
  iso_packets_loop capacity xferLen index compact prevEnd ps <> Some ErrCompactLength.
Proof.
  intros Hx Hwf. revert index compact prevEnd.
  induction Hwf as [|p ps (Ho & Hl & _) Hps IH]; intros index compact prevEnd Hc Hp;
    cbn [iso_packets_loop iso_layout]; [done|].
  rewrite u64_id by lia.
  bdestr (iso_Length p =? 0); [split; [split; [done|lia]|done]|].
  bdestr (capacity <? iso_Length p); [split; [split; [done|lia]|done]|].
  bdestr (xferLen <? iso_Offset p + iso_Length p); [split; [split; [done|lia]|done]|].
  bdestr (iso_Offset p <? prevEnd); [split; [split; [done|lia]|done]|].
  rewrite u64_id by lia.
  bdestr (xferLen <? compact + iso_Length p); [lia|].
  destruct (IH (S index) (compact + iso_Length p) (iso_Offset p + iso_Length p)) as [IH1 IH2];
    [lia..|]. split; [|done]. rewrite IH1. split; [intros; split_and!; (done || lia)|tauto].
Qed.

Lemma iso_layout_after capacity xferLen prevEnd ps :
  iso_layout capacity xferLen prevEnd ps ->
  Forall (fun p => prevEnd <= iso_Offset p) ps /\
  prevEnd + foldr (fun p n => iso_Length p + n) 0 ps <= Z.max prevEnd xferLen.
Proof.
  revert prevEnd; induction ps as [|p ps IH]; intros prevEnd; cbn [iso_layout foldr];
    [split; [done|lia]|].
  intros (Hl & Hp & He & Hrest). destruct (IH _ Hrest) as [Hall Hsum]. split; [|lia].
  constructor; [lia|]. eapply List.Forall_impl; [|exact Hall]. cbv beta. lia.
Qed.

Lemma endpointServiceCapacity_spec e c :
  U16 (WMaxPacketSize e) -> endpointServiceCapacity e = Ok c ->
  1 <= c <= 6141 /\
  c = (WMaxPacketSize e mod 2048) * (WMaxPacketSize e / 2048 mod 4 + 1).
Proof.
  intros Hw. unfold endpointServiceCapacity.
  change 0x07ff with (Z.ones 11). change 0x03 with (Z.ones 2).
  rewrite !Z.land_ones, Z.shiftr_div_pow2 by lia.
  change (2 ^ 11) with 2048. change (2 ^ 2) with 4.
  rewrite !u32_id by zsolve. intros H. repeat case_if_in H; try done.
  change (Z.ones 2) with 3 in *.
  assert (HA : 0 <= WMaxPacketSize e mod 2048 < 2048) by zsolve.
  assert (HB : WMaxPacketSize e / 2048 mod 4 ∈ [0; 1; 2]).
  { rewrite !elem_of_cons. zsolve. }
  rewrite !elem_of_cons, elem_of_nil in HB.
  apply Ok_inj in H as <-. destruct_or! HB; try done; rewrite HB;
    rewrite u32_id by lia; split; (lia || done).
Qed.

(** ** writeFull *)

Lemma writeFull_total {W} `{WriterLaws W} fuel (w : W) packet :
  (length packet <= fuel)%nat ->
  exists w' r, writeFull fuel w packet = Some (w', r) /\
    match r with
    | None => w_sent w' = w_sent w ++ packet
    | Some _ => exists p, w_sent w' = w_sent w ++ p /\ p `prefix_of` packet
    end.
Proof.
  revert w packet; induction fuel as [|fuel IH]; intros w packet Hf.
  { destruct packet; cbn in Hf; [|lia]. exists w, None. cbn. by rewrite app_nil_r. }
  destruct packet as [|b packet]; [exists w, None; cbn; by rewrite app_nil_r|].
  cbn [writeFull]. destruct (w_write w (b :: packet)) as [w1 [n e]] eqn:Ew.
  destruct (w_write_prefix _ _ _ _ _ Ew) as (Hn & Hs & Hshort).
  assert (Hpre : take n (b :: packet) `prefix_of` b :: packet)
    by (exists (drop n (b :: packet)); by rewrite take_drop).
  destruct e as [e|]; [exists w1, (Some e); eauto|].
  bdestr (n =? 0)%nat.
  { exists w1, (Some ErrNoProgress). eauto. }
  rewrite (proj2 (Nat.ltb_lt 0 n)) by lia.
  destruct (IH w1 (drop n (b :: packet))) as (w' & r & -> & Hr).
  { rewrite length_drop. cbn in *. lia. }
  exists w', r. split; [done|]. destruct r as [e|].
  - destruct Hr as (p & Hp & [k Hk]). exists (take n (b :: packet) ++ p).
    rewrite Hp, Hs, app_assoc. split; [done|]. exists k.
    by rewrite <- app_assoc, <- Hk, take_drop.
  - by rewrite Hr, Hs, <- app_assoc, take_drop.
Qed.

(** ** The properties *)

(** C38: the hand-written response serializers emit exactly what the
    reference writers of package usbip emit: RET_SUBMIT is RetSubmit.Write of a
    header with zero devid, direction, endpoint, start frame and error count,
    followed by the data and the ISO descriptors; RET_UNLINK is
    RetUnlink.Write; the reserved control and interrupt packets are the same
    header over a zeroed payload window. *)
Theorem responses_match_reference seq status actualLen data ps iso :
  buildRetSubmitPacket seq status actualLen data ps iso =
    wire_bytes (ret_header RetSubmitCode seq status actualLen
      (if iso then i32 (Z.of_nat (length ps)) else -1)) ++ data ++
    (if iso then concat (map wire_bytes ps) else []) /\
  buildRetUnlinkPacket seq status =
    wire_bytes {| ru_Basic := {| hb_Command := RetUnlinkCode; hb_Seqnum := seq;
                    hb_Devid := 0; hb_Dir := 0; hb_Ep := 0 |};
                  ru_Status := status; ru_Padding := zeros 24 |} /\
  (forall len, buildTransactionalControlResponse seq status actualLen len =
    wire_bytes (ret_header RetSubmitCode seq status actualLen (-1)) ++ zeros (Z.to_nat len)) /\
  (forall len, 0 <= len -> buildPreparedRetSubmitPacket seq len =
    wire_bytes (ret_header RetSubmitCode seq 0 (u32 len) (-1)) ++ zeros (Z.to_nat len)).
Proof.
  split_and!.
  - apply buildRetSubmitPacket_bytes.
  - unfold buildRetUnlinkPacket, wire_bytes. cbn [wire_chunks RetUnlink_Write concat
      ru_Basic hb_Command hb_Seqnum hb_Devid hb_Dir hb_Ep ru_Status ru_Padding].
    change (be_bytes 4 0) with (zeros 4). explode_bytes. reflexivity.
  - intros len. apply header_fill_packet.
  - intros len Hlen. unfold buildPreparedRetSubmitPacket. cbv zeta.
    rewrite (proj2 (Z.ltb_ge len 0)) by lia.
    by rewrite buildRetSubmitPacket_bytes, !app_nil_r.
Qed.

Lemma responses_match_reference_witness :
  buildPreparedRetSubmitPacket 7 2 =
    wire_bytes (ret_header RetSubmitCode 7 0 2 (-1)) ++ [0; 0].
Proof. apply (responses_match_reference 7 0 2 [] [] false). lia. Defined.

(** A host that reads the ISO descriptors behind the data of a
    RET_SUBMIT gets back the descriptors the server put there. *)
Theorem ret_submit_iso_roundtrip seq status actualLen data ps :
  Forall IsoPacketDescriptor_wf ps ->
  decodeIsoPacketDescriptors
    (drop (retSubmitHeaderSize + length data)
      (buildRetSubmitPacket seq status actualLen data ps true)) (length ps) = Ok ps.
Proof.
  intros Hwf. rewrite buildRetSubmitPacket_bytes, app_assoc.
  rewrite drop_app_length' by (by rewrite length_app, length_ret_header).
  by apply decodeIsoPacketDescriptors_encode.
Qed.

Lemma ret_submit_iso_roundtrip_witness :
  decodeIsoPacketDescriptors (drop 51 (buildRetSubmitPacket 9 0 3 [1; 2; 3]
    [IsoPacket 0 2 2 0; IsoPacket 2 4 1 (-32)] true)) 2 =
  Ok [IsoPacket 0 2 2 0; IsoPacket 2 4 1 (-32)].
Proof.
  apply (ret_submit_iso_roundtrip 9 0 3 [1; 2; 3] [IsoPacket 0 2 2 0; IsoPacket 2 4 1 (-32)]).
  repeat (constructor; [unfold IsoPacketDescriptor_wf; cbn; lia|]). constructor.
Defined.

(** The server's header parse recovers a submission or an unlink as the
    client's writer encoded it. *)
Theorem urb_header_roundtrip (c : CmdSubmit) (u : CmdUnlink) :
  (CmdSubmit_wf c -> hb_Command (cs_Basic c) = CmdSubmitCode ->
   hb_Dir (cs_Basic c) ∈ [DirOut; DirIn] -> hb_Ep (cs_Basic c) <= 15 ->
   cs_TransferBufferLen c <= maximumTransferSize ->
   -1 <= cs_NumberOfPackets c <= maxIsoPackets ->
   parse_urb_header (wire_bytes c) =
     Ok (UrbSubmit (hb_Seqnum (cs_Basic c)) (hb_Dir (cs_Basic c)) (hb_Ep (cs_Basic c))
           (cs_TransferBufferLen c) (cs_NumberOfPackets c) (cs_Setup c))) /\
  (HeaderBasic_wf (cu_Basic u) -> U32 (cu_UnlinkSeqnum u) ->
   hb_Command (cu_Basic u) = CmdUnlinkCode -> hb_Dir (cu_Basic u) ∈ [DirOut; DirIn] ->
   hb_Ep (cu_Basic u) <= 15 ->
   parse_urb_header (wire_bytes u) =
     Ok (UrbUnlink (hb_Seqnum (cu_Basic u)) (cu_UnlinkSeqnum u))).
Proof.
  split.
  - intros ((Hc & Hs & Hd & Hdir & Hep) & Hf & Hl & Hsf & Hn & Hi & Hset & Hok) Ecmd Edir
      Eep El En.
    unfold parse_urb_header, wire_bytes. cbn [wire_chunks CmdSubmit_Write concat].
    wire_slices.
    rewrite !be_val_small by (cbn; first [lia | apply u32_range]).
    rewrite i32_u32 by done. rewrite Ecmd.
    unfold CmdSubmitCode, CmdUnlinkCode, DirOut, DirIn in *.
    rewrite !elem_of_cons, elem_of_nil in Edir.
    rewrite (proj2 (Z.ltb_ge 15 _)), (proj2 (Z.ltb_ge maximumTransferSize _)),
      (proj2 (Z.ltb_ge _ (-1))), (proj2 (Z.ltb_ge maxIsoPackets _)) by lia.
    by destruct Edir as [->|[->|[]]].
  - intros (Hc & Hs & Hd & Hdir & Hep) Hu Ecmd Edir Eep.
    unfold parse_urb_header, wire_bytes. cbn [wire_chunks CmdUnlink_Write concat].
    wire_slices. rewrite !be_val_small by (cbn; lia). rewrite Ecmd.
    rewrite !elem_of_cons, elem_of_nil in Edir. rewrite (proj2 (Z.ltb_ge 15 _)) by lia.
    unfold DirOut, DirIn, CmdUnlinkCode in *. by destruct Edir as [->|[->|[]]].
Qed.

Lemma urb_header_roundtrip_witness :
  let c := {| cs_Basic := {| hb_Command := 1; hb_Seqnum := 5; hb_Devid := 65538;
                hb_Dir := 1; hb_Ep := 4 |};
              cs_TransferFlags := 0; cs_TransferBufferLen := 64; cs_StartFrame := 0;
              cs_NumberOfPackets := -1; cs_Interval := 4; cs_Setup := zeros 8 |} in
  parse_urb_header (wire_bytes c) = Ok (UrbSubmit 5 1 4 64 (-1) (zeros 8)).
Proof.
  cbv zeta.
  apply (urb_header_roundtrip
    {| cs_Basic := {| hb_Command := 1; hb_Seqnum := 5; hb_Devid := 65538;
         hb_Dir := 1; hb_Ep := 4 |};
       cs_TransferFlags := 0; cs_TransferBufferLen := 64; cs_StartFrame := 0;
       cs_NumberOfPackets := -1; cs_Interval := 4; cs_Setup := zeros 8 |}
    {| cu_Basic := {| hb_Command := 2; hb_Seqnum := 0; hb_Devid := 0; hb_Dir := 0; hb_Ep := 0 |};
       cu_UnlinkSeqnum := 0; cu_Padding := zeros 24 |});
    [ unfold CmdSubmit_wf, HeaderBasic_wf; cbn; split_and!; try lia; by_decide
    | reflexivity | by_decide | by_decide | by_decide | split; by_decide ].
Defined.

(** An isochronous submission is accepted exactly when the endpoint is
    isochronous with a legal service capacity, the transfer is within the
    limit, and the packets are non-empty, within the capacity and the transfer
    and in ascending order without overlap.  For an accepted submission the
    packet data, compacted, fits in the transfer; the explicit check of that
    sum never rejects anything. *)
Theorem iso_submission_exact e xferLen ps :
  U32 xferLen -> Forall IsoPacketDescriptor_wf ps ->
  (validateIsoEndpointSubmission (Some e) xferLen ps = None <->
    Z.land (ep_BMAttributes e) 3 = 1 /\ xferLen <= maximumTransferSize /\
    exists capacity, endpointServiceCapacity e = Ok capacity /\
      iso_layout capacity xferLen 0 ps) /\
  (validateIsoEndpointSubmission (Some e) xferLen ps = None ->
    foldr (fun p n => iso_Length p + n) 0 ps <= xferLen) /\
  validateIsoEndpointSubmission (Some e) xferLen ps <> Some ErrCompactLength.
Proof.
  intros Hx Hwf. unfold validateIsoEndpointSubmission.
  bdestr (Z.land (ep_BMAttributes e) 3 =? 1); cbn [negb];
    [|split_and!; [split; [done|tauto] | done | done]].
  bdestr (maximumTransferSize <? xferLen); [split_and!; [split; [done|lia] | done | done]|].
  destruct (endpointServiceCapacity e) as [cap|err] eqn:Ec.
  - destruct (iso_packets_loop_spec cap xferLen 0 0 0 ps) as [Hiff Hne]; [done|done|lia..|].
    rewrite Hiff. split_and!; [split; [eauto 10|] | | done].
    + intros (_ & _ & cap' & E & Hl). by simplify_eq.
    + intros [_ Hsum]%iso_layout_after. lia.
  - split_and!; [split; [done|intros (_ & _ & cap' & E & _); done] | done |].
    unfold endpointServiceCapacity in Ec. intros E. simplify_eq. repeat case_if_in Ec; done.
Qed.

Lemma iso_submission_exact_witness :
  validateIsoEndpointSubmission (Some (demo_ep 0x01 0x09)) 100
    [IsoPacket 0 40 0 0; IsoPacket 50 50 0 0] = None /\
  foldr (fun p n => iso_Length p + n) 0 [IsoPacket 0 40 0 0; IsoPacket 50 50 0 0] <= 100.
Proof.
  destruct (iso_submission_exact (demo_ep 0x01 0x09) 100
    [IsoPacket 0 40 0 0; IsoPacket 50 50 0 0]) as (Hiff & Hsum & _); [lia| |].
  - repeat (constructor; [unfold IsoPacketDescriptor_wf; cbn; lia|]). constructor.
  - assert (validateIsoEndpointSubmission (Some (demo_ep 0x01 0x09)) 100
      [IsoPacket 0 40 0 0; IsoPacket 50 50 0 0] = None) as E by reflexivity.
    split; [exact E | exact (Hsum E)].
Defined.

(** WriteFull ends within one write per byte on every lawful writer, and
    either delivers the whole packet or reports an error after delivering a
    prefix of it; a packet is never reordered or truncated silently. *)
Theorem writeFull_delivers {W} `{WriterLaws W} (w : W) packet :
  exists w' r, writeFull (length packet) w packet = Some (w', r) /\
    match r with
    | None => w_sent w' = w_sent w ++ packet
    | Some _ => exists p, w_sent w' = w_sent w ++ p /\ p `prefix_of` packet
    end.
Proof. by apply writeFull_total. Qed.

Lemma writeFull_delivers_witness :
  exists w' r, writeFull 3 [1] [7; 8; 9] = Some (w', r) /\
    match r with
    | None => w' = [1; 7; 8; 9]
    | Some _ => exists p, w' = [1] ++ p /\ p `prefix_of` [7; 8; 9]
    end.
Proof. exact (writeFull_delivers [1] [7; 8; 9]). Defined.
