(* ===== verification/Control.v ===== *)
(** * Endpoint zero (src/internal/server/usb/server.go)

    The server's routing state (selected configuration and alternate settings
    per device), the parse of the standard requests that change it, the
    resolution of active endpoints, and the complete endpoint-zero dispatcher
    processSubmitWithLifecycle over an arbitrary device. *)

From S2P Require Import Prelude Bytes UsbIp Hid Descriptor Urb.

(** ** Devices

    The optional interfaces of src/usb/device.go that endpoint zero uses, over
    the device's own state [D].  [None] is a failed type assertion. *)
Record DeviceOps (D : Type) := {
  GetDescriptor : D -> Descriptor;
  HandleTransfer : D -> Z -> Z -> list Z -> D * list Z;
  HandleControl : option (D -> Z -> Z -> Z -> Z -> Z -> list Z -> D * (list Z * bool));
  ResetEndpoint : option (D -> Z -> D);
  SetInterfaceAltSetting : option (D -> Z -> Z -> D);
}.
Arguments GetDescriptor {D} _.
Arguments HandleTransfer {D} _.
Arguments HandleControl {D} _.
Arguments ResetEndpoint {D} _.
Arguments SetInterfaceAltSetting {D} _.

(** ** Routing state

    [configurations map[usb.Device]uint8] and
    [alts map[usb.Device]map[uint8]uint8], keyed by device identity. *)
Record routing := {
  configurations : gmap Z Z;
  alts : gmap Z (gmap Z Z);
}.

Definition getDeviceConfiguration (s : routing) (dev : Z) (desc : option Descriptor) : Z :=
  match configurations s !! dev with
  | Some value => value
  | None => descriptorConfigurationValue desc
  end.

Definition setDeviceConfiguration (s : routing) (dev value : Z) : routing :=
  {| configurations := <[dev := value]> (configurations s); alts := alts s |}.

Definition clearDeviceConfiguration (s : routing) (dev : Z) : routing :=
  {| configurations := delete dev (configurations s); alts := alts s |}.

Definition getInterfaceAlt (s : routing) (dev iface : Z) : Z :=
  match alts s !! dev with
  | Some devAlts => match devAlts !! iface with Some alt => alt | None => 0 end
  | None => 0
  end.

Definition setInterfaceAlt (s : routing) (dev iface alt : Z) : routing :=
  let devAlts := match alts s !! dev with Some m => m | None => ∅ end in
  {| configurations := configurations s;
     alts := <[dev := <[iface := alt]> devAlts]> (alts s) |}.

Definition clearInterfaceAlt (s : routing) (dev : Z) : routing :=
  {| configurations := configurations s; alts := delete dev (alts s) |}.

Section Notifications.
Context {D : Type} (ops : DeviceOps D).

Definition notifyInterfaceAlt (d : D) (iface alt : Z) : D :=
  match SetInterfaceAltSetting ops with
  | Some notify => notify d iface alt
  | None => d
  end.

Definition notifyInterfaceAltsCleared (d : D) : D :=
  match SetInterfaceAltSetting ops with
  | Some notify => fold_left (fun d iface => notify d iface 0)
                     (descriptorInterfaceNumbers (GetDescriptor ops d)) d
  | None => d
  end.

Definition resetInterfaceAlts (s : routing) (dev : Z) (d : D) : routing * D :=
  (clearInterfaceAlt s dev, notifyInterfaceAltsCleared d).
End Notifications.

(** ** Active endpoints *)

(** The loops of activeEndpointBindingDescriptor: [None] once a second match
    is found. *)
Definition active_matches (s : routing) (dev address : Z) (desc : Descriptor) :
    list endpointDescriptorBinding :=
  flat_map (fun i =>
    if negb (BAlternateSetting (if_Descriptor i) =?
             getInterfaceAlt s dev (BInterfaceNumber (if_Descriptor i))) then []
    else flat_map (fun e =>
      if negb (BEndpointAddress e =? address) then []
      else [{| b_interfaceNumber := BInterfaceNumber (if_Descriptor i);
               b_alternateSetting := BAlternateSetting (if_Descriptor i);
               b_descriptor := e |}]) (if_Endpoints i)) (d_Interfaces desc).

Fixpoint unique_match (found : option endpointDescriptorBinding)
    (l : list endpointDescriptorBinding) : option endpointDescriptorBinding :=
  match l with
  | [] => found
  | b :: l => match found with Some _ => None | None => unique_match (Some b) l end
  end.

Definition activeEndpointBindingDescriptor (s : routing) (dev : Z)
    (desc : option Descriptor) (ep dir : Z) : option endpointDescriptorBinding :=
  if (ep =? 0) || (getDeviceConfiguration s dev desc =? 0) then None
  else match desc with
       | None => None
       | Some d => unique_match None (active_matches s dev (endpoint_address ep dir) d)
       end.

Definition descriptorHasActiveHaltEndpoint (s : routing) (dev : Z)
    (desc : option Descriptor) (endpointAddress : Z) : bool :=
  if negb (Z.land endpointAddress 0x70 =? 0) then false
  else
    let dir := if negb (Z.land endpointAddress 0x80 =? 0) then DirIn else DirOut in
    match activeEndpointBindingDescriptor s dev desc (Z.land endpointAddress 0x0f) dir with
    | None => false
    | Some b => (BEndpointAddress (b_descriptor b) =? endpointAddress) &&
                negb (Z.land (ep_BMAttributes (b_descriptor b)) 0x03 =? 0x01)
    end.

(** ** Lifecycle requests *)

Definition usbReqGetStatus : Z := 0x00.
Definition usbReqClearFeature : Z := 0x01.
Definition usbReqSetAddress : Z := 0x05.
Definition usbReqGetDescriptor : Z := 0x06.
Definition usbReqGetConfiguration : Z := 0x08.
Definition usbReqSetConfiguration : Z := 0x09.
Definition usbReqGetInterface : Z := 0x0A.
Definition usbReqSetInterface : Z := 0x0B.
Definition usbDescTypeDevice : Z := 0x01.
Definition usbDescTypeConfiguration : Z := 0x02.
Definition usbDescTypeString : Z := 0x03.
Definition usbDescTypeHID : Z := 0x21.
Definition usbDescTypeHIDReport : Z := 0x22.
Definition usbReqTypeStandardToDevice : Z := 0x00.
Definition usbReqTypeStandardFromInterface : Z := 0x01.
Definition usbReqTypeStandardToEndpoint : Z := 0x02.
Definition usbReqTypeStandardToInterface : Z := 0x81.
Definition usbReqTypeStandardFromDevice : Z := 0x80.
Definition usbInterfaceClassHID : Z := 0x03.
Definition hidReqGetReport : Z := 0x01.
Definition hidReqGetIdle : Z := 0x02.
Definition hidReqGetProtocol : Z := 0x03.
Definition hidReqSetReport : Z := 0x09.
Definition hidReqSetIdle : Z := 0x0A.
Definition hidReqSetProtocol : Z := 0x0B.
Definition hidReqTypeIn : Z := 0xA1.
Definition hidReqTypeOut : Z := 0x21.

Inductive controlLifecycleKind :=
| controlLifecycleNone
| controlLifecycleClearEndpointHalt
| controlLifecycleSetInterface
| controlLifecycleSetConfiguration.

#[export] Instance controlLifecycleKind_eq_dec : EqDecision controlLifecycleKind.
Proof. solve_decision. Defined.

Record controlLifecycleSetup := {
  lc_kind : controlLifecycleKind;
  lc_recognized : bool;
  lc_accepted : bool;
  lc_endpointAddress : Z;
  lc_interfaceNumber : Z;
  lc_alternateSetting : Z;
  lc_configurationValue : Z;
}.

Definition lifecycle_none : controlLifecycleSetup := {|
  lc_kind := controlLifecycleNone; lc_recognized := false; lc_accepted := false;
  lc_endpointAddress := 0; lc_interfaceNumber := 0; lc_alternateSetting := 0;
  lc_configurationValue := 0 |}.

Definition lifecycle_of (kind : controlLifecycleKind) (accepted : bool)
    (endpoint iface alt config : Z) : controlLifecycleSetup := {|
  lc_kind := kind; lc_recognized := true; lc_accepted := accepted;
  lc_endpointAddress := endpoint; lc_interfaceNumber := iface;
  lc_alternateSetting := alt; lc_configurationValue := config |}.

(** The setup packet's fields. *)
Definition setup_value (setup : list Z) : Z := le_val (slice 2 4 setup).
Definition setup_index (setup : list Z) : Z := le_val (slice 4 6 setup).
Definition setup_length (setup : list Z) : Z := le_val (slice 6 8 setup).

Definition parseControlLifecycleSetupDescriptor (s : routing) (dev : Z)
    (desc : option Descriptor) (setup : list Z) : controlLifecycleSetup :=
  if negb (length setup =? 8)%nat then lifecycle_none
  else
    let bmRequestType := byte_at setup 0 in
    let bRequest := byte_at setup 1 in
    let wValue := setup_value setup in
    let wIndex := setup_index setup in
    let wLength := setup_length setup in
    if (bmRequestType =? usbReqTypeStandardToEndpoint) && (bRequest =? usbReqClearFeature) then
      if negb (wValue =? 0) || negb (Z.shiftr wIndex 8 =? 0) || negb (wLength =? 0) ||
         negb (descriptorHasActiveHaltEndpoint s dev desc (u8 wIndex))
      then lifecycle_of controlLifecycleClearEndpointHalt false 0 0 0 0
      else lifecycle_of controlLifecycleClearEndpointHalt true (u8 wIndex) 0 0 0
    else if (bmRequestType =? usbReqTypeStandardFromInterface) &&
            (bRequest =? usbReqSetInterface) then
      if negb (Z.shiftr wValue 8 =? 0) || negb (Z.shiftr wIndex 8 =? 0) ||
         negb (wLength =? 0)
      then lifecycle_of controlLifecycleSetInterface false 0 0 0 0
      else
        let iface := u8 wIndex in
        let alt := u8 wValue in
        if (getDeviceConfiguration s dev desc =? 0) ||
           negb (descriptorHasInterfaceAlt desc iface alt)
        then lifecycle_of controlLifecycleSetInterface false 0 iface alt 0
        else lifecycle_of controlLifecycleSetInterface true 0 iface alt 0
    else if (bmRequestType =? usbReqTypeStandardToDevice) &&
            (bRequest =? usbReqSetConfiguration) then
      if negb (wIndex =? 0) || negb (wLength =? 0) ||
         (negb (wValue =? 0) && negb (wValue =? descriptorConfigurationValue desc))
      then lifecycle_of controlLifecycleSetConfiguration false 0 0 0 0
      else lifecycle_of controlLifecycleSetConfiguration true 0 0 0 (u8 wValue)
    else lifecycle_none.

Definition parseControlLifecycleSubmissionDescriptor (s : routing) (dev : Z)
    (desc : option Descriptor) (ep dir transferLength : Z) (setup : list Z) :
    controlLifecycleSetup :=
  if negb (ep =? 0) then lifecycle_none
  else
    let l := parseControlLifecycleSetupDescriptor s dev desc setup in
    if lc_recognized l && (negb (dir =? DirOut) || negb (transferLength =? 0))
    then {| lc_kind := lc_kind l; lc_recognized := lc_recognized l; lc_accepted := false;
            lc_endpointAddress := lc_endpointAddress l;
            lc_interfaceNumber := lc_interfaceNumber l;
            lc_alternateSetting := lc_alternateSetting l;
            lc_configurationValue := lc_configurationValue l |}
    else l.

(** ** The endpoint-zero dispatcher *)

(** [if int(wLength) < len(data) { return data[:wLength] }; return data]. *)
Definition clip (wLength : Z) (data : list Z) : list Z :=
  if wLength <? Z.of_nat (length data) then take (Z.to_nat wLength) data else data.

(** The data of GET_DESCRIPTOR for a device-recipient request. *)
Definition device_descriptor_data (desc : Descriptor) (wValue : Z) : list Z :=
  let dtype := u8 (Z.shiftr wValue 8) in
  let dindex := u8 (Z.land wValue 0xff) in
  if dtype =? usbDescTypeDevice then Descriptor_Bytes desc
  else if dtype =? usbDescTypeConfiguration then buildConfigDescriptor desc
  else if dtype =? usbDescTypeString then
    match d_MicrosoftOS10 desc with
    | Some ms =>
        if dindex =? 0xEE then StringDescriptor ms
        else match d_Strings desc !! dindex with
             | Some s => EncodeStringDescriptor s
             | None => []
             end
    | None => match d_Strings desc !! dindex with
              | Some s => EncodeStringDescriptor s
              | None => []
              end
    end
  else [].

(** The data of GET_DESCRIPTOR for an interface-recipient request; [None] when
    a HID descriptor cannot be built, which answers with no data. *)
Definition interface_descriptor_data (desc : Descriptor) (wValue wIndex : Z) :
    option (list Z) :=
  let dtype := u8 (Z.shiftr wValue 8) in
  match Interface desc (u8 (Z.land wIndex 0xff)) with
  | None => Some []
  | Some conf =>
      let hid :=
        match if_HID conf with
        | None => Ok []
        | Some f => if dtype =? usbDescTypeHID then DescriptorBytes f
                    else if dtype =? usbDescTypeHIDReport then ReportBytes f
                    else Ok []
        end in
      match hid with
      | Err _ => None
      | Ok [] => Some (default [] (first_some (fun cd =>
                   if cd_DescriptorType cd =? dtype
                   then Some (ClassSpecificDescriptor_Bytes cd) else None)
                   (if_ClassDescriptors conf)))
      | Ok data => Some data
      end
  end.

Definition is_hid_interface (desc : Descriptor) (wIndex : Z) : bool :=
  match Interface desc (u8 (Z.land wIndex 0xff)) with
  | Some conf => BInterfaceClass (if_Descriptor conf) =? usbInterfaceClassHID
  | None => false
  end.

Section Dispatch.
Context {D : Type} (ops : DeviceOps D).

Definition apply_lifecycle (s : routing) (dev : Z) (d : D) (l : controlLifecycleSetup) :
    routing * D :=
  if negb (lc_accepted l) then (s, d)
  else match lc_kind l with
  | controlLifecycleClearEndpointHalt =>
      (s, match ResetEndpoint ops with
          | Some reset => reset d (lc_endpointAddress l)
          | None => d
          end)
  | controlLifecycleSetInterface =>
      (setInterfaceAlt s dev (lc_interfaceNumber l) (lc_alternateSetting l),
       notifyInterfaceAlt ops d (lc_interfaceNumber l) (lc_alternateSetting l))
  | controlLifecycleSetConfiguration =>
      resetInterfaceAlts ops (setDeviceConfiguration s dev (lc_configurationValue l)) dev d
  | controlLifecycleNone => (s, d)
  end.

Definition processSubmitWithLifecycle (s : routing) (dev : Z) (d : D) (ep dir : Z)
    (setup out : list Z) (lifecycle : controlLifecycleSetup) : routing * D * list Z :=
  if negb (ep =? 0) then
    let '(d, resp) := HandleTransfer ops d ep dir out in (s, d, resp)
  else if negb (length setup =? 8)%nat then (s, d, [])
  else
    let bm := byte_at setup 0 in
    let breq := byte_at setup 1 in
    let wValue := setup_value setup in
    let wIndex := setup_index setup in
    let wLength := setup_length setup in
    let desc := GetDescriptor ops d in
    if breq =? usbReqGetStatus then (s, d, [0; 0])
    else if (breq =? usbReqSetAddress) && (bm =? usbReqTypeStandardToDevice) then (s, d, [])
    else if lc_recognized lifecycle then
      let '(s, d) := apply_lifecycle s dev d lifecycle in (s, d, [])
    else if (breq =? usbReqGetConfiguration) && (bm =? usbReqTypeStandardFromDevice) then
      (s, d, [getDeviceConfiguration s dev (Some desc)])
    else if (breq =? usbReqGetInterface) && (bm =? usbReqTypeStandardToInterface) then
      (s, d, [getInterfaceAlt s dev (u8 (Z.land wIndex 0xff))])
    else if (breq =? usbReqGetDescriptor) && (bm =? usbReqTypeStandardFromDevice) then
      (s, d, clip wLength (device_descriptor_data desc wValue))
    else
      let ms_response :=
        match d_MicrosoftOS10 desc with
        | None => None
        | Some ms =>
            if ((bm =? 0xC0) || (bm =? 0xC1)) &&
               ((breq =? EffectiveVendorCode ms) || (wIndex =? 0x0004) || (wIndex =? 0x0005))
            then ControlResponse ms wValue wIndex else None
        end in
      match ms_response with
      | Some data => (s, d, clip wLength data)
      | None =>
      if (breq =? usbReqGetDescriptor) && (bm =? usbReqTypeStandardToInterface) then
        match interface_descriptor_data desc wValue wIndex with
        | None => (s, d, [])
        | Some data => (s, d, clip wLength data)
        end
      else if is_hid_interface desc wIndex && (bm =? hidReqTypeIn) && (breq =? hidReqGetIdle)
        then (s, d, [0x00])
      else if is_hid_interface desc wIndex && (bm =? hidReqTypeOut) && (breq =? hidReqSetIdle)
        then (s, d, [])
      else if is_hid_interface desc wIndex && (bm =? hidReqTypeIn) && (breq =? hidReqGetProtocol)
        then (s, d, [0x01])
      else if is_hid_interface desc wIndex && (bm =? hidReqTypeOut) &&
              (breq =? hidReqSetProtocol)
        then (s, d, [])
      else match HandleControl ops with
      | None => (s, d, [])
      | Some handle =>
          let '(d, (resp, handled)) := handle d bm breq wValue wIndex wLength out in
          if handled then (s, d, clip wLength resp) else (s, d, [])
      end
      end.

(** processSubmit: the lifecycle parse with [uint32(len(out))] as transfer
    length. *)
Definition processSubmit (s : routing) (dev : Z) (d : D) (ep dir : Z)
    (setup out : list Z) : routing * D * list Z :=
  if negb (ep =? 0) then
    let '(d, resp) := HandleTransfer ops d ep dir out in (s, d, resp)
  else
    let lifecycle := parseControlLifecycleSubmissionDescriptor s dev
      (Some (GetDescriptor ops d)) ep dir (u32 (Z.of_nat (length out))) setup in
    processSubmitWithLifecycle s dev d ep dir setup out lifecycle.

(** The tail of handleUrbStream's loop, after the lifecycle parse of an
    ordinary submission: the dispatch and the RET_SUBMIT that answers it. *)
Definition complete_submission (s : routing) (dev : Z) (d : D) (seq ep dir : Z)
    (setup outPayload : list Z) (lifecycle : controlLifecycleSetup) : routing * D * list Z :=
  let status := if lc_recognized lifecycle && negb (lc_accepted lifecycle)
                then errPipe else 0 in
  let '(s, d, responseData) :=
    processSubmitWithLifecycle s dev d ep dir setup outPayload lifecycle in
  let actualLength :=
    if status =? 0 then
      if dir =? DirOut then u32 (Z.of_nat (length outPayload))
      else u32 (Z.of_nat (length responseData))
    else 0 in
  let responseData :=
    if status =? 0 then if dir =? DirOut then [] else responseData else [] in
  (s, d, buildRetSubmitPacket seq status actualLength responseData [] false).
End Dispatch.

(** ** Setup packets

    The eight bytes a host sends for a request, and the fields read back. *)
Definition setup_packet (bm breq wValue wIndex wLength : Z) : list Z :=
  [bm; breq] ++ le_bytes 2 wValue ++ le_bytes 2 wIndex ++ le_bytes 2 wLength.

Lemma setup_packet_length bm breq v i n : length (setup_packet bm breq v i n) = 8%nat.
Proof. unfold setup_packet. by autorewrite with len. Qed.

Lemma setup_packet_value bm breq v i n :
  U16 v -> setup_value (setup_packet bm breq v i n) = v.
Proof.
  intros. unfold setup_value, setup_packet. rewrite slice_app_skip by (simpl; lia).
  cbn [Nat.sub length]. rewrite slice_app_head by by autorewrite with len.
  by apply le_val_small.
Qed.

Lemma setup_packet_index bm breq v i n :
  U16 i -> setup_index (setup_packet bm breq v i n) = i.
Proof.
  intros. unfold setup_index, setup_packet. rewrite slice_app_skip by (simpl; lia).
  cbn [Nat.sub length]. wire_slices. by apply le_val_small.
Qed.

Lemma setup_packet_wlength bm breq v i n :
  U16 n -> setup_length (setup_packet bm breq v i n) = n.
Proof.
  intros. unfold setup_length, setup_packet. rewrite slice_app_skip by (simpl; lia).
  cbn [Nat.sub length]. rewrite <- (app_nil_r (le_bytes 2 n)). wire_slices.
  by apply le_val_small.
Qed.

Create Rewrite HintDb setup.
#[export] Hint Rewrite setup_packet_length : setup.
#[export] Hint Rewrite setup_packet_value setup_packet_index setup_packet_wlength
  using lia : setup.

(** ** Routing state lemmas *)

Lemma getInterfaceAlt_set s dev iface alt dev' iface' :
  getInterfaceAlt (setInterfaceAlt s dev iface alt) dev' iface' =
  if bool_decide (dev' = dev /\ iface' = iface) then alt else getInterfaceAlt s dev' iface'.
Proof.
  unfold getInterfaceAlt, setInterfaceAlt; simpl.
  destruct (decide (dev' = dev)) as [->|Hd].
  - rewrite lookup_insert_eq.
    destruct (decide (iface' = iface)) as [->|Hi].
    + rewrite lookup_insert_eq. by rewrite bool_decide_true.
    + rewrite lookup_insert_ne by done. rewrite bool_decide_false by tauto.
      by destruct (alts s !! dev).
  - rewrite lookup_insert_ne by done. by rewrite bool_decide_false by tauto.
Qed.

Lemma getInterfaceAlt_clear s dev dev' iface :
  getInterfaceAlt (clearInterfaceAlt s dev) dev' iface =
  if bool_decide (dev' = dev) then 0 else getInterfaceAlt s dev' iface.
Proof.
  unfold getInterfaceAlt, clearInterfaceAlt; simpl.
  case_bool_decide as E; [subst; by rewrite lookup_delete_eq|].
  by rewrite lookup_delete_ne.
Qed.

Lemma getDeviceConfiguration_set s dev v dev' desc :
  getDeviceConfiguration (setDeviceConfiguration s dev v) dev' desc =
  if bool_decide (dev' = dev) then v else getDeviceConfiguration s dev' desc.
Proof.
  unfold getDeviceConfiguration, setDeviceConfiguration; simpl.
  case_bool_decide as E; [subst; by rewrite lookup_insert_eq|].
  by rewrite lookup_insert_ne.
Qed.

Lemma getDeviceConfiguration_clear s dev dev' desc :
  getDeviceConfiguration (clearInterfaceAlt s dev) dev' desc = getDeviceConfiguration s dev' desc.
Proof. done. Qed.

(** ** One active endpoint *)

Lemma unique_match_spec l b : unique_match None l = Some b <-> l = [b].
Proof. destruct l as [|x [|y l]]; simpl; naive_solver. Qed.

Lemma flat_map_nil_iff {A B} (f : A -> list B) (l : list A) :
  flat_map f l = [] <-> forall k x, l !! k = Some x -> f x = [].
Proof.
  induction l as [|a l IH]; simpl; [by split|]. split.
  - intros [Ha Hl]%app_eq_nil [|k] x Hk; simplify_eq/=; [done|]. by eapply IH.
  - intros H. rewrite (H 0%nat a eq_refl). apply IH. intros k x. apply (H (S k)).
Qed.

Lemma flat_map_singleton {A B} (f : A -> list B) (l : list A) (b : B) :
  flat_map f l = [b] <->
  exists i x, l !! i = Some x /\ f x = [b] /\
    forall j y, l !! j = Some y -> f y <> [] -> j = i.
Proof.
  induction l as [|a l IH]; simpl; [split; [done|]; intros (i & x & H & _); by destruct i|].
  split.
  - intros H. destruct (f a) as [|c fa] eqn:Ea; simpl in H.
    + apply IH in H as (i & x & Hx & Hf & Ho). exists (S i), x. split_and!; [done..|].
      intros [|j] y Hy Hj; [by simplify_eq/=|]. f_equal. eauto.
    + injection H as -> H. apply app_eq_nil in H as [-> H]. exists 0%nat, a.
      split_and!; [done..|]. intros [|j] y Hy Hj; [done|].
      exfalso. apply Hj. by eapply flat_map_nil_iff.
  - intros (i & x & Hx & Hf & Ho). destruct i as [|i]; simplify_eq/=.
    + rewrite Hf. enough (flat_map f l = []) as -> by done.
      apply flat_map_nil_iff. intros k y Hk. destruct (f y) eqn:Ey; [done|].
      exfalso. specialize (Ho (S k) y Hk). by rewrite Ey in Ho; lia || discriminate Ho.
    + destruct (f a) eqn:Ea; [|by specialize (Ho 0%nat a eq_refl); rewrite Ea in Ho; discriminate Ho].
      apply IH. exists i, x. split_and!; [done..|].
      intros j y Hy Hj. specialize (Ho (S j) y Hy Hj). lia.
Qed.

(** A filtering loop: what it appends is one element, or nothing. *)
Lemma flat_map_select_nonempty {A B} (P : A -> bool) (g : A -> B) (l : list A) :
  flat_map (fun e => if negb (P e) then [] else [g e]) l <> [] <->
  exists k e, l !! k = Some e /\ P e = true.
Proof.
  induction l as [|a l IH]; simpl; [naive_solver|]. destruct (P a) eqn:Ea; simpl.
  - split; [|done]. intros _. by exists 0%nat, a.
  - rewrite IH. split; [intros (k & e & ?); by exists (S k), e|].
    intros ([|k] & e & Hk & He); simplify_eq/=; [congruence|by exists k, e].
Qed.

Lemma flat_map_select_one {A B} (P : A -> bool) (g : A -> B) (l : list A) b :
  flat_map (fun e => if negb (P e) then [] else [g e]) l = [b] <->
  exists k e, l !! k = Some e /\ P e = true /\ b = g e /\
    forall k' e', l !! k' = Some e' -> P e' = true -> k' = k.
Proof.
  rewrite flat_map_singleton. split; intros (k & e & Hk & H).
  - destruct H as [He Ho]. destruct (P e) eqn:Ee; simplify_eq/=. exists k, e.
    split_and!; [done..|]. intros k' e' Hk' Hp. apply (Ho k' e' Hk'). by rewrite Hp.
  - destruct H as (He & -> & Ho). exists k, e. rewrite He. split_and!; [done..|].
    intros k' e' Hk' Hp. apply (Ho k' e' Hk'). by destruct (P e').
Qed.

(** The [k]-th endpoint of the [i]-th interface entry is selected by the
    current alternate settings and has the given address. *)
Definition active_at (s : routing) (dev address : Z) (desc : Descriptor) (i k : nat)
    (c : InterfaceConfig) (e : EndpointDescriptor) : Prop :=
  d_Interfaces desc !! i = Some c /\ if_Endpoints c !! k = Some e /\
  BAlternateSetting (if_Descriptor c) =
    getInterfaceAlt s dev (BInterfaceNumber (if_Descriptor c)) /\
  BEndpointAddress e = address.

(** An endpoint of a submission resolves to a binding exactly when the
    device is configured, the endpoint is not endpoint zero, and precisely one
    endpoint of one interface entry is selected by the current alternate
    settings and carries the requested address; no match and an ambiguous
    topology both fail closed. *)
Theorem active_endpoint_unique s dev desc ep dir b :
  activeEndpointBindingDescriptor s dev (Some desc) ep dir = Some b <->
  ep <> 0 /\ getDeviceConfiguration s dev (Some desc) <> 0 /\
  exists i k c e, active_at s dev (endpoint_address ep dir) desc i k c e /\
    b = {| b_interfaceNumber := BInterfaceNumber (if_Descriptor c);
           b_alternateSetting := BAlternateSetting (if_Descriptor c);
           b_descriptor := e |} /\
    forall i' k' c' e', active_at s dev (endpoint_address ep dir) desc i' k' c' e' ->
      i' = i /\ k' = k.
Proof.
  unfold activeEndpointBindingDescriptor.
  destruct (Z.eqb_spec ep 0) as [|Hep]; simpl; [naive_solver|].
  destruct (Z.eqb_spec (getDeviceConfiguration s dev (Some desc)) 0); [naive_solver|].
  rewrite unique_match_spec. unfold active_matches. rewrite flat_map_singleton.
  set (a := endpoint_address ep dir). split.
  - intros (i & c & Hi & Hc & Hother). split_and!; [done..|].
    destruct (Z.eqb_spec (BAlternateSetting (if_Descriptor c))
            (getInterfaceAlt s dev (BInterfaceNumber (if_Descriptor c)))) as [Halt|]; [|done].
    apply flat_map_select_one in Hc as (k & e & Hk & He%Z.eqb_eq & -> & Hother2).
    exists i, k, c, e. split_and!; [done..|].
    intros i' k' c' e' (Hi' & Hk' & Halt' & Hadr).
    assert (i' = i) as ->; [|split; [done|]; simplify_eq].
    + apply (Hother i' c' Hi'). rewrite Halt', Z.eqb_refl. apply flat_map_select_nonempty.
      exists k', e'. by rewrite Z.eqb_eq.
    + apply (Hother2 k' e' Hk'). by rewrite Z.eqb_eq.
  - intros (_ & _ & i & k & c & e & (Hi & Hk & Halt & Hadr) & -> & Huniq).
    exists i, c. rewrite (proj2 (Z.eqb_eq _ _) Halt). split_and!; [done| |].
    + apply flat_map_select_one. exists k, e. rewrite Z.eqb_eq. split_and!; [done..|].
      intros k' e' Hk' He'%Z.eqb_eq. by apply (Huniq i k' c e').
    + intros j y Hy Hj. case_if_in Hj; [done|]. bool_prop.
      apply flat_map_select_nonempty in Hj as (k' & e' & Hk' & He'%Z.eqb_eq).
      by apply (Huniq j k' y e').
Qed.

(** ** The standard requests, one by one *)

Section Requests.
Context {D : Type} (ops : DeviceOps D).

Lemma processSubmit_lifecycle s dev d dir setup out l :
  parseControlLifecycleSubmissionDescriptor s dev (Some (GetDescriptor ops d)) 0 dir
    (u32 (Z.of_nat (length out))) setup = l ->
  length setup = 8%nat -> byte_at setup 1 <> usbReqGetStatus ->
  byte_at setup 1 <> usbReqSetAddress -> lc_recognized l = true ->
  processSubmit ops s dev d 0 dir setup out =
    (apply_lifecycle ops s dev d l, []).
Proof.
  intros <- Hlen H0 H5 Hrec. unfold processSubmit, processSubmitWithLifecycle.
  rewrite Hlen, Hrec. simpl.
  rewrite (proj2 (Z.eqb_neq _ _) H0), (proj2 (Z.eqb_neq _ _) H5). simpl.
  by destruct (apply_lifecycle _ _ _ _ _).
Qed.

Lemma parse_set_configuration s dev desc v :
  U8 v -> v = 0 \/ v = descriptorConfigurationValue desc ->
  parseControlLifecycleSubmissionDescriptor s dev desc 0 DirOut 0
    (setup_packet 0x00 9 v 0 0) =
  lifecycle_of controlLifecycleSetConfiguration true 0 0 0 v.
Proof.
  intros Hv Hval. unfold parseControlLifecycleSubmissionDescriptor,
    parseControlLifecycleSetupDescriptor.
  autorewrite with setup. cbn -[descriptorConfigurationValue u8].
  replace (negb (v =? 0) && negb (v =? descriptorConfigurationValue desc)) with false.
  - by rewrite u8_id.
  - destruct (Z.eqb_spec v 0); [done|]. destruct Hval as [|Hval]; [done|].
    by rewrite <- Hval, Z.eqb_refl.
Qed.

Lemma parse_set_interface s dev desc iface alt :
  U8 iface -> U8 alt -> getDeviceConfiguration s dev desc <> 0 ->
  descriptorHasInterfaceAlt desc iface alt = true ->
  parseControlLifecycleSubmissionDescriptor s dev desc 0 DirOut 0
    (setup_packet 0x01 0x0B alt iface 0) =
  lifecycle_of controlLifecycleSetInterface true 0 iface alt 0.
Proof.
  intros Hi Ha Hc Hd. unfold parseControlLifecycleSubmissionDescriptor,
    parseControlLifecycleSetupDescriptor.
  autorewrite with setup. cbn -[descriptorHasInterfaceAlt getDeviceConfiguration u8 Z.shiftr].
  rewrite !Z.shiftr_div_pow2, !Z.div_small by lia. cbn -[descriptorHasInterfaceAlt
    getDeviceConfiguration u8]. rewrite !u8_id by done.
  by rewrite Hd, (proj2 (Z.eqb_neq _ _) Hc).
Qed.

Lemma get_configuration s dev d :
  processSubmit ops s dev d 0 DirIn (setup_packet 0x80 8 0 0 1) [] =
  (s, d, [getDeviceConfiguration s dev (Some (GetDescriptor ops d))]).
Proof.
  unfold processSubmit, processSubmitWithLifecycle.
  unfold parseControlLifecycleSubmissionDescriptor, parseControlLifecycleSetupDescriptor.
  by autorewrite with setup.
Qed.

Lemma get_interface s dev d i :
  U8 i ->
  processSubmit ops s dev d 0 DirIn (setup_packet 0x81 0x0A 0 i 1) [] =
  (s, d, [getInterfaceAlt s dev i]).
Proof.
  intros Hi. unfold processSubmit, processSubmitWithLifecycle.
  unfold parseControlLifecycleSubmissionDescriptor, parseControlLifecycleSetupDescriptor.
  autorewrite with setup. cbn -[u8 getInterfaceAlt Z.land].
  rewrite (Z.land_ones i 8 ltac:(lia) : Z.land i 255 = i mod 256).
  by rewrite (Z.mod_small i), u8_id.
Qed.
End Requests.

(** A well-formed SET_CONFIGURATION naming the device's configuration
    value (or zero, to deconfigure) answers with no data; afterwards
    GET_CONFIGURATION reads the value back, every alternate setting of the
    device reads as zero, the device has been told so for each of its interface
    numbers, and no other device's routing changes. *)
Theorem set_configuration_selects {D} (ops : DeviceOps D) s dev d v :
  U8 v -> v = 0 \/ v = descriptorConfigurationValue (Some (GetDescriptor ops d)) ->
  exists s',
    processSubmit ops s dev d 0 DirOut (setup_packet 0x00 9 v 0 0) [] =
      (s', notifyInterfaceAltsCleared ops d, []) /\
    (forall d', processSubmit ops s' dev d' 0 DirIn (setup_packet 0x80 8 0 0 1) [] =
                  (s', d', [v])) /\
    (forall d' i, U8 i ->
       processSubmit ops s' dev d' 0 DirIn (setup_packet 0x81 0x0A 0 i 1) [] = (s', d', [0])) /\
    (forall dev' desc, dev' <> dev ->
       getDeviceConfiguration s' dev' desc = getDeviceConfiguration s dev' desc) /\
    (forall dev' i, dev' <> dev -> getInterfaceAlt s' dev' i = getInterfaceAlt s dev' i).
Proof.
  intros Hv Hval. exists (clearInterfaceAlt (setDeviceConfiguration s dev v) dev). split_and!.
  - erewrite processSubmit_lifecycle; [|by apply parse_set_configuration|done..]. done.
  - intros d'. rewrite get_configuration, getDeviceConfiguration_clear.
    by rewrite getDeviceConfiguration_set, bool_decide_true.
  - intros d' i Hi. rewrite get_interface by done.
    by rewrite getInterfaceAlt_clear, bool_decide_true.
  - intros dev' desc Hne. rewrite getDeviceConfiguration_clear.
    by rewrite getDeviceConfiguration_set, bool_decide_false.
  - intros dev' i Hne. by rewrite getInterfaceAlt_clear, bool_decide_false.
Qed.

(** A well-formed SET_INTERFACE naming an existing alternate setting
    of a configured device answers with no data and tells the device once;
    afterwards GET_INTERFACE of that interface reads the setting back, and the
    setting of every other interface and device, and every configuration, is
    what it was. *)
Theorem set_interface_selects {D} (ops : DeviceOps D) s dev d iface alt :
  U8 iface -> U8 alt ->
  getDeviceConfiguration s dev (Some (GetDescriptor ops d)) <> 0 ->
  descriptorHasInterfaceAlt (Some (GetDescriptor ops d)) iface alt = true ->
  exists s',
    processSubmit ops s dev d 0 DirOut (setup_packet 0x01 0x0B alt iface 0) [] =
      (s', notifyInterfaceAlt ops d iface alt, []) /\
    (forall d', processSubmit ops s' dev d' 0 DirIn (setup_packet 0x81 0x0A 0 iface 1) [] =
                  (s', d', [alt])) /\
    (forall dev' i, ~ (dev' = dev /\ i = iface) ->
       getInterfaceAlt s' dev' i = getInterfaceAlt s dev' i) /\
    configurations s' = configurations s.
Proof.
  intros Hi Ha Hc Hd. exists (setInterfaceAlt s dev iface alt). split_and!.
  - erewrite processSubmit_lifecycle; [|by apply parse_set_interface|done..]. done.
  - intros d'. rewrite get_interface by done. by rewrite getInterfaceAlt_set, bool_decide_true.
  - intros dev' i Hne. simpl. by rewrite getInterfaceAlt_set, bool_decide_false.
  - done.
Qed.

(** A composite controller whose state counts the notifications it received. *)
Definition demo_ops : DeviceOps (list (Z * Z)) := {|
  GetDescriptor := fun _ => demo_desc;
  HandleTransfer := fun d _ _ _ => (d, []);
  HandleControl := None;
  ResetEndpoint := None;
  SetInterfaceAltSetting := Some (fun d i a => d ++ [(i, a)]) |}.

Definition demo_routing : routing := {| configurations := {[7 := 1]};
  alts := {[7 := {[1 := 1]}; 8 := {[1 := 1]}]} |}.

Lemma set_configuration_selects_witness :
  exists s', processSubmit demo_ops demo_routing 7 [] 0 DirOut (setup_packet 0x00 9 1 0 0) [] =
    (s', [(0, 0); (1, 0); (2, 0)], []) /\ getInterfaceAlt s' 8 1 = 1.
Proof.
  destruct (set_configuration_selects demo_ops demo_routing 7 [] 1 ltac:(lia)
    ltac:(right; reflexivity)) as (s' & H & _ & _ & _ & Halt).
  exists s'. split; [exact H|exact (Halt 8 1 ltac:(discriminate))].
Defined.

Lemma set_interface_selects_witness :
  exists s', processSubmit demo_ops demo_routing 7 [] 0 DirOut (setup_packet 0x01 0x0B 0 1 0) [] =
    (s', [(1, 0)], []) /\ getInterfaceAlt s' 8 1 = 1.
Proof.
  destruct (set_interface_selects demo_ops demo_routing 7 [] 1 0 ltac:(lia) ltac:(lia)
    ltac:(discriminate) ltac:(reflexivity)) as (s' & H & _ & Halt & _).
  exists s'. split; [exact H|]. exact (Halt 8 1 ltac:(intros [? _]; discriminate)).
Defined.

(** ** What can change the routing state *)

Lemma shiftr8_zero v : Z.shiftr v 8 = 0 <-> U8 v.
Proof. rewrite Z.shiftr_div_pow2 by lia. change (2 ^ 8) with 256. split; zsolve. Qed.

(** The requests that the lifecycle parse accepts, as the USB specification
    words them. *)
Definition lifecycle_request (s : routing) (dev : Z) (desc : option Descriptor)
    (setup : list Z) (l : controlLifecycleSetup) : Prop :=
  length setup = 8%nat /\ setup_length setup = 0 /\
  match lc_kind l with
  | controlLifecycleNone => False
  | controlLifecycleClearEndpointHalt =>
      byte_at setup 0 = 0x02 /\ byte_at setup 1 = 1 /\ setup_value setup = 0 /\
      U8 (setup_index setup) /\ lc_endpointAddress l = setup_index setup /\
      descriptorHasActiveHaltEndpoint s dev desc (setup_index setup) = true
  | controlLifecycleSetInterface =>
      byte_at setup 0 = 0x01 /\ byte_at setup 1 = 0x0B /\
      U8 (setup_value setup) /\ U8 (setup_index setup) /\
      lc_interfaceNumber l = setup_index setup /\ lc_alternateSetting l = setup_value setup /\
      getDeviceConfiguration s dev desc <> 0 /\
      descriptorHasInterfaceAlt desc (setup_index setup) (setup_value setup) = true
  | controlLifecycleSetConfiguration =>
      byte_at setup 0 = 0x00 /\ byte_at setup 1 = 9 /\ setup_index setup = 0 /\
      (setup_value setup = 0 \/ setup_value setup = descriptorConfigurationValue desc) /\
      lc_configurationValue l = u8 (setup_value setup)
  end.

Lemma parse_accepted s dev desc setup :
  let l := parseControlLifecycleSetupDescriptor s dev desc setup in
  lc_accepted l = true -> lifecycle_request s dev desc setup l.
Proof.
  unfold parseControlLifecycleSetupDescriptor, lifecycle_request,
    usbReqTypeStandardToEndpoint, usbReqClearFeature, usbReqTypeStandardFromInterface,
    usbReqSetInterface, usbReqTypeStandardToDevice, usbReqSetConfiguration.
  destruct (Nat.eqb_spec (length setup) 8) as [Hlen|]; simpl; [|done].
  repeat match goal with
  | |- context [if ?b then _ else _] => destruct b eqn:?; simpl; [|]
  end; intros Hacc; try discriminate Hacc; bool_prop; rewrite ?shiftr8_zero in *;
    rewrite ?u8_id in * by done; split_and!; try done; try lia.
Qed.

Lemma apply_lifecycle_accepted {D} (ops : DeviceOps D) s dev d l s' d' :
  apply_lifecycle ops s dev d l = (s', d') -> s' <> s ->
  lc_accepted l = true /\
  (lc_kind l = controlLifecycleSetInterface /\
   s' = setInterfaceAlt s dev (lc_interfaceNumber l) (lc_alternateSetting l) \/
   lc_kind l = controlLifecycleSetConfiguration /\
   s' = clearInterfaceAlt (setDeviceConfiguration s dev (lc_configurationValue l)) dev).
Proof.
  unfold apply_lifecycle, resetInterfaceAlts. destruct (lc_accepted l); simpl; [|naive_solver].
  destruct (lc_kind l); naive_solver.
Qed.

Lemma dispatch_keeps_routing {D} (ops : DeviceOps D) s dev d ep dir setup out l s' d' r :
  processSubmitWithLifecycle ops s dev d ep dir setup out l = (s', d', r) ->
  s' <> s -> ep = 0 /\ length setup = 8%nat /\ r = [] /\
    apply_lifecycle ops s dev d l = (s', d').
Proof.
  unfold processSubmitWithLifecycle. intros H Hs.
  repeat match type of H with
  | context [if ?b then _ else _] => bdestr b; simpl in H
  | context [match ?x with _ => _ end] => destruct x eqn:?; simpl in H
  end; simplify_eq/=; bool_prop; subst; try tauto.
Qed.

(** The parse and the dispatch of a submission of [transferLength] bytes. *)
Lemma dispatch_changes_by_request {D} (ops : DeviceOps D) s dev desc d ep dir transferLength setup out s' d' r :
  processSubmitWithLifecycle ops s dev d ep dir setup out
    (parseControlLifecycleSubmissionDescriptor s dev desc ep dir transferLength setup) = (s', d', r) ->
  s' <> s ->
  exists l, lifecycle_request s dev desc setup l /\
    ep = 0 /\ dir = DirOut /\ transferLength = 0 /\ r = [] /\
    (lc_kind l = controlLifecycleSetInterface /\
     s' = setInterfaceAlt s dev (setup_index setup) (setup_value setup) \/
     lc_kind l = controlLifecycleSetConfiguration /\
     s' = clearInterfaceAlt (setDeviceConfiguration s dev (u8 (setup_value setup))) dev).
Proof.
  intros H Hs. apply dispatch_keeps_routing in H as (Hep & Hlen & -> & Happ); [|done].
  apply apply_lifecycle_accepted in Happ as (Hacc & Hkind); [|done].
  set (l := parseControlLifecycleSubmissionDescriptor _ _ _ _ _ _ _) in *.
  pose proof (parse_accepted s dev desc setup) as Hpa. simpl in Hpa.
  assert (Hl : l = parseControlLifecycleSetupDescriptor s dev desc setup /\ dir = DirOut /\ transferLength = 0).
  { subst l. rewrite Hep in *. unfold parseControlLifecycleSubmissionDescriptor in *. simpl in *.
    case_if_in Hacc; [done|]. apply andb_false_iff in Hb as [Hb|Hb].
    - exfalso. clear -Hacc Hb. revert Hacc Hb.
      unfold parseControlLifecycleSetupDescriptor. repeat case_if; done.
    - bool_prop. done. }
  destruct Hl as (Hl & -> & Hlen0). rewrite <- Hl in Hpa. specialize (Hpa Hacc).
  exists l. split_and!; [done..|]. destruct Hpa as (_ & _ & Hpa).
  destruct Hkind as [[Hk ->]|[Hk ->]]; rewrite Hk in Hpa; [left|right]; split; try done.
  - by destruct Hpa as (_ & _ & _ & _ & -> & -> & _).
  - by destruct Hpa as (_ & _ & _ & _ & ->).
Qed.

(** C34: the only submissions that change the selected configuration or
    the alternate settings are the zero-length OUT control transfers
    SET_INTERFACE, naming an existing alternate setting of a configured device,
    and SET_CONFIGURATION, naming zero or the device's configuration value; the
    new state is then the one the request asks for.  Malformed variants, other
    requests, data endpoints and the device's own handlers leave it alone.  This
    holds of processSubmit and of the stream's own path, which parses with the
    transfer length of the URB. *)
Theorem routing_changes_by_request {D} (ops : DeviceOps D) s dev d ep dir setup out s' d' :
  (forall r, processSubmit ops s dev d ep dir setup out = (s', d', r) -> s' <> s ->
   exists l, lifecycle_request s dev (Some (GetDescriptor ops d)) setup l /\
    ep = 0 /\ dir = DirOut /\ u32 (Z.of_nat (length out)) = 0 /\ r = [] /\
    (lc_kind l = controlLifecycleSetInterface /\
     s' = setInterfaceAlt s dev (setup_index setup) (setup_value setup) \/
     lc_kind l = controlLifecycleSetConfiguration /\
     s' = clearInterfaceAlt (setDeviceConfiguration s dev (u8 (setup_value setup))) dev)) /\
  (forall desc seq xferLen packet, complete_submission ops s dev d seq ep dir setup out
     (parseControlLifecycleSubmissionDescriptor s dev (Some desc) ep dir xferLen setup) = (s', d', packet) ->
   s' <> s ->
   exists l, lifecycle_request s dev (Some desc) setup l /\
    ep = 0 /\ dir = DirOut /\ xferLen = 0 /\
    (lc_kind l = controlLifecycleSetInterface /\
     s' = setInterfaceAlt s dev (setup_index setup) (setup_value setup) \/
     lc_kind l = controlLifecycleSetConfiguration /\
     s' = clearInterfaceAlt (setDeviceConfiguration s dev (u8 (setup_value setup))) dev)).
Proof.
  split.
  - intros r. unfold processSubmit. destruct (Z.eqb_spec ep 0) as [->|Hep]; simpl.
    + apply dispatch_changes_by_request.
    + destruct (HandleTransfer ops d ep dir out) as [? ?]. naive_solver.
  - intros desc seq xferLen packet. unfold complete_submission.
    destruct (processSubmitWithLifecycle _ _ _ _ _ _ _ _ _) as [[s1 d1] r1] eqn:Ed.
    intros [= -> -> _] Hs.
    destruct (dispatch_changes_by_request _ _ _ _ _ _ _ _ _ _ _ _ _ Ed Hs) as (l & ? & ? & ? & ? & _ & ?).
    by exists l.
Qed.

Lemma routing_changes_by_request_witness :
  exists l, lifecycle_request demo_routing 7 (Some demo_desc) (setup_packet 0x01 0x0B 0 1 0) l /\
    lc_kind l = controlLifecycleSetInterface.
Proof.
  destruct (proj2 (routing_changes_by_request demo_ops demo_routing 7 [] 0 DirOut
    (setup_packet 0x01 0x0B 0 1 0) [] (setInterfaceAlt demo_routing 7 1 0) [(1, 0)]) demo_desc 5 0
    (buildRetSubmitPacket 5 0 0 [] [] false))
    as (l & Hl & _ & _ & _ & Hk).
  - vm_compute. reflexivity.
  - intros H. apply (f_equal (fun s => getInterfaceAlt s 7 1)) in H. vm_compute in H. discriminate.
  - exists l. split; [exact Hl|]. destruct Hk as [[Hk _]|[Hk _]]; [exact Hk|].
    destruct Hl as (_ & _ & Hl). rewrite Hk in Hl. destruct Hl as (Hl & _).
    vm_compute in Hl. discriminate Hl.
Defined.

(** ** Bounds on what endpoint zero returns *)

Lemma clip_length w data : 0 <= w -> Z.of_nat (length (clip w data)) <= w.
Proof.
  intros. unfold clip. case_if; [|lia]. rewrite length_take. lia.
Qed.

(** The requests answered from a fixed-size value, whatever wLength says. *)
Definition fixed_answer (setup r : list Z) : Prop :=
  byte_at setup 1 = 0 /\ r = [0; 0] \/
  byte_at setup 0 = 0x80 /\ byte_at setup 1 = 8 /\ length r = 1%nat \/
  byte_at setup 0 = 0x81 /\ byte_at setup 1 = 0x0A /\ length r = 1%nat \/
  byte_at setup 0 = 0xA1 /\ (byte_at setup 1 = 2 /\ r = [0] \/ byte_at setup 1 = 3 /\ r = [1]).

(** A control response never exceeds wLength, except for the five
    requests answered from a fixed-size value (GET_STATUS, GET_CONFIGURATION,
    GET_INTERFACE and HID GET_IDLE and GET_PROTOCOL), which return their one or
    two bytes unclipped. *)
Theorem control_response_bounded {D} (ops : DeviceOps D) s dev d dir setup out s' d' r :
  bytes_ok setup -> processSubmit ops s dev d 0 dir setup out = (s', d', r) ->
  Z.of_nat (length r) <= setup_length setup \/ fixed_answer setup r.
Proof.
  intros Hok. assert (Hw : 0 <= setup_length setup).
  { apply le_val_range. by apply slice_bytes_ok. }
  unfold processSubmit, processSubmitWithLifecycle. intros H. simpl in H.
  assert (Hclip := fun data => clip_length _ data Hw).
  unfold fixed_answer.
  repeat match type of H with
  | context [if ?b then _ else _] => destruct b eqn:?; simpl in H
  | context [match ?x with _ => _ end] => destruct x eqn:?; simpl in H
  end; simplify_eq/=; auto 2; bool_prop; right; tauto.
Qed.

Lemma control_response_bounded_witness :
  Z.of_nat (length (clip 4 (Descriptor_Bytes demo_desc))) <= 4.
Proof.
  destruct (control_response_bounded demo_ops demo_routing 7 [] DirIn
    (setup_packet 0x80 6 0x100 0 4) [] demo_routing [] (clip 4 (Descriptor_Bytes demo_desc)))
    as [H|H].
  - by_decide.
  - vm_compute. reflexivity.
  - exact H.
  - vm_compute in H. naive_solver.
Defined.

(** GET_STATUS is answered with two bytes even when the host asked for
    none: a zero-length request yields a RET_SUBMIT whose actual length is two. *)
Theorem get_status_ignores_length {D} (ops : DeviceOps D) s dev d seq :
  complete_submission ops s dev d seq 0 DirIn (setup_packet 0x80 0 0 0 0) []
    (parseControlLifecycleSubmissionDescriptor s dev (Some (GetDescriptor ops d)) 0 DirIn 0
       (setup_packet 0x80 0 0 0 0)) =
  (s, d, buildRetSubmitPacket seq 0 2 [0; 0] [] false).
Proof.
  unfold complete_submission, parseControlLifecycleSubmissionDescriptor,
    parseControlLifecycleSetupDescriptor, processSubmitWithLifecycle.
  by autorewrite with setup.
Qed.

Lemma recognized_request s dev desc ep dir len setup :
  lc_recognized (parseControlLifecycleSubmissionDescriptor s dev desc ep dir len setup) = true ->
  ep = 0 /\ length setup = 8%nat /\
  (byte_at setup 1 = 1 \/ byte_at setup 1 = 0x0B \/ byte_at setup 1 = 9).
Proof.
  unfold parseControlLifecycleSubmissionDescriptor, parseControlLifecycleSetupDescriptor.
  destruct (Z.eqb_spec ep 0); simpl; [|done].
  destruct (Nat.eqb_spec (length setup) 8); simpl; [|done].
  unfold usbReqClearFeature, usbReqSetInterface, usbReqSetConfiguration.
  repeat match goal with
  | |- context [if ?b then _ else _] => destruct b eqn:?; simpl
  end; intros; try done; bool_prop; tauto.
Qed.

Lemma rejected_lifecycle_inert {D} (ops : DeviceOps D) s dev d desc ep dir len setup out :
  let l := parseControlLifecycleSubmissionDescriptor s dev desc ep dir len setup in
  lc_recognized l = true -> lc_accepted l = false ->
  processSubmitWithLifecycle ops s dev d ep dir setup out l = (s, d, []).
Proof.
  intros l Hrec Hacc. apply recognized_request in Hrec as Hreq.
  destruct Hreq as (-> & Hlen & Hb). unfold processSubmitWithLifecycle.
  rewrite Hlen, Hrec. simpl. unfold apply_lifecycle. rewrite Hacc. simpl.
  by destruct Hb as [-> | [-> | ->]].
Qed.

(** The RET_SUBMIT of an ordinary submission is consistent on the
    wire: a rejected lifecycle request stalls with no data and changes neither
    routing nor device; an OUT transfer acknowledges its payload length and
    returns no data; an IN transfer's actual length is the length of the data
    that follows the header. *)
Theorem submission_reply_consistent {D} (ops : DeviceOps D) s dev d desc seq ep dir xferLen setup
    out :
  let l := parseControlLifecycleSubmissionDescriptor s dev desc ep dir xferLen setup in
  let '(s', d', packet) := complete_submission ops s dev d seq ep dir setup out l in
  exists status actual data,
    packet = wire_bytes (ret_header RetSubmitCode seq status actual (-1)) ++ data /\
    (status = errPipe /\ actual = 0 /\ data = [] /\ s' = s /\ d' = d \/
     status = 0 /\ dir = DirOut /\ actual = u32 (Z.of_nat (length out)) /\ data = [] \/
     status = 0 /\ dir <> DirOut /\ actual = u32 (Z.of_nat (length data))).
Proof.
  intros l. unfold complete_submission.
  destruct (processSubmitWithLifecycle ops s dev d ep dir setup out l)
    as [[s' d'] r] eqn:Hp.
  eexists _, _, _. split; [by rewrite buildRetSubmitPacket_bytes, app_nil_r|].
  destruct (lc_recognized l) eqn:Hrec; simpl; [destruct (lc_accepted l) eqn:Hacc; simpl|].
  2: { left. pose proof (rejected_lifecycle_inert ops s dev d desc ep dir xferLen setup out Hrec Hacc)
         as Hin. fold l in Hin. rewrite Hp in Hin. by simplify_eq. }
  all: right; destruct (Z.eqb_spec dir DirOut); tauto.
Qed.

Lemma active_endpoint_unique_witness :
  exists i k c e, active_at demo_routing 7 0x01 demo_desc i k c e /\ BEndpointAddress e = 1 /\
    BAlternateSetting (if_Descriptor c) = 1.
Proof.
  destruct (proj1 (active_endpoint_unique demo_routing 7 demo_desc 1 DirOut
    {| b_interfaceNumber := 1; b_alternateSetting := 1; b_descriptor := demo_ep 0x01 0x09 |})
    eq_refl) as (_ & _ & i & k & c & e & Hact & Hb & _).
  exists i, k, c, e. split; [exact Hact|]. injection Hb as _ Halt He.
  split; [exact (eq_sym (f_equal BEndpointAddress (eq_sym (eq_sym He))))|exact (eq_sym Halt)].
Defined.
