(* ===== verification/MicBuffer.v ===== *)
(** * The microphone jitter buffer (src/device/internal/microphonebuffer/buffer.go)

    A bounded ring of PCM bytes between the client, which queues complete
    frames, and a USB isochronous endpoint, which reads one packet per service
    interval.  The model keeps the backing array with its head and size, the
    priming flags, the occupancy filter and clock servo, and the telemetry.
    The theorems relate the ring to an abstract byte queue and show that its
    bounds hold along every run.

    The fields of the Go struct are grouped into one record per concern.  Go's
    [int] values are sizes of allocated buffers and are modelled as [Z];
    [uint64] counters wrap at 64 bits; [time.Now()] is an argument. *)

From S2P Require Import Prelude Bytes.

(** ** State *)

Record Config := {
  packetSize : Z;
  pcmFrameSize : Z;
  frameSize : Z;
  targetSize : Z;
  recoverySize : Z;
  queueCenter : Z;
  lowRailSize : Z;
  highRailSize : Z;
  nominalPacketFrames : Z;
}.

Record Ring := { data : list Z; head : Z; size : Z }.

Record Servo := {
  filteredQueueQ16 : Z;
  filterInitialized : bool;
  servoAccumulator : Z;
  servoRatePPM : Z;
}.

Record Priming := { primed : bool; needsReprime : bool }.

Record Counters := {
  underruns : Z;
  reprimes : Z;
  droppedBytes : Z;
  packetsRead : Z;
  zeroPackets : Z;
  overflowEvents : Z;
  shortPackets : Z;
  longPackets : Z;
}.

(** The gap telemetry of one side (recordQueueTime, recordReadTime); [None] is
    the zero [time.Time]. *)
Record Gaps := {
  fastGaps : Z;
  lateGaps : Z;
  minGap : Z;
  maxGap : Z;
  lastTime : option Z;
}.

Record Water := { lowWaterBytes : Z; highWaterBytes : Z }.

Record Buffer := {
  cfg : Config;
  ring : Ring;
  servo : Servo;
  priming : Priming;
  counters : Counters;
  water : Water;
  queueFrames : Z;
  queueGaps : Gaps;
  readGaps : Gaps;
}.

(** [x++] and [x += n] on a [uint64] counter. *)
Definition count_overflow (n : Z) (c : Counters) : Counters :=
  {| underruns := underruns c;
     reprimes := reprimes c;
     droppedBytes := u64 (droppedBytes c + u64 n);
     packetsRead := packetsRead c;
     zeroPackets := zeroPackets c;
     overflowEvents := u64 (overflowEvents c + 1);
     shortPackets := shortPackets c;
     longPackets := longPackets c |}.
Definition count_reprime (c : Counters) : Counters :=
  {| underruns := underruns c;
     reprimes := u64 (reprimes c + 1);
     droppedBytes := droppedBytes c;
     packetsRead := packetsRead c;
     zeroPackets := zeroPackets c;
     overflowEvents := overflowEvents c;
     shortPackets := shortPackets c;
     longPackets := longPackets c |}.
Definition count_underrun (c : Counters) : Counters :=
  {| underruns := u64 (underruns c + 1);
     reprimes := reprimes c;
     droppedBytes := droppedBytes c;
     packetsRead := packetsRead c;
     zeroPackets := zeroPackets c;
     overflowEvents := overflowEvents c;
     shortPackets := shortPackets c;
     longPackets := longPackets c |}.
Definition count_read (c : Counters) : Counters :=
  {| underruns := underruns c;
     reprimes := reprimes c;
     droppedBytes := droppedBytes c;
     packetsRead := u64 (packetsRead c + 1);
     zeroPackets := zeroPackets c;
     overflowEvents := overflowEvents c;
     shortPackets := shortPackets c;
     longPackets := longPackets c |}.
Definition count_zero (c : Counters) : Counters :=
  {| underruns := underruns c;
     reprimes := reprimes c;
     droppedBytes := droppedBytes c;
     packetsRead := packetsRead c;
     zeroPackets := u64 (zeroPackets c + 1);
     overflowEvents := overflowEvents c;
     shortPackets := shortPackets c;
     longPackets := longPackets c |}.
Definition count_short (c : Counters) : Counters :=
  {| underruns := underruns c;
     reprimes := reprimes c;
     droppedBytes := droppedBytes c;
     packetsRead := packetsRead c;
     zeroPackets := zeroPackets c;
     overflowEvents := overflowEvents c;
     shortPackets := u64 (shortPackets c + 1);
     longPackets := longPackets c |}.
Definition count_long (c : Counters) : Counters :=
  {| underruns := underruns c;
     reprimes := reprimes c;
     droppedBytes := droppedBytes c;
     packetsRead := packetsRead c;
     zeroPackets := zeroPackets c;
     overflowEvents := overflowEvents c;
     shortPackets := shortPackets c;
     longPackets := u64 (longPackets c + 1) |}.

(** ** Ring operations *)

Definition capacity (r : Ring) : Z := Z.of_nat (length (data r)).

Definition discard (r : Ring) (count : Z) : Ring :=
  if count <=? 0 then r
  else if size r <=? count then {| data := data r; head := 0; size := 0 |}
  else {| data := data r; head := Z.rem (head r + count) (capacity r); size := size r - count |}.

Definition write (r : Ring) (src : list Z) : Ring :=
  let tail := Z.rem (head r + size r) (capacity r) in
  let first := Z.min (Z.of_nat (length src)) (capacity r - tail) in
  let d := put_at (Z.to_nat tail) (take (Z.to_nat first) src) (data r) in
  let d := put_at 0 (take (length d) (drop (Z.to_nat first) src)) d in
  {| data := d; head := head r; size := size r + Z.of_nat (length src) |}.

(** [read(dst)]: the ring afterwards and the new contents of [dst]. *)
Definition read (r : Ring) (dst : list Z) : Ring * list Z :=
  let n := Z.of_nat (length dst) in
  let first := Z.min n (capacity r - head r) in
  let dst := put_at 0 (slice (Z.to_nat (head r)) (Z.to_nat (head r + first)) (data r)) dst in
  let dst := put_at (Z.to_nat first) (take (Z.to_nat (n - first)) (data r)) dst in
  (discard r n, dst).

#[global] Arguments write : simpl never.
#[global] Arguments read : simpl never.
#[global] Arguments discard : simpl never.

(** ** Servo *)

Definition occupancyFilterShift : Z := 6.
Definition servoGainPPMPerMS : Z := 2000.
Definition servoLimitPPM : Z := 10000.
Definition servoPulseScale : Z := 1000000.
Definition recoveryClientFrames : Z := 2.

Definition filteredQueueBytes (v : Servo) : Z :=
  if negb (filterInitialized v) then 0
  else Z.shiftr (filteredQueueQ16 v + Z.shiftl 1 15) 16.

Definition resetServo : Servo := {|
  filteredQueueQ16 := 0; filterInitialized := false;
  servoAccumulator := 0; servoRatePPM := 0 |}.

(** The switch of nextPacketSize and the clamp after it. *)
Definition servo_rate (c : Config) (filtered : Z) : Z :=
  let bytesPerMillisecond := Z.max 1 (Z.quot (frameSize c) 10) in
  let deadband := bytesPerMillisecond in
  let ratePPM :=
    if filtered <? lowRailSize c then - servoLimitPPM
    else if highRailSize c <? filtered then servoLimitPPM
    else if queueCenter c + deadband <? filtered then
      Z.quot ((filtered - queueCenter c - deadband) * servoGainPPMPerMS) bytesPerMillisecond
    else if filtered <? queueCenter c - deadband then
      - Z.quot ((queueCenter c - deadband - filtered) * servoGainPPMPerMS) bytesPerMillisecond
    else 0 in
  if servoLimitPPM <? ratePPM then servoLimitPPM
  else if ratePPM <? - servoLimitPPM then - servoLimitPPM
  else ratePPM.

Definition nextPacketSize (c : Config) (sz : Z) (v : Servo) : Servo * Z :=
  let projectedSize := Z.max 0 (sz - packetSize c) in
  let currentQ16 := Z.shiftl projectedSize 16 in
  let q := if filterInitialized v then filteredQueueQ16 v
           else Z.shiftl (queueCenter c) 16 in
  let q := q + Z.shiftr (currentQ16 - q) occupancyFilterShift in
  let filtered := Z.shiftr (q + Z.shiftl 1 15) 16 in
  let ratePPM := servo_rate c filtered in
  let acc := servoAccumulator v + ratePPM * nominalPacketFrames c in
  let v := {| filteredQueueQ16 := q; filterInitialized := true;
              servoAccumulator := acc; servoRatePPM := ratePPM |} in
  (v, if servoPulseScale <=? acc then packetSize c + pcmFrameSize c
      else if acc <=? - servoPulseScale then packetSize c - pcmFrameSize c
      else packetSize c).

Definition commitPacketSize (c : Config) (n : Z) (v : Servo) (k : Counters) : Servo * Counters :=
  let add d := {| filteredQueueQ16 := filteredQueueQ16 v;
                  filterInitialized := filterInitialized v;
                  servoAccumulator := servoAccumulator v + d;
                  servoRatePPM := servoRatePPM v |} in
  if n =? packetSize c - pcmFrameSize c then (add servoPulseScale, count_short k)
  else if n =? packetSize c + pcmFrameSize c then (add (- servoPulseScale), count_long k)
  else (v, k).

#[global] Arguments nextPacketSize : simpl never.
#[global] Arguments commitPacketSize : simpl never.

(** ** Telemetry *)

Definition record_gap (fast late : Z) (g : Gaps) (now : Z) : Gaps :=
  match lastTime g with
  | None => {| fastGaps := fastGaps g; lateGaps := lateGaps g; minGap := minGap g;
               maxGap := maxGap g; lastTime := Some now |}
  | Some last =>
      let gap := time_sub now last in
      {| fastGaps := if gap <? fast then u64 (fastGaps g + 1) else fastGaps g;
         lateGaps := if late <? gap then u64 (lateGaps g + 1) else lateGaps g;
         minGap := if (minGap g =? 0) || (gap <? minGap g) then gap else minGap g;
         maxGap := if maxGap g <? gap then gap else maxGap g;
         lastTime := Some now |}
  end.

(** In nanoseconds: 5 ms and 15 ms; 500 us and 1500 us. *)
Definition recordQueueTime (g : Gaps) (now : Z) : Gaps := record_gap 5000000 15000000 g now.
Definition recordReadTime (g : Gaps) (now : Z) : Gaps := record_gap 500000 1500000 g now.

Definition clear_time (g : Gaps) : Gaps := {|
  fastGaps := fastGaps g; lateGaps := lateGaps g; minGap := minGap g; maxGap := maxGap g;
  lastTime := None |}.

Definition recordWatermark (p : Priming) (r : Ring) (w : Water) : Water :=
  if negb (primed p) then w
  else {| lowWaterBytes := if (lowWaterBytes w <? 0) || (size r <? lowWaterBytes w)
                           then size r else lowWaterBytes w;
          highWaterBytes := if highWaterBytes w <? size r then size r else highWaterBytes w |}.

(** ** The exported operations *)

(** New; [None] is a panic on an invalid geometry. *)
Definition New (packet pcm frame targetFrames maximumFrames : Z) : option Buffer :=
  if (packet <=? 0) || (pcm <=? 0) || negb (Z.rem packet pcm =? 0) || (frame <=? 0) ||
     negb (Z.rem frame packet =? 0) then None
  else if (targetFrames <=? 0) || (maximumFrames <? targetFrames) then None
  else
    let capacity := frame * maximumFrames in
    Some {|
      cfg := {| packetSize := packet; pcmFrameSize := pcm; frameSize := frame;
        targetSize := frame * targetFrames;
        recoverySize := frame * Z.min targetFrames recoveryClientFrames;
        queueCenter := frame * targetFrames - Z.quot frame 2;
        lowRailSize := Z.max pcm (frame * targetFrames - Z.quot (frame * 3) 2);
        highRailSize := Z.min (capacity - pcm) (frame * targetFrames + Z.quot frame 2);
        nominalPacketFrames := Z.quot packet pcm |};
      ring := {| data := zeros (Z.to_nat capacity); head := 0; size := 0 |};
      servo := resetServo;
      priming := {| primed := false; needsReprime := false |};
      counters := {| underruns := 0; reprimes := 0; droppedBytes := 0; packetsRead := 0;
        zeroPackets := 0; overflowEvents := 0; shortPackets := 0; longPackets := 0 |};
      water := {| lowWaterBytes := -1; highWaterBytes := 0 |};
      queueFrames := 0;
      queueGaps := {| fastGaps := 0; lateGaps := 0; minGap := 0; maxGap := 0; lastTime := None |};
      readGaps := {| fastGaps := 0; lateGaps := 0; minGap := 0; maxGap := 0; lastTime := None |} |}.

Definition QueueFrame (now : Z) (frame : list Z) (b : Buffer) : Buffer * bool :=
  if negb (Z.of_nat (length frame) =? frameSize (cfg b)) then (b, false)
  else
    let overflow := size (ring b) + Z.of_nat (length frame) - capacity (ring b) in
    let r := if 0 <? overflow then discard (ring b) overflow else ring b in
    let k := if 0 <? overflow then count_overflow overflow (counters b) else counters b in
    let r := write r frame in
    let p := priming b in
    let primeSize := if needsReprime p then recoverySize (cfg b) else targetSize (cfg b) in
    let prime := negb (primed p) && (primeSize <=? size r) in
    let k := if prime && needsReprime p then count_reprime k else k in
    let p := if prime then {| primed := true; needsReprime := false |} else p in
    ({| cfg := cfg b; ring := r; servo := servo b; priming := p; counters := k;
        water := recordWatermark p r (water b);
        queueFrames := u64 (queueFrames b + 1);
        queueGaps := recordQueueTime (queueGaps b) now; readGaps := readGaps b |}, true).

(** ReadPacket: the buffer, the destination afterwards, the length and the
    success flag. *)
Definition ReadPacket (now : Z) (dst : list Z) (b : Buffer) : Buffer * list Z * (Z * bool) :=
  let c := cfg b in
  if Z.of_nat (length dst) <? packetSize c + pcmFrameSize c then (b, dst, (0, false))
  else if negb (primed (priming b)) then (b, dst, (0, false))
  else
    let '(v, wanted) := nextPacketSize c (size (ring b)) (servo b) in
    let shortSize := packetSize c - pcmFrameSize c in
    let choice :=
      if size (ring b) <? wanted then
        if packetSize c <=? size (ring b) then Some (packetSize c)
        else if shortSize <=? size (ring b) then Some shortSize
        else None
      else Some wanted in
    match choice with
    | None =>
        let p := {| primed := false; needsReprime := true |} in
        let sz := size (ring b) - Z.rem (size (ring b)) (pcmFrameSize c) in
        let r := {| data := data (ring b); head := if sz =? 0 then 0 else head (ring b);
                    size := sz |} in
        ({| cfg := c; ring := r; servo := resetServo; priming := p;
            counters := count_underrun (counters b);
            water := recordWatermark p r (water b); queueFrames := queueFrames b;
            queueGaps := queueGaps b; readGaps := readGaps b |}, dst, (0, false))
    | Some actualSize =>
        let '(v, k) := commitPacketSize c actualSize v (counters b) in
        let '(r, packet) := read (ring b) (take (Z.to_nat actualSize) dst) in
        ({| cfg := c; ring := r; servo := v; priming := priming b; counters := count_read k;
            water := recordWatermark (priming b) r (water b); queueFrames := queueFrames b;
            queueGaps := queueGaps b; readGaps := recordReadTime (readGaps b) now |},
         packet ++ drop (Z.to_nat actualSize) dst, (actualSize, true))
    end.

Definition RecordZeroPacket (b : Buffer) : Buffer := {|
  cfg := cfg b; ring := ring b; servo := servo b; priming := priming b;
  counters := count_zero (counters b); water := water b; queueFrames := queueFrames b;
  queueGaps := queueGaps b; readGaps := readGaps b |}.

Definition Reset (b : Buffer) : Buffer :=
  let p := {| primed := false; needsReprime := false |} in
  let r := {| data := data (ring b); head := 0; size := 0 |} in
  {| cfg := cfg b; ring := r; servo := resetServo; priming := p; counters := counters b;
     water := recordWatermark p r (water b); queueFrames := queueFrames b;
     queueGaps := clear_time (queueGaps b); readGaps := clear_time (readGaps b) |}.

(** ** The ring as a queue of bytes *)

Definition ring_ok (r : Ring) : Prop :=
  0 < capacity r /\ 0 <= head r < capacity r /\ 0 <= size r <= capacity r.

Definition rotate (h : nat) (d : list Z) : list Z := drop h d ++ take h d.

(** The queued bytes, oldest first. *)
Definition contents (r : Ring) : list Z :=
  take (Z.to_nat (size r)) (rotate (Z.to_nat (head r)) (data r)).

Lemma rem_wrap a c : 0 <= a < 2 * c -> Z.rem a c = if a <? c then a else a - c.
Proof.
  intros H. rewrite Z.rem_mod_nonneg by lia. case_if; [by apply Z.mod_small; lia|].
  symmetry. apply Z.mod_unique with 1; lia.
Qed.

Lemma put_at_lookup i src buf k :
  (i + length src <= length buf)%nat ->
  put_at i src buf !! k =
  if ((i <=? k) && (k <? i + length src))%nat then src !! (k - i)%nat else buf !! k.
Proof.
  intros H. unfold put_at.
  destruct (Nat.leb_spec i k), (Nat.ltb_spec k (i + length src)); simpl.
  - rewrite lookup_app_r by (autorewrite with len; lia). autorewrite with len.
    rewrite lookup_app_l by lia. f_equal. lia.
  - rewrite !lookup_app_r by (autorewrite with len; lia). autorewrite with len.
    rewrite lookup_drop. f_equal. lia.
  - rewrite lookup_app_l by (autorewrite with len; lia). by rewrite lookup_take_lt.
  - rewrite lookup_app_l by (autorewrite with len; lia). by rewrite lookup_take_lt.
Qed.

Lemma rotate_lookup h d i :
  (h <= length d)%nat -> (i < length d)%nat ->
  rotate h d !! i = d !! (if h + i <? length d then h + i else h + i - length d)%nat.
Proof.
  intros Hh Hi. unfold rotate. case_if.
  - rewrite lookup_app_l by (autorewrite with len; lia). by rewrite lookup_drop.
  - rewrite lookup_app_r by (autorewrite with len; lia). autorewrite with len.
    rewrite lookup_take_lt by lia. f_equal. lia.
Qed.

Lemma length_rotate h d : (h <= length d)%nat -> length (rotate h d) = length d.
Proof. intros. unfold rotate. autorewrite with len. lia. Qed.

Lemma length_contents r : ring_ok r -> length (contents r) = Z.to_nat (size r).
Proof.
  unfold ring_ok, capacity. intros. unfold contents.
  rewrite length_take, length_rotate by lia. lia.
Qed.

Lemma contents_lookup r i :
  ring_ok r -> (i < Z.to_nat (size r))%nat ->
  contents r !! i =
  data r !! (if Z.to_nat (head r) + i <? length (data r)
             then Z.to_nat (head r) + i
             else Z.to_nat (head r) + i - length (data r))%nat.
Proof.
  unfold ring_ok, capacity. intros H Hi. unfold contents.
  rewrite lookup_take_lt by done. apply rotate_lookup; lia.
Qed.

(** Lists of one known length are equal when they agree below it. *)
Lemma list_eq_below {A} (l k : list A) n :
  length l = n -> length k = n -> (forall i, (i < n)%nat -> l !! i = k !! i) -> l = k.
Proof.
  intros Hl Hk H. apply list_eq. intros i. destruct (decide (i < n)%nat); [auto|].
  by rewrite !lookup_ge_None_2 by lia.
Qed.

Lemma discard_ok r n : ring_ok r -> ring_ok (discard r n).
Proof.
  unfold ring_ok, discard, capacity. intros H. repeat case_if; simpl; try lia.
  rewrite rem_wrap by lia. case_if; lia.
Qed.

Lemma capacity_discard r n : capacity (discard r n) = capacity r.
Proof. unfold discard. by repeat case_if. Qed.

Lemma size_discard r n : 0 <= n <= size r -> size (discard r n) = size r - n.
Proof. unfold discard. intros. repeat case_if; simpl; lia. Qed.

Lemma discard_contents r n :
  ring_ok r -> 0 <= n -> contents (discard r n) = drop (Z.to_nat n) (contents r).
Proof.
  intros Hok Hn. destruct (decide (size r <= n)) as [Hall|Hsome].
  { rewrite drop_ge by (rewrite length_contents by done; lia).
    unfold discard. repeat case_if; try done; try lia.
    destruct Hok as (_ & _ & ?). assert (n = 0) as -> by lia. unfold contents.
    replace (size r) with 0 by lia. done. }
  assert (Hok' := discard_ok r n Hok).
  apply (list_eq_below _ _ (Z.to_nat (size r - n))).
  - rewrite length_contents, size_discard by (done || lia). done.
  - rewrite length_drop, length_contents by done. lia.
  - intros i Hi. rewrite lookup_drop, !contents_lookup by
      (done || (rewrite ?size_discard; lia)).
    unfold discard. destruct (Z.leb_spec n 0); [by assert (n = 0) as -> by lia|].
    destruct (Z.leb_spec (size r) n); [lia|]. unfold ring_ok, capacity in Hok. simpl.
    unfold capacity. rewrite rem_wrap by lia. repeat case_if; f_equal; lia.
Qed.

(** The two copies of [write], as one wrapping store at [t]. *)
Lemma wrap_store t f src d :
  (t < length d)%nat -> (length src <= length d)%nat -> f = Nat.min (length src) (length d - t) ->
  let d1 := put_at t (take f src) d in
  let d2 := put_at 0 (take (length d1) (drop f src)) d1 in
  length d2 = length d /\
  forall k, (k < length d)%nat ->
    d2 !! k = if ((t <=? k) && (k <? t + length src))%nat then src !! (k - t)%nat
              else if (k + length d <? t + length src)%nat then src !! (k + length d - t)%nat
              else d !! k.
Proof.
  intros Ht Hs Hf d1 d2.
  assert (L0 : length (take f src) = f) by (rewrite length_take; lia).
  assert (L1 : length d1 = length d) by (apply length_put_at; lia).
  assert (L2 : length (take (length d1) (drop f src)) = (length src - f)%nat)
    by (rewrite length_take, length_drop; lia).
  split; [unfold d2; rewrite length_put_at; lia|]. intros k Hk.
  unfold d2. rewrite put_at_lookup by lia. rewrite L2. unfold d1 at 2.
  rewrite put_at_lookup by lia. rewrite L0, Nat.sub_0_r. simpl.
  destruct (Nat.ltb_spec k (length src - f)).
  - rewrite lookup_take_lt, lookup_drop by lia.
    destruct (Nat.leb_spec t k), (Nat.ltb_spec k (t + length src)),
      (Nat.ltb_spec (k + length d) (t + length src)); simpl; f_equal; lia.
  - destruct (Nat.leb_spec t k), (Nat.ltb_spec k (t + f)), (Nat.ltb_spec k (t + length src)),
      (Nat.ltb_spec (k + length d) (t + length src)); simpl; try lia; try done.
    all: by rewrite lookup_take_lt by lia.
Qed.

Lemma write_store r src :
  ring_ok r -> size r + Z.of_nat (length src) <= capacity r ->
  let h := Z.to_nat (head r) in let n := Z.to_nat (size r) in let c := length (data r) in
  exists t, (h + n < c /\ t = h + n \/ c <= h + n /\ t = h + n - c)%nat /\
  length (data (write r src)) = c /\
  forall k, (k < c)%nat ->
    data (write r src) !! k =
      if ((t <=? k) && (k <? t + length src))%nat then src !! (k - t)%nat
      else if (k + c <? t + length src)%nat then src !! (k + c - t)%nat
      else data r !! k.
Proof.
  intros Hok Hfit h n c. unfold ring_ok, capacity in Hok, Hfit.
  exists (Z.to_nat (Z.rem (head r + size r) (capacity r))).
  unfold write, capacity; cbn [data]. rewrite rem_wrap by lia.
  split; [case_if; lia|]. apply wrap_store; repeat case_if; lia.
Qed.

Lemma write_ok r src :
  ring_ok r -> size r + Z.of_nat (length src) <= capacity r ->
  ring_ok (write r src) /\ capacity (write r src) = capacity r /\
  size (write r src) = size r + Z.of_nat (length src).
Proof.
  intros Hok Hfit. destruct (write_store r src Hok Hfit) as (_ & _ & Hlen & _).
  unfold ring_ok, capacity in *. rewrite Hlen. simpl. lia.
Qed.

Lemma write_contents r src :
  ring_ok r -> size r + Z.of_nat (length src) <= capacity r ->
  contents (write r src) = contents r ++ src.
Proof.
  intros Hok Hfit. destruct (write_ok r src Hok Hfit) as (Hok' & Hcap & Hsize).
  destruct (write_store r src Hok Hfit) as (t & Ht & Hlen & Hlook).
  apply (list_eq_below _ _ (Z.to_nat (size r + Z.of_nat (length src)))).
  - by rewrite length_contents, Hsize.
  - rewrite length_app, length_contents by done. unfold ring_ok in *. lia.
  - intros i Hi. rewrite contents_lookup by (done || lia).
    assert (Hh : head (write r src) = head r) by done. rewrite Hh, Hlen.
    unfold ring_ok, capacity in Hok, Hfit. rewrite Hlook by (case_if; lia).
    destruct (decide (i < Z.to_nat (size r))%nat) as [Hold|Hnew].
    + rewrite lookup_app_l by (rewrite length_contents by done; lia).
      rewrite contents_lookup by done.
      repeat (case_if; bool_split; try lia); try done.
    + rewrite lookup_app_r by (rewrite length_contents by done; lia).
      rewrite length_contents by done.
      repeat (case_if; bool_split; try lia); f_equal; lia.
Qed.

Lemma read_contents r dst :
  ring_ok r -> Z.of_nat (length dst) <= size r ->
  read r dst = (discard r (Z.of_nat (length dst)), take (length dst) (contents r)).
Proof.
  intros Hok Hn. unfold read. f_equal. unfold ring_ok, capacity in Hok |- *.
  set (f := Z.to_nat (Z.min (Z.of_nat (length dst)) (Z.of_nat (length (data r)) - head r))).
  assert (L1 : length (slice (Z.to_nat (head r)) (Z.to_nat (head r + Z.min (Z.of_nat (length dst))
      (Z.of_nat (length (data r)) - head r))) (data r)) = f) by (rewrite length_slice; lia).
  set (s1 := slice _ _ _) in *.
  assert (L2 : length (take (Z.to_nat (Z.of_nat (length dst) - Z.min (Z.of_nat (length dst))
      (Z.of_nat (length (data r)) - head r))) (data r)) = (length dst - f)%nat)
    by (rewrite length_take; lia).
  set (s2 := take _ (data r)) in *.
  assert (L3 : length (put_at 0 s1 dst) = length dst) by (apply length_put_at; lia).
  apply (list_eq_below _ _ (length dst)).
  - rewrite length_put_at; lia.
  - rewrite length_take, length_contents by (unfold ring_ok, capacity; done). lia.
  - intros i Hi. rewrite lookup_take_lt by done.
    rewrite contents_lookup by (unfold ring_ok, capacity; lia).
    rewrite put_at_lookup, L2 by lia. rewrite put_at_lookup, L1 by lia.
    unfold s1, s2, slice.
    repeat (case_if; bool_split; try lia).
    all: rewrite lookup_take_lt by lia; rewrite ?lookup_drop; f_equal; lia.
Qed.

(** ** The buffer's invariant *)

(** The geometry New establishes and no operation changes. *)
Definition config_ok (c : Config) (cap : Z) : Prop :=
  0 < pcmFrameSize c <= packetSize c /\ packetSize c <= frameSize c /\ frameSize c <= cap /\
  (pcmFrameSize c | packetSize c) /\ (packetSize c | frameSize c) /\ (frameSize c | cap) /\
  nominalPacketFrames c = packetSize c / pcmFrameSize c /\
  0 < recoverySize c <= targetSize c /\ targetSize c <= cap /\
  0 <= queueCenter c <= cap.

Definition servo_ok (v : Servo) (cap : Z) : Prop :=
  (filterInitialized v = true -> 0 <= filteredQueueQ16 v <= Z.shiftl cap 16) /\
  -10000 <= servoRatePPM v <= 10000.

Definition buffer_ok (b : Buffer) : Prop :=
  config_ok (cfg b) (capacity (ring b)) /\ ring_ok (ring b) /\
  (pcmFrameSize (cfg b) | size (ring b)) /\ servo_ok (servo b) (capacity (ring b)).

Lemma rem_divide a b : 0 < b -> Z.rem a b = 0 -> (b | a).
Proof. intros Hb H. apply Z.rem_divide; lia. Qed.

Lemma New_ok packet pcm frame target maximum b :
  New packet pcm frame target maximum = Some b -> buffer_ok b.
Proof.
  unfold New. destruct (_ || _) eqn:H1; [done|]. case_if; [done|].
  intros [= <-]. bool_prop. unfold buffer_ok, config_ok, ring_ok, servo_ok, capacity; simpl.
  unfold zeros. rewrite length_replicate, Z2Nat.id by nia.
  assert (Hpp : (pcm | packet)) by (by apply rem_divide).
  assert (Hpf : (packet | frame)) by (by apply rem_divide).
  pose proof (Z.divide_pos_le pcm packet ltac:(lia) Hpp). pose proof (Z.divide_pos_le packet frame ltac:(lia) Hpf).
  rewrite (Z.quot_div_nonneg packet), (Z.quot_div_nonneg frame) by lia.
  pose proof (Z.div_pos frame 2 ltac:(lia) ltac:(lia)).
  pose proof (Z.div_le_upper_bound frame 2 frame ltac:(lia) ltac:(lia)).
  unfold recoveryClientFrames.
  split_and!; try done; try nia; try apply Z.divide_0_r.
  apply Z.divide_factor_l.
Qed.

(** The occupancy filter moves towards the observation and never past it. *)
Lemma filter_between q cur : Z.min q cur <= q + Z.shiftr (cur - q) 6 <= Z.max q cur.
Proof. rewrite Z.shiftr_div_pow2 by lia. change (2 ^ 6) with 64. zsolve. Qed.

Lemma servo_rate_bounds c f : -10000 <= servo_rate c f <= 10000.
Proof.
  unfold servo_rate, servoLimitPPM. cbv zeta.
  set (r := if f <? lowRailSize c then _ else _). clearbody r. repeat case_if; lia.
Qed.

Lemma shiftl16_mono a b : a <= b -> Z.shiftl a 16 <= Z.shiftl b 16.
Proof. rewrite !Z.shiftl_mul_pow2 by lia. lia. Qed.

Lemma nextPacketSize_spec c sz v cap v' w :
  config_ok c cap -> servo_ok v cap -> 0 <= sz <= cap -> nextPacketSize c sz v = (v', w) ->
  servo_ok v' cap /\
  servoAccumulator v' = servoAccumulator v + servoRatePPM v' * nominalPacketFrames c /\
  (w = packetSize c - pcmFrameSize c \/ w = packetSize c \/ w = packetSize c + pcmFrameSize c).
Proof.
  intros Hc [Hf _] Hsz. unfold nextPacketSize. intros [= <- <-]. unfold servo_ok. simpl.
  split_and!; [|apply servo_rate_bounds|apply servo_rate_bounds|done|].
  2: { destruct (_ <=? _); [tauto|]. destruct (_ <=? _); tauto. }
  intros _. unfold occupancyFilterShift. destruct Hc as (Hp & _ & _ & _ & _ & _ & _ & _ & _ & Hcen).
  set (q := if filterInitialized v then _ else _).
  assert (Hq : 0 <= q <= Z.shiftl cap 16).
  { subst q. destruct (filterInitialized v); [auto|].
    split; [apply Z.shiftl_nonneg; lia|apply shiftl16_mono; lia]. }
  pose proof (filter_between q (Z.shiftl (Z.max 0 (sz - packetSize c)) 16)) as Hbet.
  assert (0 <= Z.shiftl (Z.max 0 (sz - packetSize c)) 16) by (apply Z.shiftl_nonneg; lia).
  pose proof (shiftl16_mono (Z.max 0 (sz - packetSize c)) cap ltac:(lia)). lia.
Qed.

Lemma commitPacketSize_spec c n v k v' k' cap :
  servo_ok v cap -> 0 < pcmFrameSize c -> commitPacketSize c n v k = (v', k') ->
  servo_ok v' cap /\ servoRatePPM v' = servoRatePPM v /\
  (n = packetSize c - pcmFrameSize c \/ n = packetSize c \/ n = packetSize c + pcmFrameSize c ->
   pcmFrameSize c * (servoAccumulator v' - servoAccumulator v) =
     servoPulseScale * (packetSize c - n)).
Proof.
  intros Hv Hp. unfold commitPacketSize, servoPulseScale. repeat case_if; intros [= <- <-];
    split_and!; try done; simpl; nia.
Qed.

(** ** Abstract queue

    What the buffer promises: a bounded byte queue which drops its oldest bytes
    on overflow and hands out packets of the nominal size give or take one
    sample frame. *)
Inductive op :=
| OpQueue (now : Z) (frame : list Z)
| OpRead (now : Z) (dst : list Z)
| OpZero
| OpReset.

(** One operation of the buffer with the packet it emitted, if any. *)
Definition step (o : op) (b : Buffer) : Buffer * list Z :=
  match o with
  | OpQueue now frame => (fst (QueueFrame now frame b), [])
  | OpRead now dst =>
      let '(b, dst, (n, ok)) := ReadPacket now dst b in
      (b, if ok : bool then take (Z.to_nat n) dst else [])
  | OpZero => (RecordZeroPacket b, [])
  | OpReset => (Reset b, [])
  end.

Definition queue_step (c : Config) (cap : Z) (o : op) (q q' out : list Z) : Prop :=
  match o with
  | OpQueue _ frame =>
      out = [] /\
      (Z.of_nat (length frame) <> frameSize c /\ q' = q \/
       Z.of_nat (length frame) = frameSize c /\
       q' = drop (length q + length frame - Z.to_nat cap) (q ++ frame))
  | OpRead _ _ =>
      q = out ++ q' /\
      (out = [] \/ exists d, -1 <= d <= 1 /\
        Z.of_nat (length out) = packetSize c + d * pcmFrameSize c)
  | OpZero => out = [] /\ q' = q
  | OpReset => out = [] /\ q' = []
  end.

Lemma QueueFrame_spec now frame b :
  buffer_ok b ->
  let '(b', ok) := QueueFrame now frame b in
  buffer_ok b' /\ cfg b' = cfg b /\ capacity (ring b') = capacity (ring b) /\
  servo b' = servo b /\
  (if ok then Z.of_nat (length frame) = frameSize (cfg b) /\
     contents (ring b') = drop (length (contents (ring b)) + length frame -
       Z.to_nat (capacity (ring b))) (contents (ring b) ++ frame)
   else Z.of_nat (length frame) <> frameSize (cfg b) /\ b' = b).
Proof.
  intros (Hc & Hr & Hal & Hv). unfold QueueFrame.
  destruct (Z.eqb_spec (Z.of_nat (length frame)) (frameSize (cfg b))) as [Hf|Hf]; simpl;
    [|unfold buffer_ok; tauto].
  set (ov := size (ring b) + Z.of_nat (length frame) - capacity (ring b)).
  set (r := if 0 <? ov then discard (ring b) ov else ring b).
  assert (Hro : ring_ok r) by (subst r; case_if; auto using discard_ok).
  assert (Hrc : capacity r = capacity (ring b))
    by (subst r; case_if; auto using capacity_discard).
  pose proof Hr as (Hcap & Hhd & Hsz). pose proof Hc as (Hp & Hpf & Hfc & D1 & D2 & D3 & _).
  assert (Hrs : size r = Z.min (size (ring b)) (capacity (ring b) - frameSize (cfg b))).
  { subst r. case_if; [rewrite size_discard|]; subst ov; lia. }
  assert (Hcont : contents r = drop (Z.to_nat (Z.max 0 ov)) (contents (ring b))).
  { subst r. case_if; [rewrite discard_contents by (done || lia); f_equal; lia|].
    by replace (Z.max 0 ov) with 0 by lia. }
  destruct (write_ok r frame Hro ltac:(lia)) as (Hwo & Hwc & Hws).
  unfold buffer_ok; simpl. rewrite Hwc, Hrc.
  split_and!; try done.
  - rewrite Hrs. destruct (Z.min_spec (size (ring b)) (capacity (ring b) - frameSize (cfg b)))
      as [[_ ->]|[_ ->]].
    + apply Z.divide_add_r; [done|]. rewrite Hf. by transitivity (packetSize (cfg b)).
    + rewrite Hf, Z.sub_add. transitivity (frameSize (cfg b)); [|done].
      by transitivity (packetSize (cfg b)).
  - rewrite write_contents by (done || lia). rewrite Hcont, length_contents by done.
    replace (Z.to_nat (size (ring b)) + length frame - Z.to_nat (capacity (ring b)))%nat
      with (Z.to_nat (Z.max 0 ov)) by lia.
    rewrite drop_app_le; [done|]. rewrite length_contents by done. lia.
Qed.

(** The length a read settles on, from the servo's choice and the queue. *)
Definition settled (c : Config) (sz wanted n : Z) : Prop :=
  n <= sz /\
  (n = packetSize c - pcmFrameSize c \/ n = packetSize c \/ n = packetSize c + pcmFrameSize c) /\
  (n = wanted \/ sz < wanted).

Lemma ReadPacket_spec now dst b :
  buffer_ok b ->
  let '(b', dst', (n, ok)) := ReadPacket now dst b in
  buffer_ok b' /\ cfg b' = cfg b /\ capacity (ring b') = capacity (ring b) /\
  if ok then
    primed (priming b) = true /\ priming b' = priming b /\ 0 <= n <= Z.of_nat (length dst) /\
    (n = packetSize (cfg b) - pcmFrameSize (cfg b) \/ n = packetSize (cfg b) \/
     n = packetSize (cfg b) + pcmFrameSize (cfg b)) /\
    dst' = take (Z.to_nat n) dst' ++ drop (Z.to_nat n) dst /\ length dst' = length dst /\
    contents (ring b) = take (Z.to_nat n) dst' ++ contents (ring b') /\
    pcmFrameSize (cfg b) * (servoAccumulator (servo b') - servoAccumulator (servo b) -
        servoRatePPM (servo b') * nominalPacketFrames (cfg b)) =
      servoPulseScale * (packetSize (cfg b) - n)
  else
    n = 0 /\ dst' = dst /\ contents (ring b') = contents (ring b) /\
    (b' = b \/ size (ring b) < packetSize (cfg b) - pcmFrameSize (cfg b) /\
               priming b' = {| primed := false; needsReprime := true |}).
Proof.
  intros Hok. pose proof Hok as (Hc & Hr & Hal & Hv). unfold ReadPacket.
  destruct (Z.ltb_spec (Z.of_nat (length dst)) (packetSize (cfg b) + pcmFrameSize (cfg b)));
    [tauto|].
  destruct (primed (priming b)) eqn:Hpr; cbn [negb]; [|tauto].
  destruct (nextPacketSize (cfg b) (size (ring b)) (servo b)) as [v w] eqn:Hnext.
  pose proof Hr as (Hcap & Hhd & Hsz). pose proof Hc as (Hp & Hpf & Hfc & D1 & D2 & D3 & _).
  apply (nextPacketSize_spec _ _ _ (capacity (ring b))) in Hnext as (Hv' & Hacc & Hw);
    [|done..].
  match goal with |- context [match ?x with Some _ => _ | None => _ end] =>
    destruct x as [n|] eqn:Hn end.
  - assert (Hset : settled (cfg b) (size (ring b)) w n).
    { unfold settled. repeat (case_if_in Hn); simplify_eq; lia. }
    destruct Hset as (Hns & Hn3 & _). clear Hn.
    destruct (commitPacketSize (cfg b) n v (counters b)) as [v2 k2] eqn:Hcom.
    apply (commitPacketSize_spec _ _ _ _ _ _ (capacity (ring b))) in Hcom as (Hv2 & Hrate & Hacc2);
      [|done|lia].
    assert (Hlen : length (take (Z.to_nat n) dst) = Z.to_nat n) by (rewrite length_take; lia).
    assert (0 <= n) by lia. specialize (Hacc2 Hn3).
    rewrite read_contents by (done || lia). rewrite Hlen, Z2Nat.id by lia.
    assert (Hlt : length (take (Z.to_nat n) (contents (ring b))) = Z.to_nat n)
      by (rewrite length_take, length_contents by done; lia).
    unfold buffer_ok; simpl. rewrite capacity_discard, size_discard by lia.
    rewrite discard_contents by (done || lia).
    rewrite (take_app_length' _ _ (Z.to_nat n)) by done.
    split_and!; try done; try lia.
    + by apply discard_ok.
    + apply Z.divide_sub_r; [done|].
      destruct Hn3 as [-> | [-> | ->]]; auto using Z.divide_sub_r, Z.divide_add_r, Z.divide_refl.
    + rewrite length_app, length_drop, Hlt. lia.
    + by rewrite take_drop.
  - assert (Hsmall : size (ring b) < packetSize (cfg b) - pcmFrameSize (cfg b)).
    { repeat (case_if_in Hn); simplify_eq; lia. }
    assert (Hrem : Z.rem (size (ring b)) (pcmFrameSize (cfg b)) = 0)
      by (apply Z.rem_divide; [lia|done]).
    unfold buffer_ok, ring_ok; simpl. rewrite Hrem, Z.sub_0_r. unfold capacity in *; simpl.
    split_and!; try done; try (case_if; lia); try lia.
    + unfold contents; simpl. case_if; [|done]. by rewrite Hb.
    + by right.
Qed.

Lemma Reset_spec b :
  buffer_ok b -> buffer_ok (Reset b) /\ cfg (Reset b) = cfg b /\
  capacity (ring (Reset b)) = capacity (ring b) /\ contents (ring (Reset b)) = [].
Proof.
  intros (Hc & (Hcap & _) & _ & _). unfold buffer_ok, ring_ok, servo_ok, Reset, contents,
    capacity in *; simpl. split_and!; try done; try lia. apply Z.divide_0_r.
Qed.

(** Every operation of the buffer keeps its invariant and is a step of the
    abstract queue over the queued bytes. *)
Lemma step_refines o b :
  buffer_ok b ->
  let '(b', out) := step o b in
  buffer_ok b' /\ cfg b' = cfg b /\ capacity (ring b') = capacity (ring b) /\
  queue_step (cfg b) (capacity (ring b)) o (contents (ring b)) (contents (ring b')) out.
Proof.
  intros Hok. destruct o as [now frame|now dst| |]; cbn [step queue_step].
  - pose proof (QueueFrame_spec now frame b Hok) as H. destruct (QueueFrame now frame b) as [b' ok].
    destruct H as (? & ? & ? & _ & H). cbn [fst]. split_and!; try done.
    destruct ok; [by right|left]. by destruct H as [? ->].
  - pose proof (ReadPacket_spec now dst b Hok) as H.
    destruct (ReadPacket now dst b) as [[b' dst'] [n ok]]. destruct H as (? & ? & ? & H).
    split_and!; try done.
    + destruct ok; [by destruct H as (_ & _ & _ & _ & _ & _ & ? & _)|].
      by destruct H as (_ & _ & -> & _).
    + destruct ok; [right|by left].
      destruct H as (_ & _ & ? & Hn & _ & Hl & _ & _).
      assert (Z.of_nat (length (take (Z.to_nat n) dst')) = n) as ->.
      { rewrite length_take. lia. }
      destruct Hn as [-> | [-> | ->]]; [exists (-1)|exists 0|exists 1]; lia.
  - by destruct Hok.
  - destruct (Reset_spec b Hok) as (? & ? & ? & ->). by split_and!.
Qed.

(** A run of operations with the packets it emitted. *)
Fixpoint run (ops : list op) (b : Buffer) : Buffer * list (list Z) :=
  match ops with
  | [] => (b, [])
  | o :: ops => let '(b, out) := step o b in
                let '(b, outs) := run ops b in (b, out :: outs)
  end.

Inductive queue_run (c : Config) (cap : Z) : list op -> list Z -> list (list Z) -> list Z -> Prop :=
| queue_run_nil q : queue_run c cap [] q [] q
| queue_run_cons o ops q q1 q2 out outs :
    queue_step c cap o q q1 out -> queue_run c cap ops q1 outs q2 ->
    queue_run c cap (o :: ops) q (out :: outs) q2.

Lemma run_refines ops b :
  buffer_ok b ->
  let '(b', outs) := run ops b in
  buffer_ok b' /\ cfg b' = cfg b /\ capacity (ring b') = capacity (ring b) /\
  queue_run (cfg b) (capacity (ring b)) ops (contents (ring b)) outs (contents (ring b')).
Proof.
  revert b. induction ops as [|o ops IH]; intros b Hok; simpl.
  - split_and!; try done. constructor.
  - pose proof (step_refines o b Hok) as H. destruct (step o b) as [b1 out].
    destruct H as (Hok1 & Hc1 & Hcap1 & Hs1). specialize (IH b1 Hok1).
    destruct (run ops b1) as [b2 outs]. destruct IH as (? & ? & ? & IH).
    rewrite Hc1, Hcap1 in *. split_and!; try done. by econstructor.
Qed.

(** C33: a buffer created by New behaves, over any sequence of operations, as
    an initially empty byte queue of its capacity which drops its oldest bytes
    on overflow: every packet handed to the endpoint is the head of the queue,
    of the nominal length give or take one sample frame, and the array with its
    head and size stays in range throughout. *)
Theorem buffer_refines_queue packet pcm frame target maximum b ops :
  New packet pcm frame target maximum = Some b ->
  let '(b', outs) := run ops b in
  ring_ok (ring b') /\ capacity (ring b') = frame * maximum /\
  queue_run (cfg b) (frame * maximum) ops [] outs (contents (ring b')).
Proof.
  intros Hnew. pose proof (New_ok _ _ _ _ _ _ Hnew) as Hok.
  assert (Hinit : contents (ring b) = [] /\ capacity (ring b) = frame * maximum).
  { revert Hnew. unfold New. destruct (_ || _) eqn:H1; [done|]. case_if; [done|].
    bool_prop. intros [= <-]. split; [done|]. unfold capacity, zeros; simpl.
    rewrite length_replicate. nia. }
  destruct Hinit as [Hnil Hcap]. pose proof (run_refines ops b Hok) as H.
  destruct (run ops b) as [b' outs]. destruct H as (Hok' & _ & Hcap' & Hrun).
  rewrite Hnil, Hcap in *. split_and!; [apply Hok'|done|done].
Qed.

(** A small instance: four-byte packets of two-byte sample frames, eight-byte
    client frames, two to prime and three at most. *)
Definition demo_ops_seq : list op :=
  [OpQueue 0 [1;2;3;4;5;6;7;8]; OpQueue 10 [9;10;11;12;13;14;15;16];
   OpRead 11 (zeros 6); OpQueue 20 [17;18;19;20;21;22;23;24];
   OpQueue 30 [25;26;27;28;29;30;31;32]; OpRead 31 (zeros 6); OpReset; OpRead 32 (zeros 6)].

Lemma buffer_refines_queue_witness :
  exists b, New 4 2 8 2 3 = Some b /\
    let '(b', outs) := run demo_ops_seq b in
    ring_ok (ring b') /\ outs = [[]; []; [1;2;3;4]; []; []; [9;10;11;12]; []; []].
Proof.
  eexists. split; [reflexivity|].
  match goal with |- let '(_, _) := run _ ?b in _ =>
    pose proof (buffer_refines_queue 4 2 8 2 3 b demo_ops_seq eq_refl) as H end.
  destruct (run _ _) as [b' outs] eqn:E. destruct H as (H & _ & _). split; [exact H|].
  vm_compute in E. congruence.
Defined.

(** ** Order and accounting *)

Definition accepted (c : Config) (o : op) : list Z :=
  match o with
  | OpQueue _ frame => if Z.of_nat (length frame) =? frameSize c then frame else []
  | _ => []
  end.

Lemma queue_step_sublist c cap o q q' out :
  queue_step c cap o q q' out -> sublist (out ++ q') (q ++ accepted c o).
Proof.
  destruct o as [now frame|now dst| |]; simpl; rewrite ?app_nil_r.
  - intros [-> [[Hne ->]|[Heq ->]]]; simpl.
    + rewrite (proj2 (Z.eqb_neq _ _) Hne), app_nil_r. done.
    + rewrite (proj2 (Z.eqb_eq _ _) Heq). apply sublist_drop.
  - by intros [-> _].
  - by intros [-> ->].
  - intros [-> ->]. apply sublist_nil_l.
Qed.

Lemma queue_run_sublist c cap ops q outs q' :
  queue_run c cap ops q outs q' ->
  sublist (concat outs ++ q') (q ++ concat (map (accepted c) ops)).
Proof.
  induction 1 as [q|o ops q q1 q2 out outs Hs Hr IH]; simpl; [by rewrite app_nil_r|].
  rewrite <- app_assoc. transitivity (out ++ q1 ++ concat (map (accepted c) ops)).
  - by apply sublist_app.
  - rewrite !app_assoc. apply sublist_app; [|done]. by eapply queue_step_sublist.
Qed.

(** Over any run the packets sent to the host, followed by what is
    still queued, form a subsequence of the frames accepted from the client:
    audio is dropped by overflow and Reset but never duplicated, reordered or
    invented. *)
Theorem packets_in_order packet pcm frame target maximum b ops :
  New packet pcm frame target maximum = Some b ->
  let '(b', outs) := run ops b in
  sublist (concat outs ++ contents (ring b')) (concat (map (accepted (cfg b)) ops)).
Proof.
  intros Hnew. pose proof (New_ok _ _ _ _ _ _ Hnew) as Hok.
  pose proof (run_refines ops b Hok) as H. destruct (run ops b) as [b' outs].
  destruct H as (_ & _ & _ & Hrun%queue_run_sublist).
  enough (contents (ring b) = []) as E by (by rewrite E in Hrun).
  revert Hnew. unfold New. destruct (_ || _); [done|]. case_if; [done|]. by intros [= <-].
Qed.

Lemma packets_in_order_witness :
  exists b, New 4 2 8 2 3 = Some b /\
    sublist (concat (snd (run demo_ops_seq b))) (concat (map (accepted (cfg b)) demo_ops_seq)).
Proof.
  eexists. split; [reflexivity|].
  match goal with |- sublist (concat (snd (run _ ?b))) _ =>
    pose proof (packets_in_order 4 2 8 2 3 b demo_ops_seq eq_refl) as H end.
  destruct (run _ _) as [b' outs]. simpl. etransitivity; [|exact H].
  apply (sublist_inserts_r (contents (ring b'))). reflexivity.
Defined.

(** A read succeeds exactly when the destination holds the largest
    packet, the buffer is primed and at least the short packet is queued; a
    primed read below that is an underrun which keeps every queued byte, stops
    capture and arms the smaller recovery threshold; any other failure changes
    nothing.  A failed read never touches the destination. *)
Theorem read_succeeds_iff now dst b :
  buffer_ok b ->
  let '(b', dst', (n, ok)) := ReadPacket now dst b in
  let room := packetSize (cfg b) + pcmFrameSize (cfg b) <= Z.of_nat (length dst) in
  let short := packetSize (cfg b) - pcmFrameSize (cfg b) in
  (ok = true <-> room /\ primed (priming b) = true /\ short <= size (ring b)) /\
  (ok = false -> dst' = dst /\ n = 0 /\ contents (ring b') = contents (ring b)) /\
  (room /\ primed (priming b) = true /\ size (ring b) < short ->
     priming b' = {| primed := false; needsReprime := true |} /\
     underruns (counters b') = u64 (underruns (counters b) + 1)) /\
  (~ room \/ primed (priming b) = false -> b' = b).
Proof.
  intros Hok. pose proof (ReadPacket_spec now dst b Hok) as H. revert H.
  pose proof Hok as (Hc & (_ & _ & Hsz) & _ & Hv). pose proof Hc as (Hp & _).
  unfold ReadPacket.
  destruct (Z.ltb_spec (Z.of_nat (length dst)) (packetSize (cfg b) + pcmFrameSize (cfg b))).
  { intros _. split_and!; try done; [split; [done|lia]|lia]. }
  destruct (primed (priming b)) eqn:Hpr; cbn [negb].
  2: { intros _. split_and!; try done; [split; [done|]; by intros (_ & ? & _)|].
       by intros (_ & ? & _). }
  destruct (nextPacketSize (cfg b) (size (ring b)) (servo b)) as [v w] eqn:Hnext.
  apply (nextPacketSize_spec _ _ _ (capacity (ring b))) in Hnext as (_ & _ & Hw); [|done..].
  match goal with |- context [match ?x with Some _ => _ | None => _ end] =>
    destruct x as [m|] eqn:Hn end.
  - assert (packetSize (cfg b) - pcmFrameSize (cfg b) <= size (ring b)).
    { repeat (case_if_in Hn); simplify_eq; lia. }
    destruct (commitPacketSize _ _ _ _), (read _ _). intros _.
    split_and!; [split; [intros _; split_and!; done || lia|done]|done|lia|].
    intros [?|?]; [lia|done].
  - assert (size (ring b) < packetSize (cfg b) - pcmFrameSize (cfg b)).
    { repeat (case_if_in Hn); simplify_eq; lia. }
    intros (_ & _ & _ & _ & _ & Hcont & _). split_and!; [split; [done|lia]|done|done|].
    intros [?|?]; [lia|done].
Qed.

Lemma read_succeeds_iff_witness :
  exists b, New 4 2 8 2 3 = Some b /\
    let b1 := fst (run [OpQueue 0 [1;2;3;4;5;6;7;8]; OpQueue 10 [9;10;11;12;13;14;15;16]] b) in
    let '(_, dst, (n, ok)) := ReadPacket 11 (zeros 6) b1 in
    ok = true /\ dst = [1;2;3;4;0;0].
Proof.
  eexists. split; [reflexivity|]. cbv zeta.
  match goal with |- context [ReadPacket _ _ (fst (run ?ops ?b))] =>
    pose proof (run_refines ops b (New_ok 4 2 8 2 3 b eq_refl)) as Hok;
    set (b1 := fst (run ops b)); assert (Hb1 : buffer_ok b1)
      by (subst b1; destruct (run ops b); apply Hok)
  end.
  pose proof (read_succeeds_iff 11 (zeros 6) b1 Hb1) as H.
  destruct (ReadPacket 11 (zeros 6) b1) as [[b' dst] [n ok]] eqn:E.
  destruct H as (Hiff & _). split.
  - apply Hiff. vm_compute. split_and!; congruence.
  - vm_compute in E. congruence.
Defined.

(** Each packet sent settles the clock servo's account exactly: the
    accumulator grows by the correction rate (never beyond one percent) times
    the nominal frame count, less one million per sample frame sent above
    nominal, so corrections the queue could not serve stay owed. *)
Theorem servo_accounts_every_packet now dst b :
  buffer_ok b ->
  let '(b', _, (n, ok)) := ReadPacket now dst b in
  ok = true ->
  exists d, -1 <= d <= 1 /\ n = packetSize (cfg b) + d * pcmFrameSize (cfg b) /\
    servoAccumulator (servo b') = servoAccumulator (servo b) +
      servoRatePPM (servo b') * nominalPacketFrames (cfg b) - 1000000 * d /\
    -10000 <= servoRatePPM (servo b') <= 10000.
Proof.
  intros Hok. pose proof (ReadPacket_spec now dst b Hok) as H.
  destruct (ReadPacket now dst b) as [[b' dst'] [n ok]]. intros ->.
  destruct H as (Hok' & _ & _ & _ & _ & _ & Hn & _ & _ & _ & Hacc).
  destruct Hok' as (_ & _ & _ & _ & Hrate). destruct Hok as ((Hp & _) & _).
  unfold servoPulseScale in Hacc.
  assert (exists d, -1 <= d <= 1 /\ n = packetSize (cfg b) + d * pcmFrameSize (cfg b))
    as (d & Hd & ->).
  { destruct Hn as [-> | [-> | ->]]; [exists (-1)|exists 0|exists 1]; lia. }
  exists d. split_and!; try done; try lia. nia.
Qed.

Lemma servo_accounts_every_packet_witness :
  exists b, New 4 2 8 2 3 = Some b /\
    let b1 := fst (run [OpQueue 0 [1;2;3;4;5;6;7;8]; OpQueue 10 [9;10;11;12;13;14;15;16]] b) in
    let '(b', _, _) := ReadPacket 11 (zeros 6) b1 in
    -10000 <= servoRatePPM (servo b') <= 10000.
Proof.
  eexists. split; [reflexivity|]. cbv zeta.
  match goal with |- context [ReadPacket _ _ (fst (run ?ops ?b))] =>
    pose proof (run_refines ops b (New_ok 4 2 8 2 3 b eq_refl)) as Hok;
    set (b1 := fst (run ops b)); assert (Hb1 : buffer_ok b1)
      by (subst b1; destruct (run ops b); apply Hok)
  end.
  pose proof (servo_accounts_every_packet 11 (zeros 6) b1 Hb1) as H.
  destruct (ReadPacket 11 (zeros 6) b1) as [[b' dst] [n ok]] eqn:E.
  assert (ok = true) as Ht by (vm_compute in E; congruence).
  destruct (H Ht) as (_ & _ & _ & _ & Hr). exact Hr.
Defined.
