(* ===== verification/Feedback.v ===== *)
(** * Canonical controller feedback (src/controllerfeedback/frame.go, mailbox.go)

    The CFBK v1 frame with its validation, freshness and 72-byte wire form, and
    the single-consumer mailbox that orders frames and turns every published
    revision into deliveries and releases. *)

From Stdlib Require Import Sorted.
From S2P Require Import Prelude Bytes.

(** ** Frames *)

Definition Version1 : Z := 1.
Definition FrameSize : Z := 72.
Definition MaxFutureSkewMicroseconds : Z := 5000.
Definition MaxTimeToLiveMicroseconds : Z := 250000.
Definition wireMagic : Z := 0x4B424643.

Definition SourceXboxOneVirtualDevice : Z := 1.
Definition SourceDualShock4VirtualDevice : Z := 6.
Definition Source_Valid (source : Z) : bool :=
  (SourceXboxOneVirtualDevice <=? source) && (source <=? SourceDualShock4VirtualDevice).

Definition CommandApply : Z := 1.
Definition CommandNeutral : Z := 2.
Definition CommandStop : Z := 3.
Definition Command_Valid (command : Z) : bool :=
  (CommandApply <=? command) && (command <=? CommandStop).

Definition ActuatorBodyLow : Z := 0x01.
Definition ActuatorBodyHigh : Z := 0x02.
Definition ActuatorLeftTrigger : Z := 0x04.
Definition ActuatorRightTrigger : Z := 0x08.
Definition ActuatorAll : Z := 0x0F.
Definition ActuatorMask_Valid (mask : Z) : bool := mask =? ActuatorAll.

Inductive frame_error :=
| ErrInvalidSize
| ErrInvalidMagic
| ErrInvalidVersion
| ErrReservedNonZero
| ErrInvalidSource
| ErrInvalidCommand
| ErrInvalidActuators
| ErrInvalidAmplitude
| ErrInvalidSequence
| ErrInvalidGeneration
| ErrInvalidTTL
| ErrNilFrame.

Record Frame := {
  Version : Z;
  Source : Z;
  Command : Z;
  Actuators : Z;
  BodyLow : Z;
  BodyHigh : Z;
  LeftTrigger : Z;
  RightTrigger : Z;
  Sequence : Z;
  DeviceGeneration : Z;
  TransportGeneration : Z;
  OwnershipEpoch : Z;
  TimestampMicroseconds : Z;
  TimeToLiveMicroseconds : Z;
}.

(** The widths of the struct's fields. *)
Definition Frame_typed (f : Frame) : Prop :=
  U16 (Version f) /\ U8 (Source f) /\ U8 (Command f) /\ U8 (Actuators f) /\
  U16 (BodyLow f) /\ U16 (BodyHigh f) /\ U16 (LeftTrigger f) /\ U16 (RightTrigger f) /\
  U64 (Sequence f) /\ U64 (DeviceGeneration f) /\ U64 (TransportGeneration f) /\
  U64 (OwnershipEpoch f) /\ U64 (TimestampMicroseconds f) /\ U64 (TimeToLiveMicroseconds f).

#[export] Instance Frame_eq_dec : EqDecision Frame.
Proof. solve_decision. Defined.
#[export] Instance Frame_typed_dec f : Decision (Frame_typed f).
Proof. unfold Frame_typed. apply _. Defined.

Definition Frame_zero : Frame := {|
  Version := 0; Source := 0; Command := 0; Actuators := 0; BodyLow := 0; BodyHigh := 0;
  LeftTrigger := 0; RightTrigger := 0; Sequence := 0; DeviceGeneration := 0;
  TransportGeneration := 0; OwnershipEpoch := 0; TimestampMicroseconds := 0;
  TimeToLiveMicroseconds := 0 |}.

(** Validate; [None] is a nil error. *)
Definition Validate (f : Frame) : option frame_error :=
  if negb (Version f =? Version1) then Some ErrInvalidVersion
  else if negb (Source_Valid (Source f)) then Some ErrInvalidSource
  else if negb (Command_Valid (Command f)) then Some ErrInvalidCommand
  else if negb (ActuatorMask_Valid (Actuators f)) then Some ErrInvalidActuators
  else if Sequence f =? 0 then Some ErrInvalidSequence
  else if (DeviceGeneration f =? 0) || (TransportGeneration f =? 0) || (OwnershipEpoch f =? 0)
    then Some ErrInvalidGeneration
  else if (TimeToLiveMicroseconds f =? 0) ||
          (MaxTimeToLiveMicroseconds <? TimeToLiveMicroseconds f) then Some ErrInvalidTTL
  else if (Z.land (Actuators f) ActuatorBodyLow =? 0) && negb (BodyLow f =? 0) ||
          (Z.land (Actuators f) ActuatorBodyHigh =? 0) && negb (BodyHigh f =? 0) ||
          (Z.land (Actuators f) ActuatorLeftTrigger =? 0) && negb (LeftTrigger f =? 0) ||
          (Z.land (Actuators f) ActuatorRightTrigger =? 0) && negb (RightTrigger f =? 0)
    then Some ErrInvalidAmplitude
  else
    let hasAmplitude := negb (BodyLow f =? 0) || negb (BodyHigh f =? 0) ||
      negb (LeftTrigger f =? 0) || negb (RightTrigger f =? 0) in
    if Command f =? CommandApply then
      if negb hasAmplitude then Some ErrInvalidAmplitude else None
    else if hasAmplitude then Some ErrInvalidAmplitude
    else None.

Definition Valid (f : Frame) : bool :=
  match Validate f with None => true | Some _ => false end.

Definition IsNeutral (f : Frame) : bool := Command f =? CommandNeutral.
Definition IsStop (f : Frame) : bool := Command f =? CommandStop.

(** The subtractions are guarded, so they do not wrap. *)
Definition FreshAt (f : Frame) (now : Z) : bool :=
  if now <? TimestampMicroseconds f then
    u64 (TimestampMicroseconds f - now) <=? MaxFutureSkewMicroseconds
  else u64 (now - TimestampMicroseconds f) <? TimeToLiveMicroseconds f.

Definition ExpiredAt (f : Frame) (now : Z) : bool := negb (FreshAt f now).

(** MarshalTo: the destination afterwards, and the error. *)
Definition MarshalTo (f : Frame) (dst : list Z) : list Z * option frame_error :=
  if Z.of_nat (length dst) <? FrameSize then (dst, Some ErrInvalidSize)
  else match Validate f with
  | Some err => (dst, Some err)
  | None =>
      let b := zeros 72 in
      let b := put_at 0 (le_bytes 4 wireMagic) b in
      let b := put_at 4 (le_bytes 2 (Version f)) b in
      let b := put_at 6 (le_bytes 2 FrameSize) b in
      let b := put_at 8 [Source f] b in
      let b := put_at 9 [Command f] b in
      let b := put_at 10 [Actuators f] b in
      let b := put_at 12 (le_bytes 2 (BodyLow f)) b in
      let b := put_at 14 (le_bytes 2 (BodyHigh f)) b in
      let b := put_at 16 (le_bytes 2 (LeftTrigger f)) b in
      let b := put_at 18 (le_bytes 2 (RightTrigger f)) b in
      let b := put_at 24 (le_bytes 8 (Sequence f)) b in
      let b := put_at 32 (le_bytes 8 (DeviceGeneration f)) b in
      let b := put_at 40 (le_bytes 8 (TransportGeneration f)) b in
      let b := put_at 48 (le_bytes 8 (OwnershipEpoch f)) b in
      let b := put_at 56 (le_bytes 8 (TimestampMicroseconds f)) b in
      let b := put_at 64 (le_bytes 8 (TimeToLiveMicroseconds f)) b in
      (b ++ drop 72 dst, None)
  end.

(** UnmarshalFrom: the receiver afterwards ([None] is a nil receiver), and the
    error. *)
Definition UnmarshalFrom (receiver : option Frame) (src : list Z) :
    option Frame * option frame_error :=
  match receiver with
  | None => (None, Some ErrNilFrame)
  | Some _ =>
      if negb (Z.of_nat (length src) =? FrameSize) then (Some Frame_zero, Some ErrInvalidSize)
      else if negb (le_val (slice 0 4 src) =? wireMagic) then (Some Frame_zero, Some ErrInvalidMagic)
      else if negb (le_val (slice 4 6 src) =? Version1) then (Some Frame_zero, Some ErrInvalidVersion)
      else if negb (le_val (slice 6 8 src) =? FrameSize) then (Some Frame_zero, Some ErrInvalidSize)
      else if negb (byte_at src 11 =? 0) || negb (byte_at src 20 =? 0) ||
              negb (byte_at src 21 =? 0) || negb (byte_at src 22 =? 0) ||
              negb (byte_at src 23 =? 0) then (Some Frame_zero, Some ErrReservedNonZero)
      else
        let candidate := {|
          Version := Version1;
          Source := byte_at src 8;
          Command := byte_at src 9;
          Actuators := byte_at src 10;
          BodyLow := le_val (slice 12 14 src);
          BodyHigh := le_val (slice 14 16 src);
          LeftTrigger := le_val (slice 16 18 src);
          RightTrigger := le_val (slice 18 20 src);
          Sequence := le_val (slice 24 32 src);
          DeviceGeneration := le_val (slice 32 40 src);
          TransportGeneration := le_val (slice 40 48 src);
          OwnershipEpoch := le_val (slice 48 56 src);
          TimestampMicroseconds := le_val (slice 56 64 src);
          TimeToLiveMicroseconds := le_val (slice 64 72 src) |} in
        match Validate candidate with
        | Some err => (Some Frame_zero, Some err)
        | None => (Some candidate, None)
        end
  end.

(** ** Mailbox *)

Record Mailbox := { latest : Frame; revision : Z; hasValue : bool }.

Inductive ClaimDisposition := ClaimNone | ClaimFrame | ClaimRelease.

#[export] Instance ClaimDisposition_eq_dec : EqDecision ClaimDisposition.
Proof. solve_decision. Defined.

(** [ownerMailbox] and [self] are pointers: identities of the mailbox and of
    the cursor, [None] for nil. *)
Record ClaimCursor := {
  AppliedRevision : Z;
  ReleasedRevision : Z;
  nextToken : Z;
  inFlightToken : Z;
  inFlightRevision : Z;
  inFlightDisposition : ClaimDisposition;
  inFlightCompletesRelease : bool;
  ownerMailbox : option Z;
  self : option Z;
}.

Definition Mailbox_zero : Mailbox := {| latest := Frame_zero; revision := 0; hasValue := false |}.
Definition ClaimCursor_zero : ClaimCursor := {|
  AppliedRevision := 0; ReleasedRevision := 0; nextToken := 0; inFlightToken := 0;
  inFlightRevision := 0; inFlightDisposition := ClaimNone; inFlightCompletesRelease := false;
  ownerMailbox := None; self := None |}.

Definition newer (candidate current : Frame) : bool :=
  if negb (DeviceGeneration candidate =? DeviceGeneration current) then
    DeviceGeneration current <? DeviceGeneration candidate
  else if negb (TransportGeneration candidate =? TransportGeneration current) then
    TransportGeneration current <? TransportGeneration candidate
  else if negb (OwnershipEpoch candidate =? OwnershipEpoch current) then
    OwnershipEpoch current <? OwnershipEpoch candidate
  else negb (Command current =? CommandStop) && (Source candidate =? Source current) &&
       (Sequence current <? Sequence candidate).

(** [revision++] that skips zero. *)
Definition bump (v : Z) : Z := if u64 (v + 1) =? 0 then 1 else u64 (v + 1).

Definition Publish (m : Mailbox) (f : Frame) : Mailbox * bool :=
  if negb (Valid f) then (m, false)
  else if hasValue m && negb (newer f (latest m)) then (m, false)
  else ({| latest := f; revision := bump (revision m); hasValue := true |}, true).

Definition ReadLatest (m : Mailbox) : Frame * Z * bool := (latest m, revision m, hasValue m).

Definition ReadFresh (m : Mailbox) (now : Z) : Frame * Z * bool :=
  if negb (hasValue m) || ExpiredAt (latest m) now then (Frame_zero, revision m, false)
  else (latest m, revision m, true).

Definition beginClaim (c : ClaimCursor) (rev : Z) (d : ClaimDisposition) (rel : bool) :
    ClaimCursor * Z :=
  let token := bump (nextToken c) in
  ({| AppliedRevision := AppliedRevision c; ReleasedRevision := ReleasedRevision c;
      nextToken := token; inFlightToken := token; inFlightRevision := rev;
      inFlightDisposition := d; inFlightCompletesRelease := rel;
      ownerMailbox := ownerMailbox c; self := self c |}, token).

Definition bind_cursor (c : ClaimCursor) (mid cid : Z) : ClaimCursor := {|
  AppliedRevision := AppliedRevision c; ReleasedRevision := ReleasedRevision c;
  nextToken := nextToken c; inFlightToken := inFlightToken c;
  inFlightRevision := inFlightRevision c; inFlightDisposition := inFlightDisposition c;
  inFlightCompletesRelease := inFlightCompletesRelease c;
  ownerMailbox := Some mid; self := Some cid |}.

(** Claim on mailbox [mid] with the cursor at address [cid]. *)
Definition Claim (m : Mailbox) (mid : Z) (now : Z) (c : ClaimCursor) (cid : Z) :
    ClaimCursor * (Frame * ClaimDisposition * Z) :=
  let none := (Frame_zero, ClaimNone, 0) in
  let foreign := match self c with
    | None => false
    | Some _ => negb (bool_decide (self c = Some cid)) ||
                negb (bool_decide (ownerMailbox c = Some mid))
    end in
  if foreign then (c, none)
  else
    let c := match self c with None => bind_cursor c mid cid | Some _ => c end in
    if negb (hasValue m) || negb (inFlightToken c =? 0) then (c, none)
    else if FreshAt (latest m) now then
      if AppliedRevision c =? revision m then (c, none)
      else let '(c, token) := beginClaim c (revision m) ClaimFrame
                                (Command (latest m) =? CommandStop) in
           (c, (latest m, ClaimFrame, token))
    else if ReleasedRevision c =? revision m then (c, none)
    else let '(c, token) := beginClaim c (revision m) ClaimRelease true in
         (c, (Frame_zero, ClaimRelease, token)).

(** The guard CanDeliver and Complete share. *)
Definition claim_matches (mid cid : Z) (c : ClaimCursor) (token : Z) : bool :=
  negb (token =? 0) && bool_decide (self c = Some cid) && (inFlightToken c =? token) &&
  bool_decide (ownerMailbox c = Some mid) &&
  (bool_decide (inFlightDisposition c = ClaimFrame) ||
   bool_decide (inFlightDisposition c = ClaimRelease)).

Definition CanDeliver (m : Mailbox) (mid : Z) (c : ClaimCursor) (cid token now : Z) : bool :=
  if negb (claim_matches mid cid c token) then false
  else if negb (hasValue m) || negb (revision m =? inFlightRevision c) then false
  else if bool_decide (inFlightDisposition c = ClaimFrame) then FreshAt (latest m) now
  else ExpiredAt (latest m) now.

Definition Complete (mid : Z) (c : ClaimCursor) (cid token : Z) (delivered : bool) :
    ClaimCursor * bool :=
  if negb (claim_matches mid cid c token) then (c, false)
  else
    ({| AppliedRevision := if delivered then inFlightRevision c else AppliedRevision c;
        ReleasedRevision := if delivered && inFlightCompletesRelease c
                            then inFlightRevision c else ReleasedRevision c;
        nextToken := nextToken c; inFlightToken := 0; inFlightRevision := 0;
        inFlightDisposition := ClaimNone; inFlightCompletesRelease := false;
        ownerMailbox := ownerMailbox c; self := self c |}, true).

(** ** Wire form *)

(** The encoding of a valid frame, field after field. *)
Definition frame_bytes (f : Frame) : list Z :=
  le_bytes 4 wireMagic ++ le_bytes 2 (Version f) ++ le_bytes 2 FrameSize ++
  [Source f; Command f; Actuators f; 0] ++
  le_bytes 2 (BodyLow f) ++ le_bytes 2 (BodyHigh f) ++
  le_bytes 2 (LeftTrigger f) ++ le_bytes 2 (RightTrigger f) ++ [0; 0; 0; 0] ++
  le_bytes 8 (Sequence f) ++ le_bytes 8 (DeviceGeneration f) ++
  le_bytes 8 (TransportGeneration f) ++ le_bytes 8 (OwnershipEpoch f) ++
  le_bytes 8 (TimestampMicroseconds f) ++ le_bytes 8 (TimeToLiveMicroseconds f).

Lemma length_frame_bytes f : length (frame_bytes f) = 72%nat.
Proof. unfold frame_bytes. by autorewrite with len. Qed.

Lemma MarshalTo_bytes f dst :
  (72 <= length dst)%nat -> Validate f = None ->
  MarshalTo f dst = (frame_bytes f ++ drop 72 dst, None).
Proof.
  intros Hlen Hv. unfold MarshalTo, FrameSize. rewrite Hv.
  by rewrite (proj2 (Z.ltb_ge _ _)) by lia.
Qed.

Lemma Validate_version f : Validate f = None -> Version f = Version1.
Proof. unfold Validate. destruct (Z.eqb_spec (Version f) Version1); done. Qed.

Lemma UnmarshalFrom_bytes f r :
  Frame_typed f -> Validate f = None -> UnmarshalFrom (Some r) (frame_bytes f) = (Some f, None).
Proof.
  intros Ht Hv. unfold UnmarshalFrom. rewrite length_frame_bytes.
  pose proof (Validate_version f Hv) as Hver. unfold frame_bytes. explode_bytes.
  cbn -[le_val Validate]. unfold slice. cbn -[le_val Validate]. implode_bytes.
  unfold Frame_typed in Ht. rewrite !le_val_small by (unfold wireMagic, FrameSize; cbn; lia).
  rewrite Hver. simpl. destruct f; cbn [Version] in Hver; subst; simpl. by rewrite Hv.
Qed.

Lemma Validate_zero : Validate Frame_zero = Some ErrInvalidVersion.
Proof. done. Qed.

(** Whatever UnmarshalFrom accepts is the encoding of the frame it returns. *)
Lemma UnmarshalFrom_accepts r src f :
  bytes_ok src -> UnmarshalFrom (Some r) src = (Some f, None) ->
  Frame_typed f /\ Validate f = None /\ frame_bytes f = src.
Proof.
  intros Hok H. unfold UnmarshalFrom in H.
  repeat (case_if_in H; [done|]). bool_prop.
  match type of H with match ?v with _ => _ end = _ => destruct v eqn:Hv; [done|] end.
  simplify_eq. unfold FrameSize in *. assert (Hlen : length src = 72%nat) by lia.
  assert (Hbyte := byte_at_ok src). assert (Hr := le_val_slice_range).
  split_and!; [|done|].
  - unfold Frame_typed, Version1; cbn [Version Source Command Actuators BodyLow BodyHigh
      LeftTrigger RightTrigger Sequence DeviceGeneration TransportGeneration OwnershipEpoch
      TimestampMicroseconds TimeToLiveMicroseconds].
    split_and!; try lia;
      match goal with
      | |- context [byte_at src ?i] => specialize (Hbyte i Hok); lia
      | |- context [slice ?i ?j src] =>
          specialize (Hr i j src Hok ltac:(lia)); cbn in Hr; lia
      end.
  - assert (Hfix : forall i j n v, (i <= j <= length src)%nat -> n = (j - i)%nat ->
      le_val (slice i j src) = v -> le_bytes n v = slice i j src)
      by (intros i j n v Hij Hn <-; by apply le_bytes_slice).
    unfold frame_bytes; cbn [Version Source Command Actuators BodyLow BodyHigh
      LeftTrigger RightTrigger Sequence DeviceGeneration TransportGeneration OwnershipEpoch
      TimestampMicroseconds TimeToLiveMicroseconds].
    rewrite !le_bytes_slice by (done || lia).
    rewrite (Hfix 0 4 4 wireMagic)%nat, (Hfix 4 6 2 Version1)%nat, (Hfix 6 8 2 FrameSize)%nat
      by (done || lia).
    assert (E1 : [byte_at src 8; byte_at src 9; byte_at src 10; 0] = slice 8 12 src).
    { rewrite <- (slice_join 8 9 12), <- (slice_join 9 10 12), <- (slice_join 10 11 12),
        !slice_byte by lia. simpl. congruence. }
    assert (E2 : [0; 0; 0; 0] = slice 20 24 src).
    { rewrite <- (slice_join 20 21 24), <- (slice_join 21 22 24), <- (slice_join 22 23 24),
        !slice_byte by lia. simpl. congruence. }
    rewrite E1, E2, !slice_join by lia. by apply slice_all.
Qed.

(** Marshalling a valid frame fills the first 72 bytes of any large
    enough destination, keeps the rest, and unmarshalling those bytes gives the
    frame back; an invalid frame or a short destination is refused with the
    destination untouched. *)
Theorem frame_roundtrip f dst r :
  Frame_typed f ->
  match MarshalTo f dst with
  | (dst', None) =>
      Validate f = None /\ (72 <= length dst)%nat /\ length dst' = length dst /\
      drop 72 dst' = drop 72 dst /\ UnmarshalFrom (Some r) (take 72 dst') = (Some f, None)
  | (dst', Some err) =>
      dst' = dst /\
      ((length dst < 72)%nat /\ err = ErrInvalidSize \/
       (72 <= length dst)%nat /\ Validate f = Some err)
  end.
Proof.
  intros Ht. destruct (Nat.ltb_spec (length dst) 72) as [Hs|Hl].
  { unfold MarshalTo, FrameSize. rewrite (proj2 (Z.ltb_lt _ _)) by lia. auto. }
  destruct (Validate f) as [err|] eqn:Hv.
  { unfold MarshalTo, FrameSize. rewrite (proj2 (Z.ltb_ge _ _)), Hv by lia. auto. }
  rewrite MarshalTo_bytes by done.
  rewrite drop_app_length', take_app_length' by (by rewrite length_frame_bytes).
  rewrite length_app, length_frame_bytes, length_drop, UnmarshalFrom_bytes by done.
  split_and!; done || lia.
Qed.

Definition demo_frame (cmd amp seq epoch ts : Z) : Frame := {|
  Version := 1; Source := 4; Command := cmd; Actuators := 15; BodyLow := amp; BodyHigh := 0;
  LeftTrigger := 0; RightTrigger := 0; Sequence := seq; DeviceGeneration := 1;
  TransportGeneration := 1; OwnershipEpoch := epoch; TimestampMicroseconds := ts;
  TimeToLiveMicroseconds := 250000 |}.

Lemma frame_roundtrip_witness :
  UnmarshalFrom (Some Frame_zero)
    (take 72 (fst (MarshalTo (demo_frame 1 500 7 2 1000) (zeros 80)))) =
  (Some (demo_frame 1 500 7 2 1000), None).
Proof.
  pose proof (frame_roundtrip (demo_frame 1 500 7 2 1000) (zeros 80) Frame_zero
    ltac:(by_decide)) as H.
  destruct (MarshalTo _ _) as [dst' [err|]] eqn:E; [vm_compute in E; discriminate E|].
  exact (proj2 (proj2 (proj2 (proj2 H)))).
Defined.

(** The decoder is fail-closed and the encoding canonical: it either
    clears the receiver and reports an error, or returns a valid frame whose
    encoding is exactly the input, so no two byte strings decode to one frame. *)
Theorem frame_decoding_canonical r src :
  bytes_ok src ->
  match UnmarshalFrom (Some r) src with
  | (Some f, None) =>
      Validate f = None /\ Frame_typed f /\ length src = 72%nat /\
      forall dst, length dst = 72%nat -> MarshalTo f dst = (src, None)
  | (Some f, Some _) => f = Frame_zero
  | (None, _) => False
  end.
Proof.
  intros Hok. destruct (UnmarshalFrom (Some r) src) as [[f|] [err|]] eqn:E.
  - revert E. unfold UnmarshalFrom.
    repeat (case_if; [by intros [= <- <-]|]). cbv zeta.
    match goal with |- context [match ?v with Some _ => _ | None => _ end] => destruct v end;
      [by intros [= <- <-]|done].
  - apply UnmarshalFrom_accepts in E as (Ht & Hv & <-); [|done].
    split_and!; [done|done|apply length_frame_bytes|].
    intros dst Hd. rewrite MarshalTo_bytes by (done || lia).
    by rewrite drop_ge, app_nil_r by lia.
  - revert E. unfold UnmarshalFrom. repeat (case_if; [done|]). cbv zeta.
    by match goal with |- context [match ?v with Some _ => _ | None => _ end] => destruct v end.
  - revert E. unfold UnmarshalFrom. repeat (case_if; [done|]). cbv zeta.
    by match goal with |- context [match ?v with Some _ => _ | None => _ end] => destruct v end.
Qed.

Lemma frame_decoding_canonical_witness :
  UnmarshalFrom (Some Frame_zero) (frame_bytes (demo_frame 3 0 9 2 1000)) =
    (Some (demo_frame 3 0 9 2 1000), None) /\
  MarshalTo (demo_frame 3 0 9 2 1000) (zeros 72) = (frame_bytes (demo_frame 3 0 9 2 1000), None).
Proof.
  assert (E : UnmarshalFrom (Some Frame_zero) (frame_bytes (demo_frame 3 0 9 2 1000)) =
    (Some (demo_frame 3 0 9 2 1000), None)) by (vm_compute; reflexivity).
  split; [exact E|].
  pose proof (frame_decoding_canonical Frame_zero (frame_bytes (demo_frame 3 0 9 2 1000))
    ltac:(by_decide)) as H.
  rewrite E in H. apply H. reflexivity.
Defined.

(** ** Freshness *)

Lemma FreshAt_spec f now :
  Frame_typed f -> U64 now ->
  FreshAt f now = true <->
  TimestampMicroseconds f - 5000 <= now < TimestampMicroseconds f \/
  TimestampMicroseconds f <= now < TimestampMicroseconds f + TimeToLiveMicroseconds f.
Proof.
  intros Ht Hn. unfold Frame_typed in Ht. unfold FreshAt, MaxFutureSkewMicroseconds.
  case_if; rewrite u64_id by lia; [rewrite Z.leb_le|rewrite Z.ltb_lt]; lia.
Qed.

(** A valid frame is fresh only from 5 ms before its timestamp until its
    TTL of at most 250 ms elapses, so no frame, however dated, can be applied at
    two instants 255 ms or more apart. *)
Theorem lease_is_bounded f t1 t2 :
  Frame_typed f -> Valid f = true -> U64 t1 -> U64 t2 ->
  FreshAt f t1 = true -> FreshAt f t2 = true -> t2 - t1 < 255000.
Proof.
  intros Ht Hv H1 H2 F1%FreshAt_spec F2%FreshAt_spec; [|done..].
  assert (TimeToLiveMicroseconds f <= 250000); [|lia].
  revert Hv. unfold Valid, Validate, MaxTimeToLiveMicroseconds.
  repeat (case_if; [done|]). bool_prop. intros _. lia.
Qed.

Lemma lease_is_bounded_witness : 250999 - 1000 < 255000.
Proof.
  apply (lease_is_bounded (demo_frame 1 500 7 2 1000) 1000 250999);
    first [by_decide | reflexivity | lia].
Defined.

(** ** Ordering of publications *)

Lemma bump_nonzero v : bump v <> 0.
Proof. unfold bump. case_if; lia. Qed.

Lemma bump_small v : 0 <= v < 18446744073709551615 -> bump v = v + 1.
Proof. intros. unfold bump. rewrite u64_id by lia. case_if; lia. Qed.

(** The lexicographic order of lifecycle generations. *)
Definition epoch_lt (a b : Frame) : Prop :=
  DeviceGeneration a < DeviceGeneration b \/
  DeviceGeneration a = DeviceGeneration b /\
    (TransportGeneration a < TransportGeneration b \/
     TransportGeneration a = TransportGeneration b /\ OwnershipEpoch a < OwnershipEpoch b).

Definition epoch_eq (a b : Frame) : Prop :=
  DeviceGeneration a = DeviceGeneration b /\ TransportGeneration a = TransportGeneration b /\
  OwnershipEpoch a = OwnershipEpoch b.

Lemma newer_spec b a :
  newer b a = true <->
  epoch_lt a b \/
  epoch_eq a b /\ Command a <> CommandStop /\ Source b = Source a /\ Sequence a < Sequence b.
Proof.
  unfold newer, epoch_lt, epoch_eq.
  destruct (Z.eqb_spec (DeviceGeneration b) (DeviceGeneration a)); simpl;
    [|rewrite Z.ltb_lt; lia].
  destruct (Z.eqb_spec (TransportGeneration b) (TransportGeneration a)); simpl;
    [|rewrite Z.ltb_lt; lia].
  destruct (Z.eqb_spec (OwnershipEpoch b) (OwnershipEpoch a)); simpl;
    [|rewrite Z.ltb_lt; lia].
  rewrite !andb_true_iff, negb_true_iff, Z.eqb_neq, Z.eqb_eq, Z.ltb_lt. lia.
Qed.

Lemma newer_trans a b c : newer b a = true -> newer c b = true -> newer c a = true.
Proof. rewrite !newer_spec. unfold epoch_lt, epoch_eq. lia. Qed.

(** A sequence of publications, with the frames admitted. *)
Fixpoint publish_all (m : Mailbox) (fs : list Frame) : Mailbox * list Frame :=
  match fs with
  | [] => (m, [])
  | f :: fs =>
      let '(m, ok) := Publish m f in
      let '(m, acc) := publish_all m fs in
      (m, if ok : bool then f :: acc else acc)
  end.

Lemma publish_all_sorted m fs :
  let '(m', acc) := publish_all m fs in
  StronglySorted (fun a b => newer b a = true) acc /\
  (hasValue m = true -> Forall (fun b => newer b (latest m) = true) acc) /\
  Forall (fun f => Valid f = true) acc /\
  latest m' = List.last acc (latest m).
Proof.
  revert m. induction fs as [|f fs IH]; intros m; simpl.
  { split_and!; constructor. }
  unfold Publish. destruct (Valid f) eqn:Hv; simpl.
  2: { specialize (IH m). destruct (publish_all m fs). done. }
  destruct (hasValue m && negb (newer f (latest m))) eqn:Hold.
  { specialize (IH m). destruct (publish_all m fs). done. }
  specialize (IH {| latest := f; revision := bump (revision m); hasValue := true |}).
  destruct (publish_all _ fs) as [m' acc]. destruct IH as (Hs & Hf & Hval & Hl). simpl in *.
  specialize (Hf eq_refl). split_and!.
  - by constructor.
  - intros Hh. rewrite Hh in Hold. simpl in Hold. apply negb_false_iff in Hold.
    constructor; [done|]. eapply List.Forall_impl; [|exact Hf]. intros b Hb.
    by eapply newer_trans.
  - by constructor.
  - rewrite Hl. destruct acc as [|x acc]; [done|]. clear. revert x.
    induction acc; intros x; [done|]. simpl in *. by rewrite <- IHacc.
Qed.

Lemma StronglySorted_lookup {A} (R : A -> A -> Prop) l i j x y :
  StronglySorted R l -> (i < j)%nat -> l !! i = Some x -> l !! j = Some y -> R x y.
Proof.
  intros Hs. revert i j. induction Hs as [|a l Hs IH Hf]; intros i j Hij Hi Hj; [done|].
  destruct j as [|j]; [lia|]. destruct i as [|i]; simplify_eq/=.
  - rewrite List.Forall_forall in Hf. apply Hf. apply list_elem_of_In.
    by apply list_elem_of_lookup_2 with j.
  - apply (IH i j); [lia|done..].
Qed.

(** Whatever frames are published in whatever order, the admitted ones
    are valid and strictly ordered by lifecycle generation and then by sequence
    number of one source; after an admitted Stop only a later generation is
    admitted, so a retired lease is never resurrected; and the mailbox holds the
    last admitted frame. *)
Theorem publications_ordered m fs :
  let '(m', acc) := publish_all m fs in
  Forall (fun f => Valid f = true) acc /\ latest m' = List.last acc (latest m) /\
  forall i j a b, (i < j)%nat -> acc !! i = Some a -> acc !! j = Some b ->
    (epoch_lt a b \/ epoch_eq a b /\ Source a = Source b /\ Sequence a < Sequence b) /\
    (Command a = CommandStop -> epoch_lt a b).
Proof.
  pose proof (publish_all_sorted m fs) as H. destruct (publish_all m fs) as [m' acc].
  destruct H as (Hs & _ & Hv & Hl). split_and!; [done..|].
  intros i j a b Hij Hi Hj. pose proof (StronglySorted_lookup _ _ _ _ _ _ Hs Hij Hi Hj) as Hn.
  simpl in Hn. apply newer_spec in Hn. naive_solver.
Qed.

Lemma publications_ordered_witness :
  let fs := [demo_frame 1 500 5 1 0; demo_frame 1 400 4 1 0; demo_frame 3 0 6 1 0;
             demo_frame 1 500 7 1 0; demo_frame 1 500 1 2 0] in
  snd (publish_all Mailbox_zero fs) =
    [demo_frame 1 500 5 1 0; demo_frame 3 0 6 1 0; demo_frame 1 500 1 2 0] /\
  epoch_lt (demo_frame 3 0 6 1 0) (demo_frame 1 500 1 2 0).
Proof.
  intros fs. pose proof (publications_ordered Mailbox_zero fs) as H.
  destruct (publish_all Mailbox_zero fs) as [m' acc] eqn:E. vm_compute in E.
  injection E as <- <-. split; [reflexivity|].
  destruct H as (_ & _ & H). exact (proj2 (H 1%nat 2%nat _ _ ltac:(lia) eq_refl eq_refl) eq_refl).
Defined.

(** ** The delivery protocol

    One mailbox, its bound consumer cursor, the frame the last Claim handed out
    and the log of completed deliveries. *)
Record consumer := {
  mb : Mailbox;
  cur : ClaimCursor;
  claimed : Frame;
  deliveries : list (Z * ClaimDisposition);
}.

Inductive mail_op :=
| MPublish (f : Frame)
| MClaim (now : Z)
| MComplete (token : Z) (delivered : bool).

Definition consumer_zero : consumer := {|
  mb := Mailbox_zero; cur := ClaimCursor_zero; claimed := Frame_zero; deliveries := [] |}.

Definition mail_step (mid cid : Z) (st : consumer) (o : mail_op) : consumer :=
  match o with
  | MPublish f => {| mb := fst (Publish (mb st) f); cur := cur st; claimed := claimed st;
                     deliveries := deliveries st |}
  | MClaim now =>
      let '(c, (f, d, _)) := Claim (mb st) mid now (cur st) cid in
      {| mb := mb st; cur := c;
         claimed := match d with ClaimNone => claimed st | _ => f end;
         deliveries := deliveries st |}
  | MComplete token delivered =>
      let '(c, ok) := Complete mid (cur st) cid token delivered in
      {| mb := mb st; cur := c; claimed := claimed st;
         deliveries := if ok && delivered
           then deliveries st ++ [(inFlightRevision (cur st), inFlightDisposition (cur st))]
           else deliveries st |}
  end.

Definition mail_run (mid cid : Z) (ops : list mail_op) : consumer :=
  fold_left (mail_step mid cid) ops consumer_zero.

(** The order of deliveries: by revision, a release after its frame. *)
Definition before (a b : Z * ClaimDisposition) : Prop :=
  fst a < fst b \/ fst a = fst b /\ snd a = ClaimFrame /\ snd b = ClaimRelease.

Record mail_inv (n : Z) (st : consumer) : Prop := {
  inv_rev : 0 <= revision (mb st) <= n;
  inv_val : hasValue (mb st) = true -> 1 <= revision (mb st);
  inv_marks : 0 <= ReleasedRevision (cur st) <= AppliedRevision (cur st) /\
              AppliedRevision (cur st) <= revision (mb st);
  inv_flight : inFlightToken (cur st) <> 0 ->
    1 <= inFlightRevision (cur st) <= revision (mb st) /\
    match inFlightDisposition (cur st) with
    | ClaimNone => False
    | ClaimFrame => AppliedRevision (cur st) < inFlightRevision (cur st) /\
        (inFlightRevision (cur st) = revision (mb st) -> claimed st = latest (mb st))
    | ClaimRelease => ReleasedRevision (cur st) < inFlightRevision (cur st) /\
        AppliedRevision (cur st) <= inFlightRevision (cur st) /\
        inFlightCompletesRelease (cur st) = true
    end;
  inv_sorted : StronglySorted before (deliveries st);
  inv_log : Forall (fun e => fst e <= AppliedRevision (cur st) /\
      match snd e with
      | ClaimNone => False
      | ClaimFrame => True
      | ClaimRelease => fst e <= ReleasedRevision (cur st)
      end) (deliveries st);
}.

Lemma mail_inv_zero : mail_inv 0 consumer_zero.
Proof. split; simpl; try done; try lia; constructor. Qed.

Lemma StronglySorted_snoc {A} (R : A -> A -> Prop) l x :
  StronglySorted R l -> Forall (fun y => R y x) l -> StronglySorted R (l ++ [x]).
Proof.
  induction 1 as [|a l Hs IH Hf]; simpl; intros Hx; [repeat constructor|].
  inversion Hx; subst. constructor; [auto|].
  apply list.Forall_app. split; [done|]. by repeat constructor.
Qed.

Lemma publish_inv n st f :
  0 <= n < 18446744073709551614 -> mail_inv n st ->
  mail_inv (n + 1) {| mb := fst (Publish (mb st) f); cur := cur st; claimed := claimed st;
                      deliveries := deliveries st |}.
Proof.
  intros Hn [Hr Hv Hm Hf Hs Hl]. unfold Publish.
  destruct (Valid f); simpl; [|split; simpl; try done; lia].
  destruct (hasValue (mb st) && _); simpl; [split; simpl; try done; lia|].
  assert (Hb : bump (revision (mb st)) = revision (mb st) + 1) by (apply bump_small; lia).
  split; simpl; rewrite ?Hb; try done; try lia.
  intros Ht. destruct (Hf Ht) as [Hir Hd]. split; [lia|].
  destruct (inFlightDisposition (cur st)); [done| |done]. split; [apply Hd|]. lia.
Qed.

Lemma Claim_cases m mid now c cid :
  let '(c', (f, d, token)) := Claim m mid now c cid in
  AppliedRevision c' = AppliedRevision c /\ ReleasedRevision c' = ReleasedRevision c /\
  match d with
  | ClaimNone => inFlightToken c' = inFlightToken c /\ inFlightRevision c' = inFlightRevision c /\
      inFlightDisposition c' = inFlightDisposition c /\
      inFlightCompletesRelease c' = inFlightCompletesRelease c
  | _ => hasValue m = true /\ inFlightToken c = 0 /\ inFlightToken c' = token /\ token <> 0 /\
      inFlightRevision c' = revision m /\ inFlightDisposition c' = d /\
      self c' = Some cid /\ ownerMailbox c' = Some mid /\
      match d with
      | ClaimFrame => f = latest m /\ FreshAt (latest m) now = true /\
          AppliedRevision c <> revision m
      | _ => FreshAt (latest m) now = false /\ ReleasedRevision c <> revision m /\
          inFlightCompletesRelease c' = true
      end
  end.
Proof.
  unfold Claim, beginClaim.
  assert (Hbind : forall c0 : ClaimCursor,
    match self c0 with None => false | Some _ => negb (bool_decide (self c0 = Some cid)) ||
      negb (bool_decide (ownerMailbox c0 = Some mid)) end = false ->
    let c1 := match self c0 with None => bind_cursor c0 mid cid | Some _ => c0 end in
    self c1 = Some cid /\ ownerMailbox c1 = Some mid).
  { intros c0. destruct (self c0) eqn:Es; simpl; [|done]. rewrite Es.
    intros [H1 H2]%orb_false_iff. by repeat case_bool_decide. }
  case_if; [done|]. destruct (Hbind c Hb) as [Hs Ho]. cbv zeta in Hs, Ho.
  assert (Hsame : let c1 := match self c with None => bind_cursor c mid cid | Some _ => c end in
    AppliedRevision c1 = AppliedRevision c /\ ReleasedRevision c1 = ReleasedRevision c /\
    inFlightToken c1 = inFlightToken c /\ inFlightRevision c1 = inFlightRevision c /\
    inFlightDisposition c1 = inFlightDisposition c /\
    inFlightCompletesRelease c1 = inFlightCompletesRelease c) by (by destruct (self c)).
  cbv zeta in Hsame |- *.
  set (c1 := match self c with None => bind_cursor c mid cid | Some _ => c end) in *.
  destruct Hsame as (HA & HR & HT & HV & HD & HC).
  destruct (hasValue m) eqn:Hval; simpl; [|done].
  destruct (Z.eqb_spec (inFlightToken c1) 0) as [Ht|]; simpl; [|done].
  pose proof (bump_nonzero (nextToken c1)).
  destruct (FreshAt (latest m) now) eqn:Hfr;
    [destruct (Z.eqb_spec (AppliedRevision c1) (revision m))|
     destruct (Z.eqb_spec (ReleasedRevision c1) (revision m))]; simpl; try done;
    rewrite <- ?HA, <- ?HR, <- ?HT; split_and!; try done; congruence.
Qed.

Lemma claim_inv n st mid cid now :
  mail_inv n st -> mail_inv (n + 1) (mail_step mid cid st (MClaim now)).
Proof.
  intros [Hr Hv Hm Hf Hs Hl]. unfold mail_step.
  pose proof (Claim_cases (mb st) mid now (cur st) cid) as H.
  destruct (Claim (mb st) mid now (cur st) cid) as [c' [[f d] token]].
  destruct H as (HA & HR & H).
  split; simpl; rewrite ?HA, ?HR; try done; try lia.
  destruct d; simpl in H.
  - destruct H as (-> & -> & -> & ->). done.
  - destruct H as (Hval & _ & _ & _ & -> & -> & _ & _ & -> & _ & Hne). intros _.
    specialize (Hv Hval). split_and!; try done; lia.
  - destruct H as (Hval & _ & _ & _ & -> & -> & _ & _ & _ & Hne & ->). intros _.
    specialize (Hv Hval). split_and!; try done; lia.
Qed.

Lemma complete_inv n st mid cid token delivered :
  mail_inv n st -> mail_inv (n + 1) (mail_step mid cid st (MComplete token delivered)).
Proof.
  intros Hinv. pose proof Hinv as [Hr Hv Hm Hf Hs Hl]. unfold mail_step, Complete.
  destruct (claim_matches mid cid (cur st) token) eqn:Hmatch; simpl.
  2: { split; simpl; try done; lia. }
  assert (Ht : inFlightToken (cur st) <> 0).
  { unfold claim_matches in Hmatch. bool_prop. congruence. }
  destruct (Hf Ht) as [Hir Hd]. clear Hf Hmatch.
  destruct delivered; simpl; [|split; simpl; try done; lia].
  split; simpl; try done; try lia.
  - destruct (inFlightDisposition (cur st)); [done| |destruct Hd as (_ & _ & ->); lia].
    destruct (inFlightCompletesRelease (cur st)); lia.
  - apply StronglySorted_snoc; [done|]. eapply List.Forall_impl; [|exact Hl].
    intros [r d] [Hle Hd']; unfold before; simpl in *.
    destruct (inFlightDisposition (cur st)); [done|lia|].
    destruct (decide (r = inFlightRevision (cur st))) as [->|]; [right|left; lia].
    destruct d; [done|done|lia].
  - apply list.Forall_app. split.
    + eapply List.Forall_impl; [|exact Hl]. intros [r d] [Hle Hd']; simpl in *.
      destruct (inFlightDisposition (cur st)); [done| |].
      * split; [lia|]. destruct d; [done..|]. case_if; lia.
      * destruct Hd as (_ & ? & ->). split; [lia|]. by destruct d; try lia.
    + constructor; [|constructor]. simpl. split; [lia|].
      destruct (inFlightDisposition (cur st)); [done..|]. destruct Hd as (_ & _ & ->). lia.
Qed.

Lemma mail_run_inv mid cid ops :
  Z.of_nat (length ops) < 18446744073709551615 ->
  mail_inv (Z.of_nat (length ops)) (mail_run mid cid ops).
Proof.
  unfold mail_run. induction ops as [|o ops IH] using rev_ind; intros Hlen.
  { apply mail_inv_zero. }
  rewrite length_app in *. simpl in *. rewrite fold_left_app. simpl.
  replace (Z.of_nat (length ops + 1)) with (Z.of_nat (length ops) + 1) in * by lia.
  specialize (IH ltac:(lia)). destruct o.
  - apply publish_inv; [lia|done].
  - by apply claim_inv.
  - by apply complete_inv.
Qed.

(** C21: in any interleaving of publications, claims and completions (fewer
    than 2^64 of them, so that revisions do not wrap) the completed deliveries
    of a consumer are strictly increasing: each revision is applied at most
    once, released at most once and never applied after its release, and no
    superseded revision is delivered after a newer one. *)
Theorem deliveries_exactly_ordered mid cid ops :
  Z.of_nat (length ops) < 18446744073709551615 ->
  let log := deliveries (mail_run mid cid ops) in
  forall i j a b, (i < j)%nat -> log !! i = Some a -> log !! j = Some b ->
    fst a < fst b \/ fst a = fst b /\ snd a = ClaimFrame /\ snd b = ClaimRelease.
Proof.
  intros Hlen log i j a b Hij Ha Hb.
  exact (StronglySorted_lookup _ _ _ _ _ _
    (inv_sorted _ _ (mail_run_inv mid cid ops Hlen)) Hij Ha Hb).
Qed.

Definition demo_mail : list mail_op :=
  [MPublish (demo_frame 1 500 1 1 1000); MClaim 1000; MComplete 1 false; MClaim 2000;
   MComplete 1 true; MComplete 2 true; MClaim 3000; MClaim 300000; MComplete 3 true;
   MClaim 300001; MPublish (demo_frame 3 0 2 1 300000); MClaim 300002; MComplete 4 true].

Lemma deliveries_exactly_ordered_witness :
  let log := deliveries (mail_run 1 2 demo_mail) in
  log = [(1, ClaimFrame); (1, ClaimRelease); (2, ClaimFrame)] /\
  fst (1, ClaimRelease) < fst (2, ClaimFrame).
Proof.
  intros log. split; [reflexivity|].
  destruct (deliveries_exactly_ordered 1 2 demo_mail ltac:(vm_compute; reflexivity)
    1%nat 2%nat (1, ClaimRelease) (2, ClaimFrame) ltac:(lia) eq_refl eq_refl) as [H|H].
  - exact H.
  - destruct H as (_ & H & _). discriminate H.
Defined.

(** When CanDeliver approves a claim at an instant, the claim is for
    the mailbox's current revision; a frame claim then carries exactly the
    latest published frame, fresh at that instant, and a release claim means
    the latest frame has expired. *)
Theorem can_deliver_current mid cid ops token now :
  Z.of_nat (length ops) < 18446744073709551615 ->
  let st := mail_run mid cid ops in
  CanDeliver (mb st) mid (cur st) cid token now = true ->
  token = inFlightToken (cur st) /\ inFlightRevision (cur st) = revision (mb st) /\
  (inFlightDisposition (cur st) = ClaimFrame /\ claimed st = latest (mb st) /\
     FreshAt (latest (mb st)) now = true \/
   inFlightDisposition (cur st) = ClaimRelease /\ FreshAt (latest (mb st)) now = false).
Proof.
  intros Hlen st. pose proof (mail_run_inv mid cid ops Hlen) as Hinv. fold st in Hinv.
  unfold CanDeliver. destruct (claim_matches mid cid (cur st) token) eqn:Hm; simpl; [|done].
  unfold claim_matches in Hm. bool_prop.
  destruct (hasValue (mb st)); simpl; [|done].
  destruct (Z.eqb_spec (revision (mb st)) (inFlightRevision (cur st))) as [Hrev|]; simpl; [|done].
  assert (Ht : inFlightToken (cur st) <> 0) by congruence.
  destruct (inv_flight _ _ Hinv Ht) as [_ Hd]. intros Hcan. split_and!; [done..|].
  destruct (inFlightDisposition (cur st)); [done| |].
  - left. rewrite bool_decide_true in Hcan by done. split_and!; [done| |done]. by apply Hd.
  - right. rewrite bool_decide_false in Hcan by done. split; [done|].
    by apply negb_true_iff in Hcan.
Qed.

Lemma can_deliver_current_witness :
  let st := mail_run 1 2 (take 2 demo_mail) in
  claimed st = demo_frame 1 500 1 1 1000 /\ inFlightRevision (cur st) = revision (mb st).
Proof.
  intros st. split; [reflexivity|].
  exact (proj1 (proj2 (can_deliver_current 1 2 (take 2 demo_mail) 1 1500
    ltac:(vm_compute; reflexivity) ltac:(vm_compute; reflexivity)))).
Defined.

(** Releases are never lost: whenever the latest frame has expired and
    its revision has not been released, an idle consumer's next claim is a
    release it may deliver, and completing it stops further claims of that
    revision at every later instant; a failed delivery leaves it claimable. *)
Theorem release_obligation m mid c cid now :
  (self c = None \/ self c = Some cid /\ ownerMailbox c = Some mid) ->
  hasValue m = true -> inFlightToken c = 0 ->
  FreshAt (latest m) now = false -> ReleasedRevision c <> revision m ->
  exists c1 token,
    Claim m mid now c cid = (c1, (Frame_zero, ClaimRelease, token)) /\
    CanDeliver m mid c1 cid token now = true /\
    forall delivered, exists c2,
      Complete mid c1 cid token delivered = (c2, true) /\
      forall later, snd (fst (snd (Claim m mid later c2 cid))) =
        if delivered then ClaimNone
        else if FreshAt (latest m) later then
          if AppliedRevision c =? revision m then ClaimNone else ClaimFrame
        else ClaimRelease.
Proof.
  intros Hself Hval Ht Hexp Hrel.
  set (cb := match self c with None => bind_cursor c mid cid | Some _ => c end).
  assert (Hcb : self cb = Some cid /\ ownerMailbox cb = Some mid /\ inFlightToken cb = 0 /\
    ReleasedRevision cb = ReleasedRevision c /\ AppliedRevision cb = AppliedRevision c).
  { subst cb. destruct Hself as [E|[E E']]; rewrite E; simpl; split_and!; done. }
  destruct Hcb as (Hs & Ho & Htk & HR & HA).
  assert (Hclaim : Claim m mid now c cid =
    (fst (beginClaim cb (revision m) ClaimRelease true),
     (Frame_zero, ClaimRelease, bump (nextToken cb)))).
  { unfold Claim. fold cb. cbv zeta. rewrite Hval, Htk, Hexp, HR.
    rewrite (proj2 (Z.eqb_neq _ _) Hrel). simpl.
    destruct Hself as [E|[E E']]; rewrite E; [done|]. by rewrite !bool_decide_true. }
  eexists _, _. split; [exact Hclaim|]. unfold beginClaim; cbn [fst].
  assert (Hm : claim_matches mid cid {| AppliedRevision := AppliedRevision cb;
      ReleasedRevision := ReleasedRevision cb; nextToken := bump (nextToken cb);
      inFlightToken := bump (nextToken cb); inFlightRevision := revision m;
      inFlightDisposition := ClaimRelease; inFlightCompletesRelease := true;
      ownerMailbox := ownerMailbox cb; self := self cb |} (bump (nextToken cb)) = true).
  { unfold claim_matches; simpl. rewrite (proj2 (Z.eqb_neq _ _) (bump_nonzero _)).
    by rewrite Z.eqb_refl, !bool_decide_true. }
  split.
  - unfold CanDeliver. rewrite Hm, Hval. simpl. rewrite Z.eqb_refl. simpl.
    unfold ExpiredAt. by rewrite Hexp.
  - intros delivered. eexists. split; [unfold Complete; by rewrite Hm|].
    intros later. unfold Claim; simpl. rewrite Hs, Ho, !bool_decide_true, Hval by done. simpl.
    destruct delivered; simpl; rewrite ?Z.eqb_refl; [by destruct (FreshAt (latest m) later)|].
    rewrite HA, HR, (proj2 (Z.eqb_neq _ _) Hrel).
    destruct (FreshAt (latest m) later); [|done]. by destruct (_ =? _).
Qed.

Lemma release_obligation_witness :
  let m := fst (Publish Mailbox_zero (demo_frame 1 500 1 1 1000)) in
  snd (fst (snd (Claim m 1 300000 ClaimCursor_zero 2))) = ClaimRelease.
Proof.
  intros m.
  destruct (release_obligation m 1 ClaimCursor_zero 2 300000 ltac:(left; reflexivity) eq_refl
    eq_refl ltac:(vm_compute; reflexivity) ltac:(vm_compute; discriminate))
    as (c1 & token & H & _).
  rewrite H. reflexivity.
Defined.
