(* ===== verification/FeedbackRuntime.v ===== *)
(** * Feedback arbitration

    src/controllerfeedback/runtime.go: four publishers share the motors of one
    controller through fixed slots; the runtime selects a winner, hands its
    frame to the one active writer, and owes a stop for everything that may
    have moved a motor.

    Every method runs under the runtime's mutex and is a function on the state.
    Writer leases are objects that callers hold by pointer: [writers] is the
    store, a lease is named by its address, and the allocator's choice of a
    fresh address is an argument.  Counters wrap where the code lets them.
    There is one runtime, so the lease's owner field is not kept; nil
    receivers are not modelled. *)

From S2P Require Import Prelude Bytes Feedback.

(** ** Publications and deliveries *)

Definition PublicationOriginInvalid : Z := 0.
Definition PublicationOriginProfileEffect : Z := 1.
Definition PublicationOriginAudioHaptics : Z := 2.
Definition PublicationOriginNativeGame : Z := 3.
Definition PublicationOriginTestPreview : Z := 4.

Definition PublicationOrigin_Valid (origin : Z) : bool :=
  (PublicationOriginProfileEffect <=? origin) && (origin <=? PublicationOriginTestPreview).

Record Publication := { p_Origin : Z; p_Frame : Frame }.
#[export] Instance Publication_eq_dec : EqDecision Publication.
Proof. solve_decision. Defined.

Definition Publication_Valid (p : Publication) : bool := PublicationOrigin_Valid (p_Origin p) && Valid (p_Frame p).

Definition NewPublication (origin : Z) (frame : Frame) : Publication * bool :=
  let p := {| p_Origin := origin; p_Frame := frame |} in (p, Publication_Valid p).

Inductive DeliveryDisposition := DeliveryNone | DeliveryFrame | DeliveryStop.
#[export] Instance DeliveryDisposition_eq_dec : EqDecision DeliveryDisposition.
Proof. solve_decision. Defined.

Record Delivery := {
  Disposition : DeliveryDisposition; d_Origin : Z; d_Frame : Frame; d_DeviceGeneration : Z; d_TransportGeneration : Z;
  DeliveryEpoch : Z;
}.
#[export] Instance Delivery_eq_dec : EqDecision Delivery.
Proof. solve_decision. Defined.

Definition Delivery_zero : Delivery := {|
  Disposition := DeliveryNone; d_Origin := 0; d_Frame := Frame_zero; d_DeviceGeneration := 0; d_TransportGeneration := 0;
  DeliveryEpoch := 0 |}.

Definition Delivery_Valid (d : Delivery) : bool :=
  if negb (PublicationOrigin_Valid (d_Origin d)) || (d_DeviceGeneration d =? 0) || (d_TransportGeneration d =? 0) ||
     (DeliveryEpoch d =? 0) then false
  else if bool_decide (Disposition d = DeliveryFrame) then
    Valid (d_Frame d) && (DeviceGeneration (d_Frame d) =? d_DeviceGeneration d) &&
    (TransportGeneration (d_Frame d) =? d_TransportGeneration d)
  else bool_decide (Disposition d = DeliveryStop) && bool_decide (d_Frame d = Frame_zero).

(** ** State *)

Definition Publication_zero : Publication := {| p_Origin := 0; p_Frame := Frame_zero |}.

(** A slot without a value is [None]. *)
Definition publicationSlot : Type := option Publication.

Record WriterLease := {
  w_self : Z;
  WriterGeneration : Z;
  w_DeviceGeneration : Z;
  w_TransportGeneration : Z;
  nextClaimToken : Z;
  inFlightClaimToken : Z;
  inFlightEventRevision : Z;
  inFlightDelivery : Delivery;
  inFlightAdmitted : bool;
  completedEventRevision : Z;
  w_active : bool;
}.

Record Runtime := {
  profileSlot : publicationSlot;
  audioSlot : publicationSlot;
  gameSlot : publicationSlot;
  previewSlot : publicationSlot;
  writers : gmap Z WriterLease;
  activeWriter : option Z;
  nextWriterGeneration : Z;
  hasOwner : bool;
  stopping : bool;
  ownerMayHaveActuated : bool;
  owner : Publication;
  ownerDeliveryEpoch : Z;
  nextDeliveryEpoch : Z;
  hasEvent : bool;
  currentEvent : Delivery;
  currentEventRevision : Z;
}.

Definition Runtime_zero : Runtime := {|
  profileSlot := None; audioSlot := None; gameSlot := None; previewSlot := None; writers := ∅; activeWriter := None;
  nextWriterGeneration := 0; hasOwner := false; stopping := false; ownerMayHaveActuated := false; owner := Publication_zero;
  ownerDeliveryEpoch := 0; nextDeliveryEpoch := 0; hasEvent := false; currentEvent := Delivery_zero;
  currentEventRevision := 0 |}.

Definition with_slots (a b c d : publicationSlot) (r : Runtime) : Runtime := {|
  profileSlot := a; audioSlot := b; gameSlot := c; previewSlot := d; writers := writers r; activeWriter := activeWriter r;
  nextWriterGeneration := nextWriterGeneration r; hasOwner := hasOwner r; stopping := stopping r;
  ownerMayHaveActuated := ownerMayHaveActuated r; owner := owner r; ownerDeliveryEpoch := ownerDeliveryEpoch r;
  nextDeliveryEpoch := nextDeliveryEpoch r; hasEvent := hasEvent r; currentEvent := currentEvent r;
  currentEventRevision := currentEventRevision r |}.
Definition with_writers (ws : gmap Z WriterLease) (active : option Z) (gen : Z) (r : Runtime) : Runtime := {|
  profileSlot := profileSlot r; audioSlot := audioSlot r; gameSlot := gameSlot r; previewSlot := previewSlot r; writers := ws;
  activeWriter := active; nextWriterGeneration := gen; hasOwner := hasOwner r; stopping := stopping r;
  ownerMayHaveActuated := ownerMayHaveActuated r; owner := owner r; ownerDeliveryEpoch := ownerDeliveryEpoch r;
  nextDeliveryEpoch := nextDeliveryEpoch r; hasEvent := hasEvent r; currentEvent := currentEvent r;
  currentEventRevision := currentEventRevision r |}.
Definition with_owner (has stop actuated : bool) (p : Publication) (epoch next : Z) (r : Runtime) : Runtime := {|
  profileSlot := profileSlot r; audioSlot := audioSlot r; gameSlot := gameSlot r; previewSlot := previewSlot r;
  writers := writers r; activeWriter := activeWriter r; nextWriterGeneration := nextWriterGeneration r; hasOwner := has;
  stopping := stop; ownerMayHaveActuated := actuated; owner := p; ownerDeliveryEpoch := epoch; nextDeliveryEpoch := next;
  hasEvent := hasEvent r; currentEvent := currentEvent r; currentEventRevision := currentEventRevision r |}.
Definition with_event (has : bool) (d : Delivery) (revision : Z) (r : Runtime) : Runtime := {|
  profileSlot := profileSlot r; audioSlot := audioSlot r; gameSlot := gameSlot r; previewSlot := previewSlot r;
  writers := writers r; activeWriter := activeWriter r; nextWriterGeneration := nextWriterGeneration r; hasOwner := hasOwner r;
  stopping := stopping r; ownerMayHaveActuated := ownerMayHaveActuated r; owner := owner r;
  ownerDeliveryEpoch := ownerDeliveryEpoch r; nextDeliveryEpoch := nextDeliveryEpoch r; hasEvent := has; currentEvent := d;
  currentEventRevision := revision |}.

(** ** Selection *)

Definition slot (origin : Z) (r : Runtime) : publicationSlot :=
  if origin =? PublicationOriginProfileEffect then profileSlot r
  else if origin =? PublicationOriginAudioHaptics then audioSlot r
  else if origin =? PublicationOriginNativeGame then gameSlot r
  else previewSlot r.

Definition set_slot (origin : Z) (p : Publication) (r : Runtime) : Runtime :=
  if origin =? PublicationOriginProfileEffect then with_slots (Some p) (audioSlot r) (gameSlot r) (previewSlot r) r
  else if origin =? PublicationOriginAudioHaptics then with_slots (profileSlot r) (Some p) (gameSlot r) (previewSlot r) r
  else if origin =? PublicationOriginNativeGame then with_slots (profileSlot r) (audioSlot r) (Some p) (previewSlot r) r
  else with_slots (profileSlot r) (audioSlot r) (gameSlot r) (Some p) r.

Definition slots (r : Runtime) : list publicationSlot := [profileSlot r; audioSlot r; gameSlot r; previewSlot r].

(** The newest device and transport generation found so far. *)
Definition findNewestRuntimeTarget (found : option (Z * Z)) (s : publicationSlot) : option (Z * Z) :=
  match s with
  | None => found
  | Some p =>
      let f := p_Frame p in
      let mine := Some (DeviceGeneration f, TransportGeneration f) in
      match found with
      | None => mine
      | Some (dg, tg) =>
          if (dg <? DeviceGeneration f) || ((DeviceGeneration f =? dg) && (tg <? TransportGeneration f)) then mine else found
      end
  end.

Definition newestTarget (r : Runtime) : option (Z * Z) := foldl findNewestRuntimeTarget None (slots r).

Definition considerRuntimeSlot (now dg tg : Z) (winner : option Publication) (s : publicationSlot) : option Publication :=
  match s with
  | None => winner
  | Some p =>
      if negb (DeviceGeneration (p_Frame p) =? dg) || negb (TransportGeneration (p_Frame p) =? tg) ||
         (Command (p_Frame p) =? CommandStop) || negb (FreshAt (p_Frame p) now) then winner
      else
        match winner with
        | None => Some p
        | Some w => if p_Origin w <? p_Origin p then Some p else winner
        end
  end.

Definition selectWinner (now : Z) (r : Runtime) : option Publication :=
  match newestTarget r with
  | None => None
  | Some (dg, tg) => foldl (considerRuntimeSlot now dg tg) None (slots r)
  end.

Definition sameRuntimeOwnership (l r : Publication) : bool :=
  (p_Origin l =? p_Origin r) && (Source (p_Frame l) =? Source (p_Frame r)) &&
  (DeviceGeneration (p_Frame l) =? DeviceGeneration (p_Frame r)) &&
  (TransportGeneration (p_Frame l) =? TransportGeneration (p_Frame r)) &&
  (OwnershipEpoch (p_Frame l) =? OwnershipEpoch (p_Frame r)).

(** newerRuntimeFrame has the body of the mailbox's [newer]. *)
Definition newerRuntimeFrame (candidate current : Frame) : bool :=
  if negb (DeviceGeneration candidate =? DeviceGeneration current) then
    DeviceGeneration current <? DeviceGeneration candidate
  else if negb (TransportGeneration candidate =? TransportGeneration current) then
    TransportGeneration current <? TransportGeneration candidate
  else if negb (OwnershipEpoch candidate =? OwnershipEpoch current) then
    OwnershipEpoch current <? OwnershipEpoch candidate
  else negb (Command current =? CommandStop) && (Source candidate =? Source current) &&
       (Sequence current <? Sequence candidate).

(** ** Events *)

Definition setEvent (d : Delivery) (r : Runtime) : Runtime :=
  let revision := u64 (currentEventRevision r + 1) in
  with_event true d (if revision =? 0 then 1 else revision) r.

Definition frame_delivery (p : Publication) (epoch : Z) : Delivery := {|
  Disposition := DeliveryFrame; d_Origin := p_Origin p; d_Frame := p_Frame p;
  d_DeviceGeneration := DeviceGeneration (p_Frame p); d_TransportGeneration := TransportGeneration (p_Frame p);
  DeliveryEpoch := epoch |}.

Definition stop_delivery (p : Publication) (epoch : Z) : Delivery := {|
  Disposition := DeliveryStop; d_Origin := p_Origin p; d_Frame := Frame_zero;
  d_DeviceGeneration := DeviceGeneration (p_Frame p); d_TransportGeneration := TransportGeneration (p_Frame p);
  DeliveryEpoch := epoch |}.

Definition setFrameEvent (r : Runtime) : Runtime := setEvent (frame_delivery (owner r) (ownerDeliveryEpoch r)) r.

Definition startOwner (p : Publication) (r : Runtime) : Runtime :=
  let epoch := u64 (nextDeliveryEpoch r + 1) in
  if epoch =? 0 then r
  else setFrameEvent (with_owner true false false p epoch epoch r).

(** No owner and no event. *)
Definition drop_owner (r : Runtime) : Runtime :=
  with_event false Delivery_zero (currentEventRevision r)
    (with_owner false (stopping r) (ownerMayHaveActuated r) Publication_zero 0 (nextDeliveryEpoch r) r).

Definition replaceUnadmittedOwner (p : Publication) (r : Runtime) : Runtime := startOwner p (drop_owner r).

Definition reevaluate (now : Z) (r : Runtime) : Runtime :=
  if stopping r then r
  else
    let winner := selectWinner now r in
    if negb (hasOwner r) then match winner with Some w => startOwner w r | None => r end
    else
      match winner with
      | Some w =>
          if sameRuntimeOwnership w (owner r) then
            if bool_decide (w = owner r) then r
            else setFrameEvent (with_owner true (stopping r) (ownerMayHaveActuated r) w (ownerDeliveryEpoch r)
                                  (nextDeliveryEpoch r) r)
          else if negb (ownerMayHaveActuated r) then replaceUnadmittedOwner w r
          else setEvent (stop_delivery (owner r) (ownerDeliveryEpoch r))
                 (with_owner true true true (owner r) (ownerDeliveryEpoch r) (nextDeliveryEpoch r) r)
      | None =>
          if negb (ownerMayHaveActuated r) then drop_owner r
          else setEvent (stop_delivery (owner r) (ownerDeliveryEpoch r))
                 (with_owner true true true (owner r) (ownerDeliveryEpoch r) (nextDeliveryEpoch r) r)
      end.

(** ** Publishers *)

Definition Publish (p : Publication) (r : Runtime) : Runtime * bool :=
  if negb (Publication_Valid p) then (r, false)
  else
    match slot (p_Origin p) r with
    | Some q => if negb (newerRuntimeFrame (p_Frame p) (p_Frame q)) then (r, false) else (set_slot (p_Origin p) p r, true)
    | None => (set_slot (p_Origin p) p r, true)
    end.

(** ** Writers *)

Definition MaxUint64 : Z := 18446744073709551615.

(** [address] is where the new lease is allocated. *)
Definition AcquireWriter (address dg tg : Z) (r : Runtime) : Runtime * option Z :=
  if (dg =? 0) || (tg =? 0) then (r, None)
  else if match activeWriter r with Some _ => true | None => false end || (nextWriterGeneration r =? MaxUint64) ||
          (hasEvent r && (negb (d_DeviceGeneration (currentEvent r) =? dg) ||
                          negb (d_TransportGeneration (currentEvent r) =? tg))) then (r, None)
  else
    let gen := nextWriterGeneration r + 1 in
    let w := {| w_self := address; WriterGeneration := gen; w_DeviceGeneration := dg; w_TransportGeneration := tg;
                nextClaimToken := 0; inFlightClaimToken := 0; inFlightEventRevision := 0; inFlightDelivery := Delivery_zero;
                inFlightAdmitted := false; completedEventRevision := 0; w_active := true |} in
    (with_writers (<[address := w]> (writers r)) (Some address) gen r, Some address).

(** The lease behind a pointer, when it is the current writer. *)
Definition currentWriter (writer : option Z) (r : Runtime) : option WriterLease :=
  match writer with
  | None => None
  | Some a =>
      match writers r !! a with
      | None => None
      | Some w => if (w_self w =? a) && w_active w && bool_decide (activeWriter r = Some a) &&
                     (WriterGeneration w =? nextWriterGeneration r) then Some w else None
      end
  end.

Definition clearRuntimeClaim (w : WriterLease) : WriterLease := {|
  w_self := w_self w; WriterGeneration := WriterGeneration w; w_DeviceGeneration := w_DeviceGeneration w;
  w_TransportGeneration := w_TransportGeneration w; nextClaimToken := nextClaimToken w; inFlightClaimToken := 0;
  inFlightEventRevision := 0; inFlightDelivery := Delivery_zero; inFlightAdmitted := false;
  completedEventRevision := completedEventRevision w; w_active := w_active w |}.

Definition deactivate (w : WriterLease) : WriterLease := {|
  w_self := w_self w; WriterGeneration := WriterGeneration w; w_DeviceGeneration := w_DeviceGeneration w;
  w_TransportGeneration := w_TransportGeneration w; nextClaimToken := nextClaimToken w;
  inFlightClaimToken := inFlightClaimToken w; inFlightEventRevision := inFlightEventRevision w;
  inFlightDelivery := inFlightDelivery w; inFlightAdmitted := inFlightAdmitted w;
  completedEventRevision := completedEventRevision w; w_active := false |}.

Definition begin_claim (token revision : Z) (d : Delivery) (w : WriterLease) : WriterLease := {|
  w_self := w_self w; WriterGeneration := WriterGeneration w; w_DeviceGeneration := w_DeviceGeneration w;
  w_TransportGeneration := w_TransportGeneration w; nextClaimToken := token; inFlightClaimToken := token;
  inFlightEventRevision := revision; inFlightDelivery := d; inFlightAdmitted := false;
  completedEventRevision := completedEventRevision w; w_active := w_active w |}.

Definition mark_admitted (w : WriterLease) : WriterLease := {|
  w_self := w_self w; WriterGeneration := WriterGeneration w; w_DeviceGeneration := w_DeviceGeneration w;
  w_TransportGeneration := w_TransportGeneration w; nextClaimToken := nextClaimToken w;
  inFlightClaimToken := inFlightClaimToken w; inFlightEventRevision := inFlightEventRevision w;
  inFlightDelivery := inFlightDelivery w; inFlightAdmitted := true;
  completedEventRevision := completedEventRevision w; w_active := w_active w |}.

Definition set_completed (revision : Z) (w : WriterLease) : WriterLease := {|
  w_self := w_self w; WriterGeneration := WriterGeneration w; w_DeviceGeneration := w_DeviceGeneration w;
  w_TransportGeneration := w_TransportGeneration w; nextClaimToken := nextClaimToken w;
  inFlightClaimToken := inFlightClaimToken w; inFlightEventRevision := inFlightEventRevision w;
  inFlightDelivery := inFlightDelivery w; inFlightAdmitted := inFlightAdmitted w;
  completedEventRevision := revision; w_active := w_active w |}.

(** A write through the writer's pointer. *)
Definition put_writer (w : WriterLease) (r : Runtime) : Runtime :=
  with_writers (<[w_self w := w]> (writers r)) (activeWriter r) (nextWriterGeneration r) r.

Definition RetireWriter (writer : option Z) (r : Runtime) : Runtime * bool :=
  match currentWriter writer r with
  | None => (r, false)
  | Some w =>
      if inFlightAdmitted w then (r, false)
      else
        let r := put_writer (deactivate (clearRuntimeClaim w)) r in
        (with_writers (writers r) None (nextWriterGeneration r) r, true)
  end.

Definition Claim (now : Z) (writer : option Z) (r : Runtime) : Runtime * (Delivery * DeliveryDisposition * Z) :=
  match currentWriter writer r with
  | None => (r, (Delivery_zero, DeliveryNone, 0))
  | Some w =>
      let r := reevaluate now r in
      if negb (hasEvent r) || negb (inFlightClaimToken w =? 0) || (completedEventRevision w =? currentEventRevision r) ||
         negb (w_DeviceGeneration w =? d_DeviceGeneration (currentEvent r)) ||
         negb (w_TransportGeneration w =? d_TransportGeneration (currentEvent r))
      then (r, (Delivery_zero, DeliveryNone, 0))
      else
        let token := u64 (nextClaimToken w + 1) in
        let token := if token =? 0 then 1 else token in
        (put_writer (begin_claim token (currentEventRevision r) (currentEvent r) w) r,
         (currentEvent r, Disposition (currentEvent r), token))
  end.

Definition exactClaim (writer : option Z) (token : Z) (r : Runtime) : option WriterLease :=
  match currentWriter writer r with
  | None => None
  | Some w => if negb (token =? 0) && (inFlightClaimToken w =? token) && negb (inFlightEventRevision w =? 0) &&
                 Delivery_Valid (inFlightDelivery w) then Some w else None
  end.

Definition set_actuated (b : bool) (r : Runtime) : Runtime :=
  with_owner (hasOwner r) (stopping r) b (owner r) (ownerDeliveryEpoch r) (nextDeliveryEpoch r) r.

Definition Admit (writer : option Z) (token now : Z) (r : Runtime) : Runtime * bool :=
  match exactClaim writer token r with
  | None => (r, false)
  | Some w =>
      if inFlightAdmitted w then (r, false)
      else
        let r := reevaluate now r in
        if negb (hasEvent r) || negb (currentEventRevision r =? inFlightEventRevision w) ||
           negb (bool_decide (currentEvent r = inFlightDelivery w)) ||
           negb (w_DeviceGeneration w =? d_DeviceGeneration (currentEvent r)) ||
           negb (w_TransportGeneration w =? d_TransportGeneration (currentEvent r)) then (r, false)
        else if bool_decide (Disposition (currentEvent r) = DeliveryFrame) && negb (FreshAt (d_Frame (currentEvent r)) now)
        then (r, false)
        else
          let r := put_writer (mark_admitted w) r in
          (if bool_decide (Disposition (currentEvent r) = DeliveryFrame) then set_actuated true r else r, true)
  end.

Definition Complete (writer : option Z) (token : Z) (delivered : bool) (now : Z) (r : Runtime) : Runtime * bool :=
  match exactClaim writer token r with
  | None => (r, false)
  | Some w =>
      if delivered && negb (inFlightAdmitted w) then (r, false)
      else
        let claimedRevision := inFlightEventRevision w in
        let claimed := inFlightDelivery w in
        let w' := if delivered then set_completed claimedRevision w else w in
        let r := put_writer (clearRuntimeClaim w') r in
        let r := if delivered && bool_decide (Disposition claimed = DeliveryStop) && hasEvent r &&
                    (currentEventRevision r =? claimedRevision) && bool_decide (currentEvent r = claimed)
                 then with_event false Delivery_zero (currentEventRevision r)
                        (with_owner false false false Publication_zero 0 (nextDeliveryEpoch r) r)
                 else r in
        (reevaluate now r, true)
  end.

Definition ReadCurrent (r : Runtime) : Delivery * Z * bool := (currentEvent r, currentEventRevision r, hasEvent r).

(** ** Runs

    Any calls in any order, also on copied or retired leases.  The log is what
    reaches the motors: a frame admitted to the writer, a stop delivered by it. *)

Inductive rop :=
| RPublish (p : Publication)
| RAcquire (address dg tg : Z)
| RRetire (writer : option Z)
| RClaim (now : Z) (writer : option Z)
| RAdmit (writer : option Z) (token now : Z)
| RComplete (writer : option Z) (token : Z) (delivered : bool) (now : Z)
| RCopy (from to : Z).

Inductive act := Moved (epoch : Z) | Stopped (epoch : Z).

Definition is_free (a : Z) (r : Runtime) : bool := match writers r !! a with None => true | Some _ => false end.

Definition rexec (r : Runtime) (o : rop) : Runtime * list act :=
  match o with
  | RPublish p => (fst (Publish p r), [])
  | RAcquire a dg tg => (if is_free a r then fst (AcquireWriter a dg tg r) else r, [])
  | RRetire w => (fst (RetireWriter w r), [])
  | RClaim now w => (fst (Claim now w r), [])
  | RAdmit w token now =>
      let '(r, ok) := Admit w token now r in
      (r, if ok && bool_decide (Disposition (currentEvent r) = DeliveryFrame) then [Moved (DeliveryEpoch (currentEvent r))] else [])
  | RComplete w token delivered now =>
      let stops := match exactClaim w token r with
        | Some l => if delivered && bool_decide (Disposition (inFlightDelivery l) = DeliveryStop)
                    then [Stopped (DeliveryEpoch (inFlightDelivery l))] else []
        | None => []
        end in
      let '(r, ok) := Complete w token delivered now r in (r, if ok then stops else [])
  | RCopy a b =>
      (match writers r !! a with
       | Some w => if is_free b r then with_writers (<[b := w]> (writers r)) (activeWriter r) (nextWriterGeneration r) r else r
       | None => r
       end, [])
  end.

Definition rstep (st : Runtime * list act) (o : rop) : Runtime * list act :=
  let '(r, log) := st in let '(r, acts) := rexec r o in (r, log ++ acts).

Definition rrun (ops : list rop) : Runtime * list act := foldl rstep (Runtime_zero, []) ops.

(** The controller's side: which delivery epoch may be driving a motor, and
    the last that did.  A frame must belong to that epoch, or be of a later one
    with the motors stopped; a stop must be of the epoch it stops.  [None] is a
    violation. *)
Definition track (st : option (option Z * Z)) (a : act) : option (option Z * Z) :=
  match st, a with
  | None, _ => None
  | Some (None, last), Moved e => if last <? e then Some (Some e, e) else None
  | Some (Some m, last), Moved e => if m =? e then Some (Some e, last) else None
  | Some (Some m, last), Stopped e => if m =? e then Some (None, last) else None
  | Some (None, _), Stopped _ => None
  end.

Definition motors (log : list act) : option (option Z * Z) := foldl track (Some (None, 0)) log.

Lemma motors_snoc log a : motors (log ++ [a]) = track (motors log) a.
Proof. unfold motors. by rewrite foldl_app. Qed.

(** *** The invariant *)

Definition slot_valid (s : publicationSlot) : Prop := match s with Some p => Publication_Valid p = true | None => True end.

(** What is selected was published. *)
Lemma consider_in now dg tg l winner w : foldl (considerRuntimeSlot now dg tg) winner l = Some w ->
  List.In (Some w) l \/ winner = Some w.
Proof.
  revert winner. induction l as [|s l IH]; intros winner; [by right|]. cbn [foldl]. intros [H|H]%IH; [by left; right|].
  destruct s as [p|]; cbn in H; [|by right]. case_if_in H; [by right|]. destruct winner as [v|]; [case_if_in H|];
    simplify_eq; try (by left; left); by right.
Qed.

Lemma select_valid now r w : Forall slot_valid (slots r) -> selectWinner now r = Some w -> Publication_Valid w = true.
Proof.
  intros Hs. unfold selectWinner. destruct (newestTarget r) as [[dg tg]|]; [|done]. intros [H|H]%consider_in; [|done].
  rewrite List.Forall_forall in Hs. exact (Hs (Some w) H).
Qed.

Record rcore (r : Runtime) (log : list act) : Prop := {
  rk_event : hasEvent r = hasOwner r;
  rk_none : hasOwner r = false -> stopping r = false /\ ownerMayHaveActuated r = false;
  rk_owner : hasOwner r = true -> 1 <= ownerDeliveryEpoch r <= nextDeliveryEpoch r /\
    currentEvent r = (if stopping r then stop_delivery else frame_delivery) (owner r) (ownerDeliveryEpoch r);
  rk_stopping : stopping r = true -> ownerMayHaveActuated r = true;
  rk_next : U64 (nextDeliveryEpoch r);
  rk_revision : hasEvent r = true -> currentEventRevision r <> 0;
  rk_slots : Forall slot_valid (slots r);
  rk_valid : hasOwner r = true -> Publication_Valid (owner r) = true;
  rk_motors : exists last, motors log = Some (if ownerMayHaveActuated r then Some (ownerDeliveryEpoch r) else None, last) /\
    last <= nextDeliveryEpoch r /\ (hasOwner r = true -> ownerMayHaveActuated r = false -> last < ownerDeliveryEpoch r);
}.

(** A stop in flight is the event. *)
Definition stop_pinned (r : Runtime) : Prop := forall a, activeWriter r = Some a -> exists w, writers r !! a = Some w /\
  w_self w = a /\ (Disposition (inFlightDelivery w) = DeliveryStop ->
    stopping r = true /\ inFlightDelivery w = currentEvent r /\ inFlightEventRevision w = currentEventRevision r).

Definition rinv (r : Runtime) (log : list act) : Prop := rcore r log /\ stop_pinned r.

(** Slots and writers are no part of the core. *)
Lemma rcore_frame r r' log : rcore r log -> hasOwner r' = hasOwner r -> stopping r' = stopping r ->
  ownerMayHaveActuated r' = ownerMayHaveActuated r -> owner r' = owner r -> ownerDeliveryEpoch r' = ownerDeliveryEpoch r ->
  nextDeliveryEpoch r' = nextDeliveryEpoch r -> hasEvent r' = hasEvent r -> currentEvent r' = currentEvent r ->
  currentEventRevision r' = currentEventRevision r -> Forall slot_valid (slots r') -> rcore r' log.
Proof.
  intros [] E1 E2 E3 E4 E5 E6 E7 E8 E9 E10. split; rewrite ?E1, ?E2, ?E3, ?E4, ?E5, ?E6, ?E7, ?E8, ?E9; auto.
Qed.

Lemma revision_nonzero v : (if u64 (v + 1) =? 0 then 1 else u64 (v + 1)) <> 0.
Proof. case_if; lia. Qed.

Lemma start_core p r log : rcore r log -> hasOwner r = false -> Publication_Valid p = true -> rcore (startOwner p r) log.
Proof.
  intros K Hn Hv. unfold startOwner. destruct (Z.eqb_spec (u64 (nextDeliveryEpoch r + 1)) 0) as [|Hne]; [exact K|].
  destruct K as [K1 K2 K3 K4 K5 K6 K7 K8 (last & Km & Kl & _)]. destruct (K2 Hn) as [Hs Ha].
  assert (Hb : u64 (nextDeliveryEpoch r + 1) = nextDeliveryEpoch r + 1) by (unfold u64 in *; zsolve).
  split; cbn; rewrite ?Hb; try done; try lia; try (intros _; apply revision_nonzero).
  - intros _. split; [lia|done].
  - unfold u64 in *. zsolve.
  - exists last. rewrite Ha in Km. split; [done|lia].
Qed.

Lemma drop_core r log : rcore r log -> ownerMayHaveActuated r = false -> rcore (drop_owner r) log.
Proof.
  intros [K1 K2 K3 K4 K5 K6 K7 K8 (last & Km & Kl & _)] Ha.
  assert (Hs : stopping r = false) by (destruct (stopping r); [|done]; rewrite K4 in Ha; done).
  split; cbn; rewrite ?Ha, ?Hs; try done. exists last. rewrite Ha in Km. done.
Qed.

Lemma stop_core r log : rcore r log -> hasOwner r = true -> ownerMayHaveActuated r = true ->
  rcore (setEvent (stop_delivery (owner r) (ownerDeliveryEpoch r))
    (with_owner true true true (owner r) (ownerDeliveryEpoch r) (nextDeliveryEpoch r) r)) log.
Proof.
  intros [K1 K2 K3 K4 K5 K6 K7 K8 (last & Km & Kl & _)] Ho Ha. destruct (K3 Ho) as [He _].
  split; cbn; try done; try (intros _; apply revision_nonzero); [intros _; by apply K8|]. exists last. rewrite Ha in Km. done.
Qed.

Lemma reevaluate_core now r log : rcore r log -> rcore (reevaluate now r) log.
Proof.
  intros K. unfold reevaluate. destruct (stopping r) eqn:Hs; [done|].
  destruct (hasOwner r) eqn:Ho; cbn [negb]; [|destruct (selectWinner now r) eqn:Ew; [|done]; apply start_core; [done|done|exact (select_valid _ _ _ (rk_slots _ _ K) Ew)]].
  destruct (selectWinner now r) as [w|] eqn:Ew; [pose proof (select_valid _ _ _ (rk_slots _ _ K) Ew) as Hv|].
  - case_if.
    + case_bool_decide; [done|]. destruct K as [K1 K2 K3 K4 K5 K6 K7 K8 (last & Km & Kl & Ku)]. destruct (K3 Ho) as [He _].
      split; cbn; try done; try (intros _; apply revision_nonzero). exists last. split; [done|]. split; [done|]. intros _. by apply Ku.
    + destruct (ownerMayHaveActuated r) eqn:Ha; cbn [negb]; [by apply stop_core|].
      apply start_core; [by apply drop_core|done|done].
  - destruct (ownerMayHaveActuated r) eqn:Ha; cbn [negb]; [by apply stop_core|by apply drop_core].
Qed.

(** Reevaluation leaves the writers alone, and a stop where it is. *)
Lemma reevaluate_writers now r : writers (reevaluate now r) = writers r /\ activeWriter (reevaluate now r) = activeWriter r /\
  nextWriterGeneration (reevaluate now r) = nextWriterGeneration r.
Proof.
  unfold reevaluate, replaceUnadmittedOwner, startOwner. case_if; [done|]. case_if; [destruct (selectWinner now r); [|done]; by case_if|].
  destruct (selectWinner now r); repeat case_if; done.
Qed.

Lemma reevaluate_pinned now r : stop_pinned r -> stop_pinned (reevaluate now r).
Proof.
  intros H a. destruct (reevaluate_writers now r) as (-> & -> & _). intros Ha.
  destruct (H a Ha) as (w & Hw & Hs & Hd). exists w. split; [done|]. split; [done|]. intros Hst. destruct (Hd Hst) as (H1 & H2 & H3).
  unfold reevaluate. by rewrite H1.
Qed.

Lemma reevaluate_inv now r log : rinv r log -> rinv (reevaluate now r) log.
Proof. intros [K P]. split; [by apply reevaluate_core|by apply reevaluate_pinned]. Qed.

(** *** Each operation *)

Lemma current_writer writer r w : stop_pinned r -> currentWriter writer r = Some w ->
  writer = Some (w_self w) /\ activeWriter r = Some (w_self w) /\ writers r !! w_self w = Some w /\
  (Disposition (inFlightDelivery w) = DeliveryStop ->
    stopping r = true /\ inFlightDelivery w = currentEvent r /\ inFlightEventRevision w = currentEventRevision r).
Proof.
  intros P. unfold currentWriter. destruct writer as [a|]; [|done]. destruct (writers r !! a) as [w0|] eqn:Ew; [|done].
  case_if; [|done]. intros [= ->]. bool_prop. assert (Ha : activeWriter r = Some a) by (by eapply bool_decide_eq_true_1).
  destruct (P a Ha) as (w' & Ew' & Hs & Hd). rewrite Ew in Ew'. injection Ew' as <-. subst a. done.
Qed.

(** Writing the current writer back with a claim that is no stop, or the same stop. *)
Lemma put_pinned w r : activeWriter r = Some (w_self w) -> (Disposition (inFlightDelivery w) = DeliveryStop ->
    stopping r = true /\ inFlightDelivery w = currentEvent r /\ inFlightEventRevision w = currentEventRevision r) ->
  stop_pinned (put_writer w r).
Proof.
  intros Ha Hd a. cbn. rewrite Ha. intros [= <-]. exists w. by rewrite lookup_insert_eq.
Qed.

Lemma put_core w r log : rcore r log -> rcore (put_writer w r) log.
Proof. intros K. apply (rcore_frame r); try done; apply K. Qed.

Lemma publish_inv_runtime p r log : rinv r log -> rinv (fst (Publish p r)) log.
Proof.
  intros [K P]. unfold Publish. case_if; [by split|]. apply negb_false_iff in Hb.
  assert (H : rinv (set_slot (p_Origin p) p r) log).
  { pose proof (rk_slots _ _ K) as Hs. unfold slots in Hs. rewrite !list.Forall_cons in Hs. destruct Hs as (S1 & S2 & S3 & S4 & _).
    unfold set_slot. repeat case_if; (split; [|exact P]); (apply (rcore_frame r); try done);
      unfold slots; cbn; rewrite !list.Forall_cons; split_and!; try done; by apply list.Forall_nil. }
  destruct (slot (p_Origin p) r); [case_if; [by split|]|]; exact H.
Qed.

Lemma acquire_inv a dg tg r log : rinv r log -> is_free a r = true -> rinv (fst (AcquireWriter a dg tg r)) log.
Proof.
  intros [K P] Hf. unfold AcquireWriter. case_if; [by split|]. case_if; [by split|]. split; [apply (rcore_frame r); try done; apply K|].
  intros b. cbn. intros [= <-]. eexists. by rewrite lookup_insert_eq.
Qed.

Lemma retire_inv writer r log : rinv r log -> rinv (fst (RetireWriter writer r)) log.
Proof.
  intros [K P]. unfold RetireWriter. destruct (currentWriter writer r); [|by split]. case_if; [by split|].
  split; [apply (rcore_frame r); try done; apply K|]. by intros a.
Qed.

Lemma claim_inv_runtime now writer r log : rinv r log -> rinv (fst (Claim now writer r)) log.
Proof.
  intros HI. unfold Claim. destruct (currentWriter writer r) as [w|] eqn:Ew; [|done].
  destruct (current_writer _ _ _ (proj2 HI) Ew) as (_ & Ha & _ & _).
  destruct (reevaluate_inv now r log HI) as [K P]. destruct (reevaluate_writers now r) as (_ & Eactive & _).
  case_if; [by split|]. bool_prop. split; [by apply put_core|]. apply put_pinned; [cbn; congruence|].
  cbn. intros Hd. split; [|done].
  assert (Ho : hasOwner (reevaluate now r) = true) by (rewrite <-(rk_event _ _ K); by destruct (hasEvent (reevaluate now r))).
  destruct (rk_owner _ _ K Ho) as [_ Ec]. rewrite Ec in Hd. by destruct (stopping (reevaluate now r)).
Qed.

Lemma copy_inv b w r log : rinv r log -> is_free b r = true ->
  rinv (with_writers (<[b := w]> (writers r)) (activeWriter r) (nextWriterGeneration r) r) log.
Proof.
  intros [K P] Hf. split; [apply (rcore_frame r); try done; apply K|]. intros c. cbn. intros Hc. destruct (P c Hc) as (w' & Hw & Hs).
  exists w'. split; [|done]. rewrite lookup_insert_ne; [done|]. intros ->. unfold is_free in Hf. by rewrite Hw in Hf.
Qed.

Lemma exact_current writer token r w : exactClaim writer token r = Some w -> currentWriter writer r = Some w.
Proof. unfold exactClaim. destruct (currentWriter writer r); [|done]. by case_if. Qed.

Lemma admit_inv_runtime writer token now r log : rinv r log ->
  rinv (fst (rexec r (RAdmit writer token now))) (log ++ snd (rexec r (RAdmit writer token now))).
Proof.
  intros HI. cbn [rexec]. unfold Admit.
  destruct (exactClaim writer token r) as [w|] eqn:Ex; [|cbn; by rewrite app_nil_r].
  destruct (current_writer _ _ _ (proj2 HI) (exact_current _ _ _ _ Ex)) as (_ & Ha & _ & Hd).
  case_if; [cbn; by rewrite app_nil_r|].
  pose proof (reevaluate_inv now r log HI) as [K P]. destruct (reevaluate_writers now r) as (_ & Eactive & _).
  set (r1 := reevaluate now r) in *.
  case_if; [cbn; rewrite app_nil_r; by split|]. case_if; [cbn; rewrite app_nil_r; by split|]. clear Hb1.
  cbn [andb]. bool_prop. change (currentEvent (put_writer (mark_admitted w) r1)) with (currentEvent r1).
  assert (Hp : stop_pinned (put_writer (mark_admitted w) r1)).
  { apply put_pinned; [cbn; congruence|]. cbn. intros Hst. destruct (Hd Hst) as (D1 & D2 & D3).
    unfold r1, reevaluate. by rewrite D1. }
  assert (Ho : hasOwner r1 = true) by (rewrite <-(rk_event _ _ K); by destruct (hasEvent r1)).
  destruct (decide (Disposition (currentEvent r1) = DeliveryFrame)) as [Hf|Hf].
  - rewrite !(bool_decide_true _ Hf). change (currentEvent (set_actuated true (put_writer (mark_admitted w) r1))) with (currentEvent r1).
    rewrite ?(bool_decide_true _ Hf). split; [|exact Hp].
    destruct (rk_owner _ _ K Ho) as [He Ec]. rewrite Ec in Hf |- *. destruct (stopping r1) eqn:Hs; [done|]. cbn [DeliveryEpoch frame_delivery].
    destruct K as [K1 K2 K3 K4 K5 K6 K7 K8 (last & Km & Kl & Ku)]. split; cbn; rewrite ?Hs; try done; [congruence|].
    rewrite motors_snoc, Km. destruct (ownerMayHaveActuated r1); cbn.
    + rewrite Z.eqb_refl. exists last. split; [done|]. split; [lia|done].
    + rewrite (proj2 (Z.ltb_lt _ _)) by (by apply Ku). eexists. split; [done|]. split; [lia|done].
  - rewrite !(bool_decide_false _ Hf). change (currentEvent (put_writer (mark_admitted w) r1)) with (currentEvent r1).
    rewrite ?(bool_decide_false _ Hf), app_nil_r. split; [by apply put_core|exact Hp].
Qed.

Lemma complete_inv_runtime writer token delivered now r log : rinv r log ->
  rinv (fst (rexec r (RComplete writer token delivered now))) (log ++ snd (rexec r (RComplete writer token delivered now))).
Proof.
  intros HI. cbn [rexec]. unfold Complete.
  destruct (exactClaim writer token r) as [w|] eqn:Ex; [|cbn; by rewrite app_nil_r].
  destruct (current_writer _ _ _ (proj2 HI) (exact_current _ _ _ _ Ex)) as (_ & Ha & _ & Hd).
  case_if; [cbn; by rewrite app_nil_r|]. clear Hb. cbn [fst snd].
  set (w' := if delivered then _ else _). destruct HI as [K P].
  assert (Hw : w_self w' = w_self w) by (unfold w'; by destruct delivered).
  assert (Hp : stop_pinned (put_writer (clearRuntimeClaim w') r)) by (apply put_pinned; [cbn; congruence|done]).
  set (r1 := put_writer (clearRuntimeClaim w') r) in *. apply reevaluate_inv.
  destruct (delivered && bool_decide (Disposition (inFlightDelivery w) = DeliveryStop)) eqn:Eb; cbn [andb].
  - apply andb_prop in Eb as [_ Hst]. apply bool_decide_eq_true in Hst. destruct (Hd Hst) as (D1 & D2 & D3).
    assert (Ho : hasOwner r = true) by (destruct (hasOwner r) eqn:E; [done|]; destruct (rk_none _ _ K E); congruence).
    change (hasEvent r1) with (hasEvent r). change (currentEventRevision r1) with (currentEventRevision r).
    change (currentEvent r1) with (currentEvent r). rewrite (rk_event _ _ K), Ho, D3, Z.eqb_refl, bool_decide_true by done. cbn [andb].
    destruct (rk_owner _ _ K Ho) as [He Ec]. rewrite D1 in Ec. pose proof (rk_stopping _ _ K D1) as Hact.
    destruct K as [_ _ _ _ K5 K6 K7 K8 (last & Km & Kl & _)]. rewrite Hact in Km. split.
    + split; cbn; try done; try (intros _; apply revision_nonzero). exists last. rewrite motors_snoc, Km, D2, Ec. cbn. rewrite Z.eqb_refl. done.
    + intros a Hact'. destruct (Hp a Hact') as (w0 & E1 & E2 & E3). exists w0. split; [done|]. split; [done|].
      cbn in E1. cbn in Hact'. rewrite Ha in Hact'. injection Hact' as <-.
      rewrite Hw, lookup_insert_eq in E1. injection E1 as <-. done.
  - rewrite app_nil_r. split; [by apply put_core|exact Hp].
Qed.

Lemma rstep_pair r log o : rstep (r, log) o = (fst (rexec r o), log ++ snd (rexec r o)).
Proof. unfold rstep. by destruct (rexec r o). Qed.

Lemma rstep_inv r log o : rinv r log -> rinv (fst (rstep (r, log) o)) (snd (rstep (r, log) o)).
Proof.
  intros HI. destruct o.
  - cbn. rewrite app_nil_r. by apply publish_inv_runtime.
  - cbn. rewrite app_nil_r. case_if; [by apply acquire_inv|done].
  - cbn. rewrite app_nil_r. by apply retire_inv.
  - cbn. rewrite app_nil_r. by apply claim_inv_runtime.
  - pose proof (admit_inv_runtime writer token now r log HI) as H. unfold rstep.
    by destruct (rexec r (RAdmit writer token now)).
  - pose proof (complete_inv_runtime writer token delivered now r log HI) as H. unfold rstep.
    by destruct (rexec r (RComplete writer token delivered now)).
  - cbn. rewrite app_nil_r. destruct (writers r !! from); [|done]. case_if; [by apply copy_inv|done].
Qed.

Lemma rrun_inv ops : rinv (fst (rrun ops)) (snd (rrun ops)).
Proof.
  induction ops as [|o ops IH] using rev_ind.
  - split; [|done]. split; try done; [repeat constructor|by exists 0].
  - unfold rrun in *. rewrite foldl_app. cbn [foldl]. destruct (foldl rstep _ ops) as [r log]. by apply rstep_inv.
Qed.

(** *** Guarantees *)

(** C19: motors are never left to a successor.  In every run of the runtime, whatever publishers, writers
    (also retired or copied ones) and clocks do, a frame reaches the motors only while they are stopped or
    driven by the same delivery epoch, epochs are used once and in order, every delivered stop is the one of
    the epoch that drove the motors, and the runtime always remembers which epoch may still be driving them. *)
Theorem motors_fenced ops :
  let '(r, log) := rrun ops in
  exists last, motors log = Some (if ownerMayHaveActuated r then Some (ownerDeliveryEpoch r) else None, last) /\
    last <= nextDeliveryEpoch r /\
    (ownerMayHaveActuated r = true -> hasOwner r = true /\ hasEvent r = true /\
     currentEvent r = (if stopping r then stop_delivery else frame_delivery) (owner r) (ownerDeliveryEpoch r)).
Proof.
  pose proof (rrun_inv ops) as [K _]. destruct (rrun ops) as [r log]. cbn [fst snd] in K.
  destruct (rk_motors _ _ K) as (last & Hm & Hl & _). exists last. split; [done|]. split; [done|]. intros Ha.
  assert (Ho : hasOwner r = true) by (destruct (hasOwner r) eqn:E; [done|]; destruct (rk_none _ _ K E); congruence).
  split; [done|]. split; [by rewrite (rk_event _ _ K)|]. by apply rk_owner with (log := log).
Qed.

(** *** Selection *)

(** A publication that may win. *)
Definition eligible (now dg tg : Z) (p : Publication) : bool :=
  (DeviceGeneration (p_Frame p) =? dg) && (TransportGeneration (p_Frame p) =? tg) &&
  negb (Command (p_Frame p) =? CommandStop) && FreshAt (p_Frame p) now.

Definition target_le (a b : Z * Z) : Prop := fst a < fst b \/ (fst a = fst b /\ snd a <= snd b).

Definition target_of (p : Publication) : Z * Z := (DeviceGeneration (p_Frame p), TransportGeneration (p_Frame p)).

Lemma newest_fold l found : let t := foldl findNewestRuntimeTarget found l in
  (t = None <-> found = None /\ forall p, ~ List.In (Some p) l) /\
  forall x, t = Some x -> (found = Some x \/ exists p, List.In (Some p) l /\ target_of p = x) /\
    (forall y, found = Some y -> target_le y x) /\ forall p, List.In (Some p) l -> target_le (target_of p) x.
Proof.
  revert found. induction l as [|s l IH]; intros found; cbn [foldl].
  - split; [naive_solver|]. intros x ->. split; [by left|]. split; [|done]. intros y [= ->]. unfold target_le. lia.
  - destruct (IH (findNewestRuntimeTarget found s)) as [I1 I2].
    destruct s as [p|]; cbn [findNewestRuntimeTarget] in *.
    2: { split; [rewrite I1; split; intros [? H]; (split; [done|]); intros q; [intros [|]; [done|by apply (H q)]|intros Hq; by apply (H q); right]|].
         intros x Hx. destruct (I2 x Hx) as (J1 & J2 & J3). split; [destruct J1 as [|(q & ? & ?)]; [by left|right; exists q; split; [by right|done]]|].
         split; [done|]. intros q [|Hq]; [done|by apply J3]. }
    assert (Hstep : exists m, findNewestRuntimeTarget found (Some p) = Some m /\ (found = Some m \/ target_of p = m) /\
      target_le (target_of p) m /\ forall y, found = Some y -> target_le y m).
    { cbn [findNewestRuntimeTarget]. destruct found as [[dg tg]|].
      - case_if; (eexists; split; [reflexivity|]); unfold target_le, target_of in *; cbn; repeat rewrite ?orb_true_iff, ?orb_false_iff, ?andb_true_iff, ?andb_false_iff, ?Z.ltb_lt, ?Z.ltb_ge, ?Z.eqb_eq, ?Z.eqb_neq in *;
          (split; [auto|]); (split; [lia|]); intros y [= <-]; cbn; lia.
      - eexists. split; [reflexivity|]. split; [by right|]. split; [right; unfold target_of; cbn; lia|done]. }
    destruct Hstep as (m & Em & Hm1 & Hm2 & Hm3). cbn [findNewestRuntimeTarget] in Em. rewrite Em in *.
    split.
    + split; [intros H; apply I1 in H; naive_solver|]. intros [_ H]. exfalso. by apply (H p); left.
    + intros x Hx. destruct (I2 x Hx) as (J1 & J2 & J3). specialize (J2 m eq_refl).
      assert (Ht : forall y, target_le y m -> target_le y x) by (unfold target_le in *; intros; lia).
      split; [|split].
      * destruct J1 as [[= <-]|(q & Hq & Eq)]; [destruct Hm1; [by left|right; exists p; split; [by left|done]]|].
        right. exists q. split; [by right|done].
      * intros y Hy. by apply Ht, Hm3.
      * intros q [[= <-]|Hq]; [by apply Ht|by apply J3].
Qed.

Lemma consider_eligible now dg tg winner s : considerRuntimeSlot now dg tg winner s =
  match s with
  | Some p => if eligible now dg tg p
              then match winner with Some w => if p_Origin w <? p_Origin p then Some p else winner | None => Some p end
              else winner
  | None => winner
  end.
Proof.
  destruct s as [p|]; [|done]. cbn. unfold eligible. destruct (DeviceGeneration (p_Frame p) =? dg); [|done].
  destruct (TransportGeneration (p_Frame p) =? tg); [|done]. destruct (Command (p_Frame p) =? CommandStop); [done|].
  by destruct (FreshAt (p_Frame p) now).
Qed.

Lemma consider_fold now dg tg l winner : let t := foldl (considerRuntimeSlot now dg tg) winner l in
  (t = None -> winner = None /\ forall p, List.In (Some p) l -> eligible now dg tg p = false) /\
  forall w, t = Some w -> (winner = Some w \/ (List.In (Some w) l /\ eligible now dg tg w = true)) /\
    (forall v, winner = Some v -> p_Origin v <= p_Origin w) /\
    forall p, List.In (Some p) l -> eligible now dg tg p = true -> p_Origin p <= p_Origin w.
Proof.
  revert winner. induction l as [|s l IH]; intros winner; cbn [foldl].
  - split; [done|]. intros w ->. split; [by left|]. split; [|done]. intros v [= ->]. lia.
  - destruct (IH (considerRuntimeSlot now dg tg winner s)) as [I1 I2]. rewrite consider_eligible in *. split.
    + intros H. destruct (I1 H) as [H1 H2]. destruct s as [p|]; [|split; [done|]; intros q [|Hq]; [done|by apply H2]].
      destruct (eligible now dg tg p) eqn:Ee; [destruct winner; [case_if_in H1|]; done|].
      split; [done|]. intros q [[= <-]|Hq]; [done|by apply H2].
    + intros w Hw. destruct (I2 w Hw) as (J1 & J2 & J3). destruct s as [p|].
      2: { split; [destruct J1 as [|[? ?]]; [by left|right; split; [by right|done]]|]. split; [done|]. intros q [|Hq]; [done|by apply J3]. }
      destruct (eligible now dg tg p) eqn:Ee.
      * assert (Hp : p_Origin p <= p_Origin w /\ forall v, winner = Some v -> p_Origin v <= p_Origin w).
        { destruct winner as [v|]; [|split; [by apply J2|done]]. destruct (Z.ltb_spec (p_Origin v) (p_Origin p)).
          - pose proof (J2 p eq_refl). split; [done|]. intros v' [= <-]. lia.
          - pose proof (J2 v eq_refl). split; [lia|]. by intros v' [= <-]. }
        split; [|split; [exact (proj2 Hp)|]].
        -- destruct J1 as [J1|[? ?]]; [|right; split; [by right|done]]. destruct winner as [v|]; [case_if_in J1|]; simplify_eq;
             first [by left | right; split; [by left|done]].
        -- intros q [[= <-]|Hq] Hq'; [exact (proj1 Hp)|by apply J3].
      * split; [destruct J1 as [|[? ?]]; [by left|right; split; [by right|done]]|]. split; [done|].
        intros q [[= <-]|Hq] Hq'; [congruence|by apply J3].
Qed.

(** The winner is the publication of highest priority among those that are
    alive in the newest generation any publisher has reached; there is none
    exactly when none is alive there. *)
Lemma winner_highest now r w : selectWinner now r = Some w ->
  List.In (Some w) (slots r) /\ FreshAt (p_Frame w) now = true /\ Command (p_Frame w) <> CommandStop /\
  (forall p, List.In (Some p) (slots r) -> target_le (target_of p) (target_of w)) /\
  forall p, List.In (Some p) (slots r) -> target_of p = target_of w -> Command (p_Frame p) <> CommandStop ->
    FreshAt (p_Frame p) now = true -> p_Origin p <= p_Origin w.
Proof.
  unfold selectWinner. destruct (newestTarget r) as [[dg tg]|] eqn:En; [|done].
  destruct (newest_fold (slots r) None) as [_ Hn]. destruct (Hn _ En) as (_ & _ & Hmax).
  destruct (consider_fold now dg tg (slots r) None) as [_ Hc]. intros Hw. destruct (Hc w Hw) as ([|[Hin He]] & _ & Hbest); [done|].
  unfold eligible in He. bool_prop. split; [done|]. split; [done|]. split; [done|].
  assert (Et : target_of w = (dg, tg)) by (unfold target_of; congruence). rewrite Et. split; [done|].
  intros p Hp Etp Hcmd Hf. apply Hbest; [done|]. unfold eligible. injection Etp as -> ->.
  by rewrite !Z.eqb_refl, (proj2 (Z.eqb_neq _ _) Hcmd), Hf.
Qed.

(** *** A stop can always be delivered *)

Lemma stop_valid p epoch : Publication_Valid p = true -> epoch <> 0 -> Delivery_Valid (stop_delivery p epoch) = true.
Proof.
  unfold Publication_Valid, Delivery_Valid. intros [Ho Hf]%andb_prop He. cbn. rewrite Ho, (proj2 (Z.eqb_neq _ _) He). cbn [negb orb].
  unfold Valid, Validate in Hf. repeat (case_if_in Hf; [done|]).
  destruct (DeviceGeneration (p_Frame p) =? 0), (TransportGeneration (p_Frame p) =? 0); done.
Qed.

(** An owner whose frame no longer wins is to be stopped. *)
Definition superseded (now : Z) (r : Runtime) : bool :=
  stopping r || match selectWinner now r with Some w => negb (sameRuntimeOwnership w (owner r)) | None => true end.

Lemma superseded_stop now r log : rcore r log -> ownerMayHaveActuated r = true -> superseded now r = true ->
  let r' := reevaluate now r in hasEvent r' = true /\ stopping r' = true /\
    currentEvent r' = stop_delivery (owner r) (ownerDeliveryEpoch r) /\ currentEventRevision r' <> 0 /\
    owner r' = owner r /\ ownerDeliveryEpoch r' = ownerDeliveryEpoch r.
Proof.
  intros K Ha Hs r'.
  assert (Ho : hasOwner r = true) by (destruct (hasOwner r) eqn:E; [done|]; destruct (rk_none _ _ K E); congruence).
  assert (He : hasEvent r = true) by (by rewrite (rk_event _ _ K)). destruct (rk_owner _ _ K Ho) as [_ Ec].
  unfold r', reevaluate. unfold superseded in Hs. destruct (stopping r) eqn:Es.
  - split_and!; try done. by apply (rk_revision _ _ K).
  - rewrite Ho, Ha. cbn [negb orb] in *. destruct (selectWinner now r) as [w|].
    + apply negb_true_iff in Hs. rewrite Hs. split_and!; try done. apply revision_nonzero.
    + split_and!; try done. apply revision_nonzero.
Qed.

Lemma current_of a w r : writers r !! a = Some w -> w_self w = a -> w_active w = true -> activeWriter r = Some a ->
  WriterGeneration w = nextWriterGeneration r -> currentWriter (Some a) r = Some w.
Proof.
  intros Hw Hs Ha Hr Hg. unfold currentWriter. rewrite Hw, Hs, Ha, Hg, !Z.eqb_refl. by rewrite bool_decide_true.
Qed.

Lemma stopping_still now r : stopping r = true -> reevaluate now r = r.
Proof. intros H. unfold reevaluate. by rewrite H. Qed.

(** The stop in the hands of the writer at [a]. *)
Record stop_claimed (a token : Z) (d : Delivery) (w : WriterLease) (r : Runtime) : Prop := {
  sk_stop : Disposition d = DeliveryStop /\ Delivery_Valid d = true;
  sk_event : hasEvent r = true /\ stopping r = true /\ currentEvent r = d /\ currentEventRevision r <> 0;
  sk_writer : writers r !! a = Some w /\ w_self w = a /\ w_active w = true /\ activeWriter r = Some a /\
    WriterGeneration w = nextWriterGeneration r;
  sk_target : w_DeviceGeneration w = d_DeviceGeneration d /\ w_TransportGeneration w = d_TransportGeneration d;
  sk_claim : token <> 0 /\ inFlightClaimToken w = token /\ inFlightDelivery w = d /\
    inFlightEventRevision w = currentEventRevision r;
}.

Lemma claimed_exact a token d w r : stop_claimed a token d w r -> exactClaim (Some a) token r = Some w.
Proof.
  intros [[K1 K2] (K3 & K4 & K5 & K6) (K7 & K8 & K9 & K10 & K11) _ (K12 & K13 & K14 & K15)]. unfold exactClaim.
  rewrite (current_of a w r) by done. rewrite K13, K14, K15, K2, Z.eqb_refl.
  by rewrite (proj2 (Z.eqb_neq _ _) K12), (proj2 (Z.eqb_neq _ _) K6).
Qed.

Lemma claimed_admits a token d w r now : stop_claimed a token d w r -> inFlightAdmitted w = false ->
  rexec r (RAdmit (Some a) token now) = (put_writer (mark_admitted w) r, []) /\
  stop_claimed a token d (mark_admitted w) (put_writer (mark_admitted w) r).
Proof.
  intros K Hna. pose proof (claimed_exact _ _ _ _ _ K) as Hx.
  destruct K as [[K1 K2] (K3 & K4 & K5 & K6) (K7 & K8 & K9 & K10 & K11) [K16 K17] (K12 & K13 & K14 & K15)]. split.
  - cbn [rexec]. unfold Admit. rewrite Hx, Hna, stopping_still, K3, K15, K5, K14, K16, K17, !Z.eqb_refl by done.
    rewrite (bool_decide_true (d = d)) by done. cbn [negb orb].
    assert (Hn : Disposition d <> DeliveryFrame) by congruence. rewrite (bool_decide_false _ Hn). cbn [andb].
    change (currentEvent (put_writer (mark_admitted w) r)) with (currentEvent r). rewrite K5, (bool_decide_false _ Hn).
    change (currentEvent (put_writer (mark_admitted w) r)) with (currentEvent r). by rewrite K5, (bool_decide_false _ Hn).
  - split; cbn; try done. by rewrite K8, lookup_insert_eq.
Qed.

Lemma claimed_completes a token d w r now : stop_claimed a token d w r -> inFlightAdmitted w = true ->
  snd (rexec r (RComplete (Some a) token true now)) = [Stopped (DeliveryEpoch d)].
Proof.
  intros K Had. pose proof (claimed_exact _ _ _ _ _ K) as Hx.
  destruct K as [[K1 _] _ _ _ (_ & _ & K14 & _)].
  cbn [rexec]. unfold Complete. rewrite Hx, Had, K14. cbn [andb negb]. by rewrite bool_decide_true.
Qed.

(** A writer of the owner's generation with nothing in hand, and an owner that may drive a motor. *)
Record writer_waits (a : Z) (w : WriterLease) (p : Publication) (epoch : Z) (r : Runtime) : Prop := {
  ww_writer : writers r !! a = Some w /\ w_self w = a /\ w_active w = true /\ activeWriter r = Some a /\
    WriterGeneration w = nextWriterGeneration r;
  ww_fresh : inFlightClaimToken w = 0 /\ completedEventRevision w = 0 /\ nextClaimToken w = 0;
  ww_target : w_DeviceGeneration w = DeviceGeneration (p_Frame p) /\ w_TransportGeneration w = TransportGeneration (p_Frame p);
  ww_owner : owner r = p /\ ownerDeliveryEpoch r = epoch /\ ownerMayHaveActuated r = true;
}.

Lemma acquire_waits a r log : rcore r log -> ownerMayHaveActuated r = true -> activeWriter r = None ->
  nextWriterGeneration r <> MaxUint64 -> is_free a r = true ->
  let f := p_Frame (owner r) in
  exists w, writer_waits a w (owner r) (ownerDeliveryEpoch r) (fst (rexec r (RAcquire a (DeviceGeneration f) (TransportGeneration f)))) /\
    snd (rexec r (RAcquire a (DeviceGeneration f) (TransportGeneration f))) = [].
Proof.
  intros K Ha Hact Hgen Hf f.
  assert (Ho : hasOwner r = true) by (destruct (hasOwner r) eqn:E; [done|]; destruct (rk_none _ _ K E); congruence).
  assert (He : hasEvent r = true) by (by rewrite (rk_event _ _ K)). destruct (rk_owner _ _ K Ho) as [Hep Ec].
  pose proof (stop_valid (owner r) (ownerDeliveryEpoch r) (rk_valid _ _ K Ho) ltac:(lia)) as Hsv.
  assert (Hg : DeviceGeneration f <> 0 /\ TransportGeneration f <> 0).
  { unfold Delivery_Valid in Hsv. case_if_in Hsv; [done|]. cbn in Hb. bool_prop. done. }
  destruct Hg as [Hdg Htg].
  assert (Et : d_DeviceGeneration (currentEvent r) = DeviceGeneration f /\ d_TransportGeneration (currentEvent r) = TransportGeneration f)
    by (rewrite Ec; by destruct (stopping r)).
  destruct Et as [Et1 Et2].
  exists {| w_self := a; WriterGeneration := nextWriterGeneration r + 1; w_DeviceGeneration := DeviceGeneration f;
            w_TransportGeneration := TransportGeneration f; nextClaimToken := 0; inFlightClaimToken := 0;
            inFlightEventRevision := 0; inFlightDelivery := Delivery_zero; inFlightAdmitted := false;
            completedEventRevision := 0; w_active := true |}.
  split; [|done]. cbn [rexec fst]. rewrite Hf. unfold AcquireWriter.
  rewrite (proj2 (Z.eqb_neq _ _) Hdg), (proj2 (Z.eqb_neq _ _) Htg), Hact, (proj2 (Z.eqb_neq _ _) Hgen), He, Et1, Et2, !Z.eqb_refl.
  cbn [orb negb andb fst]. split; cbn; try done. split_and!; try done. by rewrite lookup_insert_eq.
Qed.

(** What others do, publishers and holders of other leases, does not reach the writer at [a]. *)
Definition others (a : Z) (o : rop) : bool :=
  match o with
  | RRetire w | RClaim _ w | RAdmit w _ _ | RComplete w _ _ _ => bool_decide (w <> Some a)
  | RPublish _ | RAcquire _ _ _ | RCopy _ _ => true
  end.

Lemma others_exec a w o r : others a o = true -> writers r !! a = Some w -> activeWriter r = Some a ->
  let r' := fst (rexec r o) in
  snd (rexec r o) = [] /\ writers r' !! a = Some w /\ activeWriter r' = Some a /\
  nextWriterGeneration r' = nextWriterGeneration r /\ hasOwner r' = hasOwner r /\ stopping r' = stopping r /\
  ownerMayHaveActuated r' = ownerMayHaveActuated r /\ owner r' = owner r /\ ownerDeliveryEpoch r' = ownerDeliveryEpoch r /\
  hasEvent r' = hasEvent r /\ currentEvent r' = currentEvent r /\ currentEventRevision r' = currentEventRevision r.
Proof.
  intros Ho Hw Ha.
  assert (Hnc : forall x, x <> Some a -> currentWriter x r = None).
  { intros x Hx. unfold currentWriter. destruct x as [b|]; [|done]. destruct (writers r !! b); [|done].
    rewrite (bool_decide_false (activeWriter r = Some b)) by congruence. by rewrite !andb_false_r. }
  assert (Hne : forall x token, x <> Some a -> exactClaim x token r = None).
  { intros x token Hx. unfold exactClaim. by rewrite Hnc. }
  destruct o as [p|b dg tg|x|now x|x token now|x token d now|b c]; cbn [rexec others] in *; try apply bool_decide_eq_true in Ho.
  - assert (Hs : forall origin q, let r' := set_slot origin q r in
      writers r' !! a = Some w /\ activeWriter r' = Some a /\ nextWriterGeneration r' = nextWriterGeneration r /\
      hasOwner r' = hasOwner r /\ stopping r' = stopping r /\ ownerMayHaveActuated r' = ownerMayHaveActuated r /\
      owner r' = owner r /\ ownerDeliveryEpoch r' = ownerDeliveryEpoch r /\ hasEvent r' = hasEvent r /\
      currentEvent r' = currentEvent r /\ currentEventRevision r' = currentEventRevision r)
      by (intros; unfold r', set_slot; repeat case_if; by split_and!).
    unfold Publish. cbn [fst snd]. split; [done|]. repeat (case_match; try (by split_and!); try apply Hs).
  - cbn [fst snd]. unfold AcquireWriter. rewrite Ha. by repeat (case_if; try (by split_and!)).
  - unfold RetireWriter. rewrite (Hnc x Ho). by split_and!.
  - unfold Claim. rewrite (Hnc x Ho). by split_and!.
  - unfold Admit. rewrite (Hne x token Ho). by split_and!.
  - unfold Complete. rewrite (Hne x token Ho). by split_and!.
  - cbn [fst snd]. destruct (writers r !! b) as [l|] eqn:Eb; [|by split_and!]. case_if; [|by split_and!]. split_and!; try done.
    cbn. rewrite lookup_insert_ne; [done|]. intros ->. unfold is_free in Hb. by rewrite Hw in Hb.
Qed.

Lemma others_wait a w p epoch o r : others a o = true -> writer_waits a w p epoch r ->
  snd (rexec r o) = [] /\ writer_waits a w p epoch (fst (rexec r o)).
Proof.
  intros Ho [(K1 & K2 & K3 & K4 & K5) Kf Kt (K6 & K7 & K8)].
  destruct (others_exec a w o r Ho K1 K4) as (H1 & H2 & H3 & H4 & _ & _ & H7 & H8 & H9 & _). split; [done|].
  split; try done; split_and!; congruence.
Qed.

Lemma others_claimed a token d w o r : others a o = true -> stop_claimed a token d w r ->
  snd (rexec r o) = [] /\ stop_claimed a token d w (fst (rexec r o)).
Proof.
  intros Ho [K1 (K2 & K3 & K4 & K5) (K6 & K7 & K8 & K9 & K10) K11 (K12 & K13 & K14 & K15)].
  destruct (others_exec a w o r Ho K6 K9) as (H1 & H2 & H3 & H4 & _ & H6 & _ & _ & _ & H10 & H11 & H12). split; [done|].
  split; try done; split_and!; congruence.
Qed.

(** Steps of others, one after another. *)
Lemma others_run (P : Runtime -> Prop) a l st : Forall (fun o => others a o = true) l ->
  (forall o r, others a o = true -> P r -> snd (rexec r o) = [] /\ P (fst (rexec r o))) -> P (fst st) ->
  snd (foldl rstep st l) = snd st /\ P (fst (foldl rstep st l)).
Proof.
  intros Hl Hstep. revert st. induction Hl as [|o l Ho _ IH]; intros [r log] HP; [done|]. cbn [foldl].
  rewrite rstep_pair. destruct (Hstep o r Ho HP) as [E HP']. rewrite E, app_nil_r. exact (IH (fst (rexec r o), log) HP').
Qed.

Lemma waits_claims a w p epoch now r log : rcore r log -> writer_waits a w p epoch r -> superseded now r = true ->
  exists w', stop_claimed a 1 (stop_delivery p epoch) w' (fst (rexec r (RClaim now (Some a)))) /\
    inFlightAdmitted w' = false /\ snd (rexec r (RClaim now (Some a))) = [].
Proof.
  intros K [(K1 & K2 & K3 & K4 & K5) (F1 & F2 & F3) [T1 T2] (<- & <- & Ha)] Hs.
  assert (Ho : hasOwner r = true) by (destruct (hasOwner r) eqn:E; [done|]; destruct (rk_none _ _ K E); congruence).
  destruct (rk_owner _ _ K Ho) as [Hep _].
  pose proof (stop_valid (owner r) (ownerDeliveryEpoch r) (rk_valid _ _ K Ho) ltac:(lia)) as Hsv.
  destruct (superseded_stop now r log K Ha Hs) as (V1 & V2 & V3 & V4 & _).
  destruct (reevaluate_writers now r) as (W1 & W2 & W3).
  set (r2 := reevaluate now r) in *. exists (begin_claim 1 (currentEventRevision r2) (currentEvent r2) w).
  assert (Ecl : fst (rexec r (RClaim now (Some a))) = put_writer (begin_claim 1 (currentEventRevision r2) (currentEvent r2) w) r2).
  { cbn [rexec fst]. unfold Claim. rewrite (current_of a w r) by done. fold r2. rewrite V1, V3, F1, F2, F3.
    rewrite (proj2 (Z.eqb_neq 0 (currentEventRevision r2))) by done. cbn. by rewrite T1, T2, !Z.eqb_refl. }
  rewrite Ecl. split; [|done]. split; cbn; rewrite ?V3; try done.
  split_and!; try done; [by rewrite K2, lookup_insert_eq|by rewrite W2|by rewrite W3].
Qed.

(** C20: a stop that is owed can always be delivered, and nobody but its writer can prevent it.  In every run in
    which a motor may still be driven and no writer is active, let a writer of the owner's generation be acquired
    (possible as long as fewer than 2^64 - 1 writers ever were).  If the owner's frame has expired, was withdrawn or
    was overtaken when that writer claims, it obtains exactly the owner's stop, its admission succeeds and its
    completion stops the motors, at whatever times it makes the three calls and whatever publishers and holders of
    other leases do before, between and after them. *)
Theorem owed_stop_delivered ops a now1 now2 now3 o1 o2 o3 :
  Forall (fun o => others a o = true) (o1 ++ o2 ++ o3) ->
  let '(r, log) := rrun ops in
  ownerMayHaveActuated r = true -> activeWriter r = None -> nextWriterGeneration r <> MaxUint64 -> is_free a r = true ->
  let f := p_Frame (owner r) in
  let ops1 := ops ++ RAcquire a (DeviceGeneration f) (TransportGeneration f) :: o1 in
  superseded now1 (fst (rrun ops1)) = true ->
  let log' := snd (rrun (ops1 ++ RClaim now1 (Some a) :: o2 ++ RAdmit (Some a) 1 now2 :: o3 ++
                         [RComplete (Some a) 1 true now3])) in
  log' = log ++ [Stopped (ownerDeliveryEpoch r)] /\ exists last, motors log' = Some (None, last).
Proof.
  intros [H1 [H2 H3]%Forall_app]%Forall_app. pose proof (rrun_inv ops) as [K _]. destruct (rrun ops) as [r log] eqn:Er. cbn [fst snd] in K.
  intros Ha Hact Hgen Hf f ops1 Hs log'.
  destruct (acquire_waits a r log K Ha Hact Hgen Hf) as (w & Kw & E1). fold f in Kw, E1.
  assert (Ka : snd (rrun ops1) = log /\ writer_waits a w (owner r) (ownerDeliveryEpoch r) (fst (rrun ops1))).
  { unfold ops1, rrun. rewrite foldl_app. fold (rrun ops). rewrite Er. cbn [foldl]. rewrite rstep_pair, E1, app_nil_r.
    apply (others_run _ a o1 (_, log) H1); [|done]. intros o r' Ho Hw. by apply others_wait. }
  destruct Ka as [El Ka]. pose proof (rrun_inv ops1) as [K1 _].
  destruct (waits_claims _ _ _ _ now1 _ _ K1 Ka Hs) as (w' & Kc & Hna & E2).
  assert (Elog : log' = log ++ [Stopped (ownerDeliveryEpoch r)]).
  { unfold log', rrun. rewrite foldl_app. fold (rrun ops1). destruct (rrun ops1) as [r1 log1]. cbn [fst snd] in *. subst log1.
    cbn [foldl]. rewrite rstep_pair, E2, app_nil_r, foldl_app.
    destruct (others_run _ a o2 (fst (rexec r1 (RClaim now1 (Some a))), log) H2
      (fun o r' Ho Hc => others_claimed a 1 _ w' o r' Ho Hc) Kc) as [El2 Kc2].
    destruct (foldl rstep _ o2) as [r2 log2]. cbn [fst snd] in *. subst log2. cbn [foldl].
    destruct (claimed_admits _ _ _ _ _ now2 Kc2 Hna) as [E3 Kd]. rewrite rstep_pair, E3, app_nil_r, foldl_app. cbn [fst].
    destruct (others_run _ a o3 (_, log) H3 (fun o r' Ho Hc => others_claimed a 1 _ _ o r' Ho Hc) Kd) as [El3 Kd3].
    destruct (foldl rstep _ o3) as [r3 log3]. cbn [fst snd] in *. subst log3. cbn [foldl].
    by rewrite rstep_pair, (claimed_completes _ _ _ _ _ now3 Kd3 eq_refl). }
  split; [exact Elog|]. destruct (rk_motors _ _ K) as (last & Hm & _). exists last.
  rewrite Elog, motors_snoc, Hm, Ha. cbn. by rewrite Z.eqb_refl.
Qed.

(** A game's frame reaches the motors, its writer goes, and it expires. *)
Definition demo_run : list rop :=
  [RPublish {| p_Origin := PublicationOriginNativeGame; p_Frame := demo_frame 1 500 7 2 1000 |}; RAcquire 7 1 1;
   RClaim 1000 (Some 7); RAdmit (Some 7) 1 1000; RComplete (Some 7) 1 true 1000; RRetire (Some 7)].

Lemma motors_fenced_witness : snd (rrun demo_run) = [Moved 1] /\ motors (snd (rrun demo_run)) = Some (Some 1, 1) /\
  exists last, motors (snd (rrun demo_run)) =
    Some (if ownerMayHaveActuated (fst (rrun demo_run)) then Some (ownerDeliveryEpoch (fst (rrun demo_run))) else None, last).
Proof.
  split; [vm_compute; reflexivity|]. split; [vm_compute; reflexivity|].
  pose proof (motors_fenced demo_run) as H. destruct (rrun demo_run) as [r log]. destruct H as (last & H & _). by exists last.
Defined.

(** Publishers and a copied lease get in between every two calls of the writer. *)
Lemma owed_stop_delivered_witness :
  let p := {| p_Origin := PublicationOriginTestPreview; p_Frame := demo_frame 1 900 8 3 390000 |} in
  snd (rrun ((demo_run ++ [RAcquire 9 1 1; RPublish p]) ++ RClaim 400000 (Some 9) :: [RCopy 9 11; RClaim 400001 (Some 11)] ++
    RAdmit (Some 9) 1 410000 :: [RPublish p] ++ [RComplete (Some 9) 1 true 420000])) = [Moved 1; Stopped 1].
Proof.
  intros p. pose proof (owed_stop_delivered demo_run 9 400000 410000 420000 [RPublish p] [RCopy 9 11; RClaim 400001 (Some 11)]
    [RPublish p] ltac:(repeat constructor)) as H. destruct (rrun demo_run) as [r log] eqn:E.
  assert (Er : r = fst (rrun demo_run)) by (by rewrite E). assert (El : log = snd (rrun demo_run)) by (by rewrite E).
  assert (Hl : snd (rrun demo_run) = [Moved 1]) by (vm_compute; reflexivity). rewrite Hl in El.
  assert (Hf : p_Frame (owner r) = demo_frame 1 500 7 2 1000) by (rewrite Er; vm_compute; reflexivity).
  assert (He : ownerDeliveryEpoch r = 1) by (rewrite Er; vm_compute; reflexivity).
  specialize (H ltac:(rewrite Er; vm_compute; reflexivity) ltac:(rewrite Er; vm_compute; reflexivity)
    ltac:(rewrite Er; vm_compute; discriminate) ltac:(rewrite Er; vm_compute; reflexivity)).
  cbv zeta in H. rewrite Hf in H. cbn [DeviceGeneration TransportGeneration demo_frame] in H.
  specialize (H ltac:(vm_compute; reflexivity)). destruct H as [H _]. rewrite El, He in H. exact H.
Defined.

(** Without the stop a successor could not move the motors: a second game's
    frame, published in time, waits for it. *)
Example successor_waits :
  let ops := demo_run ++ [RPublish {| p_Origin := PublicationOriginTestPreview; p_Frame := demo_frame 1 900 8 3 2000 |};
    RAcquire 9 1 1; RClaim 3000 (Some 9); RAdmit (Some 9) 1 3000; RComplete (Some 9) 1 true 3000;
    RClaim 3000 (Some 9); RAdmit (Some 9) 2 3000] in
  snd (rrun ops) = [Moved 1; Stopped 1; Moved 2].
Proof. vm_compute. reflexivity. Qed.
