(* ===== verification/InputPresentation.v ===== *)
(** * The input presentation scheduler
      (src/internal/inputpresentation/scheduler.go, contract.go)

    A controller's interrupt reports are presented from a latest-state slot, a
    journal of ordered transitions and one retry slot.  A transport claims one
    immutable report, admits it and resolves it as committed, deferred or
    retired.  Overflow and stale ordered history fault: the history is purged, a
    neutral report is presented first, and the producer must resynchronize.

    Every method runs under the scheduler's mutex and is a function on the
    state.  The encoder may update the state it is given and its own
    environment, which is threaded through.  Only the first [reportSize] bytes
    of the fixed arrays are ever read, so an array is the list of those bytes;
    [neutralData] is written once and never read.  The clock reading that
    replaces a zero instant is an argument.  The nil receiver is not modelled. *)

From S2P Require Import Prelude Bytes.

(** ** Claims and outcomes (contract.go) *)

Record Claim := {
  Token : Z;
  Generation : Z;
  Size : Z;
  ReceivedAt : Z;
  SelectedAt : Z;
  Ordered : bool;
}.

Definition Claim_zero : Claim :=
  {| Token := 0; Generation := 0; Size := 0; ReceivedAt := zero_time; SelectedAt := zero_time;
     Ordered := false |}.

Definition Claim_Valid (c : Claim) : bool :=
  negb (Token c =? 0) && negb (Generation c =? 0) && (0 <? Size c).

Definition AgeAt (c : Claim) (boundary : Z) : Z :=
  if (ReceivedAt c =? zero_time) || (boundary <? ReceivedAt c) then 0
  else time_sub boundary (ReceivedAt c).

Definition OutcomeCommit : Z := 1.
Definition OutcomeDefer : Z := 2.
Definition OutcomeRetire : Z := 3.

Definition Outcome_Valid (o : Z) : bool := (OutcomeCommit <=? o) && (o <=? OutcomeRetire).

(** ** State *)

Definition FixedReportMaximumSize : nat := 512.
Definition FixedReportTransitionCapacity : nat := 64.

Inductive FixedReportPublishDisposition :=
| PublishAcceptedContinuous
| PublishAcceptedOrdered
| PublishAcceptedResynchronization
| PublishRejectedStaleProducer
| PublishRejectedNeutralPending
| PublishRejectedResynchronizationRequired
| PublishRejectedResynchronizationNotRequired
| PublishRejectedInvalidTimestamp
| PublishRejectedOverflow
| PublishFaultedOverflow.

Definition Accepted (d : FixedReportPublishDisposition) : bool :=
  match d with
  | PublishAcceptedContinuous | PublishAcceptedOrdered | PublishAcceptedResynchronization => true
  | _ => false
  end.

Inductive FixedReportFaultReason := FaultNone | FaultOverflow | FaultOrderedAge.

(** [ClaimNone] is the zero value. *)
Inductive fixedReportClaimSource :=
| ClaimNone | ClaimRetry | ClaimJournal | ClaimLatest | ClaimIdle | ClaimMandatoryNeutral.

#[export] Instance fixedReportClaimSource_eq_dec : EqDecision fixedReportClaimSource.
Proof. solve_decision. Defined.

Record fixedReportEntry (T : Type) := {
  e_state : T;
  e_receivedAt : Z;
  e_ordinal : Z;
  e_producer : Z;
  e_ordered : bool;
}.
Arguments e_state {T} _.
Arguments e_receivedAt {T} _.
Arguments e_ordinal {T} _.
Arguments e_producer {T} _.
Arguments e_ordered {T} _.

Record Journal (T : Type) := {
  journal : list (fixedReportEntry T);
  head : nat;
  count : nat;
  highWater : nat;
}.
Arguments journal {T} _.
Arguments head {T} _.
Arguments count {T} _.
Arguments highWater {T} _.

Record ClaimState (T : Type) := {
  claimed : fixedReportEntry T;
  claimedData : list Z;
  claimToken : Z;
  claimSource : fixedReportClaimSource;
  claimGeneration : Z;
  claimRequiresOrderedRecovery : bool;
  claimAdmissionValidated : bool;
  claimSelectedAt : Z;
  claimAdmittedAt : Z;
  hasClaim : bool;
}.
Arguments claimed {T} _.
Arguments claimedData {T} _.
Arguments claimToken {T} _.
Arguments claimSource {T} _.
Arguments claimGeneration {T} _.
Arguments claimRequiresOrderedRecovery {T} _.
Arguments claimAdmissionValidated {T} _.
Arguments claimSelectedAt {T} _.
Arguments claimAdmittedAt {T} _.
Arguments hasClaim {T} _.

Record FaultState (T : Type) := {
  mandatoryNeutral : fixedReportEntry T;
  mandatoryNeutralData : list Z;
  mandatoryNeutralEncoded : bool;
  mandatoryNeutralPending : bool;
  resynchronizationNeeded : bool;
  minimumResynchronizationAt : Z;
}.
Arguments mandatoryNeutral {T} _.
Arguments mandatoryNeutralData {T} _.
Arguments mandatoryNeutralEncoded {T} _.
Arguments mandatoryNeutralPending {T} _.
Arguments resynchronizationNeeded {T} _.
Arguments minimumResynchronizationAt {T} _.

Record Epochs := {
  nextOrdinal : Z;
  nextToken : Z;
  generation : Z;
  producer : Z;
  lastProducerAt : Z;
}.

Record Counters := {
  received : Z;
  rejected : Z;
  selected : Z;
  replaced : Z;
  overflows : Z;
  staleFaults : Z;
  resyncs : Z;
  invalidTimestamps : Z;
  lastFault : FixedReportFaultReason;
}.

(** [env] is the encoder's environment. *)
Record FixedReportScheduler (T E : Type) := {
  jr : Journal T;
  latest : fixedReportEntry T;
  hasLatest : bool;
  retry : fixedReportEntry T;
  hasRetry : bool;
  retryData : list Z;
  cl : ClaimState T;
  ft : FaultState T;
  previous : T;
  hasPrevious : bool;
  last : fixedReportEntry T;
  lastData : list Z;
  ep : Epochs;
  ct : Counters;
  env : E;
}.
Arguments jr {T E} _.
Arguments latest {T E} _.
Arguments hasLatest {T E} _.
Arguments retry {T E} _.
Arguments hasRetry {T E} _.
Arguments retryData {T E} _.
Arguments cl {T E} _.
Arguments ft {T E} _.
Arguments previous {T E} _.
Arguments hasPrevious {T E} _.
Arguments last {T E} _.
Arguments lastData {T E} _.
Arguments ep {T E} _.
Arguments ct {T E} _.
Arguments env {T E} _.

(** A FixedReportEncoder is given a cleared destination of [reportSize] bytes:
    it returns the state behind its pointer, the destination's contents and
    the size it reports. *)
Record config (T E : Type) := {
  reportSize : nat;
  encode : E -> T -> nat -> E * (T * list Z * Z);
  transition : option (T -> T -> bool);
  maximumOrderedAge : Z;
  faultOnOverflow : bool;
  neutral : T;
}.
Arguments reportSize {T E} _.
Arguments encode {T E} _.
Arguments transition {T E} _.
Arguments maximumOrderedAge {T E} _.
Arguments faultOnOverflow {T E} _.
Arguments neutral {T E} _.

Section Scheduler.
Context {T E : Type} (T_zero : T).
Implicit Types (s : FixedReportScheduler T E) (e : fixedReportEntry T).

Definition zero_entry : fixedReportEntry T :=
  {| e_state := T_zero; e_receivedAt := zero_time; e_ordinal := 0; e_producer := 0;
     e_ordered := false |}.

(** *** Field updates *)

Definition set_jr (j : Journal T) s : FixedReportScheduler T E :=
  {| jr := j; latest := latest s; hasLatest := hasLatest s; retry := retry s;
     hasRetry := hasRetry s; retryData := retryData s; cl := cl s; ft := ft s;
     previous := previous s; hasPrevious := hasPrevious s; last := last s; lastData := lastData s;
     ep := ep s; ct := ct s; env := env s |}.
Definition set_latest e (b : bool) s : FixedReportScheduler T E :=
  {| jr := jr s; latest := e; hasLatest := b; retry := retry s;
     hasRetry := hasRetry s; retryData := retryData s; cl := cl s; ft := ft s;
     previous := previous s; hasPrevious := hasPrevious s; last := last s; lastData := lastData s;
     ep := ep s; ct := ct s; env := env s |}.
Definition set_retry e (data : list Z) (b : bool) s : FixedReportScheduler T E :=
  {| jr := jr s; latest := latest s; hasLatest := hasLatest s; retry := e;
     hasRetry := b; retryData := data; cl := cl s; ft := ft s;
     previous := previous s; hasPrevious := hasPrevious s; last := last s; lastData := lastData s;
     ep := ep s; ct := ct s; env := env s |}.
Definition set_cl (c : ClaimState T) s : FixedReportScheduler T E :=
  {| jr := jr s; latest := latest s; hasLatest := hasLatest s; retry := retry s;
     hasRetry := hasRetry s; retryData := retryData s; cl := c; ft := ft s;
     previous := previous s; hasPrevious := hasPrevious s; last := last s; lastData := lastData s;
     ep := ep s; ct := ct s; env := env s |}.
Definition set_ft (f : FaultState T) s : FixedReportScheduler T E :=
  {| jr := jr s; latest := latest s; hasLatest := hasLatest s; retry := retry s;
     hasRetry := hasRetry s; retryData := retryData s; cl := cl s; ft := f;
     previous := previous s; hasPrevious := hasPrevious s; last := last s; lastData := lastData s;
     ep := ep s; ct := ct s; env := env s |}.
Definition set_previous (t : T) (b : bool) s : FixedReportScheduler T E :=
  {| jr := jr s; latest := latest s; hasLatest := hasLatest s; retry := retry s;
     hasRetry := hasRetry s; retryData := retryData s; cl := cl s; ft := ft s;
     previous := t; hasPrevious := b; last := last s; lastData := lastData s;
     ep := ep s; ct := ct s; env := env s |}.
Definition set_last e (data : list Z) s : FixedReportScheduler T E :=
  {| jr := jr s; latest := latest s; hasLatest := hasLatest s; retry := retry s;
     hasRetry := hasRetry s; retryData := retryData s; cl := cl s; ft := ft s;
     previous := previous s; hasPrevious := hasPrevious s; last := e; lastData := data;
     ep := ep s; ct := ct s; env := env s |}.
Definition set_ep (p : Epochs) s : FixedReportScheduler T E :=
  {| jr := jr s; latest := latest s; hasLatest := hasLatest s; retry := retry s;
     hasRetry := hasRetry s; retryData := retryData s; cl := cl s; ft := ft s;
     previous := previous s; hasPrevious := hasPrevious s; last := last s; lastData := lastData s;
     ep := p; ct := ct s; env := env s |}.
Definition set_ct (c : Counters) s : FixedReportScheduler T E :=
  {| jr := jr s; latest := latest s; hasLatest := hasLatest s; retry := retry s;
     hasRetry := hasRetry s; retryData := retryData s; cl := cl s; ft := ft s;
     previous := previous s; hasPrevious := hasPrevious s; last := last s; lastData := lastData s;
     ep := ep s; ct := c; env := env s |}.
Definition set_env (x : E) s : FixedReportScheduler T E :=
  {| jr := jr s; latest := latest s; hasLatest := hasLatest s; retry := retry s;
     hasRetry := hasRetry s; retryData := retryData s; cl := cl s; ft := ft s;
     previous := previous s; hasPrevious := hasPrevious s; last := last s; lastData := lastData s;
     ep := ep s; ct := ct s; env := x |}.

(** *** Counters *)

Definition count_rejected s : FixedReportScheduler T E :=
  let c := ct s in
  set_ct {| received := received c; rejected := u64 (rejected c + 1); selected := selected c;
            replaced := replaced c; overflows := overflows c; staleFaults := staleFaults c;
            resyncs := resyncs c; invalidTimestamps := invalidTimestamps c;
            lastFault := lastFault c |} s.
Definition count_received (resync : bool) s : FixedReportScheduler T E :=
  let c := ct s in
  set_ct {| received := u64 (received c + 1); rejected := rejected c; selected := selected c;
            replaced := replaced c; overflows := overflows c; staleFaults := staleFaults c;
            resyncs := if resync then u64 (resyncs c + 1) else resyncs c;
            invalidTimestamps := invalidTimestamps c; lastFault := lastFault c |} s.
Definition count_selected s : FixedReportScheduler T E :=
  let c := ct s in
  set_ct {| received := received c; rejected := rejected c; selected := u64 (selected c + 1);
            replaced := replaced c; overflows := overflows c; staleFaults := staleFaults c;
            resyncs := resyncs c; invalidTimestamps := invalidTimestamps c;
            lastFault := lastFault c |} s.
Definition count_replaced s : FixedReportScheduler T E :=
  let c := ct s in
  set_ct {| received := received c; rejected := rejected c; selected := selected c;
            replaced := u64 (replaced c + 1); overflows := overflows c;
            staleFaults := staleFaults c; resyncs := resyncs c;
            invalidTimestamps := invalidTimestamps c; lastFault := lastFault c |} s.
Definition count_overflow s : FixedReportScheduler T E :=
  let c := ct s in
  set_ct {| received := received c; rejected := rejected c; selected := selected c;
            replaced := replaced c; overflows := u64 (overflows c + 1);
            staleFaults := staleFaults c; resyncs := resyncs c;
            invalidTimestamps := invalidTimestamps c; lastFault := lastFault c |} s.
Definition count_invalid s : FixedReportScheduler T E :=
  let c := ct s in
  set_ct {| received := received c; rejected := rejected c; selected := selected c;
            replaced := replaced c; overflows := overflows c; staleFaults := staleFaults c;
            resyncs := resyncs c; invalidTimestamps := u64 (invalidTimestamps c + 1);
            lastFault := lastFault c |} s.
Definition count_fault (reason : FixedReportFaultReason) s : FixedReportScheduler T E :=
  let c := ct s in
  set_ct {| received := received c; rejected := rejected c; selected := selected c;
            replaced := replaced c;
            overflows := match reason with
                         | FaultOverflow => u64 (overflows c + 1) | _ => overflows c end;
            staleFaults := match reason with
                           | FaultOrderedAge => u64 (staleFaults c + 1) | _ => staleFaults c end;
            resyncs := resyncs c; invalidTimestamps := invalidTimestamps c;
            lastFault := reason |} s.

(** *** Epochs, ordinals and the journal *)

Definition advanceNonzero (value : Z) : Z :=
  let value := u64 (value + 1) in if value =? 0 then 1 else value.

Definition advanceProducer s : FixedReportScheduler T E :=
  let p := ep s in
  set_ep {| nextOrdinal := nextOrdinal p; nextToken := nextToken p; generation := generation p;
            producer := advanceNonzero (producer p); lastProducerAt := zero_time |} s.

Definition advanceGeneration s : FixedReportScheduler T E :=
  let p := ep s in
  set_ep {| nextOrdinal := nextOrdinal p; nextToken := nextToken p;
            generation := advanceNonzero (generation p);
            producer := producer p; lastProducerAt := lastProducerAt p |} s.

Definition newEntry s (state : T) (receivedAt : Z) (ordered : bool) :
    fixedReportEntry T * FixedReportScheduler T E :=
  let p := ep s in
  let ordinal := advanceNonzero (nextOrdinal p) in
  ({| e_state := state; e_receivedAt := receivedAt; e_ordinal := ordinal;
      e_producer := producer p; e_ordered := ordered |},
   set_ep {| nextOrdinal := ordinal; nextToken := nextToken p; generation := generation p;
             producer := producer p; lastProducerAt := lastProducerAt p |} s).

Definition pushJournal e s : FixedReportScheduler T E :=
  let j := jr s in
  set_jr {| journal := <[((head j + count j) mod length (journal j))%nat := e]> (journal j);
            head := head j; count := S (count j);
            highWater := Nat.max (highWater j) (S (count j)) |} s.

Definition popJournal s : fixedReportEntry T * FixedReportScheduler T E :=
  let j := jr s in
  (ring_at zero_entry (journal j) (head j) 0,
   set_jr {| journal := <[head j := zero_entry]> (journal j);
             head := ((head j + 1) mod length (journal j))%nat; count := (count j - 1)%nat;
             highWater := highWater j |} s).

Definition no_claim (size : nat) : ClaimState T :=
  {| claimed := zero_entry; claimedData := zeros size; claimToken := 0; claimSource := ClaimNone;
     claimGeneration := 0; claimRequiresOrderedRecovery := false;
     claimAdmissionValidated := false; claimSelectedAt := zero_time;
     claimAdmittedAt := zero_time; hasClaim := false |}.

Definition empty_journal (water : nat) : Journal T :=
  {| journal := replicate FixedReportTransitionCapacity zero_entry; head := 0; count := 0;
     highWater := water |}.
End Scheduler.
Arguments zero_entry {T} _.
Arguments no_claim {T} _ _.
Arguments empty_journal {T} _ _.

(** ** Operations *)

Section Operations.
Context {T E : Type} (T_zero : T) (cfg : config T E).
Implicit Types (s : FixedReportScheduler T E) (e : fixedReportEntry T).
Local Notation sched := (FixedReportScheduler T E).
Local Notation entry := (fixedReportEntry T).

Definition clearNonActiveHistory s : sched :=
  set_retry (zero_entry T_zero) (zeros (reportSize cfg)) false
    (set_latest (zero_entry T_zero) false
      (set_jr (empty_journal T_zero (highWater (jr s))) s)).

Definition clearClaim s : sched := set_cl (no_claim T_zero (reportSize cfg)) s.

Definition clear_active s : sched := if hasClaim (cl s) then clearClaim s else s.

(** The neutral placed ahead of everything after a purge. *)
Definition require_neutral (at_ : Z) s : sched :=
  let s := set_previous (neutral cfg) false s in
  let '(e, s) := newEntry s (neutral cfg) at_ true in
  set_ft {| mandatoryNeutral := e; mandatoryNeutralData := zeros (reportSize cfg);
            mandatoryNeutralEncoded := false; mandatoryNeutralPending := true;
            resynchronizationNeeded := false; minimumResynchronizationAt := at_ |} s.

Definition enterHistoryFault (reason : FixedReportFaultReason) (faultAt now : Z) s : sched :=
  let faultAt := or_now faultAt now in
  let s := count_fault reason s in
  let s := advanceProducer s in
  let s := clearNonActiveHistory s in
  let s := clear_active s in
  require_neutral faultAt s.

Definition observeProducerTimestamp (at_ : Z) s : sched * bool :=
  if maximumOrderedAge cfg <=? 0 then (s, true)
  else if (at_ =? zero_time) ||
          (negb (lastProducerAt (ep s) =? zero_time) && (at_ <? lastProducerAt (ep s)))
  then (count_invalid s, false)
  else
    let p := ep s in
    (set_ep {| nextOrdinal := nextOrdinal p; nextToken := nextToken p; generation := generation p;
               producer := producer p; lastProducerAt := at_ |} s, true).

(** *** Publication *)

Definition mark_recovery s : sched :=
  let c := cl s in
  set_cl {| claimed := claimed c; claimedData := claimedData c; claimToken := claimToken c;
            claimSource := claimSource c; claimGeneration := claimGeneration c;
            claimRequiresOrderedRecovery := true;
            claimAdmissionValidated := claimAdmissionValidated c;
            claimSelectedAt := claimSelectedAt c; claimAdmittedAt := claimAdmittedAt c;
            hasClaim := hasClaim c |} s.

Definition with_ordered (b : bool) e : entry :=
  {| e_state := e_state e; e_receivedAt := e_receivedAt e; e_ordinal := e_ordinal e;
     e_producer := e_producer e; e_ordered := b |}.

Definition accept_ordered e s : sched :=
  let s := if negb (hasLatest s) && hasClaim (cl s) &&
              bool_decide (claimSource (cl s) = ClaimLatest) && negb (e_ordered (claimed (cl s)))
           then mark_recovery s else s in
  let s := if hasLatest s
           then set_latest (zero_entry T_zero) false (pushJournal (with_ordered true (latest s)) s)
           else s in
  pushJournal e s.

Definition accept_continuous e s : sched :=
  let s := if hasLatest s then count_replaced s else s in
  set_latest e true s.

Definition publishLocked (lease : Z) (state : T) (receivedAt now : Z) s :
    sched * FixedReportPublishDisposition :=
  if (lease =? 0) || negb (lease =? producer (ep s))
  then (count_rejected s, PublishRejectedStaleProducer)
  else if mandatoryNeutralPending (ft s)
  then (count_rejected s, PublishRejectedNeutralPending)
  else if resynchronizationNeeded (ft s)
  then (count_rejected s, PublishRejectedResynchronizationRequired)
  else
    let '(s, ok) := observeProducerTimestamp receivedAt s in
    if negb ok then (count_rejected s, PublishRejectedInvalidTimestamp)
    else
      let ordered := hasPrevious s &&
        match transition cfg with Some f => f (previous s) state | None => false end in
      let required := if ordered && hasLatest s then 2%nat else 1%nat in
      if ordered && (length (journal (jr s)) - count (jr s) <? required)%nat then
        let s := count_rejected s in
        if negb (faultOnOverflow cfg) then (count_overflow s, PublishRejectedOverflow)
        else (enterHistoryFault FaultOverflow receivedAt now s, PublishFaultedOverflow)
      else
        let '(e, s) := newEntry s state receivedAt ordered in
        let s := if ordered then accept_ordered e s else accept_continuous e s in
        let s := count_received false (set_previous state true s) in
        (s, if ordered then PublishAcceptedOrdered else PublishAcceptedContinuous).

Definition PublishWithLease (lease : Z) (state : T) (receivedAt now : Z) s :
    sched * FixedReportPublishDisposition :=
  publishLocked lease state (or_now receivedAt now) now s.

Definition Publish (state : T) (receivedAt now : Z) s : sched * bool :=
  let '(s, d) := publishLocked (producer (ep s)) state (or_now receivedAt now) now s in
  (s, Accepted d).

Definition ProducerLease s : Z := producer (ep s).

(** The test two retirements share. *)
Definition retires_early (retiredAt : Z) s : bool :=
  (retiredAt <? lastProducerAt (ep s)) ||
  (hasClaim (cl s) && (retiredAt <? claimSelectedAt (cl s))) ||
  (hasClaim (cl s) && (retiredAt <? claimAdmittedAt (cl s))).

Definition RetireProducerLease (lease retiredAt now : Z) s : sched * (Z * bool) :=
  if lease =? 0 then (s, (0, false))
  else
    let retiredAt := or_now retiredAt now in
    if negb (lease =? producer (ep s)) then (s, (0, false))
    else
      let s := if retires_early retiredAt s then count_invalid s else s in
      let s := advanceProducer s in
      let s := clearNonActiveHistory s in
      let s := clear_active s in
      let s := require_neutral retiredAt s in
      (s, (producer (ep s), true)).

Definition Resynchronize (lease : Z) (state : T) (receivedAt now : Z) s :
    sched * FixedReportPublishDisposition :=
  let receivedAt := or_now receivedAt now in
  if (lease =? 0) || negb (lease =? producer (ep s))
  then (count_rejected s, PublishRejectedStaleProducer)
  else if mandatoryNeutralPending (ft s)
  then (count_rejected s, PublishRejectedNeutralPending)
  else if negb (resynchronizationNeeded (ft s))
  then (count_rejected s, PublishRejectedResynchronizationNotRequired)
  else if receivedAt <? minimumResynchronizationAt (ft s)
  then (count_rejected (count_invalid s), PublishRejectedInvalidTimestamp)
  else
    let '(s, ok) := observeProducerTimestamp receivedAt s in
    if negb ok then (count_rejected s, PublishRejectedInvalidTimestamp)
    else
      let '(e, s) := newEntry s state receivedAt false in
      let s := set_previous state true (set_latest e true s) in
      let f := ft s in
      let s := set_ft {| mandatoryNeutral := mandatoryNeutral f;
                         mandatoryNeutralData := mandatoryNeutralData f;
                         mandatoryNeutralEncoded := mandatoryNeutralEncoded f;
                         mandatoryNeutralPending := mandatoryNeutralPending f;
                         resynchronizationNeeded := false;
                         minimumResynchronizationAt := zero_time |} s in
      (count_received true s, PublishAcceptedResynchronization).

Definition HasPendingInputPresentation s : bool :=
  mandatoryNeutralPending (ft s) || hasRetry s || (0 <? count (jr s))%nat || hasLatest s.

(** *** Selection *)

Definition pendingPresentationFaultRequired (at_ : Z) s : sched * bool :=
  if (maximumOrderedAge cfg <=? 0) || mandatoryNeutralPending (ft s) then (s, false)
  else
    let judge (e : entry) (orderedDependency : bool) :=
      if (e_receivedAt e =? zero_time) || (at_ <? e_receivedAt e) then (count_invalid s, true)
      else (s, orderedDependency && (maximumOrderedAge cfg <=? time_sub at_ (e_receivedAt e))) in
    if hasRetry s then judge (retry s) true
    else if (0 <? count (jr s))%nat
    then judge (ring_at (zero_entry T_zero) (journal (jr s)) (head (jr s)) 0) true
    else if hasLatest s then judge (latest s) false
    else (s, false).

Definition ageExceeded (receivedAt boundary : Z) : bool :=
  if (receivedAt =? zero_time) || (boundary =? zero_time) || (boundary <? receivedAt) then true
  else maximumOrderedAge cfg <=? time_sub boundary receivedAt.

Definition claimOrderedAgeExceeded (at_ : Z) s : bool :=
  let c := cl s in
  if (maximumOrderedAge cfg <=? 0) || bool_decide (claimSource c = ClaimMandatoryNeutral) ||
     (negb (e_ordered (claimed c)) && negb (claimRequiresOrderedRecovery c))
  then false
  else ageExceeded (e_receivedAt (claimed c)) at_.

(** What selection writes into the claim before it issues a token. *)
Definition set_selection (source : fixedReportClaimSource) e (data : list Z) s : sched :=
  let c := cl s in
  set_cl {| claimed := e; claimedData := data; claimToken := claimToken c; claimSource := source;
            claimGeneration := claimGeneration c; claimRequiresOrderedRecovery := false;
            claimAdmissionValidated := claimAdmissionValidated c;
            claimSelectedAt := claimSelectedAt c; claimAdmittedAt := claimAdmittedAt c;
            hasClaim := hasClaim c |} s.

Definition set_state (t : T) e : entry :=
  {| e_state := t; e_receivedAt := e_receivedAt e; e_ordinal := e_ordinal e;
     e_producer := e_producer e; e_ordered := e_ordered e |}.

Definition restoreFailedSelection s : sched :=
  let c := cl s in
  let s := match claimSource c with
    | ClaimJournal =>
        let j := jr s in
        let h := ((head j + length (journal j) - 1) mod length (journal j))%nat in
        set_jr {| journal := <[h := claimed c]> (journal j); head := h; count := S (count j);
                  highWater := highWater j |} s
    | ClaimLatest => set_latest (claimed c) true s
    | ClaimRetry => set_retry (claimed c) (claimedData c) true s
    | _ => s
    end in
  set_cl {| claimed := zero_entry T_zero; claimedData := zeros (reportSize cfg);
            claimToken := claimToken c; claimSource := ClaimNone;
            claimGeneration := claimGeneration c; claimRequiresOrderedRecovery := false;
            claimAdmissionValidated := false; claimSelectedAt := claimSelectedAt c;
            claimAdmittedAt := claimAdmittedAt c; hasClaim := hasClaim c |} s.

(** Encode the claimed state into cleared storage; [false] is a size other than
    the report's. *)
Definition encode_claimed (source : fixedReportClaimSource) e s : sched * bool :=
  let '(x, (t, data, n)) := encode cfg (env s) (e_state e) (reportSize cfg) in
  let s := set_selection source (set_state t e) data (set_env x s) in
  if n =? Z.of_nat (reportSize cfg) then (s, true) else (restoreFailedSelection s, false).

Definition select_neutral s : sched * bool :=
  let f := ft s in
  let e := mandatoryNeutral f in
  if mandatoryNeutralEncoded f
  then (set_selection ClaimMandatoryNeutral e (mandatoryNeutralData f) s, true)
  else
    let '(x, (t, data, n)) := encode cfg (env s) (e_state e) (reportSize cfg) in
    let s := set_env x s in
    let neutral_image data b := {| mandatoryNeutral := e; mandatoryNeutralData := data;
      mandatoryNeutralEncoded := b; mandatoryNeutralPending := mandatoryNeutralPending f;
      resynchronizationNeeded := resynchronizationNeeded f;
      minimumResynchronizationAt := minimumResynchronizationAt f |} in
    if n =? Z.of_nat (reportSize cfg)
    then (set_selection ClaimMandatoryNeutral (set_state t e) data
            (set_ft (neutral_image data true) s), true)
    else (set_selection ClaimNone (zero_entry T_zero) (lastData s)
            (set_ft (neutral_image (zeros (reportSize cfg)) false) s), false).

Definition select s : sched * bool :=
  if mandatoryNeutralPending (ft s) then select_neutral s
  else if hasRetry s then
    (set_retry (zero_entry T_zero) (zeros (reportSize cfg)) false
       (set_selection ClaimRetry (retry s) (retryData s) s), true)
  else if (0 <? count (jr s))%nat then
    let '(e, s) := popJournal T_zero s in encode_claimed ClaimJournal e s
  else if hasLatest s then
    let e := latest s in
    encode_claimed ClaimLatest e (set_latest (zero_entry T_zero) false s)
  else (set_selection ClaimIdle (with_ordered false (last s)) (lastData s) s, true).

(** Token and boundaries of a selected report. *)
Definition issue (selectedAt : Z) s : sched :=
  let p := ep s in
  let c := cl s in
  let token := advanceNonzero (nextToken p) in
  count_selected
    (set_cl {| claimed := claimed c; claimedData := claimedData c; claimToken := token;
               claimSource := claimSource c; claimGeneration := generation p;
               claimRequiresOrderedRecovery := claimRequiresOrderedRecovery c;
               claimAdmissionValidated := claimAdmissionValidated c;
               claimSelectedAt := selectedAt; claimAdmittedAt := zero_time; hasClaim := true |}
      (set_ep {| nextOrdinal := nextOrdinal p; nextToken := token; generation := generation p;
                 producer := producer p; lastProducerAt := lastProducerAt p |} s)).

(** The claim and the destination, whose first bytes are the report. *)
Definition ClaimInputPresentation (destination : list Z) (selectedAt now : Z) s :
    sched * (Claim * list Z) :=
  if (length destination <? reportSize cfg)%nat then (s, (Claim_zero, destination))
  else
    let selectedAt := or_now selectedAt now in
    if hasClaim (cl s) then (s, (Claim_zero, destination))
    else
      let '(s, stale) := pendingPresentationFaultRequired selectedAt s in
      let s := if stale then enterHistoryFault FaultOrderedAge selectedAt now s else s in
      let '(s, ok) := select s in
      if negb ok then (s, (Claim_zero, destination))
      else
        let s := issue selectedAt s in
        let c := cl s in
        (s, ({| Token := claimToken c; Generation := claimGeneration c;
                Size := Z.of_nat (reportSize cfg); ReceivedAt := e_receivedAt (claimed c);
                SelectedAt := selectedAt; Ordered := e_ordered (claimed c) |},
             claimedData c ++ drop (reportSize cfg) destination)).

(** *** Admission and resolution *)

Definition claimMatches (claim : Claim) s : bool :=
  hasClaim (cl s) && negb (Token claim =? 0) && (Token claim =? claimToken (cl s)) &&
  negb (Generation claim =? 0) && (Generation claim =? claimGeneration (cl s)) &&
  (Generation claim =? generation (ep s)) && (Size claim =? Z.of_nat (reportSize cfg)) &&
  (e_producer (claimed (cl s)) =? producer (ep s)).

Definition CanAdmitInputPresentation (claim : Claim) (admissionAt now : Z) s : sched * bool :=
  let admissionAt := or_now admissionAt now in
  if negb (claimMatches claim s) || claimAdmissionValidated (cl s) then (s, false)
  else if admissionAt <? claimSelectedAt (cl s) then (count_invalid s, false)
  else if claimOrderedAgeExceeded admissionAt s
  then (enterHistoryFault FaultOrderedAge admissionAt now s, false)
  else
    let c := cl s in
    (set_cl {| claimed := claimed c; claimedData := claimedData c; claimToken := claimToken c;
               claimSource := claimSource c; claimGeneration := claimGeneration c;
               claimRequiresOrderedRecovery := claimRequiresOrderedRecovery c;
               claimAdmissionValidated := true; claimSelectedAt := claimSelectedAt c;
               claimAdmittedAt := admissionAt; hasClaim := hasClaim c |} s, true).

Definition StateForInputPresentationClaim (claim : Claim) s : option T :=
  if negb (claimMatches claim s) then None else Some (e_state (claimed (cl s))).

Definition retireCurrentGenerationWithBaseline (currentState : T) (retiredAt now : Z) s :
    sched * T :=
  let retiredAt := or_now retiredAt now in
  let s := clearNonActiveHistory s in
  let s := clear_active s in
  let s := set_ft {| mandatoryNeutral := zero_entry T_zero;
                     mandatoryNeutralData := zeros (reportSize cfg);
                     mandatoryNeutralEncoded := false; mandatoryNeutralPending := false;
                     resynchronizationNeeded := false;
                     minimumResynchronizationAt := zero_time |} s in
  let s := advanceProducer (advanceGeneration s) in
  let '(e, s) := newEntry s currentState retiredAt false in
  let s := set_latest e true s in
  let s := set_previous currentState true s in
  (set_last e (zeros (reportSize cfg)) s, currentState).

Definition retireCurrentGeneration (retiredAt now : Z) s : sched * T :=
  retireCurrentGenerationWithBaseline (if hasPrevious s then previous s else neutral cfg)
    retiredAt now s.

Definition commit s : sched :=
  let c := cl s in
  let s := set_last (with_ordered false (claimed c)) (claimedData c) s in
  if bool_decide (claimSource c = ClaimMandatoryNeutral) then
    let f := ft s in
    set_ft {| mandatoryNeutral := mandatoryNeutral f;
              mandatoryNeutralData := zeros (reportSize cfg);
              mandatoryNeutralEncoded := false; mandatoryNeutralPending := false;
              resynchronizationNeeded := true;
              minimumResynchronizationAt := minimumResynchronizationAt f |} s
  else s.

Definition defer s : sched :=
  let c := cl s in
  if bool_decide (claimSource c = ClaimMandatoryNeutral) then s
  else if e_ordered (claimed c) || claimRequiresOrderedRecovery c
  then set_retry (with_ordered true (claimed c)) (claimedData c) true s
  else if bool_decide (claimSource c <> ClaimIdle) && negb (hasRetry s) &&
          (count (jr s) =? 0)%nat && negb (hasLatest s)
  then set_retry (claimed c) (claimedData c) true s
  else s.

Definition ResolveInputPresentation (claim : Claim) (outcome completedAt now : Z) s :
    sched * bool :=
  if negb (Outcome_Valid outcome) then (s, false)
  else
    let completedAt := or_now completedAt now in
    if negb (claimMatches claim s) then (s, false)
    else if (outcome =? OutcomeCommit) && (0 <? maximumOrderedAge cfg) &&
            negb (claimAdmissionValidated (cl s))
    then (s, false)
    else
      let c := cl s in
      let minimum := if claimAdmissionValidated c && (claimSelectedAt c <? claimAdmittedAt c)
                     then claimAdmittedAt c else claimSelectedAt c in
      let '(s, completedAt) := if completedAt <? minimum then (count_invalid s, minimum)
                               else (s, completedAt) in
      if negb (outcome =? OutcomeRetire) && claimOrderedAgeExceeded completedAt s
      then (enterHistoryFault FaultOrderedAge completedAt now s, true)
      else if outcome =? OutcomeCommit then (clearClaim (commit s), true)
      else if outcome =? OutcomeDefer then (clearClaim (defer s), true)
      else (fst (retireCurrentGeneration completedAt now s), true).

Definition RetireInputPresentationGenerationWithCurrentState (gen retiredAt now : Z) s :
    sched * option T :=
  if (gen =? 0) || negb (gen =? generation (ep s)) then (s, None)
  else
    let retiredAt := or_now retiredAt now in
    let s := if retires_early retiredAt s then count_invalid s else s in
    let '(s, t) := retireCurrentGeneration retiredAt now s in
    (s, Some t).

Definition RetireInputPresentationGeneration (gen retiredAt now : Z) s : sched * bool :=
  let '(s, t) := RetireInputPresentationGenerationWithCurrentState gen retiredAt now s in
  (s, match t with Some _ => true | None => false end).

Definition RetireInputPresentationGenerationWithBaseline (gen : Z) (baseline : T)
    (retiredAt now : Z) s : sched * bool :=
  if (gen =? 0) || negb (gen =? generation (ep s)) then (s, false)
  else (fst (retireCurrentGenerationWithBaseline baseline retiredAt now s), true).
End Operations.

(** *** Diagnostics *)

Record FixedReportSchedulerSnapshot := {
  sn_Generation : Z; ProducerEpoch : Z; sn_Received : Z; sn_Rejected : Z; sn_Selected : Z; TransitionDepth : nat;
  TransitionHighWater : nat; ContinuousPending : bool; ContinuousReplaced : Z; sn_Overflows : Z; sn_StaleFaults : Z;
  Resynchronizations : Z; sn_InvalidTimestamps : Z; sn_MaximumOrderedAge : Z; MandatoryNeutral : bool;
  Resynchronization : bool; sn_LastFault : FixedReportFaultReason;
}.

Definition boolToInt (value : bool) : nat := if value then 1 else 0.

Definition Snapshot {T E : Type} (cfg : config T E) (s : FixedReportScheduler T E) : FixedReportSchedulerSnapshot :=
  let c := ct s in {|
  sn_Generation := generation (ep s); ProducerEpoch := producer (ep s); sn_Received := received c;
  sn_Rejected := rejected c; sn_Selected := selected c;
  TransitionDepth := (count (jr s) + boolToInt (hasRetry s) + boolToInt (mandatoryNeutralPending (ft s)))%nat;
  TransitionHighWater := highWater (jr s); ContinuousPending := hasLatest s; ContinuousReplaced := replaced c;
  sn_Overflows := overflows c; sn_StaleFaults := staleFaults c; Resynchronizations := resyncs c;
  sn_InvalidTimestamps := invalidTimestamps c; sn_MaximumOrderedAge := maximumOrderedAge cfg;
  MandatoryNeutral := mandatoryNeutralPending (ft s); Resynchronization := resynchronizationNeeded (ft s);
  sn_LastFault := lastFault c |}.

(** *** Construction *)

Inductive new_err :=
| ErrReportSize | ErrNoEncoder | ErrNonCanonicalSize | ErrMaximumAge.

Definition newFixedReportScheduler {T E : Type} (T_zero : T) (size : nat) (neutral : T)
    (enc : option (E -> T -> nat -> E * (T * list Z * Z))) (trans : option (T -> T -> bool))
    (maximumOrderedAge : Z) (faultOnOverflow : bool) (at_ now : Z) (x : E) :
    result new_err (config T E * FixedReportScheduler T E) :=
  if (size <? 1)%nat || (FixedReportMaximumSize <? size)%nat then Err ErrReportSize
  else match enc with
  | None => Err ErrNoEncoder
  | Some enc =>
      let '(x, (t, data, n)) := enc x neutral size in
      let e := {| e_state := t; e_receivedAt := or_now at_ now; e_ordinal := 1; e_producer := 1;
                  e_ordered := false |} in
      if negb (n =? Z.of_nat size) then Err ErrNonCanonicalSize
      else Ok ({| reportSize := size; encode := enc; transition := trans;
                  maximumOrderedAge := maximumOrderedAge; faultOnOverflow := faultOnOverflow;
                  neutral := neutral |},
               {| jr := empty_journal T_zero 0;
                  latest := zero_entry T_zero; hasLatest := false;
                  retry := zero_entry T_zero; hasRetry := false; retryData := zeros size;
                  cl := no_claim T_zero size;
                  ft := {| mandatoryNeutral := zero_entry T_zero;
                           mandatoryNeutralData := zeros size; mandatoryNeutralEncoded := false;
                           mandatoryNeutralPending := false; resynchronizationNeeded := false;
                           minimumResynchronizationAt := zero_time |};
                  previous := neutral; hasPrevious := true; last := e; lastData := data;
                  ep := {| nextOrdinal := 1; nextToken := 0; generation := 1; producer := 1;
                           lastProducerAt := zero_time |};
                  ct := {| received := 0; rejected := 0; selected := 0; replaced := 0;
                           overflows := 0; staleFaults := 0; resyncs := 0;
                           invalidTimestamps := 0; lastFault := FaultNone |};
                  env := x |})
  end.

Definition NewFixedReportScheduler {T E} (T_zero : T) size neutral enc trans (at_ now : Z) (x : E) :=
  newFixedReportScheduler T_zero size neutral enc trans 0 false at_ now x.

Definition NewFixedReportSchedulerWithOverflowFault {T E} (T_zero : T) size neutral enc trans
    (at_ now : Z) (x : E) :=
  newFixedReportScheduler T_zero size neutral enc trans 0 true at_ now x.

Definition NewFixedReportSchedulerWithMaximumOrderedAge {T E} (T_zero : T) size neutral enc trans
    (age at_ now : Z) (x : E) :=
  if age <=? 0 then Err ErrMaximumAge
  else newFixedReportScheduler T_zero size neutral enc trans age true at_ now x.
