(* ===== verification/InputHistory.v ===== *)
(** * Runs of the input presentation scheduler

    Any sequence of the scheduler's methods, with a record of what was
    accepted, exposed, committed, admitted and resolved; the invariant that
    relates that record to the scheduler's state; and its preservation by
    publications, purges and retirements. *)

From Stdlib Require Import Sorting.Sorted.
From S2P Require Import Prelude Bytes InputPresentation.

(** ** Runs

    A run applies methods in any order.  The trace keeps, beside the
    scheduler, the ordinals accepted as ordered in the current producer epoch
    (with the continuous state each of them follows), the ordinals
    committed (the neutral of the constructor is the first), every report a
    claim exposed (the image kept in the claim, which is what is copied into the
    caller's buffer), the tokens admitted and resolved, and the ordinals of the
    reports whose transport deferred them. *)
Section Run.
Context {T E : Type} (T_zero : T) (cfg : config T E).
Local Notation sched := (FixedReportScheduler T E).
Local Notation entry := (fixedReportEntry T).
Implicit Types (s : sched) (e : entry).

Inductive op :=
| OPublish (state : T) (at_ now : Z)
| OPublishWithLease (lease : Z) (state : T) (at_ now : Z)
| ORetireLease (lease at_ now : Z)
| OResynchronize (lease : Z) (state : T) (at_ now : Z)
| OClaim (destination : list Z) (at_ now : Z)
| OAdmit (claim : Claim) (at_ now : Z)
| OResolve (claim : Claim) (outcome at_ now : Z)
| ORetire (gen at_ now : Z)
| ORetireBaseline (gen : Z) (baseline : T) (at_ now : Z).

Record trace := {
  sc : sched;
  accepted : list Z;
  committed : list Z;
  exposed : list (Z * list Z);
  admitted : list Z;
  resolved : list Z;
  deferred : list Z;
}.

(** *** What is not yet presented *)

Definition neutral_of (f : FaultState T) : list entry :=
  if mandatoryNeutralPending f then [mandatoryNeutral f] else [].
Definition in_flight (c : ClaimState T) : bool :=
  hasClaim c && bool_decide (claimSource c <> ClaimIdle) &&
  bool_decide (claimSource c <> ClaimMandatoryNeutral).
Definition inflight (c : ClaimState T) : list entry := if in_flight c then [claimed c] else [].
Definition slot_of (b : bool) e : list entry := if b then [e] else [].
Definition journal_of (j : Journal T) : list entry :=
  ring_view (zero_entry T_zero) (journal j) (head j) (count j).

Definition unresolved s : list entry :=
  neutral_of (ft s) ++ inflight (cl s) ++ slot_of (hasRetry s) (retry s) ++ journal_of (jr s) ++
  slot_of (hasLatest s) (latest s).

(** The part of it that a deferral may not drop. *)
Definition owed s : list entry :=
  (if in_flight (cl s) && (e_ordered (claimed (cl s)) || claimRequiresOrderedRecovery (cl s))
   then [claimed (cl s)] else []) ++
  (if hasRetry s && e_ordered (retry s) then [retry s] else []) ++ journal_of (jr s).

Definition ords : list entry -> list Z := map e_ordinal.

(** The continuous state a new transition follows: the newest state that is not
    presented yet, when no transition lies between the two. *)
Definition boundary s : list Z :=
  match list.last (unresolved s) with
  | Some e => if e_ordered e then [] else [e_ordinal e]
  | None => []
  end.

(** *** Steps *)

(** A new producer epoch owes nothing of the previous one. *)
Definition owes s s' (acc : list Z) : list Z :=
  if producer (ep s) =? producer (ep s') then acc else [].

Definition with_sc s' (g : trace) : trace :=
  {| sc := s'; accepted := owes (sc g) s' (accepted g); committed := committed g;
     exposed := exposed g; admitted := admitted g; resolved := resolved g; deferred := deferred g |}.

Definition after_publish s' (d : FixedReportPublishDisposition) (g : trace) : trace :=
  match d with
  | PublishAcceptedOrdered =>
      {| sc := s';
         accepted := accepted g ++ filter (fun o => o ∉ deferred g) (boundary (sc g)) ++
           [nextOrdinal (ep s')];
         committed := committed g; exposed := exposed g; admitted := admitted g;
         resolved := resolved g; deferred := deferred g |}
  | _ => with_sc s' g
  end.

Definition step (g : trace) (o : op) : trace :=
  match o with
  | OPublish t at_ now =>
      let '(s, d) := PublishWithLease T_zero cfg (ProducerLease (sc g)) t at_ now (sc g) in
      after_publish s d g
  | OPublishWithLease lease t at_ now =>
      let '(s, d) := PublishWithLease T_zero cfg lease t at_ now (sc g) in after_publish s d g
  | ORetireLease lease at_ now =>
      with_sc (fst (RetireProducerLease T_zero cfg lease at_ now (sc g))) g
  | OResynchronize lease t at_ now =>
      with_sc (fst (Resynchronize cfg lease t at_ now (sc g))) g
  | OClaim destination at_ now =>
      let '(s, (c, _)) := ClaimInputPresentation T_zero cfg destination at_ now (sc g) in
      let g := with_sc s g in
      if Claim_Valid c then
        {| sc := s; accepted := accepted g; committed := committed g;
           exposed := exposed g ++ [(e_ordinal (claimed (cl s)), claimedData (cl s))];
           admitted := admitted g; resolved := resolved g; deferred := deferred g |}
      else g
  | OAdmit c at_ now =>
      let '(s, ok) := CanAdmitInputPresentation T_zero cfg c at_ now (sc g) in
      let g := with_sc s g in
      if ok then {| sc := s; accepted := accepted g; committed := committed g;
                    exposed := exposed g; admitted := admitted g ++ [Token c];
                    resolved := resolved g; deferred := deferred g |}
      else g
  | OResolve c outcome at_ now =>
      let '(s, ok) := ResolveInputPresentation T_zero cfg c outcome at_ now (sc g) in
      let presented := ok && (outcome =? OutcomeCommit) &&
        (producer (ep s) =? producer (ep (sc g))) &&
        bool_decide (claimSource (cl (sc g)) <> ClaimIdle) in
      let com := if presented then [e_ordinal (claimed (cl (sc g)))] else [] in
      let def := if ok && (outcome =? OutcomeDefer) then [e_ordinal (claimed (cl (sc g)))] else [] in
      let g := with_sc s g in
      {| sc := s; accepted := accepted g; committed := committed g ++ com; exposed := exposed g;
         admitted := admitted g; resolved := resolved g ++ (if ok then [Token c] else []);
         deferred := deferred g ++ def |}
  | ORetire gen at_ now =>
      with_sc (fst (RetireInputPresentationGenerationWithCurrentState T_zero cfg gen at_ now (sc g))) g
  | ORetireBaseline gen t at_ now =>
      with_sc (fst (RetireInputPresentationGenerationWithBaseline T_zero cfg gen t at_ now (sc g))) g
  end.

Definition start s : trace :=
  {| sc := s; accepted := []; committed := [1]; exposed := []; admitted := []; resolved := [];
     deferred := [] |}.

Definition run s (ops : list op) : trace := foldl step (start s) ops.

(** ** The invariant *)

Record inv (n : Z) (g : trace) : Prop := {
  i_ring : length (journal (jr (sc g))) = FixedReportTransitionCapacity /\
    (head (jr (sc g)) < FixedReportTransitionCapacity)%nat /\
    (count (jr (sc g)) <= FixedReportTransitionCapacity)%nat;
  i_numbers : 1 <= nextOrdinal (ep (sc g)) <= n + 1 /\ 0 <= nextToken (ep (sc g)) <= n /\
    generation (ep (sc g)) <> 0 /\ producer (ep (sc g)) <> 0;
  i_sorted : StronglySorted Z.lt (committed g ++ ords (unresolved (sc g)));
  i_bound : Forall (fun o => o <= nextOrdinal (ep (sc g)))
    (committed g ++ ords (unresolved (sc g)));
  i_accepted : Forall (fun o => o ∈ committed g \/ o ∈ ords (owed (sc g))) (accepted g);
  i_journal : Forall (fun e => e_ordered e = true) (journal_of (jr (sc g))) /\
    (hasLatest (sc g) = true -> e_ordered (latest (sc g)) = false);
  i_exposed : Forall (fun ob => ob.1 <= nextOrdinal (ep (sc g)) /\
      Forall (fun o => ob.1 <= o) (ords (unresolved (sc g))) /\
      Forall (fun o => ob.1 < o) (ords (journal_of (jr (sc g)) ++
        slot_of (hasLatest (sc g)) (latest (sc g)))) /\
      (unresolved (sc g) = [] -> ob.1 <= e_ordinal (last (sc g)))) (exposed g);
  i_monotone : StronglySorted Z.le (map fst (exposed g));
  i_image : Forall (fun ob =>
      (hasClaim (cl (sc g)) = true -> ob.1 = e_ordinal (claimed (cl (sc g))) ->
         ob.2 = claimedData (cl (sc g))) /\
      (hasRetry (sc g) = true -> ob.1 = e_ordinal (retry (sc g)) -> ob.2 = retryData (sc g)) /\
      (mandatoryNeutralPending (ft (sc g)) = true ->
         ob.1 = e_ordinal (mandatoryNeutral (ft (sc g))) ->
         mandatoryNeutralEncoded (ft (sc g)) = true /\
         ob.2 = mandatoryNeutralData (ft (sc g))) /\
      (e_ordinal (last (sc g)) ∈ committed g -> ob.1 = e_ordinal (last (sc g)) ->
         ob.2 = lastData (sc g))) (exposed g);
  i_functional : forall o b b', (o, b) ∈ exposed g -> (o, b') ∈ exposed g -> b = b';
  i_last : e_ordinal (last (sc g)) <= nextOrdinal (ep (sc g)) /\
    (unresolved (sc g) = [] -> e_ordinal (last (sc g)) ∈ committed g);
  i_neutral : mandatoryNeutralPending (ft (sc g)) = true ->
    hasRetry (sc g) = false /\ count (jr (sc g)) = 0%nat /\ hasLatest (sc g) = false /\
    resynchronizationNeeded (ft (sc g)) = false /\
    (hasClaim (cl (sc g)) = true -> claimSource (cl (sc g)) = ClaimMandatoryNeutral /\
       e_ordinal (claimed (cl (sc g))) = e_ordinal (mandatoryNeutral (ft (sc g))) /\
       mandatoryNeutralEncoded (ft (sc g)) = true /\
       claimedData (cl (sc g)) = mandatoryNeutralData (ft (sc g)));
  i_resync : resynchronizationNeeded (ft (sc g)) = true ->
    hasRetry (sc g) = false /\ count (jr (sc g)) = 0%nat /\ hasLatest (sc g) = false /\
    e_ordinal (last (sc g)) = e_ordinal (mandatoryNeutral (ft (sc g))) /\
    (hasClaim (cl (sc g)) = true -> claimSource (cl (sc g)) = ClaimIdle);
  i_claim : hasClaim (cl (sc g)) = true ->
    hasRetry (sc g) = false /\ claimToken (cl (sc g)) = nextToken (ep (sc g)) /\
    1 <= nextToken (ep (sc g)) /\ claimGeneration (cl (sc g)) = generation (ep (sc g)) /\
    e_producer (claimed (cl (sc g))) = producer (ep (sc g)) /\
    match claimSource (cl (sc g)) with
    | ClaimNone => False
    | ClaimIdle => e_ordinal (claimed (cl (sc g))) = e_ordinal (last (sc g)) /\
        claimedData (cl (sc g)) = lastData (sc g) /\ e_ordered (claimed (cl (sc g))) = false /\
        claimRequiresOrderedRecovery (cl (sc g)) = false /\
        e_ordinal (last (sc g)) ∈ committed g
    | ClaimMandatoryNeutral => mandatoryNeutralPending (ft (sc g)) = true
    | ClaimLatest => e_ordered (claimed (cl (sc g))) = false
    | _ => True
    end;
  i_producer : Forall (fun e => e_producer e = producer (ep (sc g))) (unresolved (sc g)) /\
    (mandatoryNeutralPending (ft (sc g)) = false ->
     e_producer (last (sc g)) = producer (ep (sc g)));
  i_tokens : base.NoDup (resolved g) /\ base.NoDup (admitted g) /\
    Forall (fun t => t <= nextToken (ep (sc g))) (resolved g ++ admitted g) /\
    (hasClaim (cl (sc g)) = true -> nextToken (ep (sc g)) ∉ resolved g) /\
    (hasClaim (cl (sc g)) = true -> nextToken (ep (sc g)) ∈ admitted g ->
     claimAdmissionValidated (cl (sc g)) = true) /\
    (hasClaim (cl (sc g)) = false -> claimAdmissionValidated (cl (sc g)) = false);
  i_origin :
    (hasClaim (cl (sc g)) = true -> claimSource (cl (sc g)) = ClaimJournal ->
       e_ordered (claimed (cl (sc g))) = true) /\
    (hasClaim (cl (sc g)) = true -> claimSource (cl (sc g)) = ClaimRetry ->
       e_ordered (claimed (cl (sc g))) = true \/ e_ordinal (claimed (cl (sc g))) ∈ deferred g) /\
    (hasRetry (sc g) = true ->
       e_ordered (retry (sc g)) = true \/ e_ordinal (retry (sc g)) ∈ deferred g);
}.

(** ** Shared lemmas *)

Lemma advanceNonzero_small v : 0 <= v < 18446744073709551615 -> advanceNonzero v = v + 1.
Proof. intros. unfold advanceNonzero. rewrite u64_id by lia. case_if; lia. Qed.

Lemma advanceNonzero_ne v : advanceNonzero v <> v.
Proof.
  unfold advanceNonzero, u64. case_if; [|zsolve]. intros <-. vm_compute in Hb. discriminate.
Qed.

Lemma advanceNonzero_nonzero v : advanceNonzero v <> 0.
Proof. unfold advanceNonzero. case_if; lia. Qed.

Lemma ssorted_app (R : Z -> Z -> Prop) l1 l2 :
  StronglySorted R (l1 ++ l2) <->
  StronglySorted R l1 /\ StronglySorted R l2 /\ (forall x y, x ∈ l1 -> y ∈ l2 -> R x y).
Proof.
  induction l1 as [|a l1 IH]; simpl.
  - split; [intros; repeat split; [constructor|done|set_solver]|tauto].
  - split.
    + intros [HS HF]%StronglySorted_inv. apply Forall_app in HF as [H1 H2].
      apply IH in HS as (H3 & H4 & H5). repeat split; [by constructor|done|].
      intros x y [->|Hx]%elem_of_cons Hy; [|by apply H5]. by apply (Forall_elem _ _ _ H2).
    + intros ([HS HF]%StronglySorted_inv & H2 & H3). constructor.
      * apply IH. repeat split; auto. intros; apply H3; set_solver.
      * apply Forall_app; split; [done|]. apply list.Forall_forall. intros y Hy. apply H3; set_solver.
Qed.

Lemma ssorted_snoc l o n :
  StronglySorted Z.lt l -> Forall (fun x => x <= n) l -> n < o -> StronglySorted Z.lt (l ++ [o]).
Proof.
  intros HS HF Ho. apply ssorted_app. repeat split; [done|repeat constructor|].
  intros x y Hx ->%list_elem_of_singleton. apply (Forall_elem _ _ _ HF) in Hx. lia.
Qed.

Lemma ssorted_sublist (l1 l2 : list Z) :
  l1 `sublist_of` l2 -> StronglySorted Z.lt l2 -> StronglySorted Z.lt l1.
Proof.
  induction 1 as [|x l1 l2 Hs IH|x l1 l2 Hs IH]; [done| |].
  - intros [HS HF]%StronglySorted_inv. constructor; [auto|].
    apply list.Forall_forall. intros y Hy. apply (Forall_elem _ _ _ HF).
    eapply elem_of_submseteq; [done|by apply sublist_submseteq].
  - intros [HS HF]%StronglySorted_inv. auto.
Qed.

Lemma Forall_sublist_Z (P : Z -> Prop) l1 l2 : l1 `sublist_of` l2 -> Forall P l2 -> Forall P l1.
Proof.
  intros Hs HF. apply list.Forall_forall. intros y Hy. apply (Forall_elem _ _ _ HF).
  eapply elem_of_submseteq; [done|by apply sublist_submseteq].
Qed.

(** A step that leaves every field of the invariant as it was. *)
Lemma inv_frame n n' g s' :
  inv n g -> n <= n' ->
  jr s' = jr (sc g) -> latest s' = latest (sc g) -> hasLatest s' = hasLatest (sc g) ->
  retry s' = retry (sc g) -> hasRetry s' = hasRetry (sc g) -> retryData s' = retryData (sc g) ->
  cl s' = cl (sc g) -> ft s' = ft (sc g) -> last s' = last (sc g) -> lastData s' = lastData (sc g) ->
  nextOrdinal (ep s') = nextOrdinal (ep (sc g)) -> nextToken (ep s') = nextToken (ep (sc g)) ->
  generation (ep s') = generation (ep (sc g)) -> producer (ep s') = producer (ep (sc g)) ->
  inv n' (with_sc s' g).
Proof.
  intros [] Hn E1 E2 E3 E4 E5 E6 E7 E8 E9 E10 E11 E12 E13 E14.
  unfold with_sc, owes, unresolved, owed in *.
  rewrite E14, Z.eqb_refl.
  constructor; cbn; unfold unresolved, owed;
    rewrite ?E1, ?E2, ?E3, ?E4, ?E5, ?E6, ?E7, ?E8, ?E9, ?E10, ?E11, ?E12, ?E13, ?E14; auto.
  lia.
Qed.

#[local] Arguments FixedReportTransitionCapacity : simpl never.
#[local] Arguments advanceNonzero : simpl never.
#[local] Arguments ring_view : simpl never.

Lemma owes_purged s s' acc :
  producer (ep s') = advanceNonzero (producer (ep s)) -> owes s s' acc = [].
Proof.
  unfold owes. intros ->. case_if; [|done]. by destruct (advanceNonzero_ne (producer (ep s))).
Qed.

(** A fresh ordinal after what is committed. *)
Lemma inv_fresh n g :
  inv n g -> n < 18446744073709551614 ->
  advanceNonzero (nextOrdinal (ep (sc g))) = nextOrdinal (ep (sc g)) + 1 /\
  StronglySorted Z.lt (committed g ++ [nextOrdinal (ep (sc g)) + 1]) /\
  Forall (fun o => o <= nextOrdinal (ep (sc g)) + 1) (committed g ++ [nextOrdinal (ep (sc g)) + 1]) /\
  Forall (fun ob => ob.1 < nextOrdinal (ep (sc g)) + 1) (exposed g).
Proof.
  intros [] Hn. split; [apply advanceNonzero_small; lia|].
  apply Forall_app in i_bound0 as [Hb _]. apply ssorted_app in i_sorted0 as [Hs _].
  repeat split.
  - by eapply ssorted_snoc; [..|apply Z.lt_succ_diag_r].
  - apply Forall_app. split; [|repeat constructor; lia].
    eapply list.Forall_impl; [exact Hb|]. simpl. lia.
  - eapply list.Forall_impl; [exact i_exposed0|]. simpl. intros ? (? & _). lia.
Qed.

(** What a purge and a generation retirement both establish: one fresh entry
    is all that is left, pending as the neutral or as the latest state. *)
Record restarted s s' e : Prop := {
  r_journal : jr s' = empty_journal T_zero (highWater (jr s));
  r_retry : hasRetry s' = false;
  r_claim : hasClaim (cl s') = false;
  r_validated : claimAdmissionValidated (cl s) = false \/ hasClaim (cl s) = true ->
    claimAdmissionValidated (cl s') = false;
  r_ordinal : nextOrdinal (ep s') = advanceNonzero (nextOrdinal (ep s));
  r_token : nextToken (ep s') = nextToken (ep s);
  r_generation : generation (ep s) <> 0 -> generation (ep s') <> 0;
  r_producer : producer (ep s') = advanceNonzero (producer (ep s));
  r_entry : e_ordinal e = nextOrdinal (ep s') /\ e_producer e = producer (ep s');
  r_resync : resynchronizationNeeded (ft s') = false;
  r_pending :
    (mandatoryNeutralPending (ft s') = true /\ mandatoryNeutral (ft s') = e /\
     mandatoryNeutralEncoded (ft s') = false /\ hasLatest s' = false /\
     last s' = last s /\ lastData s' = lastData s) \/
    (mandatoryNeutralPending (ft s') = false /\ hasLatest s' = true /\ latest s' = e /\
     last s' = e /\ e_ordered e = false);
}.

Lemma restarted_unresolved s s' e : restarted s s' e -> unresolved s' = [e].
Proof.
  intros []. unfold unresolved, neutral_of, inflight, in_flight.
  rewrite r_journal0, r_retry0, r_claim0. cbn.
  destruct r_pending0 as [(-> & -> & _ & -> & _)|(-> & -> & -> & _ & _)]; reflexivity.
Qed.

Lemma inv_restart n g s' e :
  inv n g -> n < 18446744073709551614 -> restarted (sc g) s' e -> inv (n + 1) (with_sc s' g).
Proof.
  intros HI Hn HR. destruct (inv_fresh _ _ HI Hn) as (Eo & Hs & Hb & Hx).
  pose proof (restarted_unresolved _ _ _ HR) as HU.
  destruct HI as [? Hnum _ _ _ _ Hex Hmono Him Hfun [Hlast _] _ _ _ _ Htok].
  destruct HR as [Rj Rr Rc Rv Ro Rt Rg Rp [Re1 Re2] Rs Rpend].
  unfold with_sc. rewrite owes_purged by done. rewrite Eo in Ro.
  constructor; cbn [sc accepted committed exposed admitted resolved deferred];
    rewrite ?HU, ?Rj, ?Rr, ?Rc, ?Ro, ?Rt, ?Rs; cbn; rewrite ?Re1, ?Ro.
  - done || (unfold FixedReportTransitionCapacity; cbn; lia).
  - pose proof (advanceNonzero_nonzero (producer (ep (sc g)))). rewrite Rp. intuition lia.
  - done.
  - done.
  - constructor.
  - split; [constructor|]. destruct Rpend as [(_ & _ & _ & -> & _)|(_ & _ & -> & _ & ?)]; done.
  - eapply Forall_impl; [|exact Hx]. simpl. intros ob Hob. repeat split; [lia| | |done].
    + repeat constructor. lia.
    + destruct Rpend as [(_ & _ & _ & -> & _)|(_ & -> & -> & _)]; repeat constructor.
      cbn. lia.
  - done.
  - eapply Forall_impl; [|exact (List.Forall_and Hx Him)].
    simpl. intros ob [Hob (_ & _ & _ & Hl)]. split_and!; [done|done| |].
    + destruct Rpend as [(_ & -> & _)|(-> & _)]; [rewrite Re1; lia|done].
    + destruct Rpend as [(_ & _ & _ & _ & -> & ->)|(_ & _ & _ & -> & _)]; [done|lia].
  - done.
  - split; [|done]. destruct Rpend as [(_ & _ & _ & _ & -> & _)|(_ & _ & _ & -> & _)]; lia.
  - intros Hp. destruct Rpend as [(_ & _ & _ & -> & _)|(Ep & _)]; [|congruence]. done.
  - done.
  - done.
  - split; [by repeat constructor|].
    destruct Rpend as [(-> & _)|(_ & _ & _ & -> & _)]; done.
  - destruct Htok as (? & ? & ? & ? & ? & Hv). repeat split; try done.
    intros _. apply Rv. destruct (hasClaim (cl (sc g))); auto.
  - by split_and!.
Qed.

Lemma restarted_neutral at_ s :
  exists e, restarted s (require_neutral cfg at_ (clear_active T_zero cfg
    (clearNonActiveHistory T_zero cfg (advanceProducer s)))) e.
Proof.
  unfold clear_active. cbn. destruct (hasClaim (cl s)) eqn:Ec; eexists; constructor; cbn; auto;
    try (split; reflexivity); try (left; repeat split; reflexivity).
  all: cbn; auto. intros [|]; congruence.
Qed.

Lemma retire_restarted t at_ now s :
  exists e, restarted s (fst (retireCurrentGenerationWithBaseline T_zero cfg t at_ now s)) e.
Proof.
  unfold retireCurrentGenerationWithBaseline, clear_active. cbn.
  destruct (hasClaim (cl s)) eqn:Ec; eexists; constructor; cbn; auto using advanceNonzero_nonzero;
    try (split; reflexivity); try (right; repeat split; reflexivity).
  all: cbn; auto. intros [|]; congruence.
Qed.

(** ** Publication *)

(** Whatever a rejected publication counts, and an accepted one's timestamp. *)
Definition same_history s s' : Prop :=
  jr s' = jr s /\ latest s' = latest s /\ hasLatest s' = hasLatest s /\
  retry s' = retry s /\ hasRetry s' = hasRetry s /\ retryData s' = retryData s /\
  cl s' = cl s /\ ft s' = ft s /\ last s' = last s /\ lastData s' = lastData s /\
  nextOrdinal (ep s') = nextOrdinal (ep s) /\ nextToken (ep s') = nextToken (ep s) /\
  generation (ep s') = generation (ep s) /\ producer (ep s') = producer (ep s).

Lemma inv_same n n' g s' : inv n g -> n <= n' -> same_history (sc g) s' -> inv n' (with_sc s' g).
Proof.
  intros HI Hn (E1 & E2 & E3 & E4 & E5 & E6 & E7 & E8 & E9 & E10 & E11 & E12 & E13 & E14).
  by eapply inv_frame.
Qed.

Lemma observe_same at_ s s' b : observeProducerTimestamp cfg at_ s = (s', b) -> same_history s s'.
Proof.
  unfold observeProducerTimestamp. repeat case_if; intros [= <- <-]; repeat split.
Qed.

Lemma same_trans s1 s2 s3 : same_history s1 s2 -> same_history s2 s3 -> same_history s1 s3.
Proof. unfold same_history. intuition congruence. Qed.

Lemma restarted_same s1 s2 s' e : same_history s1 s2 -> restarted s2 s' e -> restarted s1 s' e.
Proof.
  intros (E1 & E2 & E3 & E4 & E5 & E6 & E7 & E8 & E9 & E10 & E11 & E12 & E13 & E14) [].
  rewrite E1 in *. rewrite E7 in *. rewrite E9 in *. rewrite E10 in *. rewrite E11 in *.
  rewrite E12 in *. rewrite E13 in *. rewrite E14 in *. by constructor.
Qed.

Lemma fault_restarted reason at_ now s :
  exists e, restarted s (enterHistoryFault T_zero cfg reason at_ now s) e.
Proof.
  destruct (restarted_neutral (or_now at_ now) (count_fault reason s)) as [e He].
  exists e. eapply restarted_same; [|exact He]. repeat split.
Qed.

Definition front s : list entry :=
  inflight (cl s) ++ slot_of (hasRetry s) (retry s) ++ journal_of (jr s).

Lemma unresolved_front s :
  mandatoryNeutralPending (ft s) = false ->
  unresolved s = front s ++ slot_of (hasLatest s) (latest s).
Proof. intros Hp. unfold unresolved, front, neutral_of. rewrite Hp, <- !app_assoc. done. Qed.

Lemma ords_app l1 l2 : ords (l1 ++ l2) = ords l1 ++ ords l2.
Proof. apply map_app. Qed.

(** A new latest state, replacing the previous one. *)
Lemma inv_latest n g s' e :
  inv n g -> n < 18446744073709551614 -> mandatoryNeutralPending (ft (sc g)) = false ->
  jr s' = jr (sc g) -> hasRetry s' = hasRetry (sc g) -> retry s' = retry (sc g) ->
  retryData s' = retryData (sc g) -> cl s' = cl (sc g) -> last s' = last (sc g) ->
  lastData s' = lastData (sc g) ->
  nextOrdinal (ep s') = advanceNonzero (nextOrdinal (ep (sc g))) ->
  nextToken (ep s') = nextToken (ep (sc g)) -> generation (ep s') = generation (ep (sc g)) ->
  producer (ep s') = producer (ep (sc g)) ->
  hasLatest s' = true -> latest s' = e -> e_ordinal e = nextOrdinal (ep s') ->
  e_producer e = producer (ep s') -> e_ordered e = false ->
  mandatoryNeutralPending (ft s') = false -> resynchronizationNeeded (ft s') = false ->
  inv (n + 1) (with_sc s' g).
Proof.
  intros HI Hn Hp Ej Er1 Er2 Er3 Ec El1 El2 Eo Et Eg Ep Ea1 Ea2 Ee1 Ee2 Ee3 Ef1 Ef2.
  destruct (inv_fresh _ _ HI Hn) as (Ea & _ & _ & Hx). rewrite Ea in Eo.
  destruct HI as [? Hnum Hs Hb Hacc [Hjo _] Hex ? Him ? [Hlast _] _ _ Hcl [Hprod Hlp] ?].
  assert (HU : unresolved s' = front (sc g) ++ [e]).
  { rewrite unresolved_front by done. unfold front. by rewrite Ej, Er1, Er2, Ec, Ea1, Ea2. }
  rewrite unresolved_front, ords_app in Hs by done. rewrite unresolved_front, ords_app in Hb by done.
  rewrite unresolved_front in Hprod by done. rewrite app_assoc in Hs, Hb.
  apply ssorted_app in Hs as (Hs & _). apply Forall_app in Hb as [Hb _].
  apply Forall_app in Hprod as [Hprod _].
  unfold with_sc, owes. rewrite Ep, Z.eqb_refl.
  constructor; cbn [sc accepted committed exposed admitted resolved deferred];
    rewrite ?HU, ?Ej, ?Er1, ?Er2, ?Er3, ?Ec, ?El1, ?El2, ?Eo, ?Et, ?Eg, ?Ep, ?Ef1, ?Ef2; try done.
  - intuition lia.
  - rewrite ords_app, app_assoc. cbn. rewrite Ee1, Eo. eapply ssorted_snoc; [done|done|lia].
  - rewrite ords_app, app_assoc. cbn. rewrite Ee1, Eo. apply Forall_app. split.
    + eapply Forall_impl; [|exact Hb]. simpl. lia.
    + repeat constructor. lia.
  - eapply Forall_impl; [|exact Hacc]. unfold owed. rewrite Ec, Er1, Er2, Ej. done.
  - split; [done|]. by rewrite Ea2.
  - eapply Forall_impl; [|exact (List.Forall_and Hx Hex)]. simpl. intros ob (Hob & Hob' & Hu & Hj & _).
    rewrite unresolved_front, ords_app in Hu by done. apply Forall_app in Hu as [Hu _].
    rewrite ords_app in Hj. apply Forall_app in Hj as [Hj _].
    rewrite Ea1, Ea2, !ords_app. cbn. rewrite Ee1, Eo. split_and!.
    + lia.
    + apply Forall_app; split; [done|repeat constructor; lia].
    + apply Forall_app; split; [done|repeat constructor; lia].
    + intros H1%app_nil. naive_solver.
  - eapply Forall_impl; [|exact Him]. simpl. naive_solver.
  - split; [lia|]. intros H1%app_nil. naive_solver.
  - intros Hc. destruct (Hcl Hc) as (? & ? & ? & ? & ? & HS). split_and!; try done.
    destruct (claimSource (cl (sc g))); congruence || done.
  - split; [|by intros; apply Hlp]. apply Forall_app; split; [done|]. constructor; [congruence|done].
Qed.

Lemma journal_push e s :
  length (journal (jr s)) = FixedReportTransitionCapacity ->
  (count (jr s) < FixedReportTransitionCapacity)%nat ->
  journal_of (jr (pushJournal e s)) = journal_of (jr s) ++ [e].
Proof. intros Hl Hc. unfold journal_of. cbn. apply ring_view_push. lia. Qed.

(** What an accepted boundary does: the pending continuous state is promoted
    ahead of it, or the one in flight is marked. *)
Lemma accept_ordered_effect e s :
  length (journal (jr s)) = FixedReportTransitionCapacity ->
  (head (jr s) < FixedReportTransitionCapacity)%nat ->
  (count (jr s) + (if hasLatest s then 2 else 1) <= FixedReportTransitionCapacity)%nat ->
  let s' := accept_ordered T_zero e s in
  (length (journal (jr s')) = FixedReportTransitionCapacity /\
   (head (jr s') < FixedReportTransitionCapacity)%nat /\
   (count (jr s') <= FixedReportTransitionCapacity)%nat) /\
  journal_of (jr s') =
    journal_of (jr s) ++ map (with_ordered true) (slot_of (hasLatest s) (latest s)) ++ [e] /\
  hasLatest s' = false /\ retry s' = retry s /\ hasRetry s' = hasRetry s /\
  retryData s' = retryData s /\ ft s' = ft s /\ last s' = last s /\ lastData s' = lastData s /\
  ep s' = ep s.
Proof.
  intros Hl Hh Hc. unfold accept_ordered.
  destruct (hasLatest s) eqn:E1; cbn.
  - rewrite E1. cbn. rewrite !length_insert. split; [repeat split; [done|done|lia]|].
    split; [|repeat split].
    pose proof (journal_push (with_ordered true (latest s)) s Hl ltac:(lia)) as J1.
    pose proof (journal_push e (pushJournal (with_ordered true (latest s)) s)) as J2.
    cbn in J2. rewrite length_insert in J2.
    rewrite (app_assoc _ [with_ordered true (latest s)] [e] : _ ++ [_; _] = _), <- J1.
    apply J2; [done|lia].
  - destruct (hasClaim (cl s) && _ && _) eqn:E2; cbn; rewrite ?E1; cbn; rewrite ?length_insert;
      (split; [repeat split; [done|done|lia]|split; [|repeat split; done]]);
      (apply (journal_push e s); [done|lia]).
Qed.

Lemma accept_ordered_claim e s :
  let c := cl s in let c' := cl (accept_ordered T_zero e s) in
  claimed c' = claimed c /\ claimedData c' = claimedData c /\ claimToken c' = claimToken c /\
  claimSource c' = claimSource c /\ claimGeneration c' = claimGeneration c /\
  claimAdmissionValidated c' = claimAdmissionValidated c /\ hasClaim c' = hasClaim c /\
  claimRequiresOrderedRecovery c' = (claimRequiresOrderedRecovery c ||
    (negb (hasLatest s) && hasClaim c && bool_decide (claimSource c = ClaimLatest) &&
     negb (e_ordered (claimed c)))).
Proof.
  unfold accept_ordered.
  destruct (hasLatest s) eqn:E1; cbn.
  - rewrite E1. cbn. rewrite orb_false_r. repeat split.
  - destruct (hasClaim (cl s) && _ && _) eqn:E2; cbn; rewrite E1; cbn;
      rewrite ?orb_true_r, ?orb_false_r; repeat split.
Qed.

Lemma ords_with_ordered b l : ords (map (with_ordered b) l) = ords l.
Proof. unfold ords. rewrite map_map. done. Qed.

Record journaled s s' e : Prop := {
  j_ring : length (journal (jr s')) = FixedReportTransitionCapacity /\
    (head (jr s') < FixedReportTransitionCapacity)%nat /\
    (count (jr s') <= FixedReportTransitionCapacity)%nat;
  j_journal : journal_of (jr s') = journal_of (jr s) ++
    map (with_ordered true) (slot_of (hasLatest s) (latest s)) ++ [e];
  j_claimed : claimed (cl s') = claimed (cl s);
  j_data : claimedData (cl s') = claimedData (cl s);
  j_token : claimToken (cl s') = claimToken (cl s);
  j_source : claimSource (cl s') = claimSource (cl s);
  j_generation : claimGeneration (cl s') = claimGeneration (cl s);
  j_validated : claimAdmissionValidated (cl s') = claimAdmissionValidated (cl s);
  j_has : hasClaim (cl s') = hasClaim (cl s);
  j_recovery : claimRequiresOrderedRecovery (cl s') = (claimRequiresOrderedRecovery (cl s) ||
    (negb (hasLatest s) && hasClaim (cl s) && bool_decide (claimSource (cl s) = ClaimLatest) &&
     negb (e_ordered (claimed (cl s)))));
  j_latest : hasLatest s' = false;
  j_retry : retry s' = retry s /\ hasRetry s' = hasRetry s /\ retryData s' = retryData s;
  j_fault : ft s' = ft s;
  j_last : last s' = last s /\ lastData s' = lastData s;
  j_epochs : nextOrdinal (ep s') = advanceNonzero (nextOrdinal (ep s)) /\
    nextToken (ep s') = nextToken (ep s) /\ generation (ep s') = generation (ep s) /\
    producer (ep s') = producer (ep s);
  j_entry : e_ordinal e = nextOrdinal (ep s') /\ e_producer e = producer (ep s) /\
    e_ordered e = true;
}.

Lemma accept_journaled s s0 state at_ s' :
  same_history s s0 ->
  length (journal (jr s)) = FixedReportTransitionCapacity ->
  (head (jr s) < FixedReportTransitionCapacity)%nat ->
  (count (jr s0) + (if hasLatest s0 then 2 else 1) <= FixedReportTransitionCapacity)%nat ->
  let '(e, s1) := newEntry s0 state at_ true in
  same_history (accept_ordered T_zero e s1) s' -> journaled s s' e.
Proof.
  intros (E1 & E2 & E3 & E4 & E5 & E6 & E7 & E8 & E9 & E10 & E11 & E12 & E13 & E14) Hr1 Hr2 Hc.
  destruct (newEntry s0 state at_ true) as [e s1] eqn:En. unfold newEntry in En.
  apply pair_equal_spec in En as [Ee Es].
  intros (S1 & S2 & S3 & S4 & S5 & S6 & S7 & S8 & S9 & S10 & S11 & S12 & S13 & S14).
  assert (Hr1' : length (journal (jr s1)) = FixedReportTransitionCapacity)
    by (rewrite <- Es; cbn; congruence).
  assert (Hr2' : (head (jr s1) < FixedReportTransitionCapacity)%nat)
    by (rewrite <- Es; cbn; congruence).
  assert (Hc' : (count (jr s1) + (if hasLatest s1 then 2 else 1) <= FixedReportTransitionCapacity)%nat)
    by (rewrite <- Es; exact Hc).
  destruct (accept_ordered_effect e s1 Hr1' Hr2' Hc') as
    (Hring & Aj & Al & Ar1 & Ar2 & Ar3 & Af & Al3 & Al4 & Aep).
  destruct (accept_ordered_claim e s1) as (C1 & C2 & C3 & C4 & C5 & C6 & C7 & C8).
  assert (Q : jr s1 = jr s /\ latest s1 = latest s /\ hasLatest s1 = hasLatest s /\
    cl s1 = cl s /\ retry s1 = retry s /\ hasRetry s1 = hasRetry s /\ retryData s1 = retryData s /\
    ft s1 = ft s /\ last s1 = last s /\ lastData s1 = lastData s) by (rewrite <- Es; cbn; done).
  destruct Q as (Q1 & Q2 & Q3 & Q4 & Q5 & Q6 & Q7 & Q8 & Q9 & Q10).
  rewrite Q1, Q2, Q3 in Aj. rewrite Q3, Q4 in C8.
  constructor; rewrite ?S1, ?S3, ?S4, ?S5, ?S6, ?S7, ?S8, ?S9, ?S10, ?S11, ?S12, ?S13, ?S14, ?Aep;
    try congruence; try done.
  - split_and!; congruence.
  - split; congruence.
  - rewrite <- Es. cbn. split_and!; congruence.
  - rewrite <- Ee, <- Es. cbn. done.
Qed.

(** Membership in a list of at most one element. *)
Ltac only_in H := first [by apply elem_of_nil in H | apply list_elem_of_singleton in H].

(** The newest unpresented state, if continuous: waiting as the latest one, or
    in flight with nothing behind it, unless it was deferred before. *)
Lemma boundary_continuous n g o :
  inv n g -> mandatoryNeutralPending (ft (sc g)) = false -> o ∈ boundary (sc g) -> o ∉ deferred g ->
  (hasLatest (sc g) = true /\ o = e_ordinal (latest (sc g))) \/
  (hasLatest (sc g) = false /\ hasClaim (cl (sc g)) = true /\ claimSource (cl (sc g)) = ClaimLatest /\
   e_ordered (claimed (cl (sc g))) = false /\ o = e_ordinal (claimed (cl (sc g)))).
Proof.
  intros HI Hp Ho Hd. destruct (i_journal _ _ HI) as [Hj _]. destruct (i_origin _ _ HI) as (O1 & O2 & O3).
  pose proof (i_claim _ _ HI) as Hcl. unfold boundary in Ho. rewrite unresolved_front in Ho by done.
  unfold front in Ho. destruct (hasLatest (sc g)); cbn [slot_of] in Ho.
  { rewrite last_snoc in Ho. left. split; [done|]. by destruct (e_ordered (latest (sc g))); only_in Ho. }
  right. rewrite app_nil_r in Ho.
  destruct (list.last (journal_of (jr (sc g)))) as [x|] eqn:El.
  { rewrite app_assoc, last_app, El in Ho. apply last_Some in El as [l El]. rewrite El in Hj.
    apply Forall_app in Hj as [_ [Hx _]%Forall_cons_1]. rewrite Hx in Ho. only_in Ho. }
  apply last_None in El. rewrite El, app_nil_r in Ho.
  destruct (hasRetry (sc g)); cbn [slot_of] in Ho.
  { rewrite last_snoc in Ho. destruct (O3 eq_refl) as [Hr|Hr]; [rewrite Hr in Ho; only_in Ho|].
    destruct (e_ordered (retry (sc g))); only_in Ho. subst o. by destruct Hd. }
  rewrite app_nil_r in Ho. unfold inflight, in_flight in Ho.
  destruct (hasClaim (cl (sc g))); [|only_in Ho]. destruct (Hcl eq_refl) as (_ & _ & _ & _ & _ & HS).
  specialize (O1 eq_refl). specialize (O2 eq_refl).
  destruct (claimSource (cl (sc g))) eqn:Es; try done; repeat case_bool_decide; try done; cbn in Ho;
    try (only_in Ho; done); destruct (e_ordered (claimed (cl (sc g)))) eqn:Eo; only_in Ho; naive_solver.
Qed.

Lemma journaled_owes n g s' e :
  inv n g -> mandatoryNeutralPending (ft (sc g)) = false -> journaled (sc g) s' e ->
  forall o, o ∈ ords (owed (sc g)) \/ (o ∈ boundary (sc g) /\ o ∉ deferred g) \/ o = e_ordinal e ->
    o ∈ ords (owed s').
Proof.
  intros HI Hp [] o Ho. destruct j_retry0 as (R1 & R2 & _).
  assert (Hin : in_flight (cl s') = in_flight (cl (sc g)))
    by (unfold in_flight; by rewrite j_source0, j_has0).
  unfold owed in *. rewrite Hin, j_claimed0, j_recovery0, R1, R2, j_journal0.
  rewrite !ords_app, ords_with_ordered in *. rewrite !elem_of_app in *.
  destruct Ho as [[Ho|[Ho|Ho]]|[[Ho Hd]| ->]]; [left|tauto|tauto| |set_solver].
  - destruct (in_flight (cl (sc g))), (e_ordered (claimed (cl (sc g)))),
      (claimRequiresOrderedRecovery (cl (sc g))); cbn in *; set_solver.
  - destruct (boundary_continuous _ _ _ HI Hp Ho Hd) as [(Hl & ->)|(Hl & Hc & Hs & He & ->)].
    + rewrite Hl. cbn. set_solver.
    + left. assert (in_flight (cl (sc g)) = true) as -> by (unfold in_flight; by rewrite Hc, Hs).
      rewrite Hl, Hc, He, bool_decide_true by done. rewrite orb_true_r. cbn. set_solver.
Qed.

Lemma journaled_unresolved s s' e :
  journaled s s' e -> mandatoryNeutralPending (ft s) = false ->
  ords (unresolved s') = ords (unresolved s) ++ [e_ordinal e] /\
  (Forall (fun x => e_producer x = producer (ep s)) (unresolved s) ->
   Forall (fun x => e_producer x = producer (ep s)) (unresolved s')).
Proof.
  intros [] Hp. destruct j_retry0 as (R1 & R2 & _). destruct j_entry0 as (? & ? & _).
  assert (Hin : in_flight (cl s') = in_flight (cl s))
    by (unfold in_flight; by rewrite j_source0, j_has0).
  rewrite !unresolved_front by congruence. unfold front, inflight.
  rewrite Hin, j_claimed0, R1, R2, j_latest0, j_journal0. split.
  - rewrite !ords_app, ords_with_ordered. cbn. rewrite app_nil_r, <- !app_assoc. done.
  - rewrite !Forall_app. intros [(? & ? & ?) ?]. split_and!; try done; [by apply Forall_map|].
    by constructor.
Qed.

Lemma inv_ordered n g s' e :
  inv n g -> n < 18446744073709551614 -> mandatoryNeutralPending (ft (sc g)) = false ->
  resynchronizationNeeded (ft (sc g)) = false -> journaled (sc g) s' e ->
  inv (n + 1) (after_publish s' PublishAcceptedOrdered g).
Proof.
  intros HI Hn Hp Hrs HJ. pose proof (journaled_owes _ _ _ _ HI Hp HJ) as HO.
  destruct (inv_fresh _ _ HI Hn) as (Ea & _ & _ & Hx).
  destruct HI as [_ Hnum Hs Hb Hacc [Hjo _] Hex ? Him ? [Hlast _] _ _ Hcl [Hprod Hlp] ?].
  destruct (journaled_unresolved _ _ _ HJ Hp) as [HU HP].
  destruct HJ as [Hring Aj C1 C2 C3 C4 C5 C6 C7 C8 S3 (S4 & S5 & S6) S8 (S9 & S10)
    (S11 & S12 & S13 & S14) (Ee & Ee2 & Ee3)].
  rewrite Ea in S11. rewrite Ee, S11 in HU.
  rewrite Ee, S11 in HO.
  assert (Hne : unresolved s' <> []).
  { intros Hu. rewrite Hu in HU. destruct (ords (unresolved (sc g))); discriminate. }
  constructor; cbn [after_publish sc accepted committed exposed admitted resolved deferred];
    rewrite ?HU, ?C1, ?C2, ?C3, ?C4, ?C5, ?C6, ?C7, ?S3, ?S4, ?S5, ?S6, ?S8, ?S9, ?S10, ?S11, ?S12,
      ?S13, ?S14, ?Hp, ?Hrs; try done.
  - intuition lia.
  - rewrite app_assoc. eapply ssorted_snoc; [done|done|lia].
  - rewrite app_assoc. apply Forall_app. split; [|repeat constructor; lia].
    eapply Forall_impl; [|exact Hb]. simpl. lia.
  - apply list.Forall_forall. intros o. rewrite !elem_of_app, list_elem_of_singleton.
    rewrite list_elem_of_filter. intros [Ho|Ho]; [|right; apply HO; tauto].
    destruct (Forall_elem _ _ _ Hacc Ho); [by left|right; apply HO; tauto].
  - split; [|done]. rewrite Aj, !Forall_app. split_and!; [done| |by constructor].
    apply Forall_map, Forall_true. done.
  - eapply Forall_impl; [|exact (List.Forall_and Hx Hex)]. simpl. intros ob (Hob & Hob' & Hu & Hj & _).
    split_and!; [lia|apply Forall_app; split; [done|repeat constructor; lia]| |done].
    cbn. rewrite app_nil_r, Aj, app_assoc, ords_app. apply Forall_app. split.
    + by rewrite ords_app, ords_with_ordered, <- ords_app.
    + cbn. repeat constructor. lia.
  - eapply Forall_impl; [|exact Him]. simpl. naive_solver.
  - split; [lia|done].
  - intros Hc. destruct (Hcl Hc) as (? & ? & ? & ? & ? & HS). split_and!; try done.
    destruct (claimSource (cl (sc g))); try done; [|congruence].
    destruct HS as (? & ? & ? & HR & ?). split_and!; try done. rewrite C8, HR.
    rewrite (bool_decide_false (ClaimIdle = ClaimLatest)) by done.
    by rewrite andb_false_r.
  - split; [by apply HP|by intros; apply Hlp].
Qed.

Lemma inv_publish n g lease state at_ now s' d :
  inv n g -> n < 18446744073709551614 ->
  publishLocked T_zero cfg lease state at_ now (sc g) = (s', d) ->
  inv (n + 1) (after_publish s' d g).
Proof.
  intros HI Hn. unfold publishLocked.
  case_if; [intros [= <- <-]; apply (inv_same n); [done|lia|repeat split]|].
  case_if; [intros [= <- <-]; apply (inv_same n); [done|lia|repeat split]|].
  case_if; [intros [= <- <-]; apply (inv_same n); [done|lia|repeat split]|].
  destruct (observeProducerTimestamp cfg at_ (sc g)) as [s0 ok] eqn:Eobs.
  apply observe_same in Eobs.
  case_if; [intros [= <- <-]; apply (inv_same n); [done|lia|exact Eobs]|].
  set (ordered := hasPrevious s0 && _). case_if.
  - case_if; intros [= <- <-]; [apply (inv_same n); [done|lia|exact Eobs]|].
    destruct (fault_restarted FaultOverflow at_ now (count_rejected s0)) as [e He].
    eapply inv_restart; [done|done|].
    apply (restarted_same _ (count_rejected s0)); [exact Eobs|exact He].
  - destruct (i_ring _ _ HI) as (Hr1 & Hr2 & Hr3).
    destruct ordered; cbn in *.
    + pose proof (accept_journaled (sc g) s0 state at_) as HJ. cbn in HJ.
      intros [= <- <-]. eapply inv_ordered; [done|done|done|done|].
      apply HJ; [done|done|done| |].
      * destruct Eobs as (Ej & _). rewrite Ej in *. apply Nat.ltb_ge in Hb3.
        destruct (hasLatest s0); lia.
      * unfold count_received, set_previous. cbn. repeat split.
    + destruct Eobs as (E1 & E2 & E3 & E4 & E5 & E6 & E7 & E8 & E9 & E10 & E11 & E12 & E13 & E14).
      unfold accept_continuous. cbn.
      destruct (hasLatest s0); intros [= <- <-]; eapply inv_latest; cbn; try done; congruence.
Qed.

Lemma inv_retire_lease n g lease at_ now :
  inv n g -> n < 18446744073709551614 ->
  inv (n + 1) (with_sc (fst (RetireProducerLease T_zero cfg lease at_ now (sc g))) g).
Proof.
  intros HI Hn. unfold RetireProducerLease.
  case_if; [apply (inv_same n); [done|lia|repeat split]|].
  case_if; [apply (inv_same n); [done|lia|repeat split]|].
  set (s0 := if retires_early _ _ then _ else _).
  assert (HS : same_history (sc g) s0) by (unfold s0; case_if; repeat split).
  destruct (restarted_neutral (or_now at_ now) s0) as [e He].
  eapply inv_restart; [done|done|]. eapply restarted_same; [exact HS|exact He].
Qed.

Lemma inv_resynchronize n g lease state at_ now :
  inv n g -> n < 18446744073709551614 ->
  inv (n + 1) (with_sc (fst (Resynchronize cfg lease state at_ now (sc g))) g).
Proof.
  intros HI Hn. unfold Resynchronize.
  do 4 (case_if; [apply (inv_same n); [done|lia|repeat split]|]).
  destruct (observeProducerTimestamp cfg _ (sc g)) as [s0 ok] eqn:Eobs.
  apply observe_same in Eobs.
  case_if; [apply (inv_same n); [done|lia|exact Eobs]|].
  destruct Eobs as (E1 & E2 & E3 & E4 & E5 & E6 & E7 & E8 & E9 & E10 & E11 & E12 & E13 & E14).
  cbn. eapply inv_latest; cbn; try done; congruence.
Qed.

Lemma inv_retire n g s0 t at_ now :
  inv n g -> n < 18446744073709551614 -> same_history (sc g) s0 ->
  inv (n + 1) (with_sc (fst (retireCurrentGenerationWithBaseline T_zero cfg t at_ now s0)) g).
Proof.
  intros HI Hn HS. destruct (retire_restarted t at_ now s0) as [e He].
  eapply inv_restart; [done|done|]. eapply restarted_same; [exact HS|exact He].
Qed.
End Run.
