(* ===== verification/InputClaims.v ===== *)
(** * Claims of the input presentation scheduler

    Selection, admission and resolution preserve the invariant of
    InputHistory.v; the theorems about every run follow. *)

From Stdlib Require Import Sorting.Sorted.
From S2P Require Import Prelude Bytes InputPresentation InputHistory.

Section Claims.
Context {T E : Type} (T_zero : T) (cfg : config T E).
Local Notation sched := (FixedReportScheduler T E).
Local Notation entry := (fixedReportEntry T).
Local Notation trace := (@trace T E).
Local Notation unresolved := (unresolved (E := E) T_zero).
Local Notation owed := (owed (E := E) T_zero).
Local Notation journal_of := (journal_of T_zero).
Local Notation inv := (inv (E := E) T_zero).
Local Notation restarted := (restarted (E := E) T_zero).
Implicit Types (s : sched) (e : entry) (g : trace).

#[local] Arguments FixedReportTransitionCapacity : simpl never.
#[local] Arguments advanceNonzero : simpl never.
#[local] Arguments ring_view : simpl never.

(** ** Selection *)

Definition tail s : list entry := journal_of (jr s) ++ slot_of (hasLatest s) (latest s).

Definition exposes s' (g : trace) : trace :=
  {| sc := s'; accepted := owes (sc g) s' (accepted g); committed := committed g;
     exposed := exposed g ++ [(e_ordinal (claimed (cl s')), claimedData (cl s'))];
     admitted := admitted g; resolved := resolved g; deferred := deferred g |}.

(** What every successful selection does, whatever its source. *)
Record picked (g : trace) s' : Prop := {
  p_ring : length (journal (jr s')) = FixedReportTransitionCapacity /\
    (head (jr s') < FixedReportTransitionCapacity)%nat /\
    (count (jr s') <= FixedReportTransitionCapacity)%nat;
  p_unresolved : ords (unresolved s') = ords (unresolved (sc g));
  p_producer : Forall (fun x => e_producer x = producer (ep (sc g))) (unresolved s');
  p_owed : forall o, o ∈ ords (owed (sc g)) -> o ∈ ords (owed s');
  p_journal : Forall (fun x => e_ordered x = true) (journal_of (jr s')) /\
    (hasLatest s' = true -> e_ordered (latest s') = false);
  p_tail : ords (tail s') `sublist_of` ords (tail (sc g));
  p_last : last s' = last (sc g) /\ lastData s' = lastData (sc g);
  p_epochs : nextOrdinal (ep s') = nextOrdinal (ep (sc g)) /\
    nextToken (ep s') = advanceNonzero (nextToken (ep (sc g))) /\
    generation (ep s') = generation (ep (sc g)) /\ producer (ep s') = producer (ep (sc g));
  p_retry : hasRetry s' = false;
  p_claim : hasClaim (cl s') = true /\ claimToken (cl s') = nextToken (ep s') /\
    claimGeneration (cl s') = generation (ep s') /\
    e_producer (claimed (cl s')) = producer (ep s') /\
    claimAdmissionValidated (cl s') = claimAdmissionValidated (cl (sc g));
  p_fault : mandatoryNeutralPending (ft s') = mandatoryNeutralPending (ft (sc g)) /\
    resynchronizationNeeded (ft s') = resynchronizationNeeded (ft (sc g)) /\
    mandatoryNeutral (ft s') = mandatoryNeutral (ft (sc g)) /\
    (mandatoryNeutralEncoded (ft (sc g)) = true -> mandatoryNeutralEncoded (ft s') = true /\
       mandatoryNeutralData (ft s') = mandatoryNeutralData (ft (sc g)));
  p_source :
    match claimSource (cl s') with
    | ClaimNone => False
    | ClaimMandatoryNeutral => mandatoryNeutralPending (ft s') = true /\ jr s' = jr (sc g) /\
        hasLatest s' = false /\
        e_ordinal (claimed (cl s')) = e_ordinal (mandatoryNeutral (ft s')) /\
        mandatoryNeutralEncoded (ft s') = true /\
        claimedData (cl s') = mandatoryNeutralData (ft s')
    | ClaimIdle => mandatoryNeutralPending (ft s') = false /\ count (jr s') = 0%nat /\
        hasLatest s' = false /\ e_ordinal (claimed (cl s')) = e_ordinal (last s') /\
        claimedData (cl s') = lastData s' /\ e_ordered (claimed (cl s')) = false /\
        claimRequiresOrderedRecovery (cl s') = false /\ e_ordinal (last s') ∈ committed g
    | _ => mandatoryNeutralPending (ft s') = false /\ resynchronizationNeeded (ft s') = false /\
        (claimSource (cl s') = ClaimLatest -> e_ordered (claimed (cl s')) = false)
    end;
  p_head : (claimSource (cl s') = ClaimIdle /\ unresolved s' = []) \/
    exists rest, ords (unresolved s') = e_ordinal (claimed (cl s')) :: rest /\
      ords (tail s') `sublist_of` rest;
  p_origin : (claimSource (cl s') = ClaimJournal -> e_ordered (claimed (cl s')) = true) /\
    (claimSource (cl s') = ClaimRetry -> hasRetry (sc g) = true /\ claimed (cl s') = retry (sc g));
  p_image : Forall (fun ob => ob.1 = e_ordinal (claimed (cl s')) ->
    ob.2 = claimedData (cl s')) (exposed g);
}.

Lemma unresolved_nil s s' : ords (unresolved s') = ords (unresolved s) ->
  unresolved s' = [] -> unresolved s = [].
Proof. unfold ords. intros E1 E2. rewrite E2 in E1. by destruct (unresolved s). Qed.

Lemma picked_order n g s' :
  inv n g -> picked g s' ->
  (e_ordinal (claimed (cl s')) <= nextOrdinal (ep (sc g)) /\
   Forall (fun o => e_ordinal (claimed (cl s')) <= o) (ords (unresolved s')) /\
   Forall (fun o => e_ordinal (claimed (cl s')) < o) (ords (tail s')) /\
   (unresolved s' = [] -> e_ordinal (claimed (cl s')) <= e_ordinal (last s'))) /\
  Forall (fun ob => ob.1 <= e_ordinal (claimed (cl s'))) (exposed g) /\
  (e_ordinal (claimed (cl s')) = e_ordinal (last s') ->
   e_ordinal (last s') ∈ committed g -> claimedData (cl s') = lastData s').
Proof.
  intros HI [_ Pu _ _ _ _ [Pl1 Pl2] _ _ _ _ Psrc Ph _ _].
  destruct HI as [_ _ Hs Hb _ _ Hex _ _ _ [Hlast Hidle] _ _ _ _ _]. rewrite <- Pu in Hs, Hb.
  destruct Ph as [[Hi Hnil]|(rest & Hr & Hsub)].
  - rewrite Hi in Psrc. destruct Psrc as (_ & Hc & Hl & Eo & Ed & _). rewrite Eo, Ed, Hnil, Pl1.
    assert (Ht : tail s' = []) by (unfold tail, InputHistory.journal_of; by rewrite Hc, Hl).
    rewrite Ht. split_and!; try done; try constructor.
    eapply Forall_impl; [|exact Hex]. simpl. intros ob (_ & _ & _ & H). apply H.
    by eapply unresolved_nil.
  - rewrite Hr in *. apply ssorted_app in Hs as (_ & Hs & Hcom).
    apply StronglySorted_inv in Hs as [Hs HF]. apply Forall_app in Hb as [_ Hb].
    apply Forall_cons_1 in Hb as [Hb _]. split_and!; try done.
    + constructor; [lia|]. eapply Forall_impl; [|exact HF]. simpl. lia.
    + eapply Forall_sublist_Z; [exact Hsub|exact HF].
    + intros Hnil. rewrite Hnil in Hr. discriminate.
    + eapply Forall_impl; [|exact Hex]. simpl. intros ob (_ & H & _). rewrite <- Pu in H.
      by apply Forall_cons_1 in H as [? _].
    + intros Eo Hin. rewrite <- Eo in Hin.
      pose proof (Hcom _ (e_ordinal (claimed (cl s'))) Hin ltac:(left)). lia.
Qed.

Lemma inv_picked n g s' :
  inv n g -> n < 18446744073709551614 -> hasClaim (cl (sc g)) = false -> picked g s' ->
  inv (n + 1) (exposes s' g).
Proof.
  intros HI Hn Hnc HP.
  destruct (picked_order _ _ _ HI HP) as ((Pn1 & Pn2 & Pn3 & Pn4) & Pold & Pcom).
  destruct HI as [_ Hnum Hs Hb Hacc _ Hex Hmo Him Hfun [Hlast Hidle] Hneu Hres _ [_ Hlp] Htok Horg].
  destruct HP as [Hring Pu Pp Po Pj Pt [Pl1 Pl2] (Pe1 & Pe2 & Pe3 & Pe4) Pr (Pc1 & Pc2 & Pc3 & Pc4 &
    Pc5) (Pf1 & Pf2 & Pf3 & Pf4) Psrc _ Porg Pimg].
  rewrite advanceNonzero_small in Pe2 by lia.
  destruct Htok as (T1 & T2 & T3 & T4 & T5 & T6).
  unfold exposes, owes. rewrite Pe4, Z.eqb_refl.
  constructor; cbn [sc accepted committed exposed admitted resolved deferred];
    rewrite ?Pu, ?Pl1, ?Pl2, ?Pe1, ?Pe2, ?Pe3, ?Pe4, ?Pr, ?Pc1, ?Pc5; try done.
  - intuition lia.
  - eapply Forall_impl; [|exact Hacc]. simpl. intros o [|]; [by left|right; auto].
  - rewrite Pu in Pn2. rewrite Pl1 in Pn4. apply Forall_app. split; [|by repeat constructor].
    eapply Forall_impl; [|exact Hex]. simpl. intros ob (? & ? & Ht & Hu). split_and!; try done.
    + eapply Forall_sublist_Z; [exact Pt|exact Ht].
    + intros Hu'. apply Hu. by eapply unresolved_nil.
  - rewrite map_app. apply ssorted_app. split_and!; [done|repeat constructor|].
    intros x y (ob & -> & Hob)%list_elem_of_fmap Hy. cbn in Hy. apply list_elem_of_singleton in Hy as ->.
    exact (Forall_elem _ _ _ Pold Hob).
  - rewrite Pl1, Pl2 in Pcom. apply Forall_app. split.
    + eapply Forall_impl; [|exact (List.Forall_and Pimg Him)]. simpl.
      intros ob (? & _ & _ & Hi & Hl). split_and!; try done.
      rewrite Pf1, Pf3. intros Hp Eo. destruct (Hi Hp Eo) as [He ->].
      destruct (Pf4 He) as [-> ->]. done.
    + constructor; [|done]. cbn. split_and!; try done.
      rewrite Pf1, Pf3. intros Hp Eo. destruct (claimSource (cl s')); rewrite ?Pf1 in Psrc; try easy.
      * naive_solver congruence.
      * naive_solver congruence.
      * naive_solver congruence.
      * naive_solver congruence.
      * naive_solver.
  - intros o b b'. rewrite !elem_of_app, !list_elem_of_singleton.
    intros [H1|H1] [H2|H2]; [by eapply Hfun| | |congruence].
    + injection H2 as -> ->. by apply (Forall_elem _ _ _ Pimg H1).
    + injection H1 as -> ->. symmetry. by apply (Forall_elem _ _ _ Pimg H2).
  - split; [done|]. intros Hu'. apply Hidle. by eapply unresolved_nil.
  - intros Hp. destruct (claimSource (cl s')); try easy; try (destruct Psrc as (Hq & _); congruence).
    destruct Psrc as (_ & -> & -> & Hs2 & Hs3 & Hs4). rewrite Pf1 in Hp.
    destruct (Hneu Hp) as (_ & Hc0 & _ & Hr0 & _). rewrite Pf2, Hr0. by split_and!.
  - intros Hr. rewrite Pf2 in Hr. destruct (Hres Hr) as (_ & _ & _ & Hl0 & _). rewrite Pf3.
    destruct (claimSource (cl s')); try easy.
    1-3: destruct Psrc as (_ & Hq & _); congruence.
    destruct Psrc as (Hp & _). rewrite Pf1 in Hp. destruct (Hneu Hp) as (_ & _ & _ & Hr0 & _).
    congruence.
  - intros _. split_and!; try done; try congruence; try lia.
    rewrite Pl1, Pl2 in Psrc. destruct (claimSource (cl s')); naive_solver.
  - split; [done|]. rewrite Pf1. exact Hlp.
  - assert (Hfresh : forall t, t ∈ resolved g ++ admitted g -> t <> nextToken (ep (sc g)) + 1).
    { intros t Ht. pose proof (Forall_elem _ _ _ T3 Ht). simpl in *. lia. }
    split_and!; try done.
    + eapply Forall_impl; [|exact T3]. simpl. lia.
    + intros _ Hin. apply (Hfresh (nextToken (ep (sc g)) + 1)); set_solver.
    + intros _ Hin. destruct (Hfresh (nextToken (ep (sc g)) + 1)); set_solver.
  - destruct Porg as [Po1 Po2], Horg as (_ & _ & Ho3). split_and!; [by intros _| |done].
    intros _ Hs'. destruct (Po2 Hs') as [Hr ->]. by apply Ho3.
Qed.

Definition ring_ok (j : Journal T) : Prop :=
  length (journal j) = FixedReportTransitionCapacity /\
  (head j < FixedReportTransitionCapacity)%nat /\ (count j <= FixedReportTransitionCapacity)%nat.

Lemma pop_journal s :
  ring_ok (jr s) -> (0 < count (jr s))%nat ->
  let '(e, s1) := popJournal T_zero s in
  journal_of (jr s) = e :: journal_of (jr s1) /\ ring_ok (jr s1) /\
  (count (jr s1) < FixedReportTransitionCapacity)%nat /\ s1 = set_jr (jr s1) s.
Proof.
  intros (Hl & Hh & Hc) Hpos. unfold popJournal, journal_of, ring_ok. cbn.
  rewrite length_insert, Hl. split_and!; try lia; try done.
  - destruct (count (jr s)) as [|k]; [lia|]. rewrite Nat.sub_1_r. cbn [Nat.pred].
    rewrite <- Hl. apply ring_view_pop; lia.
  - apply Nat.mod_upper_bound. unfold FixedReportTransitionCapacity. lia.
Qed.

Lemma head_fault_entry s : ring_ok (jr s) -> (0 < count (jr s))%nat ->
  exists rest, journal_of (jr s) = fst (popJournal T_zero s) :: rest.
Proof.
  intros H1 H2. pose proof (pop_journal s H1 H2) as HP. destruct (popJournal T_zero s). naive_solver.
Qed.

(** *** Selection by source *)

Lemma unresolved_claimed s :
  mandatoryNeutralPending (ft s) = false -> hasRetry s = false -> in_flight (cl s) = true ->
  unresolved s = claimed (cl s) :: tail s.
Proof.
  intros Hp Hr Hi. unfold InputHistory.unresolved, neutral_of, inflight, tail.
  by rewrite Hp, Hr, Hi.
Qed.

Lemma unresolved_tail s :
  mandatoryNeutralPending (ft s) = false -> hasRetry s = false -> in_flight (cl s) = false ->
  unresolved s = tail s.
Proof.
  intros Hp Hr Hi. unfold InputHistory.unresolved, neutral_of, inflight, tail.
  by rewrite Hp, Hr, Hi.
Qed.

Lemma unresolved_neutral s :
  mandatoryNeutralPending (ft s) = true -> hasRetry s = false -> in_flight (cl s) = false ->
  tail s = [] -> unresolved s = [mandatoryNeutral (ft s)].
Proof.
  intros Hp Hr Hi Ht. unfold InputHistory.unresolved, neutral_of, inflight.
  rewrite Hp, Hr, Hi. cbn. unfold tail in Ht. by rewrite Ht.
Qed.

Lemma in_flight_none c : hasClaim c = false -> in_flight (T := T) c = false.
Proof. unfold in_flight. by intros ->. Qed.

Lemma owed_neutral s : hasRetry s = false -> in_flight (cl s) = false -> count (jr s) = 0%nat ->
  owed s = [].
Proof.
  intros Hr Hi Hc. unfold InputHistory.owed, InputHistory.journal_of. by rewrite Hr, Hi, Hc.
Qed.

Lemma picked_neutral n g at_ s1 :
  inv n g -> hasClaim (cl (sc g)) = false -> mandatoryNeutralPending (ft (sc g)) = true ->
  select_neutral T_zero cfg (sc g) = (s1, true) -> picked g (issue at_ s1).
Proof.
  intros HI Hnc Hp Hsel. destruct (i_neutral _ _ _ HI Hp) as (N1 & N2 & N3 & N4 & _).
  pose proof (in_flight_none _ Hnc) as Hif.
  assert (Ht : tail (sc g) = []) by (unfold tail, InputHistory.journal_of; by rewrite N2, N3).
  pose proof (unresolved_neutral _ Hp N1 Hif Ht) as HU.
  pose proof (owed_neutral _ N1 Hif N2) as HO.
  destruct HI as [Hring Hnum Hs Hb Hacc [Hj _] Hex _ Him _ [Hlast _] _ _ _ [Hprod _] _].
  rewrite HU in Hprod. apply Forall_cons_1 in Hprod as [Hprod _].
  assert (Hs1 : jr s1 = jr (sc g) /\ latest s1 = latest (sc g) /\ hasLatest s1 = false /\
    hasRetry s1 = false /\ last s1 = last (sc g) /\ lastData s1 = lastData (sc g) /\
    ep s1 = ep (sc g) /\ claimSource (cl s1) = ClaimMandatoryNeutral /\
    e_ordinal (claimed (cl s1)) = e_ordinal (mandatoryNeutral (ft (sc g))) /\
    e_producer (claimed (cl s1)) = e_producer (mandatoryNeutral (ft (sc g))) /\
    claimAdmissionValidated (cl s1) = claimAdmissionValidated (cl (sc g)) /\
    mandatoryNeutralPending (ft s1) = true /\
    resynchronizationNeeded (ft s1) = resynchronizationNeeded (ft (sc g)) /\
    mandatoryNeutral (ft s1) = mandatoryNeutral (ft (sc g)) /\
    mandatoryNeutralEncoded (ft s1) = true /\
    (mandatoryNeutralEncoded (ft (sc g)) = true ->
     mandatoryNeutralData (ft s1) = mandatoryNeutralData (ft (sc g))) /\
    claimedData (cl s1) = mandatoryNeutralData (ft s1)).
  { unfold select_neutral in Hsel. destruct (mandatoryNeutralEncoded (ft (sc g))) eqn:Ee.
    - injection Hsel as <-. cbn. split_and!; done.
    - destruct (encode _ _ _ _) as [x [[t data] k]]. case_if_in Hsel; [|discriminate].
      injection Hsel as <-. cbn. split_and!; done. }
  destruct Hs1 as (Q1 & Q2 & Q3 & Q4 & Q5 & Q6 & Q7 & Q8 & Q9 & Q10 & Q11 & Q12 & Q13 & Q14 & Q15 &
    Q16 & Q17).
  assert (HU' : unresolved (issue at_ s1) = unresolved (sc g)).
  { rewrite HU, unresolved_neutral; cbn; try done; [by rewrite Q14| |].
    - unfold in_flight. cbn. by rewrite Q8.
    - unfold tail. cbn. unfold InputHistory.journal_of. by rewrite Q1, Q3, N2. }
  assert (Ht' : tail (issue at_ s1) = [])
    by (unfold tail, InputHistory.journal_of; cbn; by rewrite Q1, Q3, N2).
  constructor; rewrite ?HU', ?Ht', ?Ht; cbn;
    rewrite ?Q1, ?Q3, ?Q4, ?Q5, ?Q6, ?Q7, ?Q8, ?Q9, ?Q10, ?Q11, ?Q12, ?Q13, ?Q14, ?Q15, ?Q17, ?HO;
    try done.
  - rewrite HU. by constructor.
  - intros o Ho. by apply elem_of_nil in Ho.
  - rewrite Hp. split_and!; try done. intros. by split; [|apply Q16].
  - right. exists []. rewrite HU. split; [done|]. apply sublist_nil_l.
  - eapply Forall_impl; [|exact Him]. simpl. intros ob (_ & _ & Hi & _) Eo.
    destruct (Hi Hp Eo) as [Ee ->]. by rewrite Q16.
Qed.

(** The journal or the latest slot gives up [e]: an encoded image of it becomes
    the claim. *)
Lemma picked_fresh n g s2 src e e' data at_ :
  inv n g -> hasClaim (cl (sc g)) = false -> mandatoryNeutralPending (ft (sc g)) = false ->
  src = ClaimJournal \/ src = ClaimLatest -> hasRetry (sc g) = false ->
  unresolved (sc g) = e :: tail s2 -> ring_ok (jr s2) ->
  Forall (fun x => e_ordered x = true) (journal_of (jr s2)) ->
  (hasLatest s2 = true -> e_ordered (latest s2) = false) ->
  ords (tail s2) `sublist_of` ords (tail (sc g)) ->
  (forall o, o ∈ ords (owed (sc g)) -> (o = e_ordinal e /\ e_ordered e = true) \/
     o ∈ ords (journal_of (jr s2))) ->
  (src = ClaimLatest -> e_ordered e = false) -> (src = ClaimJournal -> e_ordered e = true) ->
  last s2 = last (sc g) -> lastData s2 = lastData (sc g) -> ep s2 = ep (sc g) ->
  hasRetry s2 = false -> ft s2 = ft (sc g) -> cl s2 = cl (sc g) ->
  e_ordinal e' = e_ordinal e -> e_producer e' = e_producer e -> e_ordered e' = e_ordered e ->
  Forall (fun ob => ob.1 < e_ordinal e) (exposed g) ->
  picked g (issue at_ (set_selection src e' data s2)).
Proof.
  intros HI Hnc Hp Hsrc Hr HU Hring Hj Hjl Ht HO Hlat Hjou L1 L2 L3 L4 L5 L6 E1 E2 E3 Hx.
  set (s' := issue at_ (set_selection src e' data s2)).
  assert (Hif : in_flight (cl s') = true).
  { unfold in_flight, s'. cbn. by destruct Hsrc as [-> | ->]. }
  assert (Hres : resynchronizationNeeded (ft (sc g)) = false).
  { destruct (resynchronizationNeeded (ft (sc g))) eqn:Er; [|done].
    destruct (i_resync _ _ _ HI Er) as (_ & Hc & Hl & _).
    rewrite (unresolved_tail _ Hp Hr (in_flight_none _ Hnc)) in HU.
    unfold tail, InputHistory.journal_of in HU. rewrite Hc, Hl in HU. discriminate. }
  assert (HT : tail s' = tail s2) by done.
  assert (HU' : unresolved s' = e' :: tail s2).
  { rewrite (unresolved_claimed s'); [done| | |done]; unfold s'; cbn; congruence. }
  destruct HI as [_ _ _ _ _ _ _ _ _ _ _ _ _ _ [Hprod _] _]. rewrite HU in Hprod.
  apply Forall_cons_1 in Hprod as [Hp1 Hp2].
  constructor; rewrite ?HU', ?HU, ?HT; cbn; rewrite ?L1, ?L2, ?L3, ?L4, ?L5, ?L6, ?E1, ?E2, ?E3; try done.
  - constructor; [congruence|done].
  - intros o Ho. unfold InputHistory.owed. rewrite Hif. cbn. rewrite L4. cbn. rewrite ords_app.
    destruct (HO o Ho) as [[-> He]|Ho']; [|by apply elem_of_app; right].
    rewrite E3, He. cbn. rewrite E1. by left.
  - destruct Hsrc as [-> | ->]; rewrite Hp, Hres; naive_solver.
  - right. exists (ords (tail s2)). split; [done|done].
  - split; [done|]. by destruct Hsrc as [-> | ->].
  - eapply Forall_impl; [|exact Hx]. simpl. lia.
Qed.

Lemma no_resync n g :
  inv n g -> unresolved (sc g) <> [] -> hasClaim (cl (sc g)) = false ->
  mandatoryNeutralPending (ft (sc g)) = false ->
  resynchronizationNeeded (ft (sc g)) = false.
Proof.
  intros HI Hne Hnc Hp. destruct (resynchronizationNeeded (ft (sc g))) eqn:Er; [|done].
  destruct (i_resync _ _ _ HI Er) as (Hr & Hc & Hl & _). destruct Hne.
  rewrite (unresolved_tail _ Hp Hr (in_flight_none _ Hnc)).
  unfold tail, InputHistory.journal_of. by rewrite Hc, Hl.
Qed.

Lemma unresolved_retry s :
  mandatoryNeutralPending (ft s) = false -> hasRetry s = true -> hasClaim (cl s) = false ->
  unresolved s = retry s :: tail s.
Proof.
  intros Hp Hr Hc. unfold InputHistory.unresolved, neutral_of, inflight, tail.
  by rewrite Hp, Hr, (in_flight_none _ Hc).
Qed.

Lemma picked_retry n g at_ :
  inv n g -> hasClaim (cl (sc g)) = false -> mandatoryNeutralPending (ft (sc g)) = false ->
  hasRetry (sc g) = true ->
  picked g (issue at_ (set_retry (zero_entry T_zero) (zeros (reportSize cfg)) false
    (set_selection ClaimRetry (retry (sc g)) (retryData (sc g)) (sc g)))).
Proof.
  intros HI Hnc Hp Hr. pose proof (unresolved_retry _ Hp Hr Hnc) as HU.
  assert (Hres := no_resync _ _ HI ltac:(by rewrite HU) Hnc Hp).
  set (s' := issue at_ _).
  assert (HU' : unresolved s' = retry (sc g) :: tail (sc g)).
  { rewrite (unresolved_claimed s'); done. }
  assert (HT : tail s' = tail (sc g)) by done.
  destruct HI as [Hring _ _ _ _ Hj _ _ Him _ _ _ _ _ [Hprod _] _]. rewrite HU in Hprod.
  constructor; rewrite ?HU', ?HU, ?HT; cbn; rewrite ?Hp, ?Hres; try done.
  - intros o. unfold InputHistory.owed. cbn. rewrite (in_flight_none _ Hnc), Hr. cbn.
    destruct (e_ordered (retry (sc g))); done.
  - apply Forall_cons_1 in Hprod as [Hprod _]. done.
  - right. by exists (ords (tail (sc g))).
  - eapply Forall_impl; [|exact Him]. simpl. naive_solver.
Qed.

Lemma picked_idle n g at_ :
  inv n g -> hasClaim (cl (sc g)) = false -> mandatoryNeutralPending (ft (sc g)) = false ->
  hasRetry (sc g) = false -> count (jr (sc g)) = 0%nat -> hasLatest (sc g) = false ->
  picked g (issue at_ (set_selection ClaimIdle (with_ordered false (last (sc g)))
    (lastData (sc g)) (sc g))).
Proof.
  intros HI Hnc Hp Hr Hc Hl. set (s' := issue at_ _).
  assert (HT : tail s' = []) by (unfold tail, InputHistory.journal_of; cbn; by rewrite Hc, Hl).
  assert (HU : unresolved (sc g) = [])
    by (by rewrite (unresolved_tail _ Hp Hr (in_flight_none _ Hnc))).
  assert (HU' : unresolved s' = []) by (rewrite (unresolved_tail s'); done).
  destruct HI as [Hring _ _ _ _ Hj _ _ Him _ [_ Hlast] _ _ _ [_ Hprod] _].
  constructor; rewrite ?HU', ?HU, ?HT; cbn; rewrite ?Hp, ?Hc, ?Hl; try done.
  - rewrite <- Hc. done.
  - intros o. unfold InputHistory.owed. cbn. rewrite (in_flight_none _ Hnc), Hr. done.
  - split; [by destruct Hj|done].
  - apply sublist_nil_l.
  - rewrite Hprod by done. done.
  - split_and!; try done. by apply Hlast.
  - by left.
  - eapply Forall_impl; [|exact Him]. simpl. intros ob (_ & _ & _ & H). apply H. by apply Hlast.
Qed.

Lemma encode_claimed_ok src e s s1 :
  encode_claimed T_zero cfg src e s = (s1, true) ->
  exists x e' data, s1 = set_selection src e' data (set_env x s) /\
    e_ordinal e' = e_ordinal e /\ e_producer e' = e_producer e /\ e_ordered e' = e_ordered e.
Proof.
  unfold encode_claimed. destruct (encode _ _ _ _) as [x [[t data] k]].
  case_if; [|discriminate]. intros [= <-]. by exists x, (set_state t e), data.
Qed.

Lemma select_picked n g at_ s1 :
  inv n g -> hasClaim (cl (sc g)) = false -> select T_zero cfg (sc g) = (s1, true) ->
  picked g (issue at_ s1).
Proof.
  intros HI Hnc. unfold select.
  destruct (mandatoryNeutralPending (ft (sc g))) eqn:Hp; [by eapply picked_neutral|].
  destruct (hasRetry (sc g)) eqn:Hr; [intros [= <-]; by eapply picked_retry|].
  pose proof (unresolved_tail _ Hp Hr (in_flight_none _ Hnc)) as HU.
  pose proof (i_ring _ _ _ HI) as Hring. pose proof (i_journal _ _ _ HI) as Hj.
  assert (HO : forall o, o ∈ ords (owed (sc g)) -> o ∈ ords (journal_of (jr (sc g)))).
  { intros o. unfold InputHistory.owed. by rewrite (in_flight_none _ Hnc), Hr. }
  assert (Hlt : Forall (fun ob => Forall (fun o => ob.1 < o) (ords (tail (sc g)))) (exposed g)).
  { eapply Forall_impl; [|exact (i_exposed _ _ _ HI)]. simpl. tauto. }
  case_if.
  - pose proof (pop_journal (sc g) Hring Hb) as HP.
    destruct (popJournal T_zero (sc g)) as [e s2]. destruct HP as (HJ & Hr2 & _ & Es2).
    intros (x & e' & data & -> & E1 & E2 & E3)%encode_claimed_ok.
    destruct Hj as [Hj Hjl]. rewrite HJ in Hj, HO. apply Forall_cons_1 in Hj as [He Hj].
    remember (jr s2) as j eqn:Ej. clear Ej. subst s2.
    assert (HT : tail (sc g) = e :: tail (set_jr j (sc g))) by (unfold tail; by rewrite HJ).
    rewrite HT in Hlt. rewrite HT in HU.
    apply (picked_fresh n g (set_env x (set_jr j (sc g))) ClaimJournal e); try done; [auto| | |].
    + rewrite HT. by constructor.
    + intros o Ho. destruct (proj1 (elem_of_cons _ _ _) (HO o Ho)) as [-> | ?]; [by left|].
      by right.
    + eapply Forall_impl; [|exact Hlt]. simpl. by intros ob [? _]%Forall_cons_1.
  - assert (Hc0 : count (jr (sc g)) = 0%nat) by lia.
    assert (HJ : journal_of (jr (sc g)) = [])
      by (unfold InputHistory.journal_of; by rewrite Hc0).
    destruct (hasLatest (sc g)) eqn:Hl; [|intros [= <-]; by eapply picked_idle].
    intros (x & e' & data & -> & E1 & E2 & E3)%encode_claimed_ok.
    assert (HT : tail (sc g) = [latest (sc g)]) by (unfold tail; by rewrite HJ, Hl).
    rewrite HT in Hlt. rewrite HT in HU. rewrite HJ in HO.
    apply (picked_fresh n g (set_env x (set_latest (zero_entry T_zero) false (sc g))) ClaimLatest
      (latest (sc g))); try done; [auto| | | | | |].
    + rewrite HU. unfold tail. cbn. by rewrite HJ.
    + cbn. by rewrite HJ.
    + unfold tail. cbn. rewrite HJ. apply sublist_nil_l.
    + intros o Ho. apply HO in Ho. by apply elem_of_nil in Ho.
    + intros _. by apply Hj.
    + eapply Forall_impl; [|exact Hlt]. simpl. by intros ob [? _]%Forall_cons_1.
Qed.

(** A failed encoding puts the entry back; only its state may have changed. *)
Lemma inv_reshape n g s' :
  inv n g -> hasClaim (cl (sc g)) = false -> hasClaim (cl s') = false ->
  claimAdmissionValidated (cl s') = false -> ring_ok (jr s') -> count (jr s') = count (jr (sc g)) ->
  ords (journal_of (jr s')) = ords (journal_of (jr (sc g))) ->
  Forall (fun e => e_ordered e = true) (journal_of (jr s')) ->
  Forall (fun e => e_producer e = producer (ep (sc g))) (unresolved s') ->
  hasLatest s' = hasLatest (sc g) ->
  (hasLatest s' = true -> e_ordinal (latest s') = e_ordinal (latest (sc g)) /\
     e_ordered (latest s') = false) ->
  retry s' = retry (sc g) -> hasRetry s' = hasRetry (sc g) -> retryData s' = retryData (sc g) ->
  mandatoryNeutralPending (ft s') = mandatoryNeutralPending (ft (sc g)) ->
  resynchronizationNeeded (ft s') = resynchronizationNeeded (ft (sc g)) ->
  mandatoryNeutral (ft s') = mandatoryNeutral (ft (sc g)) ->
  mandatoryNeutralEncoded (ft s') = mandatoryNeutralEncoded (ft (sc g)) ->
  (mandatoryNeutralEncoded (ft s') = true ->
     mandatoryNeutralData (ft s') = mandatoryNeutralData (ft (sc g))) ->
  last s' = last (sc g) -> lastData s' = lastData (sc g) -> ep s' = ep (sc g) ->
  inv n (with_sc s' g).
Proof.
  intros HI Hc Hc' Hv Hring Hcnt Hjo Hj Hpr Hl1 Hl2 R1 R2 R3 F1 F2 F3 F4 F5 L1 L2 Ep.
  assert (HU : ords (unresolved s') = ords (unresolved (sc g))).
  { unfold InputHistory.unresolved, neutral_of, inflight.
    rewrite !ords_app, (in_flight_none _ Hc), (in_flight_none _ Hc'), F1, F3, R1, R2, Hjo, Hl1.
    do 4 f_equal. destruct (hasLatest (sc g)); [|done]. cbn. by destruct Hl2 as [-> _]. }
  assert (HO : ords (owed s') = ords (owed (sc g))).
  { unfold InputHistory.owed. by rewrite !ords_app, (in_flight_none _ Hc), (in_flight_none _ Hc'),
      R1, R2, Hjo. }
  assert (HT : ords (tail s') = ords (tail (sc g))).
  { unfold tail. rewrite !ords_app, Hjo, Hl1. f_equal. destruct (hasLatest (sc g)); [|done].
    cbn. by destruct Hl2 as [-> _]. }
  destruct HI as [_ Hnum Hs Hb Hacc _ Hex Hmo Him Hfun [Hlast Hidle] Hneu Hres _ [_ Hlp] Htok Horg].
  unfold with_sc, owes. rewrite Ep, Z.eqb_refl.
  constructor; cbn [sc accepted committed exposed admitted resolved deferred];
    rewrite ?HU, ?HO, ?Hc', ?Hv, ?Hcnt, ?Hl1, ?R1, ?R2, ?R3, ?F1, ?F2, ?F3, ?F4, ?L1, ?L2, ?Ep; try done.
  - rewrite <- Hcnt. exact Hring.
  - split; [done|]. rewrite <- Hl1. intros. by apply Hl2.
  - eapply Forall_impl; [|exact Hex]. simpl. intros ob (? & ? & Ht & Hi). split_and!; try done.
    + rewrite <- Hl1. change (Forall (fun o => ob.1 < o) (ords (tail s'))). by rewrite HT.
    + intros Hu. apply Hi. by eapply unresolved_nil.
  - eapply Forall_impl; [|exact Him]. simpl. intros ob (_ & ? & Hi & ?). split_and!; try done.
    intros Hp Eo. destruct (Hi Hp Eo) as [He ->]. split; [done|]. symmetry. apply F5. congruence.
  - split; [done|]. intros Hu. apply Hidle. by eapply unresolved_nil.
  - intros Hp. destruct (Hneu Hp) as (? & ? & ? & ? & _). done.
  - intros Hp. destruct (Hres Hp) as (? & ? & ? & ? & _). done.
  - destruct Htok as (? & ? & ? & ? & ? & ?). split_and!; done.
  - destruct Horg as (_ & _ & Ho3). by split_and!.
Qed.

Lemma encode_claimed_fail src e s s1 :
  encode_claimed T_zero cfg src e s = (s1, false) ->
  exists x e' data, s1 = restoreFailedSelection T_zero cfg (set_selection src e' data (set_env x s)) /\
    e_ordinal e' = e_ordinal e /\ e_producer e' = e_producer e /\ e_ordered e' = e_ordered e.
Proof.
  unfold encode_claimed. destruct (encode _ _ _ _) as [x [[t data] k]].
  case_if; [discriminate|]. intros [= <-]. by exists x, (set_state t e), data.
Qed.

Lemma unpop_journal j e :
  ring_ok j -> (count j < FixedReportTransitionCapacity)%nat ->
  let h := ((head j + length (journal j) - 1) mod length (journal j))%nat in
  let j' := {| journal := <[h := e]> (journal j); head := h; count := S (count j);
               highWater := highWater j |} in
  journal_of j' = e :: journal_of j /\ ring_ok j'.
Proof.
  intros (Hl & Hh & Hc) Hlt. cbn. split.
  - unfold InputHistory.journal_of. cbn. apply ring_view_unpop; lia.
  - unfold ring_ok. cbn. rewrite length_insert. split_and!; [done| |lia].
    rewrite <- Hl. apply Nat.mod_upper_bound. unfold FixedReportTransitionCapacity in *. lia.
Qed.

Lemma inv_select_fail n g s1 :
  inv n g -> hasClaim (cl (sc g)) = false -> select T_zero cfg (sc g) = (s1, false) ->
  inv n (with_sc s1 g).
Proof.
  intros HI Hnc. unfold select.
  assert (Hv : claimAdmissionValidated (cl (sc g)) = false)
    by (destruct (i_tokens _ _ _ HI) as (_ & _ & _ & _ & _ & H); by apply H).
  pose proof (i_ring _ _ _ HI) as Hring. destruct (i_journal _ _ _ HI) as [Hj Hjl].
  destruct (i_producer _ _ _ HI) as [Hpr _].
  destruct (mandatoryNeutralPending (ft (sc g))) eqn:Hp.
  - unfold select_neutral. destruct (mandatoryNeutralEncoded (ft (sc g))) eqn:Ee; [discriminate|].
    destruct (encode _ _ _ _) as [x [[t data] k]]. case_if; [discriminate|]. intros [= <-].
    apply inv_reshape; cbn; try done.
    + unfold InputHistory.unresolved, inflight in *. cbn.
      rewrite (in_flight_none _ Hnc) in Hpr. unfold in_flight. cbn. by rewrite Hnc.
    + intros. split; [done|by apply Hjl].
  - destruct (hasRetry (sc g)) eqn:Hr; [discriminate|].
    rewrite (unresolved_tail _ Hp Hr (in_flight_none _ Hnc)) in Hpr.
    case_if.
    + pose proof (pop_journal (sc g) Hring Hb) as HP.
      destruct (popJournal T_zero (sc g)) as [e s2]. destruct HP as (HJ & Hr2 & Hlt & Es2).
      remember (jr s2) as j eqn:Ej. clear Ej. subst s2.
      intros (x & e' & data & -> & E1 & E2 & E3)%encode_claimed_fail.
      destruct (unpop_journal j e' Hr2 Hlt) as [HU HR].
      rewrite HJ in Hj. apply Forall_cons_1 in Hj as [He Hj].
      unfold tail in Hpr. rewrite HJ in Hpr. apply Forall_cons_1 in Hpr as [Hpe Hpr].
      assert (Hlen : count (jr (sc g)) = S (count j)).
      { pose proof (f_equal length HJ) as H1. cbn [length] in H1.
        unfold InputHistory.journal_of in H1. by rewrite !length_ring_view in H1. }
      apply inv_reshape; cbn; rewrite ?HU; cbn; try done.
      * by rewrite HJ; cbn; rewrite E1.
      * by constructor; [congruence|].
      * rewrite (unresolved_tail _); [|done|done|by unfold in_flight; cbn; rewrite Hnc].
        unfold tail. cbn. rewrite HU. constructor; [congruence|done].
      * intros. split; [done|by apply Hjl].
    + destruct (hasLatest (sc g)) eqn:Hl; [|discriminate].
      intros (x & e' & data & -> & E1 & E2 & E3)%encode_claimed_fail.
      apply inv_reshape; cbn; try done.
      * unfold tail in Hpr. rewrite Hl in Hpr. apply Forall_app in Hpr as [Hpr1 Hpr2].
        rewrite (unresolved_tail _); [|done|done|by unfold in_flight; cbn; rewrite Hnc].
        unfold tail. cbn. apply Forall_app. split; [done|].
        apply Forall_cons_1 in Hpr2 as [? _]. constructor; [congruence|done].
      * intros. split; [done|]. rewrite E3. by apply Hjl.
Qed.

(** ** Operations on claims *)

Lemma with_sc_with_sc s1 s2 g :
  producer (ep s1) = producer (ep s2) -> with_sc s2 (with_sc s1 g) = with_sc s2 g.
Proof. intros Ep. unfold with_sc, owes. cbn. by rewrite Ep, Z.eqb_refl. Qed.

Lemma exposes_with_sc s1 s2 g :
  producer (ep s1) = producer (ep s2) -> exposes s2 (with_sc s1 g) = exposes s2 g.
Proof. intros Ep. unfold exposes, with_sc, owes. cbn. by rewrite Ep, Z.eqb_refl. Qed.

Lemma inv_mono n n' g : inv n g -> n <= n' -> inv n' g.
Proof. intros [] Hn. constructor; try done. lia. Qed.

Definition with_tokens (adm res : list Z) g : trace :=
  {| sc := sc g; accepted := accepted g; committed := committed g; exposed := exposed g;
     admitted := admitted g ++ adm; resolved := resolved g ++ res; deferred := deferred g |}.

Definition with_deferred (d : list Z) g : trace :=
  {| sc := sc g; accepted := accepted g; committed := committed g; exposed := exposed g;
     admitted := admitted g; resolved := resolved g; deferred := deferred g ++ d |}.

Lemma inv_deferred n g d : inv n g -> inv n (with_deferred d g).
Proof.
  intros []. constructor; try done. cbn. destruct i_origin as (O1 & O2 & O3).
  split_and!; [done| |]; intros; setoid_rewrite elem_of_app; naive_solver.
Qed.

Lemma claimMatches_spec claim s :
  claimMatches cfg claim s = true ->
  hasClaim (cl s) = true /\ Token claim = claimToken (cl s) /\ Token claim <> 0.
Proof. unfold claimMatches. intros. bool_prop. done. Qed.

Lemma inv_resolved n g tok :
  inv n g -> hasClaim (cl (sc g)) = false -> tok <= nextToken (ep (sc g)) -> tok ∉ resolved g ->
  inv n (with_tokens [] [tok] g).
Proof.
  intros [] Hc Ht Hn. constructor; try done. cbn. rewrite app_nil_r.
  destruct i_tokens as (T1 & T2 & T3 & _ & _ & T6). rewrite Hc. split_and!; try done; [| |intros _; by apply T6].
  - apply list.NoDup_app. split_and!; [done| |apply NoDup_singleton]. set_solver.
  - rewrite !Forall_app in *. split_and!; [tauto|by repeat constructor|tauto].
Qed.

Lemma inv_admit n g claim at_ now :
  inv n g -> n < 18446744073709551614 ->
  inv (n + 1) (step T_zero cfg g (OAdmit claim at_ now)).
Proof.
  intros HI Hn. cbn. unfold CanAdmitInputPresentation.
  case_if; [apply (inv_same _ n); [done|lia|repeat split]|].
  case_if; [apply (inv_same _ n); [done|lia|repeat split]|].
  case_if.
  { destruct (fault_restarted T_zero cfg FaultOrderedAge (or_now at_ now) now (sc g)) as [e He].
    by eapply inv_restart. }
  bool_prop. destruct (claimMatches_spec _ _ H) as (Hc & Et & _).
  apply (inv_mono n); [|lia]. cbn. unfold owes. cbn. rewrite Z.eqb_refl.
  destruct HI. constructor; cbn; try done.
  destruct i_tokens as (T1 & T2 & T3 & T4 & T5 & T6). destruct (i_claim Hc) as (_ & Ht & _).
  rewrite Et, Ht. split_and!; try done; [| |by rewrite Hc].
  - apply list.NoDup_app. split_and!; [done| |apply NoDup_singleton].
    intros x Hx ->%list_elem_of_singleton. rewrite (T5 Hc Hx) in H0. discriminate.
  - rewrite !Forall_app in *. split_and!; [tauto|tauto|]. repeat constructor. lia.
Qed.

Lemma select_fail_epochs s s' : select T_zero cfg s = (s', false) -> ep s' = ep s.
Proof.
  unfold select, select_neutral. repeat case_if; try discriminate.
  - destruct (encode _ _ _ _) as [x [[t data] k]]. case_if; [discriminate|]. by intros [= <-].
  - cbn. intros (x & e' & data & -> & _)%encode_claimed_fail. done.
  - intros (x & e' & data & -> & _)%encode_claimed_fail. done.
Qed.

Lemma inv_claim n g destination at_ now :
  inv n g -> n < 18446744073709551613 -> (0 < reportSize cfg)%nat ->
  inv (n + 2) (step T_zero cfg g (OClaim destination at_ now)).
Proof.
  intros HI Hn Hsz. cbn. unfold ClaimInputPresentation.
  case_if; [apply (inv_same _ n); [done|lia|repeat split]|].
  case_if; [apply (inv_same _ n); [done|lia|repeat split]|].
  destruct (pendingPresentationFaultRequired T_zero cfg (or_now at_ now) (sc g)) as [s0 stale] eqn:E0.
  assert (HS : same_history (sc g) s0).
  { unfold pendingPresentationFaultRequired in E0. repeat case_if_in E0;
      injection E0 as <- <-; repeat split. }
  set (s1 := if stale then _ else s0).
  assert (H1 : inv (n + 1) (with_sc s1 g) /\ hasClaim (cl s1) = false).
  { unfold s1. destruct stale.
    - destruct (fault_restarted T_zero cfg FaultOrderedAge (or_now at_ now) now s0) as [e He].
      split; [|by destruct He]. eapply inv_restart; [done|lia|]. by eapply restarted_same.
    - split; [apply (inv_same _ n); [done|lia|done]|].
      destruct HS as (_ & _ & _ & _ & _ & _ & -> & _). done. }
  destruct H1 as [H1 Hc1]. clearbody s1.
  destruct (select T_zero cfg s1) as [s2 ok] eqn:Es. destruct ok; cbn.
  - pose proof (select_picked (n + 1) (with_sc s1 g) (or_now at_ now) s2 H1 Hc1 Es) as HP.
    assert (Ep : producer (ep s1) = producer (ep (issue (or_now at_ now) s2)))
      by (by destruct (p_epochs _ _ HP) as (_ & _ & _ & ->)).
    pose proof (inv_picked _ _ _ H1 ltac:(lia) Hc1 HP) as H2. rewrite exposes_with_sc in H2 by done.
    assert (HV : Claim_Valid {| Token := advanceNonzero (nextToken (ep s2));
      Generation := generation (ep s2); Size := Z.of_nat (reportSize cfg);
      ReceivedAt := e_receivedAt (claimed (cl s2)); SelectedAt := or_now at_ now;
      Ordered := e_ordered (claimed (cl s2)) |} = true).
    { unfold Claim_Valid. cbn. destruct (p_epochs _ _ HP) as (_ & _ & Eg & _). cbn in Eg.
      destruct (i_numbers _ _ _ H1) as (_ & _ & Hg & _). cbn in Hg.
      pose proof (advanceNonzero_nonzero (nextToken (ep s2))).
      rewrite !(proj2 (Z.eqb_neq _ _)) by congruence. cbn. apply Z.ltb_lt. lia. }
    rewrite HV. replace (n + 2) with (n + 1 + 1) by lia. exact H2.
  - pose proof (inv_select_fail (n + 1) (with_sc s1 g) s2 H1 Hc1 Es) as H2.
    assert (Ep : producer (ep s1) = producer (ep s2)).
    { by rewrite (select_fail_epochs _ _ Es). }
    rewrite with_sc_with_sc in H2 by done. by eapply inv_mono; [exact H2|lia].
Qed.

(** What a live claim is, by its source. *)
Lemma live_claim n g :
  inv n g -> hasClaim (cl (sc g)) = true ->
  (claimSource (cl (sc g)) = ClaimIdle /\ in_flight (cl (sc g)) = false /\
   mandatoryNeutralPending (ft (sc g)) = false) \/
  (claimSource (cl (sc g)) = ClaimMandatoryNeutral /\ in_flight (cl (sc g)) = false /\
   mandatoryNeutralPending (ft (sc g)) = true) \/
  (in_flight (cl (sc g)) = true /\ mandatoryNeutralPending (ft (sc g)) = false /\
   resynchronizationNeeded (ft (sc g)) = false /\ claimSource (cl (sc g)) <> ClaimIdle /\
   claimSource (cl (sc g)) <> ClaimMandatoryNeutral /\
   unresolved (sc g) = claimed (cl (sc g)) :: tail (sc g)).
Proof.
  intros HI Hc. destruct (i_claim _ _ _ HI Hc) as (Hr & _ & _ & _ & _ & Hsrc).
  assert (Hpn : mandatoryNeutralPending (ft (sc g)) = true ->
    claimSource (cl (sc g)) = ClaimMandatoryNeutral).
  { intros Hp. destruct (i_neutral _ _ _ HI Hp) as (_ & _ & _ & _ & H). by apply H. }
  assert (Hrs : resynchronizationNeeded (ft (sc g)) = true -> claimSource (cl (sc g)) = ClaimIdle).
  { intros Hp. destruct (i_resync _ _ _ HI Hp) as (_ & _ & _ & _ & H). by apply H. }
  assert (Hif : in_flight (cl (sc g)) = bool_decide (claimSource (cl (sc g)) <> ClaimIdle) &&
    bool_decide (claimSource (cl (sc g)) <> ClaimMandatoryNeutral)) by (unfold in_flight; by rewrite Hc).
  destruct (claimSource (cl (sc g))) eqn:Es; try done; cbn in Hif.
  4: { left. destruct (mandatoryNeutralPending (ft (sc g))); [|done]. by specialize (Hpn eq_refl). }
  4: { right; left. done. }
  all: right; right; destruct (mandatoryNeutralPending (ft (sc g))) eqn:Hp;
    [by specialize (Hpn eq_refl)|].
  all: destruct (resynchronizationNeeded (ft (sc g))); [by specialize (Hrs eq_refl)|].
  all: split_and!; try done; by apply unresolved_claimed.
Qed.

Definition commits x s' g : trace :=
  {| sc := s'; accepted := owes (sc g) s' (accepted g); committed := committed g ++ x;
     exposed := exposed g; admitted := admitted g; resolved := resolved g; deferred := deferred g |}.

Lemma inv_commit_idle n g :
  inv n g -> hasClaim (cl (sc g)) = true -> claimSource (cl (sc g)) = ClaimIdle ->
  in_flight (cl (sc g)) = false -> mandatoryNeutralPending (ft (sc g)) = false ->
  inv n (commits [] (clearClaim T_zero cfg (commit cfg (sc g))) g).
Proof.
  intros HI Hc Hs Hif Hp. destruct HI.
  destruct (i_claim Hc) as (Hr & Ht & Ht1 & Hg & Hpr & Hsrc). rewrite Hs in Hsrc.
  destruct Hsrc as (Eo & Ed & Eord & Erec & Hcom).
  unfold commits, commit, owes. rewrite Hs, bool_decide_false by done. cbn.
  rewrite Z.eqb_refl, app_nil_r.
  assert (HU : unresolved (clearClaim T_zero cfg (set_last (with_ordered false (claimed (cl (sc g))))
     (claimedData (cl (sc g))) (sc g))) = unresolved (sc g)).
  { unfold InputHistory.unresolved, inflight. cbn. by rewrite Hif. }
  assert (HO : owed (clearClaim T_zero cfg (set_last (with_ordered false (claimed (cl (sc g))))
     (claimedData (cl (sc g))) (sc g))) = owed (sc g)).
  { unfold InputHistory.owed. cbn. by rewrite Hif. }
  constructor; cbn [sc accepted committed exposed admitted resolved deferred]; rewrite ?HU, ?HO; cbn;
    rewrite ?Eo, ?Ed; try done.
  - eapply Forall_impl; [|exact i_image]. simpl. naive_solver.
  - intros H. rewrite H in Hp. discriminate.
  - intros H. by destruct (i_resync H) as (? & ? & ? & ? & _).
  - split; [by destruct i_producer|done].
  - destruct i_tokens as (? & ? & ? & _ & _ & _). split_and!; done.
  - destruct i_origin as (_ & _ & O3). split_and!; done.
Qed.

(** A committed claim other than an idle repetition. *)
Lemma inv_commit_claim n g s' :
  inv n g -> hasClaim (cl (sc g)) = true -> claimSource (cl (sc g)) <> ClaimIdle ->
  s' = clearClaim T_zero cfg (commit cfg (sc g)) ->
  ords (unresolved (sc g)) = e_ordinal (claimed (cl (sc g))) :: ords (unresolved s') ->
  Forall (fun e => e_producer e = producer (ep (sc g))) (unresolved s') ->
  mandatoryNeutralPending (ft s') = false ->
  (resynchronizationNeeded (ft s') = true ->
     hasRetry (sc g) = false /\ count (jr (sc g)) = 0%nat /\ hasLatest (sc g) = false /\
     e_ordinal (claimed (cl (sc g))) = e_ordinal (mandatoryNeutral (ft s'))) ->
  inv n (commits [e_ordinal (claimed (cl (sc g)))] s' g).
Proof.
  intros HI Hc Hni Es HU HP Hpend Hres. destruct HI.
  destruct (i_claim Hc) as (Hr & Ht & Ht1 & Hg & Hpr & _).
  assert (F : jr s' = jr (sc g) /\ latest s' = latest (sc g) /\ hasLatest s' = hasLatest (sc g) /\
    hasRetry s' = hasRetry (sc g) /\ hasClaim (cl s') = false /\
    claimAdmissionValidated (cl s') = false /\ in_flight (cl s') = false /\
    e_ordinal (last s') = e_ordinal (claimed (cl (sc g))) /\
    e_producer (last s') = e_producer (claimed (cl (sc g))) /\
    lastData s' = claimedData (cl (sc g)) /\ ep s' = ep (sc g)).
  { rewrite Es. unfold commit. case_bool_decide; cbn; split_and!; done. }
  clear Es. destruct F as (F1 & F2 & F3 & F4 & F5 & F6 & F7 & F8 & F9 & F10 & F11).
  rewrite HU in *. pose proof (proj1 (ssorted_app _ _ _) i_sorted) as (_ & Hs & _).
  apply StronglySorted_inv in Hs as [_ Hrest].
  unfold commits, owes. rewrite F11, Z.eqb_refl.
  assert (Hx : forall ob, ob ∈ exposed g -> ob.1 <= e_ordinal (claimed (cl (sc g))) /\
    (ob.1 = e_ordinal (claimed (cl (sc g))) -> ob.2 = claimedData (cl (sc g)))).
  { intros ob Hob. destruct (Forall_elem _ _ _ i_exposed Hob) as (_ & H & _).
    apply Forall_cons_1 in H as [H _]. split; [done|].
    destruct (Forall_elem _ _ _ i_image Hob) as (H' & _). by apply H'. }
  constructor; cbn [sc accepted committed exposed admitted resolved deferred];
    rewrite ?F1, ?F2, ?F3, ?F4, ?F5, ?F6, ?F8, ?F9, ?F10, ?F11, ?Hpr, <- ?app_assoc; try done.
  - eapply Forall_impl; [|exact i_accepted]. simpl. intros o [Ho|Ho]; [left; set_solver|].
    unfold InputHistory.owed in *. rewrite F7, F1, F4, Hr in *. cbn.
    cbn in Ho. rewrite ords_app in Ho. apply elem_of_app in Ho as [Ho|Ho]; [|by right].
    left. destruct (in_flight _ && _); set_solver.
  - apply list.Forall_forall. intros ob Hob. destruct (Hx ob Hob) as [H1 _].
    destruct (Forall_elem _ _ _ i_exposed Hob) as (H2 & H3 & H4 & _).
    apply Forall_cons_1 in H3 as [_ H3]. split_and!; done.
  - apply list.Forall_forall. intros ob Hob. destruct (Hx ob Hob) as [H1 H2]. split_and!; try done.
    + intros H. congruence.
    + intros H. congruence.
  - apply Forall_app in i_bound as [_ Hb]. apply Forall_cons_1 in Hb as [Hb _].
    split; [done|]. intros _. set_solver.
  - congruence.
  - intros H. destruct (Hres H) as (? & ? & ? & ?). done.
  - destruct i_tokens as (? & ? & ? & _ & _ & _). split_and!; done.
  - rewrite Hr. by split_and!.
Qed.

Lemma inv_commit n g :
  inv n g -> hasClaim (cl (sc g)) = true ->
  inv n (commits (if bool_decide (claimSource (cl (sc g)) <> ClaimIdle)
                  then [e_ordinal (claimed (cl (sc g)))] else [])
           (clearClaim T_zero cfg (commit cfg (sc g))) g).
Proof.
  intros HI Hc. destruct (i_claim _ _ _ HI Hc) as (Hr & _).
  destruct (i_producer _ _ _ HI) as [Hprod _].
  destruct (live_claim _ _ HI Hc) as [(Hs & Hif & Hp)|[(Hs & Hif & Hp)|(Hif & Hp & Hrs & Hs1 & Hs2 & HU)]].
  - rewrite bool_decide_false by (by intros []). by apply inv_commit_idle.
  - rewrite bool_decide_true by congruence.
    destruct (i_neutral _ _ _ HI Hp) as (_ & Hc0 & Hl0 & _ & Hcl). destruct (Hcl Hc) as (_ & Eo & _).
    assert (Ht : tail (sc g) = []) by (unfold tail, InputHistory.journal_of; by rewrite Hc0, Hl0).
    assert (HU' : unresolved (clearClaim T_zero cfg (commit cfg (sc g))) = []).
    { unfold commit. rewrite Hs, bool_decide_true by done.
      rewrite unresolved_tail; try done. }
    eapply inv_commit_claim; try done; rewrite ?HU'; try done.
    + congruence.
    + rewrite (unresolved_neutral _ Hp Hr Hif Ht). cbn. by rewrite Eo.
    + unfold commit. by rewrite Hs, bool_decide_true by done.
    + unfold commit. rewrite Hs, bool_decide_true by done. done.
  - rewrite bool_decide_true by done.
    assert (HU' : unresolved (clearClaim T_zero cfg (commit cfg (sc g))) = tail (sc g)).
    { unfold commit. rewrite bool_decide_false by done. by rewrite unresolved_tail. }
    eapply inv_commit_claim; try done; rewrite ?HU'; rewrite ?HU; try done.
    + rewrite HU in Hprod. by apply Forall_cons_1 in Hprod as [_ ?].
    + unfold commit. by rewrite bool_decide_false by done.
    + unfold commit. rewrite bool_decide_false by done. cbn. congruence.
Qed.

(** Giving up a claim: its entry stays as the retry, or nothing owed is lost. *)
Lemma inv_release n g s' :
  inv n g -> hasClaim (cl (sc g)) = true ->
  jr s' = jr (sc g) -> latest s' = latest (sc g) -> hasLatest s' = hasLatest (sc g) ->
  ft s' = ft (sc g) -> last s' = last (sc g) -> lastData s' = lastData (sc g) -> ep s' = ep (sc g) ->
  cl s' = no_claim T_zero (reportSize cfg) ->
  ((ords (unresolved s') = ords (unresolved (sc g)) /\
    (hasRetry s' = true -> mandatoryNeutralPending (ft (sc g)) = false /\
       resynchronizationNeeded (ft (sc g)) = false /\
       e_ordinal (retry s') = e_ordinal (claimed (cl (sc g))) /\
       retryData s' = claimedData (cl (sc g)))) \/
   (hasRetry s' = false /\ unresolved s' <> [] /\
    ords (unresolved (sc g)) = e_ordinal (claimed (cl (sc g))) :: ords (unresolved s'))) ->
  Forall (fun e => e_producer e = producer (ep (sc g))) (unresolved s') ->
  (forall o, o ∈ ords (owed (sc g)) -> o ∈ ords (owed s')) ->
  inv n (with_deferred [e_ordinal (claimed (cl (sc g)))] (with_sc s' g)).
Proof.
  intros HI Hc F1 F2 F3 F4 F5 F6 F7 F8 HR HP HO. destruct HI.
  destruct (i_claim Hc) as (Hr & Ht & Ht1 & Hg & Hpr & _).
  assert (Hsub : ords (unresolved s') `sublist_of` ords (unresolved (sc g))).
  { destruct HR as [(-> & _)|(_ & _ & ->)]; [done|by constructor]. }
  assert (Hnil : unresolved s' = [] -> unresolved (sc g) = []).
  { intros Hu. destruct HR as [(HU & _)|(_ & Hne & _)]; [|done]. by eapply unresolved_nil. }
  assert (Hretry : mandatoryNeutralPending (ft (sc g)) = true \/
    resynchronizationNeeded (ft (sc g)) = true -> hasRetry s' = false).
  { intros Hpr'. destruct HR as [(_ & HR)|(-> & _)]; [|done].
    destruct (hasRetry s'); [|done]. destruct (HR eq_refl) as (? & ? & _). destruct Hpr'; congruence. }
  unfold with_deferred, with_sc, owes. cbn [sc accepted committed exposed admitted resolved deferred].
  rewrite F7, Z.eqb_refl. constructor; cbn [sc accepted committed exposed admitted resolved deferred];
    rewrite ?F1, ?F2, ?F3, ?F4, ?F5, ?F6, ?F7, ?F8; cbn; try done.
  - eapply ssorted_sublist; [|exact i_sorted]. by apply sublist_app.
  - eapply Forall_sublist_Z; [|exact i_bound]. by apply sublist_app.
  - eapply Forall_impl; [|exact i_accepted]. simpl. intros o [|]; [by left|right; auto].
  - eapply Forall_impl; [|exact i_exposed]. simpl. intros ob (? & ? & ? & ?). split_and!; auto.
    by eapply Forall_sublist_Z.
  - eapply Forall_impl; [|exact i_image]. simpl. intros ob (Hi & _ & ? & ?). split_and!; try done.
    destruct HR as [(_ & HR)|(-> & _)]; [|done]. intros Hr' Eo.
    destruct (HR Hr') as (_ & _ & E1 & E2). rewrite E1 in Eo. rewrite E2. by apply Hi.
  - split; [by destruct i_last|]. intros Hu. apply i_last. auto.
  - intros Hp. destruct (i_neutral Hp) as (_ & ? & ? & ? & _). split_and!; auto; done.
  - intros Hp. destruct (i_resync Hp) as (_ & ? & ? & ? & _). split_and!; auto; done.
  - split; [done|by destruct i_producer].
  - destruct i_tokens as (? & ? & ? & _ & _ & _). split_and!; done.
  - split_and!; try done. intros Hr'. right. destruct HR as [(_ & HR)|(Hr0 & _)]; [|congruence].
    destruct (HR Hr') as (_ & _ & -> & _). set_solver.
Qed.

Lemma owed_claimed s :
  hasRetry s = false -> in_flight (cl s) = true ->
  owed s = (if e_ordered (claimed (cl s)) || claimRequiresOrderedRecovery (cl s)
            then [claimed (cl s)] else []) ++ journal_of (jr s).
Proof. intros Hr Hif. unfold InputHistory.owed. by rewrite Hr, Hif. Qed.

Lemma inv_defer n g :
  inv n g -> hasClaim (cl (sc g)) = true ->
  inv n (with_deferred [e_ordinal (claimed (cl (sc g)))] (with_sc (clearClaim T_zero cfg (defer (sc g))) g)).
Proof.
  intros HI Hc. destruct (i_claim _ _ _ HI Hc) as (Hr & _ & _ & _ & _ & Hsrc).
  destruct (i_producer _ _ _ HI) as [Hprod _].
  assert (Hkeep : in_flight (cl (sc g)) = false ->
    inv n (with_deferred [e_ordinal (claimed (cl (sc g)))] (with_sc (clearClaim T_zero cfg (sc g)) g))).
  { intros Hif.
    assert (HU : unresolved (clearClaim T_zero cfg (sc g)) = unresolved (sc g))
      by (unfold InputHistory.unresolved, inflight; by rewrite Hif).
    apply inv_release; try done; rewrite ?HU; try done.
    - left. split; [done|]. cbn. congruence.
    - intros o. unfold InputHistory.owed. cbn. by rewrite Hif. }
  destruct (live_claim _ _ HI Hc) as [(Hs & Hif & Hp)|[(Hs & Hif & Hp)|(Hif & Hp & Hrs & Hs1 & Hs2 & HU)]].
  - rewrite Hs in Hsrc. destruct Hsrc as (_ & _ & Ho & Hrec & _).
    unfold defer. rewrite Hs, Ho, Hrec. rewrite !bool_decide_false by done. by apply Hkeep.
  - unfold defer. rewrite Hs, bool_decide_true by done. by apply Hkeep.
  - rewrite HU in Hprod. apply Forall_cons_1 in Hprod as [Hpc Hpt].
    pose proof (owed_claimed _ Hr Hif) as HO.
    assert (Hretry : forall e, e_ordinal e = e_ordinal (claimed (cl (sc g))) ->
      e_producer e = e_producer (claimed (cl (sc g))) ->
      (e_ordered (claimed (cl (sc g))) || claimRequiresOrderedRecovery (cl (sc g)) = true ->
       e_ordered e = true) ->
      inv n (with_deferred [e_ordinal (claimed (cl (sc g)))]
        (with_sc (clearClaim T_zero cfg (set_retry e (claimedData (cl (sc g))) true (sc g))) g))).
    { intros e E1 E2 E3.
      assert (HU' : unresolved (clearClaim T_zero cfg
        (set_retry e (claimedData (cl (sc g))) true (sc g))) = e :: tail (sc g))
        by (rewrite unresolved_retry; done).
      apply inv_release; try done; rewrite ?HU', ?HU; cbn; rewrite ?E1; try done.
      - by left.
      - constructor; [congruence|done].
      - intros o. rewrite HO. unfold InputHistory.owed. cbn.
        destruct (e_ordered (claimed (cl (sc g))) || claimRequiresOrderedRecovery (cl (sc g))).
        + rewrite E3 by done. cbn. by rewrite E1.
        + rewrite !ords_app. intros. apply elem_of_app. by right. }
    unfold defer. rewrite bool_decide_false by done.
    destruct (e_ordered (claimed (cl (sc g))) || claimRequiresOrderedRecovery (cl (sc g))) eqn:Eo.
    + by apply Hretry.
    + rewrite bool_decide_true by done. rewrite Hr. cbn [negb andb].
      case_if; [by apply Hretry|].
      assert (HU' : unresolved (clearClaim T_zero cfg (sc g)) = tail (sc g))
        by (rewrite unresolved_tail; done).
      assert (Hne : tail (sc g) <> []).
      { unfold tail. destruct (hasLatest (sc g)); [by destruct (journal_of (jr (sc g)))|].
        rewrite andb_true_r in Hb. apply Nat.eqb_neq in Hb. intros Hn.
        apply (f_equal length) in Hn. cbn in Hn. rewrite app_nil_r in Hn.
        unfold InputHistory.journal_of in Hn. rewrite length_ring_view in Hn. done. }
      apply inv_release; try done; rewrite ?HU', ?HU; try done.
      * right. done.
      * intros o. rewrite HO. unfold InputHistory.owed. cbn. by rewrite Hr.
Qed.

(** ** Every step, every run *)

Definition resolves com tok def s' g : trace :=
  {| sc := s'; accepted := owes (sc g) s' (accepted g); committed := committed g ++ com;
     exposed := exposed g; admitted := admitted g; resolved := resolved g ++ [tok];
     deferred := deferred g ++ def |}.

Lemma inv_resolves n g s0 s' com tok def :
  inv n (with_deferred def (commits com s' (with_sc s0 g))) -> producer (ep s0) = producer (ep (sc g)) ->
  hasClaim (cl s') = false -> tok <= nextToken (ep s') -> tok ∉ resolved g ->
  inv n (resolves com tok def s' g).
Proof.
  intros HI Ep Hc Ht Hn. pose proof (inv_resolved _ _ _ HI Hc Ht Hn) as HR.
  unfold with_tokens, with_deferred, commits, with_sc, resolves, owes in *. cbn in *.
  rewrite Ep, Z.eqb_refl, app_nil_r in HR. exact HR.
Qed.

Lemma commits_nil s' g : commits [] s' g = with_sc s' g.
Proof. unfold commits, with_sc. by rewrite app_nil_r. Qed.

Lemma inv_resolve n g claim outcome at_ now :
  inv n g -> n < 18446744073709551614 ->
  inv (n + 1) (step T_zero cfg g (OResolve claim outcome at_ now)).
Proof.
  intros HI Hn. cbn. unfold ResolveInputPresentation.
  assert (Hsame : inv (n + 1) (with_sc (sc g) g)) by (apply (inv_same _ n); [done|lia|repeat split]).
  assert (Hnone : inv (n + 1) {| sc := sc g; accepted := owes (sc g) (sc g) (accepted g);
    committed := committed g ++ []; exposed := exposed g; admitted := admitted g;
    resolved := resolved g ++ []; deferred := deferred g ++ [] |}) by (by rewrite !app_nil_r).
  case_if; [exact Hnone|]. case_if; [exact Hnone|]. case_if; [exact Hnone|].
  set (minimum := if claimAdmissionValidated (cl (sc g)) && _ then _ else _).
  destruct (if or_now at_ now <? minimum then _ else _) as [s0 done_at] eqn:E0.
  assert (HS : same_history (sc g) s0) by (case_if_in E0; injection E0 as <- <-; repeat split).
  assert (H0 : inv n (with_sc s0 g)) by (apply (inv_same _ n); [done|lia|done]).
  bool_prop. destruct (claimMatches_spec _ _ Hb0) as (Hc & Et & _).
  destruct (i_claim _ _ _ HI Hc) as (_ & Ht & _).
  destruct (i_tokens _ _ _ HI) as (_ & _ & _ & Hnr & _). specialize (Hnr Hc).
  rewrite <- Ht, <- Et in Hnr.
  assert (E7 : cl s0 = cl (sc g)) by apply HS.
  assert (E12 : nextToken (ep s0) = nextToken (ep (sc g))) by apply HS.
  assert (E14 : producer (ep s0) = producer (ep (sc g))) by apply HS.
  assert (Hc0 : hasClaim (cl s0) = true) by congruence.
  assert (Hrestart : forall s' e, restarted s0 s' e ->
    forall def, inv (n + 1) (resolves [] (Token claim) def s' g)).
  { intros s' e He def. eapply (inv_resolves _ _ s0); try done.
    - rewrite commits_nil. apply inv_deferred. eapply (inv_restart _ n (with_sc s0 g)); done.
    - by destruct He.
    - destruct He. lia. }
  case_if.
  { destruct (fault_restarted T_zero cfg FaultOrderedAge done_at now s0) as [e He].
    cbv beta iota zeta.
    pose proof (r_producer _ _ _ _ He) as Hp. rewrite E14 in Hp.
    pose proof (advanceNonzero_ne (producer (ep (sc g)))). rewrite Hp.
    rewrite (proj2 (Z.eqb_neq (advanceNonzero _) _)) by done. rewrite andb_false_r.
    by eapply Hrestart. }
  case_if.
  { subst outcome. cbv beta iota zeta.
    assert (Epc : ep (clearClaim T_zero cfg (commit cfg s0)) = ep s0)
      by (unfold commit; case_bool_decide; done).
    rewrite Epc, E14, Z.eqb_refl. apply (inv_mono n); [|lia].
    eapply (inv_resolves _ _ s0); try done; [|rewrite Epc; lia].
    apply inv_deferred. pose proof (inv_commit n (with_sc s0 g) H0 Hc0) as HI'. cbn in HI'. by rewrite E7 in HI'. }
  case_if.
  { cbv beta iota zeta. apply (inv_mono n); [|lia].
    assert (Epc : ep (clearClaim T_zero cfg (defer s0)) = ep s0)
      by (unfold defer; repeat case_if; done).
    eapply (inv_resolves _ _ s0); try done; [|rewrite Epc; lia].
    rewrite commits_nil, <- E7. by apply (inv_defer n (with_sc s0 g)). }
  destruct (retire_restarted T_zero cfg (if hasPrevious s0 then previous s0 else neutral cfg)
    done_at now s0) as [e He].
  cbv beta iota zeta. by eapply Hrestart.
Qed.

Lemma inv_operation n g o :
  inv n g -> n < 18446744073709551613 -> (0 < reportSize cfg)%nat ->
  inv (n + 2) (step T_zero cfg g o).
Proof.
  intros HI Hn Hsz. destruct o.
  5: by apply inv_claim.
  all: apply (inv_mono (n + 1)); [|lia].
  - unfold step. destruct (PublishWithLease _ _ _ _ _ _ _) as [s d] eqn:Ep.
    eapply inv_publish; [done|lia|exact Ep].
  - unfold step. destruct (PublishWithLease _ _ _ _ _ _ _) as [s d] eqn:Ep.
    eapply inv_publish; [done|lia|exact Ep].
  - apply inv_retire_lease; [done|lia].
  - apply inv_resynchronize; [done|lia].
  - apply inv_admit; [done|lia].
  - apply inv_resolve; [done|lia].
  - cbn. unfold RetireInputPresentationGenerationWithCurrentState.
    case_if; [apply (inv_same _ n); [done|lia|repeat split]|].
    set (s0 := if retires_early _ _ then _ else _).
    assert (HS : same_history (sc g) s0) by (unfold s0; case_if; repeat split).
    exact (inv_retire T_zero cfg n g s0 (if hasPrevious s0 then previous s0 else neutral cfg) _ now
             HI ltac:(lia) HS).
  - unfold step, RetireInputPresentationGenerationWithBaseline.
    case_if; cbn [fst]; [apply (inv_same _ n); [done|lia|repeat split]|].
    apply inv_retire; [done|lia|repeat split].
Qed.

Lemma inv_run_from ops n g :
  inv n g -> n + 2 * Z.of_nat (length ops) < 18446744073709551613 -> (0 < reportSize cfg)%nat ->
  inv (n + 2 * Z.of_nat (length ops)) (foldl (step T_zero cfg) g ops).
Proof.
  revert n g. induction ops as [|o ops IH]; cbn [foldl length]; intros n g HI Hn Hsz.
  - replace (n + 2 * Z.of_nat 0) with n by lia. done.
  - replace (n + 2 * Z.of_nat (S (length ops))) with (n + 2 + 2 * Z.of_nat (length ops)) by lia.
    apply IH; [|lia|done]. apply inv_operation; [done|lia|done].
Qed.

(** *** The constructor *)

Lemma new_inv size neutral enc trans age strict at_ now (x : E) s :
  newFixedReportScheduler T_zero size neutral enc trans age strict at_ now x = Ok (cfg, s) ->
  (0 < reportSize cfg)%nat /\ inv 0 (start s).
Proof.
  unfold newFixedReportScheduler. case_if; [discriminate|].
  destruct enc as [enc|]; [|discriminate].
  destruct (enc x neutral size) as [y [[t data] k]]. case_if; [discriminate|].
  intros [= <- <-]. bool_prop. split; [cbn; lia|].
  constructor; cbn; try done.
  - unfold FixedReportTransitionCapacity. cbn. lia.
  - repeat constructor.
  - repeat constructor. lia.
  - constructor.
  - intros o b b' Hin. by apply elem_of_nil in Hin.
  - split; [lia|]. intros _. by left.
  - split_and!; try done; constructor.
Qed.

Lemma run_inv size neutral enc trans age strict at_ now (x : E) s ops :
  newFixedReportScheduler T_zero size neutral enc trans age strict at_ now x = Ok (cfg, s) ->
  2 * Z.of_nat (length ops) < 18446744073709551613 ->
  inv (2 * Z.of_nat (length ops)) (run T_zero cfg s ops).
Proof.
  intros [Hsz HI]%new_inv Hn. apply (inv_run_from ops 0); [done|lia|done].
Qed.
End Claims.
