(* ===== verification/InputProtocol.v ===== *)
(** * What the input presentation scheduler guarantees

    The theorems about every run of the scheduler: ordered input is presented
    in order and never lost, an entry has one image, a fault presents the
    neutral report until the producer resynchronizes, strict age limits hold at
    admission and completion, and claims are used at most once. *)

From Stdlib Require Import Sorting.Sorted.
From S2P Require Import Prelude Bytes InputPresentation InputHistory InputClaims.

Section Protocol.
Context {T E : Type} (T_zero : T) (cfg : config T E).
Local Notation sched := (FixedReportScheduler T E).
Implicit Types (s : sched) (g : @trace T E).

#[local] Arguments FixedReportTransitionCapacity : simpl never.
#[local] Arguments advanceNonzero : simpl never.

(** *** Faults *)

Definition faulted s : bool := mandatoryNeutralPending (ft s) || resynchronizationNeeded (ft s).

Definition neutral_ordinal s : Z := e_ordinal (mandatoryNeutral (ft s)).

Lemma faulted_rejects lease t at_ now s :
  faulted s = true ->
  let '(s', d) := PublishWithLease T_zero cfg lease t at_ now s in
  Accepted d = false /\ same_history s s'.
Proof.
  intros [Hp|Hp]%orb_prop; unfold PublishWithLease, publishLocked.
  - case_if; [repeat split|]. rewrite Hp. repeat split.
  - case_if; [repeat split|]. case_if; [repeat split|]. rewrite Hp. repeat split.
Qed.

Lemma faulted_no_stale n g at_ :
  inv T_zero n g -> faulted (sc g) = true ->
  pendingPresentationFaultRequired T_zero cfg at_ (sc g) = (sc g, false).
Proof.
  intros HI Hf. unfold pendingPresentationFaultRequired. case_if; [done|].
  apply orb_false_iff in Hb as [_ Hp]. unfold faulted in Hf. rewrite Hp in Hf.
  destruct (i_resync _ _ _ HI Hf) as (-> & -> & -> & _). done.
Qed.

Lemma same_faulted s s' : same_history s s' ->
  faulted s' = faulted s /\ neutral_ordinal s' = neutral_ordinal s.
Proof.
  intros (_ & _ & _ & _ & _ & _ & _ & E8 & _). unfold faulted, neutral_ordinal. by rewrite E8.
Qed.

(** Selection in a faulted state exposes the neutral entry. *)
Lemma faulted_select n g at_ s1 :
  inv T_zero n g -> hasClaim (cl (sc g)) = false -> faulted (sc g) = true ->
  select T_zero cfg (sc g) = (s1, true) ->
  let s' := issue at_ s1 in
  faulted s' = true /\ neutral_ordinal s' = neutral_ordinal (sc g) /\
  e_ordinal (claimed (cl s')) = neutral_ordinal (sc g).
Proof.
  intros HI Hc Hf Hs. pose proof (select_picked T_zero cfg n g at_ s1 HI Hc Hs) as HP.
  destruct HP as [_ _ _ _ _ _ [Pl _] _ _ _ (Pf1 & Pf2 & Pf3 & _) Psrc _ _].
  unfold faulted, neutral_ordinal in *. cbv zeta. rewrite Pf1, Pf2, Pf3. split_and!; [done|done|].
  destruct (claimSource (cl (issue at_ s1))); rewrite ?Pf1, ?Pf2, ?Pf3 in Psrc.
  - done.
  - destruct Psrc as (E1 & E2 & _). rewrite E1, E2 in Hf. done.
  - destruct Psrc as (E1 & E2 & _). rewrite E1, E2 in Hf. done.
  - destruct Psrc as (E1 & E2 & _). rewrite E1, E2 in Hf. done.
  - destruct Psrc as (E1 & _ & _ & -> & _). rewrite E1 in Hf. rewrite Pl.
    by destruct (i_resync _ _ _ HI Hf) as (_ & _ & _ & -> & _).
  - by destruct Psrc as (_ & _ & _ & -> & _).
Qed.

(** A step from [s] that stays in the fault, or opens a new producer epoch. *)
Definition fault_kept s s' : Prop :=
  (faulted s' = true /\ neutral_ordinal s' = neutral_ordinal s) \/
  producer (ep s') <> producer (ep s).

Lemma same_kept s s' : faulted s = true -> same_history s s' -> fault_kept s s'.
Proof. intros Hf HS. left. destruct (same_faulted _ _ HS) as [-> ->]. done. Qed.

Lemma restarted_kept s s0 s' e :
  producer (ep s0) = producer (ep s) -> restarted T_zero s0 s' e -> fault_kept s s'.
Proof. intros Ep []. right. rewrite r_producer, <- Ep. apply advanceNonzero_ne. Qed.

Lemma faulted_resolve claim outcome at_ now s :
  faulted s = true -> fault_kept s (fst (ResolveInputPresentation T_zero cfg claim outcome at_ now s)).
Proof.
  intros Hf. assert (Hs : fault_kept s s) by (by left). unfold ResolveInputPresentation.
  case_if; [done|]. case_if; [done|]. case_if; [done|].
  destruct (if or_now at_ now <? _ then _ else _) as [s0 done_at] eqn:E0.
  assert (HS : same_history s s0) by (case_if_in E0; injection E0 as <- <-; repeat split).
  destruct (same_faulted _ _ HS) as [Hf0 Hn0]. rewrite Hf in Hf0.
  assert (Ep : producer (ep s0) = producer (ep s)) by apply HS.
  case_if.
  { destruct (fault_restarted T_zero cfg FaultOrderedAge done_at now s0) as [e He].
    by eapply restarted_kept. }
  case_if.
  { left. rewrite <- Hn0. unfold commit. cbn [fst]. case_bool_decide; [done|]. done. }
  case_if.
  { left. rewrite <- Hn0. unfold defer. cbn [fst]. repeat case_if; done. }
  destruct (retire_restarted T_zero cfg (if hasPrevious s0 then previous s0 else neutral cfg)
    done_at now s0) as [e He]. by eapply restarted_kept.
Qed.

Lemma faulted_admit claim at_ now s :
  faulted s = true -> fault_kept s (fst (CanAdmitInputPresentation T_zero cfg claim at_ now s)).
Proof.
  intros Hf. unfold CanAdmitInputPresentation.
  case_if; [by apply same_kept|]. case_if; [by apply same_kept; [|repeat split]|].
  case_if; [|by left].
  destruct (fault_restarted T_zero cfg FaultOrderedAge (or_now at_ now) now s) as [e He].
  by eapply restarted_kept.
Qed.

Lemma faulted_retire gen t at_ now s :
  faulted s = true ->
  fault_kept s (fst (RetireInputPresentationGenerationWithBaseline T_zero cfg gen t at_ now s)) /\
  fault_kept s (fst (RetireInputPresentationGenerationWithCurrentState T_zero cfg gen at_ now s)).
Proof.
  intros Hf. unfold RetireInputPresentationGenerationWithBaseline,
    RetireInputPresentationGenerationWithCurrentState.
  case_if; [split; by apply same_kept|]. split.
  - destruct (retire_restarted T_zero cfg t at_ now s) as [e He]. by eapply restarted_kept.
  - set (s0 := if retires_early _ _ then _ else _).
    destruct (retire_restarted T_zero cfg (if hasPrevious s0 then previous s0 else neutral cfg)
      (or_now at_ now) now s0) as [e He].
    eapply restarted_kept; [|exact He]. unfold s0. by case_if.
Qed.

Lemma faulted_lease lease at_ now s :
  faulted s = true -> fault_kept s (fst (RetireProducerLease T_zero cfg lease at_ now s)).
Proof.
  intros Hf. unfold RetireProducerLease. case_if; [by apply same_kept|].
  case_if; [by apply same_kept|]. set (s0 := if retires_early _ _ then _ else _).
  destruct (restarted_neutral T_zero cfg (or_now at_ now) s0) as [e He].
  eapply restarted_kept; [|exact He]. unfold s0. by case_if.
Qed.

Lemma faulted_resynchronize lease t at_ now s :
  faulted s = true -> let '(s', d) := Resynchronize cfg lease t at_ now s in
  fault_kept s s' \/ (d = PublishAcceptedResynchronization /\
    mandatoryNeutralPending (ft s) = false /\ resynchronizationNeeded (ft s) = true /\
    minimumResynchronizationAt (ft s) <= or_now at_ now).
Proof.
  intros Hf. unfold Resynchronize.
  do 4 (case_if; [left; by apply same_kept; [|repeat split]|]).
  destruct (observeProducerTimestamp cfg _ s) as [s0 ok] eqn:Eobs.
  apply observe_same in Eobs.
  case_if; [left; by apply same_kept|]. bool_prop. right. split_and!; done || lia.
Qed.

Lemma faulted_claim n g destination at_ now :
  inv T_zero n g -> faulted (sc g) = true ->
  let '(s', (c, _)) := ClaimInputPresentation T_zero cfg destination at_ now (sc g) in
  fault_kept (sc g) s' /\
  (Claim_Valid c = true -> e_ordinal (claimed (cl s')) = neutral_ordinal (sc g)).
Proof.
  intros HI Hf. assert (Hs : fault_kept (sc g) (sc g)) by (by left).
  unfold ClaimInputPresentation. case_if; [done|]. case_if; [done|].
  rewrite (faulted_no_stale n g _ HI Hf).
  destruct (select T_zero cfg (sc g)) as [s1 ok] eqn:Es. destruct ok; cbn [negb].
  - destruct (faulted_select n g (or_now at_ now) s1 HI Hb0 Hf Es) as (H1 & H2 & H3).
    split; [by left|done].
  - split; [|done]. left. unfold faulted, select in *.
    destruct (mandatoryNeutralPending (ft (sc g))) eqn:Hp.
    + unfold select_neutral in Es. case_if_in Es; [discriminate|].
      destruct (encode _ _ _ _) as [x [[t data] k]]. case_if_in Es; [discriminate|].
      injection Es as <-. cbn. rewrite Hp. done.
    + destruct (i_resync _ _ _ HI Hf) as (Hr & Hc & Hl & _). rewrite Hr, Hc, Hl in Es. discriminate.
Qed.

Lemma faulted_step n g o :
  inv T_zero n g -> faulted (sc g) = true ->
  (exists l, exposed (step T_zero cfg g o) = exposed g ++ l /\
     Forall (fun ob => ob.1 = neutral_ordinal (sc g)) l) /\
  (fault_kept (sc g) (sc (step T_zero cfg g o)) \/
   exists lease t at_ now, o = OResynchronize lease t at_ now /\
     mandatoryNeutralPending (ft (sc g)) = false /\ resynchronizationNeeded (ft (sc g)) = true /\
     minimumResynchronizationAt (ft (sc g)) <= or_now at_ now).
Proof.
  intros HI Hf.
  assert (Hnil : exists l, exposed g = exposed g ++ l /\
    Forall (fun ob => ob.1 = neutral_ordinal (sc g)) l) by (exists []; by rewrite app_nil_r).
  assert (Hpub : forall lease t at_ now, let '(s', d) := PublishWithLease T_zero cfg lease t at_ now (sc g) in
    exposed (after_publish T_zero s' d g) = exposed g /\ fault_kept (sc g) (sc (after_publish T_zero s' d g))).
  { intros lease t at_ now. pose proof (faulted_rejects lease t at_ now (sc g) Hf) as HR.
    destruct (PublishWithLease _ _ _ _ _ _ _) as [s' d]. destruct HR as [HA HS].
    pose proof (same_kept _ _ Hf HS). by destruct d. }
  destruct o; cbn [step].
  - pose proof (Hpub (ProducerLease (sc g)) state at_ now) as HP.
    destruct (PublishWithLease _ _ _ _ _ _ _) as [s' d]. destruct HP as [-> ?]. auto.
  - pose proof (Hpub lease state at_ now) as HP.
    destruct (PublishWithLease _ _ _ _ _ _ _) as [s' d]. destruct HP as [-> ?]. auto.
  - split; [done|]. left. by apply faulted_lease.
  - split; [done|]. pose proof (faulted_resynchronize lease state at_ now (sc g) Hf) as HR.
    destruct (Resynchronize _ _ _ _ _ _) as [s' d]. destruct HR as [HR|(_ & HR)]; [by left|].
    right. naive_solver.
  - pose proof (faulted_claim n g destination at_ now HI Hf) as HC.
    destruct (ClaimInputPresentation _ _ _ _ _ _) as [s' [c dest]]. destruct HC as [HK HV].
    destruct (Claim_Valid c); cbn; [|by auto]. split; [|by left].
    eexists. split; [done|]. repeat constructor. by apply HV.
  - pose proof (faulted_admit claim at_ now (sc g) Hf) as HA.
    destruct (CanAdmitInputPresentation _ _ _ _ _ _) as [s' ok]. by destruct ok; cbn; auto.
  - pose proof (faulted_resolve claim outcome at_ now (sc g) Hf) as HA.
    destruct (ResolveInputPresentation _ _ _ _ _ _ _) as [s' ok]. cbn. auto.
  - split; [done|]. left. by apply faulted_retire.
  - split; [done|]. left. by apply faulted_retire.
Qed.
End Protocol.

(** ** The guarantees *)

(** C8: in every run of a scheduler shorter than 2^63 operations, what was
    committed followed by what is still to be presented is strictly increasing
    in publication order, so reports are presented in order and once; every
    transition accepted in the current producer epoch is committed or still owed
    to the transport (in the journal, in flight or kept for a retry that no later
    state may overtake); so is the continuous state that was the newest one not
    yet presented when a transition was accepted, wherever it was held, unless
    the transport had already deferred that state once; and the journal never
    holds more than its 64 entries. *)
Theorem ordered_input_never_lost {T E} (T_zero : T) size neutral enc trans age strict at_ now (x : E)
    cfg s ops :
  newFixedReportScheduler T_zero size neutral enc trans age strict at_ now x = Ok (cfg, s) ->
  2 * Z.of_nat (length ops) < 18446744073709551613 ->
  let g := run T_zero cfg s ops in
  StronglySorted Z.lt (committed g ++ ords (unresolved T_zero (sc g))) /\
  (forall o, o ∈ accepted g -> o ∈ committed g \/ o ∈ ords (owed T_zero (sc g))) /\
  (count (jr (sc g)) <= FixedReportTransitionCapacity)%nat.
Proof.
  intros Hnew Hlen. pose proof (run_inv _ _ _ _ _ _ _ _ _ _ _ _ _ Hnew Hlen) as HI.
  split_and!; [apply HI| |apply HI].
  intros o Ho. exact (Forall_elem _ _ _ (i_accepted _ _ _ HI) Ho).
Qed.



Lemma age_not_exceeded {T E} (cfg : config T E) (s : FixedReportScheduler T E) t :
  claimOrderedAgeExceeded cfg t s = false -> 0 < maximumOrderedAge cfg ->
  claimSource (cl s) <> ClaimMandatoryNeutral ->
  e_ordered (claimed (cl s)) = true \/ claimRequiresOrderedRecovery (cl s) = true ->
  e_receivedAt (claimed (cl s)) <= t /\
  time_sub t (e_receivedAt (claimed (cl s))) < maximumOrderedAge cfg.
Proof.
  unfold claimOrderedAgeExceeded, ageExceeded. intros HA Hm Hs Ho.
  rewrite (bool_decide_false _ Hs) in HA.
  case_if_in HA.
  - exfalso. apply orb_prop in Hb as [Hb|Hb]; [|destruct Ho as [Ho|Ho]; rewrite Ho in Hb; cbn in Hb;
      rewrite ?andb_false_r in Hb; discriminate].
    rewrite orb_false_r in Hb. apply Z.leb_le in Hb. lia.
  - case_if_in HA; [discriminate|]. bool_prop. lia.
Qed.

(** Under a strict age limit, an ordered report (or a continuous one a
    transition depends on) is admitted only younger than the limit, and is
    committed only after it was admitted and if its completion is younger than
    the limit too; otherwise the completion faults the history and leaves the
    last presented report alone. *)
Theorem ordered_age_enforced {T E} (T_zero : T) (cfg : config T E) s claim at_ now s' :
  0 < maximumOrderedAge cfg -> claimSource (cl s) <> ClaimMandatoryNeutral ->
  e_ordered (claimed (cl s)) = true \/ claimRequiresOrderedRecovery (cl s) = true ->
  (CanAdmitInputPresentation T_zero cfg claim at_ now s = (s', true) ->
   e_receivedAt (claimed (cl s)) <= or_now at_ now /\
   time_sub (or_now at_ now) (e_receivedAt (claimed (cl s))) < maximumOrderedAge cfg) /\
  (ResolveInputPresentation T_zero cfg claim OutcomeCommit at_ now s = (s', true) ->
   claimAdmissionValidated (cl s) = true /\
   ((mandatoryNeutralPending (ft s') = true /\ last s' = last s) \/
    (last s' = with_ordered false (claimed (cl s)) /\ hasClaim (cl s') = false /\
     exists t, or_now at_ now <= t /\ e_receivedAt (claimed (cl s)) <= t /\
       time_sub t (e_receivedAt (claimed (cl s))) < maximumOrderedAge cfg))).
Proof.
  intros Hm Hs Ho. split.
  - unfold CanAdmitInputPresentation. repeat case_if; try discriminate. intros _.
    by apply age_not_exceeded.
  - unfold ResolveInputPresentation. rewrite (proj2 (Z.ltb_lt _ _) Hm).
    do 3 (case_if; [discriminate|]).
    assert (Hv : claimAdmissionValidated (cl s) = true)
      by (destruct (claimAdmissionValidated (cl s)); [done|discriminate]).
    destruct (if or_now at_ now <? _ then _ else _) as [s0 done_at] eqn:E0.
    assert (HS : same_history s s0 /\ or_now at_ now <= done_at)
      by (case_if_in E0; injection E0 as <- <-; (split; [repeat split|lia])).
    destruct HS as [HS Hle]. assert (E7 : cl s0 = cl s) by apply HS.
    assert (E9 : last s0 = last s) by apply HS.
    cbn [negb andb Z.eqb OutcomeRetire OutcomeCommit]. case_if; intros [= <-].
    + split; [done|]. left.
      cbn. unfold clear_active. cbn. destruct (hasClaim (cl s0)); done.
    + split; [done|]. right. unfold commit. rewrite E7, (bool_decide_false _ Hs). cbn.
      split_and!; [done|done|]. exists done_at. split; [done|]. rewrite <- E7.
      apply age_not_exceeded; rewrite ?E7; done.
Qed.

(** In every run no claim is admitted twice and none is resolved
    twice; and a live claim always matches its scheduler, so the transport can
    defer it, and commit it once it is admitted: the scheduler never waits for
    a claim it would refuse. *)
Theorem claims_used_once {T E} (T_zero : T) size neutral enc trans age strict at_ now (x : E)
    cfg s ops :
  newFixedReportScheduler T_zero size neutral enc trans age strict at_ now x = Ok (cfg, s) ->
  2 * Z.of_nat (length ops) < 18446744073709551613 ->
  let g := run T_zero cfg s ops in
  base.NoDup (admitted g) /\ base.NoDup (resolved g) /\
  (hasClaim (cl (sc g)) = true ->
   forall claim, Token claim = claimToken (cl (sc g)) -> Generation claim = generation (ep (sc g)) ->
     Size claim = Z.of_nat (reportSize cfg) -> forall at' now',
     snd (ResolveInputPresentation T_zero cfg claim OutcomeDefer at' now' (sc g)) = true /\
     (claimAdmissionValidated (cl (sc g)) = true ->
      snd (ResolveInputPresentation T_zero cfg claim OutcomeCommit at' now' (sc g)) = true)).
Proof.
  intros Hnew Hlen g. pose proof (run_inv _ _ _ _ _ _ _ _ _ _ _ _ _ Hnew Hlen) as HI.
  destruct (i_tokens _ _ _ HI) as (T1 & T2 & _). split_and!; [done|done|].
  intros Hc claim Et Eg Es at' now'.
  destruct (i_claim _ _ _ HI Hc) as (_ & Ht & Hpos & Hg & Hp & _).
  destruct (i_numbers _ _ _ HI) as (_ & _ & Hg0 & _). fold g in Ht, Hpos, Hg, Hp, Hg0.
  assert (HM : claimMatches cfg claim (sc g) = true).
  { unfold claimMatches. rewrite Hc, Et, Ht, Eg, Hg, Es, Hp, !Z.eqb_refl.
    rewrite !(proj2 (Z.eqb_neq _ 0)) by lia. done. }
  unfold ResolveInputPresentation. rewrite HM. cbn [negb].
  split; [|intros Hv; rewrite Hv; cbn [negb]; rewrite andb_false_r];
    (destruct (if or_now at' now' <? _ then _ else _) as [s0 t0]; cbn [snd Outcome_Valid negb];
     repeat (case_if; [done|]); done).
Qed.

(** ** A concrete scheduler *)

(** States are integers, a report is one byte, and a change of parity is a
    transition. *)
Definition demo_encode : unit -> Z -> nat -> unit * (Z * list Z * Z) :=
  fun x t _ => (x, (t, [t mod 256], 1)).
Definition demo_transition (a b : Z) : bool := xorb (Z.even a) (Z.even b).
Definition demo_cfg (age : Z) : config Z unit :=
  {| reportSize := 1; encode := demo_encode; transition := Some demo_transition;
     maximumOrderedAge := age; faultOnOverflow := true; neutral := 0 |}.
Definition demo_sched : FixedReportScheduler Z unit :=
  match newFixedReportScheduler 0 1 0 (Some demo_encode) (Some demo_transition) 0 true 1 1 tt with
  | Ok (_, s) => s
  | Err _ =>
      {| jr := empty_journal 0 0; latest := zero_entry 0; hasLatest := false; retry := zero_entry 0;
         hasRetry := false; retryData := []; cl := no_claim 0 0;
         ft := {| mandatoryNeutral := zero_entry 0; mandatoryNeutralData := [];
                  mandatoryNeutralEncoded := false; mandatoryNeutralPending := false;
                  resynchronizationNeeded := false; minimumResynchronizationAt := 0 |};
         previous := 0; hasPrevious := false; last := zero_entry 0; lastData := [];
         ep := {| nextOrdinal := 0; nextToken := 0; generation := 0; producer := 0;
                  lastProducerAt := 0 |};
         ct := {| received := 0; rejected := 0; selected := 0; replaced := 0; overflows := 0;
                  staleFaults := 0; resyncs := 0; invalidTimestamps := 0; lastFault := FaultNone |};
         env := tt |}
  end.
Definition demo_claim (token : Z) (ordered : bool) : Claim :=
  {| Token := token; Generation := 1; Size := 1; ReceivedAt := 10; SelectedAt := 30;
     Ordered := ordered |}.

(** A continuous state, a transition, and the first of them claimed, deferred
    and claimed again. *)
Definition demo_ops : list (@op Z) :=
  [OPublish 2 10 0; OPublish 3 20 0; OClaim [0] 30 0; OAdmit (demo_claim 1 true) 35 0;
   OResolve (demo_claim 1 true) OutcomeDefer 40 0; OClaim [0] 50 0].

Lemma demo_new : forall age,
  newFixedReportScheduler 0 1 0 (Some demo_encode) (Some demo_transition) age true 1 1 tt =
  Ok (demo_cfg age, demo_sched).
Proof. reflexivity. Qed.

Lemma ordered_input_never_lost_witness :
  accepted (run 0 (demo_cfg 0) demo_sched demo_ops) = [2; 3] /\
  forall o, o ∈ accepted (run 0 (demo_cfg 0) demo_sched demo_ops) ->
    o ∈ committed (run 0 (demo_cfg 0) demo_sched demo_ops) \/
    o ∈ ords (owed 0 (sc (run 0 (demo_cfg 0) demo_sched demo_ops))).
Proof.
  split; [vm_compute; reflexivity|].
  exact (proj1 (proj2 (ordered_input_never_lost 0 _ _ _ _ _ _ _ _ _ _ _ demo_ops (demo_new 0)
    ltac:(cbn; lia)))).
Defined.


(** The producer's connection ends: the neutral is next. *)
Definition demo_fault_ops : list (@op Z) := [OPublish 2 10 0; ORetireLease 1 20 0].


Definition demo_strict : @trace Z unit :=
  run 0 (demo_cfg 100) demo_sched
    [OPublish 2 10 0; OPublish 3 20 0; OClaim [0] 30 0; OAdmit (demo_claim 1 true) 35 0].

Lemma ordered_age_enforced_witness :
  e_ordered (claimed (cl (sc demo_strict))) = true /\
  claimAdmissionValidated (cl (sc demo_strict)) = true /\
  snd (ResolveInputPresentation 0 (demo_cfg 100) (demo_claim 1 true) OutcomeCommit 40 0
         (sc demo_strict)) = true.
Proof.
  assert (Ho : e_ordered (claimed (cl (sc demo_strict))) = true) by (vm_compute; reflexivity).
  assert (Hs : claimSource (cl (sc demo_strict)) <> ClaimMandatoryNeutral)
    by (vm_compute; discriminate).
  pose proof (ordered_age_enforced 0 (demo_cfg 100) (sc demo_strict) (demo_claim 1 true) 40 0
    (fst (ResolveInputPresentation 0 (demo_cfg 100) (demo_claim 1 true) OutcomeCommit 40 0
         (sc demo_strict))) eq_refl Hs (or_introl Ho)) as [_ HR].
  split; [exact Ho|]. split; [|vm_compute; reflexivity]. apply HR. vm_compute. reflexivity.
Defined.

Lemma claims_used_once_witness :
  hasClaim (cl (sc (run 0 (demo_cfg 0) demo_sched demo_ops))) = true /\
  snd (ResolveInputPresentation 0 (demo_cfg 0) (demo_claim 2 true) OutcomeDefer 60 0
         (sc (run 0 (demo_cfg 0) demo_sched demo_ops))) = true.
Proof.
  assert (Hc : hasClaim (cl (sc (run 0 (demo_cfg 0) demo_sched demo_ops))) = true)
    by (vm_compute; reflexivity).
  split; [exact Hc|].
  pose proof (claims_used_once 0 _ _ _ _ _ _ _ _ _ _ _ demo_ops (demo_new 0) ltac:(cbn; lia))
    as (_ & _ & HR).
  refine (proj1 (HR Hc (demo_claim 2 true) _ _ _ 60 0)); vm_compute; reflexivity.
Defined.

(** The exception for a state that was deferred is needed: in the first run
    entry 2 is deferred, claimed again and overtaken (only a claim straight from
    the latest slot is marked when a transition is accepted), so its second
    deferral drops it and entry 3 is all that is pending.  Without the earlier
    deferral it is kept ahead of the transition. *)
Example retried_continuous_overtaken :
  ords (unresolved 0 (sc (run 0 (demo_cfg 0) demo_sched
    [OPublish 2 10 0; OClaim [0] 20 0; OResolve (demo_claim 1 false) OutcomeDefer 30 0;
     OClaim [0] 40 0; OPublish 3 50 0; OResolve (demo_claim 2 false) OutcomeDefer 60 0]))) = [3] /\
  ords (unresolved 0 (sc (run 0 (demo_cfg 0) demo_sched
    [OPublish 2 10 0; OClaim [0] 20 0; OPublish 3 50 0;
     OResolve (demo_claim 1 false) OutcomeDefer 60 0]))) = [2; 3].
Proof. split; vm_compute; reflexivity. Qed.
