(* ===== verification/VirtualBus.v ===== *)
(** * Bus topology and registration lifecycles (src/virtualbus/virtualbus.go)

    A bus hands out device addresses and opaque Add incarnations.  Every
    exported method is a sequence of critical sections under the bus mutex,
    some of them separated by a wait on an incarnation's read-write mutex.  The
    critical sections are functions on [world] (the bus, the heap of
    registrationLifecycle objects, the cancelled contexts and the process-wide
    bus numbers); [sys] adds the goroutines that are between two sections, and
    [step] interleaves them freely.  The theorems are invariants of every
    reachable state. *)

From stdpp Require Import relations.
From S2P Require Import Prelude Bytes UsbIp.

(** ** Device identity *)

(** A dynamic [usb.Device] value as reflection sees it: its type, whether its
    kind is a pointer or another nilable kind, whether it is nil and whether it
    is comparable, and the identity compared by [==]. *)
Inductive device_kind := KindPointer | KindNilable | KindOther.

Record Device := {
  dv_type : Z;
  dv_kind : device_kind;
  dv_nil : bool;
  dv_comparable : bool;
  dv_id : Z;
}.

#[export] Instance device_kind_eq_dec : EqDecision device_kind.
Proof. solve_decision. Defined.
#[export] Instance Device_eq_dec : EqDecision Device.
Proof. solve_decision. Defined.

Definition validateDeviceIdentity (dev : option Device) : bool :=
  match dev with
  | None => false
  | Some d =>
      match dv_kind d with
      | KindPointer | KindNilable => negb (dv_nil d) && dv_comparable d
      | KindOther => dv_comparable d
      end
  end.

(** ** State *)

Record registrationLifecycle := {
  rl_bus : Z;
  rl_dev : Device;
  rl_meta : ExportMeta;
  rl_ctx : Z;
  rl_token : Z;
  rl_active : bool;
  rl_removing : bool;
  rl_done : bool;  (* removalDone is closed *)
  rl_readers : nat;  (* mu: readers inside *)
  rl_writer : bool;  (* mu: a writer inside *)
}.

Record busDevice := {
  bd_dev : Device;
  bd_meta : ExportMeta;
  bd_ctx : Z;
  bd_registrationToken : Z;
  bd_lifecycle : Z;
  bd_published : bool;
}.

Record VirtualBus := {
  vb_busID : Z;
  nextRegistrationToken : Z;
  allocatedDevIDs : gset Z;
  devices : list busDevice;
  emptyCtx : option Z;
  closed : bool;
  closeDone : bool;
}.

(** The bus with the objects it points to: lifecycle objects and contexts have
    addresses below [nextRef]. *)
Record world := {
  vb : VirtualBus;
  heap : gmap Z registrationLifecycle;
  nextRef : Z;
  cancelled : gset Z;
  allocatedBusIds : gset Z;
}.

(** DeviceMeta; [None] is nil. *)
Record DeviceMeta := {
  dm_Dev : option Device;
  dm_Meta : ExportMeta;
  dm_Bus : option Z;
  dm_Context : option Z;
  dm_RegistrationToken : Z;
  dm_lifecycle : option Z;
}.

Definition set_vb (w : world) (v : VirtualBus) : world :=
  {| vb := v; heap := heap w; nextRef := nextRef w; cancelled := cancelled w;
     allocatedBusIds := allocatedBusIds w |}.

Definition set_heap (w : world) (h : gmap Z registrationLifecycle) : world :=
  {| vb := vb w; heap := h; nextRef := nextRef w; cancelled := cancelled w;
     allocatedBusIds := allocatedBusIds w |}.

(** Assignments to fields of one lifecycle object. *)
Definition set_removing (l : registrationLifecycle) : registrationLifecycle :=
  {| rl_bus := rl_bus l; rl_dev := rl_dev l; rl_meta := rl_meta l; rl_ctx := rl_ctx l;
     rl_token := rl_token l; rl_active := rl_active l; rl_removing := true;
     rl_done := rl_done l; rl_readers := rl_readers l; rl_writer := rl_writer l |}.

Definition set_readers (n : nat) (l : registrationLifecycle) : registrationLifecycle :=
  {| rl_bus := rl_bus l; rl_dev := rl_dev l; rl_meta := rl_meta l; rl_ctx := rl_ctx l;
     rl_token := rl_token l; rl_active := rl_active l; rl_removing := rl_removing l;
     rl_done := rl_done l; rl_readers := n; rl_writer := rl_writer l |}.

Definition set_writer (b : bool) (l : registrationLifecycle) : registrationLifecycle :=
  {| rl_bus := rl_bus l; rl_dev := rl_dev l; rl_meta := rl_meta l; rl_ctx := rl_ctx l;
     rl_token := rl_token l; rl_active := rl_active l; rl_removing := rl_removing l;
     rl_done := rl_done l; rl_readers := rl_readers l; rl_writer := b |}.

(** The end of finishMarkedRegistrationRemoval: inactive, write fence released,
    removalDone closed. *)
Definition set_removed (found : bool) (l : registrationLifecycle) : registrationLifecycle :=
  {| rl_bus := rl_bus l; rl_dev := rl_dev l; rl_meta := rl_meta l; rl_ctx := rl_ctx l;
     rl_token := rl_token l; rl_active := rl_active l && negb found;
     rl_removing := rl_removing l; rl_done := true; rl_readers := rl_readers l;
     rl_writer := false |}.

(** ** Construction *)

Definition empty_bus (busID : Z) : VirtualBus := {|
  vb_busID := busID; nextRegistrationToken := 0; allocatedDevIDs := ∅; devices := [];
  emptyCtx := None; closed := false; closeDone := false |}.

Definition New (global : gset Z) (busID : Z) : gset Z * VirtualBus :=
  ({[busID]} ∪ global, empty_bus busID).

Definition NewWithBusID (global : gset Z) (busID : Z) : gset Z * option VirtualBus :=
  if bool_decide (busID ∈ global) then (global, None)
  else ({[busID]} ∪ global, Some (empty_bus busID)).

(** ** Predicates under the lock *)

Section Bus.
(** The address of the VirtualBus object itself. *)
Variable self : Z.

Definition registrationActiveLocked (w : world) (d : busDevice) : bool :=
  match heap w !! bd_lifecycle d with
  | Some l => rl_active l && negb (rl_removing l)
  | None => false
  end.

Definition deviceDiscoverableLocked (w : world) (d : busDevice) : bool :=
  bd_published d && registrationActiveLocked w d.

Definition deviceMetaLocked (d : busDevice) : DeviceMeta := {|
  dm_Dev := Some (bd_dev d); dm_Meta := bd_meta d; dm_Bus := Some self;
  dm_Context := Some (bd_ctx d); dm_RegistrationToken := bd_registrationToken d;
  dm_lifecycle := Some (bd_lifecycle d) |}.

Definition registrationIdentityMatchesLocked (w : world) (snapshot : DeviceMeta) : bool :=
  match dm_lifecycle snapshot ≫= fun a => heap w !! a with
  | None => false
  | Some l =>
      (rl_bus l =? self) && bool_decide (Some (rl_dev l) = dm_Dev snapshot) &&
      bool_decide (rl_meta l = dm_Meta snapshot) &&
      bool_decide (Some (rl_ctx l) = dm_Context snapshot) &&
      (rl_token l =? dm_RegistrationToken snapshot)
  end.

Definition authenticatesRegistrationLocked (w : world) (snapshot : DeviceMeta) : bool :=
  match dm_lifecycle snapshot ≫= fun a => heap w !! a with
  | None => false
  | Some l => registrationIdentityMatchesLocked w snapshot && rl_active l &&
              negb (rl_removing l)
  end.

Definition registrationSnapshotDeviceIdentitySafe (w : world) (snapshot : DeviceMeta) : bool :=
  match dm_lifecycle snapshot ≫= fun a => heap w !! a, dm_Dev snapshot with
  | Some l, Some dev =>
      if negb (dv_type dev =? dv_type (rl_dev l)) then false
      else match dv_kind dev with
           | KindPointer => negb (dv_nil dev)
           | _ => dv_comparable dev
           end
  | _, _ => false
  end.

(** The nil checks the exact-registration methods share. *)
Definition snapshot_shape (snapshot : DeviceMeta) : bool :=
  bool_decide (dm_Bus snapshot = Some self) && bool_decide (is_Some (dm_Dev snapshot)) &&
  bool_decide (is_Some (dm_Context snapshot)) &&
  negb (dm_RegistrationToken snapshot =? 0).

(** ** Allocation *)

(** The loop of nextAvailableDeviceIDLocked from [id]. *)
Fixpoint next_device_id (fuel : nat) (alloc : gset Z) (max id : Z) : option Z :=
  match fuel with
  | O => None
  | S fuel =>
      if negb (bool_decide (id ∈ alloc)) then Some id
      else if id =? max then None
      else next_device_id fuel alloc max (u32 (id + 1))
  end.

Definition nextAvailableDeviceIDLocked (w : world) (max : Z) : option Z :=
  let alloc := allocatedDevIDs (vb w) in
  next_device_id (S (size alloc)) alloc max 1.

Definition CanAddRepresentableRegistration (w : world) (max : Z) : bool :=
  if max =? 0 then false
  else if closed (vb w) || (nextRegistrationToken (vb w) =? 18446744073709551615) then false
  else match nextAvailableDeviceIDLocked w max with Some _ => true | None => false end.

Inductive add_error :=
| ErrIdentity
| ErrRangeEmpty
| ErrClosed
| ErrTokenExhausted
| ErrDuplicateDevice
| ErrDuplicateAlias
| ErrNoAddress
| ErrInvalidAlias.

Definition basepath : list Z :=
  bytes_of_string "/sys/devices/pci0000:00/0000:00:08.1/0000:00:04:00.3/usb".

(** [exportBusID] is the empty string for generic registrations. *)
Definition addRegistration (w : world) (dev : option Device) (published : bool)
    (maxDeviceID : Z) (exportBusID : list Z) : world * result add_error DeviceMeta :=
  match dev with
  | None => (w, Err ErrIdentity)
  | Some dv =>
  if negb (validateDeviceIdentity dev) then (w, Err ErrIdentity)
  else if maxDeviceID =? 0 then (w, Err ErrRangeEmpty)
  else if closed (vb w) then (w, Err ErrClosed)
  else if nextRegistrationToken (vb w) =? 18446744073709551615 then (w, Err ErrTokenExhausted)
  else
    let conflict := first_some (fun d =>
      if bool_decide (bd_dev d = dv) then Some ErrDuplicateDevice
      else if negb (bool_decide (exportBusID = [])) &&
              bool_decide (ExportBusID (bd_meta d) = Ok exportBusID)
      then Some ErrDuplicateAlias
      else None) (devices (vb w)) in
    match conflict with
    | Some e => (w, Err e)
    | None =>
    match nextAvailableDeviceIDLocked w maxDeviceID with
    | None => (w, Err ErrNoAddress)
    | Some devID =>
        let busID := vb_busID (vb w) in
        let busDevID := if bool_decide (exportBusID = [])
                        then numeric_busid busID devID else exportBusID in
        let path := basepath ++ sprint_d busID ++ bytes_of_string "/" ++ busDevID in
        let meta := {| Path := fixed_array 256 path; USBBusID := fixed_array 32 busDevID;
                       BusID := busID; DevID := devID |} in
        let ctx := nextRef w in
        let addr := nextRef w + 1 in
        let token := nextRegistrationToken (vb w) + 1 in
        let lifecycle := {| rl_bus := self; rl_dev := dv; rl_meta := meta; rl_ctx := ctx;
          rl_token := token; rl_active := true; rl_removing := false; rl_done := false;
          rl_readers := 0; rl_writer := false |} in
        let registration := {| bd_dev := dv; bd_meta := meta; bd_ctx := ctx;
          bd_registrationToken := token; bd_lifecycle := addr; bd_published := published |} in
        ({| vb := {| vb_busID := busID; nextRegistrationToken := token;
              allocatedDevIDs := {[devID]} ∪ allocatedDevIDs (vb w);
              devices := devices (vb w) ++ [registration];
              emptyCtx := None; closed := closed (vb w); closeDone := closeDone (vb w) |};
            heap := <[addr := lifecycle]> (heap w);
            nextRef := nextRef w + 2;
            cancelled := match emptyCtx (vb w) with
                         | Some e => {[e]} ∪ cancelled w | None => cancelled w end;
            allocatedBusIds := allocatedBusIds w |},
         Ok (deviceMetaLocked registration))
    end
    end
  end.

Definition AddRegistration (w : world) (dev : option Device) :=
  addRegistration w dev true 4294967295 [].

Definition AddProvisionalRegistrationThrough (w : world) (dev : option Device) (max : Z) :=
  addRegistration w dev false max [].

Definition AddProvisionalRegistrationWithXboxOneBusIDThrough (w : world)
    (dev : option Device) (max : Z) (busID : list Z) : world * result add_error DeviceMeta :=
  if negb (ValidProductionXboxOneBusID busID) then (w, Err ErrInvalidAlias)
  else addRegistration w dev false max busID.

(** ** Queries *)

Definition GetAllDeviceMetas (w : world) : list DeviceMeta :=
  map deviceMetaLocked (filter (fun d => deviceDiscoverableLocked w d = true) (devices (vb w))).

Definition Devices (w : world) : list Device :=
  map bd_dev (filter (fun d => deviceDiscoverableLocked w d = true) (devices (vb w))).

Definition GetDeviceByID (w : world) (deviceID : Z) : option Device :=
  first_some (fun d => if deviceDiscoverableLocked w d && (DevID (bd_meta d) =? deviceID)
                       then Some (bd_dev d) else None) (devices (vb w)).

Definition GetDeviceImportSnapshot (w : world) (deviceID : Z) : option DeviceMeta :=
  first_some (fun d => if negb (deviceDiscoverableLocked w d) ||
                          negb (DevID (bd_meta d) =? deviceID)
                       then None else Some (deviceMetaLocked d)) (devices (vb w)).

Definition GetDeviceImportSnapshotByBusID (w : world) (busID : list Z) : option DeviceMeta :=
  if (length busID =? 0)%nat || (32 <=? length busID)%nat then None
  else
    let expected := fixed_array 32 busID in
    first_some (fun d => if deviceDiscoverableLocked w d &&
                            bool_decide (USBBusID (bd_meta d) = expected)
                         then Some (deviceMetaLocked d) else None) (devices (vb w)).

Definition HasUSBIPBusID (w : world) (busID : list Z) : bool :=
  if (length busID =? 0)%nat || (32 <=? length busID)%nat then false
  else
    let expected := fixed_array 32 busID in
    existsb (fun d => bool_decide (USBBusID (bd_meta d) = expected)) (devices (vb w)).

Definition GetDeviceRegistration (w : world) (dev : option Device) (ctx : option Z) :
    option DeviceMeta :=
  match ctx with
  | None => None
  | Some c =>
      if negb (validateDeviceIdentity dev) then None
      else first_some (fun d =>
        if registrationActiveLocked w d && bool_decide (Some (bd_dev d) = dev) &&
           (bd_ctx d =? c) then Some (deviceMetaLocked d) else None) (devices (vb w))
  end.

Definition GetDeviceContext (w : world) (dev : option Device) : option Z :=
  if negb (validateDeviceIdentity dev) then None
  else first_some (fun d =>
    if deviceDiscoverableLocked w d && bool_decide (Some (bd_dev d) = dev)
    then Some (bd_ctx d) else None) (devices (vb w)).

Definition AuthenticatesRegistration (w : world) (snapshot : DeviceMeta) : bool :=
  if negb (snapshot_shape snapshot) then false
  else if negb (registrationSnapshotDeviceIdentitySafe w snapshot) then false
  else if closed (vb w) then false
  else authenticatesRegistrationLocked w snapshot.

Definition RecognizesRegistration (w : world) (snapshot : DeviceMeta) : bool :=
  if negb (snapshot_shape snapshot) ||
     negb (registrationSnapshotDeviceIdentitySafe w snapshot) then false
  else registrationIdentityMatchesLocked w snapshot.

(** ** Publication *)

Definition set_published (d : busDevice) : busDevice := {|
  bd_dev := bd_dev d; bd_meta := bd_meta d; bd_ctx := bd_ctx d;
  bd_registrationToken := bd_registrationToken d; bd_lifecycle := bd_lifecycle d;
  bd_published := true |}.

Definition set_devices (v : VirtualBus) (l : list busDevice) : VirtualBus := {|
  vb_busID := vb_busID v; nextRegistrationToken := nextRegistrationToken v;
  allocatedDevIDs := allocatedDevIDs v; devices := l; emptyCtx := emptyCtx v;
  closed := closed v; closeDone := closeDone v |}.

(** The loop of PublishRegistration: the first entry that passes [f]. *)
Fixpoint update_first (f : busDevice -> bool) (g : busDevice -> busDevice)
    (l : list busDevice) : option (list busDevice) :=
  match l with
  | [] => None
  | d :: l => if f d then Some (g d :: l) else option_map (cons d) (update_first f g l)
  end.

(** PublishRegistration: [None] is an error, [Some b] the boolean result. *)
Definition PublishRegistration (w : world) (snapshot : DeviceMeta) : world * option bool :=
  if negb (snapshot_shape snapshot) then (w, None)
  else if negb (registrationSnapshotDeviceIdentitySafe w snapshot) then (w, None)
  else if closed (vb w) then (w, Some false)
  else match update_first (fun d =>
         bool_decide (Some (bd_lifecycle d) = dm_lifecycle snapshot) &&
         authenticatesRegistrationLocked w snapshot) set_published (devices (vb w)) with
       | Some l => (set_vb w (set_devices (vb w) l), Some true)
       | None => (w, Some false)
       end.

(** ** Operation leases *)

(** The first section of AcquireRegistrationOperation. *)
Definition acquire_check (w : world) (snapshot : DeviceMeta) : bool :=
  snapshot_shape snapshot && bool_decide (is_Some (dm_lifecycle snapshot)) &&
  registrationSnapshotDeviceIdentitySafe w snapshot &&
  negb (closed (vb w)) && authenticatesRegistrationLocked w snapshot.

(** The section after the read fence was taken. *)
Definition acquire_recheck (w : world) (snapshot : DeviceMeta) : bool :=
  negb (closed (vb w)) && authenticatesRegistrationLocked w snapshot.

(** [lifecycle.mu.RLock()] and [RUnlock()] on the object at [a]. *)
Definition rlock (w : world) (a : Z) : world :=
  set_heap w (alter (fun l => set_readers (S (rl_readers l)) l) a (heap w)).
Definition runlock (w : world) (a : Z) : world :=
  set_heap w (alter (fun l => set_readers (pred (rl_readers l)) l) a (heap w)).

(** ** Removal *)

(** What the first section of a removal decides: an error, nothing to do, a
    wait for somebody else's removal, or a removal of its own. *)
Inductive removal :=
| RemovalInvalid
| RemovalAbsent
| RemovalWait (a : Z)
| RemovalMarked (a : Z) (snapshot : DeviceMeta).

(** markRegistrationRemovalLocked on an entry. *)
Definition markRegistrationRemovalLocked (w : world) (d : busDevice) : world * removal :=
  (set_heap w (alter set_removing (bd_lifecycle d) (heap w)),
   RemovalMarked (bd_lifecycle d) (deviceMetaLocked d)).

Definition removing_at (w : world) (d : busDevice) : bool :=
  match heap w !! bd_lifecycle d with Some l => rl_removing l | None => false end.

(** The loop RemoveIfPresent and the removal by address share: the first entry
    selected by [sel] that is being removed or active. *)
Definition remove_selected (w : world) (sel : busDevice -> bool) : world * removal :=
  match first_some (fun d =>
    if negb (sel d) then None
    else if removing_at w d then Some (w, RemovalWait (bd_lifecycle d))
    else if registrationActiveLocked w d then Some (markRegistrationRemovalLocked w d)
    else None) (devices (vb w)) with
  | Some r => r
  | None => (w, RemovalAbsent)
  end.

Definition RemoveDeviceRegistrationByIDSnapshot (w : world) (deviceID : list Z) :
    world * removal :=
  remove_selected w (fun d => bd_published d &&
    bool_decide (sprint_d (DevID (bd_meta d)) = deviceID)).

Definition RemoveIfPresent (w : world) (dev : option Device) : world * removal :=
  if negb (validateDeviceIdentity dev) then (w, RemovalInvalid)
  else remove_selected w (fun d => bool_decide (Some (bd_dev d) = dev)).

Definition RemoveRegistrationIfPresent (w : world) (snapshot : DeviceMeta) : world * removal :=
  match dm_lifecycle snapshot with
  | None => (w, RemovalInvalid)
  | Some a =>
      if negb (bool_decide (dm_Bus snapshot = Some self)) ||
         negb (bool_decide (is_Some (dm_Dev snapshot))) ||
         (dm_RegistrationToken snapshot =? 0) then (w, RemovalInvalid)
      else if negb (registrationSnapshotDeviceIdentitySafe w snapshot) then (w, RemovalInvalid)
      else if negb (registrationIdentityMatchesLocked w snapshot) then (w, RemovalAbsent)
      else match heap w !! a with
      | None => (w, RemovalAbsent)
      | Some l =>
          if rl_removing l || negb (rl_active l) then (w, RemovalWait a)
          else match first_some (fun d =>
            if negb (bool_decide (bd_lifecycle d = a)) ||
               negb (authenticatesRegistrationLocked w snapshot) then None
            else Some (markRegistrationRemovalLocked w d)) (devices (vb w)) with
          | Some r => r
          | None => (w, RemovalAbsent)
          end
      end
  end.

(** finishMarkedRegistrationRemoval, between [lifecycle.mu.Lock()] and the
    close of removalDone. *)
Definition finish_lock (w : world) (a : Z) : world :=
  set_heap w (alter (set_writer true) a (heap w)).

Fixpoint take_device (a : Z) (l : list busDevice) : option (busDevice * list busDevice) :=
  match l with
  | [] => None
  | d :: l => if bd_lifecycle d =? a then Some (d, l)
              else option_map (fun '(x, l) => (x, d :: l)) (take_device a l)
  end.

Definition finish_commit (w : world) (a : Z) : world :=
  match take_device a (devices (vb w)) with
  | None => set_heap w (alter (set_removed false) a (heap w))
  | Some (d, rest) =>
      {| vb := {| vb_busID := vb_busID (vb w);
           nextRegistrationToken := nextRegistrationToken (vb w);
           allocatedDevIDs := allocatedDevIDs (vb w) ∖ {[DevID (bd_meta d)]};
           devices := rest; emptyCtx := emptyCtx (vb w); closed := closed (vb w);
           closeDone := closeDone (vb w) |};
         heap := alter (set_removed true) a (heap w);
         nextRef := nextRef w;
         cancelled := {[bd_ctx d]} ∪ cancelled w;
         allocatedBusIds := allocatedBusIds w |}
  end.

(** ** Empty buses and closing *)

Definition GetBusEmptyContext (w : world) : world * option Z :=
  if closed (vb w) then (w, None)
  else match devices (vb w) with
  | _ :: _ => (w, None)
  | [] =>
      match emptyCtx (vb w) with
      | Some e => (w, Some e)
      | None =>
          ({| vb := {| vb_busID := vb_busID (vb w);
                nextRegistrationToken := nextRegistrationToken (vb w);
                allocatedDevIDs := allocatedDevIDs (vb w); devices := [];
                emptyCtx := Some (nextRef w); closed := false;
                closeDone := closeDone (vb w) |};
              heap := heap w; nextRef := nextRef w + 1; cancelled := cancelled w;
              allocatedBusIds := allocatedBusIds w |}, Some (nextRef w))
      end
  end.

(** Closing [emptyCtx] and raising [closed]. *)
Definition close_admission (v : VirtualBus) : VirtualBus := {|
  vb_busID := vb_busID v; nextRegistrationToken := nextRegistrationToken v;
  allocatedDevIDs := allocatedDevIDs v; devices := devices v; emptyCtx := None;
  closed := true; closeDone := closeDone v |}.

Definition cancel_empty (w : world) : gset Z :=
  match emptyCtx (vb w) with Some e => {[e]} ∪ cancelled w | None => cancelled w end.

Definition mark_closed (v : VirtualBus) (clear_ids : bool) : VirtualBus := {|
  vb_busID := vb_busID v; nextRegistrationToken := nextRegistrationToken v;
  allocatedDevIDs := if clear_ids then ∅ else allocatedDevIDs v; devices := devices v;
  emptyCtx := emptyCtx v; closed := closed v; closeDone := true |}.

(** The tail both closing methods share: free the bus number, close closeDone. *)
Definition close_finish (clear_ids : bool) (w : world) : world :=
  {| vb := mark_closed (vb w) clear_ids; heap := heap w; nextRef := nextRef w;
     cancelled := cancelled w;
     allocatedBusIds := allocatedBusIds w ∖ {[vb_busID (vb w)]} |}.

(** CloseIfEmptyContext up to its unlock; the flag tells whether it closed. *)
Definition CloseIfEmptyContext (w : world) (expected : Z) : world * bool :=
  if closed (vb w) || negb (bool_decide (devices (vb w) = [])) ||
     negb (bool_decide (emptyCtx (vb w) = Some expected)) ||
     bool_decide (expected ∈ cancelled w) then (w, false)
  else ({| vb := close_admission (vb w); heap := heap w; nextRef := nextRef w;
           cancelled := cancel_empty w; allocatedBusIds := allocatedBusIds w |}, true).

(** The marking loop of CloseAndTakeRegistrations: the heap afterwards, the
    incarnations marked here, and those another remover already marked. *)
Fixpoint close_mark (h : gmap Z registrationLifecycle) (l : list busDevice) :
    gmap Z registrationLifecycle * (list Z * list Z) :=
  match l with
  | [] => (h, ([], []))
  | d :: l =>
      match h !! bd_lifecycle d with
      | None => close_mark h l
      | Some lc =>
          if rl_removing lc then
            let '(h, (marked, waiting)) := close_mark h l in
            (h, (marked, bd_lifecycle d :: waiting))
          else
            let '(h, (marked, waiting)) :=
              close_mark (alter set_removing (bd_lifecycle d) h) l in
            (h, (bd_lifecycle d :: marked, waiting))
      end
  end.

(** CloseAndTakeRegistrations up to its first unlock; [None] when the bus was
    closed already. *)
Definition CloseAndTakeRegistrations (w : world) : world * option (list Z * list Z) :=
  if closed (vb w) then (w, None)
  else
    let '(h, r) := close_mark (heap w) (devices (vb w)) in
    ({| vb := close_admission (vb w); heap := h; nextRef := nextRef w;
        cancelled := cancel_empty w; allocatedBusIds := allocatedBusIds w |}, Some r).
End Bus.

(** ** The concurrent system

    Goroutines that are between two critical sections: those whose first
    acquire check passed, those holding a read fence not yet rechecked, the
    operation leases handed out, the removers that have marked an incarnation,
    those holding its write fence, and the closer with the incarnations it
    waits for (and whether it clears the address table). *)
Record sys := {
  wd : world;
  checked : list (Z * DeviceMeta);
  fenced : list (Z * DeviceMeta);
  leases : list Z;
  marked : list Z;
  locked : list Z;
  closing : option (list Z * bool);
}.

Definition on_world (s : sys) (w : world) : sys := {|
  wd := w; checked := checked s; fenced := fenced s; leases := leases s;
  marked := marked s; locked := locked s; closing := closing s |}.

Section System.
Context (self : Z).

(** A removal request of any of the three public forms. *)
Inductive removes (w w' : world) (r : removal) : Prop :=
| removes_id id : RemoveDeviceRegistrationByIDSnapshot self w id = (w', r) -> removes w w' r
| removes_dev dev : RemoveIfPresent self w dev = (w', r) -> removes w w' r
| removes_exact snapshot :
    RemoveRegistrationIfPresent self w snapshot = (w', r) -> removes w w' r.

Inductive step (s : sys) : sys -> Prop :=
| step_add dev published max alias w' r :
    alias = [] \/ ValidProductionXboxOneBusID alias = true -> 0 <= max < 4294967296 ->
    addRegistration self (wd s) dev published max alias = (w', r) ->
    step s (on_world s w')
| step_publish snapshot w' r :
    PublishRegistration self (wd s) snapshot = (w', r) -> step s (on_world s w')
| step_check snapshot a :
    acquire_check self (wd s) snapshot = true -> dm_lifecycle snapshot = Some a ->
    step s {| wd := wd s; checked := (a, snapshot) :: checked s; fenced := fenced s;
              leases := leases s; marked := marked s; locked := locked s;
              closing := closing s |}
| step_fence l1 l2 a snapshot l :
    checked s = l1 ++ (a, snapshot) :: l2 -> heap (wd s) !! a = Some l ->
    rl_writer l = false ->
    step s {| wd := rlock (wd s) a; checked := l1 ++ l2;
              fenced := (a, snapshot) :: fenced s; leases := leases s;
              marked := marked s; locked := locked s; closing := closing s |}
| step_granted l1 l2 a snapshot :
    fenced s = l1 ++ (a, snapshot) :: l2 -> dm_lifecycle snapshot = Some a ->
    acquire_recheck self (wd s) snapshot = true ->
    step s {| wd := wd s; checked := checked s; fenced := l1 ++ l2; leases := a :: leases s;
              marked := marked s; locked := locked s; closing := closing s |}
| step_refused l1 l2 a snapshot :
    fenced s = l1 ++ (a, snapshot) :: l2 -> acquire_recheck self (wd s) snapshot = false ->
    step s {| wd := runlock (wd s) a; checked := checked s; fenced := l1 ++ l2;
              leases := leases s; marked := marked s; locked := locked s;
              closing := closing s |}
| step_release l1 l2 a :
    leases s = l1 ++ a :: l2 ->
    step s {| wd := runlock (wd s) a; checked := checked s; fenced := fenced s;
              leases := l1 ++ l2; marked := marked s; locked := locked s;
              closing := closing s |}
| step_mark w' a snapshot :
    removes (wd s) w' (RemovalMarked a snapshot) ->
    step s {| wd := w'; checked := checked s; fenced := fenced s; leases := leases s;
              marked := a :: marked s; locked := locked s; closing := closing s |}
| step_lock l1 l2 a l :
    marked s = l1 ++ a :: l2 -> heap (wd s) !! a = Some l ->
    rl_readers l = 0%nat -> rl_writer l = false ->
    step s {| wd := finish_lock (wd s) a; checked := checked s; fenced := fenced s;
              leases := leases s; marked := l1 ++ l2; locked := a :: locked s;
              closing := closing s |}
| step_commit l1 l2 a :
    locked s = l1 ++ a :: l2 ->
    step s {| wd := finish_commit (wd s) a; checked := checked s; fenced := fenced s;
              leases := leases s; marked := marked s; locked := l1 ++ l2;
              closing := closing s |}
| step_empty w' r : GetBusEmptyContext (wd s) = (w', r) -> step s (on_world s w')
| step_close_empty e w' :
    CloseIfEmptyContext (wd s) e = (w', true) ->
    step s {| wd := w'; checked := checked s; fenced := fenced s; leases := leases s;
              marked := marked s; locked := locked s; closing := Some ([], false) |}
| step_close w' mk wt :
    CloseAndTakeRegistrations (wd s) = (w', Some (mk, wt)) ->
    step s {| wd := w'; checked := checked s; fenced := fenced s; leases := leases s;
              marked := mk ++ marked s; locked := locked s;
              closing := Some (mk ++ wt, true) |}
| step_close_finish awaited clear_ids :
    closing s = Some (awaited, clear_ids) ->
    Forall (fun a => exists l, heap (wd s) !! a = Some l /\ rl_done l = true) awaited ->
    step s {| wd := close_finish clear_ids (wd s); checked := checked s; fenced := fenced s;
              leases := leases s; marked := marked s; locked := locked s; closing := None |}.

(** A bus as New leaves it; object addresses start at one. *)
Definition initial (busID : Z) (global : gset Z) : sys := {|
  wd := {| vb := empty_bus busID; heap := ∅; nextRef := 1; cancelled := ∅;
           allocatedBusIds := global |};
  checked := []; fenced := []; leases := []; marked := []; locked := []; closing := None |}.

Inductive reachable (busID : Z) (global : gset Z) : sys -> Prop :=
| reachable_init : reachable busID global (initial busID global)
| reachable_step s s' : reachable busID global s -> step s s' -> reachable busID global s'.

(** ** The invariant *)

Abbreviation devs w := (devices (vb w)).

(** What never changes about a lifecycle object, and its liveness. *)
Definition core (l : registrationLifecycle) : Z * Device * ExportMeta * Z * Z * bool * bool :=
  (rl_bus l, rl_dev l, rl_meta l, rl_ctx l, rl_token l, rl_active l, rl_done l).

Definition named (busID : Z) (m : ExportMeta) : Prop :=
  BusID m = busID /\ 1 <= DevID m < 4294967296 /\
  exists v, USBBusID m = fixed_array 32 v /\
    (ValidProductionXboxOneBusID v = true \/ v = numeric_busid busID (DevID m)).

Record topo (w : world) (cl : option (list Z * bool)) : Prop := {
  t_entry : forall d, d ∈ devs w ->
    core <$> heap w !! bd_lifecycle d =
    Some (self, bd_dev d, bd_meta d, bd_ctx d, bd_registrationToken d, true, false);
  t_live : forall a l, heap w !! a = Some l -> rl_active l = true ->
    a ∈ (bd_lifecycle <$> devs w);
  t_fresh : forall a l, heap w !! a = Some l -> 0 < a < nextRef w;
  t_ctx : forall d, d ∈ devs w -> bd_ctx d = bd_lifecycle d - 1 /\ bd_ctx d ∉ cancelled w;
  t_cancel : forall c, c ∈ cancelled w -> c < nextRef w;
  t_lc : NoDup (bd_lifecycle <$> devs w);
  t_dev : NoDup (bd_dev <$> devs w);
  t_id : NoDup ((fun d => DevID (bd_meta d)) <$> devs w);
  t_alloc : allocatedDevIDs (vb w) = list_to_set ((fun d => DevID (bd_meta d)) <$> devs w);
  t_named : forall d, d ∈ devs w -> named (vb_busID (vb w)) (bd_meta d);
  t_names : NoDup ((fun d => USBBusID (bd_meta d)) <$> devs w);
  t_token : forall d, d ∈ devs w ->
    0 < bd_registrationToken d <= nextRegistrationToken (vb w);
  t_tokens : NoDup (bd_registrationToken <$> devs w);
  t_tokmax : 0 <= nextRegistrationToken (vb w) < 18446744073709551616;
  t_bus : U32 (vb_busID (vb w));
  t_empty : forall e, emptyCtx (vb w) = Some e -> devs w = [] /\ e < nextRef w;
  t_closed : closed (vb w) = true -> emptyCtx (vb w) = None /\
    match cl with
    | Some (awaited, _) => forall d, d ∈ devs w -> bd_lifecycle d ∈ awaited
    | None => devs w = []
    end;
  t_open : closed (vb w) = false -> cl = None;
  t_ref : 0 < nextRef w;
}.

Record fences (s : sys) : Prop := {
  f_heap : forall a l, heap (wd s) !! a = Some l ->
    (rl_writer l = true <-> a ∈ locked s) /\
    rl_readers l = count_occ Z.eq_dec ((fenced s).*1 ++ leases s) a /\
    (rl_writer l = true -> rl_readers l = 0%nat);
  f_marked : forall a, a ∈ marked s ++ locked s ->
    a ∈ (bd_lifecycle <$> devs (wd s)) /\
    exists l, heap (wd s) !! a = Some l /\ rl_removing l = true;
  f_once : NoDup (marked s ++ locked s);
  f_lease : forall a, a ∈ leases s -> a ∈ (bd_lifecycle <$> devs (wd s));
  f_fenced : forall a sn, (a, sn) ∈ fenced s -> is_Some (heap (wd s) !! a);
}.

(** ** Allocation lemmas *)

Lemma prefix_size (alloc : gset Z) n :
  0 <= n -> (forall j, 1 <= j <= n -> j ∈ alloc) -> (Z.to_nat n <= size alloc)%nat.
Proof.
  intros Hn H. rewrite <- (length_seqZ 1 n).
  rewrite <- (size_list_to_set (C := gset Z) (seqZ 1 n)) by apply NoDup_seqZ.
  apply subseteq_size. intros j. rewrite elem_of_list_to_set, elem_of_seqZ.
  intros Hj. apply H. lia.
Qed.

Lemma next_device_id_spec fuel (alloc : gset Z) max id :
  0 <= max < 4294967296 -> 1 <= id <= max ->
  (forall j, 1 <= j < id -> j ∈ alloc) -> (S (size alloc) <= fuel + Z.to_nat (id - 1))%nat ->
  match next_device_id fuel alloc max id with
  | Some n => 1 <= n <= max /\ (n ∉ alloc) /\ forall j, 1 <= j < n -> j ∈ alloc
  | None => forall j, 1 <= j <= max -> j ∈ alloc
  end.
Proof.
  intros Hmax. revert id. induction fuel as [|fuel IH]; intros id Hid Hpre Hfuel; simpl.
  { pose proof (prefix_size alloc (id - 1) ltac:(lia) ltac:(intros; apply Hpre; lia)). lia. }
  case_bool_decide as Hin; simpl; [|auto].
  destruct (Z.eqb_spec id max) as [->|Hne].
  - intros j Hj. destruct (decide (j = max)); [by subst|]. apply Hpre. lia.
  - rewrite u32_id by lia. apply IH; [lia| |lia].
    intros j Hj. destruct (decide (j = id)); [by subst|]. apply Hpre. lia.
Qed.

Lemma nextAvailable_spec w max :
  0 < max < 4294967296 ->
  match nextAvailableDeviceIDLocked w max with
  | Some n => 1 <= n <= max /\ (n ∉ allocatedDevIDs (vb w)) /\
              forall j, 1 <= j < n -> j ∈ allocatedDevIDs (vb w)
  | None => forall j, 1 <= j <= max -> j ∈ allocatedDevIDs (vb w)
  end.
Proof. intros. apply next_device_id_spec; lia. Qed.

(** ** Heap lemmas *)

Lemma core_alter (f : registrationLifecycle -> registrationLifecycle) (a b : Z)
    (h : gmap Z registrationLifecycle) :
  (forall l, core (f l) = core l) -> core <$> alter f a h !! b = core <$> h !! b.
Proof.
  intros Hf. destruct (decide (a = b)) as [->|Hne].
  - rewrite lookup_alter_eq. destruct (h !! b); simpl; [by rewrite Hf|done].
  - by rewrite lookup_alter_ne.
Qed.

Lemma core_Some w a l x :
  heap w !! a = Some l -> core <$> heap w !! a = Some x -> core l = x.
Proof. intros ->. by intros [= ->]. Qed.

Lemma topo_set_heap w cl (h : gmap Z registrationLifecycle) :
  (forall b, core <$> h !! b = core <$> heap w !! b) -> topo w cl -> topo (set_heap w h) cl.
Proof.
  intros Hc Ht. assert (Hback : forall a l, h !! a = Some l -> exists l', heap w !! a = Some l' /\
    core l' = core l).
  { intros a l Ha. specialize (Hc a). rewrite Ha in Hc. simpl in Hc.
    destruct (heap w !! a) as [l'|]; [|done]. exists l'. split; [done|]. simpl in Hc. congruence. }
  destruct Ht; split; simpl; try done.
  - intros d Hd. rewrite Hc. auto.
  - intros a l Ha Hact. destruct (Hback a l Ha) as (l' & Hl' & Hcore).
    apply (t_live0 a l' Hl'). unfold core in Hcore. congruence.
  - intros a l Ha. destruct (Hback a l Ha) as (l' & Hl' & _). by eapply t_fresh0.
Qed.

Lemma lifecycles_elem w a :
  a ∈ (bd_lifecycle <$> devs w) <-> exists d, d ∈ devs w /\ bd_lifecycle d = a.
Proof. rewrite list_elem_of_fmap. naive_solver. Qed.

Lemma topo_lookup w cl a :
  topo w cl -> a ∈ (bd_lifecycle <$> devs w) ->
  exists d l, d ∈ devs w /\ bd_lifecycle d = a /\ heap w !! a = Some l /\
    core l = (self, bd_dev d, bd_meta d, bd_ctx d, bd_registrationToken d, true, false).
Proof.
  intros Ht (d & Hd & Ha)%lifecycles_elem. pose proof (t_entry _ _ Ht d Hd) as He.
  rewrite Ha in He. destruct (heap w !! a) as [l|] eqn:El; [|done].
  exists d, l. split_and!; try done. simpl in He. congruence.
Qed.

(** ** Authentication *)

Lemma authenticates_spec w sn :
  authenticatesRegistrationLocked self w sn = true ->
  exists a l, dm_lifecycle sn = Some a /\ heap w !! a = Some l /\
    rl_active l = true /\ rl_removing l = false /\
    rl_bus l = self /\ dm_Dev sn = Some (rl_dev l) /\ dm_Meta sn = rl_meta l /\
    dm_Context sn = Some (rl_ctx l) /\ dm_RegistrationToken sn = rl_token l.
Proof.
  unfold authenticatesRegistrationLocked, registrationIdentityMatchesLocked.
  destruct (dm_lifecycle sn) as [a|]; simpl; [|done].
  destruct (heap w !! a) as [l|] eqn:El; [|done]. intros H. bool_prop.
  bdec. exists a, l. split_and!; done.
Qed.

(** A snapshot authenticates only as the exact entry it was minted for. *)
Lemma authenticates_entry w cl sn :
  topo w cl -> dm_Bus sn = Some self -> authenticatesRegistrationLocked self w sn = true ->
  exists d, d ∈ devs w /\ sn = deviceMetaLocked self d /\ removing_at w d = false.
Proof.
  intros Ht Hb (a & l & Ha & Hl & Hact & Hrem & Hbus & Hdev & Hmeta & Hctx & Htok)%authenticates_spec.
  pose proof (t_live _ _ Ht a l Hl Hact) as Hin.
  destruct (topo_lookup _ _ _ Ht Hin) as (d & l' & Hd & Hda & Hl' & Hcore).
  rewrite Hl in Hl'. injection Hl' as <-. unfold core in Hcore. simplify_eq.
  exists d. split_and!; [done| |].
  - destruct sn; unfold deviceMetaLocked; simpl in *; subst. congruence.
  - unfold removing_at. by rewrite Hl.
Qed.

(** ** Names *)

Lemma named_export b m :
  U32 b -> named b m ->
  exists v, ExportBusID m = Ok v /\ USBBusID m = fixed_array 32 v /\ v <> [] /\
    (length v < 32)%nat /\ Forall (fun c => c <> 0) v /\
    (ValidProductionXboxOneBusID v = true \/ v = numeric_busid b (DevID m)).
Proof.
  intros Hb (HB & Hid & v & HU & Hv). exists v.
  assert (Hshape : v <> [] /\ (length v < 32)%nat /\ Forall (fun c => c <> 0) v).
  { destruct Hv as [Hv|Hv].
    - apply valid_alias_shape in Hv as (Hl & _ & Hnz). split_and!; [|lia|done].
      intros ->. done.
    - subst v. pose proof (numeric_busid_length b (DevID m) Hb ltac:(lia)).
      split_and!; [apply numeric_busid_nonempty|lia|apply numeric_busid_nonzero; lia]. }
  destruct Hshape as (H1 & H2 & H3). split_and!; try done.
  apply ExportBusID_stored; try done. by rewrite HB.
Qed.

(** Different names are stored as different arrays. *)
Lemma named_field_inj b m1 m2 :
  U32 b -> named b m1 -> named b m2 -> USBBusID m1 = USBBusID m2 ->
  ExportBusID m1 = ExportBusID m2.
Proof.
  intros Hb (v1 & E1 & U1 & _ & L1 & Z1 & _)%named_export (v2 & E2 & U2 & _ & L2 & Z2 & _)%named_export;
    [|done..].
  intros E. rewrite U1, U2 in E. apply fixed_array_inj in E; [|done..]. congruence.
Qed.

(** ** Adding *)

Definition new_meta (w : world) (id : Z) (alias : list Z) : ExportMeta :=
  let busID := vb_busID (vb w) in
  let name := if bool_decide (alias = []) then numeric_busid busID id else alias in
  {| Path := fixed_array 256 (basepath ++ sprint_d busID ++ bytes_of_string "/" ++ name);
     USBBusID := fixed_array 32 name; BusID := busID; DevID := id |}.

Definition new_entry (w : world) (dv : Device) (published : bool) (id : Z) (alias : list Z) :
    busDevice :=
  {| bd_dev := dv; bd_meta := new_meta w id alias; bd_ctx := nextRef w;
     bd_registrationToken := nextRegistrationToken (vb w) + 1;
     bd_lifecycle := nextRef w + 1; bd_published := published |}.

(** What a successful Add has checked and changed. *)
Record added (w w' : world) (dv : Device) (published : bool) (max : Z) (alias : list Z)
    (id : Z) : Prop := {
  a_valid : validateDeviceIdentity (Some dv) = true;
  a_open : closed (vb w) = false;
  a_token : nextRegistrationToken (vb w) <> 18446744073709551615;
  a_max : 1 <= id <= max;
  a_free : id ∉ allocatedDevIDs (vb w);
  a_least : forall j, 1 <= j < id -> j ∈ allocatedDevIDs (vb w);
  a_dup : forall d, d ∈ devs w -> bd_dev d <> dv;
  a_alias : forall d, d ∈ devs w -> alias <> [] -> ExportBusID (bd_meta d) <> Ok alias;
  a_devs : devs w' = devs w ++ [new_entry w dv published id alias];
  a_alloc : allocatedDevIDs (vb w') = {[id]} ∪ allocatedDevIDs (vb w);
  a_heap : heap w' = <[nextRef w + 1 := {| rl_bus := self; rl_dev := dv;
    rl_meta := new_meta w id alias; rl_ctx := nextRef w;
    rl_token := nextRegistrationToken (vb w) + 1; rl_active := true; rl_removing := false;
    rl_done := false; rl_readers := 0; rl_writer := false |}]> (heap w);
  a_rest : vb_busID (vb w') = vb_busID (vb w) /\
    nextRegistrationToken (vb w') = nextRegistrationToken (vb w) + 1 /\
    emptyCtx (vb w') = None /\ closed (vb w') = false /\ nextRef w' = nextRef w + 2 /\
    cancelled w' = cancel_empty w;
}.

(** Why an Add was refused. *)
Definition add_reason (w : world) (dev : option Device) (max : Z) (alias : list Z)
    (e : add_error) : Prop :=
  match e with
  | ErrIdentity => validateDeviceIdentity dev = false
  | ErrRangeEmpty => max = 0
  | ErrClosed => closed (vb w) = true
  | ErrTokenExhausted => nextRegistrationToken (vb w) = 18446744073709551615
  | ErrDuplicateDevice => exists d, d ∈ devs w /\ dev = Some (bd_dev d)
  | ErrDuplicateAlias => exists d, d ∈ devs w /\ ExportBusID (bd_meta d) = Ok alias
  | ErrNoAddress => forall j, 1 <= j <= max -> j ∈ allocatedDevIDs (vb w)
  | ErrInvalidAlias => False
  end.

Lemma add_cases w dev published max alias w' r :
  0 <= max < 4294967296 -> addRegistration self w dev published max alias = (w', r) ->
  (exists e, r = Err e /\ w' = w /\ add_reason w dev max alias e) \/
  (exists dv id, dev = Some dv /\ added w w' dv published max alias id /\
     r = Ok (deviceMetaLocked self (new_entry w dv published id alias))).
Proof.
  intros Hmax. unfold addRegistration. destruct dev as [dv|]; [|intros [= <- <-]; left; by eexists].
  destruct (validateDeviceIdentity (Some dv)) eqn:Hv; cbn [negb]; [|intros [= <- <-]; left; by eexists].
  destruct (Z.eqb_spec max 0); [intros [= <- <-]; left; by eexists|].
  destruct (closed (vb w)) eqn:Hc; [intros [= <- <-]; left; by eexists|].
  destruct (Z.eqb_spec (nextRegistrationToken (vb w)) 18446744073709551615) as [|Ht];
    [intros [= <- <-]; left; by eexists|]. cbv zeta.
  destruct (first_some _ (devs w)) eqn:Hf.
  { intros [= <- <-]. left. eexists. split_and!; [done..|].
    apply first_some_Some in Hf as (l1 & d & l2 & Hl & Hd & _).
    assert (d ∈ devs w) by (rewrite Hl, elem_of_app, elem_of_cons; tauto).
    case_bool_decide; [simplify_eq; simpl; eauto|].
    case_if_in Hd; [|done]. bool_prop. bdec. simplify_eq. simpl. eauto. }
  pose proof (nextAvailable_spec w max ltac:(lia)) as Hn.
  destruct (nextAvailableDeviceIDLocked w max) as [id|]; [|intros [= <- <-]; left; by eexists].
  destruct Hn as (Hid & Hfree & Hleast). intros [= <- <-]. right. exists dv, id.
  split_and!; [done| |done].
  apply first_some_None in Hf. rewrite Forall_forall in Hf.
  assert (Hf' : forall d, d ∈ devs w -> bd_dev d <> dv /\
    (alias <> [] -> ExportBusID (bd_meta d) <> Ok alias)).
  { intros d Hd. apply list_elem_of_In in Hd. specialize (Hf d Hd). simpl in Hf.
    case_bool_decide; [done|]. split; [done|]. intros Hne.
    rewrite (bool_decide_false (alias = [])) in Hf by done. simpl in Hf.
    by case_bool_decide. }
  split; simpl; try done; intros d Hd; by apply Hf'.
Qed.

Lemma new_meta_named w id alias :
  U32 (vb_busID (vb w)) -> 1 <= id < 4294967296 ->
  alias = [] \/ ValidProductionXboxOneBusID alias = true ->
  named (vb_busID (vb w)) (new_meta w id alias) /\
  ExportBusID (new_meta w id alias) =
    Ok (if bool_decide (alias = []) then numeric_busid (vb_busID (vb w)) id else alias).
Proof.
  intros Hb Hid Hal. set (nm := if bool_decide (alias = []) then _ else _).
  assert (Hn : named (vb_busID (vb w)) (new_meta w id alias)).
  { split_and!; simpl; try done; try lia. exists nm. split; [done|]. subst nm.
    case_bool_decide; [by right|]. destruct Hal; [done|by left]. }
  split; [done|]. destruct (named_export _ _ Hb Hn) as (v & E & HU & _ & Hl & Hz & _).
  rewrite E. f_equal. simpl in HU. fold nm in HU. symmetry.
  eapply (fixed_array_inj 32); try done.
  - subst nm. case_bool_decide; [apply numeric_busid_nonzero; lia|].
    destruct Hal as [|Hal]; [done|]. by apply valid_alias_shape in Hal as (_ & _ & ?).
  - subst nm. case_bool_decide.
    + pose proof (numeric_busid_length (vb_busID (vb w)) id Hb ltac:(lia)). lia.
    + destruct Hal as [|Hal]; [done|]. apply valid_alias_shape in Hal as (? & _ & _). lia.
Qed.

(** The new name differs from every registered one. *)
Lemma new_name_fresh w cl dv published max alias id w' d :
  topo w cl -> added w w' dv published max alias id -> max < 4294967296 ->
  alias = [] \/ ValidProductionXboxOneBusID alias = true -> d ∈ devs w ->
  USBBusID (bd_meta d) <> USBBusID (new_meta w id alias).
Proof.
  intros Ht Ha Hmax Hal Hd E. pose proof (t_bus _ _ Ht) as Hb.
  pose proof (t_named _ _ Ht d Hd) as Hnd. pose proof (a_max _ _ _ _ _ _ _ Ha) as Hid.
  destruct (new_meta_named w id alias Hb ltac:(lia) Hal) as [Hn Hexp].
  apply (named_field_inj _ _ _ Hb Hnd Hn) in E. rewrite Hexp in E.
  destruct (named_export _ _ Hb Hnd) as (v & Ev & _ & _ & _ & _ & Hv). rewrite Ev in E.
  injection E as ->. case_bool_decide as Hal0.
  - destruct Hv as [Hv|Hv].
    + by rewrite numeric_not_alias in Hv by lia.
    + destruct Hnd as (_ & Hdid & _). apply numeric_busid_inj in Hv as [_ Eid]; try lia.
      apply (a_free _ _ _ _ _ _ _ Ha). rewrite (t_alloc _ _ Ht), elem_of_list_to_set.
      apply list_elem_of_fmap. eauto.
  - by apply (a_alias _ _ _ _ _ _ _ Ha d Hd Hal0).
Qed.

Lemma NoDup_fmap_snoc {A B} (f : A -> B) l x :
  NoDup (f <$> l) -> (forall y, y ∈ l -> f y <> f x) -> NoDup (f <$> (l ++ [x])).
Proof.
  intros Hl Hx. rewrite fmap_app. simpl. apply list.NoDup_app. split_and!; [done| |].
  - intros b (y & Hb & Hy)%list_elem_of_fmap Hb'%list_elem_of_singleton.
    apply (Hx y Hy). congruence.
  - apply NoDup_singleton.
Qed.

Lemma topo_add w cl dv published max alias id w' :
  topo w cl -> added w w' dv published max alias id -> max < 4294967296 ->
  alias = [] \/ ValidProductionXboxOneBusID alias = true -> topo w' cl.
Proof.
  intros Ht Ha Hmax Hal. pose proof (new_name_fresh w cl dv published max alias id w') as Hfresh.
  pose proof Ht as []. pose proof Ha as [].
  destruct a_rest0 as (Eb & Et & Ee & Ec & Er & Ek).
  assert (Hlt : forall d, d ∈ devs w -> 0 < bd_lifecycle d < nextRef w).
  { intros d Hd. specialize (t_entry0 d Hd).
    destruct (heap w !! bd_lifecycle d) as [l|] eqn:El; [|done]. by eapply t_fresh0. }
  assert (Hsplit : forall d, d ∈ devs w' <->
    d ∈ devs w \/ d = new_entry w dv published id alias).
  { intros d. by rewrite a_devs0, elem_of_app, list_elem_of_singleton. }
  assert (Hcan : forall c, c ∈ cancelled w' -> c < nextRef w).
  { intros c. rewrite Ek. unfold cancel_empty. destruct (emptyCtx (vb w)) as [e|]; [|auto].
    rewrite elem_of_union, elem_of_singleton. intros [->|]; [|auto]. by apply t_empty0. }
  split; rewrite ?Eb, ?Et, ?Ee, ?Ec, ?Er; try done; try lia.
  - intros d [Hd| ->]%Hsplit; rewrite a_heap0.
    + rewrite lookup_insert_ne by (specialize (Hlt d Hd); lia). auto.
    + by rewrite lookup_insert_eq.
  - intros a l. rewrite a_heap0, a_devs0, fmap_app, elem_of_app, lookup_insert_Some.
    intros [[<- _]|[_ Hl]] Hact; [right; simpl; by left|]. left. by eapply t_live0.
  - intros a l. rewrite a_heap0, lookup_insert_Some.
    intros [[<- _]|[_ Hl%t_fresh0]]; lia.
  - intros d [Hd| ->]%Hsplit.
    + destruct (t_ctx0 d Hd) as [E Hn]. split; [done|]. rewrite Ek. unfold cancel_empty.
      destruct (emptyCtx (vb w)) as [e|] eqn:Ee0; [|done].
      destruct (t_empty0 e eq_refl) as [E0 _]. rewrite E0 in Hd. by apply not_elem_of_nil in Hd.
    + split; [simpl; lia|]. intros Hc%Hcan. simpl in Hc. lia.
  - intros c Hc%Hcan. lia.
  - rewrite a_devs0. apply NoDup_fmap_snoc; [done|]. intros d Hd E. simpl in E.
    specialize (Hlt d Hd). lia.
  - rewrite a_devs0. apply NoDup_fmap_snoc; [done|]. intros d Hd. by apply a_dup0.
  - rewrite a_devs0. apply NoDup_fmap_snoc; [done|]. intros d Hd E. simpl in E.
    apply a_free0. rewrite t_alloc0, elem_of_list_to_set, <- E. apply list_elem_of_fmap. eauto.
  - rewrite a_alloc0, a_devs0, fmap_app, list_to_set_app_L, t_alloc0. simpl. set_solver.
  - intros d [Hd| ->]%Hsplit; [auto|]. by apply new_meta_named; [|lia|].
  - rewrite a_devs0. apply NoDup_fmap_snoc; [done|]. intros d Hd. by apply Hfresh.
  - intros d [Hd| ->]%Hsplit; [specialize (t_token0 d Hd); lia|simpl; lia].
  - rewrite a_devs0. apply NoDup_fmap_snoc; [done|]. intros d Hd E. simpl in E.
    specialize (t_token0 d Hd). lia.
  - intros _. by apply t_open0.
Qed.

(** ** Publishing and removing *)

Lemma update_first_spec f g l l' :
  update_first f g l = Some l' ->
  exists l1 d l2, l = l1 ++ d :: l2 /\ l' = l1 ++ g d :: l2 /\ f d = true.
Proof.
  revert l'. induction l as [|x l IH]; intros l' H; simpl in H; [done|].
  destruct (f x) eqn:Hx; [injection H as <-; by exists [], x, l|].
  destruct (update_first f g l) as [l0|] eqn:E; [|done]. injection H as <-.
  destruct (IH l0 eq_refl) as (l1 & d & l2 & -> & -> & Hd). by exists (x :: l1), d, l2.
Qed.

Lemma take_device_spec a l :
  match take_device a l with
  | Some (d, rest) => exists l1 l2, l = l1 ++ d :: l2 /\ rest = l1 ++ l2 /\ bd_lifecycle d = a
  | None => a ∉ (bd_lifecycle <$> l)
  end.
Proof.
  induction l as [|x l IH]; simpl; [apply not_elem_of_nil|].
  destruct (Z.eqb_spec (bd_lifecycle x) a) as [E|E]; [by exists [], l|].
  destruct (take_device a l) as [[d rest]|]; simpl.
  - destruct IH as (l1 & l2 & -> & -> & Hd). by exists (x :: l1), l2.
  - rewrite not_elem_of_cons. auto.
Qed.

Lemma topo_publish w cl l :
  set_published <$> l = set_published <$> devs w -> topo w cl ->
  topo (set_vb w (set_devices (vb w) l)) cl.
Proof.
  intros Hl Ht.
  assert (Hin : forall d, d ∈ l -> exists d0, d0 ∈ devs w /\ set_published d0 = set_published d).
  { intros d Hd. assert (H : set_published d ∈ (set_published <$> l))
      by (apply list_elem_of_fmap; eauto).
    rewrite Hl in H. apply list_elem_of_fmap in H as (d0 & E & H0). eauto. }
  assert (Hproj : forall (B : Type) (f : busDevice -> B),
    (forall d, f (set_published d) = f d) -> f <$> l = f <$> devs w).
  { intros B f Hf. assert (Hk : forall k : list busDevice, f <$> (set_published <$> k) = f <$> k).
    { induction k as [|x k IH]; [done|]. rewrite !fmap_cons. by rewrite Hf, IH. }
    by rewrite <- (Hk l), Hl, Hk. }
  assert (Hnil : devs w = [] -> l = []).
  { intros E. rewrite E in Hl. by apply fmap_nil_inv in Hl. }
  assert (Hall : forall P : busDevice -> Prop, (forall d, P (set_published d) <-> P d) ->
    (forall d, d ∈ devs w -> P d) -> forall d, d ∈ l -> P d).
  { intros P HP Hd d (d0 & H0 & E)%Hin. apply HP. rewrite <- E. apply HP. auto. }
  destruct Ht; split; simpl; try done.
  - by apply Hall.
  - intros a lc. rewrite Hproj by done. eauto.
  - by apply Hall.
  - by rewrite Hproj.
  - by rewrite Hproj.
  - by rewrite (Hproj _ (fun d => DevID (bd_meta d))).
  - by rewrite (Hproj _ (fun d => DevID (bd_meta d))).
  - by apply Hall.
  - by rewrite (Hproj _ (fun d => USBBusID (bd_meta d))).
  - by apply Hall.
  - by rewrite Hproj.
  - intros e He. destruct (t_empty0 e He) as [? ?]. auto.
  - intros Hc. destruct (t_closed0 Hc) as [? Hcl]. split; [done|].
    destruct cl as [[aw b]|]; [|auto]. by apply Hall.
Qed.

Lemma topo_commit w cl a :
  topo w cl -> a ∈ (bd_lifecycle <$> devs w) -> topo (finish_commit w a) cl.
Proof.
  intros Ht Ha. unfold finish_commit. pose proof (take_device_spec a (devs w)) as Htd.
  destruct (take_device a (devs w)) as [[d rest]|]; [|done].
  destruct Htd as (l1 & l2 & Hl & -> & Hda).
  assert (Hsub : forall x, x ∈ l1 ++ l2 -> x ∈ devs w /\ bd_lifecycle x <> a).
  { intros x Hx. split.
    - rewrite Hl. rewrite elem_of_app, elem_of_cons. apply elem_of_app in Hx. tauto.
    - intros E. pose proof (t_lc _ _ Ht) as Hnd. rewrite Hl, fmap_app, fmap_cons in Hnd.
      rewrite <- (Permutation_middle (bd_lifecycle <$> l1)), <- fmap_app in Hnd.
      apply list.NoDup_cons in Hnd as [Hnd _]. apply Hnd. rewrite Hda, <- E.
      apply list_elem_of_fmap. eauto. }
  assert (Hnod : forall (B : Type) (f : busDevice -> B),
    NoDup (f <$> devs w) -> NoDup (f <$> (l1 ++ l2)) /\ f d ∉ (f <$> (l1 ++ l2))).
  { intros B f Hnd. rewrite Hl, fmap_app, fmap_cons in Hnd.
    rewrite <- (Permutation_middle (f <$> l1)), <- fmap_app in Hnd.
    apply list.NoDup_cons in Hnd as [? ?]. done. }
  assert (Hd : d ∈ devs w) by (rewrite Hl, elem_of_app, elem_of_cons; tauto).
  destruct Ht; split; simpl; try done.
  - intros x Hx. destruct (Hsub x Hx) as [Hin Hne]. rewrite lookup_alter_ne by done. auto.
  - intros b l. rewrite lookup_alter_Some. intros [(-> & l0 & Hl0 & ->)|[Hne Hb]] Hact.
    + simpl in Hact. by rewrite andb_false_r in Hact.
    + pose proof (t_live0 b l Hb Hact) as Hin. rewrite Hl in Hin.
      rewrite fmap_app, fmap_cons, elem_of_app, elem_of_cons in Hin.
      rewrite fmap_app, elem_of_app. destruct Hin as [?|[E|?]]; [tauto|congruence|tauto].
  - intros b l. rewrite lookup_alter_Some. intros [(-> & l0 & Hl0 & ->)|[Hne Hb]]; eauto.
  - intros x Hx. destruct (Hsub x Hx) as [Hin Hne]. destruct (t_ctx0 x Hin) as [E Hn].
    destruct (t_ctx0 d Hd) as [Ed _]. split; [done|].
    rewrite elem_of_union, elem_of_singleton. intros [Ec|]; [lia|done].
  - intros c. rewrite elem_of_union, elem_of_singleton. intros [->|]; [|auto].
    destruct (t_ctx0 d Hd) as [-> _]. specialize (t_entry0 d Hd).
    destruct (heap w !! bd_lifecycle d) as [l|] eqn:El; [|done].
    specialize (t_fresh0 _ _ El). lia.
  - by apply Hnod.
  - by apply Hnod.
  - by apply (Hnod _ (fun d => DevID (bd_meta d))).
  - destruct (Hnod _ (fun d => DevID (bd_meta d)) t_id0) as [_ Hni].
    rewrite t_alloc0, Hl, !fmap_app, fmap_cons, !list_to_set_app_L, list_to_set_cons.
    rewrite fmap_app, elem_of_app in Hni. apply set_eq. intros x.
    rewrite !elem_of_difference, !elem_of_union, !elem_of_singleton, !elem_of_list_to_set.
    destruct (decide (x = DevID (bd_meta d))) as [->|]; tauto.
  - intros x [Hx _]%Hsub. auto.
  - by apply (Hnod _ (fun d => USBBusID (bd_meta d))).
  - intros x [Hx _]%Hsub. auto.
  - by apply Hnod.
  - intros e He. destruct (t_empty0 e He) as [E _]. rewrite E in Hd.
    by apply not_elem_of_nil in Hd.
  - intros Hc. destruct (t_closed0 Hc) as [? Hcl]. split; [done|].
    destruct cl as [[aw b]|]; [intros x [Hx _]%Hsub; auto|].
    rewrite Hcl in Hd. by apply not_elem_of_nil in Hd.
Qed.

(** ** Closing *)

Lemma close_mark_spec h l :
  NoDup (bd_lifecycle <$> l) -> (forall d, d ∈ l -> is_Some (h !! bd_lifecycle d)) ->
  let '(h', (mk, wt)) := close_mark h l in
  (forall a, h' !! a = if bool_decide (a ∈ mk) then set_removing <$> h !! a else h !! a) /\
  NoDup mk /\
  (forall a, a ∈ mk -> a ∈ (bd_lifecycle <$> l) /\
     exists lc, h !! a = Some lc /\ rl_removing lc = false) /\
  (forall d, d ∈ l -> bd_lifecycle d ∈ mk ++ wt).
Proof.
  revert h. induction l as [|d l IH]; intros h Hnd Hin; simpl.
  { split_and!; [done|constructor|..]; intros ? Hx; by apply not_elem_of_nil in Hx. }
  rewrite fmap_cons in Hnd. apply list.NoDup_cons in Hnd as [Hni Hnd].
  destruct (Hin d ltac:(by left)) as [lc Hlc]. rewrite Hlc.
  destruct (rl_removing lc) eqn:Hr.
  - specialize (IH h Hnd ltac:(intros; apply Hin; by right)).
    destruct (close_mark h l) as [h' [mk wt]]. destruct IH as (H1 & H2 & H3 & H4).
    split_and!; try done.
    + intros a Ha. destruct (H3 a Ha) as [? ?]. split; [by right|done].
    + intros x [->|Hx]%elem_of_cons; rewrite elem_of_app, elem_of_cons; [tauto|].
      specialize (H4 x Hx). rewrite elem_of_app in H4. tauto.
  - assert (Hne : forall b, b ∈ (bd_lifecycle <$> l) ->
      alter set_removing (bd_lifecycle d) h !! b = h !! b).
    { intros b Hb. apply lookup_alter_ne. intros E. apply Hni. by rewrite E. }
    specialize (IH (alter set_removing (bd_lifecycle d) h) Hnd).
    destruct (close_mark _ l) as [h' [mk wt]]. destruct IH as (H1 & H2 & H3 & H4).
    { intros x Hx. rewrite Hne by (apply list_elem_of_fmap; eauto). apply Hin. by right. }
    assert (Hd : bd_lifecycle d ∉ mk).
    { intros [? _]%H3. done. }
    split_and!.
    + intros a. rewrite H1. destruct (decide (a = bd_lifecycle d)) as [->|Ha].
      * rewrite (bool_decide_false (bd_lifecycle d ∈ mk)) by done.
        rewrite bool_decide_true by (by left). by rewrite lookup_alter_eq, Hlc.
      * rewrite lookup_alter_ne by done.
        destruct (decide (a ∈ mk)) as [Hm|Hm].
        -- by rewrite !bool_decide_true by (done || by right).
        -- rewrite !bool_decide_false; [done| |done]. by rewrite elem_of_cons; intros [|].
    + by constructor.
    + intros a [->|Ha]%elem_of_cons; [split; [by left|by exists lc]|].
      destruct (H3 a Ha) as (Hb & lc' & Hlc' & Hrem). split; [by right|].
      rewrite Hne in Hlc' by done. eauto.
    + intros x [->|Hx]%elem_of_cons; simpl; rewrite elem_of_cons; [by left|right; auto].
Qed.

Lemma topo_empty w cl w' r : topo w cl -> GetBusEmptyContext w = (w', r) -> topo w' cl.
Proof.
  intros Ht. unfold GetBusEmptyContext. destruct (closed (vb w)) eqn:Hc; [by intros [= <- _]|].
  destruct (devs w) eqn:Hd; [|by intros [= <- _]].
  destruct (emptyCtx (vb w)) eqn:He; [by intros [= <- _]|]. intros [= <- _].
  destruct Ht. rewrite Hd in *.
  split; simpl; try done; try lia; try (intros ? Hx; by apply not_elem_of_nil in Hx).
  - intros a l Ha. specialize (t_fresh0 _ _ Ha). lia.
  - intros c Hcc. specialize (t_cancel0 _ Hcc). lia.
  - intros e [= <-]. split; [done|lia].
  - intros _. by apply t_open0.
Qed.

Lemma devs_nil_elem {A} (x : A) l : l = [] -> x ∈ l -> False.
Proof. intros -> H. by apply not_elem_of_nil in H. Qed.

(** Cancelling the empty-bus context cancels no registration. *)
Lemma cancel_empty_keeps w cl d : topo w cl -> d ∈ devs w -> bd_ctx d ∉ cancel_empty w.
Proof.
  intros Ht Hd. destruct (t_ctx _ _ Ht d Hd) as [_ Hn]. unfold cancel_empty.
  destruct (emptyCtx (vb w)) as [e|] eqn:He; [|done].
  destruct (t_empty _ _ Ht e He) as [E _]. by destruct (devs_nil_elem d _ E).
Qed.

Lemma cancel_empty_fresh w cl c : topo w cl -> c ∈ cancel_empty w -> c < nextRef w.
Proof.
  intros Ht. unfold cancel_empty. destruct (emptyCtx (vb w)) as [e|] eqn:He;
    [|apply (t_cancel _ _ Ht)].
  rewrite elem_of_union, elem_of_singleton. intros [->|]; [|by apply (t_cancel _ _ Ht)].
  by apply (t_empty _ _ Ht).
Qed.

Lemma topo_close w awaited b :
  topo w None -> (forall d, d ∈ devs w -> bd_lifecycle d ∈ awaited) ->
  topo {| vb := close_admission (vb w); heap := heap w; nextRef := nextRef w;
          cancelled := cancel_empty w; allocatedBusIds := allocatedBusIds w |}
       (Some (awaited, b)).
Proof.
  intros Ht Haw. pose proof (fun d => cancel_empty_keeps w _ d Ht) as Hk.
  pose proof (fun c => cancel_empty_fresh w _ c Ht) as Hf. pose proof Ht as [].
  split; simpl; try done; eauto.
  intros d Hd. split; [by apply t_ctx0|eauto].
Qed.

Lemma topo_close_finish w awaited b :
  topo w (Some (awaited, b)) ->
  Forall (fun a => exists l, heap w !! a = Some l /\ rl_done l = true) awaited ->
  topo (close_finish b w) None.
Proof.
  intros Ht Hdone. pose proof Ht as [].
  assert (Hcl : closed (vb w) = true).
  { destruct (closed (vb w)) eqn:E; [done|]. by specialize (t_open0 eq_refl). }
  destruct (t_closed0 Hcl) as [He Haw].
  assert (Hnil : devs w = []).
  { destruct (devs w) as [|d l] eqn:Hd; [done|]. exfalso.
    rewrite Forall_forall in Hdone. specialize (Haw d ltac:(by left)).
    destruct (Hdone (bd_lifecycle d) ltac:(by apply list_elem_of_In)) as (lc & Hlc & Hdn).
    specialize (t_entry0 d ltac:(by left)). rewrite Hlc in t_entry0. simpl in t_entry0.
    unfold core in t_entry0. congruence. }
  split; simpl; try done; try (by rewrite Hcl).
  rewrite t_alloc0, Hnil. by destruct b.
Qed.

(** ** Marking *)

Lemma remove_selected_marked w sel w' a sn :
  remove_selected self w sel = (w', RemovalMarked a sn) ->
  exists d, d ∈ devs w /\ bd_lifecycle d = a /\ sn = deviceMetaLocked self d /\
    sel d = true /\ removing_at w d = false /\ registrationActiveLocked w d = true /\
    w' = set_heap w (alter set_removing a (heap w)).
Proof.
  unfold remove_selected. destruct (first_some _ (devs w)) as [[w1 r]|] eqn:Hf; [|done].
  intros [= -> ->]. apply first_some_Some in Hf as (l1 & d & l2 & Hl & Hd & _).
  destruct (sel d) eqn:Hs; simpl in Hd; [|done].
  destruct (removing_at w d) eqn:Hr; [done|].
  destruct (registrationActiveLocked w d) eqn:Ha; [|done].
  unfold markRegistrationRemovalLocked in Hd. simplify_eq.
  exists d. split_and!; try done. rewrite Hl, elem_of_app, elem_of_cons. tauto.
Qed.

Lemma removes_marked w cl w' a sn :
  topo w cl -> removes w w' (RemovalMarked a sn) ->
  exists d, d ∈ devs w /\ bd_lifecycle d = a /\ sn = deviceMetaLocked self d /\
    removing_at w d = false /\ w' = set_heap w (alter set_removing a (heap w)).
Proof.
  intros Ht [id H|dev H|snapshot H].
  - apply remove_selected_marked in H as (d & ? & ? & ? & _ & ? & _ & ?). eauto 10.
  - unfold RemoveIfPresent in H. destruct (validateDeviceIdentity dev); simpl in H; [|done].
    apply remove_selected_marked in H as (d & ? & ? & ? & _ & ? & _ & ?). eauto 10.
  - unfold RemoveRegistrationIfPresent in H. destruct (dm_lifecycle snapshot) as [a'|] eqn:Ha;
      [|done].
    repeat (case_if_in H; [done|]). destruct (heap w !! a') as [l|] eqn:Hl; [|done].
    case_if_in H; [done|]. bool_prop.
    destruct (first_some _ (devs w)) as [[w1 r]|] eqn:Hf; [|done]. simplify_eq.
    apply first_some_Some in Hf as (l1 & d & l2 & Hsplit & Hd & _).
    case_if_in Hd; [done|]. bool_prop. bdec.
    unfold markRegistrationRemovalLocked in Hd. simplify_eq. exists d.
    split_and!; try done; [rewrite Hsplit, elem_of_app, elem_of_cons; tauto|].
    unfold removing_at. by rewrite Hl.
Qed.

(** ** Fence invariants, step by step *)

Lemma count_occ_pos (l : list Z) a : a ∈ l -> (0 < count_occ Z.eq_dec l a)%nat.
Proof. intros H%list_elem_of_In. by apply count_occ_In. Qed.

Lemma count_occ_absent (l : list Z) a : a ∉ l -> count_occ Z.eq_dec l a = 0%nat.
Proof. intros H. apply count_occ_not_In. by rewrite <- list_elem_of_In. Qed.

(** Fences mention the bus only through its list of incarnations. *)
Lemma fences_same_heap s w ck :
  heap w = heap (wd s) -> bd_lifecycle <$> devs w = bd_lifecycle <$> devs (wd s) ->
  fences s -> forall cl, fences {| wd := w; checked := ck; fenced := fenced s;
    leases := leases s; marked := marked s; locked := locked s; closing := cl |}.
Proof. intros Hh Hl [] cl. split; simpl; rewrite ?Hh, ?Hl; done. Qed.

Lemma fences_add s dv published max alias id w' :
  topo (wd s) (closing s) -> fences s -> added (wd s) w' dv published max alias id ->
  fences (on_world s w').
Proof.
  intros Ht Hf Ha. pose proof Hf as []. set (new := nextRef (wd s) + 1).
  assert (Hlive : forall a, a ∈ (bd_lifecycle <$> devs (wd s)) -> a < new).
  { intros a Hin. destruct (topo_lookup _ _ _ Ht Hin) as (_ & l & _ & _ & Hl & _).
    pose proof (t_fresh _ _ Ht a l Hl). lia. }
  assert (Hlk : forall a, a ∈ locked s -> a < new).
  { intros a Hin. apply Hlive, f_marked0. rewrite elem_of_app. tauto. }
  assert (Hh : forall a l, heap w' !! a = Some l -> a = new /\ rl_writer l = false /\
    rl_readers l = 0%nat \/ heap (wd s) !! a = Some l).
  { intros a l. rewrite (a_heap _ _ _ _ _ _ _ Ha), lookup_insert_Some.
    intros [[<- <-]|[_ ?]]; [by left|by right]. }
  assert (Hold : forall a l, heap (wd s) !! a = Some l -> heap w' !! a = Some l).
  { intros a l Hl. rewrite (a_heap _ _ _ _ _ _ _ Ha), lookup_insert_ne; [done|].
    pose proof (t_fresh _ _ Ht a l Hl). lia. }
  assert (Hgrow : forall a, a ∈ (bd_lifecycle <$> devs (wd s)) -> a ∈ (bd_lifecycle <$> devs w')).
  { intros a Hin. rewrite (a_devs _ _ _ _ _ _ _ Ha), fmap_app, elem_of_app. tauto. }
  split; simpl.
  - intros a l [(-> & Hw & Hr)|Hl]%Hh; [|by apply f_heap0].
    rewrite Hw, Hr. split_and!; [split; [done|]; intros ?%Hlk; lia| |done].
    rewrite count_occ_absent; [done|]. rewrite elem_of_app. intros [Hin|Hin].
    + apply list_elem_of_fmap in Hin as ([a sn] & Hn & Hin). simpl in Hn. subst a.
      destruct (f_fenced0 _ _ Hin) as [l' Hl']. pose proof (t_fresh _ _ Ht _ _ Hl'). lia.
    + apply f_lease0, Hlive in Hin. lia.
  - intros a Hin. destruct (f_marked0 a Hin) as (? & l' & ? & ?). eauto 6.
  - done.
  - intros a Hin. auto.
  - intros a sn Hin. destruct (f_fenced0 _ _ Hin) as [l' Hl']. eauto.
Qed.

(** A change of one lifecycle object which keeps its fences and can only raise
    its removal flag. *)
Lemma lookup_alter_cases (f : registrationLifecycle -> registrationLifecycle) (a b : Z)
    (h : gmap Z registrationLifecycle) l :
  alter f a h !! b = Some l ->
  (b = a /\ exists l0, h !! a = Some l0 /\ l = f l0) \/ (b <> a /\ h !! b = Some l).
Proof.
  rewrite lookup_alter_Some. intros [(-> & l0 & ? & ->)|[? ?]]; [left; eauto|right; auto].
Qed.

Lemma alter_is_Some (f : registrationLifecycle -> registrationLifecycle) (a b : Z)
    (h : gmap Z registrationLifecycle) (P : registrationLifecycle -> Prop) :
  (forall l, P l -> P (f l)) -> (exists l, h !! b = Some l /\ P l) ->
  exists l, alter f a h !! b = Some l /\ P l.
Proof.
  intros Hf (l & Hl & HP). destruct (decide (a = b)) as [->|].
  - exists (f l). rewrite lookup_alter_eq, Hl. auto.
  - exists l. by rewrite lookup_alter_ne.
Qed.

Lemma fences_fence s l1 l2 a sn l :
  fences s -> heap (wd s) !! a = Some l -> rl_writer l = false ->
  fences {| wd := rlock (wd s) a; checked := l1 ++ l2; fenced := (a, sn) :: fenced s;
            leases := leases s; marked := marked s; locked := locked s;
            closing := closing s |}.
Proof.
  intros [] Hl Hw. split; simpl; try done.
  - intros b lb [(-> & l0 & Hl0 & ->)|[Hne Hb]]%lookup_alter_cases; simpl.
    + destruct (f_heap0 a l0 Hl0) as (H1 & H2 & H3).
      rewrite Hl in Hl0. injection Hl0 as <-. rewrite Hw in *.
      destruct (Z.eq_dec a a); [|done]. rewrite H2. done.
    + destruct (Z.eq_dec a b); [congruence|]. by apply f_heap0.
  - intros b Hin. destruct (f_marked0 b Hin) as (? & Hex). split; [done|].
    by apply (alter_is_Some _ _ _ _ (fun l => rl_removing l = true)).
  - intros b sb Hin. unfold rlock; simpl. rewrite lookup_alter_is_Some.
    apply elem_of_cons in Hin as [[= -> ->]|Hin]; eauto.
Qed.

(** Handing a fence over, or letting go of one. *)
Lemma count_fenced (l1 l2 : list (Z * DeviceMeta)) a sn (ls : list Z) b :
  count_occ Z.eq_dec ((l1 ++ (a, sn) :: l2).*1 ++ ls) b =
  (count_occ Z.eq_dec ((l1 ++ l2).*1 ++ ls) b + if Z.eq_dec a b then 1 else 0)%nat.
Proof.
  rewrite !fmap_app, !fmap_cons, !count_occ_app. simpl.
  destruct (Z.eq_dec a b); lia.
Qed.

Lemma count_leases (fs : list Z) l1 l2 a b :
  count_occ Z.eq_dec (fs ++ l1 ++ a :: l2) b =
  (count_occ Z.eq_dec (fs ++ l1 ++ l2) b + if Z.eq_dec a b then 1 else 0)%nat.
Proof. rewrite !count_occ_app. simpl. destruct (Z.eq_dec a b); lia. Qed.

Lemma fences_granted s l1 l2 a sn :
  fences s -> fenced s = l1 ++ (a, sn) :: l2 -> a ∈ (bd_lifecycle <$> devs (wd s)) ->
  fences {| wd := wd s; checked := checked s; fenced := l1 ++ l2; leases := a :: leases s;
            marked := marked s; locked := locked s; closing := closing s |}.
Proof.
  intros [] Hf Ha. split; simpl; try done.
  - intros b lb Hb. destruct (f_heap0 b lb Hb) as (H1 & H2 & H3). split_and!; try done.
    rewrite H2, Hf, count_fenced. symmetry. apply (count_leases _ []).
  - intros b [->|Hb]%elem_of_cons; auto.
  - intros b sb Hin. apply (f_fenced0 b sb). rewrite Hf, elem_of_app, elem_of_cons.
    apply elem_of_app in Hin. tauto.
Qed.

Lemma fences_unlock s (fs : list (Z * DeviceMeta)) ls a :
  fences s ->
  (forall b, count_occ Z.eq_dec ((fenced s).*1 ++ leases s) b =
     (count_occ Z.eq_dec (fs.*1 ++ ls) b + if Z.eq_dec a b then 1 else 0)%nat) ->
  (forall b, b ∈ ls -> b ∈ leases s) -> (forall x, x ∈ fs -> x ∈ fenced s) ->
  fences {| wd := runlock (wd s) a; checked := checked s; fenced := fs; leases := ls;
            marked := marked s; locked := locked s; closing := closing s |}.
Proof.
  intros [] Hcount Hls Hfs. split; simpl; try done; eauto.
  - intros b lb [(-> & l0 & Hl0 & ->)|[Hne Hb]]%lookup_alter_cases; simpl.
    + destruct (f_heap0 a l0 Hl0) as (H1 & H2 & H3). rewrite H2, Hcount in *.
      destruct (Z.eq_dec a a); [|done]. split_and!; [done|lia|]. intros Hw%H3. lia.
    + destruct (f_heap0 b lb Hb) as (H1 & H2 & H3). rewrite H2, Hcount in *.
      destruct (Z.eq_dec a b); [congruence|]. rewrite Nat.add_0_r in *. done.
  - intros b Hin. destruct (f_marked0 b Hin) as (? & Hex). split; [done|].
    by apply (alter_is_Some _ _ _ _ (fun l => rl_removing l = true)).
  - intros b sb Hin. unfold runlock; simpl. rewrite lookup_alter_is_Some. eauto.
Qed.

Lemma fences_mark s cl w' a sn :
  topo (wd s) cl -> fences s -> removes (wd s) w' (RemovalMarked a sn) ->
  fences {| wd := w'; checked := checked s; fenced := fenced s; leases := leases s;
            marked := a :: marked s; locked := locked s; closing := closing s |}.
Proof.
  intros Ht [] Hr. destruct (removes_marked _ _ _ _ _ Ht Hr) as (d & Hd & Hda & _ & Hrem & ->).
  assert (Hin : a ∈ (bd_lifecycle <$> devs (wd s))) by (apply lifecycles_elem; eauto).
  destruct (topo_lookup _ _ _ Ht Hin) as (_ & l & _ & _ & Hl & _).
  split; simpl; try done.
  - intros b lb [(-> & l0 & Hl0 & ->)|[Hne Hb]]%lookup_alter_cases; simpl;
      [by apply f_heap0|by apply f_heap0].
  - intros b [->|Hb]%elem_of_cons.
    + split; [done|]. exists (set_removing l). by rewrite lookup_alter_eq, Hl.
    + destruct (f_marked0 b Hb) as (? & Hex). split; [done|].
      by apply (alter_is_Some _ _ _ _ (fun l => rl_removing l = true)).
  - constructor; [|done]. intros Hm. destruct (f_marked0 a Hm) as (_ & l' & Hl' & Hrm).
    unfold removing_at in Hrem. rewrite Hda, Hl' in Hrem. congruence.
  - intros b sb Hb. rewrite lookup_alter_is_Some. eauto.
Qed.

Lemma fences_lock s l1 l2 a l :
  fences s -> marked s = l1 ++ a :: l2 -> heap (wd s) !! a = Some l ->
  rl_readers l = 0%nat ->
  fences {| wd := finish_lock (wd s) a; checked := checked s; fenced := fenced s;
            leases := leases s; marked := l1 ++ l2; locked := a :: locked s;
            closing := closing s |}.
Proof.
  intros [] Hm Hl Hr. split; simpl; try done.
  - intros b lb [(-> & l0 & Hl0 & ->)|[Hne Hb]]%lookup_alter_cases; simpl.
    + destruct (f_heap0 a l0 Hl0) as (_ & H2 & _). rewrite Hl in Hl0. injection Hl0 as <-.
      split_and!; try done. split; [intros _; by left|done].
    + destruct (f_heap0 b lb Hb) as (H1 & H2 & H3). split_and!; try done.
      rewrite H1, elem_of_cons. naive_solver.
  - intros b Hin. destruct (f_marked0 b) as (? & Hex).
    { rewrite Hm. rewrite elem_of_app, elem_of_cons, elem_of_app in *.
      rewrite elem_of_cons in *. tauto. }
    split; [done|]. by apply (alter_is_Some _ _ _ _ (fun l => rl_removing l = true)).
  - rewrite Hm, <- Permutation_middle in f_once0. by rewrite <- (Permutation_middle (l1 ++ l2)).
  - intros b sb Hb. unfold finish_lock; simpl. rewrite lookup_alter_is_Some. eauto.
Qed.

(** A commit finds no lease on its incarnation: the write fence excludes them. *)
Lemma fences_commit s cl l1 l2 a :
  topo (wd s) cl -> fences s -> locked s = l1 ++ a :: l2 ->
  a ∈ (bd_lifecycle <$> devs (wd s)) /\ (a ∉ leases s) /\
  fences {| wd := finish_commit (wd s) a; checked := checked s; fenced := fenced s;
            leases := leases s; marked := marked s; locked := l1 ++ l2;
            closing := closing s |}.
Proof.
  intros Ht [] Hk. assert (Hka : a ∈ locked s) by (rewrite Hk, elem_of_app, elem_of_cons; tauto).
  destruct (f_marked0 a) as (Hin & l & Hl & Hrm); [rewrite elem_of_app; tauto|].
  destruct (f_heap0 a l Hl) as (Hw & Hr & Hx).
  assert (Hnl : a ∉ leases s).
  { intros Hlease. pose proof (count_occ_pos ((fenced s).*1 ++ leases s) a
      ltac:(rewrite elem_of_app; tauto)). rewrite <- Hr, Hx in * by tauto. lia. }
  split; [done|]. split; [done|]. unfold finish_commit.
  pose proof (take_device_spec a (devs (wd s))) as Htd.
  destruct (take_device a (devs (wd s))) as [[d rest]|]; [|done].
  destruct Htd as (k1 & k2 & Hdevs & -> & Hda).
  assert (Hrest : forall b, b ∈ (bd_lifecycle <$> devs (wd s)) -> b <> a ->
    b ∈ (bd_lifecycle <$> (k1 ++ k2))).
  { intros b Hb Hne. rewrite Hdevs, fmap_app, fmap_cons, elem_of_app, elem_of_cons in Hb.
    rewrite fmap_app, elem_of_app. destruct Hb as [?|[?|?]]; [tauto|congruence|tauto]. }
  rewrite Hk, app_assoc, <- Permutation_middle in f_once0.
  apply list.NoDup_cons in f_once0 as [Hna Hnd]. rewrite <- app_assoc in Hna, Hnd.
  split; simpl; try done.
  - intros b lb [(-> & l0 & Hl0 & ->)|[Hne Hb]]%lookup_alter_cases; simpl.
    + rewrite Hl in Hl0. injection Hl0 as <-. split_and!; try done.
      split; [done|]. intros Hb. exfalso. apply Hna. rewrite elem_of_app. tauto.
    + destruct (f_heap0 b lb Hb) as (H1 & H2 & H3). split_and!; try done.
      rewrite H1, Hk, !elem_of_app, elem_of_cons. naive_solver.
  - intros b Hb. assert (b <> a) by (intros ->; done).
    destruct (f_marked0 b) as (? & Hex).
    { rewrite Hk. rewrite !elem_of_app, ?elem_of_cons in *. tauto. }
    split; [auto|]. by apply (alter_is_Some _ _ _ _ (fun l => rl_removing l = true)).
  - intros b Hb. apply Hrest; [auto|]. by intros ->.
  - intros b sb Hb. rewrite lookup_alter_is_Some. eauto.
Qed.

Lemma fences_close s cl w' mk wt :
  topo (wd s) cl -> fences s -> CloseAndTakeRegistrations (wd s) = (w', Some (mk, wt)) ->
  topo w' (Some (mk ++ wt, true)) /\
  fences {| wd := w'; checked := checked s; fenced := fenced s; leases := leases s;
            marked := mk ++ marked s; locked := locked s; closing := Some (mk ++ wt, true) |}.
Proof.
  intros Ht [] H. unfold CloseAndTakeRegistrations in H.
  destruct (closed (vb (wd s))) eqn:Hc; [done|].
  assert (cl = None) as -> by (by apply (t_open _ _ Ht)).
  pose proof (close_mark_spec (heap (wd s)) (devs (wd s)) (t_lc _ _ Ht)) as Hs.
  destruct (close_mark (heap (wd s)) (devs (wd s))) as [h [mk' wt']]. simplify_eq.
  destruct Hs as (Hh & Hnd & Hmk & Haw).
  { intros d Hd. destruct (topo_lookup _ _ (bd_lifecycle d) Ht) as (_ & l & _ & _ & Hl & _);
      [apply lifecycles_elem; eauto|eauto]. }
  assert (Hback : forall a l, h !! a = Some l -> exists l0, heap (wd s) !! a = Some l0 /\
    (l = l0 \/ l = set_removing l0)).
  { intros a l. rewrite Hh. case_bool_decide; [|eauto].
    destruct (heap (wd s) !! a) as [l0|]; [|done]. simpl. intros [= <-]. eauto. }
  assert (Hfwd : forall a l, heap (wd s) !! a = Some l ->
    exists l', h !! a = Some l' /\ (rl_removing l = true \/ a ∈ mk -> rl_removing l' = true)).
  { intros a l Hl. rewrite Hh, Hl. case_bool_decide; simpl; eexists; split; try done. tauto. }
  split.
  - apply (topo_set_heap {| vb := _; heap := heap (wd s); nextRef := _; cancelled := _;
      allocatedBusIds := _ |}); [|by apply topo_close].
    intros b. simpl. rewrite Hh. case_bool_decide; [|done]. by destruct (heap (wd s) !! b).
  - split; simpl; try done.
    + intros a l Hl. destruct (Hback a l Hl) as (l0 & Hl0 & Hcase).
      destruct (f_heap0 a l0 Hl0) as (H1 & H2 & H3). by destruct Hcase as [-> | ->].
    + intros a Hin. rewrite <- app_assoc, elem_of_app in Hin. destruct Hin as [Hin|Hin].
      * destruct (Hmk a Hin) as (? & lc & Hlc & _). split; [done|].
        destruct (Hfwd a lc Hlc) as (l' & ? & ?). eauto.
      * destruct (f_marked0 a Hin) as (? & lc & Hlc & ?). split; [done|].
        destruct (Hfwd a lc Hlc) as (l' & ? & ?). eauto.
    + rewrite <- app_assoc. apply list.NoDup_app. split_and!; [done| |done].
      intros a Ha Hin. destruct (Hmk a Ha) as (_ & lc & Hlc & Hr).
      destruct (f_marked0 a Hin) as (_ & lc' & Hlc' & Hr'). congruence.
    + intros a sn Hin. destruct (f_fenced0 a sn Hin) as [l Hl].
      destruct (Hfwd a l Hl) as (l' & ? & _). eauto.
Qed.

(** ** Every reachable state *)

Definition inv (s : sys) : Prop := topo (wd s) (closing s) /\ fences s.

Lemma inv_initial busID global : U32 busID -> inv (initial busID global).
Proof.
  intros Hb. split; split; simpl; try done; try lia;
    try (intros ? Hx; by apply not_elem_of_nil in Hx);
    try (intros ? ? Hx; by apply not_elem_of_nil in Hx); constructor.
Qed.

Lemma inv_step s s' : inv s -> step s s' -> inv s'.
Proof.
  intros [Ht Hf] Hstep. destruct Hstep.
  - (* add *)
    destruct (add_cases _ _ _ _ _ _ _ H0 H1) as [(e & -> & -> & _)|(dv & id & -> & Ha & ->)].
    + by destruct s.
    + split; [eapply topo_add; [done|done|lia|done]|by eapply fences_add].
  - (* publish *)
    unfold PublishRegistration in H. repeat (case_if_in H; [simplify_eq; by destruct s|]).
    destruct (update_first _ _ _) as [l|] eqn:Hu; simplify_eq; [|by destruct s].
    apply update_first_spec in Hu as (l1 & d & l2 & Hd & -> & _). split.
    + apply topo_publish; [|done]. by rewrite Hd, !fmap_app, !fmap_cons.
    + apply fences_same_heap; try done. simpl. by rewrite Hd, !fmap_app, !fmap_cons.
  - split; [done|]. by apply fences_same_heap.
  - split; [|by eapply fences_fence]. apply topo_set_heap; [|done].
    intros b. by apply core_alter.
  - split; [done|]. eapply fences_granted; [done..|].
    unfold acquire_recheck in H1. bool_prop.
    apply authenticates_spec in H2 as (a' & l & Ha & Hl & Hact & _).
    assert (a' = a) as -> by congruence. by eapply t_live.
  - split; [apply topo_set_heap; [|done]; intros b; by apply core_alter|].
    apply fences_unlock; [done|..].
    + intros b. by rewrite H, count_fenced.
    + done.
    + intros x. rewrite H, !elem_of_app, elem_of_cons. tauto.
  - split; [apply topo_set_heap; [|done]; intros b; by apply core_alter|].
    apply fences_unlock; [done|..].
    + intros b. by rewrite H, count_leases.
    + intros x. rewrite H, !elem_of_app, elem_of_cons. tauto.
    + done.
  - split; [|by eapply fences_mark].
    destruct (removes_marked _ _ _ _ _ Ht H) as (d & _ & _ & _ & _ & ->).
    apply topo_set_heap; [|done]. intros b. by apply core_alter.
  - split; [|by eapply fences_lock]. apply topo_set_heap; [|done].
    intros b. by apply core_alter.
  - destruct (fences_commit _ _ _ _ _ Ht Hf H) as (Hin & _ & Hf').
    split; [by apply topo_commit|done].
  - split; [by eapply topo_empty|]. unfold GetBusEmptyContext in H.
    case_if_in H; [simplify_eq; by destruct s|].
    destruct (devs (wd s)) eqn:Hd; [|simplify_eq; by destruct s].
    destruct (emptyCtx (vb (wd s))); simplify_eq; [by destruct s|].
    apply fences_same_heap; try done. simpl. by rewrite Hd.
  - unfold CloseIfEmptyContext in H. case_if_in H; [done|]. simplify_eq. bool_prop. bdec.
    split.
    + assert (Hcl : closing s = None) by (by apply (t_open _ _ Ht)). rewrite Hcl in Ht.
      apply topo_close; [done|]. intros d Hd. by destruct (devs_nil_elem d (devs (wd s))).
    + by apply fences_same_heap.
  - by destruct (fences_close _ _ _ _ _ Ht Hf H).
  - rewrite H in Ht. split; [by eapply topo_close_finish|]. by apply fences_same_heap.
Qed.

Lemma reachable_inv busID global s : U32 busID -> reachable busID global s -> inv s.
Proof. intros Hb. induction 1; [by apply inv_initial|by eapply inv_step]. Qed.

(** ** Incarnations never come back *)

(** An incarnation's identity is fixed and its liveness only ends. *)
Definition retires (l l' : registrationLifecycle) : Prop :=
  rl_bus l' = rl_bus l /\ rl_dev l' = rl_dev l /\ rl_meta l' = rl_meta l /\
  rl_ctx l' = rl_ctx l /\ rl_token l' = rl_token l /\
  (rl_active l = false -> rl_active l' = false).

Lemma retires_refl l : retires l l.
Proof. by split_and!. Qed.

Lemma alter_retires (f : registrationLifecycle -> registrationLifecycle) (a b : Z)
    (h : gmap Z registrationLifecycle) l :
  (forall l, retires l (f l)) -> h !! b = Some l ->
  exists l', alter f a h !! b = Some l' /\ retires l l'.
Proof.
  intros Hf Hl. destruct (decide (a = b)) as [->|].
  - exists (f l). rewrite lookup_alter_eq, Hl. auto.
  - exists l. rewrite lookup_alter_ne by done. auto using retires_refl.
Qed.

Lemma step_retires s s' a l :
  inv s -> step s s' -> heap (wd s) !! a = Some l ->
  exists l', heap (wd s') !! a = Some l' /\ retires l l'.
Proof.
  intros [Ht Hf] Hstep Hl.
  assert (Hsame : forall w', heap w' = heap (wd s) ->
    exists l', heap w' !! a = Some l' /\ retires l l').
  { intros w' E. rewrite E. eauto using retires_refl. }
  destruct Hstep; simpl; try (by apply Hsame);
    try (by apply alter_retires; [by intros []|]).
  - destruct (add_cases _ _ _ _ _ _ _ H0 H1) as [(e & -> & -> & _)|(dv & id & -> & Ha & ->)];
      [by apply Hsame|].
    exists l. split; [|apply retires_refl].
    rewrite (a_heap _ _ _ _ _ _ _ Ha), lookup_insert_ne; [done|].
    pose proof (t_fresh _ _ Ht a l Hl). lia.
  - apply Hsame. unfold PublishRegistration in H.
    repeat (case_if_in H; [by simplify_eq|]). by destruct (update_first _ _ _); simplify_eq.
  - destruct (removes_marked _ _ _ _ _ Ht H) as (d & _ & _ & _ & _ & ->).
    by apply alter_retires; [by intros []|].
  - unfold finish_commit. destruct (take_device _ _) as [[d rest]|]; simpl;
      (apply alter_retires; [|done]); intros []; unfold retires; simpl; split_and!; try done;
      by intros ->.
  - apply Hsame. unfold GetBusEmptyContext in H. case_if_in H; [by simplify_eq|].
    destruct (devs (wd s)); [|by simplify_eq]. by destruct (emptyCtx _); simplify_eq.
  - apply Hsame. unfold CloseIfEmptyContext in H. by case_if_in H; simplify_eq.
  - unfold CloseAndTakeRegistrations in H. case_if_in H; [done|].
    pose proof (close_mark_spec (heap (wd s)) (devs (wd s)) (t_lc _ _ Ht)) as Hs.
    destruct (close_mark _ _) as [h [mk' wt']]. simplify_eq. simpl.
    destruct Hs as (Hh & _).
    { intros d Hd. destruct (topo_lookup _ _ (bd_lifecycle d) Ht) as (_ & lc & _ & _ & Hlc & _);
        [apply lifecycles_elem; eauto|eauto]. }
    rewrite Hh, Hl. case_bool_decide; simpl; [|eauto using retires_refl].
    eexists. split; [done|]. by destruct l.
Qed.

Lemma steps_retire s s' a l :
  inv s -> rtc step s s' -> heap (wd s) !! a = Some l ->
  inv s' /\ exists l', heap (wd s') !! a = Some l' /\ retires l l'.
Proof.
  intros Hi Hs. revert l. induction Hs as [s|s s1 s2 H1 H2 IH]; intros l Hl.
  { eauto using retires_refl. }
  destruct (step_retires _ _ _ _ Hi H1 Hl) as (l1 & Hl1 & R1).
  destruct (IH (inv_step _ _ Hi H1) l1 Hl1) as (Hi2 & l2 & Hl2 & R2).
  split; [done|]. exists l2. split; [done|]. unfold retires in *. naive_solver congruence.
Qed.

Lemma dead_not_authentic w sn a l :
  dm_lifecycle sn = Some a -> heap w !! a = Some l -> rl_active l = false ->
  authenticatesRegistrationLocked self w sn = false.
Proof.
  intros Ha Hl Hd. destruct (authenticatesRegistrationLocked self w sn) eqn:E; [|done].
  apply authenticates_spec in E as (a' & l' & Ha' & Hl' & Hact & _). congruence.
Qed.

Lemma reachable_busID busID global s :
  reachable busID global s -> vb_busID (vb (wd s)) = busID.
Proof.
  induction 1 as [|s s' Hr IH Hstep]; [done|]. rewrite <- IH. clear IH Hr.
  destruct Hstep; simpl; try done.
  - destruct (add_cases _ _ _ _ _ _ _ H0 H1) as [(e & -> & -> & _)|(dv & id & -> & Ha & ->)];
      [done|apply (a_rest _ _ _ _ _ _ _ Ha)].
  - unfold PublishRegistration in H. repeat (case_if_in H; [by simplify_eq|]).
    by destruct (update_first _ _ _); simplify_eq.
  - destruct H as [id H|dev H|sn H].
    + apply remove_selected_marked in H as (d & _ & _ & _ & _ & _ & _ & ->). done.
    + unfold RemoveIfPresent in H. case_if_in H; [done|].
      apply remove_selected_marked in H as (d & _ & _ & _ & _ & _ & _ & ->). done.
    + unfold RemoveRegistrationIfPresent in H. destruct (dm_lifecycle sn); [|done].
      repeat (case_if_in H; [done|]). destruct (heap (wd s) !! _); [|done].
      case_if_in H; [done|]. destruct (first_some _ _) as [[w1 r1]|] eqn:E; [|done]. simplify_eq.
      apply first_some_Some in E as (_ & d & _ & _ & E & _). case_if_in E; [done|].
      unfold markRegistrationRemovalLocked in E. by simplify_eq.
  - unfold finish_commit. by destruct (take_device _ _) as [[? ?]|].
  - unfold GetBusEmptyContext in H. case_if_in H; [by simplify_eq|].
    destruct (devs (wd s)); [|by simplify_eq]. by destruct (emptyCtx _); simplify_eq.
  - unfold CloseIfEmptyContext in H. by case_if_in H; simplify_eq.
  - unfold CloseAndTakeRegistrations in H. case_if_in H; [done|].
    destruct (close_mark _ _) as [h r]. by simplify_eq.
Qed.

(** ** A fresh entry *)

Lemma new_entry_lookup w w' dv published max alias id :
  added w w' dv published max alias id ->
  heap w' !! (nextRef w + 1) = Some {| rl_bus := self; rl_dev := dv;
    rl_meta := new_meta w id alias; rl_ctx := nextRef w;
    rl_token := nextRegistrationToken (vb w) + 1; rl_active := true; rl_removing := false;
    rl_done := false; rl_readers := 0; rl_writer := false |}.
Proof. intros Ha. by rewrite (a_heap _ _ _ _ _ _ _ Ha), lookup_insert_eq. Qed.

Lemma new_entry_discoverable w w' dv published max alias id :
  added w w' dv published max alias id ->
  deviceDiscoverableLocked w' (new_entry w dv published id alias) = published.
Proof.
  intros Ha. unfold deviceDiscoverableLocked, registrationActiveLocked. simpl.
  rewrite (new_entry_lookup _ _ _ _ _ _ _ Ha). by rewrite andb_true_r.
Qed.

Lemma new_entry_authentic w cl w' dv published max alias id :
  topo w cl -> added w w' dv published max alias id ->
  AuthenticatesRegistration self w' (deviceMetaLocked self (new_entry w dv published id alias)) =
    true.
Proof.
  intros Ht Ha. pose proof (new_entry_lookup _ _ _ _ _ _ _ Ha) as Hl.
  pose proof (t_tokmax _ _ Ht). unfold AuthenticatesRegistration, snapshot_shape,
    registrationSnapshotDeviceIdentitySafe, authenticatesRegistrationLocked,
    registrationIdentityMatchesLocked.
  destruct (a_rest _ _ _ _ _ _ _ Ha) as (_ & _ & _ & -> & _).
  cbn [dm_lifecycle deviceMetaLocked new_entry bd_lifecycle mbind option_bind]. rewrite Hl.
  cbn [dm_Dev dm_Meta dm_Bus dm_Context dm_RegistrationToken deviceMetaLocked new_entry
    bd_dev bd_meta bd_ctx bd_registrationToken rl_bus rl_dev rl_meta rl_ctx rl_token
    rl_active rl_removing]. generalize (new_meta w id alias) as m. intros m.
  simpl. rewrite !bool_decide_true by eauto.
  rewrite (proj2 (Z.eqb_neq _ 0)), !Z.eqb_refl by lia. simpl.
  pose proof (a_valid _ _ _ _ _ _ _ Ha) as Hv. simpl in Hv.
  destruct (dv_kind dv); simpl in *; bool_prop; try by rewrite Hv.
  - by rewrite H0.
  - by rewrite H1.
Qed.
End System.

(** ** Lookups *)

Lemma first_some_unique {A B} (f : A -> option B) l x b :
  x ∈ l -> f x = Some b -> (forall y, y ∈ l -> f y <> None -> y = x) -> first_some f l = Some b.
Proof.
  induction l as [|y l IH]; intros Hx Hf Hu; [by apply not_elem_of_nil in Hx|]. simpl.
  destruct (f y) as [c|] eqn:E.
  - rewrite (Hu y ltac:(by left) ltac:(by rewrite E)) in E. congruence.
  - apply elem_of_cons in Hx as [->|Hx]; [congruence|]. apply IH; [done..|].
    intros z Hz. apply Hu. by right.
Qed.

Lemma NoDup_fmap_inj {A B} (f : A -> B) l x y :
  NoDup (f <$> l) -> x ∈ l -> y ∈ l -> f x = f y -> x = y.
Proof.
  induction l as [|z l IH]; intros Hn Hx Hy E; [by apply not_elem_of_nil in Hx|].
  rewrite fmap_cons in Hn. apply list.NoDup_cons in Hn as [Hz Hn].
  apply elem_of_cons in Hx as [->|Hx]; apply elem_of_cons in Hy as [->|Hy]; try done.
  - exfalso. apply Hz. rewrite E. apply list_elem_of_fmap. eauto.
  - exfalso. apply Hz. rewrite <- E. apply list_elem_of_fmap. eauto.
  - by apply IH.
Qed.

(** The entry found by its export name is the one that owns it. *)
Lemma by_name_spec self w cl d name :
  topo self w cl -> d ∈ devices (vb w) -> ExportBusID (bd_meta d) = Ok name ->
  GetDeviceImportSnapshotByBusID self w name =
    if deviceDiscoverableLocked w d then Some (deviceMetaLocked self d) else None.
Proof.
  intros Ht Hd Hn. pose proof (t_named _ _ _ Ht d Hd) as Hnamed.
  destruct (named_export _ _ (t_bus _ _ _ Ht) Hnamed) as (v & Ev & HU & Hne & Hl & Hz & _).
  assert (v = name) as -> by congruence. unfold GetDeviceImportSnapshotByBusID.
  rewrite (proj2 (Nat.eqb_neq _ _)), (proj2 (Nat.leb_gt _ _)) by (destruct name; simpl in *; done || lia).
  simpl. assert (Hu : forall y, y ∈ devices (vb w) -> USBBusID (bd_meta y) = fixed_array 32 name -> y = d).
  { intros y Hy E. rewrite <- HU in E.
    by apply (NoDup_fmap_inj (fun d => USBBusID (bd_meta d)) _ _ _ (t_names _ _ _ Ht)). }
  destruct (deviceDiscoverableLocked w d) eqn:Hdisc.
  - apply first_some_unique with d; [done| |].
    + by rewrite Hdisc, bool_decide_true.
    + intros y Hy. case_if; [|done]. bool_prop. bdec. auto.
  - apply first_some_None. rewrite Forall_forall. intros y Hy%list_elem_of_In.
    case_if; [|done]. bool_prop. bdec. assert (y = d) as -> by auto. congruence.
Qed.

(** ** The properties *)

(** C26: in every reachable state, whatever operations interleave, the
    registered devices have distinct identities, distinct non-zero addresses,
    distinct registration tokens and distinct export names; the allocated
    address set is exactly theirs; and every registered incarnation is live, its
    object agreeing with the entry, its context not cancelled. *)
Theorem bus_topology_consistent self busID global s :
  U32 busID -> reachable self busID global s ->
  let ds := devices (vb (wd s)) in
  NoDup (bd_dev <$> ds) /\ NoDup ((fun d => DevID (bd_meta d)) <$> ds) /\
  NoDup (bd_registrationToken <$> ds) /\ NoDup ((fun d => USBBusID (bd_meta d)) <$> ds) /\
  allocatedDevIDs (vb (wd s)) = list_to_set ((fun d => DevID (bd_meta d)) <$> ds) /\
  forall d, d ∈ ds -> 0 < DevID (bd_meta d) /\ (bd_ctx d ∉ cancelled (wd s)) /\
    (exists l, heap (wd s) !! bd_lifecycle d = Some l /\ rl_active l = true /\
       rl_dev l = bd_dev d /\ rl_meta l = bd_meta d /\ rl_token l = bd_registrationToken d) /\
    exists name, ExportBusID (bd_meta d) = Ok name.
Proof.
  intros Hb Hr ds. destruct (reachable_inv _ _ _ _ Hb Hr) as [Ht _]. subst ds.
  split_and!; try apply Ht.
  intros d Hd. pose proof (t_named _ _ _ Ht d Hd) as Hn. split_and!.
  - destruct Hn as (_ & ? & _). lia.
  - by apply (t_ctx _ _ _ Ht d Hd).
  - destruct (topo_lookup _ _ _ (bd_lifecycle d) Ht) as (d' & l & Hd' & E & Hl & Hc);
      [apply lifecycles_elem; eauto|].
    assert (d' = d) as -> by (by apply (NoDup_fmap_inj bd_lifecycle _ _ _ (t_lc _ _ _ Ht))).
    exists l. unfold core in Hc. by simplify_eq.
  - destruct (named_export _ _ (t_bus _ _ _ Ht) Hn) as (v & ? & _). eauto.
Qed.

(** C5: while an operation lease is held, its exact registration stays on
    the bus: it is still a registered, live entry with an uncancelled context
    and its address allocated, and no remover holds its write fence. *)
Theorem lease_fences_removal self busID global s a :
  U32 busID -> reachable self busID global s -> a ∈ leases s ->
  exists d l, d ∈ devices (vb (wd s)) /\ bd_lifecycle d = a /\
    heap (wd s) !! a = Some l /\ rl_active l = true /\ rl_writer l = false /\
    (bd_ctx d ∉ cancelled (wd s)) /\ DevID (bd_meta d) ∈ allocatedDevIDs (vb (wd s)).
Proof.
  intros Hb Hr Hl. destruct (reachable_inv _ _ _ _ Hb Hr) as [Ht Hf].
  pose proof (f_lease _ Hf a Hl) as Hin.
  destruct (topo_lookup _ _ _ a Ht Hin) as (d & l & Hd & Hda & Hla & Hc).
  exists d, l. destruct (f_heap _ Hf a l Hla) as (Hw & Hrd & Hx).
  unfold core in Hc. simplify_eq. split_and!; try done.
  - destruct (rl_writer l) eqn:E; [|done]. specialize (Hx eq_refl). rewrite Hx in Hrd.
    pose proof (count_occ_pos ((fenced s).*1 ++ leases s) (bd_lifecycle d)
      ltac:(rewrite elem_of_app; tauto)). lia.
  - by apply (t_ctx _ _ _ Ht d Hd).
  - rewrite (t_alloc _ _ _ Ht), elem_of_list_to_set. apply list_elem_of_fmap. eauto.
Qed.

(** Once an incarnation has been removed, a snapshot of it is dead for
    ever, also after the same device has been added again: in every later state
    it does not authenticate, cannot acquire a lease, publishes nothing and
    removes nothing. *)
Theorem stale_snapshot_inert self busID global s s' sn a l :
  U32 busID -> reachable self busID global s -> dm_lifecycle sn = Some a ->
  heap (wd s) !! a = Some l -> rl_active l = false -> rtc (step self) s s' ->
  AuthenticatesRegistration self (wd s') sn = false /\
  acquire_check self (wd s') sn = false /\ acquire_recheck self (wd s') sn = false /\
  fst (PublishRegistration self (wd s') sn) = wd s' /\
  fst (RemoveRegistrationIfPresent self (wd s') sn) = wd s'.
Proof.
  intros Hb Hr Ha Hl Hdead Hs. pose proof (reachable_inv _ _ _ _ Hb Hr) as Hi.
  destruct (steps_retire _ _ _ _ _ Hi Hs Hl) as (_ & l' & Hl' & Hret).
  assert (Hd' : rl_active l' = false) by (by apply Hret).
  pose proof (dead_not_authentic self (wd s') sn a l' Ha Hl' Hd') as Hn.
  split_and!.
  - unfold AuthenticatesRegistration. by repeat case_if.
  - unfold acquire_check. by rewrite Hn, andb_false_r.
  - unfold acquire_recheck. by rewrite Hn, andb_false_r.
  - unfold PublishRegistration. repeat (case_if; [done|]).
    destruct (update_first _ _ _) as [k|] eqn:E; [|done].
    apply update_first_spec in E as (l1 & d & l2 & _ & _ & E).
    by rewrite Hn, andb_false_r in E.
  - unfold RemoveRegistrationIfPresent. rewrite Ha, Hl', Hd'. repeat (case_if; [done|]). by bool_prop.
Qed.

(** A successful Add gets the least free address within its range, a
    fresh token and the requested alias or the numeric export name, and returns
    a snapshot that authenticates at once; it is found by its address and by
    its export name exactly when it was added published.  A refused Add leaves
    everything as it was and its error tells the reason. *)
Theorem add_registration_correct self busID global s dev published max alias w' r :
  U32 busID -> reachable self busID global s -> 0 <= max < 4294967296 ->
  alias = [] \/ ValidProductionXboxOneBusID alias = true ->
  addRegistration self (wd s) dev published max alias = (w', r) ->
  match r with
  | Err e => w' = wd s /\ add_reason (wd s) dev max alias e
  | Ok sn =>
      let id := DevID (dm_Meta sn) in
      let name := if bool_decide (alias = []) then numeric_busid busID id else alias in
      (1 <= id <= max /\ (id ∉ allocatedDevIDs (vb (wd s))) /\
       forall j, 1 <= j < id -> j ∈ allocatedDevIDs (vb (wd s))) /\
      ExportBusID (dm_Meta sn) = Ok name /\ dm_Dev sn = dev /\
      AuthenticatesRegistration self w' sn = true /\
      GetDeviceImportSnapshotByBusID self w' name = (if published then Some sn else None) /\
      GetDeviceImportSnapshot self w' id = (if published then Some sn else None) /\
      (forall d, d ∈ devices (vb (wd s)) -> d ∈ devices (vb w'))
  end.
Proof.
  intros Hb Hr Hmax Hal Hadd. destruct (reachable_inv _ _ _ _ Hb Hr) as [Ht Hf].
  destruct (add_cases _ _ _ _ _ _ _ _ Hmax Hadd) 
    as [(e & -> & -> & Hwhy)|(dv & id & -> & Ha & ->)]; [done|].
  cbv zeta. cbn [dm_Meta deviceMetaLocked new_entry bd_meta DevID new_meta].
  set (d := new_entry (wd s) dv published id alias).
  assert (Ht' : topo self w' (closing s)) by (eapply topo_add; [done|done|lia|done]).
  pose proof (a_devs _ _ _ _ _ _ _ _ Ha) as Hdevs. fold d in Hdevs.
  assert (Hd : d ∈ devices (vb w')) by (rewrite Hdevs, elem_of_app, list_elem_of_singleton; tauto).
  pose proof (a_max _ _ _ _ _ _ _ _ Ha) as Hid.
  destruct (new_meta_named (wd s) id alias (t_bus _ _ _ Ht) ltac:(lia) Hal) as [_ Hexp].
  rewrite (reachable_busID _ _ _ _ Hr) in Hexp.
  pose proof (new_entry_discoverable self (wd s) w' dv published max alias id Ha) as Hdisc.
  fold d in Hdisc. split_and!.
  - apply Hid.
  - apply Hid.
  - by apply (a_free _ _ _ _ _ _ _ _ Ha).
  - apply (a_least _ _ _ _ _ _ _ _ Ha).
  - exact Hexp.
  - done.
  - by eapply new_entry_authentic.
  - rewrite (by_name_spec self w' _ d _ Ht' Hd Hexp). by rewrite Hdisc.
  - unfold GetDeviceImportSnapshot. destruct published.
    + apply first_some_unique with d; [done|by rewrite Hdisc; simpl; rewrite Z.eqb_refl|].
      intros y Hy. case_if; [done|]. bool_prop. intros _.
      by apply (NoDup_fmap_inj (fun d => DevID (bd_meta d)) _ _ _ (t_id _ _ _ Ht')).
    + apply first_some_None. rewrite Forall_forall. intros y Hy%list_elem_of_In.
      case_if; [done|]. bool_prop.
      assert (y = d) as -> by (by apply (NoDup_fmap_inj (fun d => DevID (bd_meta d)) _ _ _ (t_id _ _ _ Ht'))).
      congruence.
  - intros x Hx. rewrite Hdevs, elem_of_app. tauto.
Qed.

(** Closing is final and complete.  Once closed, no Add succeeds; once
    the closer is done the bus has no device and no allocated address; and until
    then every device still present is one the closer waits for. *)
Theorem closed_bus_drains self busID global s :
  U32 busID -> reachable self busID global s -> closed (vb (wd s)) = true ->
  (forall dev published max alias,
     exists e, addRegistration self (wd s) dev published max alias = (wd s, Err e)) /\
  match closing s with
  | None => devices (vb (wd s)) = [] /\ allocatedDevIDs (vb (wd s)) = ∅
  | Some (awaited, _) => forall d, d ∈ devices (vb (wd s)) -> bd_lifecycle d ∈ awaited
  end.
Proof.
  intros Hb Hr Hc. destruct (reachable_inv _ _ _ _ Hb Hr) as [Ht _]. split.
  - intros dev published max alias. unfold addRegistration. rewrite Hc.
    destruct dev as [dv|]; [|eauto]. repeat case_if; eauto.
  - destruct (t_closed _ _ _ Ht Hc) as [_ Hcl]. destruct (closing s) as [[aw b]|]; [done|].
    split; [done|]. by rewrite (t_alloc _ _ _ Ht), Hcl.
Qed.

(** Import by export name is exact: the snapshot returned for a name is
    that of the one discoverable device that owns the name, every discoverable
    device is returned for its own name, and an unpublished or retiring one is
    not returned for any. *)
Theorem import_by_name_exact self busID global s :
  U32 busID -> reachable self busID global s ->
  (forall d name, d ∈ devices (vb (wd s)) -> ExportBusID (bd_meta d) = Ok name ->
     GetDeviceImportSnapshotByBusID self (wd s) name =
       if deviceDiscoverableLocked (wd s) d then Some (deviceMetaLocked self d) else None) /\
  (forall name sn, GetDeviceImportSnapshotByBusID self (wd s) name = Some sn ->
     exists d, d ∈ devices (vb (wd s)) /\ sn = deviceMetaLocked self d /\
       deviceDiscoverableLocked (wd s) d = true /\
       USBBusID (bd_meta d) = fixed_array 32 name).
Proof.
  intros Hb Hr. destruct (reachable_inv _ _ _ _ Hb Hr) as [Ht _]. split.
  - intros d name Hd Hn. by eapply by_name_spec.
  - intros name sn. unfold GetDeviceImportSnapshotByBusID. case_if; [done|]. cbv zeta.
    intros H. apply first_some_Some in H as (l1 & d & l2 & Hl & Hd & _).
    case_if_in Hd; [|done]. bool_prop. bdec. simplify_eq. exists d.
    split_and!; try done. rewrite Hl, elem_of_app, elem_of_cons. tauto.
Qed.

(** ** A concrete run

    One device is added to bus 1 and leased; then removed and added again. *)
Definition demo_dev : Device :=
  {| dv_type := 1; dv_kind := KindPointer; dv_nil := false; dv_comparable := true; dv_id := 7 |}.

Definition demo_s0 : sys := initial 1 {[1]}.

Definition demo_add (s : sys) : sys :=
  on_world s (fst (addRegistration 100 (wd s) (Some demo_dev) true 4294967295 [])).

Definition demo_s1 : sys := demo_add demo_s0.

(** The snapshot of the first Add. *)
Definition demo_sn : DeviceMeta :=
  deviceMetaLocked 100 (new_entry (wd demo_s0) demo_dev true 1 []).

Definition demo_s2 : sys := {| wd := wd demo_s1; checked := [(2, demo_sn)]; fenced := [];
  leases := []; marked := []; locked := []; closing := None |}.
Definition demo_s3 : sys := {| wd := rlock (wd demo_s1) 2; checked := [];
  fenced := [(2, demo_sn)]; leases := []; marked := []; locked := []; closing := None |}.
Definition demo_s4 : sys := {| wd := wd demo_s3; checked := []; fenced := [];
  leases := [2]; marked := []; locked := []; closing := None |}.

Definition demo_r1 : sys := {| wd := fst (RemoveIfPresent 100 (wd demo_s1) (Some demo_dev));
  checked := []; fenced := []; leases := []; marked := [2]; locked := []; closing := None |}.
Definition demo_r2 : sys := {| wd := finish_lock (wd demo_r1) 2;
  checked := []; fenced := []; leases := []; marked := []; locked := [2]; closing := None |}.
Definition demo_r3 : sys := {| wd := finish_commit (wd demo_r2) 2;
  checked := []; fenced := []; leases := []; marked := []; locked := []; closing := None |}.
Definition demo_r4 : sys := demo_add demo_r3.

Lemma demo_add_step s : step 100 s (demo_add s).
Proof.
  eapply step_add; [left; reflexivity| |apply surjective_pairing]. lia.
Qed.

Lemma demo_s1_reachable : reachable 100 1 {[1]} demo_s1.
Proof. eapply reachable_step; [constructor|apply demo_add_step]. Qed.

Lemma demo_s4_reachable : reachable 100 1 {[1]} demo_s4.
Proof.
  eapply reachable_step; [eapply reachable_step; [eapply reachable_step|]|].
  - apply demo_s1_reachable.
  - apply (step_check 100 demo_s1 demo_sn 2); vm_compute; reflexivity.
  - apply (step_fence 100 demo_s2 [] [] 2 demo_sn) with
      (l := {| rl_bus := 100; rl_dev := demo_dev; rl_meta := dm_Meta demo_sn; rl_ctx := 1;
               rl_token := 1; rl_active := true; rl_removing := false; rl_done := false;
               rl_readers := 0; rl_writer := false |}); vm_compute; reflexivity.
  - apply (step_granted 100 demo_s3 [] [] 2 demo_sn); vm_compute; reflexivity.
Qed.

Lemma demo_r3_reachable : reachable 100 1 {[1]} demo_r3.
Proof.
  eapply reachable_step; [eapply reachable_step; [eapply reachable_step|]|].
  - apply demo_s1_reachable.
  - apply (step_mark 100 demo_s1 (wd demo_r1) 2 demo_sn).
    apply removes_dev with (Some demo_dev). vm_compute. reflexivity.
  - apply (step_lock 100 demo_r1 [] [] 2) with
      (l := {| rl_bus := 100; rl_dev := demo_dev; rl_meta := dm_Meta demo_sn; rl_ctx := 1;
               rl_token := 1; rl_active := true; rl_removing := true; rl_done := false;
               rl_readers := 0; rl_writer := false |}); vm_compute; reflexivity.
  - apply (step_commit 100 demo_r2 [] [] 2). reflexivity.
Qed.

Lemma bus_topology_consistent_witness :
  length (devices (vb (wd demo_s1))) = 1%nat /\
  NoDup (bd_dev <$> devices (vb (wd demo_s1))).
Proof.
  split; [vm_compute; reflexivity|].
  exact (proj1 (bus_topology_consistent 100 1 {[1]} demo_s1 ltac:(lia) demo_s1_reachable)).
Defined.

Lemma lease_fences_removal_witness :
  exists d, d ∈ devices (vb (wd demo_s4)) /\ bd_lifecycle d = 2 /\
    bd_ctx d ∉ cancelled (wd demo_s4).
Proof.
  destruct (lease_fences_removal 100 1 {[1]} demo_s4 2 ltac:(lia) demo_s4_reachable
    ltac:(by left)) as (d & l & Hd & Ha & _ & _ & _ & Hc & _).
  exists d. split; [exact Hd|]. split; [exact Ha | exact Hc].
Defined.

Lemma stale_snapshot_inert_witness :
  AuthenticatesRegistration 100 (wd demo_s1) demo_sn = true /\
  AuthenticatesRegistration 100 (wd demo_r4) demo_sn = false /\
  Devices (wd demo_r4) = [demo_dev].
Proof.
  split; [vm_compute; reflexivity|]. split; [|vm_compute; reflexivity].
  eapply (stale_snapshot_inert 100 1 {[1]} demo_r3 demo_r4 demo_sn 2
    {| rl_bus := 100; rl_dev := demo_dev; rl_meta := dm_Meta demo_sn; rl_ctx := 1;
       rl_token := 1; rl_active := false; rl_removing := true; rl_done := true;
       rl_readers := 0; rl_writer := false |}).
  - lia.
  - exact demo_r3_reachable.
  - reflexivity.
  - vm_compute. reflexivity.
  - reflexivity.
  - apply rtc_once, demo_add_step.
Defined.

Lemma add_registration_correct_witness :
  exists w' sn, addRegistration 100 (wd demo_r3) (Some demo_dev) true 4294967295 [] = (w', Ok sn) /\
    AuthenticatesRegistration 100 w' sn = true /\ ExportBusID (dm_Meta sn) = Ok (numeric_busid 1 1).
Proof.
  destruct (addRegistration 100 (wd demo_r3) (Some demo_dev) true 4294967295 [])
    as [w' [sn|e]] eqn:E.
  2: { assert (H : is_ok (snd (addRegistration 100 (wd demo_r3) (Some demo_dev) true 4294967295 []))
         = true) by (vm_compute; reflexivity).
       rewrite E in H. discriminate H. }
  exists w', sn. split; [reflexivity|].
  pose proof (add_registration_correct 100 1 {[1]} demo_r3 (Some demo_dev) true 4294967295 [] w'
    (Ok sn) ltac:(lia) demo_r3_reachable ltac:(lia) ltac:(left; reflexivity) E)
    as (Hid & Hexp & _ & Hauth & _).
  split; [exact Hauth|]. rewrite Hexp. f_equal. f_equal.
  assert (H : match snd (addRegistration 100 (wd demo_r3) (Some demo_dev) true 4294967295 []) with
              | Ok sn => DevID (dm_Meta sn) =? 1 | Err _ => false end = true)
    by (vm_compute; reflexivity).
  rewrite E in H. apply Z.eqb_eq. exact H.
Defined.

Definition demo_closed : sys := {| wd := fst (CloseIfEmptyContext
    (fst (GetBusEmptyContext (wd demo_s0))) 1);
  checked := []; fenced := []; leases := []; marked := []; locked := [];
  closing := Some ([], false) |}.

Lemma closed_bus_drains_witness :
  closed (vb (wd demo_closed)) = true /\
  exists e, addRegistration 100 (wd demo_closed) (Some demo_dev) true 5 [] =
    (wd demo_closed, Err e).
Proof.
  split; [reflexivity|].
  apply (closed_bus_drains 100 1 {[1]} demo_closed); [lia| |reflexivity].
  eapply reachable_step; [eapply reachable_step; [constructor|]|].
  - eapply step_empty. apply surjective_pairing.
  - apply (step_close_empty 100 (on_world demo_s0 (fst (GetBusEmptyContext (wd demo_s0)))) 1
      (wd demo_closed)). vm_compute. reflexivity.
Defined.

Lemma import_by_name_exact_witness :
  GetDeviceImportSnapshotByBusID 100 (wd demo_s1) (numeric_busid 1 1) = Some demo_sn.
Proof.
  destruct (import_by_name_exact 100 1 {[1]} demo_s1 ltac:(lia) demo_s1_reachable) as [H _].
  etransitivity; [apply (H (new_entry (wd demo_s0) demo_dev true 1 []))|].
  - vm_compute. left.
  - vm_compute. reflexivity.
  - vm_compute. reflexivity.
Defined.
