(* ===== verification/EndpointWorker.v ===== *)
(** * Endpoint workers (src/internal/server/usb/endpoint_scheduler.go)

    Each scheduled endpoint has one worker with a pool of 64 job slots, a ring
    of queued slot indices, a stack of free ones and at most one job in flight.
    The connection's command reader enqueues, unlinks and resets; the worker's
    goroutine claims, waits for service windows, transfers ownership to a
    response and finishes.  Every operation is one section under the worker's
    mutex.  Instants are nanoseconds; the wall clock is an argument.  A host
    gives every submission a sequence number of its own, which the enqueue
    step asks for. *)

From S2P Require Import Prelude Bytes UsbIp.

(** ** State *)

Definition endpointQueueCapacity : nat := 64.

Inductive endpointWorkerKind := interruptInWorker | isoInWorker | isoOutWorker | genericInWorker.

#[export] Instance endpointWorkerKind_eq_dec : EqDecision endpointWorkerKind.
Proof. solve_decision. Defined.

Record endpointJob := {
  seq_ : Z;
  xferLen : Z;
  serviceAt : Z;
  serviceEnd : Z;
  duration : Z;
  queuedAt : Z;
  job_generation : Z;
  mediaGeneration : Z;
  payload : list Z;
  packets : list IsoPacketDescriptor;
  job_cancelled : bool;
  responseStarted : bool;
  sideEffectStarted : bool;
}.

(** [telemetry]: enqueued, completed, unlinked, overflow, reanchored. *)
Record telemetry := {
  t_enqueued : Z;
  t_completed : Z;
  t_unlinked : Z;
  t_overflow : Z;
  t_reanchored : Z;
}.

(** [inFlight] is [None] for [-1]. *)
Record endpointWorker := {
  kind : endpointWorkerKind;
  interval : Z;
  slots : list endpointJob;
  order : list nat;
  orderHead : nat;
  orderCount : nat;
  free : list nat;
  freeCount : nat;
  inFlight : option nat;
  w_generation : Z;
  cursor : Z;
  highWater : nat;
  counts : telemetry;
}.

Definition zero_job : endpointJob := {|
  seq_ := 0; xferLen := 0; serviceAt := zero_time; serviceEnd := zero_time; duration := 0;
  queuedAt := zero_time; job_generation := 0; mediaGeneration := 0; payload := []; packets := [];
  job_cancelled := false; responseStarted := false; sideEffectStarted := false |}.

(** The queue part of newEndpointWorkerWithClock. *)
Definition newEndpointWorker (k : endpointWorkerKind) (iv : Z) : endpointWorker := {|
  kind := k; interval := if iv <=? 0 then 1000000 else iv;
  slots := replicate endpointQueueCapacity zero_job;
  order := replicate endpointQueueCapacity 0%nat; orderHead := 0; orderCount := 0;
  free := map (fun i => endpointQueueCapacity - 1 - i)%nat (seq 0 endpointQueueCapacity);
  freeCount := endpointQueueCapacity; inFlight := None; w_generation := 1;
  cursor := zero_time; highWater := 0;
  counts := {| t_enqueued := 0; t_completed := 0; t_unlinked := 0; t_overflow := 0;
               t_reanchored := 0 |} |}.

Definition job_at (w : endpointWorker) (idx : nat) : endpointJob := nth idx (slots w) zero_job.

(** Assignments to parts of the worker. *)
Definition set_slot (idx : nat) (j : endpointJob) (w : endpointWorker) : endpointWorker := {|
  kind := kind w; interval := interval w; slots := <[idx := j]> (slots w); order := order w;
  orderHead := orderHead w; orderCount := orderCount w; free := free w;
  freeCount := freeCount w; inFlight := inFlight w; w_generation := w_generation w;
  cursor := cursor w; highWater := highWater w; counts := counts w |}.

Definition set_queue (o : list nat) (h c : nat) (w : endpointWorker) : endpointWorker := {|
  kind := kind w; interval := interval w; slots := slots w; order := o; orderHead := h;
  orderCount := c; free := free w; freeCount := freeCount w; inFlight := inFlight w;
  w_generation := w_generation w; cursor := cursor w; highWater := highWater w;
  counts := counts w |}.

Definition set_free (f : list nat) (c : nat) (w : endpointWorker) : endpointWorker := {|
  kind := kind w; interval := interval w; slots := slots w; order := order w;
  orderHead := orderHead w; orderCount := orderCount w; free := f; freeCount := c;
  inFlight := inFlight w; w_generation := w_generation w; cursor := cursor w;
  highWater := highWater w; counts := counts w |}.

Definition set_inFlight (i : option nat) (w : endpointWorker) : endpointWorker := {|
  kind := kind w; interval := interval w; slots := slots w; order := order w;
  orderHead := orderHead w; orderCount := orderCount w; free := free w;
  freeCount := freeCount w; inFlight := i; w_generation := w_generation w;
  cursor := cursor w; highWater := highWater w; counts := counts w |}.

Definition set_clock (g c : Z) (w : endpointWorker) : endpointWorker := {|
  kind := kind w; interval := interval w; slots := slots w; order := order w;
  orderHead := orderHead w; orderCount := orderCount w; free := free w;
  freeCount := freeCount w; inFlight := inFlight w; w_generation := g; cursor := c;
  highWater := highWater w; counts := counts w |}.

Definition set_counts (hw : nat) (t : telemetry) (w : endpointWorker) : endpointWorker := {|
  kind := kind w; interval := interval w; slots := slots w; order := order w;
  orderHead := orderHead w; orderCount := orderCount w; free := free w;
  freeCount := freeCount w; inFlight := inFlight w; w_generation := w_generation w;
  cursor := cursor w; highWater := hw; counts := t |}.

Definition count (enq comp unl ovf rean : Z) (w : endpointWorker) : endpointWorker :=
  let t := counts w in
  set_counts (highWater w)
    {| t_enqueued := u64 (t_enqueued t + enq); t_completed := u64 (t_completed t + comp);
       t_unlinked := u64 (t_unlinked t + unl); t_overflow := u64 (t_overflow t + ovf);
       t_reanchored := u64 (t_reanchored t + rean) |} w.

(** ** Queue sections *)

Definition order_index (w : endpointWorker) (position : nat) : nat :=
  ((orderHead w + position) mod endpointQueueCapacity)%nat.

Definition order_at (w : endpointWorker) (position : nat) : nat :=
  nth (order_index w position) (order w) 0%nat.

Definition popQueuedLocked (w : endpointWorker) : endpointWorker * nat :=
  (set_queue (order w) ((orderHead w + 1) mod endpointQueueCapacity) (orderCount w - 1) w,
   nth (orderHead w) (order w) 0%nat).

(** The shift loop of removeQueuedLocked, [n] iterations from [i]. *)
Fixpoint shift_loop (n i : nat) (w : endpointWorker) : endpointWorker :=
  match n with
  | O => w
  | S n => shift_loop n (S i)
             (set_queue (<[order_index w i := order_at w (S i)]> (order w))
                (orderHead w) (orderCount w) w)
  end.

Definition removeQueuedLocked (position : nat) (w : endpointWorker) : endpointWorker :=
  let w := shift_loop (orderCount w - 1 - position) position w in
  set_queue (order w) (orderHead w) (orderCount w - 1) w.

Definition releaseSlotLocked (idx : nat) (w : endpointWorker) : endpointWorker :=
  set_free (<[freeCount w := idx]> (free w)) (S (freeCount w)) (set_slot idx zero_job w).

(** [job.serviceAt = at; job.serviceEnd = end]. *)
Definition set_window (a e : Z) (j : endpointJob) : endpointJob := {|
  seq_ := seq_ j; xferLen := xferLen j; serviceAt := a; serviceEnd := e; duration := duration j;
  queuedAt := queuedAt j; job_generation := job_generation j;
  mediaGeneration := mediaGeneration j; payload := payload j; packets := packets j;
  job_cancelled := job_cancelled j; responseStarted := responseStarted j;
  sideEffectStarted := sideEffectStarted j |}.

Definition set_flags (c r e : bool) (j : endpointJob) : endpointJob := {|
  seq_ := seq_ j; xferLen := xferLen j; serviceAt := serviceAt j; serviceEnd := serviceEnd j;
  duration := duration j; queuedAt := queuedAt j; job_generation := job_generation j;
  mediaGeneration := mediaGeneration j; payload := payload j; packets := packets j;
  job_cancelled := c; responseStarted := r; sideEffectStarted := e |}.

Definition cancel_job (j : endpointJob) : endpointJob :=
  set_flags true (responseStarted j) (sideEffectStarted j) j.

(** The loop of reflowQueueFromPositionLocked: [n] entries from [i]. *)
Fixpoint reflow_loop (n i : nat) (anchor : Z) (w : endpointWorker) : endpointWorker * Z :=
  match n with
  | O => (w, anchor)
  | S n =>
      let idx := order_at w i in
      let j := job_at w idx in
      let e := anchor + duration j in
      reflow_loop n (S i) e (set_slot idx (set_window anchor e j) w)
  end.

Definition reflowQueueFromPositionLocked (position : nat) (anchor now : Z)
    (w : endpointWorker) : endpointWorker :=
  let anchor := if (0 <? interval w) && (interval w <=? time_sub now anchor)
                then now else anchor in
  let '(w, anchor) := reflow_loop (orderCount w - position) position anchor w in
  set_clock (w_generation w) anchor w.

Definition reflowQueueLocked (anchor now : Z) (w : endpointWorker) : endpointWorker :=
  reflowQueueFromPositionLocked 0 anchor now w.

(** ** The reader's operations *)

Definition enqueueWithGeneration (sq xlen : Z) (data : list Z)
    (pkts : list IsoPacketDescriptor) (now media : Z) (w : endpointWorker) :
    endpointWorker * bool :=
  match freeCount w with
  | O => (count 0 0 0 1 0 w, false)
  | S fc =>
      let idx := nth fc (free w) 0%nat in
      let dur := if bool_decide (kind w = interruptInWorker) then interval w
                 else Z.of_nat (length pkts) * interval w in
      let start := if (cursor w =? zero_time) ||
                      ((0 <? interval w) && (interval w <=? time_sub now (cursor w)))
                   then now else cursor w in
      let job := {| seq_ := sq; xferLen := xlen; serviceAt := start; serviceEnd := start + dur;
        duration := dur; queuedAt := now; job_generation := w_generation w;
        mediaGeneration := media; payload := data; packets := pkts; job_cancelled := false;
        responseStarted := false; sideEffectStarted := false |} in
      let w1 := set_slot idx job (set_free (free w) fc w) in
      let w2 := set_clock (w_generation w) (start + dur) w1 in
      let w3 := set_queue (<[order_index w2 (orderCount w2) := idx]> (order w2))
                  (orderHead w2) (S (orderCount w2)) w2 in
      let w4 := set_counts (Nat.max (highWater w3) (orderCount w3)) (counts w3) w3 in
      (count 1 0 0 0 0 w4, true)
  end.

(** The scan of unlinkAt over the queue: [n] positions from [position]. *)
Fixpoint unlink_scan (n position : nat) (sq now : Z) (w : endpointWorker) :
    endpointWorker * bool :=
  match n with
  | O => (w, false)
  | S n =>
      let idx := order_at w position in
      let job := job_at w idx in
      if negb (seq_ job =? sq) then unlink_scan n (S position) sq now w
      else
        let anchor := serviceAt job in
        let w := removeQueuedLocked position w in
        let w := releaseSlotLocked idx w in
        let w := reflowQueueFromPositionLocked position anchor now w in
        (count 0 0 1 0 0 w, true)
  end.

Definition unlinkAt (sq now : Z) (w : endpointWorker) : endpointWorker * bool :=
  match inFlight w with
  | Some idx =>
      let job := job_at w idx in
      if (seq_ job =? sq) && negb (responseStarted job) && negb (sideEffectStarted job) &&
         negb (job_cancelled job)
      then
        let w := set_slot idx (cancel_job job) w in
        let w := reflowQueueLocked (serviceAt job) now w in
        (count 0 0 1 0 0 w, true)
      else unlink_scan (orderCount w) 0 sq now w
  | None => unlink_scan (orderCount w) 0 sq now w
  end.

(** The drain loop of reset. *)
Fixpoint drain (n : nat) (w : endpointWorker) : endpointWorker :=
  match n with
  | O => w
  | S n => let '(w, idx) := popQueuedLocked w in drain n (releaseSlotLocked idx w)
  end.

Definition reset (w : endpointWorker) : endpointWorker :=
  let w := set_clock (u64 (w_generation w + 1)) zero_time w in
  let w := match inFlight w with
           | Some idx => set_slot idx (cancel_job (job_at w idx)) w
           | None => w
           end in
  drain (orderCount w) w.

(** ** The worker's operations *)

Definition claimNext (w : endpointWorker) : endpointWorker * option nat :=
  match inFlight w with
  | Some idx => (w, Some idx)
  | None =>
      if (orderCount w =? 0)%nat then (w, None)
      else let '(w, idx) := popQueuedLocked w in (set_inFlight (Some idx) w, Some idx)
  end.

Definition finishCurrentWithRetention (idx : nat) (completed retain : bool) (now : Z)
    (w : endpointWorker) : endpointWorker :=
  if bool_decide (inFlight w = Some idx) then
    let job := job_at w idx in
    if retain && negb (job_cancelled job) && (job_generation job =? w_generation w) then
      let a := now + interval w in
      let w := set_slot idx (set_window a (a + duration job) job) w in
      reflowQueueLocked (a + duration job) now w
    else
      let w := if completed then count 0 1 0 0 0 w else w in
      set_inFlight None (releaseSlotLocked idx w)
  else w.

Definition job_live (w : endpointWorker) (idx : nat) : bool :=
  bool_decide (inFlight w = Some idx) && negb (job_cancelled (job_at w idx)) &&
  (job_generation (job_at w idx) =? w_generation w).

Definition currentActive (w : endpointWorker) (idx : nat) : bool := job_live w idx.

(** [granted] is the answer of the optional input-presentation source. *)
Definition markResponseStartedWithAdmission (idx : nat) (requireAdmission granted : bool)
    (w : endpointWorker) : endpointWorker * bool :=
  if negb (job_live w idx) then (w, false)
  else if requireAdmission && negb granted then (w, false)
  else
    let j := job_at w idx in
    (set_slot idx (set_flags (job_cancelled j) true (sideEffectStarted j) j) w, true).

Definition beginSideEffect (idx : nat) (w : endpointWorker) : endpointWorker * bool :=
  if negb (job_live w idx) then (w, false)
  else
    let j := job_at w idx in
    (set_slot idx (set_flags (job_cancelled j) (responseStarted j) true j) w, true).

Definition phaseDeadline (idx : nat) (phase now : Z) (w : endpointWorker) :
    endpointWorker * option Z :=
  if negb (job_live w idx) then (w, None)
  else
    let j := job_at w idx in
    let deadline := serviceAt j + phase * interval w in
    if bool_decide (kind w = isoOutWorker) && (0 <? phase) then (w, Some deadline)
    else
      let reanchorAfter := if bool_decide (kind w = isoOutWorker)
                           then Z.max (interval w) (duration j) else interval w in
      if (0 <? reanchorAfter) && (reanchorAfter <=? time_sub now deadline) then
        let shift := time_sub now deadline in
        let e := serviceEnd j + shift in
        let w := set_slot idx (set_window (serviceAt j + shift) e j) w in
        let w := reflowQueueLocked e now w in
        (count 0 0 0 0 1 w, Some now)
      else (w, Some deadline).

(** ** The queue as a list *)

#[global] Arguments endpointQueueCapacity : simpl never.

Definition queued (w : endpointWorker) : list nat := map (order_at w) (seq 0 (orderCount w)).

Definition current (w : endpointWorker) : list nat :=
  match inFlight w with Some i => [i] | None => [] end.

(** All 64 slots, each in exactly one place. *)
Definition pool (w : endpointWorker) : list nat := take (freeCount w) (free w) ++ queued w ++ current w.

Record pool_ok (w : endpointWorker) : Prop := {
  p_slots : length (slots w) = 64%nat;
  p_order : length (order w) = 64%nat;
  p_free : length (free w) = 64%nat;
  p_head : (orderHead w < 64)%nat;
  p_count : (freeCount w <= 64)%nat;
  p_part : pool w ≡ₚ seq 0 64;
}.

Lemma length_queued w : length (queued w) = orderCount w.
Proof. unfold queued. by rewrite length_map, length_seq. Qed.

Lemma queued_lookup w k : (k < orderCount w)%nat -> queued w !! k = Some (order_at w k).
Proof.
  intros Hk. unfold queued. rewrite list_lookup_fmap, lookup_seq_lt by done. done.
Qed.

Lemma pool_bounds w :
  pool_ok w -> (freeCount w + orderCount w + length (current w) = 64)%nat.
Proof.
  intros [_ _ Hf _ Hc Hp]. apply Permutation_length in Hp. unfold pool in Hp.
  rewrite !length_app, length_take, length_queued, length_seq, Hf in Hp. lia.
Qed.

Lemma ring_index_inj h i j :
  (i < 64)%nat -> (j < 64)%nat -> ((h + i) mod 64 = (h + j) mod 64)%nat -> i = j.
Proof.
  intros Hi Hj E%(f_equal Z.of_nat). rewrite !Nat2Z.inj_mod in E.
  change (Z.of_nat 64) with 64 in E. Z.div_mod_to_equations. lia.
Qed.

Lemma order_index_lt w k : (order_index w k < 64)%nat.
Proof. unfold order_index, endpointQueueCapacity. apply Nat.mod_upper_bound. lia. Qed.

Lemma order_at_insert w k idx j :
  length (order w) = 64%nat -> (k < 64)%nat -> (j < 64)%nat ->
  nth (order_index w j) (<[order_index w k := idx]> (order w)) 0%nat =
  if bool_decide (j = k) then idx else order_at w j.
Proof.
  intros Hl Hk Hj. pose proof (order_index_lt w k). unfold order_at.
  case_bool_decide as E.
  - subst. apply nth_lookup_Some. apply list_lookup_insert_eq. lia.
  - rewrite !nth_lookup, list_lookup_insert_ne; [done|].
    intros Ei. apply E. by apply (ring_index_inj (orderHead w)).
Qed.

Lemma order_at_set_queue o c w k :
  order_at (set_queue o (orderHead w) c w) k = nth (order_index w k) o 0%nat.
Proof. done. Qed.

Lemma queued_pop w w' idx :
  (orderHead w < 64)%nat -> (0 < orderCount w)%nat -> popQueuedLocked w = (w', idx) ->
  queued w = idx :: queued w'.
Proof.
  intros Hh Hc [<- <-]%pair_equal_spec. unfold queued. cbn [orderCount set_queue].
  destruct (orderCount w) as [|c] eqn:Ec; [lia|]. rewrite Nat.sub_1_r. cbn [Nat.pred seq map].
  f_equal.
  - unfold order_at, order_index, endpointQueueCapacity. by rewrite Nat.add_0_r, Nat.mod_small.
  - rewrite <- seq_shift, map_map. apply map_ext. intros i.
    unfold order_at, order_index, endpointQueueCapacity. cbn [orderHead order set_queue].
    rewrite Nat.Div0.add_mod_idemp_l. do 2 f_equal. lia.
Qed.

Lemma queued_push w o h c idx w' :
  length (order w) = 64%nat -> (orderCount w < 64)%nat ->
  o = <[order_index w (orderCount w) := idx]> (order w) -> h = orderHead w ->
  c = S (orderCount w) -> w' = set_queue o h c w -> queued w' = queued w ++ [idx].
Proof.
  intros Hl Hc -> -> -> ->. unfold queued. simpl orderCount.
  rewrite seq_S, map_app. cbn [map Nat.add]. f_equal.
  - apply map_ext_in. intros i [_ Hi]%in_seq. simpl in Hi.
    rewrite order_at_set_queue, order_at_insert by lia. by rewrite bool_decide_false by lia.
  - f_equal. rewrite order_at_set_queue, order_at_insert by lia. by rewrite bool_decide_true.
Qed.

(** The shift loop moves the next entry into each of its positions. *)
Lemma shift_loop_spec n i w :
  length (order w) = 64%nat -> (i + n < 64)%nat ->
  let w' := shift_loop n i w in
  orderHead w' = orderHead w /\ orderCount w' = orderCount w /\ length (order w') = 64%nat /\
  slots w' = slots w /\ free w' = free w /\ freeCount w' = freeCount w /\
  inFlight w' = inFlight w /\ interval w' = interval w /\ w_generation w' = w_generation w /\
  forall k, (k < 64)%nat ->
    order_at w' k = if (i <=? k)%nat && (k <? i + n)%nat then order_at w (S k) else order_at w k.
Proof.
  revert i w. induction n as [|n IH]; intros i w Hl Hi; simpl.
  { split_and!; try done. intros k Hk. case_if; [bool_prop; lia|done]. }
  set (w1 := set_queue _ _ _ w).
  assert (Hl1 : length (order w1) = 64%nat) by (simpl; by rewrite length_insert).
  destruct (IH (S i) w1 Hl1 ltac:(lia)) as (H1 & H2 & H3 & H4 & H5 & H6 & H7 & H8 & H9 & Hat).
  split_and!; try done. intros k Hk. rewrite Hat by done.
  assert (Hat1 : forall m, (m < 64)%nat ->
    order_at w1 m = if bool_decide (m = i) then order_at w (S i) else order_at w m).
  { intros m Hm. unfold w1. rewrite order_at_set_queue. apply order_at_insert; lia. }
  repeat case_if; bool_split; try lia; rewrite ?Hat1 by lia; try (case_bool_decide; try lia);
    try done; by subst.
Qed.

Lemma queued_remove w p :
  pool_ok w -> (p < orderCount w)%nat ->
  let w' := removeQueuedLocked p w in
  queued w' = take p (queued w) ++ drop (S p) (queued w) /\
  orderHead w' = orderHead w /\ length (order w') = 64%nat /\ slots w' = slots w /\
  free w' = free w /\ freeCount w' = freeCount w /\ inFlight w' = inFlight w /\
  interval w' = interval w /\ w_generation w' = w_generation w.
Proof.
  intros Hok Hp. pose proof (pool_bounds w Hok) as Hb. destruct Hok.
  destruct (shift_loop_spec (orderCount w - 1 - p) p w p_order0 ltac:(lia))
    as (H1 & H2 & H3 & H4 & H5 & H6 & H7 & H8 & H9 & Hat).
  unfold removeQueuedLocked. simpl. split_and!; try done.
  apply list_eq. intros k. destruct (decide (k < orderCount w - 1)%nat) as [Hk|Hk].
  - rewrite queued_lookup by (simpl; lia).
    transitivity (Some (order_at (shift_loop (orderCount w - 1 - p) p w) k)); [done|].
    rewrite Hat by lia. case_if; bool_split.
    + rewrite lookup_app_r by (rewrite length_take, length_queued; lia).
      rewrite length_take, length_queued, lookup_drop, queued_lookup by lia. do 2 f_equal. lia.
    + rewrite lookup_app_l by (rewrite length_take, length_queued; lia).
      rewrite lookup_take_lt, queued_lookup by lia. done.
    + lia.
  - rewrite !lookup_ge_None_2; [done| |].
    + rewrite length_app, length_take, length_drop, length_queued. lia.
    + rewrite length_queued. simpl. lia.
Qed.

(** ** Frames: operations that only move service windows *)

Definition view (j : endpointJob) : Z * bool * bool :=
  (seq_ j, job_cancelled j, responseStarted j).

Record frame (w w' : endpointWorker) : Prop := {
  fr_order : order w' = order w;
  fr_head : orderHead w' = orderHead w;
  fr_count : orderCount w' = orderCount w;
  fr_free : free w' = free w;
  fr_fcount : freeCount w' = freeCount w;
  fr_flight : inFlight w' = inFlight w;
  fr_len : length (slots w') = length (slots w);
  fr_view : forall k, view (job_at w' k) = view (job_at w k);
}.

Lemma frame_refl w : frame w w.
Proof. by split. Qed.

Lemma frame_trans w1 w2 w3 : frame w1 w2 -> frame w2 w3 -> frame w1 w3.
Proof. intros [] []. split; congruence. Qed.

Lemma frame_queued w w' : frame w w' -> queued w' = queued w.
Proof.
  intros []. unfold queued, order_at, order_index. by rewrite fr_order0, fr_head0, fr_count0.
Qed.

Lemma frame_pool w w' : frame w w' -> pool_ok w -> pool_ok w'.
Proof.
  intros Hf. pose proof (frame_queued _ _ Hf) as Hq. destruct Hf.
  intros [H1 H2 H3 H4 H5 H6]. split; try congruence; try lia.
  unfold pool, current in *. rewrite Hq, fr_free0, fr_fcount0, fr_flight0. done.
Qed.

Lemma job_at_set_slot idx j w k :
  (idx < length (slots w))%nat ->
  job_at (set_slot idx j w) k = if bool_decide (k = idx) then j else job_at w k.
Proof.
  intros Hi. unfold job_at. simpl. rewrite !nth_lookup. case_bool_decide.
  - subst. by rewrite list_lookup_insert_eq.
  - by rewrite list_lookup_insert_ne.
Qed.

Lemma frame_set_slot idx j w : view j = view (job_at w idx) -> frame w (set_slot idx j w).
Proof.
  intros Hv. split; simpl; try done; [by rewrite length_insert|]. intros k.
  destruct (decide (idx < length (slots w))%nat) as [Hi|Hi].
  - rewrite job_at_set_slot by done. case_bool_decide; by subst.
  - unfold job_at. simpl. by rewrite list_insert_ge by lia.
Qed.

Lemma frame_reflow p a now w : frame w (reflowQueueFromPositionLocked p a now w).
Proof.
  unfold reflowQueueFromPositionLocked.
  match goal with |- context [if ?c then now else a] => generalize (if c then now else a) end.
  intros anchor.
  assert (Hl : forall (n i : nat) (b : Z) (w : endpointWorker), frame w (fst (reflow_loop n i b w))).
  { clear. induction n as [|n IH]; intros i b w; simpl; [apply frame_refl|].
    eapply frame_trans; [|apply IH]. by apply frame_set_slot. }
  specialize (Hl (orderCount w - p)%nat p anchor w).
  destruct (reflow_loop _ _ _ _) as [w1 a1]. simpl in *.
  destruct Hl; by split.
Qed.

Lemma frame_count e c u o r w : frame w (count e c u o r w).
Proof. by split. Qed.

Lemma frame_clock g c w : frame w (set_clock g c w).
Proof. by split. Qed.

#[export] Hint Resolve frame_refl frame_reflow frame_count frame_clock : viiper.

(** ** The connection's view of one worker

    The worker goroutine is idle, holds the claimed job, or has started its
    response.  Ghost lists record the sequence numbers accepted, answered with
    RET_SUBMIT, reported as unlinked, and dropped by reset or an endpoint
    failure. *)
Inductive wstage := Idle | Holding (idx : nat) | Responded (idx : nat).

Record wsys := {
  ws : endpointWorker;
  stage : wstage;
  accepted : list Z;
  submitted : list Z;
  unlinked : list Z;
  dropped : list Z;
}.

Definition seqs (w : endpointWorker) (l : list nat) : list Z := map (fun i => seq_ (job_at w i)) l.

Inductive wstep (s : wsys) : wsys -> Prop :=
| wstep_enqueue sq xlen data pkts now media w' :
    sq ∉ accepted s ->
    enqueueWithGeneration sq xlen data pkts now media (ws s) = (w', true) ->
    wstep s {| ws := w'; stage := stage s; accepted := sq :: accepted s;
               submitted := submitted s; unlinked := unlinked s; dropped := dropped s |}
| wstep_full sq xlen data pkts now media w' :
    enqueueWithGeneration sq xlen data pkts now media (ws s) = (w', false) ->
    wstep s {| ws := w'; stage := stage s; accepted := accepted s;
               submitted := submitted s; unlinked := unlinked s; dropped := dropped s |}
| wstep_unlink sq now w' b :
    unlinkAt sq now (ws s) = (w', b) ->
    wstep s {| ws := w'; stage := stage s; accepted := accepted s; submitted := submitted s;
               unlinked := if b : bool then sq :: unlinked s else unlinked s;
               dropped := dropped s |}
| wstep_reset :
    wstep s {| ws := reset (ws s); stage := stage s; accepted := accepted s;
               submitted := submitted s; unlinked := unlinked s;
               dropped := seqs (ws s) (queued (ws s)) ++ dropped s |}
| wstep_claim w' idx :
    stage s = Idle -> claimNext (ws s) = (w', Some idx) ->
    wstep s {| ws := w'; stage := Holding idx; accepted := accepted s;
               submitted := submitted s; unlinked := unlinked s; dropped := dropped s |}
| wstep_effect idx w' b :
    stage s = Holding idx -> beginSideEffect idx (ws s) = (w', b) ->
    wstep s {| ws := w'; stage := stage s; accepted := accepted s;
               submitted := submitted s; unlinked := unlinked s; dropped := dropped s |}
| wstep_phase idx phase now w' r :
    stage s = Holding idx -> phaseDeadline idx phase now (ws s) = (w', r) ->
    wstep s {| ws := w'; stage := stage s; accepted := accepted s;
               submitted := submitted s; unlinked := unlinked s; dropped := dropped s |}
| wstep_refused idx req adm w' :
    stage s = Holding idx ->
    markResponseStartedWithAdmission idx req adm (ws s) = (w', false) ->
    wstep s {| ws := w'; stage := stage s; accepted := accepted s;
               submitted := submitted s; unlinked := unlinked s; dropped := dropped s |}
| wstep_respond idx req adm w' :
    stage s = Holding idx ->
    markResponseStartedWithAdmission idx req adm (ws s) = (w', true) ->
    wstep s {| ws := w'; stage := Responded idx; accepted := accepted s;
               submitted := seq_ (job_at (ws s) idx) :: submitted s;
               unlinked := unlinked s; dropped := dropped s |}
| wstep_abandon idx retain now :
    stage s = Holding idx ->
    wstep s {| ws := finishCurrentWithRetention idx false retain now (ws s); stage := Idle;
               accepted := accepted s; submitted := submitted s; unlinked := unlinked s;
               dropped := match inFlight (finishCurrentWithRetention idx false retain now (ws s)) with
                          | Some _ => dropped s
                          | None => seq_ (job_at (ws s) idx) :: dropped s
                          end |}
| wstep_done idx completed now :
    stage s = Responded idx ->
    wstep s {| ws := finishCurrentWithRetention idx completed false now (ws s); stage := Idle;
               accepted := accepted s; submitted := submitted s; unlinked := unlinked s;
               dropped := dropped s |}.

Definition wsys_init (k : endpointWorkerKind) (iv : Z) : wsys := {|
  ws := newEndpointWorker k iv; stage := Idle; accepted := []; submitted := [];
  unlinked := []; dropped := [] |}.

Inductive wreachable (k : endpointWorkerKind) (iv : Z) : wsys -> Prop :=
| wreachable_init : wreachable k iv (wsys_init k iv)
| wreachable_step s s' : wreachable k iv s -> wstep s s' -> wreachable k iv s'.

(** ** The invariant *)

(** Slots holding a job. *)
Definition live (w : endpointWorker) : list nat := queued w ++ current w.

(** What the goroutine's stage says about the job in flight. *)
Definition stage_ok (st : wstage) (w : endpointWorker) : Prop :=
  match st with
  | Idle => forall i, inFlight w = Some i -> responseStarted (job_at w i) = false
  | Holding i => inFlight w = Some i /\ responseStarted (job_at w i) = false
  | Responded i => inFlight w = Some i /\ responseStarted (job_at w i) = true
  end.

(** A live job is accepted; it is answered exactly when its response started;
    it is not reported as unlinked once answered or while not cancelled. *)
Definition job_ok (acc sub unl : list Z) (j : endpointJob) : Prop :=
  seq_ j ∈ acc /\ (seq_ j ∈ sub <-> responseStarted j = true) /\
  (responseStarted j = true \/ job_cancelled j = false -> seq_ j ∉ unl).

Record winv (s : wsys) : Prop := {
  i_pool : pool_ok (ws s);
  i_stage : stage_ok (stage s) (ws s);
  i_seqs : NoDup (seqs (ws s) (live (ws s)));
  i_queued : forall i, i ∈ queued (ws s) ->
    responseStarted (job_at (ws s) i) = false /\ job_cancelled (job_at (ws s) i) = false;
  i_live : forall i, i ∈ live (ws s) ->
    job_ok (accepted s) (submitted s) (unlinked s) (job_at (ws s) i);
  i_sub : NoDup (submitted s) /\ forall q, q ∈ submitted s -> q ∈ accepted s;
  i_unl : NoDup (unlinked s) /\ forall q, q ∈ unlinked s -> q ∈ accepted s;
  i_disj : forall q, q ∈ submitted s -> q ∉ unlinked s;
  i_kept : forall q, q ∈ accepted s ->
    q ∈ submitted s \/ q ∈ unlinked s \/ q ∈ dropped s \/ q ∈ seqs (ws s) (live (ws s));
}.

Lemma pool_NoDup w : pool_ok w -> NoDup (pool w).
Proof. intros Hok. rewrite (p_part _ Hok). apply NoDup_seq. Qed.

Lemma live_NoDup w : pool_ok w -> NoDup (live w).
Proof. intros Hok%pool_NoDup. unfold pool in Hok. by apply list.NoDup_app in Hok as (_ & _ & ?). Qed.

Lemma live_index w i : pool_ok w -> i ∈ live w -> (i < 64)%nat.
Proof.
  intros Hok Hl. assert (i ∈ pool w) as Hp by (unfold pool, live in *; set_solver).
  rewrite (p_part _ Hok), elem_of_seq in Hp. lia.
Qed.

Lemma current_live w i : inFlight w = Some i -> i ∈ live w.
Proof. intros E. unfold live, current. rewrite E. set_solver. Qed.

Lemma elem_of_seqs w l q : q ∈ seqs w l <-> exists i, i ∈ l /\ q = seq_ (job_at w i).
Proof. unfold seqs. rewrite list_elem_of_fmap. naive_solver. Qed.

Lemma seqs_view w w' l :
  (forall i, i ∈ l -> view (job_at w' i) = view (job_at w i)) -> seqs w' l = seqs w l.
Proof.
  intros H. apply map_ext_in. intros i Hi%list_elem_of_In%H. unfold view in Hi. congruence.
Qed.

Lemma job_ok_view acc sub unl j j' : view j' = view j -> job_ok acc sub unl j -> job_ok acc sub unl j'.
Proof. intros [= E1 E2 E3]. unfold job_ok. by rewrite E1, E2, E3. Qed.

Lemma seqs_inj w l i k :
  NoDup (seqs w l) -> i ∈ l -> k ∈ l -> seq_ (job_at w i) = seq_ (job_at w k) -> i = k.
Proof.
  unfold seqs. induction l as [|x l IH]; cbn [map]; [set_solver|].
  intros [Hx Hn]%list.NoDup_cons Hi Hk E. specialize (IH Hn).
  assert (forall m, m ∈ l -> seq_ (job_at w m) <> seq_ (job_at w x)) as Hne.
  { intros m Hm Em. apply Hx. rewrite <- Em. apply list_elem_of_fmap. eauto. }
  set_solver.
Qed.

(** An operation that forgets the jobs of [rest], each of them answered,
    unlinked or dropped, and keeps the others. *)
Lemma winv_shrink s w' st' u' d' rest :
  winv s -> pool_ok w' -> live (ws s) ≡ₚ rest ++ live w' ->
  (forall i, i ∈ queued w' -> i ∈ queued (ws s)) ->
  (forall i, i ∈ live w' -> view (job_at w' i) = view (job_at (ws s) i)) ->
  stage_ok st' w' ->
  (u' = unlinked s \/ exists i, i ∈ rest /\ i ∈ queued (ws s) /\
     u' = seq_ (job_at (ws s) i) :: unlinked s) ->
  (forall q, q ∈ dropped s -> q ∈ d') ->
  (forall i, i ∈ rest -> seq_ (job_at (ws s) i) ∈ submitted s ++ u' ++ d') ->
  winv {| ws := w'; stage := st'; accepted := accepted s; submitted := submitted s;
          unlinked := u'; dropped := d' |}.
Proof.
  intros [] Hp Hl Hq Hv Hst Hu Hd Hr.
  assert (Hin : forall i, i ∈ live w' -> i ∈ live (ws s)) by (intros i Hi; rewrite Hl; set_solver).
  assert (Hs : seqs w' (live w') = seqs (ws s) (live w')) by by apply seqs_view.
  assert (Hperm : seqs (ws s) (live (ws s)) ≡ₚ seqs (ws s) rest ++ seqs (ws s) (live w')).
  { unfold seqs. rewrite <- map_app. by apply Permutation_map. }
  rewrite Hperm in i_seqs0. apply list.NoDup_app in i_seqs0 as (_ & Hdis & Hnd).
  assert (Hsub : forall q, q ∈ unlinked s -> q ∈ u') by (destruct Hu as [->|(?&?&?&->)]; set_solver).
  split; cbn [ws stage accepted submitted unlinked dropped]; try done.
  - by rewrite Hs.
  - intros i Hi. pose proof (Hv i ltac:(unfold live; set_solver)) as [= _ -> ->]. auto.
  - intros i Hi. pose proof (i_live0 i (Hin i Hi)) as Hj.
    apply (job_ok_view _ _ _ (job_at (ws s) i)); [auto|].
    destruct Hu as [->|(k & Hk & Hkq & ->)]; [done|]. destruct Hj as (H1 & H2 & H3).
    split_and!; try done. intros Hc. apply not_elem_of_cons. split; [|auto].
    intros E. apply (Hdis (seq_ (job_at (ws s) k))); apply elem_of_seqs; eauto.
  - destruct Hu as [->|(k & Hk & Hkq & ->)]; [done|]. destruct i_unl0 as [Hn Ha].
    destruct (i_queued0 k Hkq) as [E1 E2].
    destruct (i_live0 k ltac:(unfold live; set_solver)) as (H1 & H2 & H3).
    split; [constructor; auto|]. set_solver.
  - destruct Hu as [->|(k & Hk & Hkq & ->)]; [done|].
    destruct (i_queued0 k Hkq) as [E1 E2].
    destruct (i_live0 k ltac:(unfold live; set_solver)) as (H1 & H2 & H3).
    intros q Hqs. apply not_elem_of_cons. split; [|auto]. intros ->. apply H2 in Hqs. congruence.
  - intros q Hqa. rewrite Hs. destruct (i_kept0 q Hqa) as [?|[?|[?|Hlv]]]; auto.
    rewrite Hperm, elem_of_app in Hlv. destruct Hlv as [(i & Hi & ->)%elem_of_seqs|?]; auto.
    specialize (Hr i Hi). rewrite !elem_of_app in Hr. tauto.
Qed.

(** Moving service windows keeps the invariant. *)
Lemma winv_frame s w' :
  frame (ws s) w' -> winv s ->
  winv {| ws := w'; stage := stage s; accepted := accepted s; submitted := submitted s;
          unlinked := unlinked s; dropped := dropped s |}.
Proof.
  intros Hf Hi. pose proof (frame_queued _ _ Hf) as Eq. pose proof (fr_flight _ _ Hf) as Ef.
  assert (El : live w' = live (ws s)) by (unfold live, current; by rewrite Eq, Ef).
  eapply (winv_shrink s w' _ _ _ []); eauto; try by destruct Hi.
  - eapply frame_pool; [done|by destruct Hi].
  - by rewrite El.
  - by rewrite Eq.
  - intros i _. apply (fr_view _ _ Hf).
  - pose proof (i_stage _ Hi) as Hst. unfold stage_ok in *. rewrite Ef.
    assert (Hv : forall k, responseStarted (job_at w' k) = responseStarted (job_at (ws s) k)).
    { intros k. pose proof (fr_view _ _ Hf k) as [= _ _ ->]. done. }
    destruct (stage s); setoid_rewrite Hv; done.
  - intros i Hr. by apply not_elem_of_nil in Hr.
Qed.

Lemma winv_init k iv : winv (wsys_init k iv).
Proof.
  split; simpl; try done; try (intros q Hq; by apply not_elem_of_nil in Hq);
    try (split; [constructor|intros q Hq; by apply not_elem_of_nil in Hq]).
  - split; try done; simpl; try lia.
    replace (pool (newEndpointWorker k iv)) with (reverse (seq 0 64)) by (vm_compute; reflexivity).
    apply reverse_Permutation.
  - constructor.
Qed.

(** A flag of the job in flight is raised, reported as answered or unlinked. *)
Lemma winv_reflag s idx j st' sub' unl' :
  winv s -> inFlight (ws s) = Some idx -> seq_ j = seq_ (job_at (ws s) idx) ->
  stage_ok st' (set_slot idx j (ws s)) ->
  job_ok (accepted s) sub' unl' j ->
  (sub' = submitted s \/
   sub' = seq_ j :: submitted s /\ (seq_ j ∉ submitted s) /\ (seq_ j ∉ unl')) ->
  (unl' = unlinked s \/
   unl' = seq_ j :: unlinked s /\ (seq_ j ∉ unlinked s) /\ (seq_ j ∉ sub')) ->
  winv {| ws := set_slot idx j (ws s); stage := st'; accepted := accepted s;
          submitted := sub'; unlinked := unl'; dropped := dropped s |}.
Proof.
  intros [] Hf Ej Hst Hj Hsub Hunl.
  pose proof (current_live _ _ Hf) as Hlive. pose proof (live_index _ _ i_pool0 Hlive) as Hidx.
  assert (Hlen : (idx < length (slots (ws s)))%nat) by (by rewrite (p_slots _ i_pool0)).
  pose proof (live_NoDup _ i_pool0) as Hnd.
  assert (Hq : idx ∉ queued (ws s)).
  { unfold live, current in Hnd. rewrite Hf in Hnd. apply list.NoDup_app in Hnd as (_ & Hd & _).
    intros Hin. apply (Hd idx Hin). set_solver. }
  assert (Hs : forall i, seq_ (job_at (set_slot idx j (ws s)) i) = seq_ (job_at (ws s) i)).
  { intros i. rewrite job_at_set_slot by done. case_bool_decide; by subst. }
  assert (Es : forall l, seqs (set_slot idx j (ws s)) l = seqs (ws s) l) by (intros l; by apply map_ext).
  pose proof Hj as (Ha & _).
  split; cbn [ws stage accepted submitted unlinked dropped]; try done.
  - destruct i_pool0; split; simpl; rewrite ?length_insert; done.
  - by rewrite Es.
  - intros i Hi. change (i ∈ queued (ws s)) in Hi. rewrite job_at_set_slot by done.
    rewrite bool_decide_false by (by intros ->). auto.
  - intros i Hi. change (i ∈ live (ws s)) in Hi. rewrite job_at_set_slot by done.
    case_bool_decide as Ei; [by subst|]. destruct (i_live0 i Hi) as (H1 & H2 & H3).
    assert (Hne : seq_ (job_at (ws s) i) <> seq_ j).
    { rewrite Ej. intros E. apply Ei. by eapply seqs_inj. }
    split_and!; [done| |].
    + destruct Hsub as [->|[-> _]]; rewrite ?elem_of_cons; tauto.
    + intros Hc. destruct Hunl as [->|[-> _]]; rewrite ?not_elem_of_cons; auto.
  - destruct Hsub as [->|[-> [Hn _]]]; [done|]. destruct i_sub0. split; [by constructor|set_solver].
  - destruct Hunl as [->|[-> [Hn _]]]; [done|]. destruct i_unl0. split; [by constructor|set_solver].
  - intros q. destruct Hsub as [->|(-> & Hn & Hu)], Hunl as [->|(-> & Hn' & Hu')]; set_solver.
  - intros q Hq'. rewrite Es. destruct (i_kept0 q Hq') as [?|[?|[?|?]]]; auto.
    + destruct Hsub as [->|(-> & _)]; set_solver.
    + destruct Hunl as [->|(-> & _)]; set_solver.
Qed.

(** ** Moving slots between the free stack, the queue and the flight *)

Lemma enqueue_cases sq xlen data pkts now media w w' b :
  pool_ok w -> enqueueWithGeneration sq xlen data pkts now media w = (w', b) ->
  if b then exists idx, pool_ok w' /\ (idx ∉ live w) /\ queued w' = queued w ++ [idx] /\
      inFlight w' = inFlight w /\ seq_ (job_at w' idx) = sq /\
      responseStarted (job_at w' idx) = false /\ job_cancelled (job_at w' idx) = false /\
      forall k, k <> idx -> job_at w' k = job_at w k
  else freeCount w = 0%nat /\ frame w w'.
Proof.
  intros Hok. pose proof (pool_NoDup _ Hok) as Hnd. pose proof (pool_bounds _ Hok) as Hb.
  pose proof Hok as [Hs Ho Hf Hh Hc Hp]. unfold enqueueWithGeneration.
  destruct (freeCount w) as [|fc] eqn:Efc; [intros [= <- <-]; split; auto with viiper|].
  set (idx := nth fc (free w) 0%nat). set (job := {| seq_ := sq |}). cbv zeta.
  set (w1 := set_clock _ _ _). set (w2 := set_queue _ _ _ w1).
  intros [<- <-]%pair_equal_spec. exists idx.
  assert (Htake : take (S fc) (free w) = take fc (free w) ++ [idx]).
  { apply take_S_r. destruct (nth_lookup_or_length (free w) fc 0%nat); [done|lia]. }
  assert (Hq : queued w2 = queued w ++ [idx]).
  { rewrite (queued_push w1 _ _ _ idx w2 Ho ltac:(simpl; lia) eq_refl eq_refl eq_refl eq_refl).
    done. }
  assert (Hpool : pool w ≡ₚ idx :: take fc (free w) ++ live w).
  { unfold pool. rewrite Efc, Htake, <- app_assoc. symmetry. apply Permutation_middle. }
  assert (Hidx : (idx < 64)%nat).
  { assert (idx ∈ pool w) as Hin by (rewrite Hpool; set_solver).
    rewrite Hp, elem_of_seq in Hin. lia. }
  rewrite Hpool in Hnd. apply list.NoDup_cons in Hnd as [Hni _].
  assert (Hjob : forall k, job_at w2 k = if bool_decide (k = idx) then job else job_at w k).
  { intros k. transitivity (job_at (set_slot idx job w) k); [done|].
    apply job_at_set_slot. by rewrite Hs. }
  assert (Hnl : idx ∉ live w) by set_solver.
  refine (conj _ (conj Hnl (conj Hq (conj eq_refl (conj _ (conj _ (conj _ _))))))).
  - split; simpl; rewrite ?length_insert; try done; try lia.
    rewrite <- Hp, Hpool. transitivity (take fc (free w) ++ queued w2 ++ current w); [done|].
    rewrite Hq. unfold live. solve_Permutation.
  - transitivity (seq_ (job_at w2 idx)); [done|]. by rewrite Hjob, bool_decide_true.
  - transitivity (responseStarted (job_at w2 idx)); [done|]. by rewrite Hjob, bool_decide_true.
  - transitivity (job_cancelled (job_at w2 idx)); [done|]. by rewrite Hjob, bool_decide_true.
  - intros k Hk. transitivity (job_at w2 k); [done|]. by rewrite Hjob, bool_decide_false.
Qed.

Lemma release_pool idx w :
  length (slots w) = 64%nat -> length (order w) = 64%nat -> length (free w) = 64%nat ->
  (orderHead w < 64)%nat -> (freeCount w <= 64)%nat -> idx :: pool w ≡ₚ seq 0 64 ->
  pool_ok (releaseSlotLocked idx w) /\
  forall k, k <> idx -> job_at (releaseSlotLocked idx w) k = job_at w k.
Proof.
  intros Hs Ho Hf Hh Hc Hp.
  assert (Hlt : (freeCount w < 64)%nat).
  { apply Permutation_length in Hp. unfold pool in Hp. cbn [length] in Hp.
    rewrite !length_app, length_take, length_seq in Hp. lia. }
  assert (Hidx : (idx < 64)%nat).
  { assert (idx ∈ seq 0 64) as Hin by (rewrite <- Hp; set_solver). apply elem_of_seq in Hin. lia. }
  split.
  - split; simpl; rewrite ?length_insert; try done; try lia. rewrite <- Hp.
    transitivity (take (S (freeCount w)) (<[freeCount w := idx]> (free w)) ++ live w); [done|].
    rewrite (take_S_r _ _ idx) by (apply list_lookup_insert_eq; lia).
    rewrite take_insert_ge by lia. unfold pool, live. solve_Permutation.
  - intros k Hk. transitivity (job_at (set_slot idx zero_job w) k); [done|].
    by rewrite job_at_set_slot, bool_decide_false by (rewrite ?Hs; done).
Qed.

Lemma pop_pool w w' idx :
  pool_ok w -> (0 < orderCount w)%nat -> popQueuedLocked w = (w', idx) ->
  queued w = idx :: queued w' /\ w' = set_queue (order w) (orderHead w') (orderCount w - 1) w /\
  (orderHead w' < 64)%nat /\ idx :: pool w' ≡ₚ seq 0 64.
Proof.
  intros Hok Hc Hpop. pose proof (queued_pop _ _ _ (p_head _ Hok) Hc Hpop) as Hq.
  unfold popQueuedLocked in Hpop. apply pair_equal_spec in Hpop as [<- Hi].
  split_and!; try done.
  - cbn [orderHead set_queue]. apply (Nat.mod_upper_bound _ 64). done.
  - rewrite <- (p_part _ Hok). unfold pool. rewrite Hq. simpl. solve_Permutation.
Qed.

(** Taking the job at a queue position out of the worker. *)
Lemma remove_release_pool w k :
  pool_ok w -> (k < orderCount w)%nat ->
  let w' := releaseSlotLocked (order_at w k) (removeQueuedLocked k w) in
  pool_ok w' /\ queued w' = take k (queued w) ++ drop (S k) (queued w) /\
  inFlight w' = inFlight w /\ forall i, i <> order_at w k -> job_at w' i = job_at w i.
Proof.
  intros Hok Hk w'. destruct (queued_remove w k Hok Hk) as (Hq & E1 & E2 & E3 & E4 & E5 & E6 & _ & _).
  pose proof Hok as [Hs Ho Hf Hh Hc Hp].
  destruct (release_pool (order_at w k) (removeQueuedLocked k w)) as [Hpool Hjobs];
    [congruence|congruence|congruence|lia|lia| |].
  - rewrite <- Hp. unfold pool, current. rewrite Hq, E4, E5, E6.
    rewrite <- (take_drop_middle (queued w) k (order_at w k)) at 3 by by apply queued_lookup.
    solve_Permutation.
  - split_and!; [done|exact Hq|exact E6|]. intros i Hi. unfold w'. rewrite Hjobs by done.
    unfold job_at. by rewrite E3.
Qed.

Lemma unlink_scan_cases n p sq now w w' b :
  pool_ok w -> (p + n = orderCount w)%nat -> unlink_scan n p sq now w = (w', b) ->
  if b then exists k, (k < orderCount w)%nat /\ seq_ (job_at w (order_at w k)) = sq /\
      pool_ok w' /\ queued w' = take k (queued w) ++ drop (S k) (queued w) /\
      inFlight w' = inFlight w /\
      forall i, i <> order_at w k -> view (job_at w' i) = view (job_at w i)
  else w' = w /\
    forall k, (p <= k < orderCount w)%nat -> seq_ (job_at w (order_at w k)) <> sq.
Proof.
  intros Hok. revert p. induction n as [|n IH]; intros p Hn; cbn [unlink_scan].
  { intros [= <- <-]. split; [done|lia]. }
  destruct (seq_ (job_at w (order_at w p)) =? sq) eqn:E; cbn [negb].
  - apply Z.eqb_eq in E. cbv zeta. intros [<- <-]%pair_equal_spec. exists p.
    destruct (remove_release_pool w p Hok ltac:(lia)) as (H1 & H2 & H3 & H4).
    set (w1 := releaseSlotLocked _ _) in *.
    assert (Hf : frame w1 (count 0 0 1 0 0
      (reflowQueueFromPositionLocked p (serviceAt (job_at w (order_at w p))) now w1))).
    { eapply frame_trans; [apply frame_reflow|apply frame_count]. }
    split_and!; [lia|done|by eapply frame_pool| | |].
    + by rewrite (frame_queued _ _ Hf).
    + by rewrite (fr_flight _ _ Hf).
    + intros i Hi. rewrite (fr_view _ _ Hf). by rewrite H4.
  - apply Z.eqb_neq in E. intros Hr. specialize (IH (S p) ltac:(lia) Hr).
    destruct b; [done|]. destruct IH as [-> IH]. split; [done|]. intros k Hk.
    destruct (decide (k = p)) as [->|]; [done|]. apply IH. lia.
Qed.

Lemma drain_cases n w :
  pool_ok w -> orderCount w = n ->
  pool_ok (drain n w) /\ queued (drain n w) = [] /\ inFlight (drain n w) = inFlight w /\
  forall i, (i ∉ queued w) -> job_at (drain n w) i = job_at w i.
Proof.
  revert w. induction n as [|n IH]; intros w Hok Hn.
  { split_and!; try done. apply nil_length_inv. by rewrite length_queued. }
  cbn [drain]. destruct (popQueuedLocked w) as [w1 idx] eqn:Epop.
  destruct (pop_pool _ _ _ Hok ltac:(lia) Epop) as (Hq & E & Hh & Hp).
  pose proof Hok as [Hs Ho Hf _ Hc _].
  destruct (release_pool idx w1) as [Hok2 Hj2]; [by rewrite E..|done|by rewrite E|done|].
  assert (E2 : orderCount (releaseSlotLocked idx w1) = n) by (rewrite E; simpl; lia).
  destruct (IH _ Hok2 E2) as (H1 & H2 & H3 & H4). split_and!; try done.
  - rewrite H3. by rewrite E.
  - intros i Hi. rewrite Hq, not_elem_of_cons in Hi. destruct Hi as [Hne Hi].
    rewrite H4, Hj2 by done. by rewrite E.
Qed.

Lemma claim_cases w w' idx :
  pool_ok w -> claimNext w = (w', Some idx) ->
  w' = w /\ inFlight w = Some idx \/
  inFlight w = None /\ pool_ok w' /\ queued w = idx :: queued w' /\ inFlight w' = Some idx /\
  slots w' = slots w.
Proof.
  intros Hok. unfold claimNext. destruct (inFlight w) as [i|] eqn:Ef; [intros [= <- <-]; auto|].
  destruct (orderCount w =? 0)%nat eqn:E0; [done|]. apply Nat.eqb_neq in E0. destruct (popQueuedLocked w) as [w1 i] eqn:Epop.
  intros [<- E]%pair_equal_spec. injection E as ->. right.
  destruct (pop_pool _ _ _ Hok ltac:(lia) Epop) as (Hq & E & Hh & Hp).
  pose proof Hok as [Hs Ho Hf _ Hc _].
  split_and!; [done| |exact Hq|done|by rewrite E].
  split; cbn [slots order free orderHead freeCount set_inFlight]; try (by rewrite E); try done.
  rewrite <- Hp. transitivity (take (freeCount w1) (free w1) ++ queued w1 ++ [idx]); [done|].
  assert (En : inFlight w1 = None) by (by rewrite E).
  unfold pool, current. rewrite En. solve_Permutation.
Qed.

Lemma finish_cases idx completed retain now w :
  pool_ok w -> inFlight w = Some idx ->
  let w' := finishCurrentWithRetention idx completed retain now w in
  (retain = true /\ frame w w') \/
  (pool_ok w' /\ queued w' = queued w /\ inFlight w' = None /\
   forall k, k <> idx -> job_at w' k = job_at w k).
Proof.
  intros Hok Hf. unfold finishCurrentWithRetention. rewrite bool_decide_true by done. cbv zeta.
  case_if.
  - left. split; [by destruct retain|]. eapply frame_trans; [|apply frame_reflow].
    by apply frame_set_slot.
  - right. set (w0 := if completed then _ else w).
    assert (E : forall A (f : endpointWorker -> A),
      f (count 0 1 0 0 0 w) = f w -> f w0 = f w) by (intros A f Ea; unfold w0; by destruct completed).
    pose proof Hok as [Hs Ho Hfr Hh Hc Hp].
    assert (Eq : queued (set_inFlight None w0) = queued w).
    { apply (E _ (fun x => queued (set_inFlight None x))). done. }
    assert (Ec : freeCount w0 = freeCount w) by by apply E.
    destruct (release_pool idx (set_inFlight None w0)) as [H1 H2];
      cbn [slots order free orderHead freeCount set_inFlight];
      [by rewrite (E _ slots)|by rewrite (E _ order)|by rewrite (E _ free)
      |by rewrite (E _ orderHead)|by rewrite Ec| |].
    + rewrite <- Hp. unfold pool. rewrite Eq. cbn [freeCount free set_inFlight].
      rewrite Ec, (E _ free) by done. unfold current at 2. rewrite Hf. simpl current.
      unfold current; simpl. solve_Permutation.
    + split_and!; [exact H1|exact Eq|done|]. intros k Hk.
      transitivity (job_at (set_inFlight None w0) k); [by apply H2|].
      apply (E _ (fun x => job_at (set_inFlight None x) k)). done.
Qed.

(** ** Every step keeps the invariant *)

Lemma winv_enqueue s sq xlen data pkts now media w' :
  winv s -> (sq ∉ accepted s) ->
  enqueueWithGeneration sq xlen data pkts now media (ws s) = (w', true) ->
  winv {| ws := w'; stage := stage s; accepted := sq :: accepted s; submitted := submitted s;
          unlinked := unlinked s; dropped := dropped s |}.
Proof.
  intros [] Hsq He. apply enqueue_cases in He as (idx & Hp & Hni & Hq & Hf & E1 & E2 & E3 & Hj); [|done].
  assert (Hlive : live w' ≡ₚ idx :: live (ws s)).
  { unfold live, current. rewrite Hq, Hf. solve_Permutation. }
  assert (Hold : forall i, i ∈ live (ws s) -> job_at w' i = job_at (ws s) i).
  { intros i Hi. apply Hj. by intros ->. }
  assert (Hs : seqs w' (live w') ≡ₚ sq :: seqs (ws s) (live (ws s))).
  { rewrite <- (seqs_view (ws s) w' (live (ws s))) by (intros i Hi; by rewrite Hold).
    unfold seqs. rewrite Hlive. cbn [map]. by rewrite E1. }
  destruct i_sub0 as [Hs1 Hs2], i_unl0 as [Hu1 Hu2].
  split; cbn [ws stage accepted submitted unlinked dropped]; try done.
  - unfold stage_ok in *. rewrite Hf. destruct (stage s) as [|i|i].
    1: intros i Hi; rewrite Hold by (by apply current_live); auto.
    all: destruct i_stage0; rewrite Hold by (by apply current_live); auto.
  - rewrite Hs. apply list.NoDup_cons. split; [|done]. intros (i & Hi & ->)%elem_of_seqs.
    apply Hsq. by destruct (i_live0 i Hi).
  - intros i Hi. rewrite Hq in Hi. apply elem_of_app in Hi as [Hi|Hi%list_elem_of_singleton].
    + rewrite Hold by (unfold live; set_solver). auto.
    + by subst.
  - intros i Hi. rewrite Hlive in Hi. apply elem_of_cons in Hi as [->|Hi].
    + unfold job_ok. rewrite E1. split_and!; [set_solver| |].
      { split; [|congruence]. intros Hin. by apply Hs2 in Hin. }
      intros _ Hin. by apply Hsq, Hu2.
    + rewrite Hold by done. destruct (i_live0 i Hi) as (? & ? & ?). split_and!; auto. set_solver.
  - split; [done|]. intros q Hin. set_solver.
  - split; [done|]. intros q Hin. set_solver.
  - intros q [->|Hqa]%elem_of_cons; rewrite Hs; [set_solver|].
    destruct (i_kept0 q Hqa) as [?|[?|[?|?]]]; set_solver.
Qed.

Lemma stage_ok_jobs st w w' :
  inFlight w' = inFlight w ->
  (forall i, inFlight w = Some i -> responseStarted (job_at w' i) = responseStarted (job_at w i)) ->
  stage_ok st w -> stage_ok st w'.
Proof.
  intros Hf Hj. unfold stage_ok. rewrite Hf. destruct st as [|i|i].
  - intros H i Hi. rewrite Hj by done. auto.
  - intros [H1 H2]. rewrite Hj by done. auto.
  - intros [H1 H2]. rewrite Hj by done. auto.
Qed.

Lemma flight_not_queued w i : pool_ok w -> inFlight w = Some i -> i ∉ queued w.
Proof.
  intros Hok Hf Hin. pose proof (live_NoDup _ Hok) as Hnd. unfold live, current in Hnd.
  rewrite Hf in Hnd. apply list.NoDup_app in Hnd as (_ & Hd & _). apply (Hd i Hin). set_solver.
Qed.

Lemma winv_unlink_scan s sq now w' b :
  winv s -> unlink_scan (orderCount (ws s)) 0 sq now (ws s) = (w', b) ->
  winv {| ws := w'; stage := stage s; accepted := accepted s; submitted := submitted s;
          unlinked := if b : bool then sq :: unlinked s else unlinked s; dropped := dropped s |}.
Proof.
  intros Hi Hu. apply unlink_scan_cases in Hu; [|by destruct Hi|done].
  destruct b; [|destruct Hu as [-> _]; by destruct s].
  destruct Hu as (k & Hk & Hsq & Hp & Hq & Hf & Hv).
  set (idx := order_at (ws s) k) in *.
  assert (Hkq : queued (ws s) !! k = Some idx) by by apply queued_lookup.
  assert (Hperm : queued (ws s) ≡ₚ idx :: queued w').
  { rewrite Hq. rewrite <- (take_drop_middle _ _ _ Hkq) at 1. solve_Permutation. }
  assert (Hlive : live (ws s) ≡ₚ [idx] ++ live w').
  { unfold live, current. rewrite Hf, Hperm. done. }
  pose proof (live_NoDup _ (i_pool _ Hi)) as Hnd. rewrite Hlive in Hnd.
  apply list.NoDup_app in Hnd as (_ & Hd & _).
  assert (Hne : forall i, i ∈ live w' -> i <> idx).
  { intros i Hin ->. apply (Hd idx); set_solver. }
  apply (winv_shrink s w' (stage s) _ (dropped s) [idx]); try done.
  - intros i Hin. rewrite Hperm. set_solver.
  - intros i Hin. auto.
  - apply (stage_ok_jobs _ (ws s)); [done| |by destruct Hi]. intros i Hin.
    assert (Hw : view (job_at w' i) = view (job_at (ws s) i)).
    { apply Hv, Hne, current_live. by rewrite Hf. }
    by injection Hw.
  - right. exists idx. split_and!; [set_solver| |by rewrite Hsq]. rewrite Hperm. set_solver.
  - intros i ->%list_elem_of_singleton. rewrite Hsq. set_solver.
Qed.

(** Raising [cancelled] on the job in flight, reported or not. *)
Lemma winv_cancel s idx unl' :
  winv s -> inFlight (ws s) = Some idx ->
  (unl' = unlinked s \/
   responseStarted (job_at (ws s) idx) = false /\ job_cancelled (job_at (ws s) idx) = false /\
   unl' = seq_ (job_at (ws s) idx) :: unlinked s) ->
  winv {| ws := set_slot idx (cancel_job (job_at (ws s) idx)) (ws s); stage := stage s;
          accepted := accepted s; submitted := submitted s; unlinked := unl';
          dropped := dropped s |}.
Proof.
  intros Hi Hf Hu. pose proof (i_pool _ Hi) as Hok.
  pose proof (i_live _ Hi _ (current_live _ _ Hf)) as (H1 & H2 & H3).
  assert (Hlen : (idx < length (slots (ws s)))%nat).
  { rewrite (p_slots _ Hok). by apply (live_index (ws s)), current_live. }
  apply winv_reflag; [done|done|done| | |by left|].
  - apply (stage_ok_jobs _ (ws s)); [done| |by destruct Hi]. intros i Hi'.
    rewrite job_at_set_slot by done. case_bool_decide; by subst.
  - split_and!; [done|done|]. simpl. intros [Hr|]; [|done].
    destruct Hu as [->|(E & _ & _)]; [auto|congruence].
  - destruct Hu as [->|(E1 & E2 & ->)]; [by left|]. right. split_and!; auto.
    simpl. intros Hin%H2. congruence.
Qed.

Lemma winv_unlink s sq now w' b :
  winv s -> unlinkAt sq now (ws s) = (w', b) ->
  winv {| ws := w'; stage := stage s; accepted := accepted s; submitted := submitted s;
          unlinked := if b : bool then sq :: unlinked s else unlinked s; dropped := dropped s |}.
Proof.
  intros Hi. unfold unlinkAt.
  destruct (inFlight (ws s)) as [idx|] eqn:Ef; [|by apply winv_unlink_scan].
  case_if; [|by apply winv_unlink_scan]. cbv zeta. intros [<- <-]%pair_equal_spec.
  bool_split. subst sq.
  pose proof (winv_cancel s idx (seq_ (job_at (ws s) idx) :: unlinked s) Hi Ef
    ltac:(right; auto)) as Hc.
  refine (winv_frame _ _ _ Hc). cbn [ws].
  eapply frame_trans; [apply frame_reflow|apply frame_count].
Qed.

Lemma winv_reset s :
  winv s ->
  winv {| ws := reset (ws s); stage := stage s; accepted := accepted s; submitted := submitted s;
          unlinked := unlinked s; dropped := seqs (ws s) (queued (ws s)) ++ dropped s |}.
Proof.
  intros Hi. unfold reset. set (w0 := set_clock _ _ (ws s)).
  set (s0 := {| ws := w0; stage := stage s; accepted := accepted s; submitted := submitted s;
    unlinked := unlinked s; dropped := dropped s |}).
  assert (H0 : winv s0) by (apply winv_frame; [apply frame_clock|done]). cbv zeta.
  change (inFlight w0) with (inFlight (ws s)).
  set (w1 := match inFlight (ws s) with Some idx => _ | None => w0 end).
  set (s1 := {| ws := w1; stage := stage s; accepted := accepted s; submitted := submitted s;
    unlinked := unlinked s; dropped := dropped s |}).
  assert (H1 : winv s1).
  { unfold s1, w1. destruct (inFlight (ws s)) as [idx|] eqn:Ef; [|done].
    exact (winv_cancel s0 idx _ H0 Ef (or_introl eq_refl)). }
  assert (Hq : queued w1 = queued (ws s)) by (unfold w1; destruct (inFlight (ws s)); done).
  assert (Hjq : forall i, i ∈ queued (ws s) -> job_at w1 i = job_at (ws s) i).
  { intros i Hin. unfold w1. destruct (inFlight (ws s)) as [idx|] eqn:Ef; [|done].
    assert (i <> idx) by (intros ->; by apply (flight_not_queued _ _ (i_pool _ Hi) Ef)).
    unfold job_at. simpl. by rewrite !nth_lookup, list_lookup_insert_ne. }
  destruct (drain_cases (orderCount w1) w1 (i_pool _ H1) eq_refl) as (Hp & Hq' & Hf & Hj).
  set (w2 := drain (orderCount w1) w1) in *.
  assert (Hlive : live w2 = current w1) by (unfold live, current; by rewrite Hq', Hf).
  assert (Hkeep : forall i, inFlight w1 = Some i -> job_at w2 i = job_at w1 i).
  { intros i Hi1. apply Hj. by apply flight_not_queued; [apply (i_pool _ H1)|]. }
  apply (winv_shrink s1 w2 (stage s) (unlinked s) _ (queued w1)); try done.
  - by rewrite Hlive.
  - rewrite Hq'. set_solver.
  - intros i Hin. rewrite Hlive in Hin. unfold current in Hin.
    destruct (inFlight w1) eqn:E1; [|set_solver]. apply list_elem_of_singleton in Hin as ->.
    by rewrite Hkeep.
  - apply (stage_ok_jobs _ w1); [done| |apply (i_stage _ H1)]. intros i E. by rewrite Hkeep.
  - by left.
  - simpl. set_solver.
  - intros i Hin. rewrite Hq in Hin. rewrite !elem_of_app. right. right. left.
    apply elem_of_seqs. exists i. split; [done|]. simpl. by rewrite Hjq.
Qed.

Lemma winv_claim s w' idx :
  winv s -> stage s = Idle -> claimNext (ws s) = (w', Some idx) ->
  winv {| ws := w'; stage := Holding idx; accepted := accepted s; submitted := submitted s;
          unlinked := unlinked s; dropped := dropped s |}.
Proof.
  intros Hi Hst Hc. pose proof (i_stage _ Hi) as Hs. rewrite Hst in Hs.
  apply claim_cases in Hc as [[-> Hf]|(Hf & Hp & Hq & Hf' & Hsl)]; [| |by destruct Hi].
  - destruct Hi. split; try done. split; [done|]. by apply Hs.
  - assert (Hj : forall i, job_at w' i = job_at (ws s) i) by (intros i; unfold job_at; by rewrite Hsl).
    apply (winv_shrink s w' _ _ _ []); try done; auto.
    + unfold live, current. rewrite Hf, Hf', Hq. simpl. solve_Permutation.
    + rewrite Hq. set_solver.
    + intros i _. by rewrite Hj.
    + split; [done|]. rewrite Hj. apply (i_queued _ Hi). rewrite Hq. set_solver.
    + intros i Hr. by apply not_elem_of_nil in Hr.
Qed.

Lemma winv_finish s idx completed retain now d' :
  winv s -> inFlight (ws s) = Some idx ->
  responseStarted (job_at (ws s) idx) && retain = false ->
  (forall q, q ∈ dropped s -> q ∈ d') ->
  (inFlight (finishCurrentWithRetention idx completed retain now (ws s)) = None ->
   seq_ (job_at (ws s) idx) ∈ submitted s ++ unlinked s ++ d') ->
  winv {| ws := finishCurrentWithRetention idx completed retain now (ws s); stage := Idle;
          accepted := accepted s; submitted := submitted s; unlinked := unlinked s;
          dropped := d' |}.
Proof.
  intros Hi Hf Hr Hd Hkept. pose proof (i_pool _ Hi) as Hok.
  destruct (finish_cases idx completed retain now _ Hok Hf) as [[-> Hfr]|(Hp & Hq & Hf' & Hj)];
    set (w' := finishCurrentWithRetention _ _ _ _ _) in *.
  - rewrite andb_true_r in Hr. pose proof (winv_frame s w' Hfr Hi) as [].
    split; cbn [ws stage accepted submitted unlinked dropped] in *; try done.
    + intros i E. rewrite (fr_flight _ _ Hfr), Hf in E. injection E as <-.
      pose proof (fr_view _ _ Hfr idx) as [= _ _ ->]. done.
    + intros q Hq. destruct (i_kept0 q Hq) as [?|[?|[?|?]]]; auto.
  - apply (winv_shrink s w' _ _ _ [idx]); try done; auto.
    + unfold live, current. rewrite Hf, Hf', Hq. solve_Permutation.
    + by rewrite Hq.
    + intros i Hin. rewrite Hj; [done|]. intros ->. unfold live, current in Hin.
      rewrite Hf', Hq, app_nil_r in Hin. by apply (flight_not_queued _ _ Hok Hf).
    + intros i E. congruence.
    + intros i ->%list_elem_of_singleton. auto.
Qed.

Lemma winv_respond s idx req adm w' :
  winv s -> stage s = Holding idx ->
  markResponseStartedWithAdmission idx req adm (ws s) = (w', true) ->
  winv {| ws := w'; stage := Responded idx; accepted := accepted s;
          submitted := seq_ (job_at (ws s) idx) :: submitted s;
          unlinked := unlinked s; dropped := dropped s |}.
Proof.
  intros Hi Hst. pose proof (i_stage _ Hi) as Hs. rewrite Hst in Hs. destruct Hs as [Hf Hr].
  unfold markResponseStartedWithAdmission, job_live. rewrite bool_decide_true by done.
  case_if; [done|]. case_if; [done|]. intros [= <-].
  pose proof (i_live _ Hi _ (current_live _ _ Hf)) as (H1 & H2 & H3).
  assert (Hnc : job_cancelled (job_at (ws s) idx) = false) by (by destruct (job_cancelled _)).
  apply winv_reflag; [done|done|done| | |right|by left].
  - split; [done|]. rewrite job_at_set_slot, bool_decide_true; [done..|].
    rewrite (p_slots _ (i_pool _ Hi)). by apply (live_index (ws s)), current_live; [apply (i_pool _ Hi)|].
  - split_and!; [done| |]; cbn [seq_ set_flags responseStarted]; [set_solver|auto].
  - cbn [seq_ set_flags]. split_and!; [done| |auto]. rewrite H2. congruence.
Qed.

Lemma mark_refused idx req adm w w' :
  markResponseStartedWithAdmission idx req adm w = (w', false) -> w' = w.
Proof. unfold markResponseStartedWithAdmission. repeat case_if; by intros [= <-]. Qed.

Lemma effect_frame idx w w' b : beginSideEffect idx w = (w', b) -> frame w w'.
Proof.
  unfold beginSideEffect. case_if; intros [= <- <-]; [apply frame_refl|]. by apply frame_set_slot.
Qed.

Lemma phase_frame idx phase now w w' r : phaseDeadline idx phase now w = (w', r) -> frame w w'.
Proof.
  unfold phaseDeadline. cbv zeta. repeat case_if; intros [<- <-]%pair_equal_spec; try apply frame_refl;
    (eapply frame_trans; [|apply frame_count]); (eapply frame_trans; [|apply frame_reflow]);
    by apply frame_set_slot.
Qed.

Lemma winv_step s s' : wstep s s' -> winv s -> winv s'.
Proof.
  intros Hst Hi. pose proof (i_pool _ Hi) as Hok. pose proof (i_stage _ Hi) as Hs.
  destruct Hst as
    [sq xlen data pkts now media w' Hn He|sq xlen data pkts now media w' He|sq now w' b Hu|
    |w' idx Hid Hc|idx w' b Hh He|idx phase now w' r Hh He|idx req adm w' Hh He
    |idx req adm w' Hh He|idx retain now Hh|idx completed now Hh].
  - by eapply winv_enqueue.
  - apply enqueue_cases in He as [_ Hf]; [|done]. by apply winv_frame.
  - by eapply winv_unlink.
  - by apply winv_reset.
  - by apply winv_claim.
  - apply winv_frame; [by eapply effect_frame|done].
  - apply winv_frame; [by eapply phase_frame|done].
  - apply mark_refused in He as ->. by destruct s.
  - by eapply winv_respond.
  - rewrite Hh in Hs. destruct Hs as [Hf Hr]. apply winv_finish; [done|done|by rewrite Hr| |].
    + intros q Hq. destruct (inFlight (finishCurrentWithRetention _ _ _ _ _)); set_solver.
    + intros ->. set_solver.
  - rewrite Hh in Hs. destruct Hs as [Hf Hr].
    apply winv_finish; [done|done|by rewrite andb_false_r|done|].
    intros _. pose proof (i_live _ Hi _ (current_live _ _ Hf)) as (_ & H2 & _).
    apply elem_of_app. left. by apply H2.
Qed.

Lemma wreachable_inv k iv s : wreachable k iv s -> winv s.
Proof. induction 1; [apply winv_init|by eapply winv_step]. Qed.

(** ** The queue as its clients see it *)

(** Sequence numbers waiting, oldest first, and the one being served. *)
Record view_queue := { q_waiting : list Z; q_serving : option Z }.

Definition abs (w : endpointWorker) : view_queue := {|
  q_waiting := seqs w (queued w);
  q_serving := option_map (fun i => seq_ (job_at w i)) (inFlight w) |}.

Definition spec_enqueue (sq : Z) (q : view_queue) : view_queue :=
  {| q_waiting := q_waiting q ++ [sq]; q_serving := q_serving q |}.

Definition spec_claim (q : view_queue) : view_queue :=
  match q_serving q, q_waiting q with
  | None, sq :: rest => {| q_waiting := rest; q_serving := Some sq |}
  | _, _ => q
  end.

Definition spec_remove (sq : Z) (q : view_queue) : view_queue :=
  {| q_waiting := filter (fun x => x <> sq) (q_waiting q); q_serving := q_serving q |}.

(** The job in flight that CMD_UNLINK can still cancel. *)
Definition cancellable (w : endpointWorker) (sq : Z) : bool :=
  match inFlight w with
  | Some i => let j := job_at w i in
      (seq_ j =? sq) && negb (responseStarted j) && negb (sideEffectStarted j) &&
      negb (job_cancelled j)
  | None => false
  end.

Lemma abs_jobs w w' :
  queued w' = queued w -> inFlight w' = inFlight w ->
  (forall i, i ∈ live w -> seq_ (job_at w' i) = seq_ (job_at w i)) -> abs w' = abs w.
Proof.
  intros Hq Hf Hj. unfold abs. rewrite Hq, Hf. f_equal.
  - apply map_ext_in. intros i Hi%list_elem_of_In. apply Hj. unfold live. set_solver.
  - destruct (inFlight w) eqn:E; simpl; [|done]. f_equal. by apply Hj, current_live.
Qed.

Lemma abs_frame w w' : frame w w' -> abs w' = abs w.
Proof.
  intros Hf. apply abs_jobs; [by apply frame_queued|by apply fr_flight|].
  intros i _. pose proof (fr_view _ _ Hf i) as [= -> _ _]. done.
Qed.

Lemma filter_keep (l : list Z) x : (x ∉ l) -> filter (fun y => y <> x) l = l.
Proof.
  induction l as [|y l IH]; [done|]. intros [Hy Hl]%not_elem_of_cons.
  rewrite filter_cons_True by congruence. by rewrite IH.
Qed.

Lemma filter_remove (l1 l2 : list Z) x :
  NoDup (l1 ++ x :: l2) -> filter (fun y => y <> x) (l1 ++ x :: l2) = l1 ++ l2.
Proof.
  intros Hn. apply list.NoDup_app in Hn as (_ & Hd & [Hx _]%list.NoDup_cons).
  rewrite list.filter_app, filter_cons_False by tauto. rewrite !filter_keep; [done|done|].
  intros Hin. apply (Hd x Hin). set_solver.
Qed.

Lemma enqueue_refines sq xlen data pkts now media w w' b :
  pool_ok w -> enqueueWithGeneration sq xlen data pkts now media w = (w', b) ->
  b = (length (live w) <? 64)%nat /\ abs w' = if b then spec_enqueue sq (abs w) else abs w.
Proof.
  intros Hok He. pose proof (pool_bounds _ Hok) as Hb.
  assert (Hlen : length (live w) = (orderCount w + length (current w))%nat).
  { unfold live. by rewrite length_app, length_queued. }
  pose proof He as Hc. apply enqueue_cases in Hc; [|done].
  split.
  - symmetry. unfold enqueueWithGeneration in He. destruct (freeCount w) as [|fc] eqn:E.
    + injection He as _ <-. apply Nat.ltb_ge. lia.
    + apply pair_equal_spec in He as [_ <-]. apply Nat.ltb_lt. lia.
  - destruct b; [|destruct Hc as [_ Hf]; by apply abs_frame].
    destruct Hc as (idx & _ & Hn & Hq & Hf & E1 & _ & _ & Hj). unfold abs, spec_enqueue. simpl.
    rewrite Hq, Hf. unfold seqs at 1. rewrite map_app. cbn [map]. rewrite E1. f_equal.
    + f_equal. apply map_ext_in. intros i Hi%list_elem_of_In. rewrite Hj; [done|].
      intros ->. apply Hn. unfold live. set_solver.
    + destruct (inFlight w) eqn:E; simpl; [|done]. f_equal. rewrite Hj; [done|].
      intros ->. by apply Hn, current_live.
Qed.

Lemma claim_refines w w' r :
  pool_ok w -> claimNext w = (w', r) ->
  abs w' = spec_claim (abs w) /\ option_map (fun i => seq_ (job_at w i)) r = q_serving (abs w').
Proof.
  intros Hok Hc. destruct r as [idx|].
  - apply claim_cases in Hc as [[-> Hf]|(Hf & _ & Hq & Hf' & Hsl)]; [| |done].
    + unfold spec_claim, abs. simpl. rewrite Hf. done.
    + assert (Hj : forall i, job_at w' i = job_at w i) by (intros i; unfold job_at; by rewrite Hsl).
      unfold spec_claim, abs. simpl. rewrite Hf, Hf', Hq. simpl. rewrite Hj.
      by rewrite (seqs_view w w' (queued w')) by (intros; by rewrite Hj).
  - unfold claimNext in Hc. destruct (inFlight w) eqn:Ef; [done|].
    destruct (orderCount w =? 0)%nat eqn:E0; [|by destruct (popQueuedLocked w)].
    injection Hc as <-. apply Nat.eqb_eq in E0. unfold spec_claim, abs. simpl. rewrite Ef.
    unfold queued. by rewrite E0.
Qed.

Lemma unlink_scan_refines sq now w w' b :
  pool_ok w -> NoDup (seqs w (live w)) -> unlink_scan (orderCount w) 0 sq now w = (w', b) ->
  b = bool_decide (sq ∈ q_waiting (abs w)) /\ abs w' = spec_remove sq (abs w).
Proof.
  intros Hok Hn Hu. apply unlink_scan_cases in Hu; [|done|done].
  assert (Hnq : NoDup (seqs w (queued w))).
  { unfold seqs, live in Hn. rewrite map_app in Hn. by apply list.NoDup_app in Hn as (? & _). }
  destruct b.
  - destruct Hu as (k & Hk & Hsq & Hp & Hq & Hf & Hv).
    set (idx := order_at w k) in *.
    assert (Hkq : queued w !! k = Some idx) by by apply queued_lookup.
    pose proof (take_drop_middle _ _ _ Hkq) as Hmid.
    assert (Hseq : seqs w (queued w) = seqs w (take k (queued w)) ++ sq :: seqs w (drop (S k) (queued w))).
    { rewrite <- Hmid at 1. unfold seqs. rewrite map_app. cbn [map]. by rewrite Hsq. }
    pose proof (live_NoDup _ Hok) as Hnd. unfold live in Hnd. rewrite <- Hmid, <- app_assoc in Hnd.
    cbn [app] in Hnd. rewrite <- Permutation_middle in Hnd. apply list.NoDup_cons in Hnd as [Hni _].
    rewrite !elem_of_app in Hni.
    split; [symmetry; apply bool_decide_eq_true; simpl; rewrite Hseq; set_solver|].
    unfold abs, spec_remove. simpl. rewrite Hseq, filter_remove by (by rewrite <- Hseq).
    rewrite Hq, Hf. f_equal.
    + rewrite (seqs_view w w').
      * unfold seqs. by rewrite map_app.
      * intros i Hi. apply Hv. intros ->. apply elem_of_app in Hi. tauto.
    + destruct (inFlight w) as [i|] eqn:E; simpl; [|done]. f_equal.
      assert (i <> idx) as Hne.
      { intros ->. apply Hni. right. right. unfold current. rewrite E. set_solver. }
      pose proof (Hv i Hne) as [= -> _ _]. done.
  - destruct Hu as [-> Hno]. assert (Hni : sq ∉ seqs w (queued w)).
    { intros (i & (k & Hk)%list_elem_of_lookup & ->)%elem_of_seqs.
      pose proof (lookup_lt_Some _ _ _ Hk) as Hlt. rewrite length_queued in Hlt.
      rewrite queued_lookup in Hk by done. injection Hk as <-. apply (Hno k); [lia|done]. }
    split; [symmetry; by apply bool_decide_eq_false|]. unfold spec_remove, abs. simpl. f_equal.
    symmetry. by apply filter_keep.
Qed.

Lemma unlink_refines sq now w w' b :
  pool_ok w -> NoDup (seqs w (live w)) -> unlinkAt sq now w = (w', b) ->
  b = cancellable w sq || bool_decide (sq ∈ q_waiting (abs w)) /\
  abs w' = if cancellable w sq then abs w else spec_remove sq (abs w).
Proof.
  intros Hok Hn. unfold unlinkAt, cancellable.
  destruct (inFlight w) as [idx|] eqn:Ef; [|by apply unlink_scan_refines].
  case_if; [|by apply unlink_scan_refines]. intros [<- <-]%pair_equal_spec. split; [done|].
  assert (Hf : frame (set_slot idx (cancel_job (job_at w idx)) w)
    (count 0 0 1 0 0 (reflowQueueLocked (serviceAt (job_at w idx)) now
       (set_slot idx (cancel_job (job_at w idx)) w)))).
  { eapply frame_trans; [apply frame_reflow|apply frame_count]. }
  rewrite (abs_frame _ _ Hf). apply abs_jobs; [done|done|]. intros i Hi.
  rewrite job_at_set_slot.
  - case_bool_decide; by subst.
  - rewrite (p_slots _ Hok). by apply (live_index w), current_live.
Qed.

Lemma reset_refines w :
  pool_ok w -> abs (reset w) = {| q_waiting := []; q_serving := q_serving (abs w) |}.
Proof.
  intros Hok. unfold reset. set (w0 := set_clock _ _ w). cbv zeta.
  set (w1 := match inFlight w0 with Some _ => _ | None => w0 end).
  assert (Hlen : forall i, inFlight w = Some i -> (i < length (slots w))%nat).
  { intros i Hi. rewrite (p_slots _ Hok). by apply (live_index w), current_live. }
  assert (H1 : pool_ok w1 /\ abs w1 = abs w).
  { unfold w1. change (inFlight w0) with (inFlight w).
    destruct (inFlight w) as [idx|] eqn:Ef.
    - split; [destruct Hok; split; simpl; rewrite ?length_insert; done|].
      apply abs_jobs; [done|done|]. intros i Hi. rewrite job_at_set_slot by (by apply Hlen).
      case_bool_decide; by subst.
    - split; [by destruct Hok|done]. }
  destruct H1 as [Hok1 Ha1]. rewrite <- Ha1.
  destruct (drain_cases (orderCount w1) w1 Hok1 eq_refl) as (_ & Hq & Hf & Hj).
  unfold abs. rewrite Hq, Hf. simpl. f_equal. destruct (inFlight w1) as [i|] eqn:E; simpl; [|done].
  rewrite Hj; [done|]. by apply flight_not_queued.
Qed.

(** ** What the host observes *)

(** C2: in every interleaving of the command reader (enqueue, unlink, reset)
    with the worker goroutine (claim, service phases, side effects, response
    admission, completion or retention), a sequence number is answered with
    RET_SUBMIT at most once and reported as unlinked at most once, never both,
    and only if it was accepted; and no accepted request is lost: it is
    answered, unlinked, dropped by a reset or an abandoned service, or still
    in the worker. *)
Theorem urb_answered_exactly_once k iv s :
  wreachable k iv s ->
  NoDup (submitted s) /\ NoDup (unlinked s) /\
  (forall q, q ∈ submitted s -> q ∉ unlinked s) /\
  (forall q, q ∈ submitted s ++ unlinked s -> q ∈ accepted s) /\
  (forall q, q ∈ accepted s ->
     q ∈ submitted s \/ q ∈ unlinked s \/ q ∈ dropped s \/ q ∈ seqs (ws s) (live (ws s))).
Proof.
  intros [_ _ _ _ _ [H1 H2] [H3 H4] H5 H6]%wreachable_inv. split_and!; try done.
  intros q [?|?]%elem_of_app; auto.
Qed.

(** In every reachable state each of the 64 job slots is in exactly one
    place (free stack, queue ring or in flight), the sequence numbers held are
    pairwise distinct, and an enqueue is refused exactly when 64 requests are
    held, leaving the queue as it was. *)
Theorem slots_conserved k iv s :
  wreachable k iv s ->
  pool (ws s) ≡ₚ seq 0 endpointQueueCapacity /\ NoDup (seqs (ws s) (live (ws s))) /\
  forall sq xlen data pkts now media w' b,
    enqueueWithGeneration sq xlen data pkts now media (ws s) = (w', b) ->
    (b = false <-> length (live (ws s)) = endpointQueueCapacity) /\
    (b = false -> abs w' = abs (ws s)).
Proof.
  intros [Hok _ Hn _ _ _ _ _ _]%wreachable_inv.
  split_and!; [apply (p_part _ Hok)|done|]. intros sq xlen data pkts now media w' b He.
  apply enqueue_refines in He as [-> Ha]; [|done]. pose proof (pool_bounds _ Hok) as Hb.
  assert (length (live (ws s)) <= 64)%nat.
  { unfold live. rewrite length_app, length_queued. lia. }
  unfold endpointQueueCapacity. split.
  - rewrite Nat.ltb_ge. lia.
  - intros E. by rewrite E in Ha.
Qed.

(** C15: the ring, the free stack and the slot array implement one FIFO of
    sequence numbers with a served head: enqueue appends, claim serves the
    oldest when nothing is being served, unlink reports success exactly for a
    waiting request or one in flight whose response and side effect have not
    started, removing only that one, and reset empties the queue. *)
Theorem worker_queue_refines k iv s :
  wreachable k iv s ->
  (forall sq xlen data pkts now media w',
     enqueueWithGeneration sq xlen data pkts now media (ws s) = (w', true) ->
     abs w' = spec_enqueue sq (abs (ws s))) /\
  (forall w' r, claimNext (ws s) = (w', r) ->
     abs w' = spec_claim (abs (ws s)) /\
     option_map (fun i => seq_ (job_at (ws s) i)) r = q_serving (abs w')) /\
  (forall sq now w' b, unlinkAt sq now (ws s) = (w', b) ->
     b = cancellable (ws s) sq || bool_decide (sq ∈ q_waiting (abs (ws s))) /\
     abs w' = if cancellable (ws s) sq then abs (ws s) else spec_remove sq (abs (ws s))) /\
  abs (reset (ws s)) = {| q_waiting := []; q_serving := q_serving (abs (ws s)) |}.
Proof.
  intros [Hok _ Hn _ _ _ _ _ _]%wreachable_inv. split_and!.
  - intros. by apply enqueue_refines in H as [_ ->].
  - intros w' r. by apply claim_refines.
  - intros sq now w' b. by apply unlink_refines.
  - by apply reset_refines.
Qed.

(** *** A concrete run: 7, 8 and 9 are accepted, 7 is claimed, 8 unlinked, 7 answered. *)

Definition demo_enqueue (sq now : Z) (s : wsys) : wsys := {|
  ws := fst (enqueueWithGeneration sq 64 [] [] now 0 (ws s)); stage := stage s;
  accepted := sq :: accepted s; submitted := submitted s; unlinked := unlinked s;
  dropped := dropped s |}.

Definition demo_queue : wsys :=
  demo_enqueue 9 1002 (demo_enqueue 8 1001 (demo_enqueue 7 1000
    (wsys_init interruptInWorker 4000000))).

Definition demo_claimed : wsys := {|
  ws := fst (claimNext (ws demo_queue)); stage := Holding 0; accepted := accepted demo_queue;
  submitted := submitted demo_queue; unlinked := unlinked demo_queue;
  dropped := dropped demo_queue |}.

Definition demo_unlinked : wsys := {|
  ws := fst (unlinkAt 8 2000 (ws demo_claimed)); stage := stage demo_claimed;
  accepted := accepted demo_claimed; submitted := submitted demo_claimed;
  unlinked := 8 :: unlinked demo_claimed; dropped := dropped demo_claimed |}.

Definition demo_answered : wsys := {|
  ws := fst (markResponseStartedWithAdmission 0 false false (ws demo_unlinked));
  stage := Responded 0; accepted := accepted demo_unlinked;
  submitted := seq_ (job_at (ws demo_unlinked) 0) :: submitted demo_unlinked;
  unlinked := unlinked demo_unlinked; dropped := dropped demo_unlinked |}.

Ltac demo_step := vm_compute; reflexivity.

Lemma demo_queue_reachable : wreachable interruptInWorker 4000000 demo_queue.
Proof.
  assert (Hadd : forall sq now s, wreachable interruptInWorker 4000000 s ->
    bool_decide (sq ∉ accepted s) = true ->
    snd (enqueueWithGeneration sq 64 [] [] now 0 (ws s)) = true ->
    wreachable interruptInWorker 4000000 (demo_enqueue sq now s)).
  { intros sq now s Hr Hn He. apply (wreachable_step _ _ s); [done|].
    apply (wstep_enqueue _ _ 64 [] [] now 0); [by apply bool_decide_eq_true in Hn|].
    rewrite <- He. apply surjective_pairing. }
  do 3 (apply Hadd; [|demo_step|demo_step]). apply wreachable_init.
Qed.

Lemma demo_answered_reachable : wreachable interruptInWorker 4000000 demo_answered.
Proof.
  apply (wreachable_step _ _ demo_unlinked).
  2: { apply (wstep_respond demo_unlinked 0 false false); demo_step. }
  apply (wreachable_step _ _ demo_claimed).
  2: { apply (wstep_unlink demo_claimed 8 2000 _ true); demo_step. }
  apply (wreachable_step _ _ demo_queue); [apply demo_queue_reachable|].
  apply (wstep_claim demo_queue _ 0); demo_step.
Qed.

Lemma urb_answered_exactly_once_witness :
  submitted demo_answered = [7] /\ unlinked demo_answered = [8] /\
  seqs (ws demo_answered) (live (ws demo_answered)) = [9; 7] /\
  forall q, q ∈ submitted demo_answered -> q ∉ unlinked demo_answered.
Proof.
  split_and!; [demo_step|demo_step|demo_step|].
  apply (urb_answered_exactly_once _ _ _ demo_answered_reachable).
Defined.

Lemma slots_conserved_witness :
  pool (ws demo_answered) ≡ₚ seq 0 64 /\ freeCount (ws demo_answered) = 62%nat.
Proof.
  split; [apply (slots_conserved _ _ _ demo_answered_reachable)|demo_step].
Defined.

Lemma worker_queue_refines_witness :
  abs (ws demo_answered) = {| q_waiting := [9]; q_serving := Some 7 |} /\
  unlinkAt 7 3000 (ws demo_answered) = (ws demo_answered, false) /\
  abs (reset (ws demo_answered)) = {| q_waiting := []; q_serving := Some 7 |}.
Proof.
  split_and!; [demo_step|demo_step|].
  transitivity {| q_waiting := []; q_serving := q_serving (abs (ws demo_answered)) |}; [|demo_step].
  apply (worker_queue_refines _ _ _ demo_answered_reachable).
Defined.
