(* ===== verification/ResponseWriter.v ===== *)
(** * The response stream's owner (src/internal/server/usb/response_writer.go)

    Every response of a connection goes through one responseWriter.  Its
    sections run under one mutex, so a call is a function on the destination
    and on whatever state its callbacks touch.  The packet is shared: a claim
    or a preparation callback may fill a window of the buffer that is then
    written, so the callbacks receive the buffer and return it. *)

From S2P Require Import Prelude Bytes GoIO UsbIp Urb.

(** A destination with an optional batcher: [batcher.Flush()], or nothing when
    there is no batcher.  Flushing accepts no new byte. *)
Class Flusher (W : Type) := w_flush : W -> W * option io_err.

Class FlusherLaws (W : Type) `{WriterLaws W, !Flusher W} :=
  w_flush_sent w : w_sent (fst (w_flush w)) = w_sent w.

(** The errors of a late response; [E] are the errors of its callbacks. *)
Inductive late_err (E : Type) :=
| LateNilPrepare
| LateNilComplete
| LateMaxPayload (n : Z)
| LatePreparation (e : E)
| LatePendingLength (n : Z)
| LateDataLength (n : Z)
| LateStallLength (n : Z)
| LateInvalidResult (r : Z)
| LateDelivery (e : io_err) (completion : option E)
| LateCompletion (e : E).
Arguments LateNilPrepare {E}.
Arguments LateNilComplete {E}.
Arguments LateMaxPayload {E} _.
Arguments LatePreparation {E} _.
Arguments LatePendingLength {E} _.
Arguments LateDataLength {E} _.
Arguments LateStallLength {E} _.
Arguments LateInvalidResult {E} _.
Arguments LateDelivery {E} _ _.
Arguments LateCompletion {E} _.

Section ResponseWriter.
Context {W : Type} `{Writer W, !Flusher W} {St E : Type}.

(** writeFull with one write per byte, which is always enough (writeFull_total). *)
Definition write_full (w : W) (packet : list Z) : W * option io_err :=
  default (w, None) (writeFull (length packet) w packet).

(** [err := writeFull(w.dst, packet); if err == nil && flush { err = Flush() }] *)
Definition deliver (w : W) (packet : list Z) (flush : bool) : W * option io_err :=
  let '(w, err) := write_full w packet in
  match err with
  | None => if flush then w_flush w else (w, None)
  | Some e => (w, Some e)
  end.

(** A claim callback sees and may fill the packet; [None] is a nil callback. *)
Definition claim_func : Type := St -> list Z -> St * list Z * bool.

Definition writeIfThen (w : W) (s : St) (packet : list Z) (flush : bool)
    (claim : option claim_func) (afterWrite : option (St -> bool -> St)) :
    W * St * list Z * bool * option io_err :=
  let '(s, packet, go) := match claim with Some c => c s packet | None => (s, packet, true) end in
  if negb go then
    (w, match afterWrite with Some f => f s false | None => s end, packet, false, None)
  else
    let '(w, err) := deliver w packet flush in
    let success := match err with None => true | Some _ => false end in
    (w, match afterWrite with Some f => f s success | None => s end, packet, true, err).

Definition writeIf (w : W) (s : St) (packet : list Z) (flush : bool)
    (claim : option claim_func) : W * St * list Z * bool * option io_err :=
  writeIfThen w s packet flush claim None.

Definition write (w : W) (s : St) (packet : list Z) (flush : bool) : W * St * option io_err :=
  let '(w, s, _, _, err) := writeIf w s packet flush None in (w, s, err).

(** ** Late results *)

Definition lateResponsePending : Z := 0.
Definition lateResponseData : Z := 1.
Definition lateResponseSuccess : Z := 2.
Definition lateResponseStall : Z := 3.

Record lateResponseSelection := { ls_Result : Z; ls_ActualLength : Z }.

(** The callbacks; a contained panic is one of the errors they return. *)
Definition prepare_func : Type := St -> list Z -> St * list Z * result E lateResponseSelection.
Definition complete_func : Type := St -> bool -> St * option E.

(** The RET_SUBMIT header of a late result over its payload window. *)
Definition late_packet (seq status actualLength : Z) (payload : list Z) : list Z :=
  let packet := zeros retSubmitHeaderSize ++ payload in
  let packet := put_at 0 (be_bytes 4 RetSubmitCode) packet in
  let packet := put_at 4 (be_bytes 4 seq) packet in
  let packet := put_at 20 (be_bytes 4 (u32 status)) packet in
  let packet := put_at 24 (be_bytes 4 actualLength) packet in
  put_at 32 (be_bytes 4 (u32 (-1))) packet.

(** What the switch on the selection decides: the USB status, or an error;
    [None] is Pending, which writes nothing. *)
Definition late_select (sel : lateResponseSelection) (maxPayload : Z) :
    result (late_err E) (option (Z * nat)) :=
  let n := ls_ActualLength sel in
  if ls_Result sel =? lateResponsePending then
    if negb (n =? 0) then Err (LatePendingLength n) else Ok None
  else if ls_Result sel =? lateResponseData then
    if maxPayload <? n then Err (LateDataLength n) else Ok (Some (0, Z.to_nat n))
  else if ls_Result sel =? lateResponseSuccess then Ok (Some (0, O))
  else if ls_Result sel =? lateResponseStall then
    if negb (n =? 0) then Err (LateStallLength n) else Ok (Some (errPipe, O))
  else Err (LateInvalidResult (ls_Result sel)).

(** The result is the destination, the state, the packet returned, whether it
    was written, and the error. *)
Definition writeLateRetSubmit (w : W) (s : St) (seq maxPayload : Z)
    (prepare : option prepare_func) (complete : option complete_func) :
    W * St * list Z * bool * option (late_err E) :=
  match prepare, complete with
  | None, _ => (w, s, [], false, Some LateNilPrepare)
  | _, None => (w, s, [], false, Some LateNilComplete)
  | Some prepare, Some complete =>
      if (maxPayload <? 0) || (maximumTransferSize <? maxPayload)
      then (w, s, [], false, Some (LateMaxPayload maxPayload))
      else
        let '(s, payload, r) := prepare s (zeros (Z.to_nat maxPayload)) in
        match r with
        | Err code => (w, s, [], false, Some (LatePreparation code))
        | Ok sel =>
            match late_select sel maxPayload with
            | Err e => (w, s, [], false, Some e)
            | Ok None => (w, s, [], false, None)
            | Ok (Some (status, payloadLength)) =>
                let packet := late_packet seq status (ls_ActualLength sel)
                                (take payloadLength payload) in
                let '(w, deliveryErr) := deliver w packet true in
                let '(s, completionErr) := complete s
                  (match deliveryErr with None => true | Some _ => false end) in
                (w, s, packet, true,
                 match deliveryErr, completionErr with
                 | Some e, c => Some (LateDelivery e c)
                 | None, Some c => Some (LateCompletion c)
                 | None, None => None
                 end)
            end
        end
  end.

End ResponseWriter.
Arguments claim_func St : clear implicits.
Arguments prepare_func St E : clear implicits.
Arguments complete_func St E : clear implicits.

(** ** Delivery *)

Section Delivery.
Context {W : Type} `{WriterLaws W, !Flusher W} {HF : FlusherLaws W} {St E : Type}.

(** A delivery accepts the whole packet or reports an error after a prefix. *)
Lemma deliver_spec (w w' : W) packet flush err :
  deliver w packet flush = (w', err) ->
  match err with
  | None => w_sent w' = w_sent w ++ packet
  | Some _ => exists p, w_sent w' = w_sent w ++ p /\ p `prefix_of` packet
  end.
Proof using HF.
  unfold deliver, write_full.
  destruct (writeFull_total (length packet) w packet ltac:(lia)) as (w1 & r & -> & Hr).
  cbn [default from_option id]. destruct r as [e|]; [by intros [= <- <-]|].
  destruct flush; [|by intros [= <- <-]]. intros Ef.
  pose proof (w_flush_sent w1) as Hs. rewrite Ef in Hs. cbn in Hs. rewrite Hs, Hr.
  destruct err; [|done]. by exists packet.
Qed.

Lemma writeIfThen_spec (w : W) (s : St) packet flush claim after w' s' packet' written err :
  writeIfThen w s packet flush claim after = (w', s', packet', written, err) ->
  let '(s1, p1, go) := match claim with Some c => c s packet | None => (s, packet, true) end in
  let fin b := match after with Some f => f s1 b | None => s1 end in
  packet' = p1 /\ written = go /\
  (go = false -> w' = w /\ err = None /\ s' = fin false) /\
  (go = true -> s' = fin (match err with None => true | Some _ => false end) /\
     match err with
     | None => w_sent w' = w_sent w ++ p1
     | Some _ => exists p, w_sent w' = w_sent w ++ p /\ p `prefix_of` p1
     end).
Proof using HF.
  unfold writeIfThen. destruct (match claim with Some c => c s packet | None => _ end) as [[s1 p1] go].
  destruct go; cbn [negb].
  - destruct (deliver w p1 flush) as [w1 e] eqn:Ed. intros [= <- <- <- <- <-].
    split_and!; try done. intros _. split; [by destruct e|]. by apply (deliver_spec _ _ _ _ _ Ed).
  - intros [= <- <- <- <- <-]. split_and!; done.
Qed.

Lemma write_spec (w : W) (s : St) packet flush w' s' err :
  write w s packet flush = (w', s', err) ->
  s' = s /\
  match err with
  | None => w_sent w' = w_sent w ++ packet
  | Some _ => exists p, w_sent w' = w_sent w ++ p /\ p `prefix_of` packet
  end.
Proof using HF.
  unfold write, writeIf. destruct (writeIfThen w s packet flush None None)
    as [[[[w1 s1] p1] wr] e1] eqn:Ew. intros [= <- <- <-].
  apply writeIfThen_spec in Ew as (-> & -> & _ & Hgo). by destruct (Hgo eq_refl) as [-> ?].
Qed.

Lemma header_fill_tail x0 x1 x2 x3 x4 tl :
  length x0 = 4%nat -> length x1 = 4%nat -> length x2 = 4%nat -> length x3 = 4%nat ->
  length x4 = 4%nat ->
  put_at 32 x4 (put_at 24 x3 (put_at 20 x2 (put_at 4 x1 (put_at 0 x0 (zeros 48 ++ tl))))) =
  (x0 ++ x1 ++ zeros 12 ++ x2 ++ x3 ++ zeros 4 ++ x4 ++ zeros 12) ++ tl.
Proof.
  intros (?&?&?&?&->)%list_len4 (?&?&?&?&->)%list_len4 (?&?&?&?&->)%list_len4
    (?&?&?&?&->)%list_len4 (?&?&?&?&->)%list_len4. reflexivity.
Qed.

Lemma late_packet_bytes seq status n payload :
  late_packet seq status n payload =
  wire_bytes (ret_header RetSubmitCode seq status n (-1)) ++ payload.
Proof.
  unfold late_packet. cbv zeta. rewrite ret_header_bytes.
  apply header_fill_tail; apply length_be_bytes.
Qed.

(** The selections that are responses: the status they carry and how many
    payload bytes follow. *)
Inductive terminal_selection (max : Z) (sel : lateResponseSelection) : Z -> nat -> Prop :=
| terminal_data : ls_Result sel = lateResponseData -> ls_ActualLength sel <= max ->
    terminal_selection max sel 0 (Z.to_nat (ls_ActualLength sel))
| terminal_success : ls_Result sel = lateResponseSuccess -> terminal_selection max sel 0 0
| terminal_stall : ls_Result sel = lateResponseStall -> ls_ActualLength sel = 0 ->
    terminal_selection max sel errPipe 0.

Lemma late_select_terminal sel max status n :
  terminal_selection max sel status n -> late_select (E := E) sel max = Ok (Some (status, n)).
Proof.
  unfold late_select. intros [Hr Hn|Hr|Hr Hn]; rewrite Hr; cbn; rewrite ?Hn; try done.
  by rewrite (proj2 (Z.ltb_ge max _)).
Qed.

Lemma late_select_inv sel max :
  match late_select (E := E) sel max with
  | Ok (Some (status, n)) => terminal_selection max sel status n
  | Ok None => ls_Result sel = lateResponsePending /\ ls_ActualLength sel = 0
  | Err _ => ~ (ls_Result sel = lateResponsePending /\ ls_ActualLength sel = 0)
  end.
Proof.
  unfold late_select. repeat case_if; bool_prop; try (by intros [? ?]); try done.
  - by apply terminal_data; [|lia].
  - by apply terminal_success.
  - by apply terminal_stall.
Qed.

(** C22: a retained caller's late response is all or nothing.  For a bound out
    of range nothing happens at all.  Otherwise preparation runs once.  When it
    selects a response (data within the bound, success, or a stall) exactly that
    response is written: its RET_SUBMIT header with the selection's status and
    actual length and no more payload than the bound, and completion runs once,
    on the prepared state, told whether the whole packet was accepted and
    flushed.  When it selects none (it failed or panicked, its selection is
    ill-formed, or Pending) not a byte is sent and completion is not called;
    only a well-formed Pending is not an error. *)
Theorem late_response_atomic (w : W) (s : St) seq max (prepare : prepare_func St E) complete
    w' s' packet written err :
  writeLateRetSubmit w s seq max (Some prepare) (Some complete) = (w', s', packet, written, err) ->
  let '(s1, payload, r) := prepare s (zeros (Z.to_nat max)) in
  (~ 0 <= max <= maximumTransferSize -> w' = w /\ s' = s /\ written = false /\ packet = [] /\ err <> None) /\
  (0 <= max <= maximumTransferSize ->
   (forall sel status n, r = Ok sel -> terminal_selection max sel status n ->
      written = true /\ (n <= Z.to_nat max)%nat /\
      packet = wire_bytes (ret_header RetSubmitCode seq status (ls_ActualLength sel) (-1)) ++ take n payload /\
      let '(w1, deliveryErr) := deliver w packet true in
      w' = w1 /\
      match deliveryErr with
      | None => w_sent w' = w_sent w ++ packet /\ s' = fst (complete s1 true) /\
                (err = None <-> snd (complete s1 true) = None)
      | Some _ => (exists p, w_sent w' = w_sent w ++ p /\ p `prefix_of` packet) /\
                  s' = fst (complete s1 false) /\ err <> None
      end) /\
   ((forall sel status n, r = Ok sel -> ~ terminal_selection max sel status n) ->
      w' = w /\ s' = s1 /\ written = false /\ packet = [] /\
      (err = None <-> r = Ok {| ls_Result := lateResponsePending; ls_ActualLength := 0 |}))).
Proof using HF.
  unfold writeLateRetSubmit. destruct (prepare s _) as [[s1 payload] r]. case_if.
  { intros [= <- <- <- <- <-]. assert (Hbad : ~ 0 <= max <= maximumTransferSize) by (bool_split; lia). split; [intros _; by split_and!|done]. }
  intros H1. split; [bool_split; lia|]. intros _. destruct r as [sel|code].
  2:{ injection H1 as <- <- <- <- <-. split; [done|]. intros _. by split_and!. }
  pose proof (late_select_inv sel max) as Hi. split.
  - intros sel' status n [= <-] Ht. pose proof (late_select_terminal _ _ _ _ Ht) as Es. rewrite Es in H1.
    set (pk := late_packet _ _ _ _) in H1. destruct (deliver w pk true) as [w1 de] eqn:Ed.
    destruct (complete s1 _) as [s2 ce] eqn:Ec. injection H1 as <- <- <- <- <-.
    split; [done|]. split; [destruct Ht; lia|]. split; [apply late_packet_bytes|].
    rewrite Ed. split; [done|]. apply deliver_spec in Ed. destruct de; rewrite Ec; cbn; [done|].
    split_and!; try done. by destruct ce.
  - intros Hno. destruct (late_select sel max) as [[[status n]|]|e].
    + by destruct (Hno sel status n eq_refl).
    + injection H1 as <- <- <- <- <-. split_and!; try done. split; [|done]. intros _. destruct Hi, sel. cbn in *. congruence.
    + injection H1 as <- <- <- <- <-. split_and!; try done. split; [done|]. intros [= ->]. by destruct Hi.
Qed.
End Delivery.

(** *** A concrete late response *)

#[export] Instance buffer_flusher : Flusher (list Z) := fun b => (b, None).
#[export] Instance buffer_flusher_laws : FlusherLaws (list Z).
Proof. done. Defined.
#[export] Instance capped_flusher : Flusher capped := fun w => (w, None).
#[export] Instance capped_flusher_laws : FlusherLaws capped.
Proof. done. Defined.

Definition demo_prepare : prepare_func nat Z := fun s payload =>
  (S s, put_at 0 [9; 8] payload, Ok {| ls_Result := lateResponseData; ls_ActualLength := 2 |}).
Definition demo_complete : complete_func nat Z := fun s delivered =>
  (if delivered then (s + 10)%nat else s, None).

Lemma late_response_atomic_witness :
  let '(out, s', _, written, err) :=
    writeLateRetSubmit ([] : list Z) 0%nat 5 4 (Some demo_prepare) (Some demo_complete) in
  out = wire_bytes (ret_header RetSubmitCode 5 0 2 (-1)) ++ [9; 8] /\ s' = 11%nat /\ written = true.
Proof.
  destruct (writeLateRetSubmit ([] : list Z) 0%nat 5 4 (Some demo_prepare) (Some demo_complete))
    as [[[[out s'] packet] written] err] eqn:E.
  apply late_response_atomic in E as [_ E]. destruct (E ltac:(by split)) as [H _].
  destruct (H _ 0 2%nat eq_refl ltac:(by apply terminal_data)) as (Hw & _ & Hp & Hd). subst packet.
  cbn in Hd. destruct Hd as (-> & _ & -> & _). by split_and!.
Defined.
