(* ===== verification/Schedulers.v ===== *)
(** * The endpoint workers of one connection
      (src/internal/server/usb/endpoint_scheduler.go, endpointSchedulers)

    A connection creates one worker per schedulable endpoint of every
    interface alternate setting, keyed by that exact binding.  The command
    reader routes submissions, unlinks and resets to them.  Go iterates over the
    worker map in an arbitrary order: the order, with the instant each visited
    worker reads the clock, is an argument. *)

From S2P Require Import Prelude Bytes UsbIp Hid Descriptor Urb Control EndpointWorker.

(** ** Keys *)

#[export] Program Instance endpointWorkerKind_countable : Countable endpointWorkerKind :=
  inj_countable' (fun k => match k with interruptInWorker => 0 | isoInWorker => 1
                           | isoOutWorker => 2 | genericInWorker => 3 end)
    (fun n : Z => if n =? 0 then interruptInWorker else if n =? 1 then isoInWorker
             else if n =? 2 then isoOutWorker else genericInWorker) _.
Next Obligation. by intros []. Qed.

(** endpointWorkerKey: interface, alternate setting, endpoint, direction, kind. *)
Definition endpointWorkerKey : Type := Z * Z * Z * Z * endpointWorkerKind.

Definition key_ep (k : endpointWorkerKey) : Z := let '(_, _, ep, _, _) := k in ep.
Definition key_dir (k : endpointWorkerKey) : Z := let '(_, _, _, dir, _) := k in dir.

Definition endpointWorkerKeyFor (b : endpointDescriptorBinding) (dir : Z)
    (k : endpointWorkerKind) : endpointWorkerKey :=
  (b_interfaceNumber b, b_alternateSetting b,
   u32 (Z.land (BEndpointAddress (b_descriptor b)) 0x0f), dir, k).

Notation workers := (gmap endpointWorkerKey endpointWorker).

(** ** Construction *)

Definition endpoint_dir (e : EndpointDescriptor) : Z :=
  if negb (Z.land (BEndpointAddress e) 0x80 =? 0) then DirIn else DirOut.

(** The [switch endpoint.BMAttributes & 0x03]: [None] is not scheduled. *)
Definition endpoint_kind (e : EndpointDescriptor) : option endpointWorkerKind :=
  let t := Z.land (ep_BMAttributes e) 0x03 in
  let isIn := endpoint_dir e =? DirIn in
  if t =? 0x03 then if isIn then Some interruptInWorker else None
  else if t =? 0x01 then Some (if isIn then isoInWorker else isoOutWorker)
  else if isIn then Some genericInWorker else None.

Definition newWorker (desc : Descriptor) (e : EndpointDescriptor) (k : endpointWorkerKind) :
    endpointWorker :=
  newEndpointWorker k (usbServiceInterval (Speed (d_Device desc)) (BInterval e)).

Definition binding_of (i : InterfaceConfig) (e : EndpointDescriptor) : endpointDescriptorBinding :=
  {| b_interfaceNumber := BInterfaceNumber (if_Descriptor i);
     b_alternateSetting := BAlternateSetting (if_Descriptor i); b_descriptor := e |}.

(** One iteration of the inner loop. *)
Definition precreate_endpoint (desc : Descriptor) (i : InterfaceConfig) (ws : workers)
    (e : EndpointDescriptor) : workers :=
  match endpoint_kind e with
  | None => ws
  | Some k =>
      let key := endpointWorkerKeyFor (binding_of i e) (endpoint_dir e) k in
      match ws !! key with
      | Some _ => ws
      | None => <[key := newWorker desc e k]> ws
      end
  end.

Definition precreateEndpointWorkers (desc : Descriptor) : workers :=
  fold_left (fun ws i => fold_left (precreate_endpoint desc i) (if_Endpoints i) ws)
    (d_Interfaces desc) ∅.

(** ** Routing submissions *)

Definition workerForBinding (ws : workers) (b : endpointDescriptorBinding) (dir : Z)
    (k : endpointWorkerKind) : option endpointWorker :=
  ws !! endpointWorkerKeyFor b dir k.

(** The common body of the enqueue...Binding methods. *)
Definition enqueue_binding (k : endpointWorkerKind) (dir sq xlen : Z) (payload : list Z)
    (pkts : list IsoPacketDescriptor) (now media : Z) (b : endpointDescriptorBinding)
    (ws : workers) : workers * bool :=
  match workerForBinding ws b dir k with
  | None => (ws, false)
  | Some w =>
      let '(w, ok) := enqueueWithGeneration sq xlen payload pkts now media w in
      (<[endpointWorkerKeyFor b dir k := w]> ws, ok)
  end.

Definition enqueueInterruptInBinding (sq xlen now : Z) (b : endpointDescriptorBinding)
    (ws : workers) : workers * bool :=
  enqueue_binding interruptInWorker DirIn sq xlen [] [] now 0 b ws.

Definition enqueueGenericInBinding (sq xlen now : Z) (b : endpointDescriptorBinding)
    (ws : workers) : workers * bool :=
  enqueue_binding genericInWorker DirIn sq xlen [] [] now 0 b ws.

Definition enqueueIsoInBinding (sq xlen now : Z) (pkts : list IsoPacketDescriptor)
    (b : endpointDescriptorBinding) (ws : workers) : workers * bool :=
  enqueue_binding isoInWorker DirIn sq xlen [] pkts now 0 b ws.

(** [media] is the answer of the device's IsoOutGeneration, zero without it. *)
Definition enqueueIsoOutBinding (sq xlen now media : Z) (payload : list Z)
    (pkts : list IsoPacketDescriptor) (b : endpointDescriptorBinding) (ws : workers) :
    workers * bool :=
  enqueue_binding isoOutWorker DirOut sq xlen payload pkts now media b ws.

(** ** Unlink *)

(** The loop of unlink over [visits], a key and the clock reading of each visit. *)
Fixpoint unlink (visits : list (endpointWorkerKey * Z)) (sq : Z) (ws : workers) :
    workers * bool :=
  match visits with
  | [] => (ws, false)
  | (k, now) :: visits =>
      match ws !! k with
      | None => unlink visits sq ws
      | Some w =>
          let '(w, removed) := unlinkAt sq now w in
          let ws := <[k := w]> ws in
          if removed then (ws, true) else unlink visits sq ws
      end
  end.

(** ** Resets *)

Definition resetEndpointWorkers (address : Z) (ws : workers) : workers :=
  let ep := u32 (Z.land address 0x0f) in
  let dir := if negb (Z.land address 0x80 =? 0) then DirIn else DirOut in
  map_imap (fun k w => Some (if (key_ep k =? ep) && (key_dir k =? dir) then reset w else w)) ws.

(** The presentation source a device may offer. *)
Record EndpointSource (D : Type) := {
  OwnsInputPresentationEndpoint : D -> Z -> bool;
  InputPresentationGeneration : D -> Z;
  RetireInputPresentationGeneration : D -> Z -> Z -> D * bool;
}.
Arguments OwnsInputPresentationEndpoint {D} _.
Arguments InputPresentationGeneration {D} _.
Arguments RetireInputPresentationGeneration {D} _.

Section Presentation.
Context {D : Type} (source : option (EndpointSource D)).

Definition ownsPresentationEndpoint (d : D) (address : Z) : bool :=
  negb (Z.land address 0x80 =? 0) &&
  match source with
  | None => false
  | Some src => OwnsInputPresentationEndpoint src d (Z.land address 0x0f)
  end.

(** The device and the connection's captured generation. *)
Definition retirePresentationGeneration (retiredAt : Z) (adoptSuccessor : bool) (d : D)
    (generation : Z) : D * Z :=
  match source with
  | None => (d, generation)
  | Some src =>
      if generation =? 0 then (d, generation)
      else
        let '(d, ok) := RetireInputPresentationGeneration src d generation retiredAt in
        if negb ok then (d, generation)
        else (d, if adoptSuccessor then InputPresentationGeneration src d else generation)
  end.

Definition rotatePresentationGeneration (retiredAt : Z) (d : D) (generation : Z) : D * Z :=
  retirePresentationGeneration retiredAt true d generation.

Definition resetEndpoint (address now : Z) (ws : workers) (d : D) (generation : Z) :
    workers * (D * Z) :=
  (resetEndpointWorkers address ws,
   if ownsPresentationEndpoint d address
   then rotatePresentationGeneration now d generation else (d, generation)).

Definition interface_endpoints (desc : Descriptor) (interfaceNumber : Z) :
    list EndpointDescriptor :=
  flat_map (fun i => if BInterfaceNumber (if_Descriptor i) =? interfaceNumber
                     then if_Endpoints i else []) (d_Interfaces desc).

Definition resetInterface (desc : Descriptor) (interfaceNumber now : Z) (ws : workers) (d : D)
    (generation : Z) : workers * (D * Z) :=
  let eps := interface_endpoints desc interfaceNumber in
  (fold_left (fun ws e => resetEndpointWorkers (BEndpointAddress e) ws) eps ws,
   if existsb (fun e => ownsPresentationEndpoint d (BEndpointAddress e)) eps
   then rotatePresentationGeneration now d generation else (d, generation)).

Definition resetAll (now : Z) (ws : workers) (d : D) (generation : Z) : workers * (D * Z) :=
  (reset <$> ws, rotatePresentationGeneration now d generation).

Definition applyControlLifecycleToSchedulers (desc : Descriptor) (now : Z)
    (l : controlLifecycleSetup) (ws : workers) (d : D) (generation : Z) : workers * (D * Z) :=
  if negb (lc_accepted l) then (ws, (d, generation))
  else match lc_kind l with
  | controlLifecycleClearEndpointHalt => resetEndpoint (lc_endpointAddress l) now ws d generation
  | controlLifecycleSetInterface =>
      resetInterface desc (lc_interfaceNumber l) now ws d generation
  | controlLifecycleSetConfiguration => resetAll now ws d generation
  | controlLifecycleNone => (ws, (d, generation))
  end.
End Presentation.
