(* ===== verification/Transactions.v ===== *)
(** * Transactional endpoint owners
      (src/usb/device.go, src/internal/server/usb/urb_stream.go)

    A device may own endpoint-zero requests or interrupt OUT submissions
    completely: the server claims a transaction, reserves the response, asks
    for final admission while it owns the response stream, and completes the
    claim with what became of the response.  Both protocols are functions over
    the device's state, the server's state that a delivered request changes,
    and the response stream. *)

From S2P Require Import Prelude Bytes GoIO UsbIp Hid Descriptor Urb Control ResponseWriter.

(** ** Claims *)

Inductive ControlTransactionDirection :=
| ControlTransactionHostToDevice
| ControlTransactionDeviceToHost.

Record ControlTransactionRequest := {
  cr_Setup : list Z;
  cr_Direction : ControlTransactionDirection;
  cr_TransferLength : Z;
  cr_Data : list Z;
}.

Definition ControlTransactionUnhandled : Z := 0.
Definition ControlTransactionData : Z := 1.
Definition ControlTransactionNoData : Z := 2.
Definition ControlTransactionStall : Z := 3.

Record ControlTransactionClaim := {
  ct_Token : Z;
  ct_Generation : Z;
  ct_Result : Z;
  ct_ResponseLength : Z;
}.

#[export] Instance ControlTransactionClaim_eq_dec : EqDecision ControlTransactionClaim.
Proof. solve_decision. Defined.

Definition ControlTransactionClaim_zero : ControlTransactionClaim :=
  {| ct_Token := 0; ct_Generation := 0; ct_Result := 0; ct_ResponseLength := 0 |}.

Definition ControlTransactionClaim_Valid (c : ControlTransactionClaim) : bool :=
  if ct_Result c =? ControlTransactionUnhandled then
    (ct_Token c =? 0) && (ct_Generation c =? 0) && (ct_ResponseLength c =? 0)
  else if ct_Result c =? ControlTransactionData then
    negb (ct_Token c =? 0) && negb (ct_Generation c =? 0) && negb (ct_ResponseLength c =? 0)
  else if (ct_Result c =? ControlTransactionNoData) || (ct_Result c =? ControlTransactionStall) then
    negb (ct_Token c =? 0) && negb (ct_Generation c =? 0) && (ct_ResponseLength c =? 0)
  else false.

Inductive ControlTransactionOutcome :=
| ControlTransactionDelivered
| ControlTransactionDeliveryFailed
| ControlTransactionCancelled.

Definition InterruptOutTransactionUnhandled : Z := 0.
Definition InterruptOutTransactionAccepted : Z := 1.
Definition InterruptOutTransactionStall : Z := 2.

Record InterruptOutTransactionClaim := {
  io_Token : Z;
  io_Generation : Z;
  io_Result : Z;
}.

#[export] Instance InterruptOutTransactionClaim_eq_dec : EqDecision InterruptOutTransactionClaim.
Proof. solve_decision. Defined.

Definition InterruptOutTransactionClaim_zero : InterruptOutTransactionClaim :=
  {| io_Token := 0; io_Generation := 0; io_Result := 0 |}.

Definition InterruptOutTransactionClaim_Valid (c : InterruptOutTransactionClaim) : bool :=
  if io_Result c =? InterruptOutTransactionUnhandled then
    (io_Token c =? 0) && (io_Generation c =? 0)
  else if (io_Result c =? InterruptOutTransactionAccepted) ||
          (io_Result c =? InterruptOutTransactionStall) then
    negb (io_Token c =? 0) && negb (io_Generation c =? 0)
  else false.

Inductive InterruptOutTransactionOutcome :=
| InterruptOutTransactionDelivered
| InterruptOutTransactionDeliveryFailed
| InterruptOutTransactionCancelled.

(** ** Owners *)

Record TransactionalControlDevice (D : Type) := {
  ClaimControlTransaction : D -> ControlTransactionRequest -> D * ControlTransactionClaim * option Z;
  AdmitControlTransaction : D -> ControlTransactionClaim -> list Z -> D * list Z * option Z;
  CompleteControlTransaction : D -> ControlTransactionClaim -> ControlTransactionOutcome -> D * option Z;
}.
Arguments ClaimControlTransaction {D} _.
Arguments AdmitControlTransaction {D} _.
Arguments CompleteControlTransaction {D} _.

Record TransactionalInterruptOutDevice (D : Type) := {
  ClaimInterruptOutTransaction : D -> Z -> list Z -> D * InterruptOutTransactionClaim * option Z;
  AdmitInterruptOutTransaction : D -> InterruptOutTransactionClaim -> D * option Z;
  CompleteInterruptOutTransaction :
    D -> InterruptOutTransactionClaim -> InterruptOutTransactionOutcome -> D * option Z;
}.
Arguments ClaimInterruptOutTransaction {D} _.
Arguments AdmitInterruptOutTransaction {D} _.
Arguments CompleteInterruptOutTransaction {D} _.

(** The errors that end the connection; [cancel] is the error of the
    completion call, when it failed too. *)
Inductive tx_err :=
| TxSetupLength (n : nat)
| TxDirection (dir : Z)
| TxClaim (code : Z) (cancel : option Z)
| TxInvalidClaim (cancel : option Z)
| TxLifecycleMismatch (cancel : option Z)
| TxEnvelope (cancel : option Z)
| TxAdmission (code : Z) (cancel : option Z)
| TxNotAdmitted (cancel : option Z)
| TxDelivery (e : io_err) (completion : option Z)
| TxCompletion (code : Z).

(** The captured variables of the two callbacks of writeIfThen. *)
Record tx_vars (D X : Type) := {
  v_dev : D;
  v_server : X;
  v_admitted : bool;
  v_admissionErr : option Z;
  v_completionErr : option Z;
}.
Arguments v_dev {D X} _.
Arguments v_server {D X} _.
Arguments v_admitted {D X} _.
Arguments v_admissionErr {D X} _.
Arguments v_completionErr {D X} _.

(** The error selection after the write. *)
Definition tx_result {D X} (v : tx_vars D X) (written : bool) (writeErr : option io_err) :
    option tx_err :=
  match v_admissionErr v with
  | Some code => Some (TxAdmission code (v_completionErr v))
  | None =>
      if negb written then Some (TxNotAdmitted (v_completionErr v))
      else match writeErr with
           | Some e => Some (TxDelivery e (v_completionErr v))
           | None => match v_completionErr v with
                     | Some code => Some (TxCompletion code)
                     | None => None
                     end
           end
  end.

Section Submissions.
Context {W : Type} `{Writer W, !Flusher W} {D : Type}.

(** ** Interrupt OUT *)

Section InterruptOut.
Context (owner : TransactionalInterruptOutDevice D).

Definition cancelReturnedInterruptOutClaim (d : D) (claim : InterruptOutTransactionClaim) :
    D * option Z :=
  if bool_decide (claim = InterruptOutTransactionClaim_zero) then (d, None)
  else CompleteInterruptOutTransaction owner d claim InterruptOutTransactionCancelled.

Definition admit_interrupt_out (claim : InterruptOutTransactionClaim) : claim_func (tx_vars D unit) :=
  fun v packet =>
    let '(d, err) := AdmitInterruptOutTransaction owner (v_dev v) claim in
    let ok := match err with None => true | Some _ => false end in
    ({| v_dev := d; v_server := v_server v; v_admitted := ok; v_admissionErr := err;
        v_completionErr := v_completionErr v |}, packet, ok).

Definition complete_interrupt_out (claim : InterruptOutTransactionClaim)
    (v : tx_vars D unit) (success : bool) : tx_vars D unit :=
  let outcome := if v_admitted v
                 then if success then InterruptOutTransactionDelivered
                      else InterruptOutTransactionDeliveryFailed
                 else InterruptOutTransactionCancelled in
  let '(d, err) := CompleteInterruptOutTransaction owner (v_dev v) claim outcome in
  {| v_dev := d; v_server := v_server v; v_admitted := v_admitted v;
     v_admissionErr := v_admissionErr v; v_completionErr := err |}.

(** The result is the stream, the device, whether the submission was handled,
    and the error that ends the connection.  A device without the interface
    handles nothing. *)
Definition processTransactionalInterruptOutSubmission (w : W) (d : D) (seq endpoint : Z)
    (outPayload : list Z) : W * D * bool * option tx_err :=
  let '(d, claim, claimErr) := ClaimInterruptOutTransaction owner d (u8 endpoint) outPayload in
  match claimErr with
  | Some code =>
      let '(d, c) := cancelReturnedInterruptOutClaim d claim in
      (w, d, true, Some (TxClaim code c))
  | None =>
      if negb (InterruptOutTransactionClaim_Valid claim) then
        let '(d, c) := cancelReturnedInterruptOutClaim d claim in
        (w, d, true, Some (TxInvalidClaim c))
      else if io_Result claim =? InterruptOutTransactionUnhandled then (w, d, false, None)
      else
        let stall := io_Result claim =? InterruptOutTransactionStall in
        let status := if stall then errPipe else 0 in
        let actualLength := if stall then 0 else u32 (Z.of_nat (length outPayload)) in
        let packet := buildRetSubmitPacket seq status actualLength [] [] false in
        let v := {| v_dev := d; v_server := tt; v_admitted := false; v_admissionErr := None;
                    v_completionErr := None |} in
        let '(w, v, _, written, writeErr) :=
          writeIfThen w v packet true (Some (admit_interrupt_out claim))
            (Some (complete_interrupt_out claim)) in
        (w, v_dev v, true, tx_result v written writeErr)
  end.
End InterruptOut.

(** ** Endpoint zero *)

Section ControlOwner.
Context (owner : TransactionalControlDevice D) {X : Type}.

(** The server's routing, the device's key in it and its GetDescriptor;
    [apply] is applyDeliveredTransactionalControlLifecycle. *)
Context (rt : routing) (dev : Z) (descriptor : D -> Descriptor).
Context (apply : controlLifecycleSetup -> X -> D -> X * D).

Definition cancelReturnedControlClaim (d : D) (claim : ControlTransactionClaim) : D * option Z :=
  if bool_decide (claim = ControlTransactionClaim_zero) then (d, None)
  else CompleteControlTransaction owner d claim ControlTransactionCancelled.

(** Admission fills the payload window of the reserved packet. *)
Definition admit_control (claim : ControlTransactionClaim) : claim_func (tx_vars D X) :=
  fun v packet =>
    let '(d, destination, err) :=
      AdmitControlTransaction owner (v_dev v) claim (drop retSubmitHeaderSize packet) in
    let ok := match err with None => true | Some _ => false end in
    ({| v_dev := d; v_server := v_server v; v_admitted := ok; v_admissionErr := err;
        v_completionErr := v_completionErr v |},
     take retSubmitHeaderSize packet ++ destination, ok).

Definition complete_control (claim : ControlTransactionClaim) (l : controlLifecycleSetup)
    (v : tx_vars D X) (success : bool) : tx_vars D X :=
  let outcome := if v_admitted v
                 then if success then ControlTransactionDelivered
                      else ControlTransactionDeliveryFailed
                 else ControlTransactionCancelled in
  let '(d, err) := CompleteControlTransaction owner (v_dev v) claim outcome in
  let '(x, d) :=
    if success && match err with None => true | Some _ => false end && lc_accepted l &&
       (ct_Result claim =? ControlTransactionNoData)
    then apply l (v_server v) d else (v_server v, d) in
  {| v_dev := d; v_server := x; v_admitted := v_admitted v;
     v_admissionErr := v_admissionErr v; v_completionErr := err |}.

Definition processTransactionalControlSubmission (w : W) (x : X) (d : D)
    (seq dir transferLength : Z) (setup outPayload : list Z) :
    W * X * D * bool * option tx_err :=
  if negb (length setup =? 8)%nat then (w, x, d, true, Some (TxSetupLength (length setup)))
  else if negb (dir =? DirOut) && negb (dir =? DirIn) then (w, x, d, true, Some (TxDirection dir))
  else
    let request := {| cr_Setup := setup;
      cr_Direction := if dir =? DirOut then ControlTransactionHostToDevice
                      else ControlTransactionDeviceToHost;
      cr_TransferLength := transferLength; cr_Data := outPayload |} in
    let '(d, claim, claimErr) := ClaimControlTransaction owner d request in
    match claimErr with
    | Some code =>
        let '(d, c) := cancelReturnedControlClaim d claim in (w, x, d, true, Some (TxClaim code c))
    | None =>
        if negb (ControlTransactionClaim_Valid claim) then
          let '(d, c) := cancelReturnedControlClaim d claim in
          (w, x, d, true, Some (TxInvalidClaim c))
        else if ct_Result claim =? ControlTransactionUnhandled then (w, x, d, false, None)
        else
          let l := parseControlLifecycleSubmissionDescriptor rt dev (Some (descriptor d)) 0 dir
                     transferLength setup in
          if lc_recognized l &&
             negb ((ct_Result claim =? ControlTransactionStall) ||
                   (lc_accepted l && (ct_Result claim =? ControlTransactionNoData)))
          then
            let '(d, c) := CompleteControlTransaction owner d claim ControlTransactionCancelled in
            (w, x, d, true, Some (TxLifecycleMismatch c))
          else if (transferLength <? ct_ResponseLength claim) ||
                  (setup_length setup <? ct_ResponseLength claim) ||
                  ((ct_Result claim =? ControlTransactionData) && negb (dir =? DirIn))
          then
            let '(d, c) := CompleteControlTransaction owner d claim ControlTransactionCancelled in
            (w, x, d, true, Some (TxEnvelope c))
          else
            let isData := ct_Result claim =? ControlTransactionData in
            let responseLength := if isData then ct_ResponseLength claim else 0 in
            let actualLength :=
              if isData then ct_ResponseLength claim
              else if (ct_Result claim =? ControlTransactionNoData) && (dir =? DirOut)
                   then u32 (Z.of_nat (length outPayload)) else 0 in
            let status := if ct_Result claim =? ControlTransactionStall then errPipe else 0 in
            let packet := buildTransactionalControlResponse seq status actualLength responseLength in
            let v := {| v_dev := d; v_server := x; v_admitted := false; v_admissionErr := None;
                        v_completionErr := None |} in
            let '(w, v, _, written, writeErr) :=
              writeIfThen w v packet true (Some (admit_control claim))
                (Some (complete_control claim l)) in
            (w, v_server v, v_dev v, true, tx_result v written writeErr)
    end.
End ControlOwner.
End Submissions.

(** ** Exactly-once completion

    A device that records the calls it receives, whatever it answers. *)

Inductive call (C O : Type) :=
| CallClaim
| CallAdmit (c : C)
| CallComplete (c : C) (o : O).
Arguments CallClaim {C O}.
Arguments CallAdmit {C O} _.
Arguments CallComplete {C O} _ _.

Definition logged_interrupt_out {D} (owner : TransactionalInterruptOutDevice D) :
    TransactionalInterruptOutDevice
      (D * list (call InterruptOutTransactionClaim InterruptOutTransactionOutcome)) := {|
  ClaimInterruptOutTransaction := fun '(d, l) ep data =>
    let '(d, c, e) := ClaimInterruptOutTransaction owner d ep data in
    ((d, l ++ [CallClaim]), c, e);
  AdmitInterruptOutTransaction := fun '(d, l) c =>
    let '(d, e) := AdmitInterruptOutTransaction owner d c in ((d, l ++ [CallAdmit c]), e);
  CompleteInterruptOutTransaction := fun '(d, l) c o =>
    let '(d, e) := CompleteInterruptOutTransaction owner d c o in
    ((d, l ++ [CallComplete c o]), e) |}.

Definition logged_control {D} (owner : TransactionalControlDevice D) :
    TransactionalControlDevice
      (D * list (call ControlTransactionClaim ControlTransactionOutcome)) := {|
  ClaimControlTransaction := fun '(d, l) r =>
    let '(d, c, e) := ClaimControlTransaction owner d r in ((d, l ++ [CallClaim]), c, e);
  AdmitControlTransaction := fun '(d, l) c dst =>
    let '(d, dst, e) := AdmitControlTransaction owner d c dst in ((d, l ++ [CallAdmit c]), dst, e);
  CompleteControlTransaction := fun '(d, l) c o =>
    let '(d, e) := CompleteControlTransaction owner d c o in
    ((d, l ++ [CallComplete c o]), e) |}.

Section ExactlyOnce.
Context {W : Type} `{WriterLaws W, !Flusher W} {HF : FlusherLaws W} {D : Type}.

Lemma logged_cancel_interrupt_out (owner : TransactionalInterruptOutDevice D) d l c d' l' e :
  cancelReturnedInterruptOutClaim (logged_interrupt_out owner) (d, l) c = ((d', l'), e) ->
  l' = l /\ c = InterruptOutTransactionClaim_zero \/
  l' = l ++ [CallComplete c InterruptOutTransactionCancelled] /\ c <> InterruptOutTransactionClaim_zero.
Proof.
  unfold cancelReturnedInterruptOutClaim. case_bool_decide as E; [intros [= <- <- <-]; auto|].
  cbn. destruct (CompleteInterruptOutTransaction owner d c _). intros [= <- <- <-]. auto.
Qed.

(** Whatever the device answers, a claim it returned for an interrupt
    OUT submission is completed at most once and always last: a refused or
    malformed claim is cancelled (unless it is the zero claim, which owns
    nothing) with not a byte sent; a handled one is offered for admission once
    and completed once, as Delivered exactly when the whole acknowledgement was
    accepted and flushed, as DeliveryFailed when it was not, and as Cancelled,
    with not a byte sent, when admission refused it.  The submission is
    acknowledged without an error only in the Delivered case. *)
Theorem interrupt_out_exactly_once (owner : TransactionalInterruptOutDevice D)
    w d log seq ep payload w' d' log' handled err :
  processTransactionalInterruptOutSubmission (logged_interrupt_out owner) w (d, log) seq ep payload
    = (w', (d', log'), handled, err) ->
  exists claim,
  (w' = w /\ log' = log ++ [CallClaim] /\
     (handled = false /\ err = None \/
      handled = true /\ err <> None /\ claim = InterruptOutTransactionClaim_zero)) \/
  (w' = w /\ handled = true /\ err <> None /\
     log' = log ++ [CallClaim; CallComplete claim InterruptOutTransactionCancelled]) \/
  (handled = true /\ InterruptOutTransactionClaim_Valid claim = true /\
   io_Result claim <> InterruptOutTransactionUnhandled /\ exists o,
     log' = log ++ [CallClaim; CallAdmit claim; CallComplete claim o] /\
     let stall := io_Result claim =? InterruptOutTransactionStall in
     let packet := buildRetSubmitPacket seq (if stall then errPipe else 0)
       (if stall then 0 else u32 (Z.of_nat (length payload))) [] [] false in
     match o with
     | InterruptOutTransactionDelivered => w_sent w' = w_sent w ++ packet
     | InterruptOutTransactionDeliveryFailed =>
         err <> None /\ exists p, w_sent w' = w_sent w ++ p /\ p `prefix_of` packet
     | InterruptOutTransactionCancelled => err <> None /\ w' = w
     end).
Proof using HF.
  unfold processTransactionalInterruptOutSubmission. cbn [ClaimInterruptOutTransaction logged_interrupt_out].
  destruct (ClaimInterruptOutTransaction owner d (u8 ep) payload) as [[d1 claim] ce].
  intros Hp. exists claim. revert Hp.
  destruct ce as [code|].
  { destruct (cancelReturnedInterruptOutClaim _ _ claim) as [[d2 l2] e2] eqn:Ec.
    intros [= <- <- <- <- <-]. apply logged_cancel_interrupt_out in Ec as [[-> ->]|[-> Hn]].
    - left. split_and!; auto.
    - right; left. by rewrite <- app_assoc. }
  destruct (InterruptOutTransactionClaim_Valid claim) eqn:Ev; cbn [negb].
  2:{ destruct (cancelReturnedInterruptOutClaim _ _ claim) as [[d2 l2] e2] eqn:Ec.
    intros [= <- <- <- <- <-]. apply logged_cancel_interrupt_out in Ec as [[-> ->]|[-> Hn]].
    - left. split_and!; auto.
    - right; left. by rewrite <- app_assoc. }
  destruct (io_Result claim =? InterruptOutTransactionUnhandled) eqn:Eu.
  { intros [= <- <- <- <- <-]. left. split_and!; auto. }
  apply Z.eqb_neq in Eu. cbv zeta. set (packet := buildRetSubmitPacket _ _ _ _ _ _).
  destruct (writeIfThen _ _ _ _ _ _) as [[[[w1 v1] p1] written] we] eqn:Ew.
  apply writeIfThen_spec in Ew. intros [= <- Ed <- <-]. right; right.
  split_and!; try done. unfold admit_interrupt_out in Ew. cbn in Ew.
  destruct (AdmitInterruptOutTransaction owner d1 claim) as [d2 ae].
  destruct Ew as (-> & -> & Hno & Hgo). unfold complete_interrupt_out in *.
  destruct ae as [code|]; cbn in Hno, Hgo.
  - destruct (Hno eq_refl) as (-> & -> & Hv). clear Hno Hgo.
    destruct (CompleteInterruptOutTransaction owner d2 claim _) as [d3 e3].
    subst v1. cbn in Ed. injection Ed as <- <-.
    exists InterruptOutTransactionCancelled. by rewrite <- !app_assoc.
  - destruct (Hgo eq_refl) as (Hv & Hs). clear Hno Hgo.
    destruct (CompleteInterruptOutTransaction owner d2 claim _) as [d3 e3].
    subst v1. cbn in Ed. injection Ed as <- <-.
    exists (match we with Some _ => InterruptOutTransactionDeliveryFailed
            | None => InterruptOutTransactionDelivered end).
    split; [destruct we; by rewrite <- !app_assoc|]. destruct we; [|done]. split; [done|done].
Qed.

(** What the server may answer a claim with: a lifecycle request is stalled or,
    when it is accepted, acknowledged without data; data fits both lengths the
    host gave and goes to the host. *)
Record control_admissible (l : controlLifecycleSetup) (claim : ControlTransactionClaim) (dir xlen : Z)
    (setup : list Z) : Prop := {
  ca_lifecycle : lc_recognized l = true -> ct_Result claim = ControlTransactionStall \/
    lc_accepted l = true /\ ct_Result claim = ControlTransactionNoData;
  ca_fits : ct_ResponseLength claim <= xlen /\ ct_ResponseLength claim <= setup_length setup;
  ca_direction : ct_Result claim = ControlTransactionData -> dir = DirIn;
}.

Lemma control_admissible_checks l claim dir xlen setup :
  control_admissible l claim dir xlen setup <->
  lc_recognized l && negb ((ct_Result claim =? ControlTransactionStall) ||
    (lc_accepted l && (ct_Result claim =? ControlTransactionNoData))) = false /\
  (xlen <? ct_ResponseLength claim) || (setup_length setup <? ct_ResponseLength claim) ||
    ((ct_Result claim =? ControlTransactionData) && negb (dir =? DirIn)) = false.
Proof.
  split.
  - intros [H1 [H2 H2'] H3]. split.
    + destruct (lc_recognized l); [|done]. destruct (H1 eq_refl) as [->|[-> ->]]; reflexivity.
    + rewrite (proj2 (Z.ltb_ge xlen _)), (proj2 (Z.ltb_ge (setup_length setup) _)) by lia. cbn [orb].
      destruct (Z.eqb_spec (ct_Result claim) ControlTransactionData) as [E|E]; [|done].
      by rewrite (H3 E).
  - intros [H1 H2]. split.
    + intros E. rewrite E in H1. apply negb_false_iff, orb_prop in H1 as [H1|H1]; bool_prop; auto.
    + bool_prop. lia.
    + intros E. rewrite E in H2. bool_prop. cbn in *. bool_prop. done.
Qed.

(** The header reserved for the answer to a claim. *)
Definition control_header (seq dir : Z) (payload : list Z) (claim : ControlTransactionClaim) : list Z :=
  wire_bytes (ret_header RetSubmitCode seq
    (if ct_Result claim =? ControlTransactionStall then errPipe else 0)
    (if ct_Result claim =? ControlTransactionData then ct_ResponseLength claim
     else if (ct_Result claim =? ControlTransactionNoData) && (dir =? DirOut)
          then u32 (Z.of_nat (length payload)) else 0) (-1)).

Lemma control_window seq status actual n :
  buildTransactionalControlResponse seq status actual n =
  wire_bytes (ret_header RetSubmitCode seq status actual (-1)) ++ zeros (Z.to_nat n).
Proof. unfold buildTransactionalControlResponse. cbv zeta. apply header_fill_packet. Qed.

Lemma writeIfThen_deliver {St} (w : W) (s : St) packet flush claim after w' s' packet' written err :
  writeIfThen w s packet flush (Some claim) (Some after) = (w', s', packet', written, err) ->
  let '(s1, p1, go) := claim s packet in
  written = go /\
  if go then let '(w1, e) := deliver w p1 flush in
    w' = w1 /\ err = e /\ s' = after s1 (match e with None => true | Some _ => false end)
  else w' = w /\ err = None /\ s' = after s1 false.
Proof.
  unfold writeIfThen. destruct (claim s packet) as [[s1 p1] go]. destruct go; cbn [negb].
  - destruct (deliver w p1 flush) as [w1 e]. by intros [= <- <- <- <- <-].
  - by intros [= <- <- <- <- <-].
Qed.

Section Control.
Context (owner : TransactionalControlDevice D) {X : Type}.
Context (rt : routing) (dev : Z) (descriptor : D -> Descriptor).
Context (apply : controlLifecycleSetup -> X -> D -> X * D).

(** The same beside the record of calls. *)
Definition logged_apply {L} (l : controlLifecycleSetup) (x : X) (y : D * L) : X * (D * L) :=
  let '(x, d) := apply l x (fst y) in (x, (d, snd y)).

(** How a transaction ends once its claim may be answered. *)
Definition control_settled (w : W) (x : X) (d1 : D) log (l : controlLifecycleSetup) claim header (w' : W) (x' : X) (d' : D)
    log' (err : option tx_err) : Prop :=
  let window := zeros (Z.to_nat (if ct_Result claim =? ControlTransactionData then ct_ResponseLength claim else 0)) in
  let '(d2, destination, ae) := AdmitControlTransaction owner d1 claim window in
  let '(w1, de) := deliver w (header ++ destination) true in
  let o := match ae, de with
           | Some _, _ => ControlTransactionCancelled
           | None, Some _ => ControlTransactionDeliveryFailed
           | None, None => ControlTransactionDelivered
           end in
  let '(d3, e3) := CompleteControlTransaction owner d2 claim o in
  log' = log ++ [CallAdmit claim; CallComplete claim o] /\
  match o with
  | ControlTransactionDelivered =>
      w_sent w' = w_sent w ++ header ++ destination /\ (err = None <-> e3 = None) /\
      (e3 = None -> lc_accepted l = true -> ct_Result claim = ControlTransactionNoData -> (x', d') = apply l x d3) /\
      (~ (e3 = None /\ lc_accepted l = true /\ ct_Result claim = ControlTransactionNoData) -> x' = x /\ d' = d3)
  | ControlTransactionDeliveryFailed =>
      (exists p, w_sent w' = w_sent w ++ p /\ p `prefix_of` header ++ destination) /\ err <> None /\ x' = x /\ d' = d3
  | ControlTransactionCancelled => w' = w /\ err <> None /\ x' = x /\ d' = d3
  end.

Lemma control_write_settled w x d1 log l claim seq status actual w' v' p' written we :
  writeIfThen w {| v_dev := (d1, log); v_server := x; v_admitted := false; v_admissionErr := None; v_completionErr := None |}
    (buildTransactionalControlResponse seq status actual
       (if ct_Result claim =? ControlTransactionData then ct_ResponseLength claim else 0)) true
    (Some (admit_control (logged_control owner) claim))
    (Some (complete_control (logged_control owner) logged_apply claim l)) = (w', v', p', written, we) ->
  control_settled w x d1 log l claim (wire_bytes (ret_header RetSubmitCode seq status actual (-1))) w' (v_server v')
    (fst (v_dev v')) (snd (v_dev v')) (tx_result v' written we).
Proof using HF.
  intros Hw. apply writeIfThen_deliver in Hw. unfold control_settled. rewrite control_window in Hw.
  unfold admit_control in Hw. cbn [v_dev AdmitControlTransaction logged_control] in Hw.
  unfold retSubmitHeaderSize in Hw. rewrite drop_app_length', take_app_length' in Hw by (by rewrite length_ret_header).
  destruct (AdmitControlTransaction owner d1 claim _) as [[d2 destination] ae]. cbn [v_server v_completionErr] in Hw.
  set (header := wire_bytes _) in *. destruct (deliver w (header ++ destination) true) as [w1 de] eqn:Ed.
  destruct ae as [code|]; destruct Hw as [-> Hw].
  - destruct Hw as (-> & -> & ->). unfold complete_control, tx_result. cbn.
    destruct (CompleteControlTransaction owner d2 claim _) as [d3 e3]. cbn. by rewrite <-app_assoc.
  - destruct Hw as (-> & -> & ->). apply deliver_spec in Ed. unfold complete_control, tx_result. cbn. destruct de as [e|].
    + destruct (CompleteControlTransaction owner d2 claim _) as [d3 e3]. cbn. by rewrite <-app_assoc.
    + destruct (CompleteControlTransaction owner d2 claim _) as [d3 e3]. cbn.
      destruct e3 as [code|]; cbn; [by rewrite <-app_assoc; split_and!; try (intros [? _])|].
      destruct (lc_accepted l) eqn:Ea; cbn; [|rewrite <-app_assoc; split_and!; try done; by intros _].
      destruct (Z.eqb_spec (ct_Result claim) ControlTransactionNoData) as [E|E].
      * unfold logged_apply. cbn. destruct (apply l x d3) as [x4 d4]. cbn. rewrite <-app_assoc.
        split_and!; try done. intros Hn. by destruct Hn.
      * cbn. rewrite <-app_assoc. split_and!; try done; intros; done.
Qed.

(** C6: endpoint-zero transactions, with any device and any answers.  The
    device is asked once, with exactly the request the host sent.  A request it
    does not handle goes on; a failed, malformed or inadmissible claim is
    cancelled and ends the connection without a byte; any other claim is
    admitted once, over a zeroed window of the claimed length, and then the
    header reserved for it is sent with exactly the bytes the device put there.
    A claim is completed once, last, with what became of the response, and is
    never completed otherwise.  The server's configuration and alternate
    settings change only by applying the lifecycle request that the setup packet
    is, accepted and answered with NoData, after its response was delivered and
    its completion reported no error, and then they do change. *)
Theorem control_transaction_exactly_once
    w x d log seq dir xlen setup payload w' x' d' log' handled err :
  processTransactionalControlSubmission (logged_control owner) rt dev (fun y => descriptor (fst y)) logged_apply
    w x (d, log) seq dir xlen setup payload = (w', x', (d', log'), handled, err) ->
  if negb (length setup =? 8)%nat || (negb (dir =? DirOut) && negb (dir =? DirIn))
  then (w', x', d', log', handled) = (w, x, d, log, true) /\ err <> None
  else
    let '(d1, claim, claimErr) := ClaimControlTransaction owner d
      {| cr_Setup := setup; cr_Direction := if dir =? DirOut then ControlTransactionHostToDevice else ControlTransactionDeviceToHost;
         cr_TransferLength := xlen; cr_Data := payload |} in
    let l := parseControlLifecycleSubmissionDescriptor rt dev (Some (descriptor d1)) 0 dir xlen setup in
    let usable := claimErr = None /\ ControlTransactionClaim_Valid claim = true in
    let cancelled := (w', x', d', log', handled) = (w, x, fst (CompleteControlTransaction owner d1 claim ControlTransactionCancelled),
        log ++ [CallClaim; CallComplete claim ControlTransactionCancelled], true) /\ err <> None in
    (~ usable -> claim = ControlTransactionClaim_zero ->
       (w', x', d', log', handled) = (w, x, d1, log ++ [CallClaim], true) /\ err <> None) /\
    (~ usable -> claim <> ControlTransactionClaim_zero -> cancelled) /\
    (usable -> ct_Result claim = ControlTransactionUnhandled ->
       (w', x', d', log', handled, err) = (w, x, d1, log ++ [CallClaim], false, None)) /\
    (usable -> ct_Result claim <> ControlTransactionUnhandled -> ~ control_admissible l claim dir xlen setup -> cancelled) /\
    (usable -> ct_Result claim <> ControlTransactionUnhandled -> control_admissible l claim dir xlen setup ->
       handled = true /\
       control_settled w x d1 (log ++ [CallClaim]) l claim (control_header seq dir payload claim) w' x' d' log' err).
Proof using HF.
  unfold processTransactionalControlSubmission. cbv zeta.
  destruct (negb (length setup =? 8)%nat); cbn [orb]; [by intros [= <- <- <- <- <- <-]|].
  destruct (negb (dir =? DirOut) && _); [by intros [= <- <- <- <- <- <-]|].
  cbn [ClaimControlTransaction logged_control].
  destruct (ClaimControlTransaction owner d _) as [[d1 claim] ce].
  set (l := parseControlLifecycleSubmissionDescriptor _ _ _ _ _ _ _).
  assert (Hk : CompleteControlTransaction (logged_control owner) (d1, log ++ [CallClaim]) claim ControlTransactionCancelled =
    ((fst (CompleteControlTransaction owner d1 claim ControlTransactionCancelled),
      log ++ [CallClaim; CallComplete claim ControlTransactionCancelled]),
     snd (CompleteControlTransaction owner d1 claim ControlTransactionCancelled))).
  { cbn. destruct (CompleteControlTransaction owner d1 claim _). cbn. by rewrite <-app_assoc. }
  destruct (decide (ce = None /\ ControlTransactionClaim_Valid claim = true)) as [Hu|Hu].
  2:{ intros Hp. assert (Hp' : exists e, (let '(d2, c) := cancelReturnedControlClaim (logged_control owner) (d1, log ++ [CallClaim]) claim in
        (w, x, d2, true, Some (e c))) = (w', x', (d', log'), handled, err)).
      { destruct ce as [code|]; [by exists (TxClaim code)|]. exists TxInvalidClaim.
        destruct (ControlTransactionClaim_Valid claim); [by destruct Hu|]. exact Hp. }
      clear Hp. destruct Hp' as [e Hp]. unfold cancelReturnedControlClaim in Hp. rewrite Hk in Hp.
      split_and!; try (intros Hu'; by destruct (Hu Hu')).
      - intros _ Hz. rewrite bool_decide_true in Hp by done. by injection Hp as <- <- <- <- <- <-.
      - intros _ Hz. rewrite bool_decide_false in Hp by done. by injection Hp as <- <- <- <- <- <-. }
  destruct Hu as [-> Hv]. rewrite Hv. cbn [negb].
  destruct (Z.eqb_spec (ct_Result claim) ControlTransactionUnhandled) as [Eu|Eu].
  { intros [= <- <- <- <- <- <-]. split_and!; try done; intros Hu'; by destruct Hu'. }
  cbv zeta. change (descriptor (fst (d1, log ++ [CallClaim]))) with (descriptor d1). fold l.
  rewrite Hk. set (mismatch := lc_recognized l && _). set (envelope := _ || _).
  assert (Hadm : control_admissible l claim dir xlen setup <-> mismatch = false /\ envelope = false)
    by apply control_admissible_checks.
  destruct (mismatch || envelope) eqn:Eme.
  { intros Hp. assert (Hp' : exists e, (w, x, (fst (CompleteControlTransaction owner d1 claim ControlTransactionCancelled),
        log ++ [CallClaim; CallComplete claim ControlTransactionCancelled]), true, Some e) = (w', x', (d', log'), handled, err)).
    { destruct mismatch; [by eexists|]. cbn in Eme. rewrite Eme in Hp. by eexists. }
    clear Hp. destruct Hp' as [e [= <- <- <- <- <- <-]]. split_and!; try done; try (intros Hu'; by destruct Hu').
    intros _ _ [Hm He]%Hadm. by rewrite Hm, He in Eme. }
  apply orb_false_iff in Eme as [Em Ee]. rewrite Em, Ee.
  destruct (writeIfThen _ _ _ _ _ _) as [[[[w1 v1] p1] written] we] eqn:Ew.
  apply control_write_settled in Ew. intros [= <- <- Ed <- <-]. rewrite Ed in Ew.
  split_and!; try done; try (intros Hu'; by destruct Hu').
  intros _ _ Hn. by destruct Hn; apply Hadm.
Qed.
End Control.
End ExactlyOnce.

(** ** What an error-free transaction leaves behind, for any owner *)

Section Effects.
Context {W : Type} `{WriterLaws W, !Flusher W} {HF : FlusherLaws W} {D : Type}.

Lemma take_control_header seq status actual n :
  take retSubmitHeaderSize (buildTransactionalControlResponse seq status actual n) =
  wire_bytes (ret_header RetSubmitCode seq status actual (-1)).
Proof.
  unfold buildTransactionalControlResponse. cbv zeta. unfold retSubmitHeaderSize.
  rewrite header_fill_packet. by rewrite take_app_length' by (by rewrite length_ret_header).
Qed.

Lemma interrupt_out_effect (owner : TransactionalInterruptOutDevice D) (w w' : W) d d' seq ep
    payload handled :
  processTransactionalInterruptOutSubmission owner w d seq ep payload = (w', d', handled, None) ->
  if handled then exists status actual,
    w_sent w' = w_sent w ++ buildRetSubmitPacket seq status actual [] [] false
  else w' = w.
Proof using HF.
  unfold processTransactionalInterruptOutSubmission.
  destruct (ClaimInterruptOutTransaction owner d (u8 ep) payload) as [[d1 claim] ce].
  destruct ce as [code|]; [by destruct (cancelReturnedInterruptOutClaim _ _ _)|].
  case_if; [by destruct (cancelReturnedInterruptOutClaim _ _ _)|].
  case_if; [by intros [= <- <- <-]|]. cbv zeta.
  destruct (writeIfThen _ _ _ _ _ _) as [[[[w1 v1] p1] written] we] eqn:Ew.
  apply writeIfThen_spec in Ew. intros [= <- <- <- Hr].
  unfold tx_result in Hr. unfold admit_interrupt_out in Ew. cbn in Ew.
  destruct (AdmitInterruptOutTransaction owner d1 claim) as [d2 ae].
  destruct Ew as (-> & -> & Hno & Hgo). destruct ae as [code|]; cbn in *.
  - destruct (Hno eq_refl) as (_ & _ & ->). unfold complete_interrupt_out in Hr. cbn in Hr.
    by destruct (CompleteInterruptOutTransaction owner d2 claim _).
  - destruct (Hgo eq_refl) as (_ & Hs). destruct (v_admissionErr v1); [done|].
    destruct we; [done|]. eauto.
Qed.

Lemma control_effect {X} (owner : TransactionalControlDevice D) rt dev descriptor apply
    (w w' : W) (x x' : X) d d' seq dir xlen setup payload handled :
  processTransactionalControlSubmission owner rt dev descriptor apply w x d seq dir xlen setup payload =
    (w', x', d', handled, None) ->
  if handled then
    (exists status actual tail, w_sent w' = w_sent w ++
       wire_bytes (ret_header RetSubmitCode seq status actual (-1)) ++ tail) /\
    (x' = x \/ exists l y, x' = fst (apply l x y))
  else w' = w /\ x' = x.
Proof using HF.
  unfold processTransactionalControlSubmission. case_if; [done|]. case_if; [done|].
  destruct (ClaimControlTransaction owner d _) as [[d1 claim] ce].
  destruct ce as [code|]; [by destruct (cancelReturnedControlClaim _ _ _)|].
  case_if; [by destruct (cancelReturnedControlClaim _ _ _)|].
  case_if; [by intros [= <- <- <- <-]|]. cbv zeta.
  case_if; [by destruct (CompleteControlTransaction _ _ _ _)|].
  case_if; [by destruct (CompleteControlTransaction _ _ _ _)|].
  destruct (writeIfThen _ _ _ _ _ _) as [[[[w1 v1] p1] written] we] eqn:Ew.
  apply writeIfThen_spec in Ew. intros [= <- <- <- <- Hr].
  unfold tx_result in Hr. unfold admit_control in Ew. cbn [v_dev] in Ew.
  destruct (AdmitControlTransaction owner d1 claim _) as [[d2 destination] ae].
  destruct Ew as (-> & -> & Hno & Hgo). destruct ae as [code|]; cbn [v_admissionErr v_dev] in *.
  - destruct (Hno eq_refl) as (_ & _ & ->). unfold complete_control in Hr. cbn in Hr.
    by destruct (CompleteControlTransaction owner d2 claim _).
  - destruct (Hgo eq_refl) as (Hv & Hs). destruct (v_admissionErr v1); [done|].
    cbn [negb] in Hr. destruct we; [done|]. rewrite take_control_header in Hs.
    split; [eauto|]. subst v1. unfold complete_control. cbn [v_admitted v_dev v_server].
    destruct (CompleteControlTransaction owner d2 claim _) as [d3 e3].
    case_if; [|by left]. destruct (apply _ _ _) as [x2 d4] eqn:Ea. right.
    eexists _, _. cbn [v_server]. by rewrite Ea.
Qed.
End Effects.

(** *** Concrete transactions *)

(** A device that accepts every submission and counts what it committed. *)
Definition demo_interrupt_out : TransactionalInterruptOutDevice Z := {|
  ClaimInterruptOutTransaction := fun d _ _ =>
    (d, {| io_Token := 1; io_Generation := 1; io_Result := InterruptOutTransactionAccepted |}, None);
  AdmitInterruptOutTransaction := fun d _ => (d, None);
  CompleteInterruptOutTransaction := fun d _ o =>
    (match o with InterruptOutTransactionDelivered => d + 1 | _ => d end, None) |}.

Definition demo_control : TransactionalControlDevice Z := {|
  ClaimControlTransaction := fun d _ =>
    (d, {| ct_Token := 1; ct_Generation := 1; ct_Result := ControlTransactionData;
           ct_ResponseLength := 2 |}, None);
  AdmitControlTransaction := fun d _ destination => (d, put_at 0 [7; 7] destination, None);
  CompleteControlTransaction := fun d _ o =>
    (match o with ControlTransactionDelivered => d + 1 | _ => d end, None) |}.

(** The connection breaks inside the acknowledgement: nothing is committed. *)
Lemma interrupt_out_exactly_once_witness :
  exists o, snd (snd (fst (fst (processTransactionalInterruptOutSubmission
      (logged_interrupt_out demo_interrupt_out) (Capped 10 [] ErrEOF) (0, []) 7 1 [1; 2])))) =
    [CallClaim; CallAdmit {| io_Token := 1; io_Generation := 1; io_Result := 1 |};
     CallComplete {| io_Token := 1; io_Generation := 1; io_Result := 1 |} o] /\
    o = InterruptOutTransactionDeliveryFailed.
Proof.
  destruct (processTransactionalInterruptOutSubmission (logged_interrupt_out demo_interrupt_out)
    (Capped 10 [] ErrEOF) (0, []) 7 1 [1; 2]) as [[[w' [d' log']] handled] err] eqn:E.
  pose proof E as E'. vm_compute in E'.
  apply interrupt_out_exactly_once in E as
    (claim & [(_ & E & _)|[(_ & _ & _ & E)|(_ & _ & _ & o & E & _)]]);
    injection E' as _ _ <- _ _; cbn in E; [done|done|].
  simplify_eq. eexists. split; reflexivity.
Defined.

Definition demo_rt : routing := {| configurations := ∅; alts := ∅ |}.

(** GET_DESCRIPTOR answered with two bytes: they follow the header, and the device committed once. *)
Lemma control_transaction_exactly_once_witness :
  let '(out, _, (d, calls), handled, _) := processTransactionalControlSubmission (W := list Z)
      (logged_control demo_control) demo_rt 0 (fun _ => demo_desc) (logged_apply (fun _ x d => (x, d)))
      [] tt (0, []) 9 DirIn 4 (setup_packet 0x80 6 0 0 4) [] in
  let claim := {| ct_Token := 1; ct_Generation := 1; ct_Result := 1; ct_ResponseLength := 2 |} in
  out = control_header 9 DirIn [] claim ++ [7; 7] /\ d = 1 /\
  calls = [CallClaim; CallAdmit claim; CallComplete claim ControlTransactionDelivered].
Proof.
  destruct (processTransactionalControlSubmission (W := list Z)
      (logged_control demo_control) demo_rt 0 (fun _ => demo_desc) (logged_apply (fun _ x d => (x, d)))
      [] tt (0, []) 9 DirIn 4 (setup_packet 0x80 6 0 0 4) [])
    as [[[[out x'] [d calls]] handled] err] eqn:E.
  apply (control_transaction_exactly_once demo_control demo_rt 0 (fun _ => demo_desc)
    (fun _ x d => (x, d)) [] tt 0 []) in E.
  destruct E as (_ & _ & _ & _ & E). destruct (E ltac:(by split) ltac:(done)) as [_ Hs].
  { split; [done|vm_compute; split; congruence|done]. }
  cbn in Hs. destruct Hs as (-> & -> & _ & _ & Hd). destruct Hd as [_ ->]; [by intros (_ & ? & _)|]. by split_and!.
Defined.
