(* ===== verification/UrbStream.v ===== *)
(** * The command loop of one USB/IP connection
      (src/internal/server/usb/urb_stream.go, handleUrbStream)

    One iteration reads one command from the connection and either answers it,
    hands it to an endpoint worker, or ends the connection.  The model composes
    the header checks, the active-endpoint resolution, the submission checks,
    the workers, the transactional owners and the endpoint-zero dispatcher in
    the order of the code.  The bytes not yet read are a list (reads are exact
    by [UsbIp.ReadExactly_spec]).  The clock readings, the iteration order of
    the worker map and what other goroutines do to the device between the
    attempts of a versioned report are arguments. *)

From S2P Require Import Prelude Bytes GoIO UsbIp Hid Descriptor Urb.
From S2P Require Import Control EndpointWorker ResponseWriter Schedulers Transactions.

(** ** Devices *)

(** inputReportSnapshotter: the bytes written, the length returned and the
    presentation version; and its report-ID extension. *)
Record inputReportSnapshotter (D : Type) := {
  SnapshotInputReportInto : D -> nat -> D * (list Z * Z * Z);
  InputReportSnapshotCurrent : D -> Z -> bool;
  by_id : option ((D -> Z -> bool) * (D -> Z -> nat -> D * (list Z * Z * Z)));
}.
Arguments SnapshotInputReportInto {D} _.
Arguments InputReportSnapshotCurrent {D} _.
Arguments by_id {D} _.

(** The interfaces a device may implement; [None] is a failed type assertion. *)
Record StreamDevice (D : Type) := {
  sd_ops : DeviceOps D;
  sd_source : option (EndpointSource D);
  IsoOutGeneration : option (D -> Z -> Z);
  TryHandleOutputCommand : option (D -> Z -> list Z -> list Z -> D * (bool * bool));
  sd_control : option (TransactionalControlDevice D);
  sd_interruptOut : option (TransactionalInterruptOutDevice D);
  sd_snapshotter : option (inputReportSnapshotter D);
}.
Arguments sd_ops {D} _.
Arguments sd_source {D} _.
Arguments IsoOutGeneration {D} _.
Arguments TryHandleOutputCommand {D} _.
Arguments sd_control {D} _.
Arguments sd_interruptOut {D} _.
Arguments sd_snapshotter {D} _.

(** ** Versioned input reports *)

Definition maximumVersionedInputReportSize : nat := 1024.

Inductive versionedInputReportDisposition :=
| versionedInputReportUnhandled
| versionedInputReportSnapshot (reportID : option Z) (reportLength : nat)
| versionedInputReportStall.

Section Stream.
Context {W : Type} `{Writer W, !Flusher W} {D : Type} (sd : StreamDevice D) (dev : Z).

(** The result carries the report ID when the device is ID-aware. *)
Definition versionedInputReportRequest (d : D) (ep dir : Z) (setup : list Z) (xferLen : Z) :
    versionedInputReportDisposition :=
  if negb (ep =? 0) || negb (dir =? DirIn) || negb (length setup =? 8)%nat ||
     negb (byte_at setup 0 =? hidReqTypeIn) || negb (byte_at setup 1 =? hidReqGetReport)
  then versionedInputReportUnhandled
  else
    let wValue := setup_value setup in
    if negb (u8 (Z.shiftr wValue 8) =? 0x01) then versionedInputReportUnhandled
    else match sd_snapshotter sd with
    | None => versionedInputReportUnhandled
    | Some snap =>
        let reportID := u8 wValue in
        let target (id : option Z) :=
          let wIndex := setup_index setup in
          if negb (Z.shiftr wIndex 8 =? 0) then versionedInputReportStall
          else match Interface (GetDescriptor (sd_ops sd) d) (u8 wIndex) with
               | None => versionedInputReportStall
               | Some iface =>
                   if negb (BInterfaceClass (if_Descriptor iface) =? usbInterfaceClassHID)
                   then versionedInputReportStall
                   else versionedInputReportSnapshot id
                          (Z.to_nat (Z.min (Z.min xferLen (setup_length setup))
                                       (Z.of_nat maximumVersionedInputReportSize)))
               end in
        match by_id snap with
        | Some (supports, _) =>
            if negb (supports d reportID) then versionedInputReportStall
            else target (Some reportID)
        | None => if negb (reportID =? 0x01) then versionedInputReportUnhandled else target None
        end
    end.

(** One retry per entry of [env], what the other goroutines did to the device
    between the copy and the validation; [None] when every attempt was stale. *)
Fixpoint writeVersionedInputReportResponse (snap : inputReportSnapshotter D) (id : option Z)
    (env : list (D -> D)) (w : W) (d : D) (seq : Z) (reportLength : nat) :
    option (W * D * option io_err) :=
  match env with
  | [] => None
  | interfere :: env =>
      let '(d, (buffer, n, version)) :=
        match id, by_id snap with
        | Some i, Some (_, snapshotFor) => snapshotFor d i reportLength
        | _, _ => SnapshotInputReportInto snap d reportLength
        end in
      let n := Nat.min (Z.to_nat n) reportLength in
      let packet := buildRetSubmitPacket seq 0 (u32 (Z.of_nat n)) (take n buffer) [] false in
      let d := interfere d in
      let '(w, d, _, written, err) :=
        writeIf w d packet true
          (Some (fun d packet => (d, packet, InputReportSnapshotCurrent snap d version))) in
      match err with
      | Some e => Some (w, d, Some e)
      | None => if written then Some (w, d, None)
                else writeVersionedInputReportResponse snap id env w d seq reportLength
      end
  end.

(** ** The state of the loop *)

Record stream := {
  st_routing : routing;
  st_dev : D;
  st_workers : workers;
  st_generation : Z;
  st_out : W;
}.

Definition set_out (w : W) (s : stream) : stream := {|
  st_routing := st_routing s; st_dev := st_dev s; st_workers := st_workers s;
  st_generation := st_generation s; st_out := w |}.

Definition set_workers (ws : workers) (s : stream) : stream := {|
  st_routing := st_routing s; st_dev := st_dev s; st_workers := ws;
  st_generation := st_generation s; st_out := st_out s |}.

Definition set_dev (d : D) (s : stream) : stream := {|
  st_routing := st_routing s; st_dev := d; st_workers := st_workers s;
  st_generation := st_generation s; st_out := st_out s |}.

Inductive stream_err :=
| ErrReadHeader
| ErrHeader (e : urb_err)
| ErrReadPayload
| ErrReadIso
| ErrIsoSubmission (seq : Z) (e : submission_err)
| ErrInterruptSubmission (seq : Z) (e : submission_err)
| ErrTransaction (e : tx_err)
| ErrWrite (e : io_err).

(** What one iteration did: the loop goes on with the rest of the input, the
    function returned, or a versioned report is still being retried. *)
Inductive outcome :=
| Continue (s : stream) (rest : list Z)
| Stop (e : stream_err) (s : stream)
| Retrying (s : stream).

(** [if err := responses.write(packet, true, time.Now()); err != nil { return err }; continue] *)
Definition reply (s : stream) (packet : list Z) (flush : bool) (rest : list Z) : outcome :=
  let '(w, _, err) := write (st_out s) tt packet flush in
  match err with
  | None => Continue (set_out w s) rest
  | Some e => Stop (ErrWrite e) (set_out w s)
  end.

Definition read_exact (n : nat) (input : list Z) : option (list Z * list Z) :=
  if (length input <? n)%nat then None else Some (take n input, drop n input).

(** Packets of a refused isochronous submission. *)
Definition fail_packets (status : Z) (ps : list IsoPacketDescriptor) : list IsoPacketDescriptor :=
  map (fun p => {| iso_Offset := iso_Offset p; iso_Length := iso_Length p;
                   iso_ActualLength := 0; iso_Status := status |}) ps.

(** A worker admitted the submission, or the fallback answer is written. *)
Definition admitted_or (s : stream) (r : workers * bool) (packet : list Z) (rest : list Z) :
    outcome :=
  let '(ws, ok) := r in
  if ok then Continue (set_workers ws s) rest else reply (set_workers ws s) packet true rest.

(** ** IN submissions of data endpoints *)

Definition submit_in (s : stream) (now seq xferLen : Z) (isIso : bool)
    (isoPackets : list IsoPacketDescriptor) (b : endpointDescriptorBinding) (rest : list Z) :
    outcome :=
  let full := buildRetSubmitPacket seq errNoSpace 0 [] isoPackets isIso in
  if isIso then
    match isoPackets with
    | [] => reply s (buildRetSubmitPacket seq 0 0 [] [] true) true rest
    | _ => admitted_or s (enqueueIsoInBinding seq xferLen now isoPackets b (st_workers s)) full rest
    end
  else if Z.land (ep_BMAttributes (b_descriptor b)) 0x03 =? 0x03 then
    match validateInterruptEndpointSubmission (Some (b_descriptor b)) xferLen with
    | Some e => Stop (ErrInterruptSubmission seq e) s
    | None => admitted_or s (enqueueInterruptInBinding seq xferLen now b (st_workers s)) full rest
    end
  else admitted_or s (enqueueGenericInBinding seq xferLen now b (st_workers s)) full rest.

Definition submit_iso_out (s : stream) (now seq xferLen : Z) (outPayload : list Z)
    (isoPackets : list IsoPacketDescriptor) (b : endpointDescriptorBinding) (rest : list Z) :
    outcome :=
  let media := match IsoOutGeneration sd with
               | Some f => f (st_dev s) (Z.land (BEndpointAddress (b_descriptor b)) 0x0f)
               | None => 0
               end in
  admitted_or s (enqueueIsoOutBinding seq xferLen now media outPayload isoPackets b (st_workers s))
    (buildRetSubmitPacket seq errNoSpace 0 [] (fail_packets errNoSpace isoPackets) true) rest.

(** ** Endpoint zero and the remaining submissions *)

(** applyDeliveredTransactionalControlLifecycle on (routing, workers, generation). *)
Definition applyDeliveredTransactionalControlLifecycle (desc : Descriptor) (now : Z)
    (l : controlLifecycleSetup) (x : routing * workers * Z) (d : D) : routing * workers * Z * D :=
  let '(r, ws, g) := x in
  let '(ws, (d, g)) := applyControlLifecycleToSchedulers (sd_source sd) desc now l ws d g in
  let r := match lc_kind l with
           | controlLifecycleSetInterface =>
               setInterfaceAlt r dev (lc_interfaceNumber l) (lc_alternateSetting l)
           | controlLifecycleSetConfiguration =>
               clearInterfaceAlt (setDeviceConfiguration r dev (lc_configurationValue l)) dev
           | _ => r
           end in
  (r, ws, g, d).

Definition submit_ordinary (s : stream) (desc : Descriptor) (now seq ep dir xferLen : Z)
    (setup outPayload : list Z) (active : option endpointDescriptorBinding) (rest : list Z) :
    outcome :=
  let l := parseControlLifecycleSubmissionDescriptor (st_routing s) dev
    (Some (GetDescriptor (sd_ops sd) (st_dev s))) ep dir xferLen setup in
  let '(ws, (d, g)) := applyControlLifecycleToSchedulers (sd_source sd) desc now l
    (st_workers s) (st_dev s) (st_generation s) in
  let '(r, d, packet) := complete_submission (sd_ops sd) (st_routing s) dev d seq ep dir setup
    outPayload l in
  let flush := (ep =? 0) || match active with
    | Some b => Z.land (ep_BMAttributes (b_descriptor b)) 0x03 =? 0x03
    | None => false
    end in
  reply {| st_routing := r; st_dev := d; st_workers := ws; st_generation := g; st_out := st_out s |}
    packet flush rest.

Definition submit_report (s : stream) (desc : Descriptor) (now : Z) (env : list (D -> D))
    (seq ep dir xferLen : Z) (setup outPayload : list Z)
    (active : option endpointDescriptorBinding) (rest : list Z) : outcome :=
  match versionedInputReportRequest (st_dev s) ep dir setup xferLen, sd_snapshotter sd with
  | versionedInputReportSnapshot id len, Some snap =>
      match writeVersionedInputReportResponse snap id env (st_out s) (st_dev s) seq len with
      | None => Retrying s
      | Some (w, d, None) => Continue (set_out w (set_dev d s)) rest
      | Some (w, d, Some e) => Stop (ErrWrite e) (set_out w (set_dev d s))
      end
  | versionedInputReportStall, _ =>
      reply s (buildRetSubmitPacket seq errPipe 0 [] [] false) true rest
  | _, _ => submit_ordinary s desc now seq ep dir xferLen setup outPayload active rest
  end.

Definition submit_interrupt_out (s : stream) (desc : Descriptor) (now : Z) (env : list (D -> D))
    (seq ep dir xferLen : Z) (setup outPayload : list Z)
    (active : option endpointDescriptorBinding) (rest : list Z) : outcome :=
  match sd_interruptOut sd, active with
  | Some owner, Some b =>
      if negb (ep =? 0) && (dir =? DirOut) &&
         (Z.land (ep_BMAttributes (b_descriptor b)) 0x03 =? 0x03)
      then
        let '(w, d, handled, err) :=
          processTransactionalInterruptOutSubmission owner (st_out s) (st_dev s) seq ep outPayload in
        let s := set_out w (set_dev d s) in
        match err with
        | Some e => Stop (ErrTransaction e) s
        | None => if handled then Continue s rest
                  else submit_report s desc now env seq ep dir xferLen setup outPayload active rest
        end
      else submit_report s desc now env seq ep dir xferLen setup outPayload active rest
  | _, _ => submit_report s desc now env seq ep dir xferLen setup outPayload active rest
  end.

Definition submit_control (s : stream) (desc : Descriptor) (now : Z) (env : list (D -> D))
    (seq ep dir xferLen : Z) (setup outPayload : list Z)
    (active : option endpointDescriptorBinding) (rest : list Z) : outcome :=
  match sd_control sd with
  | Some owner =>
      if ep =? 0 then
        let '(w, (r, ws, g), d, handled, err) :=
          processTransactionalControlSubmission owner (st_routing s) dev (GetDescriptor (sd_ops sd))
            (applyDeliveredTransactionalControlLifecycle desc now)
            (st_out s) (st_routing s, st_workers s, st_generation s) (st_dev s)
            seq dir xferLen setup outPayload in
        let s := {| st_routing := r; st_dev := d; st_workers := ws; st_generation := g;
                    st_out := w |} in
        match err with
        | Some e => Stop (ErrTransaction e) s
        | None => if handled then Continue s rest
                  else submit_interrupt_out s desc now env seq ep dir xferLen setup outPayload
                         active rest
        end
      else submit_interrupt_out s desc now env seq ep dir xferLen setup outPayload active rest
  | None => submit_interrupt_out s desc now env seq ep dir xferLen setup outPayload active rest
  end.

(** Output commands with bounded admission. *)
Definition submit_output (s : stream) (desc : Descriptor) (now : Z) (env : list (D -> D))
    (seq ep dir xferLen : Z) (setup outPayload : list Z)
    (active : option endpointDescriptorBinding) (rest : list Z) : outcome :=
  let eligible := (dir =? DirOut) && ((ep =? 0) ||
    match active with
    | Some b => Z.land (ep_BMAttributes (b_descriptor b)) 0x03 =? 0x03
    | None => false
    end) in
  match TryHandleOutputCommand sd with
  | Some try =>
      if eligible then
        let '(d, (handled, accepted)) := try (st_dev s) (u8 ep) setup outPayload in
        let s := set_dev d s in
        if handled then
          reply s (buildRetSubmitPacket seq (if accepted then 0 else errNoSpace)
            (if accepted then u32 (Z.of_nat (length outPayload)) else 0) [] [] false) true rest
        else submit_control s desc now env seq ep dir xferLen setup outPayload active rest
      else submit_control s desc now env seq ep dir xferLen setup outPayload active rest
  | None => submit_control s desc now env seq ep dir xferLen setup outPayload active rest
  end.

(** ** One submission, its payload and descriptors read *)

Definition is_iso_endpoint (b : endpointDescriptorBinding) : bool :=
  Z.land (ep_BMAttributes (b_descriptor b)) 0x03 =? 0x01.

Definition dispatch_submit (s : stream) (desc : Descriptor) (now : Z) (env : list (D -> D))
    (seq ep dir xferLen : Z) (isIso : bool) (setup outPayload : list Z)
    (isoPackets : list IsoPacketDescriptor) (active : option endpointDescriptorBinding)
    (rest : list Z) : outcome :=
  match (if isIso then validateIsoEndpointSubmission (b_descriptor <$> active) xferLen isoPackets
         else None), active with
  | Some e, _ => Stop (ErrIsoSubmission seq e) s
  | None, Some b =>
      if (dir =? DirIn) && negb (ep =? 0) then submit_in s now seq xferLen isIso isoPackets b rest
      else if (dir =? DirOut) && isIso
      then submit_iso_out s now seq xferLen outPayload isoPackets b rest
      else submit_output s desc now env seq ep dir xferLen setup outPayload active rest
  | None, None => submit_output s desc now env seq ep dir xferLen setup outPayload active rest
  end.

(** The descriptor the schedulers captured when the connection was made is
    [desc]; the routing decisions ask the device for its own. *)
Definition handle_submit (s : stream) (desc : Descriptor) (now : Z) (env : list (D -> D))
    (seq dir ep xferLen packetCount : Z) (setup : list Z) (input : list Z) : outcome :=
  let active := if ep =? 0 then None
    else activeEndpointBindingDescriptor (st_routing s) dev
           (Some (GetDescriptor (sd_ops sd) (st_dev s))) ep dir in
  let descriptorIso := match active with Some b => is_iso_endpoint b | None => false end in
  let isIso := (0 <? packetCount) || descriptorIso in
  match read_exact (if dir =? DirOut then Z.to_nat xferLen else 0) input with
  | None => Stop ErrReadPayload s
  | Some (outPayload, input) =>
      let count := Z.to_nat packetCount in
      match read_exact (count * IsoPacketDescriptorSize) input with
      | None => Stop ErrReadIso s
      | Some (wire, rest) =>
          match decodeIsoPacketDescriptors wire count with
          | Err _ => Stop ErrReadIso s
          | Ok isoPackets =>
              if (negb (ep =? 0) && match active with None => true | Some _ => false end) ||
                 (isIso && negb descriptorIso)
              then reply s (buildRetSubmitPacket seq errPipe 0 [] (fail_packets errPipe isoPackets)
                              isIso) true rest
              else dispatch_submit s desc now env seq ep dir xferLen isIso setup outPayload
                     isoPackets active rest
          end
      end
  end.

(** ** One iteration of the loop *)

Definition urb_iteration (desc : Descriptor) (now : Z) (visits : list (endpointWorkerKey * Z))
    (env : list (D -> D)) (s : stream) (input : list Z) : outcome :=
  match read_exact urbHdrSize input with
  | None => Stop ErrReadHeader s
  | Some (header, input) =>
      match parse_urb_header header with
      | Err e => Stop (ErrHeader e) s
      | Ok (UrbUnlink seq unlinkSeq) =>
          let '(ws, removed) := unlink visits unlinkSeq (st_workers s) in
          reply (set_workers ws s)
            (buildRetUnlinkPacket seq (if removed then errConnReset else 0)) true input
      | Ok (UrbSubmit seq dir ep xferLen packetCount setup) =>
          handle_submit s desc now env seq dir ep xferLen packetCount setup input
      end
  end.
End Stream.

(** * Properties *)

(** ** What a command may do to the workers it does not enqueue into *)

(** A worker was left alone, refused a submission or was reset. *)
Inductive quiet : endpointWorker -> endpointWorker -> Prop :=
| quiet_refl w : quiet w w
| quiet_reset w w' : quiet (reset w) w' -> quiet w w'
| quiet_full w w1 w' sq xlen data pkts now media :
    enqueueWithGeneration sq xlen data pkts now media w = (w1, false) -> quiet w1 w' -> quiet w w'.

Lemma quiet_trans w1 w2 w3 : quiet w1 w2 -> quiet w2 w3 -> quiet w1 w3.
Proof. induction 1; eauto using quiet. Qed.

Definition all_quiet (ws ws' : workers) : Prop :=
  forall k, option_relation quiet (fun _ => False) (fun _ => False) (ws !! k) (ws' !! k).

Lemma all_quiet_refl ws : all_quiet ws ws.
Proof. intros k. destruct (ws !! k); cbn; constructor. Qed.

Lemma all_quiet_trans ws1 ws2 ws3 : all_quiet ws1 ws2 -> all_quiet ws2 ws3 -> all_quiet ws1 ws3.
Proof.
  intros H1 H2 k. specialize (H1 k). specialize (H2 k).
  destruct (ws1 !! k), (ws2 !! k), (ws3 !! k); cbn in *; try done. by eapply quiet_trans.
Qed.

Lemma reset_endpoint_quiet a ws : all_quiet ws (resetEndpointWorkers a ws).
Proof.
  intros k. unfold resetEndpointWorkers. cbv zeta. rewrite map_lookup_imap.
  destruct (ws !! k) as [w|]; cbn; [|done]. case_if; [apply quiet_reset|]; apply quiet_refl.
Qed.

Lemma lifecycle_quiet {D} (src : option (EndpointSource D)) desc now l ws d g ws' d' g' :
  applyControlLifecycleToSchedulers src desc now l ws d g = (ws', (d', g')) -> all_quiet ws ws'.
Proof.
  unfold applyControlLifecycleToSchedulers. case_if; [intros [= <- <- <-]; apply all_quiet_refl|].
  destruct (lc_kind l).
  - intros [= <- <- <-]. apply all_quiet_refl.
  - unfold resetEndpoint. intros [<- _]%pair_equal_spec. apply reset_endpoint_quiet.
  - unfold resetInterface. cbv zeta. intros [<- _]%pair_equal_spec.
    generalize (interface_endpoints desc (lc_interfaceNumber l)). intros eps. clear.
    revert ws. induction eps as [|e eps IH]; intros ws; cbn; [apply all_quiet_refl|].
    eapply all_quiet_trans; [apply reset_endpoint_quiet|apply IH].
  - unfold resetAll. intros [<- _]%pair_equal_spec. intros k. rewrite lookup_fmap.
    destruct (ws !! k); cbn; [|done]. apply quiet_reset, quiet_refl.
Qed.

(** An enqueue through a binding either reaches one worker or is quiet. *)
Definition enqueued (sq : Z) (ws ws' : workers) : Prop :=
  exists k w w' xlen data pkts now media,
    ws !! k = Some w /\ ws' = <[k := w']> ws /\
    enqueueWithGeneration sq xlen data pkts now media w = (w', true).

Lemma enqueue_binding_cases k dir sq xlen payload pkts now media b ws ws' ok :
  enqueue_binding k dir sq xlen payload pkts now media b ws = (ws', ok) ->
  if ok then enqueued sq ws ws' else all_quiet ws ws'.
Proof.
  unfold enqueue_binding, workerForBinding.
  destruct (ws !! _) as [w|] eqn:Ew; [|intros [= <- <-]; apply all_quiet_refl].
  destruct (enqueueWithGeneration sq xlen payload pkts now media w) as [w1 o] eqn:Ee.
  intros [= <- <-]. destruct o; [eexists _, _, _, _, _, _, _, _; split_and!; eauto|].
  intros k'. destruct (decide (k' = endpointWorkerKeyFor b dir k)) as [->|Hne].
  - rewrite Ew, lookup_insert_eq. cbn. eapply quiet_full; [exact Ee|apply quiet_refl].
  - rewrite lookup_insert_ne by done. apply all_quiet_refl.
Qed.

(** ** The disposition of one submission *)

(** A RET_SUBMIT for [seq]. *)
Definition ret_submit_for (seq : Z) (p : list Z) : Prop :=
  exists status actual n tail,
    p = wire_bytes (ret_header RetSubmitCode seq status actual n) ++ tail.

Lemma build_ret_submit_for seq status actual data ps iso :
  ret_submit_for seq (buildRetSubmitPacket seq status actual data ps iso).
Proof. rewrite buildRetSubmitPacket_bytes. by eexists _, _, _, _. Qed.
#[export] Hint Resolve build_ret_submit_for all_quiet_refl : viiper.

Section Disposition.
Context {W : Type} `{WriterLaws W, !Flusher W} {HF : FlusherLaws W} {D : Type}
  (sd : StreamDevice D) (dev : Z).
Implicit Types (s : @stream W D) (seq now ep dir xferLen : Z) (packet rest setup out : list Z).

(** When the loop goes on, it goes on with [rest], and relative to [s] exactly
    one of two things happened: one RET_SUBMIT for [seq] was sent and no worker
    took the submission, or nothing was sent and exactly one worker took it. *)
Definition disposed (seq : Z) s (rest : list Z) (o : @outcome W D) : Prop :=
  match o with
  | Continue s' rest' =>
      rest' = rest /\
      ((exists p, ret_submit_for seq p /\ w_sent (st_out s') = w_sent (st_out s) ++ p /\
          all_quiet (st_workers s) (st_workers s')) \/
       (st_out s' = st_out s /\ enqueued seq (st_workers s) (st_workers s')))
  | _ => True
  end.

Lemma reply_disposed seq s s0 packet flush rest :
  ret_submit_for seq packet -> st_out s = st_out s0 ->
  all_quiet (st_workers s0) (st_workers s) -> disposed seq s0 rest (reply s packet flush rest).
Proof using HF.
  intros Hp Ho Hq. unfold reply. destruct (write (st_out s) tt packet flush) as [[w u] err] eqn:Ew.
  apply write_spec in Ew as [_ Hs]. destruct err; cbn; [done|]. split; [done|]. left.
  exists packet. by rewrite <- Ho.
Qed.

Lemma admitted_or_disposed seq s (r : workers * bool) packet rest :
  ret_submit_for seq packet ->
  (if snd r then enqueued seq (st_workers s) (fst r) else all_quiet (st_workers s) (fst r)) ->
  disposed seq s rest (admitted_or s r packet rest).
Proof using HF.
  destruct r as [ws ok]. cbn. intros Hp Hr. destruct ok; cbn; [auto|].
  by apply reply_disposed.
Qed.

Lemma enqueue_binding_admitted k dir sq xlen payload pkts now media b ws :
  let r := enqueue_binding k dir sq xlen payload pkts now media b ws in
  if snd r then enqueued sq ws (fst r) else all_quiet ws (fst r).
Proof.
  intros r. destruct r as [ws' ok] eqn:E. by apply enqueue_binding_cases in E.
Qed.

Lemma submit_in_disposed s now seq xferLen isIso pkts b rest :
  disposed seq s rest (submit_in s now seq xferLen isIso pkts b rest).
Proof using HF.
  unfold submit_in. case_if.
  - destruct pkts; [apply reply_disposed; auto with viiper|].
    apply admitted_or_disposed; [auto with viiper|apply enqueue_binding_admitted].
  - case_if.
    + destruct (validateInterruptEndpointSubmission _ _); [done|].
      apply admitted_or_disposed; [auto with viiper|apply enqueue_binding_admitted].
    + apply admitted_or_disposed; [auto with viiper|apply enqueue_binding_admitted].
Qed.

Lemma submit_ordinary_disposed s s0 desc now seq ep dir xferLen setup out active rest :
  st_out s = st_out s0 -> st_workers s = st_workers s0 ->
  disposed seq s0 rest (submit_ordinary sd dev s desc now seq ep dir xferLen setup out active rest).
Proof using HF.
  intros Ho Hw. unfold submit_ordinary. cbv zeta.
  destruct (applyControlLifecycleToSchedulers _ _ _ _ _ _ _) as [ws [d g]] eqn:Ea.
  apply lifecycle_quiet in Ea. rewrite Hw in Ea.
  destruct (complete_submission _ _ _ _ _ _ _ _ _ _) as [[r d2] packet] eqn:Ec.
  apply reply_disposed; [|done|done]. unfold complete_submission in Ec.
  destruct (processSubmitWithLifecycle _ _ _ _ _ _ _ _ _) as [[r1 d1] resp].
  apply pair_equal_spec in Ec as [_ <-]. apply build_ret_submit_for.
Qed.

Lemma versioned_report_sent snap id env (w w' : W) (d d' : D) seq len :
  writeVersionedInputReportResponse snap id env w d seq len = Some (w', d', None) ->
  exists p, ret_submit_for seq p /\ w_sent w' = w_sent w ++ p.
Proof using HF.
  revert d. induction env as [|f env IH]; intros d; cbn [writeVersionedInputReportResponse]; [done|].
  destruct (match id, by_id snap with Some i, Some (_, g) => g d i len | _, _ => _ end)
    as [d1 [[buffer n] version]].
  unfold writeIf. destruct (writeIfThen _ _ _ _ _ _) as [[[[w1 d2] p1] written] err] eqn:Ew.
  apply writeIfThen_spec in Ew as (-> & -> & Hno & Hgo).
  destruct err; [done|]. case_if.
  - intros [= <- <-]. destruct (Hgo eq_refl) as [_ Hs]. eauto with viiper.
  - destruct (Hno eq_refl) as (-> & _ & ->). apply IH.
Qed.

Lemma submit_report_disposed s s0 desc now env seq ep dir xferLen setup out active rest :
  st_out s = st_out s0 -> st_workers s = st_workers s0 ->
  disposed seq s0 rest
    (submit_report sd dev s desc now env seq ep dir xferLen setup out active rest).
Proof using HF.
  intros Ho Hw. unfold submit_report.
  destruct (versionedInputReportRequest _ _ _ _ _ _) as [|id len|].
  - by apply submit_ordinary_disposed.
  - destruct (sd_snapshotter sd) as [snap|]; [|by apply submit_ordinary_disposed].
    destruct (writeVersionedInputReportResponse _ _ _ _ _ _ _) as [[[w d] [e|]]|] eqn:Ew; [done| |done].
    apply versioned_report_sent in Ew as (p & Hp & Hs). cbn. split; [done|]. left. exists p.
    rewrite <- Ho, <- Hw. auto with viiper.
  - apply reply_disposed; auto with viiper. rewrite Hw. auto with viiper.
Qed.

Lemma submit_interrupt_out_disposed s s0 desc now env seq ep dir xferLen setup out active rest :
  st_out s = st_out s0 -> st_workers s = st_workers s0 ->
  disposed seq s0 rest
    (submit_interrupt_out sd dev s desc now env seq ep dir xferLen setup out active rest).
Proof using HF.
  intros Ho Hw. unfold submit_interrupt_out.
  destruct (sd_interruptOut sd) as [owner|]; [|by apply submit_report_disposed].
  destruct active as [b|]; [|by apply submit_report_disposed].
  case_if; [|by apply submit_report_disposed].
  destruct (processTransactionalInterruptOutSubmission _ _ _ _ _ _) as [[[w d] handled] err] eqn:Et.
  destruct err; [done|]. apply interrupt_out_effect in Et. destruct handled.
  - destruct Et as (status & actual & Hs). cbn. split; [done|]. left. eexists. split_and!.
    + apply build_ret_submit_for.
    + by rewrite <- Ho.
    + rewrite Hw. auto with viiper.
  - subst w. by apply submit_report_disposed.
Qed.

Lemma delivered_quiet desc now l r ws g y r' ws' g' :
  fst (applyDeliveredTransactionalControlLifecycle sd dev desc now l (r, ws, g) y) = (r', ws', g') ->
  all_quiet ws ws'.
Proof.
  unfold applyDeliveredTransactionalControlLifecycle.
  destruct (applyControlLifecycleToSchedulers _ _ _ _ _ _ _) as [ws1 [d1 g1]] eqn:Ea.
  apply lifecycle_quiet in Ea. cbn. by intros [= _ <- _].
Qed.

Lemma submit_control_disposed s s0 desc now env seq ep dir xferLen setup out active rest :
  st_out s = st_out s0 -> st_workers s = st_workers s0 ->
  disposed seq s0 rest
    (submit_control sd dev s desc now env seq ep dir xferLen setup out active rest).
Proof using HF.
  intros Ho Hw. unfold submit_control.
  destruct (sd_control sd) as [owner|]; [|by apply submit_interrupt_out_disposed].
  case_if; [|by apply submit_interrupt_out_disposed].
  destruct (processTransactionalControlSubmission _ _ _ _ _ _ _ _ _ _ _ _ _)
    as [[[[w [[r ws] g]] d] handled] err] eqn:Et.
  destruct err; [done|]. apply control_effect in Et. destruct handled.
  - destruct Et as [(status & actual & tail & Hs) Hx]. cbn. split; [done|]. left. eexists.
    split_and!; [|by rewrite <- Ho, Hs|].
    + by eexists _, _, _, _.
    + rewrite <- Hw. destruct Hx as [[= -> -> ->]|(l & y & Hx)]; [auto with viiper|].
      by eapply delivered_quiet.
  - destruct Et as [-> [= -> -> ->]]. by apply submit_interrupt_out_disposed.
Qed.

Lemma submit_output_disposed s desc now env seq ep dir xferLen setup out active rest :
  disposed seq s rest
    (submit_output sd dev s desc now env seq ep dir xferLen setup out active rest).
Proof using HF.
  unfold submit_output. destruct (TryHandleOutputCommand sd) as [try|]; [|by apply submit_control_disposed].
  cbv zeta. case_if; [|by apply submit_control_disposed].
  destruct (try _ _ _ _) as [d [handled ok]]. case_if; [|by apply submit_control_disposed].
  apply reply_disposed; auto with viiper.
Qed.

Lemma dispatch_disposed s desc now env seq ep dir xferLen isIso setup out pkts active rest :
  disposed seq s rest
    (dispatch_submit sd dev s desc now env seq ep dir xferLen isIso setup out pkts active rest).
Proof using HF.
  unfold dispatch_submit. destruct (if isIso then _ else None); [done|].
  destruct active as [b|]; [|by apply submit_output_disposed].
  case_if; [by apply submit_in_disposed|].
  case_if; [|by apply submit_output_disposed].
  unfold submit_iso_out. apply admitted_or_disposed; [auto with viiper|apply enqueue_binding_admitted].
Qed.

(** The bytes a command occupies on the connection. *)
Definition command_length (cmd : urb_cmd) : nat :=
  match cmd with
  | UrbUnlink _ _ => urbHdrSize
  | UrbSubmit _ dir _ xferLen packetCount _ =>
      urbHdrSize + (if dir =? DirOut then Z.to_nat xferLen else 0) +
      Z.to_nat packetCount * IsoPacketDescriptorSize
  end.

Lemma read_exact_Some n input a b :
  read_exact n input = Some (a, b) -> a = take n input /\ b = drop n input /\ (n <= length input)%nat.
Proof.
  unfold read_exact. case_if; [done|]. bool_prop. intros [= <- <-]. split_and!; [done|done|lia].
Qed.

Lemma handle_submit_disposed s desc now env seq dir ep xferLen pc setup input :
  let n := ((if (dir =? DirOut)%Z then Z.to_nat xferLen else 0) +
            Z.to_nat pc * IsoPacketDescriptorSize)%nat in
  let o := handle_submit sd dev s desc now env seq dir ep xferLen pc setup input in
  disposed seq s (drop n input) o /\
  match o with Continue _ _ => (n <= length input)%nat | _ => True end.
Proof using HF.
  intros n o. unfold o, handle_submit. cbv zeta.
  destruct (read_exact _ input) as [[payload in1]|] eqn:E1; [|done].
  apply read_exact_Some in E1 as (-> & -> & H1).
  destruct (read_exact _ (drop _ input)) as [[wire rest]|] eqn:E2; [|done].
  apply read_exact_Some in E2 as (-> & -> & H2). rewrite length_drop in H2.
  destruct (decodeIsoPacketDescriptors _ _) as [pkts|e]; [|done].
  rewrite drop_drop. fold n. assert (Hn : (n <= length input)%nat) by (unfold n in *; lia).
  case_if.
  - split; [apply reply_disposed; auto with viiper|by destruct (reply _ _ _ _)].
  - split; [apply dispatch_disposed|by destruct (dispatch_submit _ _ _ _ _ _ _ _ _ _ _ _ _ _ _ _)].
Qed.

Lemma iteration_disposed s desc now visits env input s' rest :
  urb_iteration sd dev desc now visits env s input = Continue s' rest ->
  exists cmd, parse_urb_header (take urbHdrSize input) = Ok cmd /\
    (command_length cmd <= length input)%nat /\ rest = drop (command_length cmd) input /\
    match cmd with
    | UrbSubmit seq _ _ _ _ _ =>
        (exists p, ret_submit_for seq p /\ w_sent (st_out s') = w_sent (st_out s) ++ p /\
           all_quiet (st_workers s) (st_workers s')) \/
        (st_out s' = st_out s /\ enqueued seq (st_workers s) (st_workers s'))
    | UrbUnlink seq unlinkSeq => exists removed,
        unlink visits unlinkSeq (st_workers s) = (st_workers s', removed) /\
        w_sent (st_out s') = w_sent (st_out s) ++
          buildRetUnlinkPacket seq (if removed then errConnReset else 0)
    end.
Proof using HF.
  unfold urb_iteration. destruct (read_exact urbHdrSize input) as [[header in1]|] eqn:Eh; [|done].
  apply read_exact_Some in Eh as (-> & -> & Hlen).
  destruct (parse_urb_header _) as [cmd|e] eqn:Ep; [|done].
  destruct cmd as [seq usq|seq dir ep xlen pc setup]; intros Ho; eexists; (split; [done|]).
  - destruct (unlink visits usq (st_workers s)) as [ws removed] eqn:Eu.
    unfold reply in Ho. destruct (write _ _ _ _) as [[w u] err] eqn:Ew.
    apply write_spec in Ew as [_ Hs]. destruct err; [done|]. injection Ho as <- <-.
    cbn. split_and!; eauto.
  - destruct (handle_submit_disposed s desc now env seq dir ep xlen pc setup (drop urbHdrSize input))
      as [Hd Hn]. rewrite Ho in Hd, Hn. destruct Hd as [-> Hd].
    rewrite length_drop in Hn. cbn [command_length]. rewrite drop_drop.
    split_and!; [lia| |done]. by rewrite Nat.add_assoc.
Qed.
(** C7: whenever the command loop goes on after a command, the command
    was well formed, exactly its bytes were consumed (also when it was refused,
    so the connection stays framed), and it was disposed of in one of three
    ways: a submission was answered with one RET_SUBMIT carrying its sequence
    number and no worker took it; or nothing was sent and exactly one worker
    took it; an unlink was answered with one RET_UNLINK whose status is
    ECONNRESET exactly when a worker gave the request up. *)
Theorem command_disposition s desc now visits env input s' rest :
  urb_iteration sd dev desc now visits env s input = Continue s' rest ->
  exists cmd, parse_urb_header (take urbHdrSize input) = Ok cmd /\
    (command_length cmd <= length input)%nat /\ rest = drop (command_length cmd) input /\
    match cmd with
    | UrbSubmit seq _ _ _ _ _ =>
        (exists p, ret_submit_for seq p /\ w_sent (st_out s') = w_sent (st_out s) ++ p /\
           all_quiet (st_workers s) (st_workers s')) \/
        (st_out s' = st_out s /\ enqueued seq (st_workers s) (st_workers s'))
    | UrbUnlink seq unlinkSeq => exists removed,
        unlink visits unlinkSeq (st_workers s) = (st_workers s', removed) /\
        w_sent (st_out s') = w_sent (st_out s) ++
          buildRetUnlinkPacket seq (if removed then errConnReset else 0)
    end.
Proof using HF. apply iteration_disposed. Qed.
End Disposition.

(** *** A concrete connection: one submission is queued, one answered. *)

Definition demo_stream_device : StreamDevice (list (Z * Z)) := {|
  sd_ops := demo_ops; sd_source := None; IsoOutGeneration := None;
  TryHandleOutputCommand := None; sd_control := None; sd_interruptOut := None;
  sd_snapshotter := None |}.

Definition demo_stream : @stream (list Z) (list (Z * Z)) := {|
  st_routing := demo_routing; st_dev := []; st_workers := precreateEndpointWorkers demo_desc;
  st_generation := 0; st_out := [] |}.

Definition demo_submit (seq dir ep len : Z) (setup : list Z) : list Z :=
  wire_bytes {| cs_Basic := {| hb_Command := CmdSubmitCode; hb_Seqnum := seq; hb_Devid := 1;
                               hb_Dir := dir; hb_Ep := ep |};
    cs_TransferFlags := 0; cs_TransferBufferLen := len; cs_StartFrame := 0;
    cs_NumberOfPackets := -1; cs_Interval := 0; cs_Setup := setup |}.

Definition demo_next (s : @stream (list Z) (list (Z * Z))) (input : list Z) :=
  urb_iteration demo_stream_device 7 demo_desc 1000 [] [] s input.

Definition after (o : @outcome (list Z) (list (Z * Z))) : @stream (list Z) (list (Z * Z)) :=
  match o with Continue s _ => s | Stop _ s => s | Retrying s => s end.

(** A report request on interrupt endpoint 4, then GET_STATUS on endpoint zero. *)
Definition demo_queued : @stream (list Z) (list (Z * Z)) :=
  after (demo_next demo_stream (demo_submit 5 DirIn 4 64 (zeros 8))).

Lemma demo_queued_next :
  demo_next demo_stream (demo_submit 5 DirIn 4 64 (zeros 8)) = Continue demo_queued [].
Proof. vm_compute. reflexivity. Qed.

Lemma command_disposition_witness :
  exists cmd,
    parse_urb_header (take 48 (demo_submit 5 DirIn 4 64 (zeros 8))) = Ok cmd /\
    [] = drop (command_length cmd) (demo_submit 5 DirIn 4 64 (zeros 8)) /\
    match cmd with
    | UrbSubmit seq _ _ _ _ _ => seq = 5 /\ q_waiting (abs (default (newEndpointWorker isoInWorker 0)
        (st_workers demo_queued !! (2, 0, 4, 1, interruptInWorker)))) = [5]
    | UrbUnlink _ _ => False
    end.
Proof.
  destruct (command_disposition demo_stream_device 7 _ _ _ _ _ _ _ _ demo_queued_next)
    as (cmd & Hp & _ & Hr & _).
  exists cmd. split_and!; [exact Hp|exact Hr|]. vm_compute in Hp. injection Hp as <-.
  split; [reflexivity|]. vm_compute. reflexivity.
Defined.
