(* ===== verification/Connection.v ===== *)
(** * One connection: the command loop beside its endpoint workers

    The command reader (UrbStream.v) and the worker goroutines (EndpointWorker.v)
    of a connection share the workers and the response stream.  A connection
    state pairs the loop's state with the account of every worker; its steps
    are whole iterations of the loop and worker steps, in any interleaving.
    The host uses a fresh sequence number for every submission, as USB/IP
    requires. *)

From S2P Require Import Prelude Bytes GoIO UsbIp Hid Descriptor Urb.
From S2P Require Import Control EndpointWorker ResponseWriter Schedulers Transactions UrbStream.

Notation accounts := (gmap endpointWorkerKey wsys).

(** ** Ghost updates of the accounts *)

Definition with_worker (w : endpointWorker) (a : wsys) : wsys := {|
  ws := w; stage := stage a; accepted := accepted a; submitted := submitted a;
  unlinked := unlinked a; dropped := dropped a |}.

(** Refusals and resets of one worker. *)
Inductive quiet_acct : wsys -> wsys -> Prop :=
| quiet_acct_refl a : quiet_acct a a
| quiet_acct_reset a a' :
    quiet_acct {| ws := reset (ws a); stage := stage a; accepted := accepted a;
                  submitted := submitted a; unlinked := unlinked a;
                  dropped := seqs (ws a) (queued (ws a)) ++ dropped a |} a' ->
    quiet_acct a a'
| quiet_acct_full a w1 a' sq xlen data pkts now media :
    enqueueWithGeneration sq xlen data pkts now media (ws a) = (w1, false) ->
    quiet_acct (with_worker w1 a) a' -> quiet_acct a a'.

Definition quiet_accts (m m' : accounts) : Prop :=
  forall k, option_relation quiet_acct (fun _ => False) (fun _ => False) (m !! k) (m' !! k).

(** The unlink loop with its account: the worker that gave the request up
    records it as unlinked. *)
Fixpoint unlink_accts (visits : list (endpointWorkerKey * Z)) (sq : Z) (m : accounts) :
    accounts * bool :=
  match visits with
  | [] => (m, false)
  | (k, now) :: visits =>
      match m !! k with
      | None => unlink_accts visits sq m
      | Some a =>
          let '(w, removed) := unlinkAt sq now (ws a) in
          let a' := {| ws := w; stage := stage a; accepted := accepted a; submitted := submitted a;
                       unlinked := if removed then sq :: unlinked a else unlinked a;
                       dropped := dropped a |} in
          let m := <[k := a']> m in
          if removed then (m, true) else unlink_accts visits sq m
      end
  end.

(** ** Steps of a connection *)

Section Connection.
Context {W : Type} `{WriterLaws W, !Flusher W} {HF : FlusherLaws W} {D : Type}
  (sd : StreamDevice D) (dev : Z) (desc : Descriptor).

Record conn := {
  c_stream : @stream W D;
  c_accts : accounts;
  c_seen : list Z;      (* sequence numbers submitted by the host *)
  c_direct : list Z;    (* of these, answered by the loop itself *)
}.

Inductive cstep (c : conn) : conn -> Prop :=
| cstep_answered now visits env input s' rest seq dir ep xlen pc setup p m' :
    urb_iteration sd dev desc now visits env (c_stream c) input = Continue s' rest ->
    parse_urb_header (take urbHdrSize input) = Ok (UrbSubmit seq dir ep xlen pc setup) ->
    (seq ∉ c_seen c) -> ret_submit_for seq p ->
    w_sent (st_out s') = w_sent (st_out (c_stream c)) ++ p ->
    quiet_accts (c_accts c) m' -> ws <$> m' = st_workers s' ->
    cstep c {| c_stream := s'; c_accts := m'; c_seen := seq :: c_seen c;
               c_direct := seq :: c_direct c |}
| cstep_queued now visits env input s' rest seq dir ep xlen pc setup k a w' xl data pkts t media :
    urb_iteration sd dev desc now visits env (c_stream c) input = Continue s' rest ->
    parse_urb_header (take urbHdrSize input) = Ok (UrbSubmit seq dir ep xlen pc setup) ->
    (seq ∉ c_seen c) -> st_out s' = st_out (c_stream c) ->
    c_accts c !! k = Some a ->
    enqueueWithGeneration seq xl data pkts t media (ws a) = (w', true) ->
    st_workers s' = <[k := w']> (st_workers (c_stream c)) ->
    cstep c {| c_stream := s';
               c_accts := <[k := {| ws := w'; stage := stage a; accepted := seq :: accepted a;
                                    submitted := submitted a; unlinked := unlinked a;
                                    dropped := dropped a |}]> (c_accts c);
               c_seen := seq :: c_seen c; c_direct := c_direct c |}
| cstep_unlink now visits env input s' rest seq usq m' removed :
    urb_iteration sd dev desc now visits env (c_stream c) input = Continue s' rest ->
    parse_urb_header (take urbHdrSize input) = Ok (UrbUnlink seq usq) ->
    unlink_accts visits usq (c_accts c) = (m', removed) -> ws <$> m' = st_workers s' ->
    cstep c {| c_stream := s'; c_accts := m'; c_seen := c_seen c; c_direct := c_direct c |}
| cstep_worker k a a' s' :
    c_accts c !! k = Some a -> wstep a a' ->
    accepted a' = accepted a -> unlinked a' = unlinked a ->
    st_workers s' = <[k := ws a']> (st_workers (c_stream c)) ->
    cstep c {| c_stream := s'; c_accts := <[k := a']> (c_accts c); c_seen := c_seen c;
               c_direct := c_direct c |}.

(** A connection starts with the workers of the descriptor. *)
Definition fresh_account (w : endpointWorker) : wsys := {|
  ws := w; stage := Idle; accepted := []; submitted := []; unlinked := []; dropped := [] |}.

Definition conn_init (s : @stream W D) : conn := {|
  c_stream := set_workers (precreateEndpointWorkers desc) s;
  c_accts := fresh_account <$> precreateEndpointWorkers desc;
  c_seen := []; c_direct := [] |}.

Inductive creachable : conn -> Prop :=
| creachable_init s : creachable (conn_init s)
| creachable_step c c' : creachable c -> cstep c c' -> creachable c'.

End Connection.

(** ** The invariant *)

Section Invariant.
Context {W D : Type}.
Implicit Types c : @conn W D.

Record cinv (c : @conn W D) : Prop := {
  ci_ws : ws <$> c_accts c = st_workers (c_stream c);
  ci_each : forall k a, c_accts c !! k = Some a -> winv a;
  ci_seen : forall k a q, c_accts c !! k = Some a -> q ∈ accepted a -> q ∈ c_seen c;
  ci_disj : forall k k' a a' q, k <> k' -> c_accts c !! k = Some a -> c_accts c !! k' = Some a' ->
    q ∈ accepted a -> q ∉ accepted a';
  ci_direct : NoDup (c_direct c) /\ forall q, q ∈ c_direct c -> q ∈ c_seen c;
  ci_apart : forall k a q, c_accts c !! k = Some a -> q ∈ accepted a -> q ∉ c_direct c;
  ci_kept : forall q, q ∈ c_seen c ->
    q ∈ c_direct c \/ exists k a, c_accts c !! k = Some a /\ q ∈ accepted a;
}.

Lemma quiet_acct_keeps a a' :
  quiet_acct a a' -> winv a ->
  winv a' /\ accepted a' = accepted a.
Proof.
  induction 1 as [a|a a' Hq IH|a w1 a' sq xlen data pkts now media He Hq IH]; intros Hi; [done|..].
  - destruct IH as [Hi' ->]; [|done]. eapply winv_step; [apply wstep_reset|done].
  - destruct IH as [Hi' ->]; [|done]. eapply winv_step; [by eapply wstep_full|done].
Qed.

Lemma quiet_accts_lookup m m' k a' :
  quiet_accts m m' -> m' !! k = Some a' -> exists a, m !! k = Some a /\ quiet_acct a a'.
Proof.
  intros Hq E. specialize (Hq k). rewrite E in Hq. destruct (m !! k) as [a|]; [eauto|done].
Qed.

Lemma quiet_accts_lookup_l m m' k a :
  quiet_accts m m' -> m !! k = Some a -> exists a', m' !! k = Some a' /\ quiet_acct a a'.
Proof.
  intros Hq E. specialize (Hq k). rewrite E in Hq. destruct (m' !! k) as [a'|]; [eauto|done].
Qed.

(** Changing accounts without accepting anything keeps the connection's. *)
Lemma cinv_same_accepted c s' m' :
  cinv c -> ws <$> m' = st_workers s' ->
  (forall k a', m' !! k = Some a' ->
     winv a' /\ exists a, c_accts c !! k = Some a /\ accepted a' = accepted a) ->
  (forall k a, c_accts c !! k = Some a -> exists a', m' !! k = Some a') ->
  cinv {| c_stream := s'; c_accts := m'; c_seen := c_seen c; c_direct := c_direct c |}.
Proof.
  intros [] Hw Hback Hfwd. split; cbn [c_stream c_accts c_seen c_direct]; try done.
  - intros k a' E. by destruct (Hback k a' E).
  - intros k a' q E Hq. destruct (Hback k a' E) as (_ & a & Ea & Eacc). rewrite Eacc in Hq. eauto.
  - intros k k' a a' q Hne E E' Hq. destruct (Hback k a E) as (_ & b & Eb & Eacc).
    destruct (Hback k' a' E') as (_ & b' & Eb' & Eacc'). rewrite Eacc in Hq. rewrite Eacc'. eauto.
  - intros k a' q E Hq. destruct (Hback k a' E) as (_ & a & Ea & Eacc). rewrite Eacc in Hq. eauto.
  - intros q Hq. destruct (ci_kept0 q Hq) as [?|(k & a & E & Ha)]; [auto|]. right.
    destruct (Hfwd k a E) as (a' & E'). destruct (Hback k a' E') as (_ & b & Eb & Eacc).
    exists k, a'. split; [done|]. rewrite Eacc. by simplify_eq.
Qed.

Lemma cinv_answer c seq :
  cinv c -> (seq ∉ c_seen c) ->
  cinv {| c_stream := c_stream c; c_accts := c_accts c; c_seen := seq :: c_seen c;
          c_direct := seq :: c_direct c |}.
Proof.
  intros [] Hn. destruct ci_direct0 as [Hd Hds].
  split; cbn [c_stream c_accts c_seen c_direct]; try done.
  - intros k a q E Hq. apply elem_of_cons. right. eauto.
  - split; [apply list.NoDup_cons; split; [by intros ?%Hds|done]|]. set_solver.
  - intros k a q E Hq. apply not_elem_of_cons. split; [|by eapply ci_apart0].
    intros ->. apply Hn. eauto.
  - intros q [->|Hq]%elem_of_cons; [left; set_solver|].
    destruct (ci_kept0 q Hq) as [?|?]; [left; set_solver|auto].
Qed.

Lemma cinv_enqueue c k a s' seq xl data pkts t media w' :
  cinv c -> (seq ∉ c_seen c) -> c_accts c !! k = Some a ->
  enqueueWithGeneration seq xl data pkts t media (ws a) = (w', true) ->
  st_workers s' = <[k := w']> (st_workers (c_stream c)) ->
  cinv {| c_stream := s';
          c_accts := <[k := {| ws := w'; stage := stage a; accepted := seq :: accepted a;
                               submitted := submitted a; unlinked := unlinked a;
                               dropped := dropped a |}]> (c_accts c);
          c_seen := seq :: c_seen c; c_direct := c_direct c |}.
Proof.
  intros [] Hn Ea He Hs. destruct ci_direct0 as [Hd Hds]. set (a1 := {| ws := w' |}).
  assert (Hna : seq ∉ accepted a) by eauto.
  assert (Hold : forall k' b q, <[k := a1]> (c_accts c) !! k' = Some b -> q ∈ accepted b ->
    q = seq /\ k' = k \/ q <> seq /\ exists b0, c_accts c !! k' = Some b0 /\ q ∈ accepted b0).
  { intros k' b q [[<- <-]|[Hne E]]%lookup_insert_Some Hq.
    - unfold a1 in Hq. cbn in Hq. apply elem_of_cons in Hq as [->|Hq]; [auto|].
      right. split; [intros ->; done|]. eauto.
    - right. split; [|eauto]. intros ->. apply Hn. eauto. }
  split; cbn [c_stream c_accts c_seen c_direct].
  - by rewrite fmap_insert, ci_ws0, Hs.
  - intros k' b [[<- <-]|[Hne E]]%lookup_insert_Some; [|eauto].
    apply (winv_step a); [by eapply wstep_enqueue|eauto].
  - intros k' b q E Hq. destruct (Hold k' b q E Hq) as [[-> _]|(_ & b0 & Eb & Hb)];
      apply elem_of_cons; [by left|right; eauto].
  - intros k1 k2 b1 b2 q Hne E1 E2 H1 H2.
    destruct (Hold k1 b1 q E1 H1) as [[-> ->]|(Hq1 & c1 & Ec1 & Hc1)],
      (Hold k2 b2 _ E2 H2) as [[Hq ->]|(Hq2 & c2 & Ec2 & Hc2)]; try done.
    by apply (ci_disj0 k1 k2 c1 c2 q).
  - split; [done|]. set_solver.
  - intros k' b q E Hq. destruct (Hold k' b q E Hq) as [[-> _]|(_ & b0 & Eb & Hb)]; [|eauto].
    intros Hin. by apply Hn, Hds.
  - intros q [->|Hq]%elem_of_cons.
    + right. exists k, a1. rewrite lookup_insert_eq. split; [done|]. unfold a1. cbn. set_solver.
    + destruct (ci_kept0 q Hq) as [?|(k' & b & E & Hb)]; [auto|]. right.
      destruct (decide (k' = k)) as [->|Hne].
      * exists k, a1. rewrite lookup_insert_eq. split; [done|]. unfold a1. cbn.
        simplify_eq. set_solver.
      * exists k', b. by rewrite lookup_insert_ne.
Qed.
End Invariant.

(** ** Unlink accounts *)

Lemma unlink_accts_lift visits sq m m' b :
  unlink_accts visits sq m = (m', b) -> unlink visits sq (ws <$> m) = (ws <$> m', b).
Proof.
  revert m. induction visits as [|[k now] visits IH]; intros m; cbn [unlink_accts unlink];
    [by intros [= <- <-]|].
  rewrite lookup_fmap. destruct (m !! k) as [a|]; cbn [fmap option_fmap option_map]; [|apply IH].
  destruct (unlinkAt sq now (ws a)) as [w removed]. set (a' := {| ws := w |}).
  replace (<[k := w]> (ws <$> m)) with (ws <$> <[k := a']> m) by (by rewrite fmap_insert).
  destruct removed; [by intros [= <- <-]|]. apply IH.
Qed.

Lemma unlink_accts_keeps visits sq m m' b :
  unlink_accts visits sq m = (m', b) -> (forall k a, m !! k = Some a -> winv a) ->
  (forall k a', m' !! k = Some a' -> winv a' /\ exists a, m !! k = Some a /\ accepted a' = accepted a) /\
  (forall k a, m !! k = Some a -> exists a', m' !! k = Some a').
Proof.
  revert m. induction visits as [|[k now] visits IH]; intros m; cbn [unlink_accts].
  { intros [= <- <-] Hi. split; eauto. }
  destruct (m !! k) as [a|] eqn:Ea; [|by apply IH].
  destruct (unlinkAt sq now (ws a)) as [w removed] eqn:Eu. set (a' := {| ws := w |}).
  intros Hr Hi.
  assert (Hw : winv a').
  { apply (winv_step a); [by apply (wstep_unlink a _ now)|eauto]. }
  assert (Hback : forall j b, <[k := a']> m !! j = Some b ->
    winv b /\ exists b0, m !! j = Some b0 /\ accepted b = accepted b0).
  { intros j b0. rewrite lookup_insert_Some. intros [[<- <-]|[_ E]]; [|eauto].
    split; [done|]. by exists a. }
  assert (Hfwd : forall j b, m !! j = Some b -> exists b', <[k := a']> m !! j = Some b').
  { intros j b0 E. destruct (decide (j = k)) as [->|Hne]; [rewrite lookup_insert_eq|
      rewrite lookup_insert_ne by done]; eauto. }
  destruct removed; [injection Hr as <- <-; eauto|].
  apply IH in Hr as [Hb2 Hf2]; [|intros j b0 E; by apply Hback in E as [? _]]. split.
  - intros j b0 E. destruct (Hb2 j b0 E) as (Hw0 & b1 & E1 & Eacc). split; [done|].
    destruct (Hback j b1 E1) as (_ & b2 & E2 & Eacc2). exists b2. split; [done|congruence].
  - intros j b0 E. destruct (Hfwd j b0 E) as (b1 & E1). eauto.
Qed.

Lemma precreate_new (d : Descriptor) k w :
  precreateEndpointWorkers d !! k = Some w -> exists kd iv, w = newEndpointWorker kd iv.
Proof.
  unfold precreateEndpointWorkers.
  set (P := fun m : workers => forall k w, m !! k = Some w -> exists kd iv, w = newEndpointWorker kd iv).
  assert (Hin : forall i eps m, P m -> P (fold_left (precreate_endpoint d i) eps m)).
  { intros i eps. induction eps as [|e eps IH]; intros m Hm; cbn; [done|]. apply IH.
    unfold precreate_endpoint. destruct (endpoint_kind e) as [kd|]; [|done]. cbv zeta.
    destruct (m !! _); [done|]. intros k' w'. rewrite lookup_insert_Some.
    intros [[_ <-]|[_ E]]; [unfold newWorker; eauto|eauto]. }
  assert (Hout : forall l m, P m ->
    P (fold_left (fun ws i => fold_left (precreate_endpoint d i) (if_Endpoints i) ws) l m)).
  { intros l. induction l as [|i l IH]; intros m Hm; cbn; [done|]. apply IH, Hin, Hm. }
  apply (Hout (d_Interfaces d) ∅). intros k' w' E. by rewrite lookup_empty in E.
Qed.

Lemma cinv_init {W D} desc (s : @stream W D) : cinv (conn_init desc s).
Proof.
  assert (Hacc : forall k a, (fresh_account <$> precreateEndpointWorkers desc) !! k = Some a ->
    winv a /\ accepted a = []).
  { intros k a. rewrite lookup_fmap. destruct (precreateEndpointWorkers desc !! k) as [w|] eqn:E;
      [|done]. cbn. intros [= <-]. destruct (precreate_new _ _ _ E) as (kd & iv & ->).
    split; [apply winv_init|done]. }
  split; cbn [conn_init c_stream c_accts c_seen c_direct set_workers st_workers].
  - rewrite <- map_fmap_compose. apply map_fmap_id.
  - intros k a E. by apply Hacc in E as [? _].
  - intros k a q E. apply Hacc in E as [_ ->]. set_solver.
  - intros k k' a a' q _ E. apply Hacc in E as [_ ->]. set_solver.
  - split; [constructor|set_solver].
  - intros k a q E. apply Hacc in E as [_ ->]. set_solver.
  - set_solver.
Qed.

(** ** Every step keeps the invariant *)

Section Reachable.
Context {W : Type} `{WriterLaws W, !Flusher W} {HF : FlusherLaws W} {D : Type}
  (sd : StreamDevice D) (dev : Z) (desc : Descriptor).
Implicit Types c : @conn W D.

Lemma cinv_step c c' : cstep sd dev desc c c' -> cinv c -> cinv c'.
Proof.
  intros Hst Hi. destruct Hst as
    [now visits env input s' rest seq dir ep xlen pc setup p m' Ho Hp Hn Hr Hs Hq Hw
    |now visits env input s' rest seq dir ep xlen pc setup k a w' xl data pkts t media
       Ho Hp Hn Hout Ha He Hw
    |now visits env input s' rest seq usq m' removed Ho Hp Hu Hw
    |k a a' s' Ha Hst Eacc Eunl Hw].
  - pose proof (cinv_answer c seq Hi Hn) as Hc.
    refine (cinv_same_accepted _ s' m' Hc Hw _ _); cbn [c_accts].
    + intros k a' E. destruct (quiet_accts_lookup _ _ _ _ Hq E) as (a & Ea & Hqa).
      apply quiet_acct_keeps in Hqa as [Hi' Eacc]; [eauto|by apply (ci_each _ Hi k)].
    + intros k a E. destruct (quiet_accts_lookup_l _ _ _ _ Hq E) as (a' & Ea & _). eauto.
  - by eapply cinv_enqueue.
  - pose proof (unlink_accts_keeps _ _ _ _ _ Hu (ci_each _ Hi)) as [Hb Hf].
    by apply (cinv_same_accepted c s' m').
  - apply (cinv_same_accepted c); [done| | |].
    + by rewrite fmap_insert, (ci_ws _ Hi), Hw.
    + intros j b. rewrite lookup_insert_Some. intros [[<- <-]|[_ E]].
      * split; [|eauto]. eapply winv_step; [done|]. by apply (ci_each _ Hi k).
      * split; [by apply (ci_each _ Hi j)|eauto].
    + intros j b E. destruct (decide (j = k)) as [->|Hne]; [rewrite lookup_insert_eq|
        rewrite lookup_insert_ne by done]; eauto.
Qed.

Lemma creachable_inv c : creachable sd dev desc c -> cinv c.
Proof. induction 1; [apply cinv_init|by eapply cinv_step]. Qed.

(** ** Iterations of the loop are steps *)

Lemma quiet_lift w w' a :
  quiet w w' -> ws a = w -> exists a', quiet_acct a a' /\ ws a' = w'.
Proof.
  intros Hq. revert a. induction Hq as [w|w w' Hq IH|w w1 w' sq xlen data pkts now media He Hq IH];
    intros a <-.
  - exists a. split; [constructor|done].
  - destruct (IH {| ws := reset (ws a); stage := stage a; accepted := accepted a;
      submitted := submitted a; unlinked := unlinked a;
      dropped := seqs (ws a) (queued (ws a)) ++ dropped a |} eq_refl) as (a' & Ha & Ew).
    exists a'. split; [by apply quiet_acct_reset|done].
  - destruct (IH (with_worker w1 a) eq_refl) as (a' & Ha & Ew).
    exists a'. split; [by eapply quiet_acct_full|done].
Qed.

Lemma quiet_accts_exist (ws' : workers) (m : accounts) :
  all_quiet (ws <$> m) ws' -> exists m', quiet_accts m m' /\ ws <$> m' = ws'.
Proof.
  revert m. induction ws' as [|k w' ws' Hk IH] using map_ind; intros m Hq.
  - exists ∅. split; [|apply fmap_empty]. intros k. specialize (Hq k).
    rewrite lookup_fmap, lookup_empty in Hq. rewrite lookup_empty. by destruct (m !! k).
  - pose proof (Hq k) as Hqk. rewrite lookup_fmap, lookup_insert_eq in Hqk.
    destruct (m !! k) as [a|] eqn:Ea; [|done]. cbn in Hqk.
    destruct (quiet_lift _ _ a Hqk eq_refl) as (a' & Ha & Ew).
    destruct (IH (delete k m)) as (m' & Hm & Hw).
    { intros j. destruct (decide (j = k)) as [->|Hne].
      - by rewrite lookup_fmap, lookup_delete_eq, Hk.
      - specialize (Hq j). rewrite lookup_insert_ne in Hq by done.
        by rewrite lookup_fmap, lookup_delete_ne, <- lookup_fmap by done. }
    exists (<[k := a']> m'). split.
    + intros j. destruct (decide (j = k)) as [->|Hne].
      * by rewrite Ea, lookup_insert_eq.
      * specialize (Hm j). by rewrite lookup_delete_ne in Hm by done; rewrite lookup_insert_ne by done.
    + by rewrite fmap_insert, Ew, Hw.
Qed.

(** So the steps of a connection cover whatever the loop does: an iteration
    that goes on, with a fresh sequence number if it is a submission. *)
Lemma iteration_is_step c now visits env input s' rest :
  cinv c -> urb_iteration sd dev desc now visits env (c_stream c) input = Continue s' rest ->
  (forall seq dir ep xlen pc setup,
     parse_urb_header (take urbHdrSize input) = Ok (UrbSubmit seq dir ep xlen pc setup) ->
     seq ∉ c_seen c) ->
  exists c', cstep sd dev desc c c' /\ c_stream c' = s'.
Proof using HF.
  intros Hi Ho Hfresh. pose proof (iteration_disposed sd dev _ _ _ _ _ _ _ _ Ho)
    as (cmd & Hp & _ & _ & Hd). destruct cmd as [seq usq|seq dir ep xlen pc setup].
  - destruct Hd as (removed & Hu & _).
    destruct (unlink_accts visits usq (c_accts c)) as [m' b] eqn:Ea.
    pose proof (unlink_accts_lift _ _ _ _ _ Ea) as Hl. rewrite (ci_ws _ Hi), Hu in Hl.
    injection Hl as Ew _. eexists. split; [by eapply cstep_unlink|done].
  - specialize (Hfresh _ _ _ _ _ _ Hp). destruct Hd as [(p & Hr & Hs & Hq)|[Hout He]].
    + rewrite <- (ci_ws _ Hi) in Hq. destruct (quiet_accts_exist _ _ Hq) as (m' & Hm & Hw).
      eexists. split; [by eapply cstep_answered|done].
    + destruct He as (k & w & w' & xl & data & pkts & t & media & Ek & Ews & He).
      rewrite <- (ci_ws _ Hi), lookup_fmap in Ek.
      destruct (c_accts c !! k) as [a|] eqn:Ea; [|done]. cbn in Ek. injection Ek as <-.
      eexists. split; [by eapply cstep_queued|done].
Qed.

End Reachable.

