(* ===== verification/EndpointService.v ===== *)
(** * Servicing one URB
      (src/internal/server/usb/endpoint_scheduler.go, the process functions)

    The worker's goroutine serves the job it claimed: it waits for the job's
    service window, asks the device for data, and sends the response while it
    transfers the job from the cancellable queue to the response stream.  Between
    any two of its critical sections the command reader and other goroutines may
    change the worker and the device: every such point takes a [moment], with
    the clock reading and an arbitrary change.  The timer's answers are a list of
    wait events; a run that uses all of them up is still waiting. *)

From S2P Require Import Prelude Bytes GoIO UsbIp InputPresentation.
From S2P Require Import Hid Descriptor Urb Control EndpointWorker ResponseWriter Schedulers Transactions UrbStream.

(** ** Devices

    The interfaces a device may offer to its workers (contract.go and the fast
    paths of endpoint_scheduler.go).  A callback that fills a destination
    returns the destination's contents. *)

Record Source (D : Type) := {
  src_owns : D -> Z -> bool;
  src_claim : D -> nat -> Z -> D * (Claim * list Z);
  src_resolve : D -> Claim -> Z -> Z -> D * bool;
  src_can_admit : option (D -> Claim -> Z -> D * bool);
}.
Arguments src_owns {D} _.
Arguments src_claim {D} _.
Arguments src_resolve {D} _.
Arguments src_can_admit {D} _.

Record PreparedSource (D : Type) := {
  prep_owns : D -> Z -> bool;
  prep_select : D -> Z -> Z -> D * (Claim * bool);
  prep_copy : D -> Claim -> list Z -> Z -> D * (list Z * bool);
  prep_resolve : D -> Claim -> Z -> Z -> D * bool;
}.
Arguments prep_owns {D} _.
Arguments prep_select {D} _.
Arguments prep_copy {D} _.
Arguments prep_resolve {D} _.

Record interruptInClaimer (D : Type) := {
  ClaimInputReport : D -> nat -> D * (Z * Z * list Z);
  CompleteInputReport : D -> Z -> bool -> D;
}.
Arguments ClaimInputReport {D} _.
Arguments CompleteInputReport {D} _.

(** [None] is an interface the device does not have.  HandleTransfer returns
    [None] for nil. *)
Record ServiceDevice (D : Type) := {
  sv_prepared : option (PreparedSource D);
  sv_source : option (Source D);
  sv_claimer : option (interruptInClaimer D);
  sv_builder : option (D -> nat -> D * (Z * list Z));
  sv_transfer : D -> Z -> Z -> list Z -> D * option (list Z);
  sv_microphone : option (D -> nat -> D * (Z * bool * list Z));
  sv_iso_out : option (D -> Z -> Z -> list Z -> D * bool);
}.
Arguments sv_prepared {D} _.
Arguments sv_source {D} _.
Arguments sv_claimer {D} _.
Arguments sv_builder {D} _.
Arguments sv_transfer {D} _.
Arguments sv_microphone {D} _.
Arguments sv_iso_out {D} _.

(** ** Points between critical sections *)

(** [m_cancelled] is [ctx.Err() != nil], [m_expired] the deadline of a
    HandleTransfer attempt. *)
Record moment (D : Type) := {
  m_now : Z;
  m_others : endpointWorker -> D -> endpointWorker * D;
  m_cancelled : bool;
  m_expired : bool;
}.
Arguments m_now {D} _.
Arguments m_others {D} _.
Arguments m_cancelled {D} _.
Arguments m_expired {D} _.

(** What WaitUntil reports, the deadline with the moment after it. *)
Inductive wait_event (D : Type) :=
| WaitCancelled (m : moment D)
| WaitWake (m : moment D)
| WaitDeadline (m woke : moment D).
Arguments WaitCancelled {D} _.
Arguments WaitWake {D} _.
Arguments WaitDeadline {D} _ _.

(** The worker, the device and the last report of a HandleTransfer device. *)
Record service (D : Type) := {
  v_worker : endpointWorker;
  v_device : D;
  v_lastResponse : list Z;
}.
Arguments v_worker {D} _.
Arguments v_device {D} _.
Arguments v_lastResponse {D} _.

Inductive preparedAdmissionResult :=
| preparedAdmissionRetired | preparedAdmissionDeferred | preparedAdmissionAccepted.

Inductive service_err :=
| ErrMalformedClaim (c : Claim)
| ErrDelivery (e : io_err)
| ErrRejectedResolution.

(** How a process function returns: answered, given up (not completed and not
    retained), kept for a later service opportunity, or after [w.fail]. *)
Inductive served :=
| Answered
| GaveUp
| Retained
| Failed (e : service_err).

Section Service.
Context {W : Type} `{Writer W, !Flusher W} {D : Type}
  (sv : ServiceDevice D) (ep dir : Z) (maxPacket : nat).
Local Notation service := (service D).
Local Notation moment := (moment D).
Implicit Types (v : service) (m : moment) (out : W).

Definition set_worker (w : endpointWorker) v : service :=
  {| v_worker := w; v_device := v_device v; v_lastResponse := v_lastResponse v |}.
Definition set_device (d : D) v : service :=
  {| v_worker := v_worker v; v_device := d; v_lastResponse := v_lastResponse v |}.
Definition set_lastResponse (r : list Z) v : service :=
  {| v_worker := v_worker v; v_device := v_device v; v_lastResponse := r |}.

(** Other goroutines run. *)
Definition pause m v : service :=
  let '(w, d) := m_others m (v_worker v) (v_device v) in set_device d (set_worker w v).

(** ** Waiting for a service window *)

Fixpoint waitForPhase (events : list (wait_event D)) (idx : nat) (phase : Z) v :
    service * option bool :=
  match events with
  | [] => (v, None)
  | e :: events =>
      let m := match e with WaitCancelled m | WaitWake m | WaitDeadline m _ => m end in
      let v := pause m v in
      let '(w, deadline) := phaseDeadline idx phase (m_now m) (v_worker v) in
      let v := set_worker w v in
      match deadline with
      | None => (v, Some false)
      | Some _ =>
          match e with
          | WaitCancelled _ => (v, Some false)
          | WaitWake _ => waitForPhase events idx phase v
          | WaitDeadline _ woke =>
              let v := pause woke v in
              let '(w, adjusted) := phaseDeadline idx phase (m_now woke) (v_worker v) in
              let v := set_worker w v in
              match adjusted with
              | None => (v, Some false)
              | Some adjusted =>
                  if m_now woke <? adjusted then waitForPhase events idx phase v
                  else (v, Some (currentActive (v_worker v) idx))
              end
          end
      end
  end.

(** ** Transfer to the response stream *)

Definition mark_started (idx : nat) (w : endpointWorker) : endpointWorker :=
  fst (markResponseStartedWithAdmission idx false true w).

(** markResponseStartedWithAdmission with the source's answer: it is asked only
    about a live job, while the worker's lock is held. *)
Definition mark_with_admission m (idx : nat) (admission : option (D -> Claim -> Z -> D * bool))
    (claim : Claim) (required : bool) v : service * bool :=
  let v := pause m v in
  let '(d, granted) :=
    match admission with
    | Some ask => if required && job_live (v_worker v) idx
                  then ask (v_device v) claim (m_now m) else (v_device v, false)
    | None => (v_device v, false)
    end in
  let v := set_device d v in
  let '(w, ok) := markResponseStartedWithAdmission idx required granted (v_worker v) in
  (set_worker w v, ok).

Definition markResponseStarted m (idx : nat) : claim_func service := fun v packet =>
  let '(v, ok) := mark_with_admission m idx None Claim_zero false v in (v, packet, ok).

Definition admitPreparedResponse m (idx : nat) (src : PreparedSource D) (claim : Claim)
    (destination : list Z) v : service * list Z * preparedAdmissionResult :=
  let v := pause m v in
  if negb (job_live (v_worker v) idx) || m_cancelled m || negb (prep_owns src (v_device v) (u8 ep))
  then (v, destination, preparedAdmissionRetired)
  else if negb (Z.of_nat (length destination) =? Size claim)
  then (v, zeros (length destination), preparedAdmissionDeferred)
  else
    let '(d, (destination', ok)) := prep_copy src (v_device v) claim destination (m_now m) in
    let v := set_device d v in
    if negb ok then (v, zeros (length destination), preparedAdmissionDeferred)
    else (set_worker (mark_started idx (v_worker v)) v, destination', preparedAdmissionAccepted).

(** ** Interrupt IN *)

(** What the report was taken from, for the completion that follows. *)
Inductive taken :=
| TakenClaim (src : Source D) (c : Claim) (fits : bool)
| TakenLegacy (claimer : interruptInClaimer D) (token : Z)
| TakenNone.

(** [n] bytes of a filled destination of [room] bytes. *)
Definition clipped (n : Z) (room : nat) (destination : list Z) : list Z :=
  take (Z.to_nat (Z.min (if n <? 0 then 0 else n) (Z.of_nat room))) destination.

Definition handle_transfer m (xlen : Z) v : service * option (list Z * taken) :=
  let '(d, r) := sv_transfer sv (v_device v) ep dir [] in
  let v := pause m (set_device d v) in
  if m_cancelled m then (v, None)
  else
    let '(v, response) :=
      match r with
      | Some r => (set_lastResponse r v, r)
      | None => (v, if m_expired m then v_lastResponse v else [])
      end in
    (v, Some (take (Z.to_nat xlen) response, TakenNone)).

(** The report of one attempt for a device whose prepared source does not own
    the endpoint; [None] when the context was cancelled in HandleTransfer. *)
Definition take_report m m' (xlen : Z) v : service * option (list Z * taken) :=
  let room := Nat.min (Z.to_nat xlen) maxPacket in
  let owned := match sv_source sv with
               | Some src => if src_owns src (v_device v) (u8 ep) then Some src else None
               | None => None
               end in
  let modern := match sv_source sv, sv_prepared sv with None, None => false | _, _ => true end in
  match owned with
  | Some src =>
      let '(d, (c, data)) := src_claim src (v_device v) room (m_now m) in
      let fits := Claim_Valid c && (Size c <=? Z.of_nat room) in
      (set_device d v, Some (take (if fits then Z.to_nat (Size c) else 0%nat) data,
                             TakenClaim src c fits))
  | None =>
      match (if modern then None else sv_claimer sv), (if modern then None else sv_builder sv) with
      | Some claimer, _ =>
          let '(d, (n, token, data)) := ClaimInputReport claimer (v_device v) room in
          (set_device d v, Some (clipped n room data, TakenLegacy claimer token))
      | None, Some build =>
          let '(d, (n, data)) := build (v_device v) room in
          (set_device d v, Some (clipped n room data, TakenNone))
      | None, None => handle_transfer m' xlen v
      end
  end.

(** The completion of one attempt, after the write or its refusal. *)
Definition settle m (tk : taken) v (success : bool) : service :=
  let v := pause m v in
  match tk with
  | TakenClaim src c fits =>
      if Claim_Valid c then
        set_device (fst (src_resolve src (v_device v) c
          (if success && fits then OutcomeCommit else OutcomeDefer) (m_now m))) v
      else v
  | TakenLegacy claimer token => set_device (CompleteInputReport claimer (v_device v) token success) v
  | TakenNone => v
  end.

Definition admission_of (tk : taken) : option (D -> Claim -> Z -> D * bool) * Claim * bool :=
  match tk with
  | TakenClaim src c fits =>
      (src_can_admit src, c, fits && match src_can_admit src with Some _ => true | None => false end)
  | _ => (None, Claim_zero, false)
  end.

(** One attempt; [None] is another round of the loop. *)
Definition attempt_report (t : nat -> moment) (idx : nat) (sq xlen : Z) out v :
    W * service * option served :=
  match take_report (t 0%nat) (t 1%nat) xlen v with
  | (v, None) => (out, v, Some GaveUp)
  | (v, Some (response, tk)) =>
      let packet := buildRetSubmitPacket sq 0 (u32 (Z.of_nat (length response))) response [] false in
      let '(admission, c, required) := admission_of tk in
      let '(out, v, _, written, err) := writeIfThen out v packet true
        (Some (fun v p => let '(v, ok) := mark_with_admission (t 2%nat) idx admission c required v in
                          (v, p, ok)))
        (Some (settle (t 3%nat) tk)) in
      match err with
      | Some e => (out, v, Some (Failed (ErrDelivery e)))
      | None =>
          if written then (out, v, Some Answered)
          else
            let v := pause (t 4%nat) v in
            (out, v, if currentActive (v_worker v) idx then None else Some GaveUp)
      end
  end.

Definition prepared_outcome (admission : preparedAdmissionResult) (success : bool) : Z :=
  match admission with
  | preparedAdmissionRetired => OutcomeRetire
  | preparedAdmissionDeferred => OutcomeDefer
  | preparedAdmissionAccepted => if success then OutcomeCommit else OutcomeDefer
  end.

Definition attempt_prepared (t : nat -> moment) (src : PreparedSource D) (idx : nat) (sq xlen : Z)
    out v : W * service * option served :=
  let maximumSize := Z.min xlen (Z.of_nat maxPacket) in
  let '(d, (claim, available)) := prep_select src (v_device v) maximumSize (m_now (t 0%nat)) in
  let v := set_device d v in
  if negb available then (out, v, None)
  else if negb (Claim_Valid claim) || (maximumSize <? Size claim) then
    let v := pause (t 1%nat) v in
    let '(d, _) := prep_resolve src (v_device v) claim OutcomeRetire (m_now (t 1%nat)) in
    (out, set_device d v, Some (Failed (ErrMalformedClaim claim)))
  else
    let packet := buildPreparedRetSubmitPacket sq (Size claim) in
    let '(out, (v, (admission, resolved)), _, written, err) := writeIfThen out
      (v, (preparedAdmissionRetired, false)) packet true
      (Some (fun '(v, (_, resolved)) p =>
         let '(v, destination, admission) := admitPreparedResponse (t 2%nat) idx src claim
           (drop retSubmitHeaderSize p) v in
         (v, (admission, resolved), take retSubmitHeaderSize p ++ destination,
          match admission with preparedAdmissionAccepted => true | _ => false end)))
      (Some (fun '(v, (admission, _)) success =>
         let v := pause (t 3%nat) v in
         let '(d, resolved) := prep_resolve src (v_device v) claim
           (prepared_outcome admission success) (m_now (t 3%nat)) in
         (set_device d v, (admission, resolved)))) in
    match err with
    | Some e => (out, v, Some (Failed (ErrDelivery e)))
    | None =>
        if match admission with preparedAdmissionRetired => false | _ => negb resolved end
        then (out, v, Some (Failed ErrRejectedResolution))
        else if written then (out, v, Some Answered)
        else
          let v := pause (t 4%nat) v in
          (out, v, if m_cancelled (t 4%nat) || negb (currentActive (v_worker v) idx)
                   then Some GaveUp else None)
    end.

Definition attempt (t : nat -> moment) (idx : nat) (sq xlen : Z) out v :
    W * service * option served :=
  let v := pause (t 0%nat) v in
  match sv_prepared sv with
  | Some src => if prep_owns src (v_device v) (u8 ep)
                then attempt_prepared t src idx sq xlen out v
                else attempt_report t idx sq xlen out v
  | None => attempt_report t idx sq xlen out v
  end.

(** [None] is a worker still waiting for its window. *)
Definition processInterruptIn (events : list (wait_event D)) (t : nat -> moment) (idx : nat)
    out v : W * service * option served :=
  match waitForPhase events idx 0 v with
  | (v, None) => (out, v, None)
  | (v, Some false) => (out, v, Some GaveUp)
  | (v, Some true) =>
      let job := job_at (v_worker v) idx in
      let '(sq, xlen) := (seq_ job, xferLen job) in
      match attempt t idx sq xlen out v with
      | (out, v, Some r) => (out, v, Some r)
      | (out, v, None) =>
          match attempt (fun k => t (5 + k)%nat) idx sq xlen out v with
          | (out, v, Some r) => (out, v, Some r)
          | (out, v, None) => (out, v, Some Retained)
          end
      end
  end.

(** ** Generic IN *)

Definition send m (idx : nat) (packet : list Z) out v : W * service * option served :=
  let '(out, v, _, written, err) := writeIf out v packet true (Some (markResponseStarted m idx)) in
  (out, v, match err with
           | Some e => Some (Failed (ErrDelivery e))
           | None => Some (if written then Answered else GaveUp)
           end).

Definition processGenericIn (t : nat -> moment) (idx : nat) out v : W * service * option served :=
  let job := job_at (v_worker v) idx in
  let v := pause (t 0%nat) v in
  let '(d, r) := sv_transfer sv (v_device v) ep dir [] in
  let v := pause (t 1%nat) (set_device d v) in
  if m_cancelled (t 1%nat) then (out, v, Some GaveUp)
  else
    let response := take (Z.to_nat (xferLen job)) (default [] r) in
    send (t 2%nat) idx
      (buildRetSubmitPacket (seq_ job) 0 (u32 (Z.of_nat (length response))) response [] false) out v.

(** ** Isochronous IN *)

(** One packet's samples, [n] of them in a destination of [length] bytes;
    [None] when the context was cancelled in HandleTransfer. *)
Definition read_packet m m' (length_ : nat) v : service * option (list Z) :=
  let v := pause m v in
  match sv_microphone sv with
  | Some read =>
      let '(d, (n, ok, data)) := read (v_device v) length_ in
      let n := Z.to_nat (Z.min (if n <? 0 then 0 else n) (Z.of_nat length_)) in
      (set_device d v, Some (if ok then take n data
                             else zeros (if (n =? 0)%nat then length_ else n)))
  | None =>
      let '(d, r) := sv_transfer sv (v_device v) ep dir [] in
      let v := pause m' (set_device d v) in
      if m_cancelled m' then (v, None)
      else (v, Some (match default [] r with
                     | [] => zeros length_
                     | data => take length_ data
                     end))
  end.

(** The packet loop: [n] packets from [i] on, with the samples and the packet
    lengths so far.  The loop ends early when the buffer of [xlen] bytes is
    full. *)
Fixpoint iso_in_loop (waits : nat -> list (wait_event D)) (t : nat -> moment) (idx n i : nat)
    (xlen : Z) (media : list Z) (lengths : list Z) v :
    service * option (option (list Z * list Z)) :=
  match n with
  | O => (v, Some (Some (media, lengths)))
  | S n =>
      match waitForPhase (waits i) idx (Z.of_nat i) v with
      | (v, None) => (v, None)
      | (v, Some false) => (v, Some None)
      | (v, Some true) =>
          let p := nth i (packets (job_at (v_worker v) idx))
                     {| iso_Offset := 0; iso_Length := 0; iso_ActualLength := 0; iso_Status := 0 |} in
          if iso_Length p <=? 0 then iso_in_loop waits t idx n (S i) xlen media lengths v
          else
            let room := Z.min (iso_Length p) (xlen - Z.of_nat (length media)) in
            if room <=? 0 then (v, Some (Some (media, lengths)))
            else
              match read_packet (t (2 * i)%nat) (t (2 * i + 1)%nat) (Z.to_nat room) v with
              | (v, None) => (v, Some None)
              | (v, Some data) =>
                  iso_in_loop waits t idx n (S i) xlen (media ++ data)
                    (<[i := Z.of_nat (length data)]> lengths) v
              end
      end
  end.

(** The completed descriptors of an ISO-IN job. *)
Fixpoint iso_in_packets (ps : list IsoPacketDescriptor) (lengths : list Z) :
    list IsoPacketDescriptor :=
  match ps, lengths with
  | p :: ps, l :: lengths =>
      {| iso_Offset := iso_Offset p; iso_Length := iso_Length p;
         iso_ActualLength := Z.min (iso_Length p) l; iso_Status := 0 |} :: iso_in_packets ps lengths
  | _, _ => []
  end.

Definition set_packets (ps : list IsoPacketDescriptor) (j : endpointJob) : endpointJob :=
  {| seq_ := seq_ j; xferLen := xferLen j; serviceAt := serviceAt j; serviceEnd := serviceEnd j;
     duration := duration j; queuedAt := queuedAt j; job_generation := job_generation j;
     mediaGeneration := mediaGeneration j; payload := payload j; packets := ps;
     job_cancelled := job_cancelled j; responseStarted := responseStarted j;
     sideEffectStarted := sideEffectStarted j |}.

Definition store_packets (idx : nat) (ps : list IsoPacketDescriptor) v : service :=
  set_worker (set_slot idx (set_packets ps (job_at (v_worker v) idx)) (v_worker v)) v.

Definition processIsoIn (waits : nat -> list (wait_event D)) (t : nat -> moment) (idx : nat)
    out v : W * service * option served :=
  let job := job_at (v_worker v) idx in
  let packetCount := length (packets job) in
  match iso_in_loop waits t idx packetCount 0 (xferLen job) [] (replicate packetCount 0) v with
  | (v, None) => (out, v, None)
  | (v, Some None) => (out, v, Some GaveUp)
  | (v, Some (Some (media, lengths))) =>
      match waitForPhase (waits packetCount) idx (Z.of_nat packetCount) v with
      | (v, None) => (out, v, None)
      | (v, Some false) => (out, v, Some GaveUp)
      | (v, Some true) =>
          let ps := iso_in_packets (packets (job_at (v_worker v) idx)) lengths in
          let v := store_packets idx ps v in
          send (t (2 * packetCount)%nat) idx
            (buildRetSubmitPacket (seq_ job) 0 (u32 (Z.of_nat (length media))) media ps true) out v
      end
  end.

(** ** Isochronous OUT *)

Definition iso_out_packet (xlen : Z) (p : IsoPacketDescriptor) : IsoPacketDescriptor :=
  {| iso_Offset := iso_Offset p; iso_Length := iso_Length p;
     iso_ActualLength := if iso_Offset p <? xlen
                         then Z.min (iso_Length p) (xlen - iso_Offset p) else 0;
     iso_Status := 0 |}.

Definition processIsoOut (waits : nat -> list (wait_event D)) (t : nat -> moment) (idx : nat)
    out v : W * service * option served :=
  match waitForPhase (waits 0%nat) idx 0 v with
  | (v, None) => (out, v, None)
  | (v, Some false) => (out, v, Some GaveUp)
  | (v, Some true) =>
      let v := pause (t 0%nat) v in
      let '(w, begun) := beginSideEffect idx (v_worker v) in
      let v := set_worker w v in
      if negb begun then (out, v, Some GaveUp)
      else
        let job := job_at (v_worker v) idx in
        let v := pause (t 1%nat) v in
        let '(d, accepted) :=
          match sv_iso_out sv with
          | Some handle => handle (v_device v) (Z.land ep 0x0f) (mediaGeneration job) (payload job)
          | None => (fst (sv_transfer sv (v_device v) ep dir (payload job)), true)
          end in
        let v := set_device d v in
        if negb accepted then (out, v, Some GaveUp)
        else
          let packetCount := length (packets job) in
          match waitForPhase (waits 1%nat) idx (Z.of_nat packetCount) v with
          | (v, None) => (out, v, None)
          | (v, Some false) => (out, v, Some GaveUp)
          | (v, Some true) =>
              let ps := map (iso_out_packet (xferLen job)) (packets (job_at (v_worker v) idx)) in
              let v := store_packets idx ps v in
              send (t 2%nat) idx
                (buildRetSubmitPacket (seq_ job) 0 (xferLen job) [] ps true) out v
          end
  end.

(** ** One round of the worker's loop *)

Definition run_job (waits : nat -> list (wait_event D)) (t : nat -> moment) (m : moment) out v :
    W * service * option served :=
  let '(w, claimed) := claimNext (v_worker v) in
  let v := set_worker w v in
  match claimed with
  | None => (out, v, None)
  | Some idx =>
      let '(out, v, r) :=
        match kind (v_worker v) with
        | interruptInWorker => processInterruptIn (waits 0%nat) t idx out v
        | isoInWorker => processIsoIn waits t idx out v
        | isoOutWorker => processIsoOut waits t idx out v
        | genericInWorker => processGenericIn t idx out v
        end in
      match r with
      | None => (out, v, None)
      | Some r =>
          let v := pause m v in
          let completed := match r with Answered => true | _ => false end in
          let retain := match r with Retained => true | _ => false end in
          (out, set_worker (finishCurrentWithRetention idx completed retain (m_now m) (v_worker v)) v,
           Some r)
      end
  end.
End Service.

(** * Properties *)

(** ** A device that records how its presentation source is used *)

Inductive input_event :=
| EvClaim (c : Claim) (data : list Z)
| EvSelect (c : Claim) (available : bool)
| EvAdmit (c : Claim) (ok : bool)
| EvCopy (c : Claim) (data : list Z) (ok : bool)
| EvResolve (c : Claim) (outcome : Z) (ok : bool).

Section Logged.
Context {D : Type}.
Local Notation L := (D * list input_event)%type.

Definition logged_source (src : Source D) : Source L := {|
  src_owns := fun '(d, _) ep => src_owns src d ep;
  src_claim := fun '(d, l) n now =>
    let '(d, (c, data)) := src_claim src d n now in ((d, l ++ [EvClaim c data]), (c, data));
  src_resolve := fun '(d, l) c o now =>
    let '(d, ok) := src_resolve src d c o now in ((d, l ++ [EvResolve c o ok]), ok);
  src_can_admit :=
    match src_can_admit src with
    | Some ask => Some (fun '(d, l) c now =>
        let '(d, ok) := ask d c now in ((d, l ++ [EvAdmit c ok]), ok))
    | None => None
    end |}.

Definition logged_prepared (src : PreparedSource D) : PreparedSource L := {|
  prep_owns := fun '(d, _) ep => prep_owns src d ep;
  prep_select := fun '(d, l) n now =>
    let '(d, (c, available)) := prep_select src d n now in
    ((d, l ++ [EvSelect c available]), (c, available));
  prep_copy := fun '(d, l) c destination now =>
    let '(d, (data, ok)) := prep_copy src d c destination now in
    ((d, l ++ [EvCopy c data ok]), (data, ok));
  prep_resolve := fun '(d, l) c o now =>
    let '(d, ok) := prep_resolve src d c o now in ((d, l ++ [EvResolve c o ok]), ok) |}.

Definition logged (sv : ServiceDevice D) : ServiceDevice L := {|
  sv_prepared := logged_prepared <$> sv_prepared sv;
  sv_source := logged_source <$> sv_source sv;
  sv_claimer := (fun claimer => {|
    ClaimInputReport := fun '(d, l) n => let '(d, r) := ClaimInputReport claimer d n in ((d, l), r);
    CompleteInputReport := fun '(d, l) token ok => (CompleteInputReport claimer d token ok, l) |})
    <$> sv_claimer sv;
  sv_builder := (fun build '(d, l) n => let '(d, r) := build d n in ((d, l), r)) <$> sv_builder sv;
  sv_transfer := fun '(d, l) ep dir data =>
    let '(d, r) := sv_transfer sv d ep dir data in ((d, l), r);
  sv_microphone := (fun read '(d, l) n => let '(d, r) := read d n in ((d, l), r)) <$> sv_microphone sv;
  sv_iso_out := (fun handle '(d, l) ep gen data => let '(d, r) := handle d ep gen data in ((d, l), r))
    <$> sv_iso_out sv |}.

(** Other goroutines do not write this worker's record. *)
Definition lift (m : moment D) : moment L := {|
  m_now := m_now m;
  m_others := fun w '(d, l) => let '(w, d) := m_others m w d in (w, (d, l));
  m_cancelled := m_cancelled m; m_expired := m_expired m |}.

Definition lift_event (e : wait_event D) : wait_event L :=
  match e with
  | WaitCancelled m => WaitCancelled (lift m)
  | WaitWake m => WaitWake (lift m)
  | WaitDeadline m woke => WaitDeadline (lift m) (lift woke)
  end.

Definition log (v : service L) : list input_event := snd (v_device v).

Lemma log_pause m v : log (pause (lift m) v) = log v.
Proof.
  unfold pause, log. cbn. destruct (v_device v) as [d l]. by destruct (m_others m _ d).
Qed.

Lemma log_set_worker w v : log (set_worker w v) = log v.
Proof. done. Qed.

Lemma log_wait events idx phase v :
  log (fst (waitForPhase (map lift_event events) idx phase v)) = log v.
Proof.
  revert v. induction events as [|e events IH]; intros v; [done|].
  cbn [map waitForPhase].
  destruct e as [m|m|m woke]; cbn [lift_event];
    destruct (phaseDeadline _ _ _ _) as [w [deadline|]]; cbn [fst];
    rewrite ?IH, ?log_set_worker, ?log_pause; try done.
  destruct (phaseDeadline _ _ _ _) as [w' [adjusted|]]; cbn [fst]; [case_if; cbn [fst]|];
    by rewrite ?IH, ?log_set_worker, ?log_pause, ?log_set_worker, ?log_pause.
Qed.
End Logged.

(** ** What one attempt may do *)

(** The calls of one attempt: a refused selection, an invalid claim, or a claim
    with at most one admission and exactly one resolution. *)
Inductive episode : list input_event -> Prop :=
| episode_none : episode []
| episode_unavailable c : episode [EvSelect c false]
| episode_invalid c data : Claim_Valid c = false -> episode [EvClaim c data]
| episode_claim c data adm o ok :
    Claim_Valid c = true -> o = OutcomeCommit \/ o = OutcomeDefer ->
    adm = [] \/ (exists b, adm = [EvAdmit c b]) ->
    episode (EvClaim c data :: adm ++ [EvResolve c o ok])
| episode_prepared c copy o ok :
    copy = [] \/ (exists data b, copy = [EvCopy c data b]) ->
    episode (EvSelect c true :: copy ++ [EvResolve c o ok]).

Definition report_packet (sq : Z) (report : list Z) : list Z :=
  buildRetSubmitPacket sq 0 (u32 (Z.of_nat (length report))) report [] false.
Definition prepared_packet (sq : Z) (c : Claim) (report : list Z) : list Z :=
  take retSubmitHeaderSize (buildPreparedRetSubmitPacket sq (Size c)) ++ report.

(** The bytes [sent] present the claim [c] of [evs]. *)
Definition presents (sq : Z) (evs : list input_event) (sent : list Z) (c : Claim) : Prop :=
  exists data, (EvClaim c data ∈ evs /\ sent = report_packet sq (take (Z.to_nat (Size c)) data)) \/
    (EvCopy c data true ∈ evs /\ sent = prepared_packet sq c data).

Definition silent (r : option served) : Prop :=
  match r with
  | None | Some GaveUp | Some Retained | Some (Failed (ErrMalformedClaim _)) => True
  | _ => False
  end.

(** What was sent agrees with the result, and a committed claim is the one the
    stream received whole. *)
Record attempted (sq : Z) (evs : list input_event) (sent : list Z) (r : option served) : Prop := {
  a_answered : r = Some Answered -> ret_submit_for sq sent;
  a_silent : silent r -> sent = [];
  a_commit c ok : EvResolve c OutcomeCommit ok ∈ evs ->
    presents sq evs sent c /\ (r = Some Answered \/ r = Some (Failed ErrRejectedResolution));
  a_refused c : EvAdmit c false ∈ evs -> sent = [];
}.

(** The three ends of a conditional write: delivered, failed after a prefix, or
    refused before the first byte. *)
Definition write_end (p : list Z) (go success : bool) (sent : list Z) (r : option served) : Prop :=
  (go = true /\ success = true /\ sent = p /\ r = Some Answered) \/
  (go = true /\ success = false /\ exists e, r = Some (Failed (ErrDelivery e))) \/
  (go = false /\ success = false /\ sent = [] /\ (r = None \/ r = Some GaveUp)).

Lemma quiet_attempted (sq : Z) (data sent : list Z) (r : option served) (go success : bool) :
  write_end (report_packet sq data) go success sent r -> attempted sq [] sent r.
Proof.
  intros Hw. assert (Hno : forall e : input_event, e ∉ []) by (intros e; apply not_elem_of_nil).
  destruct Hw as [(_&_&->&->)|[(_&_&e&->)|(_&_&->&[->| ->])]];
    split; try done; try (intros; exfalso; eapply Hno; eassumption).
  intros _. apply build_ret_submit_for.
Qed.

Lemma outcomes_differ : OutcomeCommit <> OutcomeDefer.
Proof. done. Qed.

Lemma claim_attempted (sq : Z) (c : Claim) (data : list Z) (fits : bool) (adm : list input_event)
    (success ok go : bool) (sent : list Z) (r : option served) :
  write_end (report_packet sq (take (if fits then Z.to_nat (Size c) else 0%nat) data)) go success sent r ->
  (fits = true -> Claim_Valid c = true) ->
  adm = [] \/ (fits = true /\ exists b, adm = [EvAdmit c b] /\ (b = false -> go = false)) ->
  let evs := EvClaim c data :: adm ++
    (if Claim_Valid c
     then [EvResolve c (if success && fits then OutcomeCommit else OutcomeDefer) ok] else []) in
  episode evs /\ attempted sq evs sent r.
Proof.
  intros Hw Hf Ha evs. split.
  - unfold evs. destruct (Claim_Valid c) eqn:Ev.
    + apply episode_claim; [done|case_if; auto|]. destruct Ha as [?|(_&b&?&_)]; eauto.
    + destruct Ha as [->|[Hfit _]]; [by apply episode_invalid|]. by specialize (Hf Hfit).
  - assert (Hc : forall c' ok', EvResolve c' OutcomeCommit ok' ∈ evs ->
      c' = c /\ success = true /\ fits = true).
    { intros c' ok' [?|[Hin|Hin]%elem_of_app]%elem_of_cons; [done| |].
      - destruct Ha as [->|(_&b&->&_)]; set_solver.
      - destruct (Claim_Valid c); [|set_solver]. apply list_elem_of_singleton in Hin.
        destruct success, fits; simplify_eq/=; try done; by destruct outcomes_differ. }
    assert (Hr : forall c', EvAdmit c' false ∈ evs -> go = false).
    { intros c' [?|[Hin|Hin]%elem_of_app]%elem_of_cons; [done| |].
      - destruct Ha as [->|(_&b&->&Hb)]; [set_solver|]. apply list_elem_of_singleton in Hin.
        simplify_eq. by apply Hb.
      - destruct (Claim_Valid c); set_solver. }
    destruct Hw as [(->&->&->&->)|[(->&->&e&->)|(->&->&->&[->| ->])]];
      split; try done; try (intros c' ok' (_&?&_)%Hc; done); try (intros c' ?%Hr; done).
    + intros _. apply build_ret_submit_for.
    + intros c' ok' (->&_&->)%Hc. split; [|by left]. exists data. left. split; [|done].
      apply elem_of_cons. by left.
Qed.
Lemma prepared_ret_submit_for (sq : Z) (c : Claim) (data : list Z) :
  ret_submit_for sq (prepared_packet sq c data).
Proof.
  unfold prepared_packet, buildPreparedRetSubmitPacket. cbv zeta.
  set (n := if _ <? _ then _ else _). rewrite buildRetSubmitPacket_bytes, !app_nil_r.
  rewrite take_app_length' by (by rewrite length_ret_header).
  by eexists _, _, _, _.
Qed.

(** One attempt against a prepared source. *)
Lemma prepared_attempted (sq : Z) (c : Claim) (data sent : list Z) (copy : list input_event)
    (adm : preparedAdmissionResult) (success ok : bool) (r : option served) :
  copy = [] \/ (exists data b, copy = [EvCopy c data b]) ->
  (adm = preparedAdmissionAccepted -> copy = [EvCopy c data true]) ->
  (success = true -> adm = preparedAdmissionAccepted /\ sent = prepared_packet sq c data /\
     r = Some (if ok then Answered else Failed ErrRejectedResolution)) ->
  (success = false -> r <> Some Answered) ->
  (silent r -> sent = []) ->
  let evs := EvSelect c true :: copy ++ [EvResolve c (prepared_outcome adm success) ok] in
  episode evs /\ attempted sq evs sent r.
Proof.
  intros Hcopy Hacc Hyes Hno Hsil evs. split; [by apply episode_prepared|].
  assert (Hin : forall e, e ∈ evs -> (exists d b, e = EvCopy c d b) \/ e = EvSelect c true \/
    e = EvResolve c (prepared_outcome adm success) ok).
  { intros e [->|[He| ->%list_elem_of_singleton]%elem_of_app]%elem_of_cons; [by auto| |by auto].
    destruct Hcopy as [->|(d & b & ->)]; [by apply elem_of_nil in He|].
    apply list_elem_of_singleton in He as ->. eauto. }
  split; [| exact Hsil| |].
  - intros Hr. destruct success; [|by destruct (Hno eq_refl)].
    destruct (Hyes eq_refl) as (_ & -> & _). apply prepared_ret_submit_for.
  - intros c' ok' [(?&?&?)|[?|He]]%Hin; [done..|]. simplify_eq.
    destruct success; [|by destruct adm].
    destruct (Hyes eq_refl) as (-> & -> & ->). split; [|destruct ok; auto].
    exists data. right. split; [|done]. unfold evs. rewrite (Hacc eq_refl). set_solver.
  - intros c' [(?&?&?)|[?|?]]%Hin; done.
Qed.

Section Attempts.
Context {W : Type} `{WriterLaws W, !Flusher W} {HF : FlusherLaws W} {D : Type}
  (sv : ServiceDevice D) (ep dir : Z) (maxPacket : nat).
Local Notation L := (D * list input_event)%type.
Implicit Types (v : service L) (m : moment D) (out : W).

Lemma log_set_device d v : log (set_device d v) = snd d.
Proof. done. Qed.

(** A completion that leaves the record alone. *)
Definition quiet_taken (tk : @taken L) : Prop :=
  match tk with
  | TakenNone => True
  | TakenLegacy claimer _ => forall d l token ok, snd (CompleteInputReport claimer (d, l) token ok) = l
  | TakenClaim _ _ _ => False
  end.

Lemma take_report_log m m' xlen v v' r :
  take_report (logged sv) ep dir maxPacket (lift m) (lift m') xlen v = (v', r) ->
  (log v' = log v /\ (r = None \/ exists resp tk, r = Some (resp, tk) /\ quiet_taken tk)) \/
  exists src c (data : list Z) (fits : bool),
    r = Some (take (if fits then Z.to_nat (Size c) else 0%nat) data,
              TakenClaim (logged_source src) c fits) /\
    log v' = log v ++ [EvClaim c data] /\ (fits = true -> Claim_Valid c = true).
Proof.
  unfold take_report. cbn [logged sv_source sv_prepared sv_claimer sv_builder].
  destruct (v_device v) as [d l] eqn:Ed.
  assert (HT : forall v', handle_transfer (logged sv) ep dir (lift m') xlen v = (v', r) ->
    log v' = log v /\ (r = None \/ exists resp tk, r = Some (resp, tk) /\ quiet_taken tk)).
  { intros u. unfold handle_transfer. rewrite Ed. cbn.
    destruct (sv_transfer sv d ep dir []) as [d' res].
    set (v1 := pause (lift m') (set_device (d', l) v)).
    assert (Hv1 : log v1 = log v) by (unfold v1; rewrite log_pause; unfold log; by rewrite Ed).
    destruct (m_cancelled m'); [intros [= <- <-]; auto|].
    destruct res as [res|]; intros [= <- <-]; (split; [exact Hv1|right; by eexists _, _]). }
  assert (HL : forall v', match (if match sv_source sv, sv_prepared sv with
        | None, None => false | _, _ => true end then None else sv_claimer (logged sv)),
      (if match sv_source sv, sv_prepared sv with
        | None, None => false | _, _ => true end then None else sv_builder (logged sv)) with
    | Some claimer, _ =>
        let '(d, (n, token, data)) := ClaimInputReport claimer (d, l) (Nat.min (Z.to_nat xlen) maxPacket) in
        (set_device d v, Some (clipped n (Nat.min (Z.to_nat xlen) maxPacket) data, TakenLegacy claimer token))
    | None, Some build =>
        let '(d, (n, data)) := build (d, l) (Nat.min (Z.to_nat xlen) maxPacket) in
        (set_device d v, Some (clipped n (Nat.min (Z.to_nat xlen) maxPacket) data, TakenNone))
    | None, None => handle_transfer (logged sv) ep dir (lift m') xlen v
    end = (v', r) ->
    log v' = log v /\ (r = None \/ exists resp tk, r = Some (resp, tk) /\ quiet_taken tk)).
  { intros u. destruct (match sv_source sv, sv_prepared sv with None, None => false | _, _ => true end);
      [apply HT|]. cbn.
    destruct (sv_claimer sv) as [claimer|]; cbn.
    - destruct (ClaimInputReport claimer d _) as [d' [[n token] data]]. intros [= <- <-].
      split; [unfold log; by rewrite Ed|]. right. eexists _, _. split; [done|]. done.
    - destruct (sv_builder sv) as [build|]; cbn; [|apply HT].
      destruct (build d _) as [d' [n data]]. intros [= <- <-].
      split; [unfold log; by rewrite Ed|]. right. by eexists _, _. }
  destruct (sv_source sv) as [src|]; cbn [fmap option_fmap option_map].
  - cbn [src_owns logged_source]. destruct (src_owns src d (u8 ep)) eqn:Eo.
    + cbn. destruct (src_claim src d _ _) as [d' [c data]]. intros [= <- <-]. right.
      exists src, c, data, (Claim_Valid c && (Size c <=? Z.of_nat (Nat.min (Z.to_nat xlen) maxPacket))).
      split; [done|]. split; [unfold log; by rewrite Ed|]. intros. by bool_prop.
    + cbn. intros Hr. left. by apply HL.
  - intros Hr. left. apply HL. by destruct (sv_prepared sv).
Qed.

(** Transferring the job asks the source at most once, and only a granted
    admission lets the response start. *)
Lemma mark_log m idx src c req v v' ok :
  mark_with_admission (lift m) idx (src_can_admit (logged_source src)) c req v = (v', ok) ->
  exists adm, log v' = log v ++ adm /\
    (adm = [] \/ (req = true /\ exists b, adm = [EvAdmit c b] /\ (b = false -> ok = false))).
Proof.
  unfold mark_with_admission. cbn [logged_source src_can_admit].
  rewrite <-(log_pause m v). set (v0 := pause (lift m) v).
  assert (Hno : forall d', snd d' = log v0 -> forall g,
    (let '(w, ok) := markResponseStartedWithAdmission idx req g (v_worker v0) in
     (set_worker w (set_device d' v0), ok)) = (v', ok) -> log v' = log v0 ++ []).
  { intros d' Hd g. destruct (markResponseStartedWithAdmission _ _ _ _). intros [= <- _].
    by rewrite app_nil_r. }
  destruct (src_can_admit src) as [ask|]; [destruct (req && _) eqn:Er|];
    [|intros E; exists []; split; [by eapply Hno; [|exact E]|by left]..].
  destruct (v_device v0) as [d l] eqn:Ed. destruct (ask d c (m_now m)) as [d1 b] eqn:Ea.
  cbv beta iota. cbn [m_now lift]. rewrite Ea. apply andb_prop in Er as [-> Hl]. cbv beta iota.
  destruct (markResponseStartedWithAdmission _ _ _ _) as [w ok'] eqn:Em.
  intros [= <- <-]. exists [EvAdmit c b].
  split; [unfold log; by rewrite Ed|]. right. split; [done|]. exists b. split; [done|].
  intros ->. unfold markResponseStartedWithAdmission in Em. by repeat case_if_in Em; simplify_eq.
Qed.

Lemma settle_log m src c fits v s :
  exists ok, log (settle (lift m) (TakenClaim (logged_source src) c fits) v s) =
    log v ++ (if Claim_Valid c
              then [EvResolve c (if s && fits then OutcomeCommit else OutcomeDefer) ok] else []).
Proof.
  rewrite <-(log_pause m v). unfold settle. set (v0 := pause (lift m) v).
  destruct (Claim_Valid c); [|exists false; by rewrite app_nil_r].
  unfold log. cbn. destruct (v_device v0) as [d l]. destruct (src_resolve _ _ _ _ _) as [d' ok].
  by exists ok.
Qed.

Lemma quiet_settle m tk v s : quiet_taken tk -> log (settle (lift m) tk v s) = log v.
Proof.
  rewrite <-(log_pause m v). unfold settle. set (v0 := pause (lift m) v).
  destruct tk as [|claimer token|]; [done| |done]. intros Hq. unfold log. cbn.
  destruct (v_device v0) as [d l]. apply Hq.
Qed.

Lemma mark_quiet m idx c v : log (fst (mark_with_admission (lift m) idx None c false v)) = log v.
Proof.
  unfold mark_with_admission. destruct (markResponseStartedWithAdmission _ _ _ _) as [w ok].
  cbn [fst]. rewrite log_set_worker. cbn. apply log_pause.
Qed.

Lemma report_write m idx mark after packet out v out' v' r :
  (let '(out, v, _, written, err) := writeIfThen out v packet true
     (Some (fun v p => let '(v, ok) := mark v in (v, p, ok))) (Some after) in
   match err with
   | Some e => (out, v, Some (Failed (ErrDelivery e)))
   | None => if written then (out, v, Some Answered)
             else let v := pause (lift m) v in
               (out, v, if currentActive (v_worker v) idx then None else Some GaveUp)
   end) = (out', v', r) ->
  exists success sent, w_sent out' = w_sent out ++ sent /\
    log v' = log (after (fst (mark v)) success) /\
    write_end packet (snd (mark v)) success sent r.
Proof using HF.
  destruct (writeIfThen _ _ _ _ _ _) as [[[[o1 v1] p1] wr] err] eqn:Ew.
  apply writeIfThen_spec in Ew. destruct (mark v) as [v0 go]. cbn in *.
  destruct Ew as (-> & -> & Hno & Hgo). destruct go.
  - destruct (Hgo eq_refl) as [-> Hs]. destruct err as [e|]; intros [= <- <- <-].
    + destruct Hs as (p & Hp & _). exists false, p. split_and!; [done|done|].
      right. left. eauto.
    + exists true, packet. split_and!; [done|done|]. by left.
  - destruct (Hno eq_refl) as (-> & -> & ->). intros [= <- <- <-].
    exists false, []. rewrite app_nil_r, log_pause. split_and!; [done|done|].
    right. right. split_and!; try done. case_if; auto.
Qed.


Definition settles (sq : Z) out v out' v' (r : option served) : Prop :=
  exists evs sent, log v' = log v ++ evs /\ episode evs /\
    w_sent out' = w_sent out ++ sent /\ attempted sq evs sent r.

Lemma report_settles t idx sq xlen out v out' v' r :
  attempt_report (logged sv) ep dir maxPacket (fun k => lift (t k)) idx sq xlen out v = (out', v', r) ->
  settles sq out v out' v' r.
Proof using HF.
  unfold attempt_report.
  destruct (take_report _ _ _ _ _ _ _ v) as [v1 res] eqn:Et.
  apply take_report_log in Et as [[Hl Hr]|(src & c & data & fits & -> & Hl & Hf)].
  - destruct Hr as [->|(resp & tk & -> & Hq)].
    + intros [= <- <- <-]. exists [], []. rewrite !app_nil_r.
      split_and!; [done|constructor|done|]. split; try done; intros *; by intros ?%elem_of_nil.
    + assert (Ha : admission_of tk = (None, Claim_zero, false)) by (by destruct tk).
      rewrite Ha. intros Hw. apply report_write in Hw as (s & sent & Hs & Hlog & He).
      rewrite (quiet_settle _ _ _ _ Hq), mark_quiet, Hl in Hlog. exists [], sent.
      rewrite app_nil_r. split_and!; [done|constructor|done|]. by eapply quiet_attempted.
  - cbn [admission_of]. intros Hw. apply report_write in Hw as (s & sent & Hs & Hlog & He).
    destruct (mark_with_admission _ _ _ _ _ v1) as [v2 go] eqn:Em. cbn [fst snd] in *.
    apply mark_log in Em as (adm & Hadm & Ha).
    destruct (settle_log (t 3%nat) src c fits v2 s) as [ok Hset].
    rewrite Hset, Hadm, Hl, <-!app_assoc in Hlog.
    destruct (claim_attempted sq c data fits adm s ok go sent r) as [Hep Hat]; [done|done| |].
    { destruct Ha as [->|[[-> _]%andb_prop Hb]]; [by left|by right]. }
    eexists _, sent. split_and!; [exact Hlog|done|done|done].
Qed.

Lemma admit_prepared_log m idx src c destination v v' data adm :
  admitPreparedResponse ep (lift m) idx (logged_prepared src) c destination v = (v', data, adm) ->
  exists copy, log v' = log v ++ copy /\
    (copy = [] \/ (exists data b, copy = [EvCopy c data b])) /\
    (adm = preparedAdmissionAccepted -> copy = [EvCopy c data true]).
Proof.
  rewrite <-(log_pause m v). unfold admitPreparedResponse. set (v0 := pause (lift m) v).
  case_if; [intros [= <- <- <-]; exists []; rewrite app_nil_r; naive_solver|].
  case_if; [intros [= <- <- <-]; exists []; rewrite app_nil_r; naive_solver|].
  unfold log. cbn. destruct (v_device v0) as [d l]. destruct (prep_copy _ _ _ _ _) as [d' [data' b]].
  destruct b; intros [= <- <- <-]; eexists; (split; [reflexivity|]); naive_solver.
Qed.

Lemma resolve_prepared_log m src c o v d ok :
  prep_resolve (logged_prepared src) (v_device (pause (lift m) v)) c o (m_now m) = (d, ok) ->
  snd d = log v ++ [EvResolve c o ok].
Proof.
  rewrite <-(log_pause m v). unfold log. cbn. destruct (v_device (pause _ v)) as [d0 l].
  destruct (prep_resolve src _ _ _ _) as [d' ok']. by intros [= <- <-].
Qed.

Definition accepted_ (adm : preparedAdmissionResult) : bool :=
  match adm with preparedAdmissionAccepted => true | _ => false end.

(** The write of a prepared report: the source is asked to copy at most once and
    is told the outcome exactly once. *)
Lemma prepared_write t src idx sq c out v out' v' adm resolved p written err :
  writeIfThen out (v, (preparedAdmissionRetired, false)) (buildPreparedRetSubmitPacket sq (Size c)) true
    (Some (fun '(v, (_, resolved)) p =>
       let '(v, destination, admission) := admitPreparedResponse ep (lift (t 2%nat)) idx
         (logged_prepared src) c (drop retSubmitHeaderSize p) v in
       (v, (admission, resolved), take retSubmitHeaderSize p ++ destination, accepted_ admission)))
    (Some (fun '(v, (admission, _)) success =>
       let v := pause (lift (t 3%nat)) v in
       let '(d, resolved) := prep_resolve (logged_prepared src) (v_device v) c
         (prepared_outcome admission success) (m_now (t 3%nat)) in
       (set_device d v, (admission, resolved)))) =
    (out', (v', (adm, resolved)), p, written, err) ->
  exists copy data sent,
    let success := written && match err with None => true | Some _ => false end in
    log v' = log v ++ copy ++ [EvResolve c (prepared_outcome adm success) resolved] /\
    (copy = [] \/ (exists data b, copy = [EvCopy c data b])) /\
    (adm = preparedAdmissionAccepted -> copy = [EvCopy c data true]) /\
    w_sent out' = w_sent out ++ sent /\ written = accepted_ adm /\
    (written = false -> sent = [] /\ err = None) /\
    (success = true -> sent = prepared_packet sq c data).
Proof using HF.
  intros Ew%writeIfThen_spec. cbv beta iota in Ew.
  destruct (admitPreparedResponse _ _ _ _ _ _ v) as [[v3 data] adm'] eqn:Ea.
  apply admit_prepared_log in Ea as (copy & Hcopy & Hcs & Hacc). cbv beta iota zeta in Ew.
  destruct Ew as (_ & -> & Hno & Hgo). exists copy, data.
  assert (Hfin : forall success, (v', (adm, resolved)) =
     (let '(d, resolved) := prep_resolve (logged_prepared src) (v_device (pause (lift (t 3%nat)) v3)) c
         (prepared_outcome adm' success) (m_now (t 3%nat)) in
       (set_device d (pause (lift (t 3%nat)) v3), (adm', resolved))) ->
     adm = adm' /\ log v' = log v ++ copy ++ [EvResolve c (prepared_outcome adm success) resolved]).
  { intros success.
    destruct (prep_resolve (logged_prepared src) (v_device (pause (lift (t 3%nat)) v3)) c
      (prepared_outcome adm' success) (m_now (t 3%nat))) as [d ok] eqn:Er.
    intros [-> [-> ->]%pair_equal_spec]%pair_equal_spec.
    apply resolve_prepared_log in Er. split; [done|].
    by rewrite app_assoc, <-Hcopy. }
  destruct (accepted_ adm') eqn:Eacc.
  - destruct (Hgo eq_refl) as [[-> Hlog]%Hfin Hs]. cbn [andb].
    destruct err as [e|]; [destruct Hs as (q & Hq & _)|]; [exists q|exists (prepared_packet sq c data)];
      by split_and!.
  - destruct (Hno eq_refl) as (-> & -> & [-> Hlog]%Hfin). exists []. rewrite app_nil_r. by split_and!.
Qed.

Lemma prepared_settles t src idx sq xlen out v out' v' r :
  attempt_prepared ep maxPacket (fun k => lift (t k)) (logged_prepared src) idx sq xlen out v =
    (out', v', r) ->
  settles sq out v out' v' r.
Proof using HF.
  unfold attempt_prepared. set (most := Z.min xlen (Z.of_nat maxPacket)). cbn [m_now lift].
  destruct (prep_select _ _ _ _) as [d1 [c available]] eqn:Es.
  set (v1 := set_device d1 v).
  assert (Hv1 : log v1 = log v ++ [EvSelect c available]).
  { unfold v1, log, set_device. cbn in *. destruct (v_device v) as [d l].
    destruct (prep_select src d _ _) as [d' [c' a']]. by simplify_eq. }
  destruct available; cbn [negb].
  2:{ intros [= <- <- <-]. exists [EvSelect c false], []. rewrite app_nil_r.
      split_and!; [done|constructor|done|]. split; try done; set_solver. }
  destruct (negb (Claim_Valid c) || _) eqn:Em.
  { destruct (prep_resolve _ _ _ _ _) as [d2 ok] eqn:Er. apply resolve_prepared_log in Er.
    intros [= <- <- <-].
    exists ([EvSelect c true] ++ [] ++ [EvResolve c OutcomeRetire ok]), []. rewrite app_nil_r.
    split_and!; [by rewrite app_assoc, <-Hv1|by apply episode_prepared; left|done|].
    split; try done; set_solver. }
  destruct (writeIfThen _ _ _ _ _ _) as [[[[o1 [v2 [adm resolved]]] p1] wr] err] eqn:Ew.
  apply prepared_write in Ew as (copy & data & sent & Hlog & Hcs & Hacc & Hsent & Hwr & Hno & Hyes).
  rewrite Hv1, <-app_assoc in Hlog. intros Hend.
  assert (Hend' : out' = o1 /\ log v' = log v2 /\
    (wr = true -> err = None -> r = Some (if resolved then Answered else Failed ErrRejectedResolution)) /\
    (wr = true -> ~ silent r) /\ (wr = false \/ err <> None -> r <> Some Answered)).
  { destruct adm, wr; try done; destruct err as [e|]; try (by destruct (Hno eq_refl));
      destruct resolved; cbn [negb] in Hend; simplify_eq/=; rewrite ?log_pause;
      split_and!; try done; try (intros [|]; done);
      try (by intros _ []); repeat case_if; done. }
  destruct Hend' as (-> & Hlog' & Hr1 & Hr2 & Hr3). rewrite <-Hlog' in Hlog.
  destruct (prepared_attempted sq c data sent copy adm
    (wr && match err with None => true | Some _ => false end) resolved r) as [Hep Hat]; try done.
  - intros Hs. destruct wr, err; try done. split_and!; [by destruct adm|by apply Hyes|by apply Hr1].
  - intros Hs. apply Hr3. destruct wr, err; auto.
  - intros Hs. destruct wr; [by destruct (Hr2 eq_refl)|]. by apply Hno.
  - eexists _, sent. split_and!; [exact Hlog|done|done|done].
Qed.

Lemma attempt_settles t idx sq xlen out v out' v' r :
  attempt (logged sv) ep dir maxPacket (fun k => lift (t k)) idx sq xlen out v = (out', v', r) ->
  settles sq out v out' v' r.
Proof using HF.
  unfold attempt. unfold settles. rewrite <-(log_pause (t 0%nat) v). set (v0 := pause _ v).
  cbn [logged sv_prepared]. destruct (sv_prepared sv) as [src|]; cbn [fmap option_fmap option_map];
    [case_if|]; intros Ha; [eapply prepared_settles|eapply report_settles..]; exact Ha.
Qed.

Lemma attempted_retained sq evs sent r :
  attempted sq evs sent None -> r = Some Retained -> attempted sq evs sent r.
Proof. intros [? Hs Hc Hr] ->. split; try done. intros c ok Hin. by destruct (Hc c ok Hin) as [_ []]. Qed.

Lemma attempted_nothing sq r : silent r -> attempted sq [] [] r.
Proof.
  intros Hr. split; try done; [by intros ->|..]; intros *; by intros ?%elem_of_nil.
Qed.

(** *** Unlinked jobs *)

(** The slot [idx] holds the job of command [sq]. *)
Definition holds_job (idx : nat) (sq : Z) (w : endpointWorker) : Prop :=
  (idx < length (slots w))%nat /\ seq_ (job_at w idx) = sq.

(** At [m] another goroutine takes the job away (an unlink, a reset, closing). *)
Definition unlinks (idx : nat) (sq : Z) m : Prop :=
  forall w d, holds_job idx sq w -> job_live (fst (m_others m w d)) idx = false.

(** At [m] nobody reuses the slot or revives its job. *)
Definition undisturbed (idx : nat) (sq : Z) m : Prop :=
  forall w d, holds_job idx sq w -> holds_job idx sq (fst (m_others m w d)) /\
    (job_live w idx = false -> job_live (fst (m_others m w d)) idx = false).

(** The device only has HandleTransfer, during which others run. *)
Definition transfers : Prop :=
  sv_prepared sv = None /\ sv_source sv = None /\ sv_claimer sv = None /\ sv_builder sv = None.

(** The job is gone before an attempt with the moments [t] transfers it: before
    the attempt, when it starts, during HandleTransfer, or while it waits for
    the response stream. *)
Definition unlinked_before (idx : nat) (sq : Z) (w : endpointWorker) (t : nat -> moment D) : Prop :=
  holds_job idx sq w /\ undisturbed idx sq (t 0%nat) /\ undisturbed idx sq (t 1%nat) /\ undisturbed idx sq (t 2%nat) /\
  (job_live w idx = false \/ unlinks idx sq (t 0%nat) \/ (transfers /\ unlinks idx sq (t 1%nat)) \/
   unlinks idx sq (t 2%nat)).

Lemma pause_worker m v : v_worker (pause (lift m) v) = fst (m_others m (v_worker v) (fst (v_device v))).
Proof. unfold pause. cbn. destruct (v_device v) as [d l]. cbn. by destruct (m_others m _ d). Qed.

Lemma handle_transfer_worker m' xlen v v' r :
  handle_transfer (logged sv) ep dir (lift m') xlen v = (v', r) ->
  exists d, v_worker v' = fst (m_others m' (v_worker v) d).
Proof.
  unfold handle_transfer. destruct (sv_transfer _ _ _ _ _) as [d res].
  pose proof (pause_worker m' (set_device d v)) as Hp. set (v1 := pause _ _) in *.
  intros Hr. exists (fst d). cbn in Hp. destruct (m_cancelled (lift m')); [by injection Hr as <- _|].
  destruct res; by injection Hr as <- _.
Qed.

Lemma take_report_worker m m' xlen v v' r :
  take_report (logged sv) ep dir maxPacket (lift m) (lift m') xlen v = (v', r) ->
  v_worker v' = v_worker v \/ exists d, v_worker v' = fst (m_others m' (v_worker v) d).
Proof.
  unfold take_report. cbv zeta.
  match goal with |- match ?o with Some _ => _ | None => _ end = _ -> _ => destruct o as [src|] end.
  { destruct (src_claim _ _ _ _) as [d [c data]]. intros [= <- _]. by left. }
  match goal with |- match ?o with Some _ => _ | None => match ?o' with Some _ => _ | None => _ end end = _ -> _ =>
    destruct o as [claimer|]; [|destruct o' as [build|]] end.
  { destruct (ClaimInputReport _ _ _) as [d [[n token] data]]. intros [= <- _]. by left. }
  { destruct (build _ _) as [d [n data]]. intros [= <- _]. by left. }
  intros Hr. right. by eapply handle_transfer_worker.
Qed.

Lemma take_report_transfers m m' xlen v v' r : transfers ->
  take_report (logged sv) ep dir maxPacket (lift m) (lift m') xlen v = (v', r) ->
  exists d, v_worker v' = fst (m_others m' (v_worker v) d).
Proof.
  intros (E1 & E2 & E3 & E4). unfold take_report. cbn [logged sv_prepared sv_source sv_claimer sv_builder].
  rewrite E1, E2, E3, E4. cbn. apply handle_transfer_worker.
Qed.

(** An attempt whose job is gone when it would be transferred sends nothing. *)
Lemma dead_transfer m idx admission c required v v' ok :
  job_live (v_worker (pause (lift m) v)) idx = false ->
  mark_with_admission (lift m) idx admission c required v = (v', ok) -> ok = false.
Proof.
  intros Hd. unfold mark_with_admission. set (v0 := pause _ v) in *. rewrite Hd, andb_false_r.
  assert (Hm : forall (g : bool) (w : endpointWorker), job_live w idx = false -> snd (markResponseStartedWithAdmission idx required g w) = false).
  { intros g w Hw. unfold markResponseStartedWithAdmission. by rewrite Hw. }
  destruct admission as [ask|]; cbn [set_device v_worker]; specialize (Hm false (v_worker v0) Hd);
    destruct (markResponseStartedWithAdmission _ _ _ _) as [w ok']; by intros [= _ <-].
Qed.

Lemma unlinked_transfer idx sq t v v1 :
  unlinked_before idx sq (v_worker v) t ->
  v_worker v1 = v_worker (pause (lift (t 0%nat)) v) \/
    (exists d, v_worker v1 = fst (m_others (t 1%nat) (v_worker (pause (lift (t 0%nat)) v)) d)) ->
  (transfers -> exists d, v_worker v1 = fst (m_others (t 1%nat) (v_worker (pause (lift (t 0%nat)) v)) d)) ->
  job_live (v_worker (pause (lift (t 2%nat)) v1)) idx = false.
Proof.
  intros (Hh & U0 & U1 & U2 & Hu) Hv1 Ht. rewrite pause_worker in Hv1, Ht.
  set (w0 := fst (m_others (t 0%nat) (v_worker v) (fst (v_device v)))) in *.
  destruct (U0 (v_worker v) (fst (v_device v)) Hh) as [Hh0 Hd0]. fold w0 in Hh0, Hd0.
  assert (Hw1 : holds_job idx sq (v_worker v1) /\ (job_live w0 idx = false -> job_live (v_worker v1) idx = false)).
  { destruct Hv1 as [->|[d ->]]; [done|]. by apply U1. }
  destruct Hw1 as [Hh1 Hd1]. rewrite pause_worker.
  destruct (U2 (v_worker v1) (fst (v_device v1)) Hh1) as [_ Hd2].
  destruct Hu as [Hu|[Hu|[[Hs Hu]|Hu]]]; [by apply Hd2, Hd1, Hd0|by apply Hd2, Hd1, Hu| |by apply Hu].
  apply Hd2. destruct (Ht Hs) as [d ->]. by apply Hu.
Qed.

Lemma attempt_unlinked t idx sq xlen out v out' v' r :
  unlinked_before idx sq (v_worker v) t ->
  attempt (logged sv) ep dir maxPacket (fun k => lift (t k)) idx sq xlen out v = (out', v', r) ->
  out' = out /\ r <> Some Answered.
Proof using HF.
  intros Hu Ha.
  assert (Hrep : forall v0, v0 = pause (lift (t 0%nat)) v ->
    attempt_report (logged sv) ep dir maxPacket (fun k => lift (t k)) idx sq xlen out v0 = (out', v', r) ->
    out' = out /\ r <> Some Answered).
  { intros v0 -> Hr. unfold attempt_report in Hr.
    destruct (take_report _ _ _ _ _ _ _ _) as [v1 res] eqn:Et.
    pose proof (unlinked_transfer _ _ _ _ v1 Hu (take_report_worker _ _ _ _ _ _ Et)
      (fun Hs => take_report_transfers _ _ _ _ _ _ Hs Et)) as Hd. destruct res as [[resp tk]|]; [|by injection Hr as <- _ <-].
    destruct (admission_of tk) as [[adm c] req].
    destruct (writeIfThen _ _ _ _ _ _) as [[[[o1 v2] p1] wr] err] eqn:Ew. apply writeIfThen_spec in Ew.
    destruct (mark_with_admission _ _ _ _ _ v1) as [v3 ok] eqn:Em.
    pose proof (dead_transfer _ _ _ _ _ _ _ _ Hd Em) as ->. destruct Ew as (_ & -> & Hno & _).
    destruct (Hno eq_refl) as (-> & -> & _). injection Hr as <- _ <-. by case_if. }
  unfold attempt in Ha. set (v0 := pause (lift (t 0%nat)) v) in *.
  destruct (sv_prepared (logged sv)) as [src|] eqn:Ep; [case_if_in Ha|]; try (by apply (Hrep v0)).
  assert (Hnt : ~ transfers) by (intros [E _]; cbn in Ep; by rewrite E in Ep).
  unfold attempt_prepared in Ha. cbv zeta in Ha. destruct (prep_select _ _ _ _) as [d1 [c av]].
  destruct av; cbn [negb] in Ha; [|by injection Ha as <- _ <-].
  pose proof (unlinked_transfer _ _ _ _ (set_device d1 v0) Hu (or_introl eq_refl) (fun Hs => False_ind _ (Hnt Hs))) as Hd.
  case_if_in Ha; [by destruct (prep_resolve _ _ _ _ _); injection Ha as <- _ <-|].
  destruct (writeIfThen _ _ _ _ _ _) as [[[[o1 [v2 [adm res]]] p1] wr] err] eqn:Ew. apply writeIfThen_spec in Ew.
  unfold admitPreparedResponse in Ew. rewrite Hd in Ew. cbn [negb orb] in Ew.
  destruct Ew as (_ & -> & Hno & _). destruct (Hno eq_refl) as (-> & -> & _).
  case_if_in Ha; injection Ha as <- _ <-; [done|]. split; [done|]. by case_if.
Qed.

(** C25: an interrupt-IN worker settles every claim it takes.  Whatever other
    goroutines do meanwhile, one service opportunity makes at most two attempts;
    each attempt takes at most one claim, asks for its admission at most once and
    resolves it exactly once.  Only the claim of the last attempt can be
    committed, and only when its report was sent whole in a RET_SUBMIT of the
    job; a refused admission, a job given up or a job kept for later sends no
    byte.  An attempt whose job was unlinked before the attempt, at its start,
    during HandleTransfer or until it takes over the response stream sends no byte
    either, in the first attempt as in the second. *)
Theorem interrupt_in_claims_settled events t idx out v out' v' r :
  processInterruptIn (logged sv) ep dir maxPacket (map lift_event events) (fun k => lift (t k))
    idx out v = (out', v', r) ->
  let waited := fst (waitForPhase (map lift_event events) idx 0 v) in
  let sq := seq_ (job_at (v_worker waited) idx) in
  exists first last sent,
    log v' = log v ++ first ++ last /\ episode first /\ episode last /\
    w_sent out' = w_sent out ++ sent /\
    (forall c ok, EvResolve c OutcomeCommit ok ∉ first) /\ attempted sq last sent r /\
    let '(out1, v1, r1) := attempt (logged sv) ep dir maxPacket (fun k => lift (t k)) idx sq
      (xferLen (job_at (v_worker waited) idx)) out waited in
    (unlinked_before idx sq (v_worker waited) t -> out1 = out) /\
    (unlinked_before idx sq (v_worker waited) t -> r1 <> None -> out' = out) /\
    (r1 = None -> unlinked_before idx sq (v_worker v1) (fun k => t (5 + k)%nat) -> w_sent out' = w_sent out).
Proof using HF.
  unfold processInterruptIn. cbv zeta. pose proof (log_wait events idx 0 v) as Hw.
  destruct (waitForPhase _ idx 0 v) as [v0 ph]. cbn [fst] in *. rewrite <-Hw.
  set (sq := seq_ (job_at (v_worker v0) idx)).
  destruct (attempt _ _ _ _ _ _ _ _ out v0) as [[o1 v1] r1] eqn:E1.
  pose proof (fun Hu => proj1 (attempt_unlinked _ _ _ _ _ _ _ _ _ Hu E1)) as Hu1.
  assert (Hidle : silent r -> (out, v0) = (out', v') -> exists first last sent,
    log v' = log v0 ++ first ++ last /\ episode first /\ episode last /\
    w_sent out' = w_sent out ++ sent /\ (forall c ok, EvResolve c OutcomeCommit ok ∉ first) /\
    attempted sq last sent r /\ (unlinked_before idx sq (v_worker v0) t -> o1 = out) /\
    (unlinked_before idx sq (v_worker v0) t -> r1 <> None -> out' = out) /\
    (r1 = None -> unlinked_before idx sq (v_worker v1) (fun k => t (5 + k)%nat) -> w_sent out' = w_sent out)).
  { intros Hs [= <- <-]. exists [], [], []. rewrite !app_nil_r.
    split_and!; try constructor; try done; try (by apply attempted_nothing).
    intros c ok; apply not_elem_of_nil. }
  destruct ph as [[]|]; [|intros [= <- <- <-]; by apply Hidle..].
  apply attempt_settles in E1 as (ev1 & s1 & Hl1 & He1 & Hs1 & Ha1). destruct r1 as [r1|].
  - intros [= <- <- <-]. exists [], ev1, s1. split_and!; try done; [constructor| |].
    + intros c ok; apply not_elem_of_nil.
    + intros Hu _. by apply Hu1.
  - rewrite (a_silent _ _ _ _ Ha1 I), app_nil_r in Hs1.
    assert (Hno : forall c ok, EvResolve c OutcomeCommit ok ∉ ev1).
    { intros c ok [_ []]%(a_commit _ _ _ _ Ha1); done. }
    destruct (attempt _ _ _ _ _ _ _ _ o1 v1) as [[o2 v2] r2] eqn:E2.
    pose proof (fun Hu => proj1 (attempt_unlinked (fun k => t (5 + k)%nat) _ _ _ _ _ _ _ _ Hu E2)) as Hu2.
    apply (attempt_settles (fun k => t (5 + k)%nat)) in E2 as (ev2 & s2 & Hl2 & He2 & Hs2 & Ha2).
    rewrite Hl1, <-app_assoc in Hl2. rewrite Hs1 in Hs2.
    assert (Hq : unlinked_before idx sq (v_worker v1) (fun k => t (5 + k)%nat) -> w_sent o2 = w_sent out)
      by (intros Hu; by rewrite (Hu2 Hu)).
    destruct r2; intros [= <- <- <-]; exists ev1, ev2, s2; split_and!; try done.
    by apply attempted_retained.
Qed.
End Attempts.

(** *** A concrete opportunity *)

Definition demo_claim : Claim :=
  {| Token := 5; Generation := 1; Size := 2; ReceivedAt := 10; SelectedAt := 20; Ordered := true |}.

(** The device counts commits; its reports are admitted before time 9000000. *)
Definition demo_source : Source nat := {|
  src_owns := fun _ ep => ep =? 1;
  src_claim := fun d _ _ => (d, (demo_claim, [7; 8; 0]));
  src_resolve := fun d _ o _ => (if o =? OutcomeCommit then S d else d, true);
  src_can_admit := Some (fun d _ now => (d, now <? 9000000)) |}.

Definition demo_service_device : ServiceDevice nat := {|
  sv_prepared := None; sv_source := Some demo_source; sv_claimer := None; sv_builder := None;
  sv_transfer := fun d _ _ _ => (d, None); sv_microphone := None; sv_iso_out := None |}.

Definition demo_moment (now : Z) : moment nat :=
  {| m_now := now; m_others := pair; m_cancelled := false; m_expired := false |}.

Definition demo_service : service (nat * list input_event) :=
  {| v_worker := ws demo_claimed; v_device := (0%nat, []); v_lastResponse := [] |}.

(** The first admission is refused, the second granted. *)
Definition demo_times (k : nat) : moment nat :=
  demo_moment (if (k =? 2)%nat then 9000000 else 8000000).

Definition demo_events : list (wait_event nat) :=
  [WaitDeadline (demo_moment 1500) (demo_moment 8000000)].

Definition demo_served := processInterruptIn (logged demo_service_device) 1 DirIn 64
  (map lift_event demo_events) (fun k => lift (demo_times k)) 0 ([] : list Z) demo_service.

Lemma demo_served_answered :
  processInterruptIn (logged demo_service_device) 1 DirIn 64 (map lift_event demo_events)
    (fun k => lift (demo_times k)) 0 ([] : list Z) demo_service =
    (fst (fst demo_served), snd (fst demo_served), Some Answered).
Proof. vm_compute. reflexivity. Qed.

Lemma interrupt_in_claims_settled_witness :
  log (snd (fst demo_served)) =
    [EvClaim demo_claim [7; 8; 0]; EvAdmit demo_claim false; EvResolve demo_claim OutcomeDefer true;
     EvClaim demo_claim [7; 8; 0]; EvAdmit demo_claim true; EvResolve demo_claim OutcomeCommit true] /\
  exists first last sent, log (snd (fst demo_served)) = log demo_service ++ first ++ last /\
    episode first /\ episode last /\
    attempted (seq_ (job_at (v_worker (fst (waitForPhase (map lift_event demo_events) 0 0
      demo_service))) 0)) last sent (Some Answered).
Proof.
  split; [vm_compute; reflexivity|].
  destruct (interrupt_in_claims_settled (HF := buffer_flusher_laws) demo_service_device 1 DirIn 64
    demo_events demo_times 0 [] demo_service _ _ _ demo_served_answered)
    as (first & last & sent & H1 & H2 & H3 & _ & _ & H4 & _).
  exists first, last, sent. split_and!; [exact H1|exact H2|exact H3|exact H4].
Defined.

(** The command reader unlinks the job just before the transfer: nothing is
    sent, and the claim is deferred. *)
Definition demo_cancel (idx : nat) (w : endpointWorker) : endpointWorker :=
  let j := job_at w idx in set_slot idx (set_flags true (responseStarted j) (sideEffectStarted j) j) w.
Definition demo_unlink (k : nat) : moment nat :=
  {| m_now := 8000000; m_others := fun w d => (if (k =? 2)%nat then demo_cancel 0 w else w, d);
     m_cancelled := false; m_expired := false |}.

Definition demo_unlinked := processInterruptIn (logged demo_service_device) 1 DirIn 64
  (map lift_event demo_events) (fun k => lift (demo_unlink k)) 0 ([] : list Z) demo_service.

Example unlinked_job_silent :
  fst (fst demo_unlinked) = [] /\ snd demo_unlinked = Some GaveUp /\
  log (snd (fst demo_unlinked)) = [EvClaim demo_claim [7; 8; 0]; EvResolve demo_claim OutcomeDefer true] /\
  forall sq w, holds_job 0 sq w -> unlinked_before demo_service_device 0 sq w demo_unlink.
Proof.
  split; [vm_compute; reflexivity|]. split; [vm_compute; reflexivity|]. split; [vm_compute; reflexivity|].
  intros sq w Hw. assert (Hc : forall w, holds_job 0 sq w ->
    holds_job 0 sq (demo_cancel 0 w) /\ job_live (demo_cancel 0 w) 0 = false).
  { intros w' [Hl Hs]. unfold demo_cancel, holds_job, job_live. rewrite job_at_set_slot by done.
    rewrite bool_decide_true by done. cbn [slots set_slot]. rewrite length_insert. cbn.
    by rewrite andb_false_r. }
  split; [done|]. split; [done|]. split; [done|]. split; [|do 3 right]; intros w' d Hh; cbn.
  - destruct (Hc w' Hh). auto.
  - by apply Hc.
Qed.

(** ** Isochronous IN data *)

(** What every change to the worker must leave alone: the descriptors of a job
    in service.  Other goroutines only unlink it or close the worker. *)
Definition keeps {D : Type} (idx : nat) (m : moment D) : Prop :=
  forall w d, packets (job_at (fst (m_others m w d)) idx) = packets (job_at w idx).

Definition keeps_event {D : Type} (idx : nat) (e : wait_event D) : Prop :=
  match e with
  | WaitCancelled m | WaitWake m => keeps idx m
  | WaitDeadline m woke => keeps idx m /\ keeps idx woke
  end.

Lemma field_set_slot {A} (f : endpointJob -> A) idx j w k :
  f j = f (job_at w idx) -> f (job_at (set_slot idx j w) k) = f (job_at w k).
Proof.
  intros Hf. destruct (decide (idx < length (slots w))%nat) as [Hi|Hi].
  - rewrite job_at_set_slot by done. case_bool_decide; by subst.
  - unfold job_at, set_slot. cbn. by rewrite list_insert_ge by lia.
Qed.

Lemma reflow_packets p a now w k :
  packets (job_at (reflowQueueFromPositionLocked p a now w) k) = packets (job_at w k).
Proof.
  unfold reflowQueueFromPositionLocked.
  match goal with |- context [if ?c then now else a] => generalize (if c then now else a) end.
  intros anchor.
  assert (Hl : forall (n i : nat) (b : Z) (w : endpointWorker),
    packets (job_at (fst (reflow_loop n i b w)) k) = packets (job_at w k)).
  { clear. induction n as [|n IH]; intros i b w; [done|]. cbn [reflow_loop]. rewrite IH.
    by apply field_set_slot. }
  specialize (Hl (orderCount w - p)%nat p anchor w).
  by destruct (reflow_loop _ _ _ _) as [w1 a1].
Qed.

Lemma phase_packets idx phase now w w' r k :
  phaseDeadline idx phase now w = (w', r) -> packets (job_at w' k) = packets (job_at w k).
Proof.
  unfold phaseDeadline. cbv zeta. repeat case_if; intros [<- <-]%pair_equal_spec; try done.
  etransitivity; [apply reflow_packets|]. by apply field_set_slot.
Qed.

Section IsoIn.
Context {W : Type} `{WriterLaws W, !Flusher W} {HF : FlusherLaws W} {D : Type}
  (sv : ServiceDevice D) (ep dir : Z).
Implicit Types (v : service D) (out : W) (media lengths : list Z).

Lemma pause_packets m v idx :
  keeps idx m -> packets (job_at (v_worker (pause m v)) idx) = packets (job_at (v_worker v) idx).
Proof.
  intros Hk. unfold pause. specialize (Hk (v_worker v) (v_device v)).
  by destruct (m_others m _ _).
Qed.

Lemma wait_packets events idx phase v v' r :
  Forall (keeps_event idx) events -> waitForPhase events idx phase v = (v', r) ->
  packets (job_at (v_worker v') idx) = packets (job_at (v_worker v) idx).
Proof.
  intros Hk. revert v. induction Hk as [|e events He _ IH]; intros v; [by intros [= <- <-]|].
  cbn [waitForPhase].
  assert (Hphase : forall m, keeps idx m -> forall w dl,
    phaseDeadline idx phase (m_now m) (v_worker (pause m v)) = (w, dl) ->
    packets (job_at w idx) = packets (job_at (v_worker v) idx)).
  { intros m Hm w dl Hp. rewrite (phase_packets _ _ _ _ _ _ idx Hp). by apply pause_packets. }
  destruct e as [m|m|m woke]; cbn [keeps_event] in He; [..|destruct He as [He Hwoke]];
    destruct (phaseDeadline idx phase (m_now m) _) as [w dl] eqn:Ep; apply (Hphase m He) in Ep;
    destruct dl as [dl|]; try (by intros [= <- <-]); try (intros Hr; by rewrite (IH _ Hr)).
  destruct (phaseDeadline idx phase (m_now woke) _) as [w' dl'] eqn:Ep'.
  apply (phase_packets _ _ _ _ _ _ idx) in Ep'. rewrite (pause_packets _ _ _ Hwoke) in Ep'.
  cbn in Ep'. rewrite Ep in Ep'.
  destruct dl' as [dl'|]; [case_if|]; try (by intros [= <- <-]). intros Hr. by rewrite (IH _ Hr).
Qed.

Lemma read_packet_keeps m m' n v v' data idx :
  keeps idx m -> keeps idx m' -> read_packet sv ep dir m m' n v = (v', Some data) ->
  packets (job_at (v_worker v') idx) = packets (job_at (v_worker v) idx) /\ (length data <= n)%nat.
Proof.
  intros Hm Hm'. unfold read_packet. rewrite <-(pause_packets m v idx Hm).
  set (v0 := pause m v). destruct (sv_microphone sv) as [read|].
  - destruct (read _ n) as [d [[k ok] data0]]. intros [= <- <-]. split; [done|].
    destruct ok; [rewrite length_take; lia|]. unfold zeros; rewrite length_replicate; case_match; lia.
  - destruct (sv_transfer sv _ _ _ _) as [d r]. set (v1 := set_device d v0).
    pose proof (pause_packets m' v1 idx Hm') as Hp.
    destruct (m_cancelled m'); [done|]. intros [= <- <-]. split; [exact Hp|].
    destruct (default [] r); [unfold zeros; by rewrite length_replicate|rewrite length_take; lia].
Qed.

(** The samples collected for the first [i] packets [ps]. *)
Record iso_acc (ps : list IsoPacketDescriptor) (xlen : Z) (i : nat) media lengths : Prop := {
  ia_sum : Z.of_nat (length media) = foldr Z.add 0 lengths;
  ia_room : Z.of_nat (length media) <= Z.max 0 xlen;
  ia_fits : Forall2 (fun p l => 0 <= l <= Z.max 0 (iso_Length p)) ps lengths;
  ia_rest : forall k, (i <= k < length ps)%nat -> lengths !! k = Some 0;
}.

Lemma sum_insert (l : list Z) (i : nat) (x : Z) :
  l !! i = Some 0 -> foldr Z.add 0 (<[i := x]> l) = foldr Z.add 0 l + x.
Proof.
  revert i. induction l as [|y l IH]; intros [|i] Hi; simplify_eq/=; [lia|]. rewrite IH by done. lia.
Qed.

Lemma iso_in_loop_acc waits t idx xlen ps n i media lengths v v' media' lengths' :
  (forall k, Forall (keeps_event idx) (waits k)) -> (forall k, keeps idx (t k)) ->
  packets (job_at (v_worker v) idx) = ps -> (i + n = length ps)%nat ->
  iso_acc ps xlen i media lengths ->
  iso_in_loop sv ep dir waits t idx n i xlen media lengths v = (v', Some (Some (media', lengths'))) ->
  packets (job_at (v_worker v') idx) = ps /\ exists j, iso_acc ps xlen j media' lengths'.
Proof.
  intros Hw Ht. revert i media lengths v.
  induction n as [|n IH]; intros i media lengths v Hps Hn Hacc; cbn [iso_in_loop].
  { intros [= <- <- <-]. eauto. }
  destruct (waitForPhase _ _ _ _) as [v0 [[]|]] eqn:Ew; [|done..].
  apply (wait_packets _ _ _ _ _ _ (Hw i)) in Ew. rewrite Hps in Ew. rewrite Ew.
  destruct (lookup_lt_is_Some_2 ps i) as [p Hp]; [lia|].
  rewrite (nth_lookup_Some _ _ _ _ Hp).
  assert (Hnext : iso_acc ps xlen (S i) media lengths).
  { destruct Hacc as [? ? ? Hr]. split; try done. intros k Hk. apply Hr. lia. }
  case_if; [by apply IH; [|lia|]|]. case_if; [intros [= <- <- <-]; eauto|].
  destruct (read_packet _ _ _ _ _ _ _) as [v1 [data|]] eqn:Er; [|done].
  eapply read_packet_keeps in Er as [Hps1 Hlen]; [|apply Ht..]. rewrite Ew in Hps1.
  apply IH; [done|lia|]. destruct Hacc as [Hs Hm Hf Hr]. bool_split. split.
  - rewrite length_app, sum_insert by (apply Hr; lia). lia.
  - rewrite length_app. lia.
  - rewrite <-(list_insert_id ps i p Hp). apply Forall2_insert; [done|]. lia.
  - intros k Hk. rewrite list_lookup_insert_ne by lia. apply Hr. lia.
Qed.

Lemma send_spec m idx packet out v out' v' r :
  send m idx packet out v = (out', v', r) ->
  match r with
  | Some Answered => w_sent out' = w_sent out ++ packet
  | Some (Failed (ErrDelivery _)) => exists p, w_sent out' = w_sent out ++ p /\ p `prefix_of` packet
  | Some GaveUp => out' = out
  | _ => False
  end.
Proof using HF.
  unfold send, writeIf. destruct (writeIfThen _ _ _ _ _ _) as [[[[o1 v1] p1] wr] err] eqn:Ew.
  apply writeIfThen_spec in Ew. intros [= <- <- <-].
  unfold markResponseStarted in Ew. destruct (mark_with_admission _ _ _ _ _ v) as [v0 go].
  destruct Ew as (-> & -> & Hno & Hgo). destruct go.
  - destruct (Hgo eq_refl) as [_ Hs]. by destruct err.
  - by destruct (Hno eq_refl) as (-> & -> & _).
Qed.

(** The descriptors a completed job returns for the samples [lengths]. *)
Lemma iso_in_packets_spec ps lengths xlen j media :
  Forall (fun p => 0 <= iso_Length p) ps -> iso_acc ps xlen j media lengths ->
  map iso_Offset (iso_in_packets ps lengths) = map iso_Offset ps /\
  map iso_Length (iso_in_packets ps lengths) = map iso_Length ps /\
  map iso_ActualLength (iso_in_packets ps lengths) = lengths /\
  Forall (fun p => 0 <= iso_ActualLength p <= iso_Length p /\ iso_Status p = 0)
    (iso_in_packets ps lengths).
Proof.
  intros Hpos [_ _ Hf _]. induction Hf as [|p l ps lengths Hl _ IH]; [by split_and!|].
  apply list.Forall_cons in Hpos as [Hp Hpos]. destruct (IH Hpos) as (H1 & H2 & H3 & H4). cbn.
  rewrite H1, H2, H3, (Z.min_r _ l) by lia. split_and!; [done..|].
  constructor; [cbn; lia|done].
Qed.

(** An isochronous IN response is consistent.  When the job is answered,
    the stream received one RET_SUBMIT of the job whose descriptors keep the
    offsets and lengths the host asked for; each actual length is within its
    packet's length, the actual lengths add up to exactly the data that follows
    the header, and the data fits the transfer buffer.  A job given up sends
    nothing. *)
Theorem iso_in_response_consistent waits t idx out v out' v' r :
  (forall k, Forall (keeps_event idx) (waits k)) -> (forall k, keeps idx (t k)) ->
  let job := job_at (v_worker v) idx in
  Forall (fun p => 0 <= iso_Length p) (packets job) ->
  processIsoIn sv ep dir waits t idx out v = (out', v', r) ->
  (r = Some GaveUp \/ r = None -> out' = out) /\
  (r = Some Answered -> exists media ps,
     w_sent out' = w_sent out ++
       buildRetSubmitPacket (seq_ job) 0 (u32 (Z.of_nat (length media))) media ps true /\
     map iso_Offset ps = map iso_Offset (packets job) /\
     map iso_Length ps = map iso_Length (packets job) /\
     Forall (fun p => 0 <= iso_ActualLength p <= iso_Length p /\ iso_Status p = 0) ps /\
     foldr Z.add 0 (map iso_ActualLength ps) = Z.of_nat (length media) /\
     Z.of_nat (length media) <= Z.max 0 (xferLen job)).
Proof using HF.
  intros Hw Ht job Hpos. unfold processIsoIn. fold job.
  destruct (iso_in_loop _ _ _ _ _ _ _ _ _ _ _ v) as [v1 [[[media lengths]|]|]] eqn:El;
    [|intros [= <- <- <-]; by split..].
  eapply (iso_in_loop_acc waits t idx (xferLen job) (packets job)) in El as (Hps & j & Hacc);
    [|done..|].
  2:{ split; [|cbn; lia| |].
      - clear. generalize (length (packets job)) as n. induction n as [|n IH]; [done|]. cbn in *. lia.
      - clear. induction (packets job); cbn; [by constructor|]. constructor; [lia|done].
      - intros k Hk. rewrite lookup_replicate. split; [done|lia]. }
  destruct (waitForPhase _ idx _ v1) as [v2 [[]|]] eqn:Ew; [|intros [= <- <- <-]; by split..].
  apply (wait_packets _ _ _ _ _ _ (Hw _)) in Ew. rewrite Hps in Ew. rewrite Ew.
  intros Hs%send_spec.
  destruct (iso_in_packets_spec _ _ _ _ _ Hpos Hacc) as (H1 & H2 & H3 & H4).
  split; [by intros [->| ->]|]. intros ->. eexists media, _. split; [exact Hs|].
  rewrite H3. destruct Hacc. by split_and!.
Qed.
End IsoIn.

(** *** A concrete transfer: two packets, the second read partly *)

Definition demo_mic : ServiceDevice nat := {|
  sv_prepared := None; sv_source := None; sv_claimer := None; sv_builder := None;
  sv_transfer := fun d _ _ _ => (d, None);
  sv_microphone := Some (fun d n =>
    (S d, (match d with O => 2 | _ => 1 end, true, replicate n (Z.of_nat d + 1))));
  sv_iso_out := None |}.

Definition demo_iso_packets : list IsoPacketDescriptor :=
  [{| iso_Offset := 0; iso_Length := 2; iso_ActualLength := 0; iso_Status := 0 |};
   {| iso_Offset := 2; iso_Length := 2; iso_ActualLength := 0; iso_Status := 0 |}].

Definition demo_iso_worker : endpointWorker :=
  fst (claimNext (fst (enqueueWithGeneration 9 4 [] demo_iso_packets 1000 0
    (newEndpointWorker isoInWorker 1000000)))).

Definition demo_iso_service : service nat :=
  {| v_worker := demo_iso_worker; v_device := 0%nat; v_lastResponse := [] |}.

Definition demo_iso_waits (k : nat) : list (wait_event nat) :=
  [WaitDeadline (demo_moment 1000) (demo_moment (4000000 + 1000000 * Z.of_nat k))].

Definition demo_iso_run := processIsoIn demo_mic 2 DirIn demo_iso_waits (fun _ => demo_moment 1) 0
  ([] : list Z) demo_iso_service.

Lemma demo_iso_answered :
  processIsoIn demo_mic 2 DirIn demo_iso_waits (fun _ => demo_moment 1) 0 ([] : list Z)
    demo_iso_service = (fst (fst demo_iso_run), snd (fst demo_iso_run), Some Answered).
Proof. vm_compute. reflexivity. Qed.

Lemma iso_in_response_consistent_witness :
  drop 48 (fst (fst demo_iso_run)) = [1; 1; 2] ++ concat (map wire_bytes
    [{| iso_Offset := 0; iso_Length := 2; iso_ActualLength := 2; iso_Status := 0 |};
     {| iso_Offset := 2; iso_Length := 2; iso_ActualLength := 1; iso_Status := 0 |}]) /\
  exists media ps, w_sent (fst (fst demo_iso_run)) = w_sent ([] : list Z) ++
    buildRetSubmitPacket (seq_ (job_at (v_worker demo_iso_service) 0)) 0 (u32 (Z.of_nat (length media))) media ps true /\
    foldr Z.add 0 (map iso_ActualLength ps) = Z.of_nat (length media).
Proof.
  split; [vm_compute; reflexivity|].
  assert (Hk : forall k, Forall (keeps_event 0) (demo_iso_waits k)) by (intros k; by repeat constructor).
  assert (Ht : forall k : nat, keeps 0 ((fun _ => demo_moment 1) k)) by done.
  assert (Hp : Forall (fun p => 0 <= iso_Length p) (packets (job_at (v_worker demo_iso_service) 0)))
    by (vm_compute; repeat constructor; done).
  destruct (iso_in_response_consistent (HF := buffer_flusher_laws) demo_mic 2 DirIn demo_iso_waits
    (fun _ => demo_moment 1) 0 [] demo_iso_service _ _ _ Hk Ht Hp demo_iso_answered) as [_ H].
  destruct (H eq_refl) as (media & ps & H1 & _ & _ & _ & H2 & _).
  exists media, ps. split; [exact H1|exact H2].
Defined.
