(* ===== verification/RetainedUsb.v ===== *)
(** * The retained submission contract (src/internal/retainedusb)

    Values the retained scheduler and a device owner exchange: lanes, routes,
    limits, staged requests, tickets, preparations, leases.  Every struct is
    comparable in Go, so each has a decidable equality here. *)

From S2P Require Import Prelude Bytes.

(** ** Lanes and routes *)

Definition MaximumQueueDepth : Z := 64.
Definition MaximumBufferedRequestBytes : Z := 16 * 1024 * 1024.

Definition LaneControl : Z := 1.
Definition LaneInterruptIn : Z := 2.
Definition LaneInterruptOut : Z := 3.

Definition Lane_Valid (lane : Z) : bool := (LaneControl <=? lane) && (lane <? 4).

Definition Lane_Index (lane : Z) : option nat :=
  if Lane_Valid lane then Some (Z.to_nat (lane - LaneControl)) else None.

Definition DirectionOut : Z := 1.
Definition DirectionIn : Z := 2.
Definition Direction_Valid (d : Z) : bool := (d =? DirectionOut) || (d =? DirectionIn).

Record Route := {
  InterfaceNumber : Z;
  AlternateSetting : Z;
  rt_EndpointAddress : Z;
}.
#[export] Instance Route_eq_dec : EqDecision Route.
Proof. solve_decision. Defined.

Definition Route_zero : Route :=
  {| InterfaceNumber := 0; AlternateSetting := 0; rt_EndpointAddress := 0 |}.

Definition ValidInterruptIn (r : Route) : bool :=
  negb (Z.land (rt_EndpointAddress r) 0x80 =? 0) && negb (Z.land (rt_EndpointAddress r) 0x0f =? 0) &&
  (Z.land (rt_EndpointAddress r) 0x70 =? 0).

Definition ValidInterruptOut (r : Route) : bool :=
  (Z.land (rt_EndpointAddress r) 0x80 =? 0) && negb (Z.land (rt_EndpointAddress r) 0x0f =? 0) &&
  (Z.land (rt_EndpointAddress r) 0x70 =? 0).

(** ** Limits *)

(** [QueueDepth] by lane index. *)
Record Limits := {
  QueueDepth : list Z;
  BufferedRequestBytes : Z;
  MaximumControlOut : Z;
  MaximumControlResponse : Z;
  MaximumInterruptIn : Z;
  MaximumInterruptOut : Z;
  InterruptInRoute : Route;
  InterruptOutRoute : Route;
}.

Definition depth_of (l : Limits) (lane : nat) : Z := nth lane (QueueDepth l) 0.

Definition Limits_Valid (l : Limits) : bool :=
  if existsb (fun depth => (depth =? 0) || (MaximumQueueDepth <? depth)) (QueueDepth l) then false
  else if (MaximumBufferedRequestBytes <? BufferedRequestBytes l) ||
     (MaximumBufferedRequestBytes <? MaximumControlOut l) ||
     (MaximumBufferedRequestBytes <? MaximumControlResponse l) ||
     (MaximumInterruptIn l =? 0) || (MaximumBufferedRequestBytes <? MaximumInterruptIn l) ||
     (MaximumInterruptOut l =? 0) || (MaximumBufferedRequestBytes <? MaximumInterruptOut l) ||
     negb (ValidInterruptIn (InterruptInRoute l)) || negb (ValidInterruptOut (InterruptOutRoute l))
  then false
  else
    let required := depth_of l 0 * MaximumControlOut l + depth_of l 2 * MaximumInterruptOut l in
    required <=? BufferedRequestBytes l.

(** The types of the fields: three depths and unsigned integers. *)
Record Limits_wf (l : Limits) : Prop := {
  lw_depths : length (QueueDepth l) = 3%nat;
  lw_depth : Forall (fun d => U8 d) (QueueDepth l);
  lw_buffered : U32 (BufferedRequestBytes l);
  lw_controlOut : U32 (MaximumControlOut l);
  lw_controlResponse : U32 (MaximumControlResponse l);
  lw_in : U32 (MaximumInterruptIn l);
  lw_out : U32 (MaximumInterruptOut l);
}.

(** ** Requests, tickets and preparations *)

Record Request := {
  rq_Lane : Z;
  rq_Direction : Z;
  rq_SessionGeneration : Z;
  rq_BindingGeneration : Z;
  rq_IngressOrdinal : Z;
  rq_Sequence : Z;
  rq_TransferLength : Z;
  rq_Setup : list Z;
  rq_Route : Route;
  rq_Data : list Z;
}.

Record Ticket := {
  tk_OwnerID : Z;
  tk_Token : Z;
  tk_Generation : Z;
  tk_SessionGeneration : Z;
  tk_Lane : Z;
}.
#[export] Instance Ticket_eq_dec : EqDecision Ticket.
Proof. solve_decision. Defined.

Definition Ticket_zero : Ticket :=
  {| tk_OwnerID := 0; tk_Token := 0; tk_Generation := 0; tk_SessionGeneration := 0; tk_Lane := 0 |}.

Definition Ticket_Valid (t : Ticket) : bool :=
  negb (tk_OwnerID t =? 0) && negb (tk_Token t =? 0) && negb (tk_Generation t =? 0) &&
  negb (tk_SessionGeneration t =? 0) && Lane_Valid (tk_Lane t).

Definition ResultPending : Z := 0.
Definition ResultData : Z := 1.
Definition ResultSuccess : Z := 2.
Definition ResultStall : Z := 3.
Definition Result_Valid (r : Z) : bool := r <=? ResultStall.

Record Preparation := {
  pr_Result : Z;
  pr_ActualLength : Z;
  pr_RetryAt : Z;
  pr_ReadinessEpoch : Z;
}.

Definition RetireUnlink : Z := 1.
Definition RetireEndpointReset : Z := 2.
Definition RetireInterfaceReset : Z := 3.
Definition RetireConfigurationChange : Z := 4.
Definition RetireDeviceReset : Z := 5.
Definition RetireConnectionClose : Z := 6.
Definition RetirePrepareFailure : Z := 7.
Definition RetireInvariantFailure : Z := 8.
Definition RetireOwnerRequested : Z := 9.
Definition RetireReason_Valid (r : Z) : bool := (RetireUnlink <=? r) && (r <=? RetireOwnerRequested).

(** ** Leases *)

Record ImportLease := {
  il_AuthorityID : Z;
  il_DeviceID : Z;
  il_OwnerID : Z;
  il_ImportToken : Z;
  il_SessionGeneration : Z;
}.
#[export] Instance ImportLease_eq_dec : EqDecision ImportLease.
Proof. solve_decision. Defined.

Definition ImportLease_Valid (l : ImportLease) : bool :=
  negb (il_AuthorityID l =? 0) && negb (il_DeviceID l =? 0) && negb (il_OwnerID l =? 0) &&
  negb (il_ImportToken l =? 0) && negb (il_SessionGeneration l =? 0).

Record ImportResetLease := {
  rl_ImportLease : ImportLease;
  rl_ResetToken : Z;
  rl_ResetGeneration : Z;
}.
#[export] Instance ImportResetLease_eq_dec : EqDecision ImportResetLease.
Proof. solve_decision. Defined.

Definition ImportResetLease_Valid (l : ImportResetLease) : bool :=
  ImportLease_Valid (rl_ImportLease l) && negb (rl_ResetToken l =? 0) &&
  negb (rl_ResetGeneration l =? 0).

Definition ImportRetirementInputHistoryOverflow : Z := 1.

Record ImportRetirementRequest := {
  ir_Lease : ImportLease;
  ir_Reason : Z;
}.
#[export] Instance ImportRetirementRequest_eq_dec : EqDecision ImportRetirementRequest.
Proof. solve_decision. Defined.

Definition ImportRetirementRequest_Valid (r : ImportRetirementRequest) : bool :=
  ImportLease_Valid (ir_Lease r) && (ir_Reason r =? ImportRetirementInputHistoryOverflow).

(** ** What valid limits give *)

Lemma Lane_Valid_cases lane :
  Lane_Valid lane = true -> lane = LaneControl \/ lane = LaneInterruptIn \/ lane = LaneInterruptOut.
Proof. unfold Lane_Valid, LaneControl, LaneInterruptIn, LaneInterruptOut. bdec. lia. Qed.

Lemma Limits_Valid_depths l i d :
  Limits_wf l -> Limits_Valid l = true -> QueueDepth l !! i = Some d -> 1 <= d <= 64.
Proof.
  intros [_ Hd _ _ _ _ _] Hv Hi. unfold Limits_Valid in Hv.
  destruct (existsb _ (QueueDepth l)) eqn:Ee; [done|].
  assert (Hb : 0 <= d < 256) by (eapply (proj1 (list.Forall_forall _ _) Hd), list_elem_of_lookup_2, Hi).
  assert (Hn : (d =? 0) || (MaximumQueueDepth <? d) = false).
  { apply not_true_is_false. intros Ht. apply not_true_iff_false in Ee. apply Ee, existsb_exists.
    exists d. split; [|done]. apply list_elem_of_In. eapply list_elem_of_lookup_2, Hi. }
  unfold MaximumQueueDepth in Hn. bool_prop. bdec. lia.
Qed.
