(* ===== verification/RetainedTopology.v ===== *)
(** * The descriptor of a retained device
      (src/internal/server/usb/retained_import_transport.go, server.go,
      config.go and retained_submission_cadence.go)

    A retained device has one interface with one interrupt endpoint in each
    direction.  The import checks the descriptor against the owner's limits and
    derives the service interval of each lane from it. *)

From S2P Require Import Prelude Bytes UsbIp Hid Descriptor Urb RetainedUsb.

Definition validRetainedControlEndpointForSpeed (d : DeviceDescriptor) : bool :=
  if Speed d =? 1 then BMaxPacketSize0 d =? 8
  else if Speed d =? 2 then
    (BMaxPacketSize0 d =? 8) || (BMaxPacketSize0 d =? 16) || (BMaxPacketSize0 d =? 32) ||
    (BMaxPacketSize0 d =? 64)
  else if Speed d =? 3 then BMaxPacketSize0 d =? 64
  else false.

Definition validRetainedInterruptEndpointForSpeed (d : DeviceDescriptor) (e : EndpointDescriptor) :
    bool :=
  if (WMaxPacketSize e =? 0) || negb (Z.land (WMaxPacketSize e) 0xf800 =? 0) || (BInterval e =? 0)
  then false
  else if Speed d =? 1 then WMaxPacketSize e <=? 8
  else if Speed d =? 2 then WMaxPacketSize e <=? 64
  else if Speed d =? 3 then (WMaxPacketSize e <=? 1024) && (BInterval e <=? 16)
  else false.

(** The endpoint loop: the number of matches, or an invalid one. *)
Fixpoint route_endpoints (d : DeviceDescriptor) (address maximum : Z) (es : list EndpointDescriptor)
    (matches : nat) : option nat :=
  match es with
  | [] => Some matches
  | e :: es =>
      if negb (BEndpointAddress e =? address) then route_endpoints d address maximum es matches
      else if negb (ep_BMAttributes e =? 0x03) || negb (validRetainedInterruptEndpointForSpeed d e) ||
              negb (u32 (WMaxPacketSize e) =? maximum) || (BInterval e =? 0)
      then None
      else route_endpoints d address maximum es (S matches)
  end.

(** The interface loop, with the matching interfaces and endpoints so far. *)
Fixpoint route_interfaces (d : DeviceDescriptor) (r : Route) (maximum : Z)
    (ifs : list InterfaceConfig) (interfaceMatches matches : nat) : option nat :=
  match ifs with
  | [] => Some matches
  | i :: ifs =>
      if negb (BInterfaceNumber (if_Descriptor i) =? InterfaceNumber r) ||
         negb (BAlternateSetting (if_Descriptor i) =? AlternateSetting r)
      then route_interfaces d r maximum ifs interfaceMatches matches
      else if negb (S interfaceMatches =? 1)%nat ||
              negb (BNumEndpoints (if_Descriptor i) =? Z.of_nat (length (if_Endpoints i)))
      then None
      else match route_endpoints d (rt_EndpointAddress r) maximum (if_Endpoints i) matches with
           | None => None
           | Some matches => route_interfaces d r maximum ifs (S interfaceMatches) matches
           end
  end.

Definition validateRetainedInterruptRoute (desc : Descriptor) (r : Route) (maximum : Z) : bool :=
  match route_interfaces (d_Device desc) r maximum (d_Interfaces desc) 0 0 with
  | Some matches => (matches =? 1)%nat
  | None => false
  end.

Definition plain_endpoint (e : EndpointDescriptor) : bool :=
  match ep_Trailing e, ep_ClassDescriptors e with [], [] => true | _, _ => false end.

(** [true] is a nil error; every failure is errRetainedImportInvalid. *)
Definition validateRetainedImportDescriptor (desc : Descriptor) (l : Limits) : bool :=
  if negb (Limits_Valid l) then false
  else if negb (validRetainedControlEndpointForSpeed (d_Device desc)) then false
  else if negb (BNumConfigurations (d_Device desc) =? 1) ||
          (cfg_BConfigurationValue (d_Configuration desc) =? 0)
  then false
  else
    match d_Interfaces desc, d_Associations desc with
    | [i], [] =>
        if negb (InterfaceNumber (InterruptInRoute l) =? InterfaceNumber (InterruptOutRoute l)) ||
           negb (AlternateSetting (InterruptInRoute l) =? AlternateSetting (InterruptOutRoute l))
        then false
        else if negb (BInterfaceNumber (if_Descriptor i) =? InterfaceNumber (InterruptInRoute l)) ||
                negb (BInterfaceNumber (if_Descriptor i) =? 0) ||
                negb (BAlternateSetting (if_Descriptor i) =? AlternateSetting (InterruptInRoute l)) ||
                negb (BAlternateSetting (if_Descriptor i) =? 0) ||
                negb (BNumEndpoints (if_Descriptor i) =? 2) ||
                negb (length (if_Endpoints i) =? 2)%nat ||
                match if_HID i with Some _ => true | None => false end ||
                negb (length (if_ClassDescriptors i) =? 0)%nat
        then false
        else if negb (forallb plain_endpoint (if_Endpoints i)) then false
        else if negb (validateRetainedInterruptRoute desc (InterruptInRoute l) (MaximumInterruptIn l))
        then false
        else validateRetainedInterruptRoute desc (InterruptOutRoute l) (MaximumInterruptOut l)
    | _, _ => false
    end.

(** ** Service intervals *)

(** retainedInputServiceInterval, in nanoseconds; [None] is an invalid policy. *)
Definition retainedInputServiceInterval (milliseconds : Z) : option Z :=
  if (milliseconds =? 0) || (milliseconds =? 1) || (milliseconds =? 2) || (milliseconds =? 4)
  then Some (milliseconds * 1000000) else None.

(** The endpoint loop of configureEndpointCadence. *)
Definition set_interval (desc : Descriptor) (l : Limits) (inputServiceInterval : Z)
    (intervals : list Z) (e : EndpointDescriptor) : list Z :=
  let interval := usbServiceInterval (Speed (d_Device desc)) (BInterval e) in
  if BEndpointAddress e =? rt_EndpointAddress (InterruptInRoute l)
  then <[1%nat := if negb (inputServiceInterval =? 0) then inputServiceInterval else interval]> intervals
  else <[2%nat := interval]> intervals.

Definition endpoint_intervals (desc : Descriptor) (l : Limits) (inputServiceInterval : Z) : list Z :=
  match d_Interfaces desc with
  | i :: _ => fold_left (set_interval desc l inputServiceInterval) (if_Endpoints i) [0; 0; 0]
  | [] => [0; 0; 0]
  end.

(** ** Properties *)

Definition matching (address : Z) (es : list EndpointDescriptor) : list EndpointDescriptor :=
  filter (fun e => BEndpointAddress e = address) es.

Lemma route_endpoints_spec d address maximum es m m' :
  route_endpoints d address maximum es m = Some m' ->
  m' = (m + length (matching address es))%nat /\
  Forall (fun e => validRetainedInterruptEndpointForSpeed d e = true) (matching address es).
Proof.
  unfold matching. revert m. induction es as [|e es IH]; intros m; cbn [route_endpoints].
  { intros [= <-]. rewrite filter_nil. split; [cbn; lia|constructor]. }
  case_if; bool_prop.
  - rewrite filter_cons_False by lia. apply IH.
  - case_if; [done|]. bool_prop. rewrite filter_cons_True by lia.
    intros [-> Hf]%IH. cbn [length]. split; [lia|]. by constructor.
Qed.

Lemma service_interval_positive d e :
  U8 (BInterval e) -> validRetainedInterruptEndpointForSpeed d e = true ->
  0 < usbServiceInterval (Speed d) (BInterval e).
Proof.
  intros Hb Hv. unfold validRetainedInterruptEndpointForSpeed in Hv. unfold usbServiceInterval.
  case_if_in Hv; [done|]. bool_prop. rewrite (proj2 (Z.eqb_neq _ _)) by done.
  assert (Hs : Speed d = 3 /\ BInterval e <= 16 \/ Speed d < 3).
  { repeat case_if_in Hv; bool_prop; auto; right; lia. }
  destruct Hs as [[-> Hi]|Hs].
  - change (3 <=? 3) with true. cbv iota.
    assert (Hc : Forall (fun b => 0 < i64 (i64 (shl1_i64 (u8 (b - 1)) * 125) * 1000))
      (map Z.of_nat (seq 1 16))) by (repeat constructor).
    rewrite list.Forall_forall in Hc. apply Hc. apply list_elem_of_fmap.
    exists (Z.to_nat (BInterval e)). rewrite elem_of_seq. lia.
  - rewrite (proj2 (Z.leb_gt _ _)) by lia. rewrite i64_id; lia.
Qed.

(** One interface that carries the route: exactly one endpoint matches. *)
Lemma route_single d desc r maximum i :
  d = d_Device desc -> d_Interfaces desc = [i] ->
  BInterfaceNumber (if_Descriptor i) = InterfaceNumber r ->
  BAlternateSetting (if_Descriptor i) = AlternateSetting r ->
  validateRetainedInterruptRoute desc r maximum = true ->
  exists e, matching (rt_EndpointAddress r) (if_Endpoints i) = [e] /\
    validRetainedInterruptEndpointForSpeed d e = true.
Proof.
  intros -> Hi Hn Ha. unfold validateRetainedInterruptRoute. rewrite Hi. cbn [route_interfaces].
  rewrite Hn, Ha, !Z.eqb_refl. cbn [negb orb]. case_if; [done|].
  destruct (route_endpoints _ _ _ _ _) as [m|] eqn:Er; [|done].
  apply route_endpoints_spec in Er as [-> Hf]. intros Hm%Nat.eqb_eq. cbn in Hm.
  destruct (matching _ _) as [|e [|]]; try done. exists e. split; [done|]. by inversion_clear Hf.
Qed.

Lemma routes_differ l :
  ValidInterruptIn (InterruptInRoute l) = true -> ValidInterruptOut (InterruptOutRoute l) = true ->
  rt_EndpointAddress (InterruptInRoute l) <> rt_EndpointAddress (InterruptOutRoute l).
Proof. unfold ValidInterruptIn, ValidInterruptOut. intros H1 H2 E. rewrite E in H1. bool_prop. lia. Qed.

Lemma Limits_Valid_routes l : Limits_Valid l = true ->
  ValidInterruptIn (InterruptInRoute l) = true /\ ValidInterruptOut (InterruptOutRoute l) = true.
Proof. unfold Limits_Valid. do 2 (case_if; [done|]). intros _. by bool_prop. Qed.

(** Two endpoints of which one matches each of two addresses. *)
Lemma matching_pair a b x y ein eout :
  x <> y -> matching x [a; b] = [ein] -> matching y [a; b] = [eout] ->
  (a = ein /\ b = eout \/ a = eout /\ b = ein) /\ BEndpointAddress ein = x /\ BEndpointAddress eout = y.
Proof.
  intros Hxy. unfold matching. rewrite !filter_cons, !filter_nil.
  repeat case_decide; intros; simplify_eq; auto.
Qed.

(** An accepted retained descriptor fences both interrupt lanes: its two
    endpoints are one per direction, and both lanes get a positive service
    interval, the IN lane the policy's when there is one and otherwise the
    descriptor's; endpoint zero stays unscheduled. *)
Theorem retained_cadence_complete desc l ms policy :
  validateRetainedImportDescriptor desc l = true -> retainedInputServiceInterval ms = Some policy ->
  (forall i e, i ∈ d_Interfaces desc -> e ∈ if_Endpoints i -> U8 (BInterval e)) ->
  exists ein eout, d_Interfaces desc ≫= if_Endpoints ≡ₚ [ein; eout] /\
    BEndpointAddress ein = rt_EndpointAddress (InterruptInRoute l) /\
    BEndpointAddress eout = rt_EndpointAddress (InterruptOutRoute l) /\
    endpoint_intervals desc l policy =
      [0; if ms =? 0 then usbServiceInterval (Speed (d_Device desc)) (BInterval ein) else ms * 1000000;
       usbServiceInterval (Speed (d_Device desc)) (BInterval eout)] /\
    Forall (fun iv => 0 < iv) (drop 1 (endpoint_intervals desc l policy)).
Proof.
  intros Hv Hp Hb. unfold validateRetainedImportDescriptor in Hv.
  do 3 (case_if_in Hv; [done|]). destruct (d_Interfaces desc) as [|i [|]] eqn:Ei; try done.
  destruct (d_Associations desc); [|done]. do 3 (case_if_in Hv; [done|]).
  destruct (validateRetainedInterruptRoute desc (InterruptInRoute l) _) eqn:Ein; [|done].
  cbn [negb] in Hv. bool_prop.
  destruct (Limits_Valid_routes l) as [Hin Hout]; [done|].
  eapply route_single in Ein as (ein & Hmin & Hvin); [|done|done|lia|lia].
  eapply route_single in Hv as (eout & Hmout & Hvout); [|done|done|lia|lia].
  destruct (if_Endpoints i) as [|a [|b [|]]] eqn:Ee; try done.
  destruct (matching_pair _ _ _ _ _ _ (routes_differ l Hin Hout) Hmin Hmout) as (Hab & Ain & Aout).
  pose proof (routes_differ l Hin Hout) as Hd.
  assert (Hiv : endpoint_intervals desc l policy =
    [0; if ms =? 0 then usbServiceInterval (Speed (d_Device desc)) (BInterval ein) else ms * 1000000;
     usbServiceInterval (Speed (d_Device desc)) (BInterval eout)]).
  { unfold endpoint_intervals. rewrite Ei, Ee. unfold retainedInputServiceInterval in Hp.
    case_if_in Hp; [|done]. injection Hp as <-.
    destruct Hab as [[-> ->]|[-> ->]]; cbn [fold_left]; unfold set_interval; rewrite Ain, Aout, Z.eqb_refl,
      (proj2 (Z.eqb_neq (rt_EndpointAddress (InterruptOutRoute l)) _)) by done; cbn;
      do 2 f_equal; repeat case_if; bool_prop; try done; lia. }
  assert (HbI : forall e, e ∈ [a; b] -> U8 (BInterval e)).
  { intros e He. apply (Hb i); [by left|]. by rewrite Ee. }
  exists ein, eout. split_and!; [|done|done|done|].
  - cbn. rewrite Ee. cbn. destruct Hab as [[-> ->]|[-> ->]]; [done|apply perm_swap].
  - rewrite Hiv. cbn. assert (0 < usbServiceInterval (Speed (d_Device desc)) (BInterval eout)).
    { apply service_interval_positive; [apply HbI; set_solver|done]. }
    repeat constructor; [|done]. case_if.
    + apply service_interval_positive; [apply HbI; set_solver|done].
    + unfold retainedInputServiceInterval in Hp. case_if_in Hp; [|done]. bool_split; lia.
Qed.

(** *** A concrete topology *)

Definition demo_limits : Limits := {|
  QueueDepth := [2; 2; 2]; BufferedRequestBytes := 256; MaximumControlOut := 64;
  MaximumControlResponse := 64; MaximumInterruptIn := 64; MaximumInterruptOut := 64;
  InterruptInRoute := {| InterfaceNumber := 0; AlternateSetting := 0; rt_EndpointAddress := 0x81 |};
  InterruptOutRoute := {| InterfaceNumber := 0; AlternateSetting := 0; rt_EndpointAddress := 0x02 |} |}.

Definition demo_endpoint (address interval : Z) : EndpointDescriptor := {|
  BEndpointAddress := address; ep_BMAttributes := 3; WMaxPacketSize := 64; BInterval := interval;
  ep_Trailing := []; ep_ClassDescriptors := [] |}.

Definition demo_retained : Descriptor := {|
  d_Device := {| BcdUSB := 0x0200; BDeviceClass := 0; BDeviceSubClass := 0; BDeviceProtocol := 0;
    BMaxPacketSize0 := 64; IDVendor := 1; IDProduct := 2; BcdDevice := 3; IManufacturer := 0;
    IProduct := 0; ISerialNumber := 0; BNumConfigurations := 1; Speed := 2 |};
  d_Configuration := {| cfg_BConfigurationValue := 1; cfg_IConfiguration := 0;
    cfg_BMAttributes := 0x80; cfg_BMaxPower := 50 |};
  d_MicrosoftOS10 := None; d_Associations := [];
  d_Interfaces := [{|
    if_Descriptor := {| BInterfaceNumber := 0; BAlternateSetting := 0; BNumEndpoints := 2;
      BInterfaceClass := 0xff; BInterfaceSubClass := 0x47; BInterfaceProtocol := 0xd0;
      IInterface := 0 |};
    if_Endpoints := [demo_endpoint 0x02 4; demo_endpoint 0x81 8]; if_HID := None;
    if_ClassDescriptors := [] |}];
  d_Strings := ∅ |}.

Lemma retained_cadence_complete_witness :
  endpoint_intervals demo_retained demo_limits 1000000 = [0; 1000000; 4000000] /\
  Forall (fun iv => 0 < iv) (drop 1 (endpoint_intervals demo_retained demo_limits 1000000)).
Proof.
  split; [reflexivity|].
  destruct (retained_cadence_complete demo_retained demo_limits 1 1000000)
    as (ein & eout & _ & _ & _ & _ & H); [reflexivity|reflexivity| |exact H].
  intros i e Hi He. apply list_elem_of_singleton in Hi as ->.
  apply elem_of_cons in He as [->|He]; [cbn; lia|].
  apply list_elem_of_singleton in He as ->. cbn; lia.
Defined.
