(* ===== verification/RetainedLane.v ===== *)
(** * One lane of the retained scheduler
      (src/internal/server/usb/retained_submission.go, retainedSubmissionLaneQueue)

    A lane keeps its submissions in fixed slots, the queue of occupied slots in
    a ring and the free slots on a stack.  The lemmas show that the ring
    implements a list: [jobs] is the queue of submissions in arrival order. *)

From S2P Require Import Prelude Bytes Hid Descriptor Urb Control RetainedUsb.

Inductive retainedSubmissionState :=
| retainedSubmissionFree
| retainedSubmissionRawQueued
| retainedSubmissionTicketed
| retainedSubmissionPending
| retainedSubmissionAdmitted
| retainedSubmissionTerminal
| retainedSubmissionLifecycleRetired.
#[export] Instance retainedSubmissionState_eq_dec : EqDecision retainedSubmissionState.
Proof. solve_decision. Defined.

(** [slot_payload] is the slot's window of the payload slab, at its full
    capacity. *)
Record retainedSubmissionSlot := {
  slot_state : retainedSubmissionState;
  slot_lane : Z;
  slot_direction : Z;
  slot_session : Z;
  slot_binding : Z;
  slot_ordinal : Z;
  slot_sequence : Z;
  slot_transferLength : Z;
  slot_setup : list Z;
  slot_route : Route;
  slot_lifecycle : controlLifecycleSetup;
  slot_payload : list Z;
  slot_payloadLength : nat;
  slot_ticket : Ticket;
  slot_pendingEpoch : Z;
  slot_retryAt : Z;
}.

Definition slot_zero (payload : list Z) : retainedSubmissionSlot := {|
  slot_state := retainedSubmissionFree; slot_lane := 0; slot_direction := 0; slot_session := 0;
  slot_binding := 0; slot_ordinal := 0; slot_sequence := 0; slot_transferLength := 0;
  slot_setup := zeros 8; slot_route := Route_zero; slot_lifecycle := lifecycle_none;
  slot_payload := payload; slot_payloadLength := 0; slot_ticket := Ticket_zero;
  slot_pendingEpoch := 0; slot_retryAt := zero_time |}.

Record retainedSubmissionLaneQueue := {
  lq_slots : list retainedSubmissionSlot;
  lq_order : list nat;
  lq_free : list nat;
  lq_orderHead : nat;
  lq_orderCount : nat;
  lq_freeCount : nat;
}.
Notation lane_queue := retainedSubmissionLaneQueue.

Definition slot_at (q : lane_queue) (i : nat) : retainedSubmissionSlot :=
  nth i (lq_slots q) (slot_zero []).

Definition order_at (q : lane_queue) (position : nat) : nat :=
  ring_at 0%nat (lq_order q) (lq_orderHead q) position.

Definition set_slot (i : nat) (s : retainedSubmissionSlot) (q : lane_queue) : lane_queue := {|
  lq_slots := <[i := s]> (lq_slots q); lq_order := lq_order q; lq_free := lq_free q;
  lq_orderHead := lq_orderHead q; lq_orderCount := lq_orderCount q; lq_freeCount := lq_freeCount q |}.

(** A new lane: every slot free, slot zero on top of the stack, each slot with
    its slab window of [capacity] bytes. *)
Definition new_lane (depth capacity : nat) : lane_queue := {|
  lq_slots := replicate depth (slot_zero (zeros capacity));
  lq_order := replicate depth 0%nat;
  lq_free := map (fun index => depth - 1 - index)%nat (seq 0 depth);
  lq_orderHead := 0; lq_orderCount := 0; lq_freeCount := depth |}.

(** The slot on top of the free stack is filled by [fill] and appended. *)
Definition push_slot (fill : list Z -> retainedSubmissionSlot) (q : lane_queue) : lane_queue :=
  let freeCount := (lq_freeCount q - 1)%nat in
  let slotIndex := nth freeCount (lq_free q) 0%nat in
  let orderIndex := ((lq_orderHead q + lq_orderCount q) mod length (lq_order q))%nat in
  {| lq_slots := <[slotIndex := fill (slot_payload (slot_at q slotIndex))]> (lq_slots q);
     lq_order := <[orderIndex := slotIndex]> (lq_order q); lq_free := lq_free q;
     lq_orderHead := lq_orderHead q; lq_orderCount := S (lq_orderCount q);
     lq_freeCount := freeCount |}.

(** The first position of the queue, of [n] from [position] on, that holds the slot. *)
Fixpoint find_order (n position slotIndex : nat) (q : lane_queue) : option nat :=
  match n with
  | O => None
  | S n => if (order_at q position =? slotIndex)%nat then Some position
           else find_order n (S position) slotIndex q
  end.

(** [n] moves of the shift loop from [offset] on. *)
Fixpoint shift_order (n offset head : nat) (order : list nat) : list nat :=
  match n with
  | O => order
  | S n => shift_order n (S offset) head
             (<[((head + offset) mod length order)%nat := ring_at 0%nat order head (S offset)]> order)
  end.

Definition releaseSlotLocked (slotIndex : nat) (q : lane_queue) : lane_queue :=
  let payload := zeros (length (slot_payload (slot_at q slotIndex))) in
  {| lq_slots := <[slotIndex := slot_zero payload]> (lq_slots q); lq_order := lq_order q;
     lq_free := <[lq_freeCount q := slotIndex]> (lq_free q);
     lq_orderHead := if (lq_orderCount q =? 0)%nat then 0%nat else lq_orderHead q;
     lq_orderCount := lq_orderCount q; lq_freeCount := S (lq_freeCount q) |}.

Definition remove_slot (slotIndex : nat) (q : lane_queue) : lane_queue :=
  match find_order (lq_orderCount q) 0 slotIndex q with
  | None => q
  | Some position =>
      releaseSlotLocked slotIndex {|
        lq_slots := lq_slots q;
        lq_order := shift_order (lq_orderCount q - 1 - position) position (lq_orderHead q) (lq_order q);
        lq_free := lq_free q; lq_orderHead := lq_orderHead q;
        lq_orderCount := (lq_orderCount q - 1)%nat; lq_freeCount := lq_freeCount q |}
  end.

(** ** The queue as a list *)

Definition entries (q : lane_queue) : list nat :=
  ring_view 0%nat (lq_order q) (lq_orderHead q) (lq_orderCount q).
Definition jobs (q : lane_queue) : list retainedSubmissionSlot := map (slot_at q) (entries q).

Record lane_ok (depth capacity : nat) (q : lane_queue) : Prop := {
  lk_slots : length (lq_slots q) = depth;
  lk_order : length (lq_order q) = depth;
  lk_free : length (lq_free q) = depth;
  lk_head : (lq_orderHead q < depth)%nat;
  lk_count : (lq_freeCount q <= depth)%nat;
  lk_part : take (lq_freeCount q) (lq_free q) ++ entries q ≡ₚ seq 0 depth;
  lk_cap : Forall (fun s => length (slot_payload s) = capacity) (lq_slots q);
  lk_idle i : i ∈ take (lq_freeCount q) (lq_free q) ->
    slot_state (slot_at q i) = retainedSubmissionFree;
  lk_busy s : s ∈ jobs q -> slot_state s <> retainedSubmissionFree;
}.

Lemma NoDup_middle {A} (l1 l2 : list A) (x : A) : NoDup (l1 ++ x :: l2) -> x ∉ l1 ++ l2.
Proof. rewrite <-Permutation_middle. by intros [? _]%list.NoDup_cons. Qed.

Section Lane.
Context (depth capacity : nat).
Implicit Types q : lane_queue.
Local Notation lane_ok := (lane_ok depth capacity).

Lemma length_entries q : length (entries q) = lq_orderCount q.
Proof. apply length_ring_view. Qed.

Lemma length_jobs q : length (jobs q) = lq_orderCount q.
Proof. unfold jobs. by rewrite length_map, length_entries. Qed.

Lemma entries_lookup q k : (k < lq_orderCount q)%nat -> entries q !! k = Some (order_at q k).
Proof.
  intros Hk. unfold entries, ring_view. rewrite list_lookup_fmap, lookup_seq_lt by done. done.
Qed.

Lemma lane_counts q : lane_ok q -> (lq_freeCount q + lq_orderCount q = depth)%nat.
Proof.
  intros []. apply Permutation_length in lk_part0.
  rewrite length_app, length_take, length_entries, length_seq in lk_part0. lia.
Qed.

Lemma lane_NoDup q : lane_ok q -> NoDup (take (lq_freeCount q) (lq_free q) ++ entries q).
Proof. intros []. rewrite lk_part0. apply NoDup_seq. Qed.

Lemma entries_NoDup q : lane_ok q -> NoDup (entries q).
Proof. intros Hq%lane_NoDup. by apply list.NoDup_app in Hq as (_ & _ & ?). Qed.

Lemma entry_lt q i : lane_ok q -> i ∈ entries q -> (i < depth)%nat.
Proof.
  intros [] Hi. assert (i ∈ seq 0 depth) as ?%elem_of_seq by (rewrite <-lk_part0; set_solver). lia.
Qed.

Lemma slot_at_insert q i s j :
  (i < length (lq_slots q))%nat ->
  slot_at (set_slot i s q) j = if bool_decide (j = i) then s else slot_at q j.
Proof.
  intros Hi. unfold slot_at. cbn. rewrite !nth_lookup. case_bool_decide.
  - subst. by rewrite list_lookup_insert_eq.
  - by rewrite list_lookup_insert_ne.
Qed.

(** A slot outside the queue is free. *)
Lemma busy_queued q i :
  lane_ok q -> slot_state (slot_at q i) <> retainedSubmissionFree -> i ∈ entries q.
Proof.
  intros Hq Hs. pose proof Hq as [].
  destruct (decide (i < depth)%nat) as [Hi|Hi].
  - assert (i ∈ take (lq_freeCount q) (lq_free q) ++ entries q) as [Hf|?]%elem_of_app;
      [rewrite lk_part0; apply elem_of_seq; lia| |done].
    by apply lk_idle0 in Hf.
  - exfalso. apply Hs. unfold slot_at. by rewrite nth_overflow by lia.
Qed.

Lemma entries_set_slot i s q : entries (set_slot i s q) = entries q.
Proof. done. Qed.

Lemma jobs_set_slot q k s :
  lane_ok q -> (k < lq_orderCount q)%nat ->
  jobs (set_slot (order_at q k) s q) = <[k := s]> (jobs q).
Proof.
  intros Hq Hk. pose proof (entries_lookup q k Hk) as He.
  pose proof (entry_lt q (order_at q k) Hq (list_elem_of_lookup_2 _ _ _ He)) as Hlt.
  pose proof (entries_NoDup q Hq) as Hn. destruct Hq.
  apply list_eq. intros j. unfold jobs. rewrite entries_set_slot.
  destruct (decide (j = k)) as [->|Hj].
  - rewrite list_lookup_insert_eq by (by rewrite length_map, length_entries).
    rewrite list_lookup_fmap, He. cbn [fmap option_fmap option_map]. rewrite slot_at_insert by lia. by rewrite bool_decide_true.
  - rewrite list_lookup_insert_ne by done. rewrite !list_lookup_fmap.
    destruct (entries q !! j) as [e|] eqn:Ej; [|done]. cbn [fmap option_fmap option_map]. rewrite slot_at_insert by lia.
    rewrite bool_decide_false; [done|]. intros ->. apply Hj. by eapply NoDup_lookup.
Qed.

Lemma lane_ok_set_slot q k s :
  lane_ok q -> (k < lq_orderCount q)%nat -> length (slot_payload s) = capacity ->
  slot_state s <> retainedSubmissionFree -> lane_ok (set_slot (order_at q k) s q).
Proof.
  intros Hq Hk Hc Hs. pose proof (jobs_set_slot q k s Hq Hk) as Hj.
  pose proof (lane_NoDup q Hq) as Hn. pose proof (entries_lookup q k Hk) as He.
  pose proof (entry_lt q _ Hq (list_elem_of_lookup_2 _ _ _ He)) as Hlt.
  pose proof Hq as []. split; try done.
  - cbn. by rewrite length_insert.
  - by apply Forall_insert.
  - intros i Hi. rewrite slot_at_insert by lia. rewrite bool_decide_false; [by apply lk_idle0|].
    intros ->. apply list.NoDup_app in Hn as (_ & Hd & _). eapply Hd; [exact Hi|].
    by eapply list_elem_of_lookup_2.
  - intros s' Hin. rewrite Hj in Hin. apply list_elem_of_lookup in Hin as [j Hj'].
    destruct (decide (j = k)) as [->|Hne].
    + rewrite list_lookup_insert_eq in Hj' by (by rewrite length_jobs). by simplify_eq.
    + rewrite list_lookup_insert_ne in Hj' by done. eapply lk_busy0, list_elem_of_lookup_2, Hj'.
Qed.

Lemma new_lane_ok : (0 < depth)%nat -> lane_ok (new_lane depth capacity).
Proof.
  intros Hd. split; cbn; try done.
  - by rewrite length_replicate.
  - by rewrite length_replicate.
  - by rewrite length_map, length_seq.
  - rewrite app_nil_r, take_ge by (by rewrite length_map, length_seq).
    apply NoDup_Permutation; [|apply NoDup_seq|].
    + apply NoDup_fmap_2_strong; [|apply NoDup_seq].
      intros x y Hx%elem_of_seq Hy%elem_of_seq. lia.
    + intros x. rewrite list_elem_of_fmap, elem_of_seq. split.
      * intros (y & -> & Hy%elem_of_seq). lia.
      * intros Hx. exists (depth - 1 - x)%nat. rewrite elem_of_seq. lia.
  - apply Forall_replicate. cbn. apply length_replicate.
  - intros i _. unfold slot_at. cbn. rewrite nth_lookup.
    destruct (replicate _ _ !! i) as [s|] eqn:E; [|done]. by apply lookup_replicate in E as [-> _].
  - intros s Hs. by apply elem_of_nil in Hs.
Qed.

Lemma slot_payload_length q i : lane_ok q -> (i < depth)%nat ->
  length (slot_payload (slot_at q i)) = capacity.
Proof.
  intros [] Hi. destruct (lookup_lt_is_Some_2 (lq_slots q) i) as [s Hs]; [lia|].
  unfold slot_at. rewrite (nth_lookup_Some _ _ _ _ Hs).
  by eapply (proj1 (list.Forall_forall _ _) lk_cap0), list_elem_of_lookup_2, Hs.
Qed.

(** Appending a submission. *)
Lemma push_slot_spec q fill :
  lane_ok q -> (0 < lq_freeCount q)%nat ->
  (forall p, length p = capacity -> length (slot_payload (fill p)) = capacity /\
     slot_state (fill p) <> retainedSubmissionFree) ->
  exists i p, length p = capacity /\ lane_ok (push_slot fill q) /\
    jobs (push_slot fill q) = jobs q ++ [fill p] /\
    slot_state (slot_at q i) = retainedSubmissionFree /\
    forall j, slot_at (push_slot fill q) j = if bool_decide (j = i) then fill p else slot_at q j.
Proof.
  intros Hq Hf Hfill. pose proof (lane_counts q Hq) as Hc. pose proof (lane_NoDup q Hq) as Hn.
  pose proof Hq as [].
  set (n := (lq_freeCount q - 1)%nat). set (i := nth n (lq_free q) 0%nat).
  assert (Hi : lq_free q !! n = Some i).
  { destruct (lookup_lt_is_Some_2 (lq_free q) n) as [x Hx]; [lia|].
    unfold i. by rewrite (nth_lookup_Some _ _ _ _ Hx). }
  assert (Ht : take (lq_freeCount q) (lq_free q) = take n (lq_free q) ++ [i]).
  { replace (lq_freeCount q) with (S n) by lia. by apply take_S_r. }
  assert (Hlt : (i < depth)%nat).
  { assert (i ∈ seq 0 depth) as ?%elem_of_seq by (rewrite <-lk_part0, Ht; set_solver). lia. }
  assert (Hnew : i ∉ take n (lq_free q) ++ entries q).
  { rewrite Ht, <-app_assoc in Hn. by apply NoDup_middle in Hn. }
  exists i, (slot_payload (slot_at q i)).
  pose proof (slot_payload_length q i Hq Hlt) as Hp. destruct (Hfill _ Hp) as [Hp' Hs'].
  assert (He : entries (push_slot fill q) = entries q ++ [i]).
  { unfold entries, push_slot. cbn. apply ring_view_push. lia. }
  assert (Hat : forall j, slot_at (push_slot fill q) j =
    if bool_decide (j = i) then fill (slot_payload (slot_at q i)) else slot_at q j).
  { intros j. rewrite <-(slot_at_insert q) by lia. done. }
  assert (Hj : jobs (push_slot fill q) = jobs q ++ [fill (slot_payload (slot_at q i))]).
  { unfold jobs. rewrite He, map_app. cbn [map]. f_equal; [|by rewrite Hat, bool_decide_true].
    apply map_ext_in. intros j Hin%list_elem_of_In. rewrite Hat, bool_decide_false; [done|].
    set_solver. }
  split_and!; [done| |done|apply lk_idle0; rewrite Ht; set_solver|done]. split; try done.
  - cbn. by rewrite length_insert.
  - cbn. by rewrite length_insert.
  - cbn. lia.
  - rewrite He. change (lq_free (push_slot fill q)) with (lq_free q).
    change (lq_freeCount (push_slot fill q)) with n.
    rewrite <-lk_part0, Ht. solve_Permutation.
  - by apply Forall_insert.
  - intros j Hin. rewrite Hat, bool_decide_false; [|set_solver].
    apply lk_idle0. rewrite Ht. set_solver.
  - intros s. rewrite Hj. intros [?| ->%list_elem_of_singleton]%elem_of_app; [by apply lk_busy0|done].
Qed.

(** The shift loop closes the gap at its first position. *)
Lemma shift_order_spec n i head (l : list nat) :
  (i + n < length l)%nat ->
  length (shift_order n i head l) = length l /\
  forall k, (k < length l)%nat -> ring_at 0%nat (shift_order n i head l) head k =
    if (i <=? k)%nat && (k <? i + n)%nat then ring_at 0%nat l head (S k) else ring_at 0%nat l head k.
Proof.
  revert i l. induction n as [|n IH]; intros i l Hi; cbn [shift_order].
  { split; [done|]. intros k Hk. case_if; [bool_prop; lia|done]. }
  set (l1 := <[_ := _]> l).
  assert (Hl1 : length l1 = length l) by apply length_insert.
  destruct (IH (S i) l1) as [Hlen Hat]; [lia|]. split; [lia|].
  assert (Hat1 : forall m, (m < length l)%nat -> ring_at 0%nat l1 head m =
    if bool_decide (m = i) then ring_at 0%nat l head (S i) else ring_at 0%nat l head m).
  { intros m Hm. unfold ring_at at 1. rewrite Hl1. unfold l1. case_bool_decide.
    - subst. rewrite list_lookup_insert_eq; [done|]. apply Nat.mod_upper_bound. lia.
    - rewrite list_lookup_insert_ne; [done|]. apply ring_index_ne; lia. }
  intros k Hk. rewrite Hat by lia.
  repeat case_if; bool_split; try lia; rewrite ?Hat1 by lia; try (case_bool_decide; try lia);
    try done; by subst.
Qed.

Lemma find_order_spec n p i q :
  find_order n p i q = match list_find (eq i) (map (order_at q) (seq p n)) with
                       | Some (k, _) => Some (p + k)%nat
                       | None => None
                       end.
Proof.
  revert p. induction n as [|n IH]; intros p; cbn [find_order seq map]; [done|].
  cbn [list_find]. destruct (Nat.eqb_spec (order_at q p) i) as [E|E].
  - rewrite decide_True by done. f_equal. lia.
  - rewrite decide_False by done. rewrite IH. cbn.
    destruct (list_find _ _) as [[k x]|]; cbn; [f_equal; lia|done].
Qed.

(** Removing the submission at position [k]. *)
Lemma remove_slot_spec q k :
  lane_ok q -> (k < lq_orderCount q)%nat ->
  lane_ok (remove_slot (order_at q k) q) /\
  jobs (remove_slot (order_at q k) q) = take k (jobs q) ++ drop (S k) (jobs q) /\
  slot_state (slot_at (remove_slot (order_at q k) q) (order_at q k)) = retainedSubmissionFree /\
  forall j, j <> order_at q k -> slot_at (remove_slot (order_at q k) q) j = slot_at q j.
Proof.
  intros Hq Hk. pose proof (lane_counts q Hq) as Hc. pose proof (lane_NoDup q Hq) as Hn.
  pose proof (entries_NoDup q Hq) as Hne. pose proof (entries_lookup q k Hk) as Hek.
  pose proof (entry_lt q _ Hq (list_elem_of_lookup_2 _ _ _ Hek)) as Hlt. pose proof Hq as [].
  set (i := order_at q k) in *.
  assert (Hfind : find_order (lq_orderCount q) 0 i q = Some k).
  { rewrite find_order_spec. change (map _ _) with (entries q).
    destruct (list_find (eq i) (entries q)) as [[j x]|] eqn:E.
    - apply list_find_Some in E as (Hj & <- & _). cbn. f_equal. by eapply NoDup_lookup.
    - apply list_find_None in E. rewrite list.Forall_forall in E.
      by destruct (E i (list_elem_of_lookup_2 _ _ _ Hek)). }
  unfold remove_slot. rewrite Hfind. set (q1 := Build_retainedSubmissionLaneQueue _ _ _ _ _ _).
  destruct (shift_order_spec (lq_orderCount q - 1 - k) k (lq_orderHead q) (lq_order q)) as [Hlen Hat];
    [lia|].
  assert (He1 : entries q1 = take k (entries q) ++ drop (S k) (entries q)).
  { apply list_eq. intros j. destruct (decide (j < lq_orderCount q - 1)%nat) as [Hj|Hj].
    - rewrite (entries_lookup q1) by (cbn; lia). unfold order_at. cbn. rewrite Hat by lia.
      case_if; bool_split; try lia.
      + rewrite lookup_app_r by (rewrite length_take, length_entries; lia).
        rewrite length_take, length_entries, lookup_drop, entries_lookup by lia.
        unfold order_at. do 2 f_equal. lia.
      + rewrite lookup_app_l by (rewrite length_take, length_entries; lia).
        by rewrite lookup_take_lt, entries_lookup by lia.
    - rewrite !lookup_ge_None_2; [done| |].
      + rewrite length_app, length_take, length_drop, length_entries. lia.
      + rewrite length_entries. cbn. lia. }
  set (q2 := releaseSlotLocked i q1).
  assert (He2 : entries q2 = entries q1).
  { unfold q2, releaseSlotLocked, entries. cbn [lq_orderCount lq_order lq_orderHead].
    case_if; [|done]. by rewrite Hb. }
  assert (Hat2 : forall j, slot_at q2 j =
    if bool_decide (j = i) then slot_zero (zeros (length (slot_payload (slot_at q i))))
    else slot_at q j).
  { intros j. rewrite <-(slot_at_insert q) by lia. done. }
  assert (Hout : i ∉ entries q1).
  { rewrite He1. rewrite <-(take_drop_middle (entries q) k i Hek) in Hne.
    by apply NoDup_middle in Hne. }
  assert (Hjobs : jobs q2 = take k (jobs q) ++ drop (S k) (jobs q)).
  { unfold jobs at 1. rewrite He2. transitivity (map (slot_at q) (entries q1)).
    - apply map_ext_in. intros j Hin%list_elem_of_In. rewrite Hat2, bool_decide_false; [done|].
      intros ->. done.
    - rewrite He1, map_app. unfold jobs. by rewrite fmap_take, fmap_drop. }
  assert (Hfree : take (S (lq_freeCount q)) (<[lq_freeCount q := i]> (lq_free q)) =
    take (lq_freeCount q) (lq_free q) ++ [i]).
  { rewrite (take_S_r _ _ i) by (apply list_lookup_insert_eq; lia).
    by rewrite take_insert_ge by lia. }
  split_and!; [|done|by rewrite Hat2, bool_decide_true|intros j Hj; by rewrite Hat2, bool_decide_false].
  split; try done.
  - cbn. by rewrite length_insert.
  - cbn. lia.
  - cbn. by rewrite length_insert.
  - cbn. case_if; lia.
  - cbn. lia.
  - rewrite He2, He1. change (lq_freeCount q2) with (S (lq_freeCount q)).
    change (lq_free q2) with (<[lq_freeCount q := i]> (lq_free q)). rewrite Hfree.
    rewrite <-lk_part0. rewrite <-(take_drop_middle (entries q) k i Hek) at 3. solve_Permutation.
  - apply Forall_insert; [done|]. cbn. unfold zeros. rewrite length_replicate.
    by apply slot_payload_length.
  - change (lq_freeCount q2) with (S (lq_freeCount q)).
    change (lq_free q2) with (<[lq_freeCount q := i]> (lq_free q)). rewrite Hfree.
    intros j Hin. rewrite Hat2. case_bool_decide; [done|]. apply lk_idle0. set_solver.
  - intros s. rewrite Hjobs. intros Hin. apply lk_busy0.
    rewrite <-(take_drop k (jobs q)). apply elem_of_app in Hin as [Hin|Hin]; apply elem_of_app; [by left|].
    right. rewrite <-Nat.add_1_r, <-drop_drop in Hin. rewrite <-(take_drop 1 (drop k _)).
    apply elem_of_app. by right.
Qed.

(** A slot in use is at some position of the queue. *)
Lemma slot_position q i :
  lane_ok q -> slot_state (slot_at q i) <> retainedSubmissionFree ->
  exists k, (k < lq_orderCount q)%nat /\ order_at q k = i /\ jobs q !! k = Some (slot_at q i).
Proof.
  intros Hq Hs. apply (busy_queued q i Hq) in Hs. apply list_elem_of_lookup in Hs as [k Hk].
  assert (Hlt : (k < lq_orderCount q)%nat) by (rewrite <-length_entries; by eapply lookup_lt_Some).
  exists k. split; [done|]. rewrite (entries_lookup q k Hlt) in Hk. injection Hk as Hk.
  split; [done|]. unfold jobs. rewrite list_lookup_fmap, entries_lookup by done. cbn. by rewrite Hk.
Qed.

Lemma job_slot q k s :
  lane_ok q -> jobs q !! k = Some s ->
  (k < lq_orderCount q)%nat /\ slot_at q (order_at q k) = s /\ slot_state s <> retainedSubmissionFree /\
  (order_at q k < depth)%nat.
Proof.
  intros Hq Hk. assert (Hlt : (k < lq_orderCount q)%nat) by (rewrite <-length_jobs; by eapply lookup_lt_Some).
  split; [done|]. pose proof Hk as Hb. apply list_elem_of_lookup_2 in Hb.
  unfold jobs in Hk. rewrite list_lookup_fmap, entries_lookup in Hk by done. cbn in Hk. injection Hk as Hk.
  split_and!; [done|by apply (lk_busy _ _ _ Hq)|].
  eapply entry_lt; [done|]. by eapply list_elem_of_lookup_2, entries_lookup.
Qed.
End Lane.
