(* ===== verification/Retained.v ===== *)
(** * The retained submission scheduler
      (src/internal/server/usb/retained_submission.go with its cadence and
      retirement files)

    The scheduler owns the URBs of an imported retained device.  The command
    reader enqueues and unlinks submissions; one service goroutine stages the
    oldest eligible submission with the device's owner, prepares its response
    while it holds the response stream, and completes it; resets, closing and
    delivered lifecycle requests retire what is still queued.

    Every section of a method that runs under the scheduler's mutex is a
    function on the state the mutex protects.  What the owner answers is an
    argument of the section that uses it.  The wake and released channels only
    shorten waits and are not part of the state. *)

From S2P Require Import Prelude Bytes GoIO UsbIp Hid Descriptor Urb Control.
From S2P Require Import ResponseWriter RetainedUsb RetainedTopology RetainedLane.

(** ** Errors *)

(** [ErrOwner] is an error or a contained panic of an owner callback; a wrapped
    error keeps its cause. *)
Inductive rerr :=
| ErrUninitialized
| ErrInvalidLimits
| ErrInvalidRequest
| ErrQueueFull
| ErrVisibleCompletionPending
| ErrLifecycleCompletionPending
| ErrInactiveRoute
| ErrDuplicateSequence
| ErrCounterExhausted
| ErrInvalidTicket
| ErrInvalidPreparation
| ErrReadiness
| ErrClosed
| ErrNotActivated
| ErrOwnerRetirement
| ErrLeaseRejected
| ErrCloseTimedOut
| ErrServicePolicy
| ErrLateResponse
| ErrIO (e : io_err)
| ErrOwner (code : Z)
| ErrWrapped (e : rerr)
| ErrJoined (e e' : rerr).
#[export] Instance rerr_eq_dec : EqDecision rerr.
Proof. solve_decision. Defined.

(** errors.Is *)
Fixpoint errors_Is (e target : rerr) : bool :=
  bool_decide (e = target) ||
  match e with
  | ErrWrapped e => errors_Is e target
  | ErrJoined e1 e2 => errors_Is e1 target || errors_Is e2 target
  | _ => false
  end.

(** errors.Join of a possibly nil error with an error. *)
Definition errors_Join (joined : option rerr) (e : rerr) : rerr :=
  match joined with None => e | Some j => ErrJoined j e end.

(** ** State *)

Definition retainedImportActivationParked : Z := 0.
Definition retainedImportActivationStarted : Z := 1.
Definition retainedImportActivationRevoked : Z := 2.

(** A reservation by its address and its lease. *)
Record reservation := {
  rv_id : Z;
  rv_lease : ImportLease;
}.
#[export] Instance reservation_eq_dec : EqDecision reservation.
Proof. solve_decision. Defined.

(** The admission of the scheduler's reservation and its reset fence. *)
Record import_state := {
  im_reservation : option reservation;
  im_open : bool;
  im_activation : Z;
  im_activated : bool;
  im_resetFence : option ImportResetLease;
  im_resetDrained : bool;
  im_resetActive : bool;
}.

(** [lf_published] are the lifecycles handed to publishControlLifecycle. *)
Record lifecycle_state := {
  lf_configured : bool;
  lf_binding : Z;
  lf_pending : bool;
  lf_activeConfiguration : Z;
  lf_activeAlternate : Z;
  lf_published : list controlLifecycleSetup;
}.

Record cadence := {
  cd_configured : bool;
  cd_intervals : list Z;
  cd_nextService : list Z;
}.

Record config := {
  rc_ownerIdentity : Z;
  rc_limits : Limits;
  rc_session : Z;
}.

Record retainedSubmissionScheduler := {
  rs_config : config;
  rs_lanes : list lane_queue;
  rs_nextOrdinal : Z;
  rs_closed : bool;
  rs_cancelled : bool;
  rs_started : bool;
  rs_failure : option rerr;
  rs_retirement : option ImportRetirementRequest;
  rs_framing : gset Z;
  rs_import : import_state;
  rs_lifecycle : lifecycle_state;
  rs_cadence : cadence;
  rs_lastReadinessEpoch : Z;
}.
Notation rsched := retainedSubmissionScheduler.

Definition rs_limits (s : rsched) : Limits := rc_limits (rs_config s).
Definition rs_session (s : rsched) : Z := rc_session (rs_config s).
Definition maximumResponseLength (s : rsched) : Z :=
  Z.max (MaximumControlResponse (rs_limits s)) (MaximumInterruptIn (rs_limits s)).

Definition lane_at (s : rsched) (i : nat) : lane_queue := nth i (rs_lanes s) (new_lane 0 0).

Definition with_lanes (l : list lane_queue) (s : rsched) : rsched := {|
  rs_config := rs_config s; rs_lanes := l; rs_nextOrdinal := rs_nextOrdinal s;
  rs_closed := rs_closed s; rs_cancelled := rs_cancelled s; rs_started := rs_started s;
  rs_failure := rs_failure s; rs_retirement := rs_retirement s; rs_framing := rs_framing s;
  rs_import := rs_import s; rs_lifecycle := rs_lifecycle s; rs_cadence := rs_cadence s;
  rs_lastReadinessEpoch := rs_lastReadinessEpoch s |}.

Definition set_lane (i : nat) (q : lane_queue) (s : rsched) : rsched :=
  with_lanes (<[i := q]> (rs_lanes s)) s.

Definition with_ordinal (n : Z) (s : rsched) : rsched := {|
  rs_config := rs_config s; rs_lanes := rs_lanes s; rs_nextOrdinal := n;
  rs_closed := rs_closed s; rs_cancelled := rs_cancelled s; rs_started := rs_started s;
  rs_failure := rs_failure s; rs_retirement := rs_retirement s; rs_framing := rs_framing s;
  rs_import := rs_import s; rs_lifecycle := rs_lifecycle s; rs_cadence := rs_cadence s;
  rs_lastReadinessEpoch := rs_lastReadinessEpoch s |}.

(** [closed], the context's cancellation and [started]. *)
Definition with_run (closed cancelled started : bool) (s : rsched) : rsched := {|
  rs_config := rs_config s; rs_lanes := rs_lanes s; rs_nextOrdinal := rs_nextOrdinal s;
  rs_closed := closed; rs_cancelled := cancelled; rs_started := started;
  rs_failure := rs_failure s; rs_retirement := rs_retirement s; rs_framing := rs_framing s;
  rs_import := rs_import s; rs_lifecycle := rs_lifecycle s; rs_cadence := rs_cadence s;
  rs_lastReadinessEpoch := rs_lastReadinessEpoch s |}.

Definition with_failure (f : option rerr) (r : option ImportRetirementRequest) (s : rsched) :
    rsched := {|
  rs_config := rs_config s; rs_lanes := rs_lanes s; rs_nextOrdinal := rs_nextOrdinal s;
  rs_closed := rs_closed s; rs_cancelled := rs_cancelled s; rs_started := rs_started s;
  rs_failure := f; rs_retirement := r; rs_framing := rs_framing s;
  rs_import := rs_import s; rs_lifecycle := rs_lifecycle s; rs_cadence := rs_cadence s;
  rs_lastReadinessEpoch := rs_lastReadinessEpoch s |}.

Definition with_framing (f : gset Z) (s : rsched) : rsched := {|
  rs_config := rs_config s; rs_lanes := rs_lanes s; rs_nextOrdinal := rs_nextOrdinal s;
  rs_closed := rs_closed s; rs_cancelled := rs_cancelled s; rs_started := rs_started s;
  rs_failure := rs_failure s; rs_retirement := rs_retirement s; rs_framing := f;
  rs_import := rs_import s; rs_lifecycle := rs_lifecycle s; rs_cadence := rs_cadence s;
  rs_lastReadinessEpoch := rs_lastReadinessEpoch s |}.

Definition with_import (i : import_state) (s : rsched) : rsched := {|
  rs_config := rs_config s; rs_lanes := rs_lanes s; rs_nextOrdinal := rs_nextOrdinal s;
  rs_closed := rs_closed s; rs_cancelled := rs_cancelled s; rs_started := rs_started s;
  rs_failure := rs_failure s; rs_retirement := rs_retirement s; rs_framing := rs_framing s;
  rs_import := i; rs_lifecycle := rs_lifecycle s; rs_cadence := rs_cadence s;
  rs_lastReadinessEpoch := rs_lastReadinessEpoch s |}.

Definition with_lifecycle (l : lifecycle_state) (s : rsched) : rsched := {|
  rs_config := rs_config s; rs_lanes := rs_lanes s; rs_nextOrdinal := rs_nextOrdinal s;
  rs_closed := rs_closed s; rs_cancelled := rs_cancelled s; rs_started := rs_started s;
  rs_failure := rs_failure s; rs_retirement := rs_retirement s; rs_framing := rs_framing s;
  rs_import := rs_import s; rs_lifecycle := l; rs_cadence := rs_cadence s;
  rs_lastReadinessEpoch := rs_lastReadinessEpoch s |}.

Definition with_cadence (c : cadence) (s : rsched) : rsched := {|
  rs_config := rs_config s; rs_lanes := rs_lanes s; rs_nextOrdinal := rs_nextOrdinal s;
  rs_closed := rs_closed s; rs_cancelled := rs_cancelled s; rs_started := rs_started s;
  rs_failure := rs_failure s; rs_retirement := rs_retirement s; rs_framing := rs_framing s;
  rs_import := rs_import s; rs_lifecycle := rs_lifecycle s; rs_cadence := c;
  rs_lastReadinessEpoch := rs_lastReadinessEpoch s |}.

Definition with_epoch (e : Z) (s : rsched) : rsched := {|
  rs_config := rs_config s; rs_lanes := rs_lanes s; rs_nextOrdinal := rs_nextOrdinal s;
  rs_closed := rs_closed s; rs_cancelled := rs_cancelled s; rs_started := rs_started s;
  rs_failure := rs_failure s; rs_retirement := rs_retirement s; rs_framing := rs_framing s;
  rs_import := rs_import s; rs_lifecycle := rs_lifecycle s; rs_cadence := rs_cadence s;
  rs_lastReadinessEpoch := e |}.

Definition set_admission (open : bool) (activation : Z) (i : import_state) : import_state := {|
  im_reservation := im_reservation i; im_open := open; im_activation := activation;
  im_activated := im_activated i; im_resetFence := im_resetFence i;
  im_resetDrained := im_resetDrained i; im_resetActive := im_resetActive i |}.

Definition set_reset (fence : option ImportResetLease) (drained active : bool) (i : import_state) :
    import_state := {|
  im_reservation := im_reservation i; im_open := im_open i; im_activation := im_activation i;
  im_activated := im_activated i; im_resetFence := fence; im_resetDrained := drained;
  im_resetActive := active |}.

(** ** Readiness samples *)

Definition maxUint64 : Z := 18446744073709551615.

(** A channel by its address and capacity; [None] is a nil channel. *)
Record channel := { ch_id : Z; ch_cap : Z }.

Definition retainedReadinessValid (epoch : Z) (readiness : option channel) (expected : option Z)
    (minimumEpoch : Z) : bool :=
  match readiness with
  | None => false
  | Some c =>
      (1 <=? ch_cap c) &&
      match expected with Some id => ch_id c =? id | None => true end &&
      negb (epoch =? maxUint64) && (minimumEpoch <=? epoch)
  end.

(** The owner's two answers, and what the receive found between them: nothing,
    a wake or a closed channel. *)
Definition sampleRetainedReadiness (first : result rerr (Z * option channel)) (received : option bool)
    (second : result rerr (Z * option channel)) (expected : option Z) (minimumEpoch : Z) :
    result rerr (Z * option channel) :=
  match first with
  | Err e => Err e
  | Ok (epoch, readiness) =>
      if negb (retainedReadinessValid epoch readiness expected minimumEpoch) then Err ErrReadiness
      else match received with
      | None => Ok (epoch, readiness)
      | Some false => Err ErrReadiness
      | Some true =>
          match second with
          | Err e => Err e
          | Ok (refreshed, channel') =>
              if negb (retainedReadinessValid refreshed channel' (ch_id <$> readiness) epoch)
              then Err ErrReadiness else Ok (refreshed, readiness)
          end
      end
  end.

(** ** Construction *)

(** retainedSchedulerConstructionSnapshot *)
Record construction := {
  cs_ownerIdentity : Z;
  cs_limits : Limits;
  cs_readinessEpoch : Z;
  cs_readiness : option channel;
}.

(** The slab windows by lane: control and interrupt OUT have one. *)
Definition slab_of (l : Limits) (lane : nat) : nat :=
  match lane with
  | 0%nat => Z.to_nat (MaximumControlOut l)
  | 2%nat => Z.to_nat (MaximumInterruptOut l)
  | _ => 0%nat
  end.

Definition buildRetainedSubmissionSchedulerWithSnapshot (session : Z) (parent_done : bool) (c : construction) :
    result rerr rsched :=
  let l := cs_limits c in
  if session =? 0 then Err ErrUninitialized
  else if parent_done then Err ErrClosed
  else if (cs_ownerIdentity c =? 0) ||
     negb (retainedReadinessValid (cs_readinessEpoch c) (cs_readiness c) None 0)
  then Err ErrUninitialized
  else if negb (Limits_Valid l) || (maximumTransferSize <? BufferedRequestBytes l) ||
     (maximumTransferSize <? MaximumControlOut l) || (maximumTransferSize <? MaximumControlResponse l) ||
     (maximumTransferSize <? MaximumInterruptIn l) || (maximumTransferSize <? MaximumInterruptOut l)
  then Err ErrInvalidLimits
  else Ok {|
    rs_config := {| rc_ownerIdentity := cs_ownerIdentity c; rc_limits := l; rc_session := session |};
    rs_lanes := map (fun lane => new_lane (Z.to_nat (depth_of l lane)) (slab_of l lane)) (seq 0 3);
    rs_nextOrdinal := 0; rs_closed := false; rs_cancelled := false; rs_started := false;
    rs_failure := None; rs_retirement := None; rs_framing := ∅;
    rs_import := {| im_reservation := None; im_open := false;
      im_activation := retainedImportActivationParked; im_activated := false;
      im_resetFence := None; im_resetDrained := false; im_resetActive := false |};
    rs_lifecycle := {| lf_configured := false; lf_binding := 0; lf_pending := false;
      lf_activeConfiguration := 0; lf_activeAlternate := 0; lf_published := [] |};
    rs_cadence := {| cd_configured := false; cd_intervals := [0; 0; 0];
      cd_nextService := [zero_time; zero_time; zero_time] |};
    rs_lastReadinessEpoch := cs_readinessEpoch c |}.

(** Without a snapshot the owner is asked: its identity, its limits and a
    readiness sample. *)
Definition buildRetainedSubmissionScheduler (session : Z) (parent_done : bool)
    (identity : result rerr Z) (limits : result rerr Limits)
    (first : result rerr (Z * option channel)) (received : option bool)
    (second : result rerr (Z * option channel)) : result rerr rsched :=
  if session =? 0 then Err ErrUninitialized
  else if parent_done then Err ErrClosed
  else match identity with
  | Err e => Err (ErrWrapped e)
  | Ok identity =>
      if identity =? 0 then Err (ErrWrapped ErrUninitialized)
      else match limits with
      | Err e => Err (ErrWrapped e)
      | Ok limits =>
          match sampleRetainedReadiness first received second None 0 with
          | Err e => Err (ErrWrapped e)
          | Ok (epoch, readiness) =>
              buildRetainedSubmissionSchedulerWithSnapshot session parent_done
                {| cs_ownerIdentity := identity; cs_limits := limits; cs_readinessEpoch := epoch;
                   cs_readiness := readiness |}
          end
      end
  end.

(** newParkedRetainedImportScheduler: the scheduler of a reservation. *)
Definition newParkedRetainedImportScheduler (r : reservation) (parent_done : bool) (c : construction) :
    result rerr rsched :=
  if negb (cs_ownerIdentity c =? il_OwnerID (rv_lease r)) then Err ErrLeaseRejected
  else
    let? s := buildRetainedSubmissionSchedulerWithSnapshot (il_SessionGeneration (rv_lease r)) parent_done c in
    Ok (with_import {| im_reservation := Some r; im_open := false;
          im_activation := retainedImportActivationParked; im_activated := false;
          im_resetFence := None; im_resetDrained := false; im_resetActive := false |} s).

Definition configureControlLifecycle (generation : Z) (s : rsched) : rsched * option rerr :=
  let lf := rs_lifecycle s in
  if (generation =? 0) || rs_started s || rs_closed s || im_activated (rs_import s) ||
     rs_cancelled s || lf_configured lf
  then (s, Some ErrInvalidRequest)
  else (with_lifecycle {| lf_configured := true; lf_binding := generation; lf_pending := lf_pending lf;
          lf_activeConfiguration := lf_activeConfiguration lf;
          lf_activeAlternate := lf_activeAlternate lf; lf_published := lf_published lf |} s, None).

Definition emptyLocked (s : rsched) : bool :=
  forallb (fun q => (lq_orderCount q =? 0)%nat && (lq_freeCount q =? length (lq_slots q))%nat)
    (rs_lanes s).

(** ** Cadence *)

Definition configureEndpointCadence (desc : Descriptor) (retainedInputServiceMS : Z) (s : rsched) :
    rsched * option rerr :=
  if negb (validateRetainedImportDescriptor desc (rs_limits s)) then (s, Some ErrInvalidLimits)
  else match retainedInputServiceInterval retainedInputServiceMS with
  | None => (s, Some ErrServicePolicy)
  | Some inputServiceInterval =>
  if rs_started s || rs_closed s || im_activated (rs_import s) || rs_cancelled s ||
     cd_configured (rs_cadence s) || negb (emptyLocked s)
  then (s, Some ErrInvalidRequest)
  else (with_cadence {| cd_configured := true;
          cd_intervals := endpoint_intervals desc (rs_limits s) inputServiceInterval;
          cd_nextService := cd_nextService (rs_cadence s) |} s, None)
  end.

Definition next_service (s : rsched) (lane : nat) : Z :=
  nth lane (cd_nextService (rs_cadence s)) zero_time.

Definition set_next_service (lane : nat) (at_ : Z) (s : rsched) : rsched :=
  with_cadence {| cd_configured := cd_configured (rs_cadence s);
    cd_intervals := cd_intervals (rs_cadence s);
    cd_nextService := <[lane := at_]> (cd_nextService (rs_cadence s)) |} s.

Definition advanceEndpointCadenceLocked (lane : nat) (now : Z) (s : rsched) : rsched :=
  let interval := nth lane (cd_intervals (rs_cadence s)) 0 in
  if interval <=? 0 then s
  else
    let next := next_service s lane in
    let next := if (next =? zero_time) || (interval <=? time_sub now next) then now else next in
    set_next_service lane (next + interval) s.

Definition resetEndpointCadenceLocked (lc : controlLifecycleSetup) (s : rsched) : rsched :=
  let hits (route : Route) :=
    match lc_kind lc with
    | controlLifecycleSetConfiguration => true
    | controlLifecycleSetInterface => lc_interfaceNumber lc =? InterfaceNumber route
    | controlLifecycleClearEndpointHalt => lc_endpointAddress lc =? rt_EndpointAddress route
    | controlLifecycleNone => false
    end in
  let s := if hits (InterruptInRoute (rs_limits s)) then set_next_service 1 zero_time s else s in
  if hits (InterruptOutRoute (rs_limits s)) then set_next_service 2 zero_time s else s.

(** ** References to submissions *)

Record retainedSubmissionRef := {
  ref_lane : nat;
  ref_slot : nat;
  ref_ordinal : Z;
}.
#[export] Instance ref_eq_dec : EqDecision retainedSubmissionRef.
Proof. solve_decision. Defined.

Definition slotForRefLocked (ref : retainedSubmissionRef) (s : rsched) :
    option retainedSubmissionSlot :=
  if negb (ref_lane ref <? length (rs_lanes s))%nat then None
  else
    let q := lane_at s (ref_lane ref) in
    if negb (ref_slot ref <? length (lq_slots q))%nat then None
    else
      let slot := slot_at q (ref_slot ref) in
      if negb (bool_decide (slot_state slot = retainedSubmissionFree)) &&
         (slot_ordinal slot =? ref_ordinal ref)
      then Some slot else None.

Definition put_slot (ref : retainedSubmissionRef) (slot : retainedSubmissionSlot) (s : rsched) :
    rsched :=
  set_lane (ref_lane ref) (set_slot (ref_slot ref) slot (lane_at s (ref_lane ref))) s.

Definition removeRefLocked (ref : retainedSubmissionRef) (s : rsched) : rsched :=
  set_lane (ref_lane ref) (remove_slot (ref_slot ref) (lane_at s (ref_lane ref))) s.

Definition is_head (ref : retainedSubmissionRef) (s : rsched) : bool :=
  (order_at (lane_at s (ref_lane ref)) 0 =? ref_slot ref)%nat.

Definition with_state (st : retainedSubmissionState) (slot : retainedSubmissionSlot) :
    retainedSubmissionSlot := {|
  slot_state := st; slot_lane := slot_lane slot; slot_direction := slot_direction slot;
  slot_session := slot_session slot; slot_binding := slot_binding slot;
  slot_ordinal := slot_ordinal slot; slot_sequence := slot_sequence slot;
  slot_transferLength := slot_transferLength slot; slot_setup := slot_setup slot;
  slot_route := slot_route slot; slot_lifecycle := slot_lifecycle slot;
  slot_payload := slot_payload slot; slot_payloadLength := slot_payloadLength slot;
  slot_ticket := slot_ticket slot; slot_pendingEpoch := slot_pendingEpoch slot;
  slot_retryAt := slot_retryAt slot |}.

Definition with_ticket (t : Ticket) (slot : retainedSubmissionSlot) : retainedSubmissionSlot := {|
  slot_state := slot_state slot; slot_lane := slot_lane slot; slot_direction := slot_direction slot;
  slot_session := slot_session slot; slot_binding := slot_binding slot;
  slot_ordinal := slot_ordinal slot; slot_sequence := slot_sequence slot;
  slot_transferLength := slot_transferLength slot; slot_setup := slot_setup slot;
  slot_route := slot_route slot; slot_lifecycle := slot_lifecycle slot;
  slot_payload := slot_payload slot; slot_payloadLength := slot_payloadLength slot;
  slot_ticket := t; slot_pendingEpoch := slot_pendingEpoch slot;
  slot_retryAt := slot_retryAt slot |}.

Definition with_pending (epoch retryAt : Z) (slot : retainedSubmissionSlot) :
    retainedSubmissionSlot := {|
  slot_state := slot_state slot; slot_lane := slot_lane slot; slot_direction := slot_direction slot;
  slot_session := slot_session slot; slot_binding := slot_binding slot;
  slot_ordinal := slot_ordinal slot; slot_sequence := slot_sequence slot;
  slot_transferLength := slot_transferLength slot; slot_setup := slot_setup slot;
  slot_route := slot_route slot; slot_lifecycle := slot_lifecycle slot;
  slot_payload := slot_payload slot; slot_payloadLength := slot_payloadLength slot;
  slot_ticket := slot_ticket slot; slot_pendingEpoch := epoch; slot_retryAt := retryAt |}.

Definition with_binding (binding : Z) (lc : controlLifecycleSetup) (slot : retainedSubmissionSlot) :
    retainedSubmissionSlot := {|
  slot_state := slot_state slot; slot_lane := slot_lane slot; slot_direction := slot_direction slot;
  slot_session := slot_session slot; slot_binding := binding;
  slot_ordinal := slot_ordinal slot; slot_sequence := slot_sequence slot;
  slot_transferLength := slot_transferLength slot; slot_setup := slot_setup slot;
  slot_route := slot_route slot; slot_lifecycle := lc;
  slot_payload := slot_payload slot; slot_payloadLength := slot_payloadLength slot;
  slot_ticket := slot_ticket slot; slot_pendingEpoch := slot_pendingEpoch slot;
  slot_retryAt := slot_retryAt slot |}.

(** The queued submissions, by lane and position. *)
Definition all_jobs (s : rsched) : list retainedSubmissionSlot := concat (map jobs (rs_lanes s)).

(** ** The command reader *)

Record retainedSubmissionEnvelope := {
  en_lane : Z;
  en_direction : Z;
  en_sequence : Z;
  en_transferLength : Z;
  en_setup : list Z;
  en_route : Route;
  en_binding : Z;
  en_data : list Z;
  en_lifecycle : controlLifecycleSetup;
}.

Definition validateEnvelope (e : retainedSubmissionEnvelope) (l : Limits) : bool :=
  if negb (Lane_Valid (en_lane e)) || negb (Direction_Valid (en_direction e)) ||
     (en_binding e =? 0) || (maximumTransferSize <? en_transferLength e)
  then false
  else if en_lane e =? LaneControl then
    if negb (bool_decide (en_route e = Route_zero)) then false
    else
      let setupDirectionIn := negb (Z.land (byte_at (en_setup e) 0) 0x80 =? 0) in
      if negb (Bool.eqb setupDirectionIn (en_direction e =? DirectionIn)) then false
      else if en_direction e =? DirectionIn then (length (en_data e) =? 0)%nat
      else negb (negb (Z.of_nat (length (en_data e)) =? en_transferLength e) ||
                 negb (en_transferLength e =? setup_length (en_setup e)) ||
                 (MaximumControlOut l <? en_transferLength e))
  else if en_lane e =? LaneInterruptIn then
    negb (negb (en_direction e =? DirectionIn) ||
          negb (bool_decide (en_route e = InterruptInRoute l)) ||
          negb (length (en_data e) =? 0)%nat || (en_transferLength e =? 0))
  else
    negb (negb (en_direction e =? DirectionOut) ||
          negb (bool_decide (en_route e = InterruptOutRoute l)) || (en_transferLength e =? 0) ||
          negb (Z.of_nat (length (en_data e)) =? en_transferLength e) ||
          (MaximumInterruptOut l <? en_transferLength e)).

Definition sequencePendingLocked (sequence : Z) (s : rsched) : bool :=
  existsb (fun slot => slot_sequence slot =? sequence) (all_jobs s).

Definition admission_closed (s : rsched) : bool :=
  match im_reservation (rs_import s) with Some _ => negb (im_open (rs_import s)) | None => false end.

Definition fresh_slot (e : retainedSubmissionEnvelope) (binding ordinal session : Z)
    (payload : list Z) : retainedSubmissionSlot := {|
  slot_state := retainedSubmissionRawQueued; slot_lane := en_lane e;
  slot_direction := en_direction e; slot_session := session; slot_binding := binding;
  slot_ordinal := ordinal; slot_sequence := en_sequence e;
  slot_transferLength := en_transferLength e; slot_setup := en_setup e; slot_route := en_route e;
  slot_lifecycle := en_lifecycle e; slot_payload := put_at 0 (en_data e) payload;
  slot_payloadLength := length (en_data e); slot_ticket := Ticket_zero; slot_pendingEpoch := 0;
  slot_retryAt := zero_time |}.

(** [None] is a nil error.  The slots are all in use: a response that is
    already visible frees one. *)
Definition enqueueWithFramingReservation (e : retainedSubmissionEnvelope) (requireReservation : bool)
    (s : rsched) : rsched * option rerr :=
  if negb (validateEnvelope e (rs_limits s)) then (s, Some ErrInvalidRequest)
  else match Lane_Index (en_lane e) with
  | None => (s, Some ErrInvalidRequest)
  | Some laneIndex =>
  if rs_closed s || rs_cancelled s || admission_closed s then
    (s, Some (if admission_closed s then ErrNotActivated else ErrClosed))
  else if requireReservation && negb (bool_decide (en_sequence e ∈ rs_framing s)) then
    (s, Some ErrInvalidRequest)
  else if negb requireReservation && bool_decide (en_sequence e ∈ rs_framing s) then
    (s, Some ErrDuplicateSequence)
  else if sequencePendingLocked (en_sequence e) s then (s, Some ErrDuplicateSequence)
  else if rs_nextOrdinal s =? maxUint64 then (s, Some ErrCounterExhausted)
  else
    let lf := rs_lifecycle s in
    if lf_pending lf then (s, Some ErrLifecycleCompletionPending)
    else
      let binding := if lf_configured lf then lf_binding lf else en_binding e in
      if lf_configured lf && negb (en_lane e =? LaneControl) &&
         ((lf_activeConfiguration lf =? 0) ||
          negb (AlternateSetting (en_route e) =? lf_activeAlternate lf))
      then (s, Some ErrInactiveRoute)
      else
        let q := lane_at s laneIndex in
        if (lq_freeCount q =? 0)%nat then
          (s, Some (if existsb (fun slot => bool_decide (slot_state slot = retainedSubmissionAdmitted) ||
                                  bool_decide (slot_state slot = retainedSubmissionTerminal)) (jobs q)
                    then ErrVisibleCompletionPending else ErrQueueFull))
        else
          let ordinal := rs_nextOrdinal s + 1 in
          let s := with_ordinal ordinal s in
          let s := set_lane laneIndex (push_slot (fresh_slot e binding ordinal (rs_session s)) q) s in
          (if requireReservation then with_framing (rs_framing s ∖ {[en_sequence e]}) s else s, None)
  end.

Definition enqueue (e : retainedSubmissionEnvelope) (s : rsched) : rsched * option rerr :=
  enqueueWithFramingReservation e false s.

Definition reserveFramingSequence (sequence : Z) (s : rsched) : rsched * option rerr :=
  if rs_closed s || rs_cancelled s then (s, Some ErrClosed)
  else if admission_closed s then (s, Some ErrNotActivated)
  else if sequencePendingLocked sequence s then (s, Some ErrDuplicateSequence)
  else if bool_decide (sequence ∈ rs_framing s) then (s, Some ErrDuplicateSequence)
  else (with_framing ({[sequence]} ∪ rs_framing s) s, None).

Definition finishImmediateFramingSequence (sequence : Z) (s : rsched) : rsched * option rerr :=
  if negb (bool_decide (sequence ∈ rs_framing s)) then (s, Some ErrInvalidRequest)
  else (with_framing (rs_framing s ∖ {[sequence]}) s, None).

Definition abandonFramingSequence (sequence : Z) (s : rsched) : rsched :=
  with_framing (rs_framing s ∖ {[sequence]}) s.

(** enqueueAfterVisibleCompletion and its reserved form: one retry per entry of
    [released], what other goroutines did until the channel was signalled;
    [None] when the loop still waits, [cancelled] ends it. *)
Fixpoint enqueueAfterVisibleCompletion (e : retainedSubmissionEnvelope) (require : bool)
    (released : list (rsched -> rsched * bool)) (s : rsched) : rsched * option (option rerr) :=
  match Lane_Index (en_lane e) with
  | None => (s, Some (Some ErrInvalidRequest))
  | Some _ =>
      let '(s, err) := enqueueWithFramingReservation e require s in
      match err with
      | Some ErrVisibleCompletionPending | Some ErrLifecycleCompletionPending =>
          match released with
          | [] => (s, None)
          | others :: released =>
              let '(s, cancelled) := others s in
              if cancelled then (s, Some (Some ErrClosed))
              else enqueueAfterVisibleCompletion e require released s
          end
      | err => (s, Some err)
      end
  end.

(** ** Selection *)

(** The loop of oldestEligibleLocked over the lanes from [laneIndex] on. *)
Fixpoint oldest_loop (attempted : list bool) (readinessEpoch now : Z) (s : rsched)
    (lanes : list lane_queue) (laneIndex : nat) (selected : option retainedSubmissionRef)
    (nextRetry : Z) : option retainedSubmissionRef * Z :=
  match lanes with
  | [] => (selected, nextRetry)
  | q :: lanes =>
      let continue := oldest_loop attempted readinessEpoch now s lanes (S laneIndex) in
      if (lq_orderCount q =? 0)%nat then continue selected nextRetry
      else
        let slotIndex := order_at q 0 in
        let slot := slot_at q slotIndex in
        let serviceAt := next_service s laneIndex in
        let earlier at_ := (nextRetry =? zero_time) || (at_ <? nextRetry) in
        if now <? serviceAt then
          continue selected (if earlier serviceAt then serviceAt else nextRetry)
        else
          let nextRetry :=
            if bool_decide (slot_state slot = retainedSubmissionPending) &&
               negb (slot_retryAt slot =? zero_time) && (now <? slot_retryAt slot) &&
               earlier (slot_retryAt slot)
            then slot_retryAt slot else nextRetry in
          let eligible :=
            match slot_state slot with
            | retainedSubmissionRawQueued | retainedSubmissionTicketed => true
            | retainedSubmissionPending =>
                (slot_pendingEpoch slot <? readinessEpoch) ||
                (negb (slot_retryAt slot =? zero_time) && negb (now <? slot_retryAt slot))
            | _ => false
            end in
          if nth laneIndex attempted false || negb eligible then continue selected nextRetry
          else
            let ref := {| ref_lane := laneIndex; ref_slot := slotIndex;
                          ref_ordinal := slot_ordinal slot |} in
            continue
              (match selected with
               | None => Some ref
               | Some old => if slot_ordinal slot <? ref_ordinal old then Some ref else Some old
               end) nextRetry
  end.

Definition oldestEligibleLocked (attempted : list bool) (readinessEpoch now : Z) (s : rsched) :
    option retainedSubmissionRef * Z :=
  oldest_loop attempted readinessEpoch now s (rs_lanes s) 0 None zero_time.

Definition hasEligible (readinessEpoch now : Z) (s : rsched) : bool :=
  match fst (oldestEligibleLocked [false; false; false] readinessEpoch now s) with
  | Some _ => true
  | None => false
  end.

(** ** Staging *)

Definition requestForSlotLocked (slot : retainedSubmissionSlot) : Request := {|
  rq_Lane := slot_lane slot; rq_Direction := slot_direction slot;
  rq_SessionGeneration := slot_session slot; rq_BindingGeneration := slot_binding slot;
  rq_IngressOrdinal := slot_ordinal slot; rq_Sequence := slot_sequence slot;
  rq_TransferLength := slot_transferLength slot; rq_Setup := slot_setup slot;
  rq_Route := slot_route slot; rq_Data := take (slot_payloadLength slot) (slot_payload slot) |}.

Definition same_ticket (t u : Ticket) : bool :=
  (tk_OwnerID u =? tk_OwnerID t) && (tk_Token u =? tk_Token t) &&
  (tk_Generation u =? tk_Generation t) && (tk_SessionGeneration u =? tk_SessionGeneration t).

(** The other submissions are those with another ordinal. *)
Definition ticketValidLocked (t : Ticket) (slot : retainedSubmissionSlot) (s : rsched) : bool :=
  if negb (Ticket_Valid t) || negb (tk_OwnerID t =? rc_ownerIdentity (rs_config s)) ||
     negb (tk_SessionGeneration t =? rs_session s) || negb (tk_Lane t =? slot_lane slot)
  then false
  else forallb (fun other =>
    (slot_ordinal other =? slot_ordinal slot) || negb (Ticket_Valid (slot_ticket other)) ||
    negb (same_ticket t (slot_ticket other))) (all_jobs s).

(** The refreshed EP0 submission that is handed to Stage. *)
Definition refresh_slot (resolve : option (list Z -> Z -> Z -> controlLifecycleSetup))
    (slot : retainedSubmissionSlot) (s : rsched) : retainedSubmissionSlot :=
  if (slot_lane slot =? LaneControl) && lf_configured (rs_lifecycle s) then
    with_binding (lf_binding (rs_lifecycle s))
      (match resolve with
       | Some f => f (slot_setup slot) (slot_direction slot) (slot_transferLength slot)
       | None => slot_lifecycle slot
       end) slot
  else slot.

(** The owner's answer to Stage: the ticket is kept, or the submission leaves
    the queue without an owner. *)
Definition stage_answer (ref : retainedSubmissionRef) (slot : retainedSubmissionSlot)
    (answer : result rerr Ticket) (s : rsched) : rsched * option rerr :=
  let reject e :=
    (removeRefLocked ref (put_slot ref (with_state retainedSubmissionLifecycleRetired slot) s),
     Some e) in
  match answer with
  | Err e => reject e
  | Ok t =>
      if ticketValidLocked t slot s
      then (put_slot ref (with_state retainedSubmissionTicketed (with_ticket t slot)) s, None)
      else reject ErrInvalidTicket
  end.

(** ** Preparation *)

Definition responseWindowLocked (slot : retainedSubmissionSlot) (l : Limits) : Z :=
  if slot_lane slot =? LaneControl then
    if negb (slot_direction slot =? DirectionIn) then 0
    else Z.min (Z.min (MaximumControlResponse l) (slot_transferLength slot))
           (setup_length (slot_setup slot))
  else if slot_lane slot =? LaneInterruptIn then
    Z.min (MaximumInterruptIn l) (slot_transferLength slot)
  else 0.

Definition selection (r n : Z) : lateResponseSelection := {| ls_Result := r; ls_ActualLength := n |}.

Definition validatePreparationLocked (slot : retainedSubmissionSlot) (p : Preparation)
    (responseWindow attemptAt : Z) (s : rsched) : result rerr lateResponseSelection :=
  if negb (Result_Valid (pr_Result p)) then Err ErrInvalidPreparation
  else if pr_Result p =? ResultPending then
    if negb (pr_ActualLength p =? 0) ||
       (negb (pr_RetryAt p =? zero_time) && negb (attemptAt <? pr_RetryAt p)) ||
       (pr_ReadinessEpoch p <? rs_lastReadinessEpoch s) || (pr_ReadinessEpoch p =? maxUint64)
    then Err ErrInvalidPreparation
    else Ok (selection lateResponsePending 0)
  else if negb (pr_RetryAt p =? zero_time) || negb (pr_ReadinessEpoch p =? 0)
  then Err ErrInvalidPreparation
  else if pr_Result p =? ResultData then
    if (pr_ActualLength p =? 0) || (slot_lane slot =? LaneInterruptOut) ||
       ((slot_lane slot =? LaneControl) && negb (slot_direction slot =? DirectionIn)) ||
       (responseWindow <? pr_ActualLength p)
    then Err ErrInvalidPreparation
    else Ok (selection lateResponseData (pr_ActualLength p))
  else if pr_Result p =? ResultSuccess then
    if slot_lane slot =? LaneInterruptIn then Err ErrInvalidPreparation
    else
      let expected := if slot_direction slot =? DirectionOut then slot_transferLength slot else 0 in
      if negb (pr_ActualLength p =? expected) then Err ErrInvalidPreparation
      else Ok (selection lateResponseSuccess (pr_ActualLength p))
  else if pr_Result p =? ResultStall then
    if (slot_lane slot =? LaneInterruptIn) || negb (pr_ActualLength p =? 0)
    then Err ErrInvalidPreparation
    else Ok (selection lateResponseStall 0)
  else Err ErrInvalidPreparation.

(** The submission the preparation callback may present: still owned, ticketed,
    of this session and at the head of its lane. *)
Definition prepare_guard (ref : retainedSubmissionRef) (s : rsched) : option retainedSubmissionSlot :=
  match slotForRefLocked ref s with
  | None => None
  | Some slot =>
      if rs_closed s || rs_cancelled s ||
         (negb (bool_decide (slot_state slot = retainedSubmissionTicketed)) &&
          negb (bool_decide (slot_state slot = retainedSubmissionPending))) ||
         negb (slot_session slot =? rs_session s) || negb (is_head ref s)
      then None else Some slot
  end.

(** How the preparation callback ends. *)
Inductive prepared :=
| PrepLost
| PrepErr (e : rerr)
| PrepPending (epoch : Z)
| PrepAdmitted (sel : lateResponseSelection) (lifecycleTerminal : bool).

Definition set_lf_pending (b : bool) (s : rsched) : rsched :=
  let lf := rs_lifecycle s in
  with_lifecycle {| lf_configured := lf_configured lf; lf_binding := lf_binding lf; lf_pending := b;
    lf_activeConfiguration := lf_activeConfiguration lf;
    lf_activeAlternate := lf_activeAlternate lf; lf_published := lf_published lf |} s.

(** The rest of the callback, once Prepare has answered. *)
Definition prepare_answer (ref : retainedSubmissionRef) (slot : retainedSubmissionSlot)
    (selectedAt : Z) (answer : result rerr Preparation) (s : rsched) : rsched * prepared :=
  match answer with
  | Err e => (s, PrepErr e)
  | Ok p =>
      if rs_cancelled s then (s, PrepLost)
      else match validatePreparationLocked slot p (responseWindowLocked slot (rs_limits s)) selectedAt s with
      | Err e => (s, PrepErr e)
      | Ok sel =>
          if pr_Result p =? ResultPending then
            (put_slot ref (with_pending (pr_ReadinessEpoch p) (pr_RetryAt p)
                             (with_state retainedSubmissionPending slot)) s,
             PrepPending (pr_ReadinessEpoch p))
          else
            let lifecycleTerminal := lc_accepted (slot_lifecycle slot) && (pr_Result p =? ResultSuccess) in
            if lifecycleTerminal && lf_pending (rs_lifecycle s) then (s, PrepErr ErrInvalidPreparation)
            else
              let s := if lifecycleTerminal then set_lf_pending true s else s in
              let s := put_slot ref (with_pending 0 zero_time
                                       (with_state retainedSubmissionAdmitted slot)) s in
              (advanceEndpointCadenceLocked (ref_lane ref) selectedAt s, PrepAdmitted sel lifecycleTerminal)
      end
  end.

(** ** Completion *)

Definition releaseLifecycleBarrierLocked (s : rsched) : rsched :=
  if negb (lf_pending (rs_lifecycle s)) then s else set_lf_pending false s.

Definition applyControlLifecycleRoutingLocked (lc : controlLifecycleSetup) (s : rsched) : rsched :=
  let s := resetEndpointCadenceLocked lc s in
  let lf := rs_lifecycle s in
  match lc_kind lc with
  | controlLifecycleSetInterface =>
      with_lifecycle {| lf_configured := lf_configured lf; lf_binding := lf_binding lf;
        lf_pending := lf_pending lf; lf_activeConfiguration := lf_activeConfiguration lf;
        lf_activeAlternate := lc_alternateSetting lc; lf_published := lf_published lf |} s
  | controlLifecycleSetConfiguration =>
      with_lifecycle {| lf_configured := lf_configured lf; lf_binding := lf_binding lf;
        lf_pending := lf_pending lf; lf_activeConfiguration := lc_configurationValue lc;
        lf_activeAlternate := 0; lf_published := lf_published lf |} s
  | _ => s
  end.

Definition set_lf_binding (n : Z) (s : rsched) : rsched :=
  let lf := rs_lifecycle s in
  with_lifecycle {| lf_configured := lf_configured lf; lf_binding := n; lf_pending := lf_pending lf;
    lf_activeConfiguration := lf_activeConfiguration lf;
    lf_activeAlternate := lf_activeAlternate lf; lf_published := lf_published lf |} s.

(** publishControlLifecycle *)
Definition publish (lc : controlLifecycleSetup) (s : rsched) : rsched :=
  let lf := rs_lifecycle s in
  with_lifecycle {| lf_configured := lf_configured lf; lf_binding := lf_binding lf;
    lf_pending := lf_pending lf; lf_activeConfiguration := lf_activeConfiguration lf;
    lf_activeAlternate := lf_activeAlternate lf; lf_published := lf_published lf ++ [lc] |} s.

(** The first section of the completion callback, after Complete answered: the
    state, the error so far and the delivered lifecycle with its successor
    generation; [None] when the submission was not the one prepared. *)
Definition complete_answer (ref : retainedSubmissionRef) (preparedTicket : Ticket)
    (lifecycleTerminal delivered : bool) (completionErr : option rerr) (s : rsched) :
    rsched * option (option rerr * option (controlLifecycleSetup * Z)) :=
  match slotForRefLocked ref s with
  | Some slot =>
      if negb (bool_decide (slot_state slot = retainedSubmissionAdmitted)) ||
         negb (bool_decide (slot_ticket slot = preparedTicket))
      then (if lifecycleTerminal then releaseLifecycleBarrierLocked s else s, None)
      else
        let applyLifecycle := delivered && match completionErr with None => true | Some _ => false end &&
                              lifecycleTerminal && lf_configured (rs_lifecycle s) in
        let '(s, completionErr, apply) :=
          if applyLifecycle then
            if lf_binding (rs_lifecycle s) =? maxUint64 then (s, Some ErrCounterExhausted, None)
            else
              let successor := lf_binding (rs_lifecycle s) + 1 in
              (set_lf_binding successor s, completionErr, Some (slot_lifecycle slot, successor))
          else (s, completionErr, None) in
        (removeRefLocked ref (put_slot ref (with_state retainedSubmissionTerminal slot) s),
         Some (completionErr, apply))
  | None => (if lifecycleTerminal then releaseLifecycleBarrierLocked s else s, None)
  end.

(** The last section, for a lifecycle response. *)
Definition complete_lifecycle (published : option controlLifecycleSetup) (s : rsched) : rsched :=
  let s := match published with
           | Some lc => applyControlLifecycleRoutingLocked lc s
           | None => s
           end in
  releaseLifecycleBarrierLocked s.

(** ** Retirement *)

Record retainedSubmissionRetirement := {
  re_ref : retainedSubmissionRef;
  re_ticket : Ticket;
}.

(** The last section of retireOne. *)
Definition retire_finish (ref : retainedSubmissionRef) (s : rsched) : rsched :=
  match slotForRefLocked ref s with
  | Some slot => if bool_decide (slot_state slot = retainedSubmissionLifecycleRetired)
                 then removeRefLocked ref s else s
  | None => s
  end.

(** [retireOne] calls the owner for a nonzero ticket. *)
Definition retire_calls (ticket : Ticket) : bool := negb (bool_decide (ticket = Ticket_zero)).

(** The first section of retireRefIfOwned. *)
Definition retire_owned (ref : retainedSubmissionRef) (s : rsched) : rsched * option Ticket :=
  match slotForRefLocked ref s with
  | Some slot =>
      if bool_decide (slot_state slot = retainedSubmissionTicketed) ||
         bool_decide (slot_state slot = retainedSubmissionPending)
      then (put_slot ref (with_state retainedSubmissionLifecycleRetired slot) s,
            Some (slot_ticket slot))
      else (s, None)
  | None => (s, None)
  end.

Fixpoint find_in_lane (sequence : Z) (q : lane_queue) (laneIndex : nat) (es : list nat) :
    option retainedSubmissionRef :=
  match es with
  | [] => None
  | i :: es =>
      if slot_sequence (slot_at q i) =? sequence
      then Some {| ref_lane := laneIndex; ref_slot := i; ref_ordinal := slot_ordinal (slot_at q i) |}
      else find_in_lane sequence q laneIndex es
  end.

Fixpoint find_in_lanes (sequence : Z) (lanes : list lane_queue) (laneIndex : nat) :
    option retainedSubmissionRef :=
  match lanes with
  | [] => None
  | q :: lanes =>
      match find_in_lane sequence q laneIndex (entries q) with
      | Some ref => Some ref
      | None => find_in_lanes sequence lanes (S laneIndex)
      end
  end.

Definition findSequenceLocked (sequence : Z) (s : rsched) : option retainedSubmissionRef :=
  find_in_lanes sequence (rs_lanes s) 0.

(** The section of unlink: [None] is a submission past unlinking; otherwise the
    retirement still to perform, if it has an owner. *)
Definition unlink_section (sequence : Z) (s : rsched) :
    rsched * option (option retainedSubmissionRetirement) :=
  match findSequenceLocked sequence s with
  | None => (s, None)
  | Some ref =>
      let slot := slot_at (lane_at s (ref_lane ref)) (ref_slot ref) in
      match slot_state slot with
      | retainedSubmissionAdmitted | retainedSubmissionTerminal
      | retainedSubmissionLifecycleRetired => (s, None)
      | retainedSubmissionRawQueued =>
          (removeRefLocked ref (put_slot ref (with_state retainedSubmissionLifecycleRetired slot) s),
           Some None)
      | _ =>
          (put_slot ref (with_state retainedSubmissionLifecycleRetired slot) s,
           Some (Some {| re_ref := ref; re_ticket := slot_ticket slot |}))
      end
  end.

(** The loop of retireMatching over one lane: positions below [n], from the
    back. *)
Fixpoint collect_lane (matches : retainedSubmissionSlot -> bool) (laneIndex n : nat) (s : rsched)
    (retirements : list retainedSubmissionRetirement) : rsched * list retainedSubmissionRetirement :=
  match n with
  | O => (s, retirements)
  | S position =>
      let slotIndex := order_at (lane_at s laneIndex) position in
      let slot := slot_at (lane_at s laneIndex) slotIndex in
      let ref := {| ref_lane := laneIndex; ref_slot := slotIndex; ref_ordinal := slot_ordinal slot |} in
      let retired := put_slot ref (with_state retainedSubmissionLifecycleRetired slot) s in
      if negb (matches slot) then collect_lane matches laneIndex position s retirements
      else
        match slot_state slot with
        | retainedSubmissionAdmitted | retainedSubmissionTerminal
        | retainedSubmissionLifecycleRetired => collect_lane matches laneIndex position s retirements
        | retainedSubmissionRawQueued =>
            collect_lane matches laneIndex position (removeRefLocked ref retired) retirements
        | _ => collect_lane matches laneIndex position retired
                 (retirements ++ [{| re_ref := ref; re_ticket := slot_ticket slot |}])
        end
  end.

(** The section of retireMatching, over the lanes [from], [from + 1], ... *)
Fixpoint collect_lanes (matches : retainedSubmissionSlot -> bool) (lanes from : nat) (s : rsched)
    (retirements : list retainedSubmissionRetirement) : rsched * list retainedSubmissionRetirement :=
  match lanes with
  | O => (s, retirements)
  | S lanes =>
      let '(s, retirements) :=
        collect_lane matches from (lq_orderCount (lane_at s from)) s retirements in
      collect_lanes matches lanes (S from) s retirements
  end.

Definition collect_retirements (matches : retainedSubmissionSlot -> bool) (s : rsched) :
    rsched * list retainedSubmissionRetirement :=
  collect_lanes matches (length (rs_lanes s)) 0 s [].

(** What the callers of retireMatching select. *)
Definition match_session (session : Z) (slot : retainedSubmissionSlot) : bool :=
  slot_session slot =? session.

Definition match_lane (index : nat) (slot : retainedSubmissionSlot) : bool :=
  (default 0%nat (Lane_Index (slot_lane slot)) =? index)%nat.

Definition match_binding (lane : Z) (route : Route) (generation : Z)
    (slot : retainedSubmissionSlot) : bool :=
  (slot_lane slot =? lane) && bool_decide (slot_route slot = route) && (slot_binding slot =? generation).

Definition match_lifecycle (lc : controlLifecycleSetup) (successor : Z)
    (slot : retainedSubmissionSlot) : bool :=
  negb (slot_lane slot =? LaneControl) && (slot_binding slot <? successor) &&
  match lc_kind lc with
  | controlLifecycleClearEndpointHalt => rt_EndpointAddress (slot_route slot) =? lc_endpointAddress lc
  | controlLifecycleSetInterface => InterfaceNumber (slot_route slot) =? lc_interfaceNumber lc
  | _ => true
  end.

Definition lifecycle_reason (lc : controlLifecycleSetup) : option Z :=
  match lc_kind lc with
  | controlLifecycleClearEndpointHalt => Some RetireEndpointReset
  | controlLifecycleSetInterface => Some RetireInterfaceReset
  | controlLifecycleSetConfiguration => Some RetireConfigurationChange
  | controlLifecycleNone => None
  end.

(** ** Failures and closing *)

Definition recordFailure (e : rerr) (s : rsched) : rsched :=
  match rs_failure s with
  | None => with_failure (Some e) (rs_retirement s) s
  | Some f => if negb (errors_Is f e) then with_failure (Some (ErrJoined f e)) (rs_retirement s) s else s
  end.

Definition record_failure (e : option rerr) (s : rsched) : rsched :=
  match e with None => s | Some e => recordFailure e s end.

(** The sections of shutdown before it retires the session: the scheduler is
    closed and its context cancelled. *)
Definition shutdown_begin (s : rsched) : rsched := with_run true true (rs_started s) s.

(** close, up to its wait: the admission is revoked with the queue.  The result
    is whether a worker will retire the session. *)
Definition close_begin (s : rsched) : rsched * bool :=
  let s := with_run true (rs_cancelled s) (rs_started s) s in
  let s := match im_reservation (rs_import s) with
           | Some _ => with_import (set_admission false retainedImportActivationRevoked (rs_import s)) s
           | None => s
           end in
  (with_run true true (rs_started s) s, rs_started s).

(** ** The import boundary *)

Definition owns_reservation (r : reservation) (s : rsched) : bool :=
  bool_decide (im_reservation (rs_import s) = Some r).

Definition activation_is (a : Z) (s : rsched) : bool := im_activation (rs_import s) =? a.

(** importBinding's [parked]. *)
Definition parked (s : rsched) : bool :=
  negb (rs_started s) && negb (rs_closed s) && negb (im_activated (rs_import s)) &&
  negb (rs_cancelled s) && match im_reservation (rs_import s) with Some _ => true | None => false end &&
  activation_is retainedImportActivationParked s.

Definition activateImport (r : reservation) (s : rsched) : rsched * option rerr :=
  if negb (owns_reservation r s) || im_open (rs_import s) || im_activated (rs_import s) ||
     rs_started s || rs_closed s || rs_cancelled s ||
     negb (activation_is retainedImportActivationParked s)
  then (s, Some ErrLeaseRejected)
  else
    let i := rs_import s in
    let s := with_import {| im_reservation := im_reservation i; im_open := im_open i;
      im_activation := retainedImportActivationStarted; im_activated := true;
      im_resetFence := im_resetFence i; im_resetDrained := im_resetDrained i;
      im_resetActive := im_resetActive i |} s in
    (with_run (rs_closed s) (rs_cancelled s) true s, None).

Definition openAdmission (r : reservation) (s : rsched) : rsched * option rerr :=
  if negb (owns_reservation r s) || negb (im_activated (rs_import s)) || negb (rs_started s) ||
     rs_closed s || rs_cancelled s || match rs_failure s with Some _ => true | None => false end ||
     im_open (rs_import s) || negb (activation_is retainedImportActivationStarted s)
  then (s, Some (match rs_failure s with
                 | Some f => ErrJoined ErrLeaseRejected f
                 | None => ErrLeaseRejected
                 end))
  else (with_import (set_admission true (im_activation (rs_import s)) (rs_import s)) s, None).

Definition closeAdmission (r : reservation) (s : rsched) : rsched * option rerr :=
  if negb (owns_reservation r s) then (s, Some ErrLeaseRejected)
  else (with_import (set_admission false retainedImportActivationRevoked (rs_import s)) s, None).

(** fenceReset does not wait for the mutex: its tests and its writes are
    atomic operations of a reader of the import state. *)
Definition fenceReset (r : reservation) (reset : ImportResetLease) (s : rsched) :
    rsched * option rerr :=
  if negb (ImportResetLease_Valid reset) || negb (bool_decide (rl_ImportLease reset = rv_lease r)) ||
     negb (owns_reservation r s) || negb (activation_is retainedImportActivationStarted s) ||
     im_resetActive (rs_import s)
  then (s, Some ErrLeaseRejected)
  else (with_import (set_admission false (im_activation (rs_import s))
          (set_reset (Some reset) false true (rs_import s))) s, None).

(** The fence the two reset operations require. *)
Definition reset_fenced (r : reservation) (reset : ImportResetLease) (s : rsched) : bool :=
  owns_reservation r s && im_resetActive (rs_import s) &&
  bool_decide (im_resetFence (rs_import s) = Some reset) && negb (im_open (rs_import s)) &&
  activation_is retainedImportActivationStarted s.

(** The tests of resetAndDrain before it waits for the service admission. *)
Definition reset_precheck (r : reservation) (reset : ImportResetLease) (s : rsched) : bool :=
  ImportResetLease_Valid reset && bool_decide (rl_ImportLease reset = rv_lease r) &&
  reset_fenced r reset s.

(** Its section once it owns the admission. *)
Definition reset_begin (r : reservation) (reset : ImportResetLease) (s : rsched) : bool :=
  im_activated (rs_import s) && rs_started s && negb (rs_closed s) && negb (rs_cancelled s) &&
  match rs_failure s with Some _ => false | None => true end &&
  im_resetActive (rs_import s) && bool_decide (im_resetFence (rs_import s) = Some reset) &&
  negb (im_resetDrained (rs_import s)) && negb (im_open (rs_import s)) &&
  activation_is retainedImportActivationStarted s.

(** Its last section. *)
Definition reset_end (r : reservation) (reset : ImportResetLease) (late : bool) (s : rsched) :
    rsched * option rerr :=
  if late then (s, Some ErrCloseTimedOut)
  else if rs_closed s || rs_cancelled s || match rs_failure s with Some _ => true | None => false end ||
     negb (reset_fenced r reset s) || negb (emptyLocked s)
  then (s, Some ErrLeaseRejected)
  else (with_import (set_reset (im_resetFence (rs_import s)) true true (rs_import s)) s, None).

Definition reopenAfterReset (r : reservation) (reset : ImportResetLease) (s : rsched) :
    rsched * option rerr :=
  if negb (ImportResetLease_Valid reset) || rs_closed s || rs_cancelled s ||
     match rs_failure s with Some _ => true | None => false end ||
     negb (reset_fenced r reset s) || negb (im_resetDrained (rs_import s)) || negb (emptyLocked s)
  then (s, Some ErrLeaseRejected)
  else
    let s := with_import (set_admission true (im_activation (rs_import s))
               (set_reset None false false (rs_import s))) s in
    (with_cadence {| cd_configured := cd_configured (rs_cadence s);
       cd_intervals := cd_intervals (rs_cadence s);
       cd_nextService := [zero_time; zero_time; zero_time] |} s, None).

(** The section of pollImportRetirement for the owner's answer; [Some None] is
    the zero request. *)
Definition retirement_answer (answer : option (result rerr (option ImportRetirementRequest)))
    (s : rsched) : rsched * option rerr :=
  match answer with
  | None => (s, None)
  | Some (Err e) => (s, Some (ErrWrapped e))
  | Some (Ok None) => (s, None)
  | Some (Ok (Some request)) =>
      if negb (ImportRetirementRequest_Valid request) ||
         negb (match im_reservation (rs_import s) with
               | Some r => bool_decide (ir_Lease request = rv_lease r)
               | None => false
               end) ||
         negb (il_OwnerID (ir_Lease request) =? rc_ownerIdentity (rs_config s)) ||
         negb (il_SessionGeneration (ir_Lease request) =? rs_session s) ||
         negb (im_activated (rs_import s)) || negb (rs_started s)
      then (s, Some ErrLeaseRejected)
      else match rs_failure s with
      | Some f => (s, Some f)
      | None =>
          if match rs_retirement s with
             | Some old => negb (bool_decide (old = request))
             | None => false
             end
          then (s, Some ErrLeaseRejected)
          else if rs_closed s || rs_cancelled s then (s, Some ErrClosed)
          else
            let s := with_failure (rs_failure s) (Some request) s in
            (with_import (set_admission false retainedImportActivationRevoked (rs_import s)) s,
             Some ErrOwnerRetirement)
      end
  end.

(** ** Readiness *)

Definition readiness_answer (channel_id : Z) (first : result rerr (Z * option channel))
    (received : option bool) (second : result rerr (Z * option channel)) (s : rsched) :
    rsched * result rerr Z :=
  match sampleRetainedReadiness first received second (Some channel_id) (rs_lastReadinessEpoch s) with
  | Err e => (s, Err e)
  | Ok (epoch, _) => (with_epoch epoch s, Ok epoch)
  end.

(** ** The owner and the composed operations *)

(** The device-side half; a panic is an error.  Prepare fills its destination. *)
Record Owner (OS : Type) := {
  Stage : OS -> Request -> OS * result rerr Ticket;
  Prepare : OS -> Ticket -> list Z -> Z -> OS * (list Z * result rerr Preparation);
  Complete : OS -> Ticket -> bool -> Z -> OS * option rerr;
  Retire : OS -> Ticket -> Z -> Z -> OS * option rerr;
  Readiness : OS -> OS * result rerr (Z * option channel);
  RetainedImportRetirement : option (OS -> OS * result rerr (option ImportRetirementRequest));
}.
Arguments Stage {OS} _.
Arguments Prepare {OS} _.
Arguments Complete {OS} _.
Arguments Retire {OS} _.
Arguments Readiness {OS} _.
Arguments RetainedImportRetirement {OS} _.

(** A point between two sections: the clock, what other goroutines did, and
    what a receive on the readiness channel finds. *)
Record rmoment (OS : Type) := {
  rm_now : Z;
  rm_others : rsched -> OS -> rsched * OS;
  rm_received : option bool;
}.
Arguments rm_now {OS} _.
Arguments rm_others {OS} _.
Arguments rm_received {OS} _.

Section Composed.
Context {W : Type} `{Writer W, !Flusher W} {OS : Type} (owner : Owner OS)
  (resolve : option (list Z -> Z -> Z -> controlLifecycleSetup)) (channel_id : Z).
Local Notation moments := (nat -> rmoment OS).
Implicit Types (s : rsched) (o : OS) (t : moments).

Definition rpause (m : rmoment OS) (s : rsched) (o : OS) : rsched * OS := rm_others m s o.

Definition retireOne (t : moments) (re : retainedSubmissionRetirement) (reason now : Z) s o :
    rsched * OS * option rerr :=
  let '(o, err) := if retire_calls (re_ticket re) then Retire owner o (re_ticket re) reason now
                   else (o, None) in
  let '(s, o) := rpause (t 0%nat) s o in
  (retire_finish (re_ref re) s, o, err).

Fixpoint retire_all (t : moments) (res : list retainedSubmissionRetirement) (reason now : Z)
    (joined : option rerr) s o : rsched * OS * option rerr :=
  match res with
  | [] => (s, o, joined)
  | re :: res =>
      let '(s, o) := rpause (t 0%nat) s o in
      let '(s, o, err) := retireOne (fun k => t (1 + k)%nat) re reason now s o in
      retire_all (fun k => t (2 + k)%nat) res reason now
        (match err with Some e => Some (errors_Join joined e) | None => joined end) s o
  end.

Definition retireMatching (t : moments) (matches : retainedSubmissionSlot -> bool) (reason now : Z) s o :
    rsched * OS * option rerr :=
  let '(s, res) := collect_retirements matches s in
  retire_all t res reason now None s o.

Definition retireSession (t : moments) (session reason now : Z) s o : rsched * OS * option rerr :=
  if (session =? 0) || negb (session =? rs_session s) || negb (RetireReason_Valid reason)
  then (s, o, Some ErrInvalidRequest)
  else retireMatching t (match_session session) reason now s o.

Definition retireLane (t : moments) (lane reason now : Z) s o : rsched * OS * option rerr :=
  match Lane_Index lane with
  | Some index => if RetireReason_Valid reason then retireMatching t (match_lane index) reason now s o
                  else (s, o, Some ErrInvalidRequest)
  | None => (s, o, Some ErrInvalidRequest)
  end.

Definition retireBinding (t : moments) (route : Route) (generation reason now : Z) s o :
    rsched * OS * option rerr :=
  if (generation =? 0) || negb (RetireReason_Valid reason) then (s, o, Some ErrInvalidRequest)
  else if bool_decide (route = InterruptInRoute (rs_limits s))
  then retireMatching t (match_binding LaneInterruptIn route generation) reason now s o
  else if bool_decide (route = InterruptOutRoute (rs_limits s))
  then retireMatching t (match_binding LaneInterruptOut route generation) reason now s o
  else (s, o, Some ErrInvalidRequest).

Definition retireDeliveredControlLifecycle (t : moments) (lc : controlLifecycleSetup)
    (successor now : Z) s o : rsched * OS * option rerr :=
  if negb (lc_accepted lc) || (successor =? 0) then (s, o, Some ErrInvalidRequest)
  else match lifecycle_reason lc with
  | None => (s, o, Some ErrInvalidRequest)
  | Some reason => retireMatching t (match_lifecycle lc successor) reason now s o
  end.

Definition retireRefIfOwned (t : moments) (ref : retainedSubmissionRef) (reason now : Z) s o :
    rsched * OS * option rerr :=
  let '(s, ticket) := retire_owned ref s in
  match ticket with
  | None => (s, o, None)
  | Some ticket =>
      let '(s, o) := rpause (t 0%nat) s o in
      retireOne (fun k => t (1 + k)%nat) {| re_ref := ref; re_ticket := ticket |} reason now s o
  end.

(** The boolean is whether the submission was unlinked. *)
Definition unlink (t : moments) (sequence now : Z) s o : rsched * OS * (bool * option rerr) :=
  let '(s, r) := unlink_section sequence s in
  match r with
  | None => (s, o, (false, None))
  | Some None => (s, o, (true, None))
  | Some (Some re) =>
      let '(s, o) := rpause (t 0%nat) s o in
      let '(s, o, err) := retireOne (fun k => t (1 + k)%nat) re RetireUnlink now s o in
      (record_failure err s, o, (true, err))
  end.

Definition readReadiness (t : moments) s o : rsched * OS * result rerr Z :=
  let '(o, first) := Readiness owner o in
  let '(o, second) :=
    match first, rm_received (t 0%nat) with
    | Ok _, Some true => Readiness owner o
    | _, _ => (o, first)
    end in
  let '(s, r) := readiness_answer channel_id first (rm_received (t 0%nat)) second s in
  (s, o, r).

Definition pollImportRetirement s o : rsched * OS * option rerr :=
  match RetainedImportRetirement owner with
  | None => (s, o, None)
  | Some query =>
      let '(o, answer) := query o in
      let '(s, err) := retirement_answer (Some answer) s in
      (s, o, err)
  end.

(** The variables the callbacks of attempt share. *)
Record attempt_vars := {
  av_ticket : Ticket;
  av_lost : bool;
  av_epoch : Z;
  av_lifecycle : bool;
}.

Definition attempt_prepare (t : moments) (ref : retainedSubmissionRef) (attemptAt : Z) :
    prepare_func (rsched * OS * attempt_vars) rerr := fun '(s, o, av) payload =>
  let '(s, o) := rpause (t 0%nat) s o in
  match prepare_guard ref s with
  | None =>
      (s, o, {| av_ticket := av_ticket av; av_lost := true; av_epoch := av_epoch av;
                av_lifecycle := av_lifecycle av |}, payload, Ok (selection lateResponsePending 0))
  | Some slot =>
      let selectedAt := if cd_configured (rs_cadence s) then rm_now (t 0%nat) else attemptAt in
      let window := Z.to_nat (responseWindowLocked slot (rs_limits s)) in
      let '(o, (destination, answer)) :=
        Prepare owner o (slot_ticket slot) (take window payload) selectedAt in
      let payload := destination ++ drop window payload in
      let '(s, r) := prepare_answer ref slot selectedAt answer s in
      let av lost epoch lifecycle := {| av_ticket := slot_ticket slot; av_lost := lost;
                                        av_epoch := epoch; av_lifecycle := lifecycle |} in
      match r with
      | PrepLost => (s, o, av true 0 false, payload, Ok (selection lateResponsePending 0))
      | PrepErr e => (s, o, av false 0 false, payload, Err e)
      | PrepPending epoch => (s, o, av false epoch false, payload, Ok (selection lateResponsePending 0))
      | PrepAdmitted sel lifecycle => (s, o, av false 0 lifecycle, payload, Ok sel)
      end
  end.

Definition attempt_complete (t : moments) (ref : retainedSubmissionRef) :
    complete_func (rsched * OS * attempt_vars) rerr := fun '(s, o, av) delivered =>
  let completedAt := rm_now (t 0%nat) in
  let '(s, o) := rpause (t 0%nat) s o in
  let '(o, completionErr) := Complete owner o (av_ticket av) delivered completedAt in
  let '(s, o) := rpause (t 1%nat) s o in
  let '(s, r) := complete_answer ref (av_ticket av) (av_lifecycle av) delivered completionErr s in
  match r with
  | None => (s, o, av, Some (match completionErr with
                             | Some e => ErrJoined ErrInvalidTicket e
                             | None => ErrInvalidTicket
                             end))
  | Some (completionErr, apply) =>
      let '(s, o, completionErr, published) :=
        match apply with
        | None => (s, o, completionErr, None)
        | Some (lc, successor) =>
            let '(s, o) := rpause (t 2%nat) s o in
            let '(s, o, err) :=
              retireDeliveredControlLifecycle (fun k => t (3 + k)%nat) lc successor completedAt s o in
            match err with
            | None => (publish lc s, o, completionErr, Some lc)
            | Some e => (s, o, Some (errors_Join completionErr e), None)
            end
        end in
      let s := if av_lifecycle av then complete_lifecycle published s else s in
      (s, o, av, completionErr)
  end.

(** The error writeLateRetSubmit returns to attempt. *)
Definition late_error (e : late_err rerr) : rerr :=
  match e with
  | LatePreparation e | LateCompletion e => ErrWrapped e
  | LateDelivery e None => ErrWrapped (ErrIO e)
  | LateDelivery e (Some c) => ErrWrapped (ErrJoined (ErrIO e) c)
  | _ => ErrLateResponse
  end.

Definition sequenceForRef (ref : retainedSubmissionRef) s : Z :=
  match slotForRefLocked ref s with Some slot => slot_sequence slot | None => 0 end.

(** The results are terminal, pending and the error. *)
Definition attempt (t : moments) (ref : retainedSubmissionRef) (attemptAt : Z) (out : W) s o :
    W * rsched * OS * (bool * bool * option rerr) :=
  let av := {| av_ticket := Ticket_zero; av_lost := false; av_epoch := 0; av_lifecycle := false |} in
  let '(out, (s, o, av), _, written, err) :=
    writeLateRetSubmit out (s, o, av) (sequenceForRef ref s) (maximumResponseLength s)
      (Some (attempt_prepare t ref attemptAt)) (Some (attempt_complete (fun k => t (1 + k)%nat) ref)) in
  let retire (k : nat) e s o :=
    let '(s, o) := rpause (t k) s o in
    let '(s, o, retireErr) :=
      retireRefIfOwned (fun i => t (S k + i)%nat) ref RetirePrepareFailure (rm_now (t k)) s o in
    (out, s, o, (false, false, Some (match retireErr with Some r => ErrJoined e r | None => e end))) in
  match err with
  | Some e =>
      if negb written && negb (av_lost av) then retire 1%nat (late_error e) s o
      else (out, s, o, (written, false, Some (late_error e)))
  | None =>
      if written then (out, s, o, (true, false, None))
      else if av_lost av then (out, s, o, (false, false, None))
      else
        let '(s, o) := rpause (t 1%nat) s o in
        if rs_cancelled s then (out, s, o, (false, false, None))
        else
          let '(s, o, r) := readReadiness (fun k => t (2 + k)%nat) s o in
          match r with
          | Err e => retire 3%nat e s o
          | Ok published =>
              if published <? av_epoch av then retire 3%nat ErrInvalidPreparation s o
              else (out, s, o, (false, true, None))
          end
  end.

(** The loop of serviceRound; [None] when the fuel ran out. *)
Fixpoint service_loop (fuel : nat) (t : moments) (attempted : list bool) (readinessEpoch now : Z)
    (out : W) s o : W * rsched * OS * option (bool * Z * option rerr) :=
  match fuel with
  | O => (out, s, o, None)
  | S fuel =>
      let '(s, o) := rpause (t 0%nat) s o in
      if rs_closed s || rs_cancelled s then (out, s, o, Some (false, zero_time, Some ErrClosed))
      else
        match oldestEligibleLocked attempted readinessEpoch now s with
        | (None, nextRetry) => (out, s, o, Some (false, nextRetry, None))
        | (Some ref, _) =>
            let slot := slot_at (lane_at s (ref_lane ref)) (ref_slot ref) in
            let '(s, o, stageErr) :=
              if bool_decide (slot_state slot = retainedSubmissionRawQueued) then
                let slot := refresh_slot resolve slot s in
                let s := put_slot ref slot s in
                let '(o, answer) := Stage owner o (requestForSlotLocked slot) in
                let '(s, err) := stage_answer ref slot answer s in
                (s, o, err)
              else (s, o, None) in
            match stageErr with
            | Some e => (out, s, o, Some (false, zero_time, Some e))
            | None =>
                let '(out, s, o, (terminal, pending, err)) := attempt (fun k => t (1 + k)%nat) ref now out s o in
                match err with
                | Some e => (out, s, o, Some (terminal, zero_time, Some e))
                | None =>
                    if terminal then (out, s, o, Some (true, zero_time, None))
                    else service_loop fuel (fun k => t (100 + k)%nat)
                           (if pending then <[ref_lane ref := true]> attempted else attempted)
                           readinessEpoch now out s o
                end
            end
        end
  end.

Definition serviceRound (fuel : nat) (t : moments) (now : Z) (out : W) s o :
    W * rsched * OS * option (bool * Z * option rerr) :=
  if rs_cancelled s then (out, s, o, Some (false, zero_time, Some ErrClosed))
  else
    let '(s, o, err) := pollImportRetirement s o in
    match err with
    | Some e => (out, s, o, Some (false, zero_time, Some e))
    | None =>
        let '(s, o, r) := readReadiness t s o in
        match r with
        | Err e => (out, s, o, Some (false, zero_time, Some e))
        | Ok epoch =>
            service_loop fuel (fun k => t (1 + k)%nat) [false; false; false] epoch now out s o
        end
    end.

Definition shutdown (t : moments) (reason now : Z) s o : rsched * OS * option rerr :=
  let s := shutdown_begin s in
  let '(s, o) := rpause (t 0%nat) s o in
  retireSession (fun k => t (1 + k)%nat) (rs_session s) reason now s o.

(** close of a scheduler whose worker never ran; with a worker it waits for the
    worker's shutdown. *)
Definition close (t : moments) s o : rsched * OS * option rerr :=
  let '(s, started) := close_begin s in
  let '(s, o) := rpause (t 0%nat) s o in
  let '(s, o) :=
    if started then (s, o)
    else
      let '(s, o, err) := shutdown (fun k => t (1 + k)%nat) RetireConnectionClose (rm_now (t 0%nat)) s o in
      (record_failure err s, o) in
  (s, o, rs_failure s).

Definition finishWorkerFailure (t : moments) (e : rerr) (now : Z) s o : rsched * OS :=
  let requested := match rs_retirement s with
                   | Some r => ImportRetirementRequest_Valid r
                   | None => false
                   end in
  let '(reason, s) :=
    if bool_decide (e = ErrOwnerRetirement) && requested then (RetireOwnerRequested, s)
    else (RetireInvariantFailure, recordFailure e s) in
  let '(s, o, err) := shutdown t reason now s o in
  (record_failure err s, o).

(** One round of the service goroutine. *)
Inductive round_end :=
| RoundAgain
| RoundWait (nextRetry : Z)
| RoundStopped
| RoundCut.

Definition run_round (fuel : nat) (t : moments) (out : W) s o : W * rsched * OS * round_end :=
  let now := rm_now (t 0%nat) in
  let '(out, s, o, r) := serviceRound fuel (fun k => t (3 + k)%nat) now out s o in
  let stop s o reason :=
    let '(s, o, err) := shutdown (fun k => t (1000 + k)%nat) reason (rm_now (t 1%nat)) s o in
    (out, record_failure err s, o, RoundStopped) in
  match r with
  | None => (out, s, o, RoundCut)
  | Some (progressed, nextRetry, err) =>
      let closed := match err with Some e => errors_Is e ErrClosed | None => false end in
      if match err with Some _ => negb closed | None => false end then
        let '(s, o) := finishWorkerFailure (fun k => t (1000 + k)%nat) (default ErrClosed err) now s o in
        (out, s, o, RoundStopped)
      else if closed || rs_cancelled s then stop s o RetireConnectionClose
      else if progressed then (out, s, o, RoundAgain)
      else
        let '(s, o, r) := readReadiness (fun k => t (1 + k)%nat) s o in
        match r with
        | Err e => stop (recordFailure e s) o RetireInvariantFailure
        | Ok epoch =>
            let '(s, o, err) := pollImportRetirement s o in
            match err with
            | Some e =>
                if errors_Is e ErrClosed then stop s o RetireConnectionClose
                else
                  let '(s, o) := finishWorkerFailure (fun k => t (1000 + k)%nat) e (rm_now (t 1%nat)) s o in
                  (out, s, o, RoundStopped)
            | None =>
                if hasEligible epoch (rm_now (t 2%nat)) s then (out, s, o, RoundAgain)
                else (out, s, o, RoundWait nextRetry)
            end
        end
  end.

(** resetAndDrain: [deadline] is tested at each point; [admitted] is whether
    the service admission was acquired before the deadline and the context. *)
Definition resetAndDrain (t : moments) (r : reservation) (reset : ImportResetLease) (deadline : Z)
    (admitted : bool) s o : rsched * OS * option rerr :=
  let late k := deadline <=? rm_now (t k) in
  if negb (reset_precheck r reset s) then (s, o, Some ErrLeaseRejected)
  else if late 0%nat then (s, o, Some ErrCloseTimedOut)
  else
    let '(s, o) := rpause (t 1%nat) s o in
    if negb admitted then (s, o, Some (if rs_cancelled s then ErrClosed else ErrCloseTimedOut))
    else if late 1%nat then (s, o, Some ErrCloseTimedOut)
    else if negb (reset_begin r reset s) then (s, o, Some ErrLeaseRejected)
    else
      let '(s, o) := rpause (t 2%nat) s o in
      let '(s, o, err) :=
        retireSession (fun k => t (4 + k)%nat) (rs_session s) RetireDeviceReset (rm_now (t 2%nat)) s o in
      match err with
      | Some e => (s, o, Some e)
      | None =>
          let '(s, o) := rpause (t 3%nat) s o in
          let '(s, err) := reset_end r reset (late 3%nat) s in
          (s, o, err)
      end.
End Composed.
