(* ===== verification/RetainedQueues.v ===== *)
(** * The queues of the retained scheduler

    What the three lanes guarantee together: each is a first-in first-out queue
    whose followers are raw, a reference finds its submission for as long as it
    is queued, and every change of the lanes adds, replaces or removes one
    submission. *)

From Stdlib Require Sorted.
From S2P Require Import Prelude Bytes GoIO UsbIp Hid Descriptor Urb Control.
From S2P Require Import ResponseWriter RetainedUsb RetainedTopology RetainedLane Retained.

Implicit Types (s : rsched) (q : lane_queue) (ref : retainedSubmissionRef)
  (slot x : retainedSubmissionSlot).

Definition lane_depth (l : Limits) (i : nat) : nat := Z.to_nat (depth_of l i).

Record lane_inv (l : Limits) (i : nat) (q : lane_queue) : Prop := {
  li_ok : lane_ok (lane_depth l i) (slab_of l i) q;
  li_tail : Forall (fun x => slot_state x = retainedSubmissionRawQueued) (drop 1 (jobs q));
  li_lane : Forall (fun x => Lane_Index (slot_lane x) = Some i) (jobs q);
  li_sorted : Sorted.StronglySorted Z.lt (map slot_ordinal (jobs q));
}.

Record lanes_ok s : Prop := {
  lo_three : length (rs_lanes s) = 3%nat;
  lo_lane i q : rs_lanes s !! i = Some q -> lane_inv (rs_limits s) i q;
}.

Lemma lane_at_lookup s i q : rs_lanes s !! i = Some q -> lane_at s i = q.
Proof. intros Hq. unfold lane_at. by apply nth_lookup_Some. Qed.

Lemma lanes_lookup s i : lanes_ok s -> (i < 3)%nat -> rs_lanes s !! i = Some (lane_at s i).
Proof.
  intros [Hl _] Hi. destruct (lookup_lt_is_Some_2 (rs_lanes s) i) as [q Hq]; [lia|].
  by rewrite (lane_at_lookup s i q Hq).
Qed.

(** ** References *)

Lemma ref_slot_cases ref s slot :
  slotForRefLocked ref s = Some slot ->
  (ref_lane ref < length (rs_lanes s))%nat /\
  slot = slot_at (lane_at s (ref_lane ref)) (ref_slot ref) /\
  slot_state slot <> retainedSubmissionFree /\ slot_ordinal slot = ref_ordinal ref.
Proof.
  unfold slotForRefLocked. repeat case_if; try done. intros [= <-]. bool_prop. bdec.
  split_and!; [lia|done|done|lia].
Qed.

Lemma ref_slot_intro ref s slot :
  (ref_lane ref < length (rs_lanes s))%nat ->
  (ref_slot ref < length (lq_slots (lane_at s (ref_lane ref))))%nat ->
  slot_at (lane_at s (ref_lane ref)) (ref_slot ref) = slot ->
  slot_state slot <> retainedSubmissionFree -> slot_ordinal slot = ref_ordinal ref ->
  slotForRefLocked ref s = Some slot.
Proof.
  intros Hl Hs <- Hst Hord. unfold slotForRefLocked.
  rewrite (proj2 (Nat.ltb_lt _ _) Hl), (proj2 (Nat.ltb_lt _ _) Hs), (proj2 (Z.eqb_eq _ _) Hord).
  by rewrite bool_decide_eq_false_2.
Qed.

(** Slots of the lane under [ref] differ from [s] to [s'] only at [ref]'s slot;
    other references see the same submissions. *)
Lemma ref_slot_frame ref2 i j s s' :
  length (rs_lanes s') = length (rs_lanes s) ->
  length (lq_slots (lane_at s' i)) = length (lq_slots (lane_at s i)) ->
  (forall k, k <> i -> lane_at s' k = lane_at s k) ->
  (forall k, k <> j -> slot_at (lane_at s' i) k = slot_at (lane_at s i) k) ->
  (slot_state (slot_at (lane_at s i) j) = retainedSubmissionFree \/
   slot_ordinal (slot_at (lane_at s i) j) <> ref_ordinal ref2) ->
  (slot_state (slot_at (lane_at s' i) j) = retainedSubmissionFree \/
   slot_ordinal (slot_at (lane_at s' i) j) <> ref_ordinal ref2) ->
  slotForRefLocked ref2 s' = slotForRefLocked ref2 s.
Proof.
  intros Hlen Hslots Hlanes Hat Hold Hnew. unfold slotForRefLocked. rewrite Hlen.
  case_if; [done|]. destruct (decide (ref_lane ref2 = i)) as [->|Hi]; [|by rewrite Hlanes].
  rewrite Hslots. case_if; [done|].
  destruct (decide (ref_slot ref2 = j)) as [->|Hj]; [|by rewrite Hat].
  assert (Hno : forall x, slot_state x = retainedSubmissionFree \/ slot_ordinal x <> ref_ordinal ref2 ->
    negb (bool_decide (slot_state x = retainedSubmissionFree)) &&
    (slot_ordinal x =? ref_ordinal ref2) = false).
  { intros x [->|Hx]; [done|]. rewrite (proj2 (Z.eqb_neq _ _) Hx). apply andb_false_r. }
  by rewrite (Hno _ Hold), (Hno _ Hnew).
Qed.

Lemma ref_position ref s slot :
  lanes_ok s -> slotForRefLocked ref s = Some slot ->
  exists q k, rs_lanes s !! ref_lane ref = Some q /\ lane_at s (ref_lane ref) = q /\
    lane_inv (rs_limits s) (ref_lane ref) q /\ (k < lq_orderCount q)%nat /\
    order_at q k = ref_slot ref /\ jobs q !! k = Some slot.
Proof.
  intros Ho (Hl & -> & Hs & _)%ref_slot_cases. pose proof Ho as [H3 Hinv]. rewrite H3 in Hl.
  pose proof (lanes_lookup s _ Ho Hl) as Hq. pose proof (Hinv _ _ Hq) as Hi.
  destruct (slot_position _ _ _ _ (li_ok _ _ _ Hi) Hs) as (k & Hk & Hord & Hj).
  exists (lane_at s (ref_lane ref)), k. by split_and!.
Qed.

(** ** One lane replaced *)

Lemma lane_at_set i q s : (i < length (rs_lanes s))%nat -> lane_at (set_lane i q s) i = q.
Proof. intros Hi. apply lane_at_lookup. cbn. by apply list_lookup_insert_eq. Qed.

Lemma lane_at_set_ne i j q s : j <> i -> lane_at (set_lane i q s) j = lane_at s j.
Proof. intros Hj. unfold lane_at. cbn. by rewrite !nth_lookup, list_lookup_insert_ne. Qed.

Lemma lanes_ok_set i q s :
  lanes_ok s -> lane_inv (rs_limits s) i q -> lanes_ok (set_lane i q s).
Proof.
  intros [H3 Hinv] Hq. split; [cbn; by rewrite length_insert|].
  intros j p Hj. change (rs_limits (set_lane i q s)) with (rs_limits s). cbn in Hj.
  destruct (decide (j = i)) as [->|Hne].
  - apply list_lookup_insert_Some in Hj as [(_ & <- & _)|[? _]]; [done|done].
  - rewrite list_lookup_insert_ne in Hj by done. by apply Hinv.
Qed.

(** The other lanes keep their submissions. *)
Lemma all_jobs_set i s q :
  rs_lanes s !! i = Some q ->
  exists rest, all_jobs s ≡ₚ jobs q ++ rest /\
    forall q', all_jobs (set_lane i q' s) ≡ₚ jobs q' ++ rest.
Proof.
  intros Hq. exists (concat (map jobs (take i (rs_lanes s))) ++ concat (map jobs (drop (S i) (rs_lanes s)))).
  split.
  - unfold all_jobs. rewrite <-(take_drop_middle _ _ _ Hq) at 1.
    rewrite map_app, concat_app. cbn. solve_Permutation.
  - intros q'. unfold all_jobs. cbn. rewrite insert_take_drop by (by eapply lookup_lt_Some).
    rewrite map_app, concat_app. cbn. solve_Permutation.
Qed.

(** ** Replacing, removing and appending a submission *)

Lemma drop_insert_head {A} (P : A -> Prop) (l : list A) k y :
  Forall P (drop 1 l) -> (k = 0%nat \/ P y) -> Forall P (drop 1 (<[k := y]> l)).
Proof.
  destruct l as [|a l]; [destruct k; by constructor|]. cbn [drop]. intros Hl [->|Hy]; [done|].
  destruct k as [|k]; [done|]. cbn. by apply Forall_insert.
Qed.

Lemma map_insert_same {A B} (f : A -> B) (l : list A) (k : nat) (x y : A) :
  l !! k = Some x -> f y = f x -> map f (<[k := y]> l) = map f l.
Proof.
  intros Hx Hf. change (f <$> <[k := y]> l = f <$> l). rewrite list_fmap_insert. rewrite Hf.
  apply list_insert_id. by rewrite list_lookup_fmap, Hx.
Qed.

Lemma remove_insert {A} (l : list A) k y :
  take k (<[k := y]> l) ++ drop (S k) (<[k := y]> l) = take k l ++ drop (S k) l.
Proof. by rewrite take_insert_ge, drop_insert_lt by lia. Qed.

Lemma sorted_remove (l : list Z) k :
  Sorted.StronglySorted Z.lt l -> Sorted.StronglySorted Z.lt (take k l ++ drop (S k) l).
Proof.
  intros Hs. revert k. induction Hs as [|a l Hs IH Ha]; intros [|k]; cbn; try done; try constructor; try done.
  rewrite <-(take_drop k l) in Ha. apply list.Forall_app in Ha as [H1 H2].
  apply list.Forall_app. split; [done|]. apply (Forall_drop _ 1) in H2.
  by rewrite drop_drop, Nat.add_1_r in H2.
Qed.

(** What a change of the lanes does: [gone] leaves and [new] enters the queues,
    and references to other submissions keep seeing them. *)
Record effect s s' (gone new : list retainedSubmissionSlot) : Prop := {
  ef_lanes : lanes_ok s';
  ef_config : rs_config s' = rs_config s;
  ef_jobs : exists rest, all_jobs s ≡ₚ gone ++ rest /\ all_jobs s' ≡ₚ new ++ rest;
  ef_refs ref2 : Forall (fun x => slot_ordinal x <> ref_ordinal ref2) (gone ++ new) ->
    slotForRefLocked ref2 s' = slotForRefLocked ref2 s;
}.

Lemma put_slot_lane ref slot s :
  (ref_lane ref < length (rs_lanes s))%nat ->
  lane_at (put_slot ref slot s) (ref_lane ref) =
    set_slot (ref_slot ref) slot (lane_at s (ref_lane ref)).
Proof. intros Hl. unfold put_slot. by apply lane_at_set. Qed.

(** A submission replaced by another image of itself. *)
Lemma put_slot_effect ref slot slot' s :
  lanes_ok s -> slotForRefLocked ref s = Some slot ->
  slot_ordinal slot' = slot_ordinal slot -> slot_lane slot' = slot_lane slot ->
  length (slot_payload slot') = length (slot_payload slot) ->
  slot_state slot' <> retainedSubmissionFree ->
  (slot_state slot <> retainedSubmissionRawQueued \/ slot_state slot' = retainedSubmissionRawQueued \/
   is_head ref s = true) ->
  effect s (put_slot ref slot' s) [slot] [slot'] /\
  slotForRefLocked ref (put_slot ref slot' s) = Some slot'.
Proof.
  intros Ho Hr Hord Hlane Hlen Hst Hhead.
  destruct (ref_position _ _ _ Ho Hr) as (q & k & Hq & Hlq & Hi & Hk & Hok & Hjk).
  pose proof (ref_slot_cases _ _ _ Hr) as (Hlt & Hsl & Hns & Hro).
  destruct Hi as [Hi1 Hi2 Hi3 Hi4].
  destruct (job_slot _ _ _ _ _ Hi1 Hjk) as (_ & Hs & _ & Hdep).
  assert (Hlq' : lane_at (put_slot ref slot' s) (ref_lane ref) = set_slot (ref_slot ref) slot' q)
    by (by rewrite put_slot_lane, Hlq).
  assert (Hcap : length (slot_payload slot') = slab_of (rs_limits s) (ref_lane ref)).
  { rewrite Hlen, <-Hs. by eapply slot_payload_length. }
  assert (Hj' : jobs (set_slot (ref_slot ref) slot' q) = <[k := slot']> (jobs q)).
  { rewrite <-Hok. by eapply jobs_set_slot. }
  assert (Hsat : forall j, slot_at (set_slot (ref_slot ref) slot' q) j =
    if bool_decide (j = ref_slot ref) then slot' else slot_at q j).
  { intros j. apply slot_at_insert. rewrite (lk_slots _ _ _ Hi1), <-Hok. done. }
  split; [split|].
  - apply lanes_ok_set; [done|]. rewrite Hlq. split.
    + rewrite <-Hok. by apply lane_ok_set_slot.
    + rewrite Hj'. apply drop_insert_head; [done|].
      destruct Hhead as [Hn|[Hraw|Hh]]; [|by right|].
      * left. destruct k as [|k]; [done|]. exfalso. apply Hn.
        rewrite list.Forall_forall in Hi2. apply Hi2. apply list_elem_of_lookup. exists k.
        by rewrite lookup_drop.
      * left. unfold is_head in Hh. rewrite Hlq in Hh. apply Nat.eqb_eq in Hh.
        pose proof (entries_NoDup _ _ _ Hi1) as Hn.
        eapply (NoDup_lookup _ _ _ (ref_slot ref) Hn).
        -- rewrite entries_lookup by done. by rewrite Hok.
        -- rewrite entries_lookup by lia. by rewrite Hh.
    + rewrite Hj'. apply Forall_insert; [done|]. rewrite Hlane.
      rewrite list.Forall_forall in Hi3. apply Hi3. by eapply list_elem_of_lookup_2.
    + rewrite Hj'. by rewrite (map_insert_same _ _ _ slot).
  - done.
  - destruct (all_jobs_set _ _ _ Hq) as (rest & H1 & H2).
    exists (take k (jobs q) ++ drop (S k) (jobs q) ++ rest). split.
    + rewrite H1. rewrite <-(take_drop_middle _ _ _ Hjk) at 1. solve_Permutation.
    + unfold put_slot. rewrite H2, Hlq, Hj'.
      rewrite insert_take_drop by (rewrite length_jobs; done). solve_Permutation.
  - intros ref2 Hne. apply list.Forall_app in Hne as [Hne1 Hne2].
    inversion_clear Hne1. inversion_clear Hne2.
    apply (ref_slot_frame ref2 (ref_lane ref) (ref_slot ref)); rewrite ?Hlq', ?Hlq.
    + cbn. apply length_insert.
    + cbn. apply length_insert.
    + intros j Hj. by apply lane_at_set_ne.
    + intros j Hj. by rewrite Hsat, bool_decide_false.
    + right. rewrite <-Hlq, <-Hsl. done.
    + right. by rewrite Hsat, bool_decide_true.
  - apply ref_slot_intro; rewrite ?Hlq'; [| |by rewrite Hsat, bool_decide_true|done|lia].
    + cbn. by rewrite length_insert.
    + cbn. rewrite length_insert, (lk_slots _ _ _ Hi1), <-Hok. done.
Qed.

(** A queued submission removed, whatever its last image was. *)
Lemma remove_lane_effect ref slot q1 s :
  lanes_ok s -> slotForRefLocked ref s = Some slot ->
  (q1 = lane_at s (ref_lane ref) \/ exists slot', q1 = set_slot (ref_slot ref) slot' (lane_at s (ref_lane ref)) /\
     length (slot_payload slot') = length (slot_payload slot) /\
     slot_state slot' <> retainedSubmissionFree) ->
  effect s (set_lane (ref_lane ref) (remove_slot (ref_slot ref) q1) s) [slot] [] /\
  slotForRefLocked ref (set_lane (ref_lane ref) (remove_slot (ref_slot ref) q1) s) = None.
Proof.
  intros Ho Hr Hq1.
  destruct (ref_position _ _ _ Ho Hr) as (q & k & Hq & Hlq & Hi & Hk & Hok & Hjk).
  pose proof (ref_slot_cases _ _ _ Hr) as (Hlt & Hsl & Hns & Hro).
  destruct Hi as [Hi1 Hi2 Hi3 Hi4]. rewrite Hlq in Hq1, Hsl.
  destruct (job_slot _ _ _ _ _ Hi1 Hjk) as (_ & Hs & _ & Hdep).
  assert (H1 : lane_ok (lane_depth (rs_limits s) (ref_lane ref)) (slab_of (rs_limits s) (ref_lane ref)) q1 /\
    lq_orderCount q1 = lq_orderCount q /\ order_at q1 k = ref_slot ref /\
    take k (jobs q1) ++ drop (S k) (jobs q1) = take k (jobs q) ++ drop (S k) (jobs q) /\
    length (lq_slots q1) = length (lq_slots q) /\
    forall j, j <> ref_slot ref -> slot_at q1 j = slot_at q j).
  { destruct Hq1 as [->|(slot' & -> & Hlen & Hst)]; [by split_and!|].
    rewrite <-Hok. split_and!; try done.
    - apply lane_ok_set_slot; [done|done| |done]. rewrite Hlen, <-Hs. by eapply slot_payload_length.
    - rewrite (jobs_set_slot _ _ _ _ _ Hi1 Hk). apply remove_insert.
    - cbn. apply length_insert.
    - intros j Hj. rewrite slot_at_insert by (rewrite (lk_slots _ _ _ Hi1); done).
      by rewrite bool_decide_false. }
  destruct H1 as (Hok1 & Hc1 & Ho1 & Hj1 & Hl1 & Hsat1).
  destruct (remove_slot_spec _ _ q1 k Hok1) as (Hok2 & Hj2 & Hf2 & Hsat2); [lia|].
  rewrite Ho1 in Hok2, Hj2, Hf2, Hsat2. rewrite Hj1 in Hj2.
  set (q2 := remove_slot (ref_slot ref) q1) in *.
  assert (Hinv2 : lane_inv (rs_limits s) (ref_lane ref) q2).
  { split; [done| | |]; rewrite Hj2.
    - destruct k as [|k]; [apply Forall_drop, Hi2|].
      destruct (jobs q) as [|a l]; [done|]. cbn in *.
      apply list.Forall_app; split; [by apply Forall_take|by apply Forall_drop].
    - apply list.Forall_app; split; [by apply Forall_take|by apply Forall_drop].
    - rewrite map_app, <-firstn_map, <-skipn_map. by apply sorted_remove. }
  assert (Hlen2 : length (lq_slots q2) = length (lq_slots q)).
  { by rewrite (lk_slots _ _ _ Hok2), (lk_slots _ _ _ Hi1). }
  split; [split|].
  - by apply lanes_ok_set.
  - done.
  - destruct (all_jobs_set _ _ _ Hq) as (rest & E1 & E2). exists (jobs q2 ++ rest). split.
    + rewrite E1, Hj2. rewrite <-(take_drop_middle _ _ _ Hjk) at 1. solve_Permutation.
    + apply E2.
  - intros ref2 Hne. inversion_clear Hne.
    apply (ref_slot_frame ref2 (ref_lane ref) (ref_slot ref)); rewrite ?lane_at_set, ?Hlq by done.
    + cbn. apply length_insert.
    + done.
    + intros j Hj. by apply lane_at_set_ne.
    + intros j Hj. rewrite Hsat2, Hsat1 by done. done.
    + right. by rewrite <-Hsl.
    + left. done.
  - unfold slotForRefLocked. rewrite lane_at_set by done. fold q2. rewrite Hf2.
    by repeat case_if.
Qed.

Lemma set_lane_twice i q q' s : set_lane i q' (set_lane i q s) = set_lane i q' s.
Proof. unfold set_lane, with_lanes. cbn. by rewrite list_insert_insert_eq. Qed.

Lemma remove_put_effect ref slot slot' s :
  lanes_ok s -> slotForRefLocked ref s = Some slot ->
  length (slot_payload slot') = length (slot_payload slot) ->
  slot_state slot' <> retainedSubmissionFree ->
  effect s (removeRefLocked ref (put_slot ref slot' s)) [slot] [] /\
  slotForRefLocked ref (removeRefLocked ref (put_slot ref slot' s)) = None.
Proof.
  intros Ho Hr Hlen Hst. pose proof (ref_slot_cases _ _ _ Hr) as (Hlt & _).
  unfold removeRefLocked. rewrite put_slot_lane by done. unfold put_slot. rewrite set_lane_twice.
  apply remove_lane_effect; [done|done|]. right. by exists slot'.
Qed.

Lemma remove_effect ref slot s :
  lanes_ok s -> slotForRefLocked ref s = Some slot ->
  effect s (removeRefLocked ref s) [slot] [] /\ slotForRefLocked ref (removeRefLocked ref s) = None.
Proof. intros Ho Hr. apply remove_lane_effect; [done|done|by left]. Qed.

(** A new submission behind the others of its lane. *)
Lemma push_effect i (fill : list Z -> retainedSubmissionSlot) ordinal s :
  lanes_ok s -> (i < 3)%nat -> (0 < lq_freeCount (lane_at s i))%nat ->
  (forall p, length p = slab_of (rs_limits s) i ->
     length (slot_payload (fill p)) = slab_of (rs_limits s) i) ->
  (forall p, slot_state (fill p) = retainedSubmissionRawQueued /\ slot_ordinal (fill p) = ordinal /\
     Lane_Index (slot_lane (fill p)) = Some i) ->
  Forall (fun x => slot_ordinal x < ordinal) (all_jobs s) ->
  exists p, length p = slab_of (rs_limits s) i /\
    effect s (set_lane i (push_slot fill (lane_at s i)) s) [] [fill p].
Proof.
  intros Ho Hi3 Hf Hpay Hfill Hlast. pose proof (lanes_lookup s i Ho Hi3) as Hq.
  set (q := lane_at s i) in *. pose proof (lo_lane _ Ho _ _ Hq) as [H1 H2 H3 H4].
  destruct (push_slot_spec _ _ q fill H1 Hf) as (j & p & Hp & Hok & Hj & Hfree & Hsat).
  { intros p Hp. split; [by apply Hpay|]. by destruct (Hfill p) as (-> & _). }
  destruct (Hfill p) as (Hst & Hord & Hln). exists p. split; [done|].
  destruct (all_jobs_set _ _ _ Hq) as (rest & E1 & E2).
  assert (Hlq : Forall (fun x => slot_ordinal x < ordinal) (jobs q)).
  { rewrite E1 in Hlast. by apply list.Forall_app in Hlast as [? _]. }
  pose proof (lo_three _ Ho) as Hlen.
  split.
  - apply lanes_ok_set; [done|]. split; [done|..]; rewrite Hj.
    + destruct (jobs q) as [|a l]; [constructor|]. cbn in *. apply list.Forall_app. auto.
    + apply list.Forall_app. auto.
    + rewrite map_app. cbn. clear -H4 Hlq Hord. induction (jobs q) as [|a l IH]; cbn in *.
      * repeat constructor.
      * apply Sorted.StronglySorted_inv in H4 as [Hs Ha]. apply list.Forall_cons in Hlq as [Ha2 Hl2].
        constructor; [by apply IH|]. apply list.Forall_app. split; [done|]. constructor; [lia|constructor].
  - done.
  - exists (all_jobs s). split; [done|]. rewrite E2, Hj, E1. solve_Permutation.
  - intros ref2 Hne. inversion_clear Hne.
    apply (ref_slot_frame ref2 i j); rewrite ?lane_at_set by lia; fold q.
    + cbn. apply length_insert.
    + by rewrite (lk_slots _ _ _ Hok), (lk_slots _ _ _ H1).
    + intros k Hk. by apply lane_at_set_ne.
    + intros k Hk. by rewrite Hsat, bool_decide_false.
    + by left.
    + right. by rewrite Hsat, bool_decide_true.
Qed.

(** An empty scheduler. *)
Lemma build_lanes_ok session pd c s :
  Limits_wf (cs_limits c) -> buildRetainedSubmissionSchedulerWithSnapshot session pd c = Ok s ->
  lanes_ok s /\ all_jobs s = [] /\ rs_nextOrdinal s = 0 /\ rs_framing s = ∅ /\
  lf_pending (rs_lifecycle s) = false /\ rs_session s = session /\ session <> 0.
Proof.
  intros Hw. unfold buildRetainedSubmissionSchedulerWithSnapshot. repeat case_if; try done. intros [= <-].
  bool_prop. split_and!; try done. split; [done|].
  intros i q Hq. cbn in Hq.
  assert (Hi : (i < 3)%nat) by (apply lookup_lt_Some in Hq; cbn in Hq; lia).
  assert (Hqi : q = new_lane (lane_depth (cs_limits c) i) (slab_of (cs_limits c) i)).
  { destruct i as [|[|[|]]]; cbn in Hq; [by simplify_eq..|lia]. }
  subst q. split; [|constructor..].
  apply new_lane_ok. unfold lane_depth, depth_of, rs_limits. cbn.
  destruct (lookup_lt_is_Some_2 (QueueDepth (cs_limits c)) i) as [d Hd].
  { by rewrite (lw_depths _ Hw). }
  rewrite (nth_lookup_Some _ _ _ _ Hd).
  pose proof (Limits_Valid_depths _ _ _ Hw ltac:(eassumption) Hd). lia.
Qed.

(** ** Selection *)

Definition slot_eligible (readinessEpoch now : Z) slot : bool :=
  match slot_state slot with
  | retainedSubmissionRawQueued | retainedSubmissionTicketed => true
  | retainedSubmissionPending =>
      (slot_pendingEpoch slot <? readinessEpoch) ||
      (negb (slot_retryAt slot =? zero_time) && negb (now <? slot_retryAt slot))
  | _ => false
  end.

(** The head of lane [i] may be served now. *)
Definition candidate (attempted : list bool) (readinessEpoch now : Z) s (i : nat) q : bool :=
  negb (lq_orderCount q =? 0)%nat && negb (now <? next_service s i) &&
  negb (nth i attempted false) && slot_eligible readinessEpoch now (slot_at q (order_at q 0)).

Definition head_ref (i : nat) q : retainedSubmissionRef :=
  {| ref_lane := i; ref_slot := order_at q 0; ref_ordinal := slot_ordinal (slot_at q (order_at q 0)) |}.

Lemma oldest_loop_spec attempted epoch now s lanes i selected retry res retry' :
  oldest_loop attempted epoch now s lanes i selected retry = (res, retry') ->
  match res with
  | None => selected = None /\ forall k q, lanes !! k = Some q ->
      candidate attempted epoch now s (i + k) q = false
  | Some ref =>
      (selected = Some ref \/ exists k q, lanes !! k = Some q /\
         candidate attempted epoch now s (i + k) q = true /\ ref = head_ref (i + k) q) /\
      (forall old, selected = Some old -> ref_ordinal ref <= ref_ordinal old) /\
      forall k q, lanes !! k = Some q -> candidate attempted epoch now s (i + k) q = true ->
        ref_ordinal ref <= ref_ordinal (head_ref (i + k) q)
  end.
Proof.
  revert i selected retry. induction lanes as [|q lanes IH]; intros i selected retry; cbn [oldest_loop].
  { intros [= <- <-]. destruct selected as [ref|]; [|done]. split_and!; [by left| |done].
    intros old [= ->]. lia. }
  assert (Hskip : forall retry1, candidate attempted epoch now s i q = false ->
    oldest_loop attempted epoch now s lanes (S i) selected retry1 = (res, retry') -> match res with
    | None => selected = None /\ forall k q0, (q :: lanes) !! k = Some q0 ->
        candidate attempted epoch now s (i + k) q0 = false
    | Some ref =>
        (selected = Some ref \/ exists k q0, (q :: lanes) !! k = Some q0 /\
           candidate attempted epoch now s (i + k) q0 = true /\ ref = head_ref (i + k) q0) /\
        (forall old, selected = Some old -> ref_ordinal ref <= ref_ordinal old) /\
        forall k q0, (q :: lanes) !! k = Some q0 -> candidate attempted epoch now s (i + k) q0 = true ->
          ref_ordinal ref <= ref_ordinal (head_ref (i + k) q0)
    end).
  { intros retry1 Hc Hl. apply IH in Hl. destruct res as [ref|].
    - destruct Hl as (H1 & H2 & H3). split_and!; [|done|].
      + destruct H1 as [?|(k & q0 & Hk & Hq & ->)]; [by left|]. right. exists (S k), q0.
        by rewrite Nat.add_succ_r.
      + intros [|k] q0 Hk; cbn in Hk; [injection Hk as <-; by rewrite Nat.add_0_r, Hc|].
        rewrite Nat.add_succ_r. by apply H3.
    - destruct Hl as [-> H2]. split; [done|]. intros [|k] q0 Hk; cbn in Hk.
      + injection Hk as <-. by rewrite Nat.add_0_r.
      + rewrite Nat.add_succ_r. by apply H2. }
  unfold candidate in Hskip at 1. fold (slot_eligible epoch now (slot_at q (order_at q 0))).
  destruct (lq_orderCount q =? 0)%nat eqn:E0; [by apply Hskip|].
  destruct (now <? next_service s i) eqn:E1; [by apply Hskip|].
  destruct (nth i attempted false) eqn:E2; [by apply Hskip|].
  destruct (slot_eligible epoch now _) eqn:E3; cbn [negb orb]; [|by apply Hskip].
  clear Hskip. set (ref0 := Build_retainedSubmissionRef _ _ _). intros Hl. apply IH in Hl.
  assert (Hc : candidate attempted epoch now s (i + 0) q = true).
  { unfold candidate. rewrite Nat.add_0_r. by rewrite E0, E1, E2, E3. }
  assert (Hr0 : ref0 = head_ref (i + 0) q) by (by rewrite Nat.add_0_r).
  set (sel1 := match selected with None => _ | Some old => _ end) in Hl.
  assert (Hs1 : exists ref1, sel1 = Some ref1 /\ (selected = Some ref1 \/ ref1 = ref0) /\
    ref_ordinal ref1 <= ref_ordinal ref0 /\
    forall old, selected = Some old -> ref_ordinal ref1 <= ref_ordinal old).
  { unfold sel1. destruct selected as [old|].
    - cbn [ref_ordinal]. destruct (Z.ltb_spec (slot_ordinal (slot_at q (order_at q 0))) (ref_ordinal old)).
      + exists ref0. cbn. split_and!; [done|by right|lia|]. intros ? [= <-]. lia.
      + exists old. cbn. split_and!; [done|by left|lia|]. intros ? [= <-]. lia.
    - exists ref0. split_and!; [done|by right|lia|done]. }
  destruct Hs1 as (ref1 & Hs1 & Hor & Hle & Hold). rewrite Hs1 in Hl.
  destruct res as [ref|]; [|by destruct Hl].
  destruct Hl as (H1 & H2 & H3). specialize (H2 ref1 eq_refl). split_and!.
  - destruct H1 as [[= ->]|(k & q0 & Hk & Hq & ->)].
    + destruct Hor as [->| ->]; [by left|]. right. exists 0%nat, q. by split_and!.
    + right. exists (S k), q0. by rewrite Nat.add_succ_r.
  - intros old Ho. specialize (Hold old Ho). lia.
  - intros [|k] q0 Hk; cbn in Hk.
    + injection Hk as <-. intros _. rewrite <-Hr0. lia.
    + rewrite Nat.add_succ_r. by apply H3.
Qed.

Lemma oldest_selected attempted epoch now s ref retry :
  oldestEligibleLocked attempted epoch now s = (Some ref, retry) ->
  exists q, rs_lanes s !! ref_lane ref = Some q /\ lane_at s (ref_lane ref) = q /\
    candidate attempted epoch now s (ref_lane ref) q = true /\ ref = head_ref (ref_lane ref) q /\
    is_head ref s = true.
Proof.
  intros Ho. apply oldest_loop_spec in Ho as ([|(k & q & Hk & Hc & ->)] & _); [done|].
  cbn in *. exists q. rewrite (lane_at_lookup s k q Hk). split_and!; try done.
  unfold is_head. cbn. rewrite (lane_at_lookup s k q Hk). apply Nat.eqb_refl.
Qed.

Lemma put_slot_twice ref a b s :
  (ref_lane ref < length (rs_lanes s))%nat -> put_slot ref a (put_slot ref b s) = put_slot ref a s.
Proof.
  intros Hl. unfold put_slot at 1. rewrite put_slot_lane by done.
  unfold put_slot. rewrite set_lane_twice.
  unfold set_slot. cbn [lq_slots lq_order lq_free lq_orderHead lq_orderCount lq_freeCount].
  by rewrite list_insert_insert_eq.
Qed.
