(* ===== verification/RetainedProtocol.v ===== *)
(** * Interleavings of the retained scheduler

    A run of the scheduler interleaves the sections of the command reader, of
    the service goroutine and of everyone who retires submissions, with
    whatever the owner answers.  Ghost lists record what the owner was told
    about every staged submission and how every accepted submission ended. *)

From S2P Require Import Prelude Bytes GoIO UsbIp Hid Descriptor Urb Control.
From S2P Require Import ResponseWriter RetainedUsb RetainedTopology RetainedLane Retained RetainedQueues.

(** ** The system *)

(** What the owner was last told about a ticket. *)
Inductive ending :=
| EndComplete (delivered : bool)
| EndRetire (reason : Z).

(** The service goroutine between its sections: nothing in hand, a response
    admitted and being written, Complete answered, or a lifecycle response
    about to be published.  [lifecycle] is lifecycleTerminalSuccess. *)
Inductive worker_pc :=
| WIdle
| WAdmitted (ref : retainedSubmissionRef) (ticket : Ticket) (lifecycle : bool)
| WCompleted (ref : retainedSubmissionRef) (ticket : Ticket) (lifecycle delivered : bool)
    (completionErr : option rerr)
| WLifecycle (apply : option (controlLifecycleSetup * Z)).

(** A collected retirement and whether the owner's Retire was called. *)
Definition retiring := (retainedSubmissionRetirement * bool)%type.

(** [y_staged], [y_ended]: tickets the owner handed out and got back, by the
    ordinal of the submission.  [y_accepted], [y_gone]: submissions that entered
    the queues and left them, with their last state. *)
Record rsys := {
  y_s : rsched;
  y_pc : worker_pc;
  y_retiring : list retiring;
  y_staged : list (Z * Ticket);
  y_ended : list (Z * Ticket * ending);
  y_accepted : list (Z * retainedSubmissionEnvelope);
  y_gone : list (Z * retainedSubmissionState);
}.

Definition ords (s : rsched) : list Z := map slot_ordinal (all_jobs s).
Definition rord (r : retiring) : Z := ref_ordinal (re_ref (fst r)).
Definition ended_ords (y : rsys) : list Z := map (fun e => fst (fst e)) (y_ended y).

(** The submissions of [s] that [s'] no longer has. *)
Definition departed (s s' : rsched) : list retainedSubmissionSlot :=
  filter (fun x => slot_ordinal x ∉ ords s') (all_jobs s).

(** The scheduler moves to [s']; submissions that left ended as [st]. *)
Definition move (y : rsys) (s' : rsched) (pc : worker_pc) (st : retainedSubmissionState) : rsys := {|
  y_s := s'; y_pc := pc; y_retiring := y_retiring y; y_staged := y_staged y; y_ended := y_ended y;
  y_accepted := y_accepted y;
  y_gone := y_gone y ++ map (fun x => (slot_ordinal x, st)) (departed (y_s y) s') |}.

Definition with_retiring (r : list retiring) (y : rsys) : rsys := {|
  y_s := y_s y; y_pc := y_pc y; y_retiring := r; y_staged := y_staged y; y_ended := y_ended y;
  y_accepted := y_accepted y; y_gone := y_gone y |}.

Definition with_staged (l : list (Z * Ticket)) (y : rsys) : rsys := {|
  y_s := y_s y; y_pc := y_pc y; y_retiring := y_retiring y; y_staged := l; y_ended := y_ended y;
  y_accepted := y_accepted y; y_gone := y_gone y |}.

Definition with_ended (e : Z * Ticket * ending) (y : rsys) : rsys := {|
  y_s := y_s y; y_pc := y_pc y; y_retiring := y_retiring y; y_staged := y_staged y;
  y_ended := e :: y_ended y; y_accepted := y_accepted y; y_gone := y_gone y |}.

Definition with_accepted (a : Z * retainedSubmissionEnvelope) (y : rsys) : rsys := {|
  y_s := y_s y; y_pc := y_pc y; y_retiring := y_retiring y; y_staged := y_staged y;
  y_ended := y_ended y; y_accepted := a :: y_accepted y; y_gone := y_gone y |}.

(** A change that leaves the queues, the sequence reservations and the
    lifecycle barrier alone. *)
Record same_core (s s' : rsched) : Prop := {
  sc_config : rs_config s' = rs_config s;
  sc_lanes : rs_lanes s' = rs_lanes s;
  sc_ordinal : rs_nextOrdinal s' = rs_nextOrdinal s;
  sc_framing : rs_framing s' = rs_framing s;
  sc_barrier : lf_pending (rs_lifecycle s') = lf_pending (rs_lifecycle s);
}.

Inductive rstep (y : rsys) : rsys -> Prop :=
| rstep_quiet s' :
    same_core (y_s y) s' -> rstep y (move y s' (y_pc y) retainedSubmissionTerminal)
| rstep_enqueue e require s' :
    enqueueWithFramingReservation e require (y_s y) = (s', None) ->
    rstep y (with_accepted (rs_nextOrdinal s', e) (move y s' (y_pc y) retainedSubmissionTerminal))
| rstep_reserve sequence s' :
    reserveFramingSequence sequence (y_s y) = (s', None) ->
    rstep y (move y s' (y_pc y) retainedSubmissionTerminal)
| rstep_abandon sequence :
    rstep y (move y (abandonFramingSequence sequence (y_s y)) (y_pc y) retainedSubmissionTerminal)
| rstep_stage attempted epoch now ref retry resolve answer slot s' err :
    y_pc y = WIdle ->
    oldestEligibleLocked attempted epoch now (y_s y) = (Some ref, retry) ->
    slotForRefLocked ref (y_s y) = Some slot -> slot_state slot = retainedSubmissionRawQueued ->
    let fresh := refresh_slot resolve slot (y_s y) in
    stage_answer ref fresh answer (put_slot ref fresh (y_s y)) = (s', err) ->
    rstep y (with_staged (match answer, err with
                          | Ok t, None => (ref_ordinal ref, t) :: y_staged y
                          | _, _ => y_staged y
                          end) (move y s' WIdle retainedSubmissionLifecycleRetired))
| rstep_prepare ref slot selectedAt answer s' r :
    y_pc y = WIdle -> prepare_guard ref (y_s y) = Some slot ->
    prepare_answer ref slot selectedAt answer (y_s y) = (s', r) ->
    rstep y (move y s' (match r with
                        | PrepAdmitted _ lifecycle => WAdmitted ref (slot_ticket slot) lifecycle
                        | _ => WIdle
                        end) retainedSubmissionTerminal)
| rstep_complete ref ticket lifecycle delivered err :
    y_pc y = WAdmitted ref ticket lifecycle ->
    rstep y (with_ended (ref_ordinal ref, ticket, EndComplete delivered)
      (move y (y_s y) (WCompleted ref ticket lifecycle delivered err) retainedSubmissionTerminal))
| rstep_finish ref ticket lifecycle delivered err s' r :
    y_pc y = WCompleted ref ticket lifecycle delivered err ->
    complete_answer ref ticket lifecycle delivered err (y_s y) = (s', r) ->
    rstep y (move y s' (match r with
                        | Some (_, apply) => if lifecycle then WLifecycle apply else WIdle
                        | None => WIdle
                        end) retainedSubmissionTerminal)
| rstep_lifecycle apply published :
    y_pc y = WLifecycle apply ->
    published = None \/ (exists lc n, apply = Some (lc, n) /\ published = Some lc) ->
    rstep y (move y (complete_lifecycle published
               (match published with Some lc => publish lc (y_s y) | None => y_s y end))
               WIdle retainedSubmissionTerminal)
| rstep_unlink sequence s' r :
    unlink_section sequence (y_s y) = (s', r) ->
    rstep y (with_retiring (match r with
                            | Some (Some re) => (re, false) :: y_retiring y
                            | _ => y_retiring y
                            end) (move y s' (y_pc y) retainedSubmissionLifecycleRetired))
| rstep_collect matches s' res :
    collect_retirements matches (y_s y) = (s', res) ->
    rstep y (with_retiring (map (fun re => (re, false)) res ++ y_retiring y)
      (move y s' (y_pc y) retainedSubmissionLifecycleRetired))
| rstep_retire_owned ref s' r :
    retire_owned ref (y_s y) = (s', r) ->
    rstep y (with_retiring (match r with
                            | Some t => ({| re_ref := ref; re_ticket := t |}, false) :: y_retiring y
                            | None => y_retiring y
                            end) (move y s' (y_pc y) retainedSubmissionTerminal))
| rstep_retire_call re before after reason :
    y_retiring y = before ++ (re, false) :: after ->
    rstep y (with_retiring (before ++ (re, true) :: after)
      (if retire_calls (re_ticket re)
       then with_ended (ref_ordinal (re_ref re), re_ticket re, EndRetire reason) y else y))
| rstep_retire_finish re before after :
    y_retiring y = before ++ (re, true) :: after ->
    rstep y (with_retiring (before ++ after)
      (move y (retire_finish (re_ref re) (y_s y)) (y_pc y) retainedSubmissionLifecycleRetired)).

Definition rsys_init (s : rsched) : rsys := {|
  y_s := s; y_pc := WIdle; y_retiring := []; y_staged := []; y_ended := []; y_accepted := [];
  y_gone := [] |}.

(** The runs of a scheduler built for valid limits. *)
Inductive rreachable : rsys -> Prop :=
| rreachable_init session parent_done c s :
    Limits_wf (cs_limits c) -> buildRetainedSubmissionSchedulerWithSnapshot session parent_done c = Ok s ->
    rreachable (rsys_init s)
| rreachable_step y y' : rreachable y -> rstep y y' -> rreachable y'.

(** ** The invariant *)

(** The submission still has what its envelope brought. *)
Record carries (x : retainedSubmissionSlot) (e : retainedSubmissionEnvelope) : Prop := {
  ca_lane : slot_lane x = en_lane e;
  ca_direction : slot_direction x = en_direction e;
  ca_sequence : slot_sequence x = en_sequence e;
  ca_length : slot_transferLength x = en_transferLength e;
  ca_setup : slot_setup x = en_setup e;
  ca_route : slot_route x = en_route e;
  ca_data : take (slot_payloadLength x) (slot_payload x) = en_data e;
}.

(** Where the service goroutine stands with the submission [o]: not serving it,
    before or after Complete. *)
Definition pc_status (pc : worker_pc) (o : Z) : option bool :=
  match pc with
  | WAdmitted ref _ _ => if ref_ordinal ref =? o then Some false else None
  | WCompleted ref _ _ _ _ => if ref_ordinal ref =? o then Some true else None
  | _ => None
  end.

Definition pc_lifecycle (pc : worker_pc) : bool :=
  match pc with
  | WIdle => false
  | WAdmitted _ _ lifecycle | WCompleted _ _ lifecycle _ _ => lifecycle
  | WLifecycle _ => true
  end.

Definition owned_by (y : rsys) (x : retainedSubmissionSlot) : Prop :=
  Ticket_Valid (slot_ticket x) = true /\ (slot_ordinal x, slot_ticket x) ∈ y_staged y.

Definition state_inv (y : rsys) (x : retainedSubmissionSlot) : Prop :=
  let o := slot_ordinal x in
  match slot_state x with
  | retainedSubmissionRawQueued => slot_ticket x = Ticket_zero /\ o ∉ map fst (y_staged y)
  | retainedSubmissionTicketed | retainedSubmissionPending => owned_by y x /\ o ∉ ended_ords y
  | retainedSubmissionAdmitted =>
      owned_by y x /\ exists b, pc_status (y_pc y) o = Some b /\ (o ∈ ended_ords y <-> b = true)
  | retainedSubmissionLifecycleRetired =>
      owned_by y x /\ exists re b, (re, b) ∈ y_retiring y /\ ref_ordinal (re_ref re) = o /\
        (o ∈ ended_ords y <-> b = true)
  | _ => False
  end.

Record job_inv (y : rsys) (x : retainedSubmissionSlot) : Prop := {
  ji_ordinal : 0 < slot_ordinal x <= rs_nextOrdinal (y_s y);
  ji_session : slot_session x = rs_session (y_s y);
  ji_framing : slot_sequence x ∉ rs_framing (y_s y);
  ji_carries : exists e, (slot_ordinal x, e) ∈ y_accepted y /\ carries x e;
  ji_state : state_inv y x;
}.

Definition holds (s : rsched) (ref : retainedSubmissionRef) (t : Ticket)
    (st : retainedSubmissionState) : Prop :=
  exists x, slotForRefLocked ref s = Some x /\ slot_state x = st /\ slot_ticket x = t.

Record rinv (y : rsys) : Prop := {
  v_limits : Limits_wf (rs_limits (y_s y));
  v_lanes : lanes_ok (y_s y);
  v_ords : NoDup (ords (y_s y));
  v_seqs : NoDup (map slot_sequence (all_jobs (y_s y)));
  v_jobs : Forall (job_inv y) (all_jobs (y_s y));
  v_retiring : Forall (fun r => holds (y_s y) (re_ref (fst r)) (re_ticket (fst r))
                                  retainedSubmissionLifecycleRetired) (y_retiring y);
  v_retiring_once : NoDup (map rord (y_retiring y));
  v_pc : match y_pc y with
         | WAdmitted ref t _ | WCompleted ref t _ _ _ =>
             holds (y_s y) ref t retainedSubmissionAdmitted
         | _ => True
         end;
  v_barrier : lf_pending (rs_lifecycle (y_s y)) = pc_lifecycle (y_pc y);
  v_next : 0 <= rs_nextOrdinal (y_s y);
  v_accepted : NoDup (map fst (y_accepted y));
  v_accepted_bound : Forall (fun a => fst a <= rs_nextOrdinal (y_s y)) (y_accepted y);
  v_fate : map fst (y_accepted y) ≡ₚ ords (y_s y) ++ map fst (y_gone y);
  v_staged : NoDup (map fst (y_staged y));
  v_staged_bound : Forall (fun p => fst p <= rs_nextOrdinal (y_s y)) (y_staged y);
  v_ended : NoDup (ended_ords y);
  v_ended_staged o t e : (o, t, e) ∈ y_ended y -> (o, t) ∈ y_staged y;
  v_live o t : (o, t) ∈ y_staged y -> o ∈ ended_ords y \/
    exists x, x ∈ all_jobs (y_s y) /\ slot_ordinal x = o /\ slot_state x <> retainedSubmissionRawQueued;
}.

(** ** What one submission's step leaves alone *)

Definition pc_ref (pc : worker_pc) : option (retainedSubmissionRef * Ticket) :=
  match pc with
  | WAdmitted ref t _ | WCompleted ref t _ _ _ => Some (ref, t)
  | _ => None
  end.

Lemma v_pc_ref y ref t : rinv y -> pc_ref (y_pc y) = Some (ref, t) ->
  holds (y_s y) ref t retainedSubmissionAdmitted.
Proof. intros Hi. pose proof (v_pc y Hi) as Hp. destruct (y_pc y); intros [= <- <-]; done. Qed.

Record frame_except (o : Z) (y y' : rsys) : Prop := {
  fe_staged p t : p <> o -> (p, t) ∈ y_staged y' <-> (p, t) ∈ y_staged y;
  fe_ended p : p <> o -> p ∈ ended_ords y' <-> p ∈ ended_ords y;
  fe_pc p : p <> o -> pc_status (y_pc y') p = pc_status (y_pc y) p;
  fe_pc_ref ref t : ref_ordinal ref <> o -> pc_ref (y_pc y') = Some (ref, t) ->
    pc_ref (y_pc y) = Some (ref, t);
  fe_retiring re b : ref_ordinal (re_ref re) <> o ->
    (re, b) ∈ y_retiring y' <-> (re, b) ∈ y_retiring y;
  fe_accepted a : a ∈ y_accepted y -> a ∈ y_accepted y';
}.

Lemma elem_of_fst {A B} (l : list (A * B)) a : a ∈ map fst l <-> exists b, (a, b) ∈ l.
Proof.
  change (a ∈ fst <$> l <-> exists b, (a, b) ∈ l). rewrite list_elem_of_fmap. split.
  - intros ([a' b] & -> & H). eauto.
  - intros [b H]. by exists (a, b).
Qed.

Lemma state_inv_frame o y y' x :
  frame_except o y y' -> slot_ordinal x <> o -> state_inv y x -> state_inv y' x.
Proof.
  intros [Hs He Hp _ Hr _] Hx. pose proof (fun t => Hs _ t Hx) as Hs'. specialize (He _ Hx).
  specialize (Hp _ Hx). unfold state_inv, owned_by. cbv zeta. rewrite Hp.
  destruct (slot_state x); try done.
  - intros [? Hn]. split; [done|]. intros [t Ht]%elem_of_fst. apply Hn, elem_of_fst. exists t. by apply Hs'.
  - intros [[? ?] Hn]. split; [split; [done|by apply Hs']|]. by rewrite He.
  - intros [[? ?] Hn]. split; [split; [done|by apply Hs']|]. by rewrite He.
  - intros [[? ?] (b & Hb1 & Hb2)]. split; [split; [done|by apply Hs']|]. exists b. by rewrite He.
  - intros [[? ?] (re & b & Hin & Ho & Hb)]. split; [split; [done|by apply Hs']|].
    exists re, b. split; [apply Hr; [lia|done]|]. by rewrite He.
Qed.

(** A step replaces, removes or adds one submission. *)
Definition one_submission (o : Z) (s : rsched) (gone new : list retainedSubmissionSlot) : Prop :=
  (exists x x', gone = [x] /\ new = [x'] /\ slot_sequence x' = slot_sequence x) \/
  (exists x, gone = [x] /\ new = []) \/
  (exists x', gone = [] /\ new = [x'] /\ (o ∉ ords s) /\
     slot_sequence x' ∉ map slot_sequence (all_jobs s)).

Section Change.
Context (o : Z) (y y' : rsys) (gone new : list retainedSubmissionSlot).
Context (Hi : rinv y) (Hf : frame_except o y y').
Context (He : effect (y_s y) (y_s y') gone new).
Context (Ho : Forall (fun x => slot_ordinal x = o) (gone ++ new)).
Context (Hcase : one_submission o (y_s y) gone new).

Lemma change_rest : exists rest, all_jobs (y_s y) ≡ₚ gone ++ rest /\ all_jobs (y_s y') ≡ₚ new ++ rest /\
  Forall (fun x => slot_ordinal x <> o) rest.
Proof using All.
  destruct (ef_jobs _ _ _ _ He) as (rest & H1 & H2). exists rest. split_and!; [done|done|].
  apply list.Forall_forall. intros x Hx E. pose proof (v_ords _ Hi) as Hn. unfold ords in Hn.
  rewrite H1, map_app in Hn. apply list.Forall_app in Ho as [Hg _].
  assert (Hin : slot_ordinal x ∈ map slot_ordinal rest) by (apply list_elem_of_fmap; eauto).
  destruct Hcase as [(a & b & -> & -> & _)|[(a & -> & ->)|(b & -> & -> & Hno & _)]].
  - inversion_clear Hg. apply list.NoDup_app in Hn as (_ & Hd & _).
    eapply Hd; [|exact Hin]. rewrite E. cbn. set_solver.
  - inversion_clear Hg. apply list.NoDup_app in Hn as (_ & Hd & _).
    eapply Hd; [|exact Hin]. rewrite E. cbn. set_solver.
  - apply Hno. unfold ords. rewrite H1, map_app. cbn. by rewrite <-E.
Qed.

Lemma change_ords : NoDup (ords (y_s y')).
Proof using All.
  destruct change_rest as (rest & H1 & H2 & Hr). pose proof (v_ords _ Hi) as Hn. unfold ords in *.
  rewrite H1, map_app in Hn. rewrite H2, map_app. apply list.NoDup_app in Hn as (_ & _ & Hn).
  apply list.Forall_app in Ho as [Hg Hw].
  assert (Hout : o ∉ map slot_ordinal rest).
  { intros (x & -> & Hx)%list_elem_of_fmap. rewrite list.Forall_forall in Hr. by apply (Hr x). }
  destruct Hcase as [(a & b & -> & -> & _)|[(a & -> & ->)|(b & -> & -> & _)]]; cbn; [|done|];
    inversion_clear Hw; subst; by apply list.NoDup_cons.
Qed.

Lemma change_seqs : NoDup (map slot_sequence (all_jobs (y_s y'))).
Proof using All.
  destruct change_rest as (rest & H1 & H2 & Hr). pose proof (v_seqs _ Hi) as Hn.
  rewrite H1, map_app in Hn. rewrite H2, map_app.
  destruct Hcase as [(a & b & -> & -> & E)|[(a & -> & ->)|(b & -> & -> & _ & Hb)]]; cbn in *.
  - by rewrite E.
  - by apply list.NoDup_cons in Hn as [_ ?].
  - apply list.NoDup_cons. split; [|done]. by rewrite H1 in Hb.
Qed.

Lemma change_jobs :
  rs_nextOrdinal (y_s y) <= rs_nextOrdinal (y_s y') ->
  (forall x, x ∈ all_jobs (y_s y) -> slot_ordinal x <> o ->
     slot_sequence x ∉ rs_framing (y_s y) -> slot_sequence x ∉ rs_framing (y_s y')) ->
  Forall (job_inv y') new -> Forall (job_inv y') (all_jobs (y_s y')).
Proof using All.
  intros Hnext Hfr Hnew. destruct change_rest as (rest & H1 & H2 & Hr). rewrite H2.
  apply list.Forall_app. split; [done|]. pose proof (v_jobs _ Hi) as Hj. rewrite H1 in Hj.
  apply list.Forall_app in Hj as [_ Hj]. rewrite list.Forall_forall in *. intros x Hx.
  destruct (Hj x Hx) as [Ja Jb Jc (e & Je & Jf) Jd]. split.
  - lia.
  - unfold rs_session in *. by rewrite (ef_config _ _ _ _ He).
  - apply Hfr; [rewrite H1; set_solver|by apply Hr|done].
  - exists e. split; [by apply (fe_accepted _ _ _ Hf)|done].
  - apply (state_inv_frame o y); [done|by apply Hr|done].
Qed.

Lemma change_holds ref t st :
  ref_ordinal ref <> o -> holds (y_s y) ref t st -> holds (y_s y') ref t st.
Proof using All.
  intros Hne (x & Hx & Hs & Ht). exists x. split; [|done].
  rewrite (ef_refs _ _ _ _ He); [done|]. rewrite list.Forall_forall in *. intros z Hz.
  specialize (Ho z Hz). cbn in *. lia.
Qed.

Lemma change_retiring :
  (forall re b, (re, b) ∈ y_retiring y' -> ref_ordinal (re_ref re) = o ->
     holds (y_s y') (re_ref re) (re_ticket re) retainedSubmissionLifecycleRetired) ->
  Forall (fun r => holds (y_s y') (re_ref (fst r)) (re_ticket (fst r))
                     retainedSubmissionLifecycleRetired) (y_retiring y').
Proof using All.
  intros Hown. apply list.Forall_forall. intros [re b] Hin. cbn.
  destruct (decide (ref_ordinal (re_ref re) = o)) as [E|E]; [by eapply Hown|].
  apply change_holds; [done|]. apply (fe_retiring _ _ _ Hf) in Hin; [|done].
  pose proof (v_retiring _ Hi) as Hr. rewrite list.Forall_forall in Hr. by apply (Hr (re, b)).
Qed.

Lemma change_pc :
  (forall ref t, pc_ref (y_pc y') = Some (ref, t) -> ref_ordinal ref = o ->
     holds (y_s y') ref t retainedSubmissionAdmitted) ->
  match y_pc y' with
  | WAdmitted ref t _ | WCompleted ref t _ _ _ => holds (y_s y') ref t retainedSubmissionAdmitted
  | _ => True
  end.
Proof using All.
  intros Hown.
  assert (Hall : forall ref t, pc_ref (y_pc y') = Some (ref, t) ->
    holds (y_s y') ref t retainedSubmissionAdmitted).
  { intros ref t Hp. destruct (decide (ref_ordinal ref = o)) as [E|E]; [by apply Hown|].
    apply change_holds; [done|]. apply (v_pc_ref y); [done|]. by apply (fe_pc_ref _ _ _ Hf). }
  destruct (y_pc y'); try done; by apply Hall.
Qed.

Lemma change_live :
  (forall t, (o, t) ∈ y_staged y' -> o ∈ ended_ords y' \/
     exists x, x ∈ all_jobs (y_s y') /\ slot_ordinal x = o /\
       slot_state x <> retainedSubmissionRawQueued) ->
  forall p t, (p, t) ∈ y_staged y' -> p ∈ ended_ords y' \/
    exists x, x ∈ all_jobs (y_s y') /\ slot_ordinal x = p /\
      slot_state x <> retainedSubmissionRawQueued.
Proof using All.
  intros Hown p t Hp. destruct (decide (p = o)) as [->|Hne]; [by eapply Hown|].
  apply (fe_staged _ _ _ Hf) in Hp; [|done].
  destruct (v_live _ Hi p t Hp) as [Hend|(x & Hx & Hxo & Hs)].
  - left. by apply (fe_ended _ _ _ Hf).
  - right. exists x. split; [|done]. destruct change_rest as (rest & H1 & H2 & Hr).
    rewrite H1 in Hx. rewrite H2. apply elem_of_app in Hx as [Hx|Hx]; [|set_solver].
    apply list.Forall_app in Ho as [Hg _]. rewrite list.Forall_forall in Hg.
    specialize (Hg x Hx). cbn in Hg. lia.
Qed.
(** The invariant after a step of one submission. *)
Lemma rinv_change :
  rs_nextOrdinal (y_s y) <= rs_nextOrdinal (y_s y') ->
  (forall x, x ∈ all_jobs (y_s y) -> slot_ordinal x <> o ->
     slot_sequence x ∉ rs_framing (y_s y) -> slot_sequence x ∉ rs_framing (y_s y')) ->
  Forall (job_inv y') new ->
  (forall re b, (re, b) ∈ y_retiring y' -> ref_ordinal (re_ref re) = o ->
     holds (y_s y') (re_ref re) (re_ticket re) retainedSubmissionLifecycleRetired) ->
  NoDup (map rord (y_retiring y')) ->
  (forall ref t, pc_ref (y_pc y') = Some (ref, t) -> ref_ordinal ref = o ->
     holds (y_s y') ref t retainedSubmissionAdmitted) ->
  lf_pending (rs_lifecycle (y_s y')) = pc_lifecycle (y_pc y') ->
  NoDup (map fst (y_accepted y')) ->
  Forall (fun a => fst a <= rs_nextOrdinal (y_s y')) (y_accepted y') ->
  map fst (y_accepted y') ≡ₚ ords (y_s y') ++ map fst (y_gone y') ->
  NoDup (map fst (y_staged y')) ->
  Forall (fun p => fst p <= rs_nextOrdinal (y_s y')) (y_staged y') ->
  NoDup (ended_ords y') ->
  (forall p t e, (p, t, e) ∈ y_ended y' -> (p, t) ∈ y_staged y') ->
  (forall t, (o, t) ∈ y_staged y' -> o ∈ ended_ords y' \/
     exists x, x ∈ all_jobs (y_s y') /\ slot_ordinal x = o /\
       slot_state x <> retainedSubmissionRawQueued) ->
  rinv y'.
Proof using All.
  intros. split; try done.
  - unfold rs_limits. rewrite (ef_config _ _ _ _ He). apply Hi.
  - apply (ef_lanes _ _ _ _ He).
  - apply change_ords.
  - apply change_seqs.
  - by apply change_jobs.
  - by apply change_retiring.
  - by apply change_pc.
  - pose proof (v_next _ Hi). lia.
  - by apply change_live.
Qed.
End Change.

(** ** Fates *)

Lemma departed_perm s s' :
  NoDup (ords s) -> NoDup (ords s') -> (forall o, o ∈ ords s' -> o ∈ ords s) ->
  ords s ≡ₚ ords s' ++ map slot_ordinal (departed s s').
Proof.
  intros Hn Hn' Hsub. unfold departed.
  assert (Hm : forall l, map slot_ordinal (filter (fun x => slot_ordinal x ∉ ords s') l) =
    filter (fun o => o ∉ ords s') (map slot_ordinal l)).
  { induction l as [|x l IH]; [done|]. cbn [map]. rewrite !filter_cons.
    case_decide; cbn [map]; by rewrite IH. }
  rewrite Hm. change (map slot_ordinal (all_jobs s)) with (ords s).
  apply NoDup_Permutation; [done| |].
  - apply list.NoDup_app. split_and!; [done| |by apply list.NoDup_filter].
    intros o Ho Hf. by apply list_elem_of_filter in Hf as [? _].
  - intros o. rewrite elem_of_app, list_elem_of_filter.
    destruct (decide (o ∈ ords s')); naive_solver.
Qed.

Lemma departed_none s s' : (forall o, o ∈ ords s -> o ∈ ords s') -> departed s s' = [].
Proof.
  intros Hsub. unfold departed.
  assert (Hall : forall x, x ∈ all_jobs s -> slot_ordinal x ∈ ords s').
  { intros x Hx. apply Hsub. unfold ords. apply list_elem_of_fmap. eauto. }
  revert Hall. generalize (all_jobs s). intros l. induction l as [|x l IH]; intros Hall; [done|].
  rewrite filter_cons, decide_False; [apply IH; set_solver|]. intros Hx. apply Hx, Hall. set_solver.
Qed.

Lemma fate_move y s' pc st :
  rinv y -> NoDup (ords s') -> (forall o, o ∈ ords s' -> o ∈ ords (y_s y)) ->
  map fst (y_accepted (move y s' pc st)) ≡ₚ ords s' ++ map fst (y_gone (move y s' pc st)).
Proof.
  intros Hi Hn Hsub. cbn. rewrite (v_fate _ Hi), (departed_perm _ s' (v_ords _ Hi) Hn Hsub).
  rewrite map_app, map_map. cbn. solve_Permutation.
Qed.

(** ** Preservation *)

Lemma ref_job y ref x :
  rinv y -> slotForRefLocked ref (y_s y) = Some x -> x ∈ all_jobs (y_s y) /\ job_inv y x.
Proof.
  intros Hi Hr. destruct (ref_position _ _ _ (v_lanes _ Hi) Hr) as (q & k & Hq & _ & _ & _ & _ & Hj).
  assert (Hx : x ∈ all_jobs (y_s y)).
  { destruct (all_jobs_set _ _ _ Hq) as (rest & -> & _). apply elem_of_app. left.
    by eapply list_elem_of_lookup_2. }
  split; [done|]. pose proof (v_jobs _ Hi) as Hj'. rewrite list.Forall_forall in Hj'. by apply Hj'.
Qed.

Lemma ref_ordinal_eq ref s x : slotForRefLocked ref s = Some x -> slot_ordinal x = ref_ordinal ref.
Proof. by intros (_ & _ & _ & ?)%ref_slot_cases. Qed.

(** Ordinals of the queue determine the submission. *)
Lemma job_unique y x x' :
  rinv y -> x ∈ all_jobs (y_s y) -> x' ∈ all_jobs (y_s y) -> slot_ordinal x = slot_ordinal x' -> x = x'.
Proof.
  intros Hi Hx Hx' E. pose proof (v_ords _ Hi) as Hn. unfold ords in Hn.
  apply list_elem_of_lookup in Hx as [i Hx]. apply list_elem_of_lookup in Hx' as [j Hx'].
  assert (i = j) as ->.
  { eapply (NoDup_lookup _ _ _ (slot_ordinal x) Hn); rewrite list_lookup_fmap, ?Hx, ?Hx'; cbn; [done|].
    by rewrite E. }
  congruence.
Qed.

Lemma no_retirement y x :
  rinv y -> x ∈ all_jobs (y_s y) -> slot_state x <> retainedSubmissionLifecycleRetired ->
  forall re b, (re, b) ∈ y_retiring y -> ref_ordinal (re_ref re) <> slot_ordinal x.
Proof.
  intros Hi Hx Hs re b Hin E. pose proof (v_retiring _ Hi) as Hr. rewrite list.Forall_forall in Hr.
  destruct (Hr _ Hin) as (z & Hz & Hzs & _). cbn in Hz.
  destruct (ref_job _ _ _ Hi Hz) as [Hzin _]. apply ref_ordinal_eq in Hz.
  assert (z = x) as -> by (apply (job_unique y); [done..|lia]). done.
Qed.

Lemma no_service y x :
  rinv y -> x ∈ all_jobs (y_s y) -> slot_state x <> retainedSubmissionAdmitted ->
  forall ref t, pc_ref (y_pc y) = Some (ref, t) -> ref_ordinal ref <> slot_ordinal x.
Proof.
  intros Hi Hx Hs ref t Hp E. destruct (v_pc_ref _ _ _ Hi Hp) as (z & Hz & Hzs & _).
  destruct (ref_job _ _ _ Hi Hz) as [Hzin _]. apply ref_ordinal_eq in Hz.
  assert (z = x) as -> by (apply (job_unique y); [done..|lia]). done.
Qed.

(** A change that touches only the queues. *)
Lemma frame_queues o y y' :
  y_staged y' = y_staged y -> y_ended y' = y_ended y -> y_pc y' = y_pc y ->
  (forall re b, ref_ordinal (re_ref re) <> o -> (re, b) ∈ y_retiring y' <-> (re, b) ∈ y_retiring y) ->
  y_accepted y' = y_accepted y -> frame_except o y y'.
Proof.
  intros Hs He Hp Hr Ha. split; rewrite ?Hs, ?Hp, ?Ha; try done.
  intros p _. unfold ended_ords. by rewrite He.
Qed.

(** What a removal or an image change keeps of the other components. *)
Record core_eq (s s' : rsched) : Prop := {
  ce_ordinal : rs_nextOrdinal s' = rs_nextOrdinal s;
  ce_framing : rs_framing s' = rs_framing s;
}.

Lemma effect_ords s s' gone new :
  effect s s' gone new -> map slot_ordinal new ⊆ map slot_ordinal gone ->
  forall o, o ∈ ords s' -> o ∈ ords s.
Proof.
  intros He Hsub o. destruct (ef_jobs _ _ _ _ He) as (rest & E1 & E2). unfold ords.
  rewrite E1, E2, !map_app, !elem_of_app. set_solver.
Qed.

(** A submission leaves the queue: nothing of the owner is still attached to it. *)
Lemma rinv_drop y y' x st r :
  rinv y -> x ∈ all_jobs (y_s y) ->
  y' = with_retiring r (move y (y_s y') (y_pc y') st) ->
  effect (y_s y) (y_s y') [x] [] -> core_eq (y_s y) (y_s y') ->
  lf_pending (rs_lifecycle (y_s y')) = pc_lifecycle (y_pc y') ->
  (forall p, p <> slot_ordinal x -> pc_status (y_pc y') p = pc_status (y_pc y) p) ->
  (forall ref t, pc_ref (y_pc y') = Some (ref, t) ->
     ref_ordinal ref <> slot_ordinal x /\ pc_ref (y_pc y) = Some (ref, t)) ->
  (forall re b, (re, b) ∈ r <-> (re, b) ∈ y_retiring y /\ ref_ordinal (re_ref re) <> slot_ordinal x) ->
  NoDup (map rord r) ->
  (slot_state x = retainedSubmissionRawQueued \/ slot_ordinal x ∈ ended_ords y) ->
  rinv y'.
Proof.
  intros Hi Hx Ey He [Hc1 Hc2] Hbar Hpc Hpr Hr Hrn Hend. set (o := slot_ordinal x) in *.
  assert (Hjx : job_inv y x).
  { pose proof (v_jobs _ Hi) as Hj. rewrite list.Forall_forall in Hj. by apply Hj. }
  assert (Er : y_retiring y' = r) by (by rewrite Ey). assert (Es : y_staged y' = y_staged y) by (by rewrite Ey).
  assert (Ee : ended_ords y' = ended_ords y) by (by rewrite Ey).
  assert (Ee' : y_ended y' = y_ended y) by (by rewrite Ey).
  assert (Ea : y_accepted y' = y_accepted y) by (by rewrite Ey).
  assert (Eg : y_gone y' = y_gone (move y (y_s y') (y_pc y') st)) by (by rewrite Ey at 1).
  assert (Hf : frame_except o y y').
  { split; rewrite ?Es, ?Ee, ?Er, ?Ea; try done.
    - intros ref t _ Hp. by apply Hpr.
    - intros re b Hne. rewrite Hr. naive_solver. }
  assert (Ho : Forall (fun z => slot_ordinal z = o) ([x] ++ [])) by (by repeat constructor).
  assert (Hcase : one_submission o (y_s y) [x] []) by (right; left; eauto).
  pose proof (change_ords o y y' [x] [] Hi Hf He Ho Hcase) as Hn.
  apply (rinv_change o y y' [x] [] Hi Hf He Ho Hcase); rewrite ?Hc1, ?Hc2, ?Er, ?Es, ?Ee, ?Ee', ?Ea, ?Eg;
    try done; try apply Hi.
  - intros re b [_ Hne]%Hr E. by destruct Hne.
  - intros ref t [Hne _]%Hpr E. by destruct Hne.
  - apply (fate_move y (y_s y') (y_pc y') st); [done|done|]. eapply effect_ords; [done|set_solver].
  - intros t Ht. destruct Hend as [Hraw|Hend]; [|by left]. exfalso.
    pose proof (ji_state _ _ Hjx) as Hst. unfold state_inv in Hst. rewrite Hraw in Hst.
    apply (proj2 Hst), elem_of_fst. eauto.
Qed.

(** Two images of one submission. *)
Record same_request (x x' : retainedSubmissionSlot) : Prop := {
  sr_ordinal : slot_ordinal x' = slot_ordinal x;
  sr_session : slot_session x' = slot_session x;
  sr_lane : slot_lane x' = slot_lane x;
  sr_direction : slot_direction x' = slot_direction x;
  sr_sequence : slot_sequence x' = slot_sequence x;
  sr_length : slot_transferLength x' = slot_transferLength x;
  sr_setup : slot_setup x' = slot_setup x;
  sr_route : slot_route x' = slot_route x;
  sr_payload : slot_payload x' = slot_payload x;
  sr_payloadLength : slot_payloadLength x' = slot_payloadLength x;
}.

Lemma same_request_refl x : same_request x x.
Proof. by split. Qed.

Lemma same_request_trans x1 x2 x3 : same_request x1 x2 -> same_request x2 x3 -> same_request x1 x3.
Proof. intros [] []. split; congruence. Qed.

Lemma carries_image x x' e : same_request x x' -> carries x e -> carries x' e.
Proof. intros [] []. split; congruence. Qed.

(** A submission changes its image: [stg] and [r] extend the ledger and the
    retirements for it alone. *)
Lemma rinv_image y y' x x' st stg r :
  rinv y -> x ∈ all_jobs (y_s y) ->
  y' = with_staged stg (with_retiring r (move y (y_s y') (y_pc y') st)) ->
  effect (y_s y) (y_s y') [x] [x'] -> core_eq (y_s y) (y_s y') -> same_request x x' ->
  lf_pending (rs_lifecycle (y_s y')) = pc_lifecycle (y_pc y') ->
  (forall p, p <> slot_ordinal x -> pc_status (y_pc y') p = pc_status (y_pc y) p) ->
  (forall ref t, pc_ref (y_pc y') = Some (ref, t) ->
     (ref_ordinal ref = slot_ordinal x -> holds (y_s y') ref t retainedSubmissionAdmitted) /\
     (ref_ordinal ref <> slot_ordinal x -> pc_ref (y_pc y) = Some (ref, t))) ->
  (forall re b, (re, b) ∈ r ->
     (ref_ordinal (re_ref re) = slot_ordinal x /\
      holds (y_s y') (re_ref re) (re_ticket re) retainedSubmissionLifecycleRetired) \/
     (re, b) ∈ y_retiring y) ->
  (forall re b, (re, b) ∈ y_retiring y ->
     (re, b) ∈ r /\ ref_ordinal (re_ref re) <> slot_ordinal x) ->
  NoDup (map rord r) ->
  (forall p t, p <> slot_ordinal x -> (p, t) ∈ stg <-> (p, t) ∈ y_staged y) ->
  (forall q, q ∈ y_staged y -> q ∈ stg) ->
  NoDup (map fst stg) -> Forall (fun p => fst p <= rs_nextOrdinal (y_s y)) stg ->
  slot_state x' <> retainedSubmissionRawQueued -> state_inv y' x' -> rinv y'.
Proof.
  intros Hi Hx Ey He [Hc1 Hc2] Hsr Hbar Hpc Hpr Hr Hr' Hrn Hst Hsub Hsn Hsb Hns Hsi.
  set (o := slot_ordinal x) in *.
  assert (Hjx : job_inv y x).
  { pose proof (v_jobs _ Hi) as Hj. rewrite list.Forall_forall in Hj. by apply Hj. }
  assert (Er : y_retiring y' = r) by (by rewrite Ey). assert (Es : y_staged y' = stg) by (by rewrite Ey).
  assert (Ee : ended_ords y' = ended_ords y) by (by rewrite Ey).
  assert (Ee' : y_ended y' = y_ended y) by (by rewrite Ey).
  assert (Ea : y_accepted y' = y_accepted y) by (by rewrite Ey).
  assert (Eg : y_gone y' = y_gone (move y (y_s y') (y_pc y') st)) by (by rewrite Ey at 1).
  assert (Hf : frame_except o y y').
  { split; rewrite ?Es, ?Ee, ?Er, ?Ea; try done.
    - intros ref t Hne Hp. by apply Hpr.
    - intros re b Hne. split; [intros [[? _]|?]%Hr; done|by intros [? _]%Hr']. }
  assert (Ho : Forall (fun z => slot_ordinal z = o) ([x] ++ [x'])).
  { repeat constructor. apply (sr_ordinal _ _ Hsr). }
  assert (Hcase : one_submission o (y_s y) [x] [x']).
  { left. exists x, x'. split_and!; [done..|apply (sr_sequence _ _ Hsr)]. }
  pose proof (change_ords o y y' [x] [x'] Hi Hf He Ho Hcase) as Hn.
  assert (Hjx' : job_inv y' x').
  { destruct Hjx as [J1 J2 J3 (e & J4 & J5) J6]. split.
    - by rewrite (sr_ordinal _ _ Hsr), Hc1.
    - rewrite (sr_session _ _ Hsr). unfold rs_session in *. by rewrite (ef_config _ _ _ _ He).
    - by rewrite (sr_sequence _ _ Hsr), Hc2.
    - exists e. rewrite (sr_ordinal _ _ Hsr), Ea. split; [done|by eapply carries_image].
    - done. }
  apply (rinv_change o y y' [x] [x'] Hi Hf He Ho Hcase); rewrite ?Hc1, ?Hc2, ?Er, ?Es, ?Ee, ?Ee', ?Ea, ?Eg;
    try done; try apply Hi.
  - by constructor.
  - intros re b Hin E. destruct (Hr re b Hin) as [[_ ?]|Hin']; [done|]. by destruct (Hr' _ _ Hin').
  - intros ref t Hp E. by apply Hpr.
  - apply (fate_move y (y_s y') (y_pc y') st); [done|done|]. eapply effect_ords; [done|].
    cbn. rewrite (sr_ordinal _ _ Hsr). set_solver.
  - intros p t e Hin. apply Hsub. by apply (v_ended_staged _ Hi p t e).
  - intros t _. right. exists x'. split_and!; [|apply (sr_ordinal _ _ Hsr)|done].
    destruct (ef_jobs _ _ _ _ He) as (rest & _ & E2). rewrite E2. set_solver.
Qed.

Lemma refresh_same resolve x s : same_request x (refresh_slot resolve x s).
Proof. unfold refresh_slot. case_if; by split. Qed.

Lemma refresh_state resolve x s :
  slot_state (refresh_slot resolve x s) = slot_state x /\
  slot_ticket (refresh_slot resolve x s) = slot_ticket x.
Proof. unfold refresh_slot. case_if; done. Qed.

(** A retirement is collected for a ticketed submission. *)
Lemma rinv_mark y ref x st :
  rinv y -> slotForRefLocked ref (y_s y) = Some x ->
  slot_state x = retainedSubmissionTicketed \/ slot_state x = retainedSubmissionPending ->
  rinv (with_retiring (({| re_ref := ref; re_ticket := slot_ticket x |}, false) :: y_retiring y)
    (move y (put_slot ref (with_state retainedSubmissionLifecycleRetired x) (y_s y)) (y_pc y) st)).
Proof.
  intros Hi Hr Hs. destruct (ref_job _ _ _ Hi Hr) as [Hx Hjx].
  pose proof (ref_ordinal_eq _ _ _ Hr) as Hord.
  set (x' := with_state retainedSubmissionLifecycleRetired x).
  destruct (put_slot_effect ref x x' (y_s y) (v_lanes _ Hi) Hr) as [He Hr']; try done.
  { left. by destruct Hs as [->| ->]. }
  assert (Howned : owned_by y x /\ slot_ordinal x ∉ ended_ords y).
  { pose proof (ji_state _ _ Hjx) as Hst. unfold state_inv in Hst. by destruct Hs as [E|E]; rewrite E in Hst. }
  destruct Howned as [Hown Hne].
  assert (Hnr : forall re b, (re, b) ∈ y_retiring y -> ref_ordinal (re_ref re) <> slot_ordinal x).
  { apply no_retirement; [done|done|]. by destruct Hs as [->| ->]. }
  assert (Hnp := no_service y x Hi Hx ltac:(by destruct Hs as [->| ->])).
  eapply (rinv_image y _ x x' st (y_staged y)
    (({| re_ref := ref; re_ticket := slot_ticket x |}, false) :: y_retiring y));
    [done|done|reflexivity|exact He|by split|by split|..];
    cbn [y_s y_pc move with_retiring]; try done; try apply Hi.
  - intros ref' t Hp. split; [|done]. intros E. by destruct (Hnp _ _ Hp).
  - intros re b [[= -> ->]|Hin]%elem_of_cons; [left|by right]. cbn. split; [done|].
    exists x'. by split_and!.
  - intros re b Hin. split; [by right|]. by eapply Hnr.
  - cbn. apply list.NoDup_cons. split; [|apply (v_retiring_once _ Hi)].
    intros ([re b] & E & Hin)%list_elem_of_fmap. unfold rord in E. cbn in E.
    eapply Hnr; [exact Hin|]. lia.
  - unfold state_inv. cbn [slot_state x' with_state]. split; [exact Hown|].
    exists {| re_ref := ref; re_ticket := slot_ticket x |}, false. cbn. split_and!; [by left|done|].
    split; [done|intros; done].
Qed.

Lemma rinv_stage y ref x fresh answer s' err st :
  rinv y -> y_pc y = WIdle -> slotForRefLocked ref (y_s y) = Some x ->
  slot_state x = retainedSubmissionRawQueued -> is_head ref (y_s y) = true ->
  same_request x fresh -> slot_state fresh = slot_state x -> slot_ticket fresh = slot_ticket x ->
  stage_answer ref fresh answer (put_slot ref fresh (y_s y)) = (s', err) ->
  rinv (with_staged (match answer, err with
                     | Ok t, None => (ref_ordinal ref, t) :: y_staged y
                     | _, _ => y_staged y
                     end) (move y s' WIdle st)).
Proof.
  intros Hi Hpc Hr Hraw Hhead Hsame Hfs Hft Ha. destruct (ref_job _ _ _ Hi Hr) as [Hx Hjx].
  pose proof (ref_ordinal_eq _ _ _ Hr) as Hord.
  pose proof (ref_slot_cases _ _ _ Hr) as (Hlt & _).
  pose proof (ji_state _ _ Hjx) as Hst. unfold state_inv in Hst. rewrite Hraw in Hst. destruct Hst as [_ Hns].
  assert (Hnr : forall re b, (re, b) ∈ y_retiring y -> ref_ordinal (re_ref re) <> slot_ordinal x).
  { apply no_retirement; [done|done|congruence]. }
  assert (Hbar : lf_pending (rs_lifecycle (y_s y)) = false).
  { rewrite (v_barrier _ Hi), Hpc. done. }
  assert (Hend : slot_ordinal x ∉ ended_ords y).
  { intros ([[p t] e] & Ep & Hin)%list_elem_of_fmap. cbn in Ep. subst p.
    apply Hns, elem_of_fst. exists t. by apply (v_ended_staged _ Hi _ _ e). }
  assert (Hrej : forall e, (removeRefLocked ref (put_slot ref (with_state retainedSubmissionLifecycleRetired fresh)
      (put_slot ref fresh (y_s y))), Some e) = (s', err) ->
    rinv (with_staged (y_staged y) (move y s' WIdle st))).
  { intros e [= <- <-]. rewrite put_slot_twice by done.
    destruct (remove_put_effect ref x (with_state retainedSubmissionLifecycleRetired fresh) (y_s y)
      (v_lanes _ Hi) Hr) as [He _]; [cbn; by rewrite (sr_payload _ _ Hsame)|done|].
    eapply (rinv_drop y _ x st (y_retiring y)); [done|done|reflexivity|exact He|by split|..];
      cbn [y_s y_pc move with_staged]; try done; try apply Hi.
    - intros p _. by rewrite Hpc.
    - intros re b. split; [|by intros [? _]]. intros Hin. split; [done|]. by eapply Hnr.
    - by left. }
  unfold stage_answer in Ha. destruct answer as [t|e]; [|by destruct err; apply Hrej in Ha].
  destruct (ticketValidLocked t fresh _) eqn:Ev; [|by pose proof Ha as [= _ <-]; apply Hrej in Ha].
  injection Ha as <- <-. rewrite put_slot_twice by done.
  assert (Htv : Ticket_Valid t = true).
  { unfold ticketValidLocked in Ev. case_if_in Ev; [done|]. by bool_prop. }
  set (x' := with_state retainedSubmissionTicketed (with_ticket t fresh)).
  assert (Hsr : same_request x x') by (eapply same_request_trans; [exact Hsame|by split]).
  destruct (put_slot_effect ref x x' (y_s y) (v_lanes _ Hi) Hr) as [He Hr'];
    [apply Hsr|apply Hsr|by rewrite (sr_payload _ _ Hsr)|done|by right; right|].
  eapply (rinv_image y _ x x' st ((ref_ordinal ref, t) :: y_staged y) (y_retiring y));
    [done|done|reflexivity|exact He|by split|done|..];
    cbn [y_s y_pc move with_staged]; try done; try apply Hi.
  - intros p _. by rewrite Hpc.
  - intros re b Hin. by right.
  - intros re b Hin. split; [done|by eapply Hnr].
  - intros p t' Hp. rewrite elem_of_cons. split; [intros [[= ? _]|?]; [lia|done]|by right].
  - intros q Hq. by right.
  - cbn. apply list.NoDup_cons. split; [by rewrite <-Hord|apply (v_staged _ Hi)].
  - constructor; [|apply (v_staged_bound _ Hi)]. cbn. pose proof (ji_ordinal _ _ Hjx). lia.
  - unfold state_inv. cbn [slot_state x' with_state]. unfold owned_by. rewrite (sr_ordinal _ _ Hsr).
    split; [split; [done|]|done]. cbn. rewrite Hord. by left.
Qed.

(** The lanes stay; the rest may change around them. *)
Lemma lanes_only_ref s s' ref : rs_lanes s' = rs_lanes s -> slotForRefLocked ref s' = slotForRefLocked ref s.
Proof. intros E. unfold slotForRefLocked, lane_at. by rewrite E. Qed.

Lemma lanes_only_ok s s' : rs_lanes s' = rs_lanes s -> rs_config s' = rs_config s -> lanes_ok s -> lanes_ok s'.
Proof.
  intros El Ec [H3 Hl]. split; [by rewrite El|]. intros i q Hq. rewrite El in Hq.
  unfold rs_limits. rewrite Ec. by apply Hl.
Qed.

Lemma rinv_quiet y s' pc' st :
  rinv y -> rs_config s' = rs_config (y_s y) -> rs_lanes s' = rs_lanes (y_s y) ->
  rs_nextOrdinal s' = rs_nextOrdinal (y_s y) ->
  Forall (fun x => slot_sequence x ∉ rs_framing s') (all_jobs (y_s y)) ->
  lf_pending (rs_lifecycle s') = pc_lifecycle pc' ->
  (forall o, pc_status pc' o = pc_status (y_pc y) o) -> pc_ref pc' = pc_ref (y_pc y) ->
  rinv (move y s' pc' st).
Proof.
  intros Hi Ec El En Hf Hb Hps Hpr.
  assert (Ej : all_jobs s' = all_jobs (y_s y)) by (unfold all_jobs; by rewrite El).
  assert (Eo : ords s' = ords (y_s y)) by (unfold ords; by rewrite Ej).
  assert (Hd : departed (y_s y) s' = []) by (apply departed_none; by rewrite Eo).
  assert (Hh : forall ref t x, holds (y_s y) ref t x -> holds s' ref t x).
  { intros ref t x (z & Hz & ?). exists z. split; [|done]. by rewrite (lanes_only_ref _ _ _ El). }
  split; cbn [y_s y_pc y_retiring y_staged y_ended y_accepted y_gone move]; rewrite ?Ej, ?Eo, ?En; try done;
    try apply Hi.
  - unfold rs_limits. rewrite Ec. apply Hi.
  - apply (lanes_only_ok (y_s y)); [done|done|apply Hi].
  - pose proof (v_jobs _ Hi) as Hj. rewrite list.Forall_forall in *. intros x Hx.
    destruct (Hj x Hx) as [J1 J2 J3 J4 J5]. split; cbn; try done.
    + by rewrite En.
    + unfold rs_session in *. by rewrite Ec.
    + by apply Hf.
    + unfold state_inv in *. cbn. rewrite Hps. exact J5.
  - eapply Forall_impl; [|exact (v_retiring _ Hi)]. intros r Hr. by apply Hh.
  - assert (Hall : forall ref t, pc_ref pc' = Some (ref, t) -> holds s' ref t retainedSubmissionAdmitted).
    { intros ref t Hp. apply Hh, (v_pc_ref y); [done|]. by rewrite <-Hpr. }
    destruct pc'; try done; by apply Hall.
  - rewrite Hd. cbn. rewrite app_nil_r. apply Hi.
Qed.

(** *** The preparation and the completion of a response *)

Lemma advance_core i now s :
  rs_lanes (advanceEndpointCadenceLocked i now s) = rs_lanes s /\
  rs_config (advanceEndpointCadenceLocked i now s) = rs_config s /\
  rs_nextOrdinal (advanceEndpointCadenceLocked i now s) = rs_nextOrdinal s /\
  rs_framing (advanceEndpointCadenceLocked i now s) = rs_framing s /\
  rs_lifecycle (advanceEndpointCadenceLocked i now s) = rs_lifecycle s.
Proof. unfold advanceEndpointCadenceLocked. by case_if. Qed.

(** An effect seen through a change beside the lanes. *)
Lemma effect_beside s s1 s' gone new :
  effect s s1 gone new -> rs_lanes s' = rs_lanes s1 -> rs_config s' = rs_config s1 -> effect s s' gone new.
Proof.
  intros [H1 H2 H3 H4] El Ec. split.
  - by apply (lanes_only_ok s1).
  - by rewrite Ec.
  - unfold all_jobs at 2. rewrite El. exact H3.
  - intros ref2 Hne. rewrite (lanes_only_ref _ _ _ El). by apply H4.
Qed.

Lemma effect_beside_l s0 s s' gone new :
  effect s0 s' gone new -> rs_lanes s0 = rs_lanes s -> rs_config s0 = rs_config s -> effect s s' gone new.
Proof.
  intros [H1 H2 H3 H4] El Ec. split.
  - done.
  - by rewrite H2.
  - unfold all_jobs at 1. rewrite <-El. exact H3.
  - intros ref2 Hne. rewrite <-(lanes_only_ref _ _ ref2 El). by apply H4.
Qed.

Lemma guard_slot ref s x :
  prepare_guard ref s = Some x ->
  slotForRefLocked ref s = Some x /\
  (slot_state x = retainedSubmissionTicketed \/ slot_state x = retainedSubmissionPending) /\
  is_head ref s = true /\ rs_closed s = false /\ rs_cancelled s = false.
Proof.
  unfold prepare_guard. destruct (slotForRefLocked ref s) as [z|]; [|done]. case_if; [done|].
  intros [= <-]. bool_prop. split; [done|].
  destruct (slot_state z); cbn in *; bool_split; bdec; try done; by auto.
Qed.

Lemma rinv_prepare y ref x selectedAt answer s' r st :
  rinv y -> y_pc y = WIdle -> prepare_guard ref (y_s y) = Some x ->
  prepare_answer ref x selectedAt answer (y_s y) = (s', r) ->
  rinv (move y s' (match r with
                   | PrepAdmitted _ lifecycle => WAdmitted ref (slot_ticket x) lifecycle
                   | _ => WIdle
                   end) st).
Proof.
  intros Hi Hpc (Hr & Hs & Hhead & _ & _)%guard_slot Ha.
  destruct (ref_job _ _ _ Hi Hr) as [Hx Hjx]. pose proof (ref_ordinal_eq _ _ _ Hr) as Hord.
  assert (Hbar : lf_pending (rs_lifecycle (y_s y)) = false).
  { rewrite (v_barrier _ Hi), Hpc. done. }
  assert (Hsame : rinv (move y (y_s y) WIdle st)).
  { apply rinv_quiet; try done; [|by intros o; rewrite Hpc|by rewrite Hpc].
    eapply Forall_impl; [|exact (v_jobs _ Hi)]. by intros z []. }
  assert (Howned : owned_by y x /\ slot_ordinal x ∉ ended_ords y).
  { pose proof (ji_state _ _ Hjx) as Hst. unfold state_inv in Hst. by destruct Hs as [E|E]; rewrite E in Hst. }
  destruct Howned as [Hown Hne].
  assert (Hnr : forall re b, (re, b) ∈ y_retiring y -> ref_ordinal (re_ref re) <> slot_ordinal x).
  { apply no_retirement; [done|done|]. by destruct Hs as [->| ->]. }
  assert (Hnraw : slot_state x <> retainedSubmissionRawQueued) by (by destruct Hs as [->| ->]).
  unfold prepare_answer in Ha. destruct answer as [p|e]; [|by injection Ha as <- <-].
  destruct (rs_cancelled (y_s y)); [by injection Ha as <- <-|].
  destruct (validatePreparationLocked _ _ _ _ _) as [sel|e]; [|by injection Ha as <- <-].
  destruct (pr_Result p =? ResultPending).
  - injection Ha as <- <-.
    set (x' := with_pending (pr_ReadinessEpoch p) (pr_RetryAt p) (with_state retainedSubmissionPending x)).
    destruct (put_slot_effect ref x x' (y_s y) (v_lanes _ Hi) Hr) as [He Hr']; try done; [by left|].
    eapply (rinv_image y _ x x' st (y_staged y) (y_retiring y));
      [done|done|reflexivity|exact He|by split|by split|..]; cbn [y_s y_pc move]; try done; try apply Hi.
    + intros o _. by rewrite Hpc.
    + intros re b Hin. by right.
    + intros re b Hin. split; [done|by eapply Hnr].
  - set (lc := lc_accepted (slot_lifecycle x) && (pr_Result p =? ResultSuccess)) in *.
    rewrite Hbar, andb_false_r in Ha. injection Ha as <- <-.
    set (x' := with_pending 0 zero_time (with_state retainedSubmissionAdmitted x)).
    set (s1 := if lc then set_lf_pending true (y_s y) else y_s y).
    assert (E1 : rs_lanes s1 = rs_lanes (y_s y) /\ rs_config s1 = rs_config (y_s y) /\
      rs_nextOrdinal s1 = rs_nextOrdinal (y_s y) /\ rs_framing s1 = rs_framing (y_s y) /\
      lf_pending (rs_lifecycle s1) = lc).
    { unfold s1. destruct lc; [done|]. by rewrite Hbar. }
    destruct E1 as (El & Ec & En & Ef & Eb).
    destruct (advance_core (ref_lane ref) selectedAt (put_slot ref x' s1)) as (A1 & A2 & A3 & A4 & A5).
    set (s2 := advanceEndpointCadenceLocked _ _ _) in *.
    destruct (put_slot_effect ref x x' s1) as [He Hr']; try done.
    { by apply (lanes_only_ok (y_s y) s1); [..|apply Hi]. }
    { by rewrite (lanes_only_ref (y_s y) s1). }
    { by left. }
    assert (He2 : effect (y_s y) s2 [x] [x']).
    { eapply effect_beside; [|exact A1|exact A2]. by eapply effect_beside_l. }
    assert (Hr2 : slotForRefLocked ref s2 = Some x') by (by rewrite (lanes_only_ref _ _ _ A1)).
    eapply (rinv_image y _ x x' st (y_staged y) (y_retiring y));
      [done|done|reflexivity|exact He2| |by split|..]; cbn [y_s y_pc move pc_lifecycle]; try done; try apply Hi.
    + split; [by rewrite A3|by rewrite A4].
    + by rewrite A5.
    + intros o Ho. rewrite Hpc. cbn. case_if; [lia|done].
    + intros ref' t [= <- <-]. split; [|intros E; by destruct E]. intros _. exists x'. by split_and!.
    + intros re b Hin. by right.
    + intros re b Hin. split; [done|by eapply Hnr].
    + unfold state_inv. cbn [slot_state x' with_pending with_state]. split; [exact Hown|].
      exists false. cbn. rewrite Hord, Z.eqb_refl. split; [done|]. rewrite <-Hord. split; [done|intros; done].
Qed.

Lemma lookup_map {A B} (f : A -> B) (l : list A) (i : nat) (a : A) :
  l !! i = Some a -> map f l !! i = Some (f a).
Proof. intros Ha. change (map f l) with (f <$> l). by rewrite list_lookup_fmap, Ha. Qed.

(** The owner is told the end of a ticket: [pc] and [r] record that it was. *)
Lemma effect_refl s x : lanes_ok s -> x ∈ all_jobs s -> effect s s [x] [x].
Proof.
  intros Hl Hx. split; try done. apply list_elem_of_split in Hx as (l1 & l2 & ->).
  exists (l1 ++ l2). cbn. split; symmetry; apply Permutation_middle.
Qed.

Lemma rinv_end y y' x e :
  rinv y -> x ∈ all_jobs (y_s y) -> slot_state x <> retainedSubmissionRawQueued ->
  (slot_ordinal x ∉ ended_ords y) -> (slot_ordinal x, slot_ticket x) ∈ y_staged y ->
  y_s y' = y_s y -> y_staged y' = y_staged y -> y_accepted y' = y_accepted y ->
  y_ended y' = (slot_ordinal x, slot_ticket x, e) :: y_ended y ->
  map fst (y_gone y') = map fst (y_gone y) ->
  pc_lifecycle (y_pc y') = pc_lifecycle (y_pc y) -> pc_ref (y_pc y') = pc_ref (y_pc y) ->
  (forall p, p <> slot_ordinal x -> pc_status (y_pc y') p = pc_status (y_pc y) p) ->
  map fst (y_retiring y') = map fst (y_retiring y) ->
  (forall re b, ref_ordinal (re_ref re) <> slot_ordinal x ->
     (re, b) ∈ y_retiring y' <-> (re, b) ∈ y_retiring y) ->
  state_inv y' x -> rinv y'.
Proof.
  intros Hi Hx Hraw Hne Hst Es Est Ea Ee Eg Ebar Epr Hps Er Hr Hsi. set (o := slot_ordinal x) in *.
  assert (Eo : ended_ords y' = o :: ended_ords y) by (unfold ended_ords; by rewrite Ee).
  assert (Hjx : job_inv y x).
  { pose proof (v_jobs _ Hi) as Hj. rewrite list.Forall_forall in Hj. by apply Hj. }
  assert (Hf : frame_except o y y').
  { split; rewrite ?Est, ?Ea, ?Eo, ?Epr; try done. intros p Hp. rewrite elem_of_cons. naive_solver. }
  assert (He : effect (y_s y) (y_s y') [x] [x]) by (rewrite Es; apply effect_refl; [apply Hi|done]).
  assert (Ho : Forall (fun z => slot_ordinal z = o) ([x] ++ [x])) by (by repeat constructor).
  assert (Hcase : one_submission o (y_s y) [x] [x]) by (left; by exists x, x).
  apply (rinv_change o y y' [x] [x] Hi Hf He Ho Hcase); rewrite ?Es, ?Est, ?Ea, ?Eo, ?Eg, ?Ebar, ?Epr;
    try done; try apply Hi.
  - constructor; [|constructor]. destruct Hjx as [J1 J2 J3 J4 J5]. split; rewrite ?Es, ?Ea; done.
  - intros re b Hin E. assert (Hin' : re ∈ map fst (y_retiring y')) by (apply elem_of_fst; eauto).
    rewrite Er in Hin'. apply elem_of_fst in Hin' as [b' Hin']. pose proof (v_retiring _ Hi) as Hv.
    rewrite list.Forall_forall in Hv. by apply (Hv (re, b')).
  - replace (map rord (y_retiring y')) with (map (fun re => ref_ordinal (re_ref re)) (map fst (y_retiring y')))
      by (by rewrite map_map). rewrite Er, map_map. apply (v_retiring_once _ Hi).
  - intros ref t Hp _. by apply (v_pc_ref y).
  - apply list.NoDup_cons. split; [done|apply (v_ended _ Hi)].
  - intros p t e' Hin. rewrite Ee in Hin. apply elem_of_cons in Hin as [[= -> -> ->]|Hin]; [done|].
    by apply (v_ended_staged _ Hi p t e').
  - intros t _. left. by left.
Qed.

Lemma rinv_complete y ref ticket lifecycle delivered err st :
  rinv y -> y_pc y = WAdmitted ref ticket lifecycle ->
  rinv (with_ended (ref_ordinal ref, ticket, EndComplete delivered)
    (move y (y_s y) (WCompleted ref ticket lifecycle delivered err) st)).
Proof.
  intros Hi Hpc. destruct (v_pc_ref y ref ticket Hi) as (x & Hr & Hs & Ht); [by rewrite Hpc|].
  destruct (ref_job _ _ _ Hi Hr) as [Hx Hjx]. pose proof (ref_ordinal_eq _ _ _ Hr) as Hord.
  pose proof (ji_state _ _ Hjx) as Hst. unfold state_inv in Hst. rewrite Hs, Hpc in Hst. cbn in Hst.
  rewrite <-Hord, Z.eqb_refl in Hst. destruct Hst as [[Hv Hin] (b & [= <-] & Hb)].
  rewrite <-Hord, <-Ht.
  assert (Hne : slot_ordinal x ∉ ended_ords y) by (intros Hq; by apply Hb in Hq).
  apply (rinv_end y _ x (EndComplete delivered)); cbn; try done.
  - by rewrite Hs.
  - by rewrite departed_none, app_nil_r.
  - by rewrite Hpc.
  - by rewrite Hpc, Ht.
  - intros p Hp. rewrite Hpc. cbn. by case_if; [lia|].
  - unfold state_inv. rewrite Hs. cbn. split; [by split|]. exists true.
    rewrite <-Hord, Z.eqb_refl. split; [done|]. split; [done|]. intros _. by left.
Qed.

Lemma rinv_retire_call y re before after reason :
  rinv y -> y_retiring y = before ++ (re, false) :: after ->
  retire_calls (re_ticket re) = true /\
  rinv (with_retiring (before ++ (re, true) :: after)
    (with_ended (ref_ordinal (re_ref re), re_ticket re, EndRetire reason) y)).
Proof.
  intros Hi Hret. pose proof (v_retiring _ Hi) as Hv. rewrite list.Forall_forall in Hv.
  assert (Hin : (re, false) ∈ y_retiring y) by (rewrite Hret; set_solver).
  destruct (Hv _ Hin) as (x & Hr & Hs & Ht). cbn in Hr, Ht.
  destruct (ref_job _ _ _ Hi Hr) as [Hx Hjx]. pose proof (ref_ordinal_eq _ _ _ Hr) as Hord.
  pose proof (v_retiring_once _ Hi) as Hn.
  assert (Hone : forall re' b, (re', b) ∈ y_retiring y -> ref_ordinal (re_ref re') = slot_ordinal x ->
    re' = re /\ b = false).
  { intros re' b Hin' E. apply list_elem_of_lookup in Hin as [i Hi1].
    apply list_elem_of_lookup in Hin' as [j Hj1].
    assert (i = j) as ->.
    { eapply (NoDup_lookup _ _ _ (slot_ordinal x) Hn).
      - rewrite (lookup_map rord _ _ _ Hi1). unfold rord. cbn. congruence.
      - rewrite (lookup_map rord _ _ _ Hj1). unfold rord. cbn. congruence. }
    rewrite Hi1 in Hj1. by simplify_eq. }
  pose proof (ji_state _ _ Hjx) as Hst. unfold state_inv in Hst. rewrite Hs in Hst.
  destruct Hst as [[Hval Hstg] (re' & b & Hin' & E & Hb)]. destruct (Hone _ _ Hin' E) as [-> ->].
  assert (Hne : slot_ordinal x ∉ ended_ords y) by (intros Hq; by apply Hb in Hq).
  split.
  - unfold retire_calls. apply negb_true_iff, bool_decide_eq_false_2. rewrite <-Ht. intros E0.
    by rewrite E0 in Hval.
  - rewrite <-Hord, <-Ht. apply (rinv_end y _ x (EndRetire reason)); cbn; try done.
    + by rewrite Hs.
    + rewrite Hret, !map_app. done.
    + intros re' b Hne'. rewrite Hret, !elem_of_app, !elem_of_cons.
      split; intros [?|[[= -> ->]|?]]; try tauto; by destruct Hne'.
    + unfold state_inv. rewrite Hs. cbn. split; [by split|]. exists re, true. split_and!; [set_solver|done|].
      split; [done|]. intros _. by left.
Qed.

(** The completion section always finds the submission it completes. *)
Lemma complete_finds y ref ticket lifecycle delivered err :
  rinv y -> y_pc y = WCompleted ref ticket lifecycle delivered err ->
  exists x e apply s1, slotForRefLocked ref (y_s y) = Some x /\
    slot_state x = retainedSubmissionAdmitted /\ slot_ticket x = ticket /\
    (s1 = y_s y \/ exists n, s1 = set_lf_binding n (y_s y)) /\
    complete_answer ref ticket lifecycle delivered err (y_s y) =
      (removeRefLocked ref (put_slot ref (with_state retainedSubmissionTerminal x) s1), Some (e, apply)).
Proof.
  intros Hi Hpc. destruct (v_pc_ref y ref ticket Hi) as (x & Hr & Hs & Ht); [by rewrite Hpc|].
  unfold complete_answer. rewrite Hr, (bool_decide_eq_true_2 _ Hs), (bool_decide_eq_true_2 _ Ht).
  cbn [negb orb]. repeat case_if.
  - exists x, (Some ErrCounterExhausted), None, (y_s y). auto 10.
  - eexists x, err, _, (set_lf_binding (lf_binding (rs_lifecycle (y_s y)) + 1) (y_s y)). split_and!; eauto.
  - exists x, err, None, (y_s y). auto 10.
Qed.

Lemma rinv_finish y ref ticket lifecycle delivered err s' r st :
  rinv y -> y_pc y = WCompleted ref ticket lifecycle delivered err ->
  complete_answer ref ticket lifecycle delivered err (y_s y) = (s', r) ->
  rinv (move y s' (match r with
                   | Some (_, apply) => if lifecycle then WLifecycle apply else WIdle
                   | None => WIdle
                   end) st).
Proof.
  intros Hi Hpc Ha.
  destruct (complete_finds _ _ _ _ _ _ Hi Hpc) as (x & e & apply & s1 & Hr & Hs & Ht & Hs1 & Ea).
  rewrite Ea in Ha. injection Ha as <- <-.
  destruct (ref_job _ _ _ Hi Hr) as [Hx Hjx]. pose proof (ref_ordinal_eq _ _ _ Hr) as Hord.
  assert (E1 : rs_lanes s1 = rs_lanes (y_s y) /\ rs_config s1 = rs_config (y_s y) /\
    rs_nextOrdinal s1 = rs_nextOrdinal (y_s y) /\ rs_framing s1 = rs_framing (y_s y) /\
    lf_pending (rs_lifecycle s1) = lf_pending (rs_lifecycle (y_s y))).
  { by destruct Hs1 as [->|[n ->]]. }
  destruct E1 as (El & Ec & En & Ef & Eb).
  destruct (remove_put_effect ref x (with_state retainedSubmissionTerminal x) s1) as [He _]; try done.
  { by apply (lanes_only_ok (y_s y) s1); [..|apply Hi]. }
  { by rewrite (lanes_only_ref (y_s y) s1). }
  apply (effect_beside_l _ (y_s y)) in He; [|done|done].
  assert (Hend : slot_ordinal x ∈ ended_ords y).
  { pose proof (ji_state _ _ Hjx) as Hst. unfold state_inv in Hst. rewrite Hs, Hpc in Hst. cbn in Hst.
    rewrite <-Hord, Z.eqb_refl in Hst. destruct Hst as [_ (b & [= <-] & Hb)]. by apply Hb. }
  eapply (rinv_drop y _ x st (y_retiring y)); [done|done|reflexivity|exact He|by split|..];
    cbn [y_s y_pc move]; try done; try apply Hi.
  - change (lf_pending (rs_lifecycle s1) =
      pc_lifecycle (if lifecycle then WLifecycle apply else WIdle)).
    rewrite Eb, (v_barrier _ Hi), Hpc. by destruct lifecycle.
  - intros p Hp. rewrite Hpc. cbn. destruct lifecycle; cbn; case_if; try done; lia.
  - intros ref' t. by destruct lifecycle.
  - intros re b. split; [|by intros [? _]]. intros Hin. split; [done|].
    eapply no_retirement; [done|done| |exact Hin]. by rewrite Hs.
  - by right.
Qed.

Lemma rinv_lifecycle y apply published st :
  rinv y -> y_pc y = WLifecycle apply ->
  rinv (move y (complete_lifecycle published
    (match published with Some lc => publish lc (y_s y) | None => y_s y end)) WIdle st).
Proof.
  intros Hi Hpc.
  assert (Hr : forall lc s, let s' := resetEndpointCadenceLocked lc s in
    rs_config s' = rs_config s /\ rs_lanes s' = rs_lanes s /\ rs_nextOrdinal s' = rs_nextOrdinal s /\
    rs_framing s' = rs_framing s).
  { intros lc s. unfold resetEndpointCadenceLocked. by repeat case_if. }
  assert (Ha : forall lc s, let s' := applyControlLifecycleRoutingLocked lc s in
    rs_config s' = rs_config s /\ rs_lanes s' = rs_lanes s /\ rs_nextOrdinal s' = rs_nextOrdinal s /\
    rs_framing s' = rs_framing s).
  { intros lc s. unfold applyControlLifecycleRoutingLocked. specialize (Hr lc s). by destruct (lc_kind lc). }
  assert (Hc : forall s, let s' := complete_lifecycle published s in
    rs_config s' = rs_config s /\ rs_lanes s' = rs_lanes s /\ rs_nextOrdinal s' = rs_nextOrdinal s /\
    rs_framing s' = rs_framing s /\ lf_pending (rs_lifecycle s') = false).
  { intros s. unfold complete_lifecycle, releaseLifecycleBarrierLocked.
    set (s1 := match published with Some lc => applyControlLifecycleRoutingLocked lc s | None => s end).
    assert (E : rs_config s1 = rs_config s /\ rs_lanes s1 = rs_lanes s /\
      rs_nextOrdinal s1 = rs_nextOrdinal s /\ rs_framing s1 = rs_framing s).
    { unfold s1. destruct published; [apply Ha|done]. }
    destruct (lf_pending (rs_lifecycle s1)) eqn:Ep; cbn [negb]; [exact (conj (proj1 E)
      (conj (proj1 (proj2 E)) (conj (proj1 (proj2 (proj2 E))) (conj (proj2 (proj2 (proj2 E))) eq_refl))))|].
    by rewrite Ep; destruct E as (? & ? & ? & ?). }
  set (s0 := match published with Some lc => publish lc (y_s y) | None => y_s y end).
  destruct (Hc s0) as (C1 & C2 & C3 & C4 & C5).
  assert (E0 : rs_config s0 = rs_config (y_s y) /\ rs_lanes s0 = rs_lanes (y_s y) /\
    rs_nextOrdinal s0 = rs_nextOrdinal (y_s y) /\ rs_framing s0 = rs_framing (y_s y))
    by (unfold s0; by destruct published).
  destruct E0 as (D1 & D2 & D3 & D4).
  apply rinv_quiet; try done; try congruence.
  - rewrite C4, D4. eapply Forall_impl; [|exact (v_jobs _ Hi)]. by intros z [].
  - intros o. by rewrite Hpc.
  - by rewrite Hpc.
Qed.
