(* ===== verification/RetainedRuns.v ===== *)
(** * What every run of the retained scheduler guarantees

    The rest of the steps keep the invariant of the interleavings, and the
    theorems about whole runs follow from it. *)

From Stdlib Require Sorted.
From S2P Require Import Prelude Bytes GoIO UsbIp Hid Descriptor Urb Control.
From S2P Require Import ResponseWriter RetainedUsb RetainedTopology RetainedLane Retained RetainedQueues.
From S2P Require Import RetainedProtocol.

Lemma NoDup_map_fst_inj {A B} (l : list (A * B)) a b b' :
  NoDup (map fst l) -> (a, b) ∈ l -> (a, b') ∈ l -> b = b'.
Proof.
  intros Hn [i Hi]%list_elem_of_lookup [j Hj]%list_elem_of_lookup.
  assert (i = j) as ->; [|congruence].
  eapply (NoDup_lookup _ _ _ a Hn); [exact (lookup_map fst _ _ _ Hi)|exact (lookup_map fst _ _ _ Hj)].
Qed.

(** ** The command reader's steps *)

Lemma sequence_free sequence s :
  sequencePendingLocked sequence s = false -> sequence ∉ map slot_sequence (all_jobs s).
Proof.
  unfold sequencePendingLocked. intros Hn (x & E & Hx)%list_elem_of_fmap.
  apply not_true_iff_false in Hn. apply Hn, existsb_exists. exists x.
  split; [by apply list_elem_of_In|]. apply Z.eqb_eq. by symmetry.
Qed.

Lemma rinv_framing y f st :
  rinv y -> Forall (fun x => slot_sequence x ∉ f) (all_jobs (y_s y)) ->
  rinv (move y (with_framing f (y_s y)) (y_pc y) st).
Proof. intros Hi Hf. apply rinv_quiet; try done. apply (v_barrier _ Hi). Qed.

Lemma rinv_reserve y sequence s' st :
  rinv y -> reserveFramingSequence sequence (y_s y) = (s', None) -> rinv (move y s' (y_pc y) st).
Proof.
  intros Hi. unfold reserveFramingSequence. repeat case_if; try done. intros [= <-].
  apply rinv_framing; [done|]. pose proof (v_jobs _ Hi) as Hj. rewrite list.Forall_forall in *.
  intros x Hx. pose proof (ji_framing _ _ (Hj x Hx)) as Hf. rewrite elem_of_union, elem_of_singleton.
  intros [E|?]; [|done]. eapply sequence_free; [eassumption|]. apply list_elem_of_fmap. exists x. by split.
Qed.

Lemma rinv_abandon y sequence st :
  rinv y -> rinv (move y (abandonFramingSequence sequence (y_s y)) (y_pc y) st).
Proof.
  intros Hi. apply rinv_framing; [done|]. eapply Forall_impl; [|exact (v_jobs _ Hi)].
  intros x Hx. pose proof (ji_framing _ _ Hx). set_solver.
Qed.

(** Accepted data fits the slot's slab window. *)
Lemma envelope_fits e l i :
  validateEnvelope e l = true -> Lane_Index (en_lane e) = Some i ->
  (i < 3)%nat /\ (length (en_data e) <= slab_of l i)%nat.
Proof.
  unfold Lane_Index, Lane_Valid. intros Hv Hl. case_if_in Hl; [|done]. injection Hl as <-. bool_prop.
  unfold LaneControl in *.
  assert (Hc : en_lane e = 1 \/ en_lane e = 2 \/ en_lane e = 3) by lia.
  unfold validateEnvelope in Hv. case_if_in Hv; [done|].
  destruct Hc as [E|[E|E]]; rewrite E in *; cbn in Hv |- *;
    repeat case_if_in Hv; bool_split; bool_prop; split; try lia.
  - change (slab_of l _) with (Z.to_nat (MaximumControlOut l)). lia.
  - change (slab_of l _) with (Z.to_nat (MaximumInterruptOut l)). lia.
Qed.

Lemma retained_enqueue_cases e require s s' :
  enqueueWithFramingReservation e require s = (s', None) ->
  exists i binding, let n := rs_nextOrdinal s + 1 in
    Lane_Index (en_lane e) = Some i /\ validateEnvelope e (rs_limits s) = true /\
    (en_sequence e ∉ map slot_sequence (all_jobs s)) /\ (0 < lq_freeCount (lane_at s i))%nat /\
    (require = false -> en_sequence e ∉ rs_framing s) /\
    let s1 := set_lane i (push_slot (fresh_slot e binding n (rs_session s)) (lane_at s i)) (with_ordinal n s) in
    s' = if require then with_framing (rs_framing s ∖ {[en_sequence e]}) s1 else s1.
Proof.
  unfold enqueueWithFramingReservation. case_if; [done|].
  destruct (Lane_Index (en_lane e)) as [i|]; [|done]. repeat (case_if; [done|]). intros [= <-].
  exists i, (if lf_configured (rs_lifecycle s) then lf_binding (rs_lifecycle s) else en_binding e).
  cbv zeta. bool_prop. split_and!; try done.
  - by apply sequence_free.
  - lia.
  - intros ->. cbn in *. by bdec.
Qed.

Lemma take_put_at_0 (src buf : list Z) :
  (length src <= length buf)%nat -> take (length src) (put_at 0 src buf) = src.
Proof. intros Hl. pose proof (slice_put_at 0 src buf Hl) as E. unfold slice in E. by rewrite Nat.sub_0_r in E. Qed.

Lemma rinv_enqueue y e require s' st :
  rinv y -> enqueueWithFramingReservation e require (y_s y) = (s', None) ->
  rinv (with_accepted (rs_nextOrdinal s', e) (move y s' (y_pc y) st)).
Proof.
  intros Hi (i & binding & Hl & Hv & Hseq & Hfree & Hfr & Es)%retained_enqueue_cases. cbv zeta in Es.
  destruct (envelope_fits _ _ _ Hv Hl) as [Hi3 Hfit].
  set (n := rs_nextOrdinal (y_s y) + 1) in *.
  set (fill := fresh_slot e binding n (rs_session (y_s y))) in *.
  set (s1 := set_lane _ _ _) in *.
  assert (Hlast : Forall (fun x => slot_ordinal x < n) (all_jobs (y_s y))).
  { eapply Forall_impl; [|exact (v_jobs _ Hi)]. intros x Hx. pose proof (ji_ordinal _ _ Hx). lia. }
  destruct (push_effect i fill n (y_s y) (v_lanes _ Hi)) as (p & Hp & He); try done.
  { intros p Hp. cbn. rewrite length_put_at; lia. }
  assert (El : rs_lanes s' = rs_lanes (set_lane i (push_slot fill (lane_at (y_s y) i)) (y_s y)))
    by (rewrite Es; by destruct require).
  assert (Ec : rs_config s' = rs_config (y_s y)) by (rewrite Es; by destruct require).
  apply (effect_beside _ _ s') in He; [|done|done].
  assert (En : rs_nextOrdinal s' = n) by (rewrite Es; by destruct require).
  assert (Ef : rs_framing s' ⊆ rs_framing (y_s y) /\ en_sequence e ∉ rs_framing s').
  { rewrite Es. destruct require; cbn; [set_solver|]. split; [done|by apply Hfr]. }
  assert (Eb : lf_pending (rs_lifecycle s') = lf_pending (rs_lifecycle (y_s y)))
    by (rewrite Es; by destruct require).
  assert (Hno : n ∉ ords (y_s y)).
  { intros (x & E & Hx)%list_elem_of_fmap. rewrite list.Forall_forall in Hlast.
    specialize (Hlast x Hx). cbn in Hlast. lia. }
  assert (Hout : forall ref t st', holds (y_s y) ref t st' -> ref_ordinal ref <> n).
  { intros ref t st' (x & Hx & _) E. apply Hno. apply list_elem_of_fmap. exists x.
    rewrite (ref_ordinal_eq _ _ _ Hx). by destruct (ref_job _ _ _ Hi Hx). }
  set (y' := with_accepted _ _).
  assert (Hf : frame_except n y y').
  { split; cbn; try done. intros a Ha. by right. }
  assert (Ho : Forall (fun z => slot_ordinal z = n) ([] ++ [fill p])) by (by repeat constructor).
  assert (Hcase : one_submission n (y_s y) [] [fill p]).
  { right. right. exists (fill p). by split_and!. }
  pose proof (change_ords n y y' [] [fill p] Hi Hf He Ho Hcase) as Hn.
  apply (rinv_change n y y' [] [fill p] Hi Hf He Ho Hcase);
    change (y_s y') with s'; change (y_pc y') with (y_pc y); change (y_retiring y') with (y_retiring y);
    change (y_staged y') with (y_staged y); change (y_ended y') with (y_ended y);
    change (ended_ords y') with (ended_ords y); rewrite ?En, ?Eb; try done; try apply Hi.
  - lia.
  - intros x _ _ Hx. set_solver.
  - repeat constructor; cbn; try done.
    + pose proof (v_next _ Hi). lia.
    + change (y_s y') with s'. rewrite En. lia.
    + unfold rs_session. by rewrite Ec.
    + apply Ef.
    + exists e. rewrite En. split; [by left|]. split; try done. cbn. apply take_put_at_0. lia.
    + intros [t Ht]%elem_of_fst. pose proof (v_staged_bound _ Hi) as Hb.
      rewrite list.Forall_forall in Hb. specialize (Hb _ Ht). cbn in Hb. lia.
  - intros re b Hin E. pose proof (v_retiring _ Hi) as Hv'. rewrite list.Forall_forall in Hv'.
    by destruct (Hout _ _ _ (Hv' _ Hin)).
  - intros ref t Hp' E. by destruct (Hout _ _ _ (v_pc_ref _ _ _ Hi Hp')).
  - cbn. rewrite En. apply list.NoDup_cons. split; [|apply (v_accepted _ Hi)].
    intros [a Ha]%elem_of_fst. pose proof (v_accepted_bound _ Hi) as Hb.
    rewrite list.Forall_forall in Hb. specialize (Hb _ Ha). cbn in Hb. lia.
  - cbn. rewrite En. constructor; [done|]. eapply Forall_impl; [|exact (v_accepted_bound _ Hi)].
    intros a. cbn. lia.
  - assert (Eo : ords s' ≡ₚ n :: ords (y_s y)).
    { destruct (ef_jobs _ _ _ _ He) as (rest & E1 & E2). unfold ords. by rewrite E1, E2. }
    cbn. rewrite En, departed_none by (intros o Ho'; rewrite Eo; by right).
    cbn. by rewrite app_nil_r, Eo, (v_fate _ Hi).
  - eapply Forall_impl; [|exact (v_staged_bound _ Hi)]. intros a. cbn. lia.
  - intros t Ht. pose proof (v_staged_bound _ Hi) as Hb.
    rewrite list.Forall_forall in Hb. specialize (Hb _ Ht). cbn in Hb. lia.
Qed.

(** ** Retirements *)

(** A queued slot of a lane is seen through the reference to it. *)
Lemma queued_ref s i q j :
  lanes_ok s -> rs_lanes s !! i = Some q -> j ∈ entries q ->
  slotForRefLocked {| ref_lane := i; ref_slot := j; ref_ordinal := slot_ordinal (slot_at q j) |} s =
    Some (slot_at q j).
Proof.
  intros Ho Hq Hj. pose proof (lo_lane _ Ho _ _ Hq) as [Hok _ _ _].
  pose proof (entry_lt _ _ _ _ Hok Hj) as Hlt. pose proof (lookup_lt_Some _ _ _ Hq) as Hi.
  assert (Hb : slot_state (slot_at q j) <> retainedSubmissionFree).
  { apply (lk_busy _ _ _ Hok). unfold jobs. apply list_elem_of_fmap. eauto. }
  apply ref_slot_intro; cbn; rewrite ?(lane_at_lookup _ _ _ Hq); try done.
  by rewrite (lk_slots _ _ _ Hok).
Qed.

Lemma find_in_lane_spec sequence q i es :
  match find_in_lane sequence q i es with
  | Some ref => exists j, j ∈ es /\ slot_sequence (slot_at q j) = sequence /\
      ref = {| ref_lane := i; ref_slot := j; ref_ordinal := slot_ordinal (slot_at q j) |}
  | None => sequence ∉ map (fun j => slot_sequence (slot_at q j)) es
  end.
Proof.
  induction es as [|j es IH]; cbn [find_in_lane]; [by intros ?%elem_of_nil|].
  destruct (Z.eqb_spec (slot_sequence (slot_at q j)) sequence) as [E|E].
  - exists j. split_and!; [by left|done|done].
  - destruct (find_in_lane sequence q i es) as [ref|].
    + destruct IH as (j' & Hj' & ?). exists j'. split; [by right|done].
    + cbn. rewrite not_elem_of_cons. by split.
Qed.

Lemma findSequence_spec sequence s :
  lanes_ok s ->
  match findSequenceLocked sequence s with
  | Some ref => exists x, slotForRefLocked ref s = Some x /\ slot_sequence x = sequence /\
      x = slot_at (lane_at s (ref_lane ref)) (ref_slot ref)
  | None => sequence ∉ map slot_sequence (all_jobs s)
  end.
Proof.
  intros Ho. unfold findSequenceLocked.
  assert (Hg : forall lanes i, (forall k q, lanes !! k = Some q -> rs_lanes s !! (i + k)%nat = Some q) ->
    match find_in_lanes sequence lanes i with
    | Some ref => exists x, slotForRefLocked ref s = Some x /\ slot_sequence x = sequence /\
        x = slot_at (lane_at s (ref_lane ref)) (ref_slot ref)
    | None => sequence ∉ map slot_sequence (concat (map jobs lanes))
    end).
  { induction lanes as [|q lanes IH]; intros i Hsub; cbn [find_in_lanes]; [by intros ?%elem_of_nil|].
    pose proof (Hsub 0%nat q eq_refl) as Hq. rewrite Nat.add_0_r in Hq.
    pose proof (find_in_lane_spec sequence q i (entries q)) as Hf.
    destruct (find_in_lane _ _ _ _) as [ref|].
    - destruct Hf as (j & Hj & Hs & ->). exists (slot_at q j). split_and!; [by apply queued_ref|done|].
      cbn. by rewrite (lane_at_lookup _ _ _ Hq).
    - specialize (IH (S i)). destruct (find_in_lanes sequence lanes (S i)) as [ref|].
      + apply IH. intros k q' Hk. rewrite Nat.add_succ_comm. by apply Hsub.
      + cbn. rewrite map_app, not_elem_of_app. split.
        * unfold jobs. rewrite map_map. exact Hf.
        * apply IH. intros k q' Hk. rewrite Nat.add_succ_comm. by apply Hsub. }
  apply Hg. done.
Qed.

(** A raw submission leaves the queue without its owner. *)
Lemma rinv_drop_raw y ref x st :
  rinv y -> slotForRefLocked ref (y_s y) = Some x -> slot_state x = retainedSubmissionRawQueued ->
  rinv (move y (removeRefLocked ref (put_slot ref (with_state retainedSubmissionLifecycleRetired x) (y_s y)))
          (y_pc y) st).
Proof.
  intros Hi Hr Hs. destruct (ref_job _ _ _ Hi Hr) as [Hx Hjx].
  destruct (remove_put_effect ref x (with_state retainedSubmissionLifecycleRetired x) (y_s y)
    (v_lanes _ Hi) Hr) as [He _]; [done|done|].
  eapply (rinv_drop y _ x st (y_retiring y)); [done|done|reflexivity|exact He|by split|..];
    cbn [y_s y_pc move]; try done; try apply Hi.
  - intros ref' t Hp. split; [|done]. eapply (no_service y x); [done|done|congruence|exact Hp].
  - intros re b. split; [|by intros [? _]]. intros Hin. split; [done|].
    eapply no_retirement; [done|done|congruence|exact Hin].
  - by left.
Qed.

Lemma rinv_same y st : rinv y -> rinv (move y (y_s y) (y_pc y) st).
Proof.
  intros Hi. apply rinv_quiet; try done; [|apply (v_barrier _ Hi)].
  eapply Forall_impl; [|exact (v_jobs _ Hi)]. by intros z [].
Qed.

Lemma rinv_unlink y sequence s' r st :
  rinv y -> unlink_section sequence (y_s y) = (s', r) ->
  rinv (with_retiring (match r with
                       | Some (Some re) => (re, false) :: y_retiring y
                       | _ => y_retiring y
                       end) (move y s' (y_pc y) st)).
Proof.
  intros Hi Hu. pose proof (rinv_same y st Hi) as Hsame. unfold unlink_section in Hu.
  pose proof (findSequence_spec sequence (y_s y) (v_lanes _ Hi)) as Hf.
  destruct (findSequenceLocked sequence (y_s y)) as [ref|]; [|by injection Hu as <- <-].
  destruct Hf as (x & Hr & _ & Ex). rewrite <-Ex in Hu. pose proof (ref_slot_cases _ _ _ Hr) as (_ & _ & Hns & _).
  destruct (slot_state x) eqn:Es; try done; injection Hu as <- <-; try done.
  - exact (rinv_drop_raw y ref x st Hi Hr Es).
  - apply rinv_mark; auto.
  - apply rinv_mark; auto.
Qed.

Lemma rinv_retire_owned y ref s' r st :
  rinv y -> retire_owned ref (y_s y) = (s', r) ->
  rinv (with_retiring (match r with
                       | Some t => ({| re_ref := ref; re_ticket := t |}, false) :: y_retiring y
                       | None => y_retiring y
                       end) (move y s' (y_pc y) st)).
Proof.
  intros Hi Ha. pose proof (rinv_same y st Hi) as Hsame. unfold retire_owned in Ha.
  destruct (slotForRefLocked ref (y_s y)) as [x|] eqn:Er; [|by injection Ha as <- <-].
  case_if_in Ha; injection Ha as <- <-; [|done]. apply rinv_mark; [done|done|].
  apply orb_prop in Hb as [?|?]; bdec; auto.
Qed.

(** The retirement in flight for a submission is the only one. *)
Lemma retiring_unique y re b re' b' :
  rinv y -> (re, b) ∈ y_retiring y -> (re', b') ∈ y_retiring y ->
  ref_ordinal (re_ref re') = ref_ordinal (re_ref re) -> re' = re /\ b' = b.
Proof.
  intros Hi Hin Hin' E. apply list_elem_of_lookup in Hin as [i Hi1].
  apply list_elem_of_lookup in Hin' as [j Hj1].
  assert (i = j) as ->.
  { eapply (NoDup_lookup _ _ _ (ref_ordinal (re_ref re)) (v_retiring_once _ Hi)).
    - by rewrite (lookup_map rord _ _ _ Hi1).
    - rewrite (lookup_map rord _ _ _ Hj1). unfold rord. cbn. by rewrite E. }
  rewrite Hi1 in Hj1. by simplify_eq.
Qed.

Lemma rinv_retire_finish y re before after st :
  rinv y -> y_retiring y = before ++ (re, true) :: after ->
  rinv (with_retiring (before ++ after)
    (move y (retire_finish (re_ref re) (y_s y)) (y_pc y) st)).
Proof.
  intros Hi Hret. pose proof (v_retiring _ Hi) as Hv. rewrite list.Forall_forall in Hv.
  assert (Hin : (re, true) ∈ y_retiring y) by (rewrite Hret; set_solver).
  destruct (Hv _ Hin) as (x & Hr & Hs & Ht). cbn in Hr, Ht.
  destruct (ref_job _ _ _ Hi Hr) as [Hx Hjx]. pose proof (ref_ordinal_eq _ _ _ Hr) as Hord.
  pose proof (v_retiring_once _ Hi) as Hn. rewrite Hret, map_app in Hn. cbn in Hn.
  rewrite <-Permutation_middle in Hn. apply list.NoDup_cons in Hn as [Hout Hn]. rewrite <-map_app in Hn, Hout.
  unfold retire_finish. rewrite Hr, (bool_decide_eq_true_2 _ Hs).
  destruct (remove_effect (re_ref re) x (y_s y) (v_lanes _ Hi) Hr) as [He _].
  eapply (rinv_drop y _ x st (before ++ after)); [done|done|reflexivity|exact He|by split|..];
    cbn [y_s y_pc move with_retiring]; try done; try apply Hi.
  - intros ref' t Hp. split; [|done]. eapply (no_service y x); [done|done|congruence|exact Hp].
  - intros re' b. rewrite Hret, !elem_of_app, !elem_of_cons. split.
    + intros Hor. split; [tauto|]. intros E. apply Hout. apply list_elem_of_fmap.
      exists (re', b). split; [unfold rord; cbn; lia|]. apply elem_of_app. tauto.
    + intros [[?|[[= -> ->]|?]] Hne]; [tauto| |tauto]. lia.
  - right. pose proof (ji_state _ _ Hjx) as Hst. unfold state_inv in Hst. rewrite Hs in Hst.
    destruct Hst as [_ (re' & b & Hin' & E & Hb)].
    destruct (retiring_unique y re true re' b) as [-> ->]; [done..|lia|]. by apply Hb.
Qed.

(** ** Collecting retirements *)

(** What retireMatching makes of a queued submission. *)
Definition retired_image (matches : retainedSubmissionSlot -> bool) (x : retainedSubmissionSlot) :
    option retainedSubmissionSlot :=
  if matches x then
    match slot_state x with
    | retainedSubmissionRawQueued => None
    | retainedSubmissionTicketed | retainedSubmissionPending =>
        Some (with_state retainedSubmissionLifecycleRetired x)
    | _ => Some x
    end
  else Some x.

Definition owned_state (x : retainedSubmissionSlot) : bool :=
  bool_decide (slot_state x = retainedSubmissionTicketed) ||
  bool_decide (slot_state x = retainedSubmissionPending).

(** One position of the loop, with the retirement it adds. *)
Definition collect_one (matches : retainedSubmissionSlot -> bool) (i p : nat) (s : rsched) :
    rsched * list retainedSubmissionRetirement :=
  let j := order_at (lane_at s i) p in
  let x := slot_at (lane_at s i) j in
  let ref := {| ref_lane := i; ref_slot := j; ref_ordinal := slot_ordinal x |} in
  let retired := put_slot ref (with_state retainedSubmissionLifecycleRetired x) s in
  if negb (matches x) then (s, [])
  else match slot_state x with
  | retainedSubmissionAdmitted | retainedSubmissionTerminal
  | retainedSubmissionLifecycleRetired => (s, [])
  | retainedSubmissionRawQueued => (removeRefLocked ref retired, [])
  | _ => (retired, [{| re_ref := ref; re_ticket := slot_ticket x |}])
  end.

Lemma collect_lane_S matches i p s res :
  collect_lane matches i (S p) s res =
    collect_lane matches i p (fst (collect_one matches i p s)) (res ++ snd (collect_one matches i p s)).
Proof.
  cbn [collect_lane]. unfold collect_one. case_if; cbn [fst snd]; [by rewrite app_nil_r|].
  destruct (slot_state _); cbn [fst snd]; by rewrite ?app_nil_r.
Qed.

Lemma with_lanes_id s : with_lanes (rs_lanes s) s = s.
Proof. by destruct s. Qed.

Lemma list_split_at {A} (l : list A) k x : l !! k = Some x -> l = take k l ++ [x] ++ drop (S k) l.
Proof. intros Hx. cbn. by rewrite (take_drop_middle _ _ _ Hx). Qed.

Lemma collect_one_spec matches i p s q x :
  lanes_ok s -> rs_lanes s !! i = Some q -> jobs q !! p = Some x ->
  exists q1, let s1 := fst (collect_one matches i p s) in
    lanes_ok s1 /\ s1 = with_lanes (<[i := q1]> (rs_lanes s)) s /\
    jobs q1 = take p (jobs q) ++ option_list (retired_image matches x) ++ drop (S p) (jobs q) /\
    map re_ticket (snd (collect_one matches i p s)) =
      if matches x && owned_state x then [slot_ticket x] else [].
Proof.
  intros Ho Hq Hx. pose proof (lo_lane _ Ho _ _ Hq) as [Hok _ _ _].
  destruct (job_slot _ _ _ _ _ Hok Hx) as (Hp & Hat & Hns & Hlt).
  assert (Hin : order_at q p ∈ entries q) by (eapply list_elem_of_lookup_2, entries_lookup; done).
  pose proof (queued_ref s i q _ Ho Hq Hin) as Hr. rewrite Hat in Hr.
  unfold collect_one. rewrite (lane_at_lookup _ _ _ Hq), Hat. unfold retired_image, owned_state.
  set (ref := {| ref_lane := i; ref_slot := order_at q p; ref_ordinal := slot_ordinal x |}) in *.
  assert (Hsame : exists q1, lanes_ok s /\ s = with_lanes (<[i := q1]> (rs_lanes s)) s /\
    jobs q1 = take p (jobs q) ++ [x] ++ drop (S p) (jobs q)).
  { exists q. split_and!; [done| |by apply list_split_at].
    by rewrite (list_insert_id _ _ _ Hq), with_lanes_id. }
  assert (Hmark : slot_state x <> retainedSubmissionRawQueued ->
    exists q1, let s1 := put_slot ref (with_state retainedSubmissionLifecycleRetired x) s in
    lanes_ok s1 /\ s1 = with_lanes (<[i := q1]> (rs_lanes s)) s /\
    jobs q1 = take p (jobs q) ++ [with_state retainedSubmissionLifecycleRetired x] ++ drop (S p) (jobs q)).
  { intros Hnr. exists (set_slot (order_at q p) (with_state retainedSubmissionLifecycleRetired x) q).
    destruct (put_slot_effect ref x (with_state retainedSubmissionLifecycleRetired x) s Ho Hr) as [He _];
      try done; [by left|].
    split_and!; [apply (ef_lanes _ _ _ _ He)| |].
    - unfold put_slot, set_lane. cbn. by rewrite (lane_at_lookup _ _ _ Hq).
    - rewrite (jobs_set_slot _ _ _ _ _ Hok Hp). by rewrite insert_take_drop by (by rewrite length_jobs). }
  destruct (matches x); cbn [negb andb]; [|destruct Hsame as (q1 & ? & ? & ?); exists q1; by split_and!].
  destruct (slot_state x) eqn:Es; cbn; try done;
    try (destruct Hsame as (q1 & ? & ? & ?); exists q1; by split_and!);
    try (destruct Hmark as (q1 & ? & ? & ?); [done|]; exists q1; by split_and!).
  set (x' := with_state retainedSubmissionLifecycleRetired x).
  destruct (remove_put_effect ref x x' s Ho Hr) as [He _]; try done.
  set (q0 := set_slot (order_at q p) x' q).
  assert (Hok0 : lane_ok (lane_depth (rs_limits s) i) (slab_of (rs_limits s) i) q0).
  { apply lane_ok_set_slot; try done. cbn. rewrite <-Hat. by eapply slot_payload_length. }
  destruct (remove_slot_spec _ _ q0 p Hok0 Hp) as (_ & Hj & _).
  exists (remove_slot (order_at q p) q0). split_and!; [apply (ef_lanes _ _ _ _ He)| | |done].
  - unfold removeRefLocked. rewrite put_slot_lane by (by eapply lookup_lt_Some).
    unfold put_slot. cbn [ref_lane ref_slot ref]. rewrite set_lane_twice, (lane_at_lookup _ _ _ Hq). done.
  - change (order_at q0 p) with (order_at q p) in Hj. rewrite Hj. unfold q0.
    rewrite (jobs_set_slot _ _ _ _ _ Hok Hp). apply remove_insert.
Qed.

(** The loop over one lane, as a function of the queue. *)
Lemma collect_lane_spec matches i n s q res s' res' :
  lanes_ok s -> rs_lanes s !! i = Some q -> (n <= length (jobs q))%nat ->
  collect_lane matches i n s res = (s', res') ->
  lanes_ok s' /\ (length res' <= length res + Nat.min n 1)%nat /\
  exists q', s' = with_lanes (<[i := q']> (rs_lanes s)) s /\
    jobs q' = omap (retired_image matches) (take n (jobs q)) ++ drop n (jobs q).
Proof.
  revert s q res. induction n as [|p IH]; intros s q res Ho Hq Hn Hc.
  { injection Hc as <- <-. split_and!; [done|lia|]. exists q.
    by rewrite (list_insert_id _ _ _ Hq), with_lanes_id. }
  destruct (lookup_lt_is_Some_2 (jobs q) p) as [x Hx]; [lia|].
  rewrite collect_lane_S in Hc.
  destruct (collect_one_spec matches i p s q x Ho Hq Hx) as (q1 & Ho1 & Es1 & Hj1 & Ht1).
  set (s1 := fst (collect_one matches i p s)) in *.
  assert (Hq1 : rs_lanes s1 !! i = Some q1).
  { rewrite Es1. cbn. apply list_lookup_insert_eq. by eapply lookup_lt_Some. }
  assert (Hlen : length (take p (jobs q)) = p) by (rewrite length_take; lia).
  assert (Hp : (p <= length (jobs q1))%nat) by (rewrite Hj1, length_app; lia).
  destruct (IH _ _ _ Ho1 Hq1 Hp Hc) as (Ho' & Hl' & q' & Es' & Hj').
  split_and!; [done| |].
  - rewrite length_app in Hl'. assert (He : (length (snd (collect_one matches i p s)) <= 1 - Nat.min p 1)%nat);
      [|lia]. rewrite <-(length_map re_ticket), Ht1. case_if; [|cbn; lia]. cbn. destruct p as [|p]; [cbn; lia|].
    pose proof (li_tail _ _ _ (lo_lane _ Ho _ _ Hq)) as Ht. rewrite list.Forall_forall in Ht.
    specialize (Ht x). exfalso. apply andb_prop in Hb as [_ Hb]. unfold owned_state in Hb.
    rewrite Ht in Hb; [done|]. apply list_elem_of_lookup. exists p. by rewrite lookup_drop.
  - exists q'. split.
    + rewrite Es', Es1. unfold with_lanes. cbn. by rewrite list_insert_insert_eq.
    + rewrite Hj', Hj1, take_app_length', drop_app_length' by done.
      rewrite (take_S_r _ _ _ Hx), omap_app, <-app_assoc. cbn.
      by destruct (retired_image matches x).
Qed.

(** [y] is the start of the loop; the system [yk] reached so far has the state
    [s] and the retirements [res]. *)
Definition tracks (y : rsys) (s : rsched) (res : list retainedSubmissionRetirement) : Prop :=
  (forall o, o ∈ ords s -> o ∈ ords (y_s y)) /\
  exists yk, rinv yk /\ y_s yk = s /\ y_pc yk = y_pc y /\ y_staged yk = y_staged y /\
    y_ended yk = y_ended y /\ y_accepted yk = y_accepted y /\
    y_retiring yk ≡ₚ map (fun re => (re, false)) res ++ y_retiring y.

Lemma tracks_rinv y s res st :
  rinv y -> tracks y s res ->
  rinv (with_retiring (map (fun re => (re, false)) res ++ y_retiring y) (move y s (y_pc y) st)).
Proof.
  intros Hi (Hsub & yk & Hk & Es & Ep & Est & Ee & Ea & Er).
  assert (Eo : ended_ords yk = ended_ords y) by (unfold ended_ords; by rewrite Ee).
  set (y' := with_retiring _ _).
  split; change (y_s y') with s; change (y_pc y') with (y_pc y); change (y_staged y') with (y_staged y);
    change (y_ended y') with (y_ended y); change (ended_ords y') with (ended_ords y);
    change (y_accepted y') with (y_accepted y); rewrite <-?Es, <-?Ep, <-?Est, <-?Ee, <-?Eo, <-?Ea; try apply Hk.
  - eapply Forall_impl; [|exact (v_jobs _ Hk)]. intros x [J1 J2 J3 J4 J5].
    split; change (y_s y') with s; change (y_accepted y') with (y_accepted y);
      rewrite <-?Es, <-?Ea; try done.
    unfold state_inv, owned_by in *. change (y_staged y') with (y_staged y).
    change (ended_ords y') with (ended_ords y). change (y_pc y') with (y_pc y).
    rewrite <-Est, <-Eo, <-Ep. destruct (slot_state x); try done.
    destruct J5 as [? (re & b & Hin & ?)]. split; [done|]. exists re, b. split; [|done].
    change (y_retiring y') with (map (fun re => (re, false)) res ++ y_retiring y). by rewrite <-Er.
  - change (y_retiring y') with (map (fun re => (re, false)) res ++ y_retiring y).
    rewrite <-Er. apply (v_retiring _ Hk).
  - change (y_retiring y') with (map (fun re => (re, false)) res ++ y_retiring y).
    rewrite <-Er. apply (v_retiring_once _ Hk).
  - rewrite Es, Ea. apply (fate_move y s (y_pc y) st); [done| |done]. rewrite <-Es. apply (v_ords _ Hk).
Qed.

Lemma tracks_one y s res matches i p q x :
  tracks y s res -> rs_lanes s !! i = Some q -> jobs q !! p = Some x ->
  tracks y (fst (collect_one matches i p s)) (res ++ snd (collect_one matches i p s)).
Proof.
  intros (Hsub & yk & Hk & <- & Ep & Est & Ee & Ea & Er) Hq Hx. pose proof (v_lanes _ Hk) as Ho.
  pose proof (lo_lane _ Ho _ _ Hq) as [Hok _ _ _].
  destruct (job_slot _ _ _ _ _ Hok Hx) as (Hp & Hat & Hns & Hlt).
  assert (Hin : order_at q p ∈ entries q) by (eapply list_elem_of_lookup_2, entries_lookup; done).
  pose proof (queued_ref _ i q _ Ho Hq Hin) as Hr. rewrite Hat in Hr.
  unfold collect_one. rewrite (lane_at_lookup _ _ _ Hq), Hat.
  set (ref := {| ref_lane := i; ref_slot := order_at q p; ref_ordinal := slot_ordinal x |}) in *.
  assert (Hsame : tracks y (y_s yk) (res ++ [])).
  { split; [done|]. exists yk. by rewrite app_nil_r. }
  assert (Hmark : slot_state x = retainedSubmissionTicketed \/ slot_state x = retainedSubmissionPending ->
    tracks y (put_slot ref (with_state retainedSubmissionLifecycleRetired x) (y_s yk))
      (res ++ [{| re_ref := ref; re_ticket := slot_ticket x |}])).
  { intros Hs. pose proof (rinv_mark yk ref x retainedSubmissionTerminal Hk Hr Hs) as Hk'. split.
    - destruct (put_slot_effect ref x (with_state retainedSubmissionLifecycleRetired x) _ Ho Hr) as [He _];
        try done; [left; by destruct Hs as [->| ->]|].
      intros o Hq'. apply Hsub. by eapply (effect_ords _ _ _ _ He).
    - eexists. split; [exact Hk'|]. split_and!; cbn; try done.
      rewrite Er, map_app. cbn. solve_Permutation. }
  case_if; cbn [fst snd]; [done|]. destruct (slot_state x) eqn:Es; cbn [fst snd]; try done; auto.
  pose proof (rinv_drop_raw yk ref x retainedSubmissionTerminal Hk Hr Es) as Hk'. split.
  - destruct (remove_put_effect ref x (with_state retainedSubmissionLifecycleRetired x) _ Ho Hr) as [He _];
      try done. intros o Hq'. apply Hsub. eapply (effect_ords _ _ _ _ He); [set_solver|exact Hq'].
  - eexists. split; [exact Hk'|]. by rewrite app_nil_r.
Qed.

Lemma tracks_lane y matches i n s q res s' res' :
  tracks y s res -> lanes_ok s -> rs_lanes s !! i = Some q -> (n <= length (jobs q))%nat ->
  collect_lane matches i n s res = (s', res') -> tracks y s' res'.
Proof.
  revert s q res. induction n as [|p IH]; intros s q res Ht Ho Hq Hn Hc; [by injection Hc as <- <-|].
  destruct (lookup_lt_is_Some_2 (jobs q) p) as [x Hx]; [lia|]. rewrite collect_lane_S in Hc.
  destruct (collect_one_spec matches i p s q x Ho Hq Hx) as (q1 & Ho1 & Es1 & Hj1 & _).
  eapply (IH _ q1); [by eapply tracks_one|done| | |exact Hc].
  - rewrite Es1. cbn. apply list_lookup_insert_eq. by eapply lookup_lt_Some.
  - rewrite Hj1, length_app, length_take. lia.
Qed.

(** The whole section: every lane keeps, in order, what [retired_image] leaves
    of it. *)
Lemma collect_lanes_spec y matches k i s res s' res' :
  tracks y s res -> lanes_ok s -> (i + k = 3)%nat ->
  collect_lanes matches k i s res = (s', res') ->
  tracks y s' res' /\ lanes_ok s' /\ (length res' <= length res + k)%nat /\
  s' = with_lanes (rs_lanes s') s /\
  forall j, (j < 3)%nat -> jobs (lane_at s' j) =
    if (i <=? j)%nat then omap (retired_image matches) (jobs (lane_at s j)) else jobs (lane_at s j).
Proof.
  revert i s res. induction k as [|k IH]; intros i s res Ht Ho Hik Hc; cbn [collect_lanes] in Hc.
  { injection Hc as <- <-. split_and!; [done|done|lia|by rewrite with_lanes_id|].
    intros j Hj. case_if; [lia|done]. }
  destruct (collect_lane matches i _ s res) as [s1 res1] eqn:E1.
  pose proof (lanes_lookup s i Ho ltac:(lia)) as Hq.
  assert (Hn : (lq_orderCount (lane_at s i) <= length (jobs (lane_at s i)))%nat) by (by rewrite length_jobs).
  pose proof (tracks_lane _ _ _ _ _ _ _ _ _ Ht Ho Hq Hn E1) as Ht1.
  destruct (collect_lane_spec _ _ _ _ _ _ _ _ Ho Hq Hn E1) as (Ho1 & Hl1 & q1 & Es1 & Hj1).
  rewrite <-length_jobs, take_ge, drop_ge, app_nil_r in Hj1 by (by rewrite ?length_jobs).
  destruct (IH (S i) s1 res1) as (Ht' & Ho' & Hl' & Es' & Hj'); [done|done|lia|done|].
  split_and!; [done|done|lia|rewrite Es' at 1; by rewrite Es1|].
  intros j Hj. rewrite Hj' by done.
  destruct (decide (j = i)) as [->|Hne].
  - rewrite (proj2 (Nat.leb_gt (S i) i)), Nat.leb_refl by lia. rewrite <-Hj1. f_equal. apply lane_at_lookup.
    rewrite Es1. cbn. apply list_lookup_insert_eq. by eapply lookup_lt_Some.
  - assert (Ej : lane_at s1 j = lane_at s j).
    { rewrite Es1. apply (lane_at_set_ne i j q1 s Hne). }
    rewrite Ej. repeat case_if; try done; lia.
Qed.

Lemma tracks_refl y : rinv y -> tracks y (y_s y) [].
Proof. intros Hi. split; [done|]. by exists y. Qed.

Lemma rinv_collect y matches s' res st :
  rinv y -> collect_retirements matches (y_s y) = (s', res) ->
  rinv (with_retiring (map (fun re => (re, false)) res ++ y_retiring y) (move y s' (y_pc y) st)).
Proof.
  intros Hi Hc. unfold collect_retirements in Hc. rewrite (lo_three _ (v_lanes _ Hi)) in Hc.
  apply tracks_rinv; [done|].
  by apply (collect_lanes_spec y matches 3 0 (y_s y) [] s' res (tracks_refl y Hi) (v_lanes _ Hi) eq_refl).
Qed.

(** ** Every run *)

Lemma build_limits session parent_done c s :
  buildRetainedSubmissionSchedulerWithSnapshot session parent_done c = Ok s -> rs_limits s = cs_limits c.
Proof. unfold buildRetainedSubmissionSchedulerWithSnapshot. repeat (case_if; [done|]). by intros [= <-]. Qed.

Lemma rinv_init session parent_done c s :
  Limits_wf (cs_limits c) -> buildRetainedSubmissionSchedulerWithSnapshot session parent_done c = Ok s ->
  rinv (rsys_init s).
Proof.
  intros Hw Hb. destruct (build_lanes_ok _ _ _ _ Hw Hb) as (Ho & Ej & En & Ef & Eb & _).
  rewrite <-(build_limits _ _ _ _ Hb) in Hw.
  assert (Eo : ords s = []) by (unfold ords; by rewrite Ej).
  split; cbn [rsys_init y_s y_pc y_retiring y_staged y_ended y_accepted y_gone ended_ords map fst pc_lifecycle];
    rewrite ?Eo, ?Ej, ?En, ?Eb; try done; try (intros; set_solver); constructor.
Qed.

Lemma rinv_step y y' : rinv y -> rstep y y' -> rinv y'.
Proof.
  intros Hi Hs. destruct Hs.
  - destruct H as [C1 C2 C3 C4 C5]. apply rinv_quiet; try done.
    + rewrite C4. eapply Forall_impl; [|exact (v_jobs _ Hi)]. by intros z [].
    + rewrite C5. apply (v_barrier _ Hi).
  - by eapply rinv_enqueue.
  - by eapply rinv_reserve.
  - by apply rinv_abandon.
  - destruct (oldest_selected _ _ _ _ _ _ H0) as (q & _ & _ & _ & _ & Hh).
    destruct (refresh_state resolve slot (y_s y)) as [R1 R2].
    eapply rinv_stage; try eassumption. apply refresh_same.
  - by eapply rinv_prepare.
  - by apply rinv_complete.
  - by eapply rinv_finish.
  - by eapply rinv_lifecycle.
  - by eapply rinv_unlink.
  - by eapply rinv_collect.
  - by eapply rinv_retire_owned.
  - destruct (rinv_retire_call y re before after reason Hi H) as [-> ?]. done.
  - by apply rinv_retire_finish.
Qed.

Lemma rreachable_inv y : rreachable y -> rinv y.
Proof. induction 1; [by eapply rinv_init|by eapply rinv_step]. Qed.

(** The operations of the import boundary are quiet steps. *)
Lemma import_steps_quiet s :
  (forall r, same_core s (fst (activateImport r s))) /\ (forall r, same_core s (fst (openAdmission r s))) /\
  (forall r, same_core s (fst (closeAdmission r s))) /\
  (forall r l, same_core s (fst (fenceReset r l s))) /\
  (forall r l b, same_core s (fst (reset_end r l b s))) /\
  (forall r l, same_core s (fst (reopenAfterReset r l s))) /\
  (forall g, same_core s (fst (configureControlLifecycle g s))) /\
  (forall d ms, same_core s (fst (configureEndpointCadence d ms s))) /\
  (forall a, same_core s (fst (retirement_answer a s))) /\
  (forall c a b d, same_core s (fst (readiness_answer c a b d s))) /\
  (forall e, same_core s (recordFailure e s)) /\ same_core s (shutdown_begin s) /\
  same_core s (fst (close_begin s)).
Proof.
  assert (Hr : same_core s s) by done.
  split_and!; intros; try (by split).
  - unfold activateImport. by case_if.
  - unfold openAdmission. by case_if.
  - unfold closeAdmission. by case_if.
  - unfold fenceReset. by case_if.
  - unfold reset_end. by repeat case_if.
  - unfold reopenAfterReset. by case_if.
  - unfold configureControlLifecycle. by case_if.
  - unfold configureEndpointCadence. case_if; [done|]. destruct (retainedInputServiceInterval ms); [|done].
    by case_if.
  - unfold retirement_answer. destruct a as [[[q|]|]|]; try done. case_if; [done|].
    destruct (rs_failure s); [done|]. by repeat case_if.
  - unfold readiness_answer. by destruct (sampleRetainedReadiness _ _ _ _ _) as [[epoch ?]|].
  - unfold recordFailure. destruct (rs_failure s); [|done]. by case_if.
  - unfold close_begin. cbn. by destruct (im_reservation (rs_import s)).
Qed.

(** ** Exactly one end per ticket *)

(** C3: in every interleaving of the reader, the service goroutine, unlinks,
    resets and closing, and whatever the owner answers, a submission is staged
    at most once, the owner is told the end of a ticket (Complete or Retire) at
    most once and with the very ticket it issued for that submission, and a
    staged ticket is never forgotten: its submission is still queued and not
    raw, or the owner was told.  With empty queues every staged ticket ended. *)
Theorem retained_ticket_ended_once (y : rsys) :
  rreachable y ->
  NoDup (map fst (y_staged y)) /\ NoDup (map (fun e => fst (fst e)) (y_ended y)) /\
  (forall o t e, (o, t, e) ∈ y_ended y -> (o, t) ∈ y_staged y) /\
  (forall o t, (o, t) ∈ y_staged y ->
     (exists e, (o, t, e) ∈ y_ended y) \/
     exists x, x ∈ all_jobs (y_s y) /\ slot_ordinal x = o /\
       slot_state x <> retainedSubmissionRawQueued) /\
  (all_jobs (y_s y) = [] -> length (y_ended y) = length (y_staged y)).
Proof.
  intros Hi%rreachable_inv. pose proof (v_ended_staged _ Hi) as Hes. pose proof (v_live _ Hi) as Hl.
  pose proof (v_staged _ Hi) as Hs.
  assert (Hend : forall o t, (o, t) ∈ y_staged y -> o ∈ ended_ords y -> exists e, (o, t, e) ∈ y_ended y).
  { intros o t Ht ([[o' t'] e] & -> & Hin)%list_elem_of_fmap. cbn in *. exists e.
    pose proof (Hes _ _ _ Hin) as Ht'. assert (t = t') as ->; [|done].
    by apply (NoDup_map_fst_inj (y_staged y) o'). }
  split_and!; [done|apply (v_ended _ Hi)|done| |].
  - intros o t Ht. destruct (Hl o t Ht) as [He|Hx]; [left; by apply Hend|by right].
  - intros Hn. assert (Hp : ended_ords y ≡ₚ map fst (y_staged y)).
    { apply NoDup_Permutation; [apply (v_ended _ Hi)|done|]. intros o. rewrite elem_of_fst. split.
      - intros ([[o' t] e] & -> & Hin)%list_elem_of_fmap. exists t. by eapply Hes.
      - intros [t Ht]. destruct (Hl o t Ht) as [?|(x & Hx & _)]; [done|].
        rewrite Hn in Hx. by apply elem_of_nil in Hx. }
    apply Permutation_length in Hp. unfold ended_ords in Hp. by rewrite !length_map in Hp.
Qed.

(** C4: every accepted submission has exactly one fate.  The accepted
    ordinals, each used once, are the queued ones and those that left, so
    nothing is lost, duplicated or resurrected; every queued submission still
    carries exactly what the reader accepted, and no two queued submissions, nor
    a queued one and a header being framed, share a sequence number. *)
Theorem retained_submission_fate (y : rsys) :
  rreachable y ->
  NoDup (map fst (y_accepted y)) /\
  map fst (y_accepted y) ≡ₚ ords (y_s y) ++ map fst (y_gone y) /\
  NoDup (map slot_sequence (all_jobs (y_s y))) /\
  forall x, x ∈ all_jobs (y_s y) ->
    (slot_sequence x ∉ rs_framing (y_s y)) /\
    exists e, (slot_ordinal x, e) ∈ y_accepted y /\ carries x e.
Proof.
  intros Hi%rreachable_inv. split_and!; try apply Hi. intros x Hx.
  pose proof (v_jobs _ Hi) as Hj. rewrite list.Forall_forall in Hj. by destruct (Hj x Hx).
Qed.

(** ** Retiring a set of submissions *)

(** The section that retires a session, a lane, a binding or what a
    delivered lifecycle request supersedes does so exactly: in every lane the
    matching raw submissions are gone, the matching ticketed and pending ones
    are marked retired, and everything else, and the order, is as before; it
    collects at most one retirement per lane, so the fixed array of three
    retirements the caller works through never overflows. *)
Theorem retained_retire_exact (y : rsys) matches s' res :
  rreachable y -> collect_retirements matches (y_s y) = (s', res) ->
  (length res <= 3)%nat /\ s' = with_lanes (rs_lanes s') (y_s y) /\
  (forall lane, (lane < 3)%nat ->
     jobs (lane_at s' lane) = omap (retired_image matches) (jobs (lane_at (y_s y) lane))) /\
  Forall (fun re => holds s' (re_ref re) (re_ticket re) retainedSubmissionLifecycleRetired) res.
Proof.
  intros Hi%rreachable_inv Hc. pose proof (rinv_collect y _ _ _ retainedSubmissionTerminal Hi Hc) as Hi'.
  unfold collect_retirements in Hc. rewrite (lo_three _ (v_lanes _ Hi)) in Hc.
  destruct (collect_lanes_spec y matches 3 0 _ _ _ _ (tracks_refl y Hi) (v_lanes _ Hi) eq_refl Hc)
    as (_ & Ho' & Hl & Es & Hj).
  split_and!; [cbn in Hl; lia|done|intros lane Hlt; by rewrite Hj|].
  pose proof (v_retiring _ Hi') as Hr. cbn [y_retiring with_retiring y_s move] in Hr.
  apply list.Forall_app in Hr as [Hr _]. rewrite list.Forall_forall in Hr. apply list.Forall_forall. intros re Hre.
  apply (Hr (re, false)). apply list_elem_of_fmap. by exists re.
Qed.

(** ** Selection and staging *)

(** The service goroutine stages the oldest submission it may serve, and
    the owner sees exactly what the host sent.  Of the lane heads that are due,
    not yet attempted in this round and eligible, the selected one has the least
    arrival number; the request handed to Stage carries the lane, direction,
    sequence, length, setup, route and data of the accepted submission. *)
Theorem retained_stage_oldest (y : rsys) attempted epoch now ref retry resolve :
  rreachable y -> oldestEligibleLocked attempted epoch now (y_s y) = (Some ref, retry) ->
  exists slot e, slotForRefLocked ref (y_s y) = Some slot /\ is_head ref (y_s y) = true /\
    (forall lane q, rs_lanes (y_s y) !! lane = Some q -> candidate attempted epoch now (y_s y) lane q = true ->
       ref_ordinal ref <= slot_ordinal (slot_at q (order_at q 0))) /\
    (slot_ordinal slot, e) ∈ y_accepted y /\
    let request := requestForSlotLocked (refresh_slot resolve slot (y_s y)) in
    rq_IngressOrdinal request = ref_ordinal ref /\ rq_SessionGeneration request = rs_session (y_s y) /\
    rq_Lane request = en_lane e /\ rq_Direction request = en_direction e /\
    rq_Sequence request = en_sequence e /\ rq_TransferLength request = en_transferLength e /\
    rq_Setup request = en_setup e /\ rq_Route request = en_route e /\ rq_Data request = en_data e.
Proof.
  intros Hi%rreachable_inv Ho. destruct (oldest_selected _ _ _ _ _ _ Ho) as (q & Hq & Hlq & Hc & Er & Hh).
  pose proof (v_lanes _ Hi) as Hl. pose proof (lo_lane _ Hl _ _ Hq) as [Hok _ _ _].
  assert (Hcount : (0 < lq_orderCount q)%nat).
  { unfold candidate in Hc. bool_prop. lia. }
  assert (Hin : order_at q 0 ∈ entries q) by (eapply list_elem_of_lookup_2, entries_lookup; done).
  pose proof (queued_ref _ _ _ _ Hl Hq Hin) as Hr. fold (head_ref (ref_lane ref) q) in Hr. rewrite <-Er in Hr.
  destruct (ref_job _ _ _ Hi Hr) as [_ [Jo Js _ (e & Je & [C1 C2 C3 C4 C5 C6 C7]) _]].
  destruct (refresh_same resolve (slot_at q (order_at q 0)) (y_s y)) as [R1 R2 R3 R4 R5 R6 R7 R8 R9 R10].
  exists (slot_at q (order_at q 0)), e. cbv zeta. split_and!; try done; cbn [requestForSlotLocked rq_IngressOrdinal
    rq_SessionGeneration rq_Lane rq_Direction rq_Sequence rq_TransferLength rq_Setup rq_Route rq_Data];
    try congruence.
  - apply oldest_loop_spec in Ho as (_ & _ & Hmin). intros lane q' Hq' Hc'. by apply (Hmin lane q').
  - rewrite R1. by apply (ref_ordinal_eq _ _ _ Hr).
Qed.

(** ** Responses *)

Lemma window_bound slot s :
  Limits_wf (rs_limits s) -> responseWindowLocked slot (rs_limits s) <= maximumResponseLength s.
Proof.
  intros [_ _ _ _ Hc Hin _]. unfold responseWindowLocked, maximumResponseLength. cbv beta in *.
  repeat case_if; lia.
Qed.

(** C23: a response the service goroutine admits is always written and always
    completed.  What Prepare answered, once accepted, is a selection the
    response writer takes, with no more payload than the host's window; the
    ticket is the one Stage issued; and when Complete has answered the
    submission is still the admitted one, so the completion removes exactly it
    from the queues. *)
Theorem retained_response_completes (y : rsys) ref :
  rreachable y ->
  (forall slot selectedAt answer s' sel lifecycle,
     y_pc y = WIdle -> prepare_guard ref (y_s y) = Some slot ->
     prepare_answer ref slot selectedAt answer (y_s y) = (s', PrepAdmitted sel lifecycle) ->
     (ref_ordinal ref, slot_ticket slot) ∈ y_staged y /\
     exists status n, late_select (E := rerr) sel (maximumResponseLength (y_s y)) = Ok (Some (status, n)) /\
       (n <= Z.to_nat (responseWindowLocked slot (rs_limits (y_s y))))%nat) /\
  (forall ticket lifecycle delivered err,
     y_pc y = WCompleted ref ticket lifecycle delivered err ->
     exists slot e apply s',
       complete_answer ref ticket lifecycle delivered err (y_s y) = (s', Some (e, apply)) /\
       (err <> None -> e = err /\ apply = None) /\ (delivered = false -> apply = None) /\
       slot_ticket slot = ticket /\ all_jobs (y_s y) ≡ₚ slot :: all_jobs s' /\
       slotForRefLocked ref s' = None).
Proof.
  intros Hi%rreachable_inv. split.
  - intros slot selectedAt answer s' sel lc Hpc (Hr & Hs & _)%guard_slot Ha.
    destruct (ref_job _ _ _ Hi Hr) as [Hx Hjx]. rewrite <-(ref_ordinal_eq _ _ _ Hr). split.
    { pose proof (ji_state _ _ Hjx) as Hst. unfold state_inv in Hst.
      destruct Hs as [E|E]; rewrite E in Hst; by destruct Hst as [[_ ?] _]. }
    unfold prepare_answer in Ha. destruct answer as [p|]; [|done]. destruct (rs_cancelled (y_s y)); [done|].
    destruct (validatePreparationLocked _ _ _ _ _) as [sel'|] eqn:Ev; [|done].
    destruct (Z.eqb_spec (pr_Result p) ResultPending) as [E|E]; [done|]. case_if_in Ha; [done|].
    injection Ha as _ <- _. unfold validatePreparationLocked in Ev.
    rewrite (proj2 (Z.eqb_neq _ _) E) in Ev. case_if_in Ev; [done|]. case_if_in Ev; [done|].
    unfold late_select. pose proof (window_bound slot (y_s y) (v_limits _ Hi)).
    repeat case_if_in Ev; try done; injection Ev as <-; cbn; bool_prop;
      try (eexists _, _; split; [done|lia]);
      (case_if; [lia|]; eexists _, _; split; [done|lia]).
  - intros ticket lc delivered err Hpc.
    destruct (complete_finds _ _ _ _ _ _ Hi Hpc) as (x & e & apply & s1 & Hr & Hs & Ht & Hs1 & Ea).
    exists x, e, apply, (removeRefLocked ref (put_slot ref (with_state retainedSubmissionTerminal x) s1)).
    assert (El : rs_lanes s1 = rs_lanes (y_s y) /\ rs_config s1 = rs_config (y_s y))
      by (by destruct Hs1 as [->|[n ->]]).
    destruct El as [El Ec].
    destruct (remove_put_effect ref x (with_state retainedSubmissionTerminal x) s1) as [He Hgone]; try done.
    { by apply (lanes_only_ok (y_s y) s1); [..|apply Hi]. }
    { by rewrite (lanes_only_ref (y_s y) s1). }
    apply (effect_beside_l _ (y_s y)) in He; [|done|done].
    split_and!; [exact Ea| | |done| |done].
    + intros Hne. unfold complete_answer in Ea. rewrite Hr, (bool_decide_eq_true_2 _ Hs),
        (bool_decide_eq_true_2 _ Ht) in Ea. cbn [negb orb] in Ea. destruct err; [|done].
      rewrite andb_false_r in Ea. apply (f_equal snd) in Ea. by injection Ea as <- <-.
    + intros ->. unfold complete_answer in Ea. rewrite Hr, (bool_decide_eq_true_2 _ Hs),
        (bool_decide_eq_true_2 _ Ht) in Ea. cbn [negb orb andb] in Ea. apply (f_equal snd) in Ea. by injection Ea as _ <-.
    + destruct (ef_jobs _ _ _ _ He) as (rest & E1 & E2). rewrite E1, E2. done.
Qed.

(** ** A concrete run *)

Definition demo_construction : construction :=
  {| cs_ownerIdentity := 9; cs_limits := demo_limits; cs_readinessEpoch := 1;
     cs_readiness := Some {| ch_id := 4; ch_cap := 1 |} |}.

Definition demo_in : retainedSubmissionEnvelope := {|
  en_lane := LaneInterruptIn; en_direction := DirectionIn; en_sequence := 100; en_transferLength := 64;
  en_setup := zeros 8; en_route := InterruptInRoute demo_limits; en_binding := 1; en_data := [];
  en_lifecycle := lifecycle_none |}.

Definition demo_out : retainedSubmissionEnvelope := {|
  en_lane := LaneInterruptOut; en_direction := DirectionOut; en_sequence := 101; en_transferLength := 2;
  en_setup := zeros 8; en_route := InterruptOutRoute demo_limits; en_binding := 1; en_data := [5; 6];
  en_lifecycle := lifecycle_none |}.

Definition demo_ref : retainedSubmissionRef := {| ref_lane := 1; ref_slot := 0; ref_ordinal := 1 |}.

Definition demo_ticket : Ticket :=
  {| tk_OwnerID := 9; tk_Token := 3; tk_Generation := 1; tk_SessionGeneration := 7;
     tk_Lane := LaneInterruptIn |}.

Definition demo_data : Preparation :=
  {| pr_Result := ResultData; pr_ActualLength := 3; pr_RetryAt := zero_time; pr_ReadinessEpoch := 0 |}.

Definition no_tries : list bool := [false; false; false].

Lemma demo_limits_wf : Limits_wf demo_limits.
Proof. split; cbn; try lia; try done. repeat constructor; lia. Qed.

(** Two submissions are queued in [yq], the first is staged in [yt], its response
    admitted in [ya], written in [yc] and gone in [yf]. *)
Lemma demo_run : exists yq yt ya yc yf slot sa,
  (rreachable yq /\ map slot_sequence (all_jobs (y_s yq)) = [100; 101] /\
   oldestEligibleLocked no_tries 1 0 (y_s yq) = (Some demo_ref, zero_time)) /\
  (rreachable yt /\ y_pc yt = WIdle /\ prepare_guard demo_ref (y_s yt) = Some slot /\
   prepare_answer demo_ref slot 0 (Ok demo_data) (y_s yt) =
     (sa, PrepAdmitted (selection lateResponseData 3) false) /\
   exists s' re, collect_retirements (match_session 7) (y_s yt) = (s', [re])) /\
  (rreachable ya /\ y_pc ya = WAdmitted demo_ref demo_ticket false) /\
  (rreachable yc /\ y_pc yc = WCompleted demo_ref demo_ticket false true None) /\
  (rreachable yf /\ y_ended yf = [(1, demo_ticket, EndComplete true)] /\ ords (y_s yf) = [2] /\
   y_gone yf = [(1, retainedSubmissionTerminal)]).
Proof.
  eassert (H0 : rreachable (rsys_init _)).
  { eapply (rreachable_init 7 false demo_construction); [exact demo_limits_wf|vm_compute; reflexivity]. }
  eassert (H1 : rreachable _).
  { eapply rreachable_step; [exact H0|eapply (rstep_enqueue _ demo_in false); vm_compute; reflexivity]. }
  eassert (H2 : rreachable _).
  { eapply rreachable_step; [exact H1|eapply (rstep_enqueue _ demo_out false); vm_compute; reflexivity]. }
  eassert (H3 : rreachable _).
  { eapply rreachable_step; [exact H2|].
    eapply (rstep_stage _ no_tries 1 0 demo_ref zero_time None (Ok demo_ticket)); vm_compute; reflexivity. }
  eassert (H4 : rreachable _).
  { eapply rreachable_step; [exact H3|].
    eapply (rstep_prepare _ demo_ref _ 0 (Ok demo_data)); vm_compute; reflexivity. }
  eassert (H5 : rreachable _).
  { eapply rreachable_step; [exact H4|]. eapply (rstep_complete _ demo_ref demo_ticket false true None).
    vm_compute. reflexivity. }
  eassert (H6 : rreachable _).
  { eapply rreachable_step; [exact H5|].
    eapply (rstep_finish _ demo_ref demo_ticket false true None); vm_compute; reflexivity. }
  do 7 eexists. split_and!; [exact H2| | |exact H3| | | | |exact H4| |exact H5| |exact H6|..];
    try (vm_compute; reflexivity).
  do 2 eexists. vm_compute. reflexivity.
Qed.

Lemma retained_ticket_ended_once_witness :
  exists y, rreachable y /\ (1, demo_ticket, EndComplete true) ∈ y_ended y /\
    (1, demo_ticket) ∈ y_staged y /\ NoDup (map (fun e => fst (fst e)) (y_ended y)).
Proof.
  destruct demo_run as (_ & _ & _ & _ & yf & _ & _ & _ & _ & _ & _ & (Hr & He & _)).
  destruct (retained_ticket_ended_once yf Hr) as (_ & Hn & Hs & _).
  assert (Hin : (1, demo_ticket, EndComplete true) ∈ y_ended yf) by (rewrite He; by left).
  exists yf. split_and!; [exact Hr|exact Hin|exact (Hs _ _ _ Hin)|exact Hn].
Defined.

Lemma retained_submission_fate_witness :
  exists y, rreachable y /\ map fst (y_accepted y) ≡ₚ [2; 1].
Proof.
  destruct demo_run as (_ & _ & _ & _ & yf & _ & _ & _ & _ & _ & _ & (Hr & _ & Ho & Hg)).
  destruct (retained_submission_fate yf Hr) as (_ & Hp & _).
  exists yf. split; [exact Hr|]. rewrite Ho, Hg in Hp. exact Hp.
Defined.

Lemma retained_retire_exact_witness :
  exists y s' re, rreachable y /\ collect_retirements (match_session 7) (y_s y) = (s', [re]) /\
    jobs (lane_at s' 2) = omap (retired_image (match_session 7)) (jobs (lane_at (y_s y) 2)).
Proof.
  destruct demo_run as (_ & yt & _ & _ & _ & _ & _ & _ & (Hr & _ & _ & _ & s' & re & Hc) & _).
  destruct (retained_retire_exact yt _ _ _ Hr Hc) as (_ & _ & Hj & _).
  exists yt, s', re. split_and!; [exact Hr|exact Hc|apply Hj; lia].
Defined.

Lemma retained_stage_oldest_witness :
  exists y e slot, rreachable y /\ (slot_ordinal slot, e) ∈ y_accepted y /\
    rq_Data (requestForSlotLocked (refresh_slot None slot (y_s y))) = en_data e.
Proof.
  destruct demo_run as (yq & _ & _ & _ & _ & _ & _ & (Hr & _ & Ho) & _).
  destruct (retained_stage_oldest yq no_tries 1 0 demo_ref zero_time None Hr Ho)
    as (slot & e & _ & _ & _ & Ha & _ & _ & _ & _ & _ & _ & _ & _ & Hd).
  exists yq, e, slot. split_and!; [exact Hr|exact Ha|exact Hd].
Defined.

Lemma retained_response_completes_witness :
  (exists y t, rreachable y /\ y_pc y = WIdle /\ (1, t) ∈ y_staged y) /\
  exists y s' e, rreachable y /\
    complete_answer demo_ref demo_ticket false true None (y_s y) = (s', Some (e, None)).
Proof.
  destruct demo_run as (_ & yt & _ & yc & _ & slot & sa & _ & (Hr & Hpc & Hg & Ha & _) & _ & (Hc & Hpc') & _).
  destruct (retained_response_completes yt demo_ref Hr) as [H1 _].
  destruct (H1 _ _ _ _ _ _ Hpc Hg Ha) as [Hst _].
  destruct (retained_response_completes yc demo_ref Hc) as [_ H2].
  destruct (H2 _ _ _ _ Hpc') as (x & e & apply & s' & E & _).
  split; [exists yt, (slot_ticket slot); split_and!; [exact Hr|exact Hpc|exact Hst]|].
  exists yc, s', e. split; [exact Hc|]. rewrite E.
  unfold complete_answer in E. destruct (slotForRefLocked _ _); [|done]. case_if_in E; [done|].
  cbn [andb] in E. apply (f_equal snd) in E. injection E as _ <-. reflexivity.
Defined.
