(* ===== verification/RetainedService.v ===== *)
(** * The service goroutine of the retained scheduler

    A service round ends: with nobody else at the scheduler, each iteration of
    its loop either returns or rules out one more lane.  The cadence spaces
    the services of an endpoint by its interval however late they run. *)

From S2P Require Import Prelude Bytes GoIO UsbIp Hid Descriptor Urb Control.
From S2P Require Import ResponseWriter RetainedUsb RetainedTopology RetainedLane Retained RetainedQueues.
From S2P Require Import RetainedProtocol RetainedRuns.

(** ** What a round relies on *)

Record served (s : rsched) : Prop := {
  sv_lanes : lanes_ok s;
  sv_session : Forall (fun x => slot_session x = rs_session s) (all_jobs s);
}.

Lemma served_beside s s' :
  rs_lanes s' = rs_lanes s -> rs_config s' = rs_config s -> served s -> served s'.
Proof.
  intros El Ec [H1 H2]. split; [by apply (lanes_only_ok s)|].
  unfold all_jobs, rs_session in *. by rewrite El, Ec.
Qed.

Lemma served_put ref x x' s :
  served s -> slotForRefLocked ref s = Some x -> same_request x x' ->
  slot_state x' <> retainedSubmissionFree ->
  (slot_state x <> retainedSubmissionRawQueued \/ slot_state x' = retainedSubmissionRawQueued \/
   is_head ref s = true) ->
  served (put_slot ref x' s) /\ slotForRefLocked ref (put_slot ref x' s) = Some x'.
Proof.
  intros [Hl Hs] Hr Hsame Hst Hh.
  destruct (put_slot_effect ref x x' s Hl Hr) as [He Hr']; try apply Hsame; try done.
  { by rewrite (sr_payload _ _ Hsame). }
  split; [|done]. split; [apply (ef_lanes _ _ _ _ He)|].
  destruct (ef_jobs _ _ _ _ He) as (rest & E1 & E2). rewrite E1 in Hs. rewrite E2.
  unfold rs_session in *. rewrite (ef_config _ _ _ _ He). inversion_clear Hs.
  constructor; [|done]. by rewrite (sr_session _ _ Hsame).
Qed.

Lemma is_head_put ref x s :
  (ref_lane ref < length (rs_lanes s))%nat -> is_head ref (put_slot ref x s) = is_head ref s.
Proof. intros Hl. unfold is_head. by rewrite put_slot_lane. Qed.

(** An accepted answer that is not Pending is a response to write. *)
Lemma admitted_not_pending slot p window at_ s sel :
  pr_Result p <> ResultPending -> validatePreparationLocked slot p window at_ s = Ok sel ->
  forall max, late_select (E := rerr) sel max <> Ok None.
Proof.
  intros Hp Hv max. unfold validatePreparationLocked in Hv. rewrite (proj2 (Z.eqb_neq _ _) Hp) in Hv.
  repeat case_if_in Hv; try done; injection Hv as <-; unfold late_select; cbn; by repeat case_if.
Qed.

Section Alone.
Context {W : Type} `{Writer W, !Flusher W} {OS : Type} (owner : Owner OS)
  (resolve : option (list Z -> Z -> Z -> controlLifecycleSetup)) (channel_id : Z).
Implicit Types (s : rsched) (o : OS) (t : nat -> rmoment OS).

(** Nobody else runs between the sections. *)
Definition alone t : Prop := forall k s o, rm_others (t k) s o = (s, o).

Lemma alone_shift t n : alone t -> alone (fun k => t (n + k)%nat).
Proof. intros Ht k. apply Ht. Qed.

Lemma retire_if_owned_err t ref reason now s o :
  exists s' o' e, retireRefIfOwned owner t ref reason now s o = (s', o', e).
Proof. destruct (retireRefIfOwned _ _ _ _ _ _ _) as [[s' o'] e]. eauto. Qed.

Lemma readiness_served t s o s' o' r :
  readReadiness owner channel_id t s o = (s', o', r) -> served s ->
  served s' /\ rs_closed s' = rs_closed s /\ rs_cancelled s' = rs_cancelled s.
Proof.
  unfold readReadiness. destruct (Readiness owner o) as [o1 first].
  destruct (match first with Ok _ => _ | Err _ => _ end) as [o2 second].
  unfold readiness_answer. destruct (sampleRetainedReadiness _ _ _ _ _) as [[epoch c]|e];
    intros [= <- <- <-]; [|done]. intros Hs. split; [by apply (served_beside s)|done].
Qed.

(** Without interference the preparation is not lost, and unless it failed or
    something was written the queues are as the round needs them. *)
Lemma write_alone t ref at_ (out : W) s o av slot out1 s1 o1 av1 pk written err :
  alone t -> served s -> rs_closed s = false -> rs_cancelled s = false -> av_lost av = false ->
  slotForRefLocked ref s = Some slot ->
  slot_state slot = retainedSubmissionTicketed \/ slot_state slot = retainedSubmissionPending ->
  is_head ref s = true ->
  writeLateRetSubmit out (s, o, av) (sequenceForRef ref s) (maximumResponseLength s)
    (Some (attempt_prepare owner t ref at_))
    (Some (attempt_complete owner (fun k => t (1 + k)%nat) ref)) = (out1, (s1, o1, av1), pk, written, err) ->
  written = true \/ av_lost av1 = false /\ (err = None -> served s1 /\ rs_cancelled s1 = false).
Proof.
  intros Ht Hs Hc Hx Hav Hr Hst Hh Ew.
  assert (Hsess : slot_session slot = rs_session s).
  { destruct Hs as [Hl Hs]. destruct (ref_position _ _ _ Hl Hr) as (q & k & Hq & _ & _ & _ & _ & Hj).
    rewrite list.Forall_forall in Hs. apply Hs. destruct (all_jobs_set _ _ _ Hq) as (rest & -> & _).
    apply elem_of_app. left. by eapply list_elem_of_lookup_2. }
  assert (Hg : prepare_guard ref s = Some slot).
  { unfold prepare_guard. rewrite Hr, Hc, Hx, Hh, Hsess, Z.eqb_refl. by destruct Hst as [->| ->]. }
  unfold writeLateRetSubmit in Ew. case_if_in Ew; [injection Ew as <- <- <- <- <- <- <-; by right|].
  unfold attempt_prepare in Ew at 1. unfold rpause in Ew. rewrite Ht, Hg in Ew.
  destruct (Prepare owner _ _ _ _) as [o2 [dest answer]].
  destruct (prepare_answer ref slot _ answer s) as [s2 pr] eqn:Ep.
  unfold prepare_answer in Ep. destruct answer as [p|e].
  2: { injection Ep as <- <-. injection Ew as <- <- <- <- <- <- <-. by right. }
  rewrite Hx in Ep. destruct (validatePreparationLocked _ _ _ _ _) as [sel|e] eqn:Ev.
  2: { injection Ep as <- <-. injection Ew as <- <- <- <- <- <- <-. by right. }
  destruct (Z.eqb_spec (pr_Result p) ResultPending) as [E|E].
  - injection Ep as <- <-. cbn in Ew. injection Ew as <- <- <- <- <- <- <-. right. split; [done|].
    intros _. split; [|done]. eapply (served_put ref slot); [done|done|by split|done|].
    left. by destruct Hst as [->| ->].
  - case_if_in Ep; injection Ep as <- <-.
    { injection Ew as <- <- <- <- <- <- <-. by right. }
    pose proof (admitted_not_pending _ _ _ _ _ _ E Ev (maximumResponseLength s)) as Hnp.
    destruct (late_select sel _) as [[[status n]|]|e]; [|done|].
    + left. destruct (deliver _ _ _) as [w1 de]. destruct (attempt_complete _ _ _ _ _) as [[[s3 o3] av3] ce].
      by injection Ew as <- <- <- <- <- <- <-.
    + injection Ew as <- <- <- <- <- <- <-. by right.
Qed.

(** Without interference an attempt is terminal, pending or failed: never lost. *)
Lemma attempt_alone t ref at_ (out : W) s o slot out' s' o' terminal pending err :
  alone t -> served s -> rs_closed s = false -> rs_cancelled s = false ->
  slotForRefLocked ref s = Some slot ->
  slot_state slot = retainedSubmissionTicketed \/ slot_state slot = retainedSubmissionPending ->
  is_head ref s = true ->
  attempt owner channel_id t ref at_ out s o = (out', s', o', (terminal, pending, err)) ->
  err = None -> terminal = false -> pending = true /\ served s'.
Proof.
  intros Ht Hs Hc Hx Hr Hst Hh Ha -> ->. unfold attempt in Ha.
  destruct (writeLateRetSubmit _ _ _ _ _ _) as [[[[out1 [[s1 o1] av]] pk] written] err] eqn:Ew.
  apply (write_alone _ _ _ _ _ _ _ slot) in Ew; try done.
  destruct err as [e|].
  - destruct (negb written && negb (av_lost av)); [|by injection Ha].
    destruct (rpause _ _ _) as [s2 o2]. by destruct (retireRefIfOwned _ _ _ _ _ _ _) as [[s3 o3] re].
  - destruct Ew as [->|[Hl Hk]]; [done|]. destruct written; [done|]. rewrite Hl in Ha.
    destruct (Hk eq_refl) as [Hs1 Hx1]. unfold rpause in Ha at 1. rewrite Ht, Hx1 in Ha.
    destruct (readReadiness _ _ _ _ _) as [[s2 o2] rr] eqn:Er.
    destruct (readiness_served _ _ _ _ _ _ Er Hs1) as (Hs2 & _).
    destruct rr as [published|e]; [case_if_in Ha|].
    + destruct (rpause _ _ _) as [s3 o3]. by destruct (retireRefIfOwned _ _ _ _ _ _ _) as [[s4 o4] re].
    + by injection Ha as _ <- _ <-.
    + destruct (rpause _ _ _) as [s3 o3]. by destruct (retireRefIfOwned _ _ _ _ _ _ _) as [[s4 o4] re].
Qed.

(** Staging the selected submission keeps what the round relies on and leaves a
    submission to attempt. *)
Lemma stage_alone ref slot fresh answer s s' :
  served s -> slotForRefLocked ref s = Some slot -> slot_state slot = retainedSubmissionRawQueued ->
  is_head ref s = true -> same_request slot fresh ->
  stage_answer ref fresh answer (put_slot ref fresh s) = (s', None) ->
  served s' /\ rs_closed s' = rs_closed s /\ rs_cancelled s' = rs_cancelled s /\ is_head ref s' = true /\
  exists x', slotForRefLocked ref s' = Some x' /\ slot_state x' = retainedSubmissionTicketed.
Proof.
  intros Hs Hr Hraw Hh Hsame Ha. pose proof (ref_slot_cases _ _ _ Hr) as (Hlt & _).
  unfold stage_answer in Ha. destruct answer as [tk|]; [|done]. case_if_in Ha; [|done].
  injection Ha as <-. rewrite put_slot_twice by done.
  set (x' := with_state retainedSubmissionTicketed (with_ticket tk fresh)).
  destruct (served_put ref slot x' s Hs Hr) as [Hs' Hr']; try done; [|by right; right|].
  { eapply same_request_trans; [exact Hsame|by split]. }
  split_and!; try done; [by rewrite is_head_put|]. by exists x'.
Qed.

(** The lanes a round may still try. *)
Definition untried (attempted : list bool) : nat := length (filter (fun b => b = false) attempted).

Lemma untried_insert attempted i :
  attempted !! i = Some false -> S (untried (<[i := true]> attempted)) = untried attempted.
Proof.
  unfold untried. revert i. induction attempted as [|b l IH]; intros i Hi; [done|].
  destruct i as [|i]; cbn in Hi.
  - injection Hi as ->. cbn [insert list_insert]. rewrite !filter_cons. by repeat case_decide.
  - cbn [insert list_insert]. rewrite !filter_cons. specialize (IH i Hi).
    case_decide; [cbn [length]; f_equal; exact IH|exact IH].
Qed.

Lemma service_loop_ends fuel t attempted epoch now (out : W) s o :
  alone t -> served s -> length attempted = 3%nat -> (untried attempted < fuel)%nat ->
  exists out' s' o' r,
    service_loop owner resolve channel_id fuel t attempted epoch now out s o = (out', s', o', Some r).
Proof.
  revert t attempted out s o. induction fuel as [|fuel IH]; intros t attempted out s o Ht Hs Hl Hf; [lia|].
  cbn [service_loop]. unfold rpause. rewrite Ht. case_if; [eauto|]. bool_prop.
  destruct (oldestEligibleLocked attempted epoch now s) as [[ref|] retry] eqn:Eo; [|eauto].
  destruct (oldest_selected _ _ _ _ _ _ Eo) as (q & Hq & Hlq & Hc & Er & Hh).
  pose proof (lo_lane _ (sv_lanes _ Hs) _ _ Hq) as [Hok _ _ _].
  assert (Hin : order_at q 0 ∈ entries q).
  { eapply list_elem_of_lookup_2, entries_lookup. unfold candidate in Hc. bool_prop. lia. }
  assert (Hr : slotForRefLocked ref s = Some (slot_at (lane_at s (ref_lane ref)) (ref_slot ref))).
  { rewrite Hlq. pose proof (queued_ref _ _ _ _ (sv_lanes _ Hs) Hq Hin) as Hr.
    fold (head_ref (ref_lane ref) q) in Hr. rewrite <-Er in Hr. rewrite Hr, Er. done. }
  set (slot := slot_at (lane_at s (ref_lane ref)) (ref_slot ref)) in *.
  set (stage := if bool_decide _ then _ else _).
  assert (Hstage : exists s1 o1 e1, stage = (s1, o1, e1) /\ (e1 = None ->
    served s1 /\ rs_closed s1 = false /\ rs_cancelled s1 = false /\ is_head ref s1 = true /\
    exists x, slotForRefLocked ref s1 = Some x /\
      (slot_state x = retainedSubmissionTicketed \/ slot_state x = retainedSubmissionPending))).
  { unfold stage. case_bool_decide as Hraw.
    - destruct (Stage owner o _) as [o1 answer]. destruct (stage_answer _ _ _ _) as [s1 e1] eqn:Ea.
      exists s1, o1, e1. split; [done|]. intros ->.
      destruct (stage_alone _ _ _ _ _ _ Hs Hr Hraw Hh (refresh_same resolve slot s) Ea)
        as (? & Hc1 & Hx1 & ? & x' & ? & ?).
      split_and!; try done; [by rewrite Hc1|by rewrite Hx1|]. exists x'. auto.
    - exists s, o, None. split; [done|]. intros _. split_and!; try done. exists slot. split; [done|].
      assert (He : slot_eligible epoch now slot = true).
      { unfold candidate in Hc. bool_prop. unfold slot. rewrite Hlq, Er. done. }
      unfold slot_eligible in He. destruct (slot_state slot); try done; auto. }
  destruct Hstage as (s1 & o1 & e1 & -> & Hk). destruct e1 as [e|]; [eauto|].
  destruct (Hk eq_refl) as (Hs1 & Hc1 & Hx1 & Hh1 & x & Hr1 & Hst1).
  destruct (attempt _ _ _ _ _ _ _ _) as [[[out2 s2] o2] [[terminal pending] err]] eqn:Ea.
  destruct err as [e|]; [eauto|]. destruct terminal; [eauto|].
  apply (attempt_alone _ _ _ _ _ _ x) in Ea as [-> Hs2]; try done; [|by apply alone_shift].
  assert (Hat : attempted !! ref_lane ref = Some false).
  { unfold candidate in Hc. bool_prop. destruct (lookup_lt_is_Some_2 attempted (ref_lane ref)) as [b Hb].
    { rewrite Hl, <-(lo_three _ (sv_lanes _ Hs)). by eapply lookup_lt_Some. }
    by erewrite nth_lookup_Some in * by exact Hb; subst. }
  apply IH; [by apply alone_shift|done|by rewrite length_insert|].
  pose proof (untried_insert _ _ Hat). lia.
Qed.
End Alone.

(** C24: a service round returns.  Without interference four iterations of its
    loop always suffice, whatever the owner answers and wherever its response
    stream fails: an iteration that neither delivers a response nor fails leaves
    the submission pending and its lane out of the rest of the round. *)
Theorem retained_round_ends {W} `{Writer W, !Flusher W} {OS} (owner : Owner OS) resolve channel_id
    (fuel : nat) (t : nat -> rmoment OS) now (out : W) (y : rsys) (o : OS) :
  rreachable y -> alone t -> (4 <= fuel)%nat ->
  exists out' s' o' progressed nextRetry err,
    serviceRound owner resolve channel_id fuel t now out (y_s y) o =
      (out', s', o', Some (progressed, nextRetry, err)).
Proof.
  intros Hi%rreachable_inv Ht Hf.
  assert (Hs : served (y_s y)).
  { split; [apply Hi|]. eapply Forall_impl; [|exact (v_jobs _ Hi)]. by intros x []. }
  unfold serviceRound. case_if; [eauto 10|].
  destruct (pollImportRetirement owner (y_s y) o) as [[s1 o1] err] eqn:Ep.
  assert (Hs1 : served s1).
  { unfold pollImportRetirement in Ep. destruct (RetainedImportRetirement owner) as [query|];
      [|by injection Ep as <- <- <-].
    destruct (query o) as [o2 answer]. destruct (retirement_answer _ _) as [s2 e2] eqn:Er.
    injection Ep as <- <- <-.
    destruct (import_steps_quiet (y_s y)) as (_ & _ & _ & _ & _ & _ & _ & _ & Hq & _).
    specialize (Hq (Some answer)). rewrite Er in Hq. destruct Hq. by apply (served_beside (y_s y)). }
  destruct err as [e|]; [eauto 10|].
  destruct (readReadiness _ _ _ _ _) as [[s2 o2] r] eqn:Er.
  destruct (readiness_served _ _ _ _ _ _ _ _ Er Hs1) as [Hs2 _].
  destruct r as [epoch|e]; [|eauto 10].
  destruct (service_loop_ends owner resolve channel_id fuel (fun k => t (1 + k)%nat) [false; false; false]
    epoch now out s2 o2) as (out' & s' & o' & [[p n] err] & E); [by apply alone_shift|done|done|..].
  { change (untried [false; false; false]) with 3%nat. lia. }
  eauto 10.
Qed.

(** ** Cadence *)

(** The service goroutine and everyone else, as far as the cadence goes.
    [c_selected] is a selection not yet prepared, with the clock it was selected
    at; [c_services] are the times at which submissions of one lane were admitted
    to the response stream since its cadence was last reset. *)
Record csys := {
  c_sched : rsched;
  c_selected : option (retainedSubmissionRef * Z);
  c_services : list Z;
}.

(** A change of the scheduler that may reset the cadence of [lane]. *)
Definition cadence_reset (lane : nat) (s' : rsched) (y : csys) : csys := {|
  c_sched := s'; c_selected := c_selected y;
  c_services := if next_service s' lane =? next_service (c_sched y) lane then c_services y else [] |}.

(** The sections that touch the cadence: selection, the preparation that follows
    it at a later reading of the clock, a delivered lifecycle request, the
    reopening after a reset.  Every other section leaves it alone. *)
Inductive cstep (lane : nat) (y : csys) : csys -> Prop :=
| cstep_select attempted epoch now ref retry :
    oldestEligibleLocked attempted epoch now (c_sched y) = (Some ref, retry) ->
    cstep lane y {| c_sched := c_sched y; c_selected := Some (ref, now); c_services := c_services y |}
| cstep_prepare ref at_ selectedAt slot answer s' r :
    c_selected y = Some (ref, at_) -> at_ <= selectedAt -> prepare_guard ref (c_sched y) = Some slot ->
    prepare_answer ref slot selectedAt answer (c_sched y) = (s', r) ->
    cstep lane y {| c_sched := s'; c_selected := None;
      c_services := c_services y ++ match r with
        | PrepAdmitted _ _ => if (ref_lane ref =? lane)%nat then [selectedAt] else []
        | _ => []
        end |}
| cstep_lifecycle published :
    cstep lane y (cadence_reset lane (complete_lifecycle published (c_sched y)) y)
| cstep_reopen r reset s' :
    reopenAfterReset r reset (c_sched y) = (s', None) -> cstep lane y (cadence_reset lane s' y)
| cstep_other s' :
    rs_cadence s' = rs_cadence (c_sched y) ->
    cstep lane y {| c_sched := s'; c_selected := c_selected y; c_services := c_services y |}.

(** From a scheduler that has served nothing yet. *)
Inductive creachable (lane : nat) (s : rsched) : csys -> Prop :=
| creachable_init : creachable lane s {| c_sched := s; c_selected := None; c_services := [] |}
| creachable_step y y' : creachable lane s y -> cstep lane y y' -> creachable lane s y'.

Lemma advance_next lane now s interval :
  (lane < length (cd_nextService (rs_cadence s)))%nat -> nth lane (cd_intervals (rs_cadence s)) 0 = interval ->
  0 < interval < 2 ^ 63 -> zero_time <= next_service s lane <= now ->
  let s' := advanceEndpointCadenceLocked lane now s in
  next_service s' lane = (if (next_service s lane =? zero_time) || (interval <=? now - next_service s lane)
                          then now else next_service s lane) + interval /\
  length (cd_nextService (rs_cadence s')) = length (cd_nextService (rs_cadence s)) /\
  cd_intervals (rs_cadence s') = cd_intervals (rs_cadence s).
Proof.
  intros Hl Hiv Hi Hn. unfold advanceEndpointCadenceLocked. rewrite Hiv.
  rewrite (proj2 (Z.leb_gt interval 0)) by lia. cbv zeta.
  assert (Hsub : (interval <=? time_sub now (next_service s lane)) = (interval <=? now - next_service s lane)).
  { unfold time_sub. repeat case_if; try done; lia. }
  rewrite Hsub. split_and!; [|cbn; apply length_insert|done].
  unfold next_service at 1. cbn. rewrite nth_lookup, list_lookup_insert_eq by done. done.
Qed.

(** An advance of another lane, and of a lane without a cadence. *)
Lemma advance_other lane lane' now s : lane' <> lane ->
  next_service (advanceEndpointCadenceLocked lane' now s) lane = next_service s lane /\
  length (cd_nextService (rs_cadence (advanceEndpointCadenceLocked lane' now s))) = length (cd_nextService (rs_cadence s)) /\
  cd_intervals (rs_cadence (advanceEndpointCadenceLocked lane' now s)) = cd_intervals (rs_cadence s).
Proof.
  intros Hne. unfold advanceEndpointCadenceLocked. case_if; [done|]. cbv zeta. cbn. rewrite length_insert.
  split_and!; try done. unfold next_service. cbn. by rewrite !nth_lookup, list_lookup_insert_ne.
Qed.

Record cinv (lane : nat) (interval : Z) (y : csys) : Prop := {
  ci_lane : (lane < 3)%nat /\ length (cd_nextService (rs_cadence (c_sched y))) = 3%nat;
  ci_interval : nth lane (cd_intervals (rs_cadence (c_sched y))) 0 = interval;
  ci_next : zero_time <= next_service (c_sched y) lane;
  ci_due ref at_ : c_selected y = Some (ref, at_) -> ref_lane ref = lane -> next_service (c_sched y) lane <= at_;
  ci_apart i j ti tj : (i < j)%nat -> c_services y !! i = Some ti -> c_services y !! j = Some tj ->
    ti + Z.of_nat (j - i - 1) * interval < tj;
  ci_ahead i ti : c_services y !! i = Some ti ->
    ti + Z.of_nat (length (c_services y) - i - 1) * interval < next_service (c_sched y) lane;
  ci_last t : list.last (c_services y) = Some t -> next_service (c_sched y) lane <= t + interval;
}.

Lemma cinv_serve lane interval y ref at_ t s' : 0 < interval < 2 ^ 63 -> cinv lane interval y ->
  c_selected y = Some (ref, at_) -> ref_lane ref = lane -> at_ <= t ->
  rs_cadence s' = rs_cadence (advanceEndpointCadenceLocked lane t (c_sched y)) ->
  cinv lane interval {| c_sched := s'; c_selected := None; c_services := c_services y ++ [t] |}.
Proof.
  intros Hi [I1 I2 I3 I4 I5 I6 I7] Hs Hl Ht Hc. specialize (I4 ref at_ Hs Hl).
  destruct (advance_next lane t (c_sched y) interval) as (En & El & Ei); [lia|done..|lia|].
  assert (Hn : next_service s' lane = next_service (advanceEndpointCadenceLocked lane t (c_sched y)) lane)
    by (unfold next_service; by rewrite Hc).
  assert (Hd : t < next_service s' lane <= t + interval /\ next_service (c_sched y) lane + interval <= next_service s' lane).
  { rewrite Hn, En. case_if; bool_split; lia. }
  assert (Hap : forall i ti, c_services y !! i = Some ti ->
    ti + Z.of_nat (length (c_services y) - i - 1) * interval < t) by (intros i ti Hk; specialize (I6 i ti Hk); lia).
  split; cbn [c_sched c_selected c_services]; rewrite ?Hc, ?El, ?Ei; try done; try lia.
  - intros i j ti tj Hij Hti Htj. apply lookup_app_Some in Htj as [Htj|[Hge Htj]].
    + rewrite lookup_app_l in Hti by (apply lookup_lt_Some in Htj; lia). by apply (I5 i j).
    + destruct (j - length (c_services y))%nat as [|k] eqn:Ej; [|done]. injection Htj as <-.
      rewrite lookup_app_l in Hti by lia. replace j with (length (c_services y)) by lia. by apply Hap.
  - intros i ti Hti. rewrite length_app. cbn [length]. apply lookup_app_Some in Hti as [Hti|[Hge Hti]].
    + specialize (I6 i ti Hti). apply lookup_lt_Some in Hti. nia.
    + destruct (i - length (c_services y))%nat as [|k] eqn:Ej; [|done]. injection Hti as <-.
      replace (length (c_services y) + 1 - i - 1)%nat with 0%nat by lia. lia.
  - intros t' Ht'. rewrite list.last_snoc in Ht'. injection Ht' as <-. lia.
Qed.

(** The lane's part of the cadence is as before. *)
Lemma cinv_frame lane interval y s' sel : cinv lane interval y ->
  length (cd_nextService (rs_cadence s')) = length (cd_nextService (rs_cadence (c_sched y))) ->
  cd_intervals (rs_cadence s') = cd_intervals (rs_cadence (c_sched y)) ->
  next_service s' lane = next_service (c_sched y) lane ->
  (forall ref at_, sel = Some (ref, at_) -> ref_lane ref = lane -> next_service (c_sched y) lane <= at_) ->
  cinv lane interval {| c_sched := s'; c_selected := sel; c_services := c_services y |}.
Proof.
  intros [I1 I2 I3 I4 I5 I6 I7] El Ei En Hs. split; cbn [c_sched c_selected c_services]; rewrite ?El, ?Ei, ?En; done.
Qed.

Lemma cinv_reset lane interval y s' : cinv lane interval y ->
  length (cd_nextService (rs_cadence s')) = length (cd_nextService (rs_cadence (c_sched y))) ->
  cd_intervals (rs_cadence s') = cd_intervals (rs_cadence (c_sched y)) ->
  next_service s' lane = next_service (c_sched y) lane \/ next_service s' lane = zero_time ->
  cinv lane interval (cadence_reset lane s' y).
Proof.
  intros I El Ei En. unfold cadence_reset. destruct (Z.eqb_spec (next_service s' lane) (next_service (c_sched y) lane)) as [E|E].
  { apply cinv_frame; try done. apply (ci_due _ _ _ I). }
  destruct En as [?|En]; [done|]. destruct I as [I1 I2 I3 I4 _ _ _].
  split; cbn [c_sched c_selected c_services]; rewrite ?El, ?Ei, ?En; try done.
  intros ref at_ Hs Hl. specialize (I4 ref at_ Hs Hl). lia.
Qed.

Lemma lifecycle_cadence published s lane :
  let s' := complete_lifecycle published s in
  length (cd_nextService (rs_cadence s')) = length (cd_nextService (rs_cadence s)) /\
  cd_intervals (rs_cadence s') = cd_intervals (rs_cadence s) /\
  (next_service s' lane = next_service s lane \/ next_service s' lane = zero_time).
Proof.
  intros s'.
  assert (Hset : forall k s0, length (cd_nextService (rs_cadence (set_next_service k zero_time s0))) = length (cd_nextService (rs_cadence s0)) /\
    cd_intervals (rs_cadence (set_next_service k zero_time s0)) = cd_intervals (rs_cadence s0) /\
    (next_service (set_next_service k zero_time s0) lane = next_service s0 lane \/
     next_service (set_next_service k zero_time s0) lane = zero_time)).
  { intros k s0. cbn. rewrite length_insert. split_and!; try done. unfold next_service. cbn. rewrite !nth_lookup.
    destruct (decide (k = lane)) as [->|]; [|left; by rewrite list_lookup_insert_ne].
    destruct (decide (lane < length (cd_nextService (rs_cadence s0)))%nat).
    - right. by rewrite list_lookup_insert_eq.
    - left. by rewrite list_insert_ge by lia. }
  assert (Hrel : forall s0, rs_cadence (releaseLifecycleBarrierLocked s0) = rs_cadence s0)
    by (intros s0; unfold releaseLifecycleBarrierLocked; by case_if).
  unfold s', complete_lifecycle. unfold next_service at 1 3. rewrite !Hrel. fold (next_service).
  destruct published as [lc|]; [|by split_and!; auto].
  assert (Happ : rs_cadence (applyControlLifecycleRoutingLocked lc s) = rs_cadence (resetEndpointCadenceLocked lc s))
    by (unfold applyControlLifecycleRoutingLocked; by destruct (lc_kind lc)).
  rewrite !Happ. fold (next_service (resetEndpointCadenceLocked lc s) lane).
  unfold resetEndpointCadenceLocked. cbv zeta.
  match goal with |- context [set_next_service 2 zero_time ?x] => set (s1 := x) end.
  assert (H1 : length (cd_nextService (rs_cadence s1)) = length (cd_nextService (rs_cadence s)) /\
    cd_intervals (rs_cadence s1) = cd_intervals (rs_cadence s) /\
    (next_service s1 lane = next_service s lane \/ next_service s1 lane = zero_time))
    by (unfold s1; case_match; [apply Hset|by split_and!; auto]).
  case_match; [|done]. destruct (Hset 2%nat s1) as (A1 & A2 & A3). destruct H1 as (B1 & B2 & B3).
  rewrite A1, A2. split_and!; try done. destruct A3 as [->| ->]; auto.
Qed.

Lemma cstep_inv lane interval y y' : 0 < interval < 2 ^ 63 -> cinv lane interval y -> cstep lane y y' -> cinv lane interval y'.
Proof.
  intros Hi I [attempted epoch now ref retry Ho|ref at_ selectedAt slot answer s' r Hs Ht Hg Hp|published|r reset s' Hr|s' Hc].
  - apply cinv_frame; try done. intros ref' at' [= <- <-] Hl.
    apply oldest_selected in Ho as (q & _ & _ & Hc & _). unfold candidate in Hc. bool_prop. by subst lane.
  - unfold prepare_answer in Hp.
    assert (Hsame : s' = c_sched y -> cinv lane interval {| c_sched := s'; c_selected := None; c_services := c_services y ++ [] |})
      by (intros ->; rewrite app_nil_r; by apply cinv_frame).
    destruct answer as [p|e]; [|injection Hp as <- <-; by apply Hsame].
    case_if_in Hp; [injection Hp as <- <-; by apply Hsame|].
    destruct (validatePreparationLocked _ _ _ _ _); [|injection Hp as <- <-; by apply Hsame].
    case_if_in Hp; [injection Hp as <- <-; rewrite app_nil_r; by apply cinv_frame|].
    case_if_in Hp; [injection Hp as <- <-; by apply Hsame|].
    set (s1 := put_slot _ _ _) in Hp. injection Hp as <- <-.
    assert (Hc1 : rs_cadence s1 = rs_cadence (c_sched y)) by (unfold s1; by case_match). clearbody s1.
    assert (Hadv : forall k, rs_cadence (advanceEndpointCadenceLocked k selectedAt s1) =
      rs_cadence (advanceEndpointCadenceLocked k selectedAt (c_sched y))).
    { intros k. unfold advanceEndpointCadenceLocked, next_service. rewrite Hc1. case_if; [done|]. cbn. by rewrite ?Hc1. }
    destruct (Nat.eqb_spec (ref_lane ref) lane) as [E|E].
    + apply (cinv_serve _ _ _ ref at_); try done. by rewrite E.
    + rewrite app_nil_r. destruct (advance_other lane (ref_lane ref) selectedAt (c_sched y) E) as (E1 & E2 & E3).
      apply cinv_frame; try done; [by rewrite Hadv|by rewrite Hadv|]. unfold next_service in *. by rewrite Hadv.
  - destruct (lifecycle_cadence published (c_sched y) lane) as (E1 & E2 & E3). by apply cinv_reset.
  - unfold reopenAfterReset in Hr. case_if_in Hr; [done|]. injection Hr as <-.
    apply cinv_reset; [done|by rewrite (proj2 (ci_lane _ _ _ I))|done|right].
    unfold next_service. cbn. destruct lane as [|[|[|lane]]]; try done. by destruct lane.
  - apply cinv_frame; [done|by rewrite Hc..|unfold next_service; by rewrite Hc|apply (ci_due _ _ _ I)].
Qed.

(** C39: the cadence of an endpoint is kept in the long run.  In every run of the
    scheduler, whatever the owner answers and whatever other goroutines do between
    its sections, the services of a scheduled endpoint since its cadence was last
    reset are never bunched: one is later than the [k]-th before it by more than
    [k - 1] whole intervals, however late the ones between ran.  And after a
    service the endpoint is due again within one interval, but not at once.  A
    preparation reads the clock no earlier than the selection before it did. *)
Theorem retained_cadence_rate lane s interval y :
  (lane < 3)%nat -> cd_nextService (rs_cadence s) = [zero_time; zero_time; zero_time] ->
  nth lane (cd_intervals (rs_cadence s)) 0 = interval -> 0 < interval < 2 ^ 63 -> creachable lane s y ->
  (forall i j ti tj, (i < j)%nat -> c_services y !! i = Some ti -> c_services y !! j = Some tj ->
     ti + Z.of_nat (j - i - 1) * interval < tj) /\
  (forall t, list.last (c_services y) = Some t -> t < next_service (c_sched y) lane <= t + interval).
Proof.
  intros Hl Hz Hiv Hi Hr. assert (I : cinv lane interval y).
  { induction Hr as [|y y' _ IH Hs]; [|by apply (cstep_inv _ _ y)].
    split; cbn [c_sched c_selected c_services]; try done; [by rewrite Hz|].
    unfold next_service. rewrite Hz. by destruct lane as [|[|[|lane]]]; try lia. }
  split; [apply (ci_apart _ _ _ I)|]. intros t Ht. split; [|by apply (ci_last _ _ _ I)].
  apply list.last_Some in Ht as [l Hl']. pose proof (ci_ahead _ _ _ I (length l) t) as Ha. rewrite Hl' in Ha.
  rewrite length_app, lookup_app_r, Nat.sub_diag in Ha by lia. specialize (Ha eq_refl). cbn [length] in Ha. lia.
Qed.

(** *** A concrete round *)

(** An owner that answers every request with three bytes. *)
Definition demo_owner : Owner unit := {|
  Stage := fun o r => (o, Ok {| tk_OwnerID := 9; tk_Token := rq_IngressOrdinal r; tk_Generation := 1;
    tk_SessionGeneration := rq_SessionGeneration r; tk_Lane := rq_Lane r |});
  Prepare := fun o _ dst _ => (o, (put_at 0 [1; 2; 3] dst, Ok demo_data));
  Complete := fun o _ _ _ => (o, None);
  Retire := fun o _ _ _ => (o, None);
  Readiness := fun o => (o, Ok (1, Some {| ch_id := 4; ch_cap := 1 |}));
  RetainedImportRetirement := None |}.

Definition demo_quiet (k : nat) : rmoment unit :=
  {| rm_now := 0; rm_others := fun s o => (s, o); rm_received := None |}.

Lemma retained_round_ends_witness :
  exists y out' s' o' progressed nextRetry err, rreachable y /\
    serviceRound demo_owner None 4 4 demo_quiet 0 ([] : list Z) (y_s y) tt =
      (out', s', o', Some (progressed, nextRetry, err)).
Proof.
  destruct demo_run as (yq & _ & _ & _ & _ & _ & _ & (Hr & _) & _).
  destruct (retained_round_ends demo_owner None 4 4 demo_quiet 0 ([] : list Z) yq tt Hr)
    as (out' & s' & o' & p & n & e & E); [intros k s o; reflexivity|lia|].
  exists yq, out', s', o', p, n, e. split; [exact Hr|exact E].
Defined.

(** A submission is queued, selected at [at_], staged, admitted and completed. *)
Definition demo_serve (q at_ : Z) (s : rsched) : option rsched :=
  let s := fst (enqueueWithFramingReservation {|
    en_lane := LaneInterruptIn; en_direction := DirectionIn; en_sequence := q; en_transferLength := 64;
    en_setup := zeros 8; en_route := InterruptInRoute demo_limits; en_binding := 1; en_data := [];
    en_lifecycle := lifecycle_none |} false s) in
  let ticket := {| tk_OwnerID := 9; tk_Token := q; tk_Generation := 1; tk_SessionGeneration := 7; tk_Lane := LaneInterruptIn |} in
  match oldestEligibleLocked no_tries 1 at_ s with
  | (Some ref, _) =>
      let s := match slotForRefLocked ref s with
               | Some slot => fst (stage_answer ref slot (Ok ticket) s)
               | None => s
               end in
      match prepare_guard ref s with
      | Some slot =>
          match prepare_answer ref slot at_ (Ok demo_data) s with
          | (s, PrepAdmitted _ _) =>
              if (ref_lane ref =? 1)%nat then Some (fst (complete_answer ref ticket false true None s)) else None
          | _ => None
          end
      | None => None
      end
  | _ => None
  end.

Lemma queue_cadence e require s : rs_cadence (fst (enqueueWithFramingReservation e require s)) = rs_cadence s.
Proof. unfold enqueueWithFramingReservation. repeat (case_match; try done). Qed.

Lemma stage_cadence ref slot answer s : rs_cadence (fst (stage_answer ref slot answer s)) = rs_cadence s.
Proof. unfold stage_answer. by repeat case_match. Qed.

Lemma complete_cadence ref ticket l d e s : rs_cadence (fst (complete_answer ref ticket l d e s)) = rs_cadence s.
Proof.
  unfold complete_answer, releaseLifecycleBarrierLocked.
  repeat (case_match; simplify_eq/=; try done).
Qed.

Lemma demo_serve_reachable s0 q at_ s s' l : demo_serve q at_ s = Some s' ->
  creachable 1 s0 {| c_sched := s; c_selected := None; c_services := l |} ->
  creachable 1 s0 {| c_sched := s'; c_selected := None; c_services := l ++ [at_] |}.
Proof.
  unfold demo_serve. set (e := Build_retainedSubmissionEnvelope _ _ _ _ _ _ _ _ _).
  pose proof (queue_cadence e false s) as H1. set (s1 := fst _) in *. cbv zeta. set (ticket := Build_Ticket _ _ _ _ _).
  destruct (oldestEligibleLocked _ _ _ s1) as [[ref|] retry] eqn:Eo; [|done].
  set (s2 := match slotForRefLocked ref s1 with Some _ => _ | None => _ end).
  assert (H2 : rs_cadence s2 = rs_cadence s1) by (unfold s2; case_match; [apply stage_cadence|done]).
  destruct (prepare_guard ref s2) as [slot|] eqn:Eg; [|done].
  destruct (prepare_answer ref slot at_ (Ok demo_data) s2) as [s3 r] eqn:Ep. destruct r as [| | |sel lc]; try done.
  destruct (Nat.eqb_spec (ref_lane ref) 1) as [El|]; [|done]. intros [= <-] Hr.
  pose proof (creachable_step _ _ _ _ Hr (cstep_other 1 {| c_sched := s; c_selected := None; c_services := l |} s1 H1)) as Hq.
  eapply creachable_step in Hq; [|eapply (cstep_select 1); exact Eo].
  eapply creachable_step in Hq; [|exact (cstep_other 1 {| c_sched := s1; c_selected := Some (ref, at_); c_services := l |} s2 H2)].
  eapply creachable_step in Hq; [|exact (cstep_prepare 1 {| c_sched := s2; c_selected := Some (ref, at_); c_services := l |}
    ref at_ at_ slot _ _ _ eq_refl (Z.le_refl _) Eg Ep)]. rewrite El in Hq. cbn [c_services] in Hq.
  exact (creachable_step _ _ _ _ Hq (cstep_other 1 {| c_sched := s3; c_selected := None; c_services := l ++ [at_] |} _
    (complete_cadence ref ticket false true None s3))).
Qed.

(** Three services of a 4 ms endpoint, the second one 3 ms late. *)
Lemma retained_cadence_rate_witness :
  exists s y, creachable 1 s y /\ c_services y = [0; 7; 8] /\ 0 + Z.of_nat (2 - 0 - 1) * 4 < 8.
Proof.
  eassert (Hb : buildRetainedSubmissionSchedulerWithSnapshot 7 false demo_construction = Ok _) by (vm_compute; reflexivity).
  match type of Hb with _ = Ok ?s0 => set (s := with_cadence {| cd_configured := true; cd_intervals := [0; 4; 4];
    cd_nextService := [zero_time; zero_time; zero_time] |} s0) in * end.
  eassert (H1 : demo_serve 1 0 s = Some _) by (vm_compute; reflexivity).
  apply (demo_serve_reachable s _ _ _ _ []) in H1 as Hr1; [|constructor].
  match type of H1 with _ = Some ?s1 => eassert (H2 : demo_serve 2 7 s1 = Some _) by (vm_compute; reflexivity) end.
  apply (demo_serve_reachable s _ _ _ _ _ H2) in Hr1.
  match type of H2 with _ = Some ?s2 => eassert (H3 : demo_serve 3 8 s2 = Some _) by (vm_compute; reflexivity) end.
  apply (demo_serve_reachable s _ _ _ _ _ H3) in Hr1.
  eexists s, _. split; [exact Hr1|]. split; [reflexivity|].
  refine (proj1 (retained_cadence_rate 1 s 4 _ _ _ _ _ Hr1) 0%nat 2%nat 0 8 _ _ _); try lia; reflexivity.
Defined.
