(* ===== verification/Codec.v ===== *)
(** * Strict codecs of fixed-size messages

    The device protocols encode a value into a caller's buffer of one exact
    size and decode only the exact image of a valid value.  [StrictCodec] is
    that contract as an interface: a codec component proves it once for its
    pair of functions and gets the round trips and the absence of second
    encodings from the lemmas here.  The file also holds what those proofs
    share: bit flags in a word, statements decided by running through all
    values of a byte or a word, and 16-bit two's complement. *)

From S2P Require Import Prelude Bytes.

(** ** 16-bit two's complement *)

Abbreviation I16 v := (-32768 <= v < 32768).
Definition i16 (v : Z) : Z := let r := v mod 65536 in if r <? 32768 then r else r - 65536.

Lemma i16_range v : I16 (i16 v).
Proof. unfold i16. destruct (Z.ltb_spec (v mod 65536) 32768); zsolve. Qed.

Lemma i16_u16 v : I16 v -> i16 (u16 v) = v.
Proof.
  intros. unfold i16, u16. rewrite Zmod_mod. destruct (Z.ltb_spec (v mod 65536) 32768); zsolve.
Qed.

Lemma u16_i16 v : U16 v -> u16 (i16 v) = v.
Proof.
  intros. unfold i16, u16. destruct (Z.ltb_spec (v mod 65536) 32768); zsolve.
Qed.

(** ** Statements about all bytes, all words *)

Definition below (n : nat) : list Z := map Z.of_nat (seq 0 n).

Lemma below_In n v : 0 <= v < Z.of_nat n -> List.In v (below n).
Proof.
  intros H. apply in_map_iff. exists (Z.to_nat v). split; [lia|]. apply in_seq. lia.
Qed.

(** [forall v, 0 <= v < n -> P v] by deciding [P] at each of them. *)
Lemma all_below n (P : Z -> Prop) `{!forall v, Decision (P v)} :
  bool_decide (Forall P (below n)) = true -> forall v, 0 <= v < Z.of_nat n -> P v.
Proof.
  intros Hall%bool_decide_eq_true v Hv. rewrite List.Forall_forall in Hall. by apply Hall, below_In.
Qed.

Ltac by_all_bytes P := refine (all_below 256 P _ _ _); [vm_compute; reflexivity|cbn; lia].

(** [bytes_ok] of a literal list, byte by byte. *)
Ltac bytes_list := unfold bytes_ok; repeat (apply List.Forall_cons; [cbn; try done; try lia; try apply u8_range|]);
  try apply List.Forall_nil.

(** ** Bit flags *)

(** [if value { word |= mask }] *)
Definition set_mask (value : bool) (mask word : Z) : Z := if value then Z.lor word mask else word.

(** [word & mask != 0] *)
Definition has_mask (word mask : Z) : bool := negb (Z.land word mask =? 0).

Lemma has_mask_bit word k : 0 <= k -> has_mask word (2 ^ k) = Z.testbit word k.
Proof.
  intros Hk. unfold has_mask. destruct (Z.testbit word k) eqn:E.
  - apply negb_true_iff, Z.eqb_neq. intros H. apply (f_equal (fun z => Z.testbit z k)) in H.
    by rewrite Z.land_spec, E, Z.pow2_bits_true, Z.bits_0 in H.
  - apply negb_false_iff, Z.eqb_eq, Z.bits_inj'. intros j Hj.
    rewrite Z.land_spec, Z.bits_0. destruct (decide (j = k)) as [->|]; [by rewrite E|].
    by rewrite Z.pow2_bits_false, andb_false_r.
Qed.

Lemma set_mask_bit value mask word k :
  Z.testbit (set_mask value mask word) k = (Z.testbit word k || (value && Z.testbit mask k))%bool.
Proof.
  unfold set_mask. destruct value; cbn [andb]; [by rewrite Z.lor_spec|by rewrite orb_false_r].
Qed.

Lemma set_mask_bound k value mask word :
  0 <= k -> 0 <= mask < 2 ^ k -> 0 <= word < 2 ^ k -> 0 <= set_mask value mask word < 2 ^ k.
Proof.
  intros Hk Hm Hw. unfold set_mask. destruct value; [|done].
  assert (H0 : 0 <= Z.lor word mask) by (apply Z.lor_nonneg; lia). split; [done|].
  apply Z.bounded_iff_bits_nonneg; [done..|]. intros l Hl. rewrite Z.lor_spec.
  assert (Hb : forall v, 0 <= v < 2 ^ k -> Z.testbit v l = false).
  { intros v Hv. refine (proj1 (Z.bounded_iff_bits_nonneg k v Hk _) _ l Hl); lia. }
  by rewrite !Hb.
Qed.

Lemma set_mask16 value mask word : U16 mask -> U16 word -> U16 (set_mask value mask word).
Proof. exact (set_mask_bound 16 value mask word ltac:(lia)). Qed.

(** Two words are equal when their sixteen bits are. *)
Lemma word16_bits a b : U16 a -> U16 b ->
  Forall (fun k => Z.testbit a k = Z.testbit b k) [0; 1; 2; 3; 4; 5; 6; 7; 8; 9; 10; 11; 12; 13; 14; 15] -> a = b.
Proof.
  intros Ha Hb H. apply Z.bits_inj'. intros k Hk. destruct (decide (k < 16)).
  - rewrite List.Forall_forall in H. apply H.
    assert (List.In k (below 16)) by (apply below_In; cbn; lia). done.
  - assert (Hz : forall v, U16 v -> Z.testbit v k = false).
    { intros v Hv. refine (proj1 (Z.bounded_iff_bits_nonneg 16 v _ _) _ k _); cbn; lia. }
    by rewrite !Hz.
Qed.

(** Evaluate the bits of literal words. *)
Ltac eval_bits :=
  repeat match goal with
  | |- context [Z.testbit ?m ?k] =>
      let v := eval vm_compute in (Z.testbit m k) in
      lazymatch v with true => idtac | false => idtac end; change (Z.testbit m k) with v
  end;
  rewrite ?andb_false_r, ?andb_true_r, ?orb_false_r, ?orb_false_l.

(** Read a flag back from a word built by [set_mask]: bit [k], whose mask is
    the one tested. *)
Ltac read_flag k :=
  match goal with
  | |- has_mask ?w ?m = _ => etrans; [exact (has_mask_bit w k ltac:(lia))|]
  end;
  rewrite !set_mask_bit; eval_bits.

(** ** Sequential writes and cuts *)

(** [put_at] of the pieces one after another. *)
Fixpoint put_seq (off : nat) (fs : list (list Z)) (dst : list Z) : list Z :=
  match fs with
  | [] => dst
  | f :: fs => put_seq (off + length f) fs (put_at off f dst)
  end.

Lemma put_at_join off f g dst :
  (off + length f + length g <= length dst)%nat ->
  put_at (off + length f) g (put_at off f dst) = put_at off (f ++ g) dst.
Proof.
  intros Hl. unfold put_at. rewrite !(app_assoc (take off dst) f).
  assert (Hp : length (take off dst ++ f) = (off + length f)%nat) by (autorewrite with len; lia).
  rewrite take_app_length', drop_app_ge by lia. rewrite Hp, drop_drop, length_app.
  rewrite <-!app_assoc. do 4 f_equal. lia.
Qed.

Lemma put_seq_spec off fs dst :
  (off + length (concat fs) <= length dst)%nat ->
  put_seq off fs dst = put_at off (concat fs) dst.
Proof.
  revert off dst. induction fs as [|f fs IH]; intros off dst Hl; cbn [put_seq concat].
  - unfold put_at. cbn. by rewrite Nat.add_0_r, take_drop.
  - cbn in Hl. rewrite length_app in Hl.
    rewrite IH by (rewrite length_put_at; lia). by apply put_at_join; lia.
Qed.

(** The pieces of [src] of the given widths, from [i] on. *)
Fixpoint cut (i : nat) (widths : list nat) (src : list Z) : list (list Z) :=
  match widths with
  | [] => []
  | w :: widths => slice i (i + w) src :: cut (i + w) widths src
  end.

Lemma concat_cut i widths src :
  concat (cut i widths src) = slice i (i + foldr Nat.add 0%nat widths) src.
Proof.
  revert i. induction widths as [|w widths IH]; intros i; cbn [cut concat foldr].
  - unfold slice. by rewrite Nat.add_0_r, Nat.sub_diag.
  - rewrite IH, slice_join by lia. by rewrite Nat.add_assoc.
Qed.

Lemma put_at_0_all src dst : length src = length dst -> put_at 0 src dst = src.
Proof. intros E. unfold put_at. cbn. by rewrite drop_ge, app_nil_r by lia. Qed.

(** A tail written behind [off] completes the buffer. *)
Lemma cut_concat fs pre tail :
  cut (length pre) (map length fs) (pre ++ concat fs ++ tail) = fs.
Proof.
  revert pre. induction fs as [|f fs IH]; intros pre; cbn [map cut concat]; [done|]. f_equal.
  - unfold slice. rewrite drop_app_length, <-app_assoc.
    replace (length pre + length f - length pre)%nat with (length f) by lia. by rewrite take_app_length.
  - rewrite <-(length_app pre f). rewrite <-app_assoc, (app_assoc pre f). apply IH.
Qed.

(** Pieces that lie in [src] one after another are cut out again. *)
Lemma cut_at fs off src :
  (off + length (concat fs) <= length src)%nat ->
  slice off (off + length (concat fs)) src = concat fs -> cut off (map length fs) src = fs.
Proof.
  intros Hl E. pose proof (cut_concat fs (take off src) (drop (off + length (concat fs)) src)) as Hc.
  rewrite length_take, Nat.min_l in Hc by lia.
  replace (take off src ++ concat fs ++ drop (off + length (concat fs)) src) with src in Hc; [done|].
  rewrite <-E at 1. unfold slice. replace (off + length (concat fs) - off)%nat with (length (concat fs)) by lia.
  by rewrite <-drop_drop, take_drop, take_drop.
Qed.

(** ** Strict codecs *)

(** [typed] is the range of the value's Go type, [valid] what the validator
    accepts, [image] the encoding. *)
Class StrictCodec {E A : Type} (size : nat) (typed valid : A -> Prop) (image : A -> list Z)
    (encode : list Z -> A -> result E (list Z)) (decode : list Z -> result E A) : Prop := {
  sc_encode dst v out :
    typed v -> (encode dst v = Ok out <-> length dst = size /\ valid v /\ out = image v);
  sc_decode src v :
    bytes_ok src -> (decode src = Ok v <-> typed v /\ valid v /\ src = image v);
  sc_bytes v : typed v -> valid v -> length (image v) = size /\ bytes_ok (image v);
}.

Section Strict.
Context {E A : Type} {size : nat} {typed valid : A -> Prop} {image : A -> list Z}
  {encode : list Z -> A -> result E (list Z)} {decode : list Z -> result E A}
  `{!StrictCodec size typed valid image encode decode}.

(** What was encoded decodes to itself. *)
Lemma decode_encode dst v out : typed v -> encode dst v = Ok out -> decode out = Ok v.
Proof using All.
  intros Ht (Hl & Hv & ->)%sc_encode; [|done]. apply sc_decode; [|done]. by apply sc_bytes.
Qed.

(** A message that decodes is the one encoding of its value. *)
Lemma encode_decode dst src v :
  bytes_ok src -> decode src = Ok v -> length dst = size -> encode dst v = Ok src.
Proof using All.
  intros Hb (Ht & Hv & ->)%sc_decode Hl; [|done]. by apply sc_encode.
Qed.

Lemma decode_inj src1 src2 v :
  bytes_ok src1 -> bytes_ok src2 -> decode src1 = Ok v -> decode src2 = Ok v -> src1 = src2.
Proof using All. intros H1 H2 (_ & _ & ->)%sc_decode (_ & _ & ->)%sc_decode; done. Qed.

Lemma decode_size src v : bytes_ok src -> decode src = Ok v -> length src = size.
Proof using All. intros H (Ht & Hv & ->)%sc_decode; [|done]. by apply sc_bytes. Qed.
End Strict.

(** A decoder is strict when it inverts the image on valid values and what it
    accepts re-encodes to its input. *)
Lemma decode_exact {E A} (typed valid : A -> Prop) (image : A -> list Z) (decode : list Z -> result E A) :
  (forall v, typed v -> valid v -> decode (image v) = Ok v) ->
  (forall src v, bytes_ok src -> decode src = Ok v -> typed v /\ valid v /\ src = image v) ->
  forall src v, bytes_ok src -> (decode src = Ok v <-> typed v /\ valid v /\ src = image v).
Proof. intros H1 H2 src v Hb. split; [by apply H2|]. intros (Ht & Hv & ->). by apply H1. Qed.
