(* ===== verification/UdeCx.v ===== *)
(** * The native transport's wire protocol (src/internal/transport/udecx/protocol.go)

    The service talks to its kernel driver in fixed little-endian messages:
    negotiation, device creation, dequeued operations, completions, input
    reports, statistics and lifecycle traces.  Serializers write through the
    slice they are given, so a reused buffer keeps what they do not overwrite. *)

From S2P Require Import Prelude Bytes Codec.

Module Udecx.

(** ** Constants *)

Definition Magic : Z := 0x45445556.
Definition ABIMajor : Z := 1.
Definition ABIMinor : Z := 14.
Definition BuildIdentitySize : Z := 32.
Definition HeaderSize : Z := 16.
Definition NegotiateRequestSize : Z := 32.
Definition NegotiateResponseSize : Z := 88.
Definition DescriptorRecordSize : Z := 16.
Definition CreateDeviceSize : Z := 56.
Definition CreateDeviceResultSize : Z := 40.
Definition DeviceIdentitySize : Z := 32.
Definition IsoPacketSize : Z := 16.
Definition OperationSize : Z := 108.
Definition CompletionSize : Z := 72.
Definition InputReportSize : Z := 52.
Definition StatsSize : Z := 152.
Definition LifecycleTraceRecordSize : Z := 80.
Definition LifecycleTraceSize : Z := 41008.
Definition LifecycleTraceCapacity : Z := 512.
Definition MaxDevices : Z := 32.
Definition MaxDescriptorBytes : Z := 256 * 1024.
Definition MaxTransferBytes : Z := 1024 * 1024.
Definition MaxIsoPackets : Z := 1024.
Definition MaxInputReportBytes : Z := 4096.
Definition MaxPendingOperations : Z := 4096.
Definition ManagementSlotFlag : Z := 0x80000000.
Definition InputReportTransition : Z := 1.
Definition AdvertisedCapabilities : Z := 0x3d.
Definition lifecycleTraceStatusValidMask : Z := 3.
Definition MaxUint32 : Z := 4294967295.
Definition MaxInt64 : Z := 9223372036854775807.

(** The sentinel errors; the text they are wrapped in is not modelled. *)
Inductive ude_err :=
| ErrShortMessage
| ErrBadMagic
| ErrIncompatibleMajor
| ErrIncompatibleMinor
| ErrIncompatibleABI
| ErrInvalidSize
| ErrInvalidRange
| ErrLimitExceeded
| ErrBuildIdentity
| ErrCapabilities.
Abbreviation res A := (result ude_err A).

Definition len (l : list Z) : Z := Z.of_nat (length l).

(** ** Ranges *)

(** The difference is taken only when it does not wrap. *)
Definition validRange (offset length total : Z) : bool :=
  (offset <=? total) && (length <=? u32 (total - offset)).

Definition validArrayRange (offset count elementSize total : Z) : bool :=
  if negb (count =? 0) && (MaxUint32 / count <? elementSize) then false
  else validRange offset (u32 (count * elementSize)) total.

(** ** Headers *)

Record Header := {
  h_Magic : Z;
  h_Major : Z;
  h_Minor : Z;
  h_Size : Z;
  h_Flags : Z;
}.

Definition NewHeader (size : Z) : res Header :=
  if (size <? HeaderSize) || (MaxUint32 <? size) then Err ErrInvalidSize
  else Ok {| h_Magic := Magic; h_Major := ABIMajor; h_Minor := ABIMinor; h_Size := size; h_Flags := 0 |}.

Definition le16 (src : list Z) (i : nat) : Z := le_val (slice i (i + 2) src).
Definition le32 (src : list Z) (i : nat) : Z := le_val (slice i (i + 4) src).
Definition le64 (src : list Z) (i : nat) : Z := le_val (slice i (i + 8) src).

Definition ParseHeader (src : list Z) : res Header :=
  if len src <? HeaderSize then Err ErrShortMessage
  else
    let h := {| h_Magic := le32 src 0; h_Major := le16 src 4; h_Minor := le16 src 6;
                h_Size := le32 src 8; h_Flags := le32 src 12 |} in
    if negb (h_Magic h =? Magic) then Err ErrBadMagic
    else if negb (h_Major h =? ABIMajor) then Err ErrIncompatibleMajor
    else if negb (h_Minor h =? ABIMinor) then Err ErrIncompatibleMinor
    else if negb (h_Flags h =? 0) then Err ErrInvalidRange
    else if (h_Size h <? HeaderSize) || (len src <? h_Size h) then Err ErrInvalidSize
    else Ok h.

Definition putHeader (h : Header) (dst : list Z) : list Z :=
  let dst := put_at 0 (le_bytes 4 (h_Magic h)) dst in
  let dst := put_at 4 (le_bytes 2 (h_Major h)) dst in
  let dst := put_at 6 (le_bytes 2 (h_Minor h)) dst in
  let dst := put_at 8 (le_bytes 4 (h_Size h)) dst in
  put_at 12 (le_bytes 4 (h_Flags h)) dst.

(** ** Negotiation *)

Record NegotiateRequest := {
  nq_ClientNonce : Z;
  nq_RequestedCapabilities : Z;
}.

Definition NegotiateRequest_MarshalBinary (m : NegotiateRequest) : res (list Z) :=
  if nq_ClientNonce m =? 0 then Err ErrInvalidRange
  else if negb (nq_RequestedCapabilities m =? AdvertisedCapabilities) then Err ErrCapabilities
  else
    let? h := NewHeader NegotiateRequestSize in
    let dst := putHeader h (zeros 32) in
    let dst := put_at 16 (le_bytes 8 (nq_ClientNonce m)) dst in
    Ok (put_at 24 (le_bytes 4 (nq_RequestedCapabilities m)) dst).

Record NegotiateResponse := {
  nr_ClientNonce : Z;
  nr_DriverNonce : Z;
  nr_Capabilities : Z;
  nr_MaxDevices : Z;
  nr_MaxDescriptorBytes : Z;
  nr_MaxTransferBytes : Z;
  nr_MaxIsoPackets : Z;
  nr_MaxPendingOperations : Z;
  nr_BuildIdentity : list Z;
}.

Definition ParseNegotiateResponse (src : list Z) : res NegotiateResponse :=
  let? h := ParseHeader src in
  if negb (h_Size h =? NegotiateResponseSize) || negb (len src =? NegotiateResponseSize)
  then Err ErrInvalidSize
  else Ok {|
    nr_ClientNonce := le64 src 16; nr_DriverNonce := le64 src 24; nr_Capabilities := le32 src 32;
    nr_MaxDevices := le32 src 36; nr_MaxDescriptorBytes := le32 src 40;
    nr_MaxTransferBytes := le32 src 44; nr_MaxIsoPackets := le32 src 48;
    nr_MaxPendingOperations := le32 src 52; nr_BuildIdentity := slice 56 88 src |}.

(** [None] is a nil error. *)
Definition ValidateNegotiation (r : NegotiateResponse) (clientNonce : Z) (expected : list Z) :
    option ude_err :=
  if (clientNonce =? 0) || negb (nr_ClientNonce r =? clientNonce) || (nr_DriverNonce r =? 0)
  then Some ErrInvalidRange
  else if negb (nr_Capabilities r =? AdvertisedCapabilities) then Some ErrCapabilities
  else if bool_decide (expected = zeros 32) then Some ErrBuildIdentity
  else if negb (bool_decide (nr_BuildIdentity r = expected)) then Some ErrIncompatibleABI
  else if (nr_MaxDevices r =? 0) || (nr_MaxDescriptorBytes r =? 0) || (nr_MaxTransferBytes r =? 0) ||
     (nr_MaxIsoPackets r =? 0) || (nr_MaxPendingOperations r =? 0) then Some ErrInvalidRange
  else if (MaxDevices <? nr_MaxDevices r) || (MaxDescriptorBytes <? nr_MaxDescriptorBytes r) ||
     (MaxTransferBytes <? nr_MaxTransferBytes r) || (MaxIsoPackets <? nr_MaxIsoPackets r) ||
     (MaxPendingOperations <? nr_MaxPendingOperations r) then Some ErrLimitExceeded
  else None.

(** ** Devices *)

Record DescriptorRecord := {
  dr_Kind : Z;
  dr_Index : Z;
  dr_LanguageID : Z;
  dr_Offset : Z;
  dr_Length : Z;
}.

Definition DeviceSpeedLow : Z := 1.
Definition DeviceSpeedFull : Z := 2.
Definition DeviceSpeedHigh : Z := 3.
Definition DeviceSpeedSuper : Z := 4.

Record CreateDeviceResult := {
  cr_DeviceID : Z;
  cr_Generation : Z;
  cr_Speed : Z;
  cr_USB20PortNumber : Z;
  cr_USB30PortNumber : Z;
}.

Definition ParseCreateDeviceResult (src : list Z) : res CreateDeviceResult :=
  let? h := ParseHeader src in
  if negb (h_Size h =? CreateDeviceResultSize) || negb (len src =? CreateDeviceResultSize)
  then Err ErrInvalidSize
  else
    let r := {| cr_DeviceID := le64 src 16; cr_Generation := le32 src 24; cr_Speed := le32 src 28;
                cr_USB20PortNumber := le32 src 32; cr_USB30PortNumber := le32 src 36 |} in
    if (cr_DeviceID r =? 0) || (cr_Generation r =? 0) || (cr_Speed r <? DeviceSpeedLow) ||
       (DeviceSpeedSuper <? cr_Speed r) ||
       Bool.eqb (cr_USB20PortNumber r =? 0) (cr_USB30PortNumber r =? 0)
    then Err ErrInvalidRange
    else if cr_Speed r =? DeviceSpeedSuper then
      if negb (cr_USB20PortNumber r =? 0) || (cr_USB30PortNumber r <=? MaxDevices) ||
         (2 * MaxDevices <? cr_USB30PortNumber r)
      then Err ErrInvalidRange else Ok r
    else if negb (cr_USB30PortNumber r =? 0) || (MaxDevices <? cr_USB20PortNumber r)
    then Err ErrInvalidRange else Ok r.

Record DeviceIdentity := {
  di_DeviceID : Z;
  di_Generation : Z;
}.

Definition DeviceIdentity_MarshalBinary (m : DeviceIdentity) : res (list Z) :=
  if (di_DeviceID m =? 0) || (di_Generation m =? 0) then Err ErrInvalidRange
  else
    let? h := NewHeader DeviceIdentitySize in
    let dst := putHeader h (zeros 32) in
    let dst := put_at 16 (le_bytes 8 (di_DeviceID m)) dst in
    Ok (put_at 24 (le_bytes 4 (di_Generation m)) dst).

Record CreateDevice := {
  cd_DeviceID : Z;
  cd_Generation : Z;
  cd_Speed : Z;
  cd_MaxPendingOperations : Z;
  cd_Descriptors : list DescriptorRecord;
  cd_DescriptorData : list Z;
}.

(** The loop over the descriptor records; [off] is the record's offset. *)
Fixpoint put_records (records : list DescriptorRecord) (total : Z) (off : nat) (dst : list Z) :
    res (list Z) :=
  match records with
  | [] => Ok dst
  | r :: records =>
      if negb (validRange (dr_Offset r) (dr_Length r) total) then Err ErrInvalidRange
      else
        let dst := put_at off (le_bytes 2 (dr_Kind r)) dst in
        let dst := put_at (off + 2) (le_bytes 2 (dr_Index r)) dst in
        let dst := put_at (off + 4) (le_bytes 2 (dr_LanguageID r)) dst in
        let dst := put_at (off + 8) (le_bytes 4 (dr_Offset r)) dst in
        let dst := put_at (off + 12) (le_bytes 4 (dr_Length r)) dst in
        put_records records total (off + 16) dst
  end.

Definition CreateDevice_MarshalBinary (m : CreateDevice) : res (list Z) :=
  let n := Z.of_nat (length (cd_Descriptors m)) in
  let d := len (cd_DescriptorData m) in
  if (cd_DeviceID m =? 0) || (cd_Generation m =? 0) then Err ErrInvalidRange
  else if (n =? 0) || (d =? 0) then Err ErrInvalidRange
  else if (MaxDescriptorBytes <? d) || (MaxDescriptorBytes / DescriptorRecordSize <? n)
  then Err ErrLimitExceeded
  else
    let recordBytes := n * DescriptorRecordSize in
    let total := CreateDeviceSize + recordBytes + d in
    if MaxUint32 <? total then Err ErrLimitExceeded
    else
      let? h := NewHeader total in
      let dst := putHeader h (zeros (Z.to_nat total)) in
      let dst := put_at 16 (le_bytes 8 (cd_DeviceID m)) dst in
      let dst := put_at 24 (le_bytes 4 (cd_Generation m)) dst in
      let dst := put_at 28 (le_bytes 4 (cd_Speed m)) dst in
      let dst := put_at 32 (le_bytes 4 n) dst in
      let dst := put_at 36 (le_bytes 4 CreateDeviceSize) dst in
      let dst := put_at 40 (le_bytes 4 (CreateDeviceSize + recordBytes)) dst in
      let dst := put_at 44 (le_bytes 4 d) dst in
      let dst := put_at 48 (le_bytes 4 (cd_MaxPendingOperations m)) dst in
      let? dst := put_records (cd_Descriptors m) d 56 dst in
      Ok (put_at (Z.to_nat (CreateDeviceSize + recordBytes)) (cd_DescriptorData m) dst).

(** ** Operations *)

Definition OperationControl : Z := 1.
Definition OperationTransfer : Z := 2.
Definition OperationEndpointStart : Z := 3.
Definition OperationEndpointPurge : Z := 4.
Definition OperationEndpointReset : Z := 5.
Definition OperationDeviceReset : Z := 6.
Definition OperationSetInterface : Z := 7.
Definition OperationDeviceD0Entry : Z := 8.
Definition OperationDeviceD0Exit : Z := 9.
Definition OperationCancel : Z := 10.
Definition OperationBrokerFault : Z := 11.

Record IsoPacket := {
  ip_Offset : Z;
  ip_Length : Z;
  ip_Status : Z;
}.

Record Operation := {
  op_Token : Z;
  op_DeviceID : Z;
  op_Generation : Z;
  op_Kind : Z;
  op_EndpointAddress : Z;
  op_Direction : Z;
  op_InterfaceNumber : Z;
  op_InterfaceSetting : Z;
  op_EndpointAttributes : Z;
  op_EndpointInterval : Z;
  op_EndpointMaxPacketSize : Z;
  op_URBFunction : Z;
  op_TransferFlags : Z;
  op_StartFrame : Z;
  op_TransferLength : Z;
  op_SetupPacket : list Z;
  op_IsoPackets : list IsoPacket;
  op_Payload : list Z;
  op_EndpointSequence : Z;
  op_DeviceSequence : Z;
  op_EndpointGeneration : Z;
}.

Definition operationUsesEndpointGeneration (kind : Z) : bool :=
  (kind =? OperationControl) || (kind =? OperationTransfer) || (kind =? OperationEndpointStart) ||
  (kind =? OperationEndpointPurge) || (kind =? OperationEndpointReset) || (kind =? OperationCancel).

Definition isManagementToken (token : Z) : bool := negb (Z.land (u32 token) ManagementSlotFlag =? 0).

Definition operationRequiresEndpointGeneration (op : Operation) : bool :=
  if op_Kind op =? OperationCancel then negb (isManagementToken (op_Token op))
  else operationUsesEndpointGeneration (op_Kind op).

(** [true] is a nil error; every failure is [ErrInvalidRange]. *)
Definition validateOperationIdentity (op : Operation) : bool :=
  if (op_Kind op <? OperationControl) || (OperationBrokerFault <? op_Kind op) then false
  else if op_Kind op =? OperationBrokerFault then
    negb (negb (op_Token op =? 0) || negb (op_DeviceID op =? 0) || negb (op_Generation op =? 0) ||
          negb (op_EndpointGeneration op =? 0))
  else if (op_DeviceID op =? 0) || (op_Generation op =? 0) then false
  else if (op_Kind op =? OperationCancel) && (op_Token op =? 0) then false
  else if operationRequiresEndpointGeneration op then negb (op_EndpointGeneration op =? 0)
  else negb (negb (op_Kind op =? OperationCancel) && negb (op_EndpointGeneration op =? 0)).

(** [n] ISO packets from [off] on. *)
Fixpoint parse_iso (src : list Z) (transferLength : Z) (n off : nat) : res (list IsoPacket) :=
  match n with
  | O => Ok []
  | S n =>
      let packet := {| ip_Offset := le32 src off; ip_Length := le32 src (off + 4);
                       ip_Status := i32 (le32 src (off + 8)) |} in
      if negb (le32 src (off + 12) =? 0) ||
         negb (validRange (ip_Offset packet) (ip_Length packet) transferLength)
      then Err ErrInvalidRange
      else
        let? packets := parse_iso src transferLength n (off + 16) in
        Ok (packet :: packets)
  end.

Definition ParseOperation (src : list Z) : res Operation :=
  let? h := ParseHeader src in
  if (h_Size h <? OperationSize) ||
     (MaxTransferBytes + OperationSize + MaxIsoPackets * IsoPacketSize <? h_Size h)
  then Err ErrInvalidSize
  else if negb (h_Size h =? len src) then Err ErrInvalidSize
  else
    let packetCount := le32 src 56 in
    let transferLength := le32 src 60 in
    let payloadOffset := le32 src 64 in
    let payloadLength := le32 src 68 in
    let isoOffset := le32 src 72 in
    if (MaxIsoPackets <? packetCount) || (MaxTransferBytes <? transferLength) ||
       (MaxTransferBytes <? payloadLength)
    then Err ErrLimitExceeded
    else
      let isoBytes := u32 (packetCount * IsoPacketSize) in
      let expectedPayloadOffset := u32 (OperationSize + isoBytes) in
      if negb (isoOffset =? OperationSize) || negb (payloadOffset =? expectedPayloadOffset) ||
         negb (expectedPayloadOffset + payloadLength =? h_Size h) ||
         negb (validArrayRange isoOffset packetCount IsoPacketSize (h_Size h)) ||
         negb (validRange payloadOffset payloadLength (h_Size h))
      then Err ErrInvalidRange
      else
        let? packets := parse_iso src transferLength (Z.to_nat packetCount) (Z.to_nat isoOffset) in
        let op := {|
          op_Token := le64 src 16; op_DeviceID := le64 src 24; op_Generation := le32 src 32;
          op_Kind := le32 src 36; op_EndpointAddress := byte_at src 40; op_Direction := byte_at src 41;
          op_InterfaceNumber := byte_at src 42; op_InterfaceSetting := byte_at src 43;
          op_EndpointAttributes := byte_at src 84; op_EndpointInterval := byte_at src 85;
          op_EndpointMaxPacketSize := le16 src 86; op_URBFunction := le32 src 44;
          op_TransferFlags := le32 src 48; op_StartFrame := le32 src 52;
          op_TransferLength := transferLength; op_SetupPacket := slice 76 84 src;
          op_IsoPackets := packets;
          op_Payload := slice (Z.to_nat payloadOffset) (Z.to_nat (u32 (payloadOffset + payloadLength))) src;
          op_EndpointSequence := le64 src 88; op_DeviceSequence := le64 src 96;
          op_EndpointGeneration := le32 src 104 |} in
        if validateOperationIdentity op then Ok op else Err ErrInvalidRange.

Definition ParseDequeuedOperation (buffer : list Z) (bytesReturned : Z) : res Operation :=
  if (bytesReturned <? OperationSize) || (len buffer <? bytesReturned) then Err ErrInvalidSize
  else if negb (le32 buffer 8 =? bytesReturned) then Err ErrInvalidSize
  else ParseOperation (slice 0 (Z.to_nat bytesReturned) buffer).

(** ** Completions *)

Record Completion := {
  co_Token : Z;
  co_DeviceID : Z;
  co_Generation : Z;
  co_EndpointGeneration : Z;
  co_Status : Z;
  co_USBDStatus : Z;
  co_TransferLength : Z;
  co_IsoPackets : list IsoPacket;
  co_Payload : list Z;
}.

(** The transfer length on the wire, the bytes of the ISO packets and the total. *)
Definition wireLayout (m : Completion) : res (Z * Z * Z) :=
  let n := Z.of_nat (length (co_IsoPackets m)) in
  let p := len (co_Payload m) in
  if (co_Token m =? 0) || (co_DeviceID m =? 0) || (co_Generation m =? 0) then Err ErrInvalidRange
  else if negb (isManagementToken (co_Token m)) && (co_EndpointGeneration m =? 0)
  then Err ErrInvalidRange
  else if (MaxTransferBytes <? p) || (MaxIsoPackets <? n) then Err ErrLimitExceeded
  else
    let transferLength :=
      if (co_TransferLength m =? 0) && negb (p =? 0) && (n =? 0) then u32 p else co_TransferLength m in
    if MaxTransferBytes <? transferLength then Err ErrLimitExceeded
    else
      let isoBytes := n * IsoPacketSize in
      let total := CompletionSize + isoBytes + p in
      let? _ := NewHeader total in
      Ok (transferLength, isoBytes, total).

Fixpoint put_iso (packets : list IsoPacket) (off : nat) (dst : list Z) : list Z :=
  match packets with
  | [] => dst
  | p :: packets =>
      let dst := put_at off (le_bytes 4 (ip_Offset p)) dst in
      let dst := put_at (off + 4) (le_bytes 4 (ip_Length p)) dst in
      let dst := put_at (off + 8) (le_bytes 4 (u32 (ip_Status p))) dst in
      let dst := put_at (off + 12) (le_bytes 4 0) dst in
      put_iso packets (off + 16) dst
  end.

(** The writes of marshalBinaryInto, for the layout it computed. *)
Definition put_completion (m : Completion) (transferLength isoBytes : Z) (h : Header) (dst : list Z) :
    list Z :=
  let dst := putHeader h dst in
  let dst := put_at 16 (le_bytes 8 (co_Token m)) dst in
  let dst := put_at 24 (le_bytes 8 (co_DeviceID m)) dst in
  let dst := put_at 32 (le_bytes 4 (co_Generation m)) dst in
  let dst := put_at 36 (le_bytes 4 (u32 (co_Status m))) dst in
  let dst := put_at 40 (le_bytes 4 (co_USBDStatus m)) dst in
  let dst := put_at 44 (le_bytes 4 transferLength) dst in
  let dst := put_at 48 (le_bytes 4 (Z.of_nat (length (co_IsoPackets m)))) dst in
  let dst := put_at 52 (le_bytes 4 (CompletionSize + isoBytes)) dst in
  let dst := put_at 56 (le_bytes 4 (len (co_Payload m))) dst in
  let dst := put_at 60 (le_bytes 4 CompletionSize) dst in
  let dst := put_at 64 (le_bytes 4 (co_EndpointGeneration m)) dst in
  let dst := put_at 68 (zeros 4) dst in
  let dst := put_iso (co_IsoPackets m) 72 dst in
  put_at (Z.to_nat (CompletionSize + isoBytes)) (co_Payload m) dst.

Definition marshalBinaryInto (m : Completion) (dst : list Z) : res (list Z) :=
  let? layout := wireLayout m in
  let '(transferLength, isoBytes, total) := layout in
  if negb (len dst =? total) then Err ErrInvalidSize
  else
    let? h := NewHeader total in
    Ok (put_completion m transferLength isoBytes h dst).

Definition Completion_MarshalBinary (m : Completion) : res (list Z) :=
  let? layout := wireLayout m in
  let '(_, _, total) := layout in
  marshalBinaryInto m (zeros (Z.to_nat total)).

(** ** Input reports *)

Record InputReport := {
  ir_DeviceID : Z;
  ir_Generation : Z;
  ir_EndpointGeneration : Z;
  ir_EndpointAddress : Z;
  ir_Transition : bool;
  ir_Sequence : Z;
  ir_Payload : list Z;
}.

Definition marshalMetadata (m : InputReport) (dst : list Z) : res (list Z) :=
  if (ir_DeviceID m =? 0) || (ir_Generation m =? 0) || (ir_EndpointGeneration m =? 0) ||
     (Z.land (ir_EndpointAddress m) 0x80 =? 0) || (ir_Sequence m =? 0) || (MaxInt64 <? ir_Sequence m)
  then Err ErrInvalidRange
  else if (len (ir_Payload m) =? 0) || (MaxInputReportBytes <? len (ir_Payload m))
  then Err ErrLimitExceeded
  else
    let? h := NewHeader (InputReportSize + len (ir_Payload m)) in
    if negb (len dst =? InputReportSize) then Err ErrInvalidSize
    else
      let dst := putHeader h dst in
      let dst := put_at 16 (le_bytes 8 (ir_DeviceID m)) dst in
      let dst := put_at 24 (le_bytes 4 (ir_Generation m)) dst in
      let dst := put_at 28 [ir_EndpointAddress m] dst in
      let dst := put_at 29 [0; 0; 0] dst in
      let dst := if ir_Transition m then put_at 29 [InputReportTransition] dst else dst in
      let dst := put_at 32 (le_bytes 4 InputReportSize) dst in
      let dst := put_at 36 (le_bytes 4 (len (ir_Payload m))) dst in
      let dst := put_at 40 (le_bytes 8 (ir_Sequence m)) dst in
      Ok (put_at 48 (le_bytes 4 (ir_EndpointGeneration m)) dst).

Definition InputReport_MarshalBinary (m : InputReport) : res (list Z) :=
  let? metadata := marshalMetadata m (zeros 52) in
  let dst := zeros (52 + length (ir_Payload m)) in
  let dst := put_at 0 metadata dst in
  Ok (put_at 52 (ir_Payload m) dst).

(** ** Statistics and traces *)

Record Stats := {
  ss_OperationsDequeued : Z;
  ss_OperationsCompleted : Z;
  ss_OperationsCancelled : Z;
  ss_OperationsPurged : Z;
  ss_LateCompletions : Z;
  ss_InvalidMessages : Z;
  ss_QueueExhaustions : Z;
  ss_IsoPackets : Z;
  ss_BytesToDevice : Z;
  ss_BytesFromDevice : Z;
  ss_NotificationEvents : Z;
  ss_NotificationEventOverflows : Z;
  ss_ActiveDevices : Z;
  ss_PendingOperations : Z;
  ss_WaitingDequeues : Z;
  ss_CleanupRetries : Z;
  ss_InputReportsSubmitted : Z;
  ss_InputReportsCompleted : Z;
  ss_ReservedPorts : Z;
}.

Definition ParseStats (src : list Z) : res Stats :=
  let? h := ParseHeader src in
  if negb (h_Size h =? StatsSize) || negb (len src =? StatsSize) then Err ErrInvalidSize
  else if (MaxDevices <? le32 src 144) || negb (le32 src 148 =? 0) then Err ErrInvalidRange
  else Ok {|
    ss_OperationsDequeued := le64 src 16; ss_OperationsCompleted := le64 src 24;
    ss_OperationsCancelled := le64 src 32; ss_OperationsPurged := le64 src 40;
    ss_LateCompletions := le64 src 48; ss_InvalidMessages := le64 src 56; ss_QueueExhaustions :=
    le64 src 64; ss_IsoPackets := le64 src 72; ss_BytesToDevice := le64 src 80;
    ss_BytesFromDevice := le64 src 88; ss_NotificationEvents := le64 src 96;
    ss_NotificationEventOverflows := le64 src 104;
    ss_ActiveDevices := le32 src 112; ss_PendingOperations := le32 src 116;
    ss_WaitingDequeues := le32 src 120; ss_CleanupRetries := le32 src 124;
    ss_InputReportsSubmitted := le64 src 128; ss_InputReportsCompleted := le64 src 136;
    ss_ReservedPorts := le32 src 144 |}.

Record LifecycleTraceRecord := {
  lt_PublishedSequence : Z;
  lt_TimestampQPC : Z;
  lt_Caller : Z;
  lt_DeviceID : Z;
  lt_DeviceObject : Z;
  lt_EndpointObject : Z;
  lt_Generation : Z;
  lt_Line : Z;
  lt_Status : Z;
  lt_ActiveOperations : Z;
  lt_PendingOperations : Z;
  lt_QueueState : Z;
  lt_Event : Z;
  lt_Processor : Z;
  lt_Source : Z;
  lt_IRQL : Z;
  lt_EndpointAddress : Z;
}.

Definition trace_record (record : list Z) : LifecycleTraceRecord := {|
  lt_PublishedSequence := le64 record 0; lt_TimestampQPC := le64 record 8;
  lt_Caller := le64 record 16; lt_DeviceID := le64 record 24; lt_DeviceObject := le64 record 32;
  lt_EndpointObject := le64 record 40; lt_Generation := le32 record 48; lt_Line := le32 record 52;
  lt_Status := i32 (le32 record 56); lt_ActiveOperations := i32 (le32 record 60);
  lt_PendingOperations := i32 (le32 record 64); lt_QueueState := le32 record 68;
  lt_Event := le16 record 72; lt_Processor := le16 record 74; lt_Source := byte_at record 76;
  lt_IRQL := byte_at record 77; lt_EndpointAddress := byte_at record 78 |}.

Record LifecycleTrace := {
  lt_LatestSequence : Z;
  lt_PerformanceFrequency : Z;
  lt_StatusFlags : Z;
  lt_Records : list LifecycleTraceRecord;
}.

Definition ParseLifecycleTrace (src : list Z) : res LifecycleTrace :=
  let? h := ParseHeader src in
  if negb (h_Size h =? LifecycleTraceSize) || negb (len src =? LifecycleTraceSize) ||
     negb (le32 src 36 =? LifecycleTraceRecordSize) || negb (le32 src 40 =? LifecycleTraceCapacity)
  then Err ErrInvalidSize
  else if negb (Z.ldiff (le32 src 44) lifecycleTraceStatusValidMask =? 0) then Err ErrInvalidRange
  else
    let recordCount := le32 src 32 in
    if LifecycleTraceCapacity <? recordCount then Err ErrInvalidRange
    else Ok {|
      lt_LatestSequence := le64 src 16; lt_PerformanceFrequency := le64 src 24;
      lt_StatusFlags := le32 src 44;
      lt_Records := map (fun index => trace_record (slice (48 + index * 80) (48 + index * 80 + 80) src))
                      (seq 0 (Z.to_nat recordCount)) |}.

(** ** Identities *)

(** Text is its bytes.  The two text functions below agree with
    strings.TrimSpace and strings.ToLower on ASCII; a revision with any other
    byte is no hexadecimal number and refused either way. *)
Definition is_space (c : Z) : bool := (c =? 32) || ((9 <=? c) && (c <=? 13)).
Definition lower (c : Z) : Z := if (65 <=? c) && (c <=? 90) then c + 32 else c.
Definition is_digit (c : Z) : bool := (48 <=? c) && (c <=? 57).
Definition is_hex (c : Z) : bool := is_digit c || ((97 <=? c) && (c <=? 102)) || ((65 <=? c) && (c <=? 70)).

Definition trimmed (s : list Z) : bool :=
  negb (match s with c :: _ => is_space c | [] => false end) &&
  negb (match reverse s with c :: _ => is_space c | [] => false end).

(** strings.Split(s, ".") *)
Fixpoint split_on (sep : Z) (s acc : list Z) : list (list Z) :=
  match s with
  | [] => [acc]
  | c :: s => if c =? sep then acc :: split_on sep s [] else split_on sep s (acc ++ [c])
  end.

(** [%08x] of a uint32: eight digits. *)
Definition hex_digit (d : Z) : Z := if d <? 10 then 48 + d else 87 + d.
Definition hex8 (v : Z) : list Z :=
  map (fun k => hex_digit (Z.land (Z.shiftr v (4 * k)) 15)) [7; 6; 5; 4; 3; 2; 1; 0].

Definition newline : list Z := [10].

Definition preimage (revision version : list Z) (major minor capabilities : Z) : list Z :=
  bytes_of_string "VIIPER-UDE-BUILD-IDENTITY/v1" ++ newline ++
  bytes_of_string "sourceRevision=" ++ revision ++ newline ++
  bytes_of_string "driverPackageVersion=" ++ version ++ newline ++
  bytes_of_string "abi=" ++ sprint_d major ++ [46] ++ sprint_d minor ++ newline ++
  bytes_of_string "capabilities=0x" ++ hex8 capabilities ++ newline.

Section Identity.
Context (sha256 : list Z -> list Z).

Definition DeriveBuildIdentity (sourceRevision driverPackageVersion : list Z)
    (abiMajor abiMinor capabilities : Z) : res (list Z) :=
  if negb (trimmed sourceRevision) then Err ErrBuildIdentity
  else
    let revision := map lower sourceRevision in
    if negb (len revision =? 40) && negb (len revision =? 64) then Err ErrBuildIdentity
    else if negb (forallb is_hex revision) then Err ErrBuildIdentity
    else
      let versionParts := split_on 46 driverPackageVersion [] in
      if negb (length versionParts =? 4)%nat then Err ErrBuildIdentity
      else if negb (forallb (fun part => negb (len part =? 0) && forallb is_digit part) versionParts)
      then Err ErrBuildIdentity
      else if (abiMajor =? 0) || (capabilities =? 0) then Err ErrBuildIdentity
      else Ok (sha256 (preimage revision driverPackageVersion abiMajor abiMinor capabilities)).

Definition DriverPackageVersion : list Z := bytes_of_string "0.1.0.38".

(** [nativeSourceRevision] is injected by the linker. *)
Definition ExpectedBuildIdentity (nativeSourceRevision : list Z) : res (list Z) :=
  if forallb is_space nativeSourceRevision then Err ErrBuildIdentity
  else DeriveBuildIdentity nativeSourceRevision DriverPackageVersion ABIMajor ABIMinor AdvertisedCapabilities.
End Identity.

Definition BuildIdentityHex (identity : list Z) : list Z :=
  flat_map (fun b => [hex_digit (b / 16); hex_digit (b mod 16)]) identity.

Definition instance_prefix : list Z := bytes_of_string "ROOT\VIIPERUDE\".

Definition IsCanonicalControllerInstanceID (value : list Z) : bool :=
  if negb (length value =? length instance_prefix + 4)%nat ||
     negb (bool_decide (map lower (take (length instance_prefix) value) = map lower instance_prefix))
  then false
  else forallb is_digit (drop (length instance_prefix) value).

Definition IsCanonicalControllerSessionID (value : list Z) : bool :=
  match parse_uint 18446744073709551615 value with
  | Err _ => false
  | Ok parsed => negb (parsed =? 0) && bool_decide (sprint_d parsed = value)
  end.


(** ** Headers on the wire *)

Definition header_bytes (size : Z) : list Z :=
  le_bytes 4 Magic ++ le_bytes 2 ABIMajor ++ le_bytes 2 ABIMinor ++ le_bytes 4 size ++ le_bytes 4 0.

Lemma length_header size : length (header_bytes size) = 16%nat.
Proof. unfold header_bytes. by autorewrite with len. Qed.

Lemma NewHeader_ok size h : NewHeader size = Ok h ->
  16 <= size <= MaxUint32 /\
  h = {| h_Magic := Magic; h_Major := ABIMajor; h_Minor := ABIMinor; h_Size := size; h_Flags := 0 |}.
Proof. unfold NewHeader, HeaderSize. case_if; [done|]. intros [= <-]. bool_prop. split; [lia|done]. Qed.

Section Read.
Context (src : list Z) (Hok : bytes_ok src).

Lemma le16_range i : (i + 2 <= length src)%nat -> U16 (le16 src i).
Proof using Hok.
  intros Hi. pose proof (le_val_slice_range i (i + 2) src Hok ltac:(lia)) as Hr.
  replace (i + 2 - i)%nat with 2%nat in Hr by lia. exact Hr.
Qed.
Lemma le32_range i : (i + 4 <= length src)%nat -> U32 (le32 src i).
Proof using Hok.
  intros Hi. pose proof (le_val_slice_range i (i + 4) src Hok ltac:(lia)) as Hr.
  replace (i + 4 - i)%nat with 4%nat in Hr by lia. exact Hr.
Qed.
Lemma le64_range i : (i + 8 <= length src)%nat -> U64 (le64 src i).
Proof using Hok.
  intros Hi. pose proof (le_val_slice_range i (i + 8) src Hok ltac:(lia)) as Hr.
  replace (i + 8 - i)%nat with 8%nat in Hr by lia. exact Hr.
Qed.

Lemma bytes_le16 i : (i + 2 <= length src)%nat -> le_bytes 2 (le16 src i) = slice i (i + 2) src.
Proof using Hok. intros Hi. apply le_bytes_slice; [done|lia|lia]. Qed.
Lemma bytes_le32 i : (i + 4 <= length src)%nat -> le_bytes 4 (le32 src i) = slice i (i + 4) src.
Proof using Hok. intros Hi. apply le_bytes_slice; [done|lia|lia]. Qed.
Lemma bytes_le64 i : (i + 8 <= length src)%nat -> le_bytes 8 (le64 src i) = slice i (i + 8) src.
Proof using Hok. intros Hi. apply le_bytes_slice; [done|lia|lia]. Qed.
Lemma bytes_byte i : (i < length src)%nat -> [byte_at src i] = slice i (i + 1) src.
Proof. intros Hi. rewrite Nat.add_1_r. by rewrite slice_byte. Qed.

Lemma ParseHeader_exact h : ParseHeader src = Ok h ->
  slice 0 16 src = header_bytes (h_Size h) /\ 16 <= h_Size h <= len src /\ h_Size h <= MaxUint32 /\
  h_Size h = le32 src 8.
Proof using Hok.
  unfold ParseHeader, HeaderSize, len. repeat (case_if; [done|]). intros [= <-]. cbn [h_Size] in *.
  cbn [h_Magic h_Major h_Minor h_Flags] in *. bool_prop.
  assert (Hl : (16 <= length src)%nat) by lia.
  pose proof (le32_range 8 ltac:(lia)). split_and!; [|lia|unfold len in *; lia|unfold MaxUint32; lia|done].
  unfold header_bytes. replace Magic with (le32 src 0) by done. replace ABIMajor with (le16 src 4) by done.
  replace ABIMinor with (le16 src 6) by done. replace (le_bytes 4 0) with (le_bytes 4 (le32 src 12)) by congruence.
  pose proof (concat_cut 0 [4; 2; 2; 4; 4]%nat src) as E. cbn in E. rewrite <-E.
  by rewrite !bytes_le32, !bytes_le16, app_nil_r by lia.
Qed.
End Read.

(** ** Completions on the wire *)

Definition iso_wire (p : IsoPacket) : list Z :=
  le_bytes 4 (ip_Offset p) ++ le_bytes 4 (ip_Length p) ++ le_bytes 4 (u32 (ip_Status p)) ++ le_bytes 4 0.

Lemma length_iso_wire p : length (iso_wire p) = 16%nat.
Proof. unfold iso_wire. by autorewrite with len. Qed.

Lemma length_concat_packets ps : length (concat (map iso_wire ps)) = (16 * length ps)%nat.
Proof.
  induction ps as [|p ps IH]; [done|]. cbn [map concat length]. rewrite length_app, length_iso_wire, IH. lia.
Qed.

Lemma put_iso_spec ps off dst :
  (off + 16 * length ps <= length dst)%nat ->
  put_iso ps off dst = put_at off (concat (map iso_wire ps)) dst.
Proof.
  revert off dst. induction ps as [|p ps IH]; intros off dst Hl; cbn [put_iso map concat].
  - unfold put_at. cbn. by rewrite Nat.add_0_r, take_drop.
  - cbn [length] in Hl.
    assert (E : put_at (off + 12) (le_bytes 4 0) (put_at (off + 8) (le_bytes 4 (u32 (ip_Status p)))
      (put_at (off + 4) (le_bytes 4 (ip_Length p)) (put_at off (le_bytes 4 (ip_Offset p)) dst))) =
      put_at off (iso_wire p) dst).
    { transitivity (put_seq off [le_bytes 4 (ip_Offset p); le_bytes 4 (ip_Length p);
        le_bytes 4 (u32 (ip_Status p)); le_bytes 4 0] dst).
      - cbn [put_seq]. rewrite !length_le_bytes. by rewrite <-!Nat.add_assoc.
      - rewrite put_seq_spec; [unfold iso_wire; cbn; by rewrite app_nil_r|].
        cbn. autorewrite with len. lia. }
    rewrite E, IH by (rewrite length_put_at, ?length_iso_wire; rewrite ?length_iso_wire; lia).
    rewrite <-(length_iso_wire p) at 1. apply put_at_join.
    rewrite length_iso_wire, length_concat_packets. lia.
Qed.

(** The wire image of a completion that reports [transferLength] bytes. *)
Definition completion_wire (m : Completion) (transferLength : Z) : list Z :=
  let n := Z.of_nat (length (co_IsoPackets m)) in
  header_bytes (72 + 16 * n + len (co_Payload m)) ++
  le_bytes 8 (co_Token m) ++ le_bytes 8 (co_DeviceID m) ++ le_bytes 4 (co_Generation m) ++
  le_bytes 4 (u32 (co_Status m)) ++ le_bytes 4 (co_USBDStatus m) ++ le_bytes 4 transferLength ++
  le_bytes 4 n ++ le_bytes 4 (72 + 16 * n) ++ le_bytes 4 (len (co_Payload m)) ++ le_bytes 4 72 ++
  le_bytes 4 (co_EndpointGeneration m) ++ zeros 4 ++ concat (map iso_wire (co_IsoPackets m)) ++
  co_Payload m.

(** The bytes reported when the completion leaves the count open. *)
Definition completed_length (m : Completion) : Z :=
  if (co_TransferLength m =? 0) && bool_decide (co_IsoPackets m = []) then len (co_Payload m)
  else co_TransferLength m.

Record completion_ok (m : Completion) : Prop := {
  ck_identity : co_Token m <> 0 /\ co_DeviceID m <> 0 /\ co_Generation m <> 0;
  ck_endpoint : isManagementToken (co_Token m) = true \/ co_EndpointGeneration m <> 0;
  ck_payload : len (co_Payload m) <= MaxTransferBytes;
  ck_packets : Z.of_nat (length (co_IsoPackets m)) <= MaxIsoPackets;
  ck_length : completed_length m <= MaxTransferBytes;
}.

Lemma wireLayout_spec m :
  match wireLayout m with
  | Ok (tl, isoBytes, total) => completion_ok m /\ tl = completed_length m /\
      isoBytes = 16 * Z.of_nat (length (co_IsoPackets m)) /\ total = 72 + isoBytes + len (co_Payload m)
  | Err _ => ~ completion_ok m
  end.
Proof.
  unfold wireLayout, IsoPacketSize, CompletionSize. set (n := Z.of_nat (length (co_IsoPackets m))).
  assert (Hn : (n =? 0) = bool_decide (co_IsoPackets m = [])).
  { unfold n. destruct (co_IsoPackets m); [done|]. by rewrite bool_decide_false. }
  case_if. { intros [(? & ? & ?) _ _ _ _]. bool_split; lia. }
  case_if. { intros [_ [He|He] _ _ _]; rewrite ?He in *; bool_prop; done. }
  case_if. { intros [_ _ Hp Hk _]. fold n in Hk. bool_split; lia. }
  bool_prop.
  assert (Htl : (if (co_TransferLength m =? 0) && negb (len (co_Payload m) =? 0) && (n =? 0)
                 then u32 (len (co_Payload m)) else co_TransferLength m) = completed_length m).
  { unfold completed_length. rewrite <-Hn. unfold MaxTransferBytes, u32, len in *.
    repeat case_if; bool_split; bool_prop; try lia; apply Z.mod_small; lia. }
  rewrite Htl. case_if. { intros [_ _ _ _ Hl]. lia. }
  unfold NewHeader, HeaderSize, MaxUint32. unfold MaxTransferBytes, MaxIsoPackets in *.
  case_if; [exfalso; unfold len in *; bool_split; lia|].
  split_and!; [|done|lia|lia]. split; try done.
  - destruct (isManagementToken (co_Token m)); [by left|]. right. bool_split; done.
Qed.

Lemma length_completion_wire m tl :
  length (completion_wire m tl) = (72 + 16 * length (co_IsoPackets m) + length (co_Payload m))%nat.
Proof.
  unfold completion_wire. rewrite !length_app, length_header, length_concat_packets.
  autorewrite with len. unfold zeros. rewrite length_replicate. lia.
Qed.

(** Every byte of the buffer is written. *)
Lemma put_completion_spec m tl h dst :
  let n := Z.of_nat (length (co_IsoPackets m)) in
  h = {| h_Magic := Magic; h_Major := ABIMajor; h_Minor := ABIMinor;
         h_Size := 72 + 16 * n + len (co_Payload m); h_Flags := 0 |} ->
  length dst = length (completion_wire m tl) ->
  put_completion m tl (16 * n) h dst = completion_wire m tl.
Proof.
  intros n -> Hd. rewrite length_completion_wire in Hd. set (total := 72 + 16 * n + len (co_Payload m)).
  set (fs := [le_bytes 4 Magic; le_bytes 2 ABIMajor; le_bytes 2 ABIMinor; le_bytes 4 total; le_bytes 4 0;
    le_bytes 8 (co_Token m); le_bytes 8 (co_DeviceID m); le_bytes 4 (co_Generation m);
    le_bytes 4 (u32 (co_Status m)); le_bytes 4 (co_USBDStatus m); le_bytes 4 tl;
    le_bytes 4 n; le_bytes 4 (CompletionSize + 16 * n); le_bytes 4 (len (co_Payload m));
    le_bytes 4 CompletionSize; le_bytes 4 (co_EndpointGeneration m); zeros 4]).
  assert (Hf : length (concat fs) = 72%nat) by (unfold fs; cbn; autorewrite with len; reflexivity).
  transitivity (put_at (Z.to_nat (CompletionSize + 16 * n)) (co_Payload m)
    (put_iso (co_IsoPackets m) 72 (put_seq 0 fs dst))); [reflexivity|].
  rewrite put_seq_spec by lia. rewrite put_iso_spec by (rewrite length_put_at; lia).
  rewrite <-Hf. change (length (concat fs)) with (0 + length (concat fs))%nat.
  rewrite put_at_join by (rewrite length_concat_packets; lia).
  replace (Z.to_nat (CompletionSize + 16 * n)) with
    (0 + length (concat fs ++ concat (map iso_wire (co_IsoPackets m))))%nat
    by (rewrite length_app, Hf, length_concat_packets; unfold CompletionSize, n; lia).
  rewrite put_at_join, put_at_0_all by (rewrite !length_app, Hf, length_concat_packets; lia).
  unfold completion_wire, header_bytes, fs. cbn [concat]. by rewrite <-!app_assoc.
Qed.

(** A completion is refused exactly when it breaks a limit or carries no
    identity, and otherwise its wire image depends on the completion alone: a
    buffer of the right size that was used before gives byte for byte what a
    fresh one gives, ISO records and reserved word included. *)
Theorem completion_image_exact (m : Completion) (dst : list Z) :
  match Completion_MarshalBinary m with
  | Ok wire => completion_ok m /\ wire = completion_wire m (completed_length m) /\
      marshalBinaryInto m dst = if decide (length dst = length wire) then Ok wire else Err ErrInvalidSize
  | Err _ => ~ completion_ok m /\ exists e, marshalBinaryInto m dst = Err e
  end.
Proof.
  pose proof (wireLayout_spec m) as Hw. unfold Completion_MarshalBinary, marshalBinaryInto.
  destruct (wireLayout m) as [[[tl ib] total]|e]; [|by eauto].
  destruct Hw as (Hok & -> & -> & ->). set (n := Z.of_nat (length (co_IsoPackets m))) in *.
  set (total := 72 + 16 * n + len (co_Payload m)).
  assert (Hlen : length (completion_wire m (completed_length m)) = Z.to_nat total).
  { rewrite length_completion_wire. unfold total, n, len. lia. }
  assert (Ht : 0 <= total) by (unfold total, n, len; lia).
  assert (Hh : exists h, NewHeader total = Ok h /\
    forall buf, length buf = Z.to_nat total ->
      put_completion m (completed_length m) (16 * n) h buf = completion_wire m (completed_length m)).
  { eexists. split.
    - unfold NewHeader, HeaderSize, MaxUint32, total. destruct Hok as [_ _ H1 H2 _]. fold n in H2.
      unfold MaxTransferBytes, MaxIsoPackets in *. case_if; [|done]. unfold n, len in *. bool_split; lia.
    - intros buf Hb. by apply put_completion_spec; [|by rewrite Hlen]. }
  destruct Hh as (h & -> & Hput).
  assert (Hz : length (zeros (Z.to_nat total)) = Z.to_nat total) by (unfold zeros; apply length_replicate).
  unfold len at 1. rewrite Hz, Z2Nat.id, Z.eqb_refl, Hput by done. cbn [negb]. rewrite Hlen. split_and!; try done.
  unfold len at 1. case_decide as Hd.
  - by rewrite Hd, Z2Nat.id, Z.eqb_refl, Hput by done.
  - by rewrite (proj2 (Z.eqb_neq _ _)) by lia.
Qed.

(** ** Operations on the wire *)

Lemma validRange_spec offset length total :
  U32 offset -> U32 length -> U32 total ->
  validRange offset length total = true <-> offset + length <= total.
Proof.
  intros Ho Hl Ht. unfold validRange, u32. rewrite andb_true_iff, !Z.leb_le.
  destruct (Z.le_gt_cases offset total) as [H|H]; [|split; [lia|lia]].
  rewrite Z.mod_small by lia. lia.
Qed.

Lemma u32_i32 v : U32 v -> u32 (i32 v) = v.
Proof.
  intros Hv. unfold i32, u32. rewrite (Z.mod_small v) by lia.
  case_if; [by rewrite Z.mod_small by lia|].
  rewrite <-(Z.mod_add _ 1) by lia. replace (v - 4294967296 + 1 * 4294967296) with v by lia.
  by apply Z.mod_small.
Qed.

Record packet_ok (transferLength : Z) (p : IsoPacket) : Prop := {
  pk_offset : U32 (ip_Offset p);
  pk_length : U32 (ip_Length p);
  pk_status : I32 (ip_Status p);
  pk_range : ip_Offset p + ip_Length p <= transferLength;
}.

Section Iso.
Context (src : list Z) (Hok : bytes_ok src) (tl : Z) (Htl : U32 tl).

Lemma parse_iso_exact n off ps :
  (off + 16 * n <= length src)%nat -> parse_iso src tl n off = Ok ps ->
  length ps = n /\ Forall (packet_ok tl) ps /\ concat (map iso_wire ps) = slice off (off + 16 * n) src.
Proof using All.
  revert off ps. induction n as [|n IH]; intros off ps Hl; cbn [parse_iso].
  { intros [= <-]. split_and!; [done|constructor|]. unfold slice. by rewrite Nat.add_0_r, Nat.sub_diag. }
  case_if; [done|]. destruct (parse_iso src tl n (off + 16)) as [ps'|] eqn:Ep; [|done]. intros [= <-].
  destruct (IH (off + 16)%nat ps') as (Hn & Hf & Hc); [lia|done|].
  apply orb_false_iff in Hb as [Hz Hr]. apply negb_false_iff in Hz, Hr. apply Z.eqb_eq in Hz. cbn in Hr.
  pose proof (le32_range src Hok off ltac:(lia)). pose proof (le32_range src Hok (off + 4) ltac:(lia)).
  pose proof (le32_range src Hok (off + 8) ltac:(lia)).
  apply validRange_spec in Hr; [|done..].
  split_and!; [cbn; lia| |].
  - constructor; [|done]. split; cbn; try done. apply i32_range.
  - cbn [map concat]. rewrite Hc. unfold iso_wire. cbn [ip_Offset ip_Length ip_Status].
    rewrite u32_i32 by done. rewrite <-Hz, !bytes_le32 by (try done; lia).
    rewrite <-!Nat.add_assoc. cbn [Nat.add]. rewrite !slice_join by lia. f_equal. lia.
Qed.

Lemma parse_iso_wire ps off :
  Forall (packet_ok tl) ps -> (off + 16 * length ps <= length src)%nat ->
  slice off (off + 16 * length ps) src = concat (map iso_wire ps) ->
  parse_iso src tl (length ps) off = Ok ps.
Proof using All.
  intros Hp. revert off. induction Hp as [|p ps [Ho Hl Hs Hr] Hp IH]; intros off Hlen E; [done|].
  cbn [parse_iso length map concat] in *.
  assert (E2 : slice off (off + 16) src = iso_wire p /\
    slice (off + 16) (off + 16 + 16 * length ps) src = concat (map iso_wire ps)).
  { rewrite <-(slice_join off (off + 16)) in E by lia. apply app_inj_1 in E as [E1 E2].
    - split; [done|]. rewrite <-E2. f_equal. lia.
    - rewrite length_slice, length_iso_wire by lia. lia. }
  destruct E2 as [E1 E2]. rewrite IH by (done || lia).
  pose proof (cut_at [le_bytes 4 (ip_Offset p); le_bytes 4 (ip_Length p); le_bytes 4 (u32 (ip_Status p));
    le_bytes 4 0] off src) as Hcut.
  cbn [concat map] in Hcut. rewrite !app_nil_r, !length_app, !length_le_bytes in Hcut. cbn [cut Nat.add] in Hcut.
  specialize (Hcut ltac:(lia) E1). rewrite <-!Nat.add_assoc in Hcut. cbn [Nat.add] in Hcut.
  injection Hcut as C1 C2 C3 C4. unfold le32. rewrite <-!Nat.add_assoc. cbn [Nat.add].
  rewrite C1, C2, C3, C4, !le_val_small by (cbn; try done; try lia; apply u32_range). rewrite i32_u32 by done.
  cbn [ip_Offset ip_Length]. rewrite (proj2 (validRange_spec _ _ _ Ho Hl Htl)) by done. cbn.
  by destruct p.
Qed.
End Iso.

(** The fixed fields behind the header, in wire order. *)
Definition operation_fields (op : Operation) : list (list Z) :=
  let n := Z.of_nat (length (op_IsoPackets op)) in
  [le_bytes 8 (op_Token op); le_bytes 8 (op_DeviceID op); le_bytes 4 (op_Generation op);
   le_bytes 4 (op_Kind op); [op_EndpointAddress op]; [op_Direction op]; [op_InterfaceNumber op];
   [op_InterfaceSetting op]; le_bytes 4 (op_URBFunction op); le_bytes 4 (op_TransferFlags op);
   le_bytes 4 (op_StartFrame op); le_bytes 4 n; le_bytes 4 (op_TransferLength op);
   le_bytes 4 (108 + 16 * n); le_bytes 4 (len (op_Payload op)); le_bytes 4 108; op_SetupPacket op;
   [op_EndpointAttributes op]; [op_EndpointInterval op]; le_bytes 2 (op_EndpointMaxPacketSize op);
   le_bytes 8 (op_EndpointSequence op); le_bytes 8 (op_DeviceSequence op);
   le_bytes 4 (op_EndpointGeneration op)].

Definition operation_widths : list nat :=
  [8; 8; 4; 4; 1; 1; 1; 1; 4; 4; 4; 4; 4; 4; 4; 4; 8; 1; 1; 2; 8; 8; 4]%nat.

(** The one canonical message of an operation. *)
Definition operation_wire (op : Operation) : list Z :=
  header_bytes (108 + 16 * Z.of_nat (length (op_IsoPackets op)) + len (op_Payload op)) ++
  concat (operation_fields op) ++ concat (map iso_wire (op_IsoPackets op)) ++ op_Payload op.

(** The identities each kind of operation may carry: a broker fault names
    nothing; an endpoint operation (kinds 1 to 5) names its device and endpoint
    generations; a device operation (6 to 9) names no endpoint; and a
    cancellation names the token it cancels, with an endpoint generation unless
    bit 31 marks a management token. *)
Inductive identity_ok (op : Operation) : Prop :=
| id_fault : op_Kind op = 11 -> op_Token op = 0 -> op_DeviceID op = 0 -> op_Generation op = 0 ->
    op_EndpointGeneration op = 0 -> identity_ok op
| id_endpoint : 1 <= op_Kind op <= 5 -> op_DeviceID op <> 0 -> op_Generation op <> 0 ->
    op_EndpointGeneration op <> 0 -> identity_ok op
| id_device : 6 <= op_Kind op <= 9 -> op_DeviceID op <> 0 -> op_Generation op <> 0 ->
    op_EndpointGeneration op = 0 -> identity_ok op
| id_cancel : op_Kind op = 10 -> op_DeviceID op <> 0 -> op_Generation op <> 0 -> op_Token op <> 0 ->
    op_EndpointGeneration op <> 0 \/ Z.testbit (op_Token op) 31 = true -> identity_ok op.

Lemma management_bit token : isManagementToken token = Z.testbit token 31.
Proof.
  unfold isManagementToken, ManagementSlotFlag, u32.
  replace (Z.testbit token 31) with (Z.testbit (token mod 4294967296) 31)
    by (apply (Z.mod_pow2_bits_low token 32 31); lia).
  set (x := token mod 4294967296). destruct (Z.testbit x 31) eqn:Eb.
  - apply negb_true_iff, Z.eqb_neq. intros H. apply (f_equal (fun y => Z.testbit y 31)) in H.
    rewrite Z.land_spec, Eb in H. discriminate.
  - apply negb_false_iff, Z.eqb_eq, Z.bits_inj'. intros i Hi. rewrite Z.land_spec, Z.bits_0.
    change 2147483648 with (2 ^ 31). rewrite Z.pow2_bits_eqb by lia.
    destruct (Z.eqb_spec 31 i) as [<-|]; [by rewrite Eb|apply andb_false_r].
Qed.

Lemma validate_identity op : validateOperationIdentity op = true <-> identity_ok op.
Proof.
  unfold validateOperationIdentity, operationRequiresEndpointGeneration, operationUsesEndpointGeneration.
  rewrite management_bit.
  unfold OperationControl, OperationTransfer, OperationEndpointStart, OperationEndpointPurge, OperationEndpointReset,
    OperationCancel, OperationBrokerFault. split.
  - intros H. repeat case_if_in H; bool_prop; try done.
    + apply id_fault; lia.
    + destruct (Z.eqb_spec (op_Kind op) 10); [apply id_cancel; try lia; by left|].
      apply id_endpoint; try done. lia.
    + destruct (Z.eqb_spec (op_Kind op) 10); [apply id_cancel; try lia; by right; destruct (Z.testbit _ _)|].
      apply id_device; lia.
  - intros [K H1 H2 H3 H4|K H1 H2 H3|K H1 H2 H3|K H1 H2 H3 H4].
    + by rewrite K, H1, H2, H3, H4.
    + assert (Hk : op_Kind op = 1 \/ op_Kind op = 2 \/ op_Kind op = 3 \/ op_Kind op = 4 \/ op_Kind op = 5) by lia.
      rewrite (proj2 (Z.eqb_neq _ _) H1), (proj2 (Z.eqb_neq _ _) H2), (proj2 (Z.eqb_neq _ _) H3).
      by destruct Hk as [-> | [-> | [-> | [-> | ->]]]].
    + assert (Hk : op_Kind op = 6 \/ op_Kind op = 7 \/ op_Kind op = 8 \/ op_Kind op = 9) by lia.
      rewrite (proj2 (Z.eqb_neq _ _) H1), (proj2 (Z.eqb_neq _ _) H2), H3.
      by destruct Hk as [-> | [-> | [-> | ->]]].
    + rewrite K, (proj2 (Z.eqb_neq _ _) H1), (proj2 (Z.eqb_neq _ _) H2), (proj2 (Z.eqb_neq _ _) H3).
      destruct (Z.testbit (op_Token op) 31); [done|]. destruct H4 as [H4|]; [|done].
      by rewrite (proj2 (Z.eqb_neq _ _) H4).
Qed.

Record operation_ok (op : Operation) : Prop := {
  ok_words : U64 (op_Token op) /\ U64 (op_DeviceID op) /\ U64 (op_EndpointSequence op) /\
    U64 (op_DeviceSequence op) /\ U32 (op_Generation op) /\ U32 (op_Kind op) /\
    U32 (op_URBFunction op) /\ U32 (op_TransferFlags op) /\ U32 (op_StartFrame op) /\
    U32 (op_EndpointGeneration op) /\ U16 (op_EndpointMaxPacketSize op);
  ok_bytes : U8 (op_EndpointAddress op) /\ U8 (op_Direction op) /\ U8 (op_InterfaceNumber op) /\
    U8 (op_InterfaceSetting op) /\ U8 (op_EndpointAttributes op) /\ U8 (op_EndpointInterval op);
  ok_setup : length (op_SetupPacket op) = 8%nat /\ bytes_ok (op_SetupPacket op);
  ok_length : 0 <= op_TransferLength op <= MaxTransferBytes;
  ok_packets : Z.of_nat (length (op_IsoPackets op)) <= MaxIsoPackets /\
    Forall (packet_ok (op_TransferLength op)) (op_IsoPackets op);
  ok_payload : len (op_Payload op) <= MaxTransferBytes /\ bytes_ok (op_Payload op);
  ok_identity : identity_ok op;
}.

Lemma operation_widths_ok op :
  length (op_SetupPacket op) = 8%nat -> map length (operation_fields op) = operation_widths.
Proof. intros E. unfold operation_fields. cbn [map]. by rewrite !length_le_bytes, E. Qed.

Lemma length_operation_fields op :
  length (op_SetupPacket op) = 8%nat -> length (concat (operation_fields op)) = 92%nat.
Proof. intros E. rewrite length_concat, operation_widths_ok by done. reflexivity. Qed.

Section Operation.
Context (src : list Z) (Hok : bytes_ok src).

(** The limits the layout checks leave. *)
Lemma operation_layout h packetCount payloadLength :
  h_Size h = len src -> U32 packetCount -> U32 payloadLength ->
  packetCount <= MaxIsoPackets -> payloadLength <= MaxTransferBytes ->
  le32 src 64 = u32 (OperationSize + u32 (packetCount * IsoPacketSize)) ->
  u32 (OperationSize + u32 (packetCount * IsoPacketSize)) + payloadLength = h_Size h ->
  le32 src 64 = 108 + 16 * packetCount /\ len src = 108 + 16 * packetCount + payloadLength /\
  u32 (le32 src 64 + payloadLength) = len src.
Proof.
  unfold MaxIsoPackets, MaxTransferBytes, OperationSize, IsoPacketSize, u32.
  intros E Hc Hp Hcm Hpm Eo Et. rewrite (Z.mod_small (packetCount * 16)) in * by lia.
  rewrite (Z.mod_small (108 + packetCount * 16)) in * by lia.
  rewrite (Z.mod_small (le32 src 64 + payloadLength)) by lia. lia.
Qed.

Lemma operation_fields_read op :
  (108 <= length src)%nat -> le32 src 64 = 108 + 16 * le32 src 56 -> le32 src 72 = 108 ->
  op_Token op = le64 src 16 -> op_DeviceID op = le64 src 24 -> op_Generation op = le32 src 32 ->
  op_Kind op = le32 src 36 -> op_EndpointAddress op = byte_at src 40 -> op_Direction op = byte_at src 41 ->
  op_InterfaceNumber op = byte_at src 42 -> op_InterfaceSetting op = byte_at src 43 ->
  op_URBFunction op = le32 src 44 -> op_TransferFlags op = le32 src 48 -> op_StartFrame op = le32 src 52 ->
  Z.of_nat (length (op_IsoPackets op)) = le32 src 56 -> op_TransferLength op = le32 src 60 ->
  len (op_Payload op) = le32 src 68 ->
  op_SetupPacket op = slice 76 84 src -> op_EndpointAttributes op = byte_at src 84 ->
  op_EndpointInterval op = byte_at src 85 -> op_EndpointMaxPacketSize op = le16 src 86 ->
  op_EndpointSequence op = le64 src 88 -> op_DeviceSequence op = le64 src 96 ->
  op_EndpointGeneration op = le32 src 104 ->
  concat (operation_fields op) = slice 16 108 src.
Proof using Hok.
  intros Hl E64 E72. intros. unfold operation_fields. cbv zeta.
  replace (le_bytes 4 108) with (le_bytes 4 (le32 src 72)) by congruence. clear E72.
  repeat match goal with H : ?f op = _ |- _ => rewrite H; clear H | H : _ (_ (_ op)) = _ |- _ => rewrite H; clear H
    | H : len _ = _ |- _ => rewrite H; clear H end.
  rewrite <-E64.
  pose proof (concat_cut 16 operation_widths src) as E. change (16 + _)%nat with 108%nat in E. rewrite <-E.
  unfold operation_widths. cbn [cut Nat.add].
  rewrite !bytes_le64, !bytes_le32, !bytes_le16, !bytes_byte by (try done; lia). reflexivity.
Qed.

Lemma operation_parse_sound op :
  ParseOperation src = Ok op -> operation_ok op /\ src = operation_wire op.
Proof using Hok.
  unfold ParseOperation. destruct (ParseHeader src) as [h|] eqn:Eh; [|done].
  destruct (ParseHeader_exact src Hok h Eh) as (Hh & Hsz & Hmax & _).
  case_if; [done|]. case_if; [done|]. case_if; [done|]. case_if; [done|].
  repeat match goal with H : (_ || _) = false |- _ => apply orb_false_iff in H; destruct H end.
  repeat match goal with H : negb _ = false |- _ => apply negb_false_iff in H end.
  destruct (parse_iso src (le32 src 60) _ _) as [ps|] eqn:Ep; [|done].
  set (o := {| op_Token := _ |}). destruct (validateOperationIdentity o) eqn:Ev; [|done].
  apply validate_identity in Ev. intros [= <-].
  bool_prop. unfold OperationSize in *.
  assert (Hl : (108 <= length src)%nat) by (unfold len in *; lia).
  pose proof (le32_range src Hok 56 ltac:(lia)). pose proof (le32_range src Hok 60 ltac:(lia)).
  pose proof (le32_range src Hok 68 ltac:(lia)).
  destruct (operation_layout h (le32 src 56) (le32 src 68)) as (L1 & L2 & L3);
    try done; unfold OperationSize; try lia.
  assert (Hi : (108 + 16 * Z.to_nat (le32 src 56) <= length src)%nat) by (unfold len in *; lia).
  replace (le32 src 72) with 108 in Ep by done. change (Z.to_nat 108) with 108%nat in Ep.
  destruct (parse_iso_exact src Hok (le32 src 60) ltac:(done) _ _ _ Hi Ep) as (Hn & Hp & Hc).
  assert (Hpl : op_Payload o = slice (108 + 16 * Z.to_nat (le32 src 56)) (length src) src).
  { unfold o. cbn. rewrite L3, L1. f_equal; unfold len; lia. }
  assert (Hplen : len (op_Payload o) = le32 src 68).
  { rewrite Hpl. unfold len. rewrite length_slice by lia. unfold len in *. lia. }
  split.
  - split; try done.
    + split_and!; cbn; (apply le64_range || apply le32_range || apply le16_range); (done || lia).
    + split_and!; cbn; by apply byte_at_ok.
    + cbn. rewrite length_slice by lia. split; [done|by apply slice_bytes_ok].
    + cbn. lia.
    + cbn. split; [lia|done].
    + rewrite Hplen. split; [lia|]. rewrite Hpl. by apply slice_bytes_ok.
  - unfold operation_wire. rewrite Hplen. cbn [op_IsoPackets o]. rewrite Hn, Z2Nat.id by lia.
    replace (108 + 16 * le32 src 56 + le32 src 68) with (h_Size h) by lia. rewrite <-Hh.
    rewrite (operation_fields_read o); try done; [|cbn; lia]. rewrite Hc, Hpl.
    rewrite !slice_join by lia. symmetry. by apply slice_all.
Qed.

Lemma ParseHeader_wire size :
  slice 0 16 src = header_bytes size -> 16 <= size <= len src -> size <= MaxUint32 ->
  ParseHeader src = Ok {| h_Magic := Magic; h_Major := ABIMajor; h_Minor := ABIMinor; h_Size := size;
                          h_Flags := 0 |}.
Proof.
  intros Hh Hs Hm. unfold MaxUint32 in Hm.
  pose proof (cut_at [le_bytes 4 Magic; le_bytes 2 ABIMajor; le_bytes 2 ABIMinor; le_bytes 4 size;
    le_bytes 4 0] 0 src) as Hc.
  cbn [concat map] in Hc. rewrite app_nil_r in Hc. fold (header_bytes size) in Hc.
  rewrite length_header in Hc. specialize (Hc ltac:(unfold len in *; lia) Hh).
  rewrite !length_le_bytes in Hc. cbn [cut Nat.add] in Hc. injection Hc as M1 M2 M3 M4 M5.
  unfold ParseHeader, le32, le16, HeaderSize. cbn [Nat.add]. rewrite M1, M2, M3, M4, M5.
  rewrite (le_val_small 4 size) by (cbn; lia). cbn [h_Magic h_Major h_Minor h_Size h_Flags].
  change (le_val (le_bytes 4 Magic)) with Magic. change (le_val (le_bytes 2 ABIMajor)) with ABIMajor.
  change (le_val (le_bytes 2 ABIMinor)) with ABIMinor. change (le_val (le_bytes 4 0)) with 0.
  rewrite !Z.eqb_refl. cbn [negb].
  rewrite (proj2 (Z.ltb_ge (len src) 16)), (proj2 (Z.ltb_ge size 16)), (proj2 (Z.ltb_ge (len src) size)) by lia.
  done.
Qed.

(** The layout checks pass on the canonical layout. *)
Lemma operation_layout_ok n p :
  0 <= n <= 1024 -> 0 <= p <= 1024 * 1024 ->
  u32 (OperationSize + u32 (n * IsoPacketSize)) = 108 + 16 * n /\
  validArrayRange 108 n IsoPacketSize (108 + 16 * n + p) = true /\
  validRange (108 + 16 * n) p (108 + 16 * n + p) = true /\
  u32 (108 + 16 * n + p) = 108 + 16 * n + p.
Proof.
  intros Hn Hp. unfold OperationSize, IsoPacketSize, u32.
  rewrite (Z.mod_small (n * 16)), (Z.mod_small (108 + n * 16)), (Z.mod_small (108 + 16 * n + p)) by lia.
  split_and!; [lia| |apply validRange_spec; lia|done].
  unfold validArrayRange, u32. rewrite (Z.mod_small (n * 16)) by lia. case_if.
  - exfalso. apply andb_prop in Hb as [H1 H2]. bool_prop. unfold MaxUint32 in H2.
    assert (4294967295 / n >= 4194303); [|lia]. apply Z.le_ge, Z.div_le_lower_bound; lia.
  - apply validRange_spec; lia.
Qed.

Lemma operation_parse_complete op : operation_ok op -> src = operation_wire op -> ParseOperation src = Ok op.
Proof using Hok.
  intros [Hw Hb [Hs8 Hsb] Htl [Hn Hps] [Hpl Hpb] Hid%validate_identity] Es.
  set (n := length (op_IsoPackets op)) in *. set (p := op_Payload op) in *.
  pose proof (length_operation_fields op Hs8) as Hf. pose proof (length_concat_packets (op_IsoPackets op)) as Hi.
  assert (Hlen : length src = (108 + 16 * n + length p)%nat).
  { rewrite Es. unfold operation_wire. rewrite !length_app, length_header, Hf, Hi. fold n p. lia. }
  unfold MaxTransferBytes, MaxIsoPackets in *. unfold len in Hpl.
  assert (Hall : slice 0 16 src = header_bytes (108 + 16 * Z.of_nat n + len p) /\
    slice 16 108 src = concat (operation_fields op) /\
    slice 108 (108 + 16 * n) src = concat (map iso_wire (op_IsoPackets op)) /\
    slice (108 + 16 * n) (length src) src = p).
  { rewrite Hlen, Es. unfold operation_wire. fold n p. split_and!.
    - by rewrite slice_app_head by apply length_header.
    - rewrite slice_app_skip by (rewrite length_header; lia). rewrite length_header.
      change (16 - 16)%nat with 0%nat. change (108 - 16)%nat with 92%nat. by rewrite slice_app_head.
    - rewrite slice_app_skip, length_header by (rewrite length_header; lia).
      rewrite slice_app_skip, Hf by (rewrite Hf; lia).
      replace (108 - 16 - 92)%nat with 0%nat by lia.
      replace (108 + 16 * n - 16 - 92)%nat with (16 * n)%nat by lia. by rewrite slice_app_head.
    - rewrite slice_app_skip, length_header by (rewrite length_header; lia).
      rewrite slice_app_skip, Hf by (rewrite Hf; lia). rewrite slice_app_skip, Hi by (rewrite Hi; fold n; lia).
      fold n. replace (108 + 16 * n - 16 - 92 - 16 * n)%nat with 0%nat by lia. apply slice_all. lia. }
  destruct Hall as (Hh & Hfs & Hiso & Hpay).
  assert (Hcut1 : cut 16 operation_widths src = operation_fields op).
  { rewrite <-(operation_widths_ok op Hs8). apply cut_at; rewrite Hf; [lia|done]. }
  unfold operation_widths, operation_fields in Hcut1. cbn [cut Nat.add] in Hcut1. fold n p in Hcut1.
  injection Hcut1 as F1 F2 F3 F4 F5 F6 F7 F8 F9 F10 F11 F12 F13 F14 F15 F16 F17 F18 F19 F20 F21 F22 F23.
  destruct Hw as (W1 & W2 & W3 & W4 & W5 & W6 & W7 & W8 & W9 & W10 & W11).
  assert (Hbyte : forall i v, (i < length src)%nat -> slice i (S i) src = [v] -> byte_at src i = v).
  { intros i v Hiv Ei. rewrite slice_byte in Ei by done. by injection Ei. }
  assert (A5 : le32 src 56 = Z.of_nat n).
  { unfold le32; cbn [Nat.add]; rewrite F12. apply le_val_small. cbn. lia. }
  assert (A6 : le32 src 60 = op_TransferLength op).
  { unfold le32; cbn [Nat.add]; rewrite F13. apply le_val_small. cbn. lia. }
  assert (A7 : le32 src 64 = 108 + 16 * Z.of_nat n).
  { unfold le32; cbn [Nat.add]; rewrite F14. apply le_val_small. cbn. lia. }
  assert (A8 : le32 src 68 = len p).
  { unfold le32; cbn [Nat.add]; rewrite F15. apply le_val_small. unfold len. cbn. lia. }
  assert (A9 : le32 src 72 = 108) by (unfold le32; cbn [Nat.add]; by rewrite F16).
  assert (El : len src = 108 + 16 * Z.of_nat n + len p) by (unfold len; rewrite Hlen; lia).
  unfold ParseOperation. rewrite (ParseHeader_wire _ Hh) by (unfold MaxUint32, len in *; lia). cbn [h_Size].
  rewrite A5, A6, A7, A8, A9, El.
  destruct (operation_layout_ok (Z.of_nat n) (len p)) as (L1 & L2 & L3 & L4); [lia|unfold len; lia|].
  rewrite L1, L2, L3, L4, !Z.eqb_refl. unfold MaxTransferBytes, MaxIsoPackets, OperationSize, IsoPacketSize.
  rewrite !(proj2 (Z.ltb_ge _ _)) by (unfold len; lia). cbn [negb orb].
  rewrite Nat2Z.id. change (Z.to_nat 108) with 108%nat.
  rewrite (parse_iso_wire src Hok (op_TransferLength op) ltac:(lia) (op_IsoPackets op)) by (fold n; done || lia).
  match goal with |- (if validateOperationIdentity ?o then _ else _) = _ => assert (Eo : o = op) end;
    [|by rewrite Eo, Hid].
  destruct Hb as (B1 & B2 & B3 & B4 & B5 & B6).
  unfold le64, le32, le16. cbn [Nat.add].
  rewrite F1, F2, F3, F4, F9, F10, F11, F17, F20, F21, F22, F23.
  rewrite !le_val_small by (cbn; lia).
  rewrite (Hbyte 40%nat _ ltac:(lia) F5), (Hbyte 41%nat _ ltac:(lia) F6), (Hbyte 42%nat _ ltac:(lia) F7),
    (Hbyte 43%nat _ ltac:(lia) F8), (Hbyte 84%nat _ ltac:(lia) F18), (Hbyte 85%nat _ ltac:(lia) F19).
  replace (Z.to_nat (108 + 16 * Z.of_nat n)) with (108 + 16 * n)%nat by lia.
  replace (Z.to_nat (108 + 16 * Z.of_nat n + len p)) with (length src) by (unfold len; lia).
  rewrite Hpay. unfold p. by destruct op.
Qed.
End Operation.

(** C32: on every byte message, ParseOperation returns an operation exactly when the message is
    that operation's one canonical encoding: the fixed fields at their offsets, the ISO packet
    records after byte 108, the payload after them and nothing else, with every field in its
    width, the counts within the protocol limits, every packet inside the transfer and an
    identity the operation's kind admits (none for a broker fault, an endpoint generation for
    endpoint operations and for cancellations outside management, none for device operations).  No second encoding, no slack and no other operation is
    accepted. *)
Theorem operation_parse_exact (src : list Z) (op : Operation) :
  bytes_ok src -> (ParseOperation src = Ok op <-> operation_ok op /\ src = operation_wire op).
Proof.
  intros Hok. split; [by apply operation_parse_sound|].
  intros [Hop Es]. by apply operation_parse_complete.
Qed.

(** An ISO transfer of two packets towards a device. *)
Definition demo_op : Operation := {|
  op_Token := 0x100000007; op_DeviceID := 3; op_Generation := 2; op_Kind := OperationTransfer;
  op_EndpointAddress := 1; op_Direction := 0; op_InterfaceNumber := 1; op_InterfaceSetting := 1;
  op_EndpointAttributes := 9; op_EndpointInterval := 4; op_EndpointMaxPacketSize := 392;
  op_URBFunction := 10; op_TransferFlags := 4; op_StartFrame := 77; op_TransferLength := 6;
  op_SetupPacket := zeros 8;
  op_IsoPackets := [{| ip_Offset := 0; ip_Length := 2; ip_Status := -1 |};
                    {| ip_Offset := 2; ip_Length := 4; ip_Status := 0 |}];
  op_Payload := [1; 2; 3; 4; 5; 6]; op_EndpointSequence := 5; op_DeviceSequence := 9;
  op_EndpointGeneration := 1 |}.

Lemma demo_op_ok : operation_ok demo_op.
Proof.
  constructor; cbn; unfold MaxTransferBytes, MaxIsoPackets; repeat split; try lia; try done.
  - repeat constructor; lia.
  - repeat (constructor; [constructor; cbn; lia|]). constructor.
  - repeat constructor; lia.
  - by apply id_endpoint; cbn.
Qed.

Lemma operation_parse_exact_witness :
  ParseOperation (operation_wire demo_op) = Ok demo_op /\
  operation_ok demo_op /\ length (operation_wire demo_op) = 146%nat.
Proof.
  split_and!; [|exact demo_op_ok|vm_compute; reflexivity].
  refine (proj2 (operation_parse_exact (operation_wire demo_op) demo_op _) _).
  - vm_compute. repeat constructor; discriminate.
  - split; [exact demo_op_ok|reflexivity].
Defined.

(** ** The build identity *)

Lemma split_once (c : Z) l1 r1 l2 r2 :
  c ∉ l1 -> c ∉ l2 -> l1 ++ c :: r1 = l2 ++ c :: r2 -> l1 = l2 /\ r1 = r2.
Proof.
  revert l2. induction l1 as [|x l1 IH]; intros [|y l2] H1 H2 E; cbn in E.
  - by injection E.
  - injection E as -> _. exfalso. apply H2. left.
  - injection E as -> _. exfalso. apply H1. left.
  - injection E as -> E. destruct (IH l2) as [-> ->]; [set_solver..|done|done].
Qed.

Lemma not_digit_free (c : Z) l :
  Forall (fun d => 48 <= d <= 57) l -> ~ 48 <= c <= 57 -> c ∉ l.
Proof. intros H Hc Hin. rewrite list.Forall_forall in H. by specialize (H c Hin). Qed.

Lemma hex_digit_val d : 0 <= d < 16 ->
  (if hex_digit d <? 58 then hex_digit d - 48 else hex_digit d - 87) = d.
Proof. intros H. unfold hex_digit. repeat case_if; bool_prop; lia. Qed.

Lemma hex_digit_inj a b : 0 <= a < 16 -> 0 <= b < 16 -> hex_digit a = hex_digit b -> a = b.
Proof. intros Ha Hb E. by rewrite <-(hex_digit_val a Ha), <-(hex_digit_val b Hb), E. Qed.

Lemma land15 v : Z.land v 15 = v mod 16.
Proof. exact (Z.land_ones v 4 ltac:(lia)). Qed.

(** A 32-bit value is its eight nibbles. *)
Lemma nibbles v : U32 v ->
  v = fold_right (fun k acc => Z.land (Z.shiftr v (4 * k)) 15 * 2 ^ (4 * k) + acc) 0 [7; 6; 5; 4; 3; 2; 1; 0].
Proof.
  intros Hv. cbn [fold_right].
  rewrite !land15, !Z.shiftr_div_pow2 by lia. cbn [Z.mul Z.pow Z.pow_pos Pos.mul Pos.iter].
  change (4 * 7) with 28. change (4 * 6) with 24. change (4 * 5) with 20. change (4 * 4) with 16.
  change (4 * 3) with 12. change (4 * 2) with 8. change (4 * 1) with 4. change (4 * 0) with 0.
  change (2 ^ 28) with 268435456. change (2 ^ 24) with 16777216. change (2 ^ 20) with 1048576.
  change (2 ^ 16) with 65536. change (2 ^ 12) with 4096. change (2 ^ 8) with 256. change (2 ^ 4) with 16.
  change (2 ^ 0) with 1. Z.div_mod_to_equations. lia.
Qed.

Lemma hex8_inj a b : U32 a -> U32 b -> hex8 a = hex8 b -> a = b.
Proof.
  intros Ha Hb E. rewrite (nibbles a Ha), (nibbles b Hb).
  assert (Hn : forall v, 0 <= Z.land v 15 < 16) by (intros v; rewrite land15; apply Z.mod_pos_bound; lia).
  unfold hex8 in E. cbn [map] in E.
  injection E as E7 E6 E5 E4 E3 E2 E1 E0.
  cbn [fold_right].
  apply hex_digit_inj in E7, E6, E5, E4, E3, E2, E1, E0; try apply Hn.
  by rewrite E7, E6, E5, E4, E3, E2, E1, E0.
Qed.

Lemma forall_digit l : forallb is_digit l = true -> Forall (fun d => 48 <= d <= 57) l.
Proof.
  intros H. apply list.Forall_forall. intros d Hd. rewrite forallb_forall in H.
  specialize (H d (proj1 (list_elem_of_In _ _) Hd)). unfold is_digit in H. bool_prop. lia.
Qed.

Lemma join_split sep s acc c :
  c <> sep -> Forall (fun part => c ∉ part) (split_on sep s acc) -> c ∉ acc ++ s.
Proof.
  intros Hc. revert acc. induction s as [|x s IH]; intros acc; cbn.
  - rewrite app_nil_r. intros H. by apply list.Forall_cons in H as [H _].
  - destruct (x =? sep) eqn:Hx.
    + apply Z.eqb_eq in Hx as ->. intros H. apply list.Forall_cons in H as [H1 H2]. apply IH in H2.
      cbn in H2. set_solver.
    + intros H. apply IH in H. by rewrite <-app_assoc in H.
Qed.

Lemma version_newline_free v :
  forallb (fun part => negb (len part =? 0) && forallb is_digit part) (split_on 46 v []) = true -> 10 ∉ v.
Proof.
  intros H. change v with ([] ++ v). apply (join_split 46); [done|]. apply list.Forall_forall.
  intros part Hp. rewrite forallb_forall in H. specialize (H part (proj1 (list_elem_of_In _ _) Hp)).
  bool_prop. apply (not_digit_free 10 part); [by apply forall_digit|lia].
Qed.

Lemma hex_newline_free r : forallb is_hex r = true -> 10 ∉ r.
Proof.
  intros H Hin. rewrite forallb_forall in H. by specialize (H 10 (proj1 (list_elem_of_In _ _) Hin)).
Qed.

(** The text under the hash determines its five parts. *)
Lemma preimage_inj r1 r2 v1 v2 a1 a2 b1 b2 c1 c2 :
  10 ∉ r1 -> 10 ∉ r2 -> 10 ∉ v1 -> 10 ∉ v2 ->
  U16 a1 -> U16 a2 -> U16 b1 -> U16 b2 -> U32 c1 -> U32 c2 ->
  preimage r1 v1 a1 b1 c1 = preimage r2 v2 a2 b2 c2 ->
  r1 = r2 /\ v1 = v2 /\ a1 = a2 /\ b1 = b2 /\ c1 = c2.
Proof.
  intros Hr1 Hr2 Hv1 Hv2 Ha1 Ha2 Hb1 Hb2 Hc1 Hc2 E. unfold preimage, newline in E.
  assert (Hx := fun H => hex8_inj c1 c2 Hc1 Hc2 H). generalize dependent (hex8 c1). intros h1.
  generalize dependent (hex8 c2). intros h2 E Hx. revert E.
  generalize dependent (bytes_of_string "VIIPER-UDE-BUILD-IDENTITY/v1"). intros t0.
  generalize dependent (bytes_of_string "sourceRevision="). intros t1.
  generalize dependent (bytes_of_string "driverPackageVersion="). intros t2.
  generalize dependent (bytes_of_string "abi="). intros t3.
  generalize dependent (bytes_of_string "capabilities=0x"). intros t4. cbn [app]. intros E.
  assert (Hd : forall v c, U16 v -> ~ 48 <= c <= 57 -> c ∉ sprint_d v).
  { intros v c Hv Hc. apply not_digit_free; [apply sprint_d_digits; lia|done]. }
  apply app_inv_head in E. injection E as E. apply app_inv_head in E.
  apply split_once in E as [-> E]; [|done..]. apply app_inv_head in E.
  apply split_once in E as [-> E]; [|done..]. apply app_inv_head in E.
  apply split_once in E as [Ea E]; [|apply Hd; lia..].
  apply split_once in E as [Eb E]; [|apply Hd; lia..]. apply app_inv_head in E.
  apply app_inv_tail in E. split_and!; try done; [apply sprint_d_inj in Ea|apply sprint_d_inj in Eb|]; try lia.
  by apply Hx.
Qed.

Lemma DeriveBuildIdentity_ok sha256 r v a b c d :
  DeriveBuildIdentity sha256 r v a b c = Ok d ->
  (10 ∉ map lower r) /\ (10 ∉ v) /\ d = sha256 (preimage (map lower r) v a b c).
Proof.
  unfold DeriveBuildIdentity. cbv zeta. intros H.
  repeat (case_if_in H; [discriminate|]). injection H as <-. bool_prop.
  split_and!; [by apply hex_newline_free|by apply version_newline_free|done].
Qed.

(** Two builds the driver handshake accepts as one are one: where DeriveBuildIdentity
    accepts two descriptions and their identities agree, either the two texts under the hash are a
    collision of it, or the revisions are equal up to letter case and the package versions, ABI
    numbers and capabilities are equal.  No field of one description can run into another's. *)
Theorem build_identity_binding (sha256 : list Z -> list Z) r1 r2 v1 v2 a1 a2 b1 b2 c1 c2 d :
  U16 a1 -> U16 a2 -> U16 b1 -> U16 b2 -> U32 c1 -> U32 c2 ->
  DeriveBuildIdentity sha256 r1 v1 a1 b1 c1 = Ok d ->
  DeriveBuildIdentity sha256 r2 v2 a2 b2 c2 = Ok d ->
  (map lower r1 = map lower r2 /\ v1 = v2 /\ a1 = a2 /\ b1 = b2 /\ c1 = c2) \/
  (exists x y, x <> y /\ sha256 x = sha256 y).
Proof.
  intros Ha1 Ha2 Hb1 Hb2 Hc1 Hc2 (Hr1 & Hv1 & E1)%DeriveBuildIdentity_ok (Hr2 & Hv2 & E2)%DeriveBuildIdentity_ok.
  destruct (decide (preimage (map lower r1) v1 a1 b1 c1 = preimage (map lower r2) v2 a2 b2 c2)) as [E|E].
  - left. by eapply preimage_inj.
  - right. do 2 eexists. split; [exact E|congruence].
Qed.

Definition demo_revision : list Z := bytes_of_string "0123456789abcdef0123456789abcdef01234567".
Definition demo_revision_upper : list Z := bytes_of_string "0123456789ABCDEF0123456789ABCDEF01234567".
Definition demo_version : list Z := bytes_of_string "1.0.14.2".

Lemma build_identity_binding_witness :
  (map lower demo_revision = map lower demo_revision_upper /\ demo_version = demo_version /\ 1 = 1 /\
   14 = 14 /\ AdvertisedCapabilities = AdvertisedCapabilities) \/
  (exists x y : list Z, x <> y /\ x = y).
Proof.
  apply (build_identity_binding (fun x => x) demo_revision demo_revision_upper demo_version demo_version
    1 1 14 14 AdvertisedCapabilities AdvertisedCapabilities
    (preimage (map lower demo_revision) demo_version 1 14 AdvertisedCapabilities));
    try (vm_compute; split; congruence); vm_compute; reflexivity.
Defined.

Lemma parse_digits_limit limit s : forall acc v,
  0 <= acc <= limit -> parse_digits limit acc s = Ok v -> 0 <= v <= limit.
Proof.
  induction s as [|c s IH]; intros acc v Ha; cbn; [by intros [= <-]|].
  case_if; [done|]. case_if; [done|]. bool_prop. apply IH. lia.
Qed.

(** A session identity is canonical exactly when it is the decimal text of a nonzero 64-bit
    nonce: no leading zero, sign or second spelling. *)
Lemma canonical_session_exact value :
  IsCanonicalControllerSessionID value = true <-> exists v, 0 < v /\ U64 v /\ value = sprint_d v.
Proof.
  unfold IsCanonicalControllerSessionID. split.
  - destruct (parse_uint _ value) as [v|e] eqn:E; [|done]. intros H. apply andb_prop in H as [H0 H1].
    apply bool_decide_eq_true in H1. exists v.
    assert (0 <= v <= 18446744073709551615).
    { destruct value; [done|]. by eapply parse_digits_limit, E. }
    bool_prop. split_and!; [lia..|done].
  - intros (v & Hp & Hv & ->). rewrite parse_uint_sprint by lia.
    rewrite bool_decide_true by done. destruct (v =? 0) eqn:E; [lia|done].
Qed.
End Udecx.
