(* ===== verification/XboxGip.v ===== *)
(** * GIP messages of the Xbox One controller

    src/device/xboxone: header.go, model.go, input_body.go, rumble_body.go,
    status_body.go, guide_led.go, guide_status.go, protocol_control.go,
    semantic_input_wire.go, the host commands of lifecycle.go and
    downstream.go.  Every codec is modelled as its pair of functions and proved
    to be a [StrictCodec]; the packet decoder of downstream.go is proved to
    accept exactly the concatenations of supported messages.

    A Go value of a fixed-width type is an integer; its range is the [_typed]
    predicate of the record.  An encoder [EncodeXInto dst v] assigns every byte
    of a destination of one exact length, so it returns the new contents. *)

From S2P Require Import Prelude Bytes Codec.

Inductive gip_err :=
| ErrInvalidLength | ErrReservedDataClass | ErrInvalidMessageNumber | ErrFragmentedHeader
| ErrInvalidInitFragment | ErrReservedHeaderFlag | ErrInvalidExpansionIndex | ErrReservedSequence
| ErrExtendedPayloadLength | ErrPayloadTooLarge | ErrReservedButtonBits | ErrTriggerOutOfRange
| ErrInvalidSemanticInputContract | ErrGuideRequiresStatusMessage | ErrShareRequiresExtension
| ErrInvalidConsoleFunctionMap | ErrInvalidGamepadInputMessage | ErrInvalidMotorMask
| ErrMotorLevelOutOfRange | ErrInvalidDirectMotorCommand | ErrInvalidDirectMotorMessage
| ErrReservedStatusValue | ErrReservedExtendedStatusFlag | ErrUnsupportedStatusEvents
| ErrInvalidStatusMessage | ErrReservedGuideLEDPattern | ErrGuideLEDIntensityOutOfRange
| ErrInvalidGuideLEDCommand | ErrInvalidGuideLEDMessage | ErrInvalidGuideButtonStatusMessage
| ErrUnsupportedProtocolControlCode | ErrInvalidProtocolControlReferenceFlags
| ErrInvalidProtocolControlMessage | ErrInvalidAcknowledgement | ErrReservedDeviceState
| ErrUnsupportedHostCommand | ErrUnsupportedSetDeviceStateVariant
| ErrUnsupportedControllerPersonaHostMessage
| ErrInvalidUSBIdentity | ErrInvalidDeviceID | ErrInvalidDeviceReleaseBCD | ErrInvalidFirmwareVersion
| ErrInvalidUSBPower | ErrInvalidUSBInterval | ErrUninitializedControllerProfile | ErrInvalidHelloMessage
| ErrInvalidMetadata | ErrMetadataIdentityMismatch | ErrMetadataTransferComplete | ErrAcknowledgementRequired
| ErrInvalidTransferGeneration | ErrInvalidTransferEpoch | ErrMetadataClaimOutstanding
| ErrMetadataRetryRequired | ErrInvalidMetadataClaim | ErrMetadataClaimNotAdmitted
| ErrInvalidMetadataOutcome | ErrReliableTransferTimeout | ErrMetadataTransferFaulted
| ErrNonMonotonicMetadataClock | ErrUninitializedLifecycle | ErrUnexpectedLifecycleCommand
| ErrNonMonotonicLifecycleClock | ErrLifecycleClaimOutstanding | ErrLifecycleRetryRequired
| ErrLifecycleTransitionPending | ErrLifecycleNoPendingAction | ErrInvalidLifecycleClaim
| ErrLifecycleClaimNotAdmitted | ErrInvalidLifecycleOutcome | ErrSequenceClaimOutstanding
| ErrSequenceRetryRequired | ErrInvalidSequenceClaim | ErrSequenceClaimNotAdmitted
| ErrInvalidSequenceOutcome | ErrAuthenticationUnavailable | ErrInvalidAuthOutputLength.

#[export] Instance gip_err_eq_dec : EqDecision gip_err.
Proof. solve_decision. Defined.

Abbreviation gres := (result gip_err).

(** [if err := f(); err != nil { return err }] for a validator, whose nil is [None]. *)
Notation "'check' c 'in' k" := (match c with Some e => Err e | None => k end)
  (at level 10, c at level 100, k at level 200) : go_scope.

(** ** The single-packet header *)

Definition SinglePacketHeaderSize : nat := 4.
Definition MessageNumberDirectMotor : Z := 9.
Definition MessageNumberGamepadInput : Z := 0.
Definition DataClassCommand : Z := 0.
Definition DataClassLowLatency : Z := 1.
Definition DataClassStandardLatency : Z := 2.
Definition DataClassAudio : Z := 3.
Definition flagFragment : Z := 0x80.
Definition flagInitFragment : Z := 0x40.
Definition flagSystem : Z := 0x20.
Definition flagAcknowledge : Z := 0x10.
Definition flagReserved : Z := 0x08.
Definition flagExpansion : Z := 0x07.
Definition lengthExtended : Z := 0x80.

Record SinglePacketHeader := {
  DataClass : Z;
  MessageNumber : Z;
  System : bool;
  AcknowledgementRequested : bool;
  ExpansionIndex : Z;
  Sequence : Z;
  PayloadLength : Z;
}.

#[export] Instance SinglePacketHeader_eq_dec : EqDecision SinglePacketHeader.
Proof. solve_decision. Defined.

Definition SinglePacketHeader_Validate (header : SinglePacketHeader) : option gip_err :=
  if DataClassAudio <? DataClass header then Some ErrReservedDataClass
  else if 0x1f <? MessageNumber header then Some ErrInvalidMessageNumber
  else if flagExpansion <? ExpansionIndex header then Some ErrInvalidExpansionIndex
  else if Sequence header =? 0 then Some ErrReservedSequence
  else
    let maxPayload := if negb (DataClass header =? DataClassAudio) then 64 - 4 else 127 in
    if maxPayload <? PayloadLength header then Some ErrPayloadTooLarge else None.

Definition messageType (header : SinglePacketHeader) : Z :=
  Z.lor (u8 (Z.shiftl (DataClass header) 5)) (MessageNumber header).

Definition EncodeSinglePacketHeaderInto (dst : list Z) (header : SinglePacketHeader) : gres (list Z) :=
  if negb (length dst =? SinglePacketHeaderSize)%nat then Err ErrInvalidLength
  else check SinglePacketHeader_Validate header in
    let flags := ExpansionIndex header in
    let flags := set_mask (System header) flagSystem flags in
    let flags := set_mask (AcknowledgementRequested header) flagAcknowledge flags in
    Ok [messageType header; flags; Sequence header; u8 (PayloadLength header)].

Definition DecodeSinglePacketHeader (src : list Z) : gres SinglePacketHeader :=
  if negb (length src =? SinglePacketHeaderSize)%nat then Err ErrInvalidLength
  else
    let dataClass := Z.shiftr (byte_at src 0) 5 in
    if DataClassAudio <? dataClass then Err ErrReservedDataClass
    else
      let flags := byte_at src 1 in
      if has_mask flags flagFragment then Err ErrFragmentedHeader
      else if has_mask flags flagInitFragment then Err ErrInvalidInitFragment
      else if has_mask flags flagReserved then Err ErrReservedHeaderFlag
      else if byte_at src 2 =? 0 then Err ErrReservedSequence
      else if has_mask (byte_at src 3) lengthExtended then Err ErrExtendedPayloadLength
      else
        let header := {|
          DataClass := dataClass; MessageNumber := Z.land (byte_at src 0) 0x1f;
          System := has_mask flags flagSystem;
          AcknowledgementRequested := has_mask flags flagAcknowledge;
          ExpansionIndex := Z.land flags flagExpansion;
          Sequence := byte_at src 2; PayloadLength := byte_at src 3 |} in
        check SinglePacketHeader_Validate header in Ok header.

(** ** Gamepad input *)

Record InputStateV1 := {
  Menu : bool; View : bool;
  A_ : bool; B_ : bool; X_ : bool; Y_ : bool;
  DPadUp : bool; DPadDown : bool; DPadLeft : bool; DPadRight : bool;
  LeftBumper : bool; RightBumper : bool;
  LeftStickButton : bool; RightStickButton : bool;
  Guide : bool; Share : bool;
  LeftTrigger : Z; RightTrigger : Z;
  LeftStickX : Z; LeftStickY : Z; RightStickX : Z; RightStickY : Z;
}.

#[export] Instance InputStateV1_eq_dec : EqDecision InputStateV1.
Proof. solve_decision. Defined.

Definition InputStateV1_Validate (state : InputStateV1) : option gip_err :=
  if 1023 <? LeftTrigger state then Some ErrTriggerOutOfRange
  else if 1023 <? RightTrigger state then Some ErrTriggerOutOfRange
  else None.

Definition ValidateBaseInputBody (state : InputStateV1) : option gip_err :=
  match InputStateV1_Validate state with
  | Some e => Some e
  | None =>
      if Guide state then Some ErrGuideRequiresStatusMessage
      else if Share state then Some ErrShareRequiresExtension
      else None
  end.

Definition BaseInputBodySize : nat := 14.
Definition GamepadInputMessageSize : nat := 18.
Definition ConsoleFunctionMapSize : nat := 18.
Definition ConsoleFunctionMapGamepadInputPayloadSize : nat := 32.
Definition ConsoleFunctionMapGamepadInputMessageSize : nat := 36.

Record GamepadInputReportV1 := { State : InputStateV1; KeepAlive : bool }.

#[export] Instance GamepadInputReportV1_eq_dec : EqDecision GamepadInputReportV1.
Proof. solve_decision. Defined.

Definition GamepadInputReportV1_Validate (report : GamepadInputReportV1) : option gip_err :=
  ValidateBaseInputBody (State report).

(** Bits 1 to 15 of the button word, from Keep Alive to the right stick. *)
Definition baseButtonKeepAlive : Z := 0x0002.
Definition baseButtonMenu : Z := 0x0004.
Definition baseButtonView : Z := 0x0008.
Definition baseButtonA : Z := 0x0010.
Definition baseButtonB : Z := 0x0020.
Definition baseButtonX : Z := 0x0040.
Definition baseButtonY : Z := 0x0080.
Definition baseButtonDPadUp : Z := 0x0100.
Definition baseButtonDPadDown : Z := 0x0200.
Definition baseButtonDPadLeft : Z := 0x0400.
Definition baseButtonDPadRight : Z := 0x0800.
Definition baseButtonLeftBumper : Z := 0x1000.
Definition baseButtonRightBumper : Z := 0x2000.
Definition baseButtonLeftStick : Z := 0x4000.
Definition baseButtonRightStick : Z := 0x8000.
Definition baseButtonReservedMask : Z := 0x0001.

Definition encodeBaseButtons (report : GamepadInputReportV1) : Z :=
  let state := State report in
  let buttons := 0 in
  let buttons := set_mask (KeepAlive report) baseButtonKeepAlive buttons in
  let buttons := set_mask (Menu state) baseButtonMenu buttons in
  let buttons := set_mask (View state) baseButtonView buttons in
  let buttons := set_mask (A_ state) baseButtonA buttons in
  let buttons := set_mask (B_ state) baseButtonB buttons in
  let buttons := set_mask (X_ state) baseButtonX buttons in
  let buttons := set_mask (Y_ state) baseButtonY buttons in
  let buttons := set_mask (DPadUp state) baseButtonDPadUp buttons in
  let buttons := set_mask (DPadDown state) baseButtonDPadDown buttons in
  let buttons := set_mask (DPadLeft state) baseButtonDPadLeft buttons in
  let buttons := set_mask (DPadRight state) baseButtonDPadRight buttons in
  let buttons := set_mask (LeftBumper state) baseButtonLeftBumper buttons in
  let buttons := set_mask (RightBumper state) baseButtonRightBumper buttons in
  let buttons := set_mask (LeftStickButton state) baseButtonLeftStick buttons in
  set_mask (RightStickButton state) baseButtonRightStick buttons.

Definition decodeBaseButtons (buttons : Z) : InputStateV1 := {|
  Menu := has_mask buttons baseButtonMenu; View := has_mask buttons baseButtonView;
  A_ := has_mask buttons baseButtonA; B_ := has_mask buttons baseButtonB;
  X_ := has_mask buttons baseButtonX; Y_ := has_mask buttons baseButtonY;
  DPadUp := has_mask buttons baseButtonDPadUp; DPadDown := has_mask buttons baseButtonDPadDown;
  DPadLeft := has_mask buttons baseButtonDPadLeft; DPadRight := has_mask buttons baseButtonDPadRight;
  LeftBumper := has_mask buttons baseButtonLeftBumper;
  RightBumper := has_mask buttons baseButtonRightBumper;
  LeftStickButton := has_mask buttons baseButtonLeftStick;
  RightStickButton := has_mask buttons baseButtonRightStick;
  Guide := false; Share := false; LeftTrigger := 0; RightTrigger := 0;
  LeftStickX := 0; LeftStickY := 0; RightStickX := 0; RightStickY := 0 |}.

(** The assignments of the six axes of a decoded state. *)
Definition with_axes (state : InputStateV1) (lt rt lx ly rx ry : Z) : InputStateV1 := {|
  Menu := Menu state; View := View state; A_ := A_ state; B_ := B_ state; X_ := X_ state; Y_ := Y_ state;
  DPadUp := DPadUp state; DPadDown := DPadDown state; DPadLeft := DPadLeft state;
  DPadRight := DPadRight state; LeftBumper := LeftBumper state; RightBumper := RightBumper state;
  LeftStickButton := LeftStickButton state; RightStickButton := RightStickButton state;
  Guide := Guide state; Share := Share state; LeftTrigger := lt; RightTrigger := rt;
  LeftStickX := lx; LeftStickY := ly; RightStickX := rx; RightStickY := ry |}.

Definition with_share (state : InputStateV1) (share : bool) : InputStateV1 := {|
  Menu := Menu state; View := View state; A_ := A_ state; B_ := B_ state; X_ := X_ state; Y_ := Y_ state;
  DPadUp := DPadUp state; DPadDown := DPadDown state; DPadLeft := DPadLeft state;
  DPadRight := DPadRight state; LeftBumper := LeftBumper state; RightBumper := RightBumper state;
  LeftStickButton := LeftStickButton state; RightStickButton := RightStickButton state;
  Guide := Guide state; Share := share; LeftTrigger := LeftTrigger state; RightTrigger := RightTrigger state;
  LeftStickX := LeftStickX state; LeftStickY := LeftStickY state; RightStickX := RightStickX state;
  RightStickY := RightStickY state |}.

(** binary.LittleEndian.Uint16(src[i:i+2]) and Uint32(src[i:i+4]). *)
Definition rd16 (src : list Z) (i : nat) : Z := le_val (slice i (i + 2) src).
Definition rd32 (src : list Z) (i : nat) : Z := le_val (slice i (i + 4) src).

Definition axes_bytes (state : InputStateV1) : list Z :=
  le_bytes 2 (LeftTrigger state) ++ le_bytes 2 (RightTrigger state) ++
  le_bytes 2 (u16 (LeftStickX state)) ++ le_bytes 2 (u16 (LeftStickY state)) ++
  le_bytes 2 (u16 (RightStickX state)) ++ le_bytes 2 (u16 (RightStickY state)).

Definition EncodeBaseInputBodyInto (dst : list Z) (report : GamepadInputReportV1) : gres (list Z) :=
  if negb (length dst =? BaseInputBodySize)%nat then Err ErrInvalidLength
  else check GamepadInputReportV1_Validate report in
    Ok (le_bytes 2 (encodeBaseButtons report) ++ axes_bytes (State report)).

Definition read_axes (state : InputStateV1) (src : list Z) (i : nat) : InputStateV1 :=
  with_axes state (rd16 src i) (rd16 src (i + 2)) (i16 (rd16 src (i + 4))) (i16 (rd16 src (i + 6)))
    (i16 (rd16 src (i + 8))) (i16 (rd16 src (i + 10))).

Definition DecodeBaseInputBody (src : list Z) : gres GamepadInputReportV1 :=
  if negb (length src =? BaseInputBodySize)%nat then Err ErrInvalidLength
  else
    let buttons := rd16 src 0 in
    if has_mask buttons baseButtonReservedMask then Err ErrReservedButtonBits
    else
      let report := {| State := read_axes (decodeBaseButtons buttons) src 2;
                       KeepAlive := has_mask buttons baseButtonKeepAlive |} in
      check GamepadInputReportV1_Validate report in Ok report.

Definition GamepadInputHeader (sequence : Z) : SinglePacketHeader := {|
  DataClass := DataClassLowLatency; MessageNumber := MessageNumberGamepadInput; System := false;
  AcknowledgementRequested := false; ExpansionIndex := 0; Sequence := sequence; PayloadLength := 14 |}.

Definition EncodeGamepadInputMessageInto (dst : list Z) (v : Z * GamepadInputReportV1) : gres (list Z) :=
  let '(sequence, report) := v in
  if negb (length dst =? GamepadInputMessageSize)%nat then Err ErrInvalidLength
  else check GamepadInputReportV1_Validate report in
    let? header := EncodeSinglePacketHeaderInto (zeros 4) (GamepadInputHeader sequence) in
    let? body := EncodeBaseInputBodyInto (zeros 14) report in
    Ok (header ++ body).

(** The test every message decoder makes of its header. *)
Definition header_is (header : SinglePacketHeader) (class number : Z) (system : bool) (size : Z) : bool :=
  negb (negb (DataClass header =? class) || negb (MessageNumber header =? number) ||
        negb (Bool.eqb (System header) system) || AcknowledgementRequested header ||
        negb (ExpansionIndex header =? 0) || negb (PayloadLength header =? size)).

Definition DecodeGamepadInputMessage (wire : list Z) : gres (Z * GamepadInputReportV1) :=
  if negb (length wire =? GamepadInputMessageSize)%nat then Err ErrInvalidLength
  else
    let? header := DecodeSinglePacketHeader (slice 0 4 wire) in
    if negb (header_is header DataClassLowLatency MessageNumberGamepadInput false 14)
    then Err ErrInvalidGamepadInputMessage
    else
      let? report := DecodeBaseInputBody (slice 4 18 wire) in
      Ok (Sequence header, report).

Definition EncodeConsoleFunctionMapGamepadInputMessageInto (dst : list Z)
    (v : Z * GamepadInputReportV1) : gres (list Z) :=
  let '(sequence, report) := v in
  if negb (length dst =? ConsoleFunctionMapGamepadInputMessageSize)%nat then Err ErrInvalidLength
  else check InputStateV1_Validate (State report) in
    if Guide (State report) then Err ErrGuideRequiresStatusMessage
    else
      let base := {| State := with_share (State report) false; KeepAlive := KeepAlive report |} in
      let header := {|
        DataClass := DataClassLowLatency; MessageNumber := MessageNumberGamepadInput; System := false;
        AcknowledgementRequested := false; ExpansionIndex := 0; Sequence := sequence;
        PayloadLength := Z.of_nat ConsoleFunctionMapGamepadInputPayloadSize |} in
      let? header := EncodeSinglePacketHeaderInto (zeros 4) header in
      let? body := EncodeBaseInputBodyInto (zeros 14) base in
      Ok (header ++ body ++ (if Share (State report) then 1 else 0) :: zeros 17).

Definition allZero (l : list Z) : bool := forallb (fun b => b =? 0) l.

Definition DecodeConsoleFunctionMapGamepadInputMessage (wire : list Z) : gres (Z * GamepadInputReportV1) :=
  if negb (length wire =? ConsoleFunctionMapGamepadInputMessageSize)%nat then Err ErrInvalidLength
  else
    let? header := DecodeSinglePacketHeader (slice 0 4 wire) in
    if negb (header_is header DataClassLowLatency MessageNumberGamepadInput false 32)
    then Err ErrInvalidGamepadInputMessage
    else
      let? report := DecodeBaseInputBody (slice 4 18 wire) in
      let extension := slice 18 36 wire in
      if (1 <? byte_at extension 0) || negb (allZero (slice 1 18 extension))
      then Err ErrInvalidConsoleFunctionMap
      else Ok (Sequence header, {| State := with_share (State report) (byte_at extension 0 =? 1);
                                   KeepAlive := KeepAlive report |}).

(** ** Direct Motor *)

Definition RumbleBodySize : nat := 9.
Definition DirectMotorMessageSize : nat := 13.
Definition DirectMotorCommandValue : Z := 0.
Definition DirectMotorMaximumLevel : Z := 100.
Definition MotorAll : Z := 15.

Record RumbleBodyV1 := {
  Enabled : Z; LeftImpulse : Z; RightImpulse : Z; LeftVibration : Z; RightVibration : Z;
  Duration : Z; Delay : Z; Repeat : Z;
}.

#[export] Instance RumbleBodyV1_eq_dec : EqDecision RumbleBodyV1.
Proof. solve_decision. Defined.

Definition RumbleBodyV1_Validate (body : RumbleBodyV1) : option gip_err :=
  if negb (Z.ldiff (Enabled body) MotorAll =? 0) then Some ErrInvalidMotorMask
  else first_some (fun level => if DirectMotorMaximumLevel <? level then Some ErrMotorLevelOutOfRange else None)
    [LeftImpulse body; RightImpulse body; LeftVibration body; RightVibration body].

Definition IsCancellation (body : RumbleBodyV1) : bool :=
  match RumbleBodyV1_Validate body with None => Duration body =? 0 | Some _ => false end.

Definition IsCanonicalImmediateStop (body : RumbleBodyV1) : bool :=
  IsCancellation body && (Delay body =? 0) && (Repeat body =? 0).

Definition NewStopRumbleBody : RumbleBodyV1 := {|
  Enabled := 0; LeftImpulse := 0; RightImpulse := 0; LeftVibration := 0; RightVibration := 0;
  Duration := 0; Delay := 0; Repeat := 0 |}.

Definition EncodeRumbleBodyInto (dst : list Z) (body : RumbleBodyV1) : gres (list Z) :=
  if negb (length dst =? RumbleBodySize)%nat then Err ErrInvalidLength
  else check RumbleBodyV1_Validate body in
    Ok [DirectMotorCommandValue; Enabled body; LeftImpulse body; RightImpulse body; LeftVibration body;
        RightVibration body; Duration body; Delay body; Repeat body].

Definition DecodeRumbleBody (src : list Z) : gres RumbleBodyV1 :=
  if negb (length src =? RumbleBodySize)%nat then Err ErrInvalidLength
  else if negb (byte_at src 0 =? DirectMotorCommandValue) then Err ErrInvalidDirectMotorCommand
  else
    let body := {|
      Enabled := byte_at src 1; LeftImpulse := byte_at src 2; RightImpulse := byte_at src 3;
      LeftVibration := byte_at src 4; RightVibration := byte_at src 5; Duration := byte_at src 6;
      Delay := byte_at src 7; Repeat := byte_at src 8 |} in
    check RumbleBodyV1_Validate body in Ok body.

Definition DirectMotorHeader (sequence : Z) : SinglePacketHeader := {|
  DataClass := DataClassCommand; MessageNumber := MessageNumberDirectMotor; System := false;
  AcknowledgementRequested := false; ExpansionIndex := 0; Sequence := sequence; PayloadLength := 9 |}.

Definition EncodeDirectMotorMessageInto (dst : list Z) (v : Z * RumbleBodyV1) : gres (list Z) :=
  let '(sequence, body) := v in
  if negb (length dst =? DirectMotorMessageSize)%nat then Err ErrInvalidLength
  else check RumbleBodyV1_Validate body in
    let? header := EncodeSinglePacketHeaderInto (zeros 4) (DirectMotorHeader sequence) in
    let? wire := EncodeRumbleBodyInto (zeros 9) body in
    Ok (header ++ wire).

Definition DecodeDirectMotorMessage (wire : list Z) : gres (Z * RumbleBodyV1) :=
  if negb (length wire =? DirectMotorMessageSize)%nat then Err ErrInvalidLength
  else
    let? header := DecodeSinglePacketHeader (slice 0 4 wire) in
    if negb (header_is header DataClassCommand MessageNumberDirectMotor false 9)
    then Err ErrInvalidDirectMotorMessage
    else
      let? body := DecodeRumbleBody (slice 4 13 wire) in
      Ok (Sequence header, body).

(** ** Extended status without events *)

Definition ExtendedStatusNoEventsBodySize : nat := 4.
Definition ExtendedStatusNoEventsMessageSize : nat := 8.
Definition MessageNumberStatusDevice : Z := 3.
Definition StatusPoweringOff : Z := 0.
Definition StatusFullPower : Z := 2.
Definition StatusNotCharging : Z := 0.
Definition StatusChargeError : Z := 2.
Definition StatusBatteryAbsent : Z := 0.
Definition StatusBatteryRechargeable : Z := 2.
Definition StatusBatteryCriticallyLow : Z := 0.
Definition StatusBatteryFull : Z := 3.

Record ExtendedStatusNoEventsBodyV1 := {
  PowerLevel : Z; ChargeState : Z; BatteryType : Z; BatteryLevel : Z; DeviceActive : bool;
}.

Definition ExtendedStatusNoEventsBodyV1_Validate (body : ExtendedStatusNoEventsBodyV1) : option gip_err :=
  if negb (PowerLevel body =? StatusPoweringOff) && negb (PowerLevel body =? StatusFullPower)
  then Some ErrReservedStatusValue
  else if StatusChargeError <? ChargeState body then Some ErrReservedStatusValue
  else if StatusBatteryRechargeable <? BatteryType body then Some ErrReservedStatusValue
  else if StatusBatteryFull <? BatteryLevel body then Some ErrReservedStatusValue
  else None.

Definition NewWiredNoBatteryStatus (poweringOff : bool) : ExtendedStatusNoEventsBodyV1 := {|
  PowerLevel := if poweringOff then StatusPoweringOff else StatusFullPower;
  ChargeState := StatusNotCharging; BatteryType := StatusBatteryAbsent;
  BatteryLevel := StatusBatteryCriticallyLow; DeviceActive := false |}.

Definition statusByte (body : ExtendedStatusNoEventsBodyV1) : Z :=
  Z.lor (Z.lor (Z.lor (u8 (Z.shiftl (PowerLevel body) 6)) (u8 (Z.shiftl (ChargeState body) 4)))
    (u8 (Z.shiftl (BatteryType body) 2))) (BatteryLevel body).

Definition EncodeExtendedStatusNoEventsBodyInto (dst : list Z) (body : ExtendedStatusNoEventsBodyV1) :
    gres (list Z) :=
  if negb (length dst =? ExtendedStatusNoEventsBodySize)%nat then Err ErrInvalidLength
  else check ExtendedStatusNoEventsBodyV1_Validate body in
    let extended := if DeviceActive body then 1 else 0 in
    Ok [statusByte body; extended; 0; 0].

Definition DecodeExtendedStatusNoEventsBody (src : list Z) : gres ExtendedStatusNoEventsBodyV1 :=
  if negb (length src =? ExtendedStatusNoEventsBodySize)%nat then Err ErrInvalidLength
  else if has_mask (byte_at src 1) 0xfc || negb (byte_at src 2 =? 0) || negb (byte_at src 3 =? 0)
  then Err ErrReservedExtendedStatusFlag
  else if has_mask (byte_at src 1) 0x02 then Err ErrUnsupportedStatusEvents
  else
    let status := byte_at src 0 in
    let body := {|
      PowerLevel := Z.shiftr status 6; ChargeState := Z.land (Z.shiftr status 4) 0x03;
      BatteryType := Z.land (Z.shiftr status 2) 0x03; BatteryLevel := Z.land status 0x03;
      DeviceActive := has_mask (byte_at src 1) 0x01 |} in
    check ExtendedStatusNoEventsBodyV1_Validate body in Ok body.

Definition ExtendedStatusNoEventsHeader (sequence : Z) : SinglePacketHeader := {|
  DataClass := DataClassCommand; MessageNumber := MessageNumberStatusDevice; System := true;
  AcknowledgementRequested := false; ExpansionIndex := 0; Sequence := sequence; PayloadLength := 4 |}.

Definition EncodeExtendedStatusNoEventsMessageInto (dst : list Z) (v : Z * ExtendedStatusNoEventsBodyV1) :
    gres (list Z) :=
  let '(sequence, body) := v in
  if negb (length dst =? ExtendedStatusNoEventsMessageSize)%nat then Err ErrInvalidLength
  else check ExtendedStatusNoEventsBodyV1_Validate body in
    let? header := EncodeSinglePacketHeaderInto (zeros 4) (ExtendedStatusNoEventsHeader sequence) in
    let? wire := EncodeExtendedStatusNoEventsBodyInto (zeros 4) body in
    Ok (header ++ wire).

Definition DecodeExtendedStatusNoEventsMessage (wire : list Z) : gres (Z * ExtendedStatusNoEventsBodyV1) :=
  if negb (length wire =? ExtendedStatusNoEventsMessageSize)%nat then Err ErrInvalidLength
  else
    let? header := DecodeSinglePacketHeader (slice 0 4 wire) in
    if negb (header_is header DataClassCommand MessageNumberStatusDevice true 4)
    then Err ErrInvalidStatusMessage
    else
      let? body := DecodeExtendedStatusNoEventsBody (slice 4 8 wire) in
      Ok (Sequence header, body).

(** ** Guide LED and Guide button *)

Definition GuideLEDCommandBodySize : nat := 3.
Definition GuideLEDCommandMessageSize : nat := 7.
Definition MessageNumberLEDCommand : Z := 10.
Definition GuideLEDCommandValue : Z := 0.
Definition GuideLEDMaximumIntensity : Z := 47.

Definition GuideLEDPattern_valid (pattern : Z) : bool :=
  existsb (fun p => pattern =? p) [0x00; 0x01; 0x02; 0x03; 0x04; 0x0d].

Record GuideLEDCommandV1 := { Pattern : Z; Intensity : Z }.

Definition GuideLEDCommandV1_Validate (command : GuideLEDCommandV1) : option gip_err :=
  if negb (GuideLEDPattern_valid (Pattern command)) then Some ErrReservedGuideLEDPattern
  else if GuideLEDMaximumIntensity <? Intensity command then Some ErrGuideLEDIntensityOutOfRange
  else None.

Definition EncodeGuideLEDCommandBodyInto (dst : list Z) (command : GuideLEDCommandV1) : gres (list Z) :=
  if negb (length dst =? GuideLEDCommandBodySize)%nat then Err ErrInvalidLength
  else check GuideLEDCommandV1_Validate command in
    Ok [GuideLEDCommandValue; Pattern command; Intensity command].

Definition DecodeGuideLEDCommandBody (src : list Z) : gres GuideLEDCommandV1 :=
  if negb (length src =? GuideLEDCommandBodySize)%nat then Err ErrInvalidLength
  else if negb (byte_at src 0 =? GuideLEDCommandValue) then Err ErrInvalidGuideLEDCommand
  else
    let command := {| Pattern := byte_at src 1; Intensity := byte_at src 2 |} in
    check GuideLEDCommandV1_Validate command in Ok command.

Definition GuideLEDCommandHeader (sequence : Z) : SinglePacketHeader := {|
  DataClass := DataClassCommand; MessageNumber := MessageNumberLEDCommand; System := true;
  AcknowledgementRequested := false; ExpansionIndex := 0; Sequence := sequence; PayloadLength := 3 |}.

Definition EncodeGuideLEDCommandMessageInto (dst : list Z) (v : Z * GuideLEDCommandV1) : gres (list Z) :=
  let '(sequence, command) := v in
  if negb (length dst =? GuideLEDCommandMessageSize)%nat then Err ErrInvalidLength
  else check GuideLEDCommandV1_Validate command in
    let? header := EncodeSinglePacketHeaderInto (zeros 4) (GuideLEDCommandHeader sequence) in
    let? wire := EncodeGuideLEDCommandBodyInto (zeros 3) command in
    Ok (header ++ wire).

Definition DecodeGuideLEDCommandMessage (wire : list Z) : gres (Z * GuideLEDCommandV1) :=
  if negb (length wire =? GuideLEDCommandMessageSize)%nat then Err ErrInvalidLength
  else
    let? header := DecodeSinglePacketHeader (slice 0 4 wire) in
    if negb (header_is header DataClassCommand MessageNumberLEDCommand true 3)
    then Err ErrInvalidGuideLEDMessage
    else
      let? command := DecodeGuideLEDCommandBody (slice 4 7 wire) in
      Ok (Sequence header, command).

Definition GuideButtonStatusMessageSize : nat := 6.
Definition MessageNumberGuideButtonStatus : Z := 7.
Definition GuideButtonVirtualKey : Z := 0x5b.

Record GuideButtonStatusV1 := { Down : bool }.

Definition EncodeGuideButtonStatusMessageInto (dst : list Z) (v : Z * GuideButtonStatusV1) : gres (list Z) :=
  let '(sequence, status) := v in
  if negb (length dst =? GuideButtonStatusMessageSize)%nat then Err ErrInvalidLength
  else
    let header := {|
      DataClass := DataClassCommand; MessageNumber := MessageNumberGuideButtonStatus; System := true;
      AcknowledgementRequested := false; ExpansionIndex := 0; Sequence := sequence; PayloadLength := 2 |} in
    let? header := EncodeSinglePacketHeaderInto (zeros 4) header in
    Ok (header ++ [if Down status then 1 else 0; GuideButtonVirtualKey]).

Definition DecodeGuideButtonStatusMessage (wire : list Z) : gres (Z * GuideButtonStatusV1) :=
  if negb (length wire =? GuideButtonStatusMessageSize)%nat then Err ErrInvalidLength
  else
    let? header := DecodeSinglePacketHeader (slice 0 4 wire) in
    if negb (header_is header DataClassCommand MessageNumberGuideButtonStatus true 2) ||
       (1 <? byte_at wire 4) || negb (byte_at wire 5 =? GuideButtonVirtualKey)
    then Err ErrInvalidGuideButtonStatusMessage
    else Ok (Sequence header, {| Down := byte_at wire 4 =? 1 |}).

(** ** Protocol Control acknowledgements *)

Definition ProtocolControlACKBodySize : nat := 9.
Definition ProtocolControlACKMessageSize : nat := 13.
Definition MessageNumberProtocolControl : Z := 1.
Definition ProtocolControlCodeACK : Z := 0.

Record ProtocolControlACKBodyV1 := {
  ReferencedDataClass : Z; ReferencedMessageNumber : Z; ReferencedSystem : bool;
  ReferencedExpansionIndex : Z; FragmentOffset : Z; RemainingBuffer : Z;
}.

Definition ProtocolControlACKBodyV1_Validate (body : ProtocolControlACKBodyV1) : option gip_err :=
  if DataClassAudio <? ReferencedDataClass body then Some ErrReservedDataClass
  else if 0x1f <? ReferencedMessageNumber body then Some ErrInvalidMessageNumber
  else if flagExpansion <? ReferencedExpansionIndex body then Some ErrInvalidExpansionIndex
  else None.

Definition referencedMessageType (body : ProtocolControlACKBodyV1) : Z :=
  Z.lor (u8 (Z.shiftl (ReferencedDataClass body) 5)) (ReferencedMessageNumber body).

Definition referencedFlags (body : ProtocolControlACKBodyV1) : Z :=
  set_mask (ReferencedSystem body) flagSystem (ReferencedExpansionIndex body).

Definition EncodeProtocolControlACKBodyInto (dst : list Z) (body : ProtocolControlACKBodyV1) : gres (list Z) :=
  if negb (length dst =? ProtocolControlACKBodySize)%nat then Err ErrInvalidLength
  else check ProtocolControlACKBodyV1_Validate body in
    Ok (ProtocolControlCodeACK :: referencedMessageType body :: referencedFlags body ::
        le_bytes 4 (FragmentOffset body) ++ le_bytes 2 (RemainingBuffer body)).

Definition DecodeProtocolControlACKBody (src : list Z) : gres ProtocolControlACKBodyV1 :=
  if negb (length src =? ProtocolControlACKBodySize)%nat then Err ErrInvalidLength
  else if negb (byte_at src 0 =? ProtocolControlCodeACK) then Err ErrUnsupportedProtocolControlCode
  else if negb (Z.ldiff (byte_at src 2) (Z.lor flagSystem flagExpansion) =? 0)
  then Err ErrInvalidProtocolControlReferenceFlags
  else
    let body := {|
      ReferencedDataClass := Z.shiftr (byte_at src 1) 5;
      ReferencedMessageNumber := Z.land (byte_at src 1) 0x1f;
      ReferencedSystem := has_mask (byte_at src 2) flagSystem;
      ReferencedExpansionIndex := Z.land (byte_at src 2) flagExpansion;
      FragmentOffset := rd32 src 3; RemainingBuffer := rd16 src 7 |} in
    check ProtocolControlACKBodyV1_Validate body in Ok body.

Definition ProtocolControlACKHeader (sequence : Z) : SinglePacketHeader := {|
  DataClass := DataClassCommand; MessageNumber := MessageNumberProtocolControl; System := true;
  AcknowledgementRequested := false; ExpansionIndex := 0; Sequence := sequence; PayloadLength := 9 |}.

Definition EncodeProtocolControlACKMessageInto (dst : list Z) (v : Z * ProtocolControlACKBodyV1) :
    gres (list Z) :=
  let '(sequence, body) := v in
  if negb (length dst =? ProtocolControlACKMessageSize)%nat then Err ErrInvalidLength
  else check ProtocolControlACKBodyV1_Validate body in
    let? header := EncodeSinglePacketHeaderInto (zeros 4) (ProtocolControlACKHeader sequence) in
    let? wire := EncodeProtocolControlACKBodyInto (zeros 9) body in
    Ok (header ++ wire).

Definition DecodeProtocolControlACKMessage (wire : list Z) : gres (Z * ProtocolControlACKBodyV1) :=
  if negb (length wire =? ProtocolControlACKMessageSize)%nat then Err ErrInvalidLength
  else
    let? header := DecodeSinglePacketHeader (slice 0 4 wire) in
    if negb (header_is header DataClassCommand MessageNumberProtocolControl true 9)
    then Err ErrInvalidProtocolControlMessage
    else
      let? body := DecodeProtocolControlACKBody (slice 4 13 wire) in
      Ok (Sequence header, body).

Definition messageNumberMetadataRequest : Z := 4.
Definition MetadataMaximumBoundLength : Z := 0x3fff.

Record ReliableAcknowledgement := {
  TransferGeneration : Z; TransferEpoch : Z; ra_MessageNumber : Z; ra_Sequence : Z;
  ContiguousPayloadBytes : Z; ReceiverRemainingBufferBytes : Z;
}.

Definition DecodeMetadataReliableAcknowledgement (wire : list Z) (transferGeneration transferEpoch : Z) :
    gres ReliableAcknowledgement :=
  if (transferGeneration =? 0) || (transferEpoch =? 0) then Err ErrInvalidAcknowledgement
  else
    let? ack := DecodeProtocolControlACKMessage wire in
    let '(sequence, body) := ack in
    if negb (ReferencedDataClass body =? DataClassCommand) ||
       negb (ReferencedMessageNumber body =? messageNumberMetadataRequest) ||
       negb (ReferencedSystem body) || negb (ReferencedExpansionIndex body =? 0) ||
       (MetadataMaximumBoundLength <? FragmentOffset body)
    then Err ErrInvalidAcknowledgement
    else Ok {| TransferGeneration := transferGeneration; TransferEpoch := transferEpoch;
               ra_MessageNumber := messageNumberMetadataRequest; ra_Sequence := sequence;
               ContiguousPayloadBytes := u16 (FragmentOffset body);
               ReceiverRemainingBufferBytes := RemainingBuffer body |}.

(** ** The broker's semantic input frame *)

Definition SemanticInputWireVersion : Z := 1.
Definition SemanticInputWireSize : nat := 24.
Definition semanticInputValidButtons : Z := 0xffff.

(** Bits 0 to 15, from Menu to Share. *)
Definition encodeSemanticInputButtons (state : InputStateV1) : Z :=
  let buttons := 0 in
  let buttons := set_mask (Menu state) 0x0001 buttons in
  let buttons := set_mask (View state) 0x0002 buttons in
  let buttons := set_mask (A_ state) 0x0004 buttons in
  let buttons := set_mask (B_ state) 0x0008 buttons in
  let buttons := set_mask (X_ state) 0x0010 buttons in
  let buttons := set_mask (Y_ state) 0x0020 buttons in
  let buttons := set_mask (DPadUp state) 0x0040 buttons in
  let buttons := set_mask (DPadDown state) 0x0080 buttons in
  let buttons := set_mask (DPadLeft state) 0x0100 buttons in
  let buttons := set_mask (DPadRight state) 0x0200 buttons in
  let buttons := set_mask (LeftBumper state) 0x0400 buttons in
  let buttons := set_mask (RightBumper state) 0x0800 buttons in
  let buttons := set_mask (LeftStickButton state) 0x1000 buttons in
  let buttons := set_mask (RightStickButton state) 0x2000 buttons in
  let buttons := set_mask (Guide state) 0x4000 buttons in
  set_mask (Share state) 0x8000 buttons.

Definition decodeSemanticInputButtons (buttons : Z) : InputStateV1 := {|
  Menu := has_mask buttons 0x0001; View := has_mask buttons 0x0002;
  A_ := has_mask buttons 0x0004; B_ := has_mask buttons 0x0008;
  X_ := has_mask buttons 0x0010; Y_ := has_mask buttons 0x0020;
  DPadUp := has_mask buttons 0x0040; DPadDown := has_mask buttons 0x0080;
  DPadLeft := has_mask buttons 0x0100; DPadRight := has_mask buttons 0x0200;
  LeftBumper := has_mask buttons 0x0400; RightBumper := has_mask buttons 0x0800;
  LeftStickButton := has_mask buttons 0x1000; RightStickButton := has_mask buttons 0x2000;
  Guide := has_mask buttons 0x4000; Share := has_mask buttons 0x8000;
  LeftTrigger := 0; RightTrigger := 0; LeftStickX := 0; LeftStickY := 0; RightStickX := 0;
  RightStickY := 0 |}.

Definition EncodeSemanticInputWireV1Into (dst : list Z) (state : InputStateV1) : gres (list Z) :=
  if negb (length dst =? SemanticInputWireSize)%nat then Err ErrInvalidLength
  else check InputStateV1_Validate state in
    Ok (le_bytes 2 SemanticInputWireVersion ++ le_bytes 2 (Z.of_nat SemanticInputWireSize) ++
        le_bytes 4 (encodeSemanticInputButtons state) ++ axes_bytes state ++ zeros 4).

Definition DecodeSemanticInputWireV1 (src : list Z) : gres InputStateV1 :=
  if negb (length src =? SemanticInputWireSize)%nat then Err ErrInvalidLength
  else
    let version := rd16 src 0 in
    let embeddedSize := rd16 src 2 in
    if negb (version =? SemanticInputWireVersion) || negb (embeddedSize =? Z.of_nat SemanticInputWireSize)
    then Err ErrInvalidSemanticInputContract
    else
      let buttons := rd32 src 4 in
      if negb (Z.ldiff buttons semanticInputValidButtons =? 0) then Err ErrInvalidSemanticInputContract
      else if negb (rd32 src 20 =? 0) then Err ErrInvalidSemanticInputContract
      else
        let state := read_axes (decodeSemanticInputButtons buttons) src 8 in
        check InputStateV1_Validate state in Ok state.

(** ** Host commands *)

Definition messageNumberSetDeviceState : Z := 5.
Definition messageNumberSecurityData : Z := 6.
Definition extendedSetDeviceStatePayloadSize : Z := 15.
Definition securityDataCompletePayloadSize : Z := 2.
Definition SetDeviceStateStart : Z := 0x00.
Definition SetDeviceStateStop : Z := 0x01.
Definition SetDeviceStateFullPower : Z := 0x03.
Definition SetDeviceStateOff : Z := 0x04.
Definition SetDeviceStateQuiesce : Z := 0x05.
Definition SetDeviceStateReset : Z := 0x07.

Definition SetDeviceStateValue_validate (state : Z) : option gip_err :=
  if existsb (fun s => state =? s)
       [SetDeviceStateStart; SetDeviceStateStop; SetDeviceStateFullPower; SetDeviceStateOff;
        SetDeviceStateQuiesce; SetDeviceStateReset]
  then None else Some ErrReservedDeviceState.

Inductive ControllerHostCommandKind :=
| ControllerHostCommandMetadataRequest
| ControllerHostCommandSetDeviceState
| ControllerHostCommandExtendedSetDeviceStateInitialization
| ControllerHostCommandSecurityDataComplete.

#[export] Instance ControllerHostCommandKind_eq_dec : EqDecision ControllerHostCommandKind.
Proof. solve_decision. Defined.

Record ControllerHostCommand := {
  hc_Kind : ControllerHostCommandKind; hc_Sequence : Z; hc_State : Z;
}.

Definition ControllerHostCommand_validate (command : ControllerHostCommand) : option gip_err :=
  if hc_Sequence command =? 0 then Some ErrReservedSequence
  else
    match hc_Kind command with
    | ControllerHostCommandMetadataRequest =>
        if negb (hc_Sequence command =? 1) then Some ErrUnsupportedHostCommand else None
    | ControllerHostCommandSetDeviceState => SetDeviceStateValue_validate (hc_State command)
    | ControllerHostCommandExtendedSetDeviceStateInitialization =>
        if negb (hc_State command =? 0) then Some ErrUnsupportedSetDeviceStateVariant else None
    | ControllerHostCommandSecurityDataComplete =>
        if negb (hc_State command =? 0) then Some ErrUnsupportedHostCommand else None
    end.

Definition extended_initialization : list Z :=
  [0x06; 0x00; 0x00; 0x00; 0x00; 0x00; 0x00; 0x55; 0x53; 0x00; 0x00; 0x00; 0x00; 0x00; 0x00].

Definition isExtendedSetDeviceStateInitialization (payload : list Z) : bool :=
  bool_decide (payload = extended_initialization).

Definition isSecurityDataComplete (payload : list Z) : bool :=
  (length payload =? 2)%nat && (byte_at payload 0 =? 1) && (byte_at payload 1 =? 0).

(** The command of a decoded header and the payload after it. *)
Definition host_command (header : SinglePacketHeader) (payload : list Z) : gres ControllerHostCommand :=
  if MessageNumber header =? messageNumberMetadataRequest then
    if negb (PayloadLength header =? 0) || negb (Sequence header =? 1) then Err ErrUnsupportedHostCommand
    else Ok {| hc_Kind := ControllerHostCommandMetadataRequest; hc_Sequence := Sequence header; hc_State := 0 |}
  else if MessageNumber header =? messageNumberSetDeviceState then
    if PayloadLength header =? extendedSetDeviceStatePayloadSize then
      if negb (isExtendedSetDeviceStateInitialization payload) then Err ErrUnsupportedSetDeviceStateVariant
      else Ok {| hc_Kind := ControllerHostCommandExtendedSetDeviceStateInitialization;
                 hc_Sequence := Sequence header; hc_State := 0 |}
    else if negb (PayloadLength header =? 1) then Err ErrUnsupportedHostCommand
    else Ok {| hc_Kind := ControllerHostCommandSetDeviceState; hc_Sequence := Sequence header;
               hc_State := byte_at payload 0 |}
  else if MessageNumber header =? messageNumberSecurityData then
    if negb (PayloadLength header =? securityDataCompletePayloadSize) ||
       negb (isSecurityDataComplete payload)
    then Err ErrUnsupportedHostCommand
    else Ok {| hc_Kind := ControllerHostCommandSecurityDataComplete; hc_Sequence := Sequence header;
               hc_State := 0 |}
  else Err ErrUnsupportedHostCommand.

Definition DecodeControllerHostCommand (wire : list Z) : gres ControllerHostCommand :=
  if (length wire <? SinglePacketHeaderSize)%nat then Err ErrInvalidLength
  else
    let? header := DecodeSinglePacketHeader (slice 0 4 wire) in
    if negb (Z.of_nat (length wire) =? 4 + PayloadLength header) then Err ErrInvalidLength
    else if negb (DataClass header =? DataClassCommand) || negb (System header) ||
            AcknowledgementRequested header || negb (ExpansionIndex header =? 0)
    then Err ErrUnsupportedHostCommand
    else
      let? command := host_command header (slice 4 (length wire) wire) in
      check ControllerHostCommand_validate command in Ok command.

(** ** Downstream packets *)

Definition ControllerDownstreamPacketMaximumSize : nat := 64.
Definition controllerDownstreamPacketMaximumMessages : nat := 16.

(** A message with its kind; the Go struct keeps a field for each kind and
    only the one its Kind selects is meaningful. *)
Inductive ControllerDownstreamMessage :=
| ControllerDownstreamLifecycle (command : ControllerHostCommand)
| ControllerDownstreamProtocolControlACK (sequence : Z) (body : ProtocolControlACKBodyV1)
| ControllerDownstreamDirectMotor (sequence : Z) (body : RumbleBodyV1)
| ControllerDownstreamGuideLED (sequence : Z) (command : GuideLEDCommandV1).

Definition DecodeControllerDownstreamMessage (wire : list Z) : gres ControllerDownstreamMessage :=
  if (length wire <? SinglePacketHeaderSize)%nat then Err ErrInvalidLength
  else
    let? header := DecodeSinglePacketHeader (slice 0 4 wire) in
    if negb (Z.of_nat (length wire) =? 4 + PayloadLength header) then Err ErrInvalidLength
    else if (DataClass header =? DataClassCommand) && System header &&
            ((MessageNumber header =? messageNumberMetadataRequest) ||
             (MessageNumber header =? messageNumberSetDeviceState)) then
      let? command := DecodeControllerHostCommand wire in
      Ok (ControllerDownstreamLifecycle command)
    else if (DataClass header =? DataClassCommand) && System header &&
            (MessageNumber header =? messageNumberSecurityData) then
      match DecodeControllerHostCommand wire with
      | Err _ => Err ErrUnsupportedControllerPersonaHostMessage
      | Ok command => Ok (ControllerDownstreamLifecycle command)
      end
    else if (DataClass header =? DataClassCommand) && System header &&
            (MessageNumber header =? MessageNumberProtocolControl) then
      let? ack := DecodeProtocolControlACKMessage wire in
      Ok (ControllerDownstreamProtocolControlACK (fst ack) (snd ack))
    else if (DataClass header =? DataClassCommand) && negb (System header) &&
            (MessageNumber header =? MessageNumberDirectMotor) then
      let? motor := DecodeDirectMotorMessage wire in
      Ok (ControllerDownstreamDirectMotor (fst motor) (snd motor))
    else if (DataClass header =? DataClassCommand) && System header &&
            (MessageNumber header =? MessageNumberLEDCommand) then
      let? led := DecodeGuideLEDCommandMessage wire in
      Ok (ControllerDownstreamGuideLED (fst led) (snd led))
    else Err ErrUnsupportedControllerPersonaHostMessage.

(** The loop over the rest of a packet; each round consumes four bytes at
    least, so the packet's length is enough fuel. *)
Fixpoint downstream_loop (fuel : nat) (remaining : list Z) (messages : list ControllerDownstreamMessage) :
    gres (list ControllerDownstreamMessage) :=
  match remaining, fuel with
  | [], _ => Ok messages
  | _, O => Err ErrInvalidLength
  | _, S fuel =>
      if (length remaining <? SinglePacketHeaderSize)%nat then Err ErrInvalidLength
      else
        let? header := DecodeSinglePacketHeader (slice 0 4 remaining) in
        let messageSize := (4 + Z.to_nat (PayloadLength header))%nat in
        if (length remaining <? messageSize)%nat then Err ErrInvalidLength
        else
          let? message := DecodeControllerDownstreamMessage (slice 0 messageSize remaining) in
          if (controllerDownstreamPacketMaximumMessages <=? length messages)%nat then Err ErrInvalidLength
          else downstream_loop fuel (drop messageSize remaining) (messages ++ [message])
  end.

Definition DecodeControllerDownstreamPacket (wire : list Z) : gres (list ControllerDownstreamMessage) :=
  if (length wire =? 0)%nat || (ControllerDownstreamPacketMaximumSize <? length wire)%nat
  then Err ErrInvalidLength
  else downstream_loop (length wire) wire [].

(** ** The header is a strict codec *)

Definition header_typed (h : SinglePacketHeader) : Prop :=
  U8 (DataClass h) /\ U8 (MessageNumber h) /\ U8 (ExpansionIndex h) /\ U8 (Sequence h) /\ U16 (PayloadLength h).
Definition header_valid (h : SinglePacketHeader) : Prop := SinglePacketHeader_Validate h = None.
Definition header_flags (h : SinglePacketHeader) : Z :=
  set_mask (AcknowledgementRequested h) flagAcknowledge (set_mask (System h) flagSystem (ExpansionIndex h)).
Definition header_image (h : SinglePacketHeader) : list Z :=
  [messageType h; header_flags h; Sequence h; u8 (PayloadLength h)].

Lemma header_valid_spec h : header_typed h ->
  (header_valid h <-> DataClass h <= 3 /\ MessageNumber h <= 31 /\ ExpansionIndex h <= 7 /\ Sequence h <> 0 /\
                      PayloadLength h <= (if DataClass h =? 3 then 127 else 60)).
Proof.
  intros _. unfold header_valid, SinglePacketHeader_Validate, DataClassAudio, flagExpansion.
  split.
  - intros H. repeat (case_if_in H; [discriminate|]). repeat split; try lia. case_if; cbn in *; lia.
  - intros (H1 & H2 & H3 & H4 & H5).
    rewrite (proj2 (Z.ltb_ge _ _) H1), (proj2 (Z.ltb_ge _ _) H2), (proj2 (Z.ltb_ge _ _) H3),
      (proj2 (Z.eqb_neq _ _) H4).
    change (64 - 4) with 60.
    destruct (DataClass h =? 3); cbn [negb]; by rewrite (proj2 (Z.ltb_ge _ _) H5).
Qed.

Lemma type_byte c n : 0 <= c < 4 -> 0 <= n < 32 ->
  Z.shiftr (Z.lor (u8 (Z.shiftl c 5)) n) 5 = c /\ Z.land (Z.lor (u8 (Z.shiftl c 5)) n) 31 = n /\
  U8 (Z.lor (u8 (Z.shiftl c 5)) n).
Proof.
  intros Hc Hn.
  assert (H := all_below 4 (fun c => Forall (fun n =>
    Z.shiftr (Z.lor (u8 (Z.shiftl c 5)) n) 5 = c /\ Z.land (Z.lor (u8 (Z.shiftl c 5)) n) 31 = n /\
    U8 (Z.lor (u8 (Z.shiftl c 5)) n)) (below 32))).
  specialize (H ltac:(vm_compute; reflexivity) c ltac:(cbn; lia)).
  rewrite List.Forall_forall in H. apply H, below_In. cbn. lia.
Qed.

Lemma type_byte_read b : U8 b ->
  b = Z.lor (u8 (Z.shiftl (Z.shiftr b 5) 5)) (Z.land b 31) /\ U8 (Z.shiftr b 5) /\ U8 (Z.land b 31).
Proof.
  intros Hb. by_all_bytes (fun b => b = Z.lor (u8 (Z.shiftl (Z.shiftr b 5) 5)) (Z.land b 31) /\
    U8 (Z.shiftr b 5) /\ U8 (Z.land b 31)).
Qed.

Lemma flag_byte e s a : 0 <= e < 8 ->
  let f := set_mask a flagAcknowledge (set_mask s flagSystem e) in
  has_mask f flagFragment = false /\ has_mask f flagInitFragment = false /\ has_mask f flagReserved = false /\
  has_mask f flagSystem = s /\ has_mask f flagAcknowledge = a /\ Z.land f flagExpansion = e /\ U8 f.
Proof.
  intros He. refine (all_below 8 (fun e => let f := set_mask a flagAcknowledge (set_mask s flagSystem e) in
    has_mask f flagFragment = false /\ has_mask f flagInitFragment = false /\
    has_mask f flagReserved = false /\ has_mask f flagSystem = s /\ has_mask f flagAcknowledge = a /\
    Z.land f flagExpansion = e /\ U8 f) _ e He).
  by destruct a, s; vm_compute.
Qed.

Lemma flag_byte_read b : U8 b -> has_mask b flagFragment = false -> has_mask b flagInitFragment = false ->
  has_mask b flagReserved = false ->
  b = set_mask (has_mask b flagAcknowledge) flagAcknowledge
        (set_mask (has_mask b flagSystem) flagSystem (Z.land b flagExpansion)) /\
  U8 (Z.land b flagExpansion).
Proof.
  intros Hb. by_all_bytes (fun b => has_mask b flagFragment = false -> has_mask b flagInitFragment = false ->
    has_mask b flagReserved = false ->
    b = set_mask (has_mask b flagAcknowledge) flagAcknowledge
        (set_mask (has_mask b flagSystem) flagSystem (Z.land b flagExpansion)) /\
    U8 (Z.land b flagExpansion)).
Qed.

Lemma low_length_byte p : 0 <= p < 128 -> has_mask p lengthExtended = false.
Proof. refine (all_below 128 (fun p => has_mask p lengthExtended = false) _ p). by vm_compute. Qed.

#[export] Instance header_codec :
  StrictCodec 4 header_typed header_valid header_image EncodeSinglePacketHeaderInto DecodeSinglePacketHeader.
Proof.
  split.
  - intros dst h out _. unfold EncodeSinglePacketHeaderInto, header_valid, SinglePacketHeaderSize.
    case_if; bool_prop; [split; [done|lia]|].
    destruct (SinglePacketHeader_Validate h); [split; naive_solver|]. split; [intros [= <-]; done|by intros (_ & _ & ->)].
  - apply decode_exact.
    + intros h Ht Hv. pose proof Hv as (H1 & H2 & H3 & H4 & H5)%header_valid_spec; [|done].
      destruct Ht as (T1 & T2 & T3 & T4 & T5).
      destruct (type_byte (DataClass h) (MessageNumber h)) as (B1 & B2 & B3); [lia..|].
      destruct (flag_byte (ExpansionIndex h) (System h) (AcknowledgementRequested h)) as (F1 & F2 & F3 & F4 & F5 & F6 & F7); [lia|].
      assert (Hp : PayloadLength h < 128) by (destruct (DataClass h =? 3); lia).
      unfold DecodeSinglePacketHeader, header_image, header_flags, messageType, byte_at. cbn [length nth].
      unfold SinglePacketHeaderSize, DataClassAudio. cbn [Nat.eqb negb].
      rewrite B1, B2, F1, F2, F3, F4, F5, F6, (proj2 (Z.eqb_neq _ _) H4), u8_id by lia.
      rewrite low_length_byte, (proj2 (Z.ltb_ge 3 _)) by lia.
      assert (Er : {| DataClass := DataClass h; MessageNumber := MessageNumber h; System := System h;
        AcknowledgementRequested := AcknowledgementRequested h; ExpansionIndex := ExpansionIndex h;
        Sequence := Sequence h; PayloadLength := PayloadLength h |} = h) by (by destruct h).
      rewrite Er. unfold header_valid in Hv. by rewrite Hv.
    + intros src h Hb H. unfold DecodeSinglePacketHeader, SinglePacketHeaderSize in H.
      case_if_in H; bool_prop; [done|]. apply list_len4 in Hb0 as (b0 & b1 & b2 & b3 & ->).
      unfold byte_at in H. cbn [nth] in H. repeat (apply list.Forall_cons in Hb as [? Hb]).
      repeat (case_if_in H; [discriminate|]). bool_prop. unfold DataClassAudio in *.
      destruct (SinglePacketHeader_Validate _) eqn:Hv in H; [done|]. injection H as <-.
      destruct (type_byte_read b0) as (B1 & B2 & B3); [done|].
      destruct (flag_byte_read b1) as (F1 & F2); [done..|].
      unfold header_typed, header_valid, header_image, header_flags, messageType. cbn [DataClass MessageNumber
        System AcknowledgementRequested ExpansionIndex Sequence PayloadLength].
      rewrite <-B1, <-F1, u8_id by done. repeat split; try lia; done.
  - intros h Ht Hv. apply header_valid_spec in Hv as (H1 & H2 & H3 & H4 & H5); [|done].
    destruct Ht as (T1 & T2 & T3 & T4 & T5). split; [done|].
    destruct (type_byte (DataClass h) (MessageNumber h)) as (_ & _ & B3); [lia..|].
    destruct (flag_byte (ExpansionIndex h) (System h) (AcknowledgementRequested h)) as (_ & _ & _ & _ & _ & _ & F7); [lia|].
    unfold header_image. bytes_list.
Qed.

(** ** Messages of a fixed header and a strict body *)

Section Message.
Context {B : Type} {n : nat} {typed : B -> Prop} {image : B -> list Z}
  {encodeBody : list Z -> B -> gres (list Z)} {decodeBody : list Z -> gres B} {Validate : B -> option gip_err}
  `{!StrictCodec n typed (fun v => Validate v = None) image encodeBody decodeBody}.
Context (hdr : Z -> SinglePacketHeader) (class number : Z) (system : bool) (err : gip_err).
Hypothesis Hhdr : forall sequence, hdr sequence = {|
  DataClass := class; MessageNumber := number; System := system; AcknowledgementRequested := false;
  ExpansionIndex := 0; Sequence := sequence; PayloadLength := Z.of_nat n |}.
Hypothesis Hclass : 0 <= class < 3.
Hypothesis Hnumber : 0 <= number < 32.
Hypothesis Hn : (n <= 60)%nat.

Definition message_typed (v : Z * B) : Prop := U8 (fst v) /\ typed (snd v).
Definition message_valid (v : Z * B) : Prop := fst v <> 0 /\ Validate (snd v) = None.
Definition message_image (v : Z * B) : list Z := header_image (hdr (fst v)) ++ image (snd v).

Definition message_encode (dst : list Z) (v : Z * B) : gres (list Z) :=
  let '(sequence, body) := v in
  if negb (length dst =? 4 + n)%nat then Err ErrInvalidLength
  else check Validate body in
    let? header := EncodeSinglePacketHeaderInto (zeros 4) (hdr sequence) in
    let? wire := encodeBody (zeros n) body in
    Ok (header ++ wire).

Definition message_decode (wire : list Z) : gres (Z * B) :=
  if negb (length wire =? 4 + n)%nat then Err ErrInvalidLength
  else
    let? header := DecodeSinglePacketHeader (slice 0 4 wire) in
    if negb (header_is header class number system (Z.of_nat n)) then Err err
    else
      let? body := decodeBody (slice 4 (4 + n) wire) in
      Ok (Sequence header, body).

Lemma hdr_typed sequence : U8 sequence -> header_typed (hdr sequence).
Proof using Hhdr Hclass Hnumber Hn. intros H. rewrite Hhdr. unfold header_typed. cbn. lia. Qed.

Lemma hdr_valid sequence : U8 sequence -> (header_valid (hdr sequence) <-> sequence <> 0).
Proof using Hhdr Hclass Hnumber Hn.
  intros H. rewrite header_valid_spec by (by apply hdr_typed). rewrite Hhdr. cbn.
  destruct (Z.eqb_spec class 3); lia.
Qed.

Lemma header_is_hdr header :
  header_is header class number system (Z.of_nat n) = true -> header = hdr (Sequence header).
Proof using Hhdr.
  unfold header_is. rewrite negb_true_iff. intros H. bool_prop.
  match goal with He : Bool.eqb _ _ = true |- _ => apply eqb_prop in He end. rewrite Hhdr. destruct header; cbn in *. by subst.
Qed.

Lemma header_is_refl sequence : header_is (hdr sequence) class number system (Z.of_nat n) = true.
Proof using Hhdr. rewrite Hhdr. unfold header_is. cbn. by rewrite !Z.eqb_refl, eqb_reflx. Qed.

Lemma message_codec : StrictCodec (4 + n) message_typed message_valid message_image message_encode message_decode.
Proof using All.
  split.
  - intros dst [sequence body] out [Hs Ht]. cbn in Hs, Ht. unfold message_encode, message_valid, message_image.
    cbn [fst snd]. case_if; bool_prop; [split; [done|lia]|].
    destruct (Validate body) eqn:Hv; [split; naive_solver|].
    destruct (EncodeSinglePacketHeaderInto (zeros 4) (hdr sequence)) as [h|e] eqn:Eh.
    + pose proof Eh as (_ & Hhv & ->)%sc_encode; [|by apply hdr_typed]. apply hdr_valid in Hhv; [|done].
      rewrite (proj2 (sc_encode (zeros n) body (image body) Ht)); [|split_and!; [apply length_replicate|done..]].
      split; [intros [= <-]; done|]. by intros (_ & _ & ->).
    + split; [done|]. intros (_ & [Hs0 _] & _). exfalso.
      rewrite (proj2 (sc_encode (zeros 4) (hdr sequence) (header_image (hdr sequence)) (hdr_typed _ Hs))) in Eh; [done|].
      split_and!; [done| |done]. by apply hdr_valid.
  - apply decode_exact.
    + intros [sequence body] [Hs Ht] [Hs0 Hv]. cbn [fst snd] in *. unfold message_decode, message_image. cbn [fst snd].
      destruct (sc_bytes body Ht Hv) as [Hl Hb].
      remember (header_image (hdr sequence)) as hi eqn:Ehi. assert (Hh : length hi = 4%nat) by (by rewrite Ehi).
      rewrite length_app, Hh, Hl, Nat.eqb_refl. cbn [negb].
      rewrite slice_app_head by done.
      rewrite (proj2 (sc_decode hi (hdr sequence) ltac:(rewrite Ehi; apply sc_bytes; [by apply hdr_typed|by apply hdr_valid])));
        [|split_and!; [by apply hdr_typed|by apply hdr_valid|done]].
      rewrite header_is_refl. cbn [negb].
      rewrite slice_app_skip, Hh by (rewrite Hh; lia). change (4 - 4)%nat with 0%nat.
      rewrite slice_all by lia. rewrite (proj2 (sc_decode (image body) body Hb)) by done.
      by rewrite Hhdr.
    + intros src [sequence body] Hb H. unfold message_decode in H. case_if_in H; bool_prop; [done|].
      destruct (DecodeSinglePacketHeader (slice 0 4 src)) as [h|e] eqn:Eh; [|done].
      case_if_in H; bool_prop; [done|].
      destruct (decodeBody (slice 4 (4 + n) src)) as [v|e] eqn:Ev; [|done]. injection H as <- <-.
      apply sc_decode in Eh as (Hht & Hhv & Eh); [|by apply slice_bytes_ok].
      apply sc_decode in Ev as (Hvt & Hvv & Ev); [|by apply slice_bytes_ok].
      pose proof (header_is_hdr h Hb1) as Eq.
      unfold message_typed, message_valid, message_image. cbn [fst snd].
      assert (Hs : U8 (Sequence h)) by apply Hht.
      rewrite <-Eq, <-Eh, <-Ev. split_and!; try done; try lia.
      * rewrite Eq in Hhv. by apply hdr_valid in Hhv.
      * rewrite slice_join by lia. symmetry. by apply slice_all.
  - intros [sequence body] [Hs Ht] [Hs0 Hv]. cbn [fst snd] in *. destruct (sc_bytes body Ht Hv) as [Hl Hb].
    destruct (sc_bytes (hdr sequence) (hdr_typed _ Hs) (proj2 (hdr_valid _ Hs) Hs0)) as [Hl' Hb'].
    unfold message_image. cbn [fst snd]. rewrite length_app, Hl, Hl'. split; [done|]. by apply bytes_ok_app.
Qed.
End Message.

(** ** The bodies *)

Lemma rd16_bytes src i : bytes_ok src -> (i + 2 <= length src)%nat ->
  U16 (rd16 src i) /\ le_bytes 2 (rd16 src i) = slice i (i + 2) src.
Proof.
  intros H Hi. unfold rd16. split; [|apply le_bytes_slice; [done|lia|lia]].
  pose proof (le_val_slice_range i (i + 2) src H ltac:(lia)) as Hr.
  replace (i + 2 - i)%nat with 2%nat in Hr by lia. cbn in Hr. lia.
Qed.

Lemma rd32_bytes src i : bytes_ok src -> (i + 4 <= length src)%nat ->
  U32 (rd32 src i) /\ le_bytes 4 (rd32 src i) = slice i (i + 4) src.
Proof.
  intros H Hi. unfold rd32. split; [|apply le_bytes_slice; [done|lia|lia]].
  pose proof (le_val_slice_range i (i + 4) src H ltac:(lia)) as Hr.
  replace (i + 4 - i)%nat with 4%nat in Hr by lia. cbn in Hr. lia.
Qed.

Lemma rd16_app pre v tail : U16 v -> rd16 (pre ++ le_bytes 2 v ++ tail) (length pre) = v.
Proof.
  intros Hv. unfold rd16. rewrite slice_app_skip by lia.
  replace (length pre - length pre)%nat with 0%nat by lia. replace (length pre + 2 - length pre)%nat with 2%nat by lia.
  rewrite slice_app_head by apply length_le_bytes. apply le_val_small. cbn. lia.
Qed.

(** The encoder side of a strict codec that checks the length, validates and
    assigns the image. *)
Lemma encode_strict {A} n (Validate : A -> option gip_err) (image : A -> list Z) (dst : list Z) (v : A) (out : list Z) :
  ((if negb (length dst =? n)%nat then Err ErrInvalidLength else check Validate v in Ok (image v)) = Ok out <->
   length dst = n /\ Validate v = None /\ out = image v).
Proof.
  case_if; bool_prop; [split; [done|lia]|]. destruct (Validate v); [split; naive_solver|].
  split; [by intros [= <-]|by intros (_ & _ & ->)].
Qed.

Definition rumble_typed (b : RumbleBodyV1) : Prop :=
  U8 (Enabled b) /\ U8 (LeftImpulse b) /\ U8 (RightImpulse b) /\ U8 (LeftVibration b) /\
  U8 (RightVibration b) /\ U8 (Duration b) /\ U8 (Delay b) /\ U8 (Repeat b).
Definition rumble_image (b : RumbleBodyV1) : list Z :=
  [0; Enabled b; LeftImpulse b; RightImpulse b; LeftVibration b; RightVibration b; Duration b; Delay b; Repeat b].

Lemma length_explode {A} (l : list A) n : length l = S n -> exists a l', l = a :: l' /\ length l' = n.
Proof. destruct l as [|a l']; [done|]. intros [= H]. by exists a, l'. Qed.

(** Split a list of known length into its elements. *)
Ltac explode H :=
  repeat (let a := fresh "b" in apply length_explode in H as (a & ? & -> & H));
  apply nil_length_inv in H; subst.

#[export] Instance rumble_codec :
  StrictCodec 9 rumble_typed (fun b => RumbleBodyV1_Validate b = None) rumble_image
    EncodeRumbleBodyInto DecodeRumbleBody.
Proof.
  split.
  - intros dst v out _. apply (encode_strict 9 RumbleBodyV1_Validate rumble_image).
  - apply decode_exact.
    + intros v Ht Hv. unfold DecodeRumbleBody, rumble_image, byte_at. cbn [length nth].
      change (negb (9 =? RumbleBodySize)%nat) with false. change (negb (0 =? DirectMotorCommandValue)) with false.
      cbv iota zeta. replace {| Enabled := _ |} with v by (by destruct v). by rewrite Hv.
    + intros src v Hb H. unfold DecodeRumbleBody, RumbleBodySize in H. case_if_in H; bool_prop; [done|].
      explode Hb0. unfold byte_at in H. cbn [nth] in H. case_if_in H; bool_prop; [done|].
      destruct (RumbleBodyV1_Validate _) eqn:Hv in H; [done|]. injection H as <-.
      unfold DirectMotorCommandValue in *. subst.
      repeat (apply list.Forall_cons in Hb as [? Hb]). done.
  - intros v Ht Hv. unfold rumble_typed in Ht. split; [done|]. unfold rumble_image. bytes_list.
Qed.

Definition state_typed (s : InputStateV1) : Prop :=
  U16 (LeftTrigger s) /\ U16 (RightTrigger s) /\ I16 (LeftStickX s) /\ I16 (LeftStickY s) /\
  I16 (RightStickX s) /\ I16 (RightStickY s).
Definition report_typed (r : GamepadInputReportV1) : Prop := state_typed (State r).

Lemma base_buttons_range r : U16 (encodeBaseButtons r).
Proof. unfold encodeBaseButtons. repeat (apply set_mask16; [done|]). done. Qed.

Lemma base_buttons_reserved r : has_mask (encodeBaseButtons r) baseButtonReservedMask = false.
Proof. unfold encodeBaseButtons. read_flag 0. done. Qed.

Lemma base_buttons_keepalive r : has_mask (encodeBaseButtons r) baseButtonKeepAlive = KeepAlive r.
Proof. unfold encodeBaseButtons. read_flag 1. done. Qed.

(** The decoded flags of an encoded report, with its axes put back. *)
Lemma base_buttons_decode r :
  with_axes (decodeBaseButtons (encodeBaseButtons r)) (LeftTrigger (State r)) (RightTrigger (State r))
    (LeftStickX (State r)) (LeftStickY (State r)) (RightStickX (State r)) (RightStickY (State r)) =
  with_share {| Menu := Menu (State r); View := View (State r); A_ := A_ (State r); B_ := B_ (State r);
    X_ := X_ (State r); Y_ := Y_ (State r); DPadUp := DPadUp (State r); DPadDown := DPadDown (State r);
    DPadLeft := DPadLeft (State r); DPadRight := DPadRight (State r); LeftBumper := LeftBumper (State r);
    RightBumper := RightBumper (State r); LeftStickButton := LeftStickButton (State r);
    RightStickButton := RightStickButton (State r); Guide := false; Share := false;
    LeftTrigger := LeftTrigger (State r); RightTrigger := RightTrigger (State r);
    LeftStickX := LeftStickX (State r); LeftStickY := LeftStickY (State r);
    RightStickX := RightStickX (State r); RightStickY := RightStickY (State r) |} false.
Proof.
  unfold with_axes, with_share, decodeBaseButtons. cbn [Menu View A_ B_ X_ Y_ DPadUp DPadDown DPadLeft DPadRight
    LeftBumper RightBumper LeftStickButton RightStickButton Guide Share LeftTrigger RightTrigger
    LeftStickX LeftStickY RightStickX RightStickY].
  unfold encodeBaseButtons.
  f_equal; [read_flag 2|read_flag 3|read_flag 4|read_flag 5|read_flag 6|read_flag 7|read_flag 8|read_flag 9
    |read_flag 10|read_flag 11|read_flag 12|read_flag 13|read_flag 14|read_flag 15]; done.
Qed.

(** Encoding the decoded flags of a word gives the word back. *)
Lemma base_buttons_encode b lt rt lx ly rx ry :
  U16 b -> has_mask b baseButtonReservedMask = false ->
  encodeBaseButtons {| State := with_axes (decodeBaseButtons b) lt rt lx ly rx ry;
                       KeepAlive := has_mask b baseButtonKeepAlive |} = b.
Proof.
  intros Hb H0. change baseButtonReservedMask with (2 ^ 0) in H0. rewrite has_mask_bit in H0 by lia.
  apply word16_bits; [apply base_buttons_range|done|].
  unfold encodeBaseButtons, with_axes, decodeBaseButtons. cbn [State KeepAlive Menu View A_ B_ X_ Y_ DPadUp DPadDown DPadLeft DPadRight
    LeftBumper RightBumper LeftStickButton RightStickButton].
  repeat apply List.Forall_cons; try apply List.Forall_nil; rewrite !set_mask_bit; eval_bits; try done;
    (etrans; [|apply has_mask_bit; lia]); done.
Qed.

Lemma rd16_skip l r i : rd16 (l ++ r) (length l + i) = rd16 r i.
Proof.
  unfold rd16. rewrite slice_app_skip by lia.
  replace (length l + i - length l)%nat with i by lia. by replace (length l + i + 2 - length l)%nat with (i + 2)%nat by lia.
Qed.

Lemma rd16_step v r i : rd16 (le_bytes 2 v ++ r) (S (S i)) = rd16 r i.
Proof. rewrite <-(rd16_skip (le_bytes 2 v) r i). by rewrite length_le_bytes. Qed.

Lemma rd16_head v r : U16 v -> rd16 (le_bytes 2 v ++ r) 0 = v.
Proof. intros H. exact (rd16_app [] v r H). Qed.

(** Reading back the axes of an encoded state. *)
Lemma axes_read st s l tail : state_typed s ->
  read_axes st (l ++ axes_bytes s ++ tail) (length l) =
  with_axes st (LeftTrigger s) (RightTrigger s) (LeftStickX s) (LeftStickY s) (RightStickX s) (RightStickY s).
Proof.
  intros (H1 & H2 & H3 & H4 & H5 & H6). unfold read_axes. rewrite <-(Nat.add_0_r (length l)) at 1.
  rewrite !rd16_skip. unfold axes_bytes. rewrite <-!app_assoc, !rd16_step, !rd16_head by (lia || apply u16_range).
  by rewrite !i16_u16.
Qed.

Lemma axes_write st src i : bytes_ok src -> (i + 12 <= length src)%nat ->
  axes_bytes (read_axes st src i) = slice i (i + 12) src /\ state_typed (read_axes st src i).
Proof.
  intros Hb Hi.
  assert (H : forall k, (k <= 10)%nat -> U16 (rd16 src (i + k)) /\
    le_bytes 2 (rd16 src (i + k)) = slice (i + k) (i + k + 2) src).
  { intros k Hk. apply rd16_bytes; [done|lia]. }
  pose proof (H 0%nat ltac:(lia)) as [R0 E0]. pose proof (H 2%nat ltac:(lia)) as [R2 E2].
  pose proof (H 4%nat ltac:(lia)) as [R4 E4]. pose proof (H 6%nat ltac:(lia)) as [R6 E6].
  pose proof (H 8%nat ltac:(lia)) as [R8 E8]. pose proof (H 10%nat ltac:(lia)) as [R10 E10].
  rewrite Nat.add_0_r in R0, E0. unfold axes_bytes, read_axes, state_typed.
  cbn [with_axes LeftTrigger RightTrigger LeftStickX LeftStickY RightStickX RightStickY].
  rewrite !u16_i16, E0, E2, E4, E6, E8, E10 by done. split.
  - replace (i + 2 + 2)%nat with (i + 4)%nat by lia. replace (i + 4 + 2)%nat with (i + 6)%nat by lia.
    replace (i + 6 + 2)%nat with (i + 8)%nat by lia. replace (i + 8 + 2)%nat with (i + 10)%nat by lia.
    replace (i + 10 + 2)%nat with (i + 12)%nat by lia. by rewrite !slice_join by lia.
  - split_and!; try lia; apply i16_range.
Qed.

Lemma length_axes s : length (axes_bytes s) = 12%nat.
Proof. reflexivity. Qed.

Lemma axes_ok s : bytes_ok (axes_bytes s).
Proof. unfold axes_bytes. repeat (apply bytes_ok_app; split; [apply le_bytes_ok|]). apply le_bytes_ok. Qed.

Definition base_image (r : GamepadInputReportV1) : list Z :=
  le_bytes 2 (encodeBaseButtons r) ++ axes_bytes (State r).

Lemma base_valid_plain s : ValidateBaseInputBody s = None -> Guide s = false /\ Share s = false.
Proof. unfold ValidateBaseInputBody. destruct (InputStateV1_Validate s); [done|]. by destruct (Guide s), (Share s). Qed.

#[export] Instance base_codec :
  StrictCodec 14 report_typed (fun r => GamepadInputReportV1_Validate r = None) base_image
    EncodeBaseInputBodyInto DecodeBaseInputBody.
Proof.
  split.
  - intros dst v out _. apply (encode_strict 14 GamepadInputReportV1_Validate base_image).
  - apply decode_exact.
    + intros v Ht Hv. unfold DecodeBaseInputBody, base_image.
      change (negb (_ =? BaseInputBodySize)%nat) with false. cbv iota zeta.
      rewrite rd16_head, base_buttons_reserved, base_buttons_keepalive by apply base_buttons_range.
      pose proof (axes_read (decodeBaseButtons (encodeBaseButtons v)) (State v) (le_bytes 2 (encodeBaseButtons v)) [] Ht) as Ha.
      rewrite app_nil_r, length_le_bytes in Ha. rewrite Ha, base_buttons_decode.
      destruct (base_valid_plain (State v) Hv) as [Hg Hs].
      replace {| State := with_share _ _ |} with v; [by rewrite Hv|].
      destruct v as [[]]; cbn in *. by subst.
    + intros src v Hb H. unfold DecodeBaseInputBody, BaseInputBodySize in H. case_if_in H; bool_prop; [done|].
      case_if_in H; [done|]. destruct (GamepadInputReportV1_Validate _) eqn:Hv in H; [done|]. injection H as <-.
      destruct (rd16_bytes src 0 Hb ltac:(lia)) as [Rb Eb].
      destruct (axes_write (decodeBaseButtons (rd16 src 0)) src 2 Hb ltac:(lia)) as [Ea Ta].
      split_and!; [done|done|]. unfold base_image. cbn [State]. rewrite Ea.
      unfold read_axes. rewrite base_buttons_encode, Eb by done. cbn [Nat.add].
      rewrite slice_join by lia. symmetry. by apply slice_all.
  - intros v Ht Hv. split; [done|]. unfold base_image. apply bytes_ok_app. split; [apply le_bytes_ok|apply axes_ok].
Qed.

Definition led_typed (c : GuideLEDCommandV1) : Prop := U8 (Pattern c) /\ U8 (Intensity c).
Definition led_image (c : GuideLEDCommandV1) : list Z := [0; Pattern c; Intensity c].

#[export] Instance led_codec :
  StrictCodec 3 led_typed (fun c => GuideLEDCommandV1_Validate c = None) led_image
    EncodeGuideLEDCommandBodyInto DecodeGuideLEDCommandBody.
Proof.
  split.
  - intros dst v out _. apply (encode_strict 3 GuideLEDCommandV1_Validate led_image).
  - apply decode_exact.
    + intros v Ht Hv. unfold DecodeGuideLEDCommandBody, led_image, byte_at. cbn [length nth].
      change (negb (3 =? GuideLEDCommandBodySize)%nat) with false.
      change (negb (0 =? GuideLEDCommandValue)) with false. cbv iota zeta.
      replace {| Pattern := _ |} with v by (by destruct v). by rewrite Hv.
    + intros src v Hb H. unfold DecodeGuideLEDCommandBody, GuideLEDCommandBodySize in H.
      case_if_in H; bool_prop; [done|]. explode Hb0. unfold byte_at in H. cbn [nth] in H.
      case_if_in H; bool_prop; [done|]. destruct (GuideLEDCommandV1_Validate _) eqn:Hv in H; [done|].
      injection H as <-. unfold GuideLEDCommandValue in *. subst.
      repeat (apply list.Forall_cons in Hb as [? Hb]). done.
  - intros v [Ht1 Ht2] Hv. split; [done|]. unfold led_image. bytes_list.
Qed.

Definition status_typed (b : ExtendedStatusNoEventsBodyV1) : Prop :=
  U8 (PowerLevel b) /\ U8 (ChargeState b) /\ U8 (BatteryType b) /\ U8 (BatteryLevel b).
Definition status_image (b : ExtendedStatusNoEventsBodyV1) : list Z :=
  [statusByte b; if DeviceActive b then 1 else 0; 0; 0].

(** The four two-bit fields of the status byte. *)
Definition status_bits (p c t l : Z) : Z :=
  Z.lor (Z.lor (Z.lor (u8 (Z.shiftl p 6)) (u8 (Z.shiftl c 4))) (u8 (Z.shiftl t 2))) l.

Lemma status_byte p c t l : 0 <= p < 4 -> 0 <= c < 4 -> 0 <= t < 4 -> 0 <= l < 4 ->
  let b := status_bits p c t l in
  Z.shiftr b 6 = p /\ Z.land (Z.shiftr b 4) 3 = c /\ Z.land (Z.shiftr b 2) 3 = t /\ Z.land b 3 = l /\ U8 b.
Proof.
  intros Hp Hc Ht Hl.
  assert (H := all_below 4 (fun p => Forall (fun c => Forall (fun t => Forall (fun l =>
    Z.shiftr (status_bits p c t l) 6 = p /\ Z.land (Z.shiftr (status_bits p c t l) 4) 3 = c /\
    Z.land (Z.shiftr (status_bits p c t l) 2) 3 = t /\ Z.land (status_bits p c t l) 3 = l /\
    U8 (status_bits p c t l)) (below 4)) (below 4)) (below 4))).
  specialize (H ltac:(vm_compute; reflexivity) p ltac:(cbn; lia)). cbv beta in H.
  rewrite List.Forall_forall in H. specialize (H c (below_In 4 c Hc)). cbv beta in H.
  rewrite List.Forall_forall in H. specialize (H t (below_In 4 t Ht)). cbv beta in H.
  rewrite List.Forall_forall in H. exact (H l (below_In 4 l Hl)).
Qed.

Lemma status_byte_read b : U8 b ->
  b = status_bits (Z.shiftr b 6) (Z.land (Z.shiftr b 4) 3) (Z.land (Z.shiftr b 2) 3) (Z.land b 3) /\
  U8 (Z.shiftr b 6) /\ U8 (Z.land (Z.shiftr b 4) 3) /\ U8 (Z.land (Z.shiftr b 2) 3) /\ U8 (Z.land b 3).
Proof.
  intros Hb. by_all_bytes (fun b =>
    b = status_bits (Z.shiftr b 6) (Z.land (Z.shiftr b 4) 3) (Z.land (Z.shiftr b 2) 3) (Z.land b 3) /\
    U8 (Z.shiftr b 6) /\ U8 (Z.land (Z.shiftr b 4) 3) /\ U8 (Z.land (Z.shiftr b 2) 3) /\ U8 (Z.land b 3)).
Qed.

Lemma active_byte b : U8 b -> has_mask b 0xfc = false -> has_mask b 2 = false ->
  (if has_mask b 1 then 1 else 0) = b.
Proof.
  intros Hb. by_all_bytes (fun b => has_mask b 0xfc = false -> has_mask b 2 = false ->
    (if has_mask b 1 then 1 else 0) = b).
Qed.

Lemma status_valid_spec b : ExtendedStatusNoEventsBodyV1_Validate b = None ->
  PowerLevel b <= 2 /\ ChargeState b <= 2 /\ BatteryType b <= 2 /\ BatteryLevel b <= 3.
Proof.
  unfold ExtendedStatusNoEventsBodyV1_Validate, StatusPoweringOff, StatusFullPower, StatusChargeError,
    StatusBatteryRechargeable, StatusBatteryFull.
  intros H. repeat (case_if_in H; [discriminate|]). apply andb_false_iff in Hb as [Hb|Hb]; bool_prop; lia.
Qed.

#[export] Instance status_codec :
  StrictCodec 4 status_typed (fun b => ExtendedStatusNoEventsBodyV1_Validate b = None) status_image
    EncodeExtendedStatusNoEventsBodyInto DecodeExtendedStatusNoEventsBody.
Proof.
  split.
  - intros dst v out _. apply (encode_strict 4 ExtendedStatusNoEventsBodyV1_Validate status_image).
  - apply decode_exact.
    + intros v (T1 & T2 & T3 & T4) Hv. pose proof (status_valid_spec v Hv) as (V1 & V2 & V3 & V4).
      destruct (status_byte (PowerLevel v) (ChargeState v) (BatteryType v) (BatteryLevel v)) as (B1 & B2 & B3 & B4 & B5); [lia..|].
      unfold DecodeExtendedStatusNoEventsBody, status_image, byte_at. cbn [length nth].
      change (negb (4 =? ExtendedStatusNoEventsBodySize)%nat) with false. cbv iota.
      replace (has_mask (if DeviceActive v then 1 else 0) 252) with false by (by destruct (DeviceActive v)).
      replace (has_mask (if DeviceActive v then 1 else 0) 2) with false by (by destruct (DeviceActive v)).
      replace (has_mask (if DeviceActive v then 1 else 0) 1) with (DeviceActive v) by (by destruct (DeviceActive v)).
      cbn [negb orb Z.eqb]. fold (status_bits (PowerLevel v) (ChargeState v) (BatteryType v) (BatteryLevel v)) in *.
      unfold statusByte. fold (status_bits (PowerLevel v) (ChargeState v) (BatteryType v) (BatteryLevel v)).
      rewrite B1, B2, B3, B4. cbv zeta.
      replace {| PowerLevel := _ |} with v by (by destruct v). by rewrite Hv.
    + intros src v Hb H. unfold DecodeExtendedStatusNoEventsBody, ExtendedStatusNoEventsBodySize in H.
      case_if_in H; bool_prop; [done|]. explode Hb0. unfold byte_at in H. cbn [nth] in H.
      case_if_in H; [done|]. case_if_in H; [done|]. bool_prop. subst.
      destruct (ExtendedStatusNoEventsBodyV1_Validate _) eqn:Hv in H; [done|]. injection H as <-.
      repeat (apply list.Forall_cons in Hb as [? Hb]).
      destruct (status_byte_read b) as (B1 & B2 & B3 & B4 & B5); [done|].
      split_and!; [done|done|]. unfold status_image, statusByte. cbn [PowerLevel ChargeState BatteryType BatteryLevel DeviceActive].
      f_equal; [exact B1|]. f_equal. symmetry. by apply active_byte.
  - intros v (T1 & T2 & T3 & T4) Hv. pose proof (status_valid_spec v Hv) as (V1 & V2 & V3 & V4).
    destruct (status_byte (PowerLevel v) (ChargeState v) (BatteryType v) (BatteryLevel v)) as (_ & _ & _ & _ & B5); [lia..|].
    split; [done|]. unfold status_image. bytes_list. destruct (DeviceActive v); lia.
Qed.

Definition ack_typed (b : ProtocolControlACKBodyV1) : Prop :=
  U8 (ReferencedDataClass b) /\ U8 (ReferencedMessageNumber b) /\ U8 (ReferencedExpansionIndex b) /\
  U32 (FragmentOffset b) /\ U16 (RemainingBuffer b).
Definition ack_image (b : ProtocolControlACKBodyV1) : list Z :=
  0 :: referencedMessageType b :: referencedFlags b :: le_bytes 4 (FragmentOffset b) ++ le_bytes 2 (RemainingBuffer b).

Lemma ack_valid_spec b : ProtocolControlACKBodyV1_Validate b = None ->
  ReferencedDataClass b <= 3 /\ ReferencedMessageNumber b <= 31 /\ ReferencedExpansionIndex b <= 7.
Proof.
  unfold ProtocolControlACKBodyV1_Validate, DataClassAudio, flagExpansion. intros H.
  repeat (case_if_in H; [discriminate|]). lia.
Qed.

Lemma reference_flags e s : 0 <= e < 8 ->
  Z.ldiff (set_mask s flagSystem e) (Z.lor flagSystem flagExpansion) = 0 /\
  has_mask (set_mask s flagSystem e) flagSystem = s /\ Z.land (set_mask s flagSystem e) flagExpansion = e /\
  U8 (set_mask s flagSystem e).
Proof.
  intros He. refine (all_below 8 (fun e =>
    Z.ldiff (set_mask s flagSystem e) (Z.lor flagSystem flagExpansion) = 0 /\
    has_mask (set_mask s flagSystem e) flagSystem = s /\ Z.land (set_mask s flagSystem e) flagExpansion = e /\
    U8 (set_mask s flagSystem e)) _ e He). by destruct s; vm_compute.
Qed.

Lemma reference_flags_read b : U8 b -> Z.ldiff b (Z.lor flagSystem flagExpansion) = 0 ->
  b = set_mask (has_mask b flagSystem) flagSystem (Z.land b flagExpansion) /\ U8 (Z.land b flagExpansion).
Proof.
  intros Hb. by_all_bytes (fun b => Z.ldiff b (Z.lor flagSystem flagExpansion) = 0 ->
    b = set_mask (has_mask b flagSystem) flagSystem (Z.land b flagExpansion) /\ U8 (Z.land b flagExpansion)).
Qed.

Lemma rd32_head v r : U32 v -> rd32 (le_bytes 4 v ++ r) 0 = v.
Proof.
  intros H. unfold rd32. cbn [Nat.add]. rewrite slice_app_head by apply length_le_bytes.
  apply le_val_small. cbn. lia.
Qed.

#[export] Instance ack_codec :
  StrictCodec 9 ack_typed (fun b => ProtocolControlACKBodyV1_Validate b = None) ack_image
    EncodeProtocolControlACKBodyInto DecodeProtocolControlACKBody.
Proof.
  split.
  - intros dst v out _. apply (encode_strict 9 ProtocolControlACKBodyV1_Validate ack_image).
  - apply decode_exact.
    + intros v (T1 & T2 & T3 & T4 & T5) Hv. pose proof (ack_valid_spec v Hv) as (V1 & V2 & V3).
      destruct (type_byte (ReferencedDataClass v) (ReferencedMessageNumber v)) as (B1 & B2 & B3); [lia..|].
      destruct (reference_flags (ReferencedExpansionIndex v) (ReferencedSystem v)) as (F1 & F2 & F3 & F4); [lia|].
      unfold DecodeProtocolControlACKBody.
      change (negb (length (ack_image v) =? ProtocolControlACKBodySize)%nat) with false.
      change (byte_at (ack_image v) 0) with 0. change (byte_at (ack_image v) 1) with (referencedMessageType v).
      change (byte_at (ack_image v) 2) with (referencedFlags v).
      unfold referencedMessageType, referencedFlags. rewrite B1, B2, F1, F2, F3. cbn [negb Z.eqb ProtocolControlCodeACK].
      change (rd32 (ack_image v) 3) with (rd32 (le_bytes 4 (FragmentOffset v) ++ le_bytes 2 (RemainingBuffer v)) 0).
      rewrite rd32_head by done.
      pose proof (rd16_skip (0 :: referencedMessageType v :: referencedFlags v :: le_bytes 4 (FragmentOffset v))
        (le_bytes 2 (RemainingBuffer v)) 0) as Hr.
      pose proof (rd16_head (RemainingBuffer v) [] T5) as Hr'. rewrite app_nil_r in Hr'. rewrite Hr' in Hr.
      cbn [length] in Hr. rewrite length_le_bytes in Hr. cbn [Nat.add app] in Hr. fold (ack_image v) in Hr. rewrite Hr.
      replace {| ReferencedDataClass := _ |} with v by (by destruct v). by rewrite Hv.
    + intros src v Hb H. unfold DecodeProtocolControlACKBody, ProtocolControlACKBodySize in H.
      case_if_in H; bool_prop; [done|]. rename Hb0 into Hl.
      case_if_in H; bool_prop; [done|]. case_if_in H; bool_prop; [done|].
      destruct (ProtocolControlACKBodyV1_Validate _) eqn:Hv in H; [done|]. injection H as <-.
      pose proof (ack_valid_spec _ Hv) as (V1 & _ & _). cbn in V1.
      destruct (type_byte_read (byte_at src 1)) as (B1 & B2 & B3); [by apply byte_at_ok|].
      destruct (reference_flags_read (byte_at src 2)) as (F1 & F2); [by apply byte_at_ok|done|].
      destruct (rd32_bytes src 3 Hb ltac:(lia)) as [R3 E3]. destruct (rd16_bytes src 7 Hb ltac:(lia)) as [R7 E7].
      split_and!; [done|done|]. unfold ack_image, referencedMessageType, referencedFlags.
      cbn [ReferencedDataClass ReferencedMessageNumber ReferencedSystem ReferencedExpansionIndex FragmentOffset RemainingBuffer].
      rewrite <-B1, <-F1, E3, E7. clear -Hl Hb0. unfold ProtocolControlCodeACK in Hb0.
      explode Hl. cbn in Hb0. by subst.
  - intros v (T1 & T2 & T3 & T4 & T5) Hv. pose proof (ack_valid_spec v Hv) as (V1 & V2 & V3).
    destruct (type_byte (ReferencedDataClass v) (ReferencedMessageNumber v)) as (_ & _ & B3); [lia..|].
    destruct (reference_flags (ReferencedExpansionIndex v) (ReferencedSystem v)) as (_ & _ & _ & F4); [lia|].
    split; [done|]. unfold ack_image. do 3 (apply List.Forall_cons; [done|]).
    apply bytes_ok_app. split; apply le_bytes_ok.
Qed.

(** ** The messages *)

Abbreviation msg_typed typed := (@message_typed _ typed).
Abbreviation msg_valid V := (@message_valid _ V).
Abbreviation msg_image image hdr := (@message_image _ image hdr).

#[export] Instance gamepad_codec :
  StrictCodec 18 (msg_typed report_typed) (msg_valid GamepadInputReportV1_Validate)
    (msg_image base_image GamepadInputHeader) EncodeGamepadInputMessageInto DecodeGamepadInputMessage.
Proof.
  exact (@message_codec _ _ _ _ _ _ _ base_codec GamepadInputHeader DataClassLowLatency MessageNumberGamepadInput false
    ErrInvalidGamepadInputMessage (fun _ => eq_refl) ltac:(by vm_compute) ltac:(by vm_compute) ltac:(lia)).
Qed.

#[export] Instance motor_codec :
  StrictCodec 13 (msg_typed rumble_typed) (msg_valid RumbleBodyV1_Validate)
    (msg_image rumble_image DirectMotorHeader) EncodeDirectMotorMessageInto DecodeDirectMotorMessage.
Proof.
  exact (@message_codec _ _ _ _ _ _ _ rumble_codec DirectMotorHeader DataClassCommand MessageNumberDirectMotor false
    ErrInvalidDirectMotorMessage (fun _ => eq_refl) ltac:(by vm_compute) ltac:(by vm_compute) ltac:(lia)).
Qed.

#[export] Instance status_message_codec :
  StrictCodec 8 (msg_typed status_typed) (msg_valid ExtendedStatusNoEventsBodyV1_Validate)
    (msg_image status_image ExtendedStatusNoEventsHeader) EncodeExtendedStatusNoEventsMessageInto
    DecodeExtendedStatusNoEventsMessage.
Proof.
  exact (@message_codec _ _ _ _ _ _ _ status_codec ExtendedStatusNoEventsHeader DataClassCommand MessageNumberStatusDevice true
    ErrInvalidStatusMessage (fun _ => eq_refl) ltac:(by vm_compute) ltac:(by vm_compute) ltac:(lia)).
Qed.

#[export] Instance led_message_codec :
  StrictCodec 7 (msg_typed led_typed) (msg_valid GuideLEDCommandV1_Validate)
    (msg_image led_image GuideLEDCommandHeader) EncodeGuideLEDCommandMessageInto DecodeGuideLEDCommandMessage.
Proof.
  exact (@message_codec _ _ _ _ _ _ _ led_codec GuideLEDCommandHeader DataClassCommand MessageNumberLEDCommand true
    ErrInvalidGuideLEDMessage (fun _ => eq_refl) ltac:(by vm_compute) ltac:(by vm_compute) ltac:(lia)).
Qed.

#[export] Instance ack_message_codec :
  StrictCodec 13 (msg_typed ack_typed) (msg_valid ProtocolControlACKBodyV1_Validate)
    (msg_image ack_image ProtocolControlACKHeader) EncodeProtocolControlACKMessageInto
    DecodeProtocolControlACKMessage.
Proof.
  exact (@message_codec _ _ _ _ _ _ _ ack_codec ProtocolControlACKHeader DataClassCommand MessageNumberProtocolControl true
    ErrInvalidProtocolControlMessage (fun _ => eq_refl) ltac:(by vm_compute) ltac:(by vm_compute) ltac:(lia)).
Qed.

(** The Guide button status and the Console Function Map report check their
    body inside the message decoder; their bodies are codecs of their own. *)
Definition guide_typed (_ : GuideButtonStatusV1) : Prop := True.
Definition guide_Validate (_ : GuideButtonStatusV1) : option gip_err := None.
Definition guide_image (s : GuideButtonStatusV1) : list Z := [if Down s then 1 else 0; GuideButtonVirtualKey].
Definition guide_header (sequence : Z) : SinglePacketHeader := {|
  DataClass := DataClassCommand; MessageNumber := MessageNumberGuideButtonStatus; System := true;
  AcknowledgementRequested := false; ExpansionIndex := 0; Sequence := sequence; PayloadLength := 2 |}.
Definition guide_encode (dst : list Z) (s : GuideButtonStatusV1) : gres (list Z) :=
  if negb (length dst =? 2)%nat then Err ErrInvalidLength else check guide_Validate s in Ok (guide_image s).
Definition guide_decode (src : list Z) : gres GuideButtonStatusV1 :=
  if negb (length src =? 2)%nat then Err ErrInvalidLength
  else if (1 <? byte_at src 0) || negb (byte_at src 1 =? GuideButtonVirtualKey)
  then Err ErrInvalidGuideButtonStatusMessage
  else Ok {| Down := byte_at src 0 =? 1 |}.

Lemma guide_codec : StrictCodec 2 guide_typed (fun s => guide_Validate s = None) guide_image guide_encode guide_decode.
Proof.
  split.
  - intros dst v out _. apply (encode_strict 2 guide_Validate guide_image).
  - apply decode_exact; [by intros [[]]|].
    intros src v Hb H. unfold guide_decode in H. case_if_in H; bool_prop; [done|]. explode Hb0.
    unfold byte_at in H. cbn [nth] in H. case_if_in H; [done|]. injection H as <-. bool_prop. subst.
    split_and!; [done|done|]. unfold guide_image. cbn [Down].
    apply list.Forall_cons in Hb as [Hb _]. f_equal. destruct (Z.eqb_spec b 1); lia.
  - intros [[]] _ _; split; try done; unfold guide_image; cbn; bytes_list.
Qed.

Lemma byte_at_slice l i j k : (i + k < j)%nat -> (j <= length l)%nat -> byte_at (slice i j l) k = byte_at l (i + k).
Proof.
  intros H1 H2. unfold byte_at, slice.
  rewrite !nth_lookup, lookup_take_lt, lookup_drop by lia. done.
Qed.

#[export] Instance guide_message_codec :
  StrictCodec 6 (msg_typed guide_typed) (msg_valid guide_Validate) (msg_image guide_image guide_header)
    EncodeGuideButtonStatusMessageInto DecodeGuideButtonStatusMessage.
Proof.
  pose proof (@message_codec _ _ _ _ _ _ _ guide_codec guide_header DataClassCommand MessageNumberGuideButtonStatus
    true ErrInvalidGuideButtonStatusMessage (fun _ => eq_refl) ltac:(by vm_compute) ltac:(by vm_compute)
    ltac:(lia)) as M.
  assert (Ed : forall wire, DecodeGuideButtonStatusMessage wire =
    @message_decode _ 2 guide_decode DataClassCommand MessageNumberGuideButtonStatus true
      ErrInvalidGuideButtonStatusMessage wire).
  { intros wire. unfold DecodeGuideButtonStatusMessage, message_decode, GuideButtonStatusMessageSize.
    cbn [Nat.add]. destruct (length wire =? 6)%nat eqn:El; [|done]. apply Nat.eqb_eq in El. cbn [negb].
    destruct (DecodeSinglePacketHeader _) as [h|]; [|done]. change (Z.of_nat 2) with 2.
    destruct (header_is h _ _ _ _); cbn [negb orb]; [|done].
    unfold guide_decode. rewrite length_slice by lia. change (negb (6 - 4 =? 2)%nat) with false. cbv iota.
    rewrite !byte_at_slice by lia. cbn [Nat.add]. by case_if. }
  split.
  - intros dst [q v] out. exact (sc_encode (StrictCodec := M) dst (q, v) out).
  - intros src v. rewrite Ed. exact (sc_decode (StrictCodec := M) src v).
  - exact (sc_bytes (StrictCodec := M)).
Qed.

Definition cfm_Validate (r : GamepadInputReportV1) : option gip_err :=
  match InputStateV1_Validate (State r) with
  | Some e => Some e
  | None => if Guide (State r) then Some ErrGuideRequiresStatusMessage else None
  end.
Definition cfm_base (r : GamepadInputReportV1) : GamepadInputReportV1 :=
  {| State := with_share (State r) false; KeepAlive := KeepAlive r |}.
Definition cfm_image (r : GamepadInputReportV1) : list Z :=
  base_image (cfm_base r) ++ (if Share (State r) then 1 else 0) :: zeros 17.
Definition cfm_header (sequence : Z) : SinglePacketHeader := {|
  DataClass := DataClassLowLatency; MessageNumber := MessageNumberGamepadInput; System := false;
  AcknowledgementRequested := false; ExpansionIndex := 0; Sequence := sequence; PayloadLength := 32 |}.
Definition cfm_encode (dst : list Z) (r : GamepadInputReportV1) : gres (list Z) :=
  if negb (length dst =? 32)%nat then Err ErrInvalidLength else check cfm_Validate r in Ok (cfm_image r).
Definition cfm_decode (src : list Z) : gres GamepadInputReportV1 :=
  if negb (length src =? 32)%nat then Err ErrInvalidLength
  else
    let? report := DecodeBaseInputBody (slice 0 14 src) in
    let extension := slice 14 32 src in
    if (1 <? byte_at extension 0) || negb (allZero (slice 1 18 extension)) then Err ErrInvalidConsoleFunctionMap
    else Ok {| State := with_share (State report) (byte_at extension 0 =? 1); KeepAlive := KeepAlive report |}.

Lemma allZero_zeros l n : length l = n -> allZero l = true -> l = zeros n.
Proof.
  intros <-. unfold allZero, zeros. induction l as [|b l IH]; [done|]. cbn. intros H. bool_prop. subst.
  by rewrite IH at 1.
Qed.

(** A state without Guide is its base state with the Share flag put back. *)
Lemma with_share_base s : with_share (with_share s false) (Share s) = s.
Proof. by destruct s. Qed.

Lemma cfm_base_valid r : cfm_Validate r = None -> GamepadInputReportV1_Validate (cfm_base r) = None.
Proof.
  unfold cfm_Validate, GamepadInputReportV1_Validate, ValidateBaseInputBody, cfm_base. cbn [State].
  change (InputStateV1_Validate (with_share (State r) false)) with (InputStateV1_Validate (State r)).
  destruct (InputStateV1_Validate (State r)); [done|]. cbn. by destruct (Guide (State r)).
Qed.

Lemma cfm_codec : StrictCodec 32 report_typed (fun r => cfm_Validate r = None) cfm_image cfm_encode cfm_decode.
Proof.
  assert (Hlen : forall r, length (base_image r) = 14%nat) by done.
  split.
  - intros dst v out _. apply (encode_strict 32 cfm_Validate cfm_image).
  - apply decode_exact.
    + intros v Ht Hv. unfold cfm_decode, cfm_image. rewrite length_app, Hlen. cbn [length].
      change (length (zeros 17)) with 17%nat. change (negb _) with false at 1. cbv iota.
      rewrite slice_app_head, slice_app_skip, Hlen by (rewrite ?Hlen; lia).
      change (14 - 14)%nat with 0%nat. change (32 - 14)%nat with 18%nat.
      rewrite (proj2 (sc_decode (base_image (cfm_base v)) (cfm_base v) ltac:(by apply sc_bytes; [|apply cfm_base_valid])))
        by (split_and!; [done|by apply cfm_base_valid|done]).
      cbn [State cfm_base KeepAlive]. rewrite slice_all by done.
      change (slice 1 18 (_ :: zeros 17)) with (zeros 17). change (allZero (zeros 17)) with true.
      unfold byte_at. cbn [nth negb orb].
      replace (1 <? (if Share (State v) then 1 else 0)) with false by (by destruct (Share (State v))).
      cbn [orb]. replace ((if Share (State v) then 1 else 0) =? 1) with (Share (State v)) by (by destruct (Share (State v))).
      rewrite with_share_base. by destruct v.
    + intros src v Hb H. unfold cfm_decode in H. case_if_in H; bool_prop; [done|]. rename Hb0 into Hl.
      destruct (DecodeBaseInputBody (slice 0 14 src)) as [r|] eqn:Er; [|done].
      apply sc_decode in Er as (Rt & Rv & Er); [|by apply slice_bytes_ok].
      case_if_in H; [done|]. injection H as <-. bool_prop.
      set (ext := slice 14 32 src) in *.
      assert (Hel : length ext = 18%nat) by (unfold ext; rewrite length_slice; lia).
      destruct (base_valid_plain (State r) Rv) as [Hg Hs].
      assert (Es : with_share (with_share (State r) (byte_at ext 0 =? 1)) false = State r)
        by (destruct (State r); cbn in *; by subst).
      split_and!; [done| |].
      * unfold cfm_Validate. cbn [State]. change (Guide (with_share _ _)) with (Guide (State r)). rewrite Hg.
        change (InputStateV1_Validate (with_share _ _)) with (InputStateV1_Validate (State r)).
        unfold GamepadInputReportV1_Validate, ValidateBaseInputBody in Rv. by destruct (InputStateV1_Validate (State r)).
      * unfold cfm_image, cfm_base. cbn [State KeepAlive]. rewrite Es.
        replace {| State := State r; KeepAlive := KeepAlive r |} with r by (by destruct r). rewrite <-Er.
        change (Share (with_share _ ?b)) with b.
        assert (Hx : U8 (byte_at ext 0)) by (apply byte_at_ok, slice_bytes_ok; done).
        replace (if byte_at ext 0 =? 1 then 1 else 0) with (byte_at ext 0) by (destruct (Z.eqb_spec (byte_at ext 0) 1); lia).
        rewrite <-(allZero_zeros (slice 1 18 ext) 17) by (rewrite ?length_slice; lia || done).
        change (byte_at ext 0 :: slice 1 18 ext) with ([byte_at ext 0] ++ slice 1 18 ext).
        rewrite <-slice_byte by lia. rewrite slice_join by lia. rewrite (slice_all ext 18) by done. unfold ext. rewrite slice_join by lia.
        symmetry. by apply slice_all.
  - intros v Ht Hv. split; [done|]. unfold cfm_image. apply bytes_ok_app. split.
    + apply sc_bytes; [done|by apply cfm_base_valid].
    + apply List.Forall_cons; [destruct (Share (State v)); lia|apply zeros_ok].
Qed.

Lemma slice_slice {A} i j a b (l : list A) :
  (i + b <= j)%nat -> slice a b (slice i j l) = slice (i + a) (i + b) l.
Proof.
  intros H. unfold slice. rewrite skipn_firstn_comm, firstn_firstn, drop_drop.
  f_equal; lia.
Qed.

#[export] Instance cfm_message_codec :
  StrictCodec 36 (msg_typed report_typed) (msg_valid cfm_Validate) (msg_image cfm_image cfm_header)
    EncodeConsoleFunctionMapGamepadInputMessageInto DecodeConsoleFunctionMapGamepadInputMessage.
Proof.
  pose proof (@message_codec _ _ _ _ _ _ _ cfm_codec cfm_header DataClassLowLatency MessageNumberGamepadInput
    false ErrInvalidGamepadInputMessage (fun _ => eq_refl) ltac:(by vm_compute) ltac:(by vm_compute)
    ltac:(lia)) as M.
  assert (Ed : forall wire, DecodeConsoleFunctionMapGamepadInputMessage wire =
    @message_decode _ 32 cfm_decode DataClassLowLatency MessageNumberGamepadInput false
      ErrInvalidGamepadInputMessage wire).
  { intros wire. unfold DecodeConsoleFunctionMapGamepadInputMessage, message_decode, ConsoleFunctionMapGamepadInputMessageSize.
    cbn [Nat.add]. destruct (length wire =? 36)%nat eqn:El; [|done]. apply Nat.eqb_eq in El. cbn [negb].
    destruct (DecodeSinglePacketHeader _) as [h|]; [|done]. change (Z.of_nat 32) with 32.
    destruct (header_is h _ _ _ _); cbn [negb]; [|done].
    unfold cfm_decode. rewrite length_slice by lia. change (negb (36 - 4 =? 32)%nat) with false. cbv iota zeta.
    rewrite (slice_slice 4 36 0 14), (slice_slice 4 36 14 32) by lia. cbn [Nat.add].
    destruct (DecodeBaseInputBody (slice 4 18 wire)) as [r|]; [|done]. by case_if. }
  assert (Ee : forall dst q v, EncodeConsoleFunctionMapGamepadInputMessageInto dst (q, v) =
    @message_encode _ 32 cfm_encode cfm_Validate cfm_header dst (q, v)).
  { intros dst q v. unfold EncodeConsoleFunctionMapGamepadInputMessageInto, message_encode,
      ConsoleFunctionMapGamepadInputMessageSize. cbn [Nat.add].
    destruct (length dst =? 36)%nat; cbn [negb]; [|done]. unfold cfm_encode.
    change (negb (length (zeros 32) =? 32)%nat) with false. cbv iota.
    destruct (cfm_Validate v) eqn:Hv; pose proof Hv as Hv'; unfold cfm_Validate in Hv;
      destruct (InputStateV1_Validate (State v)); try (by injection Hv as ->); try discriminate;
      destruct (Guide (State v)); try discriminate; try (by injection Hv as <-).
    apply cfm_base_valid in Hv'. fold (cfm_base v). unfold EncodeBaseInputBodyInto.
    change (negb (length (zeros 14) =? BaseInputBodySize)%nat) with false. cbv iota zeta. rewrite Hv'.
    change (Z.of_nat ConsoleFunctionMapGamepadInputPayloadSize) with 32. fold (cfm_header q).
    by destruct (EncodeSinglePacketHeaderInto (zeros 4) (cfm_header q)). }
  split.
  - intros dst [q v] out. rewrite Ee. exact (sc_encode (StrictCodec := M) dst (q, v) out).
  - intros src v. rewrite Ed. exact (sc_decode (StrictCodec := M) src v).
  - exact (sc_bytes (StrictCodec := M)).
Qed.

(** ** The semantic frame *)

Definition semantic_image (s : InputStateV1) : list Z :=
  le_bytes 2 1 ++ le_bytes 2 24 ++ le_bytes 4 (encodeSemanticInputButtons s) ++ axes_bytes s ++ zeros 4.

Lemma semantic_buttons_range s : U16 (encodeSemanticInputButtons s).
Proof. unfold encodeSemanticInputButtons. repeat (apply set_mask16; [done|]). done. Qed.

Lemma semantic_buttons_decode s :
  with_axes (decodeSemanticInputButtons (encodeSemanticInputButtons s)) (LeftTrigger s) (RightTrigger s)
    (LeftStickX s) (LeftStickY s) (RightStickX s) (RightStickY s) = s.
Proof.
  transitivity {| Menu := Menu s; View := View s; A_ := A_ s; B_ := B_ s; X_ := X_ s; Y_ := Y_ s;
    DPadUp := DPadUp s; DPadDown := DPadDown s; DPadLeft := DPadLeft s; DPadRight := DPadRight s;
    LeftBumper := LeftBumper s; RightBumper := RightBumper s; LeftStickButton := LeftStickButton s;
    RightStickButton := RightStickButton s; Guide := Guide s; Share := Share s;
    LeftTrigger := LeftTrigger s; RightTrigger := RightTrigger s; LeftStickX := LeftStickX s;
    LeftStickY := LeftStickY s; RightStickX := RightStickX s; RightStickY := RightStickY s |}; [|by destruct s].
  unfold with_axes, decodeSemanticInputButtons, encodeSemanticInputButtons.
  cbn [Menu View A_ B_ X_ Y_ DPadUp DPadDown DPadLeft DPadRight LeftBumper RightBumper LeftStickButton
    RightStickButton Guide Share].
  f_equal; [read_flag 0|read_flag 1|read_flag 2|read_flag 3|read_flag 4|read_flag 5|read_flag 6|read_flag 7
    |read_flag 8|read_flag 9|read_flag 10|read_flag 11|read_flag 12|read_flag 13|read_flag 14|read_flag 15]; done.
Qed.

Lemma semantic_buttons_encode b lt rt lx ly rx ry :
  U16 b -> encodeSemanticInputButtons (with_axes (decodeSemanticInputButtons b) lt rt lx ly rx ry) = b.
Proof.
  intros Hb. apply word16_bits; [apply semantic_buttons_range|done|].
  unfold encodeSemanticInputButtons, with_axes, decodeSemanticInputButtons.
  cbn [Menu View A_ B_ X_ Y_ DPadUp DPadDown DPadLeft DPadRight LeftBumper RightBumper LeftStickButton
    RightStickButton Guide Share].
  repeat apply List.Forall_cons; try apply List.Forall_nil; rewrite !set_mask_bit; eval_bits;
    (etrans; [|apply has_mask_bit; lia]); done.
Qed.

Lemma low_word b : U32 b -> Z.ldiff b semanticInputValidButtons = 0 -> U16 b.
Proof.
  intros Hb H. change semanticInputValidButtons with (Z.ones 16) in H.
  rewrite Z.ldiff_ones_r, Z.shiftl_mul_pow2, Z.shiftr_div_pow2 in H by lia.
  change (2 ^ 16) with 65536 in H. zsolve.
Qed.

Lemma word_low b : U16 b -> Z.ldiff b semanticInputValidButtons = 0.
Proof.
  intros Hb. change semanticInputValidButtons with (Z.ones 16).
  rewrite Z.ldiff_ones_r, Z.shiftl_mul_pow2, Z.shiftr_div_pow2 by lia. change (2 ^ 16) with 65536. zsolve.
Qed.

Lemma rd32_skip l r i : rd32 (l ++ r) (length l + i) = rd32 r i.
Proof.
  unfold rd32. rewrite slice_app_skip by lia.
  replace (length l + i - length l)%nat with i by lia. by replace (length l + i + 4 - length l)%nat with (i + 4)%nat by lia.
Qed.

#[export] Instance semantic_codec :
  StrictCodec 24 state_typed (fun s => InputStateV1_Validate s = None) semantic_image
    EncodeSemanticInputWireV1Into DecodeSemanticInputWireV1.
Proof.
  split.
  - intros dst v out _. apply (encode_strict 24 InputStateV1_Validate semantic_image).
  - apply decode_exact.
    + intros v Ht Hv. unfold DecodeSemanticInputWireV1.
      change (negb (length (semantic_image v) =? SemanticInputWireSize)%nat) with false. cbv iota zeta.
      assert (E0 : rd16 (semantic_image v) 0 = 1) by done. assert (E2 : rd16 (semantic_image v) 2 = 24) by done.
      assert (E4 : rd32 (semantic_image v) 4 = encodeSemanticInputButtons v).
      { unfold semantic_image. rewrite app_assoc.
        etrans; [exact (rd32_skip (le_bytes 2 1 ++ le_bytes 2 24) _ 0)|].
        pose proof (semantic_buttons_range v). apply rd32_head. lia. }
      assert (E20 : rd32 (semantic_image v) 20 = 0) by done.
      rewrite E0, E2, E4, E20, word_low by apply semantic_buttons_range. cbn [negb orb Z.eqb Pos.eqb SemanticInputWireVersion].
      change (negb (24 =? Z.of_nat SemanticInputWireSize)) with false. cbv iota.
      pose proof (axes_read (decodeSemanticInputButtons (encodeSemanticInputButtons v)) v
        (le_bytes 2 1 ++ le_bytes 2 24 ++ le_bytes 4 (encodeSemanticInputButtons v)) (zeros 4) Ht) as Ha.
      rewrite <-!app_assoc in Ha. fold (semantic_image v) in Ha.
      change (length _) with 8%nat in Ha. rewrite Ha, semantic_buttons_decode. by rewrite Hv.
    + intros src v Hb H. unfold DecodeSemanticInputWireV1, SemanticInputWireSize in H.
      case_if_in H; bool_prop; [done|]. rename Hb0 into Hl.
      case_if_in H; [done|]. case_if_in H; [done|]. case_if_in H; [done|]. bool_prop.
      destruct (InputStateV1_Validate _) eqn:Hv in H; [done|]. injection H as <-.
      destruct (rd16_bytes src 0 Hb ltac:(lia)) as [R0 E0]. destruct (rd16_bytes src 2 Hb ltac:(lia)) as [R2 E2].
      destruct (rd32_bytes src 4 Hb ltac:(lia)) as [R4 E4]. destruct (rd32_bytes src 20 Hb ltac:(lia)) as [R20 E20].
      destruct (axes_write (decodeSemanticInputButtons (rd32 src 4)) src 8 Hb ltac:(lia)) as [Ea Ta].
      split_and!; [done|done|]. unfold semantic_image. rewrite Ea. unfold read_axes.
      rewrite semantic_buttons_encode by (by apply low_word).
      unfold SemanticInputWireVersion in *. change (Z.of_nat 24) with 24 in *.
      match goal with He : rd16 src 0 = 1 |- _ => rewrite He in E0 end.
      match goal with He : rd16 src 2 = 24 |- _ => rewrite He in E2 end.
      match goal with He : rd32 src 20 = 0 |- _ => rewrite He in E20 end.
      change (zeros 4) with (le_bytes 4 0). rewrite E0, E2, E4, E20. cbn [Nat.add].
      rewrite !slice_join by lia. symmetry. by apply slice_all.
  - intros v Ht Hv. split; [done|]. unfold semantic_image.
    repeat (apply bytes_ok_app; split); first [apply axes_ok|apply zeros_ok|apply le_bytes_ok].
Qed.

(** ** Host commands *)

Definition command_number (c : ControllerHostCommand) : Z :=
  match hc_Kind c with
  | ControllerHostCommandMetadataRequest => 4
  | ControllerHostCommandSetDeviceState
  | ControllerHostCommandExtendedSetDeviceStateInitialization => 5
  | ControllerHostCommandSecurityDataComplete => 6
  end.
Definition command_payload (c : ControllerHostCommand) : list Z :=
  match hc_Kind c with
  | ControllerHostCommandMetadataRequest => []
  | ControllerHostCommandSetDeviceState => [hc_State c]
  | ControllerHostCommandExtendedSetDeviceStateInitialization => extended_initialization
  | ControllerHostCommandSecurityDataComplete => [1; 0]
  end.
Definition command_header (c : ControllerHostCommand) : SinglePacketHeader := {|
  DataClass := 0; MessageNumber := command_number c; System := true; AcknowledgementRequested := false;
  ExpansionIndex := 0; Sequence := hc_Sequence c; PayloadLength := Z.of_nat (length (command_payload c)) |}.
(** The one message of a host command. *)
Definition command_image (c : ControllerHostCommand) : list Z := header_image (command_header c) ++ command_payload c.
Definition command_ok (c : ControllerHostCommand) : Prop :=
  U8 (hc_Sequence c) /\ U8 (hc_State c) /\ ControllerHostCommand_validate c = None /\
  (hc_Kind c = ControllerHostCommandMetadataRequest -> hc_State c = 0).

Lemma decode_header_at h payload : header_typed h -> header_valid h ->
  DecodeSinglePacketHeader (slice 0 4 (header_image h ++ payload)) = Ok h.
Proof.
  intros Ht Hv. rewrite slice_app_head by done. apply sc_decode; [|done]. by apply sc_bytes.
Qed.

(** The header at the front of a message, where it decodes. *)
Lemma header_at src h : bytes_ok src -> (4 <= length src)%nat -> DecodeSinglePacketHeader (slice 0 4 src) = Ok h ->
  header_typed h /\ header_valid h /\ src = header_image h ++ slice 4 (length src) src.
Proof.
  intros Hb Hl H. apply sc_decode in H as (Ht & Hv & E); [|by apply slice_bytes_ok].
  split_and!; [done..|]. rewrite <-E, slice_join by lia. symmetry. by apply slice_all.
Qed.

Lemma command_ok_header c : command_ok c -> header_typed (command_header c) /\ header_valid (command_header c).
Proof.
  intros (Hs & Ht & Hv & Hm). assert (Hs0 : hc_Sequence c <> 0).
  { intros E. unfold ControllerHostCommand_validate in Hv. by rewrite E in Hv. }
  assert (T : header_typed (command_header c)).
  { unfold header_typed, command_header, command_number, command_payload; destruct (hc_Kind c); cbn; lia. }
  split; [done|]. apply header_valid_spec; [done|].
  unfold command_header, command_number, command_payload; destruct (hc_Kind c); cbn; lia.
Qed.

Lemma host_command_complete c : command_ok c ->
  host_command (command_header c) (command_payload c) = Ok c.
Proof.
  intros (Hs & Ht & Hv & Hm). unfold host_command, command_header, command_number, command_payload.
  unfold ControllerHostCommand_validate in Hv. destruct c as [[] sq st]; cbn in *.
  - rewrite Hm by done. destruct (sq =? 0); [done|]. destruct (sq =? 1); [|done]. cbn. done.
  - done.
  - destruct (sq =? 0); [done|]. destruct (Z.eqb_spec st 0); [|done]. by subst.
  - destruct (sq =? 0); [done|]. destruct (Z.eqb_spec st 0); [|done]. by subst.
Qed.

Lemma host_command_sound h payload c :
  header_typed h -> bytes_ok payload -> Z.of_nat (length payload) = PayloadLength h ->
  DataClass h = 0 -> System h = true -> AcknowledgementRequested h = false -> ExpansionIndex h = 0 ->
  host_command h payload = Ok c -> ControllerHostCommand_validate c = None ->
  command_ok c /\ h = command_header c /\ payload = command_payload c.
Proof.
  intros (_ & _ & _ & Tq & _) Hb Hl D S A X H Hv. unfold host_command in H.
  assert (Hh : forall n p, MessageNumber h = n -> PayloadLength h = p -> h = {| DataClass := 0; MessageNumber := n;
    System := true; AcknowledgementRequested := false; ExpansionIndex := 0; Sequence := Sequence h; PayloadLength := p |}).
  { intros n p <- <-. destruct h; cbn in *; by subst. }
  unfold command_ok, command_header, command_number, command_payload.
  case_if_in H; [|case_if_in H; [case_if_in H|case_if_in H; [|done]]].
  - case_if_in H; [done|]. bool_prop. injection H as <-. cbn in *.
    assert (payload = []) as -> by (apply nil_length_inv; lia). split_and!; try done; try lia. by apply Hh.
  - case_if_in H; [done|]. bool_prop. unfold isExtendedSetDeviceStateInitialization in *. bdec. subst payload.
    injection H as <-. cbn in *. split_and!; try done; try lia. by apply Hh.
  - case_if_in H; [done|]. bool_prop. injection H as <-. cbn [hc_Kind hc_Sequence hc_State] in *.
    destruct payload as [|b [|]]; cbn [length] in Hl; try lia. apply list.Forall_cons in Hb as [Hb _].
    change (byte_at [b] 0) with b in *. split_and!; try done; try lia. by apply Hh.
  - case_if_in H; [done|]. bool_prop. unfold isSecurityDataComplete in *. bool_prop. injection H as <-.
    destruct payload as [|b [|b' [|]]]; cbn in *; try lia. subst. split_and!; try done; try lia. by apply Hh.
Qed.

Lemma host_command_exact src c : bytes_ok src ->
  (DecodeControllerHostCommand src = Ok c <-> command_ok c /\ src = command_image c).
Proof.
  intros Hb. split.
  - unfold DecodeControllerHostCommand, SinglePacketHeaderSize. intros H. case_if_in H; [done|].
    destruct (DecodeSinglePacketHeader _) as [h|] eqn:Eh; [|done]. apply header_at in Eh as (Ht & Hv & Es); [|done..].
    case_if_in H; [done|]. case_if_in H; [done|]. bool_prop.
    destruct (host_command h _) as [c'|] eqn:Ec; [|done].
    destruct (ControllerHostCommand_validate c') eqn:Hcv; [done|]. injection H as ->.
    apply host_command_sound in Ec as (Hok & Eh & Ep); try done.
    + split; [done|]. unfold command_image. by rewrite <-Ep, <-Eh.
    + by apply slice_bytes_ok.
    + rewrite length_slice by lia. lia.
  - intros [Hok ->]. destruct (command_ok_header c Hok) as [Ht Hv].
    unfold DecodeControllerHostCommand, command_image.
    assert (Hl : length (header_image (command_header c) ++ command_payload c) = (4 + length (command_payload c))%nat) by done.
    rewrite Hl, decode_header_at by done. change (4 + length _ <? SinglePacketHeaderSize)%nat with false.
    change (PayloadLength (command_header c)) with (Z.of_nat (length (command_payload c))).
    rewrite (proj2 (Z.eqb_eq (Z.of_nat (4 + length (command_payload c))) (4 + Z.of_nat (length (command_payload c))))) by lia.
    change (DataClass (command_header c)) with 0. cbn [negb orb command_header System AcknowledgementRequested ExpansionIndex Z.eqb DataClassCommand].
    rewrite slice_app_skip by (change (length (header_image (command_header c))) with 4%nat; lia).
    change (length (header_image (command_header c))) with 4%nat. change (4 - 4)%nat with 0%nat.
    rewrite slice_all by lia. rewrite host_command_complete by done. destruct Hok as (_ & _ & Hcv & _). by rewrite Hcv.
Qed.

(** ** Downstream messages and packets *)

(** The one wire form of a supported message. *)
Definition downstream_wire (m : ControllerDownstreamMessage) : list Z :=
  match m with
  | ControllerDownstreamLifecycle command => command_image command
  | ControllerDownstreamProtocolControlACK sequence body => msg_image ack_image ProtocolControlACKHeader (sequence, body)
  | ControllerDownstreamDirectMotor sequence body => msg_image rumble_image DirectMotorHeader (sequence, body)
  | ControllerDownstreamGuideLED sequence command => msg_image led_image GuideLEDCommandHeader (sequence, command)
  end.

Definition downstream_ok (m : ControllerDownstreamMessage) : Prop :=
  match m with
  | ControllerDownstreamLifecycle command => command_ok command
  | ControllerDownstreamProtocolControlACK sequence body =>
      msg_typed ack_typed (sequence, body) /\ msg_valid ProtocolControlACKBodyV1_Validate (sequence, body)
  | ControllerDownstreamDirectMotor sequence body =>
      msg_typed rumble_typed (sequence, body) /\ msg_valid RumbleBodyV1_Validate (sequence, body)
  | ControllerDownstreamGuideLED sequence command =>
      msg_typed led_typed (sequence, command) /\ msg_valid GuideLEDCommandV1_Validate (sequence, command)
  end.

Definition downstream_header (m : ControllerDownstreamMessage) : SinglePacketHeader :=
  match m with
  | ControllerDownstreamLifecycle command => command_header command
  | ControllerDownstreamProtocolControlACK sequence _ => ProtocolControlACKHeader sequence
  | ControllerDownstreamDirectMotor sequence _ => DirectMotorHeader sequence
  | ControllerDownstreamGuideLED sequence _ => GuideLEDCommandHeader sequence
  end.

Lemma downstream_shape m : downstream_ok m ->
  exists payload, downstream_wire m = header_image (downstream_header m) ++ payload /\
    Z.of_nat (length payload) = PayloadLength (downstream_header m) /\ bytes_ok (downstream_wire m) /\
    header_typed (downstream_header m) /\ header_valid (downstream_header m).
Proof.
  assert (Hh : forall n system size q, 0 <= n < 32 -> 0 <= size <= 60 -> U8 q -> q <> 0 ->
    let h := {| DataClass := 0; MessageNumber := n; System := system; AcknowledgementRequested := false;
                ExpansionIndex := 0; Sequence := q; PayloadLength := size |} in header_typed h /\ header_valid h).
  { intros n system size q Hn Hz Hq Hq0 h. assert (T : header_typed h) by (unfold header_typed, h; cbn; lia).
    split; [done|]. apply header_valid_spec; [done|]. unfold h; cbn. lia. }
  destruct m as [c|q b|q b|q b]; cbn [downstream_ok downstream_wire downstream_header].
  - intros Hok. exists (command_payload c). destruct (command_ok_header c Hok) as [Ht Hv].
    split_and!; try done. unfold command_image. apply bytes_ok_app. split; [by apply sc_bytes|].
    destruct Hok as (_ & Hst & _). unfold command_payload. destruct (hc_Kind c); cbn; by bytes_list.
  - intros [Ht Hv]. exists (ack_image b). pose proof (sc_bytes (StrictCodec := ack_message_codec) (q, b) Ht Hv) as [_ Hb].
    destruct Ht as [Hq _], Hv as [Hq0 _]. split_and!; try done; by apply Hh.
  - intros [Ht Hv]. exists (rumble_image b). pose proof (sc_bytes (StrictCodec := motor_codec) (q, b) Ht Hv) as [_ Hb].
    destruct Ht as [Hq _], Hv as [Hq0 _]. split_and!; try done; by apply Hh.
  - intros [Ht Hv]. exists (led_image b). pose proof (sc_bytes (StrictCodec := led_message_codec) (q, b) Ht Hv) as [_ Hb].
    destruct Ht as [Hq _], Hv as [Hq0 _]. split_and!; try done; by apply Hh.
Qed.

Lemma downstream_complete m : downstream_ok m -> DecodeControllerDownstreamMessage (downstream_wire m) = Ok m.
Proof.
  intros Hok. destruct (downstream_shape m Hok) as (payload & Ew & Hl & Hb & Ht & Hv).
  unfold DecodeControllerDownstreamMessage.
  assert (Hlen : length (downstream_wire m) = (4 + length payload)%nat) by (by rewrite Ew).
  assert (Hdec : DecodeSinglePacketHeader (slice 0 4 (downstream_wire m)) = Ok (downstream_header m))
    by (rewrite Ew; by apply decode_header_at). rewrite Hdec, Hlen.
  change (4 + length payload <? SinglePacketHeaderSize)%nat with false. cbv iota.
  rewrite (proj2 (Z.eqb_eq (Z.of_nat (4 + length payload)) (4 + PayloadLength (downstream_header m)))) by lia. cbn [negb].
  destruct m as [c|q b|q b|q b]; cbn [downstream_ok downstream_wire downstream_header] in *.
  - assert (Hd : DecodeControllerHostCommand (command_image c) = Ok c) by (by apply host_command_exact).
    rewrite Hd. change (DataClass (command_header c)) with 0. change (System (command_header c)) with true.
    change (MessageNumber (command_header c)) with (command_number c). unfold command_number.
    by destruct (hc_Kind c).
  - destruct Hok as [Kt Kv]. cbn [ProtocolControlACKHeader DataClass System MessageNumber DataClassCommand Z.eqb
      andb orb MessageNumberProtocolControl messageNumberMetadataRequest messageNumberSetDeviceState
      messageNumberSecurityData Pos.eqb].
    by rewrite (proj2 (sc_decode _ (q, b) Hb)).
  - destruct Hok as [Kt Kv]. cbn [DirectMotorHeader DataClass System MessageNumber DataClassCommand Z.eqb andb orb negb
      MessageNumberDirectMotor Pos.eqb].
    by rewrite (proj2 (sc_decode _ (q, b) Hb)).
  - destruct Hok as [Kt Kv]. cbn [GuideLEDCommandHeader DataClass System MessageNumber DataClassCommand Z.eqb andb orb negb
      MessageNumberLEDCommand MessageNumberProtocolControl messageNumberMetadataRequest messageNumberSetDeviceState
      messageNumberSecurityData MessageNumberDirectMotor Pos.eqb].
    by rewrite (proj2 (sc_decode _ (q, b) Hb)).
Qed.

Lemma downstream_sound src m : bytes_ok src -> DecodeControllerDownstreamMessage src = Ok m ->
  downstream_ok m /\ src = downstream_wire m.
Proof.
  intros Hb H. unfold DecodeControllerDownstreamMessage, SinglePacketHeaderSize in H. case_if_in H; [done|].
  destruct (DecodeSinglePacketHeader _) as [h|]; [|done]. case_if_in H; [done|].
  case_if_in H; [|case_if_in H; [|case_if_in H; [|case_if_in H; [|case_if_in H; [|done]]]]].
  - destruct (DecodeControllerHostCommand src) as [c|] eqn:E; [|done]. injection H as <-. by apply host_command_exact in E.
  - destruct (DecodeControllerHostCommand src) as [c|] eqn:E; [|done]. injection H as <-. by apply host_command_exact in E.
  - destruct (DecodeProtocolControlACKMessage src) as [[q b]|] eqn:E; [|done]. injection H as <-.
    by apply sc_decode in E as (? & ? & ->).
  - destruct (DecodeDirectMotorMessage src) as [[q b]|] eqn:E; [|done]. injection H as <-.
    by apply sc_decode in E as (? & ? & ->).
  - destruct (DecodeGuideLEDCommandMessage src) as [[q b]|] eqn:E; [|done]. injection H as <-.
    by apply sc_decode in E as (? & ? & ->).
Qed.

Lemma downstream_loop_sound fuel : forall rest acc out, bytes_ok rest ->
  downstream_loop fuel rest acc = Ok out ->
  exists ms, out = acc ++ ms /\ Forall downstream_ok ms /\ rest = concat (map downstream_wire ms).
Proof.
  induction fuel as [|fuel IH]; intros rest acc out Hb H; cbn [downstream_loop] in H.
  - destruct rest; [|done]. injection H as <-. exists []. by rewrite app_nil_r.
  - destruct rest as [|b rest']; [injection H as <-; exists []; by rewrite app_nil_r|].
    remember (b :: rest') as rest eqn:Er. clear Er. unfold SinglePacketHeaderSize in H.
    case_if_in H; [done|]. destruct (DecodeSinglePacketHeader _) as [h|] eqn:Eh; [|done].
    cbv zeta in H. case_if_in H; [done|]. destruct (DecodeControllerDownstreamMessage _) as [m|] eqn:Em; [|done].
    case_if_in H; [done|]. apply downstream_sound in Em as [Hok Ew]; [|by apply slice_bytes_ok].
    assert (Hd : bytes_ok (drop (4 + Z.to_nat (PayloadLength h)) rest)) by (by apply Forall_drop).
    apply IH in H as (ms & -> & Hms & Es); [|done]. exists (m :: ms). rewrite <-app_assoc. split_and!; [done| |].
    + by constructor.
    + cbn. rewrite <-Ew, <-Es. unfold slice. cbn [drop]. rewrite Nat.sub_0_r. by rewrite take_drop.
Qed.

Lemma downstream_wire_size m : downstream_ok m -> (4 <= length (downstream_wire m))%nat.
Proof. intros Hok. destruct (downstream_shape m Hok) as (p & -> & _). rewrite length_app. cbn. lia. Qed.

Lemma downstream_loop_complete ms : forall fuel acc, Forall downstream_ok ms ->
  (length (concat (map downstream_wire ms)) <= fuel)%nat ->
  (4 * length acc + length (concat (map downstream_wire ms)) <= 64)%nat ->
  downstream_loop fuel (concat (map downstream_wire ms)) acc = Ok (acc ++ ms).
Proof.
  induction ms as [|m ms IH]; intros fuel acc Hok Hf Hl; cbn [map concat] in *.
  - rewrite app_nil_r. by destruct fuel.
  - apply list.Forall_cons in Hok as [Hm Hms]. pose proof (downstream_wire_size m Hm) as H4.
    rewrite length_app in Hf, Hl.
    destruct (downstream_shape m Hm) as (payload & Ew & Hp & Hb & Ht & Hv).
    destruct fuel as [|fuel]; [lia|]. cbn [downstream_loop].
    destruct (downstream_wire m ++ concat (map downstream_wire ms)) as [|b r] eqn:Er.
    { apply (f_equal length) in Er. rewrite length_app in Er. cbn in Er. lia. }
    rewrite <-Er. unfold SinglePacketHeaderSize. rewrite length_app.
    rewrite (proj2 (Nat.ltb_ge _ 4)) by lia.
    rewrite Ew at 1. rewrite <-app_assoc, decode_header_at by done. cbv zeta.
    assert (Hlen : (4 + Z.to_nat (PayloadLength (downstream_header m)))%nat = length (downstream_wire m)).
    { rewrite Ew, length_app. change (length (header_image _)) with 4%nat. lia. }
    rewrite Hlen, (proj2 (Nat.ltb_ge _ (length (downstream_wire m)))) by lia.
    rewrite slice_app_head by done. rewrite downstream_complete by done.
    unfold controllerDownstreamPacketMaximumMessages. rewrite (proj2 (Nat.leb_gt 16 _)) by lia.
    rewrite drop_app_length, IH by (done || lia || (rewrite length_app; cbn; lia)). by rewrite <-app_assoc.
Qed.

(** C30: on every byte string, DecodeControllerDownstreamPacket returns a list of messages exactly
    when the packet is one to sixty-four bytes long and is the concatenation of the one canonical
    encoding of each message in order, every message valid: coalesced messages are split at their
    true boundaries, none is dropped, reordered or invented, and a packet with an unsupported,
    malformed or truncated message is refused as a whole.  The bound of sixteen messages never
    refuses a packet. *)
Theorem downstream_packet_exact (wire : list Z) (ms : list ControllerDownstreamMessage) :
  bytes_ok wire ->
  (DecodeControllerDownstreamPacket wire = Ok ms <->
   ms <> [] /\ Forall downstream_ok ms /\ wire = concat (map downstream_wire ms) /\ (length wire <= 64)%nat).
Proof.
  intros Hb. unfold DecodeControllerDownstreamPacket, ControllerDownstreamPacketMaximumSize. split.
  - intros H. case_if_in H; [done|]. bool_prop. apply downstream_loop_sound in H as (ms' & -> & Hok & ->); [|done].
    cbn [app]. split_and!; [|done|done|lia]. intros Em. rewrite Em in *. cbn in *. lia.
  - intros (Hne & Hok & -> & Hl). destruct ms as [|m ms]; [done|].
    pose proof (downstream_wire_size m ltac:(by apply list.Forall_cons in Hok as [? _])) as H4.
    assert (H1 : (4 <= length (concat (map downstream_wire (m :: ms))))%nat) by (cbn; rewrite length_app; lia).
    rewrite (proj2 (Nat.eqb_neq _ 0)), (proj2 (Nat.ltb_ge 64 _)) by lia. cbn [orb].
    rewrite downstream_loop_complete; [done|done|lia|]. cbn [length] in *. lia.
Qed.

Definition demo_motor : RumbleBodyV1 := {|
  Enabled := 3; LeftImpulse := 0; RightImpulse := 0; LeftVibration := 80; RightVibration := 40;
  Duration := 25; Delay := 0; Repeat := 0 |}.
Definition demo_messages : list ControllerDownstreamMessage :=
  [ControllerDownstreamLifecycle {| hc_Kind := ControllerHostCommandSetDeviceState; hc_Sequence := 3; hc_State := 0 |};
   ControllerDownstreamDirectMotor 7 demo_motor;
   ControllerDownstreamGuideLED 4 {| Pattern := 1; Intensity := 20 |}].

Lemma downstream_packet_exact_witness :
  DecodeControllerDownstreamPacket
    [5; 32; 3; 1; 0;  9; 0; 7; 9; 0; 3; 0; 0; 80; 40; 25; 0; 0;  10; 32; 4; 3; 0; 1; 20] = Ok demo_messages.
Proof.
  refine (proj2 (downstream_packet_exact _ demo_messages _) _).
  - by_decide.
  - split_and!; [done| |vm_compute; reflexivity|cbn; lia].
    repeat apply List.Forall_cons; try apply List.Forall_nil; cbn;
      unfold command_ok, message_typed, message_valid, rumble_typed, led_typed; cbn; split_and!; done.
Defined.

(** C31: every message codec of the controller is strict.  For the header, the two gamepad reports,
    Direct Motor, Extended Status, Guide LED, Guide button, Protocol Control ACK and the broker's
    semantic frame: encoding succeeds exactly on a destination of the message's size and a valid value
    and yields its image, and decoding accepts exactly the images of valid values.  So decoding inverts
    encoding, no message has a second encoding, and reserved bits, wrong lengths and out-of-range
    fields are refused. *)
Theorem gip_codecs_strict :
  StrictCodec 4 header_typed header_valid header_image EncodeSinglePacketHeaderInto DecodeSinglePacketHeader /\
  StrictCodec 18 (msg_typed report_typed) (msg_valid GamepadInputReportV1_Validate)
    (msg_image base_image GamepadInputHeader) EncodeGamepadInputMessageInto DecodeGamepadInputMessage /\
  StrictCodec 36 (msg_typed report_typed) (msg_valid cfm_Validate) (msg_image cfm_image cfm_header)
    EncodeConsoleFunctionMapGamepadInputMessageInto DecodeConsoleFunctionMapGamepadInputMessage /\
  StrictCodec 13 (msg_typed rumble_typed) (msg_valid RumbleBodyV1_Validate)
    (msg_image rumble_image DirectMotorHeader) EncodeDirectMotorMessageInto DecodeDirectMotorMessage /\
  StrictCodec 8 (msg_typed status_typed) (msg_valid ExtendedStatusNoEventsBodyV1_Validate)
    (msg_image status_image ExtendedStatusNoEventsHeader) EncodeExtendedStatusNoEventsMessageInto
    DecodeExtendedStatusNoEventsMessage /\
  StrictCodec 7 (msg_typed led_typed) (msg_valid GuideLEDCommandV1_Validate)
    (msg_image led_image GuideLEDCommandHeader) EncodeGuideLEDCommandMessageInto DecodeGuideLEDCommandMessage /\
  StrictCodec 6 (msg_typed guide_typed) (msg_valid guide_Validate) (msg_image guide_image guide_header)
    EncodeGuideButtonStatusMessageInto DecodeGuideButtonStatusMessage /\
  StrictCodec 13 (msg_typed ack_typed) (msg_valid ProtocolControlACKBodyV1_Validate)
    (msg_image ack_image ProtocolControlACKHeader) EncodeProtocolControlACKMessageInto
    DecodeProtocolControlACKMessage /\
  StrictCodec 24 state_typed (fun s => InputStateV1_Validate s = None) semantic_image
    EncodeSemanticInputWireV1Into DecodeSemanticInputWireV1.
Proof. split_and!; apply _. Qed.
