(* ===== verification/XboxProfile.v ===== *)
(** * Identity, USB descriptors and Hello of the Xbox One controller

    src/device/xboxone/usb_descriptors.go and hello.go: the validated profile,
    its USB descriptors and the Hello message that must announce the same
    identity.  The theorems show that the Hello codec is exact and that the
    host reads one vendor and product from the descriptor and from Hello. *)

From S2P Require Import Prelude Bytes Codec XboxGip.

(** ** Identity and configuration *)

Record FirmwareVersion := { Major : Z; Minor : Z; Build : Z; Revision : Z }.

#[export] Instance FirmwareVersion_eq_dec : EqDecision FirmwareVersion.
Proof. solve_decision. Defined.

Definition FirmwareVersion_validate (version : FirmwareVersion) : option gip_err :=
  if (Major version =? 0) && (Minor version =? 0) && (Build version =? 0) && (Revision version =? 0)
  then Some ErrInvalidFirmwareVersion else None.

Record ControllerIdentity := {
  VendorID : Z; ProductID : Z; DeviceReleaseBCD : Z; DeviceID : Z;
  Firmware : FirmwareVersion; HardwareMajor : Z; HardwareMinor : Z;
}.

#[export] Instance ControllerIdentity_eq_dec : EqDecision ControllerIdentity.
Proof. solve_decision. Defined.

Definition primaryDeviceIDPrefix : Z := 0x0000fffb00000000.
Definition primaryDeviceIDPrefixMask : Z := 0xffffffff00000000.

Definition validBCD16 (value : Z) : bool :=
  forallb (fun shift => negb (9 <? Z.land (Z.shiftr value shift) 0x0f)) [0; 4; 8; 12].

Definition ControllerIdentity_Validate (identity : ControllerIdentity) : option gip_err :=
  if (VendorID identity =? 0) || (ProductID identity =? 0) then Some ErrInvalidUSBIdentity
  else if negb (Z.land (DeviceID identity) primaryDeviceIDPrefixMask =? primaryDeviceIDPrefix)
  then Some ErrInvalidDeviceID
  else if negb (validBCD16 (DeviceReleaseBCD identity)) then Some ErrInvalidDeviceReleaseBCD
  else FirmwareVersion_validate (Firmware identity).

Record ControllerUSBConfig := { MaxPower2mA : Z; OUTIntervalMS : Z; INIntervalMS : Z }.

Definition minimumGIPInterruptIntervalMS : Z := 4.
Definition maximumUSBPower2mA : Z := 250.

Definition ControllerUSBConfig_Validate (config : ControllerUSBConfig) : option gip_err :=
  if (MaxPower2mA config =? 0) || (maximumUSBPower2mA <? MaxPower2mA config) then Some ErrInvalidUSBPower
  else if (OUTIntervalMS config <? minimumGIPInterruptIntervalMS) || (0xff <? OUTIntervalMS config)
  then Some ErrInvalidUSBInterval
  else if (INIntervalMS config <? minimumGIPInterruptIntervalMS) || (0xff <? INIntervalMS config)
  then Some ErrInvalidUSBInterval
  else None.

(** An issuance is a pointer: its address and the marker it points to. *)
Record controllerProfileIssuance := { pi_address : Z; pi_marker : Z }.

#[export] Instance controllerProfileIssuance_eq_dec : EqDecision controllerProfileIssuance.
Proof. solve_decision. Defined.

Record UnregisteredControllerProfile := {
  identity : ControllerIdentity;
  usb : ControllerUSBConfig;
  issuance : option controllerProfileIssuance;
  profile_valid : bool;
}.

(** [address] is where the issuance is allocated. *)
Definition NewUnregisteredControllerProfile (address : Z) (identity : ControllerIdentity)
    (usb : ControllerUSBConfig) : gres UnregisteredControllerProfile :=
  check ControllerIdentity_Validate identity in
  check ControllerUSBConfig_Validate usb in
  Ok {| identity := identity; usb := usb; issuance := Some {| pi_address := address; pi_marker := 1 |};
        profile_valid := true |}.

Definition profile_validate (profile : UnregisteredControllerProfile) : option gip_err :=
  if negb (profile_valid profile) ||
     match issuance profile with None => true | Some i => negb (pi_marker i =? 1) end
  then Some ErrUninitializedControllerProfile
  else
    match ControllerIdentity_Validate (identity profile) with
    | Some e => Some e
    | None => ControllerUSBConfig_Validate (usb profile)
    end.

Definition Identity (profile : UnregisteredControllerProfile) : gres ControllerIdentity :=
  check profile_validate profile in Ok (identity profile).

(** ** USB descriptors *)

Definition USBDeviceDescriptorSize : nat := 18.
Definition USBControllerConfigurationDescriptorSize : nat := 32.
Definition USBLanguageIDDescriptorSize : nat := 4.
Definition MicrosoftOSStringDescriptorSize : nat := 18.
Definition MicrosoftExtendedCompatibleIDDescriptorSize : nat := 40.
Definition MicrosoftExtendedPropertiesDescriptorSize : nat := 10.
Definition MicrosoftOSVendorCode : Z := 0x90.

(** The writers check the destination's length, validate the profile and
    assign every byte. *)
Definition write_exact (size : nat) (profile : UnregisteredControllerProfile) (dst wire : list Z) : gres (list Z) :=
  if negb (length dst =? size)%nat then Err ErrInvalidLength
  else check profile_validate profile in Ok wire.

Definition EncodeUSBDeviceDescriptorInto (profile : UnregisteredControllerProfile) (dst : list Z) : gres (list Z) :=
  write_exact USBDeviceDescriptorSize profile dst
    ([18; 0x01] ++ le_bytes 2 0x0200 ++ [0xff; 0x47; 0xd0; 0x40] ++ le_bytes 2 (VendorID (identity profile)) ++
     le_bytes 2 (ProductID (identity profile)) ++ le_bytes 2 (DeviceReleaseBCD (identity profile)) ++
     [0x01; 0x02; 0x03; 0x01]).

Definition EncodeUSBControllerConfigurationDescriptorInto (profile : UnregisteredControllerProfile)
    (dst : list Z) : gres (list Z) :=
  write_exact USBControllerConfigurationDescriptorSize profile dst
    ([0x09; 0x02] ++ le_bytes 2 32 ++ [0x01; 0x01; 0x00; 0xa0; u8 (MaxPower2mA (usb profile))] ++
     [0x09; 0x04; 0x00; 0x00; 0x02; 0xff; 0x47; 0xd0; 0x00] ++
     [0x07; 0x05; 0x01; 0x03; 0x40; 0x00; u8 (OUTIntervalMS (usb profile))] ++
     [0x07; 0x05; 0x81; 0x03; 0x40; 0x00; u8 (INIntervalMS (usb profile))]).

Definition EncodeUSBLanguageIDDescriptorInto (profile : UnregisteredControllerProfile) (dst : list Z) : gres (list Z) :=
  write_exact USBLanguageIDDescriptorSize profile dst [0x04; 0x03; 0x09; 0x04].

Definition EncodeMicrosoftOSStringDescriptorInto (profile : UnregisteredControllerProfile) (dst : list Z) : gres (list Z) :=
  write_exact MicrosoftOSStringDescriptorSize profile dst
    [0x12; 0x03; 0x4d; 0x00; 0x53; 0x00; 0x46; 0x00; 0x54; 0x00; 0x31; 0x00; 0x30; 0x00; 0x30; 0x00;
     MicrosoftOSVendorCode; 0x00].

Definition EncodeMicrosoftExtendedCompatibleIDDescriptorInto (profile : UnregisteredControllerProfile)
    (dst : list Z) : gres (list Z) :=
  write_exact MicrosoftExtendedCompatibleIDDescriptorSize profile dst
    (le_bytes 4 40 ++ le_bytes 2 0x0100 ++ le_bytes 2 0x0004 ++ [0x01] ++ zeros 7 ++ [0x00; 0x01] ++
     [0x58; 0x47; 0x49; 0x50; 0x31; 0x30; 0x00; 0x00] ++ zeros 14).

Definition EncodeMicrosoftExtendedPropertiesDescriptorInto (profile : UnregisteredControllerProfile)
    (dst : list Z) : gres (list Z) :=
  write_exact MicrosoftExtendedPropertiesDescriptorSize profile dst
    (le_bytes 4 10 ++ le_bytes 2 0x0100 ++ le_bytes 2 0x0005 ++ zeros 2).

(** ** Hello *)

Definition HelloPayloadSize : nat := 28.
Definition HelloMessageSize : nat := 32.
Definition MessageNumberHello : Z := 2.

Record HelloMessageV1 := {
  h_Sequence : Z; h_DeviceID : Z; h_VendorID : Z; h_ProductID : Z; h_Firmware : FirmwareVersion;
  h_HardwareMajor : Z; h_HardwareMinor : Z;
}.

Definition HelloMessageV1_validate (hello : HelloMessageV1) : option gip_err :=
  if h_Sequence hello =? 0 then Some ErrReservedSequence
  else if negb (Z.land (h_DeviceID hello) primaryDeviceIDPrefixMask =? primaryDeviceIDPrefix)
  then Some ErrInvalidDeviceID
  else if (h_VendorID hello =? 0) || (h_ProductID hello =? 0) then Some ErrInvalidUSBIdentity
  else FirmwareVersion_validate (h_Firmware hello).

Definition protocol_versions : list Z := [0x01; 0x00; 0x01; 0x00; 0x01; 0x00].

Definition hello_of (profile : UnregisteredControllerProfile) (sequence : Z) : HelloMessageV1 := {|
  h_Sequence := sequence; h_DeviceID := DeviceID (identity profile); h_VendorID := VendorID (identity profile);
  h_ProductID := ProductID (identity profile); h_Firmware := Firmware (identity profile);
  h_HardwareMajor := HardwareMajor (identity profile); h_HardwareMinor := HardwareMinor (identity profile) |}.

Definition hello_payload (hello : HelloMessageV1) : list Z :=
  le_bytes 8 (h_DeviceID hello) ++ le_bytes 2 (h_VendorID hello) ++ le_bytes 2 (h_ProductID hello) ++
  le_bytes 2 (Major (h_Firmware hello)) ++ le_bytes 2 (Minor (h_Firmware hello)) ++
  le_bytes 2 (Build (h_Firmware hello)) ++ le_bytes 2 (Revision (h_Firmware hello)) ++
  [h_HardwareMajor hello; h_HardwareMinor hello] ++ protocol_versions.

Definition hello_header (sequence : Z) : SinglePacketHeader := {|
  DataClass := DataClassCommand; MessageNumber := MessageNumberHello; System := true;
  AcknowledgementRequested := false; ExpansionIndex := 0; Sequence := sequence; PayloadLength := 28 |}.

Definition EncodeHelloMessageInto (profile : UnregisteredControllerProfile) (dst : list Z) (sequence : Z) :
    gres (list Z) :=
  if negb (length dst =? HelloMessageSize)%nat then Err ErrInvalidLength
  else check profile_validate profile in
    let hello := hello_of profile sequence in
    check HelloMessageV1_validate hello in
    let? header := EncodeSinglePacketHeaderInto (zeros 4) (hello_header sequence) in
    Ok (header ++ hello_payload hello).

Definition rd64 (src : list Z) (i : nat) : Z := le_val (slice i (i + 8) src).

Definition DecodeHelloMessage (src : list Z) : gres HelloMessageV1 :=
  if negb (length src =? HelloMessageSize)%nat then Err ErrInvalidLength
  else
    match DecodeSinglePacketHeader (slice 0 4 src) with
    | Err _ => Err ErrInvalidHelloMessage
    | Ok header =>
        if negb (header_is header DataClassCommand MessageNumberHello true 28) then Err ErrInvalidHelloMessage
        else if negb (bool_decide (slice 26 32 src = protocol_versions)) then Err ErrInvalidHelloMessage
        else
          let hello := {|
            h_Sequence := Sequence header; h_DeviceID := rd64 src 4; h_VendorID := rd16 src 12;
            h_ProductID := rd16 src 14;
            h_Firmware := {| Major := rd16 src 16; Minor := rd16 src 18; Build := rd16 src 20;
                             Revision := rd16 src 22 |};
            h_HardwareMajor := byte_at src 24; h_HardwareMinor := byte_at src 25 |} in
          match HelloMessageV1_validate hello with
          | Some _ => Err ErrInvalidHelloMessage
          | None => Ok hello
          end
    end.

(** ** Hello is exact *)

Definition hello_typed (h : HelloMessageV1) : Prop :=
  U8 (h_Sequence h) /\ U64 (h_DeviceID h) /\ U16 (h_VendorID h) /\ U16 (h_ProductID h) /\
  U16 (Major (h_Firmware h)) /\ U16 (Minor (h_Firmware h)) /\ U16 (Build (h_Firmware h)) /\
  U16 (Revision (h_Firmware h)) /\ U8 (h_HardwareMajor h) /\ U8 (h_HardwareMinor h).
Definition hello_image (h : HelloMessageV1) : list Z := header_image (hello_header (h_Sequence h)) ++ hello_payload h.

Definition hello_fields (h : HelloMessageV1) : list (list Z) :=
  [header_image (hello_header (h_Sequence h)); le_bytes 8 (h_DeviceID h); le_bytes 2 (h_VendorID h);
   le_bytes 2 (h_ProductID h); le_bytes 2 (Major (h_Firmware h)); le_bytes 2 (Minor (h_Firmware h));
   le_bytes 2 (Build (h_Firmware h)); le_bytes 2 (Revision (h_Firmware h)); [h_HardwareMajor h];
   [h_HardwareMinor h]; protocol_versions].

Lemma hello_image_fields h : hello_image h = concat (hello_fields h).
Proof. reflexivity. Qed.

Lemma hello_header_ok q : U8 q -> q <> 0 -> header_typed (hello_header q) /\ header_valid (hello_header q).
Proof.
  intros Hq H0. assert (T : header_typed (hello_header q)) by (unfold header_typed, hello_header, DataClassCommand, MessageNumberHello; cbn; lia).
  split; [done|]. apply header_valid_spec; [done|]. unfold hello_header, DataClassCommand, MessageNumberHello. cbn. lia.
Qed.

Lemma hello_decode_image h : hello_typed h -> HelloMessageV1_validate h = None ->
  DecodeHelloMessage (hello_image h) = Ok h.
Proof.
  intros (T1 & T2 & T3 & T4 & T5 & T6 & T7 & T8 & T9 & T10) Hv.
  assert (Hq : h_Sequence h <> 0).
  { intros E. unfold HelloMessageV1_validate in Hv. by rewrite E in Hv. }
  destruct (hello_header_ok (h_Sequence h) T1 Hq) as [Hht Hhv].
  pose proof (cut_concat (hello_fields h) [] []) as Hc. rewrite app_nil_r in Hc. cbn [app length] in Hc.
  rewrite <-hello_image_fields in Hc. unfold hello_fields in Hc. cbn [map length cut Nat.add] in Hc.
  rewrite !length_le_bytes in Hc. change (length (header_image _)) with 4%nat in Hc. cbn [length protocol_versions Nat.add cut] in Hc.
  assert (Hlen : length (hello_image h) = 32%nat) by done. generalize dependent (hello_image h). intros src Hc Hlen.
  injection Hc as C1 C2 C3 C4 C5 C6 C7 C8 C9 C10 C11.
  unfold DecodeHelloMessage. rewrite Hlen, C1. change (negb (32 =? HelloMessageSize)%nat) with false. cbv iota.
  assert (Hdec : DecodeSinglePacketHeader (header_image (hello_header (h_Sequence h))) = Ok (hello_header (h_Sequence h))).
  { apply sc_decode; [|done]. by apply sc_bytes. }
  rewrite Hdec, C11, bool_decide_true by done.
  change (header_is (hello_header (h_Sequence h)) DataClassCommand MessageNumberHello true 28) with true. cbn [negb].
  assert (B24 : byte_at src 24 = h_HardwareMajor h) by (rewrite slice_byte in C9 by (rewrite Hlen; lia); by injection C9).
  assert (B25 : byte_at src 25 = h_HardwareMinor h) by (rewrite slice_byte in C10 by (rewrite Hlen; lia); by injection C10).
  unfold rd64, rd16. cbn [Nat.add]. rewrite C2, C3, C4, C5, C6, C7, C8, B24, B25, !le_val_small by (cbn; lia).
  replace {| h_Sequence := _ |} with h by (by destruct h as [? ? ? ? []]). by rewrite Hv.
Qed.

Lemma hello_decode_sound src h : bytes_ok src -> DecodeHelloMessage src = Ok h ->
  hello_typed h /\ HelloMessageV1_validate h = None /\ src = hello_image h.
Proof.
  intros Hb H. unfold DecodeHelloMessage, HelloMessageSize in H. case_if_in H; bool_prop; [done|]. rename Hb0 into Hl.
  destruct (DecodeSinglePacketHeader _) as [hd|] eqn:Eh; [|done]. case_if_in H; [done|]. case_if_in H; [done|].
  bool_prop. bdec. destruct (HelloMessageV1_validate _) eqn:Hv in H; [done|]. injection H as <-.
  apply sc_decode in Eh as (Hht & Hhv & Eh); [|by apply slice_bytes_ok].
  assert (Ehd : hd = hello_header (Sequence hd)).
  { apply (header_is_hdr (n := 28) hello_header DataClassCommand MessageNumberHello true (fun _ => eq_refl) hd). done. }
  assert (Hr16 : forall i, (i + 2 <= 32)%nat -> U16 (rd16 src i) /\ le_bytes 2 (rd16 src i) = slice i (i + 2) src).
  { intros i Hi. apply rd16_bytes; [done|lia]. }
  assert (Hr64 : U64 (rd64 src 4) /\ le_bytes 8 (rd64 src 4) = slice 4 12 src).
  { unfold rd64. split; [|apply le_bytes_slice; [done|cbn; lia|done]].
    pose proof (le_val_slice_range 4 (4 + 8) src Hb ltac:(lia)) as Hr. cbn in Hr. cbn. lia. }
  assert (Hby : forall i, U8 (byte_at src i)) by (intros i; by apply byte_at_ok).
  split_and!; [|done|].
  - unfold hello_typed. cbn. destruct Hht as (_ & _ & _ & Hq & _). split_and!; try apply Hr16; try apply Hr64; try apply Hby; lia.
  - rewrite hello_image_fields. unfold hello_fields. cbn [h_Sequence h_DeviceID h_VendorID h_ProductID h_Firmware
      Major Minor Build Revision h_HardwareMajor h_HardwareMinor].
    rewrite <-Ehd, <-Eh, (proj2 Hr64), !(fun i Hi => proj2 (Hr16 i Hi)) by lia.
    rewrite <-Hb1, <-!slice_byte by lia. cbn [Nat.add].
    pose proof (concat_cut 0 [4; 8; 2; 2; 2; 2; 2; 2; 1; 1; 6]%nat src) as E. cbn [cut Nat.add foldr] in E. rewrite E. symmetry.
    by apply slice_all.
Qed.

(** DecodeHelloMessage accepts exactly the encodings of valid messages. *)
Lemma hello_decode_exact src h : bytes_ok src ->
  (DecodeHelloMessage src = Ok h <-> hello_typed h /\ HelloMessageV1_validate h = None /\ src = hello_image h).
Proof.
  intros Hb. split; [by apply hello_decode_sound|]. intros (Ht & Hv & ->). by apply hello_decode_image.
Qed.

Definition identity_typed (i : ControllerIdentity) : Prop :=
  U16 (VendorID i) /\ U16 (ProductID i) /\ U16 (DeviceReleaseBCD i) /\ U64 (DeviceID i) /\
  U16 (Major (Firmware i)) /\ U16 (Minor (Firmware i)) /\ U16 (Build (Firmware i)) /\
  U16 (Revision (Firmware i)) /\ U8 (HardwareMajor i) /\ U8 (HardwareMinor i).

(** A profile that was constructed from an identity announces that identity everywhere: Hello
    encodes for every nonzero sequence and decodes to the identity's device, vendor, product, firmware
    and hardware numbers, and the vendor, product and release that a host reads from the USB device
    descriptor are the same. *)
Theorem hello_announces_identity (address : Z) (i : ControllerIdentity) (u : ControllerUSBConfig)
    (profile : UnregisteredControllerProfile) (sequence : Z) :
  identity_typed i -> U8 sequence -> sequence <> 0 ->
  NewUnregisteredControllerProfile address i u = Ok profile ->
  exists hello descriptor,
    EncodeHelloMessageInto profile (zeros HelloMessageSize) sequence = Ok hello /\
    DecodeHelloMessage hello = Ok {| h_Sequence := sequence; h_DeviceID := DeviceID i; h_VendorID := VendorID i;
      h_ProductID := ProductID i; h_Firmware := Firmware i; h_HardwareMajor := HardwareMajor i;
      h_HardwareMinor := HardwareMinor i |} /\
    EncodeUSBDeviceDescriptorInto profile (zeros USBDeviceDescriptorSize) = Ok descriptor /\
    length descriptor = 18%nat /\
    rd16 descriptor 8 = VendorID i /\ rd16 descriptor 10 = ProductID i /\ rd16 descriptor 12 = DeviceReleaseBCD i.
Proof.
  intros Ht Hq Hq0 H. unfold NewUnregisteredControllerProfile in H.
  destruct (ControllerIdentity_Validate i) eqn:Hi; [done|]. destruct (ControllerUSBConfig_Validate u) eqn:Hu; [done|].
  injection H as <-. set (profile := {| identity := i |}).
  assert (Hp : profile_validate profile = None) by (unfold profile_validate, profile; cbn; by rewrite Hi).
  set (hello := hello_of profile sequence).
  assert (Hv : HelloMessageV1_validate hello = None).
  { unfold HelloMessageV1_validate, hello, hello_of, profile. cbn [h_Sequence h_DeviceID h_VendorID h_ProductID h_Firmware identity].
    unfold ControllerIdentity_Validate in Hi. rewrite (proj2 (Z.eqb_neq _ _) Hq0).
    case_if_in Hi; [done|]. case_if_in Hi; [done|]. by case_if_in Hi. }
  destruct Ht as (T1 & T2 & T3 & T4 & T5 & T6 & T7 & T8 & T9 & T10).
  assert (Hht : hello_typed hello) by (unfold hello_typed; cbn; split_and!; lia).
  destruct (hello_header_ok sequence Hq Hq0) as [Kt Kv].
  exists (hello_image hello). eexists. split_and!.
  - unfold EncodeHelloMessageInto. change (negb (_ =? HelloMessageSize)%nat) with false. cbv iota zeta.
    fold hello. rewrite Hp, Hv.
    by rewrite (proj2 (sc_encode (zeros 4) (hello_header sequence) (header_image (hello_header sequence)) Kt)).
  - by apply hello_decode_image.
  - unfold EncodeUSBDeviceDescriptorInto, write_exact. change (negb (_ =? USBDeviceDescriptorSize)%nat) with false.
    cbv iota. by rewrite Hp.
  - done.
  - rewrite !app_assoc, <-!app_assoc. exact (rd16_app [18; 1; 0; 2; 255; 71; 208; 64] (VendorID i) _ T1).
  - etrans; [exact (rd16_skip ([18; 1; 0; 2; 255; 71; 208; 64] ++ le_bytes 2 (VendorID i)) _ 0)|]. by apply rd16_head.
  - etrans; [exact (rd16_skip ([18; 1; 0; 2; 255; 71; 208; 64] ++ le_bytes 2 (VendorID i) ++ le_bytes 2 (ProductID i)) _ 0)|].
    by apply rd16_head.
Qed.

Definition demo_identity : ControllerIdentity := {|
  VendorID := 0x045e; ProductID := 0x0b12; DeviceReleaseBCD := 0x0507; DeviceID := 0x0000fffb00000042;
  Firmware := {| Major := 5; Minor := 23; Build := 6; Revision := 0 |}; HardwareMajor := 1; HardwareMinor := 2 |}.
Definition demo_usb : ControllerUSBConfig := {| MaxPower2mA := 250; OUTIntervalMS := 4; INIntervalMS := 4 |}.
Definition demo_profile : UnregisteredControllerProfile := {|
  identity := demo_identity; usb := demo_usb; issuance := Some {| pi_address := 7; pi_marker := 1 |};
  profile_valid := true |}.

Lemma hello_announces_identity_witness :
  exists hello descriptor,
    EncodeHelloMessageInto demo_profile (zeros HelloMessageSize) 1 = Ok hello /\
    DecodeHelloMessage hello = Ok (hello_of demo_profile 1) /\
    EncodeUSBDeviceDescriptorInto demo_profile (zeros USBDeviceDescriptorSize) = Ok descriptor /\
    length descriptor = 18%nat /\
    rd16 descriptor 8 = 0x045e /\ rd16 descriptor 10 = 0x0b12 /\ rd16 descriptor 12 = 0x0507.
Proof.
  apply (hello_announces_identity 7 demo_identity demo_usb demo_profile 1).
  - unfold identity_typed. cbn. lia.
  - lia.
  - lia.
  - vm_compute. reflexivity.
Defined.
