(* ===== verification/XboxSession.v ===== *)
(** * Sequence pools and the authentication boundary

    src/device/xboxone/session.go.  [SequenceCounter] allocates the nonzero
    eight-bit sequence numbers of one message pool by claim, admission and
    resolution.  A counter is identified by its address [self]; a claim carries
    the address of the counter that issued it.  Runs apply arbitrary operations
    with arbitrary, also forged, claims; the theorem is about the log of the
    operations that succeeded. *)

From S2P Require Import Prelude Bytes XboxGip.

Inductive SequenceOutcome := SequenceDelivered | SequenceDeferred | SequenceDeliveryFailed.

Record SequenceClaim := {
  sc_owner : option Z; sc_token : Z; sc_generation : Z; sc_value : Z;
}.

#[export] Instance SequenceClaim_eq_dec : EqDecision SequenceClaim.
Proof. solve_decision. Defined.

Definition SequenceClaim_Valid (claim : SequenceClaim) : bool :=
  match sc_owner claim with Some _ => negb (sc_token claim =? 0) | None => false end.

Record SequenceCounter := {
  last_ : Z; generation : Z; nextToken : Z; hasClaim : bool; claimAdmitted : bool;
  claimToken : Z; claimValue : Z; retryPending : bool; retryValue : Z;
}.

Definition zero_counter : SequenceCounter := {|
  last_ := 0; generation := 0; nextToken := 0; hasClaim := false; claimAdmitted := false;
  claimToken := 0; claimValue := 0; retryPending := false; retryValue := 0 |}.

Definition effectiveGeneration (c : SequenceCounter) : Z := if generation c =? 0 then 1 else generation c.

(** [counter.nextToken++], skipping zero when it wraps. *)
Definition nextClaimToken (c : SequenceCounter) : Z :=
  let token := u64 (nextToken c + 1) in if token =? 0 then u64 (token + 1) else token.

Section Counter.
Context (self : Z).

Definition makeClaim (value : Z) (c : SequenceCounter) : SequenceCounter * SequenceClaim :=
  let token := nextClaimToken c in
  ({| last_ := last_ c; generation := generation c; nextToken := token; hasClaim := true; claimAdmitted := false;
      claimToken := token; claimValue := value; retryPending := retryPending c; retryValue := retryValue c |},
   {| sc_owner := Some self; sc_token := token; sc_generation := effectiveGeneration c; sc_value := value |}).

Definition Claim (c : SequenceCounter) : SequenceCounter * gres SequenceClaim :=
  if hasClaim c then (c, Err ErrSequenceClaimOutstanding)
  else if retryPending c then (c, Err ErrSequenceRetryRequired)
  else
    let value := u8 (last_ c + 1) in
    let value := if value =? 0 then 1 else value in
    let '(c, claim) := makeClaim value c in (c, Ok claim).

Definition ClaimRetry (c : SequenceCounter) : SequenceCounter * gres SequenceClaim :=
  if hasClaim c then (c, Err ErrSequenceClaimOutstanding)
  else if negb (retryPending c) then (c, Err ErrSequenceRetryRequired)
  else
    let value := retryValue c in
    let '(c, claim) := makeClaim value c in
    ({| last_ := last_ c; generation := generation c; nextToken := nextToken c; hasClaim := hasClaim c;
        claimAdmitted := claimAdmitted c; claimToken := claimToken c; claimValue := claimValue c;
        retryPending := false; retryValue := retryValue c |}, Ok claim).

Definition validateClaim (claim : SequenceClaim) (c : SequenceCounter) : option gip_err :=
  if negb (hasClaim c) || negb (bool_decide (sc_owner claim = Some self)) || (sc_token claim =? 0) ||
     negb (sc_token claim =? claimToken c) || negb (sc_generation claim =? effectiveGeneration c) ||
     negb (sc_value claim =? claimValue c)
  then Some ErrInvalidSequenceClaim else None.

Definition CanAdmit (claim : SequenceClaim) (c : SequenceCounter) : SequenceCounter * gres bool :=
  match validateClaim claim c with
  | Some e => (c, Err e)
  | None =>
      if claimAdmitted c then (c, Err ErrInvalidSequenceClaim)
      else ({| last_ := last_ c; generation := generation c; nextToken := nextToken c; hasClaim := hasClaim c;
               claimAdmitted := true; claimToken := claimToken c; claimValue := claimValue c;
               retryPending := retryPending c; retryValue := retryValue c |}, Ok true)
  end.

Definition is_delivered (outcome : SequenceOutcome) : bool :=
  match outcome with SequenceDelivered => true | _ => false end.

Definition Resolve (claim : SequenceClaim) (outcome : SequenceOutcome) (c : SequenceCounter) :
    SequenceCounter * option gip_err :=
  match validateClaim claim c with
  | Some e => (c, Some e)
  | None =>
      if is_delivered outcome && negb (claimAdmitted c) then (c, Some ErrSequenceClaimNotAdmitted)
      else
        ({| last_ := if is_delivered outcome then claimValue c else last_ c;
            generation := generation c; nextToken := nextToken c; hasClaim := false; claimAdmitted := false;
            claimToken := 0; claimValue := 0;
            retryPending := if is_delivered outcome then retryPending c else true;
            retryValue := if is_delivered outcome then retryValue c else claimValue c |}, None)
  end.

Definition Reset (successorGeneration : Z) (c : SequenceCounter) : SequenceCounter * option gip_err :=
  let current := effectiveGeneration c in
  if (current =? 18446744073709551615) || (successorGeneration =? 0) ||
     negb (successorGeneration =? u64 (current + 1))
  then (c, Some ErrInvalidTransferGeneration)
  else ({| last_ := 0; generation := successorGeneration; nextToken := nextToken c; hasClaim := false;
           claimAdmitted := false; claimToken := 0; claimValue := 0; retryPending := false; retryValue := 0 |}, None).

(** ** Runs *)

Inductive seq_op :=
| OpClaim | OpRetry | OpAdmit (claim : SequenceClaim)
| OpResolve (claim : SequenceClaim) (outcome : SequenceOutcome) | OpReset (successor : Z).

(** What succeeded, in order. *)
Inductive seq_event :=
| Claimed (claim : SequenceClaim) | AdmittedClaim (claim : SequenceClaim)
| Resolved (claim : SequenceClaim) (outcome : SequenceOutcome) | WasReset (generation : Z).

Definition seq_step (op : seq_op) (c : SequenceCounter) : SequenceCounter * list seq_event :=
  match op with
  | OpClaim => let '(c, r) := Claim c in (c, match r with Ok claim => [Claimed claim] | Err _ => [] end)
  | OpRetry => let '(c, r) := ClaimRetry c in (c, match r with Ok claim => [Claimed claim] | Err _ => [] end)
  | OpAdmit claim => let '(c, r) := CanAdmit claim c in (c, match r with Ok _ => [AdmittedClaim claim] | Err _ => [] end)
  | OpResolve claim outcome =>
      let '(c, e) := Resolve claim outcome c in (c, match e with None => [Resolved claim outcome] | Some _ => [] end)
  | OpReset successor =>
      let '(c, e) := Reset successor c in (c, match e with None => [WasReset successor] | Some _ => [] end)
  end.

Fixpoint seq_run (ops : list seq_op) (c : SequenceCounter) : SequenceCounter * list seq_event :=
  match ops with
  | [] => (c, [])
  | op :: ops =>
      let '(c, e) := seq_step op c in
      let '(c, log) := seq_run ops c in (c, e ++ log)
  end.

(** The values delivered since the last reset, in order. *)
Fixpoint delivered_from (acc : list Z) (log : list seq_event) : list Z :=
  match log with
  | [] => acc
  | Resolved claim SequenceDelivered :: log => delivered_from (acc ++ [sc_value claim]) log
  | WasReset _ :: log => delivered_from [] log
  | _ :: log => delivered_from acc log
  end.
Definition delivered (log : list seq_event) : list Z := delivered_from [] log.

Definition resolved_tokens (log : list seq_event) : list Z :=
  omap (fun e => match e with Resolved claim _ => Some (sc_token claim) | _ => None end) log.
End Counter.

(** The [n]-th value of the pool: 1, 2, ..., 255, 1, ... *)
Definition pool_value (n : nat) : Z := Z.of_nat n mod 255 + 1.
Definition pool (n : nat) : list Z := map pool_value (seq 0 n).

Lemma delivered_app acc l1 l2 : delivered_from acc (l1 ++ l2) = delivered_from (delivered_from acc l1) l2.
Proof. revert acc. induction l1 as [|e l1 IH]; intros acc; [done|]. cbn. destruct e as [| |? []|]; apply IH. Qed.

Lemma pool_S n : pool (S n) = pool n ++ [pool_value n].
Proof. unfold pool. by rewrite seq_S, map_app. Qed.

Section Run.
Context (self : Z).

(** The claim that is outstanding. *)
Definition current_claim (c : SequenceCounter) : SequenceClaim := {|
  sc_owner := Some self; sc_token := claimToken c; sc_generation := effectiveGeneration c; sc_value := claimValue c |}.

Record seq_inv (c : SequenceCounter) (log : list seq_event) (n m : nat) : Prop := {
  si_delivered : delivered log = pool n;
  si_last : last_ c = match n with O => 0 | S n => pool_value n end;
  si_claim : hasClaim c = true -> claimValue c = pool_value n /\ claimToken c = nextToken c /\ claimToken c <> 0 /\
    retryPending c = false /\ Forall (fun t => t < claimToken c) (resolved_tokens log);
  si_retry : retryPending c = true -> retryValue c = pool_value n;
  si_tokens : 0 <= nextToken c <= Z.of_nat m /\ Forall (fun t => t <= nextToken c) (resolved_tokens log) /\
    NoDup (resolved_tokens log);
  si_admitted : claimAdmitted c = true -> AdmittedClaim (current_claim c) ∈ log;
  si_delivered_admitted : forall claim, Resolved claim SequenceDelivered ∈ log -> AdmittedClaim claim ∈ log;
}.

Lemma next_pool_value c log n m : seq_inv c log n m ->
  (let value := u8 (last_ c + 1) in if value =? 0 then 1 else value) = pool_value n.
Proof.
  intros H. rewrite (si_last _ _ _ _ H). unfold pool_value, u8. destruct n as [|n]; [done|]. cbv zeta.
  rewrite Nat2Z.inj_succ. destruct (Z.eqb_spec ((Z.of_nat n mod 255 + 1 + 1) mod 256) 0); zsolve.
Qed.

Lemma validateClaim_spec claim c : validateClaim self claim c = None ->
  hasClaim c = true /\ claim = current_claim c /\ claimToken c <> 0.
Proof.
  unfold validateClaim. intros H. case_if_in H; [done|]. bool_prop. bdec. destruct claim as [o t g v]; cbn in *; subst.
  split_and!; [done|done|lia].
Qed.

(** Claiming a value the pool is due. *)
Lemma pool_claim_inv c log n m value : seq_inv c log n m -> Z.of_nat m + 1 < 18446744073709551616 ->
  value = pool_value n -> hasClaim c = false ->
  let '(c', claim) := makeClaim self value c in
  (retryPending c = false -> seq_inv c' (log ++ [Claimed claim]) n (S m)) /\
  seq_inv {| last_ := last_ c'; generation := generation c'; nextToken := nextToken c'; hasClaim := hasClaim c';
        claimAdmitted := claimAdmitted c'; claimToken := claimToken c'; claimValue := claimValue c';
        retryPending := false; retryValue := retryValue c' |} (log ++ [Claimed claim]) n (S m).
Proof.
  intros [I1 I2 I3 I4 (T1 & T2 & T3) I6 I7] Hm -> Hc. cbn.
  assert (Et : nextClaimToken c = nextToken c + 1).
  { unfold nextClaimToken, u64. rewrite Z.mod_small by lia. case_if; lia. }
  rewrite Et. assert (Hr : resolved_tokens (log ++ [Claimed (current_claim c)]) = resolved_tokens log).
  { unfold resolved_tokens. by rewrite omap_app, app_nil_r. }
  assert (Hr' : forall x, resolved_tokens (log ++ [Claimed x]) = resolved_tokens log).
  { intros x. unfold resolved_tokens. by rewrite omap_app, app_nil_r. }
  assert (Hd : forall x, delivered (log ++ [Claimed x]) = delivered log) by (intros x; unfold delivered; by rewrite delivered_app).
  assert (Hlt : Forall (fun t => t < nextToken c + 1) (resolved_tokens log)).
  { eapply List.Forall_impl; [|exact T2]. cbn. lia. }
  assert (Hle : Forall (fun t => t <= nextToken c + 1) (resolved_tokens log)).
  { eapply List.Forall_impl; [|exact T2]. cbn. lia. }
  split; [intros Hp|]; split; cbn; rewrite ?Hr', ?Hd; try done;
    try (intros _; split_and!; (done || lia));
    try (split_and!; (done || lia));
    intros cl Hin; apply elem_of_app in Hin as [Hin|Hin%list_elem_of_singleton]; try discriminate; apply elem_of_app; left; by apply I7.
Qed.

Lemma seq_step_inv op c c' e log n m : seq_inv c log n m -> Z.of_nat m + 1 < 18446744073709551616 ->
  seq_step self op c = (c', e) -> exists n', seq_inv c' (log ++ e) n' (S m).
Proof.
  intros I Hm H. assert (Hsame : exists n', seq_inv c (log ++ []) n' (S m)).
  { exists n. rewrite app_nil_r. destruct I as [I1 I2 I3 I4 (T1 & T2 & T3) I6 I7]. split; try done. split_and!; [lia|lia|done|done]. }
  destruct op; cbn [seq_step] in H.
  - unfold Claim in H. destruct (hasClaim c) eqn:Hc; [by injection H as <- <-|].
    destruct (retryPending c) eqn:Hp; [by injection H as <- <-|].
    cbv zeta in H. pose proof (next_pool_value c log n m I) as Ev. cbv zeta in Ev. rewrite Ev in H.
    pose proof (pool_claim_inv c log n m _ I Hm eq_refl Hc) as Hi. destruct (makeClaim self (pool_value n) c) as [c1 cl].
    injection H as <- <-. exists n. by apply Hi.
  - unfold ClaimRetry in H. destruct (hasClaim c) eqn:Hc; [by injection H as <- <-|].
    destruct (retryPending c) eqn:Hp; [|by injection H as <- <-]. cbn [negb] in H.
    rewrite (si_retry _ _ _ _ I Hp) in H.
    pose proof (pool_claim_inv c log n m _ I Hm eq_refl Hc) as Hi. destruct (makeClaim self (pool_value n) c) as [c1 cl].
    injection H as <- <-. exists n. by apply Hi.
  - unfold CanAdmit in H. destruct (validateClaim self claim c) eqn:Hv; [by injection H as <- <-|].
    destruct (claimAdmitted c); [by injection H as <- <-|]. injection H as <- <-.
    apply validateClaim_spec in Hv as (Hc & -> & Ht).
    exists n. destruct I as [I1 I2 I3 I4 (T1 & T2 & T3) I6 I7].
    assert (Hr : resolved_tokens (log ++ [AdmittedClaim (current_claim c)]) = resolved_tokens log)
      by (unfold resolved_tokens; by rewrite omap_app, app_nil_r).
    split; cbn; rewrite ?Hr; try done.
    + unfold delivered. by rewrite delivered_app.
    + split_and!; [lia|lia|done|done].
    + intros _. apply elem_of_app. right. by apply list_elem_of_singleton.
    + intros cl Hin. apply elem_of_app in Hin as [Hin|Hin%list_elem_of_singleton]; [|done].
      apply elem_of_app. left. by apply I7.
  - unfold Resolve in H. destruct (validateClaim self claim c) eqn:Hv; [by injection H as <- <-|].
    destruct (is_delivered outcome && negb (claimAdmitted c))%bool eqn:Ha; [by injection H as <- <-|]. injection H as <- <-.
    apply validateClaim_spec in Hv as (Hc & -> & Ht).
    destruct I as [I1 I2 I3 I4 (T1 & T2 & T3) I6 I7]. destruct (I3 Hc) as (C1 & C2 & _ & C3 & C4).
    assert (Hr : resolved_tokens (log ++ [Resolved (current_claim c) outcome]) = resolved_tokens log ++ [claimToken c])
      by (unfold resolved_tokens; by rewrite omap_app).
    assert (Hd : delivered (log ++ [Resolved (current_claim c) outcome]) =
      if is_delivered outcome then pool (S n) else pool n).
    { unfold delivered in *. rewrite delivered_app, I1. destruct outcome; cbn [delivered_from is_delivered sc_value current_claim]; [|done..].
      by rewrite pool_S, C1. }
    exists (if is_delivered outcome then S n else n). split; cbn; rewrite ?Hr.
    + rewrite Hd. by destruct (is_delivered outcome).
    + by destruct (is_delivered outcome).
    + done.
    + destruct (is_delivered outcome); [by rewrite C3|]. by intros _.
    + split_and!; [lia|lia| |].
      * apply list.Forall_app. split; [done|]. constructor; [lia|done].
      * apply list.NoDup_app. split_and!; [done| |apply NoDup_singleton].
        intros t Hin Ht'%list_elem_of_singleton. subst. rewrite list.Forall_forall in C4. specialize (C4 _ Hin). lia.
    + done.
    + intros cl Hin. apply elem_of_app in Hin as [Hin|Hin%list_elem_of_singleton]; apply elem_of_app; left; [by apply I7|].
      injection Hin as -> <-. apply I6. cbn in Ha. by destruct (claimAdmitted c).
  - unfold Reset in H. case_if_in H; [by injection H as <- <-|]. injection H as <- <-.
    destruct I as [I1 I2 I3 I4 (T1 & T2 & T3) I6 I7]. exists 0%nat.
    assert (Hr : resolved_tokens (log ++ [WasReset successor]) = resolved_tokens log)
      by (unfold resolved_tokens; by rewrite omap_app, app_nil_r).
    split; cbn; rewrite ?Hr; try done.
    + unfold delivered. by rewrite delivered_app.
    + split_and!; [lia|lia|done|done].
    + intros cl Hin. apply elem_of_app in Hin as [Hin|Hin%list_elem_of_singleton]; [|done].
      apply elem_of_app. left. by apply I7.
Qed.

Lemma seq_run_inv ops : forall c c' log e n m, seq_inv c log n m ->
  Z.of_nat m + Z.of_nat (length ops) < 18446744073709551616 ->
  seq_run self ops c = (c', e) -> exists n', seq_inv c' (log ++ e) n' (m + length ops).
Proof.
  induction ops as [|op ops IH]; intros c c' log e n m I Hm H; cbn [seq_run] in H.
  - injection H as <- <-. exists n. by rewrite app_nil_r, Nat.add_0_r.
  - destruct (seq_step self op c) as [c1 e1] eqn:E1. destruct (seq_run self ops c1) as [c2 e2] eqn:E2.
    injection H as <- <-. cbn [length] in *.
    destruct (seq_step_inv op c c1 e1 log n m I ltac:(lia) E1) as [n1 I1].
    destruct (IH c1 c2 (log ++ e1) e2 n1 (S m) I1 ltac:(lia) E2) as [n2 I2].
    exists n2. rewrite <-app_assoc in I2. by replace (m + S (length ops))%nat with (S m + length ops)%nat by lia.
Qed.

(** C29: in every run of a sequence pool, whatever claims are presented, the values delivered since
    the last reset are exactly 1, 2, ..., 255, 1, ... in order: a deferred or failed value is not lost
    and not skipped.  A claim is resolved at most once, and only a claim that passed admission is
    delivered.  Fewer than 2^64 operations keep the claim tokens distinct. *)
Theorem sequence_pool_exact (ops : list seq_op) (c : SequenceCounter) (log : list seq_event) :
  Z.of_nat (length ops) < 18446744073709551616 ->
  seq_run self ops zero_counter = (c, log) ->
  delivered log = pool (length (delivered log)) /\
  NoDup (resolved_tokens log) /\
  (forall claim, Resolved claim SequenceDelivered ∈ log -> AdmittedClaim claim ∈ log).
Proof.
  intros Hm H.
  assert (I : seq_inv zero_counter [] 0 0) by (split; try done; try (split_and!; done || constructor); by intros cl ?%elem_of_nil).
  destruct (seq_run_inv ops zero_counter c [] log 0 0 I ltac:(lia) H) as [n [I1 _ _ _ (_ & _ & I3) _ I4]].
  cbn [app] in *. split_and!; [|done|done]. rewrite I1. f_equal. unfold pool. by rewrite length_map, length_seq.
Qed.
End Run.

(** A run with a deferred value, a replayed claim and a reset. *)
Definition demo_claim (token generation value : Z) : SequenceClaim :=
  {| sc_owner := Some 1; sc_token := token; sc_generation := generation; sc_value := value |}.
Definition demo_ops : list seq_op :=
  [OpClaim; OpAdmit (demo_claim 1 1 1); OpResolve (demo_claim 1 1 1) SequenceDelivered;
   OpResolve (demo_claim 1 1 1) SequenceDelivered; OpClaim; OpResolve (demo_claim 2 1 2) SequenceDeferred;
   OpClaim; OpRetry; OpAdmit (demo_claim 3 1 2); OpResolve (demo_claim 3 1 2) SequenceDelivered;
   OpReset 2; OpClaim; OpAdmit (demo_claim 4 2 1); OpResolve (demo_claim 4 2 1) SequenceDelivered].

Lemma sequence_pool_exact_witness :
  let log := snd (seq_run 1 demo_ops zero_counter) in
  length log = 12%nat /\ delivered (take 8 log) = [1; 2] /\ delivered log = pool (length (delivered log)) /\
  NoDup (resolved_tokens log) /\ (forall claim, Resolved claim SequenceDelivered ∈ log -> AdmittedClaim claim ∈ log).
Proof.
  cbv zeta. split; [vm_compute; reflexivity|]. split; [vm_compute; reflexivity|].
  apply (sequence_pool_exact 1 demo_ops (fst (seq_run 1 demo_ops zero_counter))).
  - vm_compute. reflexivity.
  - apply surjective_pairing.
Defined.

(** ** The authentication boundary *)

(** An AuthProvider: the new contents of [dst] and the results of the call. *)
Definition AuthProvider := list Z -> list Z -> list Z * gres (Z * bool).

Definition UnavailableAuthProvider : AuthProvider := fun dst _ => (dst, Err ErrAuthenticationUnavailable).

Definition NewSession (provider : option AuthProvider) : option AuthProvider :=
  match provider with None => Some UnavailableAuthProvider | Some p => Some p end.

Definition ProcessAuthenticationPacket (auth : option AuthProvider) (dst packet : list Z) : list Z * gres (Z * bool) :=
  let provider := match auth with None => UnavailableAuthProvider | Some p => p end in
  let '(dst, r) := provider dst packet in
  match r with
  | Err e => (zeros (length dst), Err e)
  | Ok (written, complete) =>
      if (written <? 0) || (Z.of_nat (length dst) <? written)
      then (zeros (length dst), Err ErrInvalidAuthOutputLength)
      else (take (Z.to_nat written) dst ++ zeros (length dst - Z.to_nat written), Ok (written, complete))
  end.

(** Whatever a provider leaves in the buffer, the caller sees only what it reported: an error or an
    impossible length clears everything, a partial write clears the tail, and the length stays. *)
Lemma authentication_output_defined auth dst packet dst' r :
  ProcessAuthenticationPacket auth dst packet = (dst', r) ->
  match r with
  | Err _ => dst' = zeros (length dst')
  | Ok (written, _) => 0 <= written <= Z.of_nat (length dst') /\
      drop (Z.to_nat written) dst' = zeros (length dst' - Z.to_nat written)
  end.
Proof.
  unfold ProcessAuthenticationPacket. destruct (match auth with None => _ | Some p => p end dst packet) as [d [[w b]|e]].
  - case_if; intros [= <- <-]; [unfold zeros; by rewrite length_replicate|]. bool_prop.
    assert (Hl : length (take (Z.to_nat w) d ++ zeros (length d - Z.to_nat w)) = length d).
    { unfold zeros. rewrite length_app, length_take, length_replicate. lia. }
    rewrite Hl. split; [lia|]. rewrite drop_app_length' by (rewrite length_take; lia). done.
  - intros [= <- <-]. unfold zeros. by rewrite length_replicate.
Qed.
