(* ===== verification/XboxMetadata.v ===== *)
(** * The reliable metadata transfer

    src/device/xboxone/metadata.go: the identity-bound metadata blob and the
    claim/admit/resolve machine that sends it as one packet or as
    acknowledged fragments.  The host on the other side is a specification:
    [receive] reads the fragment headers from the bytes alone and keeps the
    contiguous prefix it has.  The theorems are about runs in which writes are
    deferred or fail, packets are lost, claims are forged or replayed, and
    acknowledgements arrive late or rewind the sender. *)

From S2P Require Import Prelude Bytes Codec XboxGip XboxProfile.

Definition MetadataFragmentHeaderSize : nat := 6.
Definition MetadataFragmentPayloadCapacity : Z := 58.
Definition ReliableACKRequestIntervalMilliseconds : Z := 60.
Definition ReliableACKTimeoutMilliseconds : Z := 1000.
Definition MaxUint64 : Z := 18446744073709551615.

(** ** Bound metadata *)

Record boundMetadataIssuance := { mi_address : Z; mi_marker : Z }.

#[export] Instance boundMetadataIssuance_eq_dec : EqDecision boundMetadataIssuance.
Proof. solve_decision. Defined.

Definition OfficialGamepadMetadataBase : Z := 1.
Definition OfficialGamepadMetadataConsoleFunctionMap : Z := 2.

Record BoundCompiledMetadata := {
  md_identity : ControllerIdentity;
  md_profileIssuance : option controllerProfileIssuance;
  md_issuance : option boundMetadataIssuance;
  md_data : list Z;
  md_officialGamepadVariant : Z;
  md_valid : bool;
}.

Definition is_base_variant (variant : Z) : bool := (variant =? 0) || (variant =? OfficialGamepadMetadataBase).

Definition validateInputReport (metadata : BoundCompiledMetadata) (report : GamepadInputReportV1) : option gip_err :=
  if is_base_variant (md_officialGamepadVariant metadata) then GamepadInputReportV1_Validate report
  else if md_officialGamepadVariant metadata =? OfficialGamepadMetadataConsoleFunctionMap then
    match InputStateV1_Validate (State report) with
    | Some e => Some e
    | None => if Guide (State report) then Some ErrGuideRequiresStatusMessage else None
    end
  else Some ErrInvalidMetadata.

Definition inputMessageSize (metadata : BoundCompiledMetadata) : gres nat :=
  if is_base_variant (md_officialGamepadVariant metadata) then Ok GamepadInputMessageSize
  else if md_officialGamepadVariant metadata =? OfficialGamepadMetadataConsoleFunctionMap
  then Ok ConsoleFunctionMapGamepadInputMessageSize
  else Err ErrInvalidMetadata.

Definition encodeInputMessageInto (metadata : BoundCompiledMetadata) (dst : list Z) (sequence : Z)
    (report : GamepadInputReportV1) : gres (list Z) :=
  check validateInputReport metadata report in
  if is_base_variant (md_officialGamepadVariant metadata)
  then EncodeGamepadInputMessageInto dst (sequence, report)
  else if md_officialGamepadVariant metadata =? OfficialGamepadMetadataConsoleFunctionMap
  then EncodeConsoleFunctionMapGamepadInputMessageInto dst (sequence, report)
  else Err ErrInvalidMetadata.

(** [address] is where the new issuance is allocated. *)
Definition BindExternallyCompiledMetadata (address : Z) (profile : UnregisteredControllerProfile)
    (blob : list Z) : gres BoundCompiledMetadata :=
  check profile_validate profile in
  if (length blob =? 0)%nat || (MetadataMaximumBoundLength <? Z.of_nat (length blob)) then Err ErrInvalidMetadata
  else Ok {| md_identity := identity profile; md_profileIssuance := issuance profile;
             md_issuance := Some {| mi_address := address; mi_marker := 1 |}; md_data := blob;
             md_officialGamepadVariant := 0; md_valid := true |}.

(** ** The transfer *)

Inductive MetadataPacketKind :=
| MetadataPacketSingle | MetadataPacketInitialFragment | MetadataPacketMiddleFragment
| MetadataPacketFinalFragment | MetadataPacketComplete.

#[export] Instance MetadataPacketKind_eq_dec : EqDecision MetadataPacketKind.
Proof. solve_decision. Defined.

Inductive MetadataPacketOutcome := MetadataPacketDelivered | MetadataPacketDeferred | MetadataPacketDeliveryFailed.

Definition packet_delivered (o : MetadataPacketOutcome) : bool :=
  match o with MetadataPacketDelivered => true | _ => false end.

Record MetadataPacketClaim := {
  mc_owner : option Z; mc_token : Z; mc_transferGeneration : Z; mc_transferEpoch : Z; mc_messageNumber : Z;
  mc_sequence : Z; mc_kind : MetadataPacketKind; mc_size : Z; mc_selectedACME : bool; mc_selectedAtMS : Z;
}.

Record MetadataPacketAdmission := {
  ma_size : Z; ma_kind : MetadataPacketKind; ma_acknowledgement : bool;
}.

Inductive ReliableAcknowledgementDisposition :=
| ReliableAcknowledgementProgress | ReliableAcknowledgementRewind | ReliableAcknowledgementDuplicate.

(** The progress of a transfer; a packet carries the progress its delivery commits. *)
Record metadataTransferPostState := {
  p_offset : Z; p_sentEnd : Z; p_acknowledgedEnd : Z; p_finalAcknowledged : bool; p_done : bool;
}.

Definition zero_progress : metadataTransferPostState :=
  {| p_offset := 0; p_sentEnd := 0; p_acknowledgedEnd := 0; p_finalAcknowledged := false; p_done := false |}.

Record metadataPacketRecord := {
  r_wire : list Z; r_size : Z; r_kind : MetadataPacketKind; r_acknowledgement : bool; r_selectedAtMS : Z;
  r_post : metadataTransferPostState;
}.

Definition zero_record : metadataPacketRecord := {|
  r_wire := zeros 64; r_size := 0; r_kind := MetadataPacketSingle; r_acknowledgement := false;
  r_selectedAtMS := 0; r_post := zero_progress |}.

(** The claim fields of a transfer; [clearClaim] puts them back to zero. *)
Record claim_slot := {
  c_has : bool; c_admitted : bool; c_admittedAtMS : Z; c_token : Z; c_record : metadataPacketRecord;
}.

Definition no_claim : claim_slot :=
  {| c_has := false; c_admitted := false; c_admittedAtMS := 0; c_token := 0; c_record := zero_record |}.

Record MetadataTransfer := {
  mt_metadata : BoundCompiledMetadata; mt_sequence : Z; mt_generation : Z; mt_transferEpoch : Z;
  mt_progress : metadataTransferPostState; mt_faulted : bool; mt_valid : bool;
  lastNowMS : Z; nextACKRequestMS : Z; ackDeadlineMS : Z; ackDeadlineArmed : bool;
  mt_nextToken : Z; mt_claim : claim_slot; mt_retryPending : bool; mt_retryRecord : metadataPacketRecord;
}.

Definition data (t : MetadataTransfer) : list Z := md_data (mt_metadata t).
Definition offset (t : MetadataTransfer) : Z := p_offset (mt_progress t).
Definition sentEnd (t : MetadataTransfer) : Z := p_sentEnd (mt_progress t).
Definition acknowledgedEnd (t : MetadataTransfer) : Z := p_acknowledgedEnd (mt_progress t).
Definition finalAcknowledged (t : MetadataTransfer) : bool := p_finalAcknowledged (mt_progress t).
Definition done_ (t : MetadataTransfer) : bool := p_done (mt_progress t).

(** Field updates. *)
Definition set_clock (now : Z) (t : MetadataTransfer) : MetadataTransfer := {|
  mt_metadata := mt_metadata t; mt_sequence := mt_sequence t; mt_generation := mt_generation t;
  mt_transferEpoch := mt_transferEpoch t; mt_progress := mt_progress t; mt_faulted := mt_faulted t;
  mt_valid := mt_valid t; lastNowMS := now; nextACKRequestMS := nextACKRequestMS t;
  ackDeadlineMS := ackDeadlineMS t; ackDeadlineArmed := ackDeadlineArmed t; mt_nextToken := mt_nextToken t;
  mt_claim := mt_claim t; mt_retryPending := mt_retryPending t; mt_retryRecord := mt_retryRecord t |}.

Definition set_claim (token : Z) (c : claim_slot) (retry : bool) (record : metadataPacketRecord)
    (t : MetadataTransfer) : MetadataTransfer := {|
  mt_metadata := mt_metadata t; mt_sequence := mt_sequence t; mt_generation := mt_generation t;
  mt_transferEpoch := mt_transferEpoch t; mt_progress := mt_progress t; mt_faulted := mt_faulted t;
  mt_valid := mt_valid t; lastNowMS := lastNowMS t; nextACKRequestMS := nextACKRequestMS t;
  ackDeadlineMS := ackDeadlineMS t; ackDeadlineArmed := ackDeadlineArmed t; mt_nextToken := token;
  mt_claim := c; mt_retryPending := retry; mt_retryRecord := record |}.

Definition set_progress (p : metadataTransferPostState) (deadline : Z) (armed : bool) (t : MetadataTransfer) :
    MetadataTransfer := {|
  mt_metadata := mt_metadata t; mt_sequence := mt_sequence t; mt_generation := mt_generation t;
  mt_transferEpoch := mt_transferEpoch t; mt_progress := p; mt_faulted := mt_faulted t;
  mt_valid := mt_valid t; lastNowMS := lastNowMS t; nextACKRequestMS := nextACKRequestMS t;
  ackDeadlineMS := deadline; ackDeadlineArmed := armed; mt_nextToken := mt_nextToken t;
  mt_claim := mt_claim t; mt_retryPending := mt_retryPending t; mt_retryRecord := mt_retryRecord t |}.

Definition fault (t : MetadataTransfer) : MetadataTransfer := {|
  mt_metadata := mt_metadata t; mt_sequence := mt_sequence t; mt_generation := mt_generation t;
  mt_transferEpoch := mt_transferEpoch t; mt_progress := mt_progress t; mt_faulted := true;
  mt_valid := mt_valid t; lastNowMS := lastNowMS t; nextACKRequestMS := nextACKRequestMS t;
  ackDeadlineMS := ackDeadlineMS t; ackDeadlineArmed := false; mt_nextToken := mt_nextToken t;
  mt_claim := mt_claim t; mt_retryPending := mt_retryPending t; mt_retryRecord := mt_retryRecord t |}.

Definition set_next_request (next : Z) (t : MetadataTransfer) : MetadataTransfer := {|
  mt_metadata := mt_metadata t; mt_sequence := mt_sequence t; mt_generation := mt_generation t;
  mt_transferEpoch := mt_transferEpoch t; mt_progress := mt_progress t; mt_faulted := mt_faulted t;
  mt_valid := mt_valid t; lastNowMS := lastNowMS t; nextACKRequestMS := next;
  ackDeadlineMS := ackDeadlineMS t; ackDeadlineArmed := ackDeadlineArmed t; mt_nextToken := mt_nextToken t;
  mt_claim := mt_claim t; mt_retryPending := mt_retryPending t; mt_retryRecord := mt_retryRecord t |}.

Definition fresh_transfer (metadata : BoundCompiledMetadata) (sequence generation epoch now token : Z) :
    MetadataTransfer := {|
  mt_metadata := metadata; mt_sequence := sequence; mt_generation := generation; mt_transferEpoch := epoch;
  mt_progress := zero_progress; mt_faulted := false; mt_valid := true; lastNowMS := now;
  nextACKRequestMS := now; ackDeadlineMS := 0; ackDeadlineArmed := false; mt_nextToken := token;
  mt_claim := no_claim; mt_retryPending := false; mt_retryRecord := zero_record |}.

Definition NewMetadataTransfer (profile : UnregisteredControllerProfile) (metadata : BoundCompiledMetadata)
    (sequence generation transferEpoch nowMS : Z) : gres MetadataTransfer :=
  check profile_validate profile in
  if negb (md_valid metadata) ||
     match md_issuance metadata with None => true | Some i => negb (mi_marker i =? 1) end ||
     (length (md_data metadata) =? 0)%nat || (MetadataMaximumBoundLength <? Z.of_nat (length (md_data metadata)))
  then Err ErrInvalidMetadata
  else if negb (bool_decide (md_identity metadata = identity profile)) ||
          negb (bool_decide (md_profileIssuance metadata = issuance profile))
  then Err ErrMetadataIdentityMismatch
  else if sequence =? 0 then Err ErrReservedSequence
  else if generation =? 0 then Err ErrInvalidTransferGeneration
  else if transferEpoch =? 0 then Err ErrInvalidTransferEpoch
  else Ok (fresh_transfer metadata sequence generation transferEpoch nowMS 0).

Definition validateClock (nowMS : Z) (t : MetadataTransfer) : option gip_err :=
  if nowMS <? lastNowMS t then Some ErrNonMonotonicMetadataClock else None.

Definition saturatingMetadataDeadline (nowMS deltaMS : Z) : Z :=
  if MaxUint64 - nowMS <? deltaMS then MaxUint64 else nowMS + deltaMS.

Definition observeAndCheckTimeout (nowMS : Z) (t : MetadataTransfer) : MetadataTransfer * option gip_err :=
  if negb (mt_valid t) then (t, Some ErrInvalidMetadata)
  else
    match validateClock nowMS t with
    | Some e => (t, Some e)
    | None =>
        let t := set_clock nowMS t in
        if mt_faulted t then (t, Some ErrMetadataTransferFaulted)
        else if ackDeadlineArmed t && (ackDeadlineMS t <=? nowMS)
        then (fault t, Some ErrReliableTransferTimeout)
        else (t, None)
    end.

Definition Poll (nowMS : Z) (t : MetadataTransfer) : MetadataTransfer * option gip_err :=
  observeAndCheckTimeout nowMS t.

Definition nextClaimToken (t : MetadataTransfer) : Z :=
  let token := u64 (mt_nextToken t + 1) in if token =? 0 then u64 (token + 1) else token.

(** ** Packets *)

Definition encodeMetadataFragmentHeader (sequence payloadLength : Z) (initial requestACK : bool)
    (totalLengthOrOffset : Z) : list Z :=
  let flags := Z.lor flagFragment flagSystem in
  let flags := set_mask initial flagInitFragment flags in
  let flags := set_mask requestACK flagAcknowledge flags in
  [messageNumberMetadataRequest; flags; sequence; payloadLength;
   Z.lor 0x80 (Z.land totalLengthOrOffset 0x7f); u8 (Z.shiftr totalLengthOrOffset 7)].

Definition encodeMetadataCompleteHeader (sequence totalLength : Z) : list Z :=
  [messageNumberMetadataRequest; Z.lor flagFragment flagSystem; sequence; 0x00;
   Z.lor 0x80 (Z.land totalLength 0x7f); u8 (Z.shiftr totalLength 7)].

Definition selectPacket (nowMS : Z) (t : MetadataTransfer) : gres metadataPacketRecord :=
  let total := Z.of_nat (length (data t)) in
  let post := mt_progress t in
  if total <=? 60 then
    let header := {|
      DataClass := DataClassCommand; MessageNumber := messageNumberMetadataRequest; System := true;
      AcknowledgementRequested := false; ExpansionIndex := 0; Sequence := mt_sequence t; PayloadLength := total |} in
    let? header := EncodeSinglePacketHeaderInto (zeros 4) header in
    Ok {| r_wire := put_at 4 (data t) (put_at 0 header (zeros 64)); r_size := 4 + total;
          r_kind := MetadataPacketSingle; r_acknowledgement := false; r_selectedAtMS := nowMS;
          r_post := {| p_offset := total; p_sentEnd := total; p_acknowledgedEnd := p_acknowledgedEnd post;
                       p_finalAcknowledged := p_finalAcknowledged post; p_done := true |} |}
  else if offset t =? total then
    if negb (finalAcknowledged t) then Err ErrAcknowledgementRequired
    else Ok {| r_wire := put_at 0 (encodeMetadataCompleteHeader (mt_sequence t) (u16 total)) (zeros 64);
               r_size := 6; r_kind := MetadataPacketComplete; r_acknowledgement := false; r_selectedAtMS := nowMS;
               r_post := {| p_offset := p_offset post; p_sentEnd := p_sentEnd post;
                            p_acknowledgedEnd := p_acknowledgedEnd post;
                            p_finalAcknowledged := p_finalAcknowledged post; p_done := true |} |}
  else
    let start := offset t in
    let payloadLength := if MetadataFragmentPayloadCapacity <? total - start
                         then MetadataFragmentPayloadCapacity else total - start in
    let end_ := start + payloadLength in
    let kind := if start =? 0 then MetadataPacketInitialFragment
                else if end_ =? total then MetadataPacketFinalFragment else MetadataPacketMiddleFragment in
    let initial := bool_decide (kind = MetadataPacketInitialFragment) in
    let acknowledgement := initial || bool_decide (kind = MetadataPacketFinalFragment) ||
                           (nextACKRequestMS t <=? nowMS) in
    let totalLengthOrOffset := if initial then u16 total else u16 start in
    let header := encodeMetadataFragmentHeader (mt_sequence t) (u8 payloadLength) initial acknowledgement
                    totalLengthOrOffset in
    Ok {| r_wire := put_at 6 (slice (Z.to_nat start) (Z.to_nat end_) (data t)) (put_at 0 header (zeros 64));
          r_size := u8 (6 + payloadLength); r_kind := kind; r_acknowledgement := acknowledgement;
          r_selectedAtMS := nowMS;
          r_post := {| p_offset := u16 end_; p_sentEnd := u16 end_; p_acknowledgedEnd := p_acknowledgedEnd post;
                       p_finalAcknowledged := false; p_done := p_done post |} |}.

(** ** Claims *)

Section Transfer.
Context (self : Z).

Definition claimFromRecord (record : metadataPacketRecord) (retry : bool) (t : MetadataTransfer) :
    MetadataTransfer * MetadataPacketClaim :=
  let token := nextClaimToken t in
  (set_claim token {| c_has := true; c_admitted := false; c_admittedAtMS := 0; c_token := token;
                      c_record := record |} retry (mt_retryRecord t) t,
   {| mc_owner := Some self; mc_token := token; mc_transferGeneration := mt_generation t;
      mc_transferEpoch := mt_transferEpoch t; mc_messageNumber := messageNumberMetadataRequest;
      mc_sequence := mt_sequence t; mc_kind := r_kind record; mc_size := r_size record;
      mc_selectedACME := r_acknowledgement record; mc_selectedAtMS := r_selectedAtMS record |}).

Definition Claim (nowMS : Z) (t : MetadataTransfer) : MetadataTransfer * gres MetadataPacketClaim :=
  let '(t, e) := observeAndCheckTimeout nowMS t in
  match e with
  | Some e => (t, Err e)
  | None =>
      if c_has (mt_claim t) then (t, Err ErrMetadataClaimOutstanding)
      else if mt_retryPending t then (t, Err ErrMetadataRetryRequired)
      else if done_ t then (t, Err ErrMetadataTransferComplete)
      else if ackDeadlineArmed t then (t, Err ErrAcknowledgementRequired)
      else
        match selectPacket nowMS t with
        | Err e => (t, Err e)
        | Ok record => let '(t, claim) := claimFromRecord record (mt_retryPending t) t in (t, Ok claim)
        end
  end.

Definition ClaimRetry (nowMS : Z) (t : MetadataTransfer) : MetadataTransfer * gres MetadataPacketClaim :=
  let '(t, e) := observeAndCheckTimeout nowMS t in
  match e with
  | Some e => (t, Err e)
  | None =>
      if c_has (mt_claim t) then (t, Err ErrMetadataClaimOutstanding)
      else if negb (mt_retryPending t) then (t, Err ErrMetadataRetryRequired)
      else let '(t, claim) := claimFromRecord (mt_retryRecord t) false t in (t, Ok claim)
  end.

Definition validateClaim (claim : MetadataPacketClaim) (t : MetadataTransfer) : option gip_err :=
  let slot := mt_claim t in
  let record := c_record slot in
  if negb (c_has slot) || negb (bool_decide (mc_owner claim = Some self)) || (mc_token claim =? 0) ||
     negb (mc_token claim =? c_token slot) || negb (mc_transferGeneration claim =? mt_generation t) ||
     negb (mc_transferEpoch claim =? mt_transferEpoch t) ||
     negb (mc_messageNumber claim =? messageNumberMetadataRequest) || negb (mc_sequence claim =? mt_sequence t) ||
     negb (bool_decide (mc_kind claim = r_kind record)) || negb (mc_size claim =? r_size record) ||
     (negb (c_admitted slot) && negb (Bool.eqb (mc_selectedACME claim) (r_acknowledgement record))) ||
     negb (mc_selectedAtMS claim =? r_selectedAtMS record)
  then Some ErrInvalidMetadataClaim else None.

(** Ask for an acknowledgement on a middle fragment whose cadence is due. *)
Definition upgrade_record (r : metadataPacketRecord) : metadataPacketRecord := {|
  r_wire := put_at 1 [Z.lor (byte_at (r_wire r) 1) flagAcknowledge] (r_wire r); r_size := r_size r;
  r_kind := r_kind r; r_acknowledgement := true; r_selectedAtMS := r_selectedAtMS r; r_post := r_post r |}.

Definition AdmitAndCopy (claim : MetadataPacketClaim) (dst : list Z) (nowMS : Z) (t : MetadataTransfer) :
    MetadataTransfer * gres (MetadataPacketAdmission * list Z) :=
  match validateClaim claim t with
  | Some e => (t, Err e)
  | None =>
      if c_admitted (mt_claim t) then (t, Err ErrInvalidMetadataClaim)
      else if Z.of_nat (length dst) <? r_size (c_record (mt_claim t)) then (t, Err ErrInvalidLength)
      else
        let '(t, e) := observeAndCheckTimeout nowMS t in
        match e with
        | Some e => (t, Err e)
        | None =>
            let record := c_record (mt_claim t) in
            let record := if bool_decide (r_kind record = MetadataPacketMiddleFragment) &&
                             negb (r_acknowledgement record) && (nextACKRequestMS t <=? nowMS)
                          then upgrade_record record else record in
            let n := Z.to_nat (r_size record) in
            (set_claim (mt_nextToken t)
               {| c_has := c_has (mt_claim t); c_admitted := true; c_admittedAtMS := nowMS;
                  c_token := c_token (mt_claim t); c_record := record |} (mt_retryPending t) (mt_retryRecord t) t,
             Ok ({| ma_size := r_size record; ma_kind := r_kind record;
                    ma_acknowledgement := r_acknowledgement record |},
                 put_at 0 (slice 0 n (r_wire record)) dst))
        end
  end.

Definition Resolve (claim : MetadataPacketClaim) (outcome : MetadataPacketOutcome) (completedMS : Z)
    (t : MetadataTransfer) : MetadataTransfer * option gip_err :=
  match validateClaim claim t with
  | Some e => (t, Some e)
  | None =>
      if packet_delivered outcome && negb (c_admitted (mt_claim t)) then (t, Some ErrMetadataClaimNotAdmitted)
      else
        let completedMS := if completedMS <? lastNowMS t then lastNowMS t else completedMS in
        let t := set_clock completedMS t in
        let record := c_record (mt_claim t) in
        if negb (packet_delivered outcome) then
          (set_claim (mt_nextToken t) no_claim true record t, None)
        else
          let deadline := if r_acknowledgement record
                          then saturatingMetadataDeadline completedMS ReliableACKTimeoutMilliseconds
                          else ackDeadlineMS t in
          let t := set_progress (r_post record) deadline (r_acknowledgement record || ackDeadlineArmed t) t in
          (set_claim (mt_nextToken t) no_claim (mt_retryPending t) (mt_retryRecord t) t, None)
  end.

Definition acknowledgementIdentity (t : MetadataTransfer) : option ReliableAcknowledgement :=
  if negb (mt_valid t) || mt_faulted t || done_ t || (Z.of_nat (length (data t)) <=? 60) || (sentEnd t =? 0)
  then None
  else Some {| TransferGeneration := mt_generation t; TransferEpoch := mt_transferEpoch t;
               ra_MessageNumber := messageNumberMetadataRequest; ra_Sequence := mt_sequence t;
               ContiguousPayloadBytes := sentEnd t; ReceiverRemainingBufferBytes := 0 |}.

Definition PendingAcknowledgement (t : MetadataTransfer) : option ReliableAcknowledgement :=
  if negb (ackDeadlineArmed t) then None else acknowledgementIdentity t.

Definition validateAcknowledgement (ack : ReliableAcknowledgement) (t : MetadataTransfer) :
    gres ReliableAcknowledgementDisposition :=
  if c_admitted (mt_claim t) then Err ErrMetadataClaimOutstanding
  else if (Z.of_nat (length (data t)) <=? 60) || done_ t || (sentEnd t =? 0) ||
          negb (TransferGeneration ack =? mt_generation t) || negb (TransferEpoch ack =? mt_transferEpoch t) ||
          negb (ra_MessageNumber ack =? messageNumberMetadataRequest) || negb (ra_Sequence ack =? mt_sequence t) ||
          (ContiguousPayloadBytes ack <? acknowledgedEnd t) || (sentEnd t <? ContiguousPayloadBytes ack) ||
          (Z.of_nat (length (data t)) <? ContiguousPayloadBytes ack)
  then Err ErrInvalidAcknowledgement
  else
    let progress := acknowledgedEnd t <? ContiguousPayloadBytes ack in
    let rewind := ContiguousPayloadBytes ack <? offset t in
    if rewind then Ok ReliableAcknowledgementRewind
    else if progress then Ok ReliableAcknowledgementProgress
    else Ok ReliableAcknowledgementDuplicate.

Definition PreviewAcknowledgement (ack : ReliableAcknowledgement) (nowMS : Z) (t : MetadataTransfer) :
    gres ReliableAcknowledgementDisposition :=
  if negb (mt_valid t) then Err ErrInvalidMetadata
  else check validateClock nowMS t in
    if mt_faulted t then Err ErrMetadataTransferFaulted
    else if ackDeadlineArmed t && (ackDeadlineMS t <=? nowMS) then Err ErrReliableTransferTimeout
    else validateAcknowledgement ack t.

(** Host progress carried into a packet that is selected or waits for its retry. *)
Definition with_ack (acked : Z) (final : bool) (r : metadataPacketRecord) : metadataPacketRecord := {|
  r_wire := r_wire r; r_size := r_size r; r_kind := r_kind r; r_acknowledgement := r_acknowledgement r;
  r_selectedAtMS := r_selectedAtMS r;
  r_post := {| p_offset := p_offset (r_post r); p_sentEnd := p_sentEnd (r_post r); p_acknowledgedEnd := acked;
               p_finalAcknowledged := final; p_done := p_done (r_post r) |} |}.

Definition Acknowledge (ack : ReliableAcknowledgement) (nowMS : Z) (t : MetadataTransfer) :
    MetadataTransfer * gres ReliableAcknowledgementDisposition :=
  let '(t, e) := observeAndCheckTimeout nowMS t in
  match e with
  | Some e => (t, Err e)
  | None =>
      match validateAcknowledgement ack t with
      | Err e => (t, Err e)
      | Ok disposition =>
          let rewind := match disposition with ReliableAcknowledgementRewind => true | _ => false end in
          let acked := ContiguousPayloadBytes ack in
          let final := acked =? Z.of_nat (length (data t)) in
          let p := {| p_offset := if rewind then acked else offset t;
                      p_sentEnd := if rewind then acked else sentEnd t;
                      p_acknowledgedEnd := acked; p_finalAcknowledged := final; p_done := done_ t |} in
          let t := set_progress p 0 false (set_clock nowMS t) in
          let t := set_next_request (saturatingMetadataDeadline nowMS ReliableACKRequestIntervalMilliseconds) t in
          let slot := mt_claim t in
          let t :=
            if rewind then set_claim (mt_nextToken t) (if c_has slot then no_claim else slot) false zero_record t
            else
              set_claim (mt_nextToken t)
                (if c_has slot
                 then {| c_has := true; c_admitted := c_admitted slot; c_admittedAtMS := c_admittedAtMS slot;
                         c_token := c_token slot; c_record := with_ack acked final (c_record slot) |}
                 else slot)
                (mt_retryPending t)
                (if mt_retryPending t then with_ack acked final (mt_retryRecord t) else mt_retryRecord t) t in
          (t, Ok disposition)
      end
  end.

Definition Reset (sequence successorGeneration successorTransferEpoch nowMS : Z) (t : MetadataTransfer) :
    MetadataTransfer * option gip_err :=
  if negb (mt_valid t) then (t, Some ErrInvalidMetadata)
  else
    match validateClock nowMS t with
    | Some e => (t, Some e)
    | None =>
        if sequence =? 0 then (t, Some ErrReservedSequence)
        else if (mt_generation t =? MaxUint64) || (successorGeneration =? 0) ||
                negb (successorGeneration =? u64 (mt_generation t + 1))
        then (t, Some ErrInvalidTransferGeneration)
        else if (mt_transferEpoch t =? MaxUint64) || (successorTransferEpoch =? 0) ||
                negb (successorTransferEpoch =? u64 (mt_transferEpoch t + 1))
        then (t, Some ErrInvalidTransferEpoch)
        else (fresh_transfer (mt_metadata t) sequence successorGeneration successorTransferEpoch nowMS
                (mt_nextToken t), None)
    end.
End Transfer.

(** ** The host *)

(** What a packet says by its bytes: the offset of its payload and the payload. *)
Definition host_read (wire : list Z) : Z * list Z :=
  if has_mask (byte_at wire 1) flagFragment then
    let lengthOrOffset := Z.land (byte_at wire 4) 0x7f + 128 * byte_at wire 5 in
    (if has_mask (byte_at wire 1) flagInitFragment then 0 else lengthOrOffset,
     slice 6 (6 + Z.to_nat (byte_at wire 3)) wire)
  else (0, slice 4 (4 + Z.to_nat (byte_at wire 3)) wire).

(** The host keeps the contiguous prefix it has: a packet inside or next to it
    extends it, a packet after a gap is dropped. *)
Definition host_receive (rx wire : list Z) : list Z :=
  let '(start, payload) := host_read wire in
  if (start <=? Z.of_nat (length rx)) && (Z.of_nat (length rx) <? start + Z.of_nat (length payload))
  then take (Z.to_nat start) rx ++ payload else rx.

(** The bytes of an admitted packet. *)
Definition packet_bytes (r : metadataPacketRecord) : list Z := slice 0 (Z.to_nat (r_size r)) (r_wire r).

(** One step of sender, network and host.  Claims and outcomes are arbitrary;
    an admitted packet may reach the host or not, whatever its outcome; an
    acknowledgement never claims more than the host has. *)
Inductive mstep (self : Z) : MetadataTransfer * list Z -> MetadataTransfer * list Z -> Prop :=
| m_poll t rx now : mstep self (t, rx) (fst (Poll now t), rx)
| m_claim t rx now : mstep self (t, rx) (fst (Claim self now t), rx)
| m_retry t rx now : mstep self (t, rx) (fst (ClaimRetry self now t), rx)
| m_admit t rx claim dst now : mstep self (t, rx) (fst (AdmitAndCopy self claim dst now t), rx)
| m_arrive t rx : c_has (mt_claim t) = true -> c_admitted (mt_claim t) = true ->
    mstep self (t, rx) (t, host_receive rx (packet_bytes (c_record (mt_claim t))))
| m_resolve t rx claim outcome now : mstep self (t, rx) (fst (Resolve self claim outcome now t), rx)
| m_ack t rx ack now : 0 <= ContiguousPayloadBytes ack <= Z.of_nat (length rx) ->
    mstep self (t, rx) (fst (Acknowledge ack now t), rx)
| m_reset t rx sequence generation epoch now t' :
    Reset sequence generation epoch now t = (t', None) -> mstep self (t, rx) (t', []).

(** One round against a host that takes every packet and answers every request
    for an acknowledgement: claim, admit, receive, resolve, acknowledge. *)
Definition host_ack (rx : list Z) (identity : ReliableAcknowledgement) : ReliableAcknowledgement := {|
  TransferGeneration := TransferGeneration identity; TransferEpoch := TransferEpoch identity;
  ra_MessageNumber := ra_MessageNumber identity; ra_Sequence := ra_Sequence identity;
  ContiguousPayloadBytes := Z.of_nat (length rx); ReceiverRemainingBufferBytes := 0 |}.

(** The clock at the four calls of a round. *)
Record round := { at_claim : Z; at_admit : Z; at_resolve : Z; at_ack : Z }.

Definition deliver (self : Z) (s : MetadataTransfer * list Z) (q : round) : MetadataTransfer * list Z :=
  let '(t, rx) := s in
  match Claim self (at_claim q) t with
  | (t, Err _) => (t, rx)
  | (t, Ok claim) =>
      match AdmitAndCopy self claim (zeros 64) (at_admit q) t with
      | (t, Err _) => (t, rx)
      | (t, Ok (admission, wire)) =>
          let rx := host_receive rx (slice 0 (Z.to_nat (ma_size admission)) wire) in
          let t := fst (Resolve self claim MetadataPacketDelivered (at_resolve q) t) in
          match PendingAcknowledgement t with
          | None => (t, rx)
          | Some identity => (fst (Acknowledge (host_ack rx identity) (at_ack q) t), rx)
          end
      end
  end.

(** Rounds one after another from [now] on, each answered before its acknowledgement is overdue. *)
Definition round_on_time (now : Z) (q : round) : Prop :=
  0 <= now <= at_claim q /\ at_claim q <= at_admit q /\ at_admit q <= at_resolve q /\ at_resolve q <= at_ack q < MaxUint64 /\
  at_ack q < at_resolve q + ReliableACKTimeoutMilliseconds.
Fixpoint on_time (now : Z) (qs : list round) : Prop :=
  match qs with [] => True | q :: qs => round_on_time now q /\ on_time (at_ack q) qs end.

(** ** Packets say what they carry *)

Lemma length_or_offset x : 0 <= x <= 0x3fff ->
  Z.land (Z.lor 0x80 (Z.land x 0x7f)) 0x7f + 128 * u8 (Z.shiftr x 7) = x.
Proof.
  intros Hx. assert (E : Z.land x 0x7f = x mod 128) by exact (Z.land_ones x 7 ltac:(lia)). rewrite E.
  assert (H : 0 <= x mod 128 < 128) by (apply Z.mod_pos_bound; lia).
  assert (Hl : Z.land (Z.lor 0x80 (x mod 128)) 0x7f = x mod 128).
  { refine (all_below 128 (fun y => Z.land (Z.lor 0x80 y) 0x7f = y) _ _ H). by vm_compute. }
  rewrite Hl.
  rewrite Z.shiftr_div_pow2 by lia. change (2 ^ 7) with 128. unfold u8. zsolve.
Qed.

Lemma fragment_flags initial ack :
  let flags := set_mask ack flagAcknowledge (set_mask initial flagInitFragment (Z.lor flagFragment flagSystem)) in
  has_mask flags flagFragment = true /\ has_mask flags flagInitFragment = initial /\
  Z.lor flags flagAcknowledge = set_mask true flagAcknowledge (set_mask initial flagInitFragment (Z.lor flagFragment flagSystem)).
Proof. by destruct initial, ack; vm_compute. Qed.

Section Sender.
Context (D : list Z).
Let total : Z := Z.of_nat (length D).
Hypothesis Htotal : 60 < total <= MetadataMaximumBoundLength.

(** The end of the fragment that starts at [start]. *)
Definition fragment_end (start : Z) : Z := Z.min (start + 58) total.
Definition fragment_wire (sequence start : Z) (ack : bool) : list Z :=
  encodeMetadataFragmentHeader sequence (fragment_end start - start) (start =? 0) ack
    (if start =? 0 then total else start) ++ slice (Z.to_nat start) (Z.to_nat (fragment_end start)) D.

Inductive record_ok (t : MetadataTransfer) (r : metadataPacketRecord) : Prop :=
| rok_fragment : 0 <= offset t < total ->
    r_kind r <> MetadataPacketSingle -> r_kind r <> MetadataPacketComplete ->
    packet_bytes r = fragment_wire (mt_sequence t) (offset t) (r_acknowledgement r) ->
    length (r_wire r) = 64%nat -> r_size r = 6 + (fragment_end (offset t) - offset t) ->
    r_post r = {| p_offset := fragment_end (offset t); p_sentEnd := fragment_end (offset t);
                  p_acknowledgedEnd := acknowledgedEnd t; p_finalAcknowledged := false; p_done := false |} ->
    record_ok t r
| rok_complete : offset t = total -> acknowledgedEnd t = total -> r_kind r = MetadataPacketComplete ->
    packet_bytes r = encodeMetadataCompleteHeader (mt_sequence t) total ->
    r_post r = {| p_offset := total; p_sentEnd := total; p_acknowledgedEnd := total;
                  p_finalAcknowledged := true; p_done := true |} ->
    record_ok t r.

Record minv (t : MetadataTransfer) (rx : list Z) : Prop := {
  mi_data : data t = D;
  mi_progress : 0 <= acknowledgedEnd t <= offset t /\ offset t = sentEnd t /\ offset t <= total;
  mi_final : finalAcknowledged t = true -> acknowledgedEnd t = total;
  mi_done : done_ t = true -> acknowledgedEnd t = total;
  mi_rx : exists n, rx = take n D /\ acknowledgedEnd t <= Z.of_nat (length rx);
  mi_claim : c_has (mt_claim t) = true -> record_ok t (c_record (mt_claim t)) /\ mt_retryPending t = false;
  mi_retry : mt_retryPending t = true -> record_ok t (mt_retryRecord t);
  mi_open : c_has (mt_claim t) = true \/ mt_retryPending t = true -> done_ t = false;
}.

Lemma fragment_end_bounds start : 0 <= start < total -> start < fragment_end start <= total /\ fragment_end start - start <= 58.
Proof. unfold fragment_end. lia. Qed.

(** The host reads offset and payload back from a fragment. *)
Lemma host_read_fragment sequence start ack : 0 <= start < total ->
  host_read (fragment_wire sequence start ack) = (start, slice (Z.to_nat start) (Z.to_nat (fragment_end start)) D).
Proof using Htotal.
  intros Hs. pose proof (fragment_end_bounds start Hs) as He. unfold MetadataMaximumBoundLength in Htotal.
  destruct (fragment_flags (start =? 0) ack) as (F1 & F2 & _).
  unfold host_read, fragment_wire. set (p := slice _ _ D).
  assert (Hl : length p = Z.to_nat (fragment_end start - start)).
  { unfold p. rewrite length_slice; unfold total in *; lia. }
  set (h := encodeMetadataFragmentHeader _ _ _ _ _).
  change (byte_at (h ++ p) 1) with (set_mask ack flagAcknowledge
    (set_mask (start =? 0) flagInitFragment (Z.lor flagFragment flagSystem))).
  change (byte_at (h ++ p) 3) with (fragment_end start - start). rewrite F1, F2. f_equal.
  - change (byte_at (h ++ p) 4) with (Z.lor 0x80 (Z.land (if start =? 0 then total else start) 0x7f)).
    change (byte_at (h ++ p) 5) with (u8 (Z.shiftr (if start =? 0 then total else start) 7)).
    destruct (Z.eqb_spec start 0) as [E0|E0]; [done|]. rewrite length_or_offset; lia.
  - assert (H6 : length h = 6%nat) by done. rewrite slice_app_skip by lia. rewrite H6.
    change (6 - 6)%nat with 0%nat. apply slice_all. lia.
Qed.

(** Receiving a fragment keeps a prefix of the data and never shortens it. *)
Lemma host_receive_prefix n rx wire start : rx = take n D -> 0 <= start < total ->
  host_read wire = (start, slice (Z.to_nat start) (Z.to_nat (fragment_end start)) D) ->
  exists m, host_receive rx wire = take m D /\ (length rx <= length (host_receive rx wire))%nat.
Proof using Htotal.
  intros -> Hs Hw. pose proof (fragment_end_bounds start Hs) as He.
  unfold host_receive. rewrite Hw. rewrite length_slice by (unfold total in *; lia). case_if; [|by exists n].
  bool_prop. rewrite length_take in *. exists (Z.to_nat (fragment_end start)). 
  assert (E : take (Z.to_nat start) (take n D) ++ slice (Z.to_nat start) (Z.to_nat (fragment_end start)) D =
    take (Z.to_nat (fragment_end start)) D).
  { assert (S0 : forall k, take k D = slice 0 k D) by (intros k; unfold slice; by rewrite Nat.sub_0_r).
    rewrite take_take, Nat.min_l, !S0 by lia. apply slice_join; unfold total in *; lia. }
  rewrite E. split; [done|]. rewrite length_take. unfold total in *. lia.
Qed.

(** ** The invariant is kept *)

Definition same_core (t t' : MetadataTransfer) : Prop :=
  mt_metadata t' = mt_metadata t /\ mt_sequence t' = mt_sequence t /\ mt_progress t' = mt_progress t /\
  mt_claim t' = mt_claim t /\ mt_retryPending t' = mt_retryPending t /\ mt_retryRecord t' = mt_retryRecord t.

Lemma record_ok_ext t t' r : offset t' = offset t -> acknowledgedEnd t' = acknowledgedEnd t ->
  mt_sequence t' = mt_sequence t -> record_ok t r -> record_ok t' r.
Proof using.
  intros Eo Ea Es [H1 H2 H3 H4 H5 H6 H7|H1 H2 H3 H4 H5].
  - apply rok_fragment; rewrite ?Eo, ?Ea, ?Es; done.
  - apply rok_complete; rewrite ?Eo, ?Ea, ?Es; done.
Qed.

Lemma minv_same t t' rx : same_core t t' -> minv t rx -> minv t' rx.
Proof using.
  intros (E1 & E2 & E3 & E4 & E5 & E6) [I1 I2 I3 I4 I5 I6 I7 I8].
  assert (Ex : forall r, record_ok t r -> record_ok t' r).
  { intros r. apply record_ok_ext; unfold offset, acknowledgedEnd; by rewrite ?E3. }
  split; unfold data, offset, sentEnd, acknowledgedEnd, finalAcknowledged, done_ in *; rewrite ?E1, ?E3, ?E4, ?E5, ?E6; auto.
  intros Hc. destruct (I6 Hc). auto.
Qed.

Lemma observe_core now t t' e : observeAndCheckTimeout now t = (t', e) -> same_core t t'.
Proof using.
  unfold observeAndCheckTimeout. destruct (mt_valid t); cbn [negb]; [|by intros [= <- <-]].
  destruct (validateClock now t); [by intros [= <- <-]|]. cbv zeta.
  destruct (mt_faulted (set_clock now t)); [by intros [= <- <-]|]. case_if; by intros [= <- <-].
Qed.

Lemma put_packet header payload n : length header = n -> (n + length payload <= 64)%nat ->
  slice 0 (n + length payload) (put_at n payload (put_at 0 header (zeros 64))) = header ++ payload /\
  length (put_at n payload (put_at 0 header (zeros 64))) = 64%nat.
Proof using.
  intros Hn Hl. clear -Hn Hl. assert (Hz : length (zeros 64) = 64%nat) by done.
  assert (E : put_at n payload (put_at 0 header (zeros 64)) = put_at 0 (header ++ payload) (zeros 64)).
  { rewrite <-Hn. apply (put_at_join 0 header payload (zeros 64)). rewrite Hz. lia. }
  rewrite E. split; [|rewrite length_put_at; rewrite ?length_app; lia].
  pose proof (slice_put_at 0 (header ++ payload) (zeros 64)) as Hs. rewrite length_app, Hn in Hs. cbn [Nat.add] in Hs.
  apply Hs. rewrite Hz. lia.
Qed.

Lemma select_record t rx now r : minv t rx -> done_ t = false -> selectPacket now t = Ok r -> record_ok t r.
Proof using Htotal.
  intros [I1 (I2 & I2' & I2'') I3 I4 I5 I6 I7 I8] Hd H. unfold MetadataMaximumBoundLength in Htotal.
  unfold selectPacket in H. rewrite I1 in H. fold total in H. cbv zeta in H.
  rewrite (proj2 (Z.leb_gt total 60)) in H by lia. destruct (Z.eqb_spec (offset t) total) as [Eo|Eo].
  - destruct (finalAcknowledged t) eqn:Ef; [|done]. injection H as <-.
    apply rok_complete; try done; [by apply I3| |].
    + unfold packet_bytes. cbn [r_size r_wire]. rewrite u16_id by lia.
      change (Z.to_nat 6) with (length (encodeMetadataCompleteHeader (mt_sequence t) total)).
      apply (slice_put_at 0). cbn. lia.
    + cbn [r_post]. unfold offset, sentEnd, acknowledgedEnd, finalAcknowledged in *. rewrite <-I2', Eo, I3, Ef by done. done.
  - injection H as <-. assert (Hs : 0 <= offset t < total) by lia. pose proof (fragment_end_bounds (offset t) Hs) as He.
    assert (Ep : (if MetadataFragmentPayloadCapacity <? total - offset t then MetadataFragmentPayloadCapacity
      else total - offset t) = fragment_end (offset t) - offset t).
    { unfold fragment_end, MetadataFragmentPayloadCapacity. case_if; lia. }
    rewrite Ep. replace (offset t + (fragment_end (offset t) - offset t)) with (fragment_end (offset t)) by lia.
    rewrite !u8_id, !u16_id by lia.
    set (kind := if offset t =? 0 then MetadataPacketInitialFragment else
      if fragment_end (offset t) =? total then MetadataPacketFinalFragment else MetadataPacketMiddleFragment).
    assert (Ek : bool_decide (kind = MetadataPacketInitialFragment) = (offset t =? 0)).
    { unfold kind. destruct (offset t =? 0); [done|]. by destruct (fragment_end (offset t) =? total). }
    rewrite Ek. set (ack := ((offset t =? 0) || _ || _)%bool).
    set (header := encodeMetadataFragmentHeader _ _ _ _ _). set (payload := slice _ _ D).
    assert (Hpl : length payload = Z.to_nat (fragment_end (offset t) - offset t)).
    { unfold payload. rewrite length_slice; unfold total in *; lia. }
    destruct (put_packet header payload 6 ltac:(done) ltac:(lia)) as [Hp1 Hp2].
    apply rok_fragment; try done.
    + unfold kind. cbn [r_kind]. repeat case_if; done.
    + unfold kind. cbn [r_kind]. repeat case_if; done.
    + unfold packet_bytes. cbn [r_size r_wire r_acknowledgement].
      replace (Z.to_nat (6 + (fragment_end (offset t) - offset t))) with (6 + length payload)%nat by lia. exact Hp1.
    + cbn [r_post]. unfold done_ in Hd. by rewrite Hd.
Qed.

(** A new claim on a good record. *)
Lemma claim_record_inv self t rx r retry t' claim : minv t rx -> record_ok t r -> done_ t = false ->
  retry = false -> claimFromRecord self r retry t = (t', claim) -> minv t' rx.
Proof using.
  intros [I1 I2 I3 I4 I5 I6 I7 I8] Hr Hd -> [= <- <-].
  split; try done; cbn.
  - intros _. split; [|done]. by apply (record_ok_ext t).
Qed.

Lemma upgrade_bytes t r : record_ok t r -> r_kind r = MetadataPacketMiddleFragment -> record_ok t (upgrade_record r).
Proof using Htotal.
  intros [H1 H2 H3 H4 H5 H6 H7|H1 H2 H3 H4 H5] Hk; [|congruence].
  pose proof (fragment_end_bounds (offset t) H1) as He.
  apply rok_fragment; cbn [upgrade_record r_kind r_acknowledgement r_size r_post r_wire]; try done.
  - unfold packet_bytes in *. cbn [upgrade_record r_size r_wire].
    set (n := Z.to_nat (r_size r)) in *. assert (Hn : (6 < n <= 64)%nat) by lia.
    assert (Es : forall l : list Z, slice 0 n l = take n l) by (intros l; unfold slice; by rewrite Nat.sub_0_r).
    rewrite Es in *. unfold put_at.
    destruct (r_wire r) as [|b0 [|b1 w]]; [done|done|].
    assert (Hb : byte_at (b0 :: b1 :: w) 1 = b1) by done. rewrite Hb. cbn [firstn skipn length Nat.add app].
    destruct n as [|[|n]]; [lia|lia|]. cbn [firstn] in *. unfold fragment_wire, encodeMetadataFragmentHeader in *.
    cbv zeta in *. cbn [app] in *. injection H4 as -> -> Ew. rewrite drop_0, Ew. do 2 f_equal. 
    apply (fragment_flags (offset t =? 0) (r_acknowledgement r)).
  - rewrite length_put_at; [done|]. rewrite H5. cbn. lia.
Qed.

Lemma transfer_resolve_inv self claim outcome now t rx : minv t rx -> minv (fst (Resolve self claim outcome now t)) rx.
Proof using Htotal.
  intros I. unfold Resolve. destruct (validateClaim self claim t) eqn:Hv; [done|].
  assert (Hc : c_has (mt_claim t) = true).
  { unfold validateClaim in Hv. cbv zeta in Hv. destruct (c_has (mt_claim t)); [done|discriminate]. }
  case_if; [done|]. cbv zeta. set (now' := if now <? lastNowMS t then _ else _).
  destruct I as [I1 (I2 & I2' & I2'') I3 I4 I5 I6 I7 I8]. destruct (I6 Hc) as [Hr Hp]. pose proof (I8 (or_introl Hc)) as Hd.
  cbn [mt_claim set_clock]. destruct (packet_delivered outcome); cbn [negb fst].
  - assert (Hpost : r_post (c_record (mt_claim t)) = mt_progress
      (set_progress (r_post (c_record (mt_claim t))) 0 true t)) by done.
    destruct Hr as [H1 H2 H3 H4 H5 H6 H7|H1 H2 H3 H4 H5].
    + pose proof (fragment_end_bounds (offset t) H1) as He.
      split; try done; cbn; unfold offset, sentEnd, acknowledgedEnd, finalAcknowledged, done_ in *; cbn; rewrite ?H7; cbn; try done; try lia.
      by rewrite Hp.
    + split; try done; cbn; unfold offset, sentEnd, acknowledgedEnd, finalAcknowledged, done_ in *; cbn; rewrite ?H5; cbn; rewrite ?Hp; try done; try lia.
      destruct I5 as (n & -> & Hn). exists n. split; [done|lia].
  - split; try done; cbn.
    intros _. by apply (record_ok_ext t).
Qed.

(** Carrying host progress into a waiting packet. *)
Lemma with_ack_ok t t' r : record_ok t r -> offset t' = offset t -> mt_sequence t' = mt_sequence t ->
  acknowledgedEnd t' = offset t -> record_ok t' (with_ack (offset t) (offset t =? total) r).
Proof using.
  intros Hr Eo Es Ea. destruct Hr as [H1 H2 H3 H4 H5 H6 H7|H1 H2 H3 H4 H5].
  - apply rok_fragment; rewrite ?Eo, ?Es; try done. unfold with_ack. cbn [r_post]. rewrite H7, Ea. cbn.
    by rewrite (proj2 (Z.eqb_neq _ _)) by lia.
  - apply rok_complete; rewrite ?Eo, ?Es, ?Ea; try done. unfold with_ack. cbn [r_post]. rewrite H5, H1. cbn.
    by rewrite Z.eqb_refl.
Qed.

Lemma transfer_ack_inv ack now t rx : minv t rx -> 0 <= ContiguousPayloadBytes ack <= Z.of_nat (length rx) ->
  minv (fst (Acknowledge ack now t)) rx.
Proof using Htotal.
  intros I Ha. unfold Acknowledge. destruct (observeAndCheckTimeout now t) as [t1 e] eqn:Eo.
  apply observe_core in Eo. apply (minv_same _ _ _ Eo) in I. clear Eo t. rename t1 into t.
  destruct e; [done|]. destruct (validateAcknowledgement ack t) as [d|] eqn:Ev; [|done]. cbn [fst].
  destruct I as [I1 (I2 & I2' & I2'') I3 I4 I5 I6 I7 I8]. destruct I5 as (n & Hrx & Hl).
  unfold validateAcknowledgement in Ev. rewrite I1 in Ev. fold total in Ev.
  case_if_in Ev; [done|]. case_if_in Ev; [done|]. bool_prop. cbv zeta in Ev. rewrite I1. fold total. cbv zeta.
  assert (Hd : done_ t = false) by done. set (acked := ContiguousPayloadBytes ack) in *.
  destruct (Z.ltb_spec acked (offset t)) as [Hlt|Hge].
  - injection Ev as <-. split; cbn; unfold data, offset, sentEnd, acknowledgedEnd, finalAcknowledged, done_ in *; cbn;
      rewrite ?I1, ?Hd; try done; try lia.
    + exists n. split; [done|lia].
    + destruct (c_has (mt_claim t)) eqn:E; cbn; [done|by rewrite E].
  - assert (Ea : acked = offset t) by lia. rewrite !Ea.
    assert (Hnr : match d with ReliableAcknowledgementRewind => true | _ => false end = false).
    { destruct (acknowledgedEnd t <? acked); injection Ev as <-; done. }
    rewrite Hnr. split; cbn; unfold data in *; try rewrite I1; try done.
    + unfold offset, sentEnd, acknowledgedEnd in *. cbn. lia.
    + unfold finalAcknowledged, acknowledgedEnd. cbn. lia.
    + unfold done_ in *. cbn. by rewrite Hd.
    + exists n. split; [done|]. unfold acknowledgedEnd. cbn. lia.
    + destruct (c_has (mt_claim t)) eqn:E; [|by rewrite E]. intros _. destruct (I6 eq_refl) as [Hr Hp].
      split; [|done]. cbn [c_record]. fold total. by apply with_ack_ok.
    + intros Hp. rewrite Hp. fold total. apply with_ack_ok; try done. by apply I7.
Qed.

Lemma transfer_admit_inv self claim dst now t rx : minv t rx -> minv (fst (AdmitAndCopy self claim dst now t)) rx.
Proof using Htotal.
  intros I. unfold AdmitAndCopy. destruct (validateClaim self claim t) eqn:Hv; [done|].
  case_if; [done|]. case_if; [done|]. destruct (observeAndCheckTimeout now t) as [t1 e] eqn:Eo.
  apply observe_core in Eo. pose proof Eo as (_ & _ & _ & Ec & _).
  apply (minv_same _ _ _ Eo) in I. destruct e; [done|]. cbn [fst]. cbv zeta.
  assert (Hc : c_has (mt_claim t1) = true).
  { rewrite Ec. unfold validateClaim in Hv. cbv zeta in Hv. destruct (c_has (mt_claim t)); [done|discriminate]. }
  destruct I as [I1 I2 I3 I4 I5 I6 I7 I8]. destruct (I6 Hc) as [Hr Hp].
  split; try done; cbn.
  - intros _. split; [|done]. apply (record_ok_ext t1); try done. case_if; [|done]. bool_prop. bdec. by apply upgrade_bytes.
  - by rewrite Hp.
Qed.

Lemma host_receive_inv t rx : minv t rx -> c_has (mt_claim t) = true ->
  minv t (host_receive rx (packet_bytes (c_record (mt_claim t)))).
Proof using Htotal.
  intros [I1 I2 I3 I4 (n & Hrx & Hl) I6 I7 I8] Hc. destruct (I6 Hc) as [Hr _]. split; try done.
  destruct Hr as [H1 H2 H3 H4 H5 H6 H7|H1 H2 H3 H4 H5].
  - destruct (host_receive_prefix n rx (packet_bytes (c_record (mt_claim t))) (offset t) Hrx H1) as (m & Em & Hm).
    + rewrite H4. by apply host_read_fragment.
    + exists m. split; [done|]. lia.
  - exists n. rewrite H4. assert (Hn : exists x, host_read (encodeMetadataCompleteHeader (mt_sequence t) total) = (x, [])).
    { by eexists. }
    destruct Hn as [x Hx]. unfold host_receive. rewrite Hx. case_if; [|done]. bool_prop. cbn [length] in *. lia.
Qed.

Lemma fresh_inv metadata sequence generation epoch now token :
  md_data metadata = D -> minv (fresh_transfer metadata sequence generation epoch now token) [].
Proof using Htotal.
  intros E. split; try done; cbn.
  - unfold offset, sentEnd, acknowledgedEnd. cbn. lia.
  - by exists 0%nat.
Qed.

Lemma mstep_inv self s s' : minv (fst s) (snd s) -> mstep self s s' -> minv (fst s') (snd s').
Proof using Htotal.
  intros I H. destruct H; cbn [fst snd] in *.
  - unfold Poll. destruct (observeAndCheckTimeout now t) as [t1 e] eqn:Eo. apply observe_core in Eo. by apply (minv_same t).
  - unfold Claim. destruct (observeAndCheckTimeout now t) as [t1 e] eqn:Eo. apply observe_core in Eo.
    apply (minv_same _ _ _ Eo) in I. destruct e; [done|]. repeat (case_if; [done|]).
    destruct (selectPacket now t1) as [r|] eqn:Es; [|done]. destruct (claimFromRecord _ _ _ _) as [t2 cl] eqn:Ec. cbn [fst].
    eapply claim_record_inv; [exact I|by eapply select_record|done| |exact Ec]. done.
  - unfold ClaimRetry. destruct (observeAndCheckTimeout now t) as [t1 e] eqn:Eo. apply observe_core in Eo.
    apply (minv_same _ _ _ Eo) in I. destruct e; [done|]. repeat (case_if; [done|]). bool_prop.
    destruct (claimFromRecord _ _ _ _) as [t2 cl] eqn:Ec. cbn [fst].
    eapply claim_record_inv; [exact I|by apply (mi_retry _ _ I)|apply (mi_open _ _ I); by right|reflexivity|exact Ec].
  - by apply transfer_admit_inv.
  - by apply host_receive_inv.
  - by apply transfer_resolve_inv.
  - by apply transfer_ack_inv.
  - unfold Reset in *. case_if_in H; [done|]. destruct (validateClock now t); [done|].
    case_if_in H; [done|]. case_if_in H; [done|]. case_if_in H; [done|]. injection H as <-. apply fresh_inv. apply (mi_data _ _ I).
Qed.
(** ** A host that keeps up *)

Record ready (now : Z) (t : MetadataTransfer) (rx : list Z) : Prop := {
  rd_valid : mt_valid t = true; rd_sound : mt_faulted t = false; rd_clock : lastNowMS t <= now;
  rd_quiet : ackDeadlineArmed t = false; rd_free : mt_claim t = no_claim; rd_retry : mt_retryPending t = false;
  rd_rx : rx = take (Z.to_nat (offset t)) D; rd_final : offset t = total -> finalAcknowledged t = true;
}.

Lemma observe_ready now t rx : ready now t rx -> observeAndCheckTimeout now t = (set_clock now t, None).
Proof using.
  intros [H1 H2 H3 H4 H5 H6 H7 H8]. unfold observeAndCheckTimeout, validateClock. rewrite H1. cbn [negb].
  rewrite (proj2 (Z.ltb_ge _ _)) by lia. cbn. by rewrite H2, H4.
Qed.

Lemma select_ready now t rx : minv t rx -> ready now t rx -> done_ t = false ->
  exists r, selectPacket now t = Ok r /\ 0 <= r_size r <= 64 /\ length (r_wire r) = 64%nat /\
    (offset t < total -> fragment_end (offset t) = total -> r_acknowledgement r = true) /\
    (offset t = total -> r_acknowledgement r = false /\ r_kind r = MetadataPacketComplete).
Proof using Htotal.
  intros [I1 (I2 & I2' & I2'') I3 I4 I5 I6 I7 I8] R Hd. unfold MetadataMaximumBoundLength in Htotal.
  unfold selectPacket. rewrite I1. fold total. cbv zeta.
  rewrite (proj2 (Z.leb_gt total 60)) by lia. destruct (Z.eqb_spec (offset t) total) as [Eo|Eo].
  - rewrite (rd_final _ _ _ R Eo). eexists. split; [done|]. cbn. repeat split; lia.
  - eexists. split; [done|]. cbn [r_size r_acknowledgement].
    assert (Hs : 0 <= offset t < total) by lia. pose proof (fragment_end_bounds (offset t) Hs) as He.
    split; [unfold MetadataFragmentPayloadCapacity; case_if; rewrite u8_id; lia|].
    split; [cbn [r_wire]; rewrite !length_put_at; [done|cbn; lia|rewrite length_put_at by (cbn; lia);
      rewrite length_slice; unfold MetadataFragmentPayloadCapacity; case_if; cbn; unfold total in *; lia]|].
    split; [|lia]. intros _ Hf. apply orb_true_iff. left.
    unfold fragment_end, MetadataFragmentPayloadCapacity in *. destruct (Z.eqb_spec (offset t) 0) as [E0|E0]; [done|].
    rewrite (proj2 (Z.ltb_ge 58 _)) by lia. by rewrite (proj2 (Z.eqb_eq _ total)) by lia.
Qed.
Lemma next_token_nonzero t : nextClaimToken t <> 0.
Proof using. clear. unfold nextClaimToken, u64. case_if; zsolve. Qed.

(** A claim just issued is the live one, admitted or not. *)
Lemma issued_claim_valid self r retry t t' claim : claimFromRecord self r retry t = (t', claim) ->
  validateClaim self claim t' = None /\
  forall at_ r' t'', mt_claim t'' = {| c_has := true; c_admitted := true; c_admittedAtMS := at_;
      c_token := mc_token claim; c_record := r' |} -> mt_generation t'' = mt_generation t ->
    mt_transferEpoch t'' = mt_transferEpoch t -> mt_sequence t'' = mt_sequence t -> r_kind r' = r_kind r ->
    r_size r' = r_size r -> r_selectedAtMS r' = r_selectedAtMS r -> validateClaim self claim t'' = None.
Proof using.
  intros [= <- <-]. pose proof (next_token_nonzero t) as Hn. apply Z.eqb_neq in Hn. split.
  - unfold validateClaim. cbn. rewrite Hn, !Z.eqb_refl, Bool.eqb_reflx, !bool_decide_true by done. done.
  - intros at_ r' t'' Hc E1 E2 E3 E4 E5 E6. unfold validateClaim. cbv zeta. rewrite Hc. cbn [c_has c_token c_record c_admitted].
    cbn. rewrite Hn, E1, E2, E3, E4, E5, E6, !Z.eqb_refl, !bool_decide_true by done. done.
Qed.

(** The admitted record: the selected one, or that one asking for an acknowledgement. *)
Lemma admit_issued self t r t' claim now : claimFromRecord self r false t = (t', claim) ->
  observeAndCheckTimeout now t' = (set_clock now t', None) -> 0 <= r_size r <= 64 ->
  exists r', (r' = r \/ r' = upgrade_record r /\ r_kind r = MetadataPacketMiddleFragment) /\
    AdmitAndCopy self claim (zeros 64) now t' =
      (set_claim (nextClaimToken t) {| c_has := true; c_admitted := true; c_admittedAtMS := now;
         c_token := nextClaimToken t; c_record := r' |} false (mt_retryRecord t) (set_clock now t'),
       Ok ({| ma_size := r_size r'; ma_kind := r_kind r'; ma_acknowledgement := r_acknowledgement r' |},
           put_at 0 (packet_bytes r') (zeros 64))).
Proof using.
  intros Hi Ho Hs. clear -Hi Ho Hs. destruct (issued_claim_valid _ _ _ _ _ _ Hi) as [Hv _]. injection Hi as <- <-.
  unfold AdmitAndCopy. rewrite Hv. cbn [mt_claim set_claim c_admitted c_record].
  rewrite (proj2 (Z.ltb_ge _ _)) by (cbn; lia). rewrite Ho. cbv zeta.
  cbn [mt_claim set_claim set_clock c_record c_has c_token mt_nextToken mt_retryPending mt_retryRecord].
  eexists. split; [|reflexivity]. case_if; [right|by left]. bool_prop. by bdec.
Qed.

(** A record of the ready sender reaches the host whole. *)
Lemma receive_ready now t rx r : minv t rx -> ready now t rx -> record_ok t r ->
  host_receive rx (packet_bytes r) = take (Z.to_nat (p_offset (r_post r))) D.
Proof using Htotal.
  intros I R Hr. destruct I as [I1 (I2 & I2' & I2'') _ _ _ _ _ _]. rewrite (rd_rx _ _ _ R). destruct Hr as [H1 H2 H3 H4 H5 H6 H7|H1 H2 H3 H4 H5].
  - pose proof (fragment_end_bounds (offset t) H1) as He. rewrite H4, H7. cbn [p_offset].
    unfold host_receive. rewrite host_read_fragment by done. rewrite length_slice by (unfold total in *; lia).
    rewrite length_take. rewrite (proj2 (Z.leb_le _ _)), (proj2 (Z.ltb_lt _ _)) by (unfold total in *; lia). cbn [andb].
    assert (S0 : forall k, take k D = slice 0 k D) by (intros k; unfold slice; by rewrite Nat.sub_0_r).
    rewrite take_take, Nat.min_id, !S0. apply slice_join; unfold total in *; lia.
  - rewrite H4, H5. cbn [p_offset]. assert (Hn : exists x, host_read (encodeMetadataCompleteHeader (mt_sequence t) total) = (x, [])).
    { by eexists. }
    destruct Hn as [x Hx]. unfold host_receive. rewrite Hx, H1. case_if; [|done]. bool_prop. cbn [length] in *. lia.
Qed.

Definition settle (now : Z) (rx : list Z) (t : MetadataTransfer) : MetadataTransfer :=
  match PendingAcknowledgement t with
  | None => t
  | Some identity => fst (Acknowledge (host_ack rx identity) now t)
  end.

Lemma acknowledge_clock ack now t : lastNowMS t <= now -> 0 <= lastNowMS t -> 0 <= lastNowMS (fst (Acknowledge ack now t)).
Proof using.
  clear. intros Hn H0. unfold Acknowledge, observeAndCheckTimeout.
  repeat (case_match; simplify_eq/=; try lia).
Qed.

(** The host's answer leaves the sender ready for the next packet. *)
Lemma settle_ready now t rx : minv t rx -> mt_valid t = true -> mt_faulted t = false -> lastNowMS t <= now ->
  mt_claim t = no_claim -> mt_retryPending t = false -> done_ t = false -> 0 < offset t ->
  rx = take (Z.to_nat (offset t)) D -> (ackDeadlineArmed t = true -> now < ackDeadlineMS t) ->
  (offset t = total -> ackDeadlineArmed t = true) ->
  ready now (settle now rx t) rx /\ minv (settle now rx t) rx /\ offset (settle now rx t) = offset t /\
  done_ (settle now rx t) = false.
Proof using Htotal.
  intros I Hv Hf Hn Hc Hp Hd Hpos Hrx Hdl Hfin. pose proof I as [I1 (I2 & I2' & I2'') I3 I4 I5 I6 I7 I8].
  assert (Hl : Z.of_nat (length rx) = offset t) by (rewrite Hrx, length_take; unfold total in *; lia).
  unfold settle, PendingAcknowledgement. destruct (ackDeadlineArmed t) eqn:Ea; cbn [negb].
  2:{ split; [|done]. split; try done. intros E. by specialize (Hfin E). }
  specialize (Hdl eq_refl). unfold acknowledgementIdentity. rewrite Hv, Hf, Hd, I1. fold total.
  rewrite (proj2 (Z.leb_gt total 60)), (proj2 (Z.eqb_neq (sentEnd t) 0)) by lia. cbn [negb orb].
  set (ack := host_ack rx _). assert (Hk : ContiguousPayloadBytes ack = offset t) by done.
  pose proof (transfer_ack_inv ack now t rx I ltac:(lia)) as Ia.
  assert (Ho : observeAndCheckTimeout now t = (set_clock now t, None)).
  { unfold observeAndCheckTimeout, validateClock. rewrite Hv. cbn. rewrite (proj2 (Z.ltb_ge now (lastNowMS t))) by lia.
    cbn. rewrite Hf, Ea, (proj2 (Z.leb_gt _ _)) by lia. done. }
  assert (Hva : exists d, validateAcknowledgement ack (set_clock now t) = Ok d /\ d <> ReliableAcknowledgementRewind).
  { unfold validateAcknowledgement. change (c_admitted (mt_claim (set_clock now t))) with (c_admitted (mt_claim t)).
    rewrite Hc. cbn [c_admitted no_claim]. change (data (set_clock now t)) with (data t). rewrite I1. fold total.
    change (done_ (set_clock now t)) with (done_ t). rewrite Hd, Hk. cbn -[Z.leb Z.ltb Z.eqb total].
    change (sentEnd (set_clock now t)) with (sentEnd t). change (offset (set_clock now t)) with (offset t).
    change (acknowledgedEnd (set_clock now t)) with (acknowledgedEnd t).
    rewrite !Z.eqb_refl, (proj2 (Z.leb_gt total 60)), (proj2 (Z.eqb_neq (sentEnd t) 0)),
      (proj2 (Z.ltb_ge (offset t) (acknowledgedEnd t))), (proj2 (Z.ltb_ge (sentEnd t) (offset t))),
      (proj2 (Z.ltb_ge total (offset t))), (proj2 (Z.ltb_ge (offset t) (offset t))) by lia.
    cbn [orb negb]. case_if; by eexists. }
  destruct Hva as (d & Hva & Hdr). unfold Acknowledge in *. rewrite Ho, Hva in *. cbn [fst] in *.
  assert (Hnr : match d with ReliableAcknowledgementRewind => true | _ => false end = false) by (by destruct d).
  rewrite Hnr in *. split; [|split; [exact Ia|split; [done|]]].
  - cbv zeta. split; try done; cbn; [by rewrite Hc|].
    intros E. apply Z.eqb_eq. change (data (set_clock now t)) with (data t). rewrite I1. rewrite Hl. exact E.
  - done.
Qed.

(** The state a delivered packet leaves, before the host's answer. *)
Record delivered (q : round) (t : MetadataTransfer) (r : metadataPacketRecord) (t' : MetadataTransfer) : Prop := {
  dl_record : record_ok t r; dl_progress : mt_progress t' = r_post r; dl_data : data t' = data t;
  dl_valid : mt_valid t' = true; dl_sound : mt_faulted t' = false; dl_clock : lastNowMS t' = at_resolve q;
  dl_free : mt_claim t' = no_claim; dl_retry : mt_retryPending t' = false;
  dl_armed : ackDeadlineArmed t' = r_acknowledgement r;
  dl_deadline : ackDeadlineArmed t' = true -> at_ack q < ackDeadlineMS t';
  dl_last : offset t < total -> fragment_end (offset t) = total -> r_acknowledgement r = true;
  dl_complete : offset t = total -> r_acknowledgement r = false;
}.

(** A later moment. *)
Lemma ready_later now now' t rx : ready now t rx -> now <= now' -> ready now' t rx.
Proof using. intros [R1 R2 R3 R4 R5 R6 R7 R8] Hn. split; try done. lia. Qed.

(** The claim of a ready sender. *)
Lemma claim_ready self now t rx : minv t rx -> ready now t rx -> done_ t = false ->
  exists r t1 claim, selectPacket now (set_clock now t) = Ok r /\ claimFromRecord self r false (set_clock now t) = (t1, claim) /\
    Claim self now t = (t1, Ok claim).
Proof using Htotal.
  intros I R Hd. pose proof (observe_ready _ _ _ R) as Ho. set (t0 := set_clock now t) in *.
  assert (R0 : ready now t0 rx) by (destruct R; split; try done; cbn; lia).
  assert (I0 : minv t0 rx) by (by apply (minv_same t)).
  destruct (select_ready now t0 rx I0 R0 Hd) as (r & Hs & _).
  destruct (claimFromRecord self r false t0) as [t1 claim] eqn:Hi. exists r, t1, claim. split; [done|]. split; [done|].
  unfold Claim. rewrite Ho. rewrite (rd_free _ _ _ R0), (rd_retry _ _ _ R0), (rd_quiet _ _ _ R0).
  change (done_ t0) with (done_ t). rewrite Hd, Hs. cbn [c_has no_claim]. by rewrite Hi.
Qed.

Lemma resolve_leaves_delivered q t rx r r' t1 claim self : round_on_time (lastNowMS t) q -> ready (at_claim q) t rx ->
  claimFromRecord self r false (set_clock (at_claim q) t) = (t1, claim) ->
  (r' = r \/ r' = upgrade_record r /\ r_kind r = MetadataPacketMiddleFragment) -> record_ok t r' ->
  (offset t < total -> fragment_end (offset t) = total -> r_acknowledgement r = true) ->
  (offset t = total -> r_acknowledgement r = false /\ r_kind r = MetadataPacketComplete) ->
  let t2 := set_claim (nextClaimToken (set_clock (at_claim q) t)) {| c_has := true; c_admitted := true; c_admittedAtMS := at_admit q;
     c_token := nextClaimToken (set_clock (at_claim q) t); c_record := r' |} false (mt_retryRecord (set_clock (at_claim q) t))
     (set_clock (at_admit q) t1) in
  delivered q t r' (fst (Resolve self claim MetadataPacketDelivered (at_resolve q) t2)).
Proof using Htotal.
  intros (_ & Q1 & Q2 & Q3 & Q4) [R1 R2 R3 R4 R5 R6 R7 R8] Hi Hr' Hrok Hack Hcomp t2.
  destruct (issued_claim_valid _ _ _ _ _ _ Hi) as [_ Hv].
  assert (Hv2 : validateClaim self claim t2 = None).
  { injection Hi as <- <-. eapply Hv; try done; destruct Hr' as [-> | [-> _]]; done. }
  unfold Resolve. rewrite Hv2. cbn [packet_delivered negb andb]. unfold t2. injection Hi as <- <-. cbn.
  rewrite (proj2 (Z.ltb_ge _ _)) by lia. split; try done.
  - cbn. by rewrite R4, orb_false_r.
  - cbn. rewrite R4, orb_false_r. intros ->. unfold saturatingMetadataDeadline, ReliableACKTimeoutMilliseconds in *. case_if; lia.
  - intros H1 H2. specialize (Hack H1 H2). destruct Hr' as [-> | [-> _]]; done.
  - intros H1. destruct (Hcomp H1) as [Hc1 Hc2]. destruct Hr' as [-> | [-> Hk]]; [done|congruence].
Qed.

Lemma deliver_shape self q t rx : round_on_time (lastNowMS t) q -> minv t rx -> ready (at_claim q) t rx -> done_ t = false ->
  exists r t', delivered q t r t' /\
    deliver self (t, rx) q = (settle (at_ack q) (take (Z.to_nat (p_offset (r_post r))) D) t', take (Z.to_nat (p_offset (r_post r))) D).
Proof using Htotal.
  intros Hq I R Hd. destruct (claim_ready self _ t rx I R Hd) as (r & t1 & claim & Hs & Hi & Hcl).
  set (t0 := set_clock (at_claim q) t) in *.
  assert (R0 : ready (at_claim q) t0 rx) by (destruct R; split; try done; cbn; lia).
  assert (I0 : minv t0 rx) by (by apply (minv_same t)).
  destruct (select_ready _ t0 rx I0 R0 Hd) as (r0 & Hs0 & Hsz & Hw & Hack & Hcomp). rewrite Hs in Hs0. injection Hs0 as <-.
  pose proof (select_record t0 rx _ r I0 Hd Hs) as Hr.
  assert (Ho1 : observeAndCheckTimeout (at_admit q) t1 = (set_clock (at_admit q) t1, None)).
  { injection Hi as <- <-. destruct R as [R1 R2 _ R4 _ _ _ _]. destruct Hq as (_ & Q1 & _). unfold observeAndCheckTimeout, validateClock. cbn.
    rewrite R1. cbn. rewrite (proj2 (Z.ltb_ge _ _)) by lia. by rewrite R2, R4. }
  destruct (admit_issued self t0 r t1 claim (at_admit q) Hi Ho1 Hsz) as (r' & Hr' & Ha).
  assert (Hrok : record_ok t0 r') by (destruct Hr' as [-> | [-> Hk]]; [done|by apply upgrade_bytes]).
  assert (Hsz' : r_size r' = r_size r /\ length (r_wire r') = 64%nat).
  { destruct Hr' as [-> | [-> _]]; [done|]. split; [done|]. cbn [upgrade_record r_wire]. rewrite length_put_at; [done|]. rewrite Hw. cbn. lia. }
  destruct Hsz' as [Hsz' Hw'].
  assert (Hpk : slice 0 (Z.to_nat (r_size r')) (put_at 0 (packet_bytes r') (zeros 64)) = packet_bytes r').
  { assert (Hpl : length (packet_bytes r') = Z.to_nat (r_size r')) by (unfold packet_bytes; rewrite length_slice; lia).
    pose proof (slice_put_at 0 (packet_bytes r') (zeros 64)) as Hsp. rewrite Hpl in Hsp. cbn [Nat.add] in Hsp.
    apply Hsp. cbn. lia. }
  pose proof (resolve_leaves_delivered q t rx r r' t1 claim self Hq R Hi Hr' ltac:(by apply (record_ok_ext t0)) Hack Hcomp) as Hdl.
  unfold deliver. rewrite Hcl, Ha. cbv zeta. cbn [ma_size]. rewrite Hpk, (receive_ready _ t0 rx r' I0 R0 Hrok).
  set (t3 := fst (Resolve _ _ _ _ _)) in *. exists r', t3. split; [done|]. unfold settle. by destruct (PendingAcknowledgement t3).
Qed.

Lemma deliver_ready self q t rx : round_on_time (lastNowMS t) q -> minv t rx -> ready (at_claim q) t rx -> done_ t = false ->
  let '(t', rx') := deliver self (t, rx) q in
  (offset t < total -> done_ t' = false /\ ready (at_ack q) t' rx' /\ minv t' rx' /\ offset t' = fragment_end (offset t)) /\
  (offset t = total -> done_ t' = true).
Proof using Htotal.
  intros Hq I R Hd. destruct (deliver_shape self q t rx Hq I R Hd) as (r & t3 & [L1 L2 L3 L4 L5 L6 L7 L8 L9 L10 L11 L12] & ->).
  pose proof I as [I1 (I2 & I2' & I2'') _ _ _ _ _ _]. destruct L1 as [H1 H2 H3 H4 H5 H6 H7|H1 H2 H3 H4 H5].
  - split; [|lia]. intros _. pose proof (fragment_end_bounds (offset t) H1) as He.
    rewrite H7 in *. cbn [p_offset].
    assert (Eo : offset t3 = fragment_end (offset t)) by (unfold offset at 1; by rewrite L2).
    assert (Id : minv t3 (take (Z.to_nat (fragment_end (offset t))) D)).
    { split; unfold finalAcknowledged, done_, acknowledgedEnd in *; rewrite ?L2, ?L3, ?L7, ?L8; cbn; try done.
      - unfold offset, sentEnd. rewrite L2. cbn. lia.
      - eexists. split; [done|]. rewrite length_take. unfold total in *. lia. }
    rewrite <-Eo in *. destruct Hq as (_ & _ & _ & Q3 & _).
    destruct (settle_ready (at_ack q) t3 _ Id) as (S1 & S2 & S3 & S4); try done; try lia.
    + unfold done_. by rewrite L2.
    + intros E. rewrite L9. apply L11; lia.
  - split; [lia|]. intros _. unfold settle, PendingAcknowledgement. rewrite L9, (L12 H1). cbn. unfold done_. by rewrite L2, H5.
Qed.

(** Rounds from a ready sender: each moves one fragment, the last one completes. *)
Lemma deliver_completes self now n qs t rx : on_time now qs -> minv t rx -> ready now t rx -> 0 <= lastNowMS t -> done_ t = false ->
  total - offset t <= 58 * Z.of_nat n -> (n < length qs)%nat ->
  exists k, (k <= S n)%nat /\ done_ (fst (foldl (deliver self) (t, rx) (take k qs))) = true.
Proof using Htotal.
  revert now qs t rx. induction n as [|n IH]; intros now qs t rx Hq I R H0 Hd Hn Hl; (destruct qs as [|q qs]; [cbn in Hl; lia|]);
    destruct Hq as [Hq Hqs]; pose proof (rd_clock _ _ _ R) as Hcl; destruct Hq as (Q0 & Q);
    assert (Hq' : round_on_time (lastNowMS t) q) by (split; [lia|exact Q]);
    assert (Rq : ready (at_claim q) t rx) by (eapply ready_later; [exact R|lia]);
    pose proof (deliver_ready self q t rx Hq' I Rq Hd) as H; pose proof (mi_progress _ _ I) as (_ & _ & Hle);
    destruct (Z.eq_dec (offset t) total) as [E|E].
  1,3: exists 1%nat; split; [lia|]; cbn [take foldl]; destruct (deliver self (t, rx) q) as [t' rx']; by apply H.
  - lia.
  - destruct (deliver self (t, rx) q) as [t' rx'] eqn:Ed. destruct H as [H _].
    destruct (H ltac:(lia)) as (Hd' & R' & I' & Eo). cbn [length] in Hl.
    assert (H0' : 0 <= lastNowMS t').
    { destruct (deliver_shape self q t rx Hq' I Rq Hd) as (r & t3 & Hdl & E3).
      rewrite Ed in E3. injection E3 as -> _. pose proof (dl_clock _ _ _ _ Hdl) as Hc. destruct Q as (Q1 & Q2 & Q3 & _).
      unfold settle. destruct (PendingAcknowledgement t3); [|lia]. by apply acknowledge_clock; lia. }
    destruct (IH (at_ack q) qs t' rx' Hqs I' R' H0' Hd') as (k & Hk & Hdone); [rewrite Eo; unfold fragment_end; lia|lia|].
    exists (S k). split; [lia|]. cbn [take foldl]. by rewrite Ed.
Qed.

Lemma fresh_ready metadata sequence generation epoch now token : md_data metadata = D ->
  ready now (fresh_transfer metadata sequence generation epoch now token) [].
Proof using Htotal. intros E. split; try done; cbn. unfold offset. cbn. lia. Qed.
End Sender.

(** Every state a transfer of [metadata] can reach. *)
Inductive mreachable (self : Z) (profile : UnregisteredControllerProfile) (metadata : BoundCompiledMetadata) :
    MetadataTransfer * list Z -> Prop :=
| mr_new sequence generation epoch now t :
    NewMetadataTransfer profile metadata sequence generation epoch now = Ok t -> mreachable self profile metadata (t, [])
| mr_step s s' : mreachable self profile metadata s -> mstep self s s' -> mreachable self profile metadata s'.

(** C17: a metadata transfer that reports completion has delivered: for metadata longer than one
    packet, in every run of the transfer with a host that reads only packet bytes, where admitted
    packets may be lost, writes may be deferred, fail or be retried, claims may be forged or replayed
    and acknowledgements may be late or rewind the sender, the host's buffer is always a prefix of the
    metadata, and when the transfer is done it is exactly the metadata. *)
Theorem metadata_reaches_host (self : Z) (profile : UnregisteredControllerProfile)
    (metadata : BoundCompiledMetadata) (t : MetadataTransfer) (rx : list Z) :
  60 < Z.of_nat (length (md_data metadata)) ->
  mreachable self profile metadata (t, rx) ->
  (exists n, rx = take n (md_data metadata)) /\ (done_ t = true -> rx = md_data metadata).
Proof.
  intros Hlen Hr. assert (Hinv : minv (md_data metadata) (fst (t, rx)) (snd (t, rx)) /\
    Z.of_nat (length (md_data metadata)) <= MetadataMaximumBoundLength).
  { remember (t, rx) as s eqn:Es. clear Es t rx. induction Hr as [sequence generation epoch now t H|s s' Hr IH Hs].
    - unfold NewMetadataTransfer in H. destruct (profile_validate profile); [done|].
      case_if_in H; [done|]. do 4 (case_if_in H; [done|]). injection H as <-. bool_prop.
      split; [|lia]. apply fresh_inv; [lia|done].
    - destruct IH as [IH Hm]. split; [|done]. apply (mstep_inv (md_data metadata) ltac:(lia) self s s' IH Hs). }
  destruct Hinv as [[I1 I2 I3 I4 (n & Hrx & Hl) I6 I7 I8] Hm]. cbn [fst snd] in *. split; [by exists n|].
  intros Hd. specialize (I4 Hd). rewrite Hrx in *. rewrite length_take in Hl. apply take_ge. lia.
Qed.

(** C28: against a host that takes every packet and answers every request for an acknowledgement in
    time, a new transfer of metadata longer than one packet finishes, at whatever pace the packets are
    claimed, admitted, written and acknowledged: the clock only has to be monotone and below 2^64-1
    milliseconds, and an acknowledgement has to arrive before its deadline.  It takes at most one packet for every 58 bytes
    or part of them and one completion packet. *)
Theorem metadata_transfer_completes (self now sequence generation epoch : Z)
    (profile : UnregisteredControllerProfile) (metadata : BoundCompiledMetadata) (t : MetadataTransfer) (qs : list round) :
  60 < Z.of_nat (length (md_data metadata)) -> 0 <= now -> on_time now qs ->
  (Z.of_nat (length (md_data metadata)) + 57) / 58 + 1 <= Z.of_nat (length qs) ->
  NewMetadataTransfer profile metadata sequence generation epoch now = Ok t ->
  exists k, Z.of_nat k <= (Z.of_nat (length (md_data metadata)) + 57) / 58 + 1 /\
    done_ (fst (foldl (deliver self) (t, []) (take k qs))) = true.
Proof.
  intros Hlen Hnow Hq Hqs H. set (total := Z.of_nat (length (md_data metadata))) in *.
  unfold NewMetadataTransfer in H. destruct (profile_validate profile); [done|].
  case_if_in H; [done|]. do 4 (case_if_in H; [done|]). injection H as <-. bool_prop.
  assert (Htot : 60 < total <= MetadataMaximumBoundLength) by (unfold total; lia).
  destruct (deliver_completes (md_data metadata) Htot self now (Z.to_nat ((total + 57) / 58)) qs _ []
    Hq (fresh_inv _ Htot metadata sequence generation epoch now 0 eq_refl)
    (fresh_ready _ Htot metadata sequence generation epoch now 0 eq_refl) Hnow eq_refl) as (k & Hk & Hd).
  - unfold offset. cbn [p_offset mt_progress fresh_transfer zero_progress]. fold total. zsolve.
  - zsolve.
  - exists k. split; [|done]. zsolve.
Qed.

(** A round is a run of the transition system when the copied bytes are the packet. *)
Lemma round_reachable self profile metadata q s t1 claim t2 a wire :
  mreachable self profile metadata s -> Claim self (at_claim q) (fst s) = (t1, Ok claim) ->
  AdmitAndCopy self claim (zeros 64) (at_admit q) t1 = (t2, Ok (a, wire)) ->
  c_has (mt_claim t2) = true -> c_admitted (mt_claim t2) = true ->
  slice 0 (Z.to_nat (ma_size a)) wire = packet_bytes (c_record (mt_claim t2)) ->
  mreachable self profile metadata (deliver self s q).
Proof.
  destruct s as [t rx]. cbn [fst]. intros Hr Hc Ha H1 H2 Hp. unfold deliver. rewrite Hc, Ha. cbv zeta. rewrite Hp.
  assert (R1 : mreachable self profile metadata (t1, rx)).
  { eapply mr_step; [exact Hr|]. replace t1 with (fst (Claim self (at_claim q) t)) by (by rewrite Hc). constructor. }
  assert (R2 : mreachable self profile metadata (t2, rx)).
  { eapply mr_step; [exact R1|].
    replace t2 with (fst (AdmitAndCopy self claim (zeros 64) (at_admit q) t1)) by (by rewrite Ha). constructor. }
  assert (R3 := mr_step _ _ _ _ _ (mr_step _ _ _ _ _ R2 (m_arrive _ _ _ H1 H2))
    (m_resolve _ _ _ claim MetadataPacketDelivered (at_resolve q))).
  destruct (PendingAcknowledgement _); [|done]. eapply mr_step; [exact R3|]. constructor. cbn. lia.
Qed.

Definition demo_metadata : BoundCompiledMetadata :=
  match BindExternallyCompiledMetadata 9 demo_profile (List.repeat 5 70) with
  | Ok m => m
  | Err _ => {| md_identity := identity demo_profile; md_profileIssuance := None; md_issuance := None; md_data := [];
                md_officialGamepadVariant := 0; md_valid := false |}
  end.

Definition demo_transfer : MetadataTransfer := fresh_transfer demo_metadata 3 1 1 0 0.

(** Rounds whose admission comes after the 60 ms cadence of acknowledgement requests. *)
Definition demo_rounds : list round :=
  [{| at_claim := 5; at_admit := 6; at_resolve := 7; at_ack := 20 |};
   {| at_claim := 70; at_admit := 90; at_resolve := 91; at_ack := 100 |};
   {| at_claim := 200; at_admit := 200; at_resolve := 300; at_ack := 300 |}].

Lemma metadata_transfer_completes_witness :
  exists k, Z.of_nat k <= 3 /\ done_ (fst (foldl (deliver 1) (demo_transfer, []) (take k demo_rounds))) = true.
Proof.
  apply (metadata_transfer_completes 1 0 3 1 1 demo_profile demo_metadata demo_transfer demo_rounds);
    [by vm_compute|by vm_compute|by (vm_compute; repeat split)|by vm_compute|by vm_compute].
Defined.

(** 200 bytes: a middle fragment is selected before its acknowledgement is due and admitted after, so the
    request is added to the admitted packet. *)
Definition demo_long : BoundCompiledMetadata :=
  match BindExternallyCompiledMetadata 9 demo_profile (List.repeat 5 200) with
  | Ok m => m
  | Err _ => demo_metadata
  end.
Example cadence_upgrade :
  let s1 := deliver 1 (fresh_transfer demo_long 3 1 1 0 0, []) {| at_claim := 5; at_admit := 6; at_resolve := 7; at_ack := 20 |} in
  let s2 := deliver 1 s1 {| at_claim := 79; at_admit := 79; at_resolve := 79; at_ack := 79 |} in
  let s3 := deliver 1 s1 {| at_claim := 79; at_admit := 80; at_resolve := 81; at_ack := 90 |} in
  acknowledgedEnd (fst s1) = 58 /\ acknowledgedEnd (fst s2) = 58 /\ acknowledgedEnd (fst s3) = 116.
Proof. split_and!; vm_compute; reflexivity. Qed.

Lemma metadata_reaches_host_witness : exists t rx,
  mreachable 1 demo_profile demo_metadata (t, rx) /\ done_ t = true /\ rx = List.repeat 5 70.
Proof.
  set (s := foldl (deliver 1) (demo_transfer, []) demo_rounds).
  assert (Hr : mreachable 1 demo_profile demo_metadata s).
  { unfold s. cbn [demo_rounds foldl]. do 3 (eapply round_reachable; [|vm_compute; reflexivity..]).
    apply (mr_new 1 demo_profile demo_metadata 3 1 1 0). by vm_compute. }
  exists (fst s), (snd s). split; [by rewrite <-surjective_pairing|].
  assert (Hd : done_ (fst s) = true) by by vm_compute. split; [done|].
  apply (metadata_reaches_host 1 demo_profile demo_metadata (fst s) (snd s)); [by vm_compute| |done].
  by rewrite <-surjective_pairing.
Defined.
