(* ===== verification/XboxLifecycle.v ===== *)
(** * The controller lifecycle

    src/device/xboxone/lifecycle.go, [ControllerLifecycle]: the controller's
    part of the GIP state diagram.  A host command, a due deadline, a metadata
    failure or a USB reset begins a transition, a plan of one to three
    external actions; actions are claimed, admitted and resolved one at a time
    and the new state, deadline and generation commit with the last one.  The
    host commands themselves are in [XboxGip].  The theorems are about runs in
    which every operation is called at any time with any argument, and an
    executor's effects are the actions resolved as delivered. *)

From S2P Require Import Prelude Bytes Codec XboxGip.

Module Lifecycle.

Definition HelloIntervalMilliseconds : Z := 500.
Definition PowerTransitionDelayMilliseconds : Z := 500.
Definition MaxUint64 : Z := 18446744073709551615.

Inductive ControllerLifecycleState :=
| ControllerLifecycleUninitialized | ControllerLifecycleArrival | ControllerLifecycleMetadata
| ControllerLifecycleIdle | ControllerLifecycleActive | ControllerLifecycleTerminatingOff
| ControllerLifecycleTerminatingReset | ControllerLifecycleOff | ControllerLifecycleReset.

#[export] Instance ControllerLifecycleState_eq_dec : EqDecision ControllerLifecycleState.
Proof. solve_decision. Defined.

Inductive ControllerLifecycleAction :=
| ControllerLifecycleSendHello | ControllerLifecycleBeginMetadata | ControllerLifecycleSendCurrentStatus
| ControllerLifecycleSendInitialInput | ControllerLifecyclePermitNormalUpstream
| ControllerLifecycleGateNormalUpstream | ControllerLifecycleClearOutputs
| ControllerLifecycleSendPoweringOffStatus | ControllerLifecycleCompletePowerOff
| ControllerLifecyclePerformReset.

#[export] Instance ControllerLifecycleAction_eq_dec : EqDecision ControllerLifecycleAction.
Proof. solve_decision. Defined.

(** The plan of a transition: [actions] holds the actions in use, at most
    three, so the source's [length] is its length. *)
Record ControllerLifecycleDecision := { actions : list ControllerLifecycleAction }.

Definition Len (decision : ControllerLifecycleDecision) : Z := Z.of_nat (length (actions decision)).

(** [None] is the zero action. *)
Definition Action (index : Z) (decision : ControllerLifecycleDecision) : option ControllerLifecycleAction :=
  if (index <? 0) || (Len decision <=? index) then None else actions decision !! Z.to_nat index.

Definition lifecycleDecision1 (first : ControllerLifecycleAction) : ControllerLifecycleDecision :=
  {| actions := [first] |}.
Definition lifecycleDecision2 (first second : ControllerLifecycleAction) : ControllerLifecycleDecision :=
  {| actions := [first; second] |}.
Definition lifecycleDecision3 (first second third : ControllerLifecycleAction) : ControllerLifecycleDecision :=
  {| actions := [first; second; third] |}.

(** An outcome is a byte of the caller's; [Resolve] refuses the others. *)
Definition ControllerLifecycleDelivered : Z := 1.
Definition ControllerLifecycleDeferred : Z := 2.
Definition ControllerLifecycleDeliveryFailed : Z := 3.
Definition ControllerLifecycleExecutionCancelled : Z := 4.

Record ControllerLifecycleClaim := {
  lc_owner : option Z; lc_token : Z; lc_generation : Z; lc_transitionEpoch : Z;
  lc_metadataTransferGeneration : Z; lc_action : option ControllerLifecycleAction; lc_cursor : Z;
  lc_totalActions : Z; lc_selectedAtMS : Z;
}.

Definition ControllerLifecycleClaim_Valid (claim : ControllerLifecycleClaim) : bool :=
  bool_decide (lc_owner claim <> None) && negb (lc_token claim =? 0).

Record ControllerLifecycleExecutionFence := {
  xf_TransportGeneration : Z; xf_TransitionEpoch : Z; xf_LeaseToken : Z; xf_ActionCursor : Z;
  xf_Action : option ControllerLifecycleAction;
}.

Definition ExecutionFence (claim : ControllerLifecycleClaim) : option ControllerLifecycleExecutionFence :=
  if negb (ControllerLifecycleClaim_Valid claim) || (lc_generation claim =? 0) || (lc_transitionEpoch claim =? 0)
  then None
  else Some {| xf_TransportGeneration := lc_generation claim; xf_TransitionEpoch := lc_transitionEpoch claim;
               xf_LeaseToken := lc_token claim; xf_ActionCursor := lc_cursor claim; xf_Action := lc_action claim |}.

Record ControllerMetadataTransferFence := { mf_TransportGeneration : Z; mf_TransferGeneration : Z }.

Definition ControllerLifecycleClaim_MetadataTransferFence (claim : ControllerLifecycleClaim) :
    option ControllerMetadataTransferFence :=
  if (lc_generation claim =? 0) || (lc_metadataTransferGeneration claim =? 0) then None
  else Some {| mf_TransportGeneration := lc_generation claim;
               mf_TransferGeneration := lc_metadataTransferGeneration claim |}.

Inductive lifecycleDeadlinePolicy :=
| lifecycleNoDeadline | lifecycleHelloAfterDelivery | lifecycleTerminationAfterDelivery.

Record controllerLifecycleCore := {
  state : ControllerLifecycleState; generation : Z; metadataTransferGeneration : Z; nextHelloMS : Z;
  terminationMS : Z;
}.

Record controllerLifecycleTransition := {
  decision : ControllerLifecycleDecision; target : controllerLifecycleCore; deadline : lifecycleDeadlinePolicy;
}.

(** The fields [clearPendingTransition] puts back to zero. *)
Record pending := {
  pendingTransition : bool; transitionEpoch : Z; transition : controllerLifecycleTransition;
  actionCursor : Z; actionSelectedAtMS : Z; retryPending : bool;
  hasClaim : bool; claimAdmitted : bool; claimToken : Z;
}.

Record ControllerLifecycle := {
  core : controllerLifecycleCore; lastNowMS : Z; nextTransitionEpoch : Z; nextMetadataTransferGeneration : Z;
  nextToken : Z; slot : pending;
}.

Definition zero_core : controllerLifecycleCore := {|
  state := ControllerLifecycleUninitialized; generation := 0; metadataTransferGeneration := 0; nextHelloMS := 0;
  terminationMS := 0 |}.
Definition zero_transition : controllerLifecycleTransition := {|
  decision := {| actions := [] |}; target := zero_core; deadline := lifecycleNoDeadline |}.
Definition no_pending : pending := {|
  pendingTransition := false; transitionEpoch := 0; transition := zero_transition; actionCursor := 0;
  actionSelectedAtMS := 0; retryPending := false; hasClaim := false; claimAdmitted := false; claimToken := 0 |}.

Definition NewControllerLifecycle (nowMS : Z) : ControllerLifecycle := {|
  core := {| state := ControllerLifecycleArrival; generation := 1; metadataTransferGeneration := 0;
             nextHelloMS := nowMS; terminationMS := 0 |};
  lastNowMS := nowMS; nextTransitionEpoch := 0; nextMetadataTransferGeneration := 0; nextToken := 0;
  slot := no_pending |}.

(** Updates. *)
Definition set_now (now : Z) (l : ControllerLifecycle) : ControllerLifecycle := {|
  core := core l; lastNowMS := now; nextTransitionEpoch := nextTransitionEpoch l;
  nextMetadataTransferGeneration := nextMetadataTransferGeneration l; nextToken := nextToken l; slot := slot l |}.
Definition set_core (c : controllerLifecycleCore) (l : ControllerLifecycle) : ControllerLifecycle := {|
  core := c; lastNowMS := lastNowMS l; nextTransitionEpoch := nextTransitionEpoch l;
  nextMetadataTransferGeneration := nextMetadataTransferGeneration l; nextToken := nextToken l; slot := slot l |}.
Definition set_slot (p : pending) (l : ControllerLifecycle) : ControllerLifecycle := {|
  core := core l; lastNowMS := lastNowMS l; nextTransitionEpoch := nextTransitionEpoch l;
  nextMetadataTransferGeneration := nextMetadataTransferGeneration l; nextToken := nextToken l; slot := p |}.
Definition set_counters (epoch metadata token : Z) (l : ControllerLifecycle) : ControllerLifecycle := {|
  core := core l; lastNowMS := lastNowMS l; nextTransitionEpoch := epoch;
  nextMetadataTransferGeneration := metadata; nextToken := token; slot := slot l |}.
Definition with_state (s : ControllerLifecycleState) (c : controllerLifecycleCore) : controllerLifecycleCore := {|
  state := s; generation := generation c; metadataTransferGeneration := metadataTransferGeneration c;
  nextHelloMS := nextHelloMS c; terminationMS := terminationMS c |}.
Definition with_hello (ms : Z) (c : controllerLifecycleCore) : controllerLifecycleCore := {|
  state := state c; generation := generation c; metadataTransferGeneration := metadataTransferGeneration c;
  nextHelloMS := ms; terminationMS := terminationMS c |}.
Definition with_termination (ms : Z) (c : controllerLifecycleCore) : controllerLifecycleCore := {|
  state := state c; generation := generation c; metadataTransferGeneration := metadataTransferGeneration c;
  nextHelloMS := nextHelloMS c; terminationMS := ms |}.
Definition with_generations (g m : Z) (c : controllerLifecycleCore) : controllerLifecycleCore := {|
  state := state c; generation := g; metadataTransferGeneration := m; nextHelloMS := nextHelloMS c;
  terminationMS := terminationMS c |}.
Definition plan (d : ControllerLifecycleDecision) (t : controllerLifecycleCore) (p : lifecycleDeadlinePolicy) :
    controllerLifecycleTransition := {| decision := d; target := t; deadline := p |}.

(** The active metadata fence. *)
Definition MetadataTransferGeneration (l : ControllerLifecycle) : option Z :=
  if negb (bool_decide (state (core l) = ControllerLifecycleMetadata)) ||
     (metadataTransferGeneration (core l) =? 0) || pendingTransition (slot l)
  then None else Some (metadataTransferGeneration (core l)).

Definition MetadataTransferFence (l : ControllerLifecycle) : option ControllerMetadataTransferFence :=
  match MetadataTransferGeneration l with
  | None => None
  | Some transferGeneration =>
      Some {| mf_TransportGeneration := generation (core l); mf_TransferGeneration := transferGeneration |}
  end.

Definition currentAction (l : ControllerLifecycle) : option ControllerLifecycleAction :=
  Action (actionCursor (slot l)) (decision (transition (slot l))).

Record ControllerLifecycleSnapshot := {
  sn_State : ControllerLifecycleState; sn_Generation : Z; sn_MetadataTransferGeneration : Z;
  sn_PendingTransition : bool; sn_TransitionEpoch : Z; sn_ActionCursor : Z; sn_ActionCount : Z;
  sn_CurrentAction : option ControllerLifecycleAction; sn_ClaimOutstanding : bool; sn_ClaimAdmitted : bool;
  sn_RetryPending : bool;
}.

Definition Snapshot (l : ControllerLifecycle) : ControllerLifecycleSnapshot := {|
  sn_State := state (core l); sn_Generation := generation (core l);
  sn_MetadataTransferGeneration := metadataTransferGeneration (core l);
  sn_PendingTransition := pendingTransition (slot l); sn_TransitionEpoch := transitionEpoch (slot l);
  sn_ActionCursor := actionCursor (slot l);
  sn_ActionCount := if pendingTransition (slot l) then Len (decision (transition (slot l))) else 0;
  sn_CurrentAction := if pendingTransition (slot l) then currentAction l else None;
  sn_ClaimOutstanding := hasClaim (slot l); sn_ClaimAdmitted := claimAdmitted (slot l);
  sn_RetryPending := retryPending (slot l) |}.

(** ** Guards *)

Definition validateInitialized (l : ControllerLifecycle) : option gip_err :=
  if bool_decide (state (core l) = ControllerLifecycleUninitialized) || (generation (core l) =? 0)
  then Some ErrUninitializedLifecycle else None.

Definition validateClock (nowMS : Z) (l : ControllerLifecycle) : option gip_err :=
  if nowMS <? lastNowMS l then Some ErrNonMonotonicLifecycleClock else None.

Definition validateNoTransition (nowMS : Z) (l : ControllerLifecycle) : option gip_err :=
  match validateInitialized l with
  | Some e => Some e
  | None =>
      match validateClock nowMS l with
      | Some e => Some e
      | None => if pendingTransition (slot l) then Some ErrLifecycleTransitionPending else None
      end
  end.

Definition saturatingLifecycleDeadline (nowMS deltaMS : Z) : Z :=
  if MaxUint64 - nowMS <? deltaMS then MaxUint64 else nowMS + deltaMS.

Definition nextClaimToken (l : ControllerLifecycle) : Z :=
  let token := u64 (nextToken l + 1) in if token =? 0 then u64 (token + 1) else token.

(** ** Claims on actions *)

Section Object.
(** The address of the lifecycle, which its claims carry. *)
Context (self : Z).

Definition claimCurrentAction (nowMS : Z) (preserveSelectionTime : bool) (l : ControllerLifecycle) :
    ControllerLifecycle * ControllerLifecycleClaim :=
  let s := slot l in
  let selected := if preserveSelectionTime then actionSelectedAtMS s else nowMS in
  let token := nextClaimToken l in
  let action := currentAction l in
  let metadataGeneration := if bool_decide (action = Some ControllerLifecycleBeginMetadata)
                            then metadataTransferGeneration (target (transition s)) else 0 in
  (set_slot {| pendingTransition := pendingTransition s; transitionEpoch := transitionEpoch s;
               transition := transition s; actionCursor := actionCursor s; actionSelectedAtMS := selected;
               retryPending := retryPending s; hasClaim := true; claimAdmitted := false; claimToken := token |}
     (set_now nowMS (set_counters (nextTransitionEpoch l) (nextMetadataTransferGeneration l) token l)),
   {| lc_owner := Some self; lc_token := token; lc_generation := generation (core l);
      lc_transitionEpoch := transitionEpoch s; lc_metadataTransferGeneration := metadataGeneration;
      lc_action := action; lc_cursor := actionCursor s; lc_totalActions := Len (decision (transition s));
      lc_selectedAtMS := selected |}).

Definition beginTransition (t : controllerLifecycleTransition) (nowMS : Z) (l : ControllerLifecycle) :
    ControllerLifecycle * gres ControllerLifecycleClaim :=
  let metadata := bool_decide (Action 0 (decision t) = Some ControllerLifecycleBeginMetadata) in
  if metadata && ((nextMetadataTransferGeneration l =? MaxUint64) ||
                  negb (metadataTransferGeneration (target t) =? u64 (nextMetadataTransferGeneration l + 1)))
  then (l, Err ErrInvalidTransferGeneration)
  else
    let metadataReservation := if metadata then metadataTransferGeneration (target t) else 0 in
    if nextTransitionEpoch l =? MaxUint64 then (l, Err ErrInvalidTransferEpoch)
    else
      let epoch := u64 (nextTransitionEpoch l + 1) in
      let l := set_counters epoch
                 (if negb (metadataReservation =? 0) then metadataReservation else nextMetadataTransferGeneration l)
                 (nextToken l) l in
      let l := set_slot {| pendingTransition := true; transitionEpoch := epoch; transition := t; actionCursor := 0;
                           actionSelectedAtMS := 0; retryPending := false; hasClaim := hasClaim (slot l);
                           claimAdmitted := claimAdmitted (slot l); claimToken := claimToken (slot l) |} l in
      let '(l, claim) := claimCurrentAction nowMS false l in (l, Ok claim).

Definition clearPendingTransition (l : ControllerLifecycle) : ControllerLifecycle := set_slot no_pending l.

(** ** What begins a transition *)

(** The boolean of the source is [Some]: a transition was due. *)
Definition ClaimPoll (nowMS : Z) (l : ControllerLifecycle) :
    ControllerLifecycle * gres (option ControllerLifecycleClaim) :=
  match validateNoTransition nowMS l with
  | Some e => (l, Err e)
  | None =>
      let c := core l in
      let begin_ t :=
        match beginTransition t nowMS l with
        | (l, Ok claim) => (l, Ok (Some claim))
        | (l, Err e) => (l, Err e)
        end in
      match state c with
      | ControllerLifecycleArrival =>
          if nowMS <? nextHelloMS c then (set_now nowMS l, Ok None)
          else begin_ (plan (lifecycleDecision1 ControllerLifecycleSendHello) c lifecycleHelloAfterDelivery)
      | ControllerLifecycleTerminatingOff =>
          if nowMS <? terminationMS c then (set_now nowMS l, Ok None)
          else begin_ (plan (lifecycleDecision1 ControllerLifecycleCompletePowerOff)
                         (with_termination 0 (with_state ControllerLifecycleOff c)) lifecycleNoDeadline)
      | ControllerLifecycleTerminatingReset =>
          if nowMS <? terminationMS c then (set_now nowMS l, Ok None)
          else begin_ (plan (lifecycleDecision1 ControllerLifecyclePerformReset)
                         (with_termination 0 (with_state ControllerLifecycleReset c)) lifecycleNoDeadline)
      | _ => (set_now nowMS l, Ok None)
      end
  end.

Definition metadataTransition (l : ControllerLifecycle) : gres controllerLifecycleTransition :=
  if nextMetadataTransferGeneration l =? MaxUint64 then Err ErrInvalidTransferGeneration
  else Ok (plan (lifecycleDecision1 ControllerLifecycleBeginMetadata)
             (with_hello 0 (with_state ControllerLifecycleMetadata
                (with_generations (generation (core l)) (u64 (nextMetadataTransferGeneration l + 1)) (core l))))
             lifecycleNoDeadline).

Definition startTransition (l : ControllerLifecycle) : controllerLifecycleTransition :=
  plan (lifecycleDecision3 ControllerLifecycleSendCurrentStatus ControllerLifecycleSendInitialInput
          ControllerLifecyclePermitNormalUpstream)
    (with_hello 0 (with_state ControllerLifecycleActive (core l))) lifecycleNoDeadline.

Definition terminationTransition (st : Z) (l : ControllerLifecycle) : controllerLifecycleTransition :=
  plan (lifecycleDecision3 ControllerLifecycleGateNormalUpstream ControllerLifecycleClearOutputs
          ControllerLifecycleSendPoweringOffStatus)
    (with_hello 0 (with_state (if st =? SetDeviceStateOff then ControllerLifecycleTerminatingOff
                               else ControllerLifecycleTerminatingReset) (core l)))
    lifecycleTerminationAfterDelivery.

Definition select_metadata (l : ControllerLifecycle) : gres (option controllerLifecycleTransition) :=
  let? t := metadataTransition l in Ok (Some t).

Definition selectHostCommand (command : ControllerHostCommand) (l : ControllerLifecycle) :
    gres (option controllerLifecycleTransition) :=
  let c := core l in
  let st := hc_State command in
  let terminate := (st =? SetDeviceStateOff) || (st =? SetDeviceStateReset) in
  match hc_Kind command with
  | ControllerHostCommandExtendedSetDeviceStateInitialization =>
      match state c with
      | ControllerLifecycleArrival | ControllerLifecycleMetadata | ControllerLifecycleIdle => Ok None
      | _ => Err ErrUnexpectedLifecycleCommand
      end
  | ControllerHostCommandSecurityDataComplete =>
      match state c with ControllerLifecycleActive => Ok None | _ => Err ErrUnexpectedLifecycleCommand end
  | kind =>
      match state c, kind with
      | ControllerLifecycleTerminatingOff, ControllerHostCommandSetDeviceState =>
          if (st =? SetDeviceStateOff) || (st =? SetDeviceStateStop) || (st =? SetDeviceStateReset)
          then Ok (Some (plan (lifecycleDecision1 ControllerLifecycleCompletePowerOff)
                           (with_termination 0 (with_state ControllerLifecycleOff c)) lifecycleNoDeadline))
          else Err ErrUnexpectedLifecycleCommand
      | ControllerLifecycleTerminatingReset, ControllerHostCommandSetDeviceState =>
          if (st =? SetDeviceStateOff) || (st =? SetDeviceStateStop) || (st =? SetDeviceStateReset)
          then Ok (Some (plan (lifecycleDecision1 ControllerLifecyclePerformReset)
                           (with_termination 0 (with_state ControllerLifecycleReset c)) lifecycleNoDeadline))
          else Err ErrUnexpectedLifecycleCommand
      | ControllerLifecycleArrival, ControllerHostCommandMetadataRequest
      | ControllerLifecycleMetadata, ControllerHostCommandMetadataRequest
      | ControllerLifecycleIdle, ControllerHostCommandMetadataRequest => select_metadata l
      | ControllerLifecycleArrival, ControllerHostCommandSetDeviceState
      | ControllerLifecycleIdle, ControllerHostCommandSetDeviceState =>
          if st =? SetDeviceStateStart then Ok (Some (startTransition l))
          else if terminate then Ok (Some (terminationTransition st l))
          else Err ErrUnexpectedLifecycleCommand
      | ControllerLifecycleMetadata, ControllerHostCommandSetDeviceState =>
          if terminate then Ok (Some (terminationTransition st l)) else Err ErrUnexpectedLifecycleCommand
      | ControllerLifecycleActive, ControllerHostCommandSetDeviceState =>
          if st =? SetDeviceStateStop
          then Ok (Some (plan (lifecycleDecision2 ControllerLifecycleGateNormalUpstream ControllerLifecycleClearOutputs)
                           (with_state ControllerLifecycleIdle c) lifecycleNoDeadline))
          else if st =? SetDeviceStateFullPower then Ok None
          else if st =? SetDeviceStateQuiesce
          then Ok (Some (plan (lifecycleDecision1 ControllerLifecycleClearOutputs) c lifecycleNoDeadline))
          else if terminate then Ok (Some (terminationTransition st l))
          else Err ErrUnexpectedLifecycleCommand
      | ControllerLifecycleUninitialized, _ => Err ErrUninitializedLifecycle
      | _, _ => Err ErrUnexpectedLifecycleCommand
      end
  end.

Definition ClaimHostCommand (nowMS : Z) (command : ControllerHostCommand) (l : ControllerLifecycle) :
    ControllerLifecycle * gres (option ControllerLifecycleClaim) :=
  match ControllerHostCommand_validate command with
  | Some e => (l, Err e)
  | None =>
      match validateNoTransition nowMS l with
      | Some e => (l, Err e)
      | None =>
          match selectHostCommand command l with
          | Err e => (l, Err e)
          | Ok None => (set_now nowMS l, Ok None)
          | Ok (Some t) =>
              match beginTransition t nowMS l with
              | (l, Ok claim) => (l, Ok (Some claim))
              | (l, Err e) => (l, Err e)
              end
          end
      end
  end.

Definition ClaimHostWire (nowMS : Z) (wire : list Z) (l : ControllerLifecycle) :
    ControllerLifecycle * gres (option ControllerLifecycleClaim) :=
  match DecodeControllerHostCommand wire with
  | Err e => (l, Err e)
  | Ok command => ClaimHostCommand nowMS command l
  end.

(** The two metadata callbacks share their guards. *)
Definition metadata_fence_error (nowMS : Z) (fence : ControllerMetadataTransferFence) (l : ControllerLifecycle) :
    option gip_err :=
  match validateNoTransition nowMS l with
  | Some e => Some e
  | None =>
      if negb (bool_decide (state (core l) = ControllerLifecycleMetadata)) then Some ErrUnexpectedLifecycleCommand
      else if (mf_TransportGeneration fence =? 0) || (mf_TransferGeneration fence =? 0) ||
              negb (mf_TransportGeneration fence =? generation (core l)) ||
              negb (mf_TransferGeneration fence =? metadataTransferGeneration (core l))
      then Some ErrInvalidTransferGeneration
      else None
  end.

Definition MetadataTransferSucceeded (nowMS : Z) (fence : ControllerMetadataTransferFence) (l : ControllerLifecycle) :
    ControllerLifecycle * option gip_err :=
  match metadata_fence_error nowMS fence l with
  | Some e => (l, Some e)
  | None => (set_core (with_state ControllerLifecycleIdle (core l)) (set_now nowMS l), None)
  end.

Definition ClaimMetadataTransferFailed (nowMS : Z) (fence : ControllerMetadataTransferFence)
    (l : ControllerLifecycle) : ControllerLifecycle * gres ControllerLifecycleClaim :=
  match metadata_fence_error nowMS fence l with
  | Some e => (l, Err e)
  | None =>
      beginTransition
        (plan (lifecycleDecision1 ControllerLifecycleSendHello)
           (with_termination 0 (with_state ControllerLifecycleArrival (core l))) lifecycleHelloAfterDelivery) nowMS l
  end.

Definition ClaimRestartAfterUSBReset (nowMS : Z) (l : ControllerLifecycle) :
    ControllerLifecycle * gres ControllerLifecycleClaim :=
  match validateInitialized l with
  | Some e => (l, Err e)
  | None =>
      match validateClock nowMS l with
      | Some e => (l, Err e)
      | None =>
          if hasClaim (slot l) && claimAdmitted (slot l) then (l, Err ErrLifecycleClaimOutstanding)
          else if generation (core l) =? MaxUint64 then (l, Err ErrInvalidTransferGeneration)
          else if nextTransitionEpoch l =? MaxUint64 then (l, Err ErrInvalidTransferEpoch)
          else
            let l := clearPendingTransition l in
            let c := core l in
            beginTransition
              (plan (lifecycleDecision3 ControllerLifecycleGateNormalUpstream ControllerLifecycleClearOutputs
                       ControllerLifecycleSendHello)
                 (with_termination 0 (with_generations (u64 (generation c + 1)) (metadataTransferGeneration c)
                    (with_state ControllerLifecycleArrival c))) lifecycleHelloAfterDelivery) nowMS l
      end
  end.

(** ** Working through a transition *)

Definition ClaimNextAction (nowMS : Z) (l : ControllerLifecycle) :
    ControllerLifecycle * gres ControllerLifecycleClaim :=
  match validateInitialized l with
  | Some e => (l, Err e)
  | None =>
      match validateClock nowMS l with
      | Some e => (l, Err e)
      | None =>
          if negb (pendingTransition (slot l)) then (l, Err ErrLifecycleNoPendingAction)
          else if hasClaim (slot l) then (l, Err ErrLifecycleClaimOutstanding)
          else if retryPending (slot l) then (l, Err ErrLifecycleRetryRequired)
          else let '(l, claim) := claimCurrentAction nowMS false l in (l, Ok claim)
      end
  end.

Definition set_retry (r : bool) (p : pending) : pending := {|
  pendingTransition := pendingTransition p; transitionEpoch := transitionEpoch p; transition := transition p;
  actionCursor := actionCursor p; actionSelectedAtMS := actionSelectedAtMS p; retryPending := r;
  hasClaim := hasClaim p; claimAdmitted := claimAdmitted p; claimToken := claimToken p |}.

Definition ClaimRetry (nowMS : Z) (l : ControllerLifecycle) :
    ControllerLifecycle * gres ControllerLifecycleClaim :=
  match validateInitialized l with
  | Some e => (l, Err e)
  | None =>
      match validateClock nowMS l with
      | Some e => (l, Err e)
      | None =>
          if negb (pendingTransition (slot l)) || negb (retryPending (slot l)) then (l, Err ErrLifecycleRetryRequired)
          else if hasClaim (slot l) then (l, Err ErrLifecycleClaimOutstanding)
          else
            let '(l, claim) := claimCurrentAction nowMS true l in
            (set_slot (set_retry false (slot l)) l, Ok claim)
      end
  end.

Definition validateClaim (claim : ControllerLifecycleClaim) (l : ControllerLifecycle) : option gip_err :=
  let s := slot l in
  if negb (pendingTransition s) || negb (hasClaim s) || negb (bool_decide (lc_owner claim = Some self)) ||
     (lc_token claim =? 0) || negb (lc_token claim =? claimToken s) ||
     negb (lc_generation claim =? generation (core l)) || negb (lc_transitionEpoch claim =? transitionEpoch s) ||
     negb (bool_decide (lc_action claim = currentAction l)) || negb (lc_cursor claim =? actionCursor s) ||
     negb (lc_totalActions claim =? Len (decision (transition s))) ||
     negb (lc_selectedAtMS claim =? actionSelectedAtMS s)
  then Some ErrInvalidLifecycleClaim
  else
    let metadataGeneration := if bool_decide (lc_action claim = Some ControllerLifecycleBeginMetadata)
                              then metadataTransferGeneration (target (transition s)) else 0 in
    if negb (lc_metadataTransferGeneration claim =? metadataGeneration) then Some ErrInvalidLifecycleClaim
    else None.

Definition Admit (claim : ControllerLifecycleClaim) (nowMS : Z) (l : ControllerLifecycle) :
    ControllerLifecycle * option gip_err :=
  match validateClaim claim l with
  | Some e => (l, Some e)
  | None =>
      if claimAdmitted (slot l) then (l, Some ErrInvalidLifecycleClaim)
      else
        match validateClock nowMS l with
        | Some e => (l, Some e)
        | None =>
            let s := slot l in
            (set_slot {| pendingTransition := pendingTransition s; transitionEpoch := transitionEpoch s;
                         transition := transition s; actionCursor := actionCursor s;
                         actionSelectedAtMS := actionSelectedAtMS s; retryPending := retryPending s;
                         hasClaim := hasClaim s; claimAdmitted := true; claimToken := claimToken s |}
               (set_now nowMS l), None)
        end
  end.

Definition commit_core (completedMS : Z) (t : controllerLifecycleTransition) : controllerLifecycleCore :=
  match deadline t with
  | lifecycleHelloAfterDelivery =>
      with_hello (saturatingLifecycleDeadline completedMS HelloIntervalMilliseconds) (target t)
  | lifecycleTerminationAfterDelivery =>
      with_termination (saturatingLifecycleDeadline completedMS PowerTransitionDelayMilliseconds) (target t)
  | lifecycleNoDeadline => target t
  end.

Definition release (s : pending) (cursor selected : Z) (retry : bool) : pending := {|
  pendingTransition := pendingTransition s; transitionEpoch := transitionEpoch s; transition := transition s;
  actionCursor := cursor; actionSelectedAtMS := selected; retryPending := retry; hasClaim := false;
  claimAdmitted := false; claimToken := 0 |}.

Definition Resolve (claim : ControllerLifecycleClaim) (outcome completedMS : Z) (l : ControllerLifecycle) :
    ControllerLifecycle * option gip_err :=
  match validateClaim claim l with
  | Some e => (l, Some e)
  | None =>
      if negb (outcome =? ControllerLifecycleDelivered) && negb (outcome =? ControllerLifecycleDeferred) &&
         negb (outcome =? ControllerLifecycleDeliveryFailed) &&
         negb (outcome =? ControllerLifecycleExecutionCancelled)
      then (l, Some ErrInvalidLifecycleOutcome)
      else if ((outcome =? ControllerLifecycleDelivered) || (outcome =? ControllerLifecycleExecutionCancelled)) &&
              negb (claimAdmitted (slot l))
      then (l, Some ErrLifecycleClaimNotAdmitted)
      else
        let completedMS := if completedMS <? lastNowMS l then lastNowMS l else completedMS in
        let l := set_now completedMS l in
        let s := slot l in
        if negb (outcome =? ControllerLifecycleDelivered) then
          (set_slot (release s (actionCursor s) (actionSelectedAtMS s) true) l, None)
        else if u8 (actionCursor s + 1) <? Len (decision (transition s)) then
          (set_slot (release s (u8 (actionCursor s + 1)) 0 false) l, None)
        else
          (clearPendingTransition (set_core (commit_core completedMS (transition s)) l), None)
  end.

(** ** Runs *)

(** Every operation of a lifecycle, with its caller's arguments. *)
Inductive op :=
| OpPoll (now : Z) | OpCommand (now : Z) (command : ControllerHostCommand) | OpWire (now : Z) (wire : list Z)
| OpSucceeded (now : Z) (fence : ControllerMetadataTransferFence)
| OpFailed (now : Z) (fence : ControllerMetadataTransferFence)
| OpReset (now : Z) | OpNext (now : Z) | OpRetry (now : Z)
| OpAdmit (claim : ControllerLifecycleClaim) (now : Z)
| OpResolve (claim : ControllerLifecycleClaim) (outcome now : Z).

(** The state after an operation and the claim it handed out. *)
Definition exec (o : op) (l : ControllerLifecycle) : ControllerLifecycle * option ControllerLifecycleClaim :=
  let some r := match r with Ok (Some c) => Some c | _ => None end in
  let one r := match r with Ok c => Some c | Err _ => None end in
  match o with
  | OpPoll now => let '(l, r) := ClaimPoll now l in (l, some r)
  | OpCommand now command => let '(l, r) := ClaimHostCommand now command l in (l, some r)
  | OpWire now wire => let '(l, r) := ClaimHostWire now wire l in (l, some r)
  | OpSucceeded now fence => (fst (MetadataTransferSucceeded now fence l), None)
  | OpFailed now fence => let '(l, r) := ClaimMetadataTransferFailed now fence l in (l, one r)
  | OpReset now => let '(l, r) := ClaimRestartAfterUSBReset now l in (l, one r)
  | OpNext now => let '(l, r) := ClaimNextAction now l in (l, one r)
  | OpRetry now => let '(l, r) := ClaimRetry now l in (l, one r)
  | OpAdmit claim now => (fst (Admit claim now l), None)
  | OpResolve claim outcome now => (fst (Resolve claim outcome now l), None)
  end.

(** The external effect of an operation: the action a delivery reports. *)
Definition effect (o : op) (l : ControllerLifecycle) : list ControllerLifecycleAction :=
  match o with
  | OpResolve claim outcome now =>
      if outcome =? ControllerLifecycleDelivered then
        match snd (Resolve claim outcome now l), lc_action claim with None, Some a => [a] | _, _ => [] end
      else []
  | _ => []
  end.

(** The lifecycle, the effects so far and the claims handed out so far. *)
Record history := {
  h_now : ControllerLifecycle; h_log : list ControllerLifecycleAction; h_claims : list ControllerLifecycleClaim;
}.

Definition hstep (h : history) (o : op) : history := {|
  h_now := fst (exec o (h_now h)); h_log := h_log h ++ effect o (h_now h);
  h_claims := h_claims h ++ option_list (snd (exec o (h_now h))) |}.

Definition run (now : Z) (ops : list op) : history :=
  fold_left hstep ops {| h_now := NewControllerLifecycle now; h_log := []; h_claims := [] |}.

End Object.

(** ** The state diagram

    What a plan may be: the states it leaves and enters and the actions it
    delivers, all of them or none of them as far as the state is concerned. *)
Definition hello_plan := [ControllerLifecycleSendHello].
Definition start_plan := [ControllerLifecycleSendCurrentStatus; ControllerLifecycleSendInitialInput;
  ControllerLifecyclePermitNormalUpstream].
Definition stop_plan := [ControllerLifecycleGateNormalUpstream; ControllerLifecycleClearOutputs].
Definition power_plan := [ControllerLifecycleGateNormalUpstream; ControllerLifecycleClearOutputs;
  ControllerLifecycleSendPoweringOffStatus].
Definition reset_plan := [ControllerLifecycleGateNormalUpstream; ControllerLifecycleClearOutputs;
  ControllerLifecycleSendHello].

Inductive diagram : ControllerLifecycleState -> list ControllerLifecycleAction -> ControllerLifecycleState -> Prop :=
| d_hello s : s = ControllerLifecycleArrival \/ s = ControllerLifecycleMetadata ->
    diagram s hello_plan ControllerLifecycleArrival
| d_metadata s : s = ControllerLifecycleArrival \/ s = ControllerLifecycleMetadata \/ s = ControllerLifecycleIdle ->
    diagram s [ControllerLifecycleBeginMetadata] ControllerLifecycleMetadata
| d_start s : s = ControllerLifecycleArrival \/ s = ControllerLifecycleIdle ->
    diagram s start_plan ControllerLifecycleActive
| d_stop : diagram ControllerLifecycleActive stop_plan ControllerLifecycleIdle
| d_quiesce : diagram ControllerLifecycleActive [ControllerLifecycleClearOutputs] ControllerLifecycleActive
| d_terminate s s' : s = ControllerLifecycleArrival \/ s = ControllerLifecycleMetadata \/
      s = ControllerLifecycleIdle \/ s = ControllerLifecycleActive ->
    s' = ControllerLifecycleTerminatingOff \/ s' = ControllerLifecycleTerminatingReset -> diagram s power_plan s'
| d_off : diagram ControllerLifecycleTerminatingOff [ControllerLifecycleCompletePowerOff] ControllerLifecycleOff
| d_reset : diagram ControllerLifecycleTerminatingReset [ControllerLifecyclePerformReset] ControllerLifecycleReset
| d_usb s : s <> ControllerLifecycleUninitialized -> diagram s reset_plan ControllerLifecycleArrival.

(** The effects the diagram allows: whole plans, and a plan cut short only
    by a USB reset, whose plan then follows.  [whole] tells the two apart. *)
Inductive allowed : bool -> ControllerLifecycleState -> list ControllerLifecycleAction -> Prop :=
| a_new : allowed true ControllerLifecycleArrival []
| a_idle log : allowed true ControllerLifecycleMetadata log -> allowed true ControllerLifecycleIdle log
| a_plan whole s log acts s' : allowed whole s log -> diagram s acts s' -> whole = true \/ acts = reset_plan ->
    allowed true s' (log ++ acts)
| a_cut whole s log acts s' k : allowed whole s log -> diagram s acts s' -> whole = true \/ acts = reset_plan ->
    (k < length acts)%nat -> allowed false s (log ++ firstn k acts).

(** ** The invariant *)

Record linv (l : ControllerLifecycle) (log : list ControllerLifecycleAction) : Prop := {
  li_state : state (core l) <> ControllerLifecycleUninitialized;
  li_generation : 1 <= generation (core l) <= MaxUint64;
  li_epoch : 0 <= nextTransitionEpoch l <= MaxUint64;
  li_metadata : 0 <= nextMetadataTransferGeneration l <= MaxUint64;
  li_idle : pendingTransition (slot l) = false -> slot l = no_pending /\ allowed true (state (core l)) log /\
    (state (core l) = ControllerLifecycleMetadata ->
     metadataTransferGeneration (core l) = nextMetadataTransferGeneration l);
  li_pending : pendingTransition (slot l) = true -> transitionEpoch (slot l) = nextTransitionEpoch l /\
    0 < transitionEpoch (slot l) /\
    (0 <= actionCursor (slot l) < Len (decision (transition (slot l)))) /\
    1 <= generation (target (transition (slot l))) <= MaxUint64 /\
    (state (target (transition (slot l))) = ControllerLifecycleMetadata ->
     metadataTransferGeneration (target (transition (slot l))) = nextMetadataTransferGeneration l) /\
    (hasClaim (slot l) = false -> claimAdmitted (slot l) = false) /\
    exists whole log0, allowed whole (state (core l)) log0 /\
      diagram (state (core l)) (actions (decision (transition (slot l)))) (state (target (transition (slot l)))) /\
      (whole = true \/ actions (decision (transition (slot l))) = reset_plan) /\
      log = log0 ++ firstn (Z.to_nat (actionCursor (slot l))) (actions (decision (transition (slot l))));
}.

(** Operations that leave the plan, its cursor and the counters alone. *)
Definition same_plan (l l' : ControllerLifecycle) : Prop :=
  core l' = core l /\ nextTransitionEpoch l' = nextTransitionEpoch l /\
  nextMetadataTransferGeneration l' = nextMetadataTransferGeneration l /\
  pendingTransition (slot l') = pendingTransition (slot l) /\ transitionEpoch (slot l') = transitionEpoch (slot l) /\
  transition (slot l') = transition (slot l) /\ actionCursor (slot l') = actionCursor (slot l).

Lemma linv_same l l' log : same_plan l l' -> (pendingTransition (slot l) = false -> slot l' = slot l) ->
  (hasClaim (slot l') = false -> claimAdmitted (slot l') = false) -> linv l log -> linv l' log.
Proof.
  intros (E1 & E2 & E3 & E4 & E5 & E6 & E7) Hn Hc [I1 I2 I3 I4 I5 I6].
  split; rewrite ?E1, ?E2, ?E3, ?E4, ?E5, ?E6, ?E7; try done.
  - intros Hp. rewrite (Hn Hp). by apply I5.
  - intros Hp. destruct (I6 Hp) as (J1 & J2 & J3 & J4 & J5 & _ & J7). tauto.
Qed.

Lemma linv_now now l log : linv l log -> linv (set_now now l) log.
Proof.
  intros I. pose proof I as [_ _ _ _ I5 I6]. apply (linv_same l); try done. intros H. cbn in *.
  destruct (pendingTransition (slot l)) eqn:E; [by apply (I6 eq_refl)|]. by rewrite (proj1 (I5 eq_refl)).
Qed.

(** A state whose effects the diagram allows, and the plans it may begin. *)
Definition open_for (l : ControllerLifecycle) (log : list ControllerLifecycleAction)
    (acts : list ControllerLifecycleAction) : Prop :=
  exists whole, allowed whole (state (core l)) log /\ (whole = true \/ acts = reset_plan).

Lemma claim_current_inv self now keep l log : linv l log -> pendingTransition (slot l) = true ->
  linv (fst (claimCurrentAction self now keep l)) log.
Proof. intros I Hp. apply (linv_same l); try done. by rewrite Hp. Qed.

Lemma action_first d a rest : actions d = a :: rest -> Action 0 d = Some a.
Proof. intros E. unfold Action, Len. rewrite E, (proj2 (Z.leb_gt _ _)) by (cbn [length]; lia). done. Qed.

(** The counter after a plan begins: a metadata plan has reserved the next generation. *)
Lemma reserve_metadata s t n :
  let metadata := bool_decide (Action 0 (decision t) = Some ControllerLifecycleBeginMetadata) in
  let reserved := if metadata then metadataTransferGeneration (target t) else 0 in
  diagram s (actions (decision t)) (state (target t)) -> 0 <= n <= MaxUint64 ->
  metadata && ((n =? MaxUint64) || negb (metadataTransferGeneration (target t) =? u64 (n + 1))) = false ->
  (state (target t) = ControllerLifecycleMetadata ->
   metadataTransferGeneration (target t) = (if negb (reserved =? 0) then reserved else n) /\
   n < if negb (reserved =? 0) then reserved else n) /\
  n <= (if negb (reserved =? 0) then reserved else n) <= MaxUint64.
Proof.
  cbv zeta. intros Hd Hn. destruct (bool_decide _) eqn:Em; cbn [andb]; intros Hc.
  - bool_prop. assert (E : metadataTransferGeneration (target t) = n + 1).
    { rewrite <-(u64_id (n + 1)); [done|unfold MaxUint64 in *; lia]. }
    rewrite E, (proj2 (Z.eqb_neq (n + 1) 0)) by lia. cbn. unfold MaxUint64 in *. lia.
  - cbn. split; [|lia]. intros Hs. inversion Hd; try (intuition congruence).
    apply bool_decide_eq_false in Em. destruct Em. by eapply action_first.
Qed.

(** What beginning a plan needs of the state it begins in. *)
Record lbase (l : ControllerLifecycle) : Prop := {
  lb_state : state (core l) <> ControllerLifecycleUninitialized;
  lb_generation : 1 <= generation (core l) <= MaxUint64;
  lb_epoch : 0 <= nextTransitionEpoch l <= MaxUint64;
  lb_metadata : 0 <= nextMetadataTransferGeneration l <= MaxUint64;
  lb_claim : hasClaim (slot l) = false -> claimAdmitted (slot l) = false;
}.

Lemma linv_base l log : linv l log -> lbase l.
Proof.
  intros [I1 I2 I3 I4 I5 I6]. split; try done.
  destruct (pendingTransition (slot l)) eqn:E; [by apply (I6 eq_refl)|]. by rewrite (proj1 (I5 eq_refl)).
Qed.

Lemma begin_inv self t now l log : lbase l -> open_for l log (actions (decision t)) ->
  diagram (state (core l)) (actions (decision t)) (state (target t)) ->
  1 <= generation (target t) <= MaxUint64 ->
  match beginTransition self t now l with
  | (l', Ok _) => linv l' log
  | (l', Err _) => l' = l
  end.
Proof.
  intros [I1 I2 I3 I4 I5] Ho Hd Hg. unfold beginTransition. cbv zeta.
  case_if; [done|]. destruct (Z.eqb_spec (nextTransitionEpoch l) MaxUint64) as [E|E]; [done|].
  assert (Hu : u64 (nextTransitionEpoch l + 1) = nextTransitionEpoch l + 1).
  { apply u64_id. unfold MaxUint64 in *. lia. }
  rewrite Hu. destruct (claimCurrentAction self now false _) as [l' claim] eqn:Ec. cbn [fst].
  replace l' with (fst (l', claim)) by done. rewrite <-Ec. apply claim_current_inv; [|done].
  destruct (reserve_metadata _ t _ Hd I4 Hb) as [Hm1 Hm2]. set (reserved := if bool_decide _ then _ else 0) in *. clear Ec.
  assert (Hl : 0 < Len (decision t)) by (unfold Len; destruct Hd; cbn; lia).
  split; cbn [core slot set_slot set_counters nextTransitionEpoch nextMetadataTransferGeneration]; try done.
  - lia.
  - lia.
  - cbn. destruct Ho as (whole & Ho1 & Ho2). repeat split; try done; try lia; [intros Hs; by apply Hm1|].
    exists whole, log. by rewrite firstn_O, app_nil_r.
Qed.

(** ** The invariant is kept *)

Lemma no_transition now l log : linv l log -> validateNoTransition now l = None ->
  pendingTransition (slot l) = false /\ allowed true (state (core l)) log.
Proof.
  intros [I1 I2 I3 I4 I5 I6] H. unfold validateNoTransition in H. destruct (validateInitialized l); [done|].
  destruct (validateClock now l); [done|]. destruct (pendingTransition (slot l)) eqn:E; [done|].
  split; [done|]. by apply I5.
Qed.

Lemma begin_idle self t now l log : linv l log -> allowed true (state (core l)) log ->
  diagram (state (core l)) (actions (decision t)) (state (target t)) ->
  generation (target t) = generation (core l) -> linv (fst (beginTransition self t now l)) log.
Proof.
  intros I Ha Hd Hg. pose proof (begin_inv self t now l log (linv_base _ _ I)) as H.
  destruct (beginTransition self t now l) as [l' [c|e]]; cbn [fst].
  - apply H; [|done|rewrite Hg; apply I]. exists true. tauto.
  - rewrite H; [done| |done|rewrite Hg; apply I]. exists true. tauto.
Qed.

Lemma poll_inv self now l log : linv l log -> linv (fst (ClaimPoll self now l)) log.
Proof.
  intros I. unfold ClaimPoll. destruct (validateNoTransition now l) eqn:Hv; [done|].
  destruct (no_transition _ _ _ I Hv) as [Hp Ha]. cbv zeta.
  destruct (state (core l)) eqn:Es; try (apply linv_now, I); (case_if; [apply linv_now, I|]);
    match goal with |- context [beginTransition self ?t now l] =>
      assert (Hbeg : linv (fst (beginTransition self t now l)) log)
        by (apply begin_idle; cbn; rewrite ?Es; try done; constructor; auto);
      by destruct (beginTransition self t now l) as [l' [c|e]] end.
Qed.

Lemma select_diagram command l t : selectHostCommand command l = Ok (Some t) ->
  diagram (state (core l)) (actions (decision t)) (state (target t)) /\ generation (target t) = generation (core l).
Proof.
  unfold selectHostCommand, select_metadata, metadataTransition. cbv zeta. intros H.
  destruct (hc_Kind command), (state (core l)) eqn:Es; try done;
    repeat (case_if_in H; try done); cbn in H; try (case_if_in H; try done); injection H as <-; cbn;
    (split; [|done]); rewrite ?Es; solve [constructor; auto 6 |
      apply d_terminate; [auto 6|]; destruct (hc_State command =? SetDeviceStateOff); auto].
Qed.

Lemma command_inv self now command l log : linv l log -> linv (fst (ClaimHostCommand self now command l)) log.
Proof.
  intros I. unfold ClaimHostCommand. destruct (ControllerHostCommand_validate command); [done|].
  destruct (validateNoTransition now l) eqn:Hv; [done|]. destruct (no_transition _ _ _ I Hv) as [Hp Ha].
  destruct (selectHostCommand command l) as [[t|]|] eqn:Es; [|by apply linv_now|done].
  apply select_diagram in Es as [Hd Hg]. pose proof (begin_idle self t now l log I Ha Hd Hg) as Hb.
  by destruct (beginTransition self t now l) as [l' [c|e]].
Qed.

Lemma fence_accepted now fence l log : linv l log -> metadata_fence_error now fence l = None ->
  pendingTransition (slot l) = false /\ state (core l) = ControllerLifecycleMetadata /\
  allowed true ControllerLifecycleMetadata log /\ mf_TransportGeneration fence = generation (core l) /\
  mf_TransferGeneration fence = nextMetadataTransferGeneration l.
Proof.
  intros I H. unfold metadata_fence_error in H. destruct (validateNoTransition now l) eqn:Hv; [done|].
  destruct (no_transition _ _ _ I Hv) as [Hp Ha]. case_if_in H; [done|]. case_if_in H; [done|]. bool_prop. bdec.
  destruct (li_idle _ _ I Hp) as (_ & _ & Hm). rewrite Hb in *. rewrite <-(Hm eq_refl). done.
Qed.

Lemma succeeded_inv now fence l log : linv l log -> linv (fst (MetadataTransferSucceeded now fence l)) log.
Proof.
  intros I. unfold MetadataTransferSucceeded. destruct (metadata_fence_error now fence l) eqn:Hf; [done|].
  destruct (fence_accepted _ _ _ _ I Hf) as (Hp & Hs & Ha & _). pose proof I as [I1 I2 I3 I4 I5 I6].
  split; cbn; try done.
  - intros _. destruct (I5 Hp) as (-> & _). split; [done|]. split; [by apply a_idle|done].
  - by rewrite Hp.
Qed.

Lemma failed_inv self now fence l log : linv l log -> linv (fst (ClaimMetadataTransferFailed self now fence l)) log.
Proof.
  intros I. unfold ClaimMetadataTransferFailed. destruct (metadata_fence_error now fence l) eqn:Hf; [done|].
  destruct (fence_accepted _ _ _ _ I Hf) as (Hp & Hs & Ha & _).
  apply begin_idle; cbn; rewrite ?Hs; try done. constructor. auto.
Qed.

(** What has been delivered of a pending plan is allowed when the plan is cut. *)
Lemma cut_allowed l log : linv l log -> open_for l log reset_plan.
Proof.
  intros [I1 I2 I3 I4 I5 I6]. destruct (pendingTransition (slot l)) eqn:Hp.
  - destruct (I6 eq_refl) as (_ & _ & Hc & _ & _ & _ & whole & log0 & Ha & Hd & Hw & ->).
    exists false. split; [|by right]. eapply a_cut; [done|done|done|]. unfold Len in *. lia.
  - exists true. split; [by apply I5|by left].
Qed.

Lemma reset_inv self now l log : linv l log -> linv (fst (ClaimRestartAfterUSBReset self now l)) log.
Proof.
  intros I. unfold ClaimRestartAfterUSBReset. destruct (validateInitialized l); [done|].
  destruct (validateClock now l); [done|]. case_if; [done|]. case_if; [done|]. case_if; [done|]. cbv zeta.
  pose proof I as [I1 I2 I3 I4 _ _].
  match goal with |- context [beginTransition self ?t now ?l0] => pose proof (begin_inv self t now l0 log) as H;
    assert (Hok : exists p, beginTransition self t now l0 = p /\ match snd p with Ok _ => True | Err _ => False end) end.
  { eexists. split; [reflexivity|]. unfold beginTransition. cbv zeta. rewrite bool_decide_false by done. cbn [andb].
    rewrite (proj2 (Z.eqb_neq _ _)) by done. by destruct (claimCurrentAction _ _ _ _). }
  destruct Hok as ([l' [c|e]] & Hok & Hr); [|done]. rewrite Hok in *. apply H; cbn; try done.
  - exact (cut_allowed l log I).
  - by apply d_usb.
  - rewrite u64_id; unfold MaxUint64 in *; lia.
Qed.

Lemma next_inv self now l log : linv l log -> linv (fst (ClaimNextAction self now l)) log.
Proof.
  intros I. unfold ClaimNextAction. destruct (validateInitialized l); [done|]. destruct (validateClock now l); [done|].
  repeat (case_if; [done|]). pose proof (claim_current_inv self now false l log I) as H.
  bool_prop. destruct (claimCurrentAction self now false l). by apply H.
Qed.

Lemma retry_inv self now l log : linv l log -> linv (fst (ClaimRetry self now l)) log.
Proof.
  intros I. unfold ClaimRetry. destruct (validateInitialized l); [done|]. destruct (validateClock now l); [done|].
  repeat (case_if; [done|]). bool_prop. apply (linv_same l); try done. by rewrite H.
Qed.

(** An accepted claim names the pending plan and its cursor. *)
Lemma claim_valid self claim l : validateClaim self claim l = None ->
  pendingTransition (slot l) = true /\ hasClaim (slot l) = true /\ lc_transitionEpoch claim = transitionEpoch (slot l) /\
  lc_action claim = currentAction l /\ lc_cursor claim = actionCursor (slot l) /\ lc_token claim = claimToken (slot l) /\
  lc_token claim <> 0.
Proof.
  unfold validateClaim. cbv zeta. case_if; [done|]. intros _. bool_prop. bdec. done.
Qed.

Lemma lifecycle_admit_inv self claim now l log : linv l log -> linv (fst (Admit self claim now l)) log.
Proof.
  intros I. unfold Admit. destruct (validateClaim self claim l) eqn:Hv; [done|]. apply claim_valid in Hv as (Hp & Hc & _).
  case_if; [done|]. destruct (validateClock now l); [done|]. apply (linv_same l); try done; cbn; rewrite ?Hp, ?Hc; done.
Qed.


Lemma commit_core_keeps now t : state (commit_core now t) = state (target t) /\
  generation (commit_core now t) = generation (target t) /\
  metadataTransferGeneration (commit_core now t) = metadataTransferGeneration (target t).
Proof. unfold commit_core. by destruct (deadline t). Qed.

Lemma diagram_short s acts s' : diagram s acts s' -> (1 <= length acts <= 3)%nat.
Proof. intros []; cbn; lia. Qed.

Lemma lifecycle_resolve_inv self claim outcome now l log : linv l log ->
  linv (fst (Resolve self claim outcome now l)) (log ++ effect self (OpResolve claim outcome now) l).
Proof.
  intros I. cbn [effect]. unfold Resolve. destruct (validateClaim self claim l) eqn:Hv.
  { cbn. case_if; by rewrite app_nil_r. }
  destruct (claim_valid _ _ _ Hv) as (Hp & Hc & He & Ha & Hcu & _). rewrite Ha.
  case_if; [cbn; case_if; by rewrite app_nil_r|]. case_if; [cbn; case_if; by rewrite app_nil_r|]. cbv zeta.
  set (now' := if now <? lastNowMS l then _ else _). pose proof I as [I1 I2 I3 I4 I5 I6].
  destruct (I6 Hp) as (J1 & J2 & J3 & J4 & J5 & J6 & whole & log0 & J7 & J8 & J9 & J10).
  cbn [slot set_now]. destruct (outcome =? ControllerLifecycleDelivered); cbn [negb].
  2:{ cbn [fst]. rewrite app_nil_r. apply (linv_same l); try done. cbn. by rewrite Hp. }
  pose proof (diagram_short _ _ _ J8) as Hlen. unfold Len in J3.
  destruct (lookup_lt_is_Some_2 (actions (decision (transition (slot l)))) (Z.to_nat (actionCursor (slot l))) ltac:(lia)) as [a Hl].
  assert (Hcur : currentAction l = Some a).
  { unfold currentAction, Action, Len. case_if; [|done]. bool_prop. lia. }
  rewrite Hcur. rewrite (u8_id (actionCursor (slot l) + 1)) by lia.
  assert (Hlog : log ++ [a] = log0 ++ firstn (Z.to_nat (actionCursor (slot l) + 1)) (actions (decision (transition (slot l))))).
  { rewrite J10, <-app_assoc. f_equal. replace (Z.to_nat (actionCursor (slot l) + 1)) with (S (Z.to_nat (actionCursor (slot l)))) by lia.
    symmetry. by apply take_S_r. }
  destruct (Z.ltb_spec (actionCursor (slot l) + 1) (Len (decision (transition (slot l))))) as [Hm|Hm]; cbn [fst snd];
    rewrite Hlog; unfold Len in Hm.
  - split; cbn; try done; [by rewrite Hp|]. intros _. unfold Len.
    repeat split; try done; try lia. by exists whole, log0.
  - destruct (commit_core_keeps now' (transition (slot l))) as (C1 & C2 & C3).
    rewrite firstn_all2 by lia. split; cbn; rewrite ?C1, ?C2, ?C3; try done.
    + destruct J8; try done. destruct H0; congruence.
    + intros _. split; [done|]. split; [|done]. by eapply a_plan.
Qed.

Lemma exec_inv self o l log : linv l log -> linv (fst (exec self o l)) (log ++ effect self o l).
Proof.
  intros I. destruct o as [now|now command|now wire|now fence|now fence|now|now|now|claim now|claim outcome now];
    [..|exact (lifecycle_resolve_inv self claim outcome now l log I)]; cbn [effect]; rewrite app_nil_r.
  - pose proof (poll_inv self now l log I) as H. cbn. by destruct (ClaimPoll self now l).
  - pose proof (command_inv self now command l log I) as H. cbn. by destruct (ClaimHostCommand self now command l).
  - cbn. unfold ClaimHostWire. destruct (DecodeControllerHostCommand wire) as [command|]; [|done].
    pose proof (command_inv self now command l log I) as H. by destruct (ClaimHostCommand self now command l).
  - by apply succeeded_inv.
  - pose proof (failed_inv self now fence l log I) as H. cbn. by destruct (ClaimMetadataTransferFailed self now fence l).
  - pose proof (reset_inv self now l log I) as H. cbn. by destruct (ClaimRestartAfterUSBReset self now l).
  - pose proof (next_inv self now l log I) as H. cbn. by destruct (ClaimNextAction self now l).
  - pose proof (retry_inv self now l log I) as H. cbn. by destruct (ClaimRetry self now l).
  - by apply lifecycle_admit_inv.
Qed.

Lemma lifecycle_run_inv self now ops : linv (h_now (run self now ops)) (h_log (run self now ops)).
Proof.
  unfold run. induction ops as [|o ops IH] using rev_ind.
  - split; try done; cbn; [unfold MaxUint64; lia..|]. intros _. split; [done|]. split; [constructor|done].
  - rewrite fold_left_app. cbn [fold_left hstep h_now h_log]. by apply exec_inv.
Qed.

(** ** What the effects mean *)

(** Whether normal upstream traffic is open after a sequence of effects, and
    whether outputs may be set. *)
Definition upstream_open (log : list ControllerLifecycleAction) : bool :=
  fold_left (fun b a => match a with
    | ControllerLifecyclePermitNormalUpstream => true
    | ControllerLifecycleGateNormalUpstream => false
    | _ => b end) log false.
Definition outputs_set (log : list ControllerLifecycleAction) : bool :=
  fold_left (fun b a => match a with
    | ControllerLifecyclePermitNormalUpstream => true
    | ControllerLifecycleClearOutputs => false
    | _ => b end) log false.

(** Every [a] of the log comes right after [before]. *)
Definition preceded (a : ControllerLifecycleAction) (before log : list ControllerLifecycleAction) : Prop :=
  forall l1 l2, log = l1 ++ a :: l2 -> exists l0, l1 = l0 ++ before.

Lemma preceded_snoc a before log x : preceded a before log -> (x = a -> exists l0, log = l0 ++ before) ->
  preceded a before (log ++ [x]).
Proof.
  intros H Hx l1 l2 E. destruct l2 as [|y l2 _] using rev_ind.
  - apply app_inj_tail in E as [-> ->]. by apply Hx.
  - rewrite app_comm_cons, app_assoc in E. apply app_inj_tail in E as [-> _]. by apply (H l1 l2).
Qed.

Record sound (s : ControllerLifecycleState) (log : list ControllerLifecycleAction) : Prop := {
  so_open : upstream_open log = true -> s = ControllerLifecycleActive;
  so_outputs : s <> ControllerLifecycleActive -> outputs_set log = false;
  so_permit : preceded ControllerLifecyclePermitNormalUpstream
    [ControllerLifecycleSendCurrentStatus; ControllerLifecycleSendInitialInput] log;
  so_power : preceded ControllerLifecycleSendPoweringOffStatus stop_plan log;
}.

(** Appending the actions of a plan, one at a time. *)
Ltac snoc_plan := unfold hello_plan, start_plan, power_plan, reset_plan, stop_plan;
  repeat match goal with
  | |- preceded _ _ (?l ++ ?x :: ?y :: ?r) => change (x :: y :: r) with ([x] ++ (y :: r)); rewrite (app_assoc l)
  | |- preceded _ _ (?l ++ [?x]) => apply preceded_snoc; [|intros E; try discriminate E]
  | |- exists l0, (?l ++ [?a]) ++ [?b] = l0 ++ _ => exists l; by rewrite <-app_assoc
  end.

Ltac sound_case := split; unfold upstream_open, outputs_set in *; rewrite ?fold_left_app; cbn [fold_left];
  try solve [done | tauto | intuition congruence | snoc_plan; done].

Lemma sound_whole s log acts s' : sound s log -> diagram s acts s' -> sound s' (log ++ acts).
Proof. intros [S1 S2 S3 S4] Hd. destruct Hd; sound_case.
Qed.

Lemma sound_cut s log acts s' k : sound s log -> diagram s acts s' -> (k < length acts)%nat ->
  sound s (log ++ firstn k acts).
Proof.
  intros [S1 S2 S3 S4] Hd Hk. destruct Hd; destruct k as [|[|[|k]]]; cbn in Hk; try lia; cbn [firstn]; rewrite ?app_nil_r; try done;
    cbn; sound_case.
Qed.

Lemma allowed_sound whole s log : allowed whole s log ->
  sound s log /\ (whole = true -> s = ControllerLifecycleActive -> upstream_open log = true).
Proof.
  induction 1 as [|log H [IH _]|whole s log acts s' H [IH Io] Hd Hw|whole s log acts s' k H [IH Io] Hd Hw Hk].
  - split; [|done]. split; try done; intros l1 l2 E; by destruct l1.
  - split; [|done]. destruct IH as [S1 S2 S3 S4]. split; try done; [intros E; by apply S1 in E|intros _; by apply S2].
  - split; [by eapply sound_whole|]. intros _ ->. unfold upstream_open in *. rewrite fold_left_app.
    inversion Hd; subst; cbn; try done; [|intuition congruence]. destruct Hw as [->|E]; [by apply Io|done].
  - split; [by eapply sound_cut|done].
Qed.

Lemma run_sound self now ops : let h := run self now ops in
  sound (state (core (h_now h))) (h_log h) /\
  (pendingTransition (slot (h_now h)) = false -> state (core (h_now h)) = ControllerLifecycleActive ->
   upstream_open (h_log h) = true).
Proof.
  cbv zeta. destruct (lifecycle_run_inv self now ops) as [I1 I2 I3 I4 I5 I6].
  destruct (pendingTransition _) eqn:E.
  - split; [|done]. destruct (I6 eq_refl) as (_ & _ & Hc & _ & _ & _ & whole & log0 & Ha & Hd & Hw & ->).
    apply allowed_sound in Ha as [Ha _]. eapply sound_cut; [done|done|]. unfold Len in Hc. lia.
  - destruct (I5 eq_refl) as (_ & Ha & _). apply allowed_sound in Ha as [Ha Ho]. auto.
Qed.

(** ** Plans only move forward *)

(** A step keeps the plan and moves its cursor forward, ends it, or begins
    one with a new epoch. *)
Inductive forward (l l' : ControllerLifecycle) : Prop :=
| f_end : nextTransitionEpoch l' = nextTransitionEpoch l ->
    nextMetadataTransferGeneration l' = nextMetadataTransferGeneration l ->
    pendingTransition (slot l') = false -> forward l l'
| f_keep : nextTransitionEpoch l' = nextTransitionEpoch l ->
    nextMetadataTransferGeneration l' = nextMetadataTransferGeneration l ->
    pendingTransition (slot l) = true -> transitionEpoch (slot l') = transitionEpoch (slot l) ->
    transition (slot l') = transition (slot l) -> actionCursor (slot l) <= actionCursor (slot l') -> forward l l'
| f_begin : pendingTransition (slot l') = true -> transitionEpoch (slot l') = nextTransitionEpoch l + 1 ->
    nextTransitionEpoch l' = nextTransitionEpoch l + 1 ->
    nextMetadataTransferGeneration l <= nextMetadataTransferGeneration l' ->
    (state (target (transition (slot l'))) = ControllerLifecycleMetadata ->
     nextMetadataTransferGeneration l < nextMetadataTransferGeneration l') -> forward l l'.

(** What a claim handed out says about the state after it. *)
Definition claim_of (l : ControllerLifecycle) (c : ControllerLifecycleClaim) : Prop :=
  pendingTransition (slot l) = true /\ lc_transitionEpoch c = transitionEpoch (slot l) /\
  (lc_metadataTransferGeneration c <> 0 ->
   lc_metadataTransferGeneration c = metadataTransferGeneration (target (transition (slot l))) /\
   currentAction l = Some ControllerLifecycleBeginMetadata).

Lemma forward_same l l' : same_plan l l' -> forward l l'.
Proof.
  intros (E1 & E2 & E3 & E4 & E5 & E6 & E7). destruct (pendingTransition (slot l)) eqn:Hp.
  - apply f_keep; try done. lia.
  - by apply f_end.
Qed.

Lemma claim_current_of self now keep l : pendingTransition (slot l) = true ->
  claim_of (fst (claimCurrentAction self now keep l)) (snd (claimCurrentAction self now keep l)).
Proof.
  intros Hp. split; [done|]. split; [done|]. cbn [claimCurrentAction snd lc_metadataTransferGeneration].
  case_if; [|done]. bdec. done.
Qed.

Lemma begin_forward self t now l : lbase l ->
  diagram (state (core l)) (actions (decision t)) (state (target t)) ->
  match beginTransition self t now l with
  | (l', Ok c) => forward l l' /\ claim_of l' c
  | (l', Err _) => l' = l
  end.
Proof.
  intros [I1 I2 I3 I4 I5] Hd. unfold beginTransition. cbv zeta.
  case_if; [done|]. destruct (Z.eqb_spec (nextTransitionEpoch l) MaxUint64) as [E|E]; [done|].
  assert (Hu : u64 (nextTransitionEpoch l + 1) = nextTransitionEpoch l + 1).
  { apply u64_id. unfold MaxUint64 in *. lia. }
  rewrite Hu. destruct (claimCurrentAction self now false _) as [l' claim] eqn:Ec.
  match type of Ec with claimCurrentAction _ _ _ ?l0 = _ => pose proof (claim_current_of self now false l0 eq_refl) as Hc end.
  rewrite Ec in Hc. cbn [fst snd] in Hc. split; [|done].
  destruct (reserve_metadata _ t _ Hd I4 Hb) as [Hm1 Hm2].
  injection Ec as <- _. apply f_begin; try done; cbn; [lia|]. intros Hs. by apply Hm1.
Qed.

(** The result of an operation of [l], and the claim in it. *)
Definition moves (l : ControllerLifecycle) (r : ControllerLifecycle * option ControllerLifecycleClaim) : Prop :=
  forward l (fst r) /\ forall c, snd r = Some c -> claim_of (fst r) c.

Lemma moves_same l l' : same_plan l l' -> moves l (l', None).
Proof. intros H. split; [by apply forward_same|done]. Qed.

Lemma moves_refl l : moves l (l, None).
Proof. by apply moves_same. Qed.

#[local] Hint Resolve moves_refl : core.

Lemma moves_begin self t now l : lbase l -> diagram (state (core l)) (actions (decision t)) (state (target t)) ->
  let '(l', r) := beginTransition self t now l in moves l (l', match r with Ok c => Some c | Err _ => None end).
Proof.
  intros Hb Hd. pose proof (begin_forward self t now l Hb Hd) as H.
  destruct (beginTransition self t now l) as [l' [c|e]]; [|subst; auto].
  destruct H as [H1 H2]. split; [done|]. by intros c' [= <-].
Qed.

Lemma moves_claim self now keep l : pendingTransition (slot l) = true ->
  let '(l', c) := claimCurrentAction self now keep l in moves l (l', Some c).
Proof.
  intros Hp. pose proof (claim_current_of self now keep l Hp) as H. destruct (claimCurrentAction self now keep l) as [l' c] eqn:E.
  split; [|by intros c' [= <-]]. injection E as <- _. by apply forward_same.
Qed.

Lemma forward_clear l l' : forward (clearPendingTransition l) l' -> forward l l'.
Proof. intros []; [by apply f_end|done|by apply f_begin]. Qed.

Lemma moves_poll self now l log : linv l log -> moves l (exec self (OpPoll now) l).
Proof.
  intros I. cbn. unfold ClaimPoll. destruct (validateNoTransition now l); [by auto|]. cbv zeta.
  destruct (state (core l)) eqn:Es; try (by apply moves_same); (case_if; [by apply moves_same|]);
    match goal with |- context [beginTransition self ?t now l] =>
      pose proof (moves_begin self t now l (linv_base _ _ I)) as H;
      destruct (beginTransition self t now l) as [l' [c|e]]; apply H; cbn; rewrite ?Es; constructor; auto end.
Qed.

Lemma moves_command self now command l log : linv l log -> moves l (exec self (OpCommand now command) l).
Proof.
  intros I. cbn. unfold ClaimHostCommand. destruct (ControllerHostCommand_validate command); [by auto|].
  destruct (validateNoTransition now l); [by auto|].
  destruct (selectHostCommand command l) as [[t|]|] eqn:Es; [|by apply moves_same|by auto].
  apply select_diagram in Es as [Hd _]. pose proof (moves_begin self t now l (linv_base _ _ I) Hd) as H.
  by destruct (beginTransition self t now l) as [l' [c|e]].
Qed.

Lemma moves_reset self now l log : linv l log -> moves l (exec self (OpReset now) l).
Proof.
  intros I. cbn. unfold ClaimRestartAfterUSBReset. destruct (validateInitialized l); [by auto|].
  destruct (validateClock now l); [by auto|]. repeat (case_if; [by auto|]). cbv zeta.
  match goal with |- context [beginTransition self ?t now ?l0] => pose proof (moves_begin self t now l0) as H;
    destruct (beginTransition self t now l0) as [l' r] end.
  destruct H as [H1 H2]; [| |split; [by apply forward_clear|done]].
  - destruct (linv_base _ _ I). by split.
  - cbn. apply d_usb. apply I.
Qed.

Lemma moves_resolve self claim outcome now l log : linv l log -> moves l (exec self (OpResolve claim outcome now) l).
Proof.
  intros I. split; [|done]. cbn. unfold Resolve. destruct (validateClaim self claim l) eqn:Hv; [by apply forward_same|].
  apply claim_valid in Hv as (Hp & _). destruct (li_pending _ _ I Hp) as (_ & _ & Hc & _ & _ & _ & w & lg & _ & Hd & _).
  apply diagram_short in Hd. unfold Len in Hc. cbv zeta.
  repeat (case_if; [first [by apply forward_same | apply f_keep; cbn; try done; try lia; rewrite u8_id; lia]|]).
  by apply f_end.
Qed.

Lemma exec_moves self o l log : linv l log -> moves l (exec self o l).
Proof.
  intros I. destruct o as [now|now command|now wire|now fence|now fence|now|now|now|claim now|claim outcome now].
  - by eapply moves_poll.
  - by eapply moves_command.
  - cbn. unfold ClaimHostWire. destruct (DecodeControllerHostCommand wire) as [command|]; [|by auto].
    exact (moves_command self now command l log I).
  - cbn. unfold MetadataTransferSucceeded. destruct (metadata_fence_error now fence l) eqn:Hf; [by auto|].
    destruct (fence_accepted _ _ _ _ I Hf) as (Hp & _). split; [|done]. by apply f_end.
  - cbn. unfold ClaimMetadataTransferFailed. destruct (metadata_fence_error now fence l) eqn:Hf; [by auto|].
    destruct (fence_accepted _ _ _ _ I Hf) as (_ & Hs & _).
    match goal with |- context [beginTransition self ?t now l] =>
      pose proof (moves_begin self t now l (linv_base _ _ I)) as H; destruct (beginTransition self t now l) as [l' r] end.
    apply H. cbn. rewrite Hs. constructor. auto.
  - by eapply moves_reset.
  - cbn. unfold ClaimNextAction. destruct (validateInitialized l); [by auto|]. destruct (validateClock now l); [by auto|].
    repeat (case_if; [by auto|]). bool_prop. pose proof (moves_claim self now false l) as H'.
    destruct (claimCurrentAction self now false l). by apply H'.
  - cbn. unfold ClaimRetry. destruct (validateInitialized l); [by auto|]. destruct (validateClock now l); [by auto|].
    repeat (case_if; [by auto|]). bool_prop. destruct (moves_claim self now true l H) as [H1 H2].
    split; [by apply forward_same|]. intros c [= <-]. by apply (H2 _ eq_refl).
  - cbn. unfold Admit. destruct (validateClaim self claim l); [by auto|]. case_if; [by auto|].
    destruct (validateClock now l); [by auto|]. by apply moves_same.
  - by eapply moves_resolve.
Qed.

(** ** Spent claims *)

Definition past (c : ControllerLifecycleClaim) (l : ControllerLifecycle) : Prop :=
  lc_transitionEpoch c <= nextTransitionEpoch l /\
  (pendingTransition (slot l) = true -> lc_transitionEpoch c < transitionEpoch (slot l) \/
    lc_transitionEpoch c = transitionEpoch (slot l) /\ lc_cursor c < actionCursor (slot l)).

Lemma past_forward c l l' : forward l l' -> past c l -> past c l'.
Proof.
  intros Hf [H1 H2]. destruct Hf as [F1 F2 F3|F1 F2 F3 F4 F5 F6|F1 F2 F3 F4 F5]; split; try lia.
  - by rewrite F3.
  - intros _. destruct (H2 F3); [left|right]; lia.
Qed.

Lemma past_dead self c l : past c l -> validateClaim self c l = Some ErrInvalidLifecycleClaim.
Proof.
  intros [_ H]. destruct (validateClaim self c l) eqn:Hv.
  - revert Hv. unfold validateClaim. cbv zeta. by repeat (case_if; [by intros [= <-]|]).
  - apply claim_valid in Hv as (Hp & _ & He & _ & Hc & _). destruct (H Hp); lia.
Qed.

Lemma delivered_past self c now l log : linv l log -> snd (Resolve self c ControllerLifecycleDelivered now l) = None ->
  past c (fst (Resolve self c ControllerLifecycleDelivered now l)).
Proof.
  intros I. unfold Resolve. destruct (validateClaim self c l) eqn:Hv; [done|].
  apply claim_valid in Hv as (Hp & _ & He & _ & Hc & _).
  destruct (li_pending _ _ I Hp) as (Ht & _ & Hcur & _ & _ & _ & w & lg & _ & Hd & _).
  apply diagram_short in Hd. unfold Len in Hcur. change (ControllerLifecycleDelivered =? ControllerLifecycleDelivered) with true.
  cbn [negb andb orb]. case_if; [done|]. cbv zeta. intros _. case_if; split; cbn; try lia; try done.
  intros _. right. rewrite u8_id; lia.
Qed.

Lemma run_app self now before after : run self now (before ++ after) = fold_left (hstep self) after (run self now before).
Proof. unfold run. apply fold_left_app. Qed.

Lemma run_past self now c ops : forall before,
  past c (h_now (run self now before)) -> past c (h_now (run self now (before ++ ops))).
Proof.
  induction ops as [|o ops IH]; intros before H; [by rewrite app_nil_r|].
  rewrite cons_middle, app_assoc. apply IH. rewrite run_app. cbn [fold_left hstep h_now].
  eapply past_forward; [|exact H]. apply (exec_moves self o _ _ (lifecycle_run_inv self now before)).
Qed.

(** ** Metadata transfers *)

Record ordered (l : ControllerLifecycle) (claims : list ControllerLifecycleClaim) : Prop := {
  or_bound : forall c, c ∈ claims -> lc_transitionEpoch c <= nextTransitionEpoch l /\
    lc_metadataTransferGeneration c <= nextMetadataTransferGeneration l;
  or_pending : pendingTransition (slot l) = true ->
    state (target (transition (slot l))) = ControllerLifecycleMetadata ->
    forall c, c ∈ claims -> lc_transitionEpoch c < transitionEpoch (slot l) ->
      lc_metadataTransferGeneration c < nextMetadataTransferGeneration l;
  or_pairs : forall c c', c ∈ claims -> c' ∈ claims -> lc_metadataTransferGeneration c' <> 0 ->
    lc_transitionEpoch c < lc_transitionEpoch c' ->
    lc_metadataTransferGeneration c < lc_metadataTransferGeneration c';
}.

Lemma ordered_forward l l' log claims : linv l log -> forward l l' -> ordered l claims -> ordered l' claims.
Proof.
  intros I Hf [O1 O2 O3]. destruct Hf as [F1 F2 F3|F1 F2 F3 F4 F5 F6|F1 F2 F3 F4 F5]; split; try done.
  - intros c Hc. rewrite F1, F2. by apply O1.
  - by rewrite F3.
  - intros c Hc. rewrite F1, F2. by apply O1.
  - intros _. rewrite F2, F4, F5. by apply O2.
  - intros c Hc. destruct (O1 c Hc). lia.
  - intros _ Hs c Hc _. destruct (O1 c Hc). specialize (F5 Hs). lia.
Qed.

Lemma diagram_begin s acts s' : diagram s acts s' -> ControllerLifecycleBeginMetadata ∈ acts -> s' = ControllerLifecycleMetadata.
Proof.
  intros [] Hb; try done; repeat (apply elem_of_cons in Hb as [Hb|Hb]; [discriminate|]); by apply elem_of_nil in Hb.
Qed.

(** The claim just handed out is of the last plan begun. *)
Lemma ordered_claim l log claims c : linv l log -> ordered l claims -> claim_of l c -> ordered l (claims ++ [c]).
Proof.
  intros I [O1 O2 O3] (Hp & He & Hm). pose proof (li_metadata _ _ I) as Hn.
  destruct (li_pending _ _ I Hp) as (J1 & J2 & J3 & J4 & J5 & _ & w & lg & _ & Hd & _).
  assert (Hc : lc_metadataTransferGeneration c <> 0 -> state (target (transition (slot l))) = ControllerLifecycleMetadata /\
    lc_metadataTransferGeneration c = nextMetadataTransferGeneration l).
  { intros Hz. destruct (Hm Hz) as [Hg Ha]. assert (Hs : state (target (transition (slot l))) = ControllerLifecycleMetadata).
    { eapply diagram_begin; [exact Hd|]. unfold currentAction, Action in Ha. case_if_in Ha; [done|].
      by eapply list_elem_of_lookup_2. }
    split; [done|]. rewrite Hg. by apply J5. }
  assert (Hb : lc_transitionEpoch c <= nextTransitionEpoch l /\ lc_metadataTransferGeneration c <= nextMetadataTransferGeneration l).
  { split; [lia|]. destruct (Z.eq_dec (lc_metadataTransferGeneration c) 0) as [->|Hz]; [lia|]. destruct (Hc Hz). lia. }
  split; setoid_rewrite elem_of_app; setoid_rewrite list_elem_of_singleton.
  - intros c0 [H| ->]; [by apply O1|done].
  - intros _ Hs c0 [H| ->] Hlt; [by apply O2|lia].
  - intros c0 c1 [H0| ->] [H1| ->] Hz Hlt; [by apply O3| | |lia].
    + destruct (Hc Hz) as [Hs ->]. apply O2; [done|done|done|lia].
    + destruct (O1 _ H1). lia.
Qed.

Lemma run_ordered self now ops : ordered (h_now (run self now ops)) (h_claims (run self now ops)).
Proof.
  induction ops as [|o ops IH] using rev_ind.
  - split; cbn; [intros c Hc; by apply elem_of_nil in Hc|done|intros c c' Hc; by apply elem_of_nil in Hc].
  - rewrite run_app. cbn [fold_left hstep h_now h_claims]. pose proof (lifecycle_run_inv self now ops) as I.
    set (h := run self now ops) in *. pose proof (exec_inv self o _ _ I) as I'.
    destruct (exec_moves self o _ _ I) as [Hf Hc]. pose proof (ordered_forward _ _ _ _ I Hf IH) as Ho.
    destruct (snd (exec self o (h_now h))) as [c|] eqn:Ec; cbn [option_list]; [|by rewrite app_nil_r].
    eapply ordered_claim; [exact I'|done|by apply Hc].
Qed.

(** ** An executor that delivers *)

Fixpoint perform (self : Z) (n : nat) (now : Z) (claim : ControllerLifecycleClaim) (l : ControllerLifecycle) :
    ControllerLifecycle :=
  match n with
  | O => l
  | S n =>
      match Admit self claim now l with
      | (l, Some _) => l
      | (l, None) =>
          match Resolve self claim ControllerLifecycleDelivered now l with
          | (l, Some _) => l
          | (l, None) =>
              match ClaimNextAction self now l with
              | (l, Err _) => l
              | (l, Ok claim) => perform self n now claim l
              end
          end
      end
  end.


(** A delivery moves to the next action or commits the plan. *)
Lemma resolve_delivered self claim now l : validateClaim self claim l = None -> claimAdmitted (slot l) = true ->
  lastNowMS l = now -> exists l', Resolve self claim ControllerLifecycleDelivered now l = (l', None) /\
    if u8 (actionCursor (slot l) + 1) <? Len (decision (transition (slot l))) then
      core l' = core l /\ transition (slot l') = transition (slot l) /\
      actionCursor (slot l') = u8 (actionCursor (slot l) + 1) /\ lastNowMS l' = now /\
      pendingTransition (slot l') = true /\ hasClaim (slot l') = false /\ retryPending (slot l') = false
    else pendingTransition (slot l') = false /\ lastNowMS l' = now /\ core l' = commit_core now (transition (slot l)).
Proof.
  intros Hv Ha Hn. pose proof (claim_valid _ _ _ Hv) as (Hp & _). unfold Resolve. rewrite Hv, Ha.
  change (ControllerLifecycleDelivered =? ControllerLifecycleDelivered) with true. cbn [negb andb orb]. cbv zeta.
  rewrite (proj2 (Z.ltb_ge now (lastNowMS l))) by lia. cbn [slot set_now].
  case_if; eexists; (split; [done|]); done.
Qed.

Lemma linv_initialized l log : linv l log -> validateInitialized l = None.
Proof.
  intros [I1 I2 _ _ _ _]. unfold validateInitialized. rewrite bool_decide_false by done.
  by rewrite (proj2 (Z.eqb_neq _ _)) by lia.
Qed.

Lemma current_claim_valid self now keep l : pendingTransition (slot l) = true ->
  validateClaim self (snd (claimCurrentAction self now keep l)) (fst (claimCurrentAction self now keep l)) = None.
Proof.
  intros Hp. assert (Hn : (nextClaimToken l =? 0) = false).
  { apply Z.eqb_neq. unfold nextClaimToken, u64. case_if; zsolve. }
  unfold validateClaim. cbn. rewrite Hp, Hn, !Z.eqb_refl, !bool_decide_true by done. cbn. by rewrite ?Z.eqb_refl.
Qed.

(** A live claim is admitted, delivered, and leads to the next action or to the commit. *)
Lemma perform_plan self now n : forall claim l log, linv l log -> validateClaim self claim l = None ->
  claimAdmitted (slot l) = false -> lastNowMS l <= now ->
  Len (decision (transition (slot l))) - actionCursor (slot l) <= Z.of_nat n ->
  pendingTransition (slot (perform self n now claim l)) = false /\
  core (perform self n now claim l) = commit_core now (transition (slot l)).
Proof.
  induction n as [|n IH]; intros claim l log I Hv Ha Hn Hk; pose proof (claim_valid _ _ _ Hv) as (Hp & Hc & _);
    destruct (li_pending _ _ I Hp) as (J1 & J2 & J3 & J4 & J5 & _ & w & lg & _ & Hd & _); [lia|].
  apply diagram_short in Hd. cbn [perform].
  assert (HA : exists l1, Admit self claim now l = (l1, None) /\ same_plan l l1 /\ lastNowMS l1 = now /\
    validateClaim self claim l1 = None /\ claimAdmitted (slot l1) = true /\ linv l1 log).
  { pose proof (lifecycle_admit_inv self claim now l log I) as IA. unfold Admit in *. rewrite Hv, Ha in *. unfold validateClock in *.
    rewrite (proj2 (Z.ltb_ge _ _)) in * by lia. eexists. split; [done|]. cbn [fst] in IA.
    split; [done|]. split; [done|]. split; [exact Hv|]. done. }
  destruct HA as (l1 & -> & (E1 & E2 & E3 & E4 & E5 & E6 & E7) & El & Hv1 & Ha1 & I1).
  pose proof (lifecycle_resolve_inv self claim ControllerLifecycleDelivered now l1 log I1) as I2.
  destruct (resolve_delivered self claim now l1 Hv1 Ha1 El) as (l2 & HR & Hr). rewrite HR in *. cbn [fst] in I2.
  rewrite <-E6, <-E7 in J3, Hk. rewrite <-E6 in Hd. rewrite u8_id in Hr by (unfold Len in *; lia).
  destruct (Z.ltb_spec (actionCursor (slot l1) + 1) (Len (decision (transition (slot l1))))) as [Hm|Hm].
  - destruct Hr as (R1 & R2 & R3 & R4 & R5 & R6 & R7).
    assert (HN : ClaimNextAction self now l2 = (fst (claimCurrentAction self now false l2), Ok (snd (claimCurrentAction self now false l2)))).
    { unfold ClaimNextAction, validateClock. rewrite (linv_initialized _ _ I2), R4, R5, R6, R7, (proj2 (Z.ltb_ge now now)) by lia.
      by destruct (claimCurrentAction self now false l2). }
    rewrite HN, <-E6, <-R2.
    apply (IH _ _ _ (claim_current_inv self now false l2 _ I2 R5) (current_claim_valid self now false l2 R5)); [done|cbn; lia|].
    cbn. rewrite R2, R3. lia.
  - destruct Hr as (R1 & R2 & R3). unfold ClaimNextAction, validateClock.
    rewrite (linv_initialized _ _ I2), R1, R2, (proj2 (Z.ltb_ge now now)) by lia. cbn. by rewrite R3, E6.
Qed.

(** C16: the lifecycle implements the state diagram.  For every sequence of operations from a new
    lifecycle, with any clocks, commands, wire bytes, fences, claims and outcomes, the effects
    delivered so far are whole plans of the diagram leading to the current state, followed by the
    delivered part of the pending plan, if one is pending; a plan is left unfinished only for the plan
    of a USB reset. *)
Theorem lifecycle_implements_diagram (self now : Z) (ops : list op) :
  let h := run self now ops in
  let s := state (core (h_now h)) in
  if pendingTransition (slot (h_now h)) then
    exists whole log acts s' k, allowed whole s log /\ diagram s acts s' /\ (whole = true \/ acts = reset_plan) /\
      (k < length acts)%nat /\ h_log h = log ++ firstn k acts
  else allowed true s (h_log h).
Proof.
  cbv zeta. destruct (lifecycle_run_inv self now ops) as [I1 I2 I3 I4 I5 I6].
  destruct (pendingTransition _); [|by apply I5].
  destruct (I6 eq_refl) as (_ & _ & Hc & _ & _ & _ & whole & log & Ha & Hd & Hw & El).
  exists whole, log. eexists _, _, (Z.to_nat _). split; [done|]. split; [exact Hd|]. split; [done|].
  split; [|exact El]. unfold Len in Hc. lia.
Qed.

(** C18: what the effects may be.  In every run, normal upstream traffic is open only in the Active
    state, and it is open there when no transition is pending; outside Active the outputs are clear; the
    permission of upstream traffic comes right after the current status and the initial input; and the
    powering-off status comes right after the upstream gate and the clearing of the outputs. *)
Theorem lifecycle_effects_ordered (self now : Z) (ops : list op) :
  let h := run self now ops in
  (upstream_open (h_log h) = true -> state (core (h_now h)) = ControllerLifecycleActive) /\
  (pendingTransition (slot (h_now h)) = false -> state (core (h_now h)) = ControllerLifecycleActive ->
   upstream_open (h_log h) = true) /\
  (state (core (h_now h)) <> ControllerLifecycleActive -> outputs_set (h_log h) = false) /\
  preceded ControllerLifecyclePermitNormalUpstream
    [ControllerLifecycleSendCurrentStatus; ControllerLifecycleSendInitialInput] (h_log h) /\
  preceded ControllerLifecycleSendPoweringOffStatus
    [ControllerLifecycleGateNormalUpstream; ControllerLifecycleClearOutputs] (h_log h).
Proof. cbv zeta. destruct (run_sound self now ops) as [[S1 S2 S3 S4] S5]. done. Qed.

(** No action is executed twice.  Once a claim has been resolved as delivered, every later
    attempt to admit or resolve it is refused and changes nothing, whatever has happened in between. *)
Theorem delivered_claim_is_spent (self now at_ : Z) (before after : list op) (claim : ControllerLifecycleClaim) :
  snd (Resolve self claim ControllerLifecycleDelivered at_ (h_now (run self now before))) = None ->
  let l := h_now (run self now (before ++ OpResolve claim ControllerLifecycleDelivered at_ :: after)) in
  forall outcome ms,
    Admit self claim ms l = (l, Some ErrInvalidLifecycleClaim) /\
    Resolve self claim outcome ms l = (l, Some ErrInvalidLifecycleClaim).
Proof.
  intros H l outcome ms. assert (Hd : validateClaim self claim l = Some ErrInvalidLifecycleClaim).
  { apply past_dead. unfold l. rewrite cons_middle, app_assoc. apply run_past. rewrite run_app. cbn [fold_left hstep h_now exec fst].
    by apply (delivered_past self claim at_ _ _ (lifecycle_run_inv self now before)). }
  unfold Admit, Resolve. by rewrite Hd.
Qed.

(** C27: a late metadata completion cannot finish a later transfer.  When two metadata transfers have
    been begun in a run, at any distance and on either side of USB resets, the success or failure callback
    for the earlier one is refused from then on and changes nothing. *)
Theorem late_metadata_completion_refused (self now ms : Z) (ops : list op) (c c' : ControllerLifecycleClaim)
    (fence fence' : ControllerMetadataTransferFence) :
  let h := run self now ops in
  c ∈ h_claims h -> c' ∈ h_claims h ->
  ControllerLifecycleClaim_MetadataTransferFence c = Some fence ->
  ControllerLifecycleClaim_MetadataTransferFence c' = Some fence' ->
  lc_transitionEpoch c < lc_transitionEpoch c' ->
  exists e, MetadataTransferSucceeded ms fence (h_now h) = (h_now h, Some e) /\
    ClaimMetadataTransferFailed self ms fence (h_now h) = (h_now h, Err e).
Proof.
  cbv zeta. intros Hc Hc' Hf Hf' Hlt. destruct (run_ordered self now ops) as [O1 O2 O3].
  unfold ControllerLifecycleClaim_MetadataTransferFence in *. case_if_in Hf; [done|]. case_if_in Hf'; [done|].
  injection Hf as <-. injection Hf' as <-. bool_prop.
  unfold MetadataTransferSucceeded, ClaimMetadataTransferFailed. destruct (metadata_fence_error _ _ _) eqn:He; [by eexists|].
  destruct (fence_accepted _ _ _ _ (lifecycle_run_inv self now ops) He) as (_ & _ & _ & _ & E). cbn in E.
  destruct (O1 c' Hc') as [_ Hb']. pose proof (O3 c c' Hc Hc' ltac:(done) Hlt). lia.
Qed.

(** A claimed plan can always be finished.  From every state a run reaches, the holder of a live
    claim who delivers, with a clock that does not go back, finishes the plan in at most three actions, and
    the lifecycle commits the plan's target with its deadline. *)
Theorem claimed_plan_completes (self now ms : Z) (ops : list op) (claim : ControllerLifecycleClaim) :
  let l := h_now (run self now ops) in
  validateClaim self claim l = None -> claimAdmitted (slot l) = false -> lastNowMS l <= ms ->
  pendingTransition (slot (perform self 3 ms claim l)) = false /\
  core (perform self 3 ms claim l) = commit_core ms (transition (slot l)).
Proof.
  intros l Hv Ha Hn. pose proof (lifecycle_run_inv self now ops) as I.
  apply (perform_plan self ms 3 claim l _ I Hv Ha Hn).
  pose proof (claim_valid _ _ _ Hv) as (Hp & _).
  destruct (li_pending _ _ I Hp) as (_ & _ & Hc & _ & _ & _ & w & lg & _ & Hd & _). apply diagram_short in Hd.
  fold l in Hc, Hd. unfold Len. lia.
Qed.

(** ** Concrete runs *)

Definition demo_claim (token epoch metadata : Z) (action : ControllerLifecycleAction) (cursor total : Z) :
    ControllerLifecycleClaim := {|
  lc_owner := Some 1; lc_token := token; lc_generation := 1; lc_transitionEpoch := epoch;
  lc_metadataTransferGeneration := metadata; lc_action := Some action; lc_cursor := cursor; lc_totalActions := total;
  lc_selectedAtMS := 0 |}.

(** A metadata request on the wire, delivered, then a second one. *)
Definition demo_request : list Z := [0x04; 0x20; 0x01; 0x00].
Definition demo_first : ControllerLifecycleClaim := demo_claim 1 1 1 ControllerLifecycleBeginMetadata 0 1.
Definition demo_second : ControllerLifecycleClaim := demo_claim 2 2 2 ControllerLifecycleBeginMetadata 0 1.
Definition demo_ops : list op :=
  [OpWire 0 demo_request; OpAdmit demo_first 0; OpResolve demo_first ControllerLifecycleDelivered 0; OpWire 0 demo_request].

Lemma delivered_claim_is_spent_witness :
  let l := h_now (run 1 0 demo_ops) in Admit 1 demo_first 0 l = (l, Some ErrInvalidLifecycleClaim).
Proof.
  apply (delivered_claim_is_spent 1 0 0 (firstn 2 demo_ops) (skipn 3 demo_ops) demo_first ltac:(vm_compute; reflexivity)
    ControllerLifecycleDelivered 0).
Defined.

Lemma late_metadata_completion_refused_witness :
  exists e, MetadataTransferSucceeded 0 {| mf_TransportGeneration := 1; mf_TransferGeneration := 1 |}
    (h_now (run 1 0 demo_ops)) = (h_now (run 1 0 demo_ops), Some e).
Proof.
  assert (E : h_claims (run 1 0 demo_ops) = [demo_first; demo_second]) by (vm_compute; reflexivity).
  destruct (late_metadata_completion_refused 1 0 0 demo_ops demo_first demo_second
    {| mf_TransportGeneration := 1; mf_TransferGeneration := 1 |} {| mf_TransportGeneration := 1; mf_TransferGeneration := 2 |})
    as (e & H & _); [rewrite E; constructor|rewrite E; do 2 constructor|reflexivity|reflexivity|reflexivity|].
  by exists e.
Defined.

(** A START command in the Arrival state. *)
Definition demo_start : list op :=
  [OpCommand 0 {| hc_Kind := ControllerHostCommandSetDeviceState; hc_Sequence := 2; hc_State := SetDeviceStateStart |}].

Lemma claimed_plan_completes_witness :
  state (core (perform 1 3 7 (demo_claim 1 1 0 ControllerLifecycleSendCurrentStatus 0 3) (h_now (run 1 0 demo_start)))) =
    ControllerLifecycleActive.
Proof.
  destruct (claimed_plan_completes 1 0 7 demo_start (demo_claim 1 1 0 ControllerLifecycleSendCurrentStatus 0 3))
    as [_ ->]; [vm_compute; reflexivity|vm_compute; reflexivity|vm_compute; discriminate|vm_compute; reflexivity].
Defined.

End Lifecycle.
