(* ===== verification/InputChannel.v ===== *)
(** * The input channel of the simple devices

    What src/device/keyboard and src/device/mouse share: the HID constants of
    their descriptors (src/usb/hid), the one-place channel between the client's
    stream and the host's polls with the two goroutines that use it, the frames
    a stream handler reads, and the report a descriptor announces. *)

From S2P Require Import Prelude Bytes Codec Hid Descriptor.

(** ** HID constants (src/usb/hid/constants.go) *)

Definition UsagePageGenericDesktop : Z := 0x01.
Definition UsagePageKeyboard : Z := 0x07.
Definition UsagePageLEDs : Z := 0x08.
Definition UsagePageButton : Z := 0x09.
Definition UsagePageConsumer : Z := 0x0C.
Definition UsagePointer : Z := 0x01.
Definition UsageMouse : Z := 0x02.
Definition UsageKeyboard : Z := 0x06.
Definition UsageX : Z := 0x30.
Definition UsageY : Z := 0x31.
Definition UsageWheel : Z := 0x38.
Definition UsageACPan : Z := 0x0238.
Definition CollectionPhysical : Z := 0x00.
Definition CollectionApplication : Z := 0x01.
Definition MainData : Z := 0x00.
Definition MainConst : Z := 0x01.
Definition MainVar : Z := 0x02.
Definition MainAbs : Z := 0x00.
Definition MainRel : Z := 0x04.

Definition DirOut : Z := 0.
Definition DirIn : Z := 1.

(** ** The input channel

    [inputCh], a channel with one place, used by the client's stream under
    [inputPublishMu] and by the worker of the input endpoint, which serves one
    URB at a time.  [publishing] is a publication between its drain and its
    send, [requeueing] a poll between its receive and its own send. *)
Section Channel.
Context {S : Type}.

Record channel := {
  place : option S; publishing : option S; requeueing : option S;
  published : list S; reported : list S;
}.

(** New: the neutral state waits in the channel. *)
Definition New (neutral : S) : channel := {|
  place := Some neutral; publishing := None; requeueing := None; published := [neutral]; reported := [] |}.

(** UpdateInputState up to its send: take the mutex and drain the channel. *)
Definition UpdateInputState_drain (state : S) (c : channel) : option channel :=
  match publishing c with
  | Some _ => None
  | None => Some {| place := None; publishing := Some state; requeueing := requeueing c;
                    published := published c ++ [state]; reported := reported c |}
  end.

(** The send, which waits while the channel is full. *)
Definition UpdateInputState_send (c : channel) : option channel :=
  match publishing c, place c with
  | Some state, None => Some {| place := Some state; publishing := None; requeueing := requeueing c;
                                published := published c; reported := reported c |}
  | _, _ => None
  end.

(** The receive of a poll; [again] is what it puts back. *)
Definition HandleTransfer_receive (again : S -> option S) (c : channel) : option (channel * S) :=
  match place c, requeueing c with
  | Some state, None => Some ({| place := None; publishing := publishing c; requeueing := again state;
                                 published := published c; reported := reported c ++ [state] |}, state)
  | _, _ => None
  end.

(** The poll's own send, which gives way to a state already there. *)
Definition HandleTransfer_requeue (c : channel) : option channel :=
  match requeueing c with
  | None => None
  | Some state => Some {| place := match place c with None => Some state | Some s => Some s end;
                          publishing := publishing c; requeueing := None; published := published c;
                          reported := reported c |}
  end.

(** The two goroutines, in any order. *)
Inductive step (again : S -> option S) (c : channel) : channel -> Prop :=
| s_drain state c' : UpdateInputState_drain state c = Some c' -> step again c c'
| s_send c' : UpdateInputState_send c = Some c' -> step again c c'
| s_receive c' s : HandleTransfer_receive again c = Some (c', s) -> step again c c'
| s_requeue c' : HandleTransfer_requeue c = Some c' -> step again c c'.

Inductive reachable (again : S -> option S) (neutral : S) : channel -> Prop :=
| r_new : reachable again neutral (New neutral)
| r_step c c' : reachable again neutral c -> step again c c' -> reachable again neutral c'.

(** What the host sees of the last publication: [mark] tells the states
    that must be seen at most once, [view] the part that must stay fresh. *)
Section Spec.
Context {V : Type} (again : S -> option S) (mark : S -> bool) (view : S -> V) (neutral : S).
Hypothesis again_unmarked : forall s z, again s = Some z -> mark z = false.
Hypothesis again_view : forall s z, again s = Some z -> view z = view s.

Definition marked (l : list S) : list S := List.filter mark l.
Definition newest (c : channel) : S := List.last (published c) neutral.

Record cinv (c : channel) : Prop := {
  ci_once : sublist (marked (reported c ++ option_list (place c) ++ option_list (publishing c))) (marked (published c));
  ci_again : forall z, requeueing c = Some z -> mark z = false;
  ci_publishing : forall s, publishing c = Some s -> s = newest c;
  ci_fresh : publishing c = None ->
    match place c with
    | Some s => view s = view (newest c)
    | None => view (List.last (reported c) neutral) = view (newest c)
    end;
  ci_requeue : forall z, publishing c = None -> requeueing c = Some z -> place c = None -> view z = view (newest c);
}.

Lemma marked_app l l' : marked (l ++ l') = marked l ++ marked l'.
Proof. apply List.filter_app. Qed.

Lemma last_snoc_view (l : list S) x d : List.last (l ++ [x]) d = x.
Proof. by rewrite List.last_last. Qed.

Lemma new_cinv : cinv (New neutral).
Proof. by split. Qed.

Lemma step_cinv c c' : cinv c -> step again c c' -> cinv c'.
Proof using again_unmarked again_view.
  intros [I1 I2 I3 I4 I5] Hs. destruct Hs as [state c' H|c' H|c' s H|c' H].
  - unfold UpdateInputState_drain in H. destruct (publishing c) eqn:Ep; [done|]. injection H as <-.
    split; cbn; try done.
    + rewrite !marked_app in *. apply sublist_app; [|done]. etrans; [|exact I1]. by apply sublist_inserts_r.
    + intros s [= <-]. unfold newest. cbn. by rewrite last_snoc_view.
  - unfold UpdateInputState_send in H. destruct (publishing c) as [s|] eqn:Ep; [|done].
    destruct (place c) eqn:El; [done|]. injection H as <-. specialize (I3 s eq_refl). split; cbn; try done.
    intros _. by rewrite I3.
  - unfold HandleTransfer_receive in H. destruct (place c) as [s0|] eqn:El; [|done].
    destruct (requeueing c) eqn:Er; [done|]. injection H as <- <-. split; cbn; try done.
    + by rewrite <-app_assoc.
    + intros z Hz. by eapply again_unmarked.
    + intros Hp. rewrite last_snoc_view. by apply I4.
    + intros z Hp Hz _. rewrite (again_view _ _ Hz). by apply I4.
  - unfold HandleTransfer_requeue in H. destruct (requeueing c) as [z|] eqn:Er; [|done]. injection H as <-.
    destruct (place c) as [s|] eqn:El; split; cbn; try done.
    + cbn in I1. rewrite !marked_app in *. cbn. by rewrite (I2 z eq_refl).
    + intros Hp. by apply I5.
Qed.

Lemma reachable_cinv c : reachable again neutral c -> cinv c.
Proof using again_unmarked again_view. induction 1; [apply new_cinv|by eapply step_cinv]. Qed.
End Spec.
End Channel.
Arguments channel : clear implicits.

(** ** A stream of frames

    What a handler reads from a connection that delivers [bytes] and then
    ends: the frames of [size] bytes, and whether the end fell between two
    frames (io.ReadFull reports io.EOF there and io.ErrUnexpectedEOF inside). *)
Fixpoint read_frames (fuel size : nat) (bytes : list Z) : list (list Z) * bool :=
  match fuel with
  | O => ([], false)
  | S fuel =>
      if (length bytes =? 0)%nat then ([], true)
      else if (length bytes <? size)%nat then ([], false)
      else let '(frames, clean) := read_frames fuel size (drop size bytes) in (take size bytes :: frames, clean)
  end.

Lemma read_frames_concat size frames fuel : (0 < size)%nat -> Forall (fun f => length f = size) frames ->
  (length frames < fuel)%nat -> read_frames fuel size (concat frames) = (frames, true).
Proof.
  intros Hs Hf. revert fuel. induction Hf as [|f frames Hl Hf IH]; intros [|fuel] Hn; try (cbn in Hn; lia); [done|].
  cbn [read_frames concat]. rewrite length_app, Hl.
  rewrite (proj2 (Nat.eqb_neq _ _)), (proj2 (Nat.ltb_ge _ _)) by lia.
  rewrite take_app_length', drop_app_length' by done. by rewrite IH by (cbn in Hn; lia).
Qed.

(** ** The report a descriptor announces

    Size and count are global items that stay in force; every Input or Output
    item adds its fields to the report. *)
Record layout := { ly_size : Z; ly_count : Z; ly_input : Z; ly_output : Z }.

Fixpoint layout_item (it : item) (ly : layout) : layout :=
  match it with
  | ReportSize bits => {| ly_size := bits; ly_count := ly_count ly; ly_input := ly_input ly; ly_output := ly_output ly |}
  | ReportCount count => {| ly_size := ly_size ly; ly_count := count; ly_input := ly_input ly; ly_output := ly_output ly |}
  | Input _ => {| ly_size := ly_size ly; ly_count := ly_count ly;
                  ly_input := ly_input ly + ly_size ly * ly_count ly; ly_output := ly_output ly |}
  | Output _ => {| ly_size := ly_size ly; ly_count := ly_count ly; ly_input := ly_input ly;
                   ly_output := ly_output ly + ly_size ly * ly_count ly |}
  | Collection _ items => (fix go (items : list item) (ly : layout) :=
      match items with [] => ly | it :: items => go items (layout_item it ly) end) items ly
  | _ => ly
  end.

Definition report_layout (items : list item) : layout :=
  foldl (fun ly it => layout_item it ly) {| ly_size := 0; ly_count := 0; ly_input := 0; ly_output := 0 |} items.

(** ** Creation options (src/device/options.go)

    The identifiers of the descriptor a client may replace. *)
Record CreateOptions := { o_IDVendor : option Z; o_IDProduct : option Z }.

Definition with_ids (o : option CreateOptions) (d : Descriptor) : Descriptor :=
  match o with
  | None => d
  | Some o =>
      let dev := d_Device d in {|
      d_Device := {| BcdUSB := BcdUSB dev; BDeviceClass := BDeviceClass dev; BDeviceSubClass := BDeviceSubClass dev;
        BDeviceProtocol := BDeviceProtocol dev; BMaxPacketSize0 := BMaxPacketSize0 dev;
        IDVendor := default (IDVendor dev) (o_IDVendor o); IDProduct := default (IDProduct dev) (o_IDProduct o);
        BcdDevice := BcdDevice dev; IManufacturer := IManufacturer dev; IProduct := IProduct dev;
        ISerialNumber := ISerialNumber dev; BNumConfigurations := BNumConfigurations dev; Speed := Speed dev |};
      d_Configuration := d_Configuration d; d_MicrosoftOS10 := d_MicrosoftOS10 d; d_Associations := d_Associations d;
      d_Interfaces := d_Interfaces d; d_Strings := d_Strings d |}
  end.
