(* ===== verification/Keyboard.v ===== *)
(** * Keyboard

    src/device/keyboard: the wire state a client sends, the report a host
    polls, the text helpers, the LEDs and the device over [InputChannel]. *)

From S2P Require Import Prelude Bytes Codec Hid Descriptor InputChannel.

Definition ModLeftShift : Z := 0x02.
Definition LEDNumLock : Z := 0x01.
Definition LEDCapsLock : Z := 0x02.
Definition LEDScrollLock : Z := 0x04.
Definition LEDCompose : Z := 0x08.
Definition LEDKana : Z := 0x10.

Definition KeyA : Z := 0x04.
Definition KeyB : Z := 0x05.
Definition KeyC : Z := 0x06.
Definition KeyD : Z := 0x07.
Definition KeyE : Z := 0x08.
Definition KeyF : Z := 0x09.
Definition KeyG : Z := 0x0A.
Definition KeyH : Z := 0x0B.
Definition KeyI : Z := 0x0C.
Definition KeyJ : Z := 0x0D.
Definition KeyK : Z := 0x0E.
Definition KeyL : Z := 0x0F.
Definition KeyM : Z := 0x10.
Definition KeyN : Z := 0x11.
Definition KeyO : Z := 0x12.
Definition KeyP : Z := 0x13.
Definition KeyQ : Z := 0x14.
Definition KeyR : Z := 0x15.
Definition KeyS : Z := 0x16.
Definition KeyT : Z := 0x17.
Definition KeyU : Z := 0x18.
Definition KeyV : Z := 0x19.
Definition KeyW : Z := 0x1A.
Definition KeyX : Z := 0x1B.
Definition KeyY : Z := 0x1C.
Definition KeyZ : Z := 0x1D.
Definition Key1 : Z := 0x1E.
Definition Key2 : Z := 0x1F.
Definition Key3 : Z := 0x20.
Definition Key4 : Z := 0x21.
Definition Key5 : Z := 0x22.
Definition Key6 : Z := 0x23.
Definition Key7 : Z := 0x24.
Definition Key8 : Z := 0x25.
Definition Key9 : Z := 0x26.
Definition Key0 : Z := 0x27.
Definition KeyEnter : Z := 0x28.
Definition KeyTab : Z := 0x2B.
Definition KeySpace : Z := 0x2C.
Definition KeyMinus : Z := 0x2D.
Definition KeyEqual : Z := 0x2E.
Definition KeyLeftBrace : Z := 0x2F.
Definition KeyRightBrace : Z := 0x30.
Definition KeyBackslash : Z := 0x31.
Definition KeySemicolon : Z := 0x33.
Definition KeyApostrophe : Z := 0x34.
Definition KeyGrave : Z := 0x35.
Definition KeyComma : Z := 0x36.
Definition KeyPeriod : Z := 0x37.
Definition KeySlash : Z := 0x38.

(** The maps of const.go, with characters as bytes. *)
Definition CharToKey : list (Z * Z) :=
  [(97, KeyA); (98, KeyB); (99, KeyC); (100, KeyD); (101, KeyE); (102, KeyF); (103, KeyG); (104, KeyH); (105,
   KeyI); (106, KeyJ); (107, KeyK); (108, KeyL); (109, KeyM); (110, KeyN); (111, KeyO); (112, KeyP); (113,
   KeyQ); (114, KeyR); (115, KeyS); (116, KeyT); (117, KeyU); (118, KeyV); (119, KeyW); (120, KeyX); (121,
   KeyY); (122, KeyZ); (65, KeyA); (66, KeyB); (67, KeyC); (68, KeyD); (69, KeyE); (70, KeyF); (71, KeyG); (72,
   KeyH); (73, KeyI); (74, KeyJ); (75, KeyK); (76, KeyL); (77, KeyM); (78, KeyN); (79, KeyO); (80, KeyP); (81,
   KeyQ); (82, KeyR); (83, KeyS); (84, KeyT); (85, KeyU); (86, KeyV); (87, KeyW); (88, KeyX); (89, KeyY); (90,
   KeyZ); (49, Key1); (50, Key2); (51, Key3); (52, Key4); (53, Key5); (54, Key6); (55, Key7); (56, Key8); (57,
   Key9); (48, Key0); (33, Key1); (64, Key2); (35, Key3); (36, Key4); (37, Key5); (94, Key6); (38, Key7); (42,
   Key8); (40, Key9); (41, Key0); (45, KeyMinus); (61, KeyEqual); (91, KeyLeftBrace); (93, KeyRightBrace); (92,
   KeyBackslash); (59, KeySemicolon); (39, KeyApostrophe); (96, KeyGrave); (44, KeyComma); (46, KeyPeriod); (47,
   KeySlash); (95, KeyMinus); (43, KeyEqual); (123, KeyLeftBrace); (125, KeyRightBrace); (124, KeyBackslash);
   (58, KeySemicolon); (34, KeyApostrophe); (126, KeyGrave); (60, KeyComma); (62, KeyPeriod); (63, KeySlash);
   (32, KeySpace); (10, KeyEnter); (13, KeyEnter); (9, KeyTab)].

Definition ShiftChars : list Z :=
  [65; 66; 67; 68; 69; 70; 71; 72; 73; 74; 75; 76; 77; 78; 79; 80; 81; 82; 83; 84; 85; 86; 87; 88; 89; 90; 33;
   64; 35; 36; 37; 94; 38; 42; 40; 41; 95; 43; 123; 125; 124; 58; 34; 126; 60; 62; 63].

Record InputState := { Modifiers : Z; KeyBitmap : list Z }.

Definition NewInputState : InputState := {| Modifiers := 0; KeyBitmap := zeros 32 |}.

(** [bitmap[key/8] & (1 << key%8) != 0] *)
Definition pressed (bitmap : list Z) (key : Z) : bool :=
  has_mask (byte_at bitmap (Z.to_nat (key / 8))) (Z.shiftl 1 (key mod 8)).

(** [bitmap[key/8] |= 1 << key%8] *)
Definition set_key (bitmap : list Z) (key : Z) : list Z :=
  put_at (Z.to_nat (key / 8)) [Z.lor (byte_at bitmap (Z.to_nat (key / 8))) (Z.shiftl 1 (key mod 8))] bitmap.

Definition BuildReport (kb : InputState) : list Z := Modifiers kb :: 0x00 :: KeyBitmap kb.

Definition pressed_keys (bitmap : list Z) : list Z := List.filter (pressed bitmap) (below 256).

Definition wire (modifiers : Z) (keys : list Z) : list Z := modifiers :: u8 (Z.of_nat (length keys)) :: keys.
Definition MarshalBinary (kb : InputState) : list Z := wire (Modifiers kb) (pressed_keys (KeyBitmap kb)).

Inductive wire_err := ErrUnexpectedEOF.

(** The receiver is updated in place: its modifiers even when the keys are missing. *)
Definition UnmarshalBinary (data : list Z) (kb : InputState) : InputState * option wire_err :=
  if (length data <? 2)%nat then (kb, Some ErrUnexpectedEOF)
  else
    let modifiers := byte_at data 0 in
    let keyCount := Z.to_nat (byte_at data 1) in
    if (length data <? 2 + keyCount)%nat then
      ({| Modifiers := modifiers; KeyBitmap := KeyBitmap kb |}, Some ErrUnexpectedEOF)
    else ({| Modifiers := modifiers; KeyBitmap := foldl set_key (zeros 32) (slice 2 (2 + keyCount) data) |}, None).

(** The handler's loop on a connection that delivers [bytes] and ends: the
    states published, and how the loop ended. *)
Inductive stream_end := ClientDisconnected | ReadHeaderError | ReadKeysError | UnmarshalError | OutOfFuel.

Fixpoint StreamHandler (fuel : nat) (bytes : list Z) : list InputState * stream_end :=
  match fuel with
  | O => ([], OutOfFuel)
  | S fuel =>
      if (length bytes =? 0)%nat then ([], ClientDisconnected)
      else if (length bytes <? 2)%nat then ([], ReadHeaderError)
      else
        let header := take 2 bytes in
        let keyCount := Z.to_nat (byte_at header 1) in
        let rest := drop 2 bytes in
        if (length rest <? keyCount)%nat then ([], ReadKeysError)
        else
          match UnmarshalBinary (header ++ take keyCount rest) NewInputState with
          | (_, Some _) => ([], UnmarshalError)
          | (state, None) =>
              let '(states, e) := StreamHandler fuel (drop keyCount rest) in (state :: states, e)
          end
  end.

(** *** Text *)

Definition CharToHID (c : Z) : Z :=
  match List.find (fun kv => fst kv =? c) CharToKey with Some (_, code) => code | None => 0 end.
Definition NeedsShift (c : Z) : bool := existsb (fun x => x =? c) ShiftChars.

Definition PressKeyWithMod (modifiers : Z) (keys : list Z) : InputState :=
  {| Modifiers := modifiers; KeyBitmap := foldl set_key (zeros 32) keys |}.
Definition PressKey (keys : list Z) : InputState := PressKeyWithMod 0 keys.
Definition Release : InputState := {| Modifiers := 0; KeyBitmap := zeros 32 |}.

Definition TypeChar (c : Z) : InputState * InputState :=
  let keyCode := CharToHID c in
  if keyCode =? 0 then (NewInputState, NewInputState)
  else (PressKeyWithMod (if NeedsShift c then ModLeftShift else 0) [keyCode], Release).

Definition TypeString (s : list Z) : list InputState :=
  flat_map (fun c => let '(press, release) := TypeChar c in [press; release]) s.

(** *** LEDs *)

Record LEDState := { NumLock : bool; CapsLock : bool; ScrollLock : bool; Compose : bool; Kana : bool }.

#[export] Instance LEDState_eq_dec : EqDecision LEDState.
Proof. solve_decision. Defined.

Definition ledStateFromMask (mask : Z) : LEDState := {|
  NumLock := has_mask mask LEDNumLock; CapsLock := has_mask mask LEDCapsLock;
  ScrollLock := has_mask mask LEDScrollLock; Compose := has_mask mask LEDCompose; Kana := has_mask mask LEDKana |}.

Definition LEDState_UnmarshalBinary (data : list Z) : option LEDState :=
  match data with [] => None | b :: _ => Some (ledStateFromMask b) end.

(** The byte the handler's callback writes to the client. *)
Definition led_byte (led : LEDState) : Z :=
  set_mask (Kana led) LEDKana (set_mask (Compose led) LEDCompose (set_mask (ScrollLock led) LEDScrollLock
    (set_mask (CapsLock led) LEDCapsLock (set_mask (NumLock led) LEDNumLock 0)))).

(** *** Descriptors *)

Definition reportDescriptor : list item :=
  [UsagePage UsagePageGenericDesktop; Usage UsageKeyboard;
   Collection CollectionApplication
     [UsagePage UsagePageKeyboard; UsageMinimum 0xE0; UsageMaximum 0xE7; LogicalMinimum 0; LogicalMaximum 1;
      ReportSize 1; ReportCount 8; Input (Z.lor (Z.lor MainData MainVar) MainAbs);
      ReportSize 8; ReportCount 1; Input MainConst;
      UsagePage UsagePageKeyboard; UsageMinimum 0x00; UsageMaximum 0xFF; LogicalMinimum 0; LogicalMaximum 1;
      ReportSize 1; ReportCount 256; Input (Z.lor (Z.lor MainData MainVar) MainAbs);
      UsagePage UsagePageLEDs; UsageMinimum 0x01; UsageMaximum 0x05; LogicalMinimum 0; LogicalMaximum 1;
      ReportSize 1; ReportCount 5; Output (Z.lor (Z.lor MainData MainVar) MainAbs);
      ReportSize 3; ReportCount 1; Output MainConst]].

Definition defaultDescriptor : Descriptor := {|
  d_Device := {| BcdUSB := 0x0200; BDeviceClass := 0x00; BDeviceSubClass := 0x00; BDeviceProtocol := 0x00;
    BMaxPacketSize0 := 0x40; IDVendor := 0x2E8A; IDProduct := 0x0010; BcdDevice := 0x0100; IManufacturer := 0x01;
    IProduct := 0x02; ISerialNumber := 0x03; BNumConfigurations := 0x01; Speed := 2 |};
  d_Configuration := {| cfg_BConfigurationValue := 0; cfg_IConfiguration := 0; cfg_BMAttributes := 0; cfg_BMaxPower := 0 |};
  d_MicrosoftOS10 := None;
  d_Associations := [];
  d_Interfaces :=
    [{| if_Descriptor := {| BInterfaceNumber := 0x00; BAlternateSetting := 0x00; BNumEndpoints := 0x02;
           BInterfaceClass := 0x03; BInterfaceSubClass := 0x00; BInterfaceProtocol := 0x00; IInterface := 0x00 |};
        if_HID := Some {|
           hf_Descriptor := {| BcdHID := 0x0111; BCountryCode := 0x00;
             hd_Descriptors := [{| sd_Type := ReportDescType; sd_Length := 0 |}] |};
           hf_ReportDescriptor := reportDescriptor; hf_ReportDescriptorBytes := [] |};
        if_Endpoints :=
          [{| BEndpointAddress := 0x81; ep_BMAttributes := 0x03; WMaxPacketSize := 0x0040; BInterval := 0x05;
              ep_Trailing := []; ep_ClassDescriptors := [] |};
           {| BEndpointAddress := 0x01; ep_BMAttributes := 0x03; WMaxPacketSize := 0x0008; BInterval := 0x05;
              ep_Trailing := []; ep_ClassDescriptors := [] |}];
        if_ClassDescriptors := [] |}];
  d_Strings := list_to_map [(0, [0xD0; 0x89]); (1, bytes_of_string "VIIPER"); (2, bytes_of_string "HID Keyboard");
                            (3, bytes_of_string "1337")];
|}.

(** *** The device *)

Record Keyboard := {
  kb_channel : channel InputState; ledState : Z; ledSeen : bool; ledCallback : bool; descriptor : Descriptor;
}.

Definition New (o : option CreateOptions) : Keyboard := {|
  kb_channel := InputChannel.New NewInputState; ledState := 0; ledSeen := false; ledCallback := false;
  descriptor := with_ids o defaultDescriptor |}.

(** Setting a callback replays what the host has set; the result is what
    the callback is called with. *)
Definition SetLEDCallback (present : bool) (k : Keyboard) : Keyboard * list LEDState :=
  ({| kb_channel := kb_channel k; ledState := ledState k; ledSeen := ledSeen k; ledCallback := present;
      descriptor := descriptor k |},
   if present && ledSeen k then [ledStateFromMask (ledState k)] else []).

Definition GetLEDState (k : Keyboard) : LEDState := ledStateFromMask (ledState k).

(** A transfer: the report, if any, and the callback's calls.  [None] waits
    for a report; [cancelled] when the select takes the context's end. *)
Definition HandleTransfer (cancelled : bool) (ep dir : Z) (out : list Z) (k : Keyboard) :
    option (Keyboard * option (list Z) * list LEDState) :=
  if dir =? DirIn then
    if ep =? 1 then
      if cancelled then Some (k, None, [])
      else
        match InputChannel.HandleTransfer_receive (fun _ => None) (kb_channel k) with
        | None => None
        | Some (c, st) =>
            Some ({| kb_channel := c; ledState := ledState k; ledSeen := ledSeen k; ledCallback := ledCallback k;
                   descriptor := descriptor k |},
                  Some (BuildReport st), [])
        end
    else Some (k, None, [])
  else if (dir =? DirOut) && (ep =? 1) then
    match out with
    | [] => Some (k, None, [])
    | b :: _ => Some ({| kb_channel := kb_channel k; ledState := b; ledSeen := true; ledCallback := ledCallback k;
                   descriptor := descriptor k |},
                      None, if ledCallback k then [ledStateFromMask b] else [])
    end
  else Some (k, None, []).

(** UpdateInputState, up to its send and from it. *)
Definition UpdateInputState (state : InputState) (k : Keyboard) : option Keyboard :=
  c ← UpdateInputState_drain state (kb_channel k); c ← UpdateInputState_send c;
  Some {| kb_channel := c; ledState := ledState k; ledSeen := ledSeen k; ledCallback := ledCallback k;
          descriptor := descriptor k |}.

(** *** The bitmap is a set of keys *)

Definition bitmap_ok (bm : list Z) : Prop := length bm = 32%nat /\ bytes_ok bm.

Lemma pressed_bit bm i : pressed bm i = Z.testbit (byte_at bm (Z.to_nat (i / 8))) (i mod 8).
Proof. unfold pressed. rewrite Z.shiftl_1_l. apply has_mask_bit. zsolve. Qed.

Lemma byte_at_set bm n v m : (n < length bm)%nat -> byte_at (put_at n [v] bm) m = if (m =? n)%nat then v else byte_at bm m.
Proof.
  intros Hn. unfold byte_at, put_at. cbn [length].
  destruct (Nat.eqb_spec m n) as [->|Hne].
  - rewrite app_nth2 by (rewrite length_take; lia). rewrite length_take, Nat.min_l, Nat.sub_diag by lia. done.
  - destruct (decide (m < n)%nat).
    + rewrite app_nth1 by (rewrite length_take; lia). by rewrite nth_firstn, (proj2 (Nat.ltb_lt _ _)).
    + rewrite app_nth2 by (rewrite length_take; lia). rewrite length_take, Nat.min_l by lia.
      destruct (m - n)%nat as [|k] eqn:Ek; [lia|]. cbn [app nth]. rewrite nth_skipn. f_equal. lia.
Qed.

Lemma set_key_ok bm k : bitmap_ok bm -> U8 k -> bitmap_ok (set_key bm k).
Proof.
  intros [Hl Hb] Hk. split; unfold set_key.
  - rewrite length_put_at; [done|]. cbn. zsolve.
  - apply put_at_ok; [|done]. apply List.Forall_cons; [|done]. 
    refine (set_mask_bound 8 true _ _ _ _ _); [lia| |by apply byte_at_ok].
    rewrite Z.shiftl_1_l. split; [apply Z.pow_nonneg; lia|]. apply Z.pow_lt_mono_r; zsolve.
Qed.

Lemma pressed_set bm k i : bitmap_ok bm -> U8 k -> U8 i -> pressed (set_key bm k) i = (pressed bm i || (i =? k))%bool.
Proof.
  intros [Hl Hb] Hk Hi. rewrite !pressed_bit. unfold set_key. rewrite byte_at_set by (rewrite Hl; zsolve).
  rewrite Z.shiftl_1_l. destruct (Nat.eqb_spec (Z.to_nat (i / 8)) (Z.to_nat (k / 8))) as [E|E].
  - rewrite Z.lor_spec, E. f_equal. destruct (Z.eqb_spec i k) as [->|Hne]; [apply Z.pow2_bits_true; zsolve|].
    apply Z.pow2_bits_false. zsolve.
  - destruct (Z.eqb_spec i k) as [->|Hne]; [done|]. by rewrite orb_false_r.
Qed.

Lemma fold_keys keys bm : bitmap_ok bm -> Forall (fun k => U8 k) keys -> bitmap_ok (foldl set_key bm keys) /\
  forall i, U8 i -> pressed (foldl set_key bm keys) i = (pressed bm i || existsb (fun k => k =? i) keys)%bool.
Proof.
  intros Hb Hk. revert bm Hb. induction Hk as [|k keys Hk1 Hk IH]; intros bm Hb; cbn.
  - split; [done|]. intros i _. by rewrite orb_false_r.
  - destruct (IH _ (set_key_ok bm k Hb Hk1)) as [H1 H2]. split; [done|]. intros i Hi.
    by rewrite H2, pressed_set, <-orb_assoc, (Z.eqb_sym k i).
Qed.

Lemma bitmap_ext a b : bitmap_ok a -> bitmap_ok b -> (forall i, U8 i -> pressed a i = pressed b i) -> a = b.
Proof.
  intros [La Ba] [Lb Bb] H. apply (nth_ext _ _ 0 0); [lia|]. intros n Hn.
  change (byte_at a n = byte_at b n). apply Z.bits_inj'. intros k Hk. destruct (decide (k < 8)).
  - specialize (H (8 * Z.of_nat n + k) ltac:(lia)). rewrite !pressed_bit in H.
    replace (Z.to_nat ((8 * Z.of_nat n + k) / 8)) with n in H by zsolve.
    replace ((8 * Z.of_nat n + k) mod 8) with k in H by zsolve. done.
  - assert (Hz : forall l, bytes_ok l -> Z.testbit (byte_at l n) k = false).
    { intros l Hl. pose proof (byte_at_ok l n Hl). refine (proj1 (Z.bounded_iff_bits_nonneg 8 _ _ _) _ k _); cbn; lia. }
    by rewrite !Hz.
Qed.

Lemma zero_bitmap_ok : bitmap_ok (zeros 32).
Proof. split; [done|apply zeros_ok]. Qed.

Lemma byte_at_zeros n m : byte_at (zeros n) m = 0.
Proof. unfold byte_at, zeros. revert m. induction n as [|n IH]; intros [|m]; cbn; auto. Qed.

Lemma pressed_zeros i : pressed (zeros 32) i = false.
Proof. by rewrite pressed_bit, byte_at_zeros, Z.bits_0. Qed.

Lemma below_bound n v : List.In v (below n) -> 0 <= v < Z.of_nat n.
Proof. unfold below. intros (k & <- & Hk)%in_map_iff. apply in_seq in Hk. lia. Qed.

Lemma pressed_keys_spec bm i : U8 i -> existsb (fun k => k =? i) (pressed_keys bm) = pressed bm i.
Proof.
  intros Hi. apply eq_true_iff_eq. rewrite existsb_exists. unfold pressed_keys. setoid_rewrite filter_In. split.
  - intros (k & [_ Hk] & E%Z.eqb_eq). by subst.
  - intros Hp. exists i. split; [|apply Z.eqb_refl]. split; [|done]. by apply below_In.
Qed.

Lemma pressed_keys_bytes bm : bytes_ok (pressed_keys bm).
Proof.
  unfold pressed_keys. apply List.Forall_forall. intros k Hk. apply filter_In in Hk as [Hk _].
  exact (below_bound 256 k Hk).
Qed.

Definition state_ok (kb : InputState) : Prop := U8 (Modifiers kb) /\ bitmap_ok (KeyBitmap kb).

(** What the pressed keys build is the bitmap. *)
Lemma rebuild_bitmap bm : bitmap_ok bm -> foldl set_key (zeros 32) (pressed_keys bm) = bm.
Proof.
  intros Hb. destruct (fold_keys (pressed_keys bm) (zeros 32) zero_bitmap_ok (pressed_keys_bytes bm)) as [H1 H2].
  apply bitmap_ext; [done|done|]. intros i Hi. by rewrite H2, pressed_zeros, pressed_keys_spec.
Qed.

Lemma unmarshal_wire m keys rest kb0 : (length keys < 256)%nat ->
  UnmarshalBinary (wire m keys ++ rest) kb0 = ({| Modifiers := m; KeyBitmap := foldl set_key (zeros 32) keys |}, None).
Proof.
  intros Hn. unfold UnmarshalBinary, wire. rewrite u8_id by lia. cbn [app length byte_at nth].
  rewrite Nat2Z.id, length_app, !(proj2 (Nat.ltb_ge _ _)) by lia. unfold slice.
  replace (2 + length keys - 2)%nat with (length keys) by lia. cbn [skipn]. by rewrite ?drop_0, take_app_length.
Qed.

(** One state on the wire, read by the handler's loop. *)
Lemma stream_wire m keys rest fuel : (length keys < 256)%nat -> StreamHandler (S fuel) (wire m keys ++ rest) =
  ({| Modifiers := m; KeyBitmap := foldl set_key (zeros 32) keys |} :: fst (StreamHandler fuel rest),
   snd (StreamHandler fuel rest)).
Proof.
  intros Hn. pose proof (unmarshal_wire m keys [] NewInputState Hn) as Hu. rewrite app_nil_r in Hu.
  unfold wire in *. rewrite u8_id in * by lia.
  cbn [StreamHandler app length Nat.eqb]. rewrite (proj2 (Nat.ltb_ge (S (S _)) 2)) by lia.
  cbn [firstn skipn byte_at nth]. rewrite Nat2Z.id, drop_0, take_0, length_app, (proj2 (Nat.ltb_ge _ (length keys))) by lia.
  rewrite take_app_length, drop_app_length. cbn [app]. rewrite Hu. by destruct (StreamHandler fuel rest).
Qed.

Definition sendable (kb : InputState) : Prop := state_ok kb /\ (length (pressed_keys (KeyBitmap kb)) < 256)%nat.

Lemma stream_states states fuel : Forall sendable states ->
  (length states < fuel)%nat -> StreamHandler fuel (flat_map MarshalBinary states) = (states, ClientDisconnected).
Proof.
  intros H. revert fuel. induction H as [|kb states [[Hm Hb] Hn] Hf IH]; intros [|fuel] Hl; cbn [length] in Hl; try lia; [done|].
  cbn [flat_map]. unfold MarshalBinary at 1. rewrite stream_wire, IH, rebuild_bitmap by (done || lia). by destruct kb.
Qed.

Lemma length_wires (wires : list (list Z)) : Forall (fun w => (0 < length w)%nat) wires ->
  (length wires <= length (concat wires))%nat.
Proof. induction 1; cbn; rewrite ?length_app; lia. Qed.

Lemma length_marshals states : (length states <= length (flat_map MarshalBinary states))%nat.
Proof.
  rewrite flat_map_concat_map. rewrite <-(length_map MarshalBinary states) at 1. apply length_wires.
  apply List.Forall_map, List.Forall_forall. intros kb _. unfold MarshalBinary. generalize (pressed_keys (KeyBitmap kb)).
  intros keys. cbn. lia.
Qed.

(** What a client types arrives.  A connection that carries the wire forms of any sequence of
    keyboard states, each with at most 255 keys down, makes the handler publish exactly those states, in
    order, and end as a clean disconnect. *)
Theorem keyboard_stream_roundtrip (states : list InputState) :
  Forall sendable states ->
  let bytes := flat_map MarshalBinary states in
  StreamHandler (S (length bytes)) bytes = (states, ClientDisconnected).
Proof. intros H. apply stream_states; [done|]. apply Nat.lt_succ_r, length_marshals. Qed.

(** With every key down the count wraps to zero: the keys are lost, and the
    reader takes them for the next states. *)
Example all_keys_lost :
  let kb := {| Modifiers := 0; KeyBitmap := List.repeat 255 32 |} in
  byte_at (MarshalBinary kb) 1 = 0 /\ UnmarshalBinary (MarshalBinary kb) NewInputState = (NewInputState, None).
Proof. by vm_compute. Qed.

Lemma keyboard_stream_roundtrip_witness :
  StreamHandler 16 (flat_map MarshalBinary (TypeString [72; 105; 33])) = (TypeString [72; 105; 33], ClientDisconnected).
Proof.
  pose proof (keyboard_stream_roundtrip (TypeString [72; 105; 33])) as H. cbv zeta in H.
  assert (Hf : Forall sendable (TypeString [72; 105; 33])).
  { unfold sendable, state_ok, bitmap_ok, bytes_ok. apply (bool_decide_eq_true_1 _). vm_compute. reflexivity. }
  specialize (H Hf). vm_compute in H. vm_compute. exact H.
Defined.

(** *** Text *)

Definition typed_as (c : Z) : Z * Z := (CharToHID c, if NeedsShift c then ModLeftShift else 0).

(** Every printable character is typed, as its own key and shift. *)
Lemma printable_typed : Forall (fun c => CharToHID c <> 0) (map (fun k => k + 32) (below 95)) /\
  NoDup (map typed_as (map (fun k => k + 32) (below 95))).
Proof. split; apply (bool_decide_eq_true_1 _); by vm_compute. Qed.

(** *** LEDs *)

(** The byte written to the client carries the host's five LEDs and nothing else. *)
Lemma led_byte_mask mask : U8 mask -> led_byte (ledStateFromMask mask) = Z.land mask 0x1F /\
  LEDState_UnmarshalBinary [led_byte (ledStateFromMask mask)] = Some (ledStateFromMask mask).
Proof.
  intros H. refine (all_below 256 (fun mask => led_byte (ledStateFromMask mask) = Z.land mask 0x1F /\
    LEDState_UnmarshalBinary [led_byte (ledStateFromMask mask)] = Some (ledStateFromMask mask)) _ mask H). by vm_compute.
Qed.

(** LEDs the host has set reach a client that comes later: the callback set
    after an output report is called with that report's LEDs, and so is one
    that was there. *)
Lemma leds_reach_client b rest k : let host := HandleTransfer false 1 DirOut (b :: rest) k in
  exists k', host = Some (k', None, if ledCallback k then [ledStateFromMask b] else []) /\
    GetLEDState k' = ledStateFromMask b /\ snd (SetLEDCallback true k') = [ledStateFromMask b] /\
    kb_channel k' = kb_channel k.
Proof. by eexists. Qed.

(** *** The channel *)

(** Every state is reported at most once and in order, and once a publication
    is through the host has polled it or is about to. *)
Lemma keyboard_latest_reported c : reachable (fun _ => None) NewInputState c ->
  sublist (reported c) (published c) /\
  (publishing c = None -> match place c with
     | Some st => st = List.last (published c) NewInputState
     | None => List.last (reported c) NewInputState = List.last (published c) NewInputState
     end).
Proof.
  intros H. destruct (reachable_cinv (fun _ => None) (fun _ => true) id NewInputState
    (fun _ _ E => ltac:(discriminate E)) (fun _ _ E => ltac:(discriminate E)) c H) as [I1 _ _ I4 _].
  assert (Hall : forall l : list InputState, marked (fun _ => true) l = l)
    by (intros l; induction l as [|x l IH]; [done|exact (f_equal (cons x) IH)]).
  rewrite !Hall in I1. split; [|done]. etrans; [|exact I1]. by apply sublist_inserts_r.
Qed.

(** *** The descriptor *)

(** The report descriptor announces exactly the report that is built and the
    one LED byte, and both fit their endpoints' packets. *)
Lemma keyboard_report_announced st : bitmap_ok (KeyBitmap st) ->
  let ly := report_layout reportDescriptor in
  ly_input ly = 8 * Z.of_nat (length (BuildReport st)) /\ ly_output ly = 8 /\
  map (fun i => map WMaxPacketSize (if_Endpoints i)) (d_Interfaces defaultDescriptor) = [[64; 8]] /\
  (length (BuildReport st) <= 64)%nat.
Proof. intros [Hl _] ly. unfold BuildReport. cbn [length]. rewrite Hl. subst ly. repeat split; lia. Qed.
