(* ===== verification/Mouse.v ===== *)
(** * Mouse

    src/device/mouse: the wire state, the report, and the device, whose polls
    leave the buttons without the movement behind in [InputChannel]. *)

From S2P Require Import Prelude Bytes Codec Hid Descriptor InputChannel.

Record InputState := { Buttons : Z; DX : Z; DY : Z; Wheel : Z; Pan : Z }.

#[export] Instance InputState_eq_dec : EqDecision InputState.
Proof. solve_decision. Defined.

Definition NewInputState : InputState := {| Buttons := 0; DX := 0; DY := 0; Wheel := 0; Pan := 0 |}.

(** [byte(v), byte(v >> 8)] *)
Definition axis_bytes (v : Z) : list Z := [u8 v; u8 (Z.shiftr v 8)].
(** [int16(lo) | int16(hi)<<8] *)
Definition axis (lo hi : Z) : Z := i16 (Z.lor lo (Z.shiftl hi 8)).

Definition movement_bytes (m : InputState) : list Z :=
  axis_bytes (DX m) ++ axis_bytes (DY m) ++ axis_bytes (Wheel m) ++ axis_bytes (Pan m).

Definition BuildReport (m : InputState) : list Z := Z.land (Buttons m) 0x1F :: movement_bytes m.
Definition MarshalBinary (m : InputState) : list Z := Buttons m :: movement_bytes m.

Definition UnmarshalBinary (data : list Z) : option InputState :=
  if (length data <? 9)%nat then None
  else Some {| Buttons := byte_at data 0; DX := axis (byte_at data 1) (byte_at data 2);
               DY := axis (byte_at data 3) (byte_at data 4); Wheel := axis (byte_at data 5) (byte_at data 6);
               Pan := axis (byte_at data 7) (byte_at data 8) |}.

(** The states a connection publishes, and whether it ended between two of them. *)
Definition StreamHandler (bytes : list Z) : list InputState * bool :=
  let '(frames, clean) := read_frames (S (length bytes)) 9 bytes in (omap UnmarshalBinary frames, clean).

(** Movement is relative: a poll that takes movement leaves the same buttons
    without movement behind. *)
Definition moves (st : InputState) : bool :=
  negb (DX st =? 0) || negb (DY st =? 0) || negb (Wheel st =? 0) || negb (Pan st =? 0).
Definition again (st : InputState) : option InputState :=
  if moves st then Some {| Buttons := Buttons st; DX := 0; DY := 0; Wheel := 0; Pan := 0 |} else None.

Definition reportDescriptor : list item :=
  [UsagePage UsagePageGenericDesktop; Usage UsageMouse;
   Collection CollectionApplication
     [Usage UsagePointer;
      Collection CollectionPhysical
        [UsagePage UsagePageButton; UsageMinimum 0x01; UsageMaximum 0x05; LogicalMinimum 0; LogicalMaximum 1;
         ReportCount 5; ReportSize 1; Input (Z.lor (Z.lor MainData MainVar) MainAbs);
         ReportCount 1; ReportSize 3; Input MainConst;
         UsagePage UsagePageGenericDesktop; Usage UsageX; Usage UsageY; LogicalMinimum (-32768); LogicalMaximum 32767;
         ReportSize 16; ReportCount 2; Input (Z.lor (Z.lor MainData MainVar) MainRel);
         Usage UsageWheel; LogicalMinimum (-32768); LogicalMaximum 32767; ReportSize 16; ReportCount 1;
         Input (Z.lor (Z.lor MainData MainVar) MainRel);
         UsagePage UsagePageConsumer; Usage UsageACPan; LogicalMinimum (-32768); LogicalMaximum 32767; ReportSize 16;
         ReportCount 1; Input (Z.lor (Z.lor MainData MainVar) MainRel)]]].

Definition defaultDescriptor : Descriptor := {|
  d_Device := {| BcdUSB := 0x0200; BDeviceClass := 0x00; BDeviceSubClass := 0x00; BDeviceProtocol := 0x00;
    BMaxPacketSize0 := 0x40; IDVendor := 0x2E8A; IDProduct := 0x0011; BcdDevice := 0x0100; IManufacturer := 0x01;
    IProduct := 0x02; ISerialNumber := 0x03; BNumConfigurations := 0x01; Speed := 2 |};
  d_Configuration := {| cfg_BConfigurationValue := 0; cfg_IConfiguration := 0; cfg_BMAttributes := 0; cfg_BMaxPower := 0 |};
  d_MicrosoftOS10 := None;
  d_Associations := [];
  d_Interfaces :=
    [{| if_Descriptor := {| BInterfaceNumber := 0x00; BAlternateSetting := 0x00; BNumEndpoints := 0x01;
           BInterfaceClass := 0x03; BInterfaceSubClass := 0x01; BInterfaceProtocol := 0x02; IInterface := 0x00 |};
        if_HID := Some {|
           hf_Descriptor := {| BcdHID := 0x0111; BCountryCode := 0x00;
             hd_Descriptors := [{| sd_Type := ReportDescType; sd_Length := 0 |}] |};
           hf_ReportDescriptor := reportDescriptor; hf_ReportDescriptorBytes := [] |};
        if_Endpoints :=
          [{| BEndpointAddress := 0x81; ep_BMAttributes := 0x03; WMaxPacketSize := 0x0010; BInterval := 0x05;
              ep_Trailing := []; ep_ClassDescriptors := [] |}];
        if_ClassDescriptors := [] |}];
  d_Strings := list_to_map [(0, [0xD0; 0x89]); (1, bytes_of_string "VIIPER"); (2, bytes_of_string "HID Mouse");
                            (3, bytes_of_string "1337")];
|}.

(** The device: its channel and its descriptor. *)
Record Mouse := { m_channel : channel InputState; descriptor : Descriptor }.

Definition New (o : option CreateOptions) : Mouse := {|
  m_channel := InputChannel.New NewInputState; descriptor := with_ids o defaultDescriptor |}.

(** A transfer: [None] waits for a state; [cancelled] when the select takes the context's end. *)
Definition HandleTransfer (cancelled : bool) (ep dir : Z) (m : Mouse) : option (Mouse * option (list Z)) :=
  if dir =? DirIn then
    if ep =? 1 then
      if cancelled then Some (m, None)
      else
        '(c, st) ← HandleTransfer_receive again (m_channel m);
        Some ({| m_channel := default c (HandleTransfer_requeue c); descriptor := descriptor m |}, Some (BuildReport st))
    else Some (m, None)
  else Some (m, None).

Definition UpdateInputState (state : InputState) (m : Mouse) : option Mouse :=
  c ← UpdateInputState_drain state (m_channel m); c ← UpdateInputState_send c;
  Some {| m_channel := c; descriptor := descriptor m |}.

(** *** The wire form *)

Definition state_ok (m : InputState) : Prop := U8 (Buttons m) /\ I16 (DX m) /\ I16 (DY m) /\ I16 (Wheel m) /\ I16 (Pan m).

Lemma lor_bytes lo hi : U8 lo -> Z.lor lo (Z.shiftl hi 8) = lo + 256 * hi.
Proof.
  intros H. pose proof (Z.add_lor_land lo (Z.shiftl hi 8)) as Ha. rewrite Z.shiftl_mul_pow2 in * by lia.
  assert (E : Z.land lo (hi * 2 ^ 8) = 0); [|lia].
  apply Z.bits_inj'. intros k Hk. rewrite Z.land_spec, Z.bits_0. destruct (decide (k < 8)).
  - by rewrite Z.mul_pow2_bits_low, andb_false_r.
  - by rewrite <-(Z.mod_small lo (2 ^ 8)), Z.mod_pow2_bits_high by lia.
Qed.

Lemma axis_roundtrip v : I16 v -> axis (u8 v) (u8 (Z.shiftr v 8)) = v.
Proof.
  intros H. unfold axis. rewrite lor_bytes, Z.shiftr_div_pow2 by (unfold u8; zsolve).
  rewrite <-(i16_u16 v) at 3 by done. f_equal. unfold u16, u8. zsolve.
Qed.

Lemma mouse_wire_roundtrip m : state_ok m -> UnmarshalBinary (MarshalBinary m) = Some m.
Proof.
  intros (Hb & Hx & Hy & Hw & Hp). unfold UnmarshalBinary, MarshalBinary, movement_bytes, axis_bytes.
  cbn [length app Nat.ltb Nat.leb byte_at nth]. rewrite !axis_roundtrip by done. by destruct m.
Qed.

Lemma length_mouse_wire m : length (MarshalBinary m) = 9%nat.
Proof. reflexivity. Qed.

Lemma omap_head {A B} (f : A -> option B) x l :
  omap f (x :: l) = match f x with Some y => y :: omap f l | None => omap f l end.
Proof. reflexivity. Qed.

Lemma unmarshal_all states : Forall state_ok states -> omap UnmarshalBinary (map MarshalBinary states) = states.
Proof. induction 1 as [|m states Hm Hf IH]; [done|]. cbn [map]. rewrite omap_head, mouse_wire_roundtrip by done. by f_equal. Qed.

(** What a client moves arrives: a connection that carries the wire forms of
    any states makes the handler publish exactly those. *)
Lemma mouse_stream_roundtrip states : Forall state_ok states ->
  StreamHandler (flat_map MarshalBinary states) = (states, true).
Proof.
  intros H. unfold StreamHandler. rewrite flat_map_concat_map, read_frames_concat.
  - by rewrite unmarshal_all.
  - lia.
  - apply List.Forall_map, List.Forall_forall. intros. apply length_mouse_wire.
  - rewrite length_map. clear. induction states as [|m states IH]; cbn; lia.
Qed.

(** *** The channel *)

Lemma again_still st z : again st = Some z -> moves z = false.
Proof. unfold again. destruct (moves st); [|done]. by intros [= <-]. Qed.

Lemma again_buttons st z : again st = Some z -> Buttons z = Buttons st.
Proof. unfold again. destruct (moves st); [|done]. by intros [= <-]. Qed.

(** What the host ends up with: the buttons of the state in the channel, or of
    the last report when the channel is empty. *)
Definition settled (c : channel InputState) : Z :=
  Buttons (match place c with Some st => st | None => List.last (reported c) NewInputState end).

(** C37: movement is reported at most once and buttons stay current.  Under every interleaving of the
    client's stream with the host's polls, including a poll that puts the buttons back while a publication
    is between its drain and its send, the reports that move are, in order, among the states that were
    published (no movement is repeated or made up), and once a publication is through the host has, or is
    about to poll, the buttons of the last one. *)
Theorem mouse_motion_once (c : channel InputState) :
  reachable again NewInputState c ->
  sublist (List.filter moves (reported c)) (List.filter moves (published c)) /\
  (publishing c = None -> settled c = Buttons (List.last (published c) NewInputState)).
Proof.
  intros H. destruct (reachable_cinv again moves Buttons NewInputState again_still again_buttons c H) as [I1 _ _ I4 _].
  split.
  - etrans; [|exact I1]. rewrite marked_app. by apply sublist_inserts_r.
  - intros Hp. unfold settled. specialize (I4 Hp). by destruct (place c).
Qed.

Definition moved : InputState := {| Buttons := 1; DX := 5; DY := -3; Wheel := 0; Pan := 0 |}.
Definition click : InputState := {| Buttons := 2; DX := 0; DY := 0; Wheel := 0; Pan := 0 |}.

(** The poll of the neutral state, a movement, its poll, and a click whose
    drain runs before the poll puts the buttons back. *)
Definition raced : channel InputState := {|
  place := Some {| Buttons := 1; DX := 0; DY := 0; Wheel := 0; Pan := 0 |}; publishing := Some click; requeueing := None;
  published := [NewInputState; moved; click]; reported := [NewInputState; moved] |}.

Lemma raced_reachable : reachable again NewInputState raced.
Proof.
  pose proof (r_new again NewInputState) as H.
  eapply r_step in H; [|by eapply s_receive]. eapply r_step in H; [|by apply (s_drain _ _ moved)].
  eapply r_step in H; [|by apply s_send]. eapply r_step in H; [|by eapply s_receive].
  eapply r_step in H; [|by apply (s_drain _ _ click)]. eapply r_step in H; [|by apply s_requeue]. exact H.
Qed.

Lemma mouse_motion_once_witness : reachable again NewInputState raced /\
  sublist (List.filter moves (reported raced)) (List.filter moves (published raced)).
Proof. split; [exact raced_reachable|]. exact (proj1 (mouse_motion_once raced raced_reachable)). Defined.

(** The device's operations are steps of its channel. *)
Lemma transfer_reachable cancelled ep dir m m' r : reachable again NewInputState (m_channel m) ->
  HandleTransfer cancelled ep dir m = Some (m', r) -> reachable again NewInputState (m_channel m').
Proof.
  intros Hr. unfold HandleTransfer. repeat case_if; intros H; simplify_eq; try done.
  destruct (HandleTransfer_receive again (m_channel m)) as [[c st]|] eqn:E; [|done]. cbn in H. simplify_eq. cbn.
  assert (Hc : reachable again NewInputState c) by (eapply r_step; [done|by eapply s_receive]).
  destruct (HandleTransfer_requeue c) eqn:E2; [|done]. cbn. eapply r_step; [done|by eapply s_requeue].
Qed.

Lemma update_reachable state m m' : reachable again NewInputState (m_channel m) ->
  UpdateInputState state m = Some m' -> reachable again NewInputState (m_channel m').
Proof.
  intros Hr. unfold UpdateInputState. destruct (UpdateInputState_drain _ _) as [c|] eqn:E; [|done]. cbn.
  destruct (UpdateInputState_send c) as [c'|] eqn:E2; [|done]. cbn. intros [= <-]. cbn.
  eapply r_step; [eapply r_step; [done|by eapply s_drain]|by eapply s_send].
Qed.

(** A state that moves, published on an idle device, is the next report, and
    the one after it has the same buttons and no movement. *)
Lemma motion_polled_once state m m' : m_channel m = InputChannel.New NewInputState -> moves state = true ->
  UpdateInputState state m = Some m' ->
  exists m1 m2, HandleTransfer false 1 DirIn m' = Some (m1, Some (BuildReport state)) /\
    HandleTransfer false 1 DirIn m1 = Some (m2, Some (Z.land (Buttons state) 0x1F :: zeros 8)) /\
    HandleTransfer false 1 DirIn m2 = None.
Proof.
  destruct m as [c d]. cbn. intros -> Hm [= <-]. unfold HandleTransfer, HandleTransfer_receive, again. cbn.
  rewrite Hm. cbn. by eexists _, _.
Qed.

(** *** The descriptor *)

(** The report descriptor announces exactly the report that is built, and it
    fits the packet of the endpoint. *)
Lemma mouse_report_announced st : let ly := report_layout reportDescriptor in
  ly_input ly = 8 * Z.of_nat (length (BuildReport st)) /\ ly_output ly = 0 /\
  Forall (fun i => Forall (fun e => Z.of_nat (length (BuildReport st)) <= WMaxPacketSize e) (if_Endpoints i))
    (d_Interfaces defaultDescriptor).
Proof. vm_compute. repeat constructor; discriminate. Qed.

(** Host and client see the same five buttons and the same movement. *)
Lemma mouse_report_of_wire m : BuildReport m = Z.land (byte_at (MarshalBinary m) 0) 0x1F :: drop 1 (MarshalBinary m).
Proof. reflexivity. Qed.
