(* ===== verification/Xbox360.v ===== *)
(** * Xbox 360 controller

    src/device/xbox360: the wire state a client sends and the report a host
    reads, and the device that joins them through the scheduler of
    [InputPresentation]: producers and their leases, the staging of the
    freshest state while the scheduler recovers from a fault, rumble, the
    descriptor and the capability request.

    A method is a function on the device; what it does under
    [inputLifecycleMu] is one step.  Only [signalInput], which fills a
    one-place channel, may run after the unlock; it is kept with its method.
    Every call of time.Now is an argument.  The mutex of the rumble callback
    serializes its calls, which are returned as a list. *)

From Stdlib Require Import Sorting.Sorted.
From S2P Require Import Prelude Bytes Codec Hid Descriptor InputChannel InputPresentation InputHistory InputClaims InputProtocol.

(** ** State and report (inputstate.go) *)

Record InputState := {
  Buttons : Z; LT : Z; RT : Z; LX : Z; LY : Z; RX : Z; RY : Z; Reserved : list Z;
}.

Definition NewInputState : InputState :=
  {| Buttons := 0; LT := 0; RT := 0; LX := 0; LY := 0; RX := 0; RY := 0; Reserved := zeros 6 |}.

(** [binary.LittleEndian.PutUint16(b[i:i+2], uint16(v))] of the four sticks, and the reserved bytes. *)
Definition put_sticks (x : InputState) (b : list Z) : list Z :=
  let b := put_at 6 (le_bytes 2 (u16 (LX x))) b in
  let b := put_at 8 (le_bytes 2 (u16 (LY x))) b in
  let b := put_at 10 (le_bytes 2 (u16 (RX x))) b in
  let b := put_at 12 (le_bytes 2 (u16 (RY x))) b in
  put_at 14 (Reserved x) b.

Definition BuildReportInto (x : InputState) (size : nat) : list Z * Z :=
  if (size <? 20)%nat then (zeros size, 0)
  else
    let b := zeros 20 in
    let b := put_at 0 [0x00] b in
    let b := put_at 1 [0x14] b in
    let b := put_at 2 (le_bytes 2 (u16 (Z.land (Buttons x) 0xffff))) b in
    let b := put_at 4 [LT x] b in
    let b := put_at 5 [RT x] b in
    (put_sticks x b ++ zeros (size - 20), 20).

Definition BuildReport (x : InputState) : list Z := fst (BuildReportInto x 20).

Definition MarshalBinary (x : InputState) : list Z :=
  let b := zeros 20 in
  let b := put_at 0 (le_bytes 4 (Buttons x)) b in
  let b := put_at 4 [LT x] b in
  let b := put_at 5 [RT x] b in
  put_sticks x b.

Definition UnmarshalBinary (data : list Z) : option InputState :=
  if (length data <? 20)%nat then None
  else Some {|
    Buttons := le_val (slice 0 4 data); LT := byte_at data 4; RT := byte_at data 5;
    LX := i16 (le_val (slice 6 8 data)); LY := i16 (le_val (slice 8 10 data));
    RX := i16 (le_val (slice 10 12 data)); RY := i16 (le_val (slice 12 14 data));
    Reserved := slice 14 20 data |}.

Record XRumbleState := { LeftMotor : Z; RightMotor : Z }.

Definition XRumbleState_MarshalBinary (r : XRumbleState) : list Z := [LeftMotor r; RightMotor r].
Definition XRumbleState_UnmarshalBinary (data : list Z) : option XRumbleState :=
  if (length data <? 2)%nat then None
  else Some {| LeftMotor := byte_at data 0; RightMotor := byte_at data 1 |}.

(** ** The device (device.go) *)

Definition xbox360InputTransition (previous next : InputState) : bool :=
  negb (Buttons previous =? Buttons next) || negb (Bool.eqb (LT previous =? 0) (LT next =? 0)) ||
  negb (Bool.eqb (RT previous =? 0) (RT next =? 0)).

Definition encode_report (x : unit) (state : InputState) (size : nat) : unit * (InputState * list Z * Z) :=
  let '(data, n) := BuildReportInto state size in (x, (state, data, n)).

Local Notation sched := (FixedReportScheduler InputState unit).

Record Xbox360 := {
  input : sched;
  inputSignal : bool;
  producerActive : bool;
  compatProducerUsed : bool;
  retiredCompatibilityLease : Z;
  pendingResync : InputState;
  pendingResyncAt : Z;
  hasPendingResync : bool;
  rumbleFunc : bool;
  rumbleState : XRumbleState;
  rumbleSeen : bool;
  descriptor : Descriptor;
}.

Definition set_input (s : sched) (x : Xbox360) : Xbox360 := {|
  input := s; inputSignal := inputSignal x; producerActive := producerActive x;
  compatProducerUsed := compatProducerUsed x; retiredCompatibilityLease := retiredCompatibilityLease x;
  pendingResync := pendingResync x; pendingResyncAt := pendingResyncAt x; hasPendingResync := hasPendingResync x;
  rumbleFunc := rumbleFunc x; rumbleState := rumbleState x; rumbleSeen := rumbleSeen x; descriptor := descriptor x |}.
Definition set_signal (b : bool) (x : Xbox360) : Xbox360 := {|
  input := input x; inputSignal := b; producerActive := producerActive x;
  compatProducerUsed := compatProducerUsed x; retiredCompatibilityLease := retiredCompatibilityLease x;
  pendingResync := pendingResync x; pendingResyncAt := pendingResyncAt x; hasPendingResync := hasPendingResync x;
  rumbleFunc := rumbleFunc x; rumbleState := rumbleState x; rumbleSeen := rumbleSeen x; descriptor := descriptor x |}.
Definition set_producer (active compat : bool) (retired : Z) (x : Xbox360) : Xbox360 := {|
  input := input x; inputSignal := inputSignal x; producerActive := active;
  compatProducerUsed := compat; retiredCompatibilityLease := retired;
  pendingResync := pendingResync x; pendingResyncAt := pendingResyncAt x; hasPendingResync := hasPendingResync x;
  rumbleFunc := rumbleFunc x; rumbleState := rumbleState x; rumbleSeen := rumbleSeen x; descriptor := descriptor x |}.
Definition set_resync (state : InputState) (at_ : Z) (b : bool) (x : Xbox360) : Xbox360 := {|
  input := input x; inputSignal := inputSignal x; producerActive := producerActive x;
  compatProducerUsed := compatProducerUsed x; retiredCompatibilityLease := retiredCompatibilityLease x;
  pendingResync := state; pendingResyncAt := at_; hasPendingResync := b;
  rumbleFunc := rumbleFunc x; rumbleState := rumbleState x; rumbleSeen := rumbleSeen x; descriptor := descriptor x |}.
Definition set_rumble (func : bool) (state : XRumbleState) (seen : bool) (x : Xbox360) : Xbox360 := {|
  input := input x; inputSignal := inputSignal x; producerActive := producerActive x;
  compatProducerUsed := compatProducerUsed x; retiredCompatibilityLease := retiredCompatibilityLease x;
  pendingResync := pendingResync x; pendingResyncAt := pendingResyncAt x; hasPendingResync := hasPendingResync x;
  rumbleFunc := func; rumbleState := state; rumbleSeen := seen; descriptor := descriptor x |}.

Definition signalInput (x : Xbox360) : Xbox360 := set_signal true x.

(** *** Descriptor *)

Definition interrupt (address size interval : Z) : EndpointDescriptor := {|
  BEndpointAddress := address; ep_BMAttributes := 0x03; WMaxPacketSize := size; BInterval := interval;
  ep_Trailing := []; ep_ClassDescriptors := [] |}.

Definition vendor_interface (number eps subclass protocol string_ type : Z) (payload : list Z)
    (endpoints : list EndpointDescriptor) : InterfaceConfig := {|
  if_Descriptor := {| BInterfaceNumber := number; BAlternateSetting := 0x00; BNumEndpoints := eps;
    BInterfaceClass := 0xff; BInterfaceSubClass := subclass; BInterfaceProtocol := protocol; IInterface := string_ |};
  if_Endpoints := endpoints; if_HID := None;
  if_ClassDescriptors := [{| cd_DescriptorType := type; cd_Payload := payload |}] |}.

Definition MakeDescriptor : Descriptor := {|
  d_Device := {| BcdUSB := 0x0200; BDeviceClass := 0xff; BDeviceSubClass := 0xff; BDeviceProtocol := 0xff;
    BMaxPacketSize0 := 0x08; IDVendor := 0x045e; IDProduct := 0x028e; BcdDevice := 0x0114; IManufacturer := 0x01;
    IProduct := 0x02; ISerialNumber := 0x03; BNumConfigurations := 0x01; Speed := 2 |};
  d_Configuration := {| cfg_BConfigurationValue := 0; cfg_IConfiguration := 0; cfg_BMAttributes := 0; cfg_BMaxPower := 0 |};
  d_MicrosoftOS10 := None;
  d_Associations := [];
  d_Interfaces :=
    [vendor_interface 0x00 0x02 0x5d 0x01 0x00 0x21
       [0x00; 0x01; 0x01; 0x25; 0x81; 0x14; 0x00; 0x00; 0x00; 0x00; 0x13; 0x01; 0x08; 0x00; 0x00]
       [interrupt 0x81 0x0020 0x01; interrupt 0x01 0x0020 0x08];
     vendor_interface 0x01 0x04 0x5d 0x03 0x00 0x21
       [0x00; 0x01; 0x01; 0x01; 0x82; 0x40; 0x01; 0x02; 0x20; 0x16; 0x83; 0x00; 0x00; 0x00; 0x00; 0x00; 0x00; 0x16;
        0x03; 0x00; 0x00; 0x00; 0x00; 0x00; 0x00]
       [interrupt 0x82 0x0020 0x02; interrupt 0x02 0x0020 0x04; interrupt 0x83 0x0020 0x40; interrupt 0x03 0x0020 0x10];
     vendor_interface 0x02 0x01 0x5d 0x02 0x00 0x21 [0x00; 0x01; 0x01; 0x22; 0x84; 0x07; 0x00]
       [interrupt 0x84 0x0020 0x10];
     vendor_interface 0x03 0x00 0xfd 0x13 0x04 0x41 [0x00; 0x01; 0x01; 0x03] []];
  d_Strings := list_to_map [(0, [0xD0; 0x89]); (1, 0xC2 :: 0xA9 :: bytes_of_string "Microsoft Corporation");
    (2, bytes_of_string "VIIPER Controller"); (3, bytes_of_string "296013F")];
|}.

(** [descriptor.Interfaces[0].ClassDescriptors[0].Payload[2]] *)
Definition subtype_of (d : Descriptor) : Z :=
  match d_Interfaces d with
  | i :: _ => match if_ClassDescriptors i with c :: _ => byte_at (cd_Payload c) 2 | [] => 0 end
  | [] => 0
  end.

Definition set_subtype (v : Z) (d : Descriptor) : Descriptor :=
  let on_class c := {| cd_DescriptorType := cd_DescriptorType c; cd_Payload := put_at 2 [v] (cd_Payload c) |} in
  let on_first {A} (f : A -> A) (l : list A) := match l with a :: l => f a :: l | [] => [] end in
  let on_interface i := {| if_Descriptor := if_Descriptor i; if_Endpoints := if_Endpoints i; if_HID := if_HID i;
                           if_ClassDescriptors := on_first on_class (if_ClassDescriptors i) |} in
  {| d_Device := d_Device d; d_Configuration := d_Configuration d; d_MicrosoftOS10 := d_MicrosoftOS10 d;
     d_Associations := d_Associations d; d_Interfaces := on_first on_interface (d_Interfaces d); d_Strings := d_Strings d |}.

(** *** Construction *)

Record Xbox360CreateOptions := { SubType : option Z; MaximumOrderedAgeMilliseconds : option Z }.

Inductive xbox360_err := ErrJSON | ErrOrderedAge | ErrScheduler (e : new_err).

(** [args] is what json.Unmarshal makes of a non-empty device-specific string;
    [None] is its error. *)
Definition New (o : option CreateOptions) (args : option Xbox360CreateOptions) (now : Z) :
    result xbox360_err (config InputState unit * Xbox360) :=
  match args with
  | None => Err ErrJSON
  | Some args =>
      let age := match MaximumOrderedAgeMilliseconds args with
        | None => Ok 0
        | Some ms => if (ms <? 1) || (60000 <? ms) then Err ErrOrderedAge else Ok (ms * 1000000)
        end in
      let? maximumOrderedAge := age in
      let created := if 0 <? maximumOrderedAge
        then NewFixedReportSchedulerWithMaximumOrderedAge NewInputState 20 NewInputState (Some encode_report)
               (Some xbox360InputTransition) maximumOrderedAge now now tt
        else NewFixedReportSchedulerWithOverflowFault NewInputState 20 NewInputState (Some encode_report)
               (Some xbox360InputTransition) now now tt in
      match created with
      | Err e => Err (ErrScheduler e)
      | Ok (cfg, s) =>
          let d := with_ids o MakeDescriptor in
          let d := match o, SubType args with Some _, Some v => set_subtype v d | _, _ => d end in
          Ok (cfg, {| input := s; inputSignal := true; producerActive := false; compatProducerUsed := false;
                      retiredCompatibilityLease := 0; pendingResync := NewInputState; pendingResyncAt := zero_time;
                      hasPendingResync := false; rumbleFunc := false;
                      rumbleState := {| LeftMotor := 0; RightMotor := 0 |}; rumbleSeen := false; descriptor := d |})
      end
  end.

Section Device.
Context (cfg : config InputState unit).
Local Notation T0 := NewInputState.

(** *** Resynchronization *)

Definition stageInputResynchronization (state : InputState) (receivedAt : Z) (x : Xbox360) : Xbox360 :=
  if negb (hasPendingResync x) || negb (receivedAt <? pendingResyncAt x)
  then set_resync state receivedAt true x else x.

Definition clearInputResynchronization (x : Xbox360) : Xbox360 := set_resync T0 zero_time false x.

Definition tryPublishInputResynchronizationLocked (now : Z) (x : Xbox360) : Xbox360 * bool :=
  if negb (hasPendingResync x) then (x, false)
  else
    let '(s, disposition) := Resynchronize cfg (ProducerLease (input x)) (pendingResync x) (pendingResyncAt x) now (input x) in
    let x := set_input s x in
    match disposition with
    | PublishAcceptedResynchronization => (signalInput (clearInputResynchronization x), true)
    | _ => (x, false)
    end.

(** *** Producers *)

Definition publishInputStateWithLease (lease : Z) (state : InputState) (receivedAt now : Z) (x : Xbox360) :
    Xbox360 * (Z * FixedReportPublishDisposition) :=
  let '(s, disposition) := PublishWithLease T0 cfg lease state receivedAt now (input x) in
  let x := set_input s x in
  if Accepted disposition then (signalInput x, (lease, disposition))
  else
    let currentLease := ProducerLease s in
    if lease =? retiredCompatibilityLease x then (x, (currentLease, disposition))
    else
      match disposition with
      | PublishFaultedOverflow | PublishRejectedNeutralPending =>
          (signalInput (stageInputResynchronization state receivedAt x), (currentLease, disposition))
      | PublishRejectedStaleProducer | PublishRejectedResynchronizationRequired =>
          if mandatoryNeutralPending (ft s) || resynchronizationNeeded (ft s)
          then (signalInput (stageInputResynchronization state receivedAt x), (currentLease, disposition))
          else (x, (currentLease, disposition))
      | _ => (x, (currentLease, disposition))
      end.

(** UpdateInputState up to its read of the lease, which is before it takes
    inputLifecycleMu: transports and resets may run between the two. *)
Definition update_begin (x : Xbox360) : Xbox360 * option Z :=
  if producerActive x then (x, None)
  else
    let x := set_producer false true (retiredCompatibilityLease x) x in
    (x, Some (ProducerLease (input x))).

Definition UpdateInputState (state : InputState) (now : Z) (x : Xbox360) : Xbox360 * bool :=
  match update_begin x with
  | (x, None) => (x, false)
  | (x, Some lease) =>
      let '(x, (_, disposition)) := publishInputStateWithLease lease state now now x in
      (x, Accepted disposition)
  end.

Definition acquireInputProducer (now : Z) (x : Xbox360) : Xbox360 * (Z * bool) :=
  if producerActive x then (x, (0, false))
  else
    let lease := ProducerLease (input x) in
    if compatProducerUsed x then
      let '(s, (fresh, retired)) := RetireProducerLease T0 cfg lease now now (input x) in
      if negb retired then (set_input s x, (0, false))
      else (signalInput (set_producer true false lease (clearInputResynchronization (set_input s x))), (fresh, true))
    else (set_producer true false (retiredCompatibilityLease x) x, (lease, true)).

Definition releaseInputProducer (now : Z) (x : Xbox360) : Xbox360 :=
  if negb (producerActive x) then x
  else
    let x := clearInputResynchronization x in
    let '(s, (_, retired)) := RetireProducerLease T0 cfg (ProducerLease (input x)) now now (input x) in
    let x := set_producer false (compatProducerUsed x) (if retired then 0 else retiredCompatibilityLease x) (set_input s x) in
    if retired then signalInput x else x.

(** *** Presentation *)

Definition ClaimInput (destination : list Z) (selectedAt now : Z) (x : Xbox360) : Xbox360 * (Claim * list Z) :=
  let '(s, r) := ClaimInputPresentation T0 cfg destination selectedAt now (input x) in (set_input s x, r).

Definition CanAdmitInput (claim : Claim) (admittedAt now : Z) (x : Xbox360) : Xbox360 * bool :=
  let '(s, ok) := CanAdmitInputPresentation T0 cfg claim admittedAt now (input x) in (set_input s x, ok).

Definition ResolveInput (claim : Claim) (outcome completedAt now : Z) (x : Xbox360) : Xbox360 * bool :=
  let '(s, resolved) := ResolveInputPresentation T0 cfg claim outcome completedAt now (input x) in
  let x := set_input s x in
  (if resolved && (outcome =? OutcomeCommit) then fst (tryPublishInputResynchronizationLocked now x) else x, resolved).

Definition RetireInputGeneration (gen retiredAt now : Z) (x : Xbox360) : Xbox360 * bool :=
  let '(s, retired) := RetireInputPresentationGeneration T0 cfg gen retiredAt now (input x) in
  let x := set_input s x in
  (if retired then clearInputResynchronization x else x, retired).

Definition OwnsInputPresentationEndpoint (endpoint : Z) : bool := endpoint =? 1.
Definition InputPresentationGeneration (x : Xbox360) : Z := generation (ep (input x)).

(** Claim, admit and commit in one call; [now1] to [now3] are its clock readings. *)
Definition BuildInputReportInto (destination : list Z) (now1 now2 now3 : Z) (x : Xbox360) : Xbox360 * (list Z * Z) :=
  let '(x, (claim, destination)) := ClaimInput destination now1 now1 x in
  if negb (Claim_Valid claim) then (x, (destination, 0))
  else
    let '(x, admitted) := CanAdmitInput claim now2 now2 x in
    if negb admitted then (fst (ResolveInput claim OutcomeDefer now3 now3 x), (destination, 0))
    else (fst (ResolveInput claim OutcomeCommit now3 now3 x), (destination, Size claim)).

Definition buildInputReport (now1 now2 now3 : Z) (x : Xbox360) : Xbox360 * option (list Z) :=
  let '(x, (report, n)) := BuildInputReportInto (zeros 20) now1 now2 now3 x in
  (x, if n =? 0 then None else Some report).

(** *** Rumble *)

Definition SetRumbleCallback (present : bool) (x : Xbox360) : Xbox360 * list XRumbleState :=
  (set_rumble present (rumbleState x) (rumbleSeen x) x, if present && rumbleSeen x then [rumbleState x] else []).

Definition emitRumble (rumble : XRumbleState) (x : Xbox360) : Xbox360 * list XRumbleState :=
  (set_rumble (rumbleFunc x) rumble true x, if rumbleFunc x then [rumble] else []).

(** *** Transfers *)

(** What ends the wait of a poll. *)
Inductive wake := Cancelled | DeadlineExceeded | Signalled.

(** [None] while the wait goes on. *)
Definition HandleTransfer (w : wake) (ep dir : Z) (out : list Z) (now1 now2 now3 : Z) (x : Xbox360) :
    option (Xbox360 * option (list Z) * list XRumbleState) :=
  if dir =? DirIn then
    if ep =? 1 then
      match w with
      | Cancelled => Some (x, None, [])
      | DeadlineExceeded => let '(x, r) := buildInputReport now1 now2 now3 x in Some (x, r, [])
      | Signalled =>
          if inputSignal x
          then let '(x, r) := buildInputReport now1 now2 now3 (set_signal false x) in Some (x, r, [])
          else None
      end
    else Some (x, None, [])
  else if (dir =? DirOut) && (ep =? 1) then
    if (8 <=? length out)%nat && (byte_at out 0 =? 0x00) && (byte_at out 1 =? 0x08)
    then let '(x, calls) := emitRumble {| LeftMotor := byte_at out 3; RightMotor := byte_at out 4 |} x in
         Some (x, None, calls)
    else Some (x, None, [])
  else Some (x, None, []).

Definition HandleControl (bmRequestType bRequest wValue : Z) (x : Xbox360) : option (list Z) :=
  if (bmRequestType =? 0xC1) && (bRequest =? 0x01) && (wValue =? 0x0100) then
    let extra := if subtype_of (descriptor x) =? 0x01 then [0xFF; 0xFF; 0xFF; 0xFF; 0x00; 0x00]
                 else [0xFF; 0xFF; 0xFF; 0xFF; 0xFF; 0xFF] in
    Some ([0x00; 0x14; 0xFF; 0xFF; 0xFF; 0xFF; 0xFF; 0x7F; 0xFF; 0x7F; 0xFF; 0x7F; 0xFF; 0x7F] ++ extra)
  else None.

(** *** The stream (handler.go)

    One frame of the read loop: the lease for the next frame, or the error
    that ends the stream. *)
Inductive stream_err := ErrUnmarshal | ErrDisposition (d : FixedReportPublishDisposition).

Definition stream_frame (lease : Z) (buf : list Z) (receivedAt now : Z) (x : Xbox360) :
    Xbox360 * result stream_err Z :=
  match UnmarshalBinary buf with
  | None => (x, Err ErrUnmarshal)
  | Some state =>
      let '(x, (lease, disposition)) := publishInputStateWithLease lease state receivedAt now x in
      if Accepted disposition then (x, Ok lease)
      else
        match disposition with
        | PublishRejectedOverflow | PublishFaultedOverflow | PublishRejectedNeutralPending
        | PublishRejectedResynchronizationRequired | PublishRejectedStaleProducer => (x, Ok lease)
        | _ => (x, Err (ErrDisposition disposition))
        end
  end.
End Device.

(** ** The wire form and the report *)

Definition state_ok (x : InputState) : Prop :=
  U32 (Buttons x) /\ U8 (LT x) /\ U8 (RT x) /\ I16 (LX x) /\ I16 (LY x) /\ I16 (RX x) /\ I16 (RY x) /\
  length (Reserved x) = 6%nat.

Definition sticks (x : InputState) : list Z :=
  le_bytes 2 (u16 (LX x)) ++ le_bytes 2 (u16 (LY x)) ++ le_bytes 2 (u16 (RX x)) ++ le_bytes 2 (u16 (RY x)) ++ Reserved x.

Lemma list_len6 {A} (l : list A) : length l = 6%nat -> exists a b c d e f, l = [a; b; c; d; e; f].
Proof. destruct l as [|a [|b [|c [|d [|e [|f [|g l]]]]]]]; try discriminate. intros _. by eexists _, _, _, _, _, _. Qed.

Lemma marshal_image x : length (Reserved x) = 6%nat ->
  MarshalBinary x = le_bytes 4 (Buttons x) ++ [LT x; RT x] ++ sticks x.
Proof. destruct x as [bt lt rt lx ly rx ry r]. cbn [Reserved]. intros (r0 & r1 & r2 & r3 & r4 & r5 & ->)%list_len6. reflexivity. Qed.

Lemma report_image x : length (Reserved x) = 6%nat ->
  BuildReport x = [0x00; 0x14] ++ le_bytes 2 (u16 (Z.land (Buttons x) 0xffff)) ++ [LT x; RT x] ++ sticks x.
Proof. destruct x as [bt lt rt lx ly rx ry r]. cbn [Reserved]. intros (r0 & r1 & r2 & r3 & r4 & r5 & ->)%list_len6. reflexivity. Qed.

Lemma length_xbox360_wire x : length (Reserved x) = 6%nat -> length (MarshalBinary x) = 20%nat.
Proof. intros Hr. rewrite marshal_image by done. unfold sticks. by autorewrite with len; rewrite Hr. Qed.

Lemma length_report x : length (Reserved x) = 6%nat -> length (BuildReport x) = 20%nat.
Proof. intros Hr. rewrite report_image by done. unfold sticks. by autorewrite with len; rewrite Hr. Qed.

Lemma stick_roundtrip v : I16 v -> i16 (le_val (le_bytes 2 (u16 v))) = v.
Proof. intros H. rewrite le_val_small; [by apply i16_u16|]. cbn. apply u16_range. Qed.

Lemma xbox360_wire_roundtrip x : state_ok x -> UnmarshalBinary (MarshalBinary x) = Some x.
Proof.
  intros (Hb & _ & _ & Hlx & Hly & Hrx & Hry & Hr). unfold UnmarshalBinary.
  rewrite length_xbox360_wire by done. cbn [Nat.ltb Nat.leb]. rewrite marshal_image by done.
  apply list_len6 in Hr as (r0 & r1 & r2 & r3 & r4 & r5 & Hr). unfold sticks. rewrite Hr.
  transitivity (Some {| Buttons := le_val (le_bytes 4 (Buttons x)); LT := LT x; RT := RT x;
    LX := i16 (le_val (le_bytes 2 (u16 (LX x)))); LY := i16 (le_val (le_bytes 2 (u16 (LY x))));
    RX := i16 (le_val (le_bytes 2 (u16 (RX x)))); RY := i16 (le_val (le_bytes 2 (u16 (RY x))));
    Reserved := [r0; r1; r2; r3; r4; r5] |}); [reflexivity|].
  rewrite !stick_roundtrip, (le_val_small 4), <-Hr by done. by destruct x.
Qed.

(** The report shows the low sixteen buttons and everything else of the state. *)
Lemma xbox360_report_of_wire x : state_ok x ->
  drop 4 (BuildReport x) = drop 4 (MarshalBinary x) /\ slice 2 4 (BuildReport x) = slice 0 2 (MarshalBinary x).
Proof.
  intros (Hb & _ & _ & _ & _ & _ & _ & Hr). rewrite marshal_image, report_image by done. split; [done|].
  transitivity (le_bytes 2 (u16 (Z.land (Buttons x) 65535))); [done|].
  transitivity (le_bytes 2 (Buttons x)); [|done]. cbn [le_bytes].
  change 65535 with (Z.ones 16). rewrite Z.land_ones by lia. unfold u16. apply (f_equal2 cons); [|apply (f_equal2 cons); [|done]]; zsolve.
Qed.

(** ** Runs of the device

    The calls of any number of goroutines, in any order: a client's stream or
    library calls, the transport's claims, resets, rumble.  An update whose lease
    is stale by the time it publishes is [DUpdateBegin], other calls, and
    [DPublish] of that lease. *)
Section Runs.
Context (cfg : config InputState unit).
Local Notation T0 := NewInputState.
Implicit Types (x : Xbox360) (s : sched).

Inductive dop :=
| DUpdate (state : InputState) (now : Z)
| DUpdateBegin
| DAcquire (now : Z)
| DRelease (now : Z)
| DPublish (lease : Z) (state : InputState) (receivedAt now : Z)
| DClaim (destination : list Z) (at_ now : Z)
| DAdmit (claim : Claim) (at_ now : Z)
| DResolve (claim : Claim) (outcome at_ now : Z)
| DRetire (gen at_ now : Z)
| DRumbleCallback (present : bool)
| DRumble (rumble : XRumbleState)
| DWake.

Definition exec x (o : dop) : Xbox360 :=
  match o with
  | DUpdate state now => fst (UpdateInputState cfg state now x)
  | DUpdateBegin => fst (update_begin x)
  | DAcquire now => fst (acquireInputProducer cfg now x)
  | DRelease now => releaseInputProducer cfg now x
  | DPublish lease state at_ now => fst (publishInputStateWithLease cfg lease state at_ now x)
  | DClaim destination at_ now => fst (ClaimInput cfg destination at_ now x)
  | DAdmit claim at_ now => fst (CanAdmitInput cfg claim at_ now x)
  | DResolve claim outcome at_ now => fst (ResolveInput cfg claim outcome at_ now x)
  | DRetire gen at_ now => fst (RetireInputGeneration cfg gen at_ now x)
  | DRumbleCallback present => fst (SetRumbleCallback present x)
  | DRumble rumble => fst (emitRumble rumble x)
  | DWake => set_signal false x
  end.

(** The scheduler's methods a call of the device runs. *)
Definition calls x (o : dop) : list (@op InputState) :=
  match o with
  | DUpdate state now =>
      if producerActive x then [] else [OPublishWithLease (ProducerLease (input x)) state now now]
  | DAcquire now =>
      if producerActive x then []
      else if compatProducerUsed x then [ORetireLease (ProducerLease (input x)) now now] else []
  | DRelease now => if producerActive x then [ORetireLease (ProducerLease (input x)) now now] else []
  | DPublish lease state at_ now => [OPublishWithLease lease state at_ now]
  | DClaim destination at_ now => [OClaim destination at_ now]
  | DAdmit claim at_ now => [OAdmit claim at_ now]
  | DResolve claim outcome at_ now =>
      let '(s, resolved) := ResolveInputPresentation T0 cfg claim outcome at_ now (input x) in
      OResolve claim outcome at_ now ::
      (if resolved && (outcome =? OutcomeCommit) && hasPendingResync x
       then [OResynchronize (ProducerLease s) (pendingResync x) (pendingResyncAt x) now] else [])
  | DRetire gen at_ now => [ORetire gen at_ now]
  | _ => []
  end.

Fixpoint all_calls x (ops : list dop) : list (@op InputState) :=
  match ops with [] => [] | o :: ops => calls x o ++ all_calls (exec x o) ops end.

Definition drun x (ops : list dop) : Xbox360 := foldl exec x ops.

Lemma calls_length x o : (length (calls x o) <= 2)%nat.
Proof.
  destruct o; cbn [calls length]; repeat case_if; cbn [length]; try lia.
  destruct (ResolveInputPresentation _ _ _ _ _ _ _) as [s r]. repeat case_if; cbn [length]; lia.
Qed.

Lemma all_calls_length ops x : (length (all_calls x ops) <= 2 * length ops)%nat.
Proof.
  revert x. induction ops as [|o ops IH]; intros x; cbn [all_calls length]; [lia|].
  rewrite length_app. pose proof (calls_length x o). specialize (IH (exec x o)). lia.
Qed.

(** *** One call *)

Lemma sc_after_publish s d (g : @trace InputState unit) : sc (after_publish T0 s d g) = s.
Proof. by destruct d. Qed.

Lemma stage_input state at_ x : input (stageInputResynchronization state at_ x) = input x.
Proof. unfold stageInputResynchronization. by case_if. Qed.

Lemma publish_input lease state at_ now x :
  input (fst (publishInputStateWithLease cfg lease state at_ now x)) =
  fst (PublishWithLease T0 cfg lease state at_ now (input x)).
Proof.
  unfold publishInputStateWithLease. destruct (PublishWithLease _ _ _ _ _ _ _) as [s d].
  case_if; [done|]. case_if; [done|]. destruct d; try done; try (case_if; [|done]); apply stage_input.
Qed.

Lemma exec_calls x o (g : @trace InputState unit) : sc g = input x ->
  sc (foldl (step T0 cfg) g (calls x o)) = input (exec x o).
Proof.
  intros Hg. destruct o; cbn [calls exec].
  - unfold UpdateInputState, update_begin. case_if; [done|]. cbn [foldl step].
    rewrite Hg. pose proof (publish_input (ProducerLease (input x)) state now now
      (set_producer false true (retiredCompatibilityLease x) x)) as Hp. cbn [input set_producer] in Hp.
    cbn [input set_producer]. destruct (PublishWithLease _ _ _ _ _ _ _) as [s d].
    destruct (publishInputStateWithLease _ _ _ _ _ _) as [x' [l d']]. rewrite sc_after_publish. by symmetry.
  - unfold update_begin. by case_if.
  - unfold acquireInputProducer. case_if; [done|]. case_if; [|done]. cbn [foldl step]. rewrite Hg.
    destruct (RetireProducerLease _ _ _ _ _ _) as [s [l r]]. by destruct r.
  - unfold releaseInputProducer. case_if; [|done]. cbn [negb foldl step]. rewrite Hg.
    change (input (clearInputResynchronization x)) with (input x).
    destruct (RetireProducerLease _ _ _ _ _ _) as [s [l r]]. by destruct r.
  - cbn [foldl step]. rewrite Hg, publish_input. destruct (PublishWithLease _ _ _ _ _ _ _) as [s d].
    apply sc_after_publish.
  - unfold ClaimInput. cbn [foldl step]. rewrite Hg.
    destruct (ClaimInputPresentation _ _ _ _ _ _) as [s [c dst]]. by case_if.
  - unfold CanAdmitInput. cbn [foldl step]. rewrite Hg.
    destruct (CanAdmitInputPresentation _ _ _ _ _ _) as [s ok]. by case_if.
  - unfold ResolveInput. destruct (ResolveInputPresentation _ _ _ _ _ _ _) as [s r] eqn:Er. cbn [foldl step].
    rewrite Hg, Er. cbn [fst]. destruct (r && (outcome =? OutcomeCommit)); [|done].
    unfold tryPublishInputResynchronizationLocked. cbn [andb set_input hasPendingResync pendingResync pendingResyncAt input].
    destruct (hasPendingResync x); [|done]. cbn [negb foldl step sc with_sc].
    by destruct (Resynchronize _ _ _ _ _ _) as [s' []].
  - unfold RetireInputGeneration, RetireInputPresentationGeneration. cbn [foldl step]. rewrite Hg.
    destruct (RetireInputPresentationGenerationWithCurrentState _ _ _ _ _ _) as [s [t|]]; done.
  - done.
  - done.
  - done.
Qed.

Lemma drun_calls ops x (g : @trace InputState unit) : sc g = input x ->
  sc (foldl (step T0 cfg) g (all_calls x ops)) = input (drun x ops).
Proof.
  revert x g. induction ops as [|o ops IH]; intros x g Hg; [done|]. cbn [all_calls drun foldl].
  rewrite foldl_app. apply IH. by apply exec_calls.
Qed.

(** *** Staging

    A state is staged only while the scheduler is recovering. *)

Lemma fault_faulted reason at_ now s : faulted (enterHistoryFault T0 cfg reason at_ now s) = true.
Proof. reflexivity. Qed.

Lemma restore_frame s : ft (restoreFailedSelection T0 cfg s) = ft s /\ ep (restoreFailedSelection T0 cfg s) = ep s.
Proof. unfold restoreFailedSelection. by destruct (claimSource (cl s)). Qed.

Lemma encode_claimed_frame src e s :
  ft (fst (encode_claimed T0 cfg src e s)) = ft s /\ ep (fst (encode_claimed T0 cfg src e s)) = ep s.
Proof.
  unfold encode_claimed. destruct (encode _ _ _ _) as [y [[t data] n]]. case_if; [done|]. cbn [fst].
  by rewrite !(proj1 (restore_frame _)), !(proj2 (restore_frame _)).
Qed.

Lemma select_ft s : mandatoryNeutralPending (ft s) = false -> ft (fst (select T0 cfg s)) = ft s.
Proof.
  intros Ep. unfold select. rewrite Ep. case_if; [done|]. case_if.
  - unfold popJournal. by rewrite (proj1 (encode_claimed_frame _ _ _)).
  - case_if; [by rewrite (proj1 (encode_claimed_frame _ _ _))|done].
Qed.

Lemma select_ep s : ep (fst (select T0 cfg s)) = ep s.
Proof.
  unfold select. case_if.
  - unfold select_neutral. case_if; [done|]. destruct (encode _ _ _ _) as [y [[t data] n]]. by case_if.
  - case_if; [done|]. case_if.
    + unfold popJournal. by rewrite (proj2 (encode_claimed_frame _ _ _)).
    + case_if; [by rewrite (proj2 (encode_claimed_frame _ _ _))|done].
Qed.

Lemma select_faulted s : faulted (fst (select T0 cfg s)) = faulted s.
Proof.
  destruct (mandatoryNeutralPending (ft s)) eqn:Ep; [|unfold faulted; by rewrite select_ft].
  unfold select, select_neutral, faulted. rewrite Ep. case_if; cbn; [by rewrite ?Ep|].
  destruct (encode _ _ _ _) as [y [[t data] n]]. case_if; cbn; by rewrite ?Ep.
Qed.

Lemma claim_faulted destination at_ now s : faulted s = true ->
  faulted (fst (ClaimInputPresentation T0 cfg destination at_ now s)) = true.
Proof.
  intros Hf. unfold ClaimInputPresentation. case_if; [done|]. case_if; [done|].
  destruct (pendingPresentationFaultRequired _ _ _ s) as [s1 stale] eqn:E1.
  set (s2 := if stale then _ else s1). assert (H2 : faulted s2 = true).
  { unfold s2. destruct stale; [apply fault_faulted|]. rewrite <-Hf. unfold pendingPresentationFaultRequired in E1.
    repeat case_if_in E1; by simplify_eq. }
  pose proof (select_faulted s2) as H3. destruct (select T0 cfg s2) as [s3 ok]. cbn [fst] in H3. rewrite H2 in H3.
  by destruct ok.
Qed.

Lemma admit_faulted claim at_ now s : faulted s = true ->
  faulted (fst (CanAdmitInputPresentation T0 cfg claim at_ now s)) = true.
Proof. intros Hf. unfold CanAdmitInputPresentation. by repeat case_if. Qed.

Lemma resolve_faulted claim outcome at_ now s : faulted s = true -> outcome <> OutcomeRetire ->
  faulted (fst (ResolveInputPresentation T0 cfg claim outcome at_ now s)) = true.
Proof.
  intros Hf Ho. unfold ResolveInputPresentation. case_if; [done|]. case_if; [done|]. case_if; [done|].
  destruct (if or_now at_ now <? _ then _ else _) as [s0 t0] eqn:E0.
  assert (Hf0 : faulted s0 = true) by (case_if_in E0; by injection E0 as <- <-).
  case_if; [apply fault_faulted|]. case_if.
  { unfold commit. case_bool_decide; cbn; [|done]. reflexivity. }
  case_if; [unfold defer; by repeat case_if|].
  exfalso. unfold Outcome_Valid, OutcomeCommit, OutcomeDefer, OutcomeRetire in *. bool_prop. lia.
Qed.

Lemma resynchronize_faulted lease t at_ now s s' d : Resynchronize cfg lease t at_ now s = (s', d) ->
  d <> PublishAcceptedResynchronization -> faulted s' = faulted s.
Proof.
  unfold Resynchronize. intros H Hd. repeat (case_if_in H; [by injection H as <- <-|]).
  destruct (observeProducerTimestamp cfg _ s) as [s0 ok] eqn:E. apply observe_same, same_faulted in E as [E _].
  case_if_in H; injection H as <- <-; [|done]. exact E.
Qed.

(** A rejected frame is staged in a faulted scheduler. *)
Lemma publish_faults lease t at_ now s s' d : PublishWithLease T0 cfg lease t at_ now s = (s', d) ->
  match d with
  | PublishFaultedOverflow | PublishRejectedNeutralPending => faulted s' = true
  | _ => faulted s = true -> faulted s' = true
  end.
Proof.
  intros H. pose proof (faulted_rejects T0 cfg lease t at_ now s) as Hr. rewrite H in Hr.
  assert (Hk : faulted s = true -> faulted s' = true).
  { intros Hf. destruct (Hr Hf) as [_ [-> _]%same_faulted]. done. }
  destruct d; try done; unfold PublishWithLease, publishLocked in H.
  - case_if_in H; [discriminate|]. case_if_in H; [injection H as <-; apply Hk; unfold faulted; by rewrite Hb0|].
    case_if_in H; [discriminate|]. destruct (observeProducerTimestamp _ _ _) as [s0 ok]. repeat case_if_in H; discriminate.
  - do 3 (case_if_in H; [discriminate|]). destruct (observeProducerTimestamp _ _ _) as [s0 ok].
    repeat case_if_in H; try discriminate. by injection H as <-.
Qed.

Definition staged_faulted x : Prop := hasPendingResync x = true -> faulted (input x) = true.

Lemma stage_faulted state at_ x : faulted (input x) = true -> staged_faulted (stageInputResynchronization state at_ x).
Proof. intros Hf _. by rewrite stage_input. Qed.

Lemma publish_staged lease t at_ now x : staged_faulted x ->
  staged_faulted (fst (publishInputStateWithLease cfg lease t at_ now x)).
Proof.
  intros Hx. unfold publishInputStateWithLease.
  destruct (PublishWithLease _ _ _ _ _ _ _) as [s d] eqn:E. pose proof (publish_faults _ _ _ _ _ _ _ E) as Hd.
  assert (Hs : staged_faulted (set_input s x)).
  { intros Hp. specialize (Hx Hp). pose proof (faulted_rejects T0 cfg lease t at_ now (input x) Hx) as Hr.
    rewrite E in Hr. destruct Hr as [_ [E2 _]%same_faulted]. cbn. congruence. }
  case_if; [done|]. case_if; [done|].
  destruct d; try done; try (by apply stage_faulted); (case_if; [by apply stage_faulted|done]).
Qed.

Definition retires (o : dop) : bool := match o with DResolve _ outcome _ _ => outcome =? OutcomeRetire | _ => false end.

Lemma exec_staged x o : staged_faulted x -> retires o = false -> staged_faulted (exec x o).
Proof.
  intros Hx Hr. destruct o; cbn [exec].
  - unfold UpdateInputState, update_begin. case_if; [done|].
    pose proof (publish_staged (ProducerLease (input (set_producer false true (retiredCompatibilityLease x) x))) state now now
      (set_producer false true (retiredCompatibilityLease x) x) Hx) as Hp.
    by destruct (publishInputStateWithLease _ _ _ _ _ _) as [x' [l d]].
  - unfold update_begin. by case_if.
  - unfold acquireInputProducer. case_if; [done|]. case_if; [|done].
    destruct (RetireProducerLease _ _ _ _ _ _) as [s [l r]] eqn:E. destruct r; cbn [negb fst]; [done|].
    unfold RetireProducerLease in E. repeat case_if_in E; try discriminate; injection E as <- <-; done.
  - unfold releaseInputProducer. case_if; [done|].
    destruct (RetireProducerLease _ _ _ _ _ _) as [s [l r]]. by destruct r.
  - by apply publish_staged.
  - unfold ClaimInput. intros Hp. cbn [exec]. pose proof (claim_faulted destination at_ now (input x)) as Hc.
    destruct (ClaimInputPresentation _ _ _ _ _ _) as [s r]. by apply Hc, Hx.
  - unfold CanAdmitInput. intros Hp. pose proof (admit_faulted claim at_ now (input x)) as Hc.
    destruct (CanAdmitInputPresentation _ _ _ _ _ _) as [s r]. by apply Hc, Hx.
  - unfold ResolveInput. pose proof (resolve_faulted claim outcome at_ now (input x)) as Hc.
    destruct (ResolveInputPresentation _ _ _ _ _ _ _) as [s r]. cbn [fst] in *.
    assert (Hs : staged_faulted (set_input s x)).
    { intros Hp. apply Hc; [by apply Hx|]. intros ->. discriminate Hr. }
    case_if; [|done]. unfold tryPublishInputResynchronizationLocked. cbn [set_input hasPendingResync]. case_if; [done|].
    destruct (Resynchronize _ _ _ _ _ _) as [s' d] eqn:E. apply negb_false_iff in Hb0.
    destruct d; try (intros _; cbn; rewrite (resynchronize_faulted _ _ _ _ _ _ _ E) by done; by apply Hs). done.
  - unfold RetireInputGeneration, RetireInputPresentationGeneration.
    destruct (RetireInputPresentationGenerationWithCurrentState _ _ _ _ _ _) as [s [t|]] eqn:E; [done|].
    unfold RetireInputPresentationGenerationWithCurrentState in E. case_if_in E; [by injection E as <-|].
    by destruct (retireCurrentGeneration _ _ _ _ _).
  - exact Hx.
  - exact Hx.
  - exact Hx.
Qed.

Lemma drun_staged ops x : staged_faulted x -> Forall (fun o => retires o = false) ops -> staged_faulted (drun x ops).
Proof.
  intros Hx H. revert x Hx. induction H as [|o ops Ho Hf IH]; intros x Hx; [done|]. apply IH. by apply exec_staged.
Qed.
End Runs.

(** ** Recovery

    What the host sees once a fault's neutral report is presented. *)
Section Recovery.
Context (age : Z).
Local Notation T0 := NewInputState.

(** The configuration [New] gives the scheduler. *)
Definition xcfg : config InputState unit := {|
  reportSize := 20; encode := encode_report; transition := Some xbox360InputTransition; maximumOrderedAge := age;
  faultOnOverflow := true; neutral := T0 |}.
Implicit Types (x : Xbox360) (s : sched).

#[local] Arguments advanceNonzero : simpl never.
#[local] Arguments BuildReportInto : simpl never.

(** The neutral's image is the neutral report, and no instant of the new
    epoch has been seen before the recovery ends. *)
Record recovering s : Prop := {
  rc_image : mandatoryNeutralPending (ft s) = true -> e_state (mandatoryNeutral (ft s)) = T0 /\
    (mandatoryNeutralEncoded (ft s) = true -> mandatoryNeutralData (ft s) = BuildReport T0);
  rc_clock : faulted s = true -> lastProducerAt (ep s) = zero_time;
}.

Lemma recovering_frame s s' : recovering s -> ft s' = ft s ->
  (faulted s = true -> lastProducerAt (ep s') = lastProducerAt (ep s)) -> recovering s'.
Proof.
  intros [H1 H2] Ef Ep. split; rewrite ?Ef; [done|]. unfold faulted in *. rewrite Ef. intros Hf. rewrite Ep by done. by apply H2.
Qed.

Lemma recovering_neutral at_ s : lastProducerAt (ep s) = zero_time -> recovering (require_neutral xcfg at_ s).
Proof. intros Ht. by split; cbn. Qed.

Lemma recovering_fault reason at_ now s : recovering (enterHistoryFault T0 xcfg reason at_ now s).
Proof. apply recovering_neutral. unfold clear_active. by case_if. Qed.

Lemma recovering_done s : faulted s = false -> recovering s.
Proof. intros [H1 H2]%orb_false_iff. split; unfold faulted; rewrite ?H1, ?H2; done. Qed.

Lemma recovering_publish lease t at_ now s : recovering s ->
  recovering (fst (PublishWithLease T0 xcfg lease t at_ now s)).
Proof.
  intros Hr. destruct (faulted s) eqn:Hf.
  - pose proof (faulted_rejects T0 xcfg lease t at_ now s Hf) as H.
    destruct (PublishWithLease _ _ _ _ _ _ _) as [s' d] eqn:E. destruct H as [_ HS]. cbn [fst].
    apply (recovering_frame s); [done|apply HS|]. intros _. apply orb_true_iff in Hf.
    unfold PublishWithLease, publishLocked in E. case_if_in E; [by injection E as <- <-|].
    destruct Hf as [Hf|Hf]; rewrite Hf in E; [by injection E as <- <-|]. case_if_in E; by injection E as <- <-.
  - unfold PublishWithLease, publishLocked. repeat (case_if; [by apply (recovering_frame s)|]).
    destruct (observeProducerTimestamp _ _ _) as [s0 ok] eqn:E. apply observe_same, same_faulted in E as [E _].
    rewrite Hf in E. destruct ok; cbn [negb]; [|by apply recovering_done].
    case_if; [apply recovering_fault|].
    apply recovering_done. rewrite <-E. cbn [newEntry fst]. case_if; [|unfold accept_continuous; by case_if].
    unfold accept_ordered. by repeat case_if.
Qed.

Lemma recovering_retire_lease lease at_ now s : recovering s ->
  recovering (fst (RetireProducerLease T0 xcfg lease at_ now s)).
Proof.
  intros Hr. unfold RetireProducerLease. case_if; [done|]. case_if; [done|]. apply recovering_neutral.
  unfold clear_active. repeat case_if; reflexivity.
Qed.

Lemma recovering_resynchronize lease t at_ now s : recovering s ->
  recovering (fst (Resynchronize xcfg lease t at_ now s)).
Proof.
  intros Hr. unfold Resynchronize. repeat (case_if; [by apply (recovering_frame s)|]).
  destruct (observeProducerTimestamp _ _ _) as [s0 ok] eqn:E. destruct ok; cbn [negb].
  - apply recovering_done. unfold faulted. cbn. apply observe_same in E.
    assert (Ef : ft s0 = ft s) by apply E. rewrite Ef. by rewrite orb_false_r.
  - unfold observeProducerTimestamp in E. repeat case_if_in E; injection E as <-; try done. by apply (recovering_frame s).
Qed.

Lemma recovering_claim destination at_ now s : recovering s ->
  recovering (fst (ClaimInputPresentation T0 xcfg destination at_ now s)).
Proof.
  intros Hr. unfold ClaimInputPresentation. case_if; [done|]. case_if; [done|].
  destruct (pendingPresentationFaultRequired _ _ _ s) as [s1 stale] eqn:E1.
  set (s2 := if stale then _ else s1). assert (H2 : recovering s2).
  { unfold s2. destruct stale; [apply recovering_fault|]. unfold pendingPresentationFaultRequired in E1.
    repeat case_if_in E1; simplify_eq; done. }
  assert (H3 : recovering (fst (select T0 xcfg s2))).
  { destruct (mandatoryNeutralPending (ft s2)) eqn:Ep.
    - unfold select, select_neutral. rewrite Ep. destruct (rc_image _ H2 Ep) as [Es Ei]. pose proof (rc_clock _ H2) as Hc.
      case_if; [by apply (recovering_frame s2)|]. rewrite Es. cbn. split; cbn; [done|].
      intros _. apply Hc. unfold faulted. by rewrite Ep.
    - apply (recovering_frame s2); [done|by apply select_ft|by rewrite select_ep]. }
  destruct (select T0 xcfg s2) as [s3 ok]. destruct ok; [by apply (recovering_frame s3)|exact H3].
Qed.

Lemma recovering_admit claim at_ now s : recovering s ->
  recovering (fst (CanAdmitInputPresentation T0 xcfg claim at_ now s)).
Proof.
  intros Hr. unfold CanAdmitInputPresentation. case_if; [done|]. case_if; [by apply (recovering_frame s)|].
  case_if; [apply recovering_fault|by apply (recovering_frame s)].
Qed.

Lemma recovering_retired t at_ now s : recovering (fst (retireCurrentGenerationWithBaseline T0 xcfg t at_ now s)).
Proof. by apply recovering_done. Qed.

Lemma recovering_resolve claim outcome at_ now s : recovering s -> (claimSource (cl s) = ClaimMandatoryNeutral ->
    hasClaim (cl s) = true -> mandatoryNeutralPending (ft s) = true) ->
  recovering (fst (ResolveInputPresentation T0 xcfg claim outcome at_ now s)).
Proof.
  intros Hr Hn. unfold ResolveInputPresentation. case_if; [done|]. case_if; [done|]. case_if; [done|].
  destruct (if or_now at_ now <? _ then _ else _) as [s0 t0] eqn:E0.
  assert (H0 : recovering s0 /\ cl s0 = cl s /\ ft s0 = ft s)
    by (case_if_in E0; injection E0 as <- <-; (split; [by apply (recovering_frame s)|done])).
  destruct H0 as (H0 & Ec & Ef). case_if; [apply recovering_fault|]. case_if.
  - unfold commit. case_bool_decide as Hs; [|by apply (recovering_frame s0)]. split; cbn; [done|]. intros _. apply (rc_clock _ H0).
    unfold faulted. rewrite Ef, Hn; [done|by rewrite <-Ec|].
    apply negb_false_iff, claimMatches_spec in Hb0. apply Hb0.
  - case_if; [|by apply recovering_done]. unfold defer. repeat case_if; by apply (recovering_frame s0).
Qed.

Lemma recovering_step n g o : inv T0 n g -> recovering (sc g) -> recovering (sc (step T0 xcfg g o)).
Proof.
  intros HI Hr. destruct o; cbn [step].
  - pose proof (recovering_publish (ProducerLease (sc g)) state at_ now _ Hr) as H.
    destruct (PublishWithLease _ _ _ _ _ _ _) as [s d]. by rewrite sc_after_publish.
  - pose proof (recovering_publish lease state at_ now _ Hr) as H.
    destruct (PublishWithLease _ _ _ _ _ _ _) as [s d]. by rewrite sc_after_publish.
  - by apply recovering_retire_lease.
  - by apply recovering_resynchronize.
  - pose proof (recovering_claim destination at_ now _ Hr) as H.
    destruct (ClaimInputPresentation _ _ _ _ _ _) as [s [c d]]. by case_if.
  - pose proof (recovering_admit claim at_ now _ Hr) as H.
    destruct (CanAdmitInputPresentation _ _ _ _ _ _) as [s ok]. by case_if.
  - assert (Hn : claimSource (cl (sc g)) = ClaimMandatoryNeutral -> hasClaim (cl (sc g)) = true ->
      mandatoryNeutralPending (ft (sc g)) = true).
    { intros Es Hc. destruct (i_claim _ _ _ HI Hc) as (_ & _ & _ & _ & _ & H). by rewrite Es in H. }
    pose proof (recovering_resolve claim outcome at_ now _ Hr Hn) as H.
    by destruct (ResolveInputPresentation _ _ _ _ _ _ _) as [s ok].
  - unfold RetireInputPresentationGenerationWithCurrentState. case_if; [done|]. unfold retireCurrentGeneration.
    set (t := if hasPrevious _ then _ else _). set (s := if retires_early _ _ then _ else _).
    pose proof (recovering_retired t (or_now at_ now) now s) as H.
    by destruct (retireCurrentGenerationWithBaseline _ _ _ _ _ _) as [s' t'].
  - unfold RetireInputPresentationGenerationWithBaseline. case_if; [done|]. apply recovering_retired.
Qed.

(** The scheduler [New] creates. *)
Definition created (now : Z) s : Prop :=
  newFixedReportScheduler T0 20 T0 (Some encode_report) (Some xbox360InputTransition) age true now now tt = Ok (xcfg, s).

Lemma run_recovering now s ops : created now s -> 2 * Z.of_nat (length ops) < 18446744073709551613 ->
  recovering (sc (run T0 xcfg s ops)).
Proof.
  intros Hnew. induction ops as [|o ops IH] using rev_ind; intros Hlen.
  - injection Hnew as <-. by apply recovering_done.
  - rewrite length_app in Hlen. cbn [length] in Hlen. unfold run. rewrite foldl_app. cbn [foldl].
    eapply recovering_step; [|apply IH; lia]. eapply (run_inv T0 xcfg _ _ _ _ _ _ _ _ _ s ops Hnew). lia.
Qed.

(** *** One poll

    [issue] after a selection, then admission and commit. *)

Definition claim_of (t : Z) s : Claim := {|
  Token := claimToken (cl s); Generation := claimGeneration (cl s); Size := 20;
  ReceivedAt := e_receivedAt (claimed (cl s)); SelectedAt := t; Ordered := e_ordered (claimed (cl s)) |}.

Lemma claim_selected destination t s s1 : (20 <= length destination)%nat -> hasClaim (cl s) = false ->
  pendingPresentationFaultRequired T0 xcfg t s = (s, false) -> select T0 xcfg s = (s1, true) ->
  ClaimInputPresentation T0 xcfg destination t t s =
  (issue t s1, (claim_of t (issue t s1), claimedData (cl s1) ++ drop 20 destination)).
Proof.
  intros Hd Hc Hp Hs. unfold ClaimInputPresentation. change (reportSize xcfg) with 20%nat.
  rewrite (proj2 (Nat.ltb_ge _ _) Hd), Hc. replace (or_now t t) with t by (unfold or_now; by case_if).
  rewrite Hp, Hs. reflexivity.
Qed.

(** A report that no age limit can revoke. *)
Definition settled_claim s : Prop := claimSource (cl s) = ClaimMandatoryNeutral \/
  (e_ordered (claimed (cl s)) = false /\ claimRequiresOrderedRecovery (cl s) = false).

Lemma settled_age t s : settled_claim s -> claimOrderedAgeExceeded xcfg t s = false.
Proof.
  unfold claimOrderedAgeExceeded. intros [H|[H1 H2]].
  - rewrite H. rewrite bool_decide_true by done. by rewrite orb_true_r.
  - rewrite H1, H2. cbn. by rewrite !orb_true_r.
Qed.

(** What a committed report leaves of the scheduler. *)
Record presented s1 s3 : Prop := {
  pr_ft : ft s3 = ft (commit xcfg s1);
  pr_journal : jr s3 = jr s1;
  pr_latest : latest s3 = latest s1 /\ hasLatest s3 = hasLatest s1;
  pr_retry : hasRetry s3 = hasRetry s1;
  pr_claim : hasClaim (cl s3) = false /\ claimAdmissionValidated (cl s3) = false;
  pr_epoch : producer (ep s3) = producer (ep s1) /\ generation (ep s3) = generation (ep s1) /\
    lastProducerAt (ep s3) = lastProducerAt (ep s1);
  pr_env : env s3 = env s1;
}.

Lemma poll_commits s1 t1 t2 t3 : generation (ep s1) <> 0 -> e_producer (claimed (cl s1)) = producer (ep s1) ->
  claimAdmissionValidated (cl s1) = false -> settled_claim s1 -> t1 <= t2 ->
  exists s2 s3, CanAdmitInputPresentation T0 xcfg (claim_of t1 (issue t1 s1)) t2 t2 (issue t1 s1) = (s2, true) /\
    ResolveInputPresentation T0 xcfg (claim_of t1 (issue t1 s1)) OutcomeCommit t3 t3 s2 = (s3, true) /\ presented s1 s3.
Proof.
  intros Hg Hp Hv Hs Ht. set (s' := issue t1 s1). set (c := claim_of t1 s').
  assert (HM : forall s, ep s = ep s' -> hasClaim (cl s) = true -> claimToken (cl s) = claimToken (cl s') ->
    claimGeneration (cl s) = claimGeneration (cl s') -> claimed (cl s) = claimed (cl s') -> claimMatches xcfg c s = true).
  { intros s Ee Hc Et Eg Ec. unfold claimMatches. rewrite Ee, Hc, Et, Eg, Ec. cbn. rewrite Hp, !Z.eqb_refl.
    rewrite !(proj2 (Z.eqb_neq _ 0)); [done|done|apply advanceNonzero_nonzero]. }
  unfold CanAdmitInputPresentation. rewrite (HM s') by done. replace (or_now t2 t2) with t2 by (unfold or_now; by case_if).
  change (claimAdmissionValidated (cl s')) with (claimAdmissionValidated (cl s1)). rewrite Hv. cbn [negb orb].
  change (claimSelectedAt (cl s')) with t1. rewrite (proj2 (Z.ltb_ge _ _) Ht).
  rewrite (settled_age t2 s') by exact Hs. set (s2 := set_cl _ s').
  enough (H : exists s3, ResolveInputPresentation T0 xcfg c OutcomeCommit t3 t3 s2 = (s3, true) /\ presented s1 s3)
    by (destruct H as [s3 H]; exists s2, s3; done).
  unfold ResolveInputPresentation. cbn [Outcome_Valid OutcomeCommit negb].
  replace (negb (Outcome_Valid 1)) with false by reflexivity. rewrite (HM s2) by done. cbn [negb].
  change (claimAdmissionValidated (cl s2)) with true. cbn [negb andb]. rewrite andb_false_r.
  set (m := if claimSelectedAt (cl s2) <? claimAdmittedAt (cl s2) then _ else _).
  destruct (if or_now t3 t3 <? m then _ else _) as [s0 t0] eqn:E0.
  assert (H0 : cl s0 = cl s2 /\ ft s0 = ft s2 /\ jr s0 = jr s2 /\ latest s0 = latest s2 /\ hasLatest s0 = hasLatest s2 /\
    hasRetry s0 = hasRetry s2 /\ ep s0 = ep s2 /\ env s0 = env s2) by (case_if_in E0; by injection E0 as <- <-).
  destruct H0 as (Ec & Ef & Ej & El & Eh & Er & Ee & Ev).
  rewrite (settled_age t0 s0) by (unfold settled_claim; rewrite Ec; exact Hs).
  cbn [negb andb Z.eqb OutcomeRetire OutcomeCommit Pos.eqb]. eexists. split; [reflexivity|].
  assert (Hft : ft (commit xcfg s0) = ft (commit xcfg s1)).
  { unfold commit. rewrite Ec. change (claimSource (cl s2)) with (claimSource (cl s1)).
    case_bool_decide; cbn; by rewrite ?Ef. }
  unfold clearClaim. split; cbn; rewrite ?Hft; try done; unfold commit; rewrite ?Ec; case_bool_decide; cbn;
    rewrite ?Ej, ?El, ?Eh, ?Er, ?Ee, ?Ev; done.
Qed.

(** Without a claim a selection that no limit can revoke is shown and committed. *)
Lemma poll_device x t1 t2 t3 s1 : hasClaim (cl (input x)) = false ->
  pendingPresentationFaultRequired T0 xcfg t1 (input x) = (input x, false) -> select T0 xcfg (input x) = (s1, true) ->
  generation (ep s1) <> 0 -> e_producer (claimed (cl s1)) = producer (ep s1) ->
  claimAdmissionValidated (cl s1) = false -> settled_claim s1 -> t1 <= t2 ->
  exists s3, presented s1 s3 /\ buildInputReport xcfg t1 t2 t3 x =
    (fst (tryPublishInputResynchronizationLocked xcfg t3 (set_input s3 x)), Some (claimedData (cl s1))).
Proof.
  intros Hc Hf Hs Hg Hp Hv Hd Ht. destruct (poll_commits s1 t1 t2 t3 Hg Hp Hv Hd Ht) as (s2 & s3 & E2 & E3 & HP).
  exists s3. split; [done|]. unfold buildInputReport, BuildInputReportInto, ClaimInput.
  rewrite (claim_selected (zeros 20) t1 (input x) s1) by done.
  assert (Hval : Claim_Valid (claim_of t1 (issue t1 s1)) = true).
  { unfold Claim_Valid. cbn. rewrite !(proj2 (Z.eqb_neq _ 0)); [done|done|apply advanceNonzero_nonzero]. }
  rewrite Hval. cbn [negb]. unfold CanAdmitInput. cbn [input set_input]. rewrite E2. cbn [negb].
  unfold ResolveInput. cbn [input set_input]. rewrite E3. cbn [fst andb Z.eqb OutcomeCommit Pos.eqb Size claim_of].
  by rewrite app_nil_r.
Qed.

Lemma neutral_selected s : mandatoryNeutralPending (ft s) = true -> recovering s ->
  exists s1, select T0 xcfg s = (s1, true) /\ claimedData (cl s1) = BuildReport T0 /\
    claimSource (cl s1) = ClaimMandatoryNeutral /\ e_producer (claimed (cl s1)) = e_producer (mandatoryNeutral (ft s)) /\
    claimAdmissionValidated (cl s1) = claimAdmissionValidated (cl s) /\
    jr s1 = jr s /\ hasLatest s1 = hasLatest s /\ hasRetry s1 = hasRetry s /\ ep s1 = ep s /\
    minimumResynchronizationAt (ft s1) = minimumResynchronizationAt (ft s).
Proof.
  intros Hp Hr. destruct (rc_image _ Hr Hp) as [Es Ei]. unfold select. rewrite Hp. unfold select_neutral. case_if.
  - eexists. split; [reflexivity|]. cbn. by rewrite Ei.
  - rewrite Es. eexists. split; [reflexivity|]. done.
Qed.

Lemma latest_selected s : mandatoryNeutralPending (ft s) = false -> hasRetry s = false -> count (jr s) = 0%nat ->
  hasLatest s = true -> exists s1, select T0 xcfg s = (s1, true) /\ claimedData (cl s1) = BuildReport (e_state (latest s)) /\
    claimSource (cl s1) = ClaimLatest /\ e_producer (claimed (cl s1)) = e_producer (latest s) /\
    e_ordered (claimed (cl s1)) = e_ordered (latest s) /\ claimRequiresOrderedRecovery (cl s1) = false /\
    claimAdmissionValidated (cl s1) = claimAdmissionValidated (cl s) /\ ep s1 = ep s /\ ft s1 = ft s.
Proof.
  intros Hp Hr Hn Hl. unfold select. rewrite Hp, Hr, Hn, Hl. cbn [Nat.ltb Nat.leb]. unfold encode_claimed.
  eexists. split; [reflexivity|]. done.
Qed.

Lemma resynchronize_accepted s t at_ now : mandatoryNeutralPending (ft s) = false -> resynchronizationNeeded (ft s) = true ->
  producer (ep s) <> 0 -> at_ <> zero_time -> minimumResynchronizationAt (ft s) <= at_ -> lastProducerAt (ep s) = zero_time ->
  exists s', Resynchronize xcfg (ProducerLease s) t at_ now s = (s', PublishAcceptedResynchronization) /\
    faulted s' = false /\ hasLatest s' = true /\ e_state (latest s') = t /\ e_receivedAt (latest s') = at_ /\
    e_ordered (latest s') = false /\ e_producer (latest s') = producer (ep s') /\ jr s' = jr s /\ hasRetry s' = hasRetry s /\
    cl s' = cl s /\ generation (ep s') = generation (ep s).
Proof.
  intros Hp Hn Hl Ha Hm Ht. unfold Resynchronize, ProducerLease, or_now.
  rewrite (proj2 (Z.eqb_neq _ _) Hl), Z.eqb_refl, Hp, Hn, (proj2 (Z.eqb_neq at_ _) Ha), (proj2 (Z.ltb_ge _ _) Hm).
  cbn [negb orb]. unfold observeProducerTimestamp. rewrite (proj2 (Z.eqb_neq at_ _) Ha), Ht, Z.eqb_refl. cbn [negb andb orb].
  case_if; (eexists; split; [reflexivity|]); unfold faulted; cbn; by rewrite Hp.
Qed.

Lemma pending_latest u s : hasRetry s = false -> count (jr s) = 0%nat -> hasLatest s = true ->
  e_receivedAt (latest s) <> zero_time -> e_receivedAt (latest s) <= u ->
  pendingPresentationFaultRequired T0 xcfg u s = (s, false).
Proof.
  intros Hr Hn Hl Hz Hu. unfold pendingPresentationFaultRequired. case_if; [done|]. rewrite Hr, Hn, Hl. cbn [Nat.ltb Nat.leb].
  by rewrite (proj2 (Z.eqb_neq _ _) Hz), (proj2 (Z.ltb_ge _ _) Hu).
Qed.

Lemma pending_neutral u s : mandatoryNeutralPending (ft s) = true ->
  pendingPresentationFaultRequired T0 xcfg u s = (s, false).
Proof. intros Hp. unfold pendingPresentationFaultRequired. by rewrite Hp, orb_true_r. Qed.
End Recovery.

Lemma new_created o args now cfg x : New o args now = Ok (cfg, x) ->
  exists age, cfg = xcfg age /\ created age now (input x) /\ hasPendingResync x = false.
Proof.
  unfold New. destruct args as [a|]; [|done].
  destruct (match MaximumOrderedAgeMilliseconds a with None => _ | Some ms => _ end) as [age|e]; [|done].
  unfold NewFixedReportSchedulerWithMaximumOrderedAge, NewFixedReportSchedulerWithOverflowFault.
  destruct (Z.ltb_spec 0 age) as [Hpos|Hpos].
  - rewrite (proj2 (Z.leb_gt _ _) Hpos). intros [= <- <-]. by exists age.
  - intros [= <- <-]. by exists 0.
Qed.

(** The device's scheduler after any calls, as a run of the scheduler. *)
Lemma device_run age now x0 ops : created age now (input x0) ->
  4 * Z.of_nat (length ops) < 18446744073709551613 ->
  let g := run NewInputState (xcfg age) (input x0) (all_calls (xcfg age) x0 ops) in
  sc g = input (drun (xcfg age) x0 ops) /\ recovering (sc g) /\
  inv NewInputState (2 * Z.of_nat (length (all_calls (xcfg age) x0 ops))) g.
Proof.
  intros Hnew Hlen g. pose proof (all_calls_length (xcfg age) ops x0) as Hc.
  split; [by apply drun_calls|]. split; [eapply run_recovering; [done|lia]|].
  eapply (run_inv NewInputState (xcfg age) _ _ _ _ _ _ _ _ _ (input x0) _ Hnew). lia.
Qed.

(** C12: the controller recovers with the freshest state.  In every run of the device in which a fault's
    neutral report is due, no claim is in flight and a state not older than the fault has been staged, the
    next report the host reads is the neutral one and the one after it shows exactly the staged state; the
    fault is then over and nothing is left staged. *)
Theorem xbox360_recovers_freshest o args now cfg x0 ops t1 t2 t3 u1 u2 u3 :
  New o args now = Ok (cfg, x0) -> 4 * Z.of_nat (length ops) < 18446744073709551613 ->
  let x := drun cfg x0 ops in
  mandatoryNeutralPending (ft (input x)) = true -> hasClaim (cl (input x)) = false ->
  hasPendingResync x = true -> pendingResyncAt x <> zero_time ->
  minimumResynchronizationAt (ft (input x)) <= pendingResyncAt x -> pendingResyncAt x <= u1 -> t1 <= t2 -> u1 <= u2 ->
  let '(x1, r1) := buildInputReport cfg t1 t2 t3 x in
  let '(x2, r2) := buildInputReport cfg u1 u2 u3 x1 in
  r1 = Some (BuildReport NewInputState) /\ r2 = Some (BuildReport (pendingResync x)) /\
  faulted (input x2) = false /\ hasPendingResync x2 = false.
Proof.
  intros Hnew Hlen x Hp Hc Hs Hz Hm Hu Ht1 Ht2. destruct (new_created _ _ _ _ _ Hnew) as (age & -> & Hcr & _).
  destruct (device_run age now x0 ops Hcr Hlen) as (Eg & Hr & HI). fold x in Eg.
  destruct (i_neutral _ _ _ HI ltac:(by rewrite Eg)) as (Hretry & Hcount & _).
  destruct (i_numbers _ _ _ HI) as (_ & _ & Hgen & Hprod). destruct (i_tokens _ _ _ HI) as (_ & _ & _ & _ & _ & Hval).
  destruct (i_producer _ _ _ HI) as [Hown _]. unfold unresolved, neutral_of in Hown. rewrite Eg in *.
  rewrite Hp in Hown. apply Forall_inv in Hown. specialize (Hval Hc).
  destruct (neutral_selected age (input x) Hp Hr) as (s1 & S1 & S2 & S3 & S4 & S5 & S6 & S7 & S8 & S9 & S10).
  destruct (poll_device age x t1 t2 t3 s1 Hc (pending_neutral age t1 _ Hp) S1) as (s3 & [P1 P2 P3 P4 [P5 P5'] (P6 & P7 & P8) _] & E1);
    [congruence|congruence|congruence|by left|done|].
  assert (Hft : mandatoryNeutralPending (ft s3) = false /\ resynchronizationNeeded (ft s3) = true /\
    minimumResynchronizationAt (ft s3) = minimumResynchronizationAt (ft (input x))).
  { rewrite P1. unfold commit. rewrite S3. by rewrite bool_decide_true by done. }
  destruct Hft as (F1 & F2 & F3).
  destruct (resynchronize_accepted age s3 (pendingResync x) (pendingResyncAt x) t3 F1 F2)
    as (s4 & R1 & R2 & R3 & R4 & R5 & R6 & R7 & R8 & R9 & R10 & R11);
    [congruence|done|congruence| |].
  { rewrite P8, S9. apply (rc_clock _ Hr). unfold faulted. by rewrite Hp. }
  rewrite E1. unfold tryPublishInputResynchronizationLocked. cbn [hasPendingResync set_input input pendingResync pendingResyncAt].
  rewrite Hs, R1. cbn [negb fst]. set (x1 := signalInput _).
  assert (R2' := R2). apply orb_false_iff in R2' as [Hp4 _].
  destruct (latest_selected age s4 Hp4) as (s5 & L1 & L2 & L3 & L4 & L5 & L6 & L7 & L8 & L9); [congruence|congruence|done|].
  destruct (poll_device age x1 u1 u2 u3 s5) as (s6 & [Q1 _ _ _ _ _ _] & E2);
    try change (input x1) with s4; [congruence| |done|congruence|congruence|congruence|right; split; congruence|done|].
  { apply pending_latest; congruence || (rewrite R5; lia). }
  rewrite E2. cbn. split_and!; [by rewrite S2|by rewrite L2, R4| |done].
  unfold faulted. rewrite Q1. unfold commit. rewrite L3. rewrite bool_decide_false by done. cbn. rewrite L9. exact R2.
Qed.

(** *** A concrete run *)

Definition pressed : InputState :=
  {| Buttons := 0x1000; LT := 0; RT := 255; LX := -1; LY := 0; RX := 0; RY := 32767; Reserved := zeros 6 |}.

(** A library call, then a stream takes over: the neutral is due, and its first frame is staged. *)
Definition takeover : list dop := [DUpdate pressed 10; DAcquire 20; DPublish 2 pressed 30 30].

Definition plain : option Xbox360CreateOptions := Some {| SubType := None; MaximumOrderedAgeMilliseconds := None |}.

Definition demo_device : Xbox360 :=
  match New None plain 1 as r return match r with Ok _ => Xbox360 | Err _ => unit end with
  | Ok (_, x) => x
  | Err _ => tt
  end.

Lemma xbox360_recovers_freshest_witness : New None plain 1 = Ok (xcfg 0, demo_device) /\
  exists x1 x2, buildInputReport (xcfg 0) 40 41 42 (drun (xcfg 0) demo_device takeover) = (x1, Some (BuildReport NewInputState)) /\
  buildInputReport (xcfg 0) 50 51 52 x1 = (x2, Some (BuildReport pressed)) /\ faulted (input x2) = false.
Proof.
  split; [reflexivity|].
  assert (Ez : pendingResyncAt (drun (xcfg 0) demo_device takeover) <> zero_time) by (vm_compute; discriminate).
  assert (Em : minimumResynchronizationAt (ft (input (drun (xcfg 0) demo_device takeover))) <=
    pendingResyncAt (drun (xcfg 0) demo_device takeover)) by (vm_compute; discriminate).
  assert (Eu : pendingResyncAt (drun (xcfg 0) demo_device takeover) <= 50) by (vm_compute; discriminate).
  pose proof (xbox360_recovers_freshest None plain 1 (xcfg 0) demo_device takeover 40 41 42 50 51 52 eq_refl eq_refl eq_refl
    eq_refl eq_refl Ez Em Eu ltac:(lia) ltac:(lia)) as H.
  destruct (buildInputReport (xcfg 0) 40 41 42 (drun (xcfg 0) demo_device takeover)) as [x1 r1] eqn:E1.
  destruct (buildInputReport (xcfg 0) 50 51 52 x1) as [x2 r2] eqn:E2. destruct H as (-> & -> & H & _).
  exists x1, x2. split; [reflexivity|]. split; [|exact H]. exact E2.
Defined.

(** C11: input reaches the host in order through the device.  Whatever calls of clients, transports and
    resets are interleaved, the device's scheduler is exactly where its own methods, called in that order,
    take it; so what was committed followed by what is still to be presented is strictly increasing, every
    transition accepted in the current producer epoch is committed or still owed to the host, and no report
    changes its bytes; and a state is staged for recovery only while the scheduler is recovering, provided no
    claim is resolved as retired. *)
Theorem xbox360_input_ordered o args now cfg x0 ops :
  New o args now = Ok (cfg, x0) -> 4 * Z.of_nat (length ops) < 18446744073709551613 ->
  let x := drun cfg x0 ops in
  let g := run NewInputState cfg (input x0) (all_calls cfg x0 ops) in
  input x = sc g /\
  StronglySorted Z.lt (committed g ++ ords (unresolved NewInputState (sc g))) /\
  (forall i, i ∈ accepted g -> i ∈ committed g \/ i ∈ ords (owed NewInputState (sc g))) /\
  (forall i b b', (i, b) ∈ exposed g -> (i, b') ∈ exposed g -> b = b') /\
  (Forall (fun o => retires o = false) ops -> hasPendingResync x = true -> faulted (input x) = true).
Proof.
  intros Hnew Hlen x g. destruct (new_created _ _ _ _ _ Hnew) as (age & -> & Hcr & Hpend).
  destruct (device_run age now x0 ops Hcr Hlen) as (Eg & _ & HI). fold g in Eg, HI. split_and!.
  - by symmetry.
  - apply HI.
  - intros i Hi. exact (Forall_elem _ _ _ (i_accepted _ _ _ HI) Hi).
  - apply HI.
  - intros Hr. apply drun_staged; [|done]. unfold staged_faulted. by rewrite Hpend.
Qed.

Lemma xbox360_input_ordered_witness : New None plain 1 = Ok (xcfg 0, demo_device) /\
  hasPendingResync (drun (xcfg 0) demo_device takeover) = true /\ faulted (input (drun (xcfg 0) demo_device takeover)) = true /\
  StronglySorted Z.lt
    (committed (run NewInputState (xcfg 0) (input demo_device) (all_calls (xcfg 0) demo_device takeover)) ++
     ords (unresolved NewInputState
       (sc (run NewInputState (xcfg 0) (input demo_device) (all_calls (xcfg 0) demo_device takeover))))).
Proof.
  destruct (xbox360_input_ordered None plain 1 (xcfg 0) demo_device takeover eq_refl eq_refl) as (_ & H1 & _ & _ & H2).
  split; [reflexivity|]. split; [vm_compute; reflexivity|]. split; [|exact H1].
  apply H2; [repeat constructor|vm_compute; reflexivity].
Defined.

(** *** Boundaries *)

(** A frame of a stream that was captured before a USB reset is dropped: the
    lease of before is stale, nothing is staged, and the stream goes on with
    the new one. *)
Lemma reset_drops_frames cfg gen at_ now x x' state receivedAt now' :
  RetireInputGeneration cfg gen at_ now x = (x', true) -> retiredCompatibilityLease x <> ProducerLease (input x) ->
  let '(x2, (lease, d)) := publishInputStateWithLease cfg (ProducerLease (input x)) state receivedAt now' x' in
  d = PublishRejectedStaleProducer /\ lease = ProducerLease (input x') /\ hasPendingResync x2 = false /\
  same_history (input x') (input x2).
Proof.
  unfold RetireInputGeneration, RetireInputPresentationGeneration, RetireInputPresentationGenerationWithCurrentState.
  case_if; [done|]. unfold retireCurrentGeneration.
  set (s0 := if retires_early _ _ then _ else _). set (t := if hasPrevious _ then _ else _).
  assert (E0 : producer (ep s0) = producer (ep (input x))) by (unfold s0; by case_if).
  destruct (retire_restarted NewInputState cfg t (or_now at_ now) now s0) as [e [_ _ _ _ _ _ _ Hpr _ Hrs Hpd]].
  destruct (retireCurrentGenerationWithBaseline _ _ _ _ _ _) as [s t'] eqn:E. intros [= <-] Hl.
  assert (Hn : mandatoryNeutralPending (ft s) = false).
  { change s with (fst (s, t')). rewrite <-E. reflexivity. }
  unfold publishInputStateWithLease, PublishWithLease, publishLocked. cbn [input clearInputResynchronization set_resync set_input].
  cbn [fst] in Hpr. rewrite E0 in Hpr. unfold ProducerLease in *. rewrite Hpr.
  rewrite (proj2 (Z.eqb_neq (producer (ep (input x))) (advanceNonzero _))) by (intros Ea; by destruct (advanceNonzero_ne (producer (ep (input x))))).
  cbn [negb]. rewrite orb_true_r. cbn [Accepted retiredCompatibilityLease set_input clearInputResynchronization set_resync].
  rewrite (proj2 (Z.eqb_neq _ _)) by congruence. cbn [ft count_rejected set_ct]. cbn [fst] in Hrs. rewrite Hn, Hrs. cbn.
  done.
Qed.

(** A producer that disconnects leaves the neutral to present and nothing staged. *)
Lemma release_neutral cfg now x : producerActive x = true -> ProducerLease (input x) <> 0 ->
  let x' := releaseInputProducer cfg now x in
  mandatoryNeutralPending (ft (input x')) = true /\ hasPendingResync x' = false /\ producerActive x' = false /\
  e_state (mandatoryNeutral (ft (input x'))) = neutral cfg /\ inputSignal x' = true.
Proof.
  intros Ha Hl. unfold releaseInputProducer, RetireProducerLease. rewrite Ha. cbn [negb].
  change (input (clearInputResynchronization x)) with (input x). unfold ProducerLease in *.
  rewrite (proj2 (Z.eqb_neq _ _) Hl), Z.eqb_refl. done.
Qed.

(** Only one producer: while a stream is connected neither another stream nor
    a library call publishes. *)
Lemma single_producer cfg now state x : producerActive x = true ->
  acquireInputProducer cfg now x = (x, (0, false)) /\ UpdateInputState cfg state now x = (x, false).
Proof. intros H. unfold acquireInputProducer, UpdateInputState, update_begin. by rewrite H. Qed.

(** *** Rumble and capabilities *)

(** The motors the host sets reach the callback, now or when it is set. *)
Lemma rumble_reaches_client w left_ right_ rest x t1 t2 t3 :
  exists x' calls, HandleTransfer (xcfg 0) w 1 DirOut (0x00 :: 0x08 :: 0x00 :: left_ :: right_ :: 0 :: 0 :: 0 :: rest) t1 t2 t3 x =
    Some (x', None, calls) /\
  calls = (if rumbleFunc x then [{| LeftMotor := left_; RightMotor := right_ |}] else []) /\
  snd (SetRumbleCallback true x') = [{| LeftMotor := left_; RightMotor := right_ |}] /\ input x' = input x.
Proof. by eexists _, _. Qed.

Lemma rumble_roundtrip r : XRumbleState_UnmarshalBinary (XRumbleState_MarshalBinary r) = Some r.
Proof. by destruct r. Qed.

(** A sub type other than the gamepad's is announced in the descriptor and
    in the capabilities. *)
Lemma subtype_announced v args o now cfg x : New (Some o) (Some args) now = Ok (cfg, x) -> SubType args = Some v ->
  subtype_of (descriptor x) = v /\
  exists caps, HandleControl 0xC1 0x01 0x0100 x = Some caps /\ length caps = 20%nat /\
    (drop 18 caps = [0; 0] <-> v = 0x01).
Proof.
  unfold New. destruct (match MaximumOrderedAgeMilliseconds args with None => _ | Some ms => _ end) as [age|e]; [|done].
  destruct (if 0 <? age then _ else _) as [[c s]|e]; [|done]. intros [= <- <-] Hv. rewrite Hv.
  split; [reflexivity|]. unfold HandleControl. eexists. split; [reflexivity|].
  change (subtype_of _) with v. cbn [app]. destruct (Z.eqb_spec v 1); cbn; split; try done.
Qed.
