(* ===== verification/Ns2Report.v ===== *)
(** * Switch 2 Pro reports

    src/device/ns2pro, the data: the wire state a client sends, the two report
    layouts a host reads, feedback, the button maps, the packed sticks, power
    and flash data, the serial numbers of the handler, and the sequencer that
    gives every report its counter.

    A report is built into a buffer of [InputReportSize] bytes, the size every
    caller passes.  The sequencer's clock field is the reading of time.Since
    in the report being built. *)

From S2P Require Import Prelude Bytes Codec.

(** ** Constants (const.go) *)

Definition ButtonB : Z := 0x1.
Definition ButtonA : Z := 0x2.
Definition ButtonY : Z := 0x4.
Definition ButtonX : Z := 0x8.
Definition ButtonR : Z := 0x10.
Definition ButtonZR : Z := 0x20.
Definition ButtonPlus : Z := 0x40.
Definition ButtonRightStick : Z := 0x80.
Definition ButtonDown : Z := 0x100.
Definition ButtonRight : Z := 0x200.
Definition ButtonLeft : Z := 0x400.
Definition ButtonUp : Z := 0x800.
Definition ButtonL : Z := 0x1000.
Definition ButtonZL : Z := 0x2000.
Definition ButtonMinus : Z := 0x4000.
Definition ButtonLeftStick : Z := 0x8000.
Definition ButtonHome : Z := 0x10000.
Definition ButtonCapture : Z := 0x20000.
Definition ButtonGR : Z := 0x40000.
Definition ButtonGL : Z := 0x80000.
Definition ButtonC : Z := 0x100000.
Definition ButtonHeadset : Z := 0x200000.

Definition OutputFlagRumble : Z := 0x01.
Definition OutputFlagLED : Z := 0x02.
Definition StickCenter : Z := 0x0800.
Definition StickMax : Z := 0x0FFF.
Definition BatteryMax : Z := 9.
Definition DefaultBatteryVolts : Z := 3800.
Definition DefaultSerialEnding : list Z := bytes_of_string "00".
Definition DefaultSerial : list Z := bytes_of_string "VIIPER-NS2PRO-00".
Definition ReportIDCommon : Z := 0x05.
Definition ReportIDPro : Z := 0x09.
Definition ReportIDOutput : Z := 0x02.
Definition InputReportSize : nat := 64.
Definition InputWireSize : nat := 24.
Definition OutputRumbleSize : nat := 32.
Definition OutputWireSize : nat := 34.
Definition FeatureButtons : Z := 0x01.
Definition FeatureSticks : Z := 0x02.
Definition FeatureIMU : Z := 0x04.
Definition FeatureMouse : Z := 0x10.
Definition FeatureRumble : Z := 0x20.
Definition flashBlockSize : nat := 64.

(** ** The wire state (inputstate.go) *)

Record InputState := {
  Buttons : Z; LX : Z; LY : Z; RX : Z; RY : Z; AccelX : Z; AccelY : Z; AccelZ : Z; GyroX : Z; GyroY : Z; GyroZ : Z;
}.

(** The zero value of the struct. *)
Definition InputState_zero : InputState :=
  {| Buttons := 0; LX := 0; LY := 0; RX := 0; RY := 0; AccelX := 0; AccelY := 0; AccelZ := 0; GyroX := 0; GyroY := 0; GyroZ := 0 |}.

Definition NewInputState : InputState :=
  {| Buttons := 0; LX := StickCenter; LY := StickCenter; RX := StickCenter; RY := StickCenter; AccelX := 0; AccelY := 0;
     AccelZ := 0; GyroX := 0; GyroY := 0; GyroZ := 0 |}.

Definition MarshalBinary (s : InputState) : list Z :=
  let b := zeros InputWireSize in
  let b := put_at 0 (le_bytes 4 (Buttons s)) b in
  let b := put_at 4 (le_bytes 2 (LX s)) b in
  let b := put_at 6 (le_bytes 2 (LY s)) b in
  let b := put_at 8 (le_bytes 2 (RX s)) b in
  let b := put_at 10 (le_bytes 2 (RY s)) b in
  let b := put_at 12 (le_bytes 2 (u16 (AccelX s))) b in
  let b := put_at 14 (le_bytes 2 (u16 (AccelY s))) b in
  let b := put_at 16 (le_bytes 2 (u16 (AccelZ s))) b in
  let b := put_at 18 (le_bytes 2 (u16 (GyroX s))) b in
  let b := put_at 20 (le_bytes 2 (u16 (GyroY s))) b in
  put_at 22 (le_bytes 2 (u16 (GyroZ s))) b.

Definition UnmarshalBinary (data : list Z) : option InputState :=
  if (length data <? InputWireSize)%nat then None
  else Some {|
    Buttons := le_val (slice 0 4 data); LX := le_val (slice 4 6 data); LY := le_val (slice 6 8 data);
    RX := le_val (slice 8 10 data); RY := le_val (slice 10 12 data);
    AccelX := i16 (le_val (slice 12 14 data)); AccelY := i16 (le_val (slice 14 16 data));
    AccelZ := i16 (le_val (slice 16 18 data)); GyroX := i16 (le_val (slice 18 20 data));
    GyroY := i16 (le_val (slice 20 22 data)); GyroZ := i16 (le_val (slice 22 24 data)) |}.

Record MetaState := {
  SerialNumber : list Z; BatteryLevel : Z; Charging : bool; ExternalPower : bool; BatteryVolts : Z;
}.

Definition defaultMetaState : MetaState :=
  {| SerialNumber := DefaultSerial; BatteryLevel := BatteryMax; Charging := false; ExternalPower := true;
     BatteryVolts := DefaultBatteryVolts |}.

Record OutputState := { LeftRumble : list Z; RightRumble : list Z; Flags : Z; PlayerLedMask : Z }.

Definition OutputState_zero : OutputState :=
  {| LeftRumble := zeros 16; RightRumble := zeros 16; Flags := 0; PlayerLedMask := 0 |}.

Definition OutputState_MarshalBinary (o : OutputState) : list Z :=
  let b := zeros OutputWireSize in
  let b := put_at 0 (LeftRumble o) b in
  let b := put_at 16 (RightRumble o) b in
  let b := put_at 32 [Flags o] b in
  put_at 33 [PlayerLedMask o] b.

Definition OutputState_UnmarshalBinary (data : list Z) : option OutputState :=
  if (length data <? OutputWireSize)%nat then None
  else Some {| LeftRumble := slice 0 16 data; RightRumble := slice 16 32 data; Flags := byte_at data 32;
               PlayerLedMask := byte_at data 33 |}.

(** ** Fields of a report *)

Record buttonReportBit := bit { br_button : Z; br_index : nat; br_mask : Z }.

(** [out[index] |= mask] for every pressed button of the map. *)
Definition encode_bit (buttons : Z) (out : list Z) (b : buttonReportBit) : list Z :=
  if has_mask buttons (br_button b) then put_at (br_index b) [Z.lor (byte_at out (br_index b)) (br_mask b)] out else out.

Definition encodeButtonMap (buttons : Z) (mapping : list buttonReportBit) (out : list Z) : list Z :=
  foldl (encode_bit buttons) out mapping.

Definition commonButtonMap : list buttonReportBit :=
  [bit ButtonY 0 0x01; bit ButtonX 0 0x02; bit ButtonB 0 0x04; bit ButtonA 0 0x08; bit ButtonR 0 0x40;
   bit ButtonZR 0 0x80; bit ButtonMinus 1 0x01; bit ButtonPlus 1 0x02; bit ButtonRightStick 1 0x04;
   bit ButtonLeftStick 1 0x08; bit ButtonHome 1 0x10; bit ButtonCapture 1 0x20; bit ButtonC 1 0x40;
   bit ButtonDown 2 0x01; bit ButtonUp 2 0x02; bit ButtonRight 2 0x04; bit ButtonLeft 2 0x08;
   bit ButtonL 2 0x40; bit ButtonZL 2 0x80; bit ButtonGR 3 0x01; bit ButtonGL 3 0x02;
   bit ButtonHeadset 3 0x10].

Definition proButtonMap : list buttonReportBit :=
  [bit ButtonB 0 0x01; bit ButtonA 0 0x02; bit ButtonY 0 0x04; bit ButtonX 0 0x08; bit ButtonR 0 0x10;
   bit ButtonZR 0 0x20; bit ButtonPlus 0 0x40; bit ButtonRightStick 0 0x80; bit ButtonDown 1 0x01;
   bit ButtonRight 1 0x02; bit ButtonLeft 1 0x04; bit ButtonUp 1 0x08; bit ButtonL 1 0x10;
   bit ButtonZL 1 0x20; bit ButtonMinus 1 0x40; bit ButtonLeftStick 1 0x80; bit ButtonHome 2 0x01;
   bit ButtonCapture 2 0x02; bit ButtonGR 2 0x04; bit ButtonGL 2 0x08; bit ButtonC 2 0x10].

Definition commonButtonBytes (s : InputState) : list Z := encodeButtonMap (Buttons s) commonButtonMap (zeros 4).
Definition proButtonBytes (s : InputState) : list Z := encodeButtonMap (Buttons s) proButtonMap (zeros 3).

Definition clampStick (v : Z) : Z := if StickMax <? v then StickMax else v.

(** The three bytes of a stick; every caller passes at least three. *)
Definition packStick12 (x y : Z) : list Z :=
  let x := clampStick x in
  let y := clampStick y in
  [u8 x; Z.lor (u8 (Z.land (Z.shiftr x 8) 0x0F)) (u8 (Z.shiftl (Z.land y 0x0F) 4)); u8 (Z.shiftr y 4)].

Definition powerInfo (meta : MetaState) : Z :=
  let level := if BatteryMax <? BatteryLevel meta then BatteryMax else BatteryLevel meta in
  set_mask (Charging meta) 0x02 (set_mask (ExternalPower meta) 0x01 (u8 (Z.shiftl (Z.land level 0x0F) 2))).

Definition chargingState (meta : MetaState) : Z := if Charging meta then 0x34 else 0x20.

(** ** Reports *)

Definition buildCommonReportInto (s : InputState) (counter motionTimestamp features : Z) (meta : MetaState) : list Z :=
  let b := zeros InputReportSize in
  let b := put_at 0 [ReportIDCommon] b in
  let b := put_at 1 (le_bytes 4 counter) b in
  let b := put_at 5 (commonButtonBytes s) b in
  let b := put_at 11 (packStick12 (LX s) (LY s)) b in
  let b := put_at 14 (packStick12 (RX s) (RY s)) b in
  let b := put_at 32 (le_bytes 2 (BatteryVolts meta)) b in
  let b := put_at 34 [chargingState meta] b in
  let b := put_at 42 [0x01] b in
  if has_mask features FeatureIMU then
    let b := put_at 43 (le_bytes 4 motionTimestamp) b in
    let b := put_at 49 (le_bytes 2 (u16 (AccelX s))) b in
    let b := put_at 51 (le_bytes 2 (u16 (AccelY s))) b in
    let b := put_at 53 (le_bytes 2 (u16 (AccelZ s))) b in
    let b := put_at 55 (le_bytes 2 (u16 (GyroX s))) b in
    let b := put_at 57 (le_bytes 2 (u16 (GyroY s))) b in
    put_at 59 (le_bytes 2 (u16 (GyroZ s))) b
  else b.

Definition buildProReportInto (s : InputState) (counter features : Z) (meta : MetaState) : list Z :=
  let b := zeros InputReportSize in
  let b := put_at 0 [ReportIDPro] b in
  let b := put_at 1 [counter] b in
  let b := put_at 2 [powerInfo meta] b in
  let b := put_at 3 (proButtonBytes s) b in
  let b := put_at 6 (packStick12 (LX s) (LY s)) b in
  let b := put_at 9 (packStick12 (RX s) (RY s)) b in
  let b := put_at 12 [if has_mask features FeatureRumble then 0x38 else 0x30] b in
  put_at 13 [0x00; 0x00; 0x00] b.

(** ** The sequencer (input_presentation.go) *)

Record sequencer := {
  activeReportID : Z; featureFlags : Z; q_meta : MetaState; reportCounter32 : Z; reportCounter8 : Z; motionStart : Z;
  lastMotionTS : Z; clock : Z;
}.

Definition newNS2InputReportSequencer (meta : MetaState) (now : Z) : sequencer := {|
  activeReportID := ReportIDPro; featureFlags := Z.lor FeatureButtons FeatureSticks; q_meta := meta; reportCounter32 := 0;
  reportCounter8 := 255; motionStart := now; lastMotionTS := 0; clock := now |}.

Definition set_counters (c32 c8 ts : Z) (q : sequencer) : sequencer := {|
  activeReportID := activeReportID q; featureFlags := featureFlags q; q_meta := q_meta q; reportCounter32 := c32;
  reportCounter8 := c8; motionStart := motionStart q; lastMotionTS := ts; clock := clock q |}.

Definition set_clock (now : Z) (q : sequencer) : sequencer := {|
  activeReportID := activeReportID q; featureFlags := featureFlags q; q_meta := q_meta q; reportCounter32 := reportCounter32 q;
  reportCounter8 := reportCounter8 q; motionStart := motionStart q; lastMotionTS := lastMotionTS q; clock := now |}.

(** [uint32(time.Since(motionStart).Microseconds())] *)
Definition motion_timestamp (q : sequencer) : Z := u32 (Z.quot (clock q - motionStart q) 1000).

(** The sequencer, the buffer and the size: zero leaves the buffer as it was. *)
Definition buildInterruptInto (q : sequencer) (state : InputState) (reportID : Z) (destination : list Z) :
    sequencer * list Z * Z :=
  if (length destination <? InputReportSize)%nat then (q, destination, 0)
  else
    let reportID := if reportID =? 0 then activeReportID q else reportID in
    if reportID =? ReportIDCommon then
      let c := u32 (reportCounter32 q + 1) in
      let imu := has_mask (featureFlags q) FeatureIMU in
      let ts := if imu then motion_timestamp q else 0 in
      (set_counters c (reportCounter8 q) (if imu then ts else lastMotionTS q) q,
       buildCommonReportInto state c ts (featureFlags q) (q_meta q) ++ drop InputReportSize destination, 64)
    else if reportID =? ReportIDPro then
      let c := u8 (reportCounter8 q + 1) in
      (set_counters (reportCounter32 q) c (lastMotionTS q) q,
       buildProReportInto state c (featureFlags q) (q_meta q) ++ drop InputReportSize destination, 64)
    else (q, destination, 0).

Definition buildControlInto (q : sequencer) (state : InputState) (reportID : Z) (destination : list Z) : list Z * Z :=
  if (length destination <? InputReportSize)%nat then (destination, 0)
  else
    let reportID := if reportID =? 0 then activeReportID q else reportID in
    if reportID =? ReportIDCommon then
      (buildCommonReportInto state (reportCounter32 q) (lastMotionTS q) (featureFlags q) (q_meta q) ++
       drop InputReportSize destination, 64)
    else if reportID =? ReportIDPro then
      (buildProReportInto state (reportCounter8 q) (featureFlags q) (q_meta q) ++ drop InputReportSize destination, 64)
    else (destination, 0).

Definition with_features (flags : Z) (q : sequencer) : sequencer := {|
  activeReportID := activeReportID q; featureFlags := flags; q_meta := q_meta q; reportCounter32 := reportCounter32 q;
  reportCounter8 := reportCounter8 q; motionStart := motionStart q; lastMotionTS := lastMotionTS q; clock := clock q |}.

Definition setMeta (meta : MetaState) (q : sequencer) : sequencer := {|
  activeReportID := activeReportID q; featureFlags := featureFlags q; q_meta := meta; reportCounter32 := reportCounter32 q;
  reportCounter8 := reportCounter8 q; motionStart := motionStart q; lastMotionTS := lastMotionTS q; clock := clock q |}.

Definition setActiveReportID (reportID : Z) (q : sequencer) : sequencer * bool :=
  if negb (reportID =? ReportIDCommon) && negb (reportID =? ReportIDPro) then (q, false)
  else ({| activeReportID := reportID; featureFlags := featureFlags q; q_meta := q_meta q; reportCounter32 := reportCounter32 q;
           reportCounter8 := reportCounter8 q; motionStart := motionStart q; lastMotionTS := lastMotionTS q;
           clock := clock q |}, true).

Definition resetFeatures (q : sequencer) : sequencer := with_features 0 q.
Definition enableFeatures (features : Z) (q : sequencer) : sequencer := with_features (Z.lor (featureFlags q) features) q.
Definition disableFeatures (features : Z) (q : sequencer) : sequencer := with_features (Z.ldiff (featureFlags q) features) q.

(** ** Commands and flash *)

Definition featureInfoMap : list (Z * nat * Z) :=
  [(FeatureButtons, 0%nat, 0x07); (FeatureSticks, 1%nat, 0x07); (FeatureIMU, 2%nat, 0x01); (FeatureMouse, 4%nat, 0x03);
   (FeatureRumble, 5%nat, 0x03)].

Definition featureInfo (flags : Z) : list Z :=
  foldl (fun out entry => let '(feature, index, value) := entry in
           if has_mask flags feature then put_at index [value] out else out) (zeros 8) featureInfoMap.

Definition commandHeader (cmd seq_ sub : Z) : list Z := [cmd; 0x01; seq_; sub; 0x10; 0x78; 0x00; 0x00].

Definition encodeStickCalibration (nx ny maxX maxY minX minY : Z) : list Z :=
  packStick12 nx ny ++ packStick12 maxX maxY ++ packStick12 minX minY.

(** [copy] of the serial stops at the end of the block. *)
Definition minimalFlashBlock (serial : list Z) (address : Z) : list Z :=
  let block := zeros 64 in
  if address =? 0x13000 then
    let serial := if (length serial =? 0)%nat then DefaultSerial else serial in
    put_at 2 (take 62 serial) block
  else if (address =? 0x13080) || (address =? 0x130C0) then
    put_at 40 (encodeStickCalibration StickCenter StickCenter 2047 2047 2048 2048) block
  else block.

(** ** Runtime status (runtime_status.go) *)

Record RuntimeStatusV1 := { st_Version : Z; st_BatteryLevel : Z; st_Charging : bool; st_ExternalPower : bool; st_BatteryVolts : Z }.

Inductive status_err := ErrInvalidRuntimeStatusVersion | ErrInvalidRuntimeBatteryLevel | ErrInvalidRuntimeBatteryVolts.

Definition Validate (status : RuntimeStatusV1) : option status_err :=
  if negb (st_Version status =? 1) then Some ErrInvalidRuntimeStatusVersion
  else if BatteryMax <? st_BatteryLevel status then Some ErrInvalidRuntimeBatteryLevel
  else if (st_BatteryVolts status <? 2500) || (5000 <? st_BatteryVolts status) then Some ErrInvalidRuntimeBatteryVolts
  else None.

(** ** Serial numbers (handler.go) *)

(** [fmt.Sprintf("%02X", i)] for the loop's values. *)
Definition hex2 (i : Z) : list Z := [48; if i <? 10 then 48 + i else 55 + i].

Definition taken (serials : list (list Z)) (s : list Z) : bool := existsb (fun x => bool_decide (x = s)) serials.

(** The serial CreateDevice registers, and the registry. *)
Definition register_serial (serials : list (list Z)) (serial : list Z) : list Z * list (list Z) :=
  let serial := if (length serial =? 0)%nat then DefaultSerial else serial in
  let serial :=
    if taken serials serial then
      let serial := if (length serial <? 2)%nat then DefaultSerial else serial in
      let stem := take (length serial - 2) serial in
      match List.find (fun i => negb (taken serials (stem ++ hex2 i))) (map (fun k => k + 1) (below 15)) with
      | Some i => stem ++ hex2 i
      | None => serial
      end
    else serial in
  (serial, if taken serials serial then serials else serial :: serials).

(** ** What a host reads

    [decodeStick] undoes [packStick12]; a button of a map is read at its byte and mask. *)

Definition decodeStick (b : list Z) : Z * Z :=
  (byte_at b 0 + 256 * (byte_at b 1 mod 16), byte_at b 1 / 16 + 16 * byte_at b 2).

Definition shows_buttons (mapping : list buttonReportBit) (buttons : Z) (bytes : list Z) : Prop :=
  Forall (fun e => has_mask (byte_at bytes (br_index e)) (br_mask e) = has_mask buttons (br_button e)) mapping.

Definition state_ok (s : InputState) : Prop :=
  U32 (Buttons s) /\ U16 (LX s) /\ U16 (LY s) /\ U16 (RX s) /\ U16 (RY s) /\ I16 (AccelX s) /\ I16 (AccelY s) /\
  I16 (AccelZ s) /\ I16 (GyroX s) /\ I16 (GyroY s) /\ I16 (GyroZ s).

Lemma ns2_wire_roundtrip s : state_ok s -> UnmarshalBinary (MarshalBinary s) = Some s.
Proof.
  intros (Hb & Hlx & Hly & Hrx & Hry & Hax & Hay & Haz & Hgx & Hgy & Hgz).
  assert (Hw : forall v, I16 v -> i16 (le_val (le_bytes 2 (u16 v))) = v).
  { intros v Hv. rewrite le_val_small; [by apply i16_u16|]. cbn. apply u16_range. }
  transitivity (Some {| Buttons := le_val (le_bytes 4 (Buttons s)); LX := le_val (le_bytes 2 (LX s));
    LY := le_val (le_bytes 2 (LY s)); RX := le_val (le_bytes 2 (RX s)); RY := le_val (le_bytes 2 (RY s));
    AccelX := i16 (le_val (le_bytes 2 (u16 (AccelX s)))); AccelY := i16 (le_val (le_bytes 2 (u16 (AccelY s))));
    AccelZ := i16 (le_val (le_bytes 2 (u16 (AccelZ s)))); GyroX := i16 (le_val (le_bytes 2 (u16 (GyroX s))));
    GyroY := i16 (le_val (le_bytes 2 (u16 (GyroY s)))); GyroZ := i16 (le_val (le_bytes 2 (u16 (GyroZ s)))) |});
    [reflexivity|].
  rewrite !Hw, (le_val_small 4), !(le_val_small 2) by done. by destruct s.
Qed.

(** *** Buttons *)

Definition bit_on (buttons : Z) (i : nat) (k : Z) (e : buttonReportBit) : bool :=
  has_mask buttons (br_button e) && (br_index e =? i)%nat && Z.testbit (br_mask e) k.

Lemma length_encode_bit buttons out e : (br_index e < length out)%nat -> length (encode_bit buttons out e) = length out.
Proof. intros H. unfold encode_bit. case_if; [|done]. apply length_put_at. cbn. lia. Qed.

Lemma byte_at_put i j v out : (i < length out)%nat -> byte_at (put_at i [v] out) j = if (i =? j)%nat then v else byte_at out j.
Proof.
  unfold byte_at. revert i j. induction out as [|b out IH]; intros i j Hi; [cbn in Hi; lia|].
  destruct i as [|i], j as [|j]; try done. cbn in Hi. exact (IH i j ltac:(lia)).
Qed.

Lemma encode_bits buttons mapping out i k : Forall (fun e => (br_index e < length out)%nat) mapping ->
  Z.testbit (byte_at (encodeButtonMap buttons mapping out) i) k =
  (Z.testbit (byte_at out i) k || existsb (bit_on buttons i k) mapping)%bool.
Proof.
  unfold encodeButtonMap. revert out. induction mapping as [|e mapping IH]; intros out H; cbn [foldl existsb].
  - by rewrite orb_false_r.
  - apply list.Forall_cons in H as [He H]. rewrite IH by (by rewrite length_encode_bit).
    assert (E : Z.testbit (byte_at (encode_bit buttons out e) i) k = (Z.testbit (byte_at out i) k || bit_on buttons i k e)%bool).
    { unfold encode_bit, bit_on. case_if; cbn [andb]; [|by rewrite orb_false_r]. rewrite byte_at_put by done.
      destruct (Nat.eqb_spec (br_index e) i) as [<-|]; cbn [andb]; [apply Z.lor_spec|by rewrite orb_false_r]. }
    by rewrite E, orb_assoc.
Qed.

(** Each entry has a bit of its own. *)
Definition own_bit (mapping : list buttonReportBit) (e : buttonReportBit) : bool :=
  (br_mask e =? 2 ^ Z.log2 (br_mask e)) && (0 <? br_mask e) &&
  forallb (fun e' => (negb (br_index e' =? br_index e)%nat || negb (Z.testbit (br_mask e') (Z.log2 (br_mask e)))) ||
                     (br_button e' =? br_button e)) mapping.

Lemma buttons_shown buttons mapping n : Forall (fun e => (br_index e < n)%nat) mapping ->
  forallb (own_bit mapping) mapping = true -> shows_buttons mapping buttons (encodeButtonMap buttons mapping (zeros n)).
Proof.
  intros Hi Ho. unfold shows_buttons. rewrite List.Forall_forall. intros e He.
  rewrite forallb_forall in Ho. specialize (Ho e He). apply andb_true_iff in Ho as [[Hm Hp]%andb_true_iff Hu]. apply Z.eqb_eq in Hm.
  set (k := Z.log2 (br_mask e)) in *. rewrite Hm at 1. rewrite has_mask_bit by apply Z.log2_nonneg.
  rewrite encode_bits by (by unfold zeros; rewrite length_replicate).
  assert (Z0 : forall i, byte_at (zeros n) i = 0).
  { unfold byte_at, zeros. clear. induction n as [|n IH]; intros [|i]; try done. apply IH. }
  rewrite Z0, Z.bits_0. cbn [orb].
  destruct (has_mask buttons (br_button e)) eqn:Hb.
  - apply existsb_exists. exists e. split; [done|]. unfold bit_on. rewrite Hb, Nat.eqb_refl, Hm.
    cbn [andb]. apply Z.pow2_bits_true. apply Z.log2_nonneg.
  - apply not_true_iff_false. intros (e' & He' & H')%existsb_exists. unfold bit_on in H'.
    rewrite forallb_forall in Hu. specialize (Hu e' He'). apply andb_true_iff in H' as [[H1 H2]%andb_true_iff H3].
    rewrite H2, H3 in Hu. apply Z.eqb_eq in Hu. congruence.
Qed.

Lemma pro_buttons s : shows_buttons proButtonMap (Buttons s) (proButtonBytes s).
Proof. apply buttons_shown; [repeat constructor; cbn; lia|reflexivity]. Qed.

Lemma common_buttons s : shows_buttons commonButtonMap (Buttons s) (commonButtonBytes s).
Proof. apply buttons_shown; [repeat constructor; cbn; lia|reflexivity]. Qed.

Lemma length_encodeButtonMap buttons mapping out : Forall (fun e => (br_index e < length out)%nat) mapping ->
  length (encodeButtonMap buttons mapping out) = length out.
Proof.
  unfold encodeButtonMap. revert out. induction mapping as [|e mapping IH]; intros out H; [done|].
  apply list.Forall_cons in H as [He H]. cbn [foldl]. rewrite IH; by rewrite length_encode_bit.
Qed.

Lemma pro_bytes s : exists a b c, proButtonBytes s = [a; b; c].
Proof.
  assert (H : length (proButtonBytes s) = 3%nat) by (apply length_encodeButtonMap; repeat constructor; cbn; lia).
  destruct (proButtonBytes s) as [|a [|b [|c [|]]]]; try discriminate. by exists a, b, c.
Qed.

Lemma common_bytes s : exists a b c d, commonButtonBytes s = [a; b; c; d].
Proof.
  assert (H : length (commonButtonBytes s) = 4%nat) by (apply length_encodeButtonMap; repeat constructor; cbn; lia).
  destruct (commonButtonBytes s) as [|a [|b [|c [|d [|]]]]]; try discriminate. by exists a, b, c, d.
Qed.

(** *** Sticks *)

Lemma clamp_range v : U16 v -> 0 <= clampStick v < 4096.
Proof. intros. unfold clampStick, StickMax. case_if; lia. Qed.

Lemma stick_nibbles a b : 0 <= a < 16 -> 0 <= b < 16 -> Z.lor a (16 * b) = a + 16 * b.
Proof.
  intros Ha Hb.
  assert (H : (fun v => Z.lor (v mod 16) (16 * (v / 16)) = v) (a + 16 * b))
    by (by_all_bytes (fun v => Z.lor (v mod 16) (16 * (v / 16)) = v)).
  cbn beta in H. replace ((a + 16 * b) mod 16) with a in H by zsolve. by replace ((a + 16 * b) / 16) with b in H by zsolve.
Qed.

Lemma stick_decoded x y : U16 x -> U16 y -> decodeStick (packStick12 x y) = (clampStick x, clampStick y).
Proof.
  intros Hx%clamp_range Hy%clamp_range. unfold packStick12, decodeStick.
  generalize dependent (clampStick x). intros a Ha. generalize dependent (clampStick y). intros b Hb.
  assert (E : Z.lor (u8 (Z.land (Z.shiftr a 8) 15)) (u8 (Z.shiftl (Z.land b 15) 4)) = a / 256 + 16 * (b mod 16)).
  { change 15 with (Z.ones 4). rewrite !Z.land_ones, Z.shiftr_div_pow2, Z.shiftl_mul_pow2 by lia. unfold u8.
    change (2 ^ 8) with 256. change (2 ^ 4) with 16.
    replace ((a / 256 mod 16) mod 256) with (a / 256) by zsolve.
    replace ((b mod 16 * 16) mod 256) with (16 * (b mod 16)) by zsolve. apply stick_nibbles; zsolve. }
  cbn [byte_at nth]. rewrite E, Z.shiftr_div_pow2 by lia. unfold u8. change (2 ^ 4) with 16. f_equal; zsolve.
Qed.

(** *** The reports *)

Lemma length_pro_report s c f meta : length (buildProReportInto s c f meta) = InputReportSize.
Proof. unfold buildProReportInto. destruct (pro_bytes s) as (a & b & d & ->). reflexivity. Qed.

Lemma length_common_report s c ts f meta : length (buildCommonReportInto s c ts f meta) = InputReportSize.
Proof.
  unfold buildCommonReportInto. destruct (common_bytes s) as (a & b & d & e & ->). by case_if.
Qed.

(** C35: a host reads back the controls.  Both report layouts are 64 bytes; every button of a layout's map
    is set in the report exactly when it is pressed, no two buttons share a bit, the packed sticks decode to
    the sticks clamped to twelve bits, and with the motion feature the common layout carries the motion
    fields of the wire. *)
Theorem switch2_reports_show_state s c ts f meta : state_ok s ->
  let pro := buildProReportInto s c f meta in
  let common := buildCommonReportInto s c ts f meta in
  length pro = InputReportSize /\ length common = InputReportSize /\
  shows_buttons proButtonMap (Buttons s) (slice 3 6 pro) /\
  shows_buttons commonButtonMap (Buttons s) (slice 5 9 common) /\
  decodeStick (slice 6 9 pro) = (clampStick (LX s), clampStick (LY s)) /\
  decodeStick (slice 9 12 pro) = (clampStick (RX s), clampStick (RY s)) /\
  decodeStick (slice 11 14 common) = (clampStick (LX s), clampStick (LY s)) /\
  decodeStick (slice 14 17 common) = (clampStick (RX s), clampStick (RY s)) /\
  (has_mask f FeatureIMU = true -> slice 49 61 common = drop 12 (MarshalBinary s)).
Proof.
  intros (_ & Hlx & Hly & Hrx & Hry & _) pro common.
  rewrite <-!(stick_decoded (LX s)), <-!(stick_decoded (RX s)) by done.
  split_and!; [apply length_pro_report|apply length_common_report|..];
    unfold pro, common, buildProReportInto, buildCommonReportInto.
  - pose proof (pro_buttons s) as H. destruct (pro_bytes s) as (a & b & d & E). rewrite E in *. exact H.
  - pose proof (common_buttons s) as H. destruct (common_bytes s) as (a & b & d & e & E). rewrite E in *. by case_if.
  - by destruct (pro_bytes s) as (a & b & d & ->).
  - by destruct (pro_bytes s) as (a & b & d & ->).
  - destruct (common_bytes s) as (a & b & d & e & ->). by case_if.
  - destruct (common_bytes s) as (a & b & d & e & ->). by case_if.
  - intros ->. by destruct (common_bytes s) as (a & b & d & e & ->).
Qed.

(** ** Serials *)

(** The chosen serial is registered, and was free unless its stem's fifteen
    numbered serials were all taken. *)
Lemma serial_fresh serials serial : let '(chosen, serials') := register_serial serials serial in
  taken serials' chosen = true /\ (forall s, taken serials s = true -> taken serials' s = true) /\
  (taken serials chosen = false \/
   exists stem, Forall (fun i => taken serials (stem ++ hex2 i) = true) (map (fun k => k + 1) (below 15))).
Proof.
  unfold register_serial. set (s0 := if (length serial =? 0)%nat then _ else _).
  set (chosen := if taken serials s0 then _ else _). split_and!.
  - case_if; [done|]. unfold taken. cbn [existsb]. by rewrite bool_decide_true.
  - intros s Hs. case_if; [done|]. unfold taken in *. cbn [existsb]. by rewrite Hs, orb_true_r.
  - unfold chosen. destruct (taken serials s0) eqn:E0; [|by left].
    set (s1 := if (length s0 <? 2)%nat then _ else _). set (stem := take (length s1 - 2) s1).
    destruct (List.find _ _) as [i|] eqn:Ef.
    + left. apply List.find_some in Ef as [_ Ef]. by apply negb_true_iff in Ef.
    + right. exists stem. apply List.Forall_forall. intros i Hi. pose proof (List.find_none _ _ Ef i Hi) as H.
      by apply negb_false_iff in H.
Qed.

(** Seventeen devices with the default serial: the last one shares it. *)
Fixpoint register_many (n : nat) (serials : list (list Z)) : list (list Z) * list (list Z) :=
  match n with
  | O => ([], serials)
  | S n => let '(s, serials) := register_serial serials [] in let '(l, serials) := register_many n serials in (s :: l, serials)
  end.

Example serials_exhausted :
  let given := fst (register_many 17 []) in
  base.NoDup (take 16 given) /\ List.last given [] = DefaultSerial /\ List.hd [] given = DefaultSerial.
Proof. split; [by_decide|]. by vm_compute. Qed.

(** *** A concrete state *)

Definition demo_state : InputState :=
  {| Buttons := 0x100003; LX := 1; LY := 5000; RX := StickCenter; RY := 0; AccelX := -1; AccelY := 2; AccelZ := 3; GyroX := 4;
     GyroY := 5; GyroZ := -6 |}.

Lemma switch2_reports_show_state_witness :
  shows_buttons proButtonMap (Buttons demo_state) (slice 3 6 (buildProReportInto demo_state 7 3 defaultMetaState)) /\
  slice 3 6 (buildProReportInto demo_state 7 3 defaultMetaState) = [0x03; 0x00; 0x10] /\
  decodeStick (slice 6 9 (buildProReportInto demo_state 7 3 defaultMetaState)) = (1, 4095).
Proof.
  destruct (switch2_reports_show_state demo_state 7 0 3 defaultMetaState) as (_ & _ & H1 & _ & H2 & _).
  { unfold state_ok, demo_state, StickCenter. cbn. lia. }
  split; [exact H1|]. split; [vm_compute; reflexivity|exact H2].
Defined.
