(* ===== verification/Ns2Status.v ===== *)
(** * Switch 2 Pro power status

    The strict decoder of src/device/ns2pro/runtime_status.go.  A payload is
    what encoding/json's token stream makes of it: the opening token, the
    fields in order, and what follows; a syntax error inside a value is
    [JOther], one at a key or at the end of the object [CloseError].  A number
    is [JNumber] when its text is one strconv.ParseInt and ParseUint read alike
    up to the sign; any other (a fraction, an exponent, the text -0, which
    decoding into an unsigned field refuses) is [JOther]. *)

From S2P Require Import Prelude Bytes Codec Ns2Report.

(** ** Payloads *)

Inductive json := JNumber (z : Z) | JBool (b : bool) | JNull | JOther.

Inductive opening := OpenObject | OpenOther | OpenError.
Inductive closing := CloseObject | CloseOther | CloseError.
Inductive trailing := TrailingEOF | TrailingValue | TrailingError.

Record payload := { p_opening : opening; p_fields : list (list Z * json); p_closing : closing; p_trailing : trailing }.

(** ** The decoder *)

Record runtimeStatusV1Wire := {
  w_Version : option Z; w_BatteryLevel : option Z; w_Charging : option bool; w_ExternalPower : option bool;
  w_BatteryVolts : option Z;
}.

Definition empty_wire : runtimeStatusV1Wire :=
  {| w_Version := None; w_BatteryLevel := None; w_Charging := None; w_ExternalPower := None; w_BatteryVolts := None |}.

Inductive decode_err :=
| ErrOpening | ErrNotObject | ErrDuplicate (key : list Z) | ErrUnknown (key : list Z) | ErrField (key : list Z) | ErrClosing
| ErrNoEnd | ErrTrailingValue | ErrTrailing | ErrIncompleteRuntimeStatus | ErrInvalidStatus (e : status_err).

(** decoder.Decode into a pointer to an unsigned integer of the given maximum, or to a bool: null leaves it nil. *)
Definition decode_uint (max : Z) (v : json) : option (option Z) :=
  match v with
  | JNumber z => if (0 <=? z) && (z <=? max) then Some (Some z) else None
  | JNull => Some None
  | _ => None
  end.

Definition decode_bool (v : json) : option (option bool) :=
  match v with JBool b => Some (Some b) | JNull => Some None | _ => None end.

Definition kVersion : list Z := bytes_of_string "version".
Definition kBatteryLevel : list Z := bytes_of_string "batteryLevel".
Definition kCharging : list Z := bytes_of_string "charging".
Definition kExternalPower : list Z := bytes_of_string "externalPower".
Definition kBatteryVolts : list Z := bytes_of_string "batteryVolts".

Definition key_is (key name : list Z) : bool := bool_decide (key = name).

(** The switch of the field loop. *)
Definition decode_field (key : list Z) (v : json) (w : runtimeStatusV1Wire) : result decode_err runtimeStatusV1Wire :=
  let set {A} (r : option A) (f : A -> runtimeStatusV1Wire) : result decode_err runtimeStatusV1Wire :=
    match r with Some x => Ok (f x) | None => Err (ErrField key) end in
  if key_is key kVersion then set (decode_uint 65535 v) (fun x =>
    {| w_Version := x; w_BatteryLevel := w_BatteryLevel w; w_Charging := w_Charging w; w_ExternalPower := w_ExternalPower w;
       w_BatteryVolts := w_BatteryVolts w |})
  else if key_is key kBatteryLevel then set (decode_uint 255 v) (fun x =>
    {| w_Version := w_Version w; w_BatteryLevel := x; w_Charging := w_Charging w; w_ExternalPower := w_ExternalPower w;
       w_BatteryVolts := w_BatteryVolts w |})
  else if key_is key kCharging then set (decode_bool v) (fun x =>
    {| w_Version := w_Version w; w_BatteryLevel := w_BatteryLevel w; w_Charging := x; w_ExternalPower := w_ExternalPower w;
       w_BatteryVolts := w_BatteryVolts w |})
  else if key_is key kExternalPower then set (decode_bool v) (fun x =>
    {| w_Version := w_Version w; w_BatteryLevel := w_BatteryLevel w; w_Charging := w_Charging w; w_ExternalPower := x;
       w_BatteryVolts := w_BatteryVolts w |})
  else if key_is key kBatteryVolts then set (decode_uint 65535 v) (fun x =>
    {| w_Version := w_Version w; w_BatteryLevel := w_BatteryLevel w; w_Charging := w_Charging w;
       w_ExternalPower := w_ExternalPower w; w_BatteryVolts := x |})
  else Err (ErrUnknown key).

(** The field loop; [seen] is the set of keys so far. *)
Fixpoint decode_fields (seen : list (list Z)) (fields : list (list Z * json)) (w : runtimeStatusV1Wire) :
    result decode_err runtimeStatusV1Wire :=
  match fields with
  | [] => Ok w
  | (key, v) :: fields =>
      if existsb (key_is key) seen then Err (ErrDuplicate key)
      else let? w := decode_field key v w in decode_fields (key :: seen) fields w
  end.

Definition DecodeRuntimeStatusV1 (p : payload) : result decode_err RuntimeStatusV1 :=
  match p_opening p with
  | OpenError => Err ErrOpening
  | OpenOther => Err ErrNotObject
  | OpenObject =>
      let? w := decode_fields [] (p_fields p) empty_wire in
      match p_closing p with
      | CloseError => Err ErrClosing
      | CloseOther => Err ErrNoEnd
      | CloseObject =>
          match p_trailing p with
          | TrailingValue => Err ErrTrailingValue
          | TrailingError => Err ErrTrailing
          | TrailingEOF =>
              match w_Version w, w_BatteryLevel w, w_Charging w, w_ExternalPower w, w_BatteryVolts w with
              | Some version, Some level, Some charging, Some external, Some volts =>
                  let status := {| st_Version := version; st_BatteryLevel := level; st_Charging := charging;
                                   st_ExternalPower := external; st_BatteryVolts := volts |} in
                  match Validate status with Some e => Err (ErrInvalidStatus e) | None => Ok status end
              | _, _, _, _, _ => Err ErrIncompleteRuntimeStatus
              end
          end
      end
  end.

(** ** What it accepts *)

(** The fields of a status. *)
Definition status_fields (st : RuntimeStatusV1) : list (list Z * json) :=
  [(kVersion, JNumber (st_Version st)); (kBatteryLevel, JNumber (st_BatteryLevel st)); (kCharging, JBool (st_Charging st));
   (kExternalPower, JBool (st_ExternalPower st)); (kBatteryVolts, JNumber (st_BatteryVolts st))].

Definition names : list (list Z) := [kVersion; kBatteryLevel; kCharging; kExternalPower; kBatteryVolts].

(** What a field of the wire structure holds, as JSON. *)
Definition given (w : runtimeStatusV1Wire) (key : list Z) : option json :=
  if key_is key kVersion then JNumber <$> w_Version w
  else if key_is key kBatteryLevel then JNumber <$> w_BatteryLevel w
  else if key_is key kCharging then JBool <$> w_Charging w
  else if key_is key kExternalPower then JBool <$> w_ExternalPower w
  else if key_is key kBatteryVolts then JNumber <$> w_BatteryVolts w
  else None.

Definition value_of (v : json) : option json := match v with JNull => None | v => Some v end.

Lemma key_is_spec key name : key_is key name = true <-> key = name.
Proof. apply bool_decide_eq_true. Qed.

Lemma uint_value max v x : decode_uint max v = Some x -> JNumber <$> x = value_of v.
Proof. destruct v; cbn; try discriminate; [case_if; [|discriminate]|]; by intros [= <-]. Qed.

Lemma bool_value v x : decode_bool v = Some x -> JBool <$> x = value_of v.
Proof. destruct v; cbn; try discriminate; by intros [= <-]. Qed.

(** The value a key takes, when the decoder accepts it. *)
Lemma decode_field_spec key v w w' : decode_field key v w = Ok w' ->
  key ∈ names /\ given w' key = value_of v /\ (forall k, k <> key -> given w' k = given w k).
Proof.
  assert (Hne : forall k name : list Z, k <> name -> key_is k name = false).
  { intros k name Hk. apply not_true_iff_false. by rewrite key_is_spec. }
  unfold decode_field. repeat case_if; try discriminate;
    match goal with H : key_is key _ = true |- _ => apply key_is_spec in H; subst key end;
    (destruct (decode_uint _ v) as [x|] eqn:Ev || destruct (decode_bool v) as [x|] eqn:Ev); try discriminate;
    (apply uint_value in Ev || apply bool_value in Ev); intros [= <-]; (split; [by_decide|]); (split; [exact Ev|]);
    intros k Hk; unfold given; rewrite (Hne k _ Hk); reflexivity.
Qed.

(** Whether a field is accepted does not depend on the fields before it. *)
Lemma decode_field_any key v w1 w2 w' : decode_field key v w1 = Ok w' -> exists w'', decode_field key v w2 = Ok w''.
Proof.
  unfold decode_field. repeat case_if; try discriminate;
    (destruct (decode_uint _ v) || destruct (decode_bool v)); try discriminate; intros _; by eexists.
Qed.

Lemma seen_spec key seen : existsb (key_is key) seen = false <-> (key ∉ seen).
Proof.
  rewrite <-not_true_iff_false, existsb_exists. split.
  - intros H Hin. apply H. exists key. split; [by apply list_elem_of_In|by apply key_is_spec].
  - intros H (k & Hk & E). apply key_is_spec in E as <-. apply H. by apply list_elem_of_In.
Qed.

Lemma decode_fields_sound fields seen w w' : decode_fields seen fields w = Ok w' ->
  base.NoDup (map fst fields) /\ (forall k, k ∈ map fst fields -> (k ∉ seen) /\ k ∈ names) /\
  (forall k v, (k, v) ∈ fields -> given w' k = value_of v) /\ (forall k, k ∉ map fst fields -> given w' k = given w k).
Proof.
  revert seen w. induction fields as [|[key v] fields IH]; intros seen w; cbn [decode_fields map fst].
  - intros [= <-]. split_and!; [constructor|..]; set_solver.
  - case_if; [discriminate|]. apply seen_spec in Hb. destruct (decode_field key v w) as [w1|] eqn:E; [|discriminate].
    cbn. intros H. apply decode_field_spec in E as (E1 & E2 & E3). apply IH in H as (H1 & H2 & H3 & H4).
    assert (Hk : key ∉ map fst fields) by (intros Hin; apply H2 in Hin as [Hin _]; set_solver).
    split_and!.
    + by constructor.
    + intros k [->|Hin]%elem_of_cons; [done|]. apply H2 in Hin. set_solver.
    + intros k x [[= -> ->]|Hin]%elem_of_cons; [by rewrite H4|by apply H3].
    + intros k [Hn Hf]%not_elem_of_cons. rewrite H4 by done. by apply E3.
Qed.

Lemma decode_fields_complete fields seen w : base.NoDup (map fst fields) -> (forall k, k ∈ map fst fields -> k ∉ seen) ->
  (forall k v, (k, v) ∈ fields -> exists w', decode_field k v empty_wire = Ok w') -> exists w', decode_fields seen fields w = Ok w'.
Proof.
  revert seen w. induction fields as [|[key v] fields IH]; intros seen w; cbn [decode_fields map fst]; [by eexists|].
  intros [Hk Hn]%list.NoDup_cons Hs Hf. rewrite (proj2 (seen_spec key seen)) by (apply Hs; set_solver).
  destruct (Hf key v ltac:(set_solver)) as [w1 Hw]. destruct (decode_field_any _ _ _ w _ Hw) as [w2 ->]. cbn.
  apply IH; [done| |]; [intros k Hin; apply not_elem_of_cons; split; [by intros ->|]; apply Hs; set_solver|].
  intros k x Hin. apply Hf. set_solver.
Qed.

Lemma status_keys st : map fst (status_fields st) = names.
Proof. reflexivity. Qed.

Lemma names_nodup : base.NoDup names.
Proof. by_decide. Qed.

Definition wire_of (st : RuntimeStatusV1) : runtimeStatusV1Wire :=
  {| w_Version := Some (st_Version st); w_BatteryLevel := Some (st_BatteryLevel st); w_Charging := Some (st_Charging st);
     w_ExternalPower := Some (st_ExternalPower st); w_BatteryVolts := Some (st_BatteryVolts st) |}.

Lemma given_status st k v : (k, v) ∈ status_fields st <-> given (wire_of st) k = Some v.
Proof.
  split.
  - intros H. repeat (apply elem_of_cons in H as [[= -> ->]|H]; [reflexivity|]). by apply elem_of_nil in H.
  - unfold given. repeat case_if; try discriminate; match goal with H : key_is k _ = true |- _ => apply key_is_spec in H; subst k end;
      intros [= <-]; repeat first [left|right].
Qed.

(** Fields that decode to a complete structure are the fields of its status. *)
Lemma complete_fields fields st : decode_fields [] fields empty_wire = Ok (wire_of st) -> fields ≡ₚ status_fields st.
Proof.
  intros (H1 & H2 & H3 & H4)%decode_fields_sound. apply list.NoDup_Permutation.
  - by apply NoDup_fmap_1 in H1.
  - apply (NoDup_fmap_1 fst). exact names_nodup.
  - intros [k v]. rewrite given_status. split.
    + intros Hin. pose proof (H3 k v Hin) as E. destruct (H2 k) as [_ Hn]; [apply list_elem_of_fmap; by exists (k, v)|].
      rewrite E. destruct v; try done. exfalso. cbn in E.
      repeat (apply elem_of_cons in Hn as [->|Hn]; [discriminate E|]). by apply elem_of_nil in Hn.
    + intros E. destruct (decide (k ∈ map fst fields)) as [Hin|Hin].
      * apply list_elem_of_fmap in Hin as ([k' x] & -> & Hin). cbn [fst] in *. pose proof (H3 _ _ Hin) as E'.
        rewrite E' in E. destruct x; cbn in E; simplify_eq; done.
      * rewrite (H4 k Hin) in E. unfold given in E. by repeat case_if_in E.
Qed.

Lemma status_field_decodes st k v : U8 (st_BatteryLevel st) -> Validate st = None -> (k, v) ∈ status_fields st ->
  exists w, decode_field k v empty_wire = Ok w.
Proof.
  intros Hr Hv Hin.
  assert (Hb : st_Version st = 1 /\ st_BatteryLevel st <= 9 /\ 2500 <= st_BatteryVolts st <= 5000).
  { unfold Validate, BatteryMax in Hv. repeat case_if_in Hv; try discriminate. bool_prop. lia. }
  assert (Hu : forall max z, 0 <= z <= max -> decode_uint max (JNumber z) = Some (Some z)).
  { intros max z Hz. unfold decode_uint. rewrite (proj2 (Z.leb_le 0 z)), (proj2 (Z.leb_le z max)) by lia. done. }
  repeat (apply elem_of_cons in Hin as [[= -> ->]|Hin];
    [unfold decode_field; eexists; vm_compute key_is; rewrite ?Hu by lia; reflexivity|]).
  by apply elem_of_nil in Hin.
Qed.

Lemma wire_determined w st : (forall k v, (k, v) ∈ status_fields st -> given w k = value_of v) -> w = wire_of st.
Proof.
  intros Hg.
  assert (G1 : JNumber <$> w_Version w = Some (JNumber (st_Version st))) by (apply (Hg kVersion (JNumber _)); set_solver).
  assert (G2 : JNumber <$> w_BatteryLevel w = Some (JNumber (st_BatteryLevel st))) by (apply (Hg kBatteryLevel (JNumber _)); set_solver).
  assert (G3 : JBool <$> w_Charging w = Some (JBool (st_Charging st))) by (apply (Hg kCharging (JBool _)); set_solver).
  assert (G4 : JBool <$> w_ExternalPower w = Some (JBool (st_ExternalPower st))) by (apply (Hg kExternalPower (JBool _)); set_solver).
  assert (G5 : JNumber <$> w_BatteryVolts w = Some (JNumber (st_BatteryVolts st))) by (apply (Hg kBatteryVolts (JNumber _)); set_solver).
  destruct w as [[v|] [l|] [c|] [x|] [m|]]; try discriminate. unfold wire_of. cbn in *. congruence.
Qed.

(** C36: a status is accepted exactly when it is complete.  The decoder returns a status only for one
    object, with nothing after it, whose fields are the five fields of that status, each once and in any
    order, and whose values are in range; every such payload is accepted. *)
Theorem switch2_status_exact p st : U8 (st_BatteryLevel st) ->
  DecodeRuntimeStatusV1 p = Ok st <->
  p_opening p = OpenObject /\ p_fields p ≡ₚ status_fields st /\ p_closing p = CloseObject /\ p_trailing p = TrailingEOF /\
  Validate st = None.
Proof.
  intros Hr. unfold DecodeRuntimeStatusV1. split.
  - destruct (p_opening p); try discriminate. destruct (decode_fields [] (p_fields p) empty_wire) as [w|] eqn:E; [|discriminate]. cbn.
    destruct (p_closing p); try discriminate. destruct (p_trailing p); try discriminate. destruct w as [[v|] [l|] [c|] [x|] [m|]]; try discriminate.
    cbn. destruct (Validate _) eqn:Ev; [discriminate|]. intros [= <-]. split_and!; try done. by apply complete_fields.
  - intros (-> & Hf & -> & -> & Hv).
    assert (Hk : map fst (p_fields p) ≡ₚ names) by (rewrite <-(status_keys st); by apply fmap_Permutation).
    destruct (decode_fields_complete (p_fields p) [] empty_wire) as [w E].
    { rewrite Hk. apply names_nodup. }
    { intros k _. apply not_elem_of_nil. }
    { intros k v Hin. rewrite Hf in Hin. by apply (status_field_decodes st). }
    rewrite E. cbn. pose proof (decode_fields_sound _ _ _ _ E) as (_ & _ & H3 & _).
    rewrite (wire_determined w st) by (intros k v Hin; apply H3; by rewrite Hf). cbn. destruct st. cbn in *. by rewrite Hv.
Qed.

(** *** A payload with its fields in another order, and one that names a field twice *)

Definition demo_status : RuntimeStatusV1 :=
  {| st_Version := 1; st_BatteryLevel := 0; st_Charging := true; st_ExternalPower := false; st_BatteryVolts := 3700 |}.

Definition demo_payload (fields : list (list Z * json)) : payload :=
  {| p_opening := OpenObject; p_fields := fields; p_closing := CloseObject; p_trailing := TrailingEOF |}.

Lemma switch2_status_exact_witness :
  DecodeRuntimeStatusV1 (demo_payload (reverse (status_fields demo_status))) = Ok demo_status /\
  DecodeRuntimeStatusV1 (demo_payload ((kVersion, JNumber 1) :: status_fields demo_status)) = Err (ErrDuplicate kVersion).
Proof.
  split; [|vm_compute; reflexivity].
  apply (switch2_status_exact (demo_payload (reverse (status_fields demo_status))) demo_status); [cbn; lia|].
  split_and!; try reflexivity. apply reverse_Permutation.
Defined.
