(* ===== verification/Ns2Device.v ===== *)
(** * Switch 2 Pro controller

    src/device/ns2pro, the device: producers and their leases, the claims of
    the transport with the copy the device keeps of them, the report EP0
    shows, the changes of report mode, features and metadata and the fence
    they put before reports already encoded, the command channel, rumble and
    the stream handler.

    A method is a function on the device; what it does under
    [inputLifecycleMu] is one step, and the sends on its one-place channels
    stay with it.  Every call of time.Now is an argument.  The sequencer is
    the environment of the scheduler's encoder.  What the output callback is
    given is returned as a list.  A slice a method returns is a list, nil the
    empty one. *)

From S2P Require Import Prelude Bytes Codec Hid Descriptor InputChannel Ns2Report Ns2Status InputPresentation.

(** ** State (device.go) *)

Definition ns2InputTransition (previous next : InputState) : bool := negb (Buttons previous =? Buttons next).

(** The scheduler's encoder, [buildCurrentInto]. *)
Definition buildCurrentInto (q : sequencer) (state : InputState) (size : nat) : sequencer * (InputState * list Z * Z) :=
  let '(q, data, n) := buildInterruptInto q state 0 (zeros size) in (q, (state, data, n)).

Local Notation sched := (FixedReportScheduler InputState sequencer).
Local Notation T0 := InputState_zero.

(** The fields of the struct, by what they serve; [inputReports] is the
    environment of [input]. *)
Record producers := { producerActive : bool; compatProducerUsed : bool; retiredCompatibilityLease : Z }.
Record resync := { pendingResync : InputState; pendingResyncAt : Z; hasPendingResync : bool }.
Record presentation := {
  activePresentationClaim : Claim; activePresentationReport : list Z; activePresentationState : InputState;
  hasDeferredPresentation : bool;
}.
Record report_snapshot := {
  inputReportSnapshot : list Z; inputReportSnapshotState : InputState; inputReportSnapshotVersion : Z;
}.
Record output := { outputCallback : bool; outputVersion : Z }.
Record protocol := { featureMask : Z; usbReportsEnabled : bool; bulkInQueue : list (list Z) }.

Record NS2Pro := {
  input : sched; inputSignal : bool; bulkCh : bool; inputState : InputState; metaState : option MetaState;
  pr : producers; rs : resync; ac : presentation; sn : report_snapshot; ou : output; pt : protocol;
  descriptor : Descriptor;
}.

Definition set_input (v : sched) (d : NS2Pro) : NS2Pro := {|
  input := v; inputSignal := inputSignal d; bulkCh := bulkCh d; inputState := inputState d;
  metaState := metaState d; pr := pr d; rs := rs d; ac := ac d; sn := sn d; ou := ou d; pt := pt d;
  descriptor := descriptor d |}.
Definition set_signal (v : bool) (d : NS2Pro) : NS2Pro := {|
  input := input d; inputSignal := v; bulkCh := bulkCh d; inputState := inputState d;
  metaState := metaState d; pr := pr d; rs := rs d; ac := ac d; sn := sn d; ou := ou d; pt := pt d;
  descriptor := descriptor d |}.
Definition set_bulk (v : bool) (d : NS2Pro) : NS2Pro := {|
  input := input d; inputSignal := inputSignal d; bulkCh := v; inputState := inputState d;
  metaState := metaState d; pr := pr d; rs := rs d; ac := ac d; sn := sn d; ou := ou d; pt := pt d;
  descriptor := descriptor d |}.
Definition set_state (v : InputState) (d : NS2Pro) : NS2Pro := {|
  input := input d; inputSignal := inputSignal d; bulkCh := bulkCh d; inputState := v;
  metaState := metaState d; pr := pr d; rs := rs d; ac := ac d; sn := sn d; ou := ou d; pt := pt d;
  descriptor := descriptor d |}.
Definition set_meta (v : option MetaState) (d : NS2Pro) : NS2Pro := {|
  input := input d; inputSignal := inputSignal d; bulkCh := bulkCh d; inputState := inputState d;
  metaState := v; pr := pr d; rs := rs d; ac := ac d; sn := sn d; ou := ou d; pt := pt d;
  descriptor := descriptor d |}.
Definition set_pr (v : producers) (d : NS2Pro) : NS2Pro := {|
  input := input d; inputSignal := inputSignal d; bulkCh := bulkCh d; inputState := inputState d;
  metaState := metaState d; pr := v; rs := rs d; ac := ac d; sn := sn d; ou := ou d; pt := pt d;
  descriptor := descriptor d |}.
Definition set_rs (v : resync) (d : NS2Pro) : NS2Pro := {|
  input := input d; inputSignal := inputSignal d; bulkCh := bulkCh d; inputState := inputState d;
  metaState := metaState d; pr := pr d; rs := v; ac := ac d; sn := sn d; ou := ou d; pt := pt d;
  descriptor := descriptor d |}.
Definition set_ac (v : presentation) (d : NS2Pro) : NS2Pro := {|
  input := input d; inputSignal := inputSignal d; bulkCh := bulkCh d; inputState := inputState d;
  metaState := metaState d; pr := pr d; rs := rs d; ac := v; sn := sn d; ou := ou d; pt := pt d;
  descriptor := descriptor d |}.
Definition set_sn (v : report_snapshot) (d : NS2Pro) : NS2Pro := {|
  input := input d; inputSignal := inputSignal d; bulkCh := bulkCh d; inputState := inputState d;
  metaState := metaState d; pr := pr d; rs := rs d; ac := ac d; sn := v; ou := ou d; pt := pt d;
  descriptor := descriptor d |}.
Definition set_ou (v : output) (d : NS2Pro) : NS2Pro := {|
  input := input d; inputSignal := inputSignal d; bulkCh := bulkCh d; inputState := inputState d;
  metaState := metaState d; pr := pr d; rs := rs d; ac := ac d; sn := sn d; ou := v; pt := pt d;
  descriptor := descriptor d |}.
Definition set_pt (v : protocol) (d : NS2Pro) : NS2Pro := {|
  input := input d; inputSignal := inputSignal d; bulkCh := bulkCh d; inputState := inputState d;
  metaState := metaState d; pr := pr d; rs := rs d; ac := ac d; sn := sn d; ou := ou d; pt := v;
  descriptor := descriptor d |}.
Definition set_descriptor (v : Descriptor) (d : NS2Pro) : NS2Pro := {|
  input := input d; inputSignal := inputSignal d; bulkCh := bulkCh d; inputState := inputState d;
  metaState := metaState d; pr := pr d; rs := rs d; ac := ac d; sn := sn d; ou := ou d; pt := pt d;
  descriptor := v |}.

Definition inputReports (d : NS2Pro) : sequencer := env (input d).
Definition set_reports (q : sequencer) (d : NS2Pro) : NS2Pro := set_input (set_env q (input d)) d.

Definition signalInput (d : NS2Pro) : NS2Pro := set_signal true d.
Definition currentInputState (d : NS2Pro) : InputState := inputState d.
Definition storeCurrentInputState (state : InputState) (d : NS2Pro) : NS2Pro := set_state state d.
Definition reportsEnabled (d : NS2Pro) : bool := usbReportsEnabled (pt d).
Definition serialNumber (d : NS2Pro) : list Z := match metaState d with None => [] | Some m => SerialNumber m end.

(** *** The report EP0 shows *)

Definition nextVersion (v : Z) : Z := let v := u64 (v + 1) in if v =? 0 then 1 else v.

Definition refreshInputReportSnapshotWithStateLocked (state : InputState) (d : NS2Pro) : NS2Pro :=
  let '(report, n) := buildControlInto (inputReports d) state 0 (inputReportSnapshot (sn d)) in
  set_sn {| inputReportSnapshot := if n =? Z.of_nat InputReportSize then report else zeros InputReportSize;
            inputReportSnapshotState := state;
            inputReportSnapshotVersion := nextVersion (inputReportSnapshotVersion (sn d)) |} d.

Definition refreshNeutralInputReportSnapshotLocked (d : NS2Pro) : NS2Pro :=
  refreshInputReportSnapshotWithStateLocked NewInputState d.

Definition commitInputReportSnapshotLocked (report : list Z) (state : InputState) (d : NS2Pro) : NS2Pro :=
  if (length report <? InputReportSize)%nat then d
  else set_sn {| inputReportSnapshot := take InputReportSize report; inputReportSnapshotState := state;
                 inputReportSnapshotVersion := nextVersion (inputReportSnapshotVersion (sn d)) |} d.

(** The destination, the size and the version. *)
Definition snapshotInputReportForIDInto (reportID : Z) (destination : list Z) (d : NS2Pro) : list Z * nat * Z :=
  let n := Nat.min (length destination) InputReportSize in
  let version := inputReportSnapshotVersion (sn d) in
  let snapshot := inputReportSnapshot (sn d) in
  if (reportID =? 0) || ((0 <? n)%nat && (byte_at snapshot 0 =? reportID))
  then (take n snapshot ++ drop n destination, n, version)
  else
    let '(report, size) := buildControlInto (inputReports d) (inputReportSnapshotState (sn d)) reportID (zeros InputReportSize) in
    if negb (size =? Z.of_nat InputReportSize) then (destination, 0%nat, version)
    else (take n report ++ drop n destination, n, version).

Definition SnapshotInputReportInto (destination : list Z) (d : NS2Pro) : list Z * nat * Z :=
  snapshotInputReportForIDInto 0 destination d.
Definition InputReportSnapshotCurrent (version : Z) (d : NS2Pro) : bool :=
  negb (version =? 0) && (version =? inputReportSnapshotVersion (sn d)).
Definition SupportsInputReportSnapshot (reportID : Z) : bool :=
  (reportID =? 0) || (reportID =? ReportIDCommon) || (reportID =? ReportIDPro).

(** *** Descriptor (descriptor.go) *)

Definition hidShort (itemType tag : Z) (data : list Z) : item := AnyItem itemType tag data.
Local Notation M := 0.
Local Notation G := 1.
Local Notation L := 2.

Definition reportDescriptor : list item :=
  [hidShort G 0x0 [0x01]; hidShort L 0x0 [0x05]; hidShort M 0xA [0x01]; hidShort G 0x8 [ReportIDCommon];
   hidShort G 0x0 [0xFF]; hidShort L 0x0 [0x01]; hidShort G 0x1 [0x00]; hidShort G 0x2 [0xFF; 0x00];
   hidShort G 0x9 [0x3F]; hidShort G 0x7 [0x08]; hidShort M 0x8 [0x02]; hidShort G 0x8 [ReportIDPro];
   hidShort L 0x0 [0x01]; hidShort G 0x9 [0x02]; hidShort M 0x8 [0x02]; hidShort G 0x0 [0x09];
   hidShort L 0x1 [0x01]; hidShort L 0x2 [0x15]; hidShort G 0x2 [0x01]; hidShort G 0x9 [0x15];
   hidShort G 0x7 [0x01]; hidShort M 0x8 [0x02]; hidShort G 0x9 [0x01]; hidShort G 0x7 [0x03];
   hidShort M 0x8 [0x03]; hidShort G 0x0 [0x01]; hidShort L 0x0 [0x01]; hidShort M 0xA [0x00];
   hidShort L 0x0 [0x30]; hidShort L 0x0 [0x31]; hidShort L 0x0 [0x33]; hidShort L 0x0 [0x35];
   hidShort G 0x2 [0xFF; 0x0F]; hidShort G 0x9 [0x04]; hidShort G 0x7 [0x0C]; hidShort M 0x8 [0x02];
   hidShort M 0xC []; hidShort G 0x0 [0xFF]; hidShort L 0x0 [0x02]; hidShort G 0x2 [0xFF; 0x00];
   hidShort G 0x9 [0x34]; hidShort G 0x7 [0x08]; hidShort M 0x8 [0x02]; hidShort G 0x8 [ReportIDOutput];
   hidShort L 0x0 [0x01]; hidShort G 0x9 [0x3F]; hidShort M 0x9 [0x02]; hidShort M 0xC []].

Definition endpoint (address attributes interval : Z) : EndpointDescriptor := {|
  BEndpointAddress := address; ep_BMAttributes := attributes; WMaxPacketSize := 64; BInterval := interval;
  ep_Trailing := []; ep_ClassDescriptors := [] |}.

Definition MakeDescriptor : Descriptor := {|
  d_Device := {| BcdUSB := 0x0200; BDeviceClass := 0xEF; BDeviceSubClass := 0x02; BDeviceProtocol := 0x01;
    BMaxPacketSize0 := 0x40; IDVendor := 0x057E; IDProduct := 0x2069; BcdDevice := 0x0200; IManufacturer := 0x01;
    IProduct := 0x02; ISerialNumber := 0x03; BNumConfigurations := 0x01; Speed := 2 |};
  d_Configuration := {| cfg_BConfigurationValue := 0x01; cfg_IConfiguration := 0x04; cfg_BMAttributes := 0xC0;
    cfg_BMaxPower := 0xFA |};
  d_MicrosoftOS10 := Some {| ms_VendorCode := 0x20; ms_InterfaceNumber := 0x01;
    ms_CompatibleID := bytes_of_string "WINUSB"; ms_SubCompatibleID := [];
    ms_DeviceInterfaceGUID := bytes_of_string "{7D8F1E5C-9D89-4E0D-A2F0-6D10F1F89A8F}" |};
  d_Associations := [];
  d_Interfaces :=
    [{| if_Descriptor := {| BInterfaceNumber := 0x00; BAlternateSetting := 0x00; BNumEndpoints := 0x02;
          BInterfaceClass := 0x03; BInterfaceSubClass := 0x00; BInterfaceProtocol := 0x00; IInterface := 0x05 |};
        if_HID := Some {|
          hf_Descriptor := {| BcdHID := 0x0111; BCountryCode := 0x00;
            hd_Descriptors := [{| sd_Type := ReportDescType; sd_Length := 0 |}] |};
          hf_ReportDescriptor := reportDescriptor; hf_ReportDescriptorBytes := [] |};
        if_Endpoints := [endpoint 0x81 0x03 1; endpoint 0x01 0x03 4]; if_ClassDescriptors := [] |};
     {| if_Descriptor := {| BInterfaceNumber := 0x01; BAlternateSetting := 0x00; BNumEndpoints := 0x02;
          BInterfaceClass := 0xFF; BInterfaceSubClass := 0x00; BInterfaceProtocol := 0x00; IInterface := 0x06 |};
        if_HID := None;
        if_Endpoints := [endpoint 0x02 0x02 0; endpoint 0x82 0x02 0]; if_ClassDescriptors := [] |}];
  d_Strings := list_to_map [(0, [0xD0; 0x89]); (1, bytes_of_string "Nintendo");
    (2, bytes_of_string "Switch 2 Pro Controller"); (3, DefaultSerialEnding);
    (4, bytes_of_string "Nintendo Switch 2 Pro Controller"); (5, bytes_of_string "Nintendo Switch 2 Pro Controller");
    (6, bytes_of_string "Pro Controller")];
|}.

(** [descriptor.Strings[3] = serialEnding] *)
Definition with_serial_ending (serial : list Z) (d : Descriptor) : Descriptor :=
  let ending := if (2 <=? length serial)%nat then drop (length serial - 2) serial else DefaultSerialEnding in
  {| d_Device := d_Device d; d_Configuration := d_Configuration d; d_MicrosoftOS10 := d_MicrosoftOS10 d;
     d_Associations := d_Associations d; d_Interfaces := d_Interfaces d; d_Strings := <[3 := ending]> (d_Strings d) |}.

(** *** Construction *)

(** The fields a JSON object gives for a [MetaState]. *)
Record meta_args := {
  a_SerialNumber : option (list Z); a_BatteryLevel : option Z; a_Charging : option bool; a_ExternalPower : option bool;
  a_BatteryVolts : option Z;
}.

Definition no_args : meta_args :=
  {| a_SerialNumber := None; a_BatteryLevel := None; a_Charging := None; a_ExternalPower := None; a_BatteryVolts := None |}.

(** New ignores an empty serial and zero numbers. *)
Definition New_meta (a : meta_args) : MetaState :=
  let nonzero (v : option Z) (z : Z) := match v with Some v => if v =? 0 then z else v | None => z end in
  {| SerialNumber := match a_SerialNumber a with
       | Some s => if (length s =? 0)%nat then SerialNumber defaultMetaState else s
       | None => SerialNumber defaultMetaState
       end;
     BatteryLevel := nonzero (a_BatteryLevel a) (BatteryLevel defaultMetaState);
     Charging := default (Charging defaultMetaState) (a_Charging a);
     ExternalPower := default (ExternalPower defaultMetaState) (a_ExternalPower a);
     BatteryVolts := nonzero (a_BatteryVolts a) (BatteryVolts defaultMetaState) |}.

Definition neutralState : InputState := NewInputState.

Inductive ns2_err := ErrJSON | ErrScheduler (e : new_err).

(** [args] is what json.Unmarshal makes of the device-specific string, [no_args] of an empty one; [None] is its error. *)
Definition New (o : option CreateOptions) (args : option meta_args) (now : Z) :
    result ns2_err (config InputState sequencer * NS2Pro) :=
  match args with
  | None => Err ErrJSON
  | Some args =>
      let meta := New_meta args in
      match NewFixedReportSchedulerWithOverflowFault T0 InputReportSize neutralState (Some buildCurrentInto)
              (Some ns2InputTransition) now now (newNS2InputReportSequencer meta now) with
      | Err e => Err (ErrScheduler e)
      | Ok (cfg, s) => Ok (cfg, {|
          input := s; inputSignal := true; bulkCh := false; inputState := neutralState; metaState := Some meta;
          pr := {| producerActive := false; compatProducerUsed := false; retiredCompatibilityLease := 0 |};
          rs := {| pendingResync := T0; pendingResyncAt := zero_time; hasPendingResync := false |};
          ac := {| activePresentationClaim := Claim_zero; activePresentationReport := zeros InputReportSize;
                   activePresentationState := T0; hasDeferredPresentation := false |};
          sn := {| inputReportSnapshot := fst (buildControlInto (env s) neutralState 0 (zeros InputReportSize));
                   inputReportSnapshotState := neutralState; inputReportSnapshotVersion := 1 |};
          ou := {| outputCallback := false; outputVersion := 0 |};
          pt := {| featureMask := 0; usbReportsEnabled := false; bulkInQueue := [] |};
          descriptor := with_ids o (with_serial_ending (SerialNumber meta) MakeDescriptor) |})
      end
  end.

Section Device.
Context (cfg : config InputState sequencer).

(** *** Resynchronization *)

Definition stageInputResynchronization (state : InputState) (receivedAt : Z) (d : NS2Pro) : NS2Pro :=
  if negb (hasPendingResync (rs d)) || negb (receivedAt <? pendingResyncAt (rs d))
  then set_rs {| pendingResync := state; pendingResyncAt := receivedAt; hasPendingResync := true |} d else d.

Definition clearInputResynchronization (d : NS2Pro) : NS2Pro :=
  set_rs {| pendingResync := T0; pendingResyncAt := zero_time; hasPendingResync := false |} d.

Definition pendingInputResynchronization (d : NS2Pro) : InputState * bool := (pendingResync (rs d), hasPendingResync (rs d)).

Definition tryPublishInputResynchronizationLocked (now : Z) (d : NS2Pro) : NS2Pro * bool :=
  if negb (hasPendingResync (rs d)) then (d, false)
  else
    let '(s, disposition) :=
      Resynchronize cfg (ProducerLease (input d)) (pendingResync (rs d)) (pendingResyncAt (rs d)) now (input d) in
    let d := set_input s d in
    match disposition with
    | PublishAcceptedResynchronization => (signalInput (clearInputResynchronization d), true)
    | _ => (d, false)
    end.

(** The reset of the device's copy of a claim that every purge shares. *)
Definition clear_presentation (d : NS2Pro) : NS2Pro :=
  set_ac {| activePresentationClaim := Claim_zero; activePresentationReport := zeros InputReportSize;
            activePresentationState := T0; hasDeferredPresentation := false |} d.

(** *** Producers *)

Definition publishInputStateWithLease (lease : Z) (state : InputState) (receivedAt now : Z) (d : NS2Pro) :
    NS2Pro * (Z * FixedReportPublishDisposition) :=
  let '(s, disposition) := PublishWithLease T0 cfg lease state receivedAt now (input d) in
  let d := set_input s d in
  let currentLease := ProducerLease s in
  if lease =? retiredCompatibilityLease (pr d) then (d, (currentLease, disposition))
  else if Accepted disposition then (signalInput (storeCurrentInputState state d), (lease, disposition))
  else
    let stage d := signalInput (stageInputResynchronization state receivedAt (storeCurrentInputState state d)) in
    match disposition with
    | PublishFaultedOverflow => (stage (refreshNeutralInputReportSnapshotLocked d), (currentLease, disposition))
    | PublishRejectedNeutralPending => (stage d, (currentLease, disposition))
    | PublishRejectedStaleProducer | PublishRejectedResynchronizationRequired =>
        let snapshot := Snapshot cfg s in
        (if MandatoryNeutral snapshot || Resynchronization snapshot then stage d else d, (currentLease, disposition))
    | _ => (d, (currentLease, disposition))
    end.

(** [lease] is the lease read before the publication, which another method may have ended since. *)
Definition UpdateInputState (lease : Z) (state : InputState) (now : Z) (d : NS2Pro) : NS2Pro * bool :=
  if producerActive (pr d) then (d, false)
  else
    let d := set_pr {| producerActive := false; compatProducerUsed := true;
                       retiredCompatibilityLease := retiredCompatibilityLease (pr d) |} d in
    let '(d, (_, disposition)) := publishInputStateWithLease lease state now now d in
    (d, Accepted disposition).

Definition acquireInputProducer (now : Z) (d : NS2Pro) : NS2Pro * (Z * bool) :=
  if producerActive (pr d) then (d, (0, false))
  else
    let lease := ProducerLease (input d) in
    let owned retired := {| producerActive := true; compatProducerUsed := false; retiredCompatibilityLease := retired |} in
    if compatProducerUsed (pr d) then
      let '(s, (fresh, retired)) := RetireProducerLease T0 cfg lease now now (input d) in
      let d := set_input s d in
      if negb retired then (d, (0, false))
      else
        let d := clear_presentation (clearInputResynchronization d) in
        let d := refreshNeutralInputReportSnapshotLocked (storeCurrentInputState neutralState d) in
        (signalInput (set_pr (owned lease) d), (fresh, true))
    else (set_pr (owned (retiredCompatibilityLease (pr d))) d, (lease, true)).

Definition releaseInputProducer (now : Z) (d : NS2Pro) : NS2Pro :=
  if negb (producerActive (pr d)) then d
  else
    let d := clearInputResynchronization d in
    let '(s, (_, retired)) := RetireProducerLease T0 cfg (ProducerLease (input d)) now now (input d) in
    let d := set_input s d in
    let released lease d := set_pr {| producerActive := false; compatProducerUsed := compatProducerUsed (pr d);
                                      retiredCompatibilityLease := lease |} d in
    if retired
    then signalInput (released 0 (refreshNeutralInputReportSnapshotLocked (clear_presentation d)))
    else released (retiredCompatibilityLease (pr d)) d.

(** *** Report mode, features and metadata

    The closures [updateInputEncodingConfiguration] is called with. *)
Inductive encoding_update :=
| EnableReports (enabled : bool)
| SelectReport (reportID : Z)
| ResetFeatures
| EnableFeatures (flags : Z)
| DisableFeatures (flags : Z)
| SetMeta (meta : MetaState).

Definition maskedFeatures (flags : Z) (d : NS2Pro) : Z :=
  if featureMask (pt d) =? 0 then flags else Z.land flags (featureMask (pt d)).

Definition set_protocol (mask : Z) (enabled : bool) (d : NS2Pro) : NS2Pro :=
  set_pt {| featureMask := mask; usbReportsEnabled := enabled; bulkInQueue := bulkInQueue (pt d) |} d.

Definition apply_update (u : encoding_update) (d : NS2Pro) : NS2Pro :=
  let q := inputReports d in
  match u with
  | EnableReports enabled => set_protocol (featureMask (pt d)) enabled d
  | SelectReport reportID => set_reports (fst (setActiveReportID reportID q)) d
  | ResetFeatures => set_reports (resetFeatures q) (set_protocol 0 (usbReportsEnabled (pt d)) d)
  | EnableFeatures flags => set_reports (enableFeatures (maskedFeatures flags d) q) d
  | DisableFeatures flags => set_reports (disableFeatures (maskedFeatures flags d) q) d
  | SetMeta meta => set_reports (setMeta meta q) d
  end.

(** The fence before an update: whether reports encoded before it may still be presented, and the state after
    they are purged. *)
Definition fence_encoding (now : Z) (d : NS2Pro) : NS2Pro * bool :=
  let snapshot := Snapshot cfg (input d) in
  if Claim_Valid (activePresentationClaim (ac d)) || hasDeferredPresentation (ac d) || Resynchronization snapshot then
    let '(state, hadPending) := pendingInputResynchronization d in
    let stageCurrent := negb (MandatoryNeutral snapshot) && negb (Resynchronization snapshot) in
    let state := if negb hadPending && stageCurrent then currentInputState d else state in
    let d := clearInputResynchronization d in
    let '(s, (_, fenced)) := RetireProducerLease T0 cfg (ProducerLease (input d)) now now (input d) in
    let d := set_input s d in
    if fenced then
      let d := clear_presentation d in
      (if hadPending || stageCurrent then stageInputResynchronization state now d else d, true)
    else (d, false)
  else (d, false).

Definition updateInputEncodingConfiguration (u : encoding_update) (now : Z) (d : NS2Pro) : NS2Pro :=
  let '(d, fenced) := fence_encoding now d in
  let d := apply_update u d in
  if fenced then signalInput (refreshNeutralInputReportSnapshotLocked d)
  else refreshInputReportSnapshotWithStateLocked (inputReportSnapshotState (sn d)) d.

Definition SetMetaState (meta : MetaState) (now : Z) (d : NS2Pro) : NS2Pro :=
  updateInputEncodingConfiguration (SetMeta meta) now
    (set_descriptor (with_serial_ending (SerialNumber meta) (descriptor d)) (set_meta (Some meta) d)).

Inductive status_result := StatusOk | StatusInvalid (e : status_err) | StatusUnavailable.

Definition SetRuntimeStatusV1 (status : RuntimeStatusV1) (d : NS2Pro) : NS2Pro * status_result :=
  match Validate status with
  | Some e => (d, StatusInvalid e)
  | None =>
      match metaState d with
      | None => (d, StatusUnavailable)
      | Some m =>
          let meta := {| SerialNumber := SerialNumber m; BatteryLevel := st_BatteryLevel status;
                         Charging := st_Charging status; ExternalPower := st_ExternalPower status;
                         BatteryVolts := st_BatteryVolts status |} in
          (set_reports (setMeta meta (inputReports d)) (set_meta (Some meta) d), StatusOk)
      end
  end.

Definition UpdateNS2ProRuntimeStatusV1 (p : payload) (d : NS2Pro) : NS2Pro * result decode_err status_result :=
  match DecodeRuntimeStatusV1 p with
  | Err e => (d, Err e)
  | Ok status => let '(d, r) := SetRuntimeStatusV1 status d in (d, Ok r)
  end.

(** *** Presentation *)

Definition ensureIdleSnapshotLocked (selectedAt now : Z) (d : NS2Pro) : NS2Pro :=
  if Claim_Valid (activePresentationClaim (ac d)) then d
  else
    let snapshot := Snapshot cfg (input d) in
    if negb (TransitionDepth snapshot =? 0)%nat || ContinuousPending snapshot || MandatoryNeutral snapshot ||
       Resynchronization snapshot
    then d
    else
      let '(s, disposition) :=
        PublishWithLease T0 cfg (ProducerLease (input d)) (currentInputState d) selectedAt now (input d) in
      let d := set_input s d in
      if Accepted disposition then signalInput d else d.

(** [now] is also the reading of the sequencer's clock. *)
Definition ClaimInput (destination : list Z) (selectedAt now : Z) (d : NS2Pro) : NS2Pro * (Claim * list Z) :=
  if (length destination <? InputReportSize)%nat then (d, (Claim_zero, destination))
  else
    let selectedAt := or_now selectedAt now in
    if negb (reportsEnabled d) || Claim_Valid (activePresentationClaim (ac d)) then (d, (Claim_zero, destination))
    else
      let d := ensureIdleSnapshotLocked selectedAt now d in
      let d := set_reports (set_clock now (inputReports d)) d in
      let '(s, (claim, destination)) := ClaimInputPresentation T0 cfg destination selectedAt now (input d) in
      let d := set_input s d in
      if Claim_Valid claim then
        match StateForInputPresentationClaim cfg claim s with
        | None =>
            (set_input (fst (ResolveInputPresentation T0 cfg claim OutcomeDefer selectedAt now s)) d,
             (Claim_zero, destination))
        | Some state =>
            (set_ac {| activePresentationClaim := claim; activePresentationReport := take InputReportSize destination;
                       activePresentationState := state;
                       hasDeferredPresentation := hasDeferredPresentation (ac d) |} d, (claim, destination))
        end
      else (d, (claim, destination)).

Definition sameInputPresentationClaim (left_ right_ : Claim) : bool :=
  (Token left_ =? Token right_) && (Generation left_ =? Generation right_) && (Size left_ =? Size right_).

Definition CanAdmitInput (claim : Claim) (admittedAt now : Z) (d : NS2Pro) : NS2Pro * bool :=
  if negb (sameInputPresentationClaim (activePresentationClaim (ac d)) claim) then (d, false)
  else let '(s, ok) := CanAdmitInputPresentation T0 cfg claim admittedAt now (input d) in (set_input s d, ok).

(** What the outcome of a resolved claim changes before the device's copy is dropped. *)
Definition settle_outcome (outcome now : Z) (d : NS2Pro) : NS2Pro :=
  let deferred b d := set_ac {| activePresentationClaim := activePresentationClaim (ac d);
    activePresentationReport := activePresentationReport (ac d); activePresentationState := activePresentationState (ac d);
    hasDeferredPresentation := b |} d in
  if outcome =? OutcomeCommit then
    let d := commitInputReportSnapshotLocked (activePresentationReport (ac d)) (activePresentationState (ac d)) d in
    fst (tryPublishInputResynchronizationLocked now (deferred false d))
  else if outcome =? OutcomeDefer then deferred true d
  else if outcome =? OutcomeRetire then deferred false d
  else d.

Definition ResolveInput (claim : Claim) (outcome completedAt now : Z) (d : NS2Pro) : NS2Pro * bool :=
  if negb (sameInputPresentationClaim (activePresentationClaim (ac d)) claim) then (d, false)
  else
    let '(s, resolved) := ResolveInputPresentation T0 cfg claim outcome completedAt now (input d) in
    let d := set_input s d in
    let d := if resolved then settle_outcome outcome now d else d in
    (set_ac {| activePresentationClaim := Claim_zero; activePresentationReport := zeros InputReportSize;
               activePresentationState := T0; hasDeferredPresentation := hasDeferredPresentation (ac d) |} d, resolved).

Definition RetireInputGeneration (gen retiredAt now : Z) (d : NS2Pro) : NS2Pro * bool :=
  let '(s, currentState) := RetireInputPresentationGenerationWithCurrentState T0 cfg gen retiredAt now (input d) in
  let d := set_input s d in
  match currentState with
  | None => (d, false)
  | Some state => (refreshInputReportSnapshotWithStateLocked state (clear_presentation (clearInputResynchronization d)), true)
  end.

Definition OwnsInputPresentationEndpoint (endpoint : Z) : bool := endpoint =? Z.land 0x81 0x0f.
Definition InputPresentationGeneration (d : NS2Pro) : Z := generation (ep (input d)).

(** Claim, admit and commit in one call; [now1] to [now3] are its clock readings. *)
Definition BuildInputReportInto (destination : list Z) (now1 now2 now3 : Z) (d : NS2Pro) : NS2Pro * (list Z * Z) :=
  let '(d, (claim, destination)) := ClaimInput destination now1 now1 d in
  if negb (Claim_Valid claim) then (d, (destination, 0))
  else
    let '(d, admitted) := CanAdmitInput claim now2 now2 d in
    if negb admitted then (fst (ResolveInput claim OutcomeDefer now3 now3 d), (destination, 0))
    else
      let '(d, resolved) := ResolveInput claim OutcomeCommit now3 now3 d in
      (d, (destination, if resolved then Size claim else 0)).

Definition nextInputReport (now1 now2 now3 : Z) (d : NS2Pro) : NS2Pro * list Z :=
  let '(d, (report, n)) := BuildInputReportInto (zeros InputReportSize) now1 now2 now3 d in
  (d, if n =? Z.of_nat InputReportSize then report else []).

(** *** Output and commands (device.go, commands.go) *)

(** The version its clean-up is given. *)
Definition SetOutputCallback (present : bool) (d : NS2Pro) : NS2Pro * Z :=
  let version := u64 (outputVersion (ou d) + 1) in
  (set_ou {| outputCallback := present; outputVersion := version |} d, version).

Definition clearOutputCallback (version : Z) (d : NS2Pro) : NS2Pro :=
  if outputVersion (ou d) =? version
  then set_ou {| outputCallback := false; outputVersion := outputVersion (ou d) |} d else d.

Definition emitOutput (feedback : OutputState) (d : NS2Pro) : list OutputState :=
  if outputCallback (ou d) then [feedback] else [].

Definition handleOutputReport (out : list Z) (d : NS2Pro) : list OutputState :=
  match out with
  | [] => []
  | id :: rest =>
      let numbered := id =? ReportIDOutput in
      if negb numbered && negb (length out =? OutputRumbleSize)%nat then []
      else
        let payload := if numbered then rest else out in
        if (length payload <? OutputRumbleSize)%nat then []
        else emitOutput {| LeftRumble := slice 0 16 payload; RightRumble := slice 16 32 payload;
                           Flags := OutputFlagRumble; PlayerLedMask := 0 |} d
  end.

Definition enqueueResponse (resp : list Z) (d : NS2Pro) : NS2Pro :=
  set_bulk true (set_pt {| featureMask := featureMask (pt d); usbReportsEnabled := usbReportsEnabled (pt d);
                           bulkInQueue := bulkInQueue (pt d) ++ [resp] |} d).

Definition popBulkIn (d : NS2Pro) : NS2Pro * list Z :=
  match bulkInQueue (pt d) with
  | [] => (d, [])
  | chunk :: queue => (set_pt {| featureMask := featureMask (pt d); usbReportsEnabled := usbReportsEnabled (pt d);
                                 bulkInQueue := queue |} d, chunk)
  end.

Definition cmdFlash : Z := 0x02.
Definition cmdUSB : Z := 0x03.
Definition cmdPlayerLED : Z := 0x09.
Definition cmdFeature : Z := 0x0C.
Definition subFlashRead : Z := 0x01.
Definition subUSBEnableReports : Z := 0x03.
Definition subUSBSelectReport : Z := 0x0A.
Definition subUSBStartReports : Z := 0x0D.
Definition subFeatureInfo : Z := 0x01.
Definition subFeatureSetMask : Z := 0x02.
Definition subFeatureReset : Z := 0x03.
Definition subFeatureEnable : Z := 0x04.
Definition subFeatureDisable : Z := 0x05.
Definition subPlayerLEDSet : Z := 0x07.

Definition handlePlayerLEDCommand (seq_ sub : Z) (out : list Z) (d : NS2Pro) : NS2Pro * list OutputState :=
  let calls := if (sub =? subPlayerLEDSet) && (9 <=? length out)%nat
    then emitOutput {| LeftRumble := zeros 16; RightRumble := zeros 16; Flags := OutputFlagLED;
                       PlayerLedMask := byte_at out 8 |} d
    else [] in
  (enqueueResponse (commandHeader cmdPlayerLED seq_ sub) d, calls).

Definition handleFlashCommand (seq_ sub : Z) (out : list Z) (d : NS2Pro) : NS2Pro :=
  if negb (sub =? subFlashRead) || (length out <? 16)%nat then enqueueResponse (commandHeader cmdFlash seq_ sub) d
  else
    let address := le_val (slice 12 16 out) in
    let resp := zeros (16 + flashBlockSize) in
    let resp := put_at 0 (commandHeader cmdFlash seq_ sub) resp in
    let resp := put_at 8 [Z.of_nat flashBlockSize] resp in
    let resp := put_at 12 (le_bytes 4 address) resp in
    let resp := put_at 16 (minimalFlashBlock (serialNumber d) address) resp in
    enqueueResponse resp d.

Definition handleUSBCommand (seq_ sub : Z) (out : list Z) (now : Z) (d : NS2Pro) : NS2Pro :=
  let header := commandHeader cmdUSB seq_ sub in
  if sub =? subUSBEnableReports then
    let d := if (9 <=? length out)%nat then
        let enabled := negb (byte_at out 8 =? 0) in
        let d := updateInputEncodingConfiguration (EnableReports enabled) now d in
        if enabled then signalInput d else d
      else d in
    enqueueResponse (header ++ [0x01; 0x00; 0x00; 0x00]) d
  else if sub =? subUSBSelectReport then
    let d := if (9 <=? length out)%nat && ((byte_at out 8 =? ReportIDCommon) || (byte_at out 8 =? ReportIDPro))
      then signalInput (updateInputEncodingConfiguration (SelectReport (byte_at out 8)) now d) else d in
    enqueueResponse header d
  else if sub =? subUSBStartReports then
    enqueueResponse (header ++ [0x01; 0x00; 0x00; 0x00])
      (signalInput (updateInputEncodingConfiguration (EnableReports true) now d))
  else enqueueResponse header d.

Definition handleFeatureCommand (seq_ sub : Z) (out : list Z) (now : Z) (d : NS2Pro) : NS2Pro :=
  let flags := if (9 <=? length out)%nat then byte_at out 8 else 0 in
  let header := commandHeader cmdFeature seq_ sub in
  let done d := enqueueResponse (header ++ [0x00; 0x00; 0x00; 0x00]) d in
  if sub =? subFeatureInfo then enqueueResponse (header ++ put_at 4 (featureInfo flags) (zeros 12)) d
  else if sub =? subFeatureSetMask then done (set_protocol flags (usbReportsEnabled (pt d)) d)
  else if sub =? subFeatureReset then done (signalInput (updateInputEncodingConfiguration ResetFeatures now d))
  else if sub =? subFeatureEnable then
    done (signalInput (updateInputEncodingConfiguration (EnableFeatures flags) now d))
  else if sub =? subFeatureDisable then
    done (signalInput (updateInputEncodingConfiguration (DisableFeatures flags) now d))
  else done d.

Definition handleBulkOut (out : list Z) (now : Z) (d : NS2Pro) : NS2Pro * list OutputState :=
  if (length out <? 8)%nat then (d, [])
  else
    let cmd := byte_at out 0 in
    let seq_ := byte_at out 2 in
    let sub := byte_at out 3 in
    if cmd =? cmdFlash then (handleFlashCommand seq_ sub out d, [])
    else if cmd =? cmdUSB then (handleUSBCommand seq_ sub out now d, [])
    else if cmd =? cmdFeature then (handleFeatureCommand seq_ sub out now d, [])
    else if cmd =? cmdPlayerLED then handlePlayerLEDCommand seq_ sub out d
    else (enqueueResponse (commandHeader cmd seq_ sub) d, []).

(** *** Transfers *)

(** What ends a round of a poll's wait. *)
Inductive wake := Cancelled | DeadlineExceeded | Signalled.

(** One round: the reply, [None] while the wait goes on, and what the callback is given. *)
Definition HandleTransfer (w : wake) (ep dir : Z) (out : list Z) (now1 now2 now3 : Z) (d : NS2Pro) :
    NS2Pro * option (list Z) * list OutputState :=
  if (dir =? DirIn) && (ep =? 1) then
    match w with
    | Cancelled => (d, Some [], [])
    | DeadlineExceeded =>
        if reportsEnabled d then let '(d, r) := nextInputReport now1 now2 now3 d in (d, Some r, []) else (d, Some [], [])
    | Signalled =>
        if negb (inputSignal d) then (d, None, [])
        else
          let d := set_signal false d in
          if reportsEnabled d then let '(d, r) := nextInputReport now1 now2 now3 d in (d, Some r, []) else (d, None, [])
    end
  else if (dir =? DirIn) && (ep =? 2) then
    let '(d, resp) := popBulkIn d in
    if negb (length resp =? 0)%nat then (d, Some resp, [])
    else
      match w with
      | Cancelled | DeadlineExceeded => (d, Some [], [])
      | Signalled => (if bulkCh d then set_bulk false d else d, None, [])
      end
  else if (dir =? DirOut) && (ep =? 1) then (d, Some [], handleOutputReport out d)
  else if (dir =? DirOut) && (ep =? 2) then let '(d, calls) := handleBulkOut out now1 d in (d, Some [], calls)
  else (d, Some [], []).

Definition isAudioClassRequest (bmRequestType : Z) : bool :=
  (Z.land bmRequestType 0x60 =? 0x20) &&
  ((Z.land bmRequestType 0x1F =? 0x01) || (Z.land bmRequestType 0x1F =? 0x02)).

Definition inputReportForID (reportID : Z) (d : NS2Pro) : list Z :=
  let '(report, n, _) := snapshotInputReportForIDInto reportID (zeros InputReportSize) d in
  if (n =? InputReportSize)%nat then report else [].

(** [None] is a request the device does not handle. *)
Definition HandleControl (bmRequestType bRequest wValue wIndex wLength : Z) (data : list Z) (d : NS2Pro) :
    option (list Z) * list OutputState :=
  let reportType := u8 (Z.shiftr wValue 8) in
  let reportID := u8 wValue in
  if (bmRequestType =? 0xA1) && (bRequest =? 0x01) && (reportType =? 0x01) && SupportsInputReportSnapshot reportID
  then (Some (inputReportForID reportID d), [])
  else if (bmRequestType =? 0x21) && (bRequest =? 0x09) && (reportType =? 0x02) && (reportID =? ReportIDOutput)
  then (Some [], handleOutputReport data d)
  else if isAudioClassRequest bmRequestType && (bRequest =? 0x01) then (Some [], [])
  else if isAudioClassRequest bmRequestType &&
          ((bRequest =? 0x81) || (bRequest =? 0x82) || (bRequest =? 0x83) || (bRequest =? 0x84))
  then (Some (zeros (Z.to_nat wLength)), [])
  else (None, []).

(** *** The stream (handler.go)

    One frame of the read loop: the lease for the next frame, or the error
    that ends the stream. *)
Inductive stream_err := ErrUnmarshal | ErrDisposition (d : FixedReportPublishDisposition).

Definition stream_frame (lease : Z) (buf : list Z) (receivedAt now : Z) (d : NS2Pro) : NS2Pro * result stream_err Z :=
  match UnmarshalBinary buf with
  | None => (d, Err ErrUnmarshal)
  | Some state =>
      let '(d, (lease, disposition)) := publishInputStateWithLease lease state receivedAt now d in
      match disposition with
      | PublishAcceptedOrdered | PublishAcceptedContinuous | PublishAcceptedResynchronization
      | PublishFaultedOverflow | PublishRejectedNeutralPending | PublishRejectedResynchronizationRequired
      | PublishRejectedStaleProducer => (d, Ok lease)
      | _ => (d, Err (ErrDisposition disposition))
      end
  end.

(** The end of a stream that owned the producer: the serial is released after the producer. *)
Definition release_serial (serial : list Z) (serials : list (list Z)) : list (list Z) :=
  if (length serial =? 0)%nat then serials else List.filter (fun s => negb (bool_decide (s = serial))) serials.

Definition stream_end (version now : Z) (d : NS2Pro) (serials : list (list Z)) : NS2Pro * list (list Z) :=
  let d := releaseInputProducer now (clearOutputCallback version d) in
  (d, release_serial (serialNumber d) serials).

(** The fields of a JSON object laid over the default metadata. *)
Definition decoded_meta (a : meta_args) : MetaState :=
  {| SerialNumber := default (SerialNumber defaultMetaState) (a_SerialNumber a);
     BatteryLevel := default (BatteryLevel defaultMetaState) (a_BatteryLevel a);
     Charging := default (Charging defaultMetaState) (a_Charging a);
     ExternalPower := default (ExternalPower defaultMetaState) (a_ExternalPower a);
     BatteryVolts := default (BatteryVolts defaultMetaState) (a_BatteryVolts a) |}.

(** [None] is a JSON error. *)
Definition UpdateMetaState (args : option meta_args) (now : Z) (d : NS2Pro) : option NS2Pro :=
  match args with None => None | Some a => Some (SetMetaState (decoded_meta a) now d) end.
End Device.

(** CreateDevice: [remarshal] is json.Marshal of the metadata followed by New's json.Unmarshal. *)
Definition CreateDevice (remarshal : MetaState -> option meta_args) (o : option CreateOptions) (args : option meta_args)
    (now : Z) (serials : list (list Z)) : result ns2_err (config InputState sequencer * NS2Pro) * list (list Z) :=
  match args with
  | None => (Err ErrJSON, serials)
  | Some a =>
      let meta := decoded_meta a in
      let '(serial, serials) := register_serial serials (SerialNumber meta) in
      let meta := {| SerialNumber := serial; BatteryLevel := BatteryLevel meta; Charging := Charging meta;
                     ExternalPower := ExternalPower meta; BatteryVolts := BatteryVolts meta |} in
      match New o (remarshal meta) now with
      | Ok r => (Ok r, serials)
      | Err e => (Err e, List.filter (fun s => negb (bool_decide (s = serial))) serials)
      end
  end.

(** The report descriptor is one the encoder represents. *)
Example switch2_descriptor_encodes :
  match ReportDescriptor_Bytes reportDescriptor with Ok bs => length bs = 97%nat | Err _ => False end.
Proof. vm_compute. reflexivity. Qed.
