(* ===== verification/Ns2Pro.v ===== *)
(** * Runs of the Switch 2 Pro controller

    Any interleaving of the device's methods, as a run of the scheduler's
    methods and of changes of the sequencer; what the device keeps of its
    claims; and the mode of the reports it presents.  An update of the report
    mode, the features or the metadata purges what was encoded before it, so
    that a report is presented only in the mode in force. *)

From Stdlib Require Import Sorting.Sorted.
From S2P Require Import Prelude Bytes Codec Ns2Report Ns2Device InputPresentation InputHistory InputClaims InputProtocol.

Local Notation sched := (FixedReportScheduler InputState sequencer).
Local Notation T0 := InputState_zero.

(** ** Runs of the device

    The calls of any number of goroutines, in any order. *)

Inductive dop :=
| DUpdate (lease : Z) (state : InputState) (now : Z)
| DAcquire (now : Z)
| DRelease (now : Z)
| DPublish (lease : Z) (state : InputState) (receivedAt now : Z)
| DClaim (destination : list Z) (at_ now : Z)
| DAdmit (claim : Claim) (at_ now : Z)
| DResolve (claim : Claim) (outcome at_ now : Z)
| DRetire (gen at_ now : Z)
| DCommand (out : list Z) (now : Z)
| DMeta (meta : MetaState) (now : Z)
| DStatus (status : RuntimeStatusV1)
| DCallback (present : bool)
| DUncallback (version : Z)
| DPop
| DWakeInput
| DWakeBulk.

Section Runs.
Context (cfg : config InputState sequencer).
Implicit Types (d : NS2Pro) (s : sched) (g : @trace InputState sequencer).

Definition exec d (o : dop) : NS2Pro :=
  match o with
  | DUpdate lease state now => fst (UpdateInputState cfg lease state now d)
  | DAcquire now => fst (acquireInputProducer cfg now d)
  | DRelease now => releaseInputProducer cfg now d
  | DPublish lease state at_ now => fst (publishInputStateWithLease cfg lease state at_ now d)
  | DClaim destination at_ now => fst (ClaimInput cfg destination at_ now d)
  | DAdmit claim at_ now => fst (CanAdmitInput cfg claim at_ now d)
  | DResolve claim outcome at_ now => fst (ResolveInput cfg claim outcome at_ now d)
  | DRetire gen at_ now => fst (RetireInputGeneration cfg gen at_ now d)
  | DCommand out now => fst (handleBulkOut cfg out now d)
  | DMeta meta now => SetMetaState cfg meta now d
  | DStatus status => fst (SetRuntimeStatusV1 status d)
  | DCallback present => fst (SetOutputCallback present d)
  | DUncallback version => clearOutputCallback version d
  | DPop => fst (popBulkIn d)
  | DWakeInput => set_signal false d
  | DWakeBulk => set_bulk false d
  end.

Definition drun d (ops : list dop) : NS2Pro := foldl exec d ops.

(** A call of the scheduler, or a change of the sequencer by the device. *)
Inductive gop := GCall (o : @op InputState) | GEnv (q : sequencer).

Definition gstep g (o : gop) : trace :=
  match o with
  | GCall o => step T0 cfg g o
  | GEnv q => with_sc (set_env q (sc g)) g
  end.

Definition grun s (ops : list gop) : trace := foldl gstep (start s) ops.

(** The update a command performs. *)
Definition command_update (out : list Z) : option encoding_update :=
  let sub := byte_at out 3 in
  let given := (9 <=? length out)%nat in
  let flags := if given then byte_at out 8 else 0 in
  if (length out <? 8)%nat then None
  else if byte_at out 0 =? cmdUSB then
    if sub =? subUSBEnableReports then if given then Some (EnableReports (negb (byte_at out 8 =? 0))) else None
    else if sub =? subUSBSelectReport then
      if given && ((byte_at out 8 =? ReportIDCommon) || (byte_at out 8 =? ReportIDPro))
      then Some (SelectReport (byte_at out 8)) else None
    else if sub =? subUSBStartReports then Some (EnableReports true) else None
  else if byte_at out 0 =? cmdFeature then
    if sub =? subFeatureReset then Some ResetFeatures
    else if sub =? subFeatureEnable then Some (EnableFeatures flags)
    else if sub =? subFeatureDisable then Some (DisableFeatures flags) else None
  else None.

Definition update_calls (u : encoding_update) (now : Z) d : list gop :=
  (if Claim_Valid (activePresentationClaim (ac d)) || hasDeferredPresentation (ac d) || resynchronizationNeeded (ft (input d))
   then [GCall (ORetireLease (ProducerLease (input d)) now now)] else []) ++
  [GEnv (inputReports (apply_update u d))].

Definition idle_calls (at_ now : Z) d : list gop :=
  if negb (count (jr (input d)) + boolToInt (hasRetry (input d)) + boolToInt (mandatoryNeutralPending (ft (input d))) =? 0)%nat ||
     hasLatest (input d) || mandatoryNeutralPending (ft (input d)) || resynchronizationNeeded (ft (input d))
  then [] else [GCall (OPublishWithLease (ProducerLease (input d)) (inputState d) at_ now)].

Definition claim_calls (destination : list Z) (at_ now : Z) d : list gop :=
  let at_ := or_now at_ now in
  let d1 := ensureIdleSnapshotLocked cfg at_ now d in
  let d1 := set_reports (set_clock now (inputReports d1)) d1 in
  let '(s, (claim, _)) := ClaimInputPresentation T0 cfg destination at_ now (input d1) in
  idle_calls at_ now d ++ [GEnv (inputReports d1); GCall (OClaim destination at_ now)] ++
  (if Claim_Valid claim then
     match StateForInputPresentationClaim cfg claim s with
     | None => [GCall (OResolve claim OutcomeDefer at_ now)]
     | Some _ => []
     end
   else []).

(** The scheduler's methods a call of the device runs. *)
Definition calls d (o : dop) : list gop :=
  match o with
  | DUpdate lease state now => if producerActive (pr d) then [] else [GCall (OPublishWithLease lease state now now)]
  | DAcquire now =>
      if producerActive (pr d) then []
      else if compatProducerUsed (pr d) then [GCall (ORetireLease (ProducerLease (input d)) now now)] else []
  | DRelease now => if producerActive (pr d) then [GCall (ORetireLease (ProducerLease (input d)) now now)] else []
  | DPublish lease state at_ now => [GCall (OPublishWithLease lease state at_ now)]
  | DClaim destination at_ now =>
      if (length destination <? InputReportSize)%nat || negb (reportsEnabled d) ||
         Claim_Valid (activePresentationClaim (ac d)) then []
      else claim_calls destination at_ now d
  | DAdmit claim at_ now =>
      if sameInputPresentationClaim (activePresentationClaim (ac d)) claim then [GCall (OAdmit claim at_ now)] else []
  | DResolve claim outcome at_ now =>
      if sameInputPresentationClaim (activePresentationClaim (ac d)) claim then
        let '(s, resolved) := ResolveInputPresentation T0 cfg claim outcome at_ now (input d) in
        GCall (OResolve claim outcome at_ now) ::
        (if resolved && (outcome =? OutcomeCommit) && hasPendingResync (rs d)
         then [GCall (OResynchronize (ProducerLease s) (pendingResync (rs d)) (pendingResyncAt (rs d)) now)] else [])
      else []
  | DRetire gen at_ now => [GCall (ORetire gen at_ now)]
  | DCommand out now => match command_update out with Some u => update_calls u now d | None => [] end
  | DMeta meta now => update_calls (SetMeta meta) now d
  | DStatus status => [GEnv (inputReports (fst (SetRuntimeStatusV1 status d)))]
  | _ => []
  end.

Fixpoint all_calls d (ops : list dop) : list gop :=
  match ops with [] => [] | o :: ops => calls d o ++ all_calls (exec d o) ops end.

Lemma ns2_calls_length d o : (length (calls d o) <= 4)%nat.
Proof.
  destruct o; cbn [calls length]; repeat case_if; cbn [length]; try lia.
  - unfold claim_calls. destruct (ClaimInputPresentation _ _ _ _ _ _) as [s [c dst]]. rewrite !length_app.
    unfold idle_calls. repeat case_if; try destruct (StateForInputPresentationClaim _ _ _); cbn; lia.
  - destruct (ResolveInputPresentation _ _ _ _ _ _ _) as [s r]. repeat case_if; cbn [length]; lia.
  - destruct (command_update out); [|cbn; lia]. unfold update_calls. case_if; cbn; lia.
  - unfold update_calls. case_if; cbn; lia.
Qed.

Lemma ns2_all_calls_length ops d : (length (all_calls d ops) <= 4 * length ops)%nat.
Proof.
  revert d. induction ops as [|o ops IH]; intros d; cbn [all_calls length]; [lia|].
  rewrite length_app. pose proof (ns2_calls_length d o). specialize (IH (exec d o)). lia.
Qed.

(** *** One call *)

Lemma sc_after s r g : sc (after_publish T0 s r g) = s.
Proof. by destruct r. Qed.

Lemma ns2_stage_frame state at_ d : input (stageInputResynchronization state at_ d) = input d.
Proof. unfold stageInputResynchronization. by case_if. Qed.

Lemma refresh_frame state d : input (refreshInputReportSnapshotWithStateLocked state d) = input d.
Proof. unfold refreshInputReportSnapshotWithStateLocked. by destruct (buildControlInto _ _ _ _). Qed.

Lemma ns2_publish_input lease state at_ now d :
  input (fst (publishInputStateWithLease cfg lease state at_ now d)) = fst (PublishWithLease T0 cfg lease state at_ now (input d)).
Proof.
  unfold publishInputStateWithLease. destruct (PublishWithLease _ _ _ _ _ _ _) as [s r].
  case_if; [done|]. case_if; [done|].
  destruct r; try done; cbn [fst]; try case_if; cbn [fst]; try done; cbn [signalInput set_signal input];
    rewrite ns2_stage_frame; try done; apply refresh_frame.
Qed.

Lemma ns2_commit_frame report state d : input (commitInputReportSnapshotLocked report state d) = input d /\
  rs (commitInputReportSnapshotLocked report state d) = rs d.
Proof. unfold commitInputReportSnapshotLocked. by case_if. Qed.

(** What a command changes of the input plane is its update. *)
Lemma command_core out now d :
  let d1 := fst (handleBulkOut cfg out now d) in
  let d2 := match command_update out with Some u => updateInputEncodingConfiguration cfg u now d | None => d end in
  input d1 = input d2 /\ ac d1 = ac d2 /\ sn d1 = sn d2 /\ rs d1 = rs d2.
Proof.
  unfold handleBulkOut, command_update. case_if; [done|].
  destruct (Z.eqb_spec (byte_at out 0) cmdFlash) as [->|].
  { change (cmdFlash =? cmdUSB) with false. change (cmdFlash =? cmdFeature) with false. unfold handleFlashCommand. by case_if. }
  case_if.
  { unfold handleUSBCommand. repeat (case_if; try done). }
  case_if.
  { unfold handleFeatureCommand. cbn [fst]. destruct (Z.eqb_spec (byte_at out 3) subFeatureInfo) as [->|]; [done|].
    destruct (Z.eqb_spec (byte_at out 3) subFeatureSetMask) as [->|]; [done|]. by repeat (case_if; try done). }
  case_if; [|done]. unfold handlePlayerLEDCommand. by case_if.
Qed.

Lemma ns2_retire_env lease at_ now s : env (fst (RetireProducerLease T0 cfg lease at_ now s)) = env s.
Proof. unfold RetireProducerLease, clear_active. by repeat case_if. Qed.

Lemma ns2_fence_input now d :
  (if Claim_Valid (activePresentationClaim (ac d)) || hasDeferredPresentation (ac d) || resynchronizationNeeded (ft (input d))
   then fst (RetireProducerLease T0 cfg (ProducerLease (input d)) now now (input d)) else input d) =
  input (fst (fence_encoding cfg now d)) /\ pt (fst (fence_encoding cfg now d)) = pt d.
Proof.
  unfold fence_encoding. cbn [Resynchronization Snapshot pendingInputResynchronization]. case_if; [|done].
  cbn [clearInputResynchronization set_rs input].
  destruct (RetireProducerLease _ _ _ _ _ _) as [s [l r]]. destruct r; [|done]. unfold stageInputResynchronization. cbn [fst].
  by repeat case_if.
Qed.

Lemma ns2_update_input u now d : input (updateInputEncodingConfiguration cfg u now d) =
  set_env (inputReports (apply_update u d)) (input (fst (fence_encoding cfg now d))).
Proof.
  unfold updateInputEncodingConfiguration. destruct (ns2_fence_input now d) as [E1 E2].
  destruct (fence_encoding cfg now d) as [d1 b]. cbn [fst] in *.
  assert (Ee : inputReports d1 = inputReports d).
  { unfold inputReports. rewrite <-E1. case_if; [apply ns2_retire_env|done]. }
  transitivity (input (apply_update u d1)).
  { destruct b; [|apply refresh_frame]. apply refresh_frame. }
  destruct u; cbn [apply_update]; unfold set_reports, set_protocol, maskedFeatures, inputReports in *; cbn; rewrite ?Ee, ?E2; try done.
  rewrite <-Ee. by destruct (input d1).
Qed.

Lemma update_calls_exec u now d g : sc g = input d ->
  sc (foldl gstep g (update_calls u now d)) = input (updateInputEncodingConfiguration cfg u now d).
Proof.
  intros Hg. rewrite ns2_update_input. destruct (ns2_fence_input now d) as [<- _]. unfold update_calls. case_if; cbn; by rewrite Hg.
Qed.

Lemma idle_calls_exec at_ now d g : sc g = input d -> Claim_Valid (activePresentationClaim (ac d)) = false ->
  sc (foldl gstep g (idle_calls at_ now d)) = input (ensureIdleSnapshotLocked cfg at_ now d).
Proof.
  intros Hg Ha. unfold idle_calls, ensureIdleSnapshotLocked. rewrite Ha.
  cbn [Snapshot TransitionDepth ContinuousPending MandatoryNeutral Resynchronization]. case_if; [done|].
  cbn [foldl gstep step]. rewrite Hg. unfold currentInputState. destruct (PublishWithLease _ _ _ _ _ _ _) as [s r]. rewrite sc_after.
  by case_if.
Qed.

Lemma ns2_exec_calls d o g : sc g = input d -> sc (foldl gstep g (calls d o)) = input (exec d o).
Proof.
  intros Hg. destruct o; cbn [calls exec]; try done.
  - unfold UpdateInputState. case_if; [done|]. cbn [foldl gstep step]. rewrite Hg.
    match goal with |- context[publishInputStateWithLease cfg lease state now now ?d1] =>
      pose proof (ns2_publish_input lease state now now d1) as Hp end. cbn [input set_pr] in Hp.
    destruct (publishInputStateWithLease _ _ _ _ _ _) as [d' [l r']]. cbn [fst] in *. rewrite Hp.
    destruct (PublishWithLease _ _ _ _ _ _ _) as [s r]. apply sc_after.
  - unfold acquireInputProducer. case_if; [done|]. case_if; [|done]. cbn [foldl gstep step]. rewrite Hg.
    destruct (RetireProducerLease _ _ _ _ _ _) as [s [l r]]. destruct r; [|done]. cbn [negb fst].
    symmetry. exact (refresh_frame _ _).
  - unfold releaseInputProducer. case_if; [|done]. cbn [negb foldl gstep step]. rewrite Hg.
    cbn [clearInputResynchronization set_rs input].
    destruct (RetireProducerLease _ _ _ _ _ _) as [s [l r]]. destruct r; [|done]. symmetry. exact (refresh_frame _ _).
  - cbn [foldl gstep step]. rewrite Hg, ns2_publish_input. destruct (PublishWithLease _ _ _ _ _ _ _) as [s r]. apply sc_after.
  - unfold ClaimInput. destruct (length destination <? InputReportSize)%nat; [done|]. cbn [orb].
    destruct (negb (reportsEnabled d) || _) eqn:Ha; [done|]. apply orb_false_iff in Ha as [_ Ha]. unfold claim_calls.
    pose proof (idle_calls_exec (or_now at_ now) now d g Hg Ha) as Hi. set (d1 := ensureIdleSnapshotLocked _ _ _ _) in *.
    cbn [set_reports input set_input].
    destruct (ClaimInputPresentation _ _ _ _ _ _) as [s [c dst]] eqn:Ec. rewrite !foldl_app. cbn [foldl gstep].
    set (g1 := foldl gstep g _) in *. cbn [step sc with_sc]. rewrite Hi.
    change (inputReports (set_reports ?q d1)) with q.
    rewrite Ec. destruct (Claim_Valid c); [|done]. destruct (StateForInputPresentationClaim _ _ _); [done|].
    cbn [foldl gstep step sc]. by destruct (ResolveInputPresentation _ _ _ _ _ _ _) as [s' r].
  - unfold CanAdmitInput. case_if; [|done]. cbn [negb foldl gstep step]. rewrite Hg.
    destruct (CanAdmitInputPresentation _ _ _ _ _ _) as [s ok]. by case_if.
  - unfold ResolveInput. case_if; [|done]. cbn [negb].
    destruct (ResolveInputPresentation _ _ _ _ _ _ _) as [s r] eqn:Er. cbn [foldl gstep step].
    rewrite Hg, Er. cbn [fst]. destruct r; [|done]. unfold settle_outcome. cbn [andb].
    destruct (Z.eqb_spec outcome OutcomeCommit) as [->|]; [|by repeat case_if].
    cbn [andb Z.eqb]. set (d1 := set_input s d).
    destruct (ns2_commit_frame (activePresentationReport (ac d1)) (activePresentationState (ac d1)) d1) as [E1 E2].
    set (d2 := commitInputReportSnapshotLocked _ _ d1) in *.
    unfold tryPublishInputResynchronizationLocked. cbn [set_ac rs input ac]. rewrite E1, E2. cbn [rs d1 set_input].
    destruct (hasPendingResync (rs d)); [|by cbn; rewrite E1]. cbn [negb foldl gstep step sc with_sc].
    change (input d1) with s. by destruct (Resynchronize _ _ _ _ _ _) as [s' []].
  - unfold RetireInputGeneration. cbn [foldl gstep step]. rewrite Hg.
    destruct (RetireInputPresentationGenerationWithCurrentState _ _ _ _ _ _) as [s [t|]]; [|done].
    symmetry. exact (refresh_frame _ _).
  - destruct (command_core out now d) as (-> & _). destruct (command_update out) as [u|]; [|done]. by apply update_calls_exec.
  - exact (update_calls_exec (SetMeta meta) now (set_descriptor _ (set_meta (Some meta) d)) g Hg).
  - cbn [foldl gstep sc with_sc]. rewrite Hg. unfold SetRuntimeStatusV1.
    destruct (Validate status); [cbn; unfold inputReports; by destruct (input d)|].
    destruct (metaState d); [done|cbn; unfold inputReports; by destruct (input d)].
  - unfold clearOutputCallback. by case_if.
  - unfold popBulkIn. by destruct (bulkInQueue (pt d)).
Qed.

Lemma ns2_drun_calls ops d g : sc g = input d -> sc (foldl gstep g (all_calls d ops)) = input (drun d ops).
Proof.
  revert d g. induction ops as [|o ops IH]; intros d g Hg; [done|]. cbn [all_calls drun foldl].
  rewrite foldl_app. apply IH. by apply ns2_exec_calls.
Qed.

(** *** The scheduler's invariant *)

Lemma ginv_step n g o : inv T0 n g -> n < 18446744073709551613 -> (0 < reportSize cfg)%nat -> inv T0 (n + 2) (gstep g o).
Proof.
  intros HI Hn Hs. destruct o as [o|q]; [by apply inv_operation|]. apply (inv_same T0 n); [done|lia|]. by repeat split.
Qed.

Lemma ginv_run ops n g : inv T0 n g -> n + 2 * Z.of_nat (length ops) < 18446744073709551613 -> (0 < reportSize cfg)%nat ->
  inv T0 (n + 2 * Z.of_nat (length ops)) (foldl gstep g ops).
Proof.
  revert n g. induction ops as [|o ops IH]; cbn [foldl length]; intros n g HI Hn Hs.
  - by replace (n + 2 * Z.of_nat 0) with n by lia.
  - replace (n + 2 * Z.of_nat (S (length ops))) with (n + 2 + 2 * Z.of_nat (length ops)) by lia.
    apply IH; [|lia|done]. apply ginv_step; [done|lia|done].
Qed.
End Runs.

(** ** Report mode

    A report is in the mode of a sequencer when it has its layout and its
    features, whatever state, counters and metadata it shows. *)

(** The configuration [New] gives the scheduler. *)
Definition ncfg : config InputState sequencer := {|
  reportSize := InputReportSize; encode := buildCurrentInto; transition := Some ns2InputTransition; maximumOrderedAge := 0;
  faultOnOverflow := true; neutral := neutralState |}.

Definition in_mode (q : sequencer) (data : list Z) : Prop :=
  exists state counter timestamp meta, data =
    if activeReportID q =? ReportIDCommon then buildCommonReportInto state counter timestamp (featureFlags q) meta
    else buildProReportInto state counter (featureFlags q) meta.

Definition mode_ok (q : sequencer) : Prop := activeReportID q = ReportIDCommon \/ activeReportID q = ReportIDPro.
Definition same_mode (q q' : sequencer) : Prop := activeReportID q' = activeReportID q /\ featureFlags q' = featureFlags q.

Lemma in_mode_length q data : in_mode q data -> length data = InputReportSize.
Proof. intros (st & c & ts & m & ->). case_if; [apply length_common_report|apply length_pro_report]. Qed.

Lemma in_mode_same q q' data : same_mode q q' -> in_mode q data -> in_mode q' data.
Proof. intros [E1 E2]. unfold in_mode. by rewrite E1, E2. Qed.

Lemma same_mode_ok q q' : same_mode q q' -> mode_ok q -> mode_ok q'.
Proof. intros [E1 _]. unfold mode_ok. by rewrite E1. Qed.

Lemma current_encoded q state : mode_ok q ->
  exists q' data, buildCurrentInto q state InputReportSize = (q', (state, data, 64)) /\ same_mode q q' /\ in_mode q data.
Proof.
  intros Hm. unfold buildCurrentInto, buildInterruptInto, in_mode. change (length (zeros InputReportSize)) with InputReportSize.
  rewrite Nat.ltb_irrefl, (drop_ge (zeros _)) by done. cbn [Z.eqb].
  destruct Hm as [E|E]; rewrite E; cbn [Z.eqb ReportIDCommon ReportIDPro Pos.eqb]; rewrite app_nil_r.
  - do 2 eexists. split; [reflexivity|]. split; [done|]. by do 4 eexists.
  - do 2 eexists. split; [reflexivity|]. split; [done|]. by exists state, (u8 (reportCounter8 q + 1)), 0, (q_meta q).
Qed.

Lemma control_encoded q state destination : mode_ok q -> length destination = InputReportSize ->
  exists data, buildControlInto q state 0 destination = (data, 64) /\ in_mode q data.
Proof.
  intros Hm Hl. unfold buildControlInto, in_mode. rewrite Hl, Nat.ltb_irrefl. cbn [Z.eqb].
  rewrite (drop_ge destination) by lia.
  destruct Hm as [E|E]; rewrite E; cbn [Z.eqb ReportIDCommon ReportIDPro Pos.eqb]; rewrite app_nil_r; eexists; (split; [reflexivity|]).
  - by do 4 eexists.
  - by exists state, (reportCounter8 q), 0, (q_meta q).
Qed.

(** *** The images the scheduler keeps

    Every image it may still present is in the current mode. *)
Section Images.
Implicit Types (s : sched).

Record images s : Prop := {
  im_mode : mode_ok (env s);
  im_claim : hasClaim (cl s) = true -> in_mode (env s) (claimedData (cl s));
  im_retry : hasRetry s = true -> in_mode (env s) (retryData s);
  im_neutral : mandatoryNeutralPending (ft s) = true -> mandatoryNeutralEncoded (ft s) = true ->
    in_mode (env s) (mandatoryNeutralData (ft s));
  im_last : resynchronizationNeeded (ft s) = true -> in_mode (env s) (lastData s);
}.

Definition neutral_encoded s : bool := mandatoryNeutralPending (ft s) && mandatoryNeutralEncoded (ft s).

Lemma images_frame s s' : images s -> env s' = env s ->
  (hasClaim (cl s') = true -> hasClaim (cl s) = true /\ claimedData (cl s') = claimedData (cl s)) ->
  (hasRetry s' = true -> hasRetry s = true /\ retryData s' = retryData s) ->
  (ft s' = ft s \/ neutral_encoded s' = false /\ resynchronizationNeeded (ft s') = false) ->
  lastData s' = lastData s -> images s'.
Proof.
  intros [H1 H2 H3 H4 H5] Ee Hc Hr Hf El. split; rewrite ?Ee; [done| | | |].
  - intros (H & ->)%Hc. by apply H2.
  - intros (H & ->)%Hr. by apply H3.
  - intros Hp He. destruct Hf as [Hf|[Hf _]]; [rewrite Hf in *; by apply H4|].
    unfold neutral_encoded in Hf. by rewrite Hp, He in Hf.
  - intros Hs. rewrite El. apply H5. destruct Hf as [Hf|[_ Hf]]; congruence.
Qed.

(** Nothing encoded is left. *)
Definition unencoded s : Prop :=
  hasClaim (cl s) = false /\ hasRetry s = false /\ neutral_encoded s = false /\ resynchronizationNeeded (ft s) = false.

Lemma images_unencoded s : mode_ok (env s) -> unencoded s -> images s.
Proof.
  intros Hm (H1 & H2 & H3 & H4). split; [done|congruence|congruence| |congruence]. intros Hp He.
  unfold neutral_encoded in H3. by rewrite Hp, He in H3.
Qed.

Lemma clear_active_frame s : hasClaim (cl (clear_active T0 ncfg s)) = false /\ hasRetry (clear_active T0 ncfg s) = hasRetry s /\
  env (clear_active T0 ncfg s) = env s /\ ft (clear_active T0 ncfg s) = ft s.
Proof. unfold clear_active. case_if; [done|]. by rewrite Hb. Qed.

Lemma fault_unencoded reason at_ now s : unencoded (enterHistoryFault T0 ncfg reason at_ now s) /\
  env (enterHistoryFault T0 ncfg reason at_ now s) = env s.
Proof.
  unfold enterHistoryFault, unencoded. cbn [require_neutral newEntry]. cbn.
  set (s0 := clearNonActiveHistory _ _ _). destruct (clear_active_frame s0) as (E1 & E2 & E3 & _). by rewrite E1, E2, E3.
Qed.

Lemma retire_lease_unencoded lease at_ now s s' l : RetireProducerLease T0 ncfg lease at_ now s = (s', (l, true)) ->
  unencoded s' /\ env s' = env s.
Proof.
  unfold RetireProducerLease. case_if; [discriminate|]. case_if; [discriminate|]. intros [= <- _]. unfold unencoded. cbn.
  set (s0 := clearNonActiveHistory _ _ _). destruct (clear_active_frame s0) as (E1 & E2 & E3 & _). rewrite E1, E2, E3.
  unfold s0. by case_if.
Qed.

Lemma retire_lease_images lease at_ now s : images s -> images (fst (RetireProducerLease T0 ncfg lease at_ now s)).
Proof.
  intros H. destruct (RetireProducerLease T0 ncfg lease at_ now s) as [s' [l b]] eqn:E. destruct b.
  - apply retire_lease_unencoded in E as [Hu Ee]. apply images_unencoded; [|done]. cbn [fst]. rewrite Ee. apply H.
  - unfold RetireProducerLease in E. by repeat case_if_in E; try discriminate; injection E as <- _.
Qed.

Lemma retired_unencoded t at_ now s : unencoded (fst (retireCurrentGenerationWithBaseline T0 ncfg t at_ now s)) /\
  env (fst (retireCurrentGenerationWithBaseline T0 ncfg t at_ now s)) = env s.
Proof.
  unfold retireCurrentGenerationWithBaseline, unencoded. cbn.
  set (s0 := clearNonActiveHistory _ _ _). destruct (clear_active_frame s0) as (E1 & E2 & E3 & _). by rewrite E1, E2, E3.
Qed.

(** What a publication or an admission leaves of the images. *)
Definition same_images s s' : Prop :=
  env s' = env s /\ hasClaim (cl s') = hasClaim (cl s) /\ claimedData (cl s') = claimedData (cl s) /\
  hasRetry s' = hasRetry s /\ retryData s' = retryData s /\ ft s' = ft s /\ lastData s' = lastData s /\
  claimToken (cl s') = claimToken (cl s) /\ claimGeneration (cl s') = claimGeneration (cl s) /\
  e_state (claimed (cl s')) = e_state (claimed (cl s)).

Lemma same_images_ok s s' : same_images s s' -> images s -> images s'.
Proof.
  intros (E1 & E2 & E3 & E4 & E5 & E6 & E7 & _) H. apply (images_frame s); try done; rewrite ?E2, ?E4; [done|done|by left].
Qed.

Lemma accept_ordered_images e s : same_images s (accept_ordered T0 e s).
Proof. unfold accept_ordered, same_images. by repeat case_if. Qed.

Lemma publish_effect lease t at_ now s s' r : PublishWithLease T0 ncfg lease t at_ now s = (s', r) ->
  (same_images s s' /\ r <> PublishFaultedOverflow) \/ (r = PublishFaultedOverflow /\ unencoded s' /\ env s' = env s).
Proof.
  unfold PublishWithLease, publishLocked, observeProducerTimestamp. cbn [maximumOrderedAge ncfg Z.leb Z.compare].
  repeat (case_if; [intros [= <- <-]; by left|]). cbn [negb]. case_if.
  - cbn [faultOnOverflow ncfg negb]. intros [= <- <-]. right. split; [done|].
    destruct (fault_unencoded FaultOverflow (or_now at_ now) now (count_rejected s)) as [Hu Ee]. by rewrite Ee.
  - cbn [newEntry]. intros [= <- <-]. left. case_if.
    + split; [|done]. match goal with |- context[accept_ordered T0 ?e ?s1] => exact (accept_ordered_images e s1) end.
    + unfold accept_continuous. by case_if.
Qed.

Lemma publish_images lease t at_ now s : images s -> images (fst (PublishWithLease T0 ncfg lease t at_ now s)).
Proof.
  intros H. destruct (PublishWithLease T0 ncfg lease t at_ now s) as [s' r] eqn:E.
  apply publish_effect in E as [[HS _]|(_ & Hu & Ee)]; [by apply (same_images_ok s)|].
  apply images_unencoded; [|done]. cbn [fst]. rewrite Ee. apply H.
Qed.

Lemma resynchronize_images lease t at_ now s : images s -> images (fst (Resynchronize ncfg lease t at_ now s)).
Proof.
  intros H. unfold Resynchronize, observeProducerTimestamp. cbn [maximumOrderedAge ncfg Z.leb Z.compare].
  repeat (case_if; [by apply (same_images_ok s)|]). cbn [negb newEntry fst].
  apply (images_frame s); try done. right. unfold neutral_encoded. cbn. by rewrite Hb0.
Qed.

(** *** A claim *)

Definition something_due s : Prop := mandatoryNeutralPending (ft s) = true \/ hasRetry s = true \/ (0 < count (jr s))%nat \/
  hasLatest s = true \/ resynchronizationNeeded (ft s) = true.

(** What a selection leaves. *)
Record chosen s s1 : Prop := {
  ch_env : same_mode (env s) (env s1);
  ch_data : in_mode (env s) (claimedData (cl s1));
  ch_retry : hasRetry s1 = true -> hasRetry s = true /\ retryData s1 = retryData s;
  ch_neutral : neutral_encoded s1 = true -> in_mode (env s) (mandatoryNeutralData (ft s1));
  ch_last : resynchronizationNeeded (ft s1) = resynchronizationNeeded (ft s) /\ lastData s1 = lastData s;
  ch_generation : generation (ep s1) = generation (ep s);
}.

Lemma encoded_chosen src e s : mode_ok (env s) -> neutral_encoded s = false ->
  exists s1, encode_claimed T0 ncfg src e s = (s1, true) /\ chosen s s1.
Proof.
  intros Hm Hn. unfold encode_claimed. cbn [encode reportSize ncfg].
  destruct (current_encoded (env s) (e_state e) Hm) as (q' & data & -> & Hs & Hd). eexists. split; [reflexivity|].
  split; try done. intros Hc. unfold neutral_encoded in *. cbn in Hc. congruence.
Qed.

Lemma select_chosen s : images s -> something_due s -> exists s1, select T0 ncfg s = (s1, true) /\ chosen s s1.
Proof.
  intros H Hd. assert (Hrefl : same_mode (env s) (env s)) by done. unfold select.
  destruct (mandatoryNeutralPending (ft s)) eqn:Ep.
  - unfold select_neutral. case_if.
    + eexists. split; [reflexivity|]. pose proof (im_neutral _ H Ep Hb) as Hi. by split.
    + cbn [encode reportSize ncfg].
      destruct (current_encoded (env s) (e_state (mandatoryNeutral (ft s))) (im_mode _ H)) as (q' & data & -> & Hs & Hi).
      eexists. split; [reflexivity|]. by split.
  - assert (Hn : neutral_encoded s = false) by (unfold neutral_encoded; by rewrite Ep). case_if.
    { eexists. split; [reflexivity|]. pose proof (im_retry _ H Hb) as Hi. split; try done. intros Hc. unfold neutral_encoded in *. cbn in Hc. congruence. }
    case_if.
    { unfold popJournal. match goal with |- context[encode_claimed T0 ncfg ?src ?e ?s0] =>
        destruct (encoded_chosen src e s0 (im_mode _ H) Hn) as (s1 & E & [C1 C2 C3 C4 C5 C6]) end. exists s1. split; [exact E|by split]. }
    case_if.
    { match goal with |- context[encode_claimed T0 ncfg ?src ?e ?s0] =>
        destruct (encoded_chosen src e s0 (im_mode _ H) Hn) as (s1 & E & [C1 C2 C3 C4 C5 C6]) end. exists s1. split; [exact E|by split]. }
    destruct Hd as [Hd|[Hd|[Hd|[Hd|Hd]]]]; try congruence.
    { lia. }
    eexists. split; [reflexivity|]. pose proof (im_last _ H Hd) as Hi. split; try done. intros Hc. unfold neutral_encoded in *. cbn in Hc. congruence.
Qed.

#[local] Arguments advanceNonzero : simpl never.

Lemma claim_images destination at_ now s : images s -> something_due s -> hasClaim (cl s) = false -> generation (ep s) <> 0 ->
  (InputReportSize <= length destination)%nat ->
  exists s' c dst, ClaimInputPresentation T0 ncfg destination at_ now s = (s', (c, dst)) /\ images s' /\ Claim_Valid c = true /\
    same_mode (env s) (env s') /\ hasClaim (cl s') = true /\ Token c = claimToken (cl s') /\
    Generation c = claimGeneration (cl s') /\ Size c = 64 /\ take InputReportSize dst = claimedData (cl s') /\
    (hasRetry s' = true -> hasRetry s = true).
Proof.
  intros H Hd Hc Hg Hl. unfold ClaimInputPresentation. change (reportSize ncfg) with InputReportSize.
  rewrite (proj2 (Nat.ltb_ge _ _) Hl), Hc. unfold pendingPresentationFaultRequired. cbn [maximumOrderedAge ncfg Z.leb Z.compare orb].
  destruct (select_chosen s H Hd) as (s1 & E & [C1 C2 C3 C4 C5 C6]). rewrite E. cbn [negb].
  do 3 eexists. split; [reflexivity|]. pose proof (in_mode_length _ _ C2) as HL.
  split_and!; [| |exact C1|reflexivity..| |].
  - split; cbn.
    + exact (same_mode_ok _ _ C1 (im_mode _ H)).
    + intros _. exact (in_mode_same _ _ _ C1 C2).
    + intros [Hr ->]%C3. exact (in_mode_same _ _ _ C1 (im_retry _ H Hr)).
    + intros Hp He. apply (in_mode_same _ _ _ C1), C4. unfold neutral_encoded. by rewrite Hp, He.
    + destruct C5 as [-> ->]. intros Hr. exact (in_mode_same _ _ _ C1 (im_last _ H Hr)).
  - unfold Claim_Valid. cbn. rewrite C6, !(proj2 (Z.eqb_neq _ 0)); [done|done|apply advanceNonzero_nonzero].
  - change (claimedData (cl (issue _ s1))) with (claimedData (cl s1)). rewrite take_app_le by lia. apply take_ge. lia.
  - intros Hr. by apply C3.
Qed.

Lemma admit_effect claim at_ now s s' ok : CanAdmitInputPresentation T0 ncfg claim at_ now s = (s', ok) -> same_images s s'.
Proof.
  unfold CanAdmitInputPresentation, claimOrderedAgeExceeded. cbn [maximumOrderedAge ncfg Z.leb Z.compare orb].
  repeat case_if; by intros [= <- <-].
Qed.

(** *** A resolution *)

Lemma resolve_effect claim outcome at_ now s s' r : ResolveInputPresentation T0 ncfg claim outcome at_ now s = (s', r) ->
  (r = false /\ s' = s /\ (Outcome_Valid outcome = true -> claimMatches ncfg claim s = false)) \/
  (r = true /\ hasClaim (cl s) = true /\ hasClaim (cl s') = false /\ env s' = env s /\
   ((outcome = OutcomeCommit /\ hasRetry s' = hasRetry s /\ retryData s' = retryData s /\ lastData s' = claimedData (cl s) /\
     (if bool_decide (claimSource (cl s) = ClaimMandatoryNeutral) then neutral_encoded s' = false else ft s' = ft s)) \/
    (outcome = OutcomeDefer /\ ft s' = ft s /\ lastData s' = lastData s /\
     (hasRetry s' = true -> retryData s' = claimedData (cl s) \/ hasRetry s = true /\ retryData s' = retryData s)) \/
    (outcome = OutcomeRetire /\ unencoded s'))).
Proof.
  unfold ResolveInputPresentation, claimOrderedAgeExceeded. cbn [maximumOrderedAge ncfg Z.leb Z.ltb Z.compare orb].
  case_if; [intros [= <- <-]; left; split_and!; try done; by apply negb_true_iff in Hb as ->|].
  destruct (claimMatches ncfg claim s) eqn:HM; cbn [negb]; [|intros [= <- <-]; by left].
  rewrite andb_false_r, andb_false_l. destruct (claimMatches_spec _ _ _ HM) as [Hc _].
  destruct (if or_now at_ now <? _ then _ else _) as [s0 t0] eqn:E0.
  assert (H0 : cl s0 = cl s /\ ft s0 = ft s /\ hasRetry s0 = hasRetry s /\ retryData s0 = retryData s /\ lastData s0 = lastData s /\
    env s0 = env s) by (case_if_in E0; by injection E0 as <- <-).
  destruct H0 as (Ec & Ef & Er & Ed & El & Ee). rewrite andb_false_r.
  intros H. right. case_if_in H; [|case_if_in H].
  - injection H as <- <-. unfold commit. rewrite Ec. case_bool_decide; cbn; rewrite ?Er, ?Ed, ?Ee, ?Ef; split_and!; try done; left;
      rewrite ?bool_decide_true, ?bool_decide_false by done; split_and!; done.
  - injection H as <- <-. split_and!; try done.
    + cbn. unfold defer. by repeat case_if.
    + right. left. unfold defer. rewrite Ec. repeat case_if; cbn; split_and!; try done; rewrite ?Er, ?Ed; auto.
  - apply pair_equal_spec in H as [<- <-]. unfold retireCurrentGeneration.
    match goal with |- context[retireCurrentGenerationWithBaseline T0 ncfg ?t t0 now s0] =>
      destruct (retired_unencoded t t0 now s0) as [Hu Eu] end.
    split; [reflexivity|]. split; [exact Hc|]. split; [apply Hu|]. split; [by rewrite Eu|]. right. right. split; [|exact Hu].
    unfold Outcome_Valid, OutcomeCommit, OutcomeDefer, OutcomeRetire in *. bool_prop. lia.
Qed.
End Images.

(** ** What the device keeps of its claims

    The device's copy of a claim is the scheduler's, whatever may be retried
    is known to be deferred, and the report EP0 shows is in the current mode. *)
Section Kept.
Implicit Types (d : NS2Pro) (s : sched) (g : @trace InputState sequencer).
#[local] Arguments buildControlInto : simpl never.
#[local] Arguments InputReportSize : simpl never.

Record kept d : Prop := {
  k_images : images (input d);
  k_claim : hasClaim (cl (input d)) = true ->
    let c := activePresentationClaim (ac d) in
    Claim_Valid c = true /\ Token c = claimToken (cl (input d)) /\ Generation c = claimGeneration (cl (input d)) /\
    Size c = 64 /\ activePresentationReport (ac d) = claimedData (cl (input d)) /\
    activePresentationState (ac d) = e_state (claimed (cl (input d)));
  k_deferred : hasRetry (input d) = true \/ neutral_encoded (input d) = true ->
    hasDeferredPresentation (ac d) = true \/ hasClaim (cl (input d)) = true;
  k_snapshot : in_mode (inputReports d) (inputReportSnapshot (sn d));
}.

Lemma kept_eq d d' : kept d -> input d' = input d -> ac d' = ac d -> sn d' = sn d -> kept d'.
Proof. intros [H1 H2 H3 H4] E1 E2 E3. split; unfold inputReports in *; by rewrite ?E1, ?E2, ?E3. Qed.

Lemma kept_unencoded d : mode_ok (inputReports d) -> unencoded (input d) ->
  in_mode (inputReports d) (inputReportSnapshot (sn d)) -> kept d.
Proof.
  intros Hm Hu Hs. pose proof Hu as (H1 & H2 & H3 & _). split; [by apply images_unencoded|congruence| |done].
  intros [Hc|Hc]; congruence.
Qed.

Lemma kept_same d s : kept d -> same_images (input d) s -> kept (set_input s d).
Proof.
  intros [H1 H2 H3 H4] HS. pose proof HS as (E1 & E2 & E3 & E4 & E5 & E6 & E7 & E8 & E9 & E10). split; cbn.
  - by apply (same_images_ok (input d)).
  - rewrite E2, E3, E8, E9, E10. exact H2.
  - unfold neutral_encoded in *. rewrite E2, E4, E6. exact H3.
  - unfold inputReports in *. cbn. by rewrite E1.
Qed.

Lemma refreshed state d : mode_ok (inputReports d) -> length (inputReportSnapshot (sn d)) = InputReportSize ->
  let d' := refreshInputReportSnapshotWithStateLocked state d in
  input d' = input d /\ ac d' = ac d /\ rs d' = rs d /\ in_mode (inputReports d) (inputReportSnapshot (sn d')).
Proof.
  intros Hm Hl. unfold refreshInputReportSnapshotWithStateLocked.
  destruct (control_encoded (inputReports d) state _ Hm Hl) as (data & -> & Hd). done.
Qed.

Lemma refresh_kept state d : mode_ok (inputReports d) -> length (inputReportSnapshot (sn d)) = InputReportSize ->
  unencoded (input d) -> kept (refreshInputReportSnapshotWithStateLocked state d).
Proof.
  intros Hm Hl Hu. destruct (refreshed state d Hm Hl) as (E1 & E2 & _ & E4).
  apply kept_unencoded; unfold inputReports in *; rewrite ?E1; done.
Qed.

Lemma stage_same state at_ d : let d' := stageInputResynchronization state at_ d in
  input d' = input d /\ ac d' = ac d /\ sn d' = sn d.
Proof. unfold stageInputResynchronization. by case_if. Qed.

Lemma kept_stage state at_ d : kept d -> kept (stageInputResynchronization state at_ d).
Proof. intros H. destruct (stage_same state at_ d) as (E1 & E2 & E3). by apply (kept_eq d). Qed.

Lemma kept_mode d : kept d -> mode_ok (inputReports d) /\ length (inputReportSnapshot (sn d)) = InputReportSize.
Proof. intros H. exact (conj (im_mode _ (k_images _ H)) (in_mode_length _ _ (k_snapshot _ H))). Qed.

Lemma publish_kept lease state at_ now d : kept d -> kept (fst (publishInputStateWithLease ncfg lease state at_ now d)).
Proof.
  intros H. destruct (kept_mode d H) as [Hm Hl]. unfold publishInputStateWithLease.
  destruct (PublishWithLease T0 ncfg lease state at_ now (input d)) as [s r] eqn:E.
  apply publish_effect in E as [[HS Hr]|(-> & Hu & Ee)].
  - pose proof (kept_same d s H HS) as Hs. case_if; [exact Hs|]. case_if; [by apply (kept_eq (set_input s d))|].
    assert (Hst : kept (stageInputResynchronization state at_ (storeCurrentInputState state (set_input s d))))
      by (apply kept_stage; by apply (kept_eq (set_input s d))).
    destruct r; cbn [fst]; try case_if; first [exact Hs|congruence|apply (kept_eq _ _ Hst); reflexivity].
  - assert (Hm' : mode_ok (inputReports (set_input s d))) by (unfold inputReports; cbn; by rewrite Ee).
    case_if.
    { apply kept_unencoded; [done|done|]. unfold inputReports. cbn. rewrite Ee. apply H. }
    cbn [Accepted fst]. apply (kept_eq (stageInputResynchronization state at_
      (storeCurrentInputState state (refreshNeutralInputReportSnapshotLocked (set_input s d))))); try done.
    apply kept_stage. apply (kept_eq (refreshNeutralInputReportSnapshotLocked (set_input s d))); try done.
    by apply refresh_kept.
Qed.

Lemma retire_lease_cases lease at_ now s : let '(s', (_, retired)) := RetireProducerLease T0 ncfg lease at_ now s in
  if retired then unencoded s' /\ env s' = env s else s' = s.
Proof.
  destruct (RetireProducerLease T0 ncfg lease at_ now s) as [s' [l b]] eqn:E. destruct b.
  - by apply retire_lease_unencoded in E.
  - unfold RetireProducerLease in E. by repeat case_if_in E; try discriminate; injection E as <- _.
Qed.

(** The state after a lease was retired, its copy dropped and the snapshot made neutral. *)
Lemma fenced_kept d d' s : kept d -> unencoded s -> env s = env (input d) -> input d' = s -> sn d' = sn d ->
  kept (refreshNeutralInputReportSnapshotLocked d').
Proof.
  intros H Hu Ee Ei Es. destruct (kept_mode d H) as [Hm Hl]. apply refresh_kept; [|by rewrite Es|by rewrite Ei].
  unfold inputReports in *. by rewrite Ei, Ee.
Qed.

#[local] Ltac fenced_by L H Hu Ee :=
  match goal with |- context[refreshNeutralInputReportSnapshotLocked ?x] =>
    apply (kept_eq (refreshNeutralInputReportSnapshotLocked x)); [eapply (L x); [exact H|exact Hu|exact Ee|reflexivity..]|reflexivity..]
  end.

Lemma acquire_kept now d : kept d -> kept (fst (acquireInputProducer ncfg now d)).
Proof.
  intros H. unfold acquireInputProducer. case_if; [exact H|]. case_if; [|by apply (kept_eq d)].
  pose proof (retire_lease_cases (ProducerLease (input d)) now now (input d)) as HR.
  destruct (RetireProducerLease _ _ _ _ _ _) as [s [l r]]. destruct r; cbn [negb fst].
  - destruct HR as [Hu Ee]. fenced_by (fenced_kept d) H Hu Ee.
  - subst s. by apply (kept_eq d).
Qed.

Lemma release_kept now d : kept d -> kept (releaseInputProducer ncfg now d).
Proof.
  intros H. unfold releaseInputProducer. case_if; [exact H|]. cbn [clearInputResynchronization set_rs input].
  pose proof (retire_lease_cases (ProducerLease (input d)) now now (input d)) as HR.
  destruct (RetireProducerLease _ _ _ _ _ _) as [s [l r]]. destruct r.
  - destruct HR as [Hu Ee]. fenced_by (fenced_kept d) H Hu Ee.
  - subst s. by apply (kept_eq d).
Qed.

Lemma retire_kept gen at_ now d : kept d -> kept (fst (RetireInputGeneration ncfg gen at_ now d)).
Proof.
  intros H. destruct (kept_mode d H) as [Hm Hl].
  unfold RetireInputGeneration, RetireInputPresentationGenerationWithCurrentState, retireCurrentGeneration.
  case_if; [by apply (kept_eq d)|]. set (s0 := if retires_early _ _ then _ else _). set (t := if hasPrevious s0 then _ else _).
  assert (E0 : env s0 = env (input d)) by (unfold s0; by case_if).
  destruct (retired_unencoded t (or_now at_ now) now s0) as [Hu Ee].
  destruct (retireCurrentGenerationWithBaseline T0 ncfg t (or_now at_ now) now s0) as [s t']. cbn [fst] in *.
  apply refresh_kept; [|done|done]. unfold inputReports in *. cbn. congruence.
Qed.

(** *** Updates *)

Lemma update_mode u d : mode_ok (inputReports d) -> mode_ok (inputReports (apply_update u d)).
Proof.
  intros Hm. destruct u; cbn; try done. unfold setActiveReportID. case_if; [done|].
  apply andb_false_iff in Hb as [Hb|Hb]; apply negb_false_iff, Z.eqb_eq in Hb; subst; [by left|by right].
Qed.

Lemma fence_unencoded now d : kept d -> ProducerLease (input d) <> 0 ->
  unencoded (input (fst (fence_encoding ncfg now d))) /\ sn (fst (fence_encoding ncfg now d)) = sn d.
Proof.
  intros H Hz. unfold fence_encoding. cbn [Resynchronization Snapshot pendingInputResynchronization]. case_if.
  - cbn [clearInputResynchronization set_rs input].
    pose proof (retire_lease_cases (ProducerLease (input d)) now now (input d)) as HR.
    destruct (RetireProducerLease _ _ _ _ _ _) as [s [l r]] eqn:E. destruct r.
    + destruct HR as [Hu _]. cbn [fst]. case_if; [|done]. cbn [fst].
      match goal with |- context[stageInputResynchronization ?a ?b ?c] => destruct (stage_same a b c) as (E1 & _ & E3) end.
      by rewrite E1, E3.
    + exfalso. unfold RetireProducerLease in E. rewrite (proj2 (Z.eqb_neq _ _) Hz), Z.eqb_refl in E. discriminate.
  - cbn [fst]. split; [|done]. apply orb_false_iff in Hb as [[Ha Hd]%orb_false_iff Hs].
    assert (Hc : hasClaim (cl (input d)) = false).
    { apply not_true_iff_false. intros Hc. destruct (k_claim d H Hc) as [Hv _]. congruence. }
    pose proof (k_deferred d H) as Hk. rewrite Hd, Hc in Hk. unfold unencoded. rewrite Hc.
    split_and!; [done|apply not_true_iff_false; intros E; destruct Hk; auto; discriminate..|done].
Qed.

Lemma update_kept u now d : kept d -> ProducerLease (input d) <> 0 -> kept (updateInputEncodingConfiguration ncfg u now d).
Proof.
  intros H Hz. destruct (fence_unencoded now d H Hz) as [Hu Es]. destruct (kept_mode d H) as [Hm Hl].
  pose proof (ns2_update_input ncfg u now d) as Ei. pose proof (update_mode u d Hm) as Hm'.
  unfold updateInputEncodingConfiguration in *. destruct (fence_encoding ncfg now d) as [d1 b]. cbn [fst] in *.
  assert (Esn : sn (apply_update u d1) = sn d) by (rewrite <-Es; by destruct u).
  assert (Ein : input (apply_update u d1) = set_env (inputReports (apply_update u d)) (input d1)).
  { rewrite <-Ei. destruct b; symmetry; [exact (refresh_frame _ _)|apply refresh_frame]. }
  assert (K : forall st, kept (refreshInputReportSnapshotWithStateLocked st (apply_update u d1))).
  { intros st. apply refresh_kept; [unfold inputReports at 1; by rewrite Ein|by rewrite Esn|by rewrite Ein]. }
  destruct b; [|apply K]. eapply kept_eq; [apply (K NewInputState)|..]; reflexivity.
Qed.

(** A change of the sequencer that keeps the mode, such as the clock, the counters and the power status. *)
Lemma images_env q s : images s -> same_mode (env s) q -> images (set_env q s).
Proof.
  intros [H1 H2 H3 H4 H5] Hq. split; cbn [env set_env cl hasRetry retryData ft lastData].
  - exact (same_mode_ok _ _ Hq H1).
  - intros H. exact (in_mode_same _ _ _ Hq (H2 H)).
  - intros H. exact (in_mode_same _ _ _ Hq (H3 H)).
  - intros Hp He. exact (in_mode_same _ _ _ Hq (H4 Hp He)).
  - intros H. exact (in_mode_same _ _ _ Hq (H5 H)).
Qed.

Lemma kept_reports q d : kept d -> same_mode (inputReports d) q -> kept (set_reports q d).
Proof.
  intros [H1 H2 H3 H4] Hq. split; cbn; [by apply images_env|exact H2|exact H3|]. exact (in_mode_same _ _ _ Hq H4).
Qed.

Lemma status_kept status d : kept d -> kept (fst (SetRuntimeStatusV1 status d)).
Proof.
  intros H. unfold SetRuntimeStatusV1. destruct (Validate status); [exact H|]. destruct (metaState d) as [m|]; [|exact H].
  cbn [fst]. apply kept_reports; [|done]. by apply (kept_eq d).
Qed.

Lemma admit_kept claim at_ now d : kept d -> kept (fst (CanAdmitInput ncfg claim at_ now d)).
Proof.
  intros H. unfold CanAdmitInput. case_if; [exact H|].
  destruct (CanAdmitInputPresentation _ _ _ _ _ _) as [s ok] eqn:E. apply admit_effect in E. by apply kept_same.
Qed.

(** *** Claims *)

(** An idle device publishes its state again, so that something is due. *)
Lemma publish_due t at_ now s : ProducerLease s <> 0 -> mandatoryNeutralPending (ft s) = false ->
  resynchronizationNeeded (ft s) = false -> something_due (fst (PublishWithLease T0 ncfg (ProducerLease s) t at_ now s)).
Proof.
  intros Hz Hp Hr. unfold PublishWithLease, publishLocked, observeProducerTimestamp, ProducerLease in *.
  cbn [maximumOrderedAge ncfg Z.leb Z.compare]. rewrite (proj2 (Z.eqb_neq _ _) Hz), Z.eqb_refl, Hp, Hr. cbn [orb negb].
  case_if; [by left|]. cbn [newEntry fst]. unfold something_due. case_if; cbn; [|by auto].
  right. right. left. lia.
Qed.

Lemma idle_kept at_ now d : kept d -> Claim_Valid (activePresentationClaim (ac d)) = false -> ProducerLease (input d) <> 0 ->
  let d1 := ensureIdleSnapshotLocked ncfg at_ now d in
  kept d1 /\ ac d1 = ac d /\ sn d1 = sn d /\ something_due (input d1).
Proof.
  intros H Ha Hz. destruct (kept_mode d H) as [Hm Hl]. unfold ensureIdleSnapshotLocked. rewrite Ha.
  cbn [Snapshot TransitionDepth ContinuousPending MandatoryNeutral Resynchronization]. case_if.
  - split_and!; try done. unfold something_due. destruct (mandatoryNeutralPending (ft (input d))); [by left|].
    destruct (hasRetry (input d)); [by auto|]. destruct (hasLatest (input d)); [by auto 6|].
    destruct (resynchronizationNeeded (ft (input d))); [by auto 6|]. rewrite !orb_false_r in Hb. cbn [boolToInt] in Hb.
    apply negb_true_iff, Nat.eqb_neq in Hb. right. right. left. lia.
  - apply orb_false_iff in Hb as [[_ Hp]%orb_false_iff Hr].
    pose proof (publish_due (currentInputState d) at_ now (input d) Hz Hp Hr) as Hd.
    destruct (PublishWithLease T0 ncfg (ProducerLease (input d)) (currentInputState d) at_ now (input d)) as [s r] eqn:E. cbn [fst] in Hd.
    assert (K : kept (set_input s d)).
    { apply publish_effect in E as [[HS _]|(-> & Hu & Ee)]; [by apply kept_same|].
      apply kept_unencoded; unfold inputReports in *; cbn; rewrite ?Ee; [done|done|apply (k_snapshot _ H)]. }
    case_if; split_and!; try done. by apply (kept_eq _ _ K).
Qed.

(** The scheduler's claim is the one the caller was given. *)
Lemma claim_matches n g c : inv T0 n g -> hasClaim (cl (sc g)) = true -> Claim_Valid c = true ->
  Token c = claimToken (cl (sc g)) -> Generation c = claimGeneration (cl (sc g)) -> Size c = 64 ->
  claimMatches ncfg c (sc g) = true.
Proof.
  intros HI Hc Hv Et Eg Es. destruct (i_claim _ _ _ HI Hc) as (_ & _ & _ & E1 & E2 & _).
  unfold claimMatches, Claim_Valid in *. rewrite Es, Et, Eg, E1 in *. rewrite Hc, E2, !Z.eqb_refl. cbn [andb].
  destruct (claimToken (cl (sc g)) =? 0); [discriminate|]. destruct (generation (ep (sc g)) =? 0); [discriminate|]. reflexivity.
Qed.

Lemma no_claim_of d : kept d -> Claim_Valid (activePresentationClaim (ac d)) = false -> hasClaim (cl (input d)) = false.
Proof. intros H Ha. apply not_true_iff_false. intros Hc. destruct (k_claim d H Hc) as [Hv _]. congruence. Qed.

Lemma claim_kept n g destination at_ now d : inv T0 n g -> n < 18446744073709551600 -> sc g = input d -> kept d ->
  reportsEnabled d = true -> Claim_Valid (activePresentationClaim (ac d)) = false ->
  (InputReportSize <= length destination)%nat ->
  exists d' c dst, ClaimInput ncfg destination at_ now d = (d', (c, dst)) /\ kept d' /\ Claim_Valid c = true /\
    activePresentationClaim (ac d') = c /\ take InputReportSize dst = activePresentationReport (ac d') /\
    in_mode (inputReports d') (take InputReportSize dst).
Proof.
  intros HI Hn Hg H He Ha Hl. unfold ClaimInput. rewrite (proj2 (Nat.ltb_ge _ _) Hl), He, Ha. cbn [negb orb].
  destruct (i_numbers _ _ _ HI) as (_ & _ & _ & Hz). rewrite Hg in Hz.
  destruct (idle_kept (or_now at_ now) now d H Ha Hz) as (K1 & Ea & _ & Hd).
  pose proof (idle_calls_exec ncfg (or_now at_ now) now d g Hg Ha) as Hg1.
  assert (HI1 : inv T0 (n + 2) (foldl (gstep ncfg) g (idle_calls (or_now at_ now) now d))).
  { unfold idle_calls. case_if; [apply (inv_mono _ n); [done|lia]|]. cbn [foldl]. apply ginv_step; [done|lia|unfold ncfg; cbn; unfold InputReportSize; lia]. }
  set (g1 := foldl _ g _) in *. set (d1 := ensureIdleSnapshotLocked ncfg (or_now at_ now) now d) in *.
  assert (Hc1 : hasClaim (cl (input d1)) = false) by (apply no_claim_of; by rewrite ?Ea).
  set (q := set_clock now (inputReports d1)). assert (K2 : kept (set_reports q d1)) by (by apply kept_reports).
  destruct (i_numbers _ _ _ HI1) as (_ & _ & Hgen & _). rewrite Hg1 in Hgen.
  destruct (claim_images destination (or_now at_ now) now (set_env q (input d1)) (k_images _ K2) Hd Hc1 Hgen Hl)
    as (s & c & dst & Ec & Hi & Hv & Hsm & Hh & Et & Eg & Es & Ed & Hr).
  cbn [set_reports input set_input]. rewrite Ec, Hv.
  assert (HI2 : inv T0 (n + 4) (gstep ncfg (gstep ncfg g1 (GEnv q)) (GCall (OClaim destination (or_now at_ now) now)))).
  { apply (inv_mono _ (n + 2 + 2)); [|lia]. apply ginv_step; [|lia|unfold ncfg; cbn; unfold InputReportSize; lia].
    apply (inv_same T0 (n + 2)); [done|lia|by repeat split]. }
  assert (Esc : sc (gstep ncfg (gstep ncfg g1 (GEnv q)) (GCall (OClaim destination (or_now at_ now) now))) = s).
  { cbn [gstep step sc with_sc]. rewrite Hg1, Ec, Hv. reflexivity. }
  pose proof (claim_matches _ _ c HI2) as HM. rewrite Esc in HM. specialize (HM Hh Hv Et Eg Es).
  unfold StateForInputPresentationClaim. rewrite HM. cbn [negb].
  do 3 eexists. split; [reflexivity|]. assert (Him : in_mode (env s) (take InputReportSize dst)) by (rewrite Ed; by apply Hi).
  split; [|split_and!; [exact Hv|reflexivity|reflexivity|exact Him]].
  split; cbn [input set_ac set_input ac sn activePresentationClaim activePresentationReport activePresentationState inputReports].
  - exact Hi.
  - intros _. cbn [set_reports]. split_and!; try done.
  - intros _. by right.
  - exact (in_mode_same _ _ _ Hsm (k_snapshot _ K2)).
Qed.

(** *** Resolutions *)

Lemma resynchronize_effect lease t at_ now s : let s' := fst (Resynchronize ncfg lease t at_ now s) in
  env s' = env s /\ cl s' = cl s /\ hasRetry s' = hasRetry s /\ (neutral_encoded s' = true -> neutral_encoded s = true).
Proof.
  unfold Resynchronize, observeProducerTimestamp. cbn [maximumOrderedAge ncfg Z.leb Z.compare]. by repeat case_if.
Qed.

Lemma try_kept now d : images (input d) -> hasClaim (cl (input d)) = false -> hasRetry (input d) = false ->
  neutral_encoded (input d) = false -> in_mode (inputReports d) (inputReportSnapshot (sn d)) ->
  let d' := fst (tryPublishInputResynchronizationLocked ncfg now d) in
  images (input d') /\ hasClaim (cl (input d')) = false /\ hasRetry (input d') = false /\ neutral_encoded (input d') = false /\
  in_mode (inputReports d') (inputReportSnapshot (sn d')) /\ ac d' = ac d.
Proof.
  intros Hi Hc Hr Hn Hs. unfold tryPublishInputResynchronizationLocked. case_if; [done|].
  pose proof (resynchronize_images (ProducerLease (input d)) (pendingResync (rs d)) (pendingResyncAt (rs d)) now _ Hi) as Hi'.
  destruct (resynchronize_effect (ProducerLease (input d)) (pendingResync (rs d)) (pendingResyncAt (rs d)) now (input d))
    as (E1 & E2 & E3 & E4).
  destruct (Resynchronize _ _ _ _ _ _) as [s r]. cbn [fst] in *.
  assert (G : images s /\ hasClaim (cl s) = false /\ hasRetry s = false /\ neutral_encoded s = false /\
    in_mode (env s) (inputReportSnapshot (sn d))).
  { rewrite E1, E2, E3. split_and!; try done. apply not_true_iff_false. intros E%E4. congruence. }
  destruct G as (G1 & G2 & G3 & G4 & G5). destruct r; by split_and!.
Qed.

(** The copy is dropped: what is left of the claim is in the scheduler. *)
Lemma kept_dropped d : images (input d) -> hasClaim (cl (input d)) = false ->
  (hasRetry (input d) = true \/ neutral_encoded (input d) = true -> hasDeferredPresentation (ac d) = true) ->
  in_mode (inputReports d) (inputReportSnapshot (sn d)) ->
  kept (set_ac {| activePresentationClaim := Claim_zero; activePresentationReport := zeros InputReportSize;
                  activePresentationState := T0; hasDeferredPresentation := hasDeferredPresentation (ac d) |} d).
Proof. intros Hi Hc Hd Hs. split; cbn [input set_ac ac sn]; [done|congruence| |done]. intros H. left. by apply Hd. Qed.

Lemma resolve_kept n g claim outcome at_ now d : inv T0 n g -> sc g = input d -> kept d -> Outcome_Valid outcome = true ->
  kept (fst (ResolveInput ncfg claim outcome at_ now d)).
Proof.
  intros HI Hg H Ho. unfold ResolveInput. case_if; [exact H|]. apply negb_false_iff in Hb.
  destruct (ResolveInputPresentation T0 ncfg claim outcome at_ now (input d)) as [s r] eqn:E. cbn [fst].
  pose proof (k_snapshot _ H) as Hsn. pose proof (im_mode _ (k_images _ H)) as Hm.
  apply resolve_effect in E as [(-> & -> & Hx)|(-> & Hc & Hc' & Ee & E)].
  - assert (Hc : hasClaim (cl (input d)) = false).
    { apply not_true_iff_false. intros Hc. destruct (k_claim d H Hc) as (Hv & Et & Eg & Es & _).
      unfold sameInputPresentationClaim in Hb. bool_prop.
      pose proof (claim_matches n g (activePresentationClaim (ac d)) HI) as HM. rewrite Hg in HM.
      specialize (HM Hc Hv Et Eg Es). specialize (Hx Ho). unfold claimMatches in *. congruence. }
    apply (kept_dropped (set_input (input d) d)); try done; [apply H|].
    intros Hk%(k_deferred d H). destruct Hk; [done|congruence].
  - pose proof (k_images _ H) as Him. pose proof (im_claim _ Him Hc) as Hcd.
    destruct (k_claim d H Hc) as (_ & _ & _ & _ & Ear & _).
    destruct (i_claim _ _ _ HI ltac:(by rewrite Hg)) as (Hnr & _). rewrite Hg in Hnr. unfold settle_outcome.
    destruct E as [(-> & Er & Ed & El & Ef)|[(-> & Ef & El & Er)|(-> & Hu)]]; cbn [Z.eqb OutcomeCommit OutcomeDefer OutcomeRetire Pos.eqb].
    + assert (Hn : neutral_encoded s = false).
      { case_bool_decide as Hs; [done|]. unfold neutral_encoded. rewrite Ef.
        destruct (mandatoryNeutralPending (ft (input d))) eqn:Ep; [|done].
        destruct (i_neutral _ _ _ HI ltac:(by rewrite Hg)) as (_ & _ & _ & _ & Hq). rewrite Hg in Hq.
        by destruct (Hq Hc) as [Hq1 _]. }
      assert (Hi : images s).
      { split; rewrite ?Ee, ?El; [done|congruence|congruence| |done]. intros Hp He. unfold neutral_encoded in Hn. by rewrite Hp, He in Hn. }
      pose proof (in_mode_length _ _ Hcd) as HL.
      unfold commitInputReportSnapshotLocked. cbn [ac set_input]. rewrite Ear, HL, Nat.ltb_irrefl.
      set (d1 := set_ac _ (set_sn _ (set_input s d))).
      destruct (try_kept now d1) as (T1 & T2 & T3 & T4 & T5 & T6); [exact Hi|exact Hc'|cbn; congruence|exact Hn| |].
      { cbn. rewrite take_ge by lia. unfold inputReports. cbn. by rewrite Ee. }
      apply kept_dropped; [done|done| |done]. intros [Hk|Hk]; congruence.
    + apply (kept_dropped (set_ac _ (set_input s d))); cbn [input set_ac set_input ac sn hasDeferredPresentation].
      * split; rewrite ?Ee, ?Ef, ?El; [done|congruence| |apply Him|apply Him].
        intros [->|[Hr _]]%Er; [done|congruence].
      * exact Hc'.
      * done.
      * unfold inputReports in *. cbn. by rewrite Ee.
    + apply (kept_unencoded); [|done|]; unfold inputReports; cbn [input set_ac set_input sn]; rewrite Ee; done.
Qed.

(** *** Runs *)

(** Callers resolve a claim with one of the three outcomes. *)
Definition outcome_ok (o : dop) : bool := match o with DResolve _ outcome _ _ => Outcome_Valid outcome | _ => true end.

Lemma exec_kept n g o d : inv T0 n g -> n < 18446744073709551600 -> sc g = input d -> kept d -> outcome_ok o = true ->
  kept (exec ncfg d o).
Proof.
  intros HI Hn Hg H Ho. destruct (i_numbers _ _ _ HI) as (_ & _ & _ & Hz). rewrite Hg in Hz.
  destruct o; cbn [exec]; try (by apply (kept_eq d)).
  - unfold UpdateInputState. case_if; [exact H|].
    match goal with |- context[publishInputStateWithLease ncfg lease state now now ?d1] =>
      pose proof (publish_kept lease state now now d1 (kept_eq d d1 H eq_refl eq_refl eq_refl)) as HP end.
    by destruct (publishInputStateWithLease _ _ _ _ _ _) as [d' [l r]].
  - by apply acquire_kept.
  - by apply release_kept.
  - by apply publish_kept.
  - destruct (decide (InputReportSize <= length destination)%nat) as [Hl|Hl].
    2:{ unfold ClaimInput. by rewrite (proj2 (Nat.ltb_lt _ _)) by lia. }
    destruct (reportsEnabled d) eqn:He; [destruct (Claim_Valid (activePresentationClaim (ac d))) eqn:Ha|].
    + unfold ClaimInput. rewrite He, Ha. by case_if.
    + destruct (claim_kept n g destination at_ now d HI Hn Hg H He Ha Hl) as (d' & c & dst & -> & K & _). exact K.
    + unfold ClaimInput. rewrite He. by case_if.
  - by apply admit_kept.
  - by apply (resolve_kept n g).
  - by apply retire_kept.
  - destruct (command_core ncfg out now d) as (E1 & E2 & E3 & _). destruct (command_update out) as [u|].
    + apply (kept_eq (updateInputEncodingConfiguration ncfg u now d)); [by apply update_kept|done..].
    + by apply (kept_eq d).
  - apply update_kept; [by apply (kept_eq d)|done].
  - by apply status_kept.
  - unfold clearOutputCallback. case_if; by apply (kept_eq d).
  - unfold popBulkIn. destruct (bulkInQueue (pt d)); by apply (kept_eq d).
Qed.

Lemma ns2_new_kept o args now cfg d : New o args now = Ok (cfg, d) ->
  cfg = ncfg /\ kept d /\ inv T0 0 (start (input d)) /\ hasPendingResync (rs d) = false.
Proof.
  unfold New. destruct args as [a|]; [|discriminate]. set (q := newNS2InputReportSequencer (New_meta a) now).
  assert (Hm : mode_ok q) by (by right). destruct (current_encoded q neutralState Hm) as (q' & data & Eb & Hs & Hd).
  destruct (NewFixedReportSchedulerWithOverflowFault _ _ _ _ _ _ _ _) as [[c s]|e] eqn:E; [|discriminate].
  pose proof (new_inv T0 c InputReportSize neutralState (Some buildCurrentInto) (Some ns2InputTransition) 0 true now now q s E) as [_ HI].
  unfold NewFixedReportSchedulerWithOverflowFault, newFixedReportScheduler in E. rewrite Eb in E.
  cbn in E. injection E as <- <-. intros [= <- <-]. split_and!; [reflexivity| |exact HI|reflexivity].
  apply kept_unencoded; [exact (same_mode_ok _ _ Hs Hm)|done|]. cbn [inputReports input env sn inputReportSnapshot].
  destruct (control_encoded q' neutralState (zeros InputReportSize) (same_mode_ok _ _ Hs Hm) eq_refl) as (r & -> & Hr). exact Hr.
Qed.

Lemma ns2_device_run d0 ops : inv T0 0 (start (input d0)) -> 8 * Z.of_nat (length ops) < 18446744073709551600 ->
  let g := grun ncfg (input d0) (all_calls ncfg d0 ops) in
  sc g = input (drun ncfg d0 ops) /\ inv T0 (8 * Z.of_nat (length ops)) g.
Proof.
  intros HI Hn g. pose proof (ns2_all_calls_length ncfg ops d0) as Hl. split; [by apply ns2_drun_calls|].
  apply (inv_mono _ (0 + 2 * Z.of_nat (length (all_calls ncfg d0 ops)))); [|lia].
  apply ginv_run; [done|lia|unfold ncfg; cbn; unfold InputReportSize; lia].
Qed.

Lemma run_kept d0 ops : kept d0 -> inv T0 0 (start (input d0)) -> Forall (fun o => outcome_ok o = true) ops ->
  8 * Z.of_nat (length ops) < 18446744073709551600 -> kept (drun ncfg d0 ops).
Proof.
  intros K HI. induction ops as [|o ops IH] using rev_ind; intros Ho Hn; [exact K|].
  apply Forall_app in Ho as [Ho1 Ho2]. rewrite length_app in Hn. cbn [length] in Hn.
  destruct (ns2_device_run d0 ops HI ltac:(lia)) as [Eg Hg]. unfold drun. rewrite foldl_app. cbn [foldl].
  eapply exec_kept; [exact Hg|lia|exact Eg|apply IH; [done|lia]|by inversion Ho2].
Qed.
End Kept.

(** C13: a report is only presented in the mode in force.  In every run of the device, whatever updates of
    the report mode, the features and the metadata are interleaved with the claims of the transport, a poll
    of an enabled device that has no claim gets one, its bytes are in the layout and have the features
    selected at that moment, they still are when it is admitted, and so is the report EP0 shows. *)
Theorem switch2_mode_current o args now cfg d0 ops :
  New o args now = Ok (cfg, d0) -> Forall (fun o => outcome_ok o = true) ops ->
  8 * Z.of_nat (length ops) < 18446744073709551600 ->
  let d := drun cfg d0 ops in
  in_mode (inputReports d) (inputReportSnapshot (sn d)) /\
  (forall claim at_ now d', CanAdmitInput cfg claim at_ now d = (d', true) ->
     in_mode (inputReports d) (activePresentationReport (ac d))) /\
  (forall destination at_ now, reportsEnabled d = true -> Claim_Valid (activePresentationClaim (ac d)) = false ->
     (InputReportSize <= length destination)%nat ->
     exists d' claim dst, ClaimInput cfg destination at_ now d = (d', (claim, dst)) /\ Claim_Valid claim = true /\
       activePresentationClaim (ac d') = claim /\ activePresentationReport (ac d') = take InputReportSize dst /\
       in_mode (inputReports d') (take InputReportSize dst)).
Proof.
  intros (-> & K0 & HI & _)%ns2_new_kept Ho Hn d. pose proof (run_kept d0 ops K0 HI Ho Hn) as K. fold d in K.
  destruct (ns2_device_run d0 ops HI Hn) as [Eg Hg]. fold d in Eg. split_and!.
  - apply K.
  - intros claim at_ t d' E. unfold CanAdmitInput in E. case_if_in E; [discriminate|].
    destruct (CanAdmitInputPresentation T0 ncfg claim at_ t (input d)) as [s ok] eqn:Ea. injection E as _ ->.
    unfold CanAdmitInputPresentation in Ea. destruct (claimMatches ncfg claim (input d)) eqn:HM; [|discriminate].
    apply claimMatches_spec in HM as [Hc _]. destruct (k_claim d K Hc) as (_ & _ & _ & _ & -> & _). by apply K.
  - intros destination at_ t He Ha Hl.
    destruct (claim_kept _ _ destination at_ t d Hg Hn Eg K He Ha Hl) as (d' & c & dst & E & _ & Hv & Ec & Ed & Hm).
    by exists d', c, dst.
Qed.

(** C14: input reaches the host in order through the device.  Whatever calls of clients, transports and
    hosts are interleaved, the device's scheduler is exactly where its own methods, called in that order,
    take it; so what was committed followed by what is still to be presented is strictly increasing, every
    button change accepted in the current producer epoch is committed or still owed to the host, no report
    changes its bytes, and the claim the device remembers is the one the scheduler would resolve. *)
Theorem switch2_input_ordered o args now cfg d0 ops :
  New o args now = Ok (cfg, d0) -> Forall (fun o => outcome_ok o = true) ops ->
  8 * Z.of_nat (length ops) < 18446744073709551600 ->
  let d := drun cfg d0 ops in
  let g := grun cfg (input d0) (all_calls cfg d0 ops) in
  input d = sc g /\
  StronglySorted Z.lt (committed g ++ ords (unresolved T0 (sc g))) /\
  (forall i, i ∈ accepted g -> i ∈ committed g \/ i ∈ ords (owed T0 (sc g))) /\
  (forall i b b', (i, b) ∈ exposed g -> (i, b') ∈ exposed g -> b = b') /\
  (hasClaim (cl (input d)) = true -> claimMatches cfg (activePresentationClaim (ac d)) (input d) = true /\
     activePresentationReport (ac d) = claimedData (cl (input d)) /\
     activePresentationState (ac d) = e_state (claimed (cl (input d)))).
Proof.
  intros (-> & K0 & HI & _)%ns2_new_kept Ho Hn d g. pose proof (run_kept d0 ops K0 HI Ho Hn) as K. fold d in K.
  destruct (ns2_device_run d0 ops HI Hn) as [Eg Hg]. fold d in Eg. fold g in Eg, Hg. split_and!.
  - by symmetry.
  - apply Hg.
  - intros i Hi. exact (Forall_elem _ _ _ (i_accepted _ _ _ Hg) Hi).
  - apply Hg.
  - intros Hc. destruct (k_claim d K Hc) as (Hv & Et & Egn & Es & E1 & E2). split; [|done].
    rewrite <-Eg in *. by apply (claim_matches _ g _ Hg).
Qed.

(** *** A concrete run *)

Definition demo_device : NS2Pro :=
  match New None (Some no_args) 1 as r return match r with Ok _ => NS2Pro | Err _ => unit end with
  | Ok (_, d) => d
  | Err _ => tt
  end.

Definition demo_pressed : InputState :=
  {| Buttons := 0x2; LX := StickCenter; LY := StickCenter; RX := StickCenter; RY := 5000; AccelX := -1; AccelY := 2; AccelZ := 3;
     GyroX := 4; GyroY := 5; GyroZ := -6 |}.

Definition start_reports : list Z := [cmdUSB; 0x91; 0x01; subUSBStartReports; 0; 0; 0; 0].
Definition select_common : list Z := [cmdUSB; 0x91; 0x02; subUSBSelectReport; 0; 0; 0; 0; ReportIDCommon].

(** Reports are started, a press is claimed in the Pro layout, then the host selects the common one. *)
Definition demo_run : list dop :=
  [DCommand start_reports 10; DPublish 1 demo_pressed 20 20; DClaim (zeros 64) 30 30; DCommand select_common 40].

Lemma switch2_mode_current_witness :
  New None (Some no_args) 1 = Ok (ncfg, demo_device) /\
  in_mode (inputReports (drun ncfg demo_device demo_run)) (inputReportSnapshot (sn (drun ncfg demo_device demo_run))) /\
  exists d' claim dst, ClaimInput ncfg (zeros 64) 50 50 (drun ncfg demo_device demo_run) = (d', (claim, dst)) /\
    Claim_Valid claim = true /\ in_mode (inputReports d') (take InputReportSize dst).
Proof.
  destruct (switch2_mode_current None (Some no_args) 1 ncfg demo_device demo_run) as (H1 & _ & H2);
    [reflexivity|repeat constructor|reflexivity|].
  split; [reflexivity|]. split; [exact H1|].
  destruct (H2 (zeros 64) 50 50) as (d' & c & dst & E & Hv & _ & _ & Hm); [vm_compute; reflexivity..|reflexivity|].
  exists d', c, dst. split; [exact E|]. split; [exact Hv|exact Hm].
Defined.

Lemma switch2_input_ordered_witness :
  let g := grun ncfg (input demo_device) (all_calls ncfg demo_device (take 3 demo_run)) in
  input (drun ncfg demo_device (take 3 demo_run)) = sc g /\
  StronglySorted Z.lt (committed g ++ ords (unresolved T0 (sc g))) /\ accepted g = [2].
Proof.
  destruct (switch2_input_ordered None (Some no_args) 1 ncfg demo_device (take 3 demo_run)) as (H1 & H2 & _);
    [reflexivity|repeat constructor|reflexivity|].
  split; [exact H1|]. split; [exact H2|]. vm_compute. reflexivity.
Defined.

(** The claimed report of the old layout is not admitted; the host reads the neutral report and then the press,
    both in the common layout, with counters one and two. *)
Example mode_change_fences :
  let d := drun ncfg demo_device (take 3 demo_run) in
  let claim := activePresentationClaim (ac d) in
  let d1 := drun ncfg d [DCommand select_common 40] in
  let '(d2, r1) := nextInputReport ncfg 50 51 52 d1 in
  let '(d3, r2) := nextInputReport ncfg 60 61 62 d2 in
  take 2 (activePresentationReport (ac d)) = [ReportIDPro; 1] /\ snd (CanAdmitInput ncfg claim 45 45 d1) = false /\
  r1 = buildCommonReportInto NewInputState 1 0 3 defaultMetaState /\
  r2 = buildCommonReportInto demo_pressed 2 0 3 defaultMetaState /\ bulkInQueue (pt d3) = [
    [3; 1; 1; 0x0D; 0x10; 0x78; 0; 0; 1; 0; 0; 0]; [3; 1; 2; 0x0A; 0x10; 0x78; 0; 0]].
Proof. vm_compute. split_and!; reflexivity. Qed.

(** A power status update changes nothing but the metadata of later reports: no claim is fenced, no counter
    moves and the serial stays. *)
Lemma status_never_fences status d d' : SetRuntimeStatusV1 status d = (d', StatusOk) ->
  cl (input d') = cl (input d) /\ ft (input d') = ft (input d) /\ ep (input d') = ep (input d) /\ ac d' = ac d /\ sn d' = sn d /\
  reportCounter8 (inputReports d') = reportCounter8 (inputReports d) /\
  reportCounter32 (inputReports d') = reportCounter32 (inputReports d) /\ serialNumber d' = serialNumber d /\
  BatteryLevel (q_meta (inputReports d')) <= BatteryMax /\ 2500 <= BatteryVolts (q_meta (inputReports d')) <= 5000.
Proof.
  unfold SetRuntimeStatusV1, Validate. case_if; [discriminate|]. case_if; [discriminate|]. case_if; [discriminate|].
  unfold serialNumber. destruct (metaState d) as [m|]; [|discriminate]. intros [= <-]. bool_prop. cbn. split_and!; try done; lia.
Qed.

Lemma layout_ids st c ts f m : byte_at (buildCommonReportInto st c ts f m) 0 = ReportIDCommon /\
  byte_at (buildProReportInto st c f m) 0 = ReportIDPro.
Proof.
  unfold buildCommonReportInto, buildProReportInto. destruct (common_bytes st) as (a1 & a2 & a3 & a4 & ->).
  destruct (pro_bytes st) as (b1 & b2 & b3 & ->). split; [by case_if|done].
Qed.

(** Reading the input report on EP0 shows the committed report, or its state in the other layout when that
    one is asked for. *)
Lemma control_reads_snapshot d id : kept d -> SupportsInputReportSnapshot id = true ->
  length (inputReportForID id d) = InputReportSize /\
  (id = 0 -> inputReportForID id d = inputReportSnapshot (sn d)) /\
  (id <> 0 -> byte_at (inputReportForID id d) 0 = id).
Proof.
  intros K Hs. pose proof (in_mode_length _ _ (k_snapshot d K)) as Hl.
  unfold inputReportForID, snapshotInputReportForIDInto. change (length (zeros InputReportSize)) with InputReportSize.
  change (Nat.min InputReportSize InputReportSize) with InputReportSize. change (0 <? InputReportSize)%nat with true. cbn [andb].
  rewrite (drop_ge (zeros _)), app_nil_r by done. case_if.
  - rewrite Nat.eqb_refl, take_ge by lia. split_and!; try done. intros Hn. rewrite (proj2 (Z.eqb_neq _ _) Hn) in Hb. by apply Z.eqb_eq in Hb.
  - apply orb_false_iff in Hb as [Hn%Z.eqb_neq _]. unfold SupportsInputReportSnapshot in Hs. rewrite (proj2 (Z.eqb_neq _ _) Hn) in Hs.
    unfold buildControlInto. change (length (zeros InputReportSize)) with InputReportSize.
    rewrite Nat.ltb_irrefl, (proj2 (Z.eqb_neq _ _) Hn), (drop_ge (zeros _)) by done.
    apply orb_true_iff in Hs as [Hs|Hs]; apply Z.eqb_eq in Hs; subst id.
    + rewrite Z.eqb_refl. change (64 =? Z.of_nat InputReportSize) with true. cbn [negb].
      rewrite !app_nil_r, Nat.eqb_refl, take_ge by (by rewrite length_common_report).
      split_and!; [apply length_common_report|done|]. intros _. by apply layout_ids.
    + change (ReportIDPro =? ReportIDCommon) with false. rewrite Z.eqb_refl. change (64 =? Z.of_nat InputReportSize) with true. cbn [negb].
      rewrite !app_nil_r, Nat.eqb_refl, take_ge by (by rewrite length_pro_report).
      split_and!; [apply length_pro_report|done|]. intros _. apply (layout_ids _ _ 0).
Qed.

(** Metadata sent without a serial puts the device back on the default one: when its stream ends it releases
    the serial another device was given and keeps its own taken. *)
Example meta_update_loses_serial :
  let serials := snd (register_serial [] []) in
  let '(mine, serials) := register_serial serials [] in
  let own := {| a_SerialNumber := Some mine; a_BatteryLevel := None; a_Charging := None; a_ExternalPower := None; a_BatteryVolts := None |} in
  let battery := {| a_SerialNumber := None; a_BatteryLevel := Some 5; a_Charging := None; a_ExternalPower := None; a_BatteryVolts := None |} in
  match New None (Some own) 1 with
  | Ok (_, d) =>
      match UpdateMetaState ncfg (Some battery) 5 d with
      | Some d => let '(_, serials') := stream_end ncfg 0 9 d serials in
          serialNumber d = DefaultSerial /\ taken serials' mine = true /\ taken serials' DefaultSerial = false
      | None => False
      end
  | Err _ => False
  end.
Proof. vm_compute. split_and!; reflexivity. Qed.
